(* ===== verification/_CoqProject ===== *)
-Q . S2P
Prelude.v
Snapshot.v
ValidityMask.v
ValidityMaskOps.v
MaskTheorems.v
ChunkInfo.v
ChunkInfoFacts.v
RowVersions.v
RowVersionsFacts.v
RowVersionsHistory.v
RowVersionTheorems.v
CatalogSet.v
CatalogSetFacts.v
CatalogTheorems.v
TransactionManager.v
TransactionManagerFacts.v
TransactionQueues.v
TransactionTheorems.v
StorageLock.v
LockTheorems.v
Dates.v
DatesFacts.v
DateText.v
DateTextFacts.v
DateTheorems.v
UpdateInfo.v
UpdateSegment.v
UpdateInfoFacts.v
UpdateLaws.v
UpdateVersions.v
UpdateChains.v
UpdateInvariant.v
UpdateSegmentFacts.v
UpdateSegmentSpec.v
UpdateSegmentSteps.v
UpdateWrite.v
UpdateOutcome.v
UpdateFetch.v
UpdateStatistics.v
UpdateSystem.v
UpdateTheorems.v
UndoBuffer.v
UndoBufferFacts.v
UndoTheorems.v
UpdateDatabase.v
RleCompression.v
RleScanFacts.v
RleReadFacts.v
RleWriteFacts.v
RleSegmentFacts.v
RleTheorems.v
Hugeint.v
HugeintFacts.v
HugeintDivisionFacts.v
Uhugeint.v
UhugeintFacts.v
HugeintTheorems.v
IntegerOps.v
IntegerOpsFacts.v
IntegerCast.v
IntegerCastFacts.v
IntegerTextFacts.v
IntegerDecimalFacts.v
NumberText.v
IntegerNumberFacts.v
IntegerSimpleFacts.v
HugeintCast.v
HugeintCastFacts.v
HugeintCastInstances.v
IntegerFormat.v
IntegerFormatFacts.v
DecimalCast.v
DecimalStoreFacts.v
DecimalCastFacts.v
DecimalTextFacts.v
DecimalFormatFacts.v
DecimalConvert.v
DecimalConvertFacts.v
IntegerTheorems.v
