(* ===== verification/Prelude.v ===== *)
(** * Verification of the DuckDB storage and transaction core

    DuckDB stores tables in row groups whose rows carry the ids of the transactions that inserted and
    deleted them, keeps the older values of updated columns in chains of infos and every catalog entry
    as a chain of versions, and lets a transaction see what was committed before it started. This
    development models the code that makes those promises, a compression codec that a checkpoint
    writes columns with, and of the execution engine the dates, the integers and the decimals, with
    their arithmetic, their text and the casts between them, and proves them. Source paths are relative
    to [src/] of the repository.

    ** The parts and how they interact

    - [Snapshot] ([common/constants.hpp], [common/constants.cpp], [transaction/transaction_data.hpp],
      [common/enums/scan_options.hpp]): the timeline of transaction ids and commit ids, visibility
      bounds, and [SnapshotView::Sees]. The class [WfView] is the contract between the components:
      [TransactionManager] proves it of every active transaction ([active_snapshots_wf]); the row
      versions and the catalog are verified against it.
    - [ValidityMask], [ValidityMaskOps], [MaskTheorems] ([common/types/validity_mask.hpp/.cpp], with
      the byte streams of [common/serializer]): bit masks as lists of 64-bit words; counting, setting,
      slicing, combining and (de)serializing them against row-by-row specifications.
    - [ChunkInfo], [ChunkInfoFacts] ([storage/table/chunk_info.cpp/.hpp], [transaction/delete_info.hpp],
      [DuckTransaction::PushDelete]): [ChunkVectorInfo], the version ids of one vector of rows in their
      three storage forms (constant, mask, array). [ChunkVectorInfo.insert_id] and [delete_id] are the
      abstraction: the ids of a row, whatever the form; [wf] is the invariant of the representation.
    - [RowVersions], [RowVersionsFacts], [RowVersionsHistory], [RowVersionTheorems] ([storage/table/row_version_manager.cpp],
      [VersionDeleteState] of [storage/table/row_group.cpp], the delete cases of
      [transaction/rollback_state.cpp] and [transaction/commit_state.cpp]): the version info of a row
      group, delete statements with their undo entries, commit, rollback, compression, checkpoint and
      reload. [row_insert_id], [row_delete_id] and [row_visible] lift the abstraction to row groups;
      [followed] relates the version info in memory to the blocks the last checkpoint left on disk.
    - [CatalogSet], [CatalogSetFacts], [CatalogTheorems] ([catalog/catalog_set.cpp],
      [catalog/catalog_entry.cpp]): version chains on an explicit heap, so that the moves of
      [unique_ptr]s and the parent pointers are the code's; [rep] is the heap invariant, [versions_of]
      the abstraction to a list of versions, newest first.
    - [TransactionManager], [TransactionManagerFacts], [TransactionTheorems]
      ([transaction/duck_transaction_manager.cpp]): starting, committing, rolling back and cleaning up
      transactions as a step relation ([step], [reachable]) with the invariant [Inv]; its last theorems
      put the manager together with the row versions and the catalog.
    - Update segments. [UpdateInfo] and [UpdateSegment] ([storage/table/update_segment.cpp/.hpp],
      [transaction/update_info.hpp]) are the definitions: an info is a sorted array of rows with values
      and a version number; a segment keeps, per vector, a root info with the newest values and a doubly
      linked chain of the infos that restore older ones, on an explicit memory ([infos]). The functions
      the segment selects by the type of its column are the fields of [SegmentFunctions], with two
      instances: fixed-size values over [ColumnType], and the validity column. [UpdateInfoFacts] and
      [UpdateLaws] prove the contract [SegmentLaws] of both instances; everything after is proved from
      that contract. [UpdateVersions] defines the abstraction, a history of versions per row;
      [UpdateChains] the chains as linked lists over the memory; [UpdateInvariant] the invariant
      [seg_inv] that ties them together; [UpdateSegmentFacts], [UpdateSegmentSpec],
      [UpdateSegmentSteps], [UpdateWrite], [UpdateOutcome], [UpdateFetch] and [UpdateStatistics] the
      specification of each operation; [UpdateSystem] the transition system of a segment and of the
      store of versions, and the simulation; [UpdateTheorems] the theorems and a concrete run.
    - [UndoBuffer], [UndoBufferFacts], [UndoTheorems] ([transaction/undo_buffer.cpp],
      [transaction/undo_buffer_allocator.cpp]): the undo entries of a transaction as bytes in a chain of
      blocks, with every pin and allocation failing as an oracle says; [represents] is the abstraction
      to the list of entries. The last theorems drive an update segment from the bytes.
    - [TransactionQueues], [UpdateDatabase]: the transaction manager and an update segment together, as
      one step relation ([db_step]); the manager's snapshots, commit ids and cleanup queue meet what
      [UpdateSystem] requires of a timeline.
    - Run-length compression. [RleCompression] ([storage/compression/rle.cpp], with what it uses of
      [compression_segment_reader.hpp/.cpp], [standard_compression_state.hpp/.cpp], [stats_writer.hpp]
      and [column_checkpoint_state.cpp]) is the whole codec: the state machine over the rows, the bytes
      of a segment, and every way of reading them back. A type of columns is an instance of [RleType]
      with the laws [RleTypeLaws]. The writer's abstraction is a list of runs ([encodes]); [stored]
      relates it to the bytes of a segment ([RleWriteFacts], [RleSegmentFacts]). Readers are specified
      against the runs of whatever layout they read ([layout_ok], [scan_at]; [RleScanFacts],
      [RleReadFacts]) in a logic for computations that may throw or be undefined ([sound]), so that
      the same lemmas give the results on segments the writer stored and the safety on any bytes
      ([RleTheorems]).
    - 128-bit integers. [Hugeint] ([common/hugeint.hpp], [common/types/hugeint.hpp/.cpp]) and [Uhugeint]
      ([common/types/uhugeint.hpp/.cpp]) are the signed and the unsigned type as pairs of 64-bit words,
      with both builds of the multiplication ([Platform]); [value] and [uvalue] are the integers they
      denote. [HugeintFacts], [HugeintDivisionFacts] and [UhugeintFacts] relate every operation on the
      words to the operation on the integers, [HugeintTheorems] states what the checked ones promise.
    - Integers and decimals. [IntegerOps] ([function/scalar/operator/add.cpp], [subtract.cpp],
      [multiply.cpp], [common/operator/numeric_cast.hpp]) is the checked arithmetic, with both versions
      of what depends on the compiler ([Compiler]). [IntegerCast]
      ([common/operator/integer_cast_operator.hpp]) reads integers from text: the loops are written once
      against the class [CastOperation], as the code's templates are, and its instances are integers of
      up to 64 bits ([IntegerCastOperation], [IntegerDecimalCastOperation]), 128-bit integers
      ([HugeintCast], of [common/operator/cast_operators.cpp]) and decimals ([DecimalCast], of
      [common/operator/decimal_cast_operators.hpp]), the last for any type a decimal is stored in
      ([DecimalStore]). [IntegerCastFacts] proves the loops against the laws of an operation
      ([CastOperationLaws], [IntegerOperationLaws]); [IntegerTextFacts], [IntegerDecimalFacts],
      [HugeintCastFacts] with [HugeintCastInstances], and [DecimalStoreFacts] with [DecimalCastFacts]
      discharge them. [NumberText] says what the characters of a number denote; [IntegerNumberFacts],
      [IntegerSimpleFacts] and [DecimalTextFacts] that the casts compute it. [IntegerFormat]
      ([common/types/cast_helpers.hpp/.cpp]) writes integers and decimals ([IntegerFormatFacts],
      [DecimalFormatFacts]); [DecimalConvert] ([cast_operators.cpp], [function/cast/decimal_cast.cpp])
      casts between integers and decimals ([DecimalConvertFacts]); [IntegerTheorems] states the results.
    - [StorageLock], [LockTheorems] ([storage/storage_lock.cpp]): the checkpoint lock as a step relation
      over any number of threads; a step is one critical section, and sleeping, spurious wake-ups and
      notifications that are still due are part of the state.
    - [Dates], [DatesFacts], [DateText], [DateTextFacts], [DateTheorems] ([common/types/date.cpp],
      [DateToStringCast] and [NumericHelper::FormatUnsigned] of [common/types/cast_helpers.hpp]): the
      conversions between 32-bit day numbers, civil dates and text, against the proleptic Gregorian
      calendar defined in [DatesFacts].

    ** What the theorems show

    Visibility: scans, counts and point lookups select exactly the rows whose insert id the reader
    sees and whose delete id it does not. Deletes: outcome of [Delete] on every branch, atomic undo of
    whole transactions, exact effect of commit. Maintenance: compression and cleanup change nothing
    that a snapshot at or after their bound can see; a checkpoint followed by a reload keeps the
    deletes before its bound, also when it returns the blocks on disk. Catalog: a lookup finds the newest version seen; pushes are invisible to
    others until commit, conflict with other writers, and undo exactly. Manager: snapshots are
    well-formed, commits become visible to exactly the later transactions, and what is queued for
    cleanup is superseded for every active transaction. Updates: a segment refines the store of
    versions, in which a read returns the newest version its snapshot sees and a write conflicts
    exactly with a version its transaction does not see; from this, repeatable reads, own writes, one
    writer per row, the point lookups, the committed-range scan of a checkpoint and the statistics; no
    operation is stuck on a dangling pointer. Undo buffer: a commit visits the entries in order, a
    revert exactly those the commit reached (unless a failing pin stopped it), a cleanup resumes where it failed, and payloads never
    overlap. Database: manager and segment together refine the store of versions. Run-length compression: compressing
    never fails, every read of a stored segment gives the rows of its part of the column, the statistics
    cover it, the analysis bounds its size, and reading arbitrary bytes stays inside of the segment.
    128-bit integers: every operation is exact modulo [2 ^ 128], the checked ones return the exact
    result or throw, up to the exceptions the theorems name; division terminates; the two builds of
    the signed multiplication agree; texts are the decimal representation.
    Integers and decimals: checked operations return the exact result or [false]; a text of an integer is
    cast to its value exactly when the type holds it, a number with decimals to its value rounded half
    away from zero, and behind a minus unsigned types read zeros only; every cast of any text ends inside of its buffer; texts written fill the buffer
    computed for them and are read back; casts between decimals and integers round half away from zero.
    The instances also show where the code does something else ([IntegerRun]).
    Lock: mutual exclusion, no lost wake-up, progress. Dates: total, free of 32-bit overflow, inverse to
    each other, and the text form parses back.

    ** Conventions

    A [w]-bit integer is the [Z] it denotes with the wrap-around written out ([u64], [i32], [ck32]);
    counts and indexes that cannot overflow are [nat]. A function that can throw returns a [result], one
    whose undefined behaviour matters as well (array accesses, signed overflow) a [checked] result.
    Reading past an array gives 0 ([rd]); the theorems carry the lengths that rule it out.
    [STANDARD_VECTOR_SIZE] is a class parameter ([VectorSize]), as it is a build option of the code;
    the witnesses use small sizes. Loops over index ranges are [for_range]; the remaining loops have
    fuel: 64 turns for the bit count of a word, the size of the heap for version chains (chains do
    not repeat an entry), 14701 turns for the 400-year intervals of a 32-bit day number, the length
    of the buffer for the date parser and six turns (twelve digits) for the digits of a year, the
    number of infos in memory for the chains of an update segment, the number of values for a binary
    search, the sum of both lengths for a merge, one turn per byte for the entries of an undo block and
    the number of blocks for a chain of them, the entries of a segment for the validation of its runs,
    the remaining entries and rows for its scans, 64 turns for the bits of a word, depth two for the
    mutually recursive division of 128-bit integers and 39 turns for their digits. The casts of text take
    the length of the buffer, 20 turns for the first digit of a 64-bit word, 863 for dropping 38 of at most
    32768 decimals at a time, and as many turns as the code counts for exponents; the texts of integers
    take ten turns of two digits, and two groups of 17 digits before the rest of a 128-bit value. The
    theorems show that the result is reached.

    ** Not modelled

    Mutexes appear as the atomicity of the operations they protect. Memory management (fixed-size
    allocator, buffer manager) is left out except for the pins and allocations of the undo buffer; so
    are the metadata blocks behind a checkpoint's byte stream, indexes and the WAL, [WriteToWAL] of the
    undo buffer included. Update segments of strings are not modelled (the string heap and the string
    statistics), nor NaN and signed zero in columns of floating point: a column type has an equality
    that is decidable and an order; the conversions between 128-bit integers and floating point are not
    modelled either. Of the casts, floating point, the rescaling of decimals from and to the 128-bit store,
    decimals as booleans and the vectors around the values are not modelled, and a number with an exponent
    has a theorem for integers of up to 64 bits only; the texts of the errors are left out.
    [std::sort] is a parameter with its documented result. The switches over the physical types that
    select the functions of a segment are the choice of an instance. A
    commit id equal to [MAX_COMMIT_ID] is excluded: it would collide with the version of the root
    infos, and the code's check at the start of a transaction comes one too late. Of a checkpoint only the run-length
    codec is modelled: segments whose statistics are constant are replaced by constants before they are
    written, and where a block puts a segment is the hypothesis [placed]. The database of
    [UpdateDatabase] has one column, and its transactions interleave by whole calls. In the catalog the
    dependency manager and the default generator are parameters, the order of names in a scan is not
    kept, a rename is modelled but has no theorem, and the calls into the entries of an undo and an
    alter that change no version ([Rollback], [UndoAlter], [SetAsRoot], the local storage's
    [table_entry]) are left out. Of the undo buffer's entries other than updates it is kept whether
    committing them, and reverting that, throws; a database whose revert threw is not followed further. In [TransactionManager] the WAL write, the actual
    checkpoint and the commit of the undo buffer are the two error flags of [CommitTransaction]. The
    transaction manager's timestamps are assumed not to be exhausted at a commit, which the code checks
    only when a transaction starts. *)

From stdpp Require Export prelude strings list gmap.
From Stdlib Require Export ZArith Lia ZifyNat.

Local Open Scope Z_scope.

(** ** Scope and hint databases of the development *)

Declare Scope duckdb_scope.
Delimit Scope duckdb_scope with duckdb.
#[global] Open Scope duckdb_scope.

Create HintDb duckdb discriminated.
Create Rewrite HintDb duckdb.

(** ** Exceptions

    The kinds of [duckdb::Exception] the modelled code throws, with the constant part of the
    message; a C++ function that can throw returns a [result]. *)

Inductive exception :=
  | InternalException (msg : string)
  | TransactionException (msg : string)
  | CatalogException (msg : string)
  | OutOfRangeException (msg : string)
  | ConversionException (msg : string)
  | InvalidInputException (msg : string)
  | SerializationException (msg : string)
  | DataCorruptionException (msg : string)
  | IOException (msg : string).

Inductive result (A : Type) :=
  | Ok (a : A)
  | Throw (e : exception).
Arguments Ok {A} a.
Arguments Throw {A} e.

#[export] Instance exception_eq_dec : EqDecision exception.
Proof. solve_decision. Defined.

#[export] Instance result_ret : MRet result := fun A a => Ok a.
#[export] Instance result_bind : MBind result := fun A B f m =>
  match m with Ok a => f a | Throw e => Throw e end.

Definition is_ok {A} (r : result A) : bool :=
  match r with Ok _ => true | Throw _ => false end.

Lemma result_bind_ok {A B} (f : A -> result B) (m : result A) (b : B) :
  (m ≫= f) = Ok b -> exists a, m = Ok a /\ f a = Ok b.
Proof. destruct m; simpl; intros; [eauto | discriminate]. Qed.

Lemma Ok_inj {A} (a b : A) : Ok a = Ok b -> a = b.
Proof. congruence. Qed.

(** ** Computations that may throw or be undefined

    [None] is undefined behaviour: an access outside of an array, the overflow of a signed integer, or
    a loop that does not end within its fuel. *)

Definition checked (A : Type) : Type := option (result A).
#[export] Instance checked_ret : MRet checked := fun A x => Some (Ok x).
#[export] Instance checked_bind : MBind checked := fun A B f m =>
  match m with Some (Ok x) => f x | Some (Throw e) => Some (Throw e) | None => None end.
Definition throw {A} (e : exception) : checked A := Some (Throw e).
(** An access to an array that is not bounds-checked. *)
Definition access {A} (l : list A) (i : nat) : checked A := Ok <$> l !! i.

(** ** Fixed-width integers

    A [w]-bit integer is the [Z] it denotes; [wrapu] and [wraps] write out the wrap-around of
    unsigned arithmetic and of two's complement conversions. *)

Definition wrapu (w z : Z) : Z := z mod 2 ^ w.
Definition wraps (w z : Z) : Z := (z + 2 ^ (w - 1)) mod 2 ^ w - 2 ^ (w - 1).

Abbreviation u64 := (wrapu 64).
Abbreviation i64 := (wraps 64).
Abbreviation u32 := (wrapu 32).
Abbreviation i32 := (wraps 32).

Definition in_u (w z : Z) : Prop := 0 <= z < 2 ^ w.
Definition in_s (w z : Z) : Prop := - 2 ^ (w - 1) <= z < 2 ^ (w - 1).

Definition u64_max : Z := 18446744073709551615.
Definition i64_max : Z := 9223372036854775807.
Definition i64_min : Z := -9223372036854775808.
Definition i32_max : Z := 2147483647.
Definition i32_min : Z := -2147483648.

Lemma wrapu_small w z : in_u w z -> wrapu w z = z.
Proof. unfold wrapu, in_u. apply Z.mod_small. Qed.

Lemma wrapu_range w z : 0 <= w -> in_u w (wrapu w z).
Proof. intros. apply Z.mod_pos_bound. lia. Qed.

Lemma wraps_small w z : 1 <= w -> in_s w z -> wraps w z = z.
Proof.
  unfold wraps, in_s. intros Hw Hz.
  assert (2 ^ w = 2 * 2 ^ (w - 1)) by (rewrite <- Z.pow_succ_r; [f_equal|]; lia).
  rewrite Z.mod_small; lia.
Qed.

Lemma wraps_range w z : 1 <= w -> in_s w (wraps w z).
Proof.
  unfold wraps, in_s. intros Hw.
  assert (2 ^ w = 2 * 2 ^ (w - 1)) by (rewrite <- Z.pow_succ_r; [f_equal|]; lia).
  pose proof (Z.mod_pos_bound (z + 2 ^ (w - 1)) (2 ^ w)). lia.
Qed.

(** Turns boolean integer tests of the context and the goal into propositions. *)
Ltac reflect_bools :=
  repeat match goal with
  | H : (_ && _)%bool = true |- _ => apply andb_true_iff in H; destruct H
  | H : (_ || _)%bool = false |- _ => apply orb_false_iff in H; destruct H
  | H : negb _ = true |- _ => apply negb_true_iff in H
  | H : negb _ = false |- _ => apply negb_false_iff in H
  | H : Z.eqb _ _ = true |- _ => apply Z.eqb_eq in H
  | H : Z.eqb _ _ = false |- _ => apply Z.eqb_neq in H
  | H : Z.ltb _ _ = true |- _ => apply Z.ltb_lt in H
  | H : Z.ltb _ _ = false |- _ => apply Z.ltb_ge in H
  | H : Z.leb _ _ = true |- _ => apply Z.leb_le in H
  | H : Z.leb _ _ = false |- _ => apply Z.leb_gt in H
  | H : Nat.eqb _ _ = true |- _ => apply Nat.eqb_eq in H
  | H : Nat.eqb _ _ = false |- _ => apply Nat.eqb_neq in H
  | H : Nat.ltb _ _ = true |- _ => apply Nat.ltb_lt in H
  | H : Nat.ltb _ _ = false |- _ => apply Nat.ltb_ge in H
  | H : Nat.leb _ _ = true |- _ => apply Nat.leb_le in H
  | H : Nat.leb _ _ = false |- _ => apply Nat.leb_gt in H
  end.

(** Case analysis on the scrutinee of a [match] or [if] of the goal, remembering the equation. *)
Ltac break_match :=
  match goal with
  | |- context [match ?x with _ => _ end] =>
      lazymatch x with
      | context [match _ with _ => _ end] => fail
      | _ => let E := fresh "E" in destruct x eqn:E
      end
  end.

Ltac break_match_in H :=
  match type of H with
  | context [match ?x with _ => _ end] =>
      lazymatch x with
      | context [match _ with _ => _ end] => fail
      | _ => let E := fresh "E" in destruct x eqn:E
      end
  end.

#[global] Arguments Nat.div : simpl never.
#[global] Arguments Nat.modulo : simpl never.

(** Linear arithmetic with division and remainder by constants, on [nat] and [Z]. *)
Ltac div_lia := zify; Z.to_euclidean_division_equations; lia.

(** ** Arrays and counted loops

    An array of fixed length is a list; reading past the end is undefined behaviour in C++, and
    [rd] returns 0 there: the theorems carry the length that rules it out. *)

Definition rd (l : list Z) (i : nat) : Z := default 0 (l !! i).

(** [for (i = a; i < b; i++) body] *)
Fixpoint for_loop {S : Type} (n i : nat) (body : nat -> S -> S) (s : S) : S :=
  match n with
  | O => s
  | Datatypes.S n' => for_loop n' (Datatypes.S i) body (body i s)
  end.

Definition for_range {S : Type} (a b : nat) (body : nat -> S -> S) (s : S) : S :=
  for_loop (b - a) a body s.

(** The loop invariant rule: [P i s] holds before the iteration with counter [i]. *)
Lemma for_range_ind {S : Type} (P : nat -> S -> Prop) (a b : nat) (body : nat -> S -> S) (s : S) :
  (a <= b)%nat -> P a s ->
  (forall i s, (a <= i < b)%nat -> P i s -> P (Datatypes.S i) (body i s)) ->
  P b (for_range a b body s).
Proof.
  unfold for_range. intros Hab. remember (b - a)%nat as n eqn:Hn.
  revert a s Hab Hn. induction n as [|n IH]; simpl; intros a s Hab Hn Ha Hstep.
  - by replace b with a by lia.
  - apply IH; [lia.. | apply Hstep; [lia | done] |].
    intros i s' Hi. apply Hstep. lia.
Qed.

Lemma for_range_ge {S : Type} (a b : nat) (body : nat -> S -> S) (s : S) :
  (b <= a)%nat -> for_range a b body s = s.
Proof. intros. unfold for_range. by replace (b - a)%nat with O by lia. Qed.

(** The last iteration of a loop. *)
Lemma for_range_S_r {S : Type} (a n : nat) (body : nat -> S -> S) (s : S) :
  (a <= n)%nat -> for_range a (Datatypes.S n) body s = body n (for_range a n body s).
Proof.
  unfold for_range. intros Hn. replace (Datatypes.S n - a)%nat with (Datatypes.S (n - a)) by lia.
  remember (n - a)%nat as k eqn:Hk. revert a s Hn Hk. induction k as [|k IH]; intros a s Hn Hk.
  - cbn. by replace a with n by lia.
  - change (for_loop (Datatypes.S (Datatypes.S k)) a body s) with (for_loop (Datatypes.S k) (Datatypes.S a) body (body a s)).
    rewrite IH by lia. done.
Qed.

Lemma rd_insert_eq (l : list Z) i x : (i < length l)%nat -> rd (<[i:=x]> l) i = x.
Proof. intros. unfold rd. by rewrite list_lookup_insert_eq. Qed.

Lemma rd_insert_ne (l : list Z) i j x : i <> j -> rd (<[i:=x]> l) j = rd l j.
Proof. intros. unfold rd. by rewrite list_lookup_insert_ne. Qed.

Lemma rd_replicate n x i : (i < n)%nat -> rd (replicate n x) i = x.
Proof. intros. unfold rd. by rewrite lookup_replicate_2. Qed.

#[export] Hint Resolve wrapu_small wraps_small wrapu_range wraps_range : duckdb.
#[export] Hint Rewrite @length_insert @length_replicate : duckdb.

(** ** Bits of unsigned words *)

Lemma testbit_wrapu w z k : 0 <= w -> 0 <= k -> Z.testbit (wrapu w z) k = (k <? w) && Z.testbit z k.
Proof.
  intros Hw Hk. unfold wrapu. destruct (Z.ltb_spec k w).
  - by rewrite Z.mod_pow2_bits_low.
  - by rewrite Z.mod_pow2_bits_high by lia.
Qed.

Lemma testbit_u_high w z k : in_u w z -> w <= k -> Z.testbit z k = false.
Proof.
  unfold in_u. intros Hz Hk.
  destruct (Z.eq_dec z 0) as [->|]; [apply Z.bits_0|].
  apply Z.bits_above_log2; [lia|]. apply Z.log2_lt_pow2; [lia|].
  eapply Z.lt_le_trans; [apply Hz|]. apply Z.pow_le_mono_r; lia.
Qed.

Lemma u_of_testbit w z : 0 <= w -> 0 <= z -> (forall k, w <= k -> Z.testbit z k = false) -> in_u w z.
Proof.
  intros Hw Hz Hbits. split; [done|].
  assert (Hmod : z = z mod 2 ^ w).
  { apply Z.bits_inj'. intros k Hk. destruct (Z.lt_ge_cases k w).
    - by rewrite Z.mod_pow2_bits_low by lia.
    - by rewrite Z.mod_pow2_bits_high, Hbits by lia. }
  rewrite Hmod. apply Z.mod_pos_bound. lia.
Qed.

Lemma land_pow2_testbit e i : 0 <= i -> negb (Z.land e (2 ^ i) =? 0) = Z.testbit e i.
Proof.
  intros Hi. destruct (Z.testbit e i) eqn:Ht.
  - apply negb_true_iff, Z.eqb_neq. intros H0.
    assert (Z.testbit (Z.land e (2 ^ i)) i = false) as H1 by (rewrite H0; apply Z.bits_0).
    rewrite Z.land_spec, Ht, Z.pow2_bits_true in H1 by done. done.
  - apply negb_false_iff, Z.eqb_eq. apply Z.bits_inj'. intros k Hk.
    rewrite Z.land_spec, Z.bits_0, Z.pow2_bits_eqb by done.
    destruct (Z.eqb_spec i k); subst; [by rewrite Ht | apply andb_false_r].
Qed.

Lemma in_u_land w a b : 0 <= w -> in_u w a -> 0 <= b -> in_u w (Z.land a b).
Proof.
  intros Hw Ha Hb. apply u_of_testbit; [done | apply Z.land_nonneg; destruct Ha; lia |].
  intros k Hk. by rewrite Z.land_spec, (testbit_u_high w a k).
Qed.

Lemma in_u_lor w a b : 0 <= w -> in_u w a -> in_u w b -> in_u w (Z.lor a b).
Proof.
  intros Hw Ha Hb. apply u_of_testbit; [done | apply Z.lor_nonneg; destruct Ha, Hb; lia |].
  intros k Hk. by rewrite Z.lor_spec, (testbit_u_high w a k), (testbit_u_high w b k).
Qed.

Lemma in_u_shiftr w a n : 0 <= w -> 0 <= n -> in_u w a -> in_u w (Z.shiftr a n).
Proof.
  intros Hw Hn Ha. apply u_of_testbit; [done | apply Z.shiftr_nonneg, Ha |].
  intros k Hk. rewrite Z.shiftr_spec by lia. apply (testbit_u_high w); [done | lia].
Qed.

#[export] Hint Resolve in_u_land in_u_lor in_u_shiftr : duckdb.

(** ** Row selections

    [rows p n] lists, in order, the rows below [n] that satisfy [p]: the reference against which
    the scan loops of the code are stated. *)

Definition rows (p : nat -> bool) (n : nat) : list nat := List.filter p (seq 0 n).
Definition count_rows (p : nat -> bool) (n : nat) : nat := length (rows p n).

Lemma rows_S p n : rows p (S n) = rows p n ++ (if p n then [n] else []).
Proof. unfold rows. rewrite seq_S, List.filter_app. cbn. by destruct (p n). Qed.

Lemma count_rows_S p n : count_rows p (S n) = (count_rows p n + if p n then 1 else 0)%nat.
Proof. unfold count_rows. rewrite rows_S, length_app. by destruct (p n). Qed.

Lemma rows_ext p q n : (forall i, (i < n)%nat -> p i = q i) -> rows p n = rows q n.
Proof.
  induction n as [|n IH]; intros H; [done|].
  rewrite !rows_S, H by lia. f_equal. apply IH. intros. apply H. lia.
Qed.

Lemma count_rows_ext p q n : (forall i, (i < n)%nat -> p i = q i) -> count_rows p n = count_rows q n.
Proof. intros H. unfold count_rows. by rewrite (rows_ext p q). Qed.

Lemma rows_all p n : (forall i, (i < n)%nat -> p i = true) -> rows p n = seq 0 n.
Proof.
  induction n as [|n IH]; intros H; [done|].
  rewrite rows_S, seq_S, H, IH; [done | intros; apply H; lia | lia].
Qed.

Lemma rows_none p n : (forall i, (i < n)%nat -> p i = false) -> rows p n = [].
Proof.
  induction n as [|n IH]; intros H; [done|].
  rewrite rows_S, H, IH; [done | intros; apply H; lia | lia].
Qed.

Lemma count_rows_le p n : (count_rows p n <= n)%nat.
Proof. induction n as [|n IH]; [done|]. rewrite count_rows_S. destruct (p n); lia. Qed.

Lemma count_rows_negb p n : (count_rows p n + count_rows (fun i => negb (p i)) n = n)%nat.
Proof. induction n as [|n IH]; [done|]. rewrite !count_rows_S. destruct (p n); cbn; lia. Qed.

Lemma count_rows_full p n : count_rows p n = n -> forall i, (i < n)%nat -> p i = true.
Proof.
  induction n as [|n IH]; [lia|]. rewrite count_rows_S. intros H i Hi.
  pose proof (count_rows_le p n). destruct (p n) eqn:E; [|lia].
  destruct (Nat.eq_dec i n); [by subst | apply IH; lia].
Qed.

Lemma count_rows_zero p n : count_rows p n = 0%nat -> forall i, (i < n)%nat -> p i = false.
Proof.
  induction n as [|n IH]; [lia|]. rewrite count_rows_S. intros H i Hi.
  destruct (p n) eqn:E; [lia|]. destruct (Nat.eq_dec i n); [by subst | apply IH; lia].
Qed.

Lemma elem_of_rows p n i : i ∈ rows p n <-> (i < n)%nat /\ p i = true.
Proof.
  unfold rows. rewrite list_elem_of_In, List.filter_In, in_seq. intuition lia.
Qed.

Lemma count_rows_shift p n :
  count_rows p (S n) = ((if p 0%nat then 1 else 0) + count_rows (fun i => p (S i)) n)%nat.
Proof.
  induction n as [|n IH]; [rewrite count_rows_S; cbn; lia|].
  rewrite count_rows_S, IH, (count_rows_S (fun i => p (S i))). lia.
Qed.

Lemma count_rows_add p m n :
  count_rows p (m + n) = (count_rows p m + count_rows (fun i => p (m + i)%nat) n)%nat.
Proof.
  induction n as [|n IH]; [rewrite Nat.add_0_r; cbn; lia|].
  rewrite Nat.add_succ_r, !count_rows_S, IH. lia.
Qed.

Lemma count_rows_bounded p r n :
  count_rows (fun i => p i && (i <? r)%nat) n = count_rows p (Nat.min r n).
Proof.
  induction n as [|n IH]; [by rewrite Nat.min_0_r|].
  rewrite count_rows_S, IH. destruct (Nat.ltb_spec n r).
  - rewrite !Nat.min_r by lia. rewrite count_rows_S, andb_true_r. done.
  - rewrite !Nat.min_l by lia. rewrite andb_false_r. lia.
Qed.

(** Tests over all rows below [n]. *)
Lemma forallb_seq (p : nat -> bool) n : forallb p (seq 0 n) = true <-> forall i, (i < n)%nat -> p i = true.
Proof.
  rewrite List.forallb_forall. split; intros H i Hi; apply H.
  - apply in_seq. lia.
  - apply in_seq in Hi. lia.
Qed.

Lemma existsb_seq (p : nat -> bool) n :
  existsb p (seq 0 n) = true <-> exists i, (i < n)%nat /\ p i = true.
Proof.
  rewrite List.existsb_exists. split; intros (i & Hi & Hp); exists i; (split; [|done]).
  - apply in_seq in Hi. lia.
  - apply in_seq. lia.
Qed.

(** ** Loops whose body can throw *)

Definition for_range_m {S : Type} (a b : nat) (body : nat -> S -> result S) (s : S) : result S :=
  for_range a b (fun i r => r ≫= body i) (mret s).

Lemma for_range_m_ind {S : Type} (P : nat -> S -> Prop) (a b : nat) (body : nat -> S -> result S) (s : S) :
  (a <= b)%nat -> P a s ->
  (forall i s, (a <= i < b)%nat -> P i s -> exists s', body i s = Ok s' /\ P (Datatypes.S i) s') ->
  exists s', for_range_m a b body s = Ok s' /\ P b s'.
Proof.
  intros Hab Ha Hstep.
  apply (for_range_ind (fun i r => exists s', r = Ok s' /\ P i s') a b); [done|by exists s|].
  intros i r Hi (s' & -> & Hs). cbn. by apply Hstep.
Qed.
