(* ===== verification/Snapshot.v ===== *)
(** * Snapshots: transaction ids, visibility bounds and what a transaction sees

    Models [common/constants.hpp], [common/constants.cpp] and
    [transaction/transaction_data.hpp]. *)

From S2P Require Import Prelude.
Local Open Scope Z_scope.

(** ** The transaction timeline (common/constants.cpp) *)

Definition SYSTEM_TRANSACTION_TIMESTAMP : Z := 1.
Definition TRANSACTION_ID_START : Z := 4611686018427388000.
Definition MAX_COMMIT_ID : Z := TRANSACTION_ID_START - 1.
Definition MAX_TRANSACTION_ID : Z := u64_max.
Definition NOT_DELETED_ID : Z := u64_max - 1.
Definition INVALID_INDEX : Z := u64 (-1).

(** ** [VisibilityBound]: an exclusive bound on the timeline *)

Module VisibilityBound.
Record t := mk { value : Z }.

Definition Through (timestamp : Z) : t := mk (u64 (timestamp + 1)).
Definition Before (timestamp : Z) : t := mk timestamp.
Definition AllCommitted : t := Through MAX_COMMIT_ID.
Definition IncludingUncommitted : t := mk MAX_TRANSACTION_ID.
Definition Min (a b : t) : t := if value a <? value b then a else b.
(** [operator<(timestamp, bound)], [operator>=] and [operator==] *)
Definition before (timestamp : Z) (bound : t) : bool := timestamp <? value bound.
Definition not_before (timestamp : Z) (bound : t) : bool := negb (before timestamp bound).
Definition eqb (a b : t) : bool := value a =? value b.

#[export] Instance eq_dec : EqDecision t.
Proof. solve_decision. Defined.
End VisibilityBound.

Notation "ts '<?b' b" := (VisibilityBound.before ts b) (at level 70) : duckdb_scope.
Notation "ts '>=?b' b" := (VisibilityBound.not_before ts b) (at level 70) : duckdb_scope.

(** ** What a transaction sees (transaction/transaction_data.hpp) *)

Definition IsCommitted (timestamp : Z) : bool := timestamp <=? MAX_COMMIT_ID.

Record SnapshotView := mkSnapshotView {
  transaction_id : Z;
  visibility_bound : VisibilityBound.t
}.

(** Below the bound, or written by this transaction. *)
Definition Sees (v : SnapshotView) (timestamp : Z) : bool :=
  (timestamp <?b visibility_bound v) || (timestamp =? transaction_id v).

(** [TransactionData::Unversioned]: for writes into a collection private to one transaction. *)
Definition Unversioned : SnapshotView := mkSnapshotView 0 (VisibilityBound.Before 0).

(** ** Scan options (common/enums/scan_options.hpp) *)

Inductive InsertedScanType := INSERTED_STANDARD | ALL_ROWS.
Inductive DeletedScanType := DELETED_STANDARD | INCLUDE_ALL_DELETED | OMIT_COMMITTED_DELETES.

Record ScanOptions := mkScanOptions {
  scan_view : SnapshotView;
  insert_type : InsertedScanType;
  delete_type : DeletedScanType
}.

(** [ScanOptions(TransactionData)]: both scan types default to STANDARD. *)
Definition scan_options_of (v : SnapshotView) : ScanOptions :=
  mkScanOptions v INSERTED_STANDARD DELETED_STANDARD.

(** ** The contract of a snapshot

    What the transaction manager promises about the view of every transaction it starts, and what
    the row versions and the catalog rely on: the bound lies on the commit part of the timeline,
    and the transaction's own id lies above every commit id and below [NOT_DELETED_ID]. *)

Class WfView (v : SnapshotView) : Prop := {
  wf_view_bound : 0 <= VisibilityBound.value (visibility_bound v) <= TRANSACTION_ID_START;
  wf_view_id : TRANSACTION_ID_START <= transaction_id v < NOT_DELETED_ID
}.

(** A view at which an id that marks "never deleted" is not seen. [WfView] implies it; the bound
    that includes uncommitted changes does not. *)
Definition HidesNotDeleted (v : SnapshotView) : Prop := Sees v NOT_DELETED_ID = false.

Lemma Sees_spec v ts :
  Sees v ts = true <->
  ts < VisibilityBound.value (visibility_bound v) \/ ts = transaction_id v.
Proof.
  unfold Sees, VisibilityBound.before. rewrite orb_true_iff, Z.ltb_lt, Z.eqb_eq. done.
Qed.

Lemma Sees_own v : Sees v (transaction_id v) = true.
Proof. apply Sees_spec. by right. Qed.

Lemma Sees_mono v v' ts :
  transaction_id v = transaction_id v' ->
  VisibilityBound.value (visibility_bound v) <= VisibilityBound.value (visibility_bound v') ->
  Sees v ts = true -> Sees v' ts = true.
Proof. rewrite !Sees_spec. intros -> ? [?|?]; [left; lia | by right]. Qed.

Lemma wf_view_hides v : WfView v -> HidesNotDeleted v.
Proof.
  intros [Hb Hi]. apply not_true_is_false. rewrite Sees_spec.
  unfold NOT_DELETED_ID, TRANSACTION_ID_START, u64_max in *. lia.
Qed.

(** A committed timestamp is seen exactly when it is below the bound. *)
Lemma Sees_committed v ts :
  WfView v -> IsCommitted ts = true ->
  Sees v ts = (ts <?b visibility_bound v).
Proof.
  intros [Hb Hi]. unfold IsCommitted, MAX_COMMIT_ID. intros Hc%Z.leb_le.
  unfold Sees. destruct (Z.eqb_spec ts (transaction_id v)); [lia|]. apply orb_false_r.
Qed.

(** Another transaction's uncommitted timestamp is never seen. *)
Lemma Sees_uncommitted v ts :
  WfView v -> IsCommitted ts = false -> ts <> transaction_id v -> Sees v ts = false.
Proof.
  intros [Hb Hi]. unfold IsCommitted, MAX_COMMIT_ID. intros Hc%Z.leb_gt Hne.
  apply not_true_is_false. rewrite Sees_spec. lia.
Qed.

#[export] Hint Resolve Sees_own wf_view_hides : duckdb.
