(* ===== verification/ValidityMask.v ===== *)
(** * Validity masks

    Models [common/types/validity_mask.hpp] and [common/types/validity_mask.cpp]: a bitmask of
    64-bit entries, absent when every row is valid, with its word-wise counting and slicing and its
    serialized form. [STANDARD_VECTOR_SIZE] is the build-time constant of [common/vector_size.hpp]. *)

From S2P Require Import Prelude.

Local Open Scope Z_scope.

(** The vector size the engine is built with: any power of two, 2048 unless the build says
    otherwise. *)
Class VectorSize := {
  STANDARD_VECTOR_SIZE : nat;
  vector_size_pow2 : exists k, STANDARD_VECTOR_SIZE = (2 ^ k)%nat
}.

Definition DEFAULT_STANDARD_VECTOR_SIZE : nat := (2 ^ 11)%nat.

Definition default_vector_size : VectorSize.
Proof. refine {| STANDARD_VECTOR_SIZE := DEFAULT_STANDARD_VECTOR_SIZE |}. by exists 11%nat. Defined.

Lemma vector_size_pos `{VS : VectorSize} : (0 < STANDARD_VECTOR_SIZE)%nat.
Proof. destruct vector_size_pow2 as [k ->]. pose proof (Nat.pow_nonzero 2 k). lia. Qed.
#[export] Hint Resolve vector_size_pos : duckdb.

(** ** Byte streams

    [WriteStream] appends the object representation (little-endian) of a value; [ReadStream] takes
    it from the front and throws when the stream is too short (common/serializer/memory_stream.cpp,
    [MemoryStream::ReadData]). *)

Module Stream.
(** [n] bytes of [z], least significant first. *)
Fixpoint le_bytes (n : nat) (z : Z) : list Z :=
  match n with O => [] | S n' => z mod 256 :: le_bytes n' (z / 256) end.

Fixpoint le_value (l : list Z) : Z :=
  match l with [] => 0 | b :: l' => b + 256 * le_value l' end.

Definition ReadData (n : nat) (s : list Z) : result (list Z * list Z) :=
  if (length s <? n)%nat
  then Throw (SerializationException
                "Failed to deserialize: not enough data in buffer to fulfill read request")
  else Ok (take n s, drop n s).

(** [Read<T>] for an unsigned [T] of [n] bytes. *)
Definition Read (n : nat) (s : list Z) : result (Z * list Z) :=
  '(bytes, s') ← ReadData n s; mret (le_value bytes, s').

Lemma length_le_bytes n z : length (le_bytes n z) = n.
Proof. revert z. induction n as [|n IH]; simpl; intros; [done | by rewrite IH]. Qed.

Lemma le_value_bytes n z : 0 <= z < 256 ^ Z.of_nat n -> le_value (le_bytes n z) = z.
Proof.
  revert z. induction n as [|n IH]; intros z Hz; [simpl in *; lia|].
  cbn [le_bytes le_value]. rewrite Nat2Z.inj_succ, Z.pow_succ_r in Hz by lia.
  rewrite IH; [pose proof (Z.div_mod z 256); lia|].
  split; [apply Z.div_pos; lia | apply Z.div_lt_upper_bound; lia].
Qed.

Lemma ReadData_app n bytes s : length bytes = n -> ReadData n (bytes ++ s) = Ok (bytes, s).
Proof.
  intros <-. unfold ReadData. rewrite length_app.
  destruct (Nat.ltb_spec (length bytes + length s) (length bytes)); [lia|].
  by rewrite take_app_length, drop_app_length.
Qed.

Lemma Read_app n z s : 0 <= z < 256 ^ Z.of_nat n -> Read n (le_bytes n z ++ s) = Ok (z, s).
Proof.
  intros Hz. unfold Read. rewrite ReadData_app by apply length_le_bytes.
  cbn. by rewrite le_value_bytes.
Qed.
End Stream.

(** ** The mask *)

Definition BITS_PER_VALUE : nat := 64.
Definition MAX_ENTRY : Z := u64 (Z.lnot 0).

Definition EntryCount (count : nat) : nat := ((count + (BITS_PER_VALUE - 1)) / BITS_PER_VALUE)%nat.

#[global] Arguments EntryCount : simpl never.

(** [validity_mask] is the entry buffer (a null pointer when every row is valid). *)
Record ValidityMask := mkValidityMask {
  validity_mask : option (list Z);
  capacity : nat
}.

(** [TemplatedValidityData(count)]: a buffer of all-valid entries. *)
Definition ValidityData (count : nat) : list Z := replicate (EntryCount count) MAX_ENTRY.

Definition empty_mask (target_count : nat) : ValidityMask := mkValidityMask None target_count.
Definition Reset (target_count : nat) (m : ValidityMask) : ValidityMask := mkValidityMask None target_count.
Definition Initialize (count : nat) (m : ValidityMask) : ValidityMask :=
  mkValidityMask (Some (ValidityData count)) count.

Definition CannotHaveNull (m : ValidityMask) : bool :=
  match validity_mask m with None => true | Some _ => false end.

Definition EnsureWritable (m : ValidityMask) : ValidityMask :=
  match validity_mask m with None => Initialize (capacity m) m | Some _ => m end.

Definition GetValidityEntry (m : ValidityMask) (entry_idx : nat) : Z :=
  match validity_mask m with None => MAX_ENTRY | Some d => rd d entry_idx end.

Definition AllValid (entry : Z) : bool := entry =? MAX_ENTRY.
Definition NoneValid (entry : Z) : bool := entry =? 0.

(** [RowIsValid(entry, idx_in_entry)]: [entry & (1 << idx_in_entry)] *)
Definition EntryRowIsValid (entry : Z) (idx_in_entry : nat) : bool :=
  negb (Z.land entry (u64 (Z.shiftl 1 (Z.of_nat idx_in_entry))) =? 0).

Definition GetEntryIndex (row_idx : nat) : nat * nat :=
  ((row_idx / BITS_PER_VALUE)%nat, (row_idx mod BITS_PER_VALUE)%nat).

(** [MAX_ENTRY >> (BITS_PER_VALUE - n)] *)
Definition EntryWithValidBits (n : nat) : Z :=
  if (n =? 0)%nat then 0 else Z.shiftr MAX_ENTRY (Z.of_nat (BITS_PER_VALUE - n)).

Definition RowIsValid (m : ValidityMask) (row_idx : nat) : bool :=
  match validity_mask m with
  | None => true
  | Some d => let '(entry_idx, idx_in_entry) := GetEntryIndex row_idx in
              EntryRowIsValid (rd d entry_idx) idx_in_entry
  end.

Definition SetValidUnsafe (row_idx : nat) (d : list Z) : list Z :=
  let '(entry_idx, idx_in_entry) := GetEntryIndex row_idx in
  <[entry_idx := Z.lor (rd d entry_idx) (u64 (Z.shiftl 1 (Z.of_nat idx_in_entry)))]> d.

Definition SetInvalidUnsafe (row_idx : nat) (d : list Z) : list Z :=
  let '(entry_idx, idx_in_entry) := GetEntryIndex row_idx in
  <[entry_idx := Z.land (rd d entry_idx)
                   (u64 (Z.lnot (u64 (Z.shiftl 1 (Z.of_nat idx_in_entry)))))]> d.

Definition SetValid (row_idx : nat) (m : ValidityMask) : ValidityMask :=
  match validity_mask m with
  | None => m
  | Some d => mkValidityMask (Some (SetValidUnsafe row_idx d)) (capacity m)
  end.

Definition SetInvalid (row_idx : nat) (m : ValidityMask) : ValidityMask :=
  let m := EnsureWritable m in
  match validity_mask m with
  | None => m
  | Some d => mkValidityMask (Some (SetInvalidUnsafe row_idx d)) (capacity m)
  end.

(** [Set]: a keyword of Rocq's vernacular. *)
Definition SetRow (row_idx : nat) (valid : bool) (m : ValidityMask) : ValidityMask :=
  if valid then SetValid row_idx m else SetInvalid row_idx m.

(** [while (entry) { entry &= entry - 1; ++valid; }]: at most 64 turns. *)
Fixpoint kernighan (fuel : nat) (entry : Z) (valid : nat) : nat :=
  match fuel with
  | O => valid
  | S fuel' => if entry =? 0 then valid
               else kernighan fuel' (Z.land entry (u64 (entry - 1))) (S valid)
  end.

Definition CountValid (m : ValidityMask) (count : nat) : nat :=
  if CannotHaveNull m || (count =? 0)%nat then count
  else
    let entry_count := EntryCount count in
    for_range 0 entry_count (fun entry_idx valid =>
      let entry := GetValidityEntry m entry_idx in
      if (S entry_idx =? entry_count)%nat && negb (count mod BITS_PER_VALUE =? 0)%nat then
        let shift := (BITS_PER_VALUE - count mod BITS_PER_VALUE)%nat in
        let mask := Z.shiftr MAX_ENTRY (Z.of_nat shift) in
        kernighan 64 (Z.land entry mask) valid
      else if AllValid entry then (valid + BITS_PER_VALUE)%nat
      else kernighan 64 entry valid) 0%nat.

Definition CheckAllValid (m : ValidityMask) (count : nat) : bool := (CountValid m count =? count)%nat.
Definition CheckAllInvalid (m : ValidityMask) (count : nat) : bool := (CountValid m count =? 0)%nat.

Definition SetRangeInvalid (count begin_entry end_entry : nat) (m : ValidityMask) : ValidityMask :=
  let m := EnsureWritable m in
  if (count =? 0)%nat then m
  else match validity_mask m with
  | None => m
  | Some d =>
      let last_entry_index := (EntryCount count - 1)%nat in
      let d := for_range begin_entry (Nat.min last_entry_index end_entry) (fun i d => <[i := 0]> d) d in
      if (end_entry <=? last_entry_index)%nat then mkValidityMask (Some d) (capacity m)
      else
        let last_entry_bits := (count mod BITS_PER_VALUE)%nat in
        let last := if (last_entry_bits =? 0)%nat then 0
                    else u64 (Z.shiftl MAX_ENTRY (Z.of_nat last_entry_bits)) in
        mkValidityMask (Some (<[last_entry_index := last]> d)) (capacity m)
  end.

Definition SetAllInvalid (count : nat) (m : ValidityMask) : ValidityMask :=
  SetRangeInvalid count 0 (EntryCount count) m.

Definition SetAllValid (count : nat) (m : ValidityMask) : ValidityMask :=
  let m := EnsureWritable m in
  if (count =? 0)%nat then m
  else match validity_mask m with
  | None => m
  | Some d =>
      let last_entry_index := (EntryCount count - 1)%nat in
      let d := for_range 0 last_entry_index (fun i d => <[i := MAX_ENTRY]> d) d in
      let last_entry_bits := (count mod BITS_PER_VALUE)%nat in
      let bits := if (last_entry_bits =? 0)%nat then MAX_ENTRY
                  else u64 (Z.lnot (u64 (Z.shiftl MAX_ENTRY (Z.of_nat last_entry_bits)))) in
      mkValidityMask (Some (<[last_entry_index := Z.lor (rd d last_entry_index) bits]> d)) (capacity m)
  end.

(** ** Serialization *)

Inductive ValiditySerialization := BITMASK | VALID_VALUES | INVALID_VALUES.

Definition serialization_tag (f : ValiditySerialization) : Z :=
  match f with BITMASK => 0 | VALID_VALUES => 1 | INVALID_VALUES => 2 end.

Definition ValidityMaskSize (count : nat) : nat := (EntryCount count * 8)%nat.

(** The object representation of the first [n] entries of the buffer. *)
Definition entry_bytes (n : nat) (d : list Z) : list Z :=
  flat_map (Stream.le_bytes 8) (take n d).

Fixpoint bytes_entries (n : nat) (bytes : list Z) : list Z :=
  match n with
  | O => []
  | S n' => Stream.le_value (take 8 bytes) :: bytes_entries n' (drop 8 bytes)
  end.

Definition Write (m : ValidityMask) (count : nat) : result (list Z) :=
  let valid_values := CountValid m count in
  let invalid_values := (count - valid_values)%nat in
  let bitmask_bytes := ValidityMaskSize count in
  let need_u32 := 65535 <=? Z.of_nat count in
  let bytes_per_value := if need_u32 then 4%nat else 2%nat in
  let valid_value_size := (bytes_per_value * valid_values + 4)%nat in
  let invalid_value_size := (bytes_per_value * invalid_values + 4)%nat in
  if (valid_value_size <? bitmask_bytes)%nat || (invalid_value_size <? bitmask_bytes)%nat then
    let serialize_valid := (valid_value_size <? invalid_value_size)%nat in
    let flag := if serialize_valid then VALID_VALUES else INVALID_VALUES in
    let n := Z.of_nat (Nat.min valid_values invalid_values) in
    if 2 ^ 32 <=? n then
      Throw (InternalException "Information loss on integer cast: value outside of target range")
    else
      mret (for_range 0 count (fun i out =>
              if Bool.eqb (RowIsValid m i) serialize_valid
              then out ++ Stream.le_bytes bytes_per_value (Z.of_nat i) else out)
            (Stream.le_bytes 1 (serialization_tag flag) ++ Stream.le_bytes 4 n))
  else
    mret (Stream.le_bytes 1 (serialization_tag BITMASK)
          ++ entry_bytes (EntryCount count) (default [] (validity_mask m))).

(** The loop of [Read] over the serialized indexes. *)
Fixpoint read_indexes (n count index_bytes : nat) (is_valid : bool) (m : ValidityMask) (s : list Z)
    : result (ValidityMask * list Z) :=
  match n with
  | O => mret (m, s)
  | S n' =>
      '(index, s) ← Stream.Read index_bytes s;
      if Z.of_nat count <=? index then
        Throw (DataCorruptionException "Corrupted validity mask: index exceeds the mask size")
      else read_indexes n' count index_bytes is_valid (SetRow (Z.to_nat index) is_valid m) s
  end.

Definition Read (m : ValidityMask) (s : list Z) (count : nat) : result (ValidityMask * list Z) :=
  let m := Initialize count m in
  '(flag, s) ← Stream.Read 1 s;
  if flag =? serialization_tag BITMASK then
    '(bytes, s) ← Stream.ReadData (ValidityMaskSize count) s;
    mret (mkValidityMask (Some (bytes_entries (EntryCount count) bytes)) (capacity m), s)
  else if (flag =? serialization_tag VALID_VALUES) || (flag =? serialization_tag INVALID_VALUES) then
    let is_u32 := 65535 <=? Z.of_nat count in
    let is_valid := flag =? serialization_tag VALID_VALUES in
    '(serialize_count, s) ← Stream.Read 4 s;
    if Z.of_nat count <? serialize_count then
      Throw (DataCorruptionException "Corrupted validity mask: entry count exceeds the mask size")
    else
      let m := if is_valid then SetAllInvalid count m else m in
      read_indexes (Z.to_nat serialize_count) count (if is_u32 then 4%nat else 2%nat) is_valid m s
  else Throw (DataCorruptionException "Corrupted validity mask: unrecognized serialization type").

(** ** Bits *)

Lemma max_entry_value : MAX_ENTRY = 2 ^ 64 - 1.
Proof. reflexivity. Qed.

Lemma max_entry_ones : MAX_ENTRY = Z.ones 64.
Proof. reflexivity. Qed.

Lemma testbit_max_entry k : 0 <= k -> Z.testbit MAX_ENTRY k = (k <? 64).
Proof.
  intros. rewrite max_entry_ones. destruct (Z.ltb_spec k 64).
  - by apply Z.ones_spec_low.
  - by apply Z.ones_spec_high.
Qed.

Lemma in_u_max_entry : in_u 64 MAX_ENTRY.
Proof. split; [done | reflexivity]. Qed.

Lemma bit_value i : (i < 64)%nat -> u64 (Z.shiftl 1 (Z.of_nat i)) = 2 ^ Z.of_nat i.
Proof.
  intros. rewrite Z.shiftl_1_l. apply wrapu_small. split; [lia|].
  apply Z.pow_lt_mono_r; lia.
Qed.

Lemma entry_row_valid e i : (i < 64)%nat -> EntryRowIsValid e i = Z.testbit e (Z.of_nat i).
Proof. intros. unfold EntryRowIsValid. rewrite bit_value by done. apply land_pow2_testbit. lia. Qed.

Lemma mod_bits_lt i : (i mod BITS_PER_VALUE < 64)%nat.
Proof. apply Nat.mod_upper_bound. done. Qed.
#[export] Hint Resolve mod_bits_lt in_u_max_entry : duckdb.

(** The bit of row [i] in a buffer of entries. *)
Definition bit (d : list Z) (i : nat) : bool :=
  Z.testbit (rd d (i / BITS_PER_VALUE)) (Z.of_nat (i mod BITS_PER_VALUE)).

#[global] Arguments bit : simpl never.
#[global] Arguments RowIsValid : simpl never.

Lemma row_is_valid_bit d cap i : RowIsValid (mkValidityMask (Some d) cap) i = bit d i.
Proof. unfold RowIsValid; cbn. apply entry_row_valid, mod_bits_lt. Qed.

(** Rows are equal when their entry and their position in it are. *)
Lemma row_split i : i = (BITS_PER_VALUE * (i / BITS_PER_VALUE) + i mod BITS_PER_VALUE)%nat.
Proof. apply Nat.div_mod. done. Qed.

Lemma row_eq_dec_split i j :
  i = j <-> (i / BITS_PER_VALUE = j / BITS_PER_VALUE /\ i mod BITS_PER_VALUE = j mod BITS_PER_VALUE)%nat.
Proof.
  split; [by intros -> |]. intros [H1 H2].
  rewrite (row_split i), (row_split j), H1, H2. done.
Qed.

Lemma bit_update d i j e :
  (i / BITS_PER_VALUE < length d)%nat ->
  bit (<[i / BITS_PER_VALUE := e]> d)%nat j =
  if decide (i / BITS_PER_VALUE = j / BITS_PER_VALUE)%nat
  then Z.testbit e (Z.of_nat (j mod BITS_PER_VALUE)) else bit d j.
Proof.
  intros Hlen. unfold bit. case_decide as Hd.
  - rewrite <- Hd. by rewrite rd_insert_eq.
  - by rewrite rd_insert_ne.
Qed.

Lemma bit_set_valid d i j :
  (i / BITS_PER_VALUE < length d)%nat ->
  bit (SetValidUnsafe i d) j = if decide (i = j) then true else bit d j.
Proof.
  intros Hlen. unfold SetValidUnsafe, GetEntryIndex.
  rewrite bit_update, bit_value by auto with duckdb.
  rewrite Z.lor_spec, Z.pow2_bits_eqb by lia.
  repeat case_decide; subst; try done.
  - by rewrite Z.eqb_refl, orb_true_r.
  - destruct (Z.eqb_spec (Z.of_nat (i mod BITS_PER_VALUE)) (Z.of_nat (j mod BITS_PER_VALUE))).
    + exfalso. assert (i = j) by (apply row_eq_dec_split; lia). done.
    + rewrite orb_false_r. unfold bit. congruence.
Qed.

Lemma bit_set_invalid d i j :
  (i / BITS_PER_VALUE < length d)%nat ->
  bit (SetInvalidUnsafe i d) j = if decide (i = j) then false else bit d j.
Proof.
  intros Hlen. unfold SetInvalidUnsafe, GetEntryIndex.
  rewrite bit_update, bit_value by auto with duckdb.
  pose proof (mod_bits_lt j).
  rewrite Z.land_spec, testbit_wrapu, Z.lnot_spec, Z.pow2_bits_eqb by lia.
  replace (Z.of_nat (j mod BITS_PER_VALUE) <? 64) with true by (symmetry; apply Z.ltb_lt; lia).
  repeat case_decide; subst; try done.
  - by rewrite Z.eqb_refl, andb_false_r.
  - destruct (Z.eqb_spec (Z.of_nat (i mod BITS_PER_VALUE)) (Z.of_nat (j mod BITS_PER_VALUE))).
    + exfalso. assert (i = j) by (apply row_eq_dec_split; lia). done.
    + rewrite andb_true_r. unfold bit. congruence.
Qed.

(** ** Counting set bits *)

Fixpoint pos_bits (p : positive) : nat :=
  match p with xH => 1 | xO q => pos_bits q | xI q => S (pos_bits q) end.
Definition bits_set (z : Z) : nat := match z with Zpos p => pos_bits p | _ => 0 end.

Lemma land_even_odd a b : Z.land (2 * a) (2 * b + 1) = 2 * Z.land a b.
Proof.
  apply Z.bits_inj'. intros k Hk. rewrite Z.land_spec.
  destruct (Z.eq_dec k 0) as [->|].
  - by rewrite !Z.testbit_even_0.
  - replace k with (Z.succ (k - 1)) by lia.
    by rewrite !Z.testbit_even_succ, Z.testbit_odd_succ, Z.land_spec by lia.
Qed.

(** [entry & (entry - 1)] clears one set bit. *)
Lemma bits_set_clear_lowest p :
  exists z, Z.land (Zpos p) (Zpos p - 1) = z /\ 0 <= z < Zpos p /\ S (bits_set z) = pos_bits p.
Proof.
  induction p as [p _|p [z [Hz [Hr Hc]]]|].
  - exists (Zpos (xO p)). split; [|split; [lia|done]].
    replace (Zpos p~1 - 1) with (Zpos p~0) by lia.
    apply Z.bits_inj'. intros k Hk. rewrite Z.land_spec.
    rewrite (Pos2Z.inj_xI p), (Pos2Z.inj_xO p). destruct (Z.eq_dec k 0) as [->|].
    + by rewrite Z.testbit_even_0, andb_false_r.
    + replace k with (Z.succ (k - 1)) by lia.
      rewrite Z.testbit_odd_succ, Z.testbit_even_succ by lia. apply andb_diag.
  - exists (2 * z). split; [|split; [lia|]].
    + rewrite (Pos2Z.inj_xO p). replace (2 * Zpos p - 1) with (2 * (Zpos p - 1) + 1) by lia.
      by rewrite land_even_odd, Hz.
    + cbn [pos_bits]. rewrite <- Hc. by destruct z.
  - by exists 0.
Qed.

Lemma kernighan_bits fuel e valid :
  in_u 64 e -> (bits_set e <= fuel)%nat -> kernighan fuel e valid = (valid + bits_set e)%nat.
Proof.
  revert e valid. induction fuel as [|fuel IH]; intros e valid He Hf; cbn [kernighan]; [lia|].
  destruct (Z.eqb_spec e 0) as [->|Hne]; [cbn; lia|].
  destruct e as [|p|p]; [done| |destruct He; lia].
  destruct (bits_set_clear_lowest p) as (z & Hz & Hr & Hc). unfold in_u in He.
  rewrite wrapu_small by (unfold in_u; lia).
  rewrite Hz, IH; cbn [bits_set] in *; [lia | unfold in_u; lia | lia].
Qed.

Lemma bits_set_count n e :
  in_u (Z.of_nat n) e -> bits_set e = count_rows (fun i => Z.testbit e (Z.of_nat i)) n.
Proof.
  revert e. induction n as [|n IH]; intros e He.
  - unfold in_u in He. cbn in He. by replace e with 0 by lia.
  - rewrite count_rows_shift, (count_rows_ext _ (fun i => Z.testbit (e / 2) (Z.of_nat i))).
    2: { intros i _. rewrite Nat2Z.inj_succ, Z.div2_bits; [done|lia]. }
    unfold in_u in He. rewrite Nat2Z.inj_succ, Z.pow_succ_r in He by lia.
    rewrite <- IH.
    + rewrite <- Z.div2_div. by destruct e as [|[p|p|]|p]; [..|lia].
    + split; [apply Z.div_pos; lia | apply Z.div_lt_upper_bound; lia].
Qed.

Lemma kernighan_count e valid :
  in_u 64 e -> kernighan 64 e valid = (valid + count_rows (fun i => Z.testbit e (Z.of_nat i)) 64)%nat.
Proof.
  intros He. rewrite <- (bits_set_count 64 e) by done. apply kernighan_bits; [done|].
  rewrite (bits_set_count 64 e) by done. apply count_rows_le.
Qed.

(** ** Well-formed masks *)

Definition mask_ok (m : ValidityMask) : Prop :=
  match validity_mask m with
  | None => True
  | Some d => length d = EntryCount (capacity m) /\ Forall (in_u 64) d
  end.

Lemma entry_count_bounds n :
  (n <= 64 * EntryCount n)%nat /\ (64 * EntryCount n < n + 64)%nat.
Proof. unfold EntryCount, BITS_PER_VALUE. div_lia. Qed.

Lemma row_entry_lt n i : (i < n)%nat -> (i / BITS_PER_VALUE < EntryCount n)%nat.
Proof. unfold EntryCount, BITS_PER_VALUE. div_lia. Qed.

Lemma entry_count_mono n k : (n <= k)%nat -> (EntryCount n <= EntryCount k)%nat.
Proof. unfold EntryCount, BITS_PER_VALUE. div_lia. Qed.
#[export] Hint Resolve row_entry_lt : duckdb.

Lemma in_u_rd w d i : 0 <= w -> Forall (in_u w) d -> in_u w (rd d i).
Proof.
  intros Hw Hd. unfold rd. destruct (d !! i) eqn:E; cbn.
  - eapply Forall_lookup_1; done.
  - split; lia.
Qed.

Lemma bit_entry d k i : (i < 64)%nat -> bit d (64 * k + i) = Z.testbit (rd d k) (Z.of_nat i).
Proof.
  intros Hi. unfold bit. f_equal; unfold BITS_PER_VALUE; [f_equal|f_equal].
  - rewrite Nat.mul_comm, Nat.div_add_l, Nat.div_small; lia.
  - rewrite Nat.add_comm, Nat.mul_comm, Nat.Div0.mod_add, Nat.mod_small; lia.
Qed.

Lemma bit_validity_data n i : (i < n)%nat -> bit (ValidityData n) i = true.
Proof.
  intros Hi. unfold bit, ValidityData. rewrite rd_replicate by auto with duckdb.
  rewrite testbit_max_entry by lia. apply Z.ltb_lt. pose proof (mod_bits_lt i). lia.
Qed.

Lemma mask_ok_initialize n m : mask_ok (Initialize n m).
Proof.
  split; cbn; [apply length_replicate | apply Forall_replicate, in_u_max_entry].
Qed.

Lemma row_is_valid_initialize n m i : (i < n)%nat -> RowIsValid (Initialize n m) i = true.
Proof. intros. unfold Initialize. rewrite row_is_valid_bit. by apply bit_validity_data. Qed.

Lemma mask_ok_ensure m : mask_ok m -> mask_ok (EnsureWritable m).
Proof. unfold EnsureWritable. destruct m as [[d|] cap]; cbn; [done|]. intros _. apply (mask_ok_initialize cap (empty_mask cap)). Qed.

Lemma row_is_valid_ensure m i : (i < capacity m)%nat -> RowIsValid (EnsureWritable m) i = RowIsValid m i.
Proof. destruct m as [[d|] cap]; cbn; [done|]. intros. by apply (row_is_valid_initialize cap (empty_mask cap)). Qed.

Lemma capacity_ensure m : capacity (EnsureWritable m) = capacity m.
Proof. by destruct m as [[d|] cap]. Qed.

Lemma ensure_writable_some m :
  mask_ok m -> exists d, EnsureWritable m = mkValidityMask (Some d) (capacity m) /\
    length d = EntryCount (capacity m) /\ Forall (in_u 64) d /\
    forall i, (i < capacity m)%nat -> bit d i = RowIsValid m i.
Proof.
  destruct m as [[d|] cap]; intros Hok.
  - exists d. destruct Hok as [Hl Hd]. split_and!; try done.
    intros i Hi. symmetry. apply row_is_valid_bit.
  - exists (ValidityData cap). split_and!; [done | apply length_replicate | |].
    + apply Forall_replicate, in_u_max_entry.
    + intros i Hi. by rewrite bit_validity_data.
Qed.

Lemma capacity_set m i v : capacity (SetRow i v m) = capacity m.
Proof. destruct m as [[d|] cap], v; done. Qed.

Lemma mask_ok_set m i v : mask_ok m -> mask_ok (SetRow i v m).
Proof.
  intros Hok. destruct v; cbn.
  - unfold SetValid. destruct m as [[d|] cap]; [|done]. destruct Hok as [Hl Hd]; cbn in *.
    split; cbn; [by rewrite length_insert|]. apply Forall_insert; [done|].
    unfold SetValidUnsafe, GetEntryIndex. rewrite bit_value by auto with duckdb.
    apply in_u_lor; [lia|by apply in_u_rd|].
    pose proof (mod_bits_lt i). split; [lia | apply Z.pow_lt_mono_r; lia].
  - unfold SetInvalid. destruct (ensure_writable_some m Hok) as (d & -> & Hl & Hd & _).
    split; cbn; [by rewrite length_insert|]. apply Forall_insert; [done|].
    apply in_u_land; [lia | by apply in_u_rd |]. apply wrapu_range. lia.
Qed.

(** Writing one row changes that row and no other. *)
Lemma row_is_valid_set m i v j :
  mask_ok m -> (i < capacity m)%nat -> (j < capacity m)%nat ->
  RowIsValid (SetRow i v m) j = if decide (i = j) then v else RowIsValid m j.
Proof.
  intros Hok Hi Hj. destruct v; cbn.
  - unfold SetValid. destruct m as [[d|] cap]; cbn in *; [|by case_decide].
    destruct Hok as [Hl Hd]. rewrite !row_is_valid_bit. apply bit_set_valid.
    cbn in Hl. rewrite Hl. auto with duckdb.
  - unfold SetInvalid. destruct (ensure_writable_some m Hok) as (d & -> & Hl & Hd & Hb).
    cbn [validity_mask capacity]. rewrite row_is_valid_bit, bit_set_invalid by (rewrite Hl; auto with duckdb).
    case_decide; [done | by apply Hb].
Qed.

(** ** Word-wise counting *)

Lemma entry_count_rows d k n : (n <= 64)%nat ->
  count_rows (fun i => bit d (64 * k + i)%nat) n
  = count_rows (fun i => Z.testbit (rd d k) (Z.of_nat i)) n.
Proof. intros. apply count_rows_ext. intros i Hi. apply bit_entry. lia. Qed.

(** One turn of the loop of [CountValid], on entry [k]. *)
Lemma count_valid_entry d count k valid :
  Forall (in_u 64) d -> (k < EntryCount count)%nat ->
  (let entry := rd d k in
   if (S k =? EntryCount count)%nat && negb (count mod BITS_PER_VALUE =? 0)%nat then
     kernighan 64 (Z.land entry (Z.shiftr MAX_ENTRY
       (Z.of_nat (BITS_PER_VALUE - count mod BITS_PER_VALUE)))) valid
   else if AllValid entry then (valid + BITS_PER_VALUE)%nat else kernighan 64 entry valid)
  = (valid + count_rows (fun i => bit d (64 * k + i)%nat)
               (Nat.min (64 * S k) count - 64 * k))%nat.
Proof.
  intros Hd Hk. cbv zeta. pose proof (in_u_rd 64 d k ltac:(lia) Hd) as He.
  rewrite entry_count_rows by lia. pose proof (entry_count_bounds count).
  destruct (andb _ _) eqn:Hlast.
  - reflect_bools. pose proof (mod_bits_lt count).
    assert (count = 64 * k + count mod BITS_PER_VALUE)%nat as Hc.
    { unfold EntryCount, BITS_PER_VALUE in *. div_lia. }
    assert (count mod BITS_PER_VALUE < 64)%nat by done.
    rewrite kernighan_count by (apply in_u_land; [lia | done | apply Z.shiftr_nonneg; done]).
    rewrite (count_rows_ext _ (fun i => Z.testbit (rd d k) (Z.of_nat i)
               && (i <? count mod BITS_PER_VALUE)%nat)).
    + rewrite count_rows_bounded. do 2 f_equal. unfold BITS_PER_VALUE in *. lia.
    + intros i Hi. rewrite Z.land_spec, Z.shiftr_spec, testbit_max_entry by lia. f_equal.
      unfold BITS_PER_VALUE in *.
      destruct (Nat.ltb_spec i (count mod 64)); [apply Z.ltb_lt | apply Z.ltb_ge]; lia.
  - assert (Nat.min (64 * S k) count - 64 * k = 64)%nat as ->.
    { apply andb_false_iff in Hlast. destruct Hlast; reflect_bools; unfold EntryCount, BITS_PER_VALUE in *.
      - div_lia.
      - div_lia. }
    unfold AllValid. destruct (Z.eqb_spec (rd d k) MAX_ENTRY) as [->|_].
    + done.
    + by apply kernighan_count.
Qed.

(** [CountValid] counts, word by word, exactly the rows [RowIsValid] holds of. *)
Lemma count_valid_rows m count :
  mask_ok m -> (count <= capacity m)%nat -> CountValid m count = count_rows (RowIsValid m) count.
Proof.
  intros Hok Hcap. unfold CountValid. destruct m as [[d|] cap]; cbn [CannotHaveNull validity_mask].
  2: { unfold count_rows. rewrite rows_all; [by rewrite length_seq | done]. }
  destruct Hok as [Hl Hd]. destruct (Nat.eqb_spec count 0) as [->|Hc]; cbn [orb]; [done|].
  rewrite (count_rows_ext _ (bit d)) by (intros; apply row_is_valid_bit).
  pose proof (entry_count_bounds count).
  replace count with (Nat.min (64 * EntryCount count) count) at 2 by lia.
  apply (for_range_ind (fun k v => v = count_rows (bit d) (Nat.min (64 * k) count))); [lia|done|].
  intros k valid Hk ->. cbn [GetValidityEntry validity_mask].
  rewrite count_valid_entry by (done || lia).
  assert (64 * k < count)%nat by (unfold EntryCount, BITS_PER_VALUE in *; div_lia).
  replace (Nat.min (64 * S k) count)
    with (Nat.min (64 * k) count + (Nat.min (64 * S k) count - 64 * k))%nat at 2 by lia.
  rewrite count_rows_add. by replace (Nat.min (64 * k) count) with (64 * k)%nat by lia.
Qed.

Lemma check_all_valid_spec m count :
  mask_ok m -> (count <= capacity m)%nat ->
  CheckAllValid m count = true <-> forall i, (i < count)%nat -> RowIsValid m i = true.
Proof.
  intros. unfold CheckAllValid. rewrite count_valid_rows, Nat.eqb_eq by done. split.
  - apply count_rows_full.
  - intros Hall. unfold count_rows. by rewrite rows_all, length_seq.
Qed.

Lemma check_all_invalid_spec m count :
  mask_ok m -> (count <= capacity m)%nat ->
  CheckAllInvalid m count = true <-> forall i, (i < count)%nat -> RowIsValid m i = false.
Proof.
  intros. unfold CheckAllInvalid. rewrite count_valid_rows, Nat.eqb_eq by done. split.
  - apply count_rows_zero.
  - intros Hall. unfold count_rows. by rewrite rows_none.
Qed.

(** ** Setting ranges *)

(** A counted loop that overwrites consecutive entries with a constant. *)
Lemma fill_entries a b (c : Z) d :
  (a <= b)%nat -> (b <= length d)%nat ->
  let d' := for_range a b (fun i d => <[i := c]> d) d in
  length d' = length d /\
  forall k, rd d' k = if decide (a <= k < b)%nat then c else rd d k.
Proof.
  intros Hab Hb. cbv zeta.
  apply (for_range_ind (fun i d' => length d' = length d /\
    forall k, rd d' k = if decide (a <= k < i)%nat then c else rd d k) a b); [done | |].
  - split; [done|]. intros k. case_decide; [lia|done].
  - intros i d' Hi [Hl Hrd]. split; [by rewrite length_insert|]. intros k.
    destruct (decide (i = k)) as [->|Hne].
    + rewrite rd_insert_eq by lia. case_decide; [done|lia].
    + rewrite rd_insert_ne, Hrd by done. repeat case_decide; (done || lia).
Qed.

Lemma set_all_invalid_spec m count :
  mask_ok m -> (count <= capacity m)%nat ->
  mask_ok (SetAllInvalid count m) /\ capacity (SetAllInvalid count m) = capacity m /\
  forall i, (i < count)%nat -> RowIsValid (SetAllInvalid count m) i = false.
Proof.
  intros Hok Hcap. unfold SetAllInvalid, SetRangeInvalid.
  destruct (ensure_writable_some m Hok) as (d & Hew & Hl & Hd & _). rewrite Hew. cbn [validity_mask capacity].
  destruct (Nat.eqb_spec count 0) as [->|Hc]; [split_and!; [done..|lia]|].
  pose proof (entry_count_bounds count). pose proof (entry_count_mono count (capacity m) Hcap).
  destruct (Nat.leb_spec (EntryCount count) (EntryCount count - 1)); [lia|].
  rewrite Nat.min_l by lia.
  destruct (fill_entries 0 (EntryCount count - 1) 0 d) as [Hl' Hrd]; [lia..|].
  set (d1 := for_range _ _ _ d) in *. set (last := if _ : bool then _ else _).
  assert (in_u 64 last) as Hlast.
  { subst last. case_match; [split; lia | apply wrapu_range; lia]. }
  split_and!; [split | done |].
  - cbn. rewrite length_insert. lia.
  - cbn. apply Forall_insert; [|done]. apply Forall_lookup_2. intros k x Hx.
    assert (x = rd d1 k) as -> by (unfold rd; by rewrite Hx).
    rewrite Hrd. case_decide; [split; lia | by apply in_u_rd].
  - intros i Hi. rewrite row_is_valid_bit. unfold bit. pose proof (mod_bits_lt i).
    destruct (decide (i / BITS_PER_VALUE = EntryCount count - 1)%nat) as [Heq|Hne].
    + rewrite Heq, rd_insert_eq by lia. subst last.
      destruct (Nat.eqb_spec (count mod BITS_PER_VALUE) 0); [apply Z.bits_0|].
      rewrite testbit_wrapu, Z.shiftl_spec by lia.
      rewrite Z.testbit_neg_r; [apply andb_false_r|].
      unfold EntryCount, BITS_PER_VALUE in *. div_lia.
    + rewrite rd_insert_ne, Hrd by done. case_decide; [apply Z.bits_0|].
      exfalso. pose proof (row_entry_lt count i Hi). lia.
Qed.

(** ** Round trip of the serialized form *)

Lemma bytes_entries_app n d rest :
  Forall (in_u 64) d -> length d = n ->
  bytes_entries n (flat_map (Stream.le_bytes 8) d ++ rest) = d.
Proof.
  revert d. induction n as [|n IH]; intros d Hd Hl; destruct d as [|e d]; try done.
  inversion_clear Hd as [|?? He Hd']. cbn [bytes_entries flat_map].
  rewrite <- app_assoc.
  assert (length (Stream.le_bytes 8 e) = 8%nat) as H8 by apply Stream.length_le_bytes.
  rewrite take_app_length', drop_app_length' by done. f_equal.
  - apply Stream.le_value_bytes. exact He.
  - apply IH; [done | by injection Hl].
Qed.

Lemma length_entry_bytes (d : list Z) : length (flat_map (Stream.le_bytes 8) d) = (length d * 8)%nat.
Proof.
  induction d as [|e d IH]; [done|]. cbn [flat_map length].
  rewrite length_app, Stream.length_le_bytes, IH. lia.
Qed.

Lemma write_rows_loop (p : nat -> bool) b n init :
  for_range 0 n (fun i out => if p i then out ++ Stream.le_bytes b (Z.of_nat i) else out) init
  = init ++ flat_map (fun i => Stream.le_bytes b (Z.of_nat i)) (rows p n).
Proof.
  apply (for_range_ind (fun i out => out = init ++ flat_map (fun i => Stream.le_bytes b (Z.of_nat i)) (rows p i)) 0 n);
    [lia | by rewrite app_nil_r |].
  intros i out _ ->. rewrite rows_S, flat_map_app. destruct (p i); cbn; [|by rewrite app_nil_r].
  by rewrite app_nil_r, app_assoc.
Qed.

(** Reading back the indexes [l] sets exactly those rows. *)
Lemma read_indexes_spec (l : list nat) count b v m rest :
  mask_ok m -> capacity m = count ->
  Forall (fun i => i < count)%nat l -> Z.of_nat count <= 256 ^ Z.of_nat b ->
  exists m', read_indexes (length l) count b v m (flat_map (fun i => Stream.le_bytes b (Z.of_nat i)) l ++ rest) = Ok (m', rest)
    /\ mask_ok m' /\ capacity m' = count
    /\ forall j, (j < count)%nat -> RowIsValid m' j = if decide (j ∈ l) then v else RowIsValid m j.
Proof.
  intros Hok Hcap Hl Hb. revert m Hok Hcap. induction Hl as [|i l Hi Hl IH]; intros m Hok Hcap.
  - exists m. split_and!; done.
  - destruct (IH (SetRow i v m)) as (m' & Hr & Hok' & Hcap' & Hrows);
      [by apply mask_ok_set | by rewrite capacity_set |].
    exists m'. split_and!; [|done..|].
    + cbn [length read_indexes flat_map]. rewrite <- app_assoc.
      rewrite Stream.Read_app by lia. cbn.
      destruct (Z.leb_spec (Z.of_nat count) (Z.of_nat i)); [lia|]. rewrite Nat2Z.id. exact Hr.
    + intros j Hj. rewrite Hrows, row_is_valid_set by (done || lia).
      destruct (decide (j ∈ l)), (decide (i = j)), (decide (j ∈ i :: l)) as [Hin|Hin]; try done;
        rewrite elem_of_cons in Hin; intuition congruence.
Qed.

(** The index encodings: [l] are the rows whose validity is [v], and the others have the opposite
    one. *)
Lemma read_written_indexes m count v m0 rest :
  mask_ok m -> capacity m = count -> Z.of_nat count < 2 ^ 32 ->
  let l := rows (fun i => Bool.eqb (RowIsValid m i) v) count in
  exists m', Read m0
      ((Stream.le_bytes 1 (serialization_tag (if v then VALID_VALUES else INVALID_VALUES))
        ++ Stream.le_bytes 4 (Z.of_nat (length l))
        ++ flat_map (fun i => Stream.le_bytes (if 65535 <=? Z.of_nat count then 4 else 2) (Z.of_nat i)) l)
       ++ rest) count = Ok (m', rest)
    /\ mask_ok m' /\ capacity m' = count
    /\ forall i, (i < count)%nat -> RowIsValid m' i = RowIsValid m i.
Proof.
  intros Hok Hcap H32 l. unfold Read. rewrite <- !app_assoc.
  rewrite Stream.Read_app by (by destruct v). cbn [mbind result_bind].
  assert (length l <= count)%nat as Hll by (apply (count_rows_le (fun i => Bool.eqb (RowIsValid m i) v))).
  set (m1 := if v then SetAllInvalid count (Initialize count m0) else Initialize count m0).
  assert (mask_ok m1 /\ capacity m1 = count /\
          forall i, (i < count)%nat -> RowIsValid m1 i = negb v) as (Hok1 & Hcap1 & Hrow1).
  { subst m1. destruct v.
    - apply (set_all_invalid_spec (Initialize count m0)); [apply mask_ok_initialize | done].
    - split_and!; [apply mask_ok_initialize | done | apply row_is_valid_initialize]. }
  set (b := if 65535 <=? Z.of_nat count then 4%nat else 2%nat).
  destruct (read_indexes_spec l count b v m1 rest) as (m' & Hr & Hok' & Hcap' & Hrow'); [done|done| | |].
  { apply Forall_forall. intros i Hi%elem_of_rows. lia. }
  { subst b. destruct (Z.leb_spec 65535 (Z.of_nat count)); lia. }
  exists m'. split_and!; [|done..|].
  - destruct v; cbn [serialization_tag Z.eqb orb Pos.eqb];
      rewrite Stream.Read_app by lia; cbn [mbind result_bind];
      (destruct (Z.ltb_spec (Z.of_nat count) (Z.of_nat (length l))); [lia|]);
      rewrite Nat2Z.id; exact Hr.
  - intros i Hi. rewrite Hrow', Hrow1 by done. subst l.
    destruct (decide _) as [Hin|Hin]; rewrite elem_of_rows in Hin.
    + symmetry. apply Bool.eqb_prop, Hin.
    + destruct (Bool.eqb (RowIsValid m i) v) eqn:E; [naive_solver|].
      by destruct (RowIsValid m i), v.
Qed.

(** Reading a written mask gives back the same rows, whichever of the three encodings [Write]
    chose, and leaves the rest of the stream. *)
Lemma read_write_mask m count bytes m0 rest :
  mask_ok m -> capacity m = count -> Z.of_nat count < 2 ^ 32 -> Write m count = Ok bytes ->
  exists m', Read m0 (bytes ++ rest) count = Ok (m', rest) /\ mask_ok m' /\ capacity m' = count
    /\ forall i, (i < count)%nat -> RowIsValid m' i = RowIsValid m i.
Proof.
  intros Hok Hcap H32. unfold Write. rewrite count_valid_rows by (done || lia).
  set (valid := count_rows (RowIsValid m) count).
  pose proof (count_rows_negb (RowIsValid m) count) as Hsum.
  set (bpv := if 65535 <=? Z.of_nat count then 4%nat else 2%nat).
  assert (2 <= bpv <= 4)%nat by (subst bpv; case_match; lia).
  destruct (orb _ _) eqn:Hsmall.
  - set (sv := (bpv * valid + 4 <? bpv * (count - valid) + 4)%nat).
    case_match; [done|]. intros <-%Ok_inj.
    destruct (read_written_indexes m count sv m0 rest) as (m' & Hr & ?); [done..|].
    exists m'. split; [|done]. rewrite write_rows_loop, <- (app_assoc (Stream.le_bytes 1 _)).
    rewrite <- Hr. do 6 f_equal. symmetry.
    change (length (rows ?p count)) with (count_rows p count). subst sv.
    destruct (Nat.ltb_spec (bpv * valid + 4) (bpv * (count - valid) + 4)).
    + rewrite (count_rows_ext _ (RowIsValid m)) by (intros i _; by destruct (RowIsValid m i)).
      fold valid. nia.
    + rewrite (count_rows_ext _ (fun i => negb (RowIsValid m i))) by (intros i _; by destruct (RowIsValid m i)).
      subst valid. nia.
  - intros <-%Ok_inj. destruct m as [[d|] cap]; cbn [capacity] in Hcap; subst cap.
    + destruct Hok as [Hl Hd]; cbn in Hl. exists (mkValidityMask (Some d) count).
      split_and!; [|done..]. unfold Read. rewrite <- app_assoc, Stream.Read_app by done.
      cbn [mbind result_bind serialization_tag Z.eqb default option_fmap]. unfold entry_bytes.
      rewrite take_ge by (cbn; lia). cbn [default]. rewrite Stream.ReadData_app; cbn.
      * rewrite <- (app_nil_r (flat_map _ _)), bytes_entries_app by done. done.
      * rewrite length_entry_bytes. unfold ValidityMaskSize. cbn. lia.
    + (* no buffer: only the empty mask is written as a bitmask *)
      apply orb_false_iff in Hsmall as [_ Hsmall]. reflect_bools. subst valid.
      unfold count_rows in Hsmall. rewrite rows_all, length_seq, Nat.sub_diag in Hsmall by done.
      assert (count = 0%nat) as ->.
      { unfold ValidityMaskSize, EntryCount, BITS_PER_VALUE in Hsmall. div_lia. }
      exists (mkValidityMask (Some []) 0).
      split_and!; [reflexivity | split; [done|constructor] | done | intros; lia].
Qed.

Lemma write_mask_total m count :
  Z.of_nat count < 2 ^ 32 -> exists bytes, Write m count = Ok bytes.
Proof.
  intros H32. unfold Write. cbv zeta.
  destruct (_ || _); [|by eexists].
  destruct (Z.leb_spec (2 ^ 32) (Z.of_nat (Nat.min (CountValid m count) (count - CountValid m count)))); [lia|].
  by eexists.
Qed.
