(* ===== verification/ValidityMaskOps.v ===== *)
(** * Copying, slicing and combining validity masks

    Models the operations of [common/types/validity_mask.cpp] and [common/types/validity_mask.hpp]
    that move bits between masks a word at a time: [SliceInPlace], [Slice], [CopySel], [Resize],
    [Combine] and [Copy], and shows that they agree with row-by-row copies. The source and the target
    of a copy are different masks; [Initialize(other)] shares the buffer of [other], which the model
    copies. *)

From S2P Require Import Prelude ValidityMask.

Local Open Scope Z_scope.

Definition IsAligned (count : nat) : bool := (count mod BITS_PER_VALUE =? 0)%nat.

(** [MAX_ENTRY >> (BITS_PER_VALUE - ragged)] and [MAX_ENTRY << ragged] *)
Definition low_bits (ragged : nat) : Z := Z.shiftr MAX_ENTRY (Z.of_nat (BITS_PER_VALUE - ragged)).
Definition high_bits (ragged : nat) : Z := u64 (Z.shiftl MAX_ENTRY (Z.of_nat ragged)).

(** [memset] or [memcpy] of the entire units, then the ragged last entry. *)
Definition slice_aligned (source : option (list Z)) (target_offset source_offset count : nat) (d : list Z) : list Z :=
  let ragged := (count mod BITS_PER_VALUE)%nat in
  let entire_units := (count / BITS_PER_VALUE)%nat in
  let source_offset_entries := EntryCount source_offset in
  let target_offset_entries := EntryCount target_offset in
  let source_entry := fun k => match source with None => MAX_ENTRY | Some s => rd s (source_offset_entries + k) end in
  let d := for_range 0 entire_units (fun k d => <[(target_offset_entries + k)%nat := source_entry k]> d) d in
  if (ragged =? 0)%nat then d
  else
    let src_entry := Z.land (source_entry entire_units) (low_bits ragged) in
    let tgt_entry := Z.land (rd d (target_offset_entries + entire_units)) (high_bits ragged) in
    <[(target_offset_entries + entire_units)%nat := Z.lor tgt_entry src_entry]> d.

(** The source is not aligned: every target entry takes the head of one source entry and the tail of
    the next; the state of the loop is the source entry read last and the target buffer. *)
Definition slice_shifted (s : list Z) (target_offset source_offset count : nat) (d : list Z) : list Z :=
  let ragged := (count mod BITS_PER_VALUE)%nat in
  let entire_units := (count / BITS_PER_VALUE)%nat in
  let tail := (source_offset mod BITS_PER_VALUE)%nat in
  let head := (BITS_PER_VALUE - tail)%nat in
  let source_validity := (source_offset / BITS_PER_VALUE)%nat in
  let target_validity := (target_offset / BITS_PER_VALUE)%nat in
  let '(src_entry, d) :=
    for_range 0 entire_units (fun i '(src_entry, d) =>
      let tgt_entry := Z.shiftr src_entry (Z.of_nat tail) in
      let src_entry := rd s (source_validity + S i) in
      let tgt_entry := Z.lor tgt_entry (u64 (Z.shiftl src_entry (Z.of_nat head))) in
      (src_entry, <[(target_validity + i)%nat := tgt_entry]> d)) (rd s source_validity, d) in
  if (ragged =? 0)%nat then d
  else
    let tgt_entry := Z.shiftr src_entry (Z.of_nat tail) in
    let tgt_entry := if (head <? ragged)%nat
                     then Z.lor tgt_entry (u64 (Z.shiftl (rd s (source_validity + S entire_units)) (Z.of_nat head)))
                     else tgt_entry in
    let tgt_entry := Z.land tgt_entry (low_bits ragged) in
    let tgt_entry := Z.lor tgt_entry (Z.land (rd d (target_validity + entire_units)) (high_bits ragged)) in
    <[(target_validity + entire_units)%nat := tgt_entry]> d.

(** Reading through the null pointer of a mask without a buffer. *)
Definition null_read : exception := InternalException "read through the null pointer of a validity mask".

Definition SliceInPlace (other : ValidityMask) (target_offset source_offset count : nat) (m : ValidityMask)
    : result ValidityMask :=
  if CannotHaveNull m && CannotHaveNull other then mret m
  else
    let m := EnsureWritable m in
    let d := default [] (validity_mask m) in
    if IsAligned source_offset && IsAligned target_offset then
      mret (mkValidityMask (Some (slice_aligned (validity_mask other) target_offset source_offset count d)) (capacity m))
    else if IsAligned target_offset then
      match validity_mask other with
      | None => Throw null_read
      | Some s => mret (mkValidityMask (Some (slice_shifted s target_offset source_offset count d)) (capacity m))
      end
    else
      mret (for_range 0 count (fun i m => SetRow (target_offset + i) (RowIsValid other (source_offset + i)) m) m).

Definition Slice (other : ValidityMask) (source_offset count : nat) (m : ValidityMask) : result ValidityMask :=
  if CannotHaveNull other then mret (mkValidityMask None (capacity m))
  else if (source_offset =? 0)%nat then mret other
  else SliceInPlace other 0 source_offset count (empty_mask count).

(** [sel] is the selection vector, [None] when it is not set (the identity). *)
Definition CopySel (other : ValidityMask) (sel : option (list nat)) (source_offset target_offset copy_count : nat)
    (m : ValidityMask) : result ValidityMask :=
  if CannotHaveNull other && CannotHaveNull m then mret m
  else if match sel with None => true | Some _ => false end && IsAligned source_offset && IsAligned target_offset
  then SliceInPlace other target_offset source_offset copy_count m
  else
    mret (for_range 0 copy_count (fun i m =>
      let source_idx := match sel with None => source_offset + i | Some l => nth (source_offset + i) l 0 end%nat in
      SetRow (target_offset + i) (RowIsValid other source_idx) m) m).

Definition Resize (new_size : nat) (m : ValidityMask) : ValidityMask :=
  let old_size := capacity m in
  if (new_size <=? old_size)%nat then m
  else match validity_mask m with
  | None => mkValidityMask None new_size
  | Some d =>
      let new_owned_data := ValidityData new_size in
      let new_owned_data := for_range 0 (EntryCount old_size) (fun k n => <[k := rd d k]> n) new_owned_data in
      let new_owned_data := for_range (EntryCount old_size) (EntryCount new_size)
                              (fun k n => <[k := MAX_ENTRY]> n) new_owned_data in
      mkValidityMask (Some new_owned_data) new_size
  end.

(** [Combine(other, count)]; [same_buffer] tells whether both masks share one buffer. *)
Definition Combine (other : ValidityMask) (same_buffer : bool) (count : nat) (m : ValidityMask) : ValidityMask :=
  match validity_mask other, validity_mask m with
  | None, _ => m
  | Some _, None => other
  | Some other_data, Some data =>
      if same_buffer then m
      else mkValidityMask (Some (for_range 0 (EntryCount count)
             (fun k r => <[k := Z.land (rd data k) (rd other_data k)]> r) (ValidityData count))) count
  end.

(** [TemplatedValidityMask::Copy] *)
Definition Copy (other : ValidityMask) (count : nat) : ValidityMask :=
  match validity_mask other with
  | None => mkValidityMask None count
  | Some d => mkValidityMask (Some ((fun k => rd d k) <$> seq 0 (EntryCount count))) count
  end.

(** ** Words *)

Lemma bit_insert d e z j :
  (e < length d)%nat ->
  bit (<[e := z]> d) j
  = if decide (e = j / BITS_PER_VALUE)%nat then Z.testbit z (Z.of_nat (j mod BITS_PER_VALUE)) else bit d j.
Proof.
  intros He. unfold bit. case_decide as H.
  - subst e. by rewrite rd_insert_eq.
  - by rewrite rd_insert_ne.
Qed.

(** A loop that overwrites the entries [t .. t+n-1] with the words [f 0 .. f (n-1)]. *)
Lemma word_loop (f : nat -> Z) t n d :
  (t + n <= length d)%nat -> Forall (in_u 64) d -> (forall k, (k < n)%nat -> in_u 64 (f k)) ->
  let d' := for_range 0 n (fun k d => <[(t + k)%nat := f k]> d) d in
  length d' = length d /\ Forall (in_u 64) d' /\
  forall j, bit d' j = if decide (t <= j / BITS_PER_VALUE < t + n)%nat
    then Z.testbit (f (j / BITS_PER_VALUE - t)%nat) (Z.of_nat (j mod BITS_PER_VALUE)) else bit d j.
Proof.
  intros Hlen Hd Hf. cbv zeta.
  apply (for_range_ind (fun k d' => (k <= n)%nat -> length d' = length d /\ Forall (in_u 64) d' /\
    forall j, bit d' j = if decide (t <= j / BITS_PER_VALUE < t + k)%nat
      then Z.testbit (f (j / BITS_PER_VALUE - t)%nat) (Z.of_nat (j mod BITS_PER_VALUE)) else bit d j) 0 n); try lia.
  - intros _. split_and!; [done|done|]. intros j. by rewrite decide_False by lia.
  - intros k d' Hk IH _. destruct (IH ltac:(lia)) as (Hl & Hall & Hbits). split_and!.
    + by rewrite length_insert.
    + apply Forall_insert; [done|]. apply Hf. lia.
    + intros j. rewrite bit_insert by lia. case_decide as He.
      * rewrite decide_True by lia. by replace (j / BITS_PER_VALUE - t)%nat with k by lia.
      * rewrite Hbits. destruct (decide (t <= j / BITS_PER_VALUE < t + k)%nat).
        -- by rewrite decide_True by lia.
        -- by rewrite decide_False by lia.
Qed.

Lemma testbit_low_bits r b : (0 < r <= 64)%nat -> (b < 64)%nat -> Z.testbit (low_bits r) (Z.of_nat b) = (b <? r)%nat.
Proof.
  intros Hr Hb. unfold low_bits. rewrite Z.shiftr_spec, testbit_max_entry by lia. unfold BITS_PER_VALUE.
  destruct (Z.ltb_spec (Z.of_nat b + Z.of_nat (64 - r)) 64), (Nat.ltb_spec b r); try done; lia.
Qed.

Lemma testbit_high_bits r b : (r <= 64)%nat -> (b < 64)%nat -> Z.testbit (high_bits r) (Z.of_nat b) = (r <=? b)%nat.
Proof.
  intros Hr Hb. unfold high_bits. rewrite testbit_wrapu, Z.shiftl_spec by lia.
  rewrite (proj2 (Z.ltb_lt _ _)) by lia. cbn [andb].
  destruct (Nat.leb_spec r b).
  - rewrite testbit_max_entry by lia. apply Z.ltb_lt. lia.
  - apply Z.testbit_neg_r. lia.
Qed.

Lemma in_u_low_bits r : (0 < r <= 64)%nat -> in_u 64 (low_bits r).
Proof. intros. apply in_u_shiftr; [lia|lia|apply in_u_max_entry]. Qed.

Lemma in_u_high_bits r : in_u 64 (high_bits r).
Proof. apply wrapu_range. lia. Qed.

(** Two adjacent entries shifted together give the word that starts [tail] bits into the first. *)
Lemma testbit_shift_pair x y tail b :
  in_u 64 x -> (0 < tail < 64)%nat -> (b < 64)%nat ->
  Z.testbit (Z.lor (Z.shiftr x (Z.of_nat tail)) (u64 (Z.shiftl y (Z.of_nat (64 - tail))))) (Z.of_nat b)
  = if (b + tail <? 64)%nat then Z.testbit x (Z.of_nat (b + tail)) else Z.testbit y (Z.of_nat (b + tail - 64)).
Proof.
  intros Hx Ht Hb. rewrite Z.lor_spec, Z.shiftr_spec, testbit_wrapu, Z.shiftl_spec by lia.
  rewrite (proj2 (Z.ltb_lt (Z.of_nat b) 64)) by lia. cbn [andb]. rewrite <- Nat2Z.inj_add.
  destruct (Nat.ltb_spec (b + tail) 64).
  - rewrite (Z.testbit_neg_r y) by lia. apply orb_false_r.
  - rewrite (testbit_u_high 64 x) by (done || lia). cbn [orb]. f_equal. lia.
Qed.

(** ** Slices agree with row-by-row copies *)

Definition source_row (source : option (list Z)) (i : nat) : bool :=
  match source with None => true | Some s => bit s i end.

(** [d'] is [d] with the rows [to .. to+count-1] replaced by the rows of the source from [so] on. *)
Definition rows_copied (row : nat -> bool) (to so count : nat) (d d' : list Z) : Prop :=
  length d' = length d /\ Forall (in_u 64) d' /\
  forall j, bit d' j = if decide (to <= j < to + count)%nat then row (so + (j - to))%nat else bit d j.

Lemma entry_count_aligned q : EntryCount (64 * q) = q.
Proof. pose proof (entry_count_bounds (64 * q)). lia. Qed.

Lemma aligned_offset n : IsAligned n = true -> exists q, n = (64 * q)%nat.
Proof.
  unfold IsAligned, BITS_PER_VALUE. intros H%Nat.eqb_eq. exists (n / 64)%nat.
  pose proof (Nat.div_mod n 64). lia.
Qed.

(** The position of a row in its word. *)
Lemma row_word j : exists q b, (b < 64)%nat /\ j = (64 * q + b)%nat /\ (j / BITS_PER_VALUE = q)%nat /\ (j mod BITS_PER_VALUE = b)%nat.
Proof.
  exists (j / 64)%nat, (j mod 64)%nat. pose proof (Nat.div_mod j 64). pose proof (Nat.mod_upper_bound j 64).
  unfold BITS_PER_VALUE. split_and!; lia.
Qed.

(** After the entire units [g 0 .. g (n-1)], the ragged entry takes its low bits from [w]. *)
Lemma ragged_entry (row : nat -> bool) qt so d0 d r n w :
  (qt + n < length d)%nat -> (0 < r < 64)%nat -> in_u 64 w ->
  rows_copied row (64 * qt) so (64 * n) d0 d ->
  (forall b, (b < r)%nat -> Z.testbit w (Z.of_nat b) = row (so + (64 * n + b))%nat) ->
  rows_copied row (64 * qt) so (64 * n + r) d0
    (<[(qt + n)%nat := Z.lor (Z.land w (low_bits r)) (Z.land (rd d (qt + n)) (high_bits r))]> d).
Proof.
  intros Hlen Hr Hw (Hl & Hall & Hbits) Hrow. split_and!.
  - by rewrite length_insert.
  - apply Forall_insert; [done|]. apply in_u_lor; [lia| |].
    + apply in_u_land; [lia|done|]. apply in_u_low_bits. lia.
    + apply in_u_land; [lia|apply in_u_rd; [lia|done]|]. apply in_u_high_bits.
  - intros j. destruct (row_word j) as (q & b & Hb & Hj & Hq & Hm).
    rewrite bit_insert, Hq, Hm by done. destruct (decide (qt + n = q)%nat) as [He|Hne].
    + rewrite Z.lor_spec, !Z.land_spec, testbit_low_bits, testbit_high_bits by lia.
      destruct (Nat.ltb_spec b r).
      * rewrite Hrow, decide_True by lia. rewrite (proj2 (Nat.leb_gt r b)) by lia.
        rewrite andb_true_r, andb_false_r, orb_false_r. f_equal. lia.
      * rewrite decide_False by lia. rewrite (proj2 (Nat.leb_le r b)) by lia. rewrite andb_false_r, andb_true_r.
        cbn [orb]. rewrite He, <- (bit_entry d q b) by lia. rewrite Hbits, decide_False by lia. by rewrite <- Hj.
    + rewrite Hbits. destruct (decide (64 * qt <= j < 64 * qt + 64 * n)%nat).
      * by rewrite decide_True by lia.
      * by rewrite decide_False by lia.
Qed.

(** The entire units: a word loop whose words are the words of the source from [so] on. *)
Lemma entire_units (row : nat -> bool) (f : nat -> Z) qt so d n :
  (qt + n <= length d)%nat -> Forall (in_u 64) d -> (forall k, (k < n)%nat -> in_u 64 (f k)) ->
  (forall k b, (k < n)%nat -> (b < 64)%nat -> Z.testbit (f k) (Z.of_nat b) = row (so + (64 * k + b))%nat) ->
  rows_copied row (64 * qt) so (64 * n) d (for_range 0 n (fun k d => <[(qt + k)%nat := f k]> d) d).
Proof.
  intros Hlen Hd Hf Hrow. destruct (word_loop f qt n d Hlen Hd Hf) as (Hl & Hall & Hbits).
  split_and!; [done|done|]. intros j. rewrite Hbits. destruct (row_word j) as (q & b & Hb & Hj & Hq & Hm).
  rewrite Hq, Hm. destruct (decide (qt <= q < qt + n)%nat).
  - rewrite decide_True, Hrow by lia. f_equal. lia.
  - by rewrite decide_False by lia.
Qed.

Lemma count_units count : exists n r, (r < 64)%nat /\ count = (64 * n + r)%nat /\ (count / BITS_PER_VALUE = n)%nat /\ (count mod BITS_PER_VALUE = r)%nat.
Proof. destruct (row_word count) as (n & r & ? & ? & ? & ?). eauto 10. Qed.

Definition source_ok (source : option (list Z)) : Prop :=
  match source with None => True | Some s => Forall (in_u 64) s end.

Lemma slice_aligned_rows source qt qs count d :
  Forall (in_u 64) d -> source_ok source -> (64 * qt + count <= 64 * length d)%nat ->
  rows_copied (source_row source) (64 * qt) (64 * qs) count d (slice_aligned source (64 * qt) (64 * qs) count d).
Proof.
  intros Hd Hs Hlen. unfold slice_aligned. rewrite !entry_count_aligned.
  destruct (count_units count) as (n & r & Hr & Hc & -> & ->).
  set (f := fun k => match source with None => MAX_ENTRY | Some s => rd s (qs + k) end).
  assert (forall k, in_u 64 (f k)) as Hf.
  { intros k. subst f. destruct source; cbn; [apply in_u_rd; [lia|done]|apply in_u_max_entry]. }
  assert (forall k b, (b < 64)%nat -> Z.testbit (f k) (Z.of_nat b) = source_row source (64 * qs + (64 * k + b))%nat) as Hrow.
  { intros k b Hb. subst f. destruct source as [s|]; cbn [source_row].
    - rewrite <- (bit_entry s (qs + k) b) by done. f_equal. lia.
    - rewrite testbit_max_entry by lia. apply Z.ltb_lt. lia. }
  pose proof (entire_units (source_row source) f qt (64 * qs) d n ltac:(lia) Hd
    (fun k _ => Hf k) (fun k b _ => Hrow k b)) as Hunits.
  destruct (Nat.eqb_spec r 0) as [->|Hr0]; [rewrite Hc, Nat.add_0_r; exact Hunits|].
  rewrite Z.lor_comm. rewrite Hc. apply ragged_entry; [|lia|apply Hf|exact Hunits|].
  - eapply Nat.lt_le_trans; [|apply Nat.eq_le_incl; symmetry; exact (proj1 Hunits)]. lia.
  - intros b Hb. apply Hrow. lia.
Qed.

(** The loop of the shifted copy writes the words that start [tail] bits into the source entries. *)
Lemma shifted_loop (s : list Z) qs qt tail n (d : list Z) :
  let f := fun k => Z.lor (Z.shiftr (rd s (qs + k)) (Z.of_nat tail)) (u64 (Z.shiftl (rd s (qs + S k)) (Z.of_nat (64 - tail)))) in
  for_range 0 n (fun i '(src_entry, d) =>
      let tgt_entry := Z.shiftr src_entry (Z.of_nat tail) in
      let src_entry := rd s (qs + S i) in
      let tgt_entry := Z.lor tgt_entry (u64 (Z.shiftl src_entry (Z.of_nat (64 - tail)))) in
      (src_entry, <[(qt + i)%nat := tgt_entry]> d)) (rd s qs, d)
  = (rd s (qs + n), for_range 0 n (fun k d => <[(qt + k)%nat := f k]> d) d).
Proof.
  cbv zeta. induction n as [|n IH].
  - by rewrite Nat.add_0_r.
  - rewrite !for_range_S_r by lia. rewrite IH. done.
Qed.

Lemma slice_shifted_rows s qt so count d :
  Forall (in_u 64) d -> Forall (in_u 64) s -> IsAligned so = false ->
  (64 * qt + count <= 64 * length d)%nat -> (so + count <= 64 * length s)%nat ->
  rows_copied (bit s) (64 * qt) so count d (slice_shifted s (64 * qt) so count d).
Proof.
  intros Hd Hs Hna Hlen Hslen. unfold slice_shifted.
  replace (64 * qt / BITS_PER_VALUE)%nat with qt by (unfold BITS_PER_VALUE; rewrite Nat.mul_comm, Nat.div_mul; lia).
  destruct (count_units count) as (n & r & Hr & Hc & -> & ->).
  destruct (row_word so) as (qs & tail & Ht & Hso & -> & Hm).
  unfold IsAligned in Hna. rewrite Hm in *. apply Nat.eqb_neq in Hna.
  change (BITS_PER_VALUE - tail)%nat with (64 - tail)%nat. rewrite shifted_loop.
  set (f := fun k => Z.lor (Z.shiftr (rd s (qs + k)) (Z.of_nat tail)) (u64 (Z.shiftl (rd s (qs + S k)) (Z.of_nat (64 - tail))))).
  assert (forall k, in_u 64 (rd s k)) as Hrd by (intros; apply in_u_rd; [lia|done]).
  assert (forall k, in_u 64 (f k)) as Hf.
  { intros k. apply in_u_lor; [lia|apply in_u_shiftr; [lia|lia|done]|apply wrapu_range; lia]. }
  assert (forall k b, (b < 64)%nat -> Z.testbit (f k) (Z.of_nat b) = bit s (so + (64 * k + b))%nat) as Hrow.
  { intros k b Hb. unfold f. rewrite testbit_shift_pair by (done || lia).
    destruct (Nat.ltb_spec (b + tail) 64).
    - rewrite <- (bit_entry s (qs + k)) by lia. f_equal. lia.
    - rewrite <- (bit_entry s (qs + S k)) by lia. f_equal. lia. }
  pose proof (entire_units (bit s) f qt so d n ltac:(lia) Hd (fun k _ => Hf k) (fun k b _ => Hrow k b)) as Hunits.
  destruct (Nat.eqb_spec r 0) as [->|Hr0]; [rewrite Hc, Nat.add_0_r; exact Hunits|].
  rewrite Hc. apply ragged_entry; [|lia| |exact Hunits|].
  - eapply Nat.lt_le_trans; [|apply Nat.eq_le_incl; symmetry; exact (proj1 Hunits)]. lia.
  - destruct (64 - tail <? r)%nat; [apply Hf|]. apply in_u_shiftr; [lia|lia|done].
  - intros b Hb. rewrite <- Hrow by lia. destruct (Nat.ltb_spec (64 - tail) r); [done|].
    unfold f. rewrite testbit_shift_pair by (done || lia). rewrite (proj2 (Nat.ltb_lt (b + tail) 64)) by lia.
    rewrite Z.shiftr_spec by lia. f_equal. lia.
Qed.

(** ** The operations on masks *)

Lemma row_is_valid_source m i : RowIsValid m i = source_row (validity_mask m) i.
Proof. destruct m as [[d|] cap]; [apply row_is_valid_bit|done]. Qed.

Lemma mask_ok_source m : mask_ok m -> source_ok (validity_mask m).
Proof. unfold mask_ok, source_ok. destruct (validity_mask m); [by intros [_ ?]|done]. Qed.

(** [m'] is [m] with the rows [to .. to+count-1] replaced by [row so], [row (so+1)], ... *)
Definition mask_rows_copied (row : nat -> bool) (to so count : nat) (m m' : ValidityMask) : Prop :=
  mask_ok m' /\ capacity m' = capacity m /\
  forall j, (j < capacity m)%nat ->
    RowIsValid m' j = if decide (to <= j < to + count)%nat then row (so + (j - to))%nat else RowIsValid m j.

Lemma copied_mask row to so count m d d' :
  (forall j, (j < capacity m)%nat -> bit d j = RowIsValid m j) -> length d = EntryCount (capacity m) ->
  rows_copied row to so count d d' ->
  mask_rows_copied row to so count m (mkValidityMask (Some d') (capacity m)).
Proof.
  intros Hd Hlen (Hl & Hall & Hbits). split_and!; [|done|].
  - split; [cbn; congruence|done].
  - intros j Hj. rewrite row_is_valid_bit, Hbits. by rewrite Hd.
Qed.

(** Copying row by row. *)
Lemma set_rows_copied row to so count m :
  mask_ok m -> (to + count <= capacity m)%nat ->
  mask_rows_copied row to so count m
    (for_range 0 count (fun i m => SetRow (to + i) (row (so + i)%nat) m) m).
Proof.
  intros Hok Hcap.
  apply (for_range_ind (fun k m' => (k <= count)%nat -> mask_rows_copied row to so k m m') 0 count); try lia.
  - intros _. split_and!; [done|done|]. intros j Hj. by rewrite decide_False by lia.
  - intros k m' Hk IH _. destruct (IH ltac:(lia)) as (Hok' & Hcap' & Hrows). split_and!.
    + by apply mask_ok_set.
    + by rewrite capacity_set.
    + intros j Hj. rewrite row_is_valid_set by (done || lia). case_decide as He.
      * subst j. rewrite decide_True by lia. f_equal. lia.
      * rewrite Hrows by done. destruct (decide (to <= j < to + k)%nat).
        -- by rewrite decide_True by lia.
        -- by rewrite decide_False by lia.
Qed.

Lemma ensured_rows_copied row to so count m :
  mask_ok m -> (to + count <= capacity m)%nat ->
  mask_rows_copied row to so count m
    (for_range 0 count (fun i m => SetRow (to + i) (row (so + i)%nat) m) (EnsureWritable m)).
Proof.
  intros Hok Hcap. destruct (set_rows_copied row to so count (EnsureWritable m)) as (H1 & H2 & H3);
    [by apply mask_ok_ensure|by rewrite capacity_ensure|].
  rewrite capacity_ensure in H2, H3. split_and!; [done|done|]. intros j Hj. rewrite H3 by done.
  case_decide; [done|]. by apply row_is_valid_ensure.
Qed.

(** The one combination the code does not handle: a shifted copy from a mask without a buffer. *)
Definition shifts_null (other m : ValidityMask) (to so : nat) : bool :=
  CannotHaveNull other && negb (CannotHaveNull m) && negb (IsAligned so) && IsAligned to.

Lemma slice_in_place_rows other to so count m :
  mask_ok m -> mask_ok other -> (to + count <= capacity m)%nat -> (so + count <= capacity other)%nat ->
  if shifts_null other m to so then SliceInPlace other to so count m = Throw null_read
  else exists m', SliceInPlace other to so count m = Ok m' /\
    mask_rows_copied (RowIsValid other) to so count m m'.
Proof.
  intros Hok Hoko Hto Hso. unfold SliceInPlace, shifts_null.
  destruct (CannotHaveNull m && CannotHaveNull other) eqn:Hnull.
  { apply andb_true_iff in Hnull as [Hm Ho]. rewrite Hm, Ho. cbn. exists m. split; [done|].
    split_and!; [done|done|]. intros j Hj. unfold CannotHaveNull in Hm, Ho. unfold RowIsValid.
    destruct (validity_mask m), (validity_mask other); try done. by case_decide. }
  destruct (ensure_writable_some m Hok) as (d & Hd & Hlen & Hall & Hbits). rewrite Hd. cbn [validity_mask default from_option id capacity].
  pose proof (entry_count_bounds (capacity m)) as Hec.
  assert (forall d', rows_copied (source_row (validity_mask other)) to so count d d' ->
    mask_rows_copied (RowIsValid other) to so count m (mkValidityMask (Some d') (capacity m))) as Hmask.
  { intros d' Hc. destruct (copied_mask _ to so count m d d' Hbits Hlen Hc) as (H1 & H2 & H3).
    split_and!; [done|done|]. intros j Hj. rewrite H3 by done. by rewrite <- row_is_valid_source. }
  destruct (IsAligned so) eqn:Eso, (IsAligned to) eqn:Eto; cbn [andb negb]; rewrite ?andb_false_r.
  - apply aligned_offset in Eso as [qs ->], Eto as [qt ->]. eexists. split; [done|]. apply Hmask.
    apply slice_aligned_rows; [done|by apply mask_ok_source|lia].
  - eexists. split; [done|]. rewrite <- Hd. by apply ensured_rows_copied.
  - destruct (validity_mask other) as [s|] eqn:Es; unfold CannotHaveNull in *; rewrite Es in *; cbn [andb] in *.
    + eexists. split; [done|]. apply Hmask. apply aligned_offset in Eto as [qt ->].
      pose proof (entry_count_bounds (capacity other)). pose proof (mask_ok_source other Hoko) as Hs. rewrite Es in Hs.
      unfold mask_ok in Hoko. rewrite Es in Hoko. destruct Hoko as [Hls _].
      apply slice_shifted_rows; try done; lia.
    + rewrite andb_true_r in Hnull. by rewrite Hnull.
  - eexists. split; [done|]. rewrite <- Hd. by apply ensured_rows_copied.
Qed.

Lemma slice_rows other so count m :
  mask_ok other -> (so + count <= capacity other)%nat -> (count <= capacity m)%nat ->
  exists m', Slice other so count m = Ok m' /\ mask_ok m' /\
    forall j, (j < count)%nat -> RowIsValid m' j = RowIsValid other (so + j).
Proof.
  intros Hok Hcap Hm. unfold Slice. destruct (CannotHaveNull other) eqn:Hn.
  { eexists. split; [done|]. split; [done|]. intros j Hj. unfold CannotHaveNull in Hn. unfold RowIsValid.
    by destruct (validity_mask other). }
  destruct (Nat.eqb_spec so 0) as [->|Hso].
  { exists other. split; [done|]. split; [done|]. done. }
  pose proof (slice_in_place_rows other 0 so count (empty_mask count)) as Hs.
  unfold shifts_null in Hs. rewrite Hn in Hs. cbn [andb] in Hs.
  destruct Hs as (m' & Heq & Hok' & Hc' & Hrows); [done|done|done|done|].
  exists m'. split_and!; [done|done|]. intros j Hj. rewrite Hrows, decide_True by (cbn; lia). f_equal. lia.
Qed.

Lemma copy_sel_rows other sel so to count m :
  mask_ok m -> mask_ok other -> (to + count <= capacity m)%nat ->
  match sel with None => (so + count <= capacity other)%nat | Some _ => True end ->
  exists m', CopySel other sel so to count m = Ok m' /\
    mask_rows_copied (fun i => RowIsValid other (match sel with None => i | Some l => nth i l 0 end%nat)) to so count m m'.
Proof.
  intros Hok Hoko Hto Hso. unfold CopySel. rewrite andb_comm.
  destruct (CannotHaveNull m && CannotHaveNull other) eqn:Hnull.
  { apply andb_true_iff in Hnull as [Hm Ho]. exists m. split; [done|]. split_and!; [done|done|].
    intros j Hj. unfold CannotHaveNull in Hm, Ho. unfold RowIsValid.
    destruct (validity_mask m), (validity_mask other); try done. by case_decide. }
  destruct sel as [l|]; cbn [andb].
  - eexists. split; [done|]. by apply (set_rows_copied (fun i => RowIsValid other (nth i l 0%nat))).
  - destruct (IsAligned so && IsAligned to) eqn:Hal; [|eexists; split; [done|]; by apply (set_rows_copied (RowIsValid other))].
    apply andb_true_iff in Hal as [Hal1 Hal2]. pose proof (slice_in_place_rows other to so count m Hok Hoko Hto Hso) as Hs.
    unfold shifts_null in Hs. rewrite Hal1 in Hs. cbn [negb] in Hs. by rewrite andb_false_r in Hs.
Qed.

(** Loops that fill a fresh buffer. *)
Lemma fill_loop (f : nat -> Z) n d :
  (n <= length d)%nat -> Forall (in_u 64) d -> (forall k, (k < n)%nat -> in_u 64 (f k)) ->
  let d' := for_range 0 n (fun k d => <[k := f k]> d) d in
  length d' = length d /\ Forall (in_u 64) d' /\
  forall j, bit d' j = if decide (j / BITS_PER_VALUE < n)%nat
    then Z.testbit (f (j / BITS_PER_VALUE)%nat) (Z.of_nat (j mod BITS_PER_VALUE)) else bit d j.
Proof.
  intros Hn Hd Hf. destruct (word_loop f 0 n d ltac:(lia) Hd Hf) as (Hl & Hall & Hbits). cbn [Nat.add] in *.
  split_and!; [done|done|]. intros j. rewrite Hbits, Nat.sub_0_r. destruct (decide (j / BITS_PER_VALUE < n)%nat).
  - by rewrite decide_True by lia.
  - by rewrite decide_False by lia.
Qed.

Lemma in_u_validity_data n : length (ValidityData n) = EntryCount n /\ Forall (in_u 64) (ValidityData n).
Proof. split; [apply length_replicate|]. apply Forall_replicate, in_u_max_entry. Qed.

Lemma resize_rows n m :
  mask_ok m -> mask_ok (Resize n m) /\ capacity (Resize n m) = Nat.max n (capacity m) /\
  (forall j, (j < capacity m)%nat -> RowIsValid (Resize n m) j = RowIsValid m j) /\
  (forall j, (64 * EntryCount (capacity m) <= j < n)%nat -> RowIsValid (Resize n m) j = true).
Proof.
  intros Hok. unfold Resize. destruct (Nat.leb_spec n (capacity m)) as [Hle|Hgt].
  { pose proof (entry_count_bounds (capacity m)). split_and!; [done|lia|done|lia]. }
  unfold mask_ok, RowIsValid in *. destruct (validity_mask m) as [d|] eqn:Ed; cbn [validity_mask capacity];
    [|split_and!; [done|lia|done|done]].
  destruct Hok as [Hlen Hall]. pose proof (in_u_validity_data n) as [Hvl Hva].
  pose proof (entry_count_bounds (capacity m)). pose proof (entry_count_bounds n).
  pose proof (entry_count_mono (capacity m) n ltac:(lia)) as Hmono.
  destruct (fill_loop (fun k => rd d k) (EntryCount (capacity m)) (ValidityData n)) as (Hl1 & Hall1 & Hbits1);
    [lia|done|intros; apply in_u_rd; [lia|done]|].
  set (d1 := for_range 0 (EntryCount (capacity m)) _ (ValidityData n)) in *.
  destruct (fill_entries (EntryCount (capacity m)) (EntryCount n) MAX_ENTRY d1) as [Hl2 Hrd]; [lia|lia|].
  set (d2 := for_range _ (EntryCount n) _ d1) in *.
  assert (forall j, bit d2 j = if decide (EntryCount (capacity m) <= j / BITS_PER_VALUE < EntryCount n)%nat
    then true else bit d1 j) as Hbits2.
  { intros j. unfold bit. rewrite Hrd. case_decide; [|done]. rewrite testbit_max_entry by lia. apply Z.ltb_lt.
    pose proof (mod_bits_lt j). lia. }
  split_and!; [congruence| |lia| |].
  - apply Forall_lookup_2. intros k z Hz. assert (z = rd d2 k) as -> by (unfold rd; by rewrite Hz).
    rewrite Hrd. case_decide; [apply in_u_max_entry|]. apply in_u_rd; [lia|done].
  - intros j Hj. change (RowIsValid (mkValidityMask (Some d2) n) j = RowIsValid (mkValidityMask (Some d) n) j).
    rewrite !row_is_valid_bit, Hbits2. pose proof (row_entry_lt _ _ Hj).
    rewrite decide_False, Hbits1, decide_True by lia. done.
  - intros j Hj. change (RowIsValid (mkValidityMask (Some d2) n) j = true). rewrite row_is_valid_bit, Hbits2.
    destruct (row_word j) as (q & b & Hb & Hjj & Hq & _). rewrite decide_True; [done|].
    assert (j < n)%nat as Hjn by lia. pose proof (row_entry_lt _ _ Hjn). lia.
Qed.

Lemma combine_rows other same count m :
  mask_ok m -> mask_ok other -> (count <= capacity m)%nat -> (count <= capacity other)%nat ->
  (same = true -> validity_mask other = validity_mask m) ->
  mask_ok (Combine other same count m) /\
  forall j, (j < count)%nat -> RowIsValid (Combine other same count m) j = RowIsValid m j && RowIsValid other j.
Proof.
  intros Hok Hoko Hc Hco Hsame. unfold Combine. pose proof (row_is_valid_source m) as Hm.
  pose proof (row_is_valid_source other) as Ho. destruct (validity_mask other) as [od|] eqn:Eo.
  2: { split; [done|]. intros j _. by rewrite (Ho j), andb_true_r. }
  destruct (validity_mask m) as [d|] eqn:Em.
  2: { split; [done|]. intros j _. by rewrite (Hm j). }
  destruct same.
  { split; [done|]. intros j _. specialize (Hsame eq_refl). rewrite Ho, Hm. cbn. injection Hsame as ->.
    by destruct (bit d j). }
  pose proof (in_u_validity_data count) as [Hvl Hva]. unfold mask_ok in Hok, Hoko. rewrite Em in Hok. rewrite Eo in Hoko.
  destruct (fill_loop (fun k => Z.land (rd d k) (rd od k)) (EntryCount count) (ValidityData count)) as (Hl & Hall & Hbits).
  { lia. }
  { done. }
  { intros k _. apply in_u_land; [lia|apply in_u_rd; [lia|apply Hok]|]. apply (in_u_rd 64); [lia|apply Hoko]. }
  split; [split; cbn; [congruence|done]|]. intros j Hj. rewrite row_is_valid_bit, Hbits, Hm, Ho.
  rewrite decide_True by by apply row_entry_lt. by rewrite Z.land_spec.
Qed.

Lemma copy_rows other count :
  mask_ok other -> (count <= capacity other)%nat ->
  mask_ok (Copy other count) /\ capacity (Copy other count) = count /\
  forall j, (j < count)%nat -> RowIsValid (Copy other count) j = RowIsValid other j.
Proof.
  intros Hok Hc. unfold Copy. pose proof (row_is_valid_source other) as Ho. unfold mask_ok in Hok.
  destruct (validity_mask other) as [d|] eqn:Ed; [|split_and!; try done; intros j _; by rewrite Ho].
  assert (forall k, (k < EntryCount count)%nat -> rd ((fun k => rd d k) <$> seq 0 (EntryCount count)) k = rd d k) as Hrd.
  { intros k Hk. unfold rd at 1. rewrite list_lookup_fmap, lookup_seq_lt by done. done. }
  split_and!; [|done|].
  - split; cbn; [by rewrite length_fmap, length_seq|]. apply Forall_fmap, Forall_forall. intros k _. cbn.
    apply in_u_rd; [lia|apply Hok].
  - intros j Hj. rewrite Ho, row_is_valid_bit. unfold bit. rewrite Hrd by by apply row_entry_lt. done.
Qed.
