(* ===== verification/MaskTheorems.v ===== *)
(** * Validity masks: the theorems *)

From S2P Require Import Prelude ValidityMask ValidityMaskOps.

Local Open Scope Z_scope.

(** [CountValid] counts, a word at a time, exactly the rows for which [RowIsValid] holds, also when
    the count ends in the middle of an entry. *)
Theorem count_valid_exact m count :
  mask_ok m -> (count <= capacity m)%nat -> CountValid m count = count_rows (RowIsValid m) count.
Proof. apply count_valid_rows. Qed.

(** Reading back a written mask gives every row its validity, whichever of the three encodings
    [Write] chose, and leaves the rest of the stream. *)
Theorem mask_write_read m count m0 rest :
  mask_ok m -> capacity m = count -> Z.of_nat count < 2 ^ 32 ->
  exists bytes m', Write m count = Ok bytes /\ Read m0 (bytes ++ rest) count = Ok (m', rest) /\
    mask_ok m' /\ forall i, (i < count)%nat -> RowIsValid m' i = RowIsValid m i.
Proof.
  intros Hok Hcap Hc.
  destruct (write_mask_total m count Hc) as [bytes Hw].
  destruct (read_write_mask m count bytes m0 rest Hok Hcap Hc Hw) as (m' & Hr & Hok' & _ & Hrows). eauto 10.
Qed.

(** [SliceInPlace] replaces the rows from [target_offset] on by the rows of the other mask from
    [source_offset] on, and no others, in each of its three code paths; the only input it does not
    handle is a shifted copy from a mask without a buffer into one with a buffer, where it reads
    through a null pointer. *)
Theorem slice_in_place_copies other to so count m :
  mask_ok m -> mask_ok other -> (to + count <= capacity m)%nat -> (so + count <= capacity other)%nat ->
  if shifts_null other m to so then SliceInPlace other to so count m = Throw null_read
  else exists m', SliceInPlace other to so count m = Ok m' /\
    mask_rows_copied (RowIsValid other) to so count m m'.
Proof. apply slice_in_place_rows. Qed.

(** [Slice] and [CopySel] never reach that input, and copy the rows they name. *)
Theorem slice_and_copy_total other sel so to count m :
  mask_ok m -> mask_ok other -> (to + count <= capacity m)%nat -> (so + count <= capacity other)%nat ->
  (exists m', Slice other so count m = Ok m' /\
     forall j, (j < count)%nat -> RowIsValid m' j = RowIsValid other (so + j)) /\
  exists m', CopySel other sel so to count m = Ok m' /\
    mask_rows_copied (fun i => RowIsValid other (match sel with None => i | Some l => nth i l 0 end%nat)) to so count m m'.
Proof.
  intros Hok Hoko Hto Hso. split.
  - destruct (slice_rows other so count m Hoko Hso) as (m' & Hs & _ & Hrows); [lia|eauto].
  - apply copy_sel_rows; [done|done|done|by destruct sel].
Qed.

(** [Combine] is the row-by-row conjunction of the two masks, [Resize] keeps the rows and adds valid
    ones from the first new entry on, [Copy] keeps the rows. *)
Theorem combine_resize_copy other m count n :
  mask_ok m -> mask_ok other -> (count <= capacity m)%nat -> (count <= capacity other)%nat ->
  (forall j, (j < count)%nat -> RowIsValid (Combine other false count m) j = RowIsValid m j && RowIsValid other j) /\
  (forall j, (j < capacity m)%nat -> RowIsValid (Resize n m) j = RowIsValid m j) /\
  (forall j, (64 * EntryCount (capacity m) <= j < n)%nat -> RowIsValid (Resize n m) j = true) /\
  forall j, (j < count)%nat -> RowIsValid (Copy m count) j = RowIsValid m j.
Proof.
  intros Hok Hoko Hc Hco. split_and!.
  - by apply combine_rows.
  - by apply resize_rows.
  - by apply resize_rows.
  - by apply copy_rows.
Qed.

(** ** Witnesses *)

(** Seventy rows, of which rows 1 and 68 are invalid. *)
Definition sample_mask : ValidityMask := SetInvalid 68 (SetInvalid 1 (empty_mask 70)).

Lemma sample_mask_ok : mask_ok sample_mask.
Proof. apply (mask_ok_set _ 68 false), (mask_ok_set _ 1 false). done. Qed.

Lemma count_valid_exact_witness : CountValid sample_mask 70 = 68%nat.
Proof.
  rewrite (count_valid_exact sample_mask 70).
  - vm_compute. reflexivity.
  - apply sample_mask_ok.
  - cbn. lia.
Defined.

Lemma mask_write_read_witness :
  exists bytes m', Write sample_mask 70 = Ok bytes /\ Read (empty_mask 70) (bytes ++ [7]) 70 = Ok (m', [7]) /\
    mask_ok m' /\ forall i, (i < 70)%nat -> RowIsValid m' i = RowIsValid sample_mask i.
Proof.
  apply (mask_write_read sample_mask 70 (empty_mask 70) [7]).
  - apply sample_mask_ok.
  - reflexivity.
  - reflexivity.
Defined.

(** The rows 3 to 68 of the sample, shifted into a mask of 70 rows. *)
Lemma slice_in_place_copies_witness :
  exists m', SliceInPlace sample_mask 0 3 66 (empty_mask 70) = Ok m' /\
    mask_rows_copied (RowIsValid sample_mask) 0 3 66 (empty_mask 70) m'.
Proof.
  apply (slice_in_place_copies sample_mask 0 3 66 (empty_mask 70)).
  - done.
  - apply sample_mask_ok.
  - cbn. lia.
  - cbn. lia.
Defined.

Lemma slice_and_copy_total_witness :
  (exists m', Slice sample_mask 3 66 (empty_mask 70) = Ok m' /\
     forall j, (j < 66)%nat -> RowIsValid m' j = RowIsValid sample_mask (3 + j)) /\
  exists m', CopySel sample_mask None 3 2 66 (empty_mask 70) = Ok m' /\
    mask_rows_copied (fun i => RowIsValid sample_mask i) 2 3 66 (empty_mask 70) m'.
Proof.
  apply (slice_and_copy_total sample_mask None 3 2 66 (empty_mask 70)).
  - done.
  - apply sample_mask_ok.
  - cbn. lia.
  - cbn. lia.
Defined.

Lemma combine_resize_copy_witness :
  forall j, (j < 70)%nat -> RowIsValid (Combine (SetInvalid 5 (empty_mask 70)) false 70 sample_mask) j
    = RowIsValid sample_mask j && RowIsValid (SetInvalid 5 (empty_mask 70)) j.
Proof.
  apply (combine_resize_copy (SetInvalid 5 (empty_mask 70)) sample_mask 70 128).
  - apply sample_mask_ok.
  - apply (mask_ok_set _ 5 false). done.
  - cbn. lia.
  - cbn. lia.
Defined.
