(* ===== verification/ChunkInfo.v ===== *)
(** * Row versions of one vector

    Models [storage/table/chunk_info.hpp] and [storage/table/chunk_info.cpp]: the insert and
    delete ids of the rows of one vector, kept as constants, as a bitmask or as per-row arrays, with
    the scans, deletes, commits, compression and serialization that work on each form. A per-row
    array held by an [IndexPointer] of the allocator is owned by the chunk info alone: the pointer
    is the array, and the null pointer is [None]. *)

From S2P Require Import Prelude Snapshot ValidityMask.

Local Open Scope Z_scope.

Inductive ChunkInfoType := CONSTANT_INFO | VECTOR_INFO | EMPTY_INFO.
Inductive VersionCompressionResult := FULLY_COMPRESSED | PENDING | SETTLED.
Inductive DeleteIdState := CONSTANT | MASKED | ARRAY.

(** [DeleteInfo] (transaction/delete_info.hpp): the rows of one vector a statement deleted. *)
Record DeleteInfo := mkDeleteInfo {
  vector_idx : nat;
  delete_count : nat;
  base_row : Z;
  is_consecutive : bool;
  delete_rows : list nat
}.

Definition GetRows (info : DeleteInfo) : result (list nat) :=
  if is_consecutive info
  then Throw (InternalException "DeleteInfo is consecutive - rows are not accessible")
  else mret (delete_rows info).

(** [DuckTransaction::PushDelete] (transaction/duck_transaction.cpp): the undo entry of a delete of
    the first [count] entries of [rows]; the rows are stored as 16-bit integers. *)
Definition PushDelete (vector_idx : nat) (rows : list nat) (count : nat) (base_row : Z)
    : result DeleteInfo :=
  let is_consecutive := forallb (fun i => (nth i rows 0 =? i)%nat) (seq 0 count) in
  if is_consecutive then mret (mkDeleteInfo vector_idx count base_row true [])
  else if forallb (fun i => Z.of_nat (nth i rows 0%nat) <? 2 ^ 16) (seq 0 count)
  then mret (mkDeleteInfo vector_idx count base_row false (take count rows))
  else Throw (InternalException "Information loss on integer cast: value outside of target range").

Module ChunkVectorInfo.
Record t := mk {
  start : Z;
  inserted_data : option (list Z);
  constant_insert_id : Z;
  deleted_data : option (list Z);
  constant_delete_id : Z;
  deleted_mask : ValidityMask;
  mask_delete_id : Z;
  delete_state : DeleteIdState;
  recheck_compression : bool
}.

#[local] Arguments mk : clear implicits.

(** Field updates. *)
Definition set_inserted (d : option (list Z)) (c : t) : t :=
  mk (start c) d (constant_insert_id c) (deleted_data c) (constant_delete_id c)
     (deleted_mask c) (mask_delete_id c) (delete_state c) (recheck_compression c).
Definition set_constant_insert_id (id : Z) (c : t) : t :=
  mk (start c) (inserted_data c) id (deleted_data c) (constant_delete_id c)
     (deleted_mask c) (mask_delete_id c) (delete_state c) (recheck_compression c).
Definition set_constant_delete_id (id : Z) (c : t) : t :=
  mk (start c) (inserted_data c) (constant_insert_id c) (deleted_data c) id
     (deleted_mask c) (mask_delete_id c) (delete_state c) (recheck_compression c).
Definition set_deleted (d : option (list Z)) (m : ValidityMask) (id : Z) (s : DeleteIdState) (c : t) : t :=
  mk (start c) (inserted_data c) (constant_insert_id c) d (constant_delete_id c)
     m id s (recheck_compression c).
Definition set_recheck (b : bool) (c : t) : t :=
  mk (start c) (inserted_data c) (constant_insert_id c) (deleted_data c) (constant_delete_id c)
     (deleted_mask c) (mask_delete_id c) (delete_state c) b.

Section WithVectorSize.
Context {VS : VectorSize}.

(** ** The visibility policies of a scan *)

Definition StandardInsertOperator (view : SnapshotView) (id : Z) : bool := Sees view id.
Definition IncludeAllInsertedOperator (view : SnapshotView) (id : Z) : bool := true.
Definition StandardDeleteOperator (view : SnapshotView) (id : Z) : bool := Sees view id.
Definition CommittedDeleteOperator (view : SnapshotView) (id : Z) : bool := id <?b visibility_bound view.
Definition IncludeAllDeletedOperator (view : SnapshotView) (id : Z) : bool := false.
Definition UseVersion (view : SnapshotView) (id : Z) : bool := Sees view id.

(** [ChunkVectorInfo(allocator, start, insert_id, delete_id)] *)
Definition make (start insert_id delete_id : Z) : t :=
  mk start None insert_id None delete_id (empty_mask STANDARD_VECTOR_SIZE) 0 CONSTANT true.

(** ** Accessors *)

Definition HasConstantInsertionId (c : t) : bool :=
  match inserted_data c with None => true | Some _ => false end.
Definition HasConstantDeleteId (c : t) : bool :=
  match delete_state c with CONSTANT => true | _ => false end.

Definition ConstantInsertId (c : t) : result Z :=
  if HasConstantInsertionId c then mret (constant_insert_id c)
  else Throw (InternalException
    "ConstantInsertId() called but vector info does not have a constant insertion id").
Definition ConstantDeleteId (c : t) : result Z :=
  if HasConstantDeleteId c then mret (constant_delete_id c)
  else Throw (InternalException
    "ConstantDeleteId() called but vector info does not have a constant delete id").

Definition GetInsertedPointer (c : t) : result (list Z) :=
  match inserted_data c with
  | None => Throw (InternalException
      "ChunkVectorInfo: insert id requested but insertions were not initialized")
  | Some d => mret d
  end.
Definition GetDeletedPointer (c : t) : result (list Z) :=
  match delete_state c with
  | ARRAY => mret (default [] (deleted_data c))
  | _ => Throw (InternalException
      "ChunkVectorInfo: deleted id array requested but delete side is not in the ARRAY state")
  end.

Definition AnyDeleted (c : t) : result bool :=
  match delete_state c with
  | CONSTANT => id ← ConstantDeleteId c; mret (negb (id =? NOT_DELETED_ID))
  | MASKED => mret true
  | ARRAY => mret true
  end.

(** ** Scans *)

(** The selection vector being filled (absent for a count) and the number of rows selected. *)
Definition SelState : Type := option (list nat) * nat.

(** [if (sel_vector) { sel_vector->set_index(count, i); } count++;] *)
Definition select_row (i : nat) (st : SelState) : SelState :=
  let '(sel, count) := st in ((fun s => <[count := i]> s) <$> sel, S count).

(** The word-at-a-time scan of the mask for the alive rows. *)
Definition scan_alive_words (m : ValidityMask) (max_count : nat) (st : SelState) : SelState :=
  for_range 0 (EntryCount max_count) (fun entry_idx st =>
    let entry := GetValidityEntry m entry_idx in
    if AllValid entry then st
    else
      let base := (entry_idx * BITS_PER_VALUE)%nat in
      let entry_end := Nat.min (base + BITS_PER_VALUE) max_count in
      if NoneValid entry then for_range base entry_end select_row st
      else for_range base entry_end (fun i st =>
             if EntryRowIsValid entry (i - base) then st else select_row i st) st) st.

Definition TemplatedGetSelVector (INSERT_OP DELETE_OP : SnapshotView -> Z -> bool)
    (view : SnapshotView) (c : t) (sel_vector : option (list nat)) (max_count : nat) : result SelState :=
  match delete_state c with
  | CONSTANT =>
      delete_id ← ConstantDeleteId c;
      if DELETE_OP view delete_id then mret (sel_vector, 0%nat)
      else if HasConstantInsertionId c then
        insert_id ← ConstantInsertId c;
        mret (sel_vector, if INSERT_OP view insert_id then max_count else 0%nat)
      else
        inserted ← GetInsertedPointer c;
        mret (for_range 0 max_count (fun i st =>
                if negb (INSERT_OP view (rd inserted i)) then st else select_row i st)
                (sel_vector, 0%nat))
  | MASKED =>
      let masked_deleted := DELETE_OP view (mask_delete_id c) in
      if HasConstantInsertionId c then
        insert_id ← ConstantInsertId c;
        if negb (INSERT_OP view insert_id) then mret (sel_vector, 0%nat)
        else if negb masked_deleted then mret (sel_vector, max_count)
        else match sel_vector with
        | None => mret (None, (max_count - CountValid (deleted_mask c) max_count)%nat)
        | Some _ => mret (scan_alive_words (deleted_mask c) max_count (sel_vector, 0%nat))
        end
      else
        inserted ← GetInsertedPointer c;
        mret (for_range 0 max_count (fun i st =>
                if negb (INSERT_OP view (rd inserted i)) then st
                else if masked_deleted && RowIsValid (deleted_mask c) i then st
                else select_row i st) (sel_vector, 0%nat))
  | ARRAY =>
      if HasConstantInsertionId c then
        insert_id ← ConstantInsertId c;
        if negb (INSERT_OP view insert_id) then mret (sel_vector, 0%nat)
        else
          deleted ← GetDeletedPointer c;
          mret (for_range 0 max_count (fun i st =>
                  if DELETE_OP view (rd deleted i) then st else select_row i st) (sel_vector, 0%nat))
      else
        inserted ← GetInsertedPointer c;
        deleted ← GetDeletedPointer c;
        mret (for_range 0 max_count (fun i st =>
                if negb (INSERT_OP view (rd inserted i)) then st
                else if DELETE_OP view (rd deleted i) then st
                else select_row i st) (sel_vector, 0%nat))
  end.

Definition GetSelVector (options : ScanOptions) (c : t) (sel_vector : option (list nat))
    (max_count : nat) : result SelState :=
  let view := scan_view options in
  match insert_type options, delete_type options with
  | INSERTED_STANDARD, DELETED_STANDARD =>
      TemplatedGetSelVector StandardInsertOperator StandardDeleteOperator view c sel_vector max_count
  | INSERTED_STANDARD, INCLUDE_ALL_DELETED =>
      TemplatedGetSelVector StandardInsertOperator IncludeAllDeletedOperator view c sel_vector max_count
  | INSERTED_STANDARD, OMIT_COMMITTED_DELETES =>
      TemplatedGetSelVector StandardInsertOperator CommittedDeleteOperator view c sel_vector max_count
  | ALL_ROWS, DELETED_STANDARD =>
      TemplatedGetSelVector IncludeAllInsertedOperator StandardDeleteOperator view c sel_vector max_count
  | ALL_ROWS, INCLUDE_ALL_DELETED => mret (sel_vector, max_count)
  | ALL_ROWS, OMIT_COMMITTED_DELETES =>
      TemplatedGetSelVector IncludeAllInsertedOperator CommittedDeleteOperator view c sel_vector max_count
  end.

Definition GetRowCount (options : ScanOptions) (c : t) (max_count : nat) : result nat :=
  '(_, count) ← GetSelVector options c None max_count; mret count.

Definition Fetch (view : SnapshotView) (c : t) (row : nat) : result bool :=
  fetch_insert_id ← (if HasConstantInsertionId c then ConstantInsertId c
                     else inserted ← GetInsertedPointer c; mret (rd inserted row));
  fetch_deleted_id ← (match delete_state c with
                      | CONSTANT => ConstantDeleteId c
                      | MASKED => mret (if RowIsValid (deleted_mask c) row
                                        then mask_delete_id c else NOT_DELETED_ID)
                      | ARRAY => deleted ← GetDeletedPointer c; mret (rd deleted row)
                      end);
  mret (UseVersion view fetch_insert_id && negb (UseVersion view fetch_deleted_id)).

(** ** Materializing and compressing the id arrays *)

Definition GetInitializedInsertedPointer (c : t) : result (t * list Z) :=
  if HasConstantInsertionId c then
    constant_id ← ConstantInsertId c;
    let inserted := replicate STANDARD_VECTOR_SIZE constant_id in
    mret (set_inserted (Some inserted) c, inserted)
  else inserted ← GetInsertedPointer c; mret (c, inserted).

Definition FreeDeleteData (c : t) : t :=
  let c := match delete_state c with
           | ARRAY => set_deleted None (deleted_mask c) (mask_delete_id c) ARRAY c
           | _ => c
           end in
  set_deleted (deleted_data c) (Reset STANDARD_VECTOR_SIZE (deleted_mask c)) (mask_delete_id c) CONSTANT c.

(** ARRAY -> MASKED: alive rows are the invalid bits. *)
Definition CompressDeleteToMask (mask_id : Z) (c : t) : t :=
  let deleted := default [] (deleted_data c) in
  let mask := for_range 0 STANDARD_VECTOR_SIZE (fun i m =>
                if rd deleted i =? NOT_DELETED_ID then SetInvalid i m else m)
                (Initialize STANDARD_VECTOR_SIZE (deleted_mask c)) in
  set_deleted None mask mask_id MASKED c.

(** MASKED -> ARRAY *)
Definition DecompressDeleteMask (c : t) : t :=
  let deleted := (fun i => if RowIsValid (deleted_mask c) i then mask_delete_id c else NOT_DELETED_ID)
                 <$> seq 0 STANDARD_VECTOR_SIZE in
  set_recheck true
    (set_deleted (Some deleted) (Reset STANDARD_VECTOR_SIZE (deleted_mask c)) (mask_delete_id c) ARRAY c).

Definition GetInitializedDeletedPointer (c : t) : result (t * list Z) :=
  let c := match delete_state c with MASKED => DecompressDeleteMask c | _ => c end in
  if HasConstantDeleteId c then
    constant_id ← ConstantDeleteId c;
    let deleted := replicate STANDARD_VECTOR_SIZE constant_id in
    mret (set_deleted (Some deleted) (deleted_mask c) (mask_delete_id c) ARRAY c, deleted)
  else mret (c, default [] (deleted_data c)).

(** Writes to the array the deleted pointer refers to. *)
Definition store_deleted (deleted : list Z) (c : t) : t :=
  set_deleted (Some deleted) (deleted_mask c) (mask_delete_id c) (delete_state c) c.

(** ** Deletes *)

Definition DeletesEntireVector (rows : list nat) (count : nat) : bool :=
  forallb (fun i => (nth i rows 0 =? i)%nat) (seq 0 count).

Definition conflict : exception := TransactionException "Conflict on tuple deletion!".

(** The loop of [Delete]: [deleted] is the id array, [rows] the caller's buffer, in which the
    rows actually deleted are compacted to the front; on a conflict the first [i] entries of the
    buffer are marked as not deleted again before throwing. *)
Fixpoint delete_loop (n i : nat) (transaction_id : Z) (deleted : list Z) (rows : list nat)
    (deleted_tuples : nat) : list Z * list nat * result nat :=
  match n with
  | O => (deleted, rows, mret deleted_tuples)
  | S n' =>
      let row := nth i rows 0%nat in
      if rd deleted row =? transaction_id then
        delete_loop n' (S i) transaction_id deleted rows deleted_tuples
      else if negb (rd deleted row =? NOT_DELETED_ID) then
        (for_range 0 i (fun k d => <[nth k rows 0%nat := NOT_DELETED_ID]> d) deleted, rows, Throw conflict)
      else
        delete_loop n' (S i) transaction_id (<[row := transaction_id]> deleted)
          (<[deleted_tuples := row]> rows) (S deleted_tuples)
  end.

Definition Delete (transaction_id : Z) (rows : list nat) (count : nat) (c : t)
    : t * list nat * result nat :=
  if HasConstantDeleteId c && negb (constant_delete_id c =? NOT_DELETED_ID) then
    if constant_delete_id c =? transaction_id then (c, rows, mret 0%nat)
    else (c, rows, Throw conflict)
  else if HasConstantDeleteId c && (count =? STANDARD_VECTOR_SIZE)%nat && DeletesEntireVector rows count then
    (set_constant_delete_id transaction_id c, rows, mret count)
  else
    match GetInitializedDeletedPointer (set_recheck true c) with
    | Throw e => (c, rows, Throw e)
    | Ok (c, deleted) =>
        let '(deleted, rows, r) := delete_loop count 0 transaction_id deleted rows 0 in
        (store_deleted deleted c, rows, r)
    end.

Definition CommitDelete (commit_id : Z) (info : DeleteInfo) (c : t) : result t :=
  if is_consecutive info && (delete_count info =? STANDARD_VECTOR_SIZE)%nat then
    mret (set_constant_delete_id commit_id (FreeDeleteData c))
  else if HasConstantDeleteId c && (constant_delete_id c =? commit_id) then mret c
  else
    '(c, deleted) ← GetInitializedDeletedPointer (set_recheck true c);
    deleted ← (if is_consecutive info then
                 mret (for_range 0 (delete_count info) (fun i d => <[i := commit_id]> d) deleted)
               else
                 rows ← GetRows info;
                 mret (for_range 0 (delete_count info)
                         (fun i d => <[nth i rows 0%nat := commit_id]> d) deleted));
    let all_equal := forallb (fun i => rd deleted i =? commit_id) (seq 0 STANDARD_VECTOR_SIZE) in
    let c := store_deleted deleted c in
    mret (if all_equal then set_constant_delete_id commit_id (FreeDeleteData c) else c).

(** ** Compression *)

(** What the pass over the per-row delete ids finds. *)
Record DeleteScan := mkDeleteScan {
  rows_alive : bool;
  deletes_pending : bool;
  deletes_uncommitted : bool;
  deletes_equal : bool;
  max_delete_id : Z;
  shared_delete_id : Z
}.

Definition scan_delete_id (lowest : VisibilityBound.t) (id : Z) (sc : DeleteScan) : DeleteScan :=
  if id =? NOT_DELETED_ID then
    mkDeleteScan true (deletes_pending sc) (deletes_uncommitted sc) (deletes_equal sc)
      (max_delete_id sc) (shared_delete_id sc)
  else
    let '(pending, uncommitted, max_id) :=
      if id >=?b lowest
      then (true, deletes_uncommitted sc || negb (IsCommitted id), max_delete_id sc)
      else (deletes_pending sc, deletes_uncommitted sc, Z.max (max_delete_id sc) id) in
    if shared_delete_id sc =? NOT_DELETED_ID then
      mkDeleteScan (rows_alive sc) pending uncommitted (deletes_equal sc) max_id id
    else if negb (id =? shared_delete_id sc) then
      mkDeleteScan (rows_alive sc) pending uncommitted false max_id (shared_delete_id sc)
    else mkDeleteScan (rows_alive sc) pending uncommitted (deletes_equal sc) max_id (shared_delete_id sc).

Definition scan_delete_ids (lowest : VisibilityBound.t) (deleted : list Z) : DeleteScan :=
  for_range 0 STANDARD_VECTOR_SIZE (fun i => scan_delete_id lowest (rd deleted i))
    (mkDeleteScan false false false true 0 NOT_DELETED_ID).

(** The delete side of [CompressVersionIds]; the boolean is [pending]. *)
Definition compress_deletes (lowest : VisibilityBound.t) (c : t) : result (t * bool) :=
  match delete_state c with
  | ARRAY =>
      deleted ← GetDeletedPointer c;
      let sc := scan_delete_ids lowest deleted in
      if negb (rows_alive sc) && negb (deletes_pending sc) then
        mret (set_constant_delete_id (max_delete_id sc) (FreeDeleteData c), false)
      else if negb (rows_alive sc) then mret (c, true)
      else if negb (deletes_pending sc) then mret (CompressDeleteToMask 0 c, false)
      else if deletes_equal sc && negb (deletes_uncommitted sc) then
        mret (CompressDeleteToMask (shared_delete_id sc) c, false)
      else mret (c, true)
  | _ => mret (c, false)
  end.

(** The insert side. *)
Definition compress_inserts (lowest : VisibilityBound.t) (c : t) (pending : bool) : result (t * bool) :=
  if HasConstantInsertionId c then mret (c, pending)
  else
    inserted ← GetInsertedPointer c;
    let can_compress := forallb (fun i => negb (rd inserted i >=?b lowest)) (seq 0 STANDARD_VECTOR_SIZE) in
    mret (if can_compress then (set_constant_insert_id 0 (set_inserted None c), pending) else (c, true)).

Definition CompressVersionIds (lowest : VisibilityBound.t) (c : t) : result (t * VersionCompressionResult) :=
  if negb (recheck_compression c) then
    mret (c, if HasConstantDeleteId c && HasConstantInsertionId c then FULLY_COMPRESSED else SETTLED)
  else
    '(c, pending) ← compress_deletes lowest c;
    '(c, pending) ← compress_inserts lowest c pending;
    let c := set_recheck pending c in
    mret (c, if HasConstantDeleteId c && HasConstantInsertionId c then FULLY_COMPRESSED
             else if pending then PENDING else SETTLED).

(** ** Appends *)

Definition Append (start end_ : nat) (commit_id : Z) (c : t) : result t :=
  if (start =? 0)%nat then mret (set_constant_insert_id commit_id c)
  else if HasConstantInsertionId c && (constant_insert_id c =? commit_id) then mret c
  else
    '(c, inserted) ← GetInitializedInsertedPointer (set_recheck true c);
    mret (set_inserted (Some (for_range start end_ (fun i d => <[i := commit_id]> d) inserted)) c).

Definition CommitAppend (commit_id : Z) (start end_ : nat) (c : t) : result t :=
  if HasConstantInsertionId c then mret (set_constant_insert_id commit_id c)
  else
    let c := set_recheck true c in
    inserted ← GetInsertedPointer c;
    mret (set_inserted (Some (for_range start end_ (fun i d => <[i := commit_id]> d) inserted)) c).

(** ** Questions about the ids *)

Definition Cleanup (lowest : VisibilityBound.t) (c : t) : result bool :=
  any_deleted ← AnyDeleted c;
  if any_deleted : bool then mret false
  else if negb (HasConstantInsertionId c) then
    inserted ← GetInsertedPointer c;
    mret (negb (existsb (fun idx => rd inserted idx >=?b lowest) (seq 1 (STANDARD_VECTOR_SIZE - 1))))
  else
    insert_id ← ConstantInsertId c;
    mret (negb (insert_id >=?b lowest)).

Definition HasDeletes (bound : VisibilityBound.t) (c : t) : result bool :=
  if HasConstantInsertionId c && negb (IsCommitted (constant_insert_id c)) then mret true
  else
  any_deleted ← AnyDeleted c;
  if negb any_deleted then mret false
  else if VisibilityBound.eqb bound VisibilityBound.IncludingUncommitted then mret true
  else match delete_state c with
  | CONSTANT => id ← ConstantDeleteId c; mret (id <?b bound)
  | MASKED => mret (mask_delete_id c <?b bound)
  | ARRAY =>
      deleted ← GetDeletedPointer c;
      mret (existsb (fun i => rd deleted i <?b bound) (seq 0 STANDARD_VECTOR_SIZE))
  end.

Definition HasUncommittedChanges (c : t) : result bool :=
  uncommitted_insert ←
    (if HasConstantInsertionId c then
       id ← ConstantInsertId c; mret (negb (IsCommitted id))
     else
       inserted ← GetInsertedPointer c;
       mret (existsb (fun i => negb (IsCommitted (rd inserted i))) (seq 0 STANDARD_VECTOR_SIZE)));
  if uncommitted_insert : bool then mret true
  else match delete_state c with
  | CONSTANT =>
      id ← ConstantDeleteId c;
      mret (negb (id =? NOT_DELETED_ID) && negb (IsCommitted id))
  | MASKED => mret false
  | ARRAY =>
      deleted ← GetDeletedPointer c;
      mret (existsb (fun i => negb (rd deleted i =? NOT_DELETED_ID) && negb (IsCommitted (rd deleted i)))
              (seq 0 STANDARD_VECTOR_SIZE))
  end.

(** ** Serialization *)

Definition type_tag (ty : ChunkInfoType) : Z :=
  match ty with CONSTANT_INFO => 0 | VECTOR_INFO => 1 | EMPTY_INFO => 2 end.

Definition write_view (bound : VisibilityBound.t) : SnapshotView := mkSnapshotView INVALID_INDEX bound.

Definition Write (bound : VisibilityBound.t) (c : t) : result (list Z) :=
  let sel := replicate STANDARD_VECTOR_SIZE 0%nat in
  '(sel, count) ← GetSelVector (scan_options_of (write_view bound)) c (Some sel) STANDARD_VECTOR_SIZE;
  if (count =? STANDARD_VECTOR_SIZE)%nat then mret (Stream.le_bytes 1 (type_tag EMPTY_INFO))
  else if (count =? 0)%nat then
    mret (Stream.le_bytes 1 (type_tag CONSTANT_INFO) ++ Stream.le_bytes 8 (start c))
  else
    let mask := Initialize STANDARD_VECTOR_SIZE (empty_mask STANDARD_VECTOR_SIZE) in
    let mask := for_range 0 count (fun i m => SetInvalid (nth i (default [] sel) 0%nat) m) mask in
    mask_bytes ← ValidityMask.Write mask STANDARD_VECTOR_SIZE;
    mret (Stream.le_bytes 1 (type_tag VECTOR_INFO) ++ Stream.le_bytes 8 (start c) ++ mask_bytes).

Definition Read (s : list Z) : result (option t * list Z) :=
  '(type, s) ← Stream.Read 1 s;
  if type =? type_tag EMPTY_INFO then mret (None, s)
  else if type =? type_tag CONSTANT_INFO then
    '(start, s) ← Stream.Read 8 s;
    mret (Some (set_recheck false (make start 0 0)), s)
  else if type =? type_tag VECTOR_INFO then
    '(start, s) ← Stream.Read 8 s;
    let c := make start 0 NOT_DELETED_ID in
    '(mask, s) ← ValidityMask.Read (deleted_mask c) s STANDARD_VECTOR_SIZE;
    if CheckAllValid mask STANDARD_VECTOR_SIZE || CheckAllInvalid mask STANDARD_VECTOR_SIZE then
      Throw (DataCorruptionException "Partial-delete vector info mask marks either all rows deleted or all rows alive, but a VECTOR_INFO block must always encode a partial delete. The database file may be corrupted.")
    else mret (Some (set_recheck false (set_deleted (deleted_data c) mask 0 MASKED c)), s)
  else Throw (SerializationException "Could not deserialize Chunk Info Type: unrecognized type").

(** ** Reference semantics

    The insert and delete id of each row, whatever form the chunk info stores them in. *)

Definition insert_id (c : t) (i : nat) : Z :=
  match inserted_data c with Some d => rd d i | None => constant_insert_id c end.

Definition delete_id (c : t) (i : nat) : Z :=
  match delete_state c with
  | CONSTANT => constant_delete_id c
  | MASKED => if RowIsValid (deleted_mask c) i then mask_delete_id c else NOT_DELETED_ID
  | ARRAY => rd (default [] (deleted_data c)) i
  end.

Definition visible (view : SnapshotView) (c : t) (i : nat) : bool :=
  Sees view (insert_id c i) && negb (Sees view (delete_id c i)).

(** The stored form is consistent: arrays have one id per row, only the ARRAY state holds a
    delete array, and a mask covers the vector and carries a committed id. *)
Record wf (c : t) : Prop := {
  wf_inserted : forall d, inserted_data c = Some d -> length d = STANDARD_VECTOR_SIZE;
  wf_deleted : delete_state c = ARRAY ->
               exists d, deleted_data c = Some d /\ length d = STANDARD_VECTOR_SIZE;
  wf_mask : delete_state c = MASKED ->
            mask_ok (deleted_mask c) /\ capacity (deleted_mask c) = STANDARD_VECTOR_SIZE
            /\ IsCommitted (mask_delete_id c) = true
}.

(** ** Scan loops *)

(** [st] is the result of scanning the rows below [k] and selecting those that satisfy [p]. *)
Definition selected (p : nat -> bool) (sel0 : option (list nat)) (k : nat) (st : SelState) : Prop :=
  snd st = count_rows p k /\
  match sel0, fst st with
  | None, None => True
  | Some s0, Some s => length s = length s0 /\ ((k <= length s0)%nat -> take (snd st) s = rows p k)
  | _, _ => False
  end.

Lemma selected_ext p q sel0 k st :
  (forall i, (i < k)%nat -> p i = q i) -> selected p sel0 k st -> selected q sel0 k st.
Proof.
  intros H. unfold selected. by rewrite (count_rows_ext p q k H), (rows_ext p q k H).
Qed.

Lemma selected_start p sel0 : selected p sel0 0 (sel0, 0%nat).
Proof. split; [done|]. by destruct sel0. Qed.

Lemma selected_row p sel0 i st :
  p i = true -> selected p sel0 i st -> selected p sel0 (S i) (select_row i st).
Proof.
  unfold selected. destruct st as [sel count]; cbn [fst snd select_row]. intros Hp [-> Hsel].
  rewrite count_rows_S, rows_S, Hp. split; [cbn; lia|].
  destruct sel0 as [s0|], sel as [s|]; cbn; try done.
  destruct Hsel as [Hl Htake]. split; [by rewrite length_insert|]. intros Hi.
  pose proof (count_rows_le p i).
  rewrite (take_S_r _ _ i) by (apply list_lookup_insert_eq; lia).
  rewrite take_insert_ge by lia. by rewrite Htake by lia.
Qed.

Lemma selected_skip p sel0 i st :
  p i = false -> selected p sel0 i st -> selected p sel0 (S i) st.
Proof.
  unfold selected. rewrite count_rows_S, rows_S. intros ->. rewrite Nat.add_0_r, app_nil_r.
  intros [? Hsel]. split; [done|]. destruct sel0, (fst st); try done.
  destruct Hsel as [? Htake]. split; [done|]. intros. apply Htake. lia.
Qed.

(** Any loop whose body selects the rows satisfying [p] and skips the others. *)
Lemma scan_loop (p : nat -> bool) sel0 (body : nat -> SelState -> SelState) a b st :
  (a <= b)%nat ->
  (forall i st, (a <= i < b)%nat -> body i st = if p i then select_row i st else st) ->
  selected p sel0 a st -> selected p sel0 b (for_range a b body st).
Proof.
  intros Hab Hbody Hst. apply (for_range_ind (selected p sel0) a b); [done..|].
  intros i st' Hi Hsel. rewrite Hbody by done.
  destruct (p i) eqn:E; [by apply selected_row | by apply selected_skip].
Qed.

Lemma selected_skip_range p sel0 a b st :
  (a <= b)%nat -> (forall i, (a <= i < b)%nat -> p i = false) ->
  selected p sel0 a st -> selected p sel0 b st.
Proof.
  intros Hab Hp Hst.
  assert (for_range a b (fun (_ : nat) (st' : SelState) => st') st = st) as <-.
  { by apply (for_range_ind (fun _ st' => st' = st) a b). }
  apply scan_loop; [done| |done]. intros i st' Hi. by rewrite Hp.
Qed.

(** The word-at-a-time scan selects exactly the invalid rows of the mask. *)
Lemma scan_alive_words_rows m n sel0 st :
  mask_ok m -> (n <= capacity m)%nat ->
  selected (fun i => negb (RowIsValid m i)) sel0 0 st ->
  selected (fun i => negb (RowIsValid m i)) sel0 n (scan_alive_words m n st).
Proof.
  intros Hok Hn Hst. unfold scan_alive_words. set (p := fun i => negb (RowIsValid m i)) in *.
  pose proof (entry_count_bounds n).
  replace n with (Nat.min (64 * EntryCount n) n) at 1 by lia.
  apply (for_range_ind (fun k st => selected p sel0 (Nat.min (64 * k) n) st) 0); [lia|done|].
  intros k st' Hk Hsel. unfold BITS_PER_VALUE.
  assert (64 * k < n)%nat by (unfold EntryCount, BITS_PER_VALUE in *; div_lia).
  rewrite Nat.min_l in Hsel by lia.
  assert (forall i, (i < 64)%nat -> RowIsValid m (64 * k + i) = Z.testbit (GetValidityEntry m k) (Z.of_nat i)) as Hbit.
  { intros i Hi. destruct m as [[d|] cap]; [by rewrite row_is_valid_bit; apply bit_entry|].
    cbn. rewrite testbit_max_entry by lia. symmetry. apply Z.ltb_lt. lia. }
  replace (k * 64)%nat with (64 * k)%nat by lia.
  replace (Nat.min (64 * k + 64) n) with (Nat.min (64 * S k) n) by lia.
  unfold AllValid, NoneValid.
  destruct (Z.eqb_spec (GetValidityEntry m k) MAX_ENTRY) as [Hall|_].
  - apply (selected_skip_range p sel0 (64 * k)); [lia| |done]. intros i Hi. subst p. cbv beta.
    replace i with (64 * k + (i - 64 * k))%nat by lia.
    rewrite Hbit, Hall, testbit_max_entry by lia. apply negb_false_iff, Z.ltb_lt. lia.
  - destruct (Z.eqb_spec (GetValidityEntry m k) 0) as [Hnone|_]; apply scan_loop; try done; [lia| |lia|].
    + intros i st2 Hi. subst p. cbv beta. replace i with (64 * k + (i - 64 * k))%nat at 2 by lia.
      by rewrite Hbit, Hnone, Z.bits_0 by lia.
    + intros i st2 Hi. subst p. cbv beta. replace i with (64 * k + (i - 64 * k))%nat at 3 by lia.
      rewrite Hbit, entry_row_valid by lia. by case_match.
Qed.
End WithVectorSize.
End ChunkVectorInfo.
