(* ===== verification/ChunkInfoFacts.v ===== *)
(** * Row versions of one vector: what the operations of [ChunkInfo] do

    The scans of every stored form agree with a row-by-row reference; compression, commits,
    rollbacks and serialization preserve what every transaction sees. *)

From S2P Require Import Prelude Snapshot ValidityMask ChunkInfo.

Local Open Scope Z_scope.

Section Facts.
Context {VS : VectorSize}.
Import ChunkVectorInfo.

(** ** Scans *)

(** The outcome of a scan of [n] rows for those that satisfy [p]: their number, and, unless all or
    none of the rows qualify, the rows themselves at the front of the selection vector. *)
Definition scan_result (p : nat -> bool) (sel : option (list nat)) (n : nat) (st : SelState) : Prop :=
  snd st = count_rows p n /\ ((0 < snd st < n)%nat -> selected p sel n st).

Lemma scan_result_all (p : nat -> bool) sel n :
  (forall i, (i < n)%nat -> p i = true) -> scan_result p sel n (sel, n).
Proof.
  intros Hp. split; cbn [snd]; [|lia].
  unfold count_rows. by rewrite rows_all, length_seq.
Qed.

Lemma scan_result_none (p : nat -> bool) sel n :
  (forall i, (i < n)%nat -> p i = false) -> scan_result p sel n (sel, 0%nat).
Proof.
  intros Hp. split; cbn [snd]; [|lia]. unfold count_rows. by rewrite rows_none.
Qed.

Lemma scan_result_loop (p : nat -> bool) sel n body :
  (forall i st, (i < n)%nat -> body i st = if p i then select_row i st else st) ->
  scan_result p sel n (for_range 0 n body (sel, 0%nat)).
Proof.
  intros Hbody.
  assert (selected p sel n (for_range 0 n body (sel, 0%nat))) as Hsel.
  { apply scan_loop; [lia | intros i st Hi; apply Hbody; lia | apply selected_start]. }
  split; [apply Hsel | done].
Qed.

Definition row_selected (INSERT_OP DELETE_OP : SnapshotView -> Z -> bool) (view : SnapshotView)
    (c : t) (i : nat) : bool :=
  INSERT_OP view (insert_id c i) && negb (DELETE_OP view (delete_id c i)).

Lemma masked_scan (DEL : SnapshotView -> Z -> bool) view c m n sel :
  wf c -> delete_state c = MASKED -> (n <= STANDARD_VECTOR_SIZE)%nat -> deleted_mask c = m ->
  DEL view NOT_DELETED_ID = false -> DEL view (mask_delete_id c) = true ->
  scan_result (fun i => negb (DEL view (delete_id c i))) sel n
    (match sel with
     | None => (None, (n - CountValid m n)%nat)
     | Some _ => scan_alive_words m n (sel, 0%nat)
     end).
Proof.
  intros Hwf Hst Hn <- HN HM. destruct (wf_mask c Hwf Hst) as (Hok & Hcap & _).
  assert (forall i, negb (DEL view (delete_id c i)) = negb (RowIsValid (deleted_mask c) i)) as Hrow.
  { intros i. unfold delete_id. rewrite Hst. case_match; [by rewrite HM | by rewrite HN]. }
  assert (forall st, scan_result (fun i => negb (RowIsValid (deleted_mask c) i)) sel n st ->
                     scan_result (fun i => negb (DEL view (delete_id c i))) sel n st) as Hconv.
  { intros st [Hc Hs]. split; [rewrite Hc; by apply count_rows_ext|].
    intros Hlt. eapply selected_ext; [|by apply Hs]. by intros. }
  apply Hconv. pose proof (count_rows_negb (RowIsValid (deleted_mask c)) n).
  destruct sel as [s|].
  - assert (selected (fun i => negb (RowIsValid (deleted_mask c) i)) (Some s) n
              (scan_alive_words (deleted_mask c) n (Some s, 0%nat))) as Hsel.
    { apply scan_alive_words_rows; [done | lia | apply selected_start]. }
    split; [apply Hsel | done].
  - split; cbn [snd]; [rewrite count_valid_rows by (done || lia); lia|].
    intros _. split; [|done]. cbn [snd]. rewrite count_valid_rows by (done || lia). lia.
Qed.

Lemma templated_scan INS DEL view c sel n :
  wf c -> (n <= STANDARD_VECTOR_SIZE)%nat ->
  (delete_state c = MASKED -> DEL view NOT_DELETED_ID = false) ->
  exists st, TemplatedGetSelVector INS DEL view c sel n = Ok st /\
             scan_result (row_selected INS DEL view c) sel n st.
Proof.
  intros Hwf Hn HN. unfold TemplatedGetSelVector, ConstantDeleteId, ConstantInsertId,
    HasConstantDeleteId, HasConstantInsertionId, GetInsertedPointer, GetDeletedPointer.
  unfold row_selected.
  destruct (delete_state c) eqn:Hst.
  - (* CONSTANT *)
    cbn. destruct (DEL view (constant_delete_id c)) eqn:HD.
    { eexists. split; [done|]. apply scan_result_none. intros i _.
      unfold delete_id. by rewrite Hst, HD, andb_false_r. }
    destruct (inserted_data c) as [ins|] eqn:Hi; cbn; (eexists; split; [done|]).
    + apply scan_result_loop. intros i st _. unfold insert_id, delete_id. rewrite Hi, Hst, HD.
      by destruct (INS view (rd ins i)).
    + destruct (INS view (constant_insert_id c)) eqn:HI.
      * apply scan_result_all. intros i _. unfold insert_id, delete_id. by rewrite Hi, Hst, HI, HD.
      * apply scan_result_none. intros i _. unfold insert_id. by rewrite Hi, HI.
  - (* MASKED *)
    specialize (HN eq_refl).
    destruct (inserted_data c) as [ins|] eqn:Hi; cbn.
    + eexists. split; [done|]. apply scan_result_loop. intros i st _.
      unfold insert_id, delete_id. rewrite Hi, Hst.
      destruct (INS view (rd ins i)); cbn; [|done].
      destruct (RowIsValid (deleted_mask c) i); cbn; [|by rewrite andb_false_r, HN].
      by destruct (DEL view (mask_delete_id c)).
    + unfold insert_id. rewrite Hi. destruct (INS view (constant_insert_id c)) eqn:HI; cbn.
      2: { eexists. split; [done|]. by apply scan_result_none. }
      destruct (DEL view (mask_delete_id c)) eqn:HD; cbn.
      * pose proof (masked_scan DEL view c (deleted_mask c) n sel Hwf Hst Hn eq_refl HN HD).
        destruct sel; eexists; (split; [done|]); done.
      * eexists. split; [done|]. apply scan_result_all. intros i _.
        unfold delete_id. rewrite Hst. case_match; [by rewrite HD | by rewrite HN].
  - (* ARRAY *)
    destruct (inserted_data c) as [ins|] eqn:Hi; cbn.
    + eexists. split; [done|]. apply scan_result_loop. intros i st _.
      unfold insert_id, delete_id. rewrite Hi, Hst.
      destruct (INS view (rd ins i)); cbn; [|done]. by destruct (DEL view (rd _ i)).
    + unfold insert_id. rewrite Hi. destruct (INS view (constant_insert_id c)) eqn:HI; cbn.
      2: { eexists. split; [done|]. by apply scan_result_none. }
      eexists. split; [done|]. apply scan_result_loop. intros i st _.
      unfold delete_id. rewrite Hst. by destruct (DEL view (rd _ i)).
Qed.

(** The rows a scan with the given options selects. *)
Definition option_selected (options : ScanOptions) (c : t) (i : nat) : bool :=
  (match insert_type options with
   | INSERTED_STANDARD => Sees (scan_view options) (insert_id c i)
   | ALL_ROWS => true
   end) &&
  negb (match delete_type options with
        | DELETED_STANDARD => Sees (scan_view options) (delete_id c i)
        | INCLUDE_ALL_DELETED => false
        | OMIT_COMMITTED_DELETES => delete_id c i <?b visibility_bound (scan_view options)
        end).

(** The delete policy of the options does not take a row that was never deleted for deleted. *)
Definition hides_not_deleted (options : ScanOptions) : Prop :=
  match delete_type options with
  | DELETED_STANDARD => HidesNotDeleted (scan_view options)
  | INCLUDE_ALL_DELETED => True
  | OMIT_COMMITTED_DELETES => (NOT_DELETED_ID <?b visibility_bound (scan_view options)) = false
  end.

Lemma wf_hides_not_deleted options : WfView (scan_view options) -> hides_not_deleted options.
Proof.
  intros Hv. unfold hides_not_deleted. destruct (delete_type options); [by apply wf_view_hides|done|].
  destruct Hv. apply Z.ltb_ge. unfold NOT_DELETED_ID, TRANSACTION_ID_START, u64_max in *. lia.
Qed.

Lemma get_sel_vector_rows options c sel n :
  wf c -> (n <= STANDARD_VECTOR_SIZE)%nat -> hides_not_deleted options ->
  exists st, GetSelVector options c sel n = Ok st /\ scan_result (option_selected options c) sel n st.
Proof.
  intros Hwf Hn HN. unfold GetSelVector, option_selected, hides_not_deleted in *.
  destruct (insert_type options), (delete_type options);
    try (apply templated_scan; done).
  eexists. split; [done|]. by apply scan_result_all.
Qed.

Lemma get_row_count options c n :
  wf c -> (n <= STANDARD_VECTOR_SIZE)%nat -> hides_not_deleted options ->
  GetRowCount options c n = Ok (count_rows (option_selected options c) n).
Proof.
  intros Hwf Hn HN. unfold GetRowCount.
  destruct (get_sel_vector_rows options c None n) as ([sel k] & -> & Hc & _); [done..|].
  cbn in *. by rewrite Hc.
Qed.

Lemma fetch_visible view c row : Fetch view c row = Ok (visible view c row).
Proof.
  unfold Fetch, ConstantInsertId, ConstantDeleteId, GetInsertedPointer, GetDeletedPointer,
    HasConstantInsertionId, HasConstantDeleteId, visible, insert_id, delete_id, UseVersion.
  by destruct (inserted_data c), (delete_state c).
Qed.

(** ** The stored forms of the ids

    A chunk info stores one function from rows to insert ids and one to delete ids; materializing
    them as arrays does not change them. *)

Lemma rd_map_rows (f : nat -> Z) n i : (i < n)%nat -> rd (f <$> seq 0 n) i = f i.
Proof. intros. unfold rd. rewrite list_lookup_fmap, lookup_seq_lt by lia. done. Qed.

Lemma initialized_inserted c :
  wf c -> exists d, GetInitializedInsertedPointer c = Ok (set_inserted (Some d) c, d)
    /\ length d = STANDARD_VECTOR_SIZE
    /\ forall i, (i < STANDARD_VECTOR_SIZE)%nat -> rd d i = insert_id c i.
Proof.
  intros Hwf. unfold GetInitializedInsertedPointer, HasConstantInsertionId, ConstantInsertId,
    GetInsertedPointer, HasConstantInsertionId, insert_id.
  destruct (inserted_data c) as [d|] eqn:Hi; cbn.
  - exists d. split; [|split; [by apply (wf_inserted c)|done]].
    destruct c; cbn in *; by subst.
  - eexists. split; [done|]. split; [apply length_replicate|]. intros. by apply rd_replicate.
Qed.

(** What the delete side looks like once it is an array [d] of ids. *)
Definition as_delete_array (c c' : t) (d : list Z) : Prop :=
  delete_state c' = ARRAY /\ deleted_data c' = Some d /\ length d = STANDARD_VECTOR_SIZE /\
  inserted_data c' = inserted_data c /\ constant_insert_id c' = constant_insert_id c /\
  start c' = start c /\
  forall i, (i < STANDARD_VECTOR_SIZE)%nat -> rd d i = delete_id c i.

Lemma initialized_deleted c :
  wf c -> exists c' d, GetInitializedDeletedPointer c = Ok (c', d) /\ as_delete_array c c' d.
Proof.
  intros Hwf. unfold GetInitializedDeletedPointer, as_delete_array, delete_id, HasConstantDeleteId,
    ConstantDeleteId, HasConstantDeleteId.
  destruct (delete_state c) eqn:Hst; cbn [set_deleted set_recheck DecompressDeleteMask delete_state
    deleted_data inserted_data constant_insert_id start mret result_ret mbind result_bind].
  - rewrite Hst. eexists _, _. split; [done|]. cbn. split_and!; try done; [apply length_replicate|].
    intros. by apply rd_replicate.
  - eexists _, _. split; [done|]. cbn. split_and!; try done; [by rewrite length_fmap, length_seq|].
    intros. by apply rd_map_rows.
  - destruct (wf_deleted c Hwf Hst) as (d & Hd & Hl). rewrite Hst, Hd. eexists _, _.
    split; [done|]. done.
Qed.

Lemma wf_set_recheck b c : wf c -> wf (set_recheck b c).
Proof. intros []. by split. Qed.

Lemma wf_set_inserted d c :
  wf c -> (forall d', d = Some d' -> length d' = STANDARD_VECTOR_SIZE) -> wf (set_inserted d c).
Proof. intros [] ?. by split. Qed.

Lemma wf_store_deleted c c' d0 d :
  wf c -> as_delete_array c c' d0 -> length d = STANDARD_VECTOR_SIZE -> wf (store_deleted d c').
Proof.
  intros Hwf (Hst & _ & _ & Hi & _) Hl. split; cbn.
  - intros d'. rewrite Hi. apply (wf_inserted c Hwf).
  - intros _. by exists d.
  - by rewrite Hst.
Qed.

Lemma insert_id_store_deleted c c' d0 d i :
  as_delete_array c c' d0 -> insert_id (store_deleted d c') i = insert_id c i.
Proof. intros (_ & _ & _ & Hi & Hc & _). unfold insert_id. cbn. by rewrite Hi, Hc. Qed.

Lemma delete_id_store_deleted c c' d0 d i :
  as_delete_array c c' d0 -> delete_id (store_deleted d c') i = rd d i.
Proof. intros (Hst & _). unfold delete_id. cbn. by rewrite Hst. Qed.

(** Writing [x] at the positions [f 0 .. f (n-1)] of an array. *)
Lemma store_loop (f : nat -> nat) (x : Z) a b d :
  (a <= b)%nat ->
  (forall k, (a <= k < b)%nat -> (f k < length d)%nat) ->
  let d' := for_range a b (fun k d => <[f k := x]> d) d in
  length d' = length d /\
  forall i, rd d' i = x /\ (exists k, (a <= k < b)%nat /\ f k = i) \/
            rd d' i = rd d i /\ (forall k, (a <= k < b)%nat -> f k <> i).
Proof.
  intros Hab Hf. cbv zeta.
  apply (for_range_ind (fun m d' => length d' = length d /\
    forall i, rd d' i = x /\ (exists k, (a <= k < m)%nat /\ f k = i) \/
              rd d' i = rd d i /\ (forall k, (a <= k < m)%nat -> f k <> i)) a b);
    [done | split; [done|]; intros i; right; split; [done|lia] |].
  intros m d' Hm [Hl Hd]. split; [by rewrite length_insert|]. intros i.
  destruct (decide (f m = i)) as [<-|Hne].
  - left. rewrite rd_insert_eq by (rewrite Hl; apply Hf; lia). split; [done|]. exists m. lia.
  - rewrite rd_insert_ne by done. destruct (Hd i) as [[Hx (k & ? & ?)]|[Hx Hk]].
    + left. split; [done|]. exists k. split; [lia|done].
    + right. split; [done|]. intros k ?. destruct (Nat.eq_dec k m); [by subst|]. apply Hk. lia.
Qed.

(** Writing [x] to the rows [a .. b-1]. *)
Lemma store_range x a b d i :
  (b <= length d)%nat ->
  rd (for_range a b (fun k d => <[k := x]> d) d) i
  = if decide (a <= i < b)%nat then x else rd d i.
Proof.
  intros Hb. destruct (decide (a <= b)%nat) as [Hab|].
  2: { rewrite for_range_ge by lia. case_decide; [lia|done]. }
  destruct (store_loop (fun k => k) x a b d) as [_ Hd]; [done | lia |].
  destruct (Hd i) as [[-> (k & ? & <-)]|[-> Hk]]; case_decide; try done.
  by destruct (Hk i).
Qed.

Lemma length_store_range (x : Z) a b d :
  length (for_range a b (fun k d => <[k := x]> d) d) = length d.
Proof.
  destruct (decide (a <= b)%nat) as [Hab|]; [|by rewrite for_range_ge by lia].
  apply (for_range_ind (fun _ d' => length d' = length d) a b); [done..|].
  intros i d' _ <-. apply length_insert.
Qed.

(** ** Appends *)

Lemma append_ids start0 end_ id c :
  wf c -> (end_ <= STANDARD_VECTOR_SIZE)%nat ->
  (start0 = 0%nat -> inserted_data c = None) ->
  exists c', Append start0 end_ id c = Ok c' /\ wf c' /\
    forall i, (i < STANDARD_VECTOR_SIZE)%nat ->
      delete_id c' i = delete_id c i /\
      insert_id c' i = if (start0 =? 0)%nat || ((start0 <=? i) && (i <? end_))%nat then id else insert_id c i.
Proof.
  intros Hwf Hend Hfresh. unfold Append. destruct (Nat.eqb_spec start0 0) as [->|Hs].
  { eexists. split; [done|]. split; [by destruct Hwf|]. intros i _. split; [done|].
    unfold insert_id. cbn. by rewrite Hfresh. }
  destruct (HasConstantInsertionId c && (constant_insert_id c =? id)) eqn:Hc.
  { apply andb_true_iff in Hc as [Hc Hid%Z.eqb_eq].
    exists c. split; [done|]. split; [done|]. intros i _. split; [done|].
    unfold HasConstantInsertionId, insert_id in *. destruct (inserted_data c); [done|].
    rewrite Hid. by destruct (_ || _). }
  destruct (initialized_inserted (set_recheck true c)) as (d & -> & Hl & Hd); [by apply wf_set_recheck|].
  cbn [mbind result_bind mret result_ret].
  eexists. split; [done|]. split.
  - apply wf_set_inserted; [|by intros ? [= <-]; rewrite length_store_range].
    apply wf_set_inserted; [by apply wf_set_recheck|by intros ? [= <-]].
  - intros i Hi. split; [done|]. unfold insert_id at 1. cbn [set_inserted inserted_data].
    rewrite store_range by lia. rewrite Hd by done. cbn [orb].
    destruct (Nat.leb_spec start0 i), (Nat.ltb_spec i end_); cbn [andb orb]; case_decide; try lia; done.
Qed.

Lemma commit_append_ids id start0 end_ c :
  wf c -> (end_ <= STANDARD_VECTOR_SIZE)%nat ->
  exists c', CommitAppend id start0 end_ c = Ok c' /\ wf c' /\
    forall i, (i < STANDARD_VECTOR_SIZE)%nat ->
      delete_id c' i = delete_id c i /\
      insert_id c' i = if HasConstantInsertionId c || ((start0 <=? i) && (i <? end_))%nat
                       then id else insert_id c i.
Proof.
  intros Hwf Hend. unfold CommitAppend, HasConstantInsertionId, GetInsertedPointer.
  destruct (inserted_data c) as [d|] eqn:Hi; cbn [set_recheck inserted_data mbind result_bind mret result_ret].
  - rewrite Hi. eexists. split; [done|]. pose proof (wf_inserted c Hwf d Hi) as Hl. split.
    + apply wf_set_inserted; [by apply wf_set_recheck|by intros ? [= <-]; rewrite length_store_range].
    + intros i Hlt. split; [done|]. unfold insert_id. cbn [set_inserted inserted_data].
      rewrite Hi, store_range by lia. cbn [orb].
      destruct (Nat.leb_spec start0 i), (Nat.ltb_spec i end_); cbn [andb orb]; case_decide; try lia; done.
  - eexists. split; [done|]. split; [by destruct Hwf|]. intros i _. split; [done|].
    unfold insert_id. cbn. by rewrite Hi.
Qed.

(** ** Deletes *)

(** The [k]-th entry of a row buffer. *)
Definition row_at (rows : list nat) (k : nat) : nat := nth k rows 0%nat.

(** A row that a delete of transaction [tid] may touch: alive, or already deleted by [tid]. *)
Definition deletable (tid : Z) (d : list Z) (row : nat) : bool :=
  (rd d row =? tid) || (rd d row =? NOT_DELETED_ID).

Lemma take_S_row_at (rows : list nat) i :
  (i < length rows)%nat -> take (S i) rows = take i rows ++ [row_at rows i].
Proof.
  intros Hi. unfold row_at. destruct (lookup_lt_is_Some_2 rows i Hi) as [r Hr].
  rewrite (take_S_r _ _ r) by done. by rewrite (nth_lookup_Some _ _ _ _ Hr).
Qed.

Lemma elem_of_take_S (rows : list nat) i :
  (i < length rows)%nat -> forall r, r ∈ take (S i) rows <-> r ∈ take i rows \/ r = row_at rows i.
Proof. intros Hi r. rewrite take_S_row_at by done. by rewrite elem_of_app, list_elem_of_singleton. Qed.

Lemma row_at_elem (rows : list nat) k i :
  (k < i)%nat -> (i <= length rows)%nat -> row_at rows k ∈ take i rows.
Proof.
  intros Hk Hi. unfold row_at. destruct (lookup_lt_is_Some_2 rows k) as [r Hr]; [lia|].
  rewrite (nth_lookup_Some _ _ _ _ Hr). apply list_elem_of_lookup. exists k.
  by rewrite lookup_take_lt by done.
Qed.

Lemma elem_row_at (rows : list nat) i r :
  r ∈ take i rows -> exists k, (k < i)%nat /\ (k < length rows)%nat /\ row_at rows k = r.
Proof.
  intros [k Hk]%list_elem_of_lookup. exists k.
  apply lookup_take_Some in Hk as [Hk ?].
  split_and!; [done | by eapply lookup_lt_Some |]. unfold row_at. by apply nth_lookup_Some.
Qed.

(** The state of the loop of [Delete] before entry [i]: from the array [d0] and the buffer [R]
    it has reached the array [d] and the buffer [buf], whose first [k] entries are the rows this
    call deleted. *)
Record deleting (tid : Z) (d0 : list Z) (R : list nat) (i : nat)
    (d : list Z) (buf : list nat) (k : nat) : Prop := {
  del_length : length d = length d0;
  del_buf_length : length buf = length R;
  del_count : (k <= i)%nat;
  del_rest : forall m, (i <= m)%nat -> row_at buf m = row_at R m;
  del_seen : forall m, (m < i)%nat -> row_at buf m ∈ take i R;
  del_ok : forall r, r ∈ take i R -> deletable tid d0 r = true;
  del_ids : forall r, rd d r = if decide (r ∈ take i R) then tid else rd d0 r;
  del_rows : forall r, r ∈ take k buf <-> r ∈ take i R /\ rd d0 r = NOT_DELETED_ID;
  del_nodup : NoDup (take k buf);
  del_order : take k buf `sublist_of` take i R
}.

Lemma deleting_start tid d0 R : deleting tid d0 R 0 d0 R 0.
Proof. split; try done; try lia; rewrite ?take_0; try constructor.
  - by intros r ?%not_elem_of_nil.
  - by intros ?%not_elem_of_nil.
  - by intros [?%not_elem_of_nil _]. Qed.

(** A row already deleted by this transaction is passed over. *)
Lemma deleting_own tid d0 R i d buf k :
  tid <> NOT_DELETED_ID ->
  (i < length R)%nat -> deleting tid d0 R i d buf k -> rd d (row_at R i) = tid ->
  deleting tid d0 R (S i) d buf k.
Proof.
  intros Htid Hi [] Hown. assert (Hmem := take_S_row_at R i Hi).
  pose proof (elem_of_take_S R i Hi) as r_cases.
  assert (row_at R i ∈ take i R \/ rd d0 (row_at R i) = tid) as Hrow.
  { rewrite del_ids0 in Hown. case_decide; [by left | by right]. }
  split; try done; try lia.
  - intros m ?. apply del_rest0. lia.
  - intros m Hm. apply r_cases. destruct (Nat.eq_dec m i) as [->|]; [right; apply del_rest0; lia|].
    left. apply del_seen0. lia.
  - intros r [?| ->]%r_cases; [by apply del_ok0|]. destruct Hrow; [by apply del_ok0|].
    unfold deletable. by apply orb_true_iff; left; apply Z.eqb_eq.
  - intros r. rewrite del_ids0. repeat case_decide; try done.
    + by rewrite r_cases in *; intuition.
    + apply r_cases in H0 as [?|Hr]; [done|]. rewrite Hr. by destruct Hrow; subst.
  - intros r. rewrite del_rows0, r_cases. split; [by intuition|].
    intros [[?| ->] Hn]; [done|]. split; [|done]. destruct Hrow; [done|]. congruence.
  - rewrite Hmem. by apply sublist_inserts_r.
Qed.

(** An alive row is marked and moved to the front of the buffer. *)
Lemma deleting_new tid d0 R i d buf k :
  tid <> NOT_DELETED_ID ->
  (i < length R)%nat -> (row_at R i < length d0)%nat ->
  deleting tid d0 R i d buf k -> rd d (row_at R i) = NOT_DELETED_ID ->
  deleting tid d0 R (S i) (<[row_at R i := tid]> d) (<[k := row_at R i]> buf) (S k).
Proof.
  intros Htid Hi Hlt [] Hnew. assert (Hmem := take_S_row_at R i Hi).
  pose proof (elem_of_take_S R i Hi) as r_cases.
  assert ((row_at R i ∉ take i R) /\ rd d0 (row_at R i) = NOT_DELETED_ID) as [Hnot Hn0].
  { rewrite del_ids0 in Hnew. case_decide; [congruence | by split]. }
  assert (take (S k) (<[k := row_at R i]> buf) = take k buf ++ [row_at R i]) as Htake.
  { rewrite (take_S_r _ _ (row_at R i)) by (apply list_lookup_insert_eq; lia).
    by rewrite take_insert_ge by lia. }
  assert (forall m, (m < length buf)%nat -> row_at (<[k := row_at R i]> buf) m = if decide (m = k) then row_at R i else row_at buf m) as Hat.
  { intros m Hm. unfold row_at at 1 4. rewrite !nth_lookup. case_decide.
    - subst. by rewrite list_lookup_insert_eq by lia.
    - by rewrite list_lookup_insert_ne by lia. }
  split.
  - by rewrite length_insert.
  - by rewrite length_insert.
  - lia.
  - intros m Hm. unfold row_at. rewrite !nth_lookup, list_lookup_insert_ne by lia.
    rewrite <- !nth_lookup. apply del_rest0. lia.
  - intros m Hm. apply r_cases. rewrite Hat by lia. case_decide; [by right|].
    destruct (Nat.eq_dec m i) as [->|]; [right; apply del_rest0; lia|]. left. apply del_seen0. lia.
  - intros r [?| ->]%r_cases; [by apply del_ok0|]. unfold deletable. rewrite Hn0. apply orb_true_r.
  - intros r. destruct (decide (r = row_at R i)) as [->|Hne].
    + rewrite rd_insert_eq by lia. rewrite decide_True; [done|]. apply r_cases. by right.
    + rewrite rd_insert_ne by done. rewrite del_ids0. repeat case_decide; try done;
        rewrite r_cases in *; naive_solver.
  - intros r. rewrite Htake, elem_of_app, list_elem_of_singleton, del_rows0, r_cases. naive_solver.
  - rewrite Htake. apply NoDup_app. split_and!; [done| |apply NoDup_singleton].
    intros r Hr%del_rows0. rewrite list_elem_of_singleton. intros ->. naive_solver.
  - rewrite Htake, Hmem. by apply sublist_app.
Qed.

(** What the loop returns. *)
Lemma delete_loop_spec tid d0 R n i d buf k :
  tid <> NOT_DELETED_ID -> (i + n <= length R)%nat ->
  (forall m, (m < i + n)%nat -> (row_at R m < length d0)%nat) ->
  deleting tid d0 R i d buf k ->
  exists d' buf' r, delete_loop n i tid d buf k = (d', buf', r) /\ length buf' = length R /\
    match r with
    | Ok k' => deleting tid d0 R (i + n) d' buf' k'
    | Throw e =>
        e = conflict /\ length d' = length d0 /\
        (exists m, (m < i + n)%nat /\ deletable tid d0 (row_at R m) = false) /\
        forall r, rd d' r = rd d0 r \/ (r ∈ take (i + n) R /\ rd d0 r = tid /\ rd d' r = NOT_DELETED_ID)
    end.
Proof.
  intros Htid. revert i d buf k. induction n as [|n IH]; intros i d buf k Hlen Hrow Hdel.
  { rewrite Nat.add_0_r in *. eexists _, _, _. split; [done|]. split; [by destruct Hdel|done]. }
  cbn [delete_loop]. change (nth i buf 0%nat) with (row_at buf i).
  rewrite (del_rest _ _ _ _ _ _ _ Hdel) by lia.
  replace (i + S n)%nat with (S i + n)%nat in * by lia.
  destruct (Z.eqb_spec (rd d (row_at R i)) tid) as [Hown|Hnown].
  { apply IH; [lia | intros; apply Hrow; lia |]. apply deleting_own; [done | lia | done | done]. }
  destruct (Z.eqb_spec (rd d (row_at R i)) NOT_DELETED_ID) as [Hnew|Hconf]; cbn [negb].
  { apply IH; [lia | intros; apply Hrow; lia |]. apply deleting_new; [done | lia | apply Hrow; lia | done | done]. }
  eexists _, _, _. split; [done|]. cbn. split; [by destruct Hdel|]. destruct Hdel.
  destruct (store_loop (row_at buf) NOT_DELETED_ID 0 i d) as [Hl Hd]; [lia| |].
  { intros m Hm. rewrite del_length0. destruct (elem_row_at R i (row_at buf m)) as (m' & ? & ? & <-);
      [apply del_seen0; lia|]. apply Hrow. lia. }
  split_and!; [done | by rewrite <- del_length0 | |].
  - exists i. split; [lia|]. rewrite del_ids0 in Hnown, Hconf. case_decide; [done|].
    unfold deletable. apply orb_false_iff. by rewrite !Z.eqb_neq.
  - intros r. destruct (Hd r) as [[Hx (m & Hm & <-)]|[Hx Hno]].
    + specialize (del_seen0 m ltac:(lia)). specialize (del_ok0 _ del_seen0).
      change (for_range 0 i _ d) with (for_range 0 i (fun k d => <[row_at buf k := NOT_DELETED_ID]> d) d).
      unfold deletable in del_ok0. apply orb_true_iff in del_ok0 as [Ht%Z.eqb_eq|Hn%Z.eqb_eq].
      * right. split_and!; [|done|done]. apply elem_of_take in del_seen0 as (j & ? & ?).
        apply elem_of_take. exists j. split; [done|lia].
      * left. congruence.
    + left. change (for_range 0 i _ d) with (for_range 0 i (fun k d => <[row_at buf k := NOT_DELETED_ID]> d) d).
      rewrite Hx, del_ids0. case_decide as Hin; [|done].
      specialize (del_ok0 _ Hin). unfold deletable in del_ok0.
      apply orb_true_iff in del_ok0 as [Ht%Z.eqb_eq|Hn%Z.eqb_eq]; [done|].
      exfalso. assert (r ∈ take k buf) as Hk by (by apply del_rows0).
      apply elem_row_at in Hk as (m & ? & ? & Hm). apply (Hno m); [lia|done].
Qed.


Definition deletable_row (tid : Z) (c : t) (row : nat) : bool :=
  (delete_id c row =? tid) || (delete_id c row =? NOT_DELETED_ID).

(** The effect of a delete that succeeds: the rows it names are deleted by [tid], and the first
    [n] entries of the buffer are, in order and without repetition, those that were alive. *)
Record delete_effect (tid : Z) (rows : list nat) (count : nat) (c c' : t) (rows' : list nat) (n : nat) : Prop := {
  eff_ids : forall i, (i < STANDARD_VECTOR_SIZE)%nat ->
            delete_id c' i = if decide (i ∈ take count rows) then tid else delete_id c i;
  eff_length : (n <= length rows')%nat;
  eff_rows : forall r, r ∈ take n rows' <-> r ∈ take count rows /\ delete_id c r = NOT_DELETED_ID;
  eff_nodup : NoDup (take n rows');
  eff_order : take n rows' `sublist_of` take count rows
}.

(** A conflict leaves every delete id alone, except for rows this transaction had deleted before,
    which may become alive again. *)
Definition conflict_effect (tid : Z) (rows : list nat) (count : nat) (c c' : t) : Prop :=
  (exists m, (m < count)%nat /\ deletable_row tid c (row_at rows m) = false) /\
  forall i, (i < STANDARD_VECTOR_SIZE)%nat -> delete_id c' i = delete_id c i \/
    (i ∈ take count rows /\ delete_id c i = tid /\ delete_id c' i = NOT_DELETED_ID).

Lemma deletes_entire_vector rows count :
  (count <= length rows)%nat -> DeletesEntireVector rows count = true -> take count rows = seq 0 count.
Proof.
  unfold DeletesEntireVector. intros Hlen Hall. rewrite forallb_seq in Hall.
  apply list_eq_same_length with count; [by rewrite length_seq | rewrite length_take; lia|].
  intros i x y Hi Hx Hy. rewrite lookup_take_lt in Hx by done.
  apply lookup_seq in Hy as [-> _]. specialize (Hall i Hi).
  rewrite (nth_lookup_Some _ _ _ _ Hx) in Hall. by apply Nat.eqb_eq in Hall.
Qed.

Lemma delete_constant tid rows count c :
  HasConstantDeleteId c = true -> (0 < count)%nat -> (count <= length rows)%nat ->
  constant_delete_id c <> NOT_DELETED_ID -> tid <> NOT_DELETED_ID ->
  if constant_delete_id c =? tid then delete_effect tid rows count c c rows 0
  else conflict_effect tid rows count c c.
Proof.
  intros Hc Hpos Hlen Hnd Htid. assert (forall i, delete_id c i = constant_delete_id c) as Hid.
  { intros i. unfold HasConstantDeleteId, delete_id in *. by destruct (delete_state c). }
  destruct (Z.eqb_spec (constant_delete_id c) tid) as [<-|Hne].
  - split; try rewrite take_0; try constructor; try lia.
    + intros i _. rewrite !Hid. by case_decide.
    + by intros ?%not_elem_of_nil.
    + intros [_ Hn]. by rewrite Hid in Hn.
    + apply sublist_nil_l.
  - split.
    + exists 0%nat. split; [done|]. unfold deletable_row. rewrite Hid.
      apply orb_false_iff. by rewrite !Z.eqb_neq.
    + intros i _. by left.
Qed.

Definition delete_outcome (tid : Z) (rows : list nat) (count : nat) (c : t)
    (out : t * list nat * result nat) : Prop :=
  let '(c', rows', r) := out in
  wf c' /\ (forall i, insert_id c' i = insert_id c i) /\ length rows' = length rows /\
  match r with
  | Ok n => (forall m, (m < count)%nat -> deletable_row tid c (row_at rows m) = true) /\
            delete_effect tid rows count c c' rows' n
  | Throw e => e = conflict /\ conflict_effect tid rows count c c'
  end.

(** The row-by-row part of [Delete]. *)
Lemma delete_rows_spec tid rows count c c1 d :
  wf c -> tid <> NOT_DELETED_ID -> (count <= length rows)%nat ->
  (forall m, (m < count)%nat -> (row_at rows m < STANDARD_VECTOR_SIZE)%nat) ->
  as_delete_array c c1 d ->
  delete_outcome tid rows count c
    (let '(deleted, rows, r) := delete_loop count 0 tid d rows 0 in (store_deleted deleted c1, rows, r)).
Proof.
  intros Hwf Htid Hlen Hrow Harr. pose proof Harr as (_ & _ & Hl & _ & _ & _ & Hd).
  destruct (delete_loop_spec tid d rows count 0 d rows 0) as (d' & rows' & r & Heq & Hlr & Hr);
    [done | lia | intros; rewrite Hl; apply Hrow; lia | apply deleting_start |].
  rewrite Heq. cbn [Nat.add delete_outcome] in *.
  assert (forall m, (m < count)%nat -> deletable tid d (row_at rows m) = deletable_row tid c (row_at rows m)) as Hdel
    by (intros m Hm; unfold deletable, deletable_row; by rewrite Hd by (by apply Hrow)).
  assert (forall r, r ∈ take count rows -> (r < STANDARD_VECTOR_SIZE)%nat) as Hin
    by (intros r0 (m & ? & ? & <-)%elem_row_at; by apply Hrow).
  destruct r as [k|e].
  - destruct Hr. split; [eapply wf_store_deleted; [done..|congruence]|].
    split; [intros; by eapply insert_id_store_deleted|]. split; [done|]. split.
    + intros m Hm. rewrite <- Hdel by done. apply del_ok0, row_at_elem; lia.
    + split; try done; [|lia|].
      * intros i Hi. erewrite delete_id_store_deleted by done. by rewrite del_ids0, Hd.
      * intros r. rewrite del_rows0. split; intros [Hr Hn]; (split; [done|]).
        -- by rewrite <- Hd by auto.
        -- by rewrite Hd by auto.
  - destruct Hr as (-> & Hl' & (m & Hm & Hc) & Hids).
    split; [eapply wf_store_deleted; [done..|congruence]|].
    split; [intros; by eapply insert_id_store_deleted|]. split; [done|]. split; [done|]. split.
    + exists m. split; [done|]. by rewrite <- Hdel.
    + intros i Hi. erewrite delete_id_store_deleted by done. rewrite <- Hd by done. apply Hids.
Qed.

Lemma delete_spec tid rows count c :
  wf c -> tid <> NOT_DELETED_ID -> (0 < count <= length rows)%nat ->
  (forall m, (m < count)%nat -> (row_at rows m < STANDARD_VECTOR_SIZE)%nat) ->
  delete_outcome tid rows count c (Delete tid rows count c).
Proof.
  intros Hwf Htid [Hpos Hlen] Hrow. unfold Delete.
  assert (HasConstantDeleteId c = true -> forall i, delete_id c i = constant_delete_id c) as Hid.
  { intros Hc i. unfold HasConstantDeleteId, delete_id in *. by destruct (delete_state c). }
  destruct (HasConstantDeleteId c && negb (constant_delete_id c =? NOT_DELETED_ID)) eqn:Hdead.
  { apply andb_true_iff in Hdead as [Hc Hn%negb_true_iff%Z.eqb_neq].
    pose proof (delete_constant tid rows count c Hc Hpos Hlen Hn Htid) as Heff.
    destruct (Z.eqb_spec (constant_delete_id c) tid) as [He|He]; cbn; (do 3 (split; [done|])); [|done].
    split; [|done]. intros m _. unfold deletable_row. by rewrite Hid, He, Z.eqb_refl. }
  destruct (HasConstantDeleteId c && (count =? STANDARD_VECTOR_SIZE)%nat && DeletesEntireVector rows count) eqn:Hfull.
  { apply andb_true_iff in Hfull as [[Hc Hsz%Nat.eqb_eq]%andb_true_iff Hent].
    rewrite Hc in Hdead. apply negb_false_iff, Z.eqb_eq in Hdead.
    specialize (Hid Hc). rewrite Hdead in Hid. apply deletes_entire_vector in Hent; [|done].
    cbn. split; [destruct Hwf; by split|]. do 2 (split; [done|]).
    split; [intros m _; unfold deletable_row; rewrite Hid; apply orb_true_r|].
    split; [|done| |by rewrite Hent; apply NoDup_seq|done].
    - intros i Hi. rewrite Hent, decide_True by (apply elem_of_seq; lia).
      unfold HasConstantDeleteId, delete_id in *. cbn. by destruct (delete_state c).
    - intros r. rewrite Hid. tauto. }
  destruct (initialized_deleted (set_recheck true c)) as (c1 & d & -> & Harr); [by apply wf_set_recheck|].
  by apply delete_rows_spec.
Qed.

(** ** Commit and rollback of deletes *)

(** The rows an undo entry names. *)
Definition info_rows (info : DeleteInfo) : list nat :=
  if is_consecutive info then seq 0 (delete_count info)
  else take (delete_count info) (delete_rows info).

(** The entry fits the vector. *)
Record info_ok (info : DeleteInfo) : Prop := {
  info_bound : forall r, r ∈ info_rows info -> (r < STANDARD_VECTOR_SIZE)%nat;
  info_consecutive : is_consecutive info = true -> (delete_count info <= STANDARD_VECTOR_SIZE)%nat;
  info_length : is_consecutive info = false -> (delete_count info <= length (delete_rows info))%nat
}.

Lemma push_delete_rows v rows count b info :
  (count <= length rows)%nat -> (count <= STANDARD_VECTOR_SIZE)%nat ->
  (forall r, r ∈ take count rows -> (r < STANDARD_VECTOR_SIZE)%nat) ->
  PushDelete v rows count b = Ok info -> info_rows info = take count rows /\ info_ok info.
Proof.
  intros Hlen Hsz Hin. unfold PushDelete.
  destruct (forallb (fun i => (nth i rows 0 =? i)%nat) (seq 0 count)) eqn:Hc;
    [intros <-%Ok_inj|case_match; [intros <-%Ok_inj|by intros [=]]].
  - apply deletes_entire_vector in Hc; [|done].
    assert (info_rows (mkDeleteInfo v count b true []) = take count rows) as Hr by (by rewrite Hc).
    split; [done|]. split; [by rewrite Hr|done|done].
  - assert (info_rows (mkDeleteInfo v count b false (take count rows)) = take count rows) as Hr.
    { unfold info_rows; cbn. rewrite take_take. f_equal. lia. }
    split; [done|]. split; [by rewrite Hr|done|]. intros _; cbn. rewrite length_take. lia.
Qed.

Lemma push_delete_vector v rows count b info : PushDelete v rows count b = Ok info -> vector_idx info = v.
Proof. unfold PushDelete. cbv zeta. repeat case_match; try done; by intros <-%Ok_inj. Qed.

Lemma push_delete_total v rows count b :
  (forall m, (m < count)%nat -> (row_at rows m < STANDARD_VECTOR_SIZE)%nat) ->
  Z.of_nat STANDARD_VECTOR_SIZE <= 2 ^ 16 ->
  exists info, PushDelete v rows count b = Ok info.
Proof.
  intros Hrow H16. unfold PushDelete. destruct (forallb (fun i => (nth i rows 0 =? i)%nat) _); [by eexists|].
  rewrite (proj2 (forallb_seq _ _)); [by eexists|].
  intros i Hi. apply Z.ltb_lt. specialize (Hrow i Hi). unfold row_at in Hrow. lia.
Qed.

Lemma free_delete_data_constant id c :
  wf c -> wf (set_constant_delete_id id (FreeDeleteData c)) /\
  (forall i, insert_id (set_constant_delete_id id (FreeDeleteData c)) i = insert_id c i) /\
  (forall i, delete_id (set_constant_delete_id id (FreeDeleteData c)) i = id).
Proof.
  intros []. unfold FreeDeleteData. split_and!.
  - destruct (delete_state c); by split.
  - intros i. by destruct (delete_state c).
  - intros i. by destruct (delete_state c).
Qed.

Lemma commit_array id info c c1 d :
  info_ok info -> wf c -> as_delete_array c c1 d ->
  exists deleted,
    (if is_consecutive info then
       mret (for_range 0 (delete_count info) (fun i d => <[i := id]> d) d)
     else
       rows ← GetRows info;
       mret (for_range 0 (delete_count info) (fun i d => <[nth i rows 0%nat := id]> d) d)) = Ok deleted /\
    length deleted = STANDARD_VECTOR_SIZE /\
    forall i, (i < STANDARD_VECTOR_SIZE)%nat ->
      rd deleted i = if decide (i ∈ info_rows info) then id else delete_id c i.
Proof.
  intros [Hb Hc Hn] Hwf (_ & _ & Hl & _ & _ & _ & Hd). unfold info_rows, GetRows in *.
  destruct (is_consecutive info); cbn [mbind result_bind mret result_ret].
  - specialize (Hc eq_refl). eexists. split; [done|]. split; [by rewrite length_store_range|].
    intros i Hi. rewrite store_range by lia. rewrite Hd by done.
    repeat case_decide; try done; rewrite elem_of_seq in *; lia.
  - specialize (Hn eq_refl). eexists. split; [done|].
    destruct (store_loop (row_at (delete_rows info)) id 0 (delete_count info) d) as [Hl' Hd'].
    { lia. } { intros k Hk. rewrite Hl. apply Hb, row_at_elem; lia. }
    split; [unfold row_at in Hl'; congruence|]. intros i Hi. rewrite <- (Hd i Hi).
    destruct (Hd' i) as [[Hx (k & Hk & <-)]|[Hx Hk]]; (etrans; [exact Hx|]).
    + rewrite decide_True; [done|]. apply row_at_elem; lia.
    + rewrite decide_False; [done|]. intros (k & ? & ? & He)%elem_row_at. apply (Hk k); [lia|done].
Qed.

Lemma commit_delete_ids id info c :
  wf c -> info_ok info ->
  exists c', CommitDelete id info c = Ok c' /\ wf c' /\
    (forall i, insert_id c' i = insert_id c i) /\
    forall i, (i < STANDARD_VECTOR_SIZE)%nat ->
      delete_id c' i = if decide (i ∈ info_rows info) then id else delete_id c i.
Proof.
  intros Hwf Hok. unfold CommitDelete.
  destruct (is_consecutive info && (delete_count info =? STANDARD_VECTOR_SIZE)%nat) eqn:Hfull.
  { apply andb_true_iff in Hfull as [Hc Hn%Nat.eqb_eq].
    destruct (free_delete_data_constant id c Hwf) as (? & ? & Hid).
    eexists. split; [done|]. split_and!; [done..|]. intros i Hi. rewrite Hid, decide_True; [done|].
    unfold info_rows. rewrite Hc, Hn. apply elem_of_seq. lia. }
  clear Hfull. destruct (HasConstantDeleteId c && (constant_delete_id c =? id)) eqn:Hsame.
  { apply andb_true_iff in Hsame as [Hc <-%Z.eqb_eq]. eexists. split; [done|]. split_and!; [done..|].
    intros i _. unfold HasConstantDeleteId, delete_id in *. destruct (delete_state c); try done. by case_decide. }
  clear Hsame. destruct (initialized_deleted (set_recheck true c)) as (c1 & d & -> & Harr); [by apply wf_set_recheck|].
  cbn [mbind result_bind].
  destruct (commit_array id info c c1 d) as (deleted & Heq & Hl & Hids); [done..|].
  rewrite Heq. eexists. split; [done|].
  assert (wf (store_deleted deleted c1)) as Hwf1 by (by eapply wf_store_deleted).
  assert (forall i, insert_id (store_deleted deleted c1) i = insert_id c i) as Hins
    by (intros; by apply (insert_id_store_deleted c c1 d)).
  destruct (forallb _ _) eqn:Hall.
  - destruct (free_delete_data_constant id _ Hwf1) as (? & Hins' & Hid).
    split_and!; [done | intros; by rewrite Hins' |].
    intros i Hi. rewrite Hid, <- Hids by done. rewrite forallb_seq in Hall.
    symmetry. by apply Z.eqb_eq, Hall.
  - split_and!; [done..|]. intros i Hi. rewrite <- Hids by done. by eapply delete_id_store_deleted.
Qed.

Lemma nodup_bounded_length (l : list nat) n :
  NoDup l -> (forall r, r ∈ l -> (r < n)%nat) -> (length l <= n)%nat.
Proof.
  intros Hnd Hb. rewrite <- (length_seq n 0). apply NoDup_incl_length.
  - by apply NoDup_ListNoDup.
  - intros r Hr. apply in_seq. apply list_elem_of_In in Hr. specialize (Hb r Hr). lia.
Qed.

(** The undo entry of a delete that succeeded names exactly the rows it deleted. *)
Lemma push_delete_effect tid rows count c c' rows' n v b info :
  (forall r, r ∈ take count rows -> (r < STANDARD_VECTOR_SIZE)%nat) ->
  delete_effect tid rows count c c' rows' n -> PushDelete v rows' n b = Ok info ->
  info_ok info /\ info_rows info = take n rows'.
Proof.
  intros Hin [] Hpush.
  assert (forall r, r ∈ take n rows' -> (r < STANDARD_VECTOR_SIZE)%nat) as Hb
    by (intros r [Hr _]%eff_rows0; by apply Hin).
  pose proof (nodup_bounded_length _ _ eff_nodup0 Hb) as Hl. rewrite length_take in Hl.
  destruct (push_delete_rows v rows' n b info) as [? ?]; [done | lia | done..].
Qed.

(** Committing (or rolling back, with [NOT_DELETED_ID]) the undo entry of a delete gives the rows
    that were alive before it the id [id] and leaves every other row as it was before it. *)
Lemma delete_then_commit tid rows count c c' rows' n v b info id :
  wf c' -> (count <= length rows)%nat ->
  (forall m, (m < count)%nat -> (row_at rows m < STANDARD_VECTOR_SIZE)%nat) ->
  (forall m, (m < count)%nat -> deletable_row tid c (row_at rows m) = true) ->
  delete_effect tid rows count c c' rows' n -> PushDelete v rows' n b = Ok info ->
  exists c'', CommitDelete id info c' = Ok c'' /\ wf c'' /\
    (forall i, insert_id c'' i = insert_id c' i) /\
    forall i, (i < STANDARD_VECTOR_SIZE)%nat ->
      delete_id c'' i = if decide (i ∈ take count rows /\ delete_id c i = NOT_DELETED_ID)
                        then id else delete_id c i.
Proof.
  intros Hwf Hlen Hrow Hdel Heff Hpush.
  destruct (push_delete_effect tid rows count c c' rows' n v b info) as [Hok Hrows]; [|done..|].
  { intros r (m & ? & ? & <-)%elem_row_at. by apply Hrow. }
  destruct (commit_delete_ids id info c' Hwf Hok) as (c'' & Heq & ? & ? & Hids).
  exists c''. split_and!; [done..|]. intros i Hi. rewrite Hids, Hrows by done. destruct Heff.
  case_decide as Hn; rewrite eff_rows0 in Hn; [by rewrite decide_True|].
  rewrite decide_False by done. rewrite eff_ids0 by done. case_decide as Hin; [|done].
  apply elem_row_at in Hin as (m & Hm & Hm' & <-). specialize (Hdel m Hm).
  unfold deletable_row in Hdel. apply orb_true_iff in Hdel as [?%Z.eqb_eq|Hd%Z.eqb_eq]; [done|].
  destruct Hn. split; [|done]. apply row_at_elem; [done|lia].
Qed.

(** ** Compression *)

(** Ids that every view with a bound of at least [lowest] treats alike. *)
Definition settled (lowest : VisibilityBound.t) (a b : Z) : Prop :=
  a = b \/ (a < VisibilityBound.value lowest /\ b < VisibilityBound.value lowest).

Lemma settled_sees lowest a b v :
  settled lowest a b -> VisibilityBound.value lowest <= VisibilityBound.value (visibility_bound v) ->
  Sees v a = Sees v b.
Proof.
  intros [->|[Ha Hb]] Hv; [done|]. trans true; [|symmetry]; apply Sees_spec; left; lia.
Qed.

(** What the pass over the delete ids has established after [k] rows. *)
Record delete_scan_ok (lowest : VisibilityBound.t) (d : list Z) (k : nat) (sc : DeleteScan) : Prop := {
  sc_alive : rows_alive sc = false -> forall i, (i < k)%nat -> rd d i <> NOT_DELETED_ID;
  sc_settled : deletes_pending sc = false -> forall i, (i < k)%nat ->
               rd d i = NOT_DELETED_ID \/ rd d i < VisibilityBound.value lowest;
  sc_pending : deletes_pending sc = true -> exists i, (i < k)%nat /\ rd d i <> NOT_DELETED_ID /\
               VisibilityBound.value lowest <= rd d i;
  sc_committed : deletes_uncommitted sc = false -> forall i, (i < k)%nat ->
               rd d i <> NOT_DELETED_ID -> VisibilityBound.value lowest <= rd d i -> IsCommitted (rd d i) = true;
  sc_equal : deletes_equal sc = true -> forall i, (i < k)%nat ->
               rd d i <> NOT_DELETED_ID -> rd d i = shared_delete_id sc;
  sc_shared : shared_delete_id sc = NOT_DELETED_ID -> forall i, (i < k)%nat -> rd d i = NOT_DELETED_ID;
  sc_max : max_delete_id sc < VisibilityBound.value lowest
}.

Lemma scan_delete_id_ok lowest d k sc :
  delete_scan_ok lowest d k sc ->
  delete_scan_ok lowest d (S k) (scan_delete_id lowest (rd d k) sc).
Proof.
  intros [].
  assert (forall P : nat -> Prop, (exists i, (i < k)%nat /\ P i) -> exists i, (i < S k)%nat /\ P i) as Hex.
  { intros P (i & ? & ?). exists i. split; [lia|done]. }
  unfold scan_delete_id, VisibilityBound.not_before, VisibilityBound.before.
  destruct (Z.eqb_spec (rd d k) NOT_DELETED_ID) as [Hn|Hn];
  [|destruct (Z.ltb_spec (rd d k) (VisibilityBound.value lowest));
    destruct (Z.eqb_spec (shared_delete_id sc) NOT_DELETED_ID);
    try destruct (Z.eqb_spec (rd d k) (shared_delete_id sc))]; cbn.
  all: split; cbn [rows_alive deletes_pending deletes_uncommitted deletes_equal max_delete_id
         shared_delete_id]; intros; reflect_bools; try done; try lia; try congruence.
  all: try (apply Hex; by auto).
  all: try (exists k; split_and!; (done || lia)).
  all: match goal with H : (?j < S _)%nat |- _ =>
    apply Nat.lt_succ_r, Nat.le_lteq in H as [H| ->]; try (congruence || lia || tauto) end.
  all: try by auto.
  all: try (exfalso; by eauto).
  all: etrans; [by eapply sc_equal0|congruence].
Qed.

Lemma scan_delete_ids_ok lowest d :
  0 < VisibilityBound.value lowest ->
  delete_scan_ok lowest d STANDARD_VECTOR_SIZE (scan_delete_ids lowest d).
Proof.
  intros Hlow. apply (for_range_ind (delete_scan_ok lowest d) 0 STANDARD_VECTOR_SIZE); [lia| |].
  - split; cbn; try done; lia.
  - intros. by apply scan_delete_id_ok.
Qed.

Lemma delete_mask_rows d n m0 :
  let m := for_range 0 n (fun i m => if rd d i =? NOT_DELETED_ID then SetInvalid i m else m)
             (Initialize n m0) in
  mask_ok m /\ capacity m = n /\
  forall i, (i < n)%nat -> RowIsValid m i = negb (rd d i =? NOT_DELETED_ID).
Proof.
  cbv zeta.
  assert (forall k m, mask_ok m /\ capacity m = n /\
      (forall i, (i < n)%nat -> RowIsValid m i = negb ((i <? k)%nat && (rd d i =? NOT_DELETED_ID))) ->
      (k <= n)%nat -> k = n -> forall i, (i < n)%nat -> RowIsValid m i = negb (rd d i =? NOT_DELETED_ID)) as Hfin.
  { intros k m (_ & _ & H) _ -> i Hi. rewrite H by done. by destruct (Nat.ltb_spec i n); [|lia]. }
  assert (forall m, (mask_ok m /\ capacity m = n /\
      (forall i, (i < n)%nat -> RowIsValid m i = negb ((i <? n)%nat && (rd d i =? NOT_DELETED_ID)))) ->
      mask_ok m /\ capacity m = n /\ forall i, (i < n)%nat -> RowIsValid m i = negb (rd d i =? NOT_DELETED_ID)) as Hgoal.
  { intros m H. split_and!; [apply H|apply H|]. by eapply Hfin. }
  apply Hgoal. clear Hfin Hgoal.
  apply (for_range_ind (fun k m => mask_ok m /\ capacity m = n /\
      (forall i, (i < n)%nat -> RowIsValid m i = negb ((i <? k)%nat && (rd d i =? NOT_DELETED_ID)))) 0 n); [lia| |].
  - split_and!; [apply mask_ok_initialize | done |]. intros. by apply row_is_valid_initialize.
  - intros k m Hk (Hok & Hcap & Hrow).
    destruct (Z.eqb_spec (rd d k) NOT_DELETED_ID) as [Hn|Hn].
    + split_and!; [by apply (mask_ok_set m k false) | by rewrite <- Hcap; apply (capacity_set m k false) |].
      intros i Hi. rewrite (row_is_valid_set m k false) by (done || lia).
      destruct (decide (k = i)) as [<-|]; [rewrite Hn; by destruct (Nat.ltb_spec k (S k)); [|lia]|].
      rewrite Hrow by done. destruct (Nat.ltb_spec i k), (Nat.ltb_spec i (S k)); try lia; done.
    + split_and!; [done..|]. intros i Hi. rewrite Hrow by done.
      destruct (decide (i = k)) as [->|].
      * apply Z.eqb_neq in Hn. rewrite Hn. by rewrite !andb_false_r.
      * destruct (Nat.ltb_spec i k), (Nat.ltb_spec i (S k)); try lia; done.
Qed.

Lemma compress_delete_to_mask id c d :
  wf c -> delete_state c = ARRAY -> deleted_data c = Some d -> IsCommitted id = true ->
  wf (CompressDeleteToMask id c) /\
  (forall i, insert_id (CompressDeleteToMask id c) i = insert_id c i) /\
  forall i, (i < STANDARD_VECTOR_SIZE)%nat ->
    delete_id (CompressDeleteToMask id c) i
    = if rd d i =? NOT_DELETED_ID then NOT_DELETED_ID else id.
Proof.
  intros Hwf Hst Hd Hid. unfold CompressDeleteToMask. rewrite Hd. change (default [] (Some d)) with d.
  destruct (delete_mask_rows d STANDARD_VECTOR_SIZE (deleted_mask c)) as (Hok & Hcap & Hrow).
  split_and!.
  - split; cbn; [apply (wf_inserted c Hwf)|done|]. intros _; by split_and!.
  - done.
  - intros i Hi. unfold delete_id. cbn [set_deleted delete_state deleted_mask mask_delete_id].
    cbv zeta in Hrow. rewrite Hrow by done. by destruct (rd d i =? NOT_DELETED_ID).
Qed.

(** [c'] stores ids that every view bounded by [lowest] or above treats like those of [c]. *)
Definition settled_ids (lowest : VisibilityBound.t) (c c' : t) : Prop :=
  forall i, (i < STANDARD_VECTOR_SIZE)%nat ->
    settled lowest (insert_id c i) (insert_id c' i) /\ settled lowest (delete_id c i) (delete_id c' i).

Lemma settled_refl lowest a : settled lowest a a.
Proof. by left. Qed.

Lemma compress_deletes_ids lowest c :
  wf c -> 0 < VisibilityBound.value lowest ->
  exists c' p, compress_deletes lowest c = Ok (c', p) /\ wf c' /\ settled_ids lowest c c'
    /\ inserted_data c' = inserted_data c /\ constant_insert_id c' = constant_insert_id c.
Proof.
  intros Hwf Hlow. unfold compress_deletes. destruct (delete_state c) eqn:Hst.
  1,2: eexists _, _; split; [done|]; split_and!; try done; intros i _; split; apply settled_refl.
  destruct (wf_deleted c Hwf Hst) as (d & Hd & Hl).
  unfold GetDeletedPointer. rewrite Hst, Hd. cbn [mbind result_bind mret result_ret]. change (default [] (Some d)) with d.
  assert (forall i, delete_id c i = rd d i) as Hid by (intros i; unfold delete_id; by rewrite Hst, Hd).
  destruct (scan_delete_ids_ok lowest d Hlow).
  assert (exists c' p, Ok (c, true) = Ok (c', p) /\ wf c' /\ settled_ids lowest c c'
    /\ inserted_data c' = inserted_data c /\ constant_insert_id c' = constant_insert_id c) as Hsame.
  { eexists _, _. split_and!; try done. intros i _. split; apply settled_refl. }
  destruct (rows_alive (scan_delete_ids lowest d)) eqn:Ha,
    (deletes_pending (scan_delete_ids lowest d)) eqn:Hp; cbn [negb andb]; try done.
  - destruct (deletes_equal (scan_delete_ids lowest d)) eqn:He; cbn [andb]; [|done].
    destruct (deletes_uncommitted (scan_delete_ids lowest d)) eqn:Hu; cbn [negb]; [done|].
    destruct (sc_pending0 eq_refl) as (k & Hk & Hkn & Hkl).
    assert (IsCommitted (shared_delete_id (scan_delete_ids lowest d)) = true) as Hcom
      by (rewrite <- (sc_equal0 eq_refl k) by done; by apply sc_committed0).
    destruct (compress_delete_to_mask _ c d Hwf Hst Hd Hcom) as (Hw & Hins & Hdel).
    eexists _, _. split; [done|]. split_and!; try done. intros i Hi.
    split; [left; by rewrite Hins|]. left. rewrite Hdel, Hid by done.
    destruct (Z.eqb_spec (rd d i) NOT_DELETED_ID); [done|]. by apply sc_equal0.
  - destruct (compress_delete_to_mask 0 c d Hwf Hst Hd eq_refl) as (Hw & Hins & Hdel).
    eexists _, _. split; [done|]. split_and!; try done. intros i Hi.
    split; [left; by rewrite Hins|]. rewrite Hdel, Hid by done.
    destruct (Z.eqb_spec (rd d i) NOT_DELETED_ID); [by left|]. right. split; [|done].
    by destruct (sc_settled0 eq_refl i Hi).
  - destruct (free_delete_data_constant (max_delete_id (scan_delete_ids lowest d)) c Hwf) as (Hw & Hins & Hdel).
    eexists _, _. split; [done|]. split_and!; [done| |by unfold FreeDeleteData; rewrite Hst..].
    intros i Hi. split; [left; by rewrite Hins|]. right. rewrite Hdel, Hid. split; [|done].
    specialize (sc_alive0 eq_refl i Hi). by destruct (sc_settled0 eq_refl i Hi).
Qed.

Lemma compress_inserts_ids lowest c p :
  wf c -> 0 < VisibilityBound.value lowest ->
  exists c' p', compress_inserts lowest c p = Ok (c', p') /\ wf c' /\ settled_ids lowest c c'.
Proof.
  intros Hwf Hlow. unfold compress_inserts, HasConstantInsertionId, GetInsertedPointer.
  destruct (inserted_data c) as [d|] eqn:Hi.
  2: { eexists _, _. split; [done|]. split; [done|]. intros i _. split; apply settled_refl. }
  cbn [mbind result_bind mret result_ret]. destruct (forallb _ _) eqn:Hall.
  2: { eexists _, _. split; [done|]. split; [done|]. intros i _. split; apply settled_refl. }
  eexists _, _. split; [done|]. split.
  - destruct Hwf. by split.
  - intros i Hlt. split; [|apply settled_refl]. right. unfold insert_id. rewrite Hi. cbn.
    rewrite forallb_seq in Hall. specialize (Hall i Hlt).
    unfold VisibilityBound.not_before in Hall. rewrite negb_involutive in Hall.
    split; [by apply Z.ltb_lt|done].
Qed.

Lemma settled_trans lowest a b c : settled lowest a b -> settled lowest b c -> settled lowest a c.
Proof. unfold settled. intros [->|[? ?]] [->|[? ?]]; auto. Qed.

Lemma compress_version_ids lowest c :
  wf c -> 0 < VisibilityBound.value lowest ->
  exists c' r, CompressVersionIds lowest c = Ok (c', r) /\ wf c' /\ settled_ids lowest c c' /\
    (r = FULLY_COMPRESSED <-> HasConstantDeleteId c' && HasConstantInsertionId c' = true).
Proof.
  intros Hwf Hlow. unfold CompressVersionIds. destruct (recheck_compression c); cbn [negb].
  - destruct (compress_deletes_ids lowest c) as (c1 & p1 & -> & Hwf1 & Hs1 & _); [done..|].
    cbn [mbind result_bind].
    destruct (compress_inserts_ids lowest c1 p1) as (c2 & p2 & -> & Hwf2 & Hs2); [done..|].
    eexists _, _. split; [done|]. split; [by apply wf_set_recheck|]. split.
    + intros i Hi. destruct (Hs1 i Hi), (Hs2 i Hi). split; by eapply settled_trans.
    + cbn [set_recheck]. destruct (_ && _); [done|]. by destruct p2.
  - eexists _, _. split; [done|]. split; [done|]. split; [intros i _; split; apply settled_refl|].
    by destruct (_ && _).
Qed.

Lemma settled_visible lowest c c' v i :
  settled_ids lowest c c' -> (i < STANDARD_VECTOR_SIZE)%nat ->
  VisibilityBound.value lowest <= VisibilityBound.value (visibility_bound v) ->
  visible v c' i = visible v c i.
Proof.
  intros Hs Hi Hv. destruct (Hs i Hi) as [H1 H2]. unfold visible.
  by rewrite (settled_sees lowest _ _ v H1), (settled_sees lowest _ _ v H2).
Qed.

(** ** Serialization *)

(** Clearing the bits of the rows listed at the front of [sel]. *)
Lemma clear_rows (sel : list nat) n k m :
  mask_ok m -> capacity m = n -> (forall r, r ∈ take k sel -> (r < n)%nat) -> (k <= length sel)%nat ->
  let m' := for_range 0 k (fun i m => SetInvalid (nth i sel 0%nat) m) m in
  mask_ok m' /\ capacity m' = n /\
  forall i, (i < n)%nat -> RowIsValid m' i = if decide (i ∈ take k sel) then false else RowIsValid m i.
Proof.
  intros Hok Hcap Hb Hk. cbv zeta.
  apply (for_range_ind (fun j m' => mask_ok m' /\ capacity m' = n /\
    forall i, (i < n)%nat -> RowIsValid m' i = if decide (i ∈ take j sel) then false else RowIsValid m i) 0 k);
    [lia|by split_and!|].
  intros j m' Hj (Hok' & Hcap' & Hrow).
  change (nth j sel 0%nat) with (row_at sel j).
  assert (row_at sel j < n)%nat as Hr by (apply Hb, row_at_elem; lia).
  split_and!; [by apply (mask_ok_set m' _ false) | by rewrite <- Hcap'; apply (capacity_set m' _ false) |].
  intros i Hi. change (SetInvalid (row_at sel j) m') with (SetRow (row_at sel j) false m').
  rewrite (row_is_valid_set m' _ false) by (done || lia).
  pose proof (elem_of_take_S sel j ltac:(lia) i) as Hin.
  rewrite Hrow by done. repeat case_decide; try done; naive_solver.
Qed.

(** What a block read back says about the rows written under [bound]. *)
Definition reads_as (bound : VisibilityBound.t) (c : t) (oc : option t) : Prop :=
  match oc with
  | None => forall i, (i < STANDARD_VECTOR_SIZE)%nat -> visible (write_view bound) c i = true
  | Some c' => wf c' /\ start c' = start c /\
      forall v i, (i < STANDARD_VECTOR_SIZE)%nat ->
        0 < VisibilityBound.value (visibility_bound v) -> HidesNotDeleted v ->
        visible v c' i = visible (write_view bound) c i
  end.

Lemma visible_selected bound c i :
  option_selected (scan_options_of (write_view bound)) c i = visible (write_view bound) c i.
Proof. done. Qed.

Lemma read_constant_block bound c rest :
  in_u 64 (start c) ->
  (forall i, (i < STANDARD_VECTOR_SIZE)%nat -> visible (write_view bound) c i = false) ->
  exists oc, Read ((Stream.le_bytes 1 (type_tag CONSTANT_INFO) ++ Stream.le_bytes 8 (start c)) ++ rest)
    = Ok (oc, rest) /\ reads_as bound c oc.
Proof.
  intros Hs Hnone. eexists (Some (set_recheck false (make (start c) 0 0))). split.
  - unfold Read. rewrite <- app_assoc, Stream.Read_app by done. cbn [mbind result_bind type_tag Z.eqb].
    by rewrite Stream.Read_app by (unfold in_u in Hs; lia).
  - split; [by split|]. split; [done|]. intros v i Hi Hpos _. rewrite Hnone by done.
    unfold visible. cbn. rewrite (proj2 (Sees_spec v 0)) by (left; lia). done.
Qed.

Lemma read_vector_block bound c m bytes rest :
  in_u 64 (start c) -> Z.of_nat STANDARD_VECTOR_SIZE < 2 ^ 32 ->
  mask_ok m -> capacity m = STANDARD_VECTOR_SIZE ->
  (forall i, (i < STANDARD_VECTOR_SIZE)%nat -> RowIsValid m i = negb (visible (write_view bound) c i)) ->
  (exists i, (i < STANDARD_VECTOR_SIZE)%nat /\ visible (write_view bound) c i = true) ->
  (exists i, (i < STANDARD_VECTOR_SIZE)%nat /\ visible (write_view bound) c i = false) ->
  ValidityMask.Write m STANDARD_VECTOR_SIZE = Ok bytes ->
  exists oc, Read ((Stream.le_bytes 1 (type_tag VECTOR_INFO) ++ Stream.le_bytes 8 (start c) ++ bytes) ++ rest)
    = Ok (oc, rest) /\ reads_as bound c oc.
Proof.
  intros Hs H32 Hok Hcap Hrow (i1 & Hi1 & Hv1) (i0 & Hi0 & Hv0) Hw.
  destruct (read_write_mask m STANDARD_VECTOR_SIZE bytes (empty_mask STANDARD_VECTOR_SIZE) rest)
    as (m' & Hread & Hok' & Hcap' & Hrow'); [done..|].
  exists (Some (set_recheck false (set_deleted None m' 0 MASKED (make (start c) 0 NOT_DELETED_ID)))). split.
  - unfold Read. rewrite <- !app_assoc, Stream.Read_app by done. cbn [mbind result_bind type_tag Z.eqb].
    rewrite Stream.Read_app by (unfold in_u in Hs; lia). cbn [mbind result_bind].
    change (deleted_mask (make (start c) 0 NOT_DELETED_ID)) with (empty_mask STANDARD_VECTOR_SIZE).
    rewrite Hread. cbn [mbind result_bind].
    assert (CheckAllValid m' STANDARD_VECTOR_SIZE = false) as ->.
    { apply not_true_is_false. rewrite check_all_valid_spec by (done || lia). intros H.
      specialize (H i1 Hi1). by rewrite Hrow', Hrow, Hv1 in H. }
    assert (CheckAllInvalid m' STANDARD_VECTOR_SIZE = false) as ->; [|done].
    apply not_true_is_false. rewrite check_all_invalid_spec by (done || lia). intros H.
    specialize (H i0 Hi0). by rewrite Hrow', Hrow, Hv0 in H.
  - split; [split; cbn; try done; by split_and!|]. split; [done|]. intros v i Hi Hpos Hn.
    unfold visible at 1, insert_id, delete_id. cbn.
    rewrite (proj2 (Sees_spec v 0)) by (left; lia). cbn [andb]. rewrite Hrow', Hrow by done.
    destruct (visible _ c i); cbn; [by rewrite Hn|]. by rewrite (proj2 (Sees_spec v 0)) by (left; lia).
Qed.

Lemma write_read bound c :
  wf c -> HidesNotDeleted (write_view bound) -> in_u 64 (start c) ->
  Z.of_nat STANDARD_VECTOR_SIZE < 2 ^ 32 ->
  exists bytes, Write bound c = Ok bytes /\
    forall rest, exists oc, Read (bytes ++ rest) = Ok (oc, rest) /\ reads_as bound c oc.
Proof.
  intros Hwf Hn Hs H32. unfold Write. cbv zeta.
  destruct (get_sel_vector_rows (scan_options_of (write_view bound)) c
    (Some (replicate STANDARD_VECTOR_SIZE 0%nat)) STANDARD_VECTOR_SIZE) as ([sel count] & -> & Hc & Hsel);
    [done..|]. cbn [fst snd mbind result_bind] in *.
  set (p := option_selected (scan_options_of (write_view bound)) c) in *.
  destruct (Nat.eqb_spec count STANDARD_VECTOR_SIZE) as [Hall|Hnall].
  { eexists. split; [done|]. intros rest. exists None. split; [done|].
    intros i Hi. apply (count_rows_full p STANDARD_VECTOR_SIZE); [congruence|done]. }
  destruct (Nat.eqb_spec count 0) as [H0|Hn0].
  { eexists. split; [done|]. intros rest. apply read_constant_block; [done|].
    intros i Hi. apply (count_rows_zero p STANDARD_VECTOR_SIZE); [congruence|done]. }
  pose proof (count_rows_le p STANDARD_VECTOR_SIZE).
  destruct Hsel as [_ Hsel]; [lia|]. cbn in Hsel. destruct sel as [sel|]; [|done].
  rewrite length_replicate in Hsel. destruct Hsel as [Hl Htake]. specialize (Htake ltac:(lia)).
  destruct (clear_rows sel STANDARD_VECTOR_SIZE count
    (Initialize STANDARD_VECTOR_SIZE (empty_mask STANDARD_VECTOR_SIZE))) as (Hok & Hcap & Hrow);
    [apply mask_ok_initialize | done | | lia |].
  { intros r. rewrite Htake, elem_of_rows. tauto. }
  cbn [default from_option] in *. change (default [] (Some sel)) with sel.
  set (m := for_range 0 count _ _) in *.
  destruct (write_mask_total m STANDARD_VECTOR_SIZE H32) as [bytes Hw]. rewrite Hw.
  eexists. split; [done|]. intros rest. apply (read_vector_block bound c m bytes rest); try done.
  - intros i Hi. rewrite Hrow, row_is_valid_initialize by done. rewrite Htake.
    rewrite <- visible_selected. fold p. case_decide as Hin; rewrite elem_of_rows in Hin.
    + by destruct Hin as [_ ->].
    + destruct (p i); [by destruct Hin|done].
  - destruct (rows p STANDARD_VECTOR_SIZE) as [|r l] eqn:Hr.
    { destruct Hn0. unfold count_rows in Hc. by rewrite Hr in Hc. }
    exists r. change (visible (write_view bound) c r) with (p r). apply elem_of_rows. rewrite Hr. by left.
  - destruct (existsb (fun i => negb (p i)) (seq 0 STANDARD_VECTOR_SIZE)) eqn:He.
    + apply existsb_seq in He as (i & Hi & Hp). exists i. split; [done|]. by apply negb_true_iff.
    + destruct Hnall. rewrite Hc. unfold count_rows. rewrite rows_all, length_seq; [done|].
      intros i Hi. apply not_false_is_true. intros Hp.
      assert (existsb (fun i => negb (p i)) (seq 0 STANDARD_VECTOR_SIZE) = true); [|congruence].
      apply existsb_seq. exists i. split; [done|]. by rewrite Hp.
Qed.

(** ** Questions about the ids *)

Lemma any_deleted_none c : AnyDeleted c = Ok false -> forall i, delete_id c i = NOT_DELETED_ID.
Proof.
  unfold AnyDeleted, ConstantDeleteId, HasConstantDeleteId, delete_id.
  destruct (delete_state c); cbn; try done. intros H%Ok_inj i. by apply negb_false_iff, Z.eqb_eq in H.
Qed.

(** A chunk info that may be dropped holds only rows everyone sees. *)
Lemma cleanup_rows lowest c i v :
  wf c -> (1 < STANDARD_VECTOR_SIZE)%nat ->
  (exists j, (0 < j < STANDARD_VECTOR_SIZE)%nat /\ insert_id c 0 <= insert_id c j) ->
  VisibilityBound.value lowest <= VisibilityBound.value (visibility_bound v) -> HidesNotDeleted v ->
  (i < STANDARD_VECTOR_SIZE)%nat ->
  Cleanup lowest c = Ok true -> visible v c i = true.
Proof.
  intros Hwf Hsz (j & Hj & Hle) Hv Hn Hi. unfold Cleanup.
  destruct (AnyDeleted c) as [[|]|] eqn:Ha; try done. pose proof (any_deleted_none c Ha) as Hnone.
  cbn [mbind result_bind]. unfold visible. rewrite Hnone. unfold HidesNotDeleted in Hn. rewrite Hn, andb_true_r.
  unfold ConstantInsertId, GetInsertedPointer, HasConstantInsertionId in *. revert Hle. unfold insert_id.
  destruct (inserted_data c) as [d|]; cbn [negb mbind result_bind mret result_ret]; intros Hle Hc%Ok_inj;
    rewrite ?negb_true_iff in Hc; apply Sees_spec; left.
  - assert (forall k, (0 < k < STANDARD_VECTOR_SIZE)%nat -> rd d k < VisibilityBound.value lowest) as Hk.
    { intros k Hk. apply Z.lt_nge. intros Hge. apply not_true_iff_false in Hc. apply Hc.
      apply List.existsb_exists. exists k. split; [apply in_seq; lia|].
      unfold VisibilityBound.not_before, VisibilityBound.before. by apply negb_true_iff, Z.ltb_ge. }
    specialize (Hk j Hj) as Hkj. destruct (Nat.eq_dec i 0) as [->|]; [lia|].
    specialize (Hk i ltac:(lia)). lia.
  - unfold VisibilityBound.not_before, VisibilityBound.before in Hc. reflect_bools. lia.
Qed.

(** [HasDeletes] finds every row deleted before the bound. *)
Lemma has_deletes_complete bound c i :
  wf c -> (NOT_DELETED_ID <?b bound) = false -> (i < STANDARD_VECTOR_SIZE)%nat ->
  HasDeletes bound c = Ok false -> (delete_id c i <?b bound) = false.
Proof.
  intros Hwf Hn Hi. unfold HasDeletes. case_match; [done|].
  destruct (AnyDeleted c) as [b|] eqn:Ha; [|done]. cbn [mbind result_bind].
  destruct b; cbn [negb]; [|intros _; by rewrite (any_deleted_none c Ha)].
  case_match; [done|]. unfold ConstantDeleteId, GetDeletedPointer, HasConstantDeleteId, delete_id.
  destruct (delete_state c); cbn [mbind result_bind mret result_ret]; intros Hd%Ok_inj; [done|by case_match|].
  apply not_true_iff_false. intros Hlt. apply not_true_iff_false in Hd. apply Hd.
  apply existsb_seq. by exists i.
Qed.

Definition uncommitted_row (c : t) (i : nat) : bool :=
  negb (IsCommitted (insert_id c i)) ||
  (negb (delete_id c i =? NOT_DELETED_ID) && negb (IsCommitted (delete_id c i))).

Lemma existsb_orb {A} (p q : A -> bool) l : existsb (fun x => p x || q x) l = existsb p l || existsb q l.
Proof. induction l as [|x l IH]; [done|]. cbn. rewrite IH. by destruct (p x), (q x), (existsb p l). Qed.

Lemma existsb_const (b : bool) n : (0 < n)%nat -> existsb (fun _ : nat => b) (seq 0 n) = b.
Proof.
  intros Hn. destruct b.
  - apply existsb_seq. exists 0%nat. by split.
  - apply not_true_iff_false. by intros (? & ? & ?)%existsb_seq.
Qed.

Lemma existsb_seq_ext (p q : nat -> bool) n :
  (forall i, (i < n)%nat -> p i = q i) -> existsb p (seq 0 n) = existsb q (seq 0 n).
Proof.
  intros H. apply eq_iff_eq_true. rewrite !existsb_seq.
  split; intros (i & Hi & Hp); exists i; (split; [done|]); by rewrite <- Hp, H.
Qed.

Lemma has_uncommitted_rows c :
  wf c -> HasUncommittedChanges c = Ok (existsb (uncommitted_row c) (seq 0 STANDARD_VECTOR_SIZE)).
Proof.
  intros Hwf. pose proof vector_size_pos as Hpos.
  unfold HasUncommittedChanges, uncommitted_row. rewrite existsb_orb.
  unfold ConstantInsertId, GetInsertedPointer, HasConstantInsertionId, insert_id.
  assert (forall b1 : bool,
    (if b1 then mret true else match delete_state c with
    | CONSTANT => id ← ConstantDeleteId c; mret (negb (id =? NOT_DELETED_ID) && negb (IsCommitted id))
    | MASKED => mret false
    | ARRAY => deleted ← GetDeletedPointer c;
        mret (existsb (fun i => negb (rd deleted i =? NOT_DELETED_ID) && negb (IsCommitted (rd deleted i)))
                (seq 0 STANDARD_VECTOR_SIZE))
    end) = Ok (b1 || existsb (fun i => negb (delete_id c i =? NOT_DELETED_ID) && negb (IsCommitted (delete_id c i)))
             (seq 0 STANDARD_VECTOR_SIZE))) as Hdel.
  { intros [|]; [done|]. cbn [orb]. unfold ConstantDeleteId, GetDeletedPointer, HasConstantDeleteId, delete_id.
    destruct (delete_state c) eqn:Hst; cbn [mbind result_bind mret result_ret]; [by rewrite existsb_const| |done].
    destruct (wf_mask c Hwf Hst) as (_ & _ & Hid). f_equal. symmetry. apply not_true_iff_false.
    intros (i & _ & Hp)%existsb_seq. destruct (RowIsValid _ i); [by rewrite Hid, andb_false_r in Hp|done]. }
  destruct (inserted_data c); cbn [mbind result_bind mret result_ret]; rewrite <- Hdel; [done|].
  by rewrite existsb_const.
Qed.

End Facts.
