(* ===== verification/RowVersions.v ===== *)
(** * Row versions of a row group

    Models [storage/table/row_version_manager.cpp] (the version info of the vectors of a row
    group), the [VersionDeleteState] of [storage/table/row_group.cpp] (how a delete statement is
    split into one delete per vector) and the [DELETE_TUPLE] cases of [transaction/commit_state.cpp]
    and [transaction/rollback_state.cpp]. Every operation of the manager holds [version_lock]: an
    operation is one atomic step. *)

From S2P Require Import Prelude Snapshot ValidityMask ChunkInfo.

Local Open Scope Z_scope.

Definition MAX_ROW_GROUP_SIZE : Z := Z.shiftl 1 30.

Module RowVersionManager.
(** [storage_pointers] name the metadata blocks of the last checkpoint; the model keeps the byte
    stream stored in them. *)
Record t := mk {
  vector_info : list (option ChunkVectorInfo.t);
  newest_uncheckpointed_delete_commit : option Z;
  oldest_uncheckpointed_delete_commit : option Z;
  storage : list Z;
  needs_compression_check : bool
}.

Definition set_vector_info (v : list (option ChunkVectorInfo.t)) (m : t) : t :=
  mk v (newest_uncheckpointed_delete_commit m) (oldest_uncheckpointed_delete_commit m)
     (storage m) (needs_compression_check m).
Definition set_needs_check (b : bool) (m : t) : t :=
  mk (vector_info m) (newest_uncheckpointed_delete_commit m) (oldest_uncheckpointed_delete_commit m)
     (storage m) b.
Definition set_checkpoint_ids (newest oldest : option Z) (m : t) : t :=
  mk (vector_info m) newest oldest (storage m) (needs_compression_check m).
Definition set_storage (bytes : list Z) (m : t) : t :=
  mk (vector_info m) (newest_uncheckpointed_delete_commit m) (oldest_uncheckpointed_delete_commit m)
     bytes (needs_compression_check m).
Definition set_info (vector_idx : nat) (c : option ChunkVectorInfo.t) (m : t) : t :=
  set_vector_info (<[vector_idx := c]> (vector_info m)) m.

(** [RowVersionManager(buffer_manager)] *)
Definition make : t := mk [] None None [] false.

Definition null_info : exception :=
  InternalException "Attempted to dereference unique_ptr that is NULL!".

Section WithVectorSize.
Context {VS : VectorSize}.

Definition GetChunkInfo (vector_idx : nat) (m : t) : option ChunkVectorInfo.t :=
  mjoin (vector_info m !! vector_idx).

(** [GetRowCount(options, start_vector, count)]: one turn per vector of the range. *)
Definition GetRowCount (options : ScanOptions) (start_vector count : nat) (m : t) : result nat :=
  let vectors := ((count + (STANDARD_VECTOR_SIZE - 1)) / STANDARD_VECTOR_SIZE)%nat in
  for_range_m 0 vectors (fun k total_count =>
    let r := (k * STANDARD_VECTOR_SIZE)%nat in
    let segment_count := Nat.min STANDARD_VECTOR_SIZE (count - r) in
    match GetChunkInfo (start_vector + k) m with
    | None => mret (total_count + segment_count)%nat
    | Some info =>
        row_count ← ChunkVectorInfo.GetRowCount options info segment_count;
        mret (total_count + row_count)%nat
    end) 0%nat.

Definition GetSelVector (options : ScanOptions) (vector_idx : nat) (sel_vector : list nat)
    (max_count : nat) (m : t) : result ChunkVectorInfo.SelState :=
  match GetChunkInfo vector_idx m with
  | None => mret (Some sel_vector, max_count)
  | Some chunk_info => ChunkVectorInfo.GetSelVector options chunk_info (Some sel_vector) max_count
  end.

(** The inner [while]: the end of the run of offsets that fall in [base, vector_end). *)
Fixpoint run_end (fuel next_idx count : nat) (offsets : list nat) (base vector_end : nat) : nat :=
  match fuel with
  | O => next_idx
  | S fuel' =>
      let offset := nth next_idx offsets 0%nat in
      if (next_idx <? count)%nat && (base <=? offset)%nat && (offset <? vector_end)%nat
      then run_end fuel' (S next_idx) count offsets base vector_end
      else next_idx
  end.

Fixpoint visible_runs (fuel idx count : nat) (view : SnapshotView) (offsets : list nat) (m : t)
    (st : ChunkVectorInfo.SelState) : result ChunkVectorInfo.SelState :=
  match fuel with
  | O => mret st
  | S fuel' =>
      if (idx <? count)%nat then
        let vector_idx := (nth idx offsets 0 / STANDARD_VECTOR_SIZE)%nat in
        let base := (vector_idx * STANDARD_VECTOR_SIZE)%nat in
        let vector_end := (base + STANDARD_VECTOR_SIZE)%nat in
        let next_idx := run_end count (S idx) count offsets base vector_end in
        st ← (match GetChunkInfo vector_idx m with
              | None => mret (for_range idx next_idx ChunkVectorInfo.select_row st)
              | Some info =>
                  for_range_m idx next_idx (fun k st =>
                    visible ← ChunkVectorInfo.Fetch view info (nth k offsets 0 - base)%nat;
                    mret (if visible : bool then ChunkVectorInfo.select_row k st else st)) st
              end);
        visible_runs fuel' next_idx count view offsets m st
      else mret st
  end.

Definition GetVisibleRows (view : SnapshotView) (offsets : list nat) (count : nat)
    (visible_sel : list nat) (m : t) : result ChunkVectorInfo.SelState :=
  if (count =? 0)%nat then mret (Some visible_sel, 0%nat)
  else visible_runs count 0 count view offsets m (Some visible_sel, 0%nat).

Definition FillVectorInfo (vector_idx : nat) (m : t) : t :=
  if (vector_idx <? length (vector_info m))%nat then m
  else set_vector_info
         (vector_info m ++ replicate (S vector_idx - length (vector_info m)) None) m.

(** The rows of vector [vector_idx] in the row range [start, end_). *)
Definition vector_range (start end_ start_vector_idx end_vector_idx vector_idx : nat) : nat * nat :=
  ((if (vector_idx =? start_vector_idx)%nat then start - start_vector_idx * STANDARD_VECTOR_SIZE else 0)%nat,
   (if (vector_idx =? end_vector_idx)%nat then end_ - end_vector_idx * STANDARD_VECTOR_SIZE
    else STANDARD_VECTOR_SIZE)%nat).

Definition vector_start_row (vector_idx : nat) : Z := Z.of_nat vector_idx * Z.of_nat STANDARD_VECTOR_SIZE.

(** The default ids of [ChunkVectorInfo(allocator, start)]: insert id 0, never deleted. *)
Definition new_info (vector_idx : nat) : ChunkVectorInfo.t :=
  ChunkVectorInfo.make (vector_start_row vector_idx) 0 NOT_DELETED_ID.

Definition AppendVersionInfo (transaction : SnapshotView) (row_group_start row_group_end : nat)
    (m : t) : result t :=
  let m := set_needs_check true m in
  let start_vector_idx := (row_group_start / STANDARD_VECTOR_SIZE)%nat in
  let end_vector_idx := ((row_group_end - 1) / STANDARD_VECTOR_SIZE)%nat in
  let m := FillVectorInfo end_vector_idx m in
  for_range_m start_vector_idx (S end_vector_idx) (fun vector_idx m =>
    let '(vector_start, vector_end) :=
      vector_range row_group_start row_group_end start_vector_idx end_vector_idx vector_idx in
    if (vector_start =? 0)%nat && (vector_end =? STANDARD_VECTOR_SIZE)%nat then
      mret (set_info vector_idx
              (Some (ChunkVectorInfo.make (vector_start_row vector_idx) (transaction_id transaction)
                       NOT_DELETED_ID)) m)
    else
      let info := default (new_info vector_idx) (GetChunkInfo vector_idx m) in
      info ← ChunkVectorInfo.Append vector_start vector_end (transaction_id transaction) info;
      mret (set_info vector_idx (Some info) m)) m.

Definition CommitAppend (commit_id : Z) (row_group_start count : nat) (m : t) : result t :=
  if (count =? 0)%nat then mret m
  else
    let row_group_end := (row_group_start + count)%nat in
    let start_vector_idx := (row_group_start / STANDARD_VECTOR_SIZE)%nat in
    let end_vector_idx := ((row_group_end - 1) / STANDARD_VECTOR_SIZE)%nat in
    for_range_m start_vector_idx (S end_vector_idx) (fun vector_idx m =>
      let '(vstart, vend) :=
        vector_range row_group_start row_group_end start_vector_idx end_vector_idx vector_idx in
      match GetChunkInfo vector_idx m with
      | None => Throw null_info
      | Some info =>
          info ← ChunkVectorInfo.CommitAppend commit_id vstart vend info;
          mret (set_info vector_idx (Some info) m)
      end) m.

Definition CleanupAppend (lowest : VisibilityBound.t) (row_group_start count : nat) (m : t) : result t :=
  if (count =? 0)%nat then mret m
  else
    let row_group_end := (row_group_start + count)%nat in
    let start_vector_idx := (row_group_start / STANDARD_VECTOR_SIZE)%nat in
    let end_vector_idx := ((row_group_end - 1) / STANDARD_VECTOR_SIZE)%nat in
    for_range_m start_vector_idx (S end_vector_idx) (fun vector_idx m =>
      let '(_, vcount) :=
        vector_range row_group_start row_group_end start_vector_idx end_vector_idx vector_idx in
      if negb (vcount =? STANDARD_VECTOR_SIZE)%nat then mret m
      else match GetChunkInfo vector_idx m with
      | None => mret m
      | Some info =>
          cleanup ← ChunkVectorInfo.Cleanup lowest info;
          mret (if cleanup : bool then set_info vector_idx None m else m)
      end) m.

Definition RevertAppend (new_count : nat) (m : t) : t :=
  let start_vector_idx := ((new_count + (STANDARD_VECTOR_SIZE - 1)) / STANDARD_VECTOR_SIZE)%nat in
  for_range start_vector_idx (length (vector_info m)) (fun vector_idx m => set_info vector_idx None m) m.

Definition GetVectorInfo (vector_idx : nat) (m : t) : t * ChunkVectorInfo.t :=
  let m := FillVectorInfo vector_idx m in
  match GetChunkInfo vector_idx m with
  | None => let info := new_info vector_idx in (set_info vector_idx (Some info) m, info)
  | Some info => (m, info)
  end.

Definition DeleteRows (vector_idx : nat) (transaction_id : Z) (rows : list nat) (count : nat) (m : t)
    : t * list nat * result nat :=
  let '(m, info) := GetVectorInfo vector_idx (set_needs_check true m) in
  let '(info, rows, r) := ChunkVectorInfo.Delete transaction_id rows count info in
  (set_info vector_idx (Some info) m, rows, r).

(** [commit_id] replaces the newest (oldest) uncheckpointed commit when there is none or when it
    is larger (smaller). *)
Definition newest_with (commit_id : Z) (newest : option Z) : option Z :=
  match newest with
  | None => Some commit_id
  | Some n => if n <? commit_id then Some commit_id else Some n
  end.
Definition oldest_with (commit_id : Z) (oldest : option Z) : option Z :=
  match oldest with
  | None => Some commit_id
  | Some o => if commit_id <? o then Some commit_id else Some o
  end.

Definition CommitDelete (vector_idx : nat) (commit_id : Z) (info : DeleteInfo) (m : t) : result t :=
  let m := set_needs_check true m in
  let m := set_checkpoint_ids
             (newest_with commit_id (newest_uncheckpointed_delete_commit m))
             (oldest_with commit_id (oldest_uncheckpointed_delete_commit m)) m in
  let '(m, c) := GetVectorInfo vector_idx m in
  c ← ChunkVectorInfo.CommitDelete commit_id info c;
  mret (set_info vector_idx (Some c) m).

(** One pass over the vectors; the boolean is [pending]. *)
Fixpoint compress_infos (lowest : VisibilityBound.t) (infos : list (option ChunkVectorInfo.t))
    : result (list (option ChunkVectorInfo.t) * bool) :=
  match infos with
  | [] => mret ([], false)
  | None :: rest =>
      '(rest, pending) ← compress_infos lowest rest; mret (None :: rest, pending)
  | Some info :: rest =>
      '(info, r) ← ChunkVectorInfo.CompressVersionIds lowest info;
      '(rest, pending) ← compress_infos lowest rest;
      mret (Some info :: rest, match r with PENDING => true | _ => pending end)
  end.

Definition CompressVersionIds (lowest : VisibilityBound.t) (m : t) : result t :=
  if negb (needs_compression_check m) then mret m
  else
    '(infos, pending) ← compress_infos lowest (vector_info m);
    mret (set_needs_check pending (set_vector_info infos m)).

(** ** Checkpoint *)

(** The vectors to serialize, with their index. *)
Fixpoint to_serialize (bound : VisibilityBound.t) (vector_idx : nat)
    (infos : list (option ChunkVectorInfo.t)) : result (list (nat * ChunkVectorInfo.t)) :=
  match infos with
  | [] => mret []
  | None :: rest => to_serialize bound (S vector_idx) rest
  | Some info :: rest =>
      has_deletes ← ChunkVectorInfo.HasDeletes bound info;
      rest ← to_serialize bound (S vector_idx) rest;
      mret (if has_deletes : bool then (vector_idx, info) :: rest else rest)
  end.

Fixpoint write_infos (bound : VisibilityBound.t) (entries : list (nat * ChunkVectorInfo.t))
    : result (list Z) :=
  match entries with
  | [] => mret []
  | (vector_idx, chunk_info) :: rest =>
      bytes ← ChunkVectorInfo.Write bound chunk_info;
      rest ← write_infos bound rest;
      mret (Stream.le_bytes 8 (Z.of_nat vector_idx) ++ bytes ++ rest)
  end.

(** [oldest_uncheckpointed_delete_commit] is valid and before the bound. *)
Definition HasUnserializedChanges (bound : VisibilityBound.t) (m : t) : bool :=
  match oldest_uncheckpointed_delete_commit m with
  | Some oldest => oldest <?b bound
  | None => false
  end.

Definition Checkpoint (bound : VisibilityBound.t) (m : t) : result (t * list Z) :=
  if negb (HasUnserializedChanges bound m) then mret (m, storage m)
  else
    entries ← to_serialize bound 0 (vector_info m);
    bytes ← (match entries with
             | [] => mret []
             | _ => body ← write_infos bound entries;
                    mret (Stream.le_bytes 8 (Z.of_nat (length entries)) ++ body)
             end);
    let m := set_storage bytes m in
    let m := match newest_uncheckpointed_delete_commit m with
             | Some newest => if newest <?b bound then set_checkpoint_ids None None m else m
             | None => m
             end in
    mret (m, storage m).

Fixpoint read_infos (n : nat) (s : list Z) (m : t) : result (t * list Z) :=
  match n with
  | O => mret (m, s)
  | S n' =>
      '(vector_index, s) ← Stream.Read 8 s;
      if MAX_ROW_GROUP_SIZE <=? u64 (vector_index * Z.of_nat STANDARD_VECTOR_SIZE) then
        Throw (IOException "In DeserializeDeletes, vector_index is out of range for the max row group size. Corrupted file?")
      else
        let vector_index := Z.to_nat vector_index in
        let m := FillVectorInfo vector_index m in
        '(info, s) ← ChunkVectorInfo.Read s;
        let m := match info with
                 | Some c => if ChunkVectorInfo.recheck_compression c then set_needs_check true m else m
                 | None => m
                 end in
        read_infos n' s (set_info vector_index info m)
  end.

(** [Deserialize(delete_pointer, manager)]: an invalid pointer stands for the empty stream. *)
Definition Deserialize (s : list Z) : result (option t) :=
  match s with
  | [] => mret None
  | _ =>
      '(chunk_count, rest) ← Stream.Read 8 s;
      '(m, _) ← read_infos (Z.to_nat chunk_count) rest (set_storage s make);
      mret (Some (set_checkpoint_ids None None m))
  end.

Fixpoint any_info (p : ChunkVectorInfo.t -> result bool) (infos : list (option ChunkVectorInfo.t))
    : result bool :=
  match infos with
  | [] => mret false
  | None :: rest => any_info p rest
  | Some info :: rest => b ← p info; if b : bool then mret true else any_info p rest
  end.

Definition HasDeletes (m : t) : result bool := any_info ChunkVectorInfo.AnyDeleted (vector_info m).
Definition HasUncommittedChanges (m : t) : result bool :=
  any_info ChunkVectorInfo.HasUncommittedChanges (vector_info m).
End WithVectorSize.
End RowVersionManager.

(** ** Delete statements (storage/table/row_group.cpp)

    [VersionDeleteState] buffers the rows of one vector and flushes them when the vector changes;
    [undo] is the undo buffer of the transaction, newest entry first. *)

Module VersionDeleteState.
Record t := mk {
  manager : RowVersionManager.t;
  current_chunk : option nat;
  rows : list nat;
  count : nat;
  chunk_row : Z;
  delete_count : nat;
  undo : list DeleteInfo
}.

Section WithVectorSize.
Context {VS : VectorSize}.

Definition Flush (tid base_row : Z) (st : t) : t * result unit :=
  if (count st =? 0)%nat then (st, mret tt)
  else
    let chunk := default 0%nat (current_chunk st) in
    let '(m, rows', r) := RowVersionManager.DeleteRows chunk tid (rows st) (count st) (manager st) in
    let st := mk m (current_chunk st) rows' (count st) (chunk_row st) (delete_count st) (undo st) in
    match r with
    | Throw e => (st, Throw e)
    | Ok actual_delete_count =>
        let deleted := (delete_count st + actual_delete_count)%nat in
        if (0 <? actual_delete_count)%nat then
          match PushDelete chunk rows' actual_delete_count (base_row + chunk_row st) with
          | Throw e => (st, Throw e)
          | Ok info => (mk m (current_chunk st) rows' 0 (chunk_row st) deleted (info :: undo st), mret tt)
          end
        else (mk m (current_chunk st) rows' 0 (chunk_row st) deleted (undo st), mret tt)
    end.

Definition Delete (tid base_row : Z) (row_id : nat) (st : t) : t * result unit :=
  let vector_idx := (row_id / STANDARD_VECTOR_SIZE)%nat in
  let idx_in_vector := (row_id - vector_idx * STANDARD_VECTOR_SIZE)%nat in
  let '(st, r) :=
    if decide (current_chunk st = Some vector_idx) then (st, mret tt)
    else
      let '(st, r) := Flush tid base_row st in
      match r with
      | Throw e => (st, Throw e)
      | Ok _ => (mk (manager st) (Some vector_idx) (rows st) (count st)
                    (RowVersionManager.vector_start_row vector_idx) (delete_count st) (undo st), mret tt)
      end in
  match r with
  | Throw e => (st, Throw e)
  | Ok _ => (mk (manager st) (current_chunk st) (<[count st := idx_in_vector]> (rows st)) (S (count st))
                (chunk_row st) (delete_count st) (undo st), mret tt)
  end.

Fixpoint delete_ids (tid base_row : Z) (ids : list nat) (st : t) : t * result unit :=
  match ids with
  | [] => (st, mret tt)
  | id :: rest =>
      let '(st, r) := Delete tid base_row id st in
      match r with
      | Throw e => (st, Throw e)
      | Ok _ => delete_ids tid base_row rest st
      end
  end.

(** [RowGroup::Delete(transaction, table_entry, ids, count, row_group_start)], on row ids relative
    to the row group. *)
Definition RowGroupDelete (tid base_row : Z) (ids : list nat) (m : RowVersionManager.t)
    (undo : list DeleteInfo) : t * result nat :=
  let st := mk m None (replicate STANDARD_VECTOR_SIZE 0%nat) 0 0 0 undo in
  let '(st, r) := delete_ids tid base_row ids st in
  match r with
  | Throw e => (st, Throw e)
  | Ok _ => let '(st, r) := Flush tid base_row st in
            (st, _ ← r; mret (delete_count st))
  end.

(** The [DELETE_TUPLE] case of [RollbackState::RollbackEntry], and the undo buffer walked from the
    newest entry to the oldest. *)
Definition RollbackEntry (info : DeleteInfo) (m : RowVersionManager.t) : result RowVersionManager.t :=
  RowVersionManager.CommitDelete (vector_idx info) NOT_DELETED_ID info m.

Fixpoint Rollback (undo : list DeleteInfo) (m : RowVersionManager.t) : result RowVersionManager.t :=
  match undo with
  | [] => mret m
  | info :: rest => m ← RollbackEntry info m; Rollback rest m
  end.

(** [CommitState::CommitDelete] for every undo entry, from the oldest to the newest. *)
Fixpoint Commit (commit_id : Z) (undo : list DeleteInfo) (m : RowVersionManager.t)
    : result RowVersionManager.t :=
  match undo with
  | [] => mret m
  | info :: rest =>
      m ← Commit commit_id rest m;
      RowVersionManager.CommitDelete (vector_idx info) commit_id info m
  end.
End WithVectorSize.
End VersionDeleteState.
