(* ===== verification/RowVersionsFacts.v ===== *)
(** * Row versions of a row group: what the operations of [RowVersions] do *)

From S2P Require Import Prelude Snapshot ValidityMask ChunkInfo ChunkInfoFacts RowVersions.

Local Open Scope Z_scope.

Section Facts.
Context {VS : VectorSize}.
Import RowVersionManager.

(** ** Rows of a row group *)

(** The version info of a vector; a vector without one holds rows everyone sees. *)
Definition info_at (v : nat) (m : t) : ChunkVectorInfo.t := default (new_info v) (GetChunkInfo v m).

Definition row_insert_id (m : t) (row : nat) : Z :=
  ChunkVectorInfo.insert_id (info_at (row / STANDARD_VECTOR_SIZE) m) (row mod STANDARD_VECTOR_SIZE).
Definition row_delete_id (m : t) (row : nat) : Z :=
  ChunkVectorInfo.delete_id (info_at (row / STANDARD_VECTOR_SIZE) m) (row mod STANDARD_VECTOR_SIZE).

Definition row_visible (view : SnapshotView) (m : t) (row : nat) : bool :=
  match GetChunkInfo (row / STANDARD_VECTOR_SIZE) m with
  | None => true
  | Some c => ChunkVectorInfo.visible view c (row mod STANDARD_VECTOR_SIZE)
  end.

Definition row_option_selected (options : ScanOptions) (m : t) (row : nat) : bool :=
  match GetChunkInfo (row / STANDARD_VECTOR_SIZE) m with
  | None => true
  | Some c => option_selected options c (row mod STANDARD_VECTOR_SIZE)
  end.

Definition wf_manager (m : t) : Prop :=
  forall v c, GetChunkInfo v m = Some c -> ChunkVectorInfo.wf c.

Lemma wf_new_info v : ChunkVectorInfo.wf (new_info v).
Proof. by split. Qed.

Lemma wf_info_at m v : wf_manager m -> ChunkVectorInfo.wf (info_at v m).
Proof.
  intros Hm. unfold info_at. destruct (GetChunkInfo v m) eqn:E; [by eapply Hm|apply wf_new_info].
Qed.

(** A vector and a position in it determine the row, and conversely. *)
Lemma row_of_vector v i :
  (i < STANDARD_VECTOR_SIZE)%nat ->
  ((v * STANDARD_VECTOR_SIZE + i) / STANDARD_VECTOR_SIZE = v /\
   (v * STANDARD_VECTOR_SIZE + i) mod STANDARD_VECTOR_SIZE = i)%nat.
Proof.
  intros Hi. split.
  - rewrite Nat.div_add_l, Nat.div_small by lia. lia.
  - rewrite Nat.add_comm, Nat.Div0.mod_add, Nat.mod_small by lia. done.
Qed.

Lemma row_position row :
  (row mod STANDARD_VECTOR_SIZE < STANDARD_VECTOR_SIZE)%nat /\
  (row = row / STANDARD_VECTOR_SIZE * STANDARD_VECTOR_SIZE + row mod STANDARD_VECTOR_SIZE)%nat.
Proof.
  pose proof vector_size_pos. split; [apply Nat.mod_upper_bound; lia|].
  rewrite (Nat.div_mod row STANDARD_VECTOR_SIZE) at 1 by lia. lia.
Qed.

(** ** The table of vectors *)

Lemma get_chunk_info_set v c m w :
  (v < length (vector_info m))%nat ->
  GetChunkInfo w (set_info v c m) = if decide (v = w) then c else GetChunkInfo w m.
Proof.
  intros Hv. unfold GetChunkInfo, set_info. cbn. case_decide as Hd.
  - subst. by rewrite list_lookup_insert_eq.
  - by rewrite list_lookup_insert_ne.
Qed.

Lemma length_set_info v c m : length (vector_info (set_info v c m)) = length (vector_info m).
Proof. apply length_insert. Qed.

Lemma get_chunk_info_fill v m w : GetChunkInfo w (FillVectorInfo v m) = GetChunkInfo w m.
Proof.
  unfold FillVectorInfo, GetChunkInfo. destruct (Nat.ltb_spec v (length (vector_info m))); [done|].
  cbn. destruct (decide (w < length (vector_info m))%nat).
  - by rewrite lookup_app_l.
  - rewrite lookup_app_r, (lookup_ge_None_2 (vector_info m)) by lia.
    destruct (_ !! _) eqn:E; [|done]. by apply lookup_replicate in E as [-> _].
Qed.

Lemma length_fill v m : (v < length (vector_info (FillVectorInfo v m)))%nat.
Proof.
  unfold FillVectorInfo. destruct (Nat.ltb_spec v (length (vector_info m))); [done|].
  cbn. rewrite length_app, length_replicate. lia.
Qed.

Lemma length_fill_le v m : (length (vector_info m) <= length (vector_info (FillVectorInfo v m)))%nat.
Proof.
  unfold FillVectorInfo. destruct (Nat.ltb_spec v (length (vector_info m))); [done|].
  cbn. rewrite length_app. lia.
Qed.

Lemma get_vector_info v m m' c :
  GetVectorInfo v m = (m', c) ->
  c = info_at v m /\ (v < length (vector_info m'))%nat /\
  (forall w, info_at w m' = info_at w m) /\ (wf_manager m -> wf_manager m') /\
  newest_uncheckpointed_delete_commit m' = newest_uncheckpointed_delete_commit m /\
  oldest_uncheckpointed_delete_commit m' = oldest_uncheckpointed_delete_commit m.
Proof.
  unfold GetVectorInfo, info_at. rewrite get_chunk_info_fill. pose proof (length_fill v m).
  destruct (GetChunkInfo v m) as [c0|] eqn:E; intros [= <- <-].
  - split_and!; try done; [intros; by rewrite get_chunk_info_fill | |
      unfold FillVectorInfo; by case_match..].
    intros Hm w c. rewrite get_chunk_info_fill. apply Hm.
  - split_and!; try done; [by rewrite length_set_info| | |unfold FillVectorInfo; by case_match..].
    + intros w. rewrite get_chunk_info_set, get_chunk_info_fill by done.
      case_decide; [subst; by rewrite E|done].
    + intros Hm w c. rewrite get_chunk_info_set, get_chunk_info_fill by done.
      case_decide; [intros [= <-]; apply wf_new_info|apply Hm].
Qed.

(** Replacing the info of vector [v] by [c]. *)
Lemma info_at_set v c m w :
  (v < length (vector_info m))%nat ->
  info_at w (set_info v (Some c) m) = if decide (v = w) then c else info_at w m.
Proof. intros. unfold info_at. rewrite get_chunk_info_set by done. by case_decide. Qed.

Lemma wf_set_info v c m :
  (v < length (vector_info m))%nat -> wf_manager m -> ChunkVectorInfo.wf c ->
  wf_manager (set_info v (Some c) m).
Proof.
  intros Hv Hm Hc w c'. rewrite get_chunk_info_set by done.
  case_decide; [by intros [= <-]|apply Hm].
Qed.

(** ** Scans *)

Lemma row_count_segment options m v r n :
  wf_manager m -> hides_not_deleted options -> (n <= STANDARD_VECTOR_SIZE)%nat ->
  (match GetChunkInfo v m with
   | None => mret (r + n)%nat
   | Some info => row_count ← ChunkVectorInfo.GetRowCount options info n; mret (r + row_count)%nat
   end : result nat)
  = Ok (r + count_rows (fun i => row_option_selected options m (v * STANDARD_VECTOR_SIZE + i)) n)%nat.
Proof.
  intros Hm Hh Hn.
  assert (forall i, (i < n)%nat -> row_option_selected options m (v * STANDARD_VECTOR_SIZE + i) =
    match GetChunkInfo v m with None => true | Some c => option_selected options c i end) as Hrow.
  { intros i Hi. unfold row_option_selected. by destruct (row_of_vector v i) as [-> ->]; [lia|]. }
  rewrite (count_rows_ext _ _ n Hrow). destruct (GetChunkInfo v m) as [c|] eqn:E.
  - rewrite get_row_count; [done|by eapply Hm|done..].
  - unfold count_rows. by rewrite rows_all, length_seq.
Qed.

Lemma get_row_count_rows options start_vector count m :
  wf_manager m -> hides_not_deleted options ->
  GetRowCount options start_vector count m
  = Ok (count_rows (fun i => row_option_selected options m (start_vector * STANDARD_VECTOR_SIZE + i)) count).
Proof.
  intros Hm Hh. unfold GetRowCount.
  set (n := ((count + (STANDARD_VECTOR_SIZE - 1)) / STANDARD_VECTOR_SIZE)%nat).
  set (p := fun i => row_option_selected options m (start_vector * STANDARD_VECTOR_SIZE + i)).
  pose proof vector_size_pos as Hpos.
  assert (n * STANDARD_VECTOR_SIZE < count + STANDARD_VECTOR_SIZE /\ count <= n * STANDARD_VECTOR_SIZE)%nat as [Hn1 Hn2].
  { pose proof (Nat.div_mod (count + (STANDARD_VECTOR_SIZE - 1)) STANDARD_VECTOR_SIZE ltac:(lia)).
    pose proof (Nat.mod_upper_bound (count + (STANDARD_VECTOR_SIZE - 1)) STANDARD_VECTOR_SIZE ltac:(lia)).
    subst n. lia. }
  match goal with |- for_range_m 0 n ?body _ = _ =>
    destruct (for_range_m_ind
      (fun k total => total = count_rows p (Nat.min (k * STANDARD_VECTOR_SIZE) count)) 0 n body 0%nat)
      as (s & -> & ->) end.
  - lia.
  - by rewrite Nat.mul_0_l, Nat.min_0_l.
  - intros k total Hk ->. assert (k * STANDARD_VECTOR_SIZE < count)%nat by nia.
    cbv zeta. rewrite row_count_segment by (done || lia). eexists. split; [done|].
    rewrite (Nat.min_l (k * STANDARD_VECTOR_SIZE)) by lia.
    replace (Nat.min (S k * STANDARD_VECTOR_SIZE) count) with
      (k * STANDARD_VECTOR_SIZE + Nat.min STANDARD_VECTOR_SIZE (count - k * STANDARD_VECTOR_SIZE))%nat by lia.
    rewrite count_rows_add. f_equal. apply count_rows_ext. intros i _. subst p. cbv beta. f_equal. lia.
  - by rewrite Nat.min_r by lia.
Qed.

Lemma run_end_bounds fuel next count offsets base vend :
  (next <= count)%nat ->
  let e := run_end fuel next count offsets base vend in
  (next <= e <= count)%nat /\
  forall k, (next <= k < e)%nat -> (base <= nth k offsets 0 < vend)%nat.
Proof.
  revert next. induction fuel as [|fuel IH]; intros next Hn; cbn [run_end]; [split; lia|].
  destruct (Nat.ltb_spec next count); cbn [andb]; [|split; lia].
  destruct (Nat.leb_spec base (nth next offsets 0%nat)); cbn [andb]; [|split; lia].
  destruct (Nat.ltb_spec (nth next offsets 0%nat) vend); cbn [andb]; [|split; lia].
  destruct (IH (S next)) as [He Hk]; [lia|]. split; [lia|].
  intros k Hk'. destruct (Nat.eq_dec k next) as [->|]; [lia|]. apply Hk. lia.
Qed.

(** The body of one run selects the visible offsets among [idx .. next_idx-1]. *)
Lemma visible_run view offsets m v idx next sel st :
  (idx <= next)%nat ->
  (forall k, (idx <= k < next)%nat -> (nth k offsets 0 / STANDARD_VECTOR_SIZE = v)%nat) ->
  ChunkVectorInfo.selected (fun k => row_visible view m (nth k offsets 0%nat)) sel idx st ->
  exists st', (match GetChunkInfo v m with
     | None => mret (for_range idx next ChunkVectorInfo.select_row st)
     | Some info =>
         for_range_m idx next (fun k st =>
           visible ← ChunkVectorInfo.Fetch view info (nth k offsets 0 - v * STANDARD_VECTOR_SIZE)%nat;
           mret (if visible : bool then ChunkVectorInfo.select_row k st else st)) st
     end) = Ok st' /\
    ChunkVectorInfo.selected (fun k => row_visible view m (nth k offsets 0%nat)) sel next st'.
Proof.
  intros Hle Hv Hst. destruct (GetChunkInfo v m) as [c|] eqn:E.
  - match goal with |- context [for_range_m idx next ?body st] =>
      destruct (for_range_m_ind
        (ChunkVectorInfo.selected (fun k => row_visible view m (nth k offsets 0%nat)) sel) idx next body st)
        as (st' & -> & Hsel) end; [done..| |by exists st'].
    intros k st' Hk Hsel. rewrite fetch_visible. cbn [mbind result_bind]. eexists. split; [done|].
    pose proof (row_position (nth k offsets 0%nat)) as [_ Hpos]. specialize (Hv k Hk).
    replace (nth k offsets 0 - v * STANDARD_VECTOR_SIZE)%nat with (nth k offsets 0 mod STANDARD_VECTOR_SIZE)%nat by lia.
    assert (row_visible view m (nth k offsets 0%nat) =
      ChunkVectorInfo.visible view c (nth k offsets 0 mod STANDARD_VECTOR_SIZE)%nat) as Hr
      by (unfold row_visible; by rewrite Hv, E).
    destruct (ChunkVectorInfo.visible view c _) eqn:Hvis.
    + by apply ChunkVectorInfo.selected_row.
    + by apply ChunkVectorInfo.selected_skip.
  - eexists. split; [done|]. apply ChunkVectorInfo.scan_loop; [done| |done].
    intros k st' Hk. unfold row_visible. by rewrite Hv, E.
Qed.

Lemma visible_runs_rows view offsets m sel fuel idx count st :
  (idx <= count)%nat -> (count <= idx + fuel)%nat ->
  ChunkVectorInfo.selected (fun k => row_visible view m (nth k offsets 0%nat)) sel idx st ->
  exists st', visible_runs fuel idx count view offsets m st = Ok st' /\
    ChunkVectorInfo.selected (fun k => row_visible view m (nth k offsets 0%nat)) sel count st'.
Proof.
  revert idx st. induction fuel as [|fuel IH]; intros idx st Hi Hf Hst; cbn [visible_runs].
  { exists st. replace count with idx by lia. done. }
  destruct (Nat.ltb_spec idx count); [|exists st; by replace count with idx by lia].
  cbv zeta. set (v := (nth idx offsets 0 / STANDARD_VECTOR_SIZE)%nat).
  destruct (run_end_bounds count (S idx) count offsets (v * STANDARD_VECTOR_SIZE)
    (v * STANDARD_VECTOR_SIZE + STANDARD_VECTOR_SIZE)) as [He Hk]; [lia|].
  set (e := run_end _ _ _ _ _ _) in *.
  destruct (visible_run view offsets m v idx e sel st) as (st' & -> & Hst'); [lia| |done|].
  - intros k Hke. destruct (Nat.eq_dec k idx) as [->|]; [done|].
    specialize (Hk k ltac:(lia)). symmetry. apply Nat.div_unique with (nth k offsets 0 - v * STANDARD_VECTOR_SIZE)%nat; lia.
  - cbn [mbind result_bind]. apply IH; [lia|lia|done].
Qed.

Lemma get_visible_rows view offsets count sel m :
  exists st, GetVisibleRows view offsets count sel m = Ok st /\
    ChunkVectorInfo.selected (fun k => row_visible view m (nth k offsets 0%nat)) (Some sel) count st.
Proof.
  unfold GetVisibleRows. destruct (Nat.eqb_spec count 0) as [->|].
  - eexists. split; [done|]. apply ChunkVectorInfo.selected_start.
  - apply visible_runs_rows; [lia|lia|apply ChunkVectorInfo.selected_start].
Qed.

(** ** Loops over the vectors of a row range *)

Lemma vector_loop (E : nat -> option ChunkVectorInfo.t -> Prop) a b body m :
  (a <= b)%nat -> (b <= length (vector_info m))%nat -> wf_manager m ->
  (forall k m1, (a <= k < b)%nat -> GetChunkInfo k m1 = GetChunkInfo k m ->
    exists c', body k m1 = Ok (set_info k c' m1) /\ E k c' /\ forall c, c' = Some c -> ChunkVectorInfo.wf c) ->
  exists m', for_range_m a b body m = Ok m' /\ wf_manager m' /\
    (forall v, (a <= v < b)%nat -> E v (GetChunkInfo v m')) /\
    (forall v, ~ (a <= v < b)%nat -> GetChunkInfo v m' = GetChunkInfo v m) /\
    length (vector_info m') = length (vector_info m).
Proof.
  intros Hab Hlen Hwf Hbody.
  apply (for_range_m_ind (fun k m' => wf_manager m' /\
    (forall v, (a <= v < k)%nat -> E v (GetChunkInfo v m')) /\
    (forall v, ~ (a <= v < k)%nat -> GetChunkInfo v m' = GetChunkInfo v m) /\
    length (vector_info m') = length (vector_info m)) a b); [done|by split_and!; [|lia|..]|].
  intros k m1 Hk (Hwf1 & HE & Hrest & Hl).
  destruct (Hbody k m1) as (c' & -> & HEk & Hc); [done|apply Hrest; lia|].
  eexists. split; [done|]. assert (k < length (vector_info m1))%nat by lia. split_and!.
  - intros v c. rewrite get_chunk_info_set by done. case_decide; [apply Hc|apply Hwf1].
  - intros v Hv. rewrite get_chunk_info_set by done. case_decide; [by subst|]. apply HE. lia.
  - intros v Hv. rewrite get_chunk_info_set by done. case_decide; [lia|]. apply Hrest. lia.
  - by rewrite length_set_info.
Qed.

(** The rows of [start, end_) that lie in vector [v], as [vector_range] computes them. *)
Lemma vector_range_rows start end_ v i :
  (start < end_)%nat -> (i < STANDARD_VECTOR_SIZE)%nat ->
  let sv := (start / STANDARD_VECTOR_SIZE)%nat in
  let ev := ((end_ - 1) / STANDARD_VECTOR_SIZE)%nat in
  (sv <= v <= ev)%nat ->
  let '(vs, ve) := vector_range start end_ sv ev v in
  (ve <= STANDARD_VECTOR_SIZE)%nat /\ (vs < ve)%nat /\
  (vs <= i < ve <-> start <= v * STANDARD_VECTOR_SIZE + i < end_)%nat /\
  (vs = 0 <-> start <= v * STANDARD_VECTOR_SIZE)%nat.
Proof.
  intros Hse Hi sv ev Hv. unfold vector_range. pose proof vector_size_pos.
  pose proof (row_position start) as [? ?]. pose proof (row_position (end_ - 1)) as [? ?].
  fold sv in H0, H1. fold ev in H2, H3.
  clearbody sv ev.
  destruct (Nat.eqb_spec v sv), (Nat.eqb_spec v ev); subst; split_and!; nia.
Qed.

(** ** Appends *)

(** No vector that starts at or after row [n] has version info. *)
Definition fresh_from (n : nat) (m : t) : Prop :=
  forall v, (n <= v * STANDARD_VECTOR_SIZE)%nat -> GetChunkInfo v m = None.

Lemma append_version_info transaction start end_ m :
  wf_manager m -> (start < end_)%nat -> fresh_from start m ->
  exists m', AppendVersionInfo transaction start end_ m = Ok m' /\ wf_manager m' /\ fresh_from end_ m' /\
    forall row, (row < end_)%nat ->
      row_delete_id m' row = row_delete_id m row /\
      row_insert_id m' row = if (start <=? row)%nat then transaction_id transaction else row_insert_id m row.
Proof.
  intros Hwf Hse Hfresh. unfold AppendVersionInfo. cbv zeta.
  set (sv := (start / STANDARD_VECTOR_SIZE)%nat). set (ev := ((end_ - 1) / STANDARD_VECTOR_SIZE)%nat).
  set (m0 := FillVectorInfo ev (set_needs_check true m)). pose proof vector_size_pos as Hpos.
  assert (forall v, GetChunkInfo v m0 = GetChunkInfo v m) as Hm0 by (intros v; subst m0; by rewrite get_chunk_info_fill).
  assert (forall v, (start <= v * STANDARD_VECTOR_SIZE)%nat -> (sv <= v)%nat) as Hsv.
  { intros v Hv. subst sv. apply Nat.Div0.div_le_upper_bound. lia. }
  match goal with |- context [for_range_m sv (S ev) ?body m0] =>
    destruct (vector_loop (fun v oc => exists c', oc = Some c' /\ forall i, (i < STANDARD_VECTOR_SIZE)%nat ->
       ChunkVectorInfo.delete_id c' i = ChunkVectorInfo.delete_id (info_at v m) i /\
       ((v * STANDARD_VECTOR_SIZE + i < end_)%nat -> ChunkVectorInfo.insert_id c' i =
         if (start <=? v * STANDARD_VECTOR_SIZE + i)%nat then transaction_id transaction
         else ChunkVectorInfo.insert_id (info_at v m) i)) sv (S ev) body m0)
      as (m' & -> & Hwf' & HE & Hrest & _) end.
  - apply Nat.le_le_succ_r. subst sv ev. apply Nat.Div0.div_le_mono. lia.
  - apply length_fill.
  - intros v c. rewrite Hm0. apply Hwf.
  - intros k m1 Hk Hk1. rewrite Hm0 in Hk1.
    destruct (vector_range start end_ sv ev k) as [vs ve] eqn:Hr.
    assert (forall i, (i < STANDARD_VECTOR_SIZE)%nat -> (ve <= STANDARD_VECTOR_SIZE)%nat /\ (vs < ve)%nat /\
      (vs <= i < ve <-> start <= k * STANDARD_VECTOR_SIZE + i < end_)%nat /\
      (vs = 0 <-> start <= k * STANDARD_VECTOR_SIZE)%nat) as Hrange.
    { intros i Hi. pose proof (vector_range_rows start end_ k i Hse Hi) as H. cbv zeta in H.
      fold sv ev in H. rewrite Hr in H. apply H. lia. }
    destruct (Hrange 0%nat Hpos) as (Hve & Hlt & _ & Hvs).
    destruct ((vs =? 0)%nat && (ve =? STANDARD_VECTOR_SIZE)%nat) eqn:Hfull.
    + apply andb_true_iff in Hfull as [H0%Nat.eqb_eq H1%Nat.eqb_eq].
      eexists. split; [done|]. split; [|by intros c [= <-]; split].
      eexists. split; [done|]. intros i Hi. split.
      * unfold info_at. by rewrite (Hfresh k) by (by apply Hvs).
      * intros _. destruct (Hrange i Hi) as (_ & _ & Hin & _).
        rewrite (proj2 (Nat.leb_le _ _)) by (apply Hin; lia). done.
    + rewrite Hk1. change (default (new_info k) (GetChunkInfo k m)) with (info_at k m).
      destruct (append_ids vs ve (transaction_id transaction) (info_at k m)) as (c' & -> & Hc' & Hids).
      { by apply wf_info_at. } { done. }
      { intros H0. unfold info_at. by rewrite (Hfresh k) by (by apply Hvs). }
      cbn [mbind result_bind]. eexists. split; [done|]. split; [|by intros c [= <-]].
      eexists. split; [done|]. intros i Hi. destruct (Hids i Hi) as [Hd Hins]. split; [done|].
      intros Hend. rewrite Hins. destruct (Hrange i Hi) as (_ & _ & Hin & _).
      destruct (Nat.eqb_spec vs 0), (Nat.leb_spec vs i), (Nat.ltb_spec i ve),
        (Nat.leb_spec start (k * STANDARD_VECTOR_SIZE + i)); cbn [orb andb]; try done; lia.
  - exists m'. split; [done|]. split; [done|]. split.
    + intros v Hv. rewrite Hrest, Hm0; [apply Hfresh; lia|].
      pose proof (row_position (end_ - 1)) as [? ?]. fold ev in H0. nia.
    + intros row Hrow. pose proof (row_position row) as [Hi Heq].
      unfold row_delete_id, row_insert_id. set (v := (row / STANDARD_VECTOR_SIZE)%nat) in *.
      assert (v <= ev)%nat by (subst v ev; apply Nat.Div0.div_le_mono; lia).
      destruct (decide (sv <= v)%nat) as [Hge|Hlt].
      * destruct (HE v) as (c' & Hc' & Hids); [lia|]. unfold info_at at 1 3. rewrite Hc'.
        destruct (Hids _ Hi) as [Hd Hins]. rewrite <- Heq in Hins. split; [done|by apply Hins].
      * assert (row < start)%nat.
        { apply Nat.nle_gt. intros H0. apply Hlt. subst sv v. by apply Nat.Div0.div_le_mono. }
        rewrite (proj2 (Nat.leb_gt _ _)) by done. unfold info_at. by rewrite Hrest, Hm0 by lia.
Qed.

Lemma commit_append_rows commit_id start count m :
  wf_manager m ->
  (forall v, (start / STANDARD_VECTOR_SIZE <= v <= (start + count - 1) / STANDARD_VECTOR_SIZE)%nat ->
     GetChunkInfo v m <> None) ->
  exists m', CommitAppend commit_id start count m = Ok m' /\ wf_manager m' /\
    forall row,
      row_delete_id m' row = row_delete_id m row /\
      ((start <= row < start + count)%nat -> row_insert_id m' row = commit_id) /\
      (~ (start <= row < start + count)%nat -> row_insert_id m' row = row_insert_id m row \/
         (start / STANDARD_VECTOR_SIZE <= row / STANDARD_VECTOR_SIZE <= (start + count - 1) / STANDARD_VECTOR_SIZE)%nat /\
         ChunkVectorInfo.HasConstantInsertionId (info_at (row / STANDARD_VECTOR_SIZE) m) = true).
Proof.
  intros Hwf Hsome. unfold CommitAppend. destruct (Nat.eqb_spec count 0) as [->|Hc].
  { exists m. split_and!; try done. intros row. split_and!; [done|lia|by left]. }
  cbv zeta. set (end_ := (start + count)%nat) in *.
  set (sv := (start / STANDARD_VECTOR_SIZE)%nat) in *. set (ev := ((end_ - 1) / STANDARD_VECTOR_SIZE)%nat) in *.
  pose proof vector_size_pos as Hpos. assert (start < end_)%nat as Hse by lia.
  assert (sv <= ev)%nat as Hsv by (subst sv ev; apply Nat.Div0.div_le_mono; lia).
  match goal with |- context [for_range_m sv (S ev) ?body m] =>
    destruct (vector_loop (fun v oc => exists c', oc = Some c' /\ forall i, (i < STANDARD_VECTOR_SIZE)%nat ->
       ChunkVectorInfo.delete_id c' i = ChunkVectorInfo.delete_id (info_at v m) i /\
       ChunkVectorInfo.insert_id c' i =
         if ChunkVectorInfo.HasConstantInsertionId (info_at v m)
            || ((start <=? v * STANDARD_VECTOR_SIZE + i) && (v * STANDARD_VECTOR_SIZE + i <? end_))%nat
         then commit_id else ChunkVectorInfo.insert_id (info_at v m) i) sv (S ev) body m)
      as (m' & -> & Hwf' & HE & Hrest & _) end.
  - lia.
  - specialize (Hsome ev ltac:(lia)). apply Nat.nlt_ge. intros H. apply Hsome.
    unfold GetChunkInfo. by rewrite lookup_ge_None_2 by lia.
  - done.
  - intros k m1 Hk Hk1. destruct (vector_range start end_ sv ev k) as [vs ve] eqn:Hr.
    rewrite Hk1. unfold info_at. destruct (GetChunkInfo k m) as [c|] eqn:Ec; [|by destruct (Hsome k); [lia|]].
    assert (forall i, (i < STANDARD_VECTOR_SIZE)%nat -> (ve <= STANDARD_VECTOR_SIZE)%nat /\
      (vs <= i < ve <-> start <= k * STANDARD_VECTOR_SIZE + i < end_)%nat) as Hrange.
    { intros i Hi. pose proof (vector_range_rows start end_ k i Hse Hi) as H. cbv zeta in H.
      fold sv ev in H. rewrite Hr in H. destruct H as (? & _ & ? & _); [lia|done]. }
    destruct (commit_append_ids commit_id vs ve c) as (c' & -> & Hc' & Hids);
      [by eapply Hwf|by apply (Hrange 0%nat)|].
    cbn [mbind result_bind default]. eexists. split; [done|]. split; [|by intros ? [= <-]].
    eexists. split; [done|]. intros i Hi. destruct (Hids i Hi) as [Hd ->]. rewrite ?Ec. split; [done|].
    cbn [default from_option id].
    destruct (Hrange i Hi) as (_ & Hin). destruct (ChunkVectorInfo.HasConstantInsertionId c); cbn [orb]; [done|].
    destruct (Nat.leb_spec vs i), (Nat.ltb_spec i ve), (Nat.leb_spec start (k * STANDARD_VECTOR_SIZE + i)),
      (Nat.ltb_spec (k * STANDARD_VECTOR_SIZE + i) end_); cbn [andb]; try done; lia.
  - exists m'. split; [done|]. split; [done|]. intros row. pose proof (row_position row) as [Hi Heq].
    unfold row_delete_id, row_insert_id. set (v := (row / STANDARD_VECTOR_SIZE)%nat) in *.
    destruct (decide (sv <= v <= ev)%nat) as [Hin|Hout].
    + destruct (HE v) as (c' & Hc' & Hids); [lia|]. unfold info_at at 1 3 4. rewrite Hc'.
      destruct (Hids _ Hi) as [Hd Hins]. rewrite <- Heq in Hins.
      change (default (new_info v) (Some c')) with c'. split_and!; [done| |]; intros Hrow.
      * rewrite Hins. rewrite (proj2 (Nat.leb_le start row)), (proj2 (Nat.ltb_lt row end_)) by lia.
        by rewrite orb_true_r.
      * rewrite Hins. destruct (ChunkVectorInfo.HasConstantInsertionId _); [by right|]. left.
        destruct (Nat.leb_spec start row), (Nat.ltb_spec row end_); cbn [andb orb]; try done; lia.
    + assert (~ (start <= row < end_)%nat).
      { intros [H1 H2]. apply Hout. subst sv ev v. split; apply Nat.Div0.div_le_mono; lia. }
      unfold info_at. rewrite Hrest by lia. by split_and!; [|lia|left].
Qed.

(** Rows of one vector that store a constant insert id have the same insert id. *)
Lemma constant_insert_rows m row row' :
  ChunkVectorInfo.HasConstantInsertionId (info_at (row / STANDARD_VECTOR_SIZE) m) = true ->
  (row / STANDARD_VECTOR_SIZE = row' / STANDARD_VECTOR_SIZE)%nat -> row_insert_id m row = row_insert_id m row'.
Proof.
  unfold row_insert_id, ChunkVectorInfo.HasConstantInsertionId, ChunkVectorInfo.insert_id. intros H <-.
  by destruct (ChunkVectorInfo.inserted_data _).
Qed.

(** An append of the rows [start, end_) by a transaction, then its commit. *)
Lemma append_commit_rows transaction commit_id start end_ m :
  wf_manager m -> (start < end_)%nat -> fresh_from start m -> transaction_id transaction <> 0 ->
  (forall row, (row < start)%nat -> row_insert_id m row <> transaction_id transaction) ->
  exists m1 m2, AppendVersionInfo transaction start end_ m = Ok m1 /\
    CommitAppend commit_id start (end_ - start) m1 = Ok m2 /\ wf_manager m2 /\
    forall row, (row < end_)%nat ->
      row_delete_id m2 row = row_delete_id m row /\
      row_insert_id m1 row = (if (start <=? row)%nat then transaction_id transaction else row_insert_id m row) /\
      row_insert_id m2 row = (if (start <=? row)%nat then commit_id else row_insert_id m row).
Proof.
  intros Hwf Hse Hfresh Htid Hother.
  destruct (append_version_info transaction start end_ m Hwf Hse Hfresh) as (m1 & Ha & Hwf1 & _ & Hids).
  pose proof vector_size_pos as Hpos.
  assert (forall v, (start / STANDARD_VECTOR_SIZE <= v <= (end_ - 1) / STANDARD_VECTOR_SIZE)%nat ->
    exists row, (start <= row < end_)%nat /\ (row / STANDARD_VECTOR_SIZE = v)%nat) as Hrow.
  { intros v Hv. exists (Nat.max start (v * STANDARD_VECTOR_SIZE)).
    pose proof (Nat.div_mod start STANDARD_VECTOR_SIZE). pose proof (Nat.mod_upper_bound start STANDARD_VECTOR_SIZE).
    pose proof (Nat.div_mod (end_ - 1) STANDARD_VECTOR_SIZE).
    assert (v * STANDARD_VECTOR_SIZE <= (end_ - 1) / STANDARD_VECTOR_SIZE * STANDARD_VECTOR_SIZE)%nat by (apply Nat.mul_le_mono_r; lia).
    assert (v = start / STANDARD_VECTOR_SIZE \/ S (start / STANDARD_VECTOR_SIZE) * STANDARD_VECTOR_SIZE <= v * STANDARD_VECTOR_SIZE)%nat as [->|Hge].
    { destruct (decide (v = start / STANDARD_VECTOR_SIZE)%nat); [by left|right]. apply Nat.mul_le_mono_r. lia. }
    - rewrite Nat.max_l by lia. split; [lia|done].
    - rewrite Nat.max_r by lia. split; [lia|by apply Nat.div_mul; lia]. }
  assert (start + (end_ - start) - 1 = end_ - 1)%nat as Hcnt by lia.
  destruct (commit_append_rows commit_id start (end_ - start) m1 Hwf1) as (m2 & Hc & Hwf2 & Hids2).
  { rewrite Hcnt. intros v Hv Hnone. destruct (Hrow v Hv) as (row & Hr & Hrv).
    destruct (Hids row) as [_ Hins]; [lia|]. rewrite (proj2 (Nat.leb_le start row)) in Hins by lia.
    unfold row_insert_id, info_at in Hins. rewrite Hrv, Hnone in Hins. cbn in Hins. congruence. }
  exists m1, m2. split_and!; [done|done|done|]. intros row Hlt. destruct (Hids row Hlt) as [Hd1 Hi1].
  destruct (Hids2 row) as (Hd2 & Hin & Hout). split_and!; [congruence|done|].
  destruct (Nat.leb_spec start row) as [Hge|Hlts]; [apply Hin; lia|].
  destruct Hout as [Heq|[Hv Hconst]]; [lia|congruence|]. exfalso. rewrite Hcnt in Hv.
  destruct (Hrow _ Hv) as (row' & Hr' & Hrv). destruct (Hids row') as [_ Hi']; [lia|].
  rewrite (proj2 (Nat.leb_le start row')) in Hi' by lia.
  rewrite <- (constant_insert_rows m1 row row' Hconst) in Hi' by done. apply (Hother row Hlts). congruence.
Qed.

Lemma revert_append_infos n m v :
  GetChunkInfo v (RevertAppend n m) = if (n <=? v * STANDARD_VECTOR_SIZE)%nat then None else GetChunkInfo v m.
Proof.
  unfold RevertAppend. cbv zeta. pose proof vector_size_pos as Hpos.
  set (sv := ((n + (STANDARD_VECTOR_SIZE - 1)) / STANDARD_VECTOR_SIZE)%nat).
  assert (n <= v * STANDARD_VECTOR_SIZE <-> sv <= v)%nat as Hsv.
  { pose proof (row_position (n + (STANDARD_VECTOR_SIZE - 1))) as [? ?]. fold sv in H0.
    split; intros; nia. }
  assert (forall k, (sv <= k)%nat -> (k <= length (vector_info m))%nat ->
    let m' := for_range sv k (fun v m => set_info v None m) m in
    length (vector_info m') = length (vector_info m) /\
    forall v, GetChunkInfo v m' = if decide (sv <= v < k)%nat then None else GetChunkInfo v m) as Hloop.
  { intros k Hk Hkl. cbv zeta. apply (for_range_ind (fun j m' => length (vector_info m') = length (vector_info m) /\
      forall v, GetChunkInfo v m' = if decide (sv <= v < j)%nat then None else GetChunkInfo v m) sv k); [done| |].
    - split; [done|]. intros w. rewrite decide_False by lia. done.
    - intros j m' Hj [Hl Hm']. split; [by rewrite length_set_info|]. intros w.
      rewrite get_chunk_info_set, Hm' by lia. repeat case_decide; try done; lia. }
  destruct (decide (sv <= length (vector_info m))%nat) as [Hle|Hgt].
  - destruct (Hloop (length (vector_info m))) as [_ ->]; [done..|].
    destruct (Nat.leb_spec n (v * STANDARD_VECTOR_SIZE)); case_decide; try done; try lia.
    unfold GetChunkInfo. by rewrite lookup_ge_None_2 by lia.
  - rewrite for_range_ge by lia. destruct (Nat.leb_spec n (v * STANDARD_VECTOR_SIZE)); [|done].
    unfold GetChunkInfo. by rewrite lookup_ge_None_2 by lia.
Qed.

(** ** Deletes *)

Lemma delete_rows_manager v tid rows count m :
  wf_manager m -> tid <> NOT_DELETED_ID -> (0 < count <= length rows)%nat ->
  (forall k, (k < count)%nat -> (row_at rows k < STANDARD_VECTOR_SIZE)%nat) ->
  let '(m', rows', r) := DeleteRows v tid rows count m in
  wf_manager m' /\ (forall w, v <> w -> info_at w m' = info_at w m) /\
  delete_outcome tid rows count (info_at v m) (info_at v m', rows', r).
Proof.
  intros Hwf Htid Hc Hrow. unfold DeleteRows.
  destruct (GetVectorInfo v (set_needs_check true m)) as [m1 c] eqn:Hg.
  destruct (get_vector_info _ _ _ _ Hg) as (-> & Hl & Hsame & Hwf1 & _).
  change (info_at v (set_needs_check true m)) with (info_at v m) in *.
  specialize (Hwf1 Hwf).
  pose proof (delete_spec tid rows count (info_at v m) (wf_info_at m v Hwf) Htid Hc Hrow) as Hout.
  destruct (ChunkVectorInfo.Delete tid rows count (info_at v m)) as [[c' rows'] r].
  split; [|split].
  - apply wf_set_info; [done|done|]. by destruct Hout.
  - intros w Hw. rewrite info_at_set, decide_False by done. by rewrite Hsame.
  - rewrite info_at_set, decide_True by done. done.
Qed.

(** The row [row] is named by the undo entry. *)
Definition entry_row (info : DeleteInfo) (row : nat) : Prop :=
  vector_idx info = (row / STANDARD_VECTOR_SIZE)%nat /\ (row mod STANDARD_VECTOR_SIZE)%nat ∈ info_rows info.

#[global] Instance entry_row_dec info row : Decision (entry_row info row).
Proof. unfold entry_row. apply _. Defined.

Lemma commit_delete_manager id info m :
  wf_manager m -> info_ok info ->
  exists m', CommitDelete (vector_idx info) id info m = Ok m' /\ wf_manager m' /\
    (forall row, row_insert_id m' row = row_insert_id m row) /\
    (forall row, row_delete_id m' row = if decide (entry_row info row) then id else row_delete_id m row) /\
    newest_uncheckpointed_delete_commit m' = newest_with id (newest_uncheckpointed_delete_commit m) /\
    oldest_uncheckpointed_delete_commit m' = oldest_with id (oldest_uncheckpointed_delete_commit m).
Proof.
  intros Hwf Hok. unfold CommitDelete. cbv zeta.
  destruct (GetVectorInfo _ _) as [m1 c] eqn:Hg.
  destruct (get_vector_info _ _ _ _ Hg) as (-> & Hl & Hsame & Hwf1 & Hn & Ho).
  change (info_at (vector_idx info) (set_checkpoint_ids _ _ _)) with (info_at (vector_idx info) m) in *.
  specialize (Hwf1 Hwf).
  destruct (commit_delete_ids id info (info_at (vector_idx info) m) (wf_info_at m _ Hwf) Hok)
    as (c' & -> & Hwf' & Hins & Hdel).
  cbn [mbind result_bind]. eexists. split; [done|]. split; [by apply wf_set_info|].
  split; [|split; [|split; [exact Hn|exact Ho]]]; intros row; pose proof (row_position row) as [Hi _].
  - unfold row_insert_id. rewrite info_at_set by done. case_decide as Hv.
    + by rewrite Hins, Hv.
    + by rewrite Hsame.
  - unfold row_delete_id. rewrite info_at_set by done. case_decide as Hv.
    + rewrite Hdel by done. case_decide.
      * by rewrite decide_True by by split.
      * rewrite decide_False by by intros [_ ?]. by rewrite Hv.
    + rewrite Hsame. rewrite decide_False; [done|]. by intros [? _].
Qed.

Definition undo_row (undo : list DeleteInfo) (row : nat) : Prop := Exists (fun info => entry_row info row) undo.

(** Applying [id] to every undo entry, in any order. *)
Lemma rollback_rows undo m :
  wf_manager m -> Forall info_ok undo ->
  exists m', VersionDeleteState.Rollback undo m = Ok m' /\ wf_manager m' /\
    (forall row, row_insert_id m' row = row_insert_id m row) /\
    (forall row, row_delete_id m' row =
       if decide (undo_row undo row) then NOT_DELETED_ID else row_delete_id m row).
Proof.
  intros Hwf Hok. revert m Hwf. induction Hok as [|info undo Hi Hok IH]; intros m Hwf; cbn.
  { exists m. by split_and!. }
  unfold VersionDeleteState.RollbackEntry.
  destruct (commit_delete_manager NOT_DELETED_ID info m Hwf Hi) as (m1 & -> & Hwf1 & Hins1 & Hdel1 & _).
  cbn [mbind result_bind]. destruct (IH m1 Hwf1) as (m' & -> & Hwf' & Hins' & Hdel').
  exists m'. split_and!; [done|done|intros; by rewrite Hins', Hins1|]. intros row. rewrite Hdel', Hdel1.
  unfold undo_row. repeat case_decide; try done; rewrite Exists_cons in *; tauto.
Qed.

Lemma commit_rows commit_id undo m :
  wf_manager m -> Forall info_ok undo ->
  exists m', VersionDeleteState.Commit commit_id undo m = Ok m' /\ wf_manager m' /\
    (forall row, row_insert_id m' row = row_insert_id m row) /\
    (forall row, row_delete_id m' row =
       if decide (undo_row undo row) then commit_id else row_delete_id m row).
Proof.
  intros Hwf Hok. induction Hok as [|info undo Hi Hok IH]; cbn.
  { exists m. by split_and!. }
  destruct IH as (m1 & -> & Hwf1 & Hins1 & Hdel1). cbn [mbind result_bind].
  destruct (commit_delete_manager commit_id info m1 Hwf1 Hi) as (m' & -> & Hwf' & Hins' & Hdel' & _).
  exists m'. split_and!; [done|done|intros; by rewrite Hins', Hins1|]. intros row. rewrite Hdel', Hdel1.
  unfold undo_row. repeat case_decide; try done; rewrite Exists_cons in *; tauto.
Qed.

(** ** Delete statements

    [base] and [inserts] give the delete and the insert id of every row before the transaction [tid]
    deleted anything. *)

Section Statement.
Context (tid base_row : Z) (base inserts : nat -> Z).
Hypothesis tid_id : tid <> NOT_DELETED_ID.
Hypothesis base_other : forall row, base row <> tid.
Hypothesis vector_16 : Z.of_nat STANDARD_VECTOR_SIZE <= 2 ^ 16.

(** Every row this transaction deleted is in its undo buffer and was alive; every other row is as
    it was. As long as no delete of the transaction failed ([clean]), every row of the undo buffer is
    still deleted by it; a conflict may have made some of them alive again. *)
Record undoable (clean : bool) (m : t) (undo : list DeleteInfo) : Prop := {
  und_wf : wf_manager m;
  und_ok : Forall info_ok undo;
  und_rows : forall row,
    (~ undo_row undo row /\ row_delete_id m row = base row) \/
    (undo_row undo row /\ base row = NOT_DELETED_ID /\
     (row_delete_id m row = tid \/ clean = false /\ row_delete_id m row = NOT_DELETED_ID));
  und_inserts : forall row, row_insert_id m row = inserts row
}.

(** One delete of rows of vector [v], followed by its undo entry, keeps the buffer complete. *)
Lemma undoable_delete clean m undo v rows count m' rows' r :
  undoable clean m undo -> (0 < count <= length rows)%nat ->
  (forall k, (k < count)%nat -> (row_at rows k < STANDARD_VECTOR_SIZE)%nat) ->
  DeleteRows v tid rows count m = (m', rows', r) ->
  match r with
  | Throw e => e = ChunkVectorInfo.conflict /\ undoable false m' undo
  | Ok n => forall b, exists info, PushDelete v rows' n b = Ok info /\ undoable clean m' (info :: undo) /\
              (n = 0%nat -> undoable clean m' undo)
  end.
Proof.
  intros [Hwf Hok Hrows Hins] Hc Hrow Heq.
  pose proof (delete_rows_manager v tid rows count m Hwf tid_id Hc Hrow) as Hout.
  rewrite Heq in Hout. destruct Hout as (Hwf' & Hother & _ & Hii & Hlr & Hr).
  assert (forall row, row_insert_id m' row = inserts row) as Hins'.
  { intros row. rewrite <- Hins. unfold row_insert_id.
    destruct (decide (v = (row / STANDARD_VECTOR_SIZE)%nat)) as [->|?]; [apply Hii|by rewrite Hother]. }
  assert (forall row, (row / STANDARD_VECTOR_SIZE)%nat <> v -> row_delete_id m' row = row_delete_id m row) as Ho.
  { intros row Hv. unfold row_delete_id. by rewrite Hother by done. }
  destruct r as [n|e].
  - intros b. destruct Hr as [Hdel Heff].
    assert (forall q, q ∈ take count rows -> (q < STANDARD_VECTOR_SIZE)%nat) as Hin
      by (intros q (k & ? & ? & <-)%elem_row_at; by apply Hrow).
    destruct (push_delete_total v rows' n b) as [info Hpush]; [|done|].
    { intros k Hk. apply Hin. apply (eff_rows _ _ _ _ _ _ _ Heff). apply row_at_elem; [done|apply Heff]. }
    destruct (push_delete_effect tid rows count _ _ rows' n v b info Hin Heff Hpush) as [Hiok Hirows].
    pose proof (push_delete_vector _ _ _ _ _ Hpush) as Hv. exists info. split; [done|].
    assert (forall row, (~ entry_row info row /\ row_delete_id m' row = row_delete_id m row) \/
      (entry_row info row /\ row_delete_id m row = NOT_DELETED_ID /\ row_delete_id m' row = tid) \/
      (row_delete_id m row = tid /\ row_delete_id m' row = tid)) as Hstep.
    { intros row. destruct (decide ((row / STANDARD_VECTOR_SIZE)%nat = v)) as [He|Hne].
      2: { left. rewrite Ho by done. split; [|done]. intros [He _]. congruence. }
      unfold entry_row. rewrite Hv, Hirows, (eff_rows _ _ _ _ _ _ _ Heff).
      pose proof (row_position row) as [Hi _]. pose proof (eff_ids _ _ _ _ _ _ _ Heff _ Hi) as Hid.
      unfold row_delete_id. rewrite He. rewrite Hid. case_decide as Hm; [|left; tauto].
      pose proof Hm as (k & Hk & _ & Hat)%elem_row_at. specialize (Hdel k Hk). rewrite Hat in Hdel.
      unfold deletable_row in Hdel. apply orb_true_iff in Hdel as [Ht%Z.eqb_eq|Hn%Z.eqb_eq]; tauto. }
    split.
    + split; [done|by constructor| |done]. intros row. unfold undo_row. rewrite Exists_cons.
      fold (undo_row undo row). specialize (Hrows row). specialize (base_other row).
      destruct (Hstep row) as [[? ->]|[(? & Hn & ->)|(Ht & ->)]]; [tauto| |];
        right; destruct Hrows as [[? Hb]|(? & ? & ?)]; split_and!; try tauto; congruence.
    + intros ->. split; [done|done| |done]. intros row. specialize (Hrows row). specialize (base_other row).
      destruct (Hstep row) as [[? ->]|[([_ He] & _)|(Ht & ->)]]; [done| |].
      * rewrite Hirows, take_0 in He. by apply not_elem_of_nil in He.
      * right. destruct Hrows as [[? Hb]|(? & ? & ?)]; [congruence|]. split_and!; [done|done|by left].
  - destruct Hr as (-> & _ & Hids). split; [done|]. split; [done|done| |done]. intros row.
    assert (forall P, (row_delete_id m row = tid \/ clean = false /\ P) -> row_delete_id m row = tid \/ false = false /\ P)
      as Hweak by tauto.
    destruct (decide ((row / STANDARD_VECTOR_SIZE)%nat = v)) as [<-|Hv];
      [|rewrite Ho by done; destruct (Hrows row) as [?|(? & ? & ?)]; [by left|right; auto]].
    pose proof (row_position row) as [Hi _]. specialize (Hids _ Hi).
    change (ChunkVectorInfo.delete_id (info_at (row / STANDARD_VECTOR_SIZE) m') (row mod STANDARD_VECTOR_SIZE))
      with (row_delete_id m' row) in Hids.
    change (ChunkVectorInfo.delete_id (info_at (row / STANDARD_VECTOR_SIZE) m) (row mod STANDARD_VECTOR_SIZE))
      with (row_delete_id m row) in Hids.
    destruct Hids as [->|(_ & Ht & ->)]; [destruct (Hrows row) as [?|(? & ? & ?)]; [by left|right; auto]|]. right.
    destruct (Hrows row) as [[_ Hb]|(? & ? & _)]; [by destruct (base_other row); congruence|].
    split_and!; [done|done|by right].
Qed.

(** The buffer of a statement: the pending rows belong to the current vector. *)
Record buffered (st : VersionDeleteState.t) : Prop := {
  buf_length : length (VersionDeleteState.rows st) = STANDARD_VECTOR_SIZE;
  buf_count : (VersionDeleteState.count st <= STANDARD_VECTOR_SIZE)%nat;
  buf_rows : forall k, (k < VersionDeleteState.count st)%nat ->
             (row_at (VersionDeleteState.rows st) k < STANDARD_VECTOR_SIZE)%nat
}.

Definition undoable_state (clean : bool) (st : VersionDeleteState.t) : Prop :=
  undoable clean (VersionDeleteState.manager st) (VersionDeleteState.undo st).

Lemma undoable_ok clean (r : result unit) a st : r = Ok a -> undoable_state clean st -> undoable_state (clean && is_ok r) st.
Proof. intros ->. cbn. by rewrite andb_true_r. Qed.

Lemma undoable_throw clean (r : result unit) e st :
  r = Throw e -> undoable_state false st -> undoable_state (clean && is_ok r) st.
Proof. intros ->. cbn. by rewrite andb_false_r. Qed.

Lemma flush_undoable clean st st' r :
  undoable_state clean st -> buffered st -> VersionDeleteState.Flush tid base_row st = (st', r) ->
  undoable_state (clean && is_ok r) st' /\
  match r with
  | Ok _ => buffered st' /\ VersionDeleteState.count st' = 0%nat
  | Throw e => e = ChunkVectorInfo.conflict
  end.
Proof.
  intros Hu [Hl Hc Hr]. unfold VersionDeleteState.Flush.
  destruct (Nat.eqb_spec (VersionDeleteState.count st) 0) as [H0|H0].
  { intros [= <- <-]. split; [by eapply undoable_ok|]. by split. }
  assert (0 < VersionDeleteState.count st <= length (VersionDeleteState.rows st))%nat as Hcl by lia.
  destruct (DeleteRows _ _ _ _ _) as [[m' rows'] r0] eqn:Heq.
  pose proof (undoable_delete _ _ _ _ _ _ _ _ _ Hu Hcl Hr Heq) as Hstep.
  assert (length rows' = STANDARD_VECTOR_SIZE) as Hl'.
  { pose proof (delete_rows_manager (default 0%nat (VersionDeleteState.current_chunk st)) tid
      (VersionDeleteState.rows st) (VersionDeleteState.count st) _ (und_wf _ _ _ Hu) tid_id Hcl Hr) as Hout.
    rewrite Heq in Hout. destruct Hout as (_ & _ & _ & _ & Hlr & _). congruence. }
  destruct r0 as [n|e]; [|intros [= <- <-]; destruct Hstep; split; [by eapply undoable_throw|done]].
  cbn [VersionDeleteState.undo VersionDeleteState.chunk_row].
  destruct (Hstep (base_row + VersionDeleteState.chunk_row st)) as (info & -> & Hinfo & Hnone).
  destruct (Nat.ltb_spec 0 n); intros [= <- <-]; split; try (by eapply undoable_ok).
  - split; [|done]. split; cbn; [done|lia|lia].
  - eapply undoable_ok, Hnone; [done|lia].
  - split; [|done]. split; cbn; [done|lia|lia].
Qed.

Lemma delete_undoable clean id st st' r :
  undoable_state clean st -> buffered st -> (VersionDeleteState.count st < STANDARD_VECTOR_SIZE)%nat ->
  VersionDeleteState.Delete tid base_row id st = (st', r) ->
  undoable_state (clean && is_ok r) st' /\
  match r with
  | Ok _ => buffered st' /\ (VersionDeleteState.count st' <= S (VersionDeleteState.count st))%nat
  | Throw e => e = ChunkVectorInfo.conflict
  end.
Proof.
  intros Hu Hb Hlt. unfold VersionDeleteState.Delete. cbv zeta.
  pose proof (row_position id) as [Hpos Heq].
  assert (forall st1, undoable_state clean st1 -> buffered st1 ->
    (VersionDeleteState.count st1 <= VersionDeleteState.count st)%nat ->
    let st2 := VersionDeleteState.mk (VersionDeleteState.manager st1) (VersionDeleteState.current_chunk st1)
      (<[VersionDeleteState.count st1 := (id - id / STANDARD_VECTOR_SIZE * STANDARD_VECTOR_SIZE)%nat]>
         (VersionDeleteState.rows st1)) (S (VersionDeleteState.count st1)) (VersionDeleteState.chunk_row st1)
      (VersionDeleteState.delete_count st1) (VersionDeleteState.undo st1) in
    undoable_state (clean && is_ok (Ok tt)) st2 /\ buffered st2 /\
    (VersionDeleteState.count st2 <= S (VersionDeleteState.count st))%nat) as Hpush.
  { intros st1 Hu1 [Hl Hc Hr] Hle. cbv zeta. split; [by eapply (undoable_ok _ (Ok tt))|]. split; [|cbn; lia].
    split; cbn; [by rewrite length_insert|lia|]. intros k Hk. unfold row_at. rewrite nth_lookup.
    destruct (decide (k = VersionDeleteState.count st1)) as [->|].
    - rewrite list_lookup_insert_eq by lia. cbn. lia.
    - rewrite list_lookup_insert_ne, <- nth_lookup by done. apply Hr. lia. }
  case_decide.
  { intros [= <- <-]. apply Hpush; [done|done|lia]. }
  destruct (VersionDeleteState.Flush tid base_row st) as [st1 r1] eqn:Hf.
  destruct (flush_undoable _ _ _ _ Hu Hb Hf) as [Hu1 Hr1].
  destruct r1 as [u|e]; intros [= <- <-]; [|done]. cbn [is_ok] in Hu1. rewrite andb_true_r in Hu1. destruct Hr1 as [[Hl Hc Hr] Hz].
  apply (Hpush (VersionDeleteState.mk (VersionDeleteState.manager st1)
    (Some (id / STANDARD_VECTOR_SIZE)%nat) (VersionDeleteState.rows st1) (VersionDeleteState.count st1)
    (vector_start_row (id / STANDARD_VECTOR_SIZE)) (VersionDeleteState.delete_count st1)
    (VersionDeleteState.undo st1))); [done|by split|cbn; lia].
Qed.

Lemma delete_ids_undoable clean ids st st' r :
  undoable_state clean st -> buffered st ->
  (VersionDeleteState.count st + length ids <= STANDARD_VECTOR_SIZE)%nat ->
  VersionDeleteState.delete_ids tid base_row ids st = (st', r) ->
  undoable_state (clean && is_ok r) st' /\
  match r with
  | Ok _ => buffered st'
  | Throw e => e = ChunkVectorInfo.conflict
  end.
Proof.
  revert st. induction ids as [|id ids IH]; intros st Hu Hb Hlen; cbn [VersionDeleteState.delete_ids].
  { intros [= <- <-]. by split; [eapply undoable_ok|]. }
  cbn [length] in Hlen. destruct (VersionDeleteState.Delete tid base_row id st) as [st1 r1] eqn:Hd.
  destruct (delete_undoable clean id st st1 r1 Hu Hb ltac:(lia) Hd) as [Hu1 Hr1].
  destruct r1; [|by intros [= <- <-]]. destruct Hr1 as [Hb1 Hc1].
  cbn [is_ok] in Hu1. rewrite andb_true_r in Hu1. apply IH; [done|done|lia].
Qed.

(** A delete statement of at most one vector of row ids, whatever its outcome. *)
Lemma row_group_delete_undoable clean ids m undo st r :
  undoable clean m undo -> (length ids <= STANDARD_VECTOR_SIZE)%nat ->
  VersionDeleteState.RowGroupDelete tid base_row ids m undo = (st, r) ->
  undoable_state (clean && is_ok r) st /\ match r with Ok _ => True | Throw e => e = ChunkVectorInfo.conflict end.
Proof.
  intros Hu Hlen. unfold VersionDeleteState.RowGroupDelete. cbv zeta.
  destruct (VersionDeleteState.delete_ids _ _ _ _) as [st1 r1] eqn:Hd.
  apply (delete_ids_undoable clean) in Hd as [Hu1 Hr1]; [|done| |cbn; lia].
  2: { split; cbn; [apply length_replicate|lia|lia]. }
  destruct r1; [|by intros [= <- <-]]. cbn [is_ok] in Hu1. rewrite andb_true_r in Hu1.
  destruct (VersionDeleteState.Flush tid base_row st1) as [st2 r2] eqn:Hf.
  destruct (flush_undoable _ _ _ _ Hu1 Hr1 Hf) as [Hu2 Hr2].
  intros [= <- <-]. by destruct r2.
Qed.

(** Rolling back gives every row the delete id it had before the transaction. *)
Lemma undoable_rollback clean m undo :
  undoable clean m undo ->
  exists m', VersionDeleteState.Rollback undo m = Ok m' /\ wf_manager m' /\
    forall row, row_delete_id m' row = base row /\ row_insert_id m' row = inserts row.
Proof.
  intros [Hwf Hok Hrows Hi]. destruct (rollback_rows undo m Hwf Hok) as (m' & -> & Hwf' & Hins & Hdel).
  exists m'. split_and!; [done|done|]. intros row. rewrite Hdel, Hins. split; [|apply Hi].
  case_decide; destruct (Hrows row) as [[? ?]|(? & ? & _)]; congruence || done.
Qed.

(** The delete statements of a transaction, up to and including the first one that fails. *)
Fixpoint run_statements (stmts : list (list nat)) (m : t) (undo : list DeleteInfo) : t * list DeleteInfo :=
  match stmts with
  | [] => (m, undo)
  | ids :: rest =>
      let '(st, r) := VersionDeleteState.RowGroupDelete tid base_row ids m undo in
      match r with
      | Ok _ => run_statements rest (VersionDeleteState.manager st) (VersionDeleteState.undo st)
      | Throw _ => (VersionDeleteState.manager st, VersionDeleteState.undo st)
      end
  end.

Lemma run_statements_undoable clean stmts m undo m' undo' :
  undoable clean m undo -> Forall (fun ids => (length ids <= STANDARD_VECTOR_SIZE)%nat) stmts ->
  run_statements stmts m undo = (m', undo') -> exists clean', undoable clean' m' undo'.
Proof.
  intros Hu Hf. revert clean m undo Hu. induction Hf as [|ids rest Hlen _ IH]; intros clean m undo Hu; cbn [run_statements].
  - intros [= <- <-]. by exists clean.
  - destruct (VersionDeleteState.RowGroupDelete _ _ _ _ _) as [st r] eqn:Hd.
    destruct (row_group_delete_undoable _ ids m undo st r Hu Hlen Hd) as [Hst _].
    destruct r; [by eapply IH|intros [= <- <-]; eauto].
Qed.

(** Before the first statement. *)
Lemma undoable_start m :
  wf_manager m -> (forall row, row_delete_id m row = base row) -> (forall row, row_insert_id m row = inserts row) ->
  undoable true m [].
Proof.
  intros Hwf Hb Hi. split; [done|done| |done]. intros row. left. split; [by intros ?%Exists_nil|done].
Qed.
End Statement.

(** ** The rows a delete statement deletes *)

Section StatementRows.
Context (tid base_row : Z) (m0 : t).
Hypothesis tid_id : tid <> NOT_DELETED_ID.

(** The buffered rows. *)
Definition pending (st : VersionDeleteState.t) (row : nat) : Prop :=
  VersionDeleteState.current_chunk st = Some (row / STANDARD_VECTOR_SIZE)%nat /\
  (row mod STANDARD_VECTOR_SIZE)%nat ∈ take (VersionDeleteState.count st) (VersionDeleteState.rows st).

(** After the row ids [seen], the rows flushed are deleted by [tid] and the others are pending. *)
Record statement_rows (seen : list nat) (st : VersionDeleteState.t) : Prop := {
  stm_wf : wf_manager (VersionDeleteState.manager st);
  stm_buf : buffered st;
  stm_chunk : (0 < VersionDeleteState.count st)%nat -> VersionDeleteState.current_chunk st <> None;
  stm_rows : exists flushed : list nat,
    (forall row, row ∈ seen <-> row ∈ flushed \/ pending st row) /\
    forall row, row_delete_id (VersionDeleteState.manager st) row
      = if decide (row ∈ flushed) then tid else row_delete_id m0 row
}.

Lemma flush_rows seen st st' :
  statement_rows seen st -> VersionDeleteState.Flush tid base_row st = (st', Ok tt) ->
  statement_rows seen st' /\ VersionDeleteState.count st' = 0%nat.
Proof.
  intros [Hwf [Hl Hc Hr] Hch (flushed & Hseen & Hids)]. unfold VersionDeleteState.Flush.
  destruct (Nat.eqb_spec (VersionDeleteState.count st) 0) as [H0|H0].
  { intros [= <-]. split; [|done]. split; [done|by split|lia|by exists flushed]. }
  destruct (VersionDeleteState.current_chunk st) as [v|] eqn:Hv; [|by destruct Hch; [lia|]].
  change (default 0%nat (Some v)) with v.
  destruct (DeleteRows v tid _ _ _) as [[m' rows'] r] eqn:Heq.
  pose proof (delete_rows_manager v tid (VersionDeleteState.rows st) (VersionDeleteState.count st) _
    Hwf tid_id ltac:(lia) Hr) as Hout.
  rewrite Heq in Hout. destruct Hout as (Hwf' & Hother & _ & _ & Hlr & Hres).
  destruct r as [n|e]; [|by intros [= ]]. destruct Hres as [_ Heff].
  assert (forall row, row_delete_id m' row = if decide (pending st row) then tid
    else row_delete_id (VersionDeleteState.manager st) row) as Hdel.
  { intros row. unfold row_delete_id, pending. rewrite Hv.
    destruct (decide (v = (row / STANDARD_VECTOR_SIZE)%nat)) as [->|Hne].
    - pose proof (row_position row) as [Hi _]. rewrite (eff_ids _ _ _ _ _ _ _ Heff _ Hi).
      repeat case_decide; naive_solver.
    - rewrite Hother by done. rewrite decide_False; [done|]. intros [? _]. congruence. }
  assert (forall dc undo', statement_rows seen (VersionDeleteState.mk m' (Some v) rows' 0
            (VersionDeleteState.chunk_row st) dc undo')) as Hst.
  { intros dc undo'. split; cbn; [done|split; cbn; [congruence|lia|lia]|lia|].
    exists (flushed ++ filter (fun row => pending st row) seen). split.
    - intros row. rewrite elem_of_app, list_elem_of_filter, Hseen. unfold pending at 4. cbn.
      split; [|by intros [[?|[_ ?]]|[_ ?%not_elem_of_nil]]; auto].
      intros [?|Hp]; left; [by left|right]. split; [done|]. by right.
    - intros row. rewrite Hdel, Hids. repeat case_decide; try done;
        rewrite elem_of_app, list_elem_of_filter, Hseen in *; tauto. }
  destruct (0 <? n)%nat; [destruct (PushDelete _ _ _ _)|]; intros [= <-]; (split; [apply Hst|done]).
Qed.

(** Buffering the row [id] in the vector that is being collected. *)
Lemma buffer_row seen st id :
  statement_rows seen st -> (VersionDeleteState.count st < STANDARD_VECTOR_SIZE)%nat ->
  VersionDeleteState.current_chunk st = Some (id / STANDARD_VECTOR_SIZE)%nat ->
  statement_rows (seen ++ [id])
    (VersionDeleteState.mk (VersionDeleteState.manager st) (VersionDeleteState.current_chunk st)
      (<[VersionDeleteState.count st := (id - id / STANDARD_VECTOR_SIZE * STANDARD_VECTOR_SIZE)%nat]>
         (VersionDeleteState.rows st)) (S (VersionDeleteState.count st)) (VersionDeleteState.chunk_row st)
      (VersionDeleteState.delete_count st) (VersionDeleteState.undo st)).
Proof.
  intros [Hwf [Hl Hc Hr] Hch (flushed & Hseen & Hids)] Hlt Hchunk.
  pose proof (row_position id) as [Hpos Heq].
  assert (id - id / STANDARD_VECTOR_SIZE * STANDARD_VECTOR_SIZE = id mod STANDARD_VECTOR_SIZE)%nat as -> by lia.
  split; cbn; [done| |by rewrite Hchunk|].
  - split; cbn; [by rewrite length_insert|lia|]. intros k Hk. unfold row_at. rewrite nth_lookup.
    destruct (decide (k = VersionDeleteState.count st)) as [->|].
    + by rewrite list_lookup_insert_eq by lia.
    + rewrite list_lookup_insert_ne, <- nth_lookup by done. apply Hr. lia.
  - exists flushed. split; [|done]. intros row.
    rewrite elem_of_app, list_elem_of_singleton, Hseen. unfold pending. cbn.
    rewrite (take_S_r _ _ (id mod STANDARD_VECTOR_SIZE)%nat) by (apply list_lookup_insert_eq; lia).
    rewrite take_insert_ge, elem_of_app, list_elem_of_singleton by lia. rewrite Hchunk.
    split; [|intros [?|[[= Hv] [?|Hm]]]; [by auto|by left; right; rewrite Hv|]].
    + intros [[?|[[= Hv] ?]]| ->]; [by left|right; split; [by rewrite Hv|by left]|by right; split; [|right]].
    + right. pose proof (row_position row) as [_ Hrow]. rewrite Hrow, Heq, Hv, Hm. done.
Qed.

Lemma delete_rows_of seen st st' id :
  statement_rows seen st -> (VersionDeleteState.count st < STANDARD_VECTOR_SIZE)%nat ->
  VersionDeleteState.Delete tid base_row id st = (st', Ok tt) ->
  statement_rows (seen ++ [id]) st' /\
  (VersionDeleteState.count st' <= S (VersionDeleteState.count st))%nat.
Proof.
  intros Hst Hlt. unfold VersionDeleteState.Delete. cbv zeta. case_decide as Hch.
  { intros [= <-]. split; [by apply buffer_row|cbn; lia]. }
  destruct (VersionDeleteState.Flush tid base_row st) as [st1 r1] eqn:Hf.
  destruct r1 as [[]|]; [|by intros [= ]]. destruct (flush_rows _ _ _ Hst Hf) as [[Hwf Hb Hc1 Hrows] Hz].
  intros [= <-]. split; [|cbn; lia].
  apply (buffer_row seen (VersionDeleteState.mk (VersionDeleteState.manager st1)
    (Some (id / STANDARD_VECTOR_SIZE)%nat) (VersionDeleteState.rows st1) (VersionDeleteState.count st1)
    (vector_start_row (id / STANDARD_VECTOR_SIZE)) (VersionDeleteState.delete_count st1)
    (VersionDeleteState.undo st1))); [|cbn; lia|done].
  split; cbn; [done|destruct Hb; by split|done|]. destruct Hrows as (flushed & Hseen & Hids).
  exists flushed. split; [|done]. intros row. rewrite Hseen. unfold pending. cbn. rewrite Hz, !take_0.
  split; (intros [?|[_ ?%not_elem_of_nil]]; [by left|done]).
Qed.

Lemma delete_ids_rows ids seen st st' :
  statement_rows seen st -> (VersionDeleteState.count st + length ids <= STANDARD_VECTOR_SIZE)%nat ->
  VersionDeleteState.delete_ids tid base_row ids st = (st', Ok tt) -> statement_rows (seen ++ ids) st'.
Proof.
  revert seen st. induction ids as [|id ids IH]; intros seen st Hst Hlen; cbn [VersionDeleteState.delete_ids].
  { intros [= <-]. by rewrite app_nil_r. }
  cbn [length] in Hlen. destruct (VersionDeleteState.Delete tid base_row id st) as [st1 [[]|]] eqn:Hd;
    [|by intros [= ]].
  destruct (delete_rows_of seen st st1 id Hst ltac:(lia) Hd) as [Hst1 Hc1].
  intros Hrest. specialize (IH (seen ++ [id]) st1 Hst1 ltac:(lia) Hrest). by rewrite <- app_assoc in IH.
Qed.

Lemma row_group_delete_rows ids undo st n :
  wf_manager m0 -> (length ids <= STANDARD_VECTOR_SIZE)%nat ->
  VersionDeleteState.RowGroupDelete tid base_row ids m0 undo = (st, Ok n) ->
  wf_manager (VersionDeleteState.manager st) /\
  forall row, row_delete_id (VersionDeleteState.manager st) row
    = if decide (row ∈ ids) then tid else row_delete_id m0 row.
Proof.
  intros Hwf Hlen. unfold VersionDeleteState.RowGroupDelete. cbv zeta.
  destruct (VersionDeleteState.delete_ids _ _ _ _) as [st1 r1] eqn:Hd. destruct r1 as [[]|]; [|by intros [= ]].
  apply (delete_ids_rows ids []) in Hd; [| |cbn; lia].
  2: { split; cbn; [done|split; cbn; [apply length_replicate|lia|lia]|lia|]. exists []. split; [|done].
       intros row. unfold pending. cbn. split; [by intros ?%not_elem_of_nil|].
       by intros [?%not_elem_of_nil|[? ?]]. }
  destruct (VersionDeleteState.Flush tid base_row st1) as [st2 r2] eqn:Hf.
  destruct r2 as [[]|]; [|by intros [= ]]. intros [= <- _].
  destruct (flush_rows _ _ _ Hd Hf) as [[Hwf2 _ _ (flushed & Hseen & Hids)] Hz].
  split; [done|]. intros row. rewrite Hids.
  assert (row ∈ flushed <-> row ∈ ids) as Hiff.
  { rewrite (Hseen row). unfold pending. rewrite Hz, take_0. split; [by left|].
    by intros [?|[_ ?%not_elem_of_nil]]. }
  repeat case_decide; tauto || done.
Qed.

End StatementRows.

(** ** The delete statements of a transaction that commits *)

Section TransactionRows.
Context (tid base_row : Z) (m0 : t).
Hypothesis tid_id : tid <> NOT_DELETED_ID.
Hypothesis fresh : forall row, row_delete_id m0 row <> tid.
Hypothesis vector_16 : Z.of_nat STANDARD_VECTOR_SIZE <= 2 ^ 16.

(** The statements, when all of them succeed. *)
Fixpoint run_all (stmts : list (list nat)) (m : t) (undo : list DeleteInfo) : option (t * list DeleteInfo) :=
  match stmts with
  | [] => Some (m, undo)
  | ids :: rest =>
      match VersionDeleteState.RowGroupDelete tid base_row ids m undo with
      | (st, Ok _) => run_all rest (VersionDeleteState.manager st) (VersionDeleteState.undo st)
      | (_, Throw _) => None
      end
  end.

Lemma run_all_rows stmts m undo m' undo' :
  undoable tid (row_delete_id m0) (row_insert_id m0) true m undo ->
  Forall (fun ids => (length ids <= STANDARD_VECTOR_SIZE)%nat) stmts ->
  run_all stmts m undo = Some (m', undo') ->
  undoable tid (row_delete_id m0) (row_insert_id m0) true m' undo' /\
  forall row, row_delete_id m' row = if decide (row ∈ concat stmts) then tid else row_delete_id m row.
Proof.
  intros Hu Hf. revert m undo Hu. induction Hf as [|ids rest Hlen _ IH]; intros m undo Hu; cbn [run_all concat].
  - intros [= <- <-]. split; [done|]. intros row. by rewrite decide_False by apply not_elem_of_nil.
  - destruct (VersionDeleteState.RowGroupDelete _ _ _ _ _) as [st [n|e]] eqn:Hd; [|done].
    destruct (row_group_delete_undoable _ base_row _ _ tid_id fresh vector_16 true ids m undo st (Ok n) Hu Hlen Hd) as [Hst _].
    destruct (row_group_delete_rows _ _ _ tid_id ids undo st n (und_wf _ _ _ _ _ _ Hu) Hlen Hd) as [_ Hrows].
    intros Hrest. destruct (IH _ _ Hst Hrest) as [Hu' Hids]. split; [done|]. intros row. rewrite Hids, Hrows.
    repeat case_decide; rewrite ?elem_of_app in *; tauto || done.
Qed.

(** Committing them: the rows they name, all of which were alive, get the commit id. *)
Lemma transaction_commit stmts m undo commit_id :
  wf_manager m0 -> Forall (fun ids => (length ids <= STANDARD_VECTOR_SIZE)%nat) stmts ->
  run_all stmts m0 [] = Some (m, undo) ->
  exists m', VersionDeleteState.Commit commit_id undo m = Ok m' /\
    wf_manager m' /\
    (forall row, row_insert_id m' row = row_insert_id m0 row) /\
    (forall row, row ∈ concat stmts -> row_delete_id m0 row = NOT_DELETED_ID) /\
    forall row, row_delete_id m' row = if decide (row ∈ concat stmts) then commit_id else row_delete_id m0 row.
Proof.
  intros Hwf Hlen Hrun.
  destruct (run_all_rows stmts m0 [] m undo) as [Hu Hrows]; [by apply undoable_start|done..|].
  destruct (commit_rows commit_id undo m (und_wf _ _ _ _ _ _ Hu) (und_ok _ _ _ _ _ _ Hu)) as (m' & Hc & Hwf' & Hins & Hdel).
  exists m'. split_and!; [done|done| | |].
  - intros row. rewrite Hins. apply Hu.
  - intros row Hin. specialize (Hrows row). rewrite decide_True in Hrows by done.
    destruct (und_rows _ _ _ _ _ _ Hu row) as [[_ Hb]|(_ & ? & _)]; [|done]. by destruct (fresh row); congruence.
  - intros row. rewrite Hdel. specialize (Hrows row). specialize (fresh row).
    pose proof (und_rows _ _ _ _ _ _ Hu row) as Hund.
    destruct (decide (row ∈ concat stmts)) as [Hin|Hin], (decide (undo_row _ row)) as [Hr|Hr]; try done.
    + destruct Hund as [[_ Hb]|(? & _)]; [congruence|done].
    + destruct Hund as [[? _]|(_ & _ & [?|[? _]])]; [done|congruence|done].
Qed.
End TransactionRows.

(** ** Compression *)

(** Two tables of vectors hold ids that views bounded by [lowest] or above treat alike. *)
Definition settled_infos (lowest : VisibilityBound.t) : relation (list (option ChunkVectorInfo.t)) :=
  Forall2 (fun oc oc' => match oc, oc' with
    | None, None => True
    | Some c, Some c' => ChunkVectorInfo.wf c' /\ settled_ids lowest c c'
    | _, _ => False
    end).

Lemma compress_infos_settled lowest infos :
  0 < VisibilityBound.value lowest ->
  (forall v c, infos !! v = Some (Some c) -> ChunkVectorInfo.wf c) ->
  exists infos' p, compress_infos lowest infos = Ok (infos', p) /\ settled_infos lowest infos infos'.
Proof.
  intros Hlow. induction infos as [|[c|] infos IH]; intros Hwf; cbn [compress_infos].
  - eexists _, _. split; [done|constructor].
  - destruct (compress_version_ids lowest c (Hwf 0%nat c eq_refl) Hlow) as (c' & r & -> & ? & ? & _).
    cbn [mbind result_bind].
    destruct IH as (infos' & p & -> & ?); [intros v c0; apply (Hwf (S v))|].
    eexists _, _. split; [done|]. by constructor.
  - destruct IH as (infos' & p & -> & ?); [intros v c0; apply (Hwf (S v))|].
    eexists _, _. split; [done|]. by constructor.
Qed.

Lemma wf_manager_lookup m v c : wf_manager m -> vector_info m !! v = Some (Some c) -> ChunkVectorInfo.wf c.
Proof. intros Hm Hv. apply (Hm v). unfold GetChunkInfo. by rewrite Hv. Qed.

Lemma compress_manager lowest m :
  wf_manager m -> 0 < VisibilityBound.value lowest ->
  exists m', CompressVersionIds lowest m = Ok m' /\ wf_manager m' /\
    forall view row, VisibilityBound.value lowest <= VisibilityBound.value (visibility_bound view) ->
      row_visible view m' row = row_visible view m row.
Proof.
  intros Hm Hlow. unfold CompressVersionIds. destruct (needs_compression_check m); cbn [negb].
  2: { by exists m. }
  destruct (compress_infos_settled lowest (vector_info m) Hlow) as (infos & p & -> & Hs).
  { intros v c. by apply wf_manager_lookup. }
  cbn [mbind result_bind]. eexists. split; [done|].
  assert (forall v, match GetChunkInfo v m, GetChunkInfo v (set_needs_check p (set_vector_info infos m)) with
    | None, None => True | Some c, Some c' => ChunkVectorInfo.wf c' /\ settled_ids lowest c c'
    | _, _ => False end) as Hv.
  { intros v. unfold GetChunkInfo. cbn.
    destruct (vector_info m !! v) as [oc|] eqn:E.
    - destruct (Forall2_lookup_l _ _ _ _ _ Hs E) as (oc' & -> & Hoc). by destruct oc, oc'.
    - rewrite lookup_ge_None_2; [done|]. apply lookup_ge_None in E. by rewrite <- (Forall2_length _ _ _ Hs). }
  split.
  - intros v c Hc. specialize (Hv v). rewrite Hc in Hv. destruct (GetChunkInfo v m); [by destruct Hv|done].
  - intros view row Hb. unfold row_visible. specialize (Hv (row / STANDARD_VECTOR_SIZE)%nat).
    destruct (GetChunkInfo _ m), (GetChunkInfo _ _); try done. destruct Hv as [_ Hv].
    apply (settled_visible lowest); [done|apply row_position|done].
Qed.

(** ** Checkpoints *)

Lemma has_deletes_total bound c :
  ChunkVectorInfo.wf c -> exists b, ChunkVectorInfo.HasDeletes bound c = Ok b.
Proof.
  intros Hwf. unfold ChunkVectorInfo.HasDeletes, ChunkVectorInfo.AnyDeleted, ChunkVectorInfo.ConstantDeleteId,
    ChunkVectorInfo.GetDeletedPointer, ChunkVectorInfo.HasConstantDeleteId.
  case_match; [by eexists|]. destruct (ChunkVectorInfo.delete_state c); cbn [mbind result_bind mret result_ret];
    repeat case_match; by eexists.
Qed.

Lemma to_serialize_entries bound infos k :
  (forall v c, infos !! v = Some (Some c) -> ChunkVectorInfo.wf c) ->
  exists entries, to_serialize bound k infos = Ok entries /\ NoDup entries.*1 /\
    (forall v c, (v, c) ∈ entries -> (k <= v)%nat /\ infos !! (v - k)%nat = Some (Some c)) /\
    (forall v c, infos !! v = Some (Some c) -> ((k + v)%nat, c) ∈ entries \/
       ((k + v)%nat ∉ entries.*1 /\ ChunkVectorInfo.HasDeletes bound c = Ok false)).
Proof.
  revert k. induction infos as [|oc infos IH]; intros k Hwf; cbn [to_serialize].
  { exists []. split_and!; [done|constructor|by intros v c ?%not_elem_of_nil|done]. }
  destruct (IH (S k)) as (entries & Heq & Hnd & Hin & Hall); [intros v c; apply (Hwf (S v))|].
  assert (k ∉ entries.*1) as Hk.
  { intros ((v & c) & -> & Hvc)%list_elem_of_fmap. apply Hin in Hvc as [? _]. cbn in *. lia. }
  assert (forall v c, (v, c) ∈ entries -> (k <= v)%nat /\ (oc :: infos) !! (v - k)%nat = Some (Some c)) as Hin'.
  { intros v c [Hv Hl]%Hin. split; [lia|]. replace (v - k)%nat with (S (v - S k)) by lia. done. }
  assert (forall v c, infos !! v = Some (Some c) -> ((k + S v)%nat, c) ∈ entries \/
    ((k + S v)%nat ∉ entries.*1 /\ ChunkVectorInfo.HasDeletes bound c = Ok false)) as Hall'.
  { intros v c Hv. replace (k + S v)%nat with (S k + v)%nat by lia. by apply Hall. }
  destruct oc as [c0|].
  - destruct (has_deletes_total bound c0 (Hwf 0%nat c0 eq_refl)) as [b Hb]. rewrite Hb, Heq.
    cbn [mbind result_bind mret result_ret]. eexists. split; [done|]. destruct b.
    + split; [by constructor|]. split.
      * intros v c [[= -> ->]|Hvc]%elem_of_cons; [|by apply Hin']. split; [lia|]. by rewrite Nat.sub_diag.
      * intros [|v] c Hv; [injection Hv as ->; left; rewrite Nat.add_0_r; by left|].
        cbn in Hv. destruct (Hall' v c Hv) as [?|[? ?]]; [left; by right|]. right. split; [|done].
        cbn. rewrite not_elem_of_cons. split; [lia|done].
    + split; [done|]. split; [done|]. intros [|v] c Hv; [|by apply Hall'].
      injection Hv as ->. right. by rewrite Nat.add_0_r.
  - rewrite Heq. eexists. split; [done|]. split_and!; [done|done|].
    intros [|v] c Hv; [done|by apply Hall'].
Qed.

(** A vector index that [Deserialize] accepts. *)
Definition index_ok (v : nat) : Prop := Z.of_nat v * Z.of_nat STANDARD_VECTOR_SIZE < MAX_ROW_GROUP_SIZE.

Lemma index_ok_bounds v : index_ok v ->
  0 <= Z.of_nat v < 256 ^ Z.of_nat 8 /\
  (MAX_ROW_GROUP_SIZE <=? u64 (Z.of_nat v * Z.of_nat STANDARD_VECTOR_SIZE)) = false.
Proof.
  unfold index_ok. pose proof vector_size_pos. intros Hv.
  assert (MAX_ROW_GROUP_SIZE = 1073741824) as HM by reflexivity. rewrite HM in *.
  split; [split; [lia|]; change (256 ^ Z.of_nat 8) with 18446744073709551616; nia|].
  rewrite wrapu_small by (unfold in_u; change (2 ^ 64) with 18446744073709551616; nia).
  apply Z.leb_gt. lia.
Qed.

Lemma read_written_infos bound entries m rest :
  HidesNotDeleted (ChunkVectorInfo.write_view bound) -> Z.of_nat STANDARD_VECTOR_SIZE < 2 ^ 32 ->
  NoDup entries.*1 -> wf_manager m ->
  Forall (fun '(v, c) => index_ok v /\ ChunkVectorInfo.wf c /\ in_u 64 (ChunkVectorInfo.start c)) entries ->
  exists bytes m', write_infos bound entries = Ok bytes /\
    read_infos (length entries) (bytes ++ rest) m = Ok (m', rest) /\ wf_manager m' /\
    (forall v c, (v, c) ∈ entries -> reads_as bound c (GetChunkInfo v m')) /\
    (forall v, v ∉ entries.*1 -> GetChunkInfo v m' = GetChunkInfo v m).
Proof.
  intros Hh H32. revert m. induction entries as [|[v c] entries IH]; intros m Hnd Hm Hok; cbn [write_infos].
  { exists [], m. split_and!; try done. by intros v c ?%not_elem_of_nil. }
  inversion_clear Hnd as [|?? Hv Hnd']. inversion_clear Hok as [|?? Hhd Hok'].
  cbv beta iota in Hhd. destruct Hhd as (Hidx & Hwf & Hs).
  destruct (write_read bound c Hwf Hh Hs H32) as (b1 & -> & Hread). cbn [mbind result_bind].
  set (fill := FillVectorInfo v).
  assert (forall oc, reads_as bound c oc ->
     forall m1, wf_manager m1 -> wf_manager (set_info v oc (fill m1))) as Hwf1.
  { intros oc Hoc m1 Hm1 w c'. subst fill. rewrite get_chunk_info_set, get_chunk_info_fill by apply length_fill.
    case_decide; [|apply Hm1]. intros ->. by destruct Hoc. }
  destruct (write_infos bound entries) as [b2|] eqn:Hw2; cbn [mbind result_bind mret result_ret].
  2: { by destruct (IH m Hnd' Hm Hok') as (? & ? & ? & _). }
  destruct (Hread (b2 ++ rest)) as (oc & Hoc & Hras).
  set (m1 := set_info v oc (match oc with
     | Some c1 => if ChunkVectorInfo.recheck_compression c1 then set_needs_check true (fill m) else fill m
     | None => fill m end)).
  assert (wf_manager m1) as Hm1.
  { subst m1. destruct oc as [c1|]; [destruct (ChunkVectorInfo.recheck_compression c1)|];
      apply (Hwf1 _ Hras m Hm). }
  destruct (IH m1 Hnd' Hm1 Hok') as (b2' & m' & [= <-] & Hr & Hwf' & Hent & Hrest).
  exists (Stream.le_bytes 8 (Z.of_nat v) ++ b1 ++ b2), m'. split; [done|].
  destruct (index_ok_bounds v Hidx) as [Hv8 HvM].
  assert (forall w, GetChunkInfo w m1 = if decide (v = w) then oc else GetChunkInfo w m) as Hget.
  { intros w. subst m1 fill. destruct oc as [c1|]; [destruct (ChunkVectorInfo.recheck_compression c1)|];
      rewrite get_chunk_info_set by apply length_fill; (case_decide; [done|]);
      [change (GetChunkInfo w (set_needs_check true ?m)) with (GetChunkInfo w m)|..]; apply get_chunk_info_fill. }
  split_and!.
  - cbn [length read_infos]. rewrite <- !app_assoc, Stream.Read_app by done. cbn [mbind result_bind].
    rewrite HvM, Nat2Z.id, Hoc. cbn [mbind result_bind]. exact Hr.
  - done.
  - intros w cw [[= -> ->]|Hin]%elem_of_cons; [|by apply Hent].
    rewrite Hrest by done. rewrite Hget. by case_decide.
  - intros w [Hne Hnot]%not_elem_of_cons. rewrite Hrest by done. rewrite Hget. by case_decide.
Qed.

(** What a reader of the checkpoint sees of a row. *)
Definition reloaded_visible (view : SnapshotView) (om : option t) (row : nat) : bool :=
  match om with None => true | Some m => row_visible view m row end.

(** The version info of the row group can be written below the maximum row group size. *)
Definition storable (m : t) : Prop :=
  (forall v c, GetChunkInfo v m = Some c -> index_ok v /\ in_u 64 (ChunkVectorInfo.start c)) /\
  Z.of_nat (length (vector_info m)) < 2 ^ 64.

Lemma deserialize_written bound entries m :
  HidesNotDeleted (ChunkVectorInfo.write_view bound) -> Z.of_nat STANDARD_VECTOR_SIZE < 2 ^ 32 ->
  NoDup entries.*1 -> entries <> [] -> Z.of_nat (length entries) < 2 ^ 64 ->
  wf_manager m -> storable m -> (forall v c, (v, c) ∈ entries -> GetChunkInfo v m = Some c) ->
  exists body m', write_infos bound entries = Ok body /\
    Deserialize (Stream.le_bytes 8 (Z.of_nat (length entries)) ++ body) = Ok (Some m') /\
    (forall v c, (v, c) ∈ entries -> reads_as bound c (GetChunkInfo v m')) /\
    (forall v, v ∉ entries.*1 -> GetChunkInfo v m' = None).
Proof.
  intros Hh H32 Hnd Hne Hlen Hm [Hst _] Hin.
  set (s := fun body => Stream.le_bytes 8 (Z.of_nat (length entries)) ++ body).
  destruct (read_written_infos bound entries make [] Hh H32 Hnd) as (body0 & _ & Hw & _); [done| |].
  { apply Forall_forall. intros [v c] Hvc%Hin. split_and!; [by eapply Hst|by eapply Hm|by eapply Hst]. }
  destruct (read_written_infos bound entries (set_storage (s body0) make) [] Hh H32 Hnd)
    as (body & m' & Hw' & Hr & _ & Hent & Hrest); [done| |].
  { apply Forall_forall. intros [v c] Hvc%Hin. split_and!; [by eapply Hst|by eapply Hm|by eapply Hst]. }
  assert (body0 = body) as -> by congruence.
  exists body, (set_checkpoint_ids None None m'). split; [done|]. split.
  - change (Stream.le_bytes 8 (Z.of_nat (length entries)) ++ body) with (s body). unfold Deserialize.
    assert (Stream.Read 8 (s body) = Ok (Z.of_nat (length entries), body)) as Hrd
      by (apply Stream.Read_app; change (256 ^ Z.of_nat 8) with (2 ^ 64); lia).
    destruct (s body) eqn:Es; [done|]. rewrite Hrd. cbn [mbind result_bind].
    rewrite Nat2Z.id. rewrite app_nil_r in Hr. by rewrite Hr.
  - split; [done|]. intros v Hv. change (GetChunkInfo v (set_checkpoint_ids None None m')) with (GetChunkInfo v m').
    rewrite Hrest by done. done.
Qed.

(** The state [Checkpoint] leaves after writing [bytes]. *)
Lemma checkpoint_state bound bytes m :
  let m1 := set_storage bytes m in
  let m2 := match newest_uncheckpointed_delete_commit m1 with
            | Some newest => if newest <?b bound then set_checkpoint_ids None None m1 else m1
            | None => m1
            end in
  storage m2 = bytes /\ vector_info m2 = vector_info m.
Proof. cbv zeta. by repeat case_match. Qed.

Lemma checkpoint_reload bound m :
  wf_manager m -> storable m -> Z.of_nat STANDARD_VECTOR_SIZE < 2 ^ 32 ->
  VisibilityBound.value bound <= NOT_DELETED_ID ->
  HasUnserializedChanges bound m = true ->
  exists m' bytes om, Checkpoint bound m = Ok (m', bytes) /\ Deserialize bytes = Ok om /\
    vector_info m' = vector_info m /\
    forall view row,
      0 < VisibilityBound.value (visibility_bound view) -> HidesNotDeleted view ->
      row_delete_id m row <> INVALID_INDEX ->
      row_insert_id m row < VisibilityBound.value bound ->
      reloaded_visible view om row = negb (row_delete_id m row <?b bound).
Proof.
  intros Hm Hst H32 Hb Hun. unfold Checkpoint. rewrite Hun. cbn [negb].
  destruct (to_serialize_entries bound (vector_info m) 0) as (entries & -> & Hnd & Hin & Hall).
  { intros v c. by apply wf_manager_lookup. }
  cbn [mbind result_bind].
  assert (HidesNotDeleted (ChunkVectorInfo.write_view bound)) as Hh.
  { unfold HidesNotDeleted, Sees, VisibilityBound.before. cbn. apply orb_false_iff.
    split; [apply Z.ltb_ge; lia|done]. }
  assert (forall v c, (v, c) ∈ entries -> GetChunkInfo v m = Some c) as Hin'.
  { intros v c [_ Hl]%Hin. rewrite Nat.sub_0_r in Hl. unfold GetChunkInfo. by rewrite Hl. }
  assert (Z.of_nat (length entries) < 2 ^ 64) as Hlen.
  { rewrite <- (length_fmap fst entries). destruct Hst as [_ Hl].
    pose proof (nodup_bounded_length entries.*1 (length (vector_info m)) Hnd) as Hle.
    enough (length entries.*1 <= length (vector_info m))%nat by lia. apply Hle.
    intros r ((v & c) & -> & Hvc)%list_elem_of_fmap. apply Hin in Hvc as [_ Hl'%lookup_lt_Some].
    cbn. lia. }
  assert (forall view c i, 0 < VisibilityBound.value (visibility_bound view) -> HidesNotDeleted view ->
    ChunkVectorInfo.delete_id c i <> INVALID_INDEX -> ChunkVectorInfo.insert_id c i < VisibilityBound.value bound ->
    ChunkVectorInfo.visible (ChunkVectorInfo.write_view bound) c i
    = negb (ChunkVectorInfo.delete_id c i <?b bound)) as Hvis.
  { intros view c i _ _ Hdel Hins. unfold ChunkVectorInfo.visible.
    rewrite (proj2 (Sees_spec _ _)) by (left; done). cbn [andb]. f_equal. unfold Sees. cbn.
    apply Z.eqb_neq in Hdel. by rewrite Hdel, orb_false_r. }
  assert (forall om, (forall v c, (v, c) ∈ entries -> reads_as bound c (from_option (GetChunkInfo v) None om)) ->
     (forall v, v ∉ entries.*1 -> from_option (GetChunkInfo v) None om = None) ->
     forall view row, 0 < VisibilityBound.value (visibility_bound view) -> HidesNotDeleted view ->
      row_delete_id m row <> INVALID_INDEX -> row_insert_id m row < VisibilityBound.value bound ->
      reloaded_visible view om row = negb (row_delete_id m row <?b bound)) as Hfinal.
  { intros om Hent Hrest view row Hpos Hhv Hdel Hins. pose proof (row_position row) as [Hi _].
    set (v := (row / STANDARD_VECTOR_SIZE)%nat). set (i := (row mod STANDARD_VECTOR_SIZE)%nat) in *.
    assert (reloaded_visible view om row = match from_option (GetChunkInfo v) None om with
      | None => true | Some c => ChunkVectorInfo.visible view c i end) as -> by (by destruct om).
    unfold row_delete_id, row_insert_id in Hdel, Hins |- *. fold v i in Hdel, Hins |- *.
    unfold info_at in Hdel, Hins |- *.
    destruct (GetChunkInfo v m) as [c|] eqn:Ec; cbn [default from_option id] in Hdel, Hins |- *.
    - assert (vector_info m !! v = Some (Some c)) as Hlk.
      { unfold GetChunkInfo in Ec. by destruct (vector_info m !! v) as [[?|]|]; simplify_eq/=. }
      destruct (Hall v c Hlk) as [Hvc|[Hvc Hnd']]; cbn [Nat.add] in Hvc.
      + specialize (Hent v c Hvc). destruct (from_option (GetChunkInfo v) None om) as [c'|].
        * destruct Hent as (_ & _ & Hv). rewrite Hv by done. by apply (Hvis view).
        * rewrite <- (Hvis view) by done. symmetry. by apply Hent.
      + rewrite Hrest by done. symmetry. apply negb_true_iff.
        apply has_deletes_complete; [by eapply Hm| |done|done].
        unfold VisibilityBound.before. apply Z.ltb_ge. lia.
    - rewrite Hrest.
      + cbn. symmetry. apply negb_true_iff. unfold VisibilityBound.before. apply Z.ltb_ge. done.
      + intros ((w & c) & Hw & Hvc)%list_elem_of_fmap. cbn in Hw. subst w. apply Hin' in Hvc. congruence. }
  destruct entries as [|e entries'] eqn:He.
  - cbn [mbind result_bind mret result_ret]. eexists _, _, None. split; [done|].
    destruct (checkpoint_state bound [] m) as [-> ->]. split_and!; [done|done|].
    apply Hfinal; [by intros v c ?%not_elem_of_nil|done].
  - rewrite <- He in *. destruct (deserialize_written bound entries m) as (body & m1 & -> & Hd & Hent & Hrest);
      [done..|by rewrite He|done|done|done|done|].
    cbn [mbind result_bind mret result_ret]. eexists _, _, (Some m1). split; [done|].
    destruct (checkpoint_state bound (Stream.le_bytes 8 (Z.of_nat (length entries)) ++ body) m) as [-> ->].
    split_and!; [done|done|]. by apply Hfinal.
Qed.

(** ** Which checkpoints write the deletes *)

Lemma commit_delete_unserialized id info m m' bound :
  wf_manager m -> info_ok info -> CommitDelete (vector_idx info) id info m = Ok m' ->
  HasUnserializedChanges bound m' = (id <?b bound) || HasUnserializedChanges bound m.
Proof.
  intros Hm Hi Hc. destruct (commit_delete_manager id info m Hm Hi) as (m1 & H1 & _ & _ & _ & _ & Ho).
  assert (m1 = m') as <- by congruence. unfold HasUnserializedChanges. rewrite Ho.
  destruct (oldest_uncheckpointed_delete_commit m) as [o|]; cbn [oldest_with]; [|by rewrite orb_false_r].
  unfold VisibilityBound.before. destruct (Z.ltb_spec id o).
  - destruct (Z.ltb_spec id (VisibilityBound.value bound)), (Z.ltb_spec o (VisibilityBound.value bound)); cbn; lia || done.
  - destruct (Z.ltb_spec id (VisibilityBound.value bound)), (Z.ltb_spec o (VisibilityBound.value bound)); cbn; lia || done.
Qed.

Lemma checkpoint_unserialized bound m m' bytes newest :
  Checkpoint bound m = Ok (m', bytes) -> newest_uncheckpointed_delete_commit m = Some newest ->
  newest < VisibilityBound.value bound -> HasUnserializedChanges bound m' = false.
Proof.
  unfold Checkpoint. intros Hc Hn Hlt. destruct (HasUnserializedChanges bound m) eqn:Hu; cbn [negb] in Hc.
  - destruct (to_serialize bound 0 (vector_info m)) as [entries|]; [|done]. cbn [mbind result_bind] in Hc.
    destruct (match entries with [] => _ | _ => _ end) as [b|] in Hc; [|done]. cbn [mbind result_bind] in Hc.
    cbn [newest_uncheckpointed_delete_commit set_storage] in Hc. rewrite Hn in Hc.
    unfold VisibilityBound.before in Hc. rewrite (proj2 (Z.ltb_lt _ _) Hlt) in Hc. by apply Ok_inj in Hc as [= <- _].
  - by apply Ok_inj in Hc as [= <- _].
Qed.

Lemma checkpoint_keeps_oldest bound m m' bytes newest :
  Checkpoint bound m = Ok (m', bytes) -> newest_uncheckpointed_delete_commit m = Some newest ->
  VisibilityBound.value bound <= newest ->
  newest_uncheckpointed_delete_commit m' = newest_uncheckpointed_delete_commit m /\
  oldest_uncheckpointed_delete_commit m' = oldest_uncheckpointed_delete_commit m.
Proof.
  unfold Checkpoint. intros Hc Hn Hle. destruct (HasUnserializedChanges bound m) eqn:Hu; cbn [negb] in Hc.
  - destruct (to_serialize bound 0 (vector_info m)) as [entries|]; [|done]. cbn [mbind result_bind] in Hc.
    destruct (match entries with [] => _ | _ => _ end) as [b|] in Hc; [|done]. cbn [mbind result_bind] in Hc.
    cbn [newest_uncheckpointed_delete_commit set_storage] in Hc. rewrite Hn in Hc.
    unfold VisibilityBound.before in Hc. rewrite (proj2 (Z.ltb_ge _ _) Hle) in Hc. by apply Ok_inj in Hc as [= <- _].
  - by apply Ok_inj in Hc as [= <- _].
Qed.

End Facts.
