(* ===== verification/RowVersionsHistory.v ===== *)
(** * Row versions: one checkpoint after the other

    A checkpoint without unserialized changes returns the blocks that are on disk. What those blocks
    show depends on how the version info got where it is: this file follows a row group from its
    creation, or from the disk, through deletes, commits, rollbacks, compressions and checkpoints. *)

From S2P Require Import Prelude Snapshot ValidityMask ChunkInfo ChunkInfoFacts RowVersions RowVersionsFacts.

Local Open Scope Z_scope.

Section History.
Context {VS : VectorSize}.
Import RowVersionManager.
Hypothesis vector_32 : Z.of_nat STANDARD_VECTOR_SIZE < 2 ^ 32.

(** The rows a checkpoint below [bound] accounts for. *)
Definition stored_rows (bound : VisibilityBound.t) (m : t) (row : nat) : Prop :=
  row_delete_id m row <> INVALID_INDEX /\ row_insert_id m row < VisibilityBound.value bound.

(** [followed rows low m]: the version info [m] was followed; the blocks on disk account for [rows], and
    no checkpoint since, and no compression, had a bound above [low]. The rows whose delete is committed
    or rolled back were deleted by a transaction that had not committed. *)
Inductive followed : (nat -> Prop) -> Z -> t -> Prop :=
  | followed_new : followed (fun _ => True) 0 make
  | followed_load bytes m : Deserialize bytes = Ok (Some m) -> wf_manager m -> followed (fun _ => True) 1 m
  | followed_delete rows low m v tid named count m' named' r : followed rows low m ->
      TRANSACTION_ID_START <= tid -> tid <> NOT_DELETED_ID -> (0 < count <= length named)%nat ->
      (forall k, (k < count)%nat -> (row_at named k < STANDARD_VECTOR_SIZE)%nat) ->
      DeleteRows v tid named count m = (m', named', r) -> followed rows low m'
  | followed_commit rows low m info id m' : followed rows low m -> info_ok info ->
      (forall row, entry_row info row -> TRANSACTION_ID_START <= row_delete_id m row) ->
      CommitDelete (vector_idx info) id info m = Ok m' -> followed rows low m'
  | followed_compress rows low m lowest m' : followed rows low m -> 0 < VisibilityBound.value lowest ->
      CompressVersionIds lowest m = Ok m' -> followed rows (Z.max low (VisibilityBound.value lowest)) m'
  | followed_checkpoint rows low m bound m' bytes : followed rows low m -> storable m ->
      low <= VisibilityBound.value bound <= TRANSACTION_ID_START -> Checkpoint bound m = Ok (m', bytes) ->
      followed (if HasUnserializedChanges bound m then stored_rows bound m else rows) (VisibilityBound.value bound) m'.

(** Whether a delete is below the bound. *)
Abbreviation deleted_below m row bound := (row_delete_id m row <?b bound).

(** No committed delete is newer than the newest one that is remembered, and the blocks on disk are
    current for every bound without unserialized changes. *)
Record current (rows : nat -> Prop) (low : Z) (m : t) : Prop := {
  cur_wf : wf_manager m;
  cur_newest : forall row b1 b2, low <= VisibilityBound.value b1 ->
    VisibilityBound.value b1 <= VisibilityBound.value b2 <= TRANSACTION_ID_START ->
    match newest_uncheckpointed_delete_commit m with Some n => n < VisibilityBound.value b1 | None => True end ->
    deleted_below m row b2 = deleted_below m row b1;
  cur_disk : exists om, Deserialize (storage m) = Ok om /\ forall view row bound,
    0 < VisibilityBound.value (visibility_bound view) -> HidesNotDeleted view -> rows row ->
    low <= VisibilityBound.value bound <= TRANSACTION_ID_START -> HasUnserializedChanges bound m = false ->
    reloaded_visible view om row = negb (deleted_below m row bound)
}.

(** A step that changes no delete below a bound that matters, and forgets no uncheckpointed commit. *)
Lemma current_same rows low m low' m' : current rows low m -> wf_manager m' -> low <= low' -> storage m' = storage m ->
  newest_uncheckpointed_delete_commit m' = newest_uncheckpointed_delete_commit m ->
  oldest_uncheckpointed_delete_commit m' = oldest_uncheckpointed_delete_commit m ->
  (forall row bound, low' <= VisibilityBound.value bound <= TRANSACTION_ID_START ->
     deleted_below m' row bound = deleted_below m row bound) -> current rows low' m'.
Proof.
  intros [Hwf Hnew (om & Hd & Hdisk)] Hwf' Hlow Hs Hn Ho Hsame. split; [done| |].
  - intros row b1 b2 H1 H2. rewrite Hn, !Hsame by lia. apply Hnew; lia.
  - exists om. rewrite Hs. split; [done|]. intros view row bound Hp Hh Hr Hb Hu. rewrite Hsame by done.
    apply Hdisk; try done; [lia|]. unfold HasUnserializedChanges in *. by rewrite <- Ho.
Qed.

Lemma before_uncommitted id bound : TRANSACTION_ID_START <= id -> VisibilityBound.value bound <= TRANSACTION_ID_START ->
  (id <?b bound) = false.
Proof. unfold VisibilityBound.before. intros. apply Z.ltb_ge. lia. Qed.

Lemma not_deleted_uncommitted : TRANSACTION_ID_START <= NOT_DELETED_ID.
Proof. by vm_compute. Qed.

(** ** The steps *)

Lemma current_new : current (fun _ => True) 0 make.
Proof.
  assert (forall row, row_delete_id make row = NOT_DELETED_ID) as Hid by (intros row; unfold row_delete_id, info_at, GetChunkInfo; done).
  split; [done| |].
  - intros row b1 b2 _ Hb _. rewrite Hid. pose proof not_deleted_uncommitted. by rewrite !before_uncommitted by lia.
  - exists None. split; [done|]. intros view row bound _ _ _ Hb _. rewrite Hid. cbn. pose proof not_deleted_uncommitted.
    by rewrite before_uncommitted by lia.
Qed.

(** The ids of a vector that was read: everyone sees the inserts and the deletes. *)
Definition loaded_ids (c : ChunkVectorInfo.t) : Prop :=
  (forall i, ChunkVectorInfo.insert_id c i = 0) /\
  forall i, ChunkVectorInfo.delete_id c i = 0 \/ ChunkVectorInfo.delete_id c i = NOT_DELETED_ID.

Lemma read_loaded s c rest : ChunkVectorInfo.Read s = Ok (Some c, rest) -> loaded_ids c.
Proof.
  unfold ChunkVectorInfo.Read. destruct (Stream.Read 1 s) as [[type s1]|]; [|done]. cbn [mbind result_bind].
  destruct (type =? _); [done|]. destruct (type =? _).
  { destruct (Stream.Read 8 s1) as [[start s2]|]; [|done]. cbn [mbind result_bind]. intros [= <- _]%Ok_inj.
    split; [done|]. by left. }
  destruct (type =? _); [|done]. destruct (Stream.Read 8 s1) as [[start s2]|]; [|done]. cbn [mbind result_bind].
  destruct (ValidityMask.Read _ _ _) as [[mask s3]|]; [|done]. cbn [mbind result_bind].
  destruct (_ || _); [done|]. intros [= <- _]%Ok_inj. split; [done|]. intros i. unfold ChunkVectorInfo.delete_id. cbn.
  destruct (RowIsValid mask i); [by left|by right].
Qed.

Lemma read_infos_loaded n s m m' rest : (forall v c, GetChunkInfo v m = Some c -> loaded_ids c) ->
  read_infos n s m = Ok (m', rest) -> storage m' = storage m /\ forall v c, GetChunkInfo v m' = Some c -> loaded_ids c.
Proof.
  revert s m. induction n as [|n IH]; intros s m Hm; cbn [read_infos]; [by intros [= <- _]%Ok_inj|].
  destruct (Stream.Read 8 s) as [[v s1]|]; [|done]. cbn [mbind result_bind]. destruct (MAX_ROW_GROUP_SIZE <=? _); [done|].
  set (w := Z.to_nat v). set (fill := FillVectorInfo w m).
  destruct (ChunkVectorInfo.Read s1) as [[oc s2]|] eqn:Hr; [|done]. cbn [mbind result_bind]. intros Hrun.
  assert (forall m1, vector_info m1 = vector_info fill -> forall v' c, GetChunkInfo v' (set_info w oc m1) = Some c -> loaded_ids c) as Hset.
  { intros m1 Heq v' c. rewrite get_chunk_info_set by (rewrite Heq; apply length_fill).
    case_decide; [intros ->; by eapply read_loaded|]. unfold GetChunkInfo. rewrite Heq. fold (GetChunkInfo v' fill).
    unfold fill. rewrite get_chunk_info_fill. apply Hm. }
  assert (storage fill = storage m) as Hst by (unfold fill, FillVectorInfo; by destruct (_ <? _)%nat).
  apply IH in Hrun as [-> ?]; [split; [|done]|].
  - destruct oc as [c|]; [destruct (ChunkVectorInfo.recheck_compression c)|]; exact Hst.
  - apply Hset. destruct oc as [c|]; [by destruct (ChunkVectorInfo.recheck_compression c)|done].
Qed.

Lemma current_load bytes m : Deserialize bytes = Ok (Some m) -> wf_manager m -> current (fun _ => True) 1 m.
Proof.
  intros Hd Hwf. pose proof Hd as Hload. unfold Deserialize in Hd. destruct bytes as [|z zs] eqn:Eb; [done|]. rewrite <- Eb in Hload, Hd.
  destruct (Stream.Read 8 bytes) as [[n rest]|]; [|done]. cbn [mbind result_bind] in Hd.
  destruct (read_infos _ _ _) as [[m1 rest']|] eqn:Hr; [|done]. injection Hd as <-.
  apply read_infos_loaded in Hr as [Hst Hids]; [|intros v c; unfold GetChunkInfo; done]. cbn [storage set_storage] in Hst.
  assert (forall row, row_insert_id (set_checkpoint_ids None None m1) row = 0 /\
    (row_delete_id (set_checkpoint_ids None None m1) row = 0 \/ row_delete_id (set_checkpoint_ids None None m1) row = NOT_DELETED_ID)) as Hrow.
  { intros row. unfold row_insert_id, row_delete_id, info_at. destruct (GetChunkInfo _ _) as [c|] eqn:E; [|split; [done|by right]].
    destruct (Hids _ c E) as [Hi Hdel]. by split. }
  pose proof not_deleted_uncommitted. split; [done| |].
  - intros row b1 b2 Hlow Hb _. destruct (Hrow row) as [_ [-> | ->]]; [|by rewrite !before_uncommitted by lia].
    unfold VisibilityBound.before. by rewrite !(proj2 (Z.ltb_lt _ _)) by lia.
  - exists (Some (set_checkpoint_ids None None m1)). split; [change (storage (set_checkpoint_ids None None m1)) with (storage m1); by rewrite Hst|].
    intros view row bound Hpos Hh _ Hb _. cbn [reloaded_visible]. destruct (Hrow row) as [Hins Hdel].
    unfold row_visible, row_insert_id, row_delete_id, info_at in *.
    destruct (GetChunkInfo _ _) as [c|] eqn:E; cbn [default from_option id] in *.
    + unfold ChunkVectorInfo.visible. rewrite Hins, (proj2 (Sees_spec view 0)) by (left; done). cbn [andb]. f_equal.
      destruct Hdel as [-> | ->].
      * rewrite (proj2 (Sees_spec view 0)) by (left; done). unfold VisibilityBound.before. symmetry. apply Z.ltb_lt. lia.
      * rewrite before_uncommitted by lia. exact Hh.
    + change (ChunkVectorInfo.delete_id (new_info (row / STANDARD_VECTOR_SIZE)) (row mod STANDARD_VECTOR_SIZE)) with NOT_DELETED_ID.
      by rewrite before_uncommitted by lia.
Qed.

Lemma get_vector_info_storage v m : storage (GetVectorInfo v m).1 = storage m.
Proof. unfold GetVectorInfo. destruct (GetChunkInfo v _); cbn; unfold FillVectorInfo; by destruct (_ <? _)%nat. Qed.

Lemma current_delete rows low m v tid named count m' named' r : current rows low m ->
  TRANSACTION_ID_START <= tid -> tid <> NOT_DELETED_ID -> (0 < count <= length named)%nat ->
  (forall k, (k < count)%nat -> (row_at named k < STANDARD_VECTOR_SIZE)%nat) ->
  DeleteRows v tid named count m = (m', named', r) -> current rows low m'.
Proof.
  intros Hcur Htid Hne Hc Hrow Heq. pose proof (cur_wf _ _ _ Hcur) as Hwf.
  pose proof (delete_rows_manager v tid named count m Hwf Hne Hc Hrow) as Hout. rewrite Heq in Hout.
  destruct Hout as (Hwf' & Hother & _ & _ & _ & Hr). pose proof not_deleted_uncommitted as Hnd.
  assert (storage m' = storage m /\ newest_uncheckpointed_delete_commit m' = newest_uncheckpointed_delete_commit m /\
    oldest_uncheckpointed_delete_commit m' = oldest_uncheckpointed_delete_commit m) as (Hs & Hn & Ho).
  { unfold DeleteRows in Heq. pose proof (get_vector_info_storage v (set_needs_check true m)) as Hs.
    destruct (GetVectorInfo v (set_needs_check true m)) as [m1 c] eqn:Hg.
    destruct (get_vector_info _ _ _ _ Hg) as (_ & _ & _ & _ & Hn & Ho).
    destruct (ChunkVectorInfo.Delete tid named count c) as [[c' nm] r1]. injection Heq as <- _ _. by split_and!. }
  apply (current_same rows low m); try done. intros row bound Hb.
  destruct (decide ((row / STANDARD_VECTOR_SIZE)%nat = v)) as [<-|Hv]; [|unfold row_delete_id; by rewrite Hother].
  pose proof (row_position row) as [Hi _].
  assert (row_delete_id m' row = row_delete_id m row \/
    TRANSACTION_ID_START <= row_delete_id m row /\ TRANSACTION_ID_START <= row_delete_id m' row) as [->|[? ?]];
    [|done|by rewrite !before_uncommitted by lia].
  unfold row_delete_id. destruct r as [n|e].
  - destruct Hr as [Hdel Heff]. rewrite (eff_ids _ _ _ _ _ _ _ Heff _ Hi). case_decide as Hin; [right|by left].
    apply elem_row_at in Hin as (k & Hk & _ & Hat). specialize (Hdel k Hk). rewrite Hat in Hdel.
    unfold deletable_row in Hdel. apply orb_true_iff in Hdel as [->%Z.eqb_eq| ->%Z.eqb_eq]; lia.
  - destruct Hr as (_ & _ & Hids). destruct (Hids _ Hi) as [->|(_ & -> & ->)]; [by left|right; lia].
Qed.

Lemma current_commit rows low m info id m' : current rows low m -> info_ok info ->
  (forall row, entry_row info row -> TRANSACTION_ID_START <= row_delete_id m row) ->
  CommitDelete (vector_idx info) id info m = Ok m' -> current rows low m'.
Proof.
  intros [Hwf Hnew (om & Hd & Hdisk)] Hok Hold Hc.
  destruct (commit_delete_manager id info m Hwf Hok) as (m1 & H1 & Hwf' & _ & Hdel & Hn & _).
  assert (m1 = m') as -> by congruence. split; [done| |].
  - intros row b1 b2 H2 H3. rewrite Hn, !Hdel. intros Hlt. case_decide.
    + unfold VisibilityBound.before. assert (id < VisibilityBound.value b1).
      { destruct (newest_uncheckpointed_delete_commit m) as [n|]; cbn in Hlt; [destruct (Z.ltb_spec n id); lia|done]. }
      by rewrite !(proj2 (Z.ltb_lt _ _)) by lia.
    + apply Hnew; [done..|]. destruct (newest_uncheckpointed_delete_commit m) as [n|]; cbn in Hlt; [|done].
      destruct (Z.ltb_spec n id); lia.
  - exists om. assert (storage m' = storage m) as ->.
    { unfold CommitDelete in Hc. cbv zeta in Hc.
      match type of Hc with context [GetVectorInfo ?v ?m0] => pose proof (get_vector_info_storage v m0) as Hs end.
      destruct (GetVectorInfo _ _) as [m2 c].
      destruct (ChunkVectorInfo.CommitDelete id info c) as [c'|]; [|done]. by apply Ok_inj in Hc as <-. }
    split; [done|]. intros view row bound Hp Hh Hr Hb Hu.
    rewrite (commit_delete_unserialized id info m m' bound Hwf Hok Hc) in Hu. apply orb_false_iff in Hu as [Hid Hu].
    rewrite Hdel, (Hdisk view row bound) by done. f_equal. case_decide as He; [|done].
    rewrite Hid. apply before_uncommitted; [by apply Hold|lia].
Qed.

Lemma compress_deletes_below lowest m m' : wf_manager m -> 0 < VisibilityBound.value lowest -> CompressVersionIds lowest m = Ok m' ->
  wf_manager m' /\ storage m' = storage m /\ newest_uncheckpointed_delete_commit m' = newest_uncheckpointed_delete_commit m /\
  oldest_uncheckpointed_delete_commit m' = oldest_uncheckpointed_delete_commit m /\
  forall row bound, VisibilityBound.value lowest <= VisibilityBound.value bound -> deleted_below m' row bound = deleted_below m row bound.
Proof.
  intros Hm Hlow Hc. destruct (compress_manager lowest m Hm Hlow) as (m1 & H1 & Hwf' & _).
  assert (m1 = m') as -> by congruence. split; [done|]. unfold CompressVersionIds in Hc.
  destruct (needs_compression_check m); cbn [negb] in Hc; [|by apply Ok_inj in Hc as <-].
  destruct (compress_infos_settled lowest (vector_info m) Hlow) as (infos & p & Hci & Hs).
  { intros v c. by apply wf_manager_lookup. }
  rewrite Hci in Hc. cbn [mbind result_bind] in Hc. apply Ok_inj in Hc as <-. split_and!; [done..|].
  intros row bound Hb. unfold row_delete_id, info_at, GetChunkInfo. cbn. set (v := (row / STANDARD_VECTOR_SIZE)%nat).
  destruct (vector_info m !! v) as [oc|] eqn:E.
  - destruct (Forall2_lookup_l _ _ _ _ _ Hs E) as (oc' & -> & Hoc). destruct oc as [c|], oc' as [c'|]; try done.
    destruct Hoc as [_ Hset]. pose proof (row_position row) as [Hi _]. destruct (Hset _ Hi) as [_ [Heq|[? ?]]]; cbn; [by rewrite Heq|].
    unfold VisibilityBound.before. by rewrite !(proj2 (Z.ltb_lt _ _)) by lia.
  - rewrite lookup_ge_None_2; [done|]. apply lookup_ge_None in E. by rewrite <- (Forall2_length _ _ _ Hs).
Qed.

(** A checkpoint that writes: it forgets the commits exactly when all of them are below the bound. *)
Lemma checkpoint_writes bound m m' bytes : HasUnserializedChanges bound m = true -> Checkpoint bound m = Ok (m', bytes) ->
  bytes = storage m' /\ vector_info m' = vector_info m /\
  let reset := match newest_uncheckpointed_delete_commit m with Some n => n <?b bound | None => false end in
  newest_uncheckpointed_delete_commit m' = (if reset then None else newest_uncheckpointed_delete_commit m) /\
  oldest_uncheckpointed_delete_commit m' = (if reset then None else oldest_uncheckpointed_delete_commit m).
Proof.
  unfold Checkpoint. intros -> Hc. cbn [negb] in Hc.
  destruct (to_serialize bound 0 (vector_info m)) as [entries|]; [|done]. cbn [mbind result_bind] in Hc.
  destruct (match entries with [] => _ | _ => _ end) as [b|] in Hc; [|done]. cbn [mbind result_bind] in Hc.
  cbn [newest_uncheckpointed_delete_commit set_storage] in Hc. cbv zeta.
  destruct (newest_uncheckpointed_delete_commit m) as [n|] eqn:E; [destruct (n <?b bound)|]; apply Ok_inj in Hc as [= <- <-]; by split_and!.
Qed.

Lemma current_checkpoint rows low m bound m' bytes : current rows low m -> storable m ->
  low <= VisibilityBound.value bound <= TRANSACTION_ID_START -> Checkpoint bound m = Ok (m', bytes) ->
  current (if HasUnserializedChanges bound m then stored_rows bound m else rows) (VisibilityBound.value bound) m'.
Proof.
  intros Hcur Hst Hb Hc. destruct (HasUnserializedChanges bound m) eqn:Hu.
  2: { unfold Checkpoint in Hc. rewrite Hu in Hc. apply Ok_inj in Hc as [= <- _].
    apply (current_same rows low m); try done; [apply Hcur|lia]. }
  pose proof Hcur as [Hwf Hnew _]. destruct (checkpoint_writes _ _ _ _ Hu Hc) as (Hbytes & Hv & Hn & Ho). cbv zeta in Hn, Ho.
  assert (forall row, row_delete_id m' row = row_delete_id m row) as Hdel
    by (intros row; unfold row_delete_id, info_at, GetChunkInfo; by rewrite Hv).
  destruct (checkpoint_reload bound m Hwf Hst vector_32) as (m1 & bytes1 & om & Hc1 & Hd & _ & Hvis);
    [pose proof not_deleted_uncommitted; lia|done|].
  assert ((m1, bytes1) = (m', bytes)) as [= -> ->] by (apply Ok_inj; congruence). subst bytes.
  split.
  - intros v c. unfold GetChunkInfo. rewrite Hv. apply Hwf.
  - intros row b1 b2 H1 H2. rewrite Hn, !Hdel. intros Hlt. apply Hnew; [lia|done|].
    destruct (newest_uncheckpointed_delete_commit m) as [n|]; [|done]. unfold VisibilityBound.before in Hlt.
    destruct (Z.ltb_spec n (VisibilityBound.value bound)); [lia|done].
  - exists om. split; [done|]. intros view row bound' Hp Hh [Hinv Hins] Hb' Hu'. rewrite Hdel, Hvis by done. f_equal. symmetry.
    unfold HasUnserializedChanges in Hu, Hu'. rewrite Ho in Hu'. unfold VisibilityBound.before in Hu, Hu'.
    destruct (newest_uncheckpointed_delete_commit m) as [n|] eqn:En; [unfold VisibilityBound.before in Hu'; destruct (Z.ltb_spec n (VisibilityBound.value bound))|].
    + apply Hnew; lia.
    + destruct (oldest_uncheckpointed_delete_commit m) as [o|]; [|done]. apply Z.ltb_lt in Hu. apply Z.ltb_ge in Hu'. lia.
    + destruct (oldest_uncheckpointed_delete_commit m) as [o|]; [|done]. apply Z.ltb_lt in Hu. apply Z.ltb_ge in Hu'. lia.
Qed.

Lemma followed_current rows low m : followed rows low m -> current rows low m.
Proof.
  induction 1; [apply current_new|by eapply current_load|by eapply current_delete|by eapply current_commit| |by eapply current_checkpoint].
  destruct (compress_deletes_below lowest m m') as (Hwf & Hs & Hn & Ho & Hdel); [by destruct IHfollowed|done..|].
  apply (current_same rows low m); try done; [lia|]. intros row bound Hb. apply Hdel. lia.
Qed.
End History.
