(* ===== verification/RowVersionTheorems.v ===== *)
(** * Row versions: the theorems

    What the row versions of a row group promise to the scans, the delete statements, the commits
    and the checkpoints that use them. Every theorem is stated over any vector size; the witnesses
    evaluate the code on vectors of four rows. *)

From S2P Require Import Prelude Snapshot ValidityMask ChunkInfo ChunkInfoFacts RowVersions RowVersionsFacts RowVersionsHistory.

Local Open Scope Z_scope.

(** ** Sample states for the witnesses *)

Definition four_rows : VectorSize.
Proof. refine {| STANDARD_VECTOR_SIZE := 4%nat |}. by exists 2%nat. Defined.

(** A reader that started at time 10. *)
Definition reader : SnapshotView := mkSnapshotView (TRANSACTION_ID_START + 7) (VisibilityBound.Before 10).

Lemma reader_wf : WfView reader.
Proof. split; cbn; unfold TRANSACTION_ID_START, NOT_DELETED_ID, u64_max; lia. Qed.

(** Four committed rows: alive, deleted at 5, deleted at 12, deleted by the reader itself. *)
Definition sample_chunk : ChunkVectorInfo.t :=
  ChunkVectorInfo.mk 0 None 3 (Some [NOT_DELETED_ID; 5; 12; TRANSACTION_ID_START + 7]) NOT_DELETED_ID
    (empty_mask 4) 0 ARRAY true.

Lemma sample_chunk_wf : @ChunkVectorInfo.wf four_rows sample_chunk.
Proof. split; cbn; [done|intros _; eauto|done]. Qed.

(** Four rows committed at 3, none of them deleted, in a row group of two vectors. *)
Definition sample_manager : RowVersionManager.t :=
  RowVersionManager.mk [Some (@ChunkVectorInfo.make four_rows 0 3 NOT_DELETED_ID); Some sample_chunk]
    None None [] true.

Lemma sample_manager_wf : @wf_manager four_rows sample_manager.
Proof.
  intros [|[|v]] c; cbn; intros Heq; simplify_eq; [by split|apply sample_chunk_wf].
Qed.

(** The writer of the witnesses. *)
Definition writer_id : Z := TRANSACTION_ID_START + 9.

Lemma sample_manager_other row : @row_delete_id four_rows sample_manager row <> writer_id.
Proof.
  unfold row_delete_id. assert (row mod @STANDARD_VECTOR_SIZE four_rows < 4)%nat as Hlt by by apply Nat.mod_upper_bound.
  revert Hlt. generalize (row mod @STANDARD_VECTOR_SIZE four_rows)%nat as i, (row / @STANDARD_VECTOR_SIZE four_rows)%nat as v.
  intros i [|[|v]] Hi; [done| |done]. destruct i as [|[|[|[|i]]]]; [done..|lia].
Qed.

Section Theorems.
Context {VS : VectorSize}.

(** C1. [ChunkVectorInfo::GetSelVector] returns the number of rows that the scan options select, and,
    unless all or none of them qualify, writes exactly those rows, in order, to the front of the
    selection vector. It does so for every form in which the insert and delete ids are stored. *)
Theorem scan_selects_rows options c sel n :
  ChunkVectorInfo.wf c -> (n <= STANDARD_VECTOR_SIZE)%nat -> hides_not_deleted options ->
  exists sel' count, ChunkVectorInfo.GetSelVector options c sel n = Ok (sel', count) /\
    count = count_rows (option_selected options c) n /\
    ((0 < count < n)%nat -> forall s, sel = Some s -> (n <= length s)%nat ->
       exists s', sel' = Some s' /\ take count s' = rows (option_selected options c) n).
Proof.
  intros Hwf Hn Hh. destruct (get_sel_vector_rows options c sel n Hwf Hn Hh) as ([sel' count] & Heq & Hc & Hsel).
  exists sel', count. split_and!; [done|done|]. intros Hcnt s -> Hlen. specialize (Hsel Hcnt) as [_ Hs].
  cbn in Hs. destruct sel' as [s'|]; [|done]. destruct Hs as [_ Hs]. exists s'. split; [done|]. by apply Hs.
Qed.

(** [RowVersionManager::GetRowCount] is the number of rows of the range that a row-by-row
    reading of the ids selects, for ranges that span any number of vectors. *)
Theorem row_group_count options start_vector count m :
  wf_manager m -> hides_not_deleted options ->
  RowVersionManager.GetRowCount options start_vector count m
  = Ok (count_rows (fun i => row_option_selected options m (start_vector * STANDARD_VECTOR_SIZE + i)) count).
Proof. apply get_row_count_rows. Qed.

(** [RowVersionManager::GetVisibleRows] selects exactly the positions of the offsets whose rows
    are visible, whatever the order of the offsets, and returns their number. *)
Theorem visible_rows_selected view offsets count sel m :
  exists sel' n, RowVersionManager.GetVisibleRows view offsets count sel m = Ok (Some sel', n) /\
    n = count_rows (fun k => row_visible view m (nth k offsets 0%nat)) count /\
    ((count <= length sel)%nat ->
       take n sel' = rows (fun k => row_visible view m (nth k offsets 0%nat)) count).
Proof.
  destruct (get_visible_rows view offsets count sel m) as ([[s'|] n] & Heq & Hn & Hs); cbn in Hs; [|done].
  exists s', n. destruct Hs as [_ Hs]. by split_and!.
Qed.

(** C2. [ChunkVectorInfo::Delete] succeeds exactly when every row it is given is alive or already
    deleted by the same transaction. It then marks those rows with the transaction id and compacts
    the rows it newly deleted, in order and without repetition, to the front of the caller's buffer.
    Otherwise it throws the conflict and changes no row of another transaction. *)
Theorem delete_marks_rows tid rows count c :
  ChunkVectorInfo.wf c -> tid <> NOT_DELETED_ID -> (0 < count <= length rows)%nat ->
  (forall m, (m < count)%nat -> (row_at rows m < STANDARD_VECTOR_SIZE)%nat) ->
  delete_outcome tid rows count c (ChunkVectorInfo.Delete tid rows count c).
Proof. apply delete_spec. Qed.

(** A delete statement that succeeds marks exactly the rows it names with the id of its
    transaction, whatever the order of the row ids and however they fall into vectors. *)
Theorem statement_deletes_rows tid base_row ids m undo st n :
  tid <> NOT_DELETED_ID -> wf_manager m -> (length ids <= STANDARD_VECTOR_SIZE)%nat ->
  VersionDeleteState.RowGroupDelete tid base_row ids m undo = (st, Ok n) ->
  forall row, row_delete_id (VersionDeleteState.manager st) row
    = if decide (row ∈ ids) then tid else row_delete_id m row.
Proof.
  intros Ht Hwf Hlen Hd. by destruct (row_group_delete_rows tid base_row m Ht ids undo st n Hwf Hlen Hd).
Qed.

(** C3. Rolling back a transaction undoes all its delete statements, also when the last of them
    failed with a conflict: every row has the insert id and the delete id it had before. *)
Theorem rollback_restores_rows tid base_row stmts m m1 undo :
  tid <> NOT_DELETED_ID -> Z.of_nat STANDARD_VECTOR_SIZE <= 2 ^ 16 -> wf_manager m ->
  (forall row, row_delete_id m row <> tid) ->
  Forall (fun ids => (length ids <= STANDARD_VECTOR_SIZE)%nat) stmts ->
  run_statements tid base_row stmts m [] = (m1, undo) ->
  exists m2, VersionDeleteState.Rollback undo m1 = Ok m2 /\ wf_manager m2 /\
    forall row, row_delete_id m2 row = row_delete_id m row /\ row_insert_id m2 row = row_insert_id m row.
Proof.
  intros Ht H16 Hwf Hother Hlen Hrun.
  destruct (run_statements_undoable tid base_row (row_delete_id m) (row_insert_id m) Ht Hother H16
    true stmts m [] m1 undo) as [clean Hu]; [by apply undoable_start|done|done|].
  by eapply undoable_rollback.
Qed.

(** C4. Committing a transaction whose delete statements all succeeded gives exactly the rows they name,
    each of which was alive when the transaction began, the commit id, and leaves every other row as it
    was; a row may be named several times, by one statement or by several. The statements work on at most
    a vector of row ids each and start from a state in which no row carries the transaction's id. *)
Theorem commit_deletes_rows tid base_row stmts m m1 undo commit_id :
  tid <> NOT_DELETED_ID -> wf_manager m -> Z.of_nat STANDARD_VECTOR_SIZE <= 2 ^ 16 ->
  (forall row, row_delete_id m row <> tid) ->
  Forall (fun ids => (length ids <= STANDARD_VECTOR_SIZE)%nat) stmts ->
  run_all tid base_row stmts m [] = Some (m1, undo) ->
  exists m', VersionDeleteState.Commit commit_id undo m1 = Ok m' /\
    wf_manager m' /\
    (forall row, row_insert_id m' row = row_insert_id m row) /\
    (forall row, row ∈ concat stmts -> row_delete_id m row = NOT_DELETED_ID) /\
    forall row, row_delete_id m' row = if decide (row ∈ concat stmts) then commit_id else row_delete_id m row.
Proof. intros. by eapply transaction_commit. Qed.

(** An append followed by its commit: while it is uncommitted the new rows carry the id of the
    transaction, afterwards they carry the commit id; the rows before it keep their insert ids and
    every row keeps its delete id. *)
Theorem append_then_commit transaction commit_id start end_ m :
  wf_manager m -> (start < end_)%nat -> fresh_from start m -> transaction_id transaction <> 0 ->
  (forall row, (row < start)%nat -> row_insert_id m row <> transaction_id transaction) ->
  exists m1 m2, RowVersionManager.AppendVersionInfo transaction start end_ m = Ok m1 /\
    RowVersionManager.CommitAppend commit_id start (end_ - start) m1 = Ok m2 /\ wf_manager m2 /\
    forall row, (row < end_)%nat ->
      row_delete_id m2 row = row_delete_id m row /\
      row_insert_id m1 row = (if (start <=? row)%nat then transaction_id transaction else row_insert_id m row) /\
      row_insert_id m2 row = (if (start <=? row)%nat then commit_id else row_insert_id m row).
Proof. apply append_commit_rows. Qed.

(** Reverting an append leaves no version info at or after the first appended row, so that the
    rows can be appended again, and gives the rows before it the ids they had. *)
Theorem append_then_revert transaction start end_ m m1 :
  wf_manager m -> (start < end_)%nat -> fresh_from start m ->
  RowVersionManager.AppendVersionInfo transaction start end_ m = Ok m1 ->
  fresh_from start (RowVersionManager.RevertAppend start m1) /\
  forall row, (row < start)%nat ->
    row_insert_id (RowVersionManager.RevertAppend start m1) row = row_insert_id m row /\
    row_delete_id (RowVersionManager.RevertAppend start m1) row = row_delete_id m row.
Proof.
  intros Hwf Hse Hf Ha. destruct (append_version_info transaction start end_ m Hwf Hse Hf) as (m1' & Ha' & _ & _ & Hids).
  assert (m1' = m1) as -> by congruence. split.
  - intros v Hv. rewrite revert_append_infos. by rewrite (proj2 (Nat.leb_le _ _) Hv).
  - intros row Hr. destruct (Hids row) as [Hd Hi]; [lia|]. rewrite (proj2 (Nat.leb_gt _ _) Hr) in Hi.
    unfold row_insert_id, row_delete_id, info_at in *. rewrite !revert_append_infos.
    pose proof (row_position row) as [_ Hpos].
    rewrite (proj2 (Nat.leb_gt start (row / STANDARD_VECTOR_SIZE * STANDARD_VECTOR_SIZE)))
      by lia. done.
Qed.

(** C5. Compressing the version info changes nothing any transaction can see, as long as its snapshot
    is not older than the bound the compression was given. *)
Theorem compression_keeps_visibility lowest m :
  wf_manager m -> 0 < VisibilityBound.value lowest ->
  exists m', RowVersionManager.CompressVersionIds lowest m = Ok m' /\ wf_manager m' /\
    forall view row, VisibilityBound.value lowest <= VisibilityBound.value (visibility_bound view) ->
      row_visible view m' row = row_visible view m row.
Proof. apply compress_manager. Qed.

(** C6. A checkpoint followed by a reload: the version info read back shows a row that was committed
    before the bound as deleted exactly when its delete was committed before the bound, to every
    reader; the version info in memory is not changed by the checkpoint. When nothing below the bound
    is unserialized, the checkpoint writes nothing and returns the blocks that are on disk, and these
    show the same of the rows they account for - those of the last checkpoint that wrote, or all of
    them -, whatever deletes, commits, rollbacks, compressions and checkpoints with earlier bounds came
    since the row group was created or loaded. Appends in between are not followed. *)
Theorem checkpoint_then_reload rows low bound m :
  wf_manager m -> storable m -> Z.of_nat STANDARD_VECTOR_SIZE < 2 ^ 32 ->
  VisibilityBound.value bound <= NOT_DELETED_ID ->
  RowVersionManager.HasUnserializedChanges bound m = true \/
    followed rows low m /\ low <= VisibilityBound.value bound <= TRANSACTION_ID_START ->
  exists m' bytes om, RowVersionManager.Checkpoint bound m = Ok (m', bytes) /\
    RowVersionManager.Deserialize bytes = Ok om /\
    RowVersionManager.vector_info m' = RowVersionManager.vector_info m /\
    (RowVersionManager.HasUnserializedChanges bound m = false -> m' = m /\ bytes = RowVersionManager.storage m) /\
    forall view row,
      0 < VisibilityBound.value (visibility_bound view) -> HidesNotDeleted view ->
      (if RowVersionManager.HasUnserializedChanges bound m then stored_rows bound m row else rows row) ->
      reloaded_visible view om row = negb (row_delete_id m row <?b bound).
Proof.
  intros Hwf Hst H32 Hb Hcase. destruct (RowVersionManager.HasUnserializedChanges bound m) eqn:Hu.
  - destruct (checkpoint_reload bound m Hwf Hst H32 Hb Hu) as (m' & bytes & om & Hc & Hd & Hv & Hvis).
    exists m', bytes, om. split_and!; try done. intros view row Hp Hh [? ?]. by apply Hvis.
  - destruct Hcase as [?|[Hf Hlow]]; [done|]. destruct (followed_current H32 _ _ _ Hf) as [_ _ (om & Hd & Hdisk)].
    exists m, (RowVersionManager.storage m), om. unfold RowVersionManager.Checkpoint. rewrite Hu. cbn [negb].
    split_and!; try done. intros view row Hp Hh Hr. by apply Hdisk.
Qed.

(** [HasUnserializedChanges] tracks the deletes a checkpoint has to write: committing a delete
    turns it on exactly for the bounds after its commit id (it never turns it off), and a checkpoint
    whose bound is after every committed delete turns it off. *)
Theorem unserialized_changes_tracked bound id info m m1 :
  wf_manager m -> info_ok info ->
  RowVersionManager.CommitDelete (vector_idx info) id info m = Ok m1 ->
  RowVersionManager.HasUnserializedChanges bound m1
    = (id <?b bound) || RowVersionManager.HasUnserializedChanges bound m /\
  forall m2 bytes newest, RowVersionManager.Checkpoint bound m1 = Ok (m2, bytes) ->
    RowVersionManager.newest_uncheckpointed_delete_commit m1 = Some newest ->
    newest < VisibilityBound.value bound -> RowVersionManager.HasUnserializedChanges bound m2 = false.
Proof.
  intros Hwf Hok Hc. split; [by apply (commit_delete_unserialized id info m m1)|].
  intros m2 bytes newest Hcp Hn Hlt. by eapply checkpoint_unserialized.
Qed.

(** Rolling back a delete goes through [CommitDelete] with [NOT_DELETED_ID], which then counts as
    the newest uncheckpointed delete: no later checkpoint resets the uncheckpointed ids, so a row
    group with one committed and one rolled back delete is written again by every checkpoint. *)
Theorem rollback_pins_checkpoint_ids bound info m m1 m2 bytes oldest :
  wf_manager m -> info_ok info ->
  RowVersionManager.newest_uncheckpointed_delete_commit m = Some oldest ->
  RowVersionManager.oldest_uncheckpointed_delete_commit m = Some oldest ->
  oldest < VisibilityBound.value bound <= NOT_DELETED_ID ->
  VersionDeleteState.RollbackEntry info m = Ok m1 ->
  RowVersionManager.Checkpoint bound m1 = Ok (m2, bytes) ->
  RowVersionManager.HasUnserializedChanges bound m2 = true.
Proof.
  intros Hwf Hok Hnew Hold Hb Hr Hcp. unfold VersionDeleteState.RollbackEntry in Hr.
  destruct (commit_delete_manager NOT_DELETED_ID info m Hwf Hok) as (m1' & Hc & _ & _ & _ & Hn & Ho).
  assert (m1' = m1) as -> by congruence. rewrite Hnew in Hn. rewrite Hold in Ho.
  unfold RowVersionManager.newest_with, RowVersionManager.oldest_with in Hn, Ho.
  rewrite (proj2 (Z.ltb_lt oldest NOT_DELETED_ID)) in Hn by lia.
  rewrite (proj2 (Z.ltb_ge NOT_DELETED_ID oldest)) in Ho by lia.
  destruct (checkpoint_keeps_oldest bound m1 m2 bytes _ Hcp Hn) as [_ Hk]; [lia|].
  unfold RowVersionManager.HasUnserializedChanges. rewrite Hk, Ho. apply Z.ltb_lt. lia.
Qed.

(** [ChunkVectorInfo::HasUncommittedChanges] holds exactly when some row carries an uncommitted
    insert id or an uncommitted delete id. *)
Theorem uncommitted_changes_exact c :
  ChunkVectorInfo.wf c ->
  ChunkVectorInfo.HasUncommittedChanges c = Ok (existsb (uncommitted_row c) (seq 0 STANDARD_VECTOR_SIZE)).
Proof. apply has_uncommitted_rows. Qed.
End Theorems.

(** ** Witnesses *)

#[local] Existing Instance four_rows.

Lemma scan_selects_rows_witness :
  exists sel' count, ChunkVectorInfo.GetSelVector (scan_options_of reader) sample_chunk
      (Some [0;0;0;0]%nat) 4 = Ok (sel', count) /\
    count = count_rows (option_selected (scan_options_of reader) sample_chunk) 4 /\
    ((0 < count < 4)%nat -> forall s, Some [0;0;0;0]%nat = Some s -> (4 <= length s)%nat ->
       exists s', sel' = Some s' /\ take count s' = rows (option_selected (scan_options_of reader) sample_chunk) 4).
Proof.
  apply (scan_selects_rows (scan_options_of reader) sample_chunk (Some [0;0;0;0]%nat) 4).
  - apply sample_chunk_wf.
  - done.
  - apply wf_hides_not_deleted, reader_wf.
Defined.

Lemma row_group_count_witness :
  RowVersionManager.GetRowCount (scan_options_of reader) 0 7 sample_manager = Ok 6%nat.
Proof.
  rewrite (row_group_count (scan_options_of reader) 0 7 sample_manager).
  - reflexivity.
  - apply sample_manager_wf.
  - apply wf_hides_not_deleted, reader_wf.
Defined.

Lemma delete_marks_rows_witness :
  delete_outcome writer_id [0]%nat 1 sample_chunk
    (ChunkVectorInfo.Delete writer_id [0]%nat 1 sample_chunk) /\
  snd (ChunkVectorInfo.Delete writer_id [1]%nat 1 sample_chunk) = Throw ChunkVectorInfo.conflict.
Proof.
  split; [|reflexivity]. apply (delete_marks_rows).
  - apply sample_chunk_wf.
  - done.
  - cbn; lia.
  - intros m Hm. assert (m = 0)%nat as -> by lia. cbn. lia.
Defined.

Lemma statement_deletes_rows_witness :
  exists st n, VersionDeleteState.RowGroupDelete writer_id 0 [1; 4; 2]%nat sample_manager [] = (st, Ok n) /\
    forall row, row_delete_id (VersionDeleteState.manager st) row
      = if decide (row ∈ [1; 4; 2]%nat) then writer_id else row_delete_id sample_manager row.
Proof.
  eexists _, _. split; [vm_compute; reflexivity|].
  apply (statement_deletes_rows writer_id 0 [1; 4; 2]%nat sample_manager [] _ 3%nat).
  - done.
  - apply sample_manager_wf.
  - cbn; lia.
  - vm_compute. reflexivity.
Defined.

(** The second statement fails: row 5 was deleted by a transaction that has committed. *)
Lemma rollback_restores_rows_witness :
  exists m1 undo m2, run_statements writer_id 0 [[1; 4]; [2; 5]]%nat sample_manager [] = (m1, undo) /\
    VersionDeleteState.Rollback undo m1 = Ok m2 /\ wf_manager m2 /\
    forall row, row_delete_id m2 row = row_delete_id sample_manager row /\
                row_insert_id m2 row = row_insert_id sample_manager row.
Proof.
  destruct (run_statements writer_id 0 [[1; 4]; [2; 5]]%nat sample_manager []) as [m1 undo] eqn:Hrun.
  destruct (rollback_restores_rows writer_id 0 [[1; 4]; [2; 5]]%nat sample_manager m1 undo) as (m2 & H).
  - done.
  - done.
  - apply sample_manager_wf.
  - apply sample_manager_other.
  - repeat constructor; cbn; lia.
  - done.
  - exists m1, undo, m2. split; [reflexivity|exact H].
Defined.

Lemma commit_deletes_rows_witness :
  exists m1 undo m', run_all writer_id 0 [[1; 4]; [4; 0]]%nat sample_manager [] = Some (m1, undo) /\
    VersionDeleteState.Commit 20 undo m1 = Ok m' /\
    forall row, row_delete_id m' row
      = if decide (row ∈ [1; 4; 4; 0]%nat) then 20 else row_delete_id sample_manager row.
Proof.
  destruct (run_all writer_id 0 [[1; 4]; [4; 0]]%nat sample_manager []) as [[m1 undo]|] eqn:Hrun; [|by vm_compute in Hrun].
  destruct (commit_deletes_rows writer_id 0 [[1; 4]; [4; 0]]%nat sample_manager m1 undo 20) as (m' & H & _ & _ & _ & H').
  - done.
  - apply sample_manager_wf.
  - done.
  - apply sample_manager_other.
  - repeat constructor; cbn; lia.
  - done.
  - exists m1, undo, m'. split; [reflexivity|]. split; [exact H|exact H'].
Defined.

(** Appending the rows 6 to 9 to a row group that holds the rows 0 to 5. *)
Definition append_manager : RowVersionManager.t :=
  RowVersionManager.mk [None; Some (ChunkVectorInfo.make 4 3 NOT_DELETED_ID)] None None [] false.

Lemma append_manager_wf : wf_manager append_manager.
Proof. intros [|[|v]] c; cbn; intros Heq; simplify_eq. by split. Qed.

Lemma append_manager_fresh : fresh_from 6 append_manager.
Proof.
  intros [|[|v]] Hv; cbn in Hv |- *; [done|lia|]. unfold RowVersionManager.GetChunkInfo. cbn. done.
Qed.

Lemma append_manager_other row : row_insert_id append_manager row <> transaction_id reader.
Proof.
  unfold row_insert_id. generalize (row mod STANDARD_VECTOR_SIZE)%nat as i.
  generalize (row / STANDARD_VECTOR_SIZE)%nat as v. by intros [|[|v]] i.
Qed.

Lemma append_then_commit_witness :
  exists m1 m2, RowVersionManager.AppendVersionInfo reader 6 10 append_manager = Ok m1 /\
    RowVersionManager.CommitAppend 11 6 4 m1 = Ok m2 /\ wf_manager m2 /\
    forall row, (row < 10)%nat ->
      row_delete_id m2 row = row_delete_id append_manager row /\
      row_insert_id m1 row
        = (if (6 <=? row)%nat then transaction_id reader else row_insert_id append_manager row) /\
      row_insert_id m2 row = (if (6 <=? row)%nat then 11 else row_insert_id append_manager row).
Proof.
  apply (append_then_commit reader 11 6 10 append_manager).
  - apply append_manager_wf.
  - lia.
  - apply append_manager_fresh.
  - done.
  - intros row _. apply append_manager_other.
Defined.

Lemma append_then_revert_witness :
  exists m1, RowVersionManager.AppendVersionInfo reader 6 10 append_manager = Ok m1 /\
    fresh_from 6 (RowVersionManager.RevertAppend 6 m1).
Proof.
  destruct (RowVersionManager.AppendVersionInfo reader 6 10 append_manager) as [m1|e] eqn:Ha.
  - exists m1. split; [done|]. destruct (append_then_revert reader 6 10 append_manager m1) as [Hf _].
    + apply append_manager_wf.
    + lia.
    + apply append_manager_fresh.
    + done.
    + done.
  - exfalso. vm_compute in Ha. congruence.
Defined.

Lemma compression_keeps_visibility_witness :
  exists m', RowVersionManager.CompressVersionIds (VisibilityBound.Before 10) sample_manager = Ok m' /\
    wf_manager m' /\
    forall view row, 10 <= VisibilityBound.value (visibility_bound view) ->
      row_visible view m' row = row_visible view sample_manager row.
Proof.
  apply (compression_keeps_visibility (VisibilityBound.Before 10) sample_manager).
  - apply sample_manager_wf.
  - cbn. lia.
Defined.

(** Vector 1 of the sample, after its deletes were committed. *)
Definition checkpoint_manager : RowVersionManager.t :=
  RowVersionManager.mk (RowVersionManager.vector_info sample_manager) (Some 12) (Some 5) [] true.

Lemma checkpoint_manager_storable : storable checkpoint_manager.
Proof.
  split; [|done]. intros [|[|v]] c; cbn; intros Heq; simplify_eq;
    (split; [vm_compute; reflexivity|split; [vm_compute; discriminate|vm_compute; reflexivity]]).
Qed.

(** What the checkpoint before 10 wrote, read back; and the same with row 6 deleted by the writer. *)
Definition reloaded_manager : RowVersionManager.t := Eval vm_compute in
  match RowVersionManager.Checkpoint (VisibilityBound.Before 10) checkpoint_manager with
  | Ok (_, bytes) => match RowVersionManager.Deserialize bytes with Ok (Some m) => m | _ => sample_manager end
  | Throw _ => sample_manager
  end.
Definition later_manager : RowVersionManager.t := Eval vm_compute in
  (RowVersionManager.DeleteRows 1 writer_id [2%nat] 1 reloaded_manager).1.1.

Lemma later_followed : followed (fun _ => True) 1 later_manager.
Proof.
  apply (followed_delete _ _ reloaded_manager 1 writer_id [2%nat] 1 _ [2%nat] (Ok 1%nat));
    [|by vm_compute|by vm_compute|cbn; lia|intros [|k] Hk; cbn in *; lia|vm_compute; reflexivity].
  apply (followed_load (RowVersionManager.storage reloaded_manager)); [vm_compute; reflexivity|].
  intros [|[|v]] c; cbn; intros Heq; simplify_eq. split; cbn; [done|done|]. intros _. split; [|done].
  split; [done|]. repeat constructor; by vm_compute.
Qed.

Lemma later_wf : wf_manager later_manager.
Proof. intros [|[|v]] c; cbn; intros Heq; simplify_eq. split; cbn; [done|intros _; eauto|done]. Qed.

Lemma later_storable : storable later_manager.
Proof.
  split; [|done]. intros [|[|v]] c; cbn; intros Heq; simplify_eq;
    (split; [vm_compute; reflexivity|split; [vm_compute; discriminate|vm_compute; reflexivity]]).
Qed.

Lemma checkpoint_then_reload_witness :
  (exists m' bytes om, RowVersionManager.Checkpoint (VisibilityBound.Before 10) checkpoint_manager = Ok (m', bytes) /\
     RowVersionManager.Deserialize bytes = Ok om /\
     reloaded_visible reader om 5 = false /\ reloaded_visible reader om 6 = true) /\
  exists om, RowVersionManager.Checkpoint (VisibilityBound.Before 20) later_manager = Ok (later_manager, RowVersionManager.storage later_manager) /\
    RowVersionManager.Deserialize (RowVersionManager.storage later_manager) = Ok om /\
    reloaded_visible reader om 5 = false /\ reloaded_visible reader om 6 = true.
Proof.
  split.
  - destruct (checkpoint_then_reload (fun _ => False) 0 (VisibilityBound.Before 10) checkpoint_manager)
      as (m' & bytes & om & Hc & Hd & _ & _ & Hv).
    + apply sample_manager_wf.
    + apply checkpoint_manager_storable.
    + done.
    + done.
    + by left.
    + exists m', bytes, om. split; [done|]. split; [done|].
      split; rewrite (Hv reader); try done; apply wf_view_hides, reader_wf.
  - destruct (checkpoint_then_reload (fun _ => True) 1 (VisibilityBound.Before 20) later_manager)
      as (m' & bytes & om & Hc & Hd & _ & Hsame & Hv).
    + apply later_wf.
    + apply later_storable.
    + done.
    + done.
    + right. split; [apply later_followed|by vm_compute].
    + destruct Hsame as [-> ->]; [done|]. exists om. split; [done|]. split; [done|].
      split; rewrite (Hv reader); try done; apply wf_view_hides, reader_wf.
Defined.

(** The undo entry of a delete of row 2 of vector 0. *)
Definition sample_info : DeleteInfo := mkDeleteInfo 0 1 0 false [2]%nat.

Lemma sample_info_ok : info_ok sample_info.
Proof. split; cbn; [|done|done]. intros r ->%list_elem_of_singleton. lia. Qed.

Lemma unserialized_changes_tracked_witness :
  exists m1, RowVersionManager.CommitDelete 0 7 sample_info sample_manager = Ok m1 /\
    RowVersionManager.HasUnserializedChanges (VisibilityBound.Before 10) m1 = true.
Proof.
  destruct (RowVersionManager.CommitDelete 0 7 sample_info sample_manager) as [m1|e] eqn:Hc.
  - exists m1. split; [done|].
    destruct (unserialized_changes_tracked (VisibilityBound.Before 10) 7 sample_info sample_manager m1) as [H _].
    + apply sample_manager_wf.
    + apply sample_info_ok.
    + done.
    + rewrite H. reflexivity.
  - exfalso. vm_compute in Hc. congruence.
Defined.

(** Row 2 of vector 0 is deleted and rolled back while the delete committed at 7 is not yet
    checkpointed; a checkpoint of everything committed before 10 leaves the changes unserialized. *)
Lemma rollback_pins_checkpoint_ids_witness :
  exists m1 m2 bytes,
    VersionDeleteState.RollbackEntry sample_info
      (RowVersionManager.set_checkpoint_ids (Some 7) (Some 7) sample_manager) = Ok m1 /\
    RowVersionManager.Checkpoint (VisibilityBound.Before 10) m1 = Ok (m2, bytes) /\
    RowVersionManager.HasUnserializedChanges (VisibilityBound.Before 10) m2 = true.
Proof.
  destruct (VersionDeleteState.RollbackEntry sample_info
      (RowVersionManager.set_checkpoint_ids (Some 7) (Some 7) sample_manager)) as [m1|e] eqn:Hr;
    [|exfalso; vm_compute in Hr; congruence].
  destruct (RowVersionManager.Checkpoint (VisibilityBound.Before 10) m1) as [[m2 bytes]|e] eqn:Hc.
  - exists m1, m2, bytes. split; [done|]. split; [done|].
    apply (rollback_pins_checkpoint_ids (VisibilityBound.Before 10) sample_info
      (RowVersionManager.set_checkpoint_ids (Some 7) (Some 7) sample_manager) m1 m2 bytes 7).
    + apply sample_manager_wf.
    + apply sample_info_ok.
    + reflexivity.
    + reflexivity.
    + cbn. unfold NOT_DELETED_ID, u64_max. lia.
    + done.
    + done.
  - exfalso. vm_compute in Hr. injection Hr as <-. vm_compute in Hc. congruence.
Defined.

Lemma uncommitted_changes_exact_witness :
  ChunkVectorInfo.HasUncommittedChanges sample_chunk = Ok true.
Proof.
  rewrite (uncommitted_changes_exact sample_chunk).
  - reflexivity.
  - apply sample_chunk_wf.
Defined.
