(* ===== verification/CatalogSet.v ===== *)
(** * The versioned catalog

    Models [catalog/catalog_set.cpp], the version links of [catalog/catalog_entry.cpp] and the
    [CATALOG_ENTRY] cases of [transaction/commit_state.cpp] and [transaction/rollback_state.cpp].
    Entries live in a heap: the [child] pointer owns the older version, [parent] points back to the
    newer one, and the undo buffer refers to entries by address. An operation runs under the
    catalog's write lock and the set's lock: it is one atomic step. *)

From S2P Require Import Prelude Snapshot.

Local Open Scope Z_scope.

(** Identifiers compare case-insensitively: the model keeps the folded name. *)
Abbreviation Identifier := string.

Definition DEFAULT_SCHEMA : Identifier := "main".

Inductive CatalogType :=
  | INVALID | TABLE_ENTRY | SCHEMA_ENTRY | VIEW_ENTRY | INDEX_ENTRY | PREPARED_STATEMENT
  | SEQUENCE_ENTRY | COLLATION_ENTRY | TYPE_ENTRY | DATABASE_ENTRY | COORDINATE_SYSTEM_ENTRY
  | TRIGGER_ENTRY | TABLE_FUNCTION_ENTRY | SCALAR_FUNCTION_ENTRY | AGGREGATE_FUNCTION_ENTRY
  | PRAGMA_FUNCTION_ENTRY | COPY_FUNCTION_ENTRY | MACRO_ENTRY | TABLE_MACRO_ENTRY
  | WINDOW_FUNCTION_ENTRY | DELETED_ENTRY | RENAMED_ENTRY | SECRET_ENTRY | SECRET_TYPE_ENTRY
  | SECRET_FUNCTION_ENTRY | DEPENDENCY_ENTRY.

#[export] Instance CatalogType_eq_dec : EqDecision CatalogType.
Proof. solve_decision. Defined.

Abbreviation addr := nat.

Record CatalogEntry := mkEntry {
  oid : Z;
  type : CatalogType;
  name : Identifier;
  deleted : bool;
  temporary : bool;
  internal : bool;
  timestamp : Z;
  child : option addr;
  parent : option addr
}.

Definition set_timestamp (ts : Z) (e : CatalogEntry) : CatalogEntry :=
  mkEntry (oid e) (type e) (name e) (deleted e) (temporary e) (internal e) ts (child e) (parent e).
Definition set_child (c : option addr) (e : CatalogEntry) : CatalogEntry :=
  mkEntry (oid e) (type e) (name e) (deleted e) (temporary e) (internal e) (timestamp e) c (parent e).
Definition set_parent (p : option addr) (e : CatalogEntry) : CatalogEntry :=
  mkEntry (oid e) (type e) (name e) (deleted e) (temporary e) (internal e) (timestamp e) (child e) p.
Definition set_oid (o : Z) (e : CatalogEntry) : CatalogEntry :=
  mkEntry o (type e) (name e) (deleted e) (temporary e) (internal e) (timestamp e) (child e) (parent e).

(** [make_uniq<InCatalogEntry>(type, catalog, name)], then [timestamp] and [deleted]. *)
Definition InCatalogEntry (o : Z) (ty : CatalogType) (n : Identifier) (ts : Z) (del : bool) : CatalogEntry :=
  mkEntry o ty n del false false ts None None.

(** [CatalogTransaction]: the view, and whether there is a transaction whose undo buffer to use. *)
Record CatalogTransaction := mkCatalogTransaction {
  view : SnapshotView;
  has_transaction : bool
}.

(** Which catalog the set belongs to. *)
Record DuckCatalog := mkDuckCatalog {
  IsSystemCatalog : bool;
  IsTemporaryCatalog : bool
}.

(** The heap of entries, the [CatalogEntryMap], the next free address, the next oid of the database
    and the undo buffer entries pushed so far (transaction id and entry), newest first. *)
Record CatalogSet := mkSet {
  heap : gmap addr CatalogEntry;
  entries : gmap Identifier addr;
  next_addr : addr;
  next_oid : Z;
  undo_buffer : list (Z * addr)
}.

Definition empty_set : CatalogSet := mkSet ∅ ∅ 0%nat 0 [].

Definition set_heap (h : gmap addr CatalogEntry) (s : CatalogSet) : CatalogSet :=
  mkSet h (entries s) (next_addr s) (next_oid s) (undo_buffer s).
Definition set_entries (m : gmap Identifier addr) (s : CatalogSet) : CatalogSet :=
  mkSet (heap s) m (next_addr s) (next_oid s) (undo_buffer s).

Definition null_pointer : exception :=
  InternalException "Attempted to dereference unique_ptr that is NULL!".

(** [*a]: the object an entry pointer refers to. *)
Definition deref (s : CatalogSet) (a : addr) : result CatalogEntry :=
  match heap s !! a with Some e => mret e | None => Throw null_pointer end.

(** Puts a new object on the heap. *)
Definition alloc (e : CatalogEntry) (s : CatalogSet) : CatalogSet * addr :=
  (mkSet (<[next_addr s := e]> (heap s)) (entries s) (S (next_addr s)) (next_oid s) (undo_buffer s),
   next_addr s).

(** [DatabaseManager::NextOid] *)
Definition NextOid (s : CatalogSet) : CatalogSet * Z :=
  (mkSet (heap s) (entries s) (next_addr s) (next_oid s + 1) (undo_buffer s), next_oid s).

(** ** Version links (catalog/catalog_entry.cpp) *)

Definition update (a : addr) (f : CatalogEntry -> CatalogEntry) (s : CatalogSet) : CatalogSet :=
  set_heap (alter f a (heap s)) s.

(** Destroying the object behind a [unique_ptr]. *)
Definition free (a : addr) (s : CatalogSet) : CatalogSet := set_heap (delete a (heap s)) s.

(** [child = std::move(child_p)] destroys the previous child, if there is one and it is not the one
    that is moved in. *)
Definition SetChild (a : addr) (child_p : option addr) (s : CatalogSet) : result CatalogSet :=
  e ← deref s a;
  let s := match child e with
           | Some old => if decide (child_p = Some old) then s else free old s
           | None => s
           end in
  let s := update a (set_child child_p) s in
  mret (match child_p with Some c => update c (set_parent (Some a)) s | None => s end).

Definition TakeChild (a : addr) (s : CatalogSet) : result (CatalogSet * option addr) :=
  e ← deref s a;
  let s := match child e with Some c => update c (set_parent None) s | None => s end in
  mret (update a (set_child None) s, child e).

Definition HasChild (e : CatalogEntry) : bool := match child e with Some _ => true | None => false end.
Definition HasParent (e : CatalogEntry) : bool := match parent e with Some _ => true | None => false end.

Definition Child (s : CatalogSet) (a : addr) : result addr :=
  e ← deref s a; match child e with Some c => mret c | None => Throw null_pointer end.
Definition Parent (s : CatalogSet) (a : addr) : result addr :=
  e ← deref s a; match parent e with Some p => mret p | None => Throw null_pointer end.

(** ** [CatalogEntryMap] *)

Module CatalogEntryMap.
Definition GetEntry (n : Identifier) (s : CatalogSet) : option addr := entries s !! n.

Definition AddEntry (a : addr) (s : CatalogSet) : result CatalogSet :=
  e ← deref s a;
  match entries s !! name e with
  | Some _ => Throw (InternalException "Entry with name already exists")
  | None => mret (set_entries (<[name e := a]> (entries s)) s)
  end.

Definition UpdateEntry (a : addr) (s : CatalogSet) : result CatalogSet :=
  e ← deref s a;
  match entries s !! name e with
  | None => Throw (InternalException "Entry with name does not exist")
  | Some existing => SetChild a (Some existing) (set_entries (<[name e := a]> (entries s)) s)
  end.

Definition DropEntry (a : addr) (s : CatalogSet) : result CatalogSet :=
  e ← deref s a;
  match GetEntry (name e) s with
  | None => Throw (InternalException "Attempting to drop entry but no chain with that name exists")
  | Some _ =>
      '(s, child) ← TakeChild a s;
      match parent e with
      | None =>
          let s := free a s in
          mret (match child with
                | Some c => set_entries (<[name e := c]> (entries s)) s
                | None => set_entries (delete (name e) (entries s)) s
                end)
      | Some p => SetChild p child s
      end
  end.
End CatalogEntryMap.

(** ** Visibility *)

Definition CreatedByOtherActiveTransaction (transaction : CatalogTransaction) (ts : Z) : bool :=
  negb (IsCommitted ts) && negb (ts =? transaction_id (view transaction)).
Definition CommittedAfterStarting (transaction : CatalogTransaction) (ts : Z) : bool :=
  IsCommitted ts && negb (Sees (view transaction) ts).
Definition HasConflict (transaction : CatalogTransaction) (ts : Z) : bool :=
  negb (Sees (view transaction) ts).
Definition UseTimestamp (transaction : CatalogTransaction) (ts : Z) : bool := Sees (view transaction) ts.

(** The walk down the versions; the boolean is [visible]. The heap bounds the number of steps. *)
Fixpoint entry_for_transaction (fuel : nat) (transaction : CatalogTransaction) (current : addr)
    (s : CatalogSet) : result (addr * bool) :=
  match fuel with
  | O => Throw (InternalException "version chain is cyclic")
  | S fuel' =>
      e ← deref s current;
      match child e with
      | None => mret (current, false)
      | Some c => if UseTimestamp transaction (timestamp e) then mret (current, true)
                  else entry_for_transaction fuel' transaction c s
      end
  end.

Definition GetEntryForTransaction (transaction : CatalogTransaction) (current : addr) (s : CatalogSet)
    : result (addr * bool) :=
  entry_for_transaction (size (heap s)) transaction current s.

Fixpoint committed_entry (fuel : nat) (current : addr) (s : CatalogSet) : result addr :=
  match fuel with
  | O => Throw (InternalException "version chain is cyclic")
  | S fuel' =>
      e ← deref s current;
      match child e with
      | None => mret current
      | Some c => if IsCommitted (timestamp e) then mret current else committed_entry fuel' c s
      end
  end.

Definition GetCommittedEntry (current : addr) (s : CatalogSet) : result addr :=
  committed_entry (size (heap s)) current s.

Inductive FailureReason := SUCCESS | DELETED | NOT_PRESENT | INVISIBLE.

(** ** The operations of the set *)

(** [PushCatalogEntry] into the undo buffer of the transaction. *)
Definition PushCatalogEntry (transaction : CatalogTransaction) (a : addr) (s : CatalogSet) : CatalogSet :=
  if has_transaction transaction
  then mkSet (heap s) (entries s) (next_addr s) (next_oid s)
             ((transaction_id (view transaction), a) :: undo_buffer s)
  else s.

Section Operations.
(** The catalog, the default generator (the entry it would create for a name), and the checks of
    the dependency manager, which work on other catalog sets. *)
Context (catalog : DuckCatalog)
  (defaults : Identifier -> option CatalogEntry)
  (AddObject : CatalogTransaction -> CatalogEntry -> result unit)
  (DropObject : CatalogTransaction -> CatalogEntry -> bool -> result unit)
  (AlterObject : CatalogTransaction -> CatalogEntry -> CatalogEntry -> result unit).

Definition CreateCommittedEntry (e : CatalogEntry) (s : CatalogSet) : result (CatalogSet * option addr) :=
  match CatalogEntryMap.GetEntry (name e) s with
  | Some _ => mret (s, None)
  | None =>
      let '(s, a) := alloc (set_timestamp 0 e) s in
      s ← CatalogEntryMap.AddEntry a s; mret (s, Some a)
  end.

Definition CreateDefaultEntry (n : Identifier) (s : CatalogSet) : result (CatalogSet * option addr) :=
  match defaults n with
  | None => mret (s, None)
  | Some e => CreateCommittedEntry e s
  end.

Definition StartChain (n : Identifier) (s : CatalogSet) : result (CatalogSet * bool) :=
  '(s, entry) ← CreateDefaultEntry n s;
  match entry with
  | Some _ => mret (s, false)
  | None =>
      let '(s, o) := NextOid s in
      let '(s, dummy_node) := alloc (InCatalogEntry o INVALID n 0 true) s in
      s ← CatalogEntryMap.AddEntry dummy_node s;
      mret (s, true)
  end.

Definition VerifyVacancy (transaction : CatalogTransaction) (e : CatalogEntry) : result bool :=
  if HasConflict transaction (timestamp e) then
    Throw (TransactionException "Catalog write-write conflict on create")
  else mret (deleted e).

Definition CheckCatalogEntryInvariants (value : CatalogEntry) (n : Identifier) : result unit :=
  if internal value && negb (IsSystemCatalog catalog) && negb (bool_decide (n = DEFAULT_SCHEMA)) then
    Throw (InternalException "Attempting to create internal entry in non-system catalog")
  else if internal value then mret tt
  else if negb (temporary value) && IsSystemCatalog catalog
          && negb (bool_decide (type value = DEPENDENCY_ENTRY)) then
    Throw (InternalException "Attempting to create non-internal entry in system catalog")
  else if temporary value && negb (IsTemporaryCatalog catalog) then
    Throw (InternalException "Attempting to create temporary entry in non-temporary catalog")
  else if negb (temporary value) && IsTemporaryCatalog catalog
          && negb (bool_decide (n = DEFAULT_SCHEMA)) then
    Throw (InvalidInputException "Cannot create non-temporary entry in temporary catalog")
  else mret tt.

(** Adds [value] on top of its chain and pushes the version below it. *)
Definition install (transaction : CatalogTransaction) (value : CatalogEntry) (s : CatalogSet)
    : result (CatalogSet * addr) :=
  let '(s, value_ptr) := alloc value s in
  s ← CatalogEntryMap.UpdateEntry value_ptr s;
  if has_transaction transaction then
    c ← Child s value_ptr; mret (PushCatalogEntry transaction c s, value_ptr)
  else mret (s, value_ptr).

Definition CreateEntryInternal (transaction : CatalogTransaction) (n : Identifier) (value : CatalogEntry)
    (should_be_empty : bool) (s : CatalogSet) : result (CatalogSet * bool) :=
  '(s, ok) ← (match CatalogEntryMap.GetEntry n s with
              | None => StartChain n s
              | Some entry_value =>
                  if should_be_empty then
                    e ← deref s entry_value; vacant ← VerifyVacancy transaction e; mret (s, vacant)
                  else mret (s, true)
              end);
  if ok : bool then '(s, _) ← install transaction value s; mret (s, true)
  else mret (s, false).

Definition CreateEntry (transaction : CatalogTransaction) (n : Identifier) (value : CatalogEntry)
    (s : CatalogSet) : result (CatalogSet * bool) :=
  _ ← CheckCatalogEntryInvariants value n;
  let value := set_timestamp (transaction_id (view transaction)) value in
  _ ← AddObject transaction value;
  CreateEntryInternal transaction n value true s.

(** The newest version of [n], for making a new version of it. *)
Definition GetEntryInternal (transaction : CatalogTransaction) (n : Identifier) (s : CatalogSet)
    : result (option addr) :=
  match CatalogEntryMap.GetEntry n s with
  | None => mret None
  | Some a =>
      e ← deref s a;
      if HasConflict transaction (timestamp e) then
        Throw (TransactionException "Catalog write-write conflict on alter")
      else mret (if deleted e then None else Some a)
  end.

Definition DropEntryInternal (transaction : CatalogTransaction) (n : Identifier)
    (allow_drop_internal : bool) (s : CatalogSet) : result (CatalogSet * bool) :=
  entry ← GetEntryInternal transaction n s;
  match entry with
  | None => mret (s, false)
  | Some a =>
      e ← deref s a;
      if internal e && negb allow_drop_internal then
        Throw (CatalogException "Cannot drop entry because it is an internal system entry")
      else
        let '(s, o) := NextOid s in
        let value := InCatalogEntry o DELETED_ENTRY (name e) (transaction_id (view transaction)) true in
        '(s, _) ← install transaction value s; mret (s, true)
  end.

Definition GetEntryDetailed (transaction : CatalogTransaction) (n : Identifier) (s : CatalogSet)
    : result (CatalogSet * option addr * FailureReason) :=
  match CatalogEntryMap.GetEntry n s with
  | Some a =>
      '(current, visible) ← GetEntryForTransaction transaction a s;
      e ← deref s current;
      mret (if deleted e then (s, None, if visible : bool then DELETED else INVISIBLE)
            else (s, Some current, SUCCESS))
  | None =>
      '(s, entry) ← CreateDefaultEntry n s;
      mret (s, entry, match entry with None => NOT_PRESENT | Some _ => SUCCESS end)
  end.

Definition GetEntry (transaction : CatalogTransaction) (n : Identifier) (s : CatalogSet)
    : result (CatalogSet * option addr) :=
  '(s, entry, _) ← GetEntryDetailed transaction n s; mret (s, entry).

Definition DropDependencies (transaction : CatalogTransaction) (n : Identifier)
    (cascade allow_drop_internal : bool) (s : CatalogSet) : result (CatalogSet * bool) :=
  '(s, entry) ← GetEntry transaction n s;
  match entry with
  | None => mret (s, false)
  | Some a =>
      e ← deref s a;
      if internal e && negb allow_drop_internal then
        Throw (CatalogException "Cannot drop entry because it is an internal system entry")
      else _ ← DropObject transaction e cascade; mret (s, true)
  end.

Definition DropEntry (transaction : CatalogTransaction) (n : Identifier)
    (cascade allow_drop_internal : bool) (s : CatalogSet) : result (CatalogSet * bool) :=
  '(s, ok) ← DropDependencies transaction n cascade allow_drop_internal s;
  if ok : bool then DropEntryInternal transaction n allow_drop_internal s else mret (s, false).

Definition RenameEntryInternal (transaction : CatalogTransaction) (old : addr) (new_name : Identifier)
    (s : CatalogSet) : result (CatalogSet * bool) :=
  e ← deref s old;
  let original_name := name e in
  _ ← (match CatalogEntryMap.GetEntry new_name s with
       | None => mret tt
       | Some a =>
           '(existing, _) ← GetEntryForTransaction transaction a s;
           existing_entry ← deref s existing;
           if deleted existing_entry then mret tt
           else Throw (CatalogException "Could not rename: another entry with this name already exists!")
       end);
  let '(s, o) := NextOid s in
  let renamed_tombstone :=
    InCatalogEntry o RENAMED_ENTRY original_name (transaction_id (view transaction)) false in
  '(s, ok) ← CreateEntryInternal transaction original_name renamed_tombstone false s;
  if negb ok then mret (s, false)
  else
    '(s, ok) ← DropEntryInternal transaction original_name false s;
    if negb ok then mret (s, false)
    else
      let '(s, o) := NextOid s in
      let renamed_node := InCatalogEntry o RENAMED_ENTRY new_name (transaction_id (view transaction)) false in
      CreateEntryInternal transaction new_name renamed_node true s.

(** [alter] is what [entry->AlterEntry] (or [Copy] with the new comment) computes: the altered
    entry, or none when the alter had no effect. Left out, as none of it changes a version: [UndoAlter]
    of the old entry before the rename throws, [SetAsRoot] of the new one, and the [table_entry] of the
    transaction's local storage. *)
Definition AlterEntry (transaction : CatalogTransaction) (n : Identifier) (allow_internal : bool)
    (alter : CatalogEntry -> result (option CatalogEntry)) (s : CatalogSet) : result (CatalogSet * bool) :=
  '(s, entry) ← GetEntry transaction n s;
  match entry with
  | None => mret (s, false)
  | Some a0 =>
      e0 ← deref s a0;
      if negb allow_internal && internal e0 then
        Throw (CatalogException "Cannot alter entry because it is an internal system entry")
      else
      value ← alter e0;
      match value with
      | None => mret (s, true)
      | Some value =>
          entry ← GetEntryInternal transaction n s;
          match entry with
          | None => Throw null_pointer
          | Some a =>
              e ← deref s a;
              let value := set_oid (oid e) (set_timestamp (transaction_id (view transaction)) value) in
              '(s, ok) ← (if bool_decide (name value = name e) then mret (s, true)
                          else RenameEntryInternal transaction a (name value) s);
              if negb ok then mret (s, false)
              else
                '(s, new_entry) ← install transaction value s;
                s ← (if has_transaction transaction then mret s
                     else '(s, entry_to_destroy) ← TakeChild new_entry s;
                          mret (match entry_to_destroy with Some c => free c s | None => s end));
                _ ← AlterObject transaction e value;
                mret (s, true)
          end
      end
  end.
End Operations.

(** ** Commit, rollback and cleanup of the undo buffer's entries *)

Definition UpdateTimestamp (a : addr) (ts : Z) (s : CatalogSet) : CatalogSet := update a (set_timestamp ts) s.

(** The timestamp update of [CommitState::CommitEntry]. *)
Definition CommitCatalogEntry (commit_id : Z) (old_entry : addr) (s : CatalogSet) : result CatalogSet :=
  p ← Parent s old_entry; mret (UpdateTimestamp p commit_id s).

(** [CommitState::RevertCommit] *)
Definition RevertCommit (transaction_id : Z) (a : addr) (s : CatalogSet) : result CatalogSet :=
  e ← deref s a;
  p ← Parent s a;
  pe ← deref s p;
  let s := UpdateTimestamp p transaction_id s in
  mret (if bool_decide (name e = name pe) then s else UpdateTimestamp a transaction_id s).

(** Left out, as they work on what the entries own and not on the versions: the virtual
    [Rollback(entry)] of the node that is removed, and [SetAsRoot] of its child. *)
Definition Undo (a : addr) (s : CatalogSet) : result CatalogSet :=
  to_be_removed_node ← Parent s a;
  s ← CatalogEntryMap.DropEntry to_be_removed_node s;
  e ← deref s a;
  if decide (type e = INVALID) then CatalogEntryMap.DropEntry a s else mret s.

Definition CleanupEntry (a : addr) (s : CatalogSet) : result CatalogSet :=
  p ← Parent s a;
  s ← CatalogEntryMap.DropEntry a s;
  pe ← deref s p;
  if deleted pe && negb (HasChild pe) && negb (HasParent pe) then CatalogEntryMap.DropEntry p s
  else mret s.

(** ** Scans: the entries handed to the callback; the order of the names is not modelled *)

Fixpoint collect {A} (f : addr -> result (list A)) (heads : list addr) : result (list A) :=
  match heads with
  | [] => mret []
  | a :: rest => x ← f a; xs ← collect f rest; mret (x ++ xs)
  end.

Definition Scan (transaction : CatalogTransaction) (s : CatalogSet) : result (list addr) :=
  collect (fun a =>
    '(current, _) ← GetEntryForTransaction transaction a s;
    e ← deref s current;
    mret (if deleted e then [] else [current])) (map_to_list (entries s)).*2.

Definition ScanCommitted (s : CatalogSet) : result (list addr) :=
  collect (fun a =>
    current ← GetCommittedEntry a s;
    e ← deref s current;
    mret (if deleted e then [] else [current])) (map_to_list (entries s)).*2.

Definition GetHeadEntry (n : Identifier) (s : CatalogSet) : option addr := CatalogEntryMap.GetEntry n s.

(** The entries scanned and the conflicting heads. *)
Definition ScanWithConflictDetection (transaction : CatalogTransaction) (s : CatalogSet)
    : result (list (addr + addr)) :=
  collect (fun a =>
    head ← deref s a;
    '(current, _) ← GetEntryForTransaction transaction a s;
    e ← deref s current;
    mret ((if HasConflict transaction (timestamp head) && negb (deleted head) then [inr a] else []) ++
          (if deleted e then [] else [inl current]))) (map_to_list (entries s)).*2.
