(* ===== verification/CatalogSetFacts.v ===== *)
(** * The versioned catalog: version chains and what the operations do to them

    The heap represents, for every name, a list of versions, newest first; the operations of
    [CatalogSet] are push, remove and update of that list. *)

From S2P Require Import Prelude Snapshot CatalogSet.

Local Open Scope Z_scope.

(** ** Version chains in the heap *)

(** [chain h p a es]: following [child] from [a] visits the entries [es]; every entry points back to
    the one above it, the first one to [p]. *)
Inductive chain (h : gmap addr CatalogEntry) : option addr -> addr -> list (addr * CatalogEntry) -> Prop :=
  | chain_last p a e :
      h !! a = Some e -> parent e = p -> child e = None -> chain h p a [(a, e)]
  | chain_cons p a e c es :
      h !! a = Some e -> parent e = p -> child e = Some c -> chain h (Some a) c es ->
      chain h p a ((a, e) :: es).

(** The versions of [n], newest first. *)
Definition chain_at (s : CatalogSet) (n : Identifier) (es : list (addr * CatalogEntry)) : Prop :=
  match entries s !! n with
  | None => es = []
  | Some a => chain (heap s) None a es /\ NoDup es.*1 /\ Forall (fun x => name x.2 = n) es
  end.

(** The heap represents a chain for every name, and the next address is free. *)
Record rep (s : CatalogSet) : Prop := {
  rep_chains : forall n, exists es, chain_at s n es;
  rep_fresh : forall a, (next_addr s <= a)%nat -> heap s !! a = None
}.

Lemma chain_head h p a es : chain h p a es -> exists e es', es = (a, e) :: es' /\ h !! a = Some e /\ parent e = p.
Proof. inversion 1; subst; eexists _, _; (split; [done|]); done. Qed.

Lemma chain_lookup h p a es : chain h p a es -> Forall (fun x => h !! x.1 = Some x.2) es.
Proof. induction 1; constructor; auto. Qed.

Lemma chain_fun h p a es es' : chain h p a es -> chain h p a es' -> es = es'.
Proof.
  intros H. revert es'. induction H as [p a e He Hp Hc|p a e c es He Hp Hc Hrest IH]; intros es' H';
    inversion H'; subst; simplify_eq; [done|]. f_equal. by apply IH.
Qed.

Lemma chain_at_fun s n es es' : chain_at s n es -> chain_at s n es' -> es = es'.
Proof.
  unfold chain_at. destruct (entries s !! n); [|congruence].
  intros [H _] [H' _]. by eapply chain_fun.
Qed.

(** A chain only depends on the heap at its own addresses. *)
Lemma chain_frame h h' p a es :
  chain h p a es -> (forall b, b ∈ es.*1 -> h' !! b = h !! b) -> chain h' p a es.
Proof.
  induction 1 as [p a e He Hp Hc|p a e c es He Hp Hc Hrest IH]; intros Hag; cbn in Hag.
  - constructor; [|done..]. rewrite Hag by left. done.
  - econstructor; [|done|done|]; [rewrite Hag by left; done|]. apply IH. intros b Hb. apply Hag. by right.
Qed.

(** Chains of different names do not share addresses. *)
Lemma chain_at_lookup s n es : chain_at s n es -> Forall (fun x => heap s !! x.1 = Some x.2 /\ name x.2 = n) es.
Proof.
  unfold chain_at. destruct (entries s !! n) as [a|]; [|by intros ->].
  intros (Hc & _ & Hn). apply chain_lookup in Hc. rewrite Forall_forall in *. eauto.
Qed.

Lemma chain_at_in s n es b : chain_at s n es -> b ∈ es.*1 -> exists e, heap s !! b = Some e /\ name e = n.
Proof.
  intros Hc ((b' & e) & -> & Hin)%list_elem_of_fmap. apply chain_at_lookup in Hc.
  rewrite Forall_forall in Hc. destruct (Hc _ Hin). by exists e.
Qed.

(** Another name's chain survives changes to the objects of name [n] and to fresh addresses. *)
Lemma chain_at_frame s s' n m es :
  n <> m -> chain_at s m es -> entries s' !! m = entries s !! m ->
  (forall b e, heap s !! b = Some e -> name e <> n -> heap s' !! b = Some e) ->
  chain_at s' m es.
Proof.
  intros Hne Hc Hm Hh. pose proof (chain_at_in s m es) as Hin. unfold chain_at in *. rewrite Hm.
  destruct (entries s !! m) as [a|]; [|done]. destruct Hc as (Hc & Hnd & Hn). split_and!; [|done..].
  eapply chain_frame; [done|]. intros b Hb. destruct (Hin b) as (e & He & Hen); [by split_and!|done|].
  rewrite He. apply Hh; [done|]. congruence.
Qed.

(** ** Heap updates *)

Lemma lookup_update a f s b :
  heap (update a f s) !! b = if decide (a = b) then f <$> (heap s !! b) else heap s !! b.
Proof.
  unfold update, set_heap; cbn. case_decide as Hd.
  - subst. apply lookup_alter_eq.
  - by apply lookup_alter_ne.
Qed.

Lemma lookup_free a s b : heap (free a s) !! b = if decide (a = b) then None else heap s !! b.
Proof.
  unfold free, set_heap; cbn. case_decide as Hd.
  - subst. apply lookup_delete_eq.
  - by apply lookup_delete_ne.
Qed.

(** Replacing the parent of the first entry of a chain. *)
Definition reparent (p : option addr) (es : list (addr * CatalogEntry)) : list (addr * CatalogEntry) :=
  match es with [] => [] | (a, e) :: es => (a, set_parent p e) :: es end.

Lemma reparent_fst p es : (reparent p es).*1 = es.*1.
Proof. by destruct es as [|[a e] es]. Qed.

Lemma chain_reparent h h' p q a es :
  chain h p a es -> NoDup es.*1 ->
  h' !! a = set_parent q <$> (h !! a) -> (forall b, b ∈ es.*1 -> b <> a -> h' !! b = h !! b) ->
  chain h' q a (reparent q es).
Proof.
  intros Hc Hnd Ha Hb. inversion Hc as [? ? e He Hp Hch|? ? e c es' He Hp Hch Hrest]; subst; cbn in *.
  - rewrite He in Ha. by constructor.
  - rewrite He in Ha. econstructor; [done|done|done|]. apply NoDup_cons in Hnd as [Hnot _].
    eapply chain_frame; [done|]. intros b Hb'. apply Hb; [by right|]. intros ->. done.
Qed.

(** ** The abstract state: the versions of a name

    A version is an entry without its links, together with its address. *)

Definition erase (e : CatalogEntry) : CatalogEntry := set_parent None (set_child None e).
Definition strip (es : list (addr * CatalogEntry)) : list (addr * CatalogEntry) :=
  (fun x => (x.1, erase x.2)) <$> es.

Definition versions_of (s : CatalogSet) (n : Identifier) (vs : list (addr * CatalogEntry)) : Prop :=
  exists es, chain_at s n es /\ strip es = vs.

(** The versions of every name other than [n] are the same. *)
Definition same_elsewhere (n : Identifier) (s s' : CatalogSet) : Prop :=
  forall m vs, m <> n -> versions_of s m vs -> versions_of s' m vs.

Lemma strip_reparent p es : strip (reparent p es) = strip es.
Proof. by destruct es as [|[a e] es]. Qed.

Lemma strip_fst es : (strip es).*1 = es.*1.
Proof. unfold strip. rewrite <- list_fmap_compose. by apply list_fmap_ext. Qed.

Lemma versions_fun s n vs vs' : versions_of s n vs -> versions_of s n vs' -> vs = vs'.
Proof. intros (es & H & <-) (es' & H' & <-). f_equal. by eapply chain_at_fun. Qed.

Lemma versions_exist s n : rep s -> exists vs, versions_of s n vs.
Proof. intros Hr. destruct (rep_chains s Hr n) as [es Hes]. eexists. by exists es. Qed.

Lemma versions_nil s n : versions_of s n [] <-> entries s !! n = None.
Proof.
  split.
  - intros (es & Hc & Hs). destruct es; [|done]. unfold chain_at in Hc.
    destruct (entries s !! n); [|done]. destruct Hc as [Hc _]. inversion Hc.
  - intros Hn. exists []. split; [|done]. unfold chain_at. by rewrite Hn.
Qed.

Lemma versions_head s n vs a :
  versions_of s n vs -> entries s !! n = Some a -> exists v vs', vs = (a, v) :: vs' /\ name v = n /\
    exists e, heap s !! a = Some e /\ erase e = v /\ parent e = None.
Proof.
  intros (es & Hc & <-) Hn. unfold chain_at in Hc. rewrite Hn in Hc. destruct Hc as (Hc & _ & Hall).
  destruct (chain_head _ _ _ _ Hc) as (e & es' & -> & He & Hp). inversion_clear Hall.
  eexists _, _. split; [done|]. split; [done|]. by exists e.
Qed.

Lemma same_elsewhere_of n s s' :
  (forall m, m <> n -> entries s' !! m = entries s !! m) ->
  (forall b e, heap s !! b = Some e -> name e <> n -> heap s' !! b = Some e) ->
  same_elsewhere n s s'.
Proof.
  intros He Hh m vs Hm (es & Hc & Hs). exists es. split; [|done].
  apply (chain_at_frame s s' n m); [done|done|by apply He|done].
Qed.

Lemma rep_of n vs s s' :
  rep s -> same_elsewhere n s s' -> versions_of s' n vs ->
  (forall a, (next_addr s' <= a)%nat -> heap s' !! a = None) -> rep s'.
Proof.
  intros Hr Hsame Hn Hf. split; [|done]. intros m. destruct (decide (m = n)) as [->|Hm].
  - destruct Hn as (es & ? & _). by exists es.
  - destruct (versions_exist s m Hr) as [vs' Hvs]. destruct (Hsame m vs' Hm Hvs) as (es & ? & _). by exists es.
Qed.

(** ** Pushing a version *)

Lemma update_entry_push b value s vs :
  rep s -> heap s !! b = Some value -> child value = None -> parent value = None ->
  b ∉ vs.*1 -> (b < next_addr s)%nat -> versions_of s (name value) vs -> vs <> [] ->
  exists s', CatalogEntryMap.UpdateEntry b s = Ok s' /\
    versions_of s' (name value) ((b, value) :: vs) /\ same_elsewhere (name value) s s' /\
    rep s' /\ next_addr s' = next_addr s /\ undo_buffer s' = undo_buffer s /\
    exists a, Child s' b = Ok a /\ head vs.*1 = Some a.
Proof.
  intros Hr Hb Hbc Hbp Hnot Hlt (es & Hc & Hs) Hne. unfold CatalogEntryMap.UpdateEntry, deref. rewrite Hb.
  cbn [mbind result_bind mret result_ret]. unfold chain_at in Hc.
  destruct (entries s !! name value) as [a|] eqn:Hn; [|by subst]. destruct Hc as (Hc & Hnd & Hall).
  unfold SetChild, deref. cbn [heap set_entries]. rewrite Hb. cbn [mbind result_bind mret result_ret].
  rewrite Hbc. subst vs. rewrite strip_fst in Hnot.
  destruct (chain_head _ _ _ _ Hc) as (ea & es' & -> & Ha & Hpa).
  assert (b <> a) as Hba by (intros ->; apply Hnot; by left).
  eexists. split; [done|]. set (s' := update a _ _).
  assert (heap s' !! b = Some (set_child (Some a) value)) as Hb'.
  { subst s'. rewrite !lookup_update. cbn [heap set_entries].
    rewrite decide_False, decide_True by done. by rewrite Hb. }
  assert (heap s' !! a = Some (set_parent (Some b) ea)) as Ha'.
  { subst s'. rewrite !lookup_update. cbn [heap set_entries].
    rewrite decide_True, decide_False by done. by rewrite Ha. }
  assert (forall x, x <> a -> x <> b -> heap s' !! x = heap s !! x) as Hx.
  { intros x Hxa Hxb. subst s'. rewrite !lookup_update. by rewrite !decide_False. }
  assert (versions_of s' (name value) ((b, value) :: strip ((a, ea) :: es'))) as Hvs.
  { exists ((b, set_child (Some a) value) :: reparent (Some b) ((a, ea) :: es')). split.
    - unfold chain_at. subst s'. cbn [entries update set_heap set_entries]. rewrite lookup_insert_eq.
      split_and!.
      + econstructor; [exact Hb'|done|done|].
        eapply (chain_reparent (heap s)); [done|done|by rewrite Ha, Ha'|].
        intros x Hx1 Hx2. apply Hx; [done|]. intros ->. done.
      + cbn. constructor; [|done]. done.
      + constructor; [done|]. inversion_clear Hall. by constructor.
    - cbn. f_equal. unfold erase. destruct value; cbn in *; by subst. }
  split; [done|]. assert (same_elsewhere (name value) s s') as Hsame.
  { apply same_elsewhere_of.
    - intros m Hm. subst s'. cbn. by rewrite lookup_insert_ne by done.
    - intros x e Hxe Hname. apply Forall_cons_1 in Hall as [Hna _]. cbn in Hna.
      rewrite Hx; [done|intros ->; congruence|intros ->; congruence]. }
  split; [done|]. split.
  { apply (rep_of (name value) _ s s' Hr Hsame Hvs). intros x Hxf. change (next_addr s') with (next_addr s) in Hxf.
    rewrite Hx; [by apply (rep_fresh s Hr)| |lia]. intros ->. rewrite (rep_fresh s Hr) in Ha by done. done. }
  split_and!; [done|done|]. exists a. split; [|done]. unfold Child, deref. by rewrite Hb'.
Qed.

Lemma alloc_versions e s s' b n vs :
  rep s -> alloc e s = (s', b) -> versions_of s n vs -> versions_of s' n vs /\ b ∉ vs.*1.
Proof.
  intros Hr [= <- <-] (es & Hc & <-). split.
  - exists es. split; [|done]. pose proof (chain_at_in s n es) as Hin. unfold chain_at in *. cbn.
    destruct (entries s !! n); [|done]. destruct Hc as (Hc & Hnd & Hall). split_and!; [|done..].
    eapply chain_frame; [done|]. intros x Hx. destruct (Hin x) as (ex & Hex & _); [by split_and!|done|].
    rewrite lookup_insert_ne; [done|]. intros <-. by rewrite (rep_fresh s Hr) in Hex.
  - rewrite strip_fst. intros Hin. destruct (chain_at_in s n es (next_addr s) Hc Hin) as (ex & Hex & _).
    by rewrite (rep_fresh s Hr) in Hex.
Qed.

Lemma alloc_rep e s s' b :
  rep s -> alloc e s = (s', b) -> rep s' /\ heap s' !! b = Some e /\ (b < next_addr s')%nat /\ b = next_addr s.
Proof.
  intros Hr Ha. split.
  - split.
    + intros n. destruct (versions_exist s n Hr) as [vs Hvs].
      destruct (alloc_versions e s s' b n vs Hr Ha Hvs) as [(es & ? & _) _]. by exists es.
    + injection Ha as <- <-. cbn. intros a Hle. rewrite lookup_insert_ne by lia. apply (rep_fresh s Hr). lia.
  - injection Ha as <- <-. cbn. rewrite lookup_insert_eq. split_and!; [done|lia|done].
Qed.

(** Installing a new version pushes it on the versions of its name and records the old one. *)
Lemma install_push tx value s vs :
  rep s -> child value = None -> parent value = None ->
  versions_of s (name value) vs -> vs <> [] ->
  exists s' a, install tx value s = Ok (s', next_addr s) /\ head vs.*1 = Some a /\
    versions_of s' (name value) ((next_addr s, value) :: vs) /\ same_elsewhere (name value) s s' /\ rep s' /\
    undo_buffer s' = (if has_transaction tx then [(transaction_id (view tx), a)] else []) ++ undo_buffer s.
Proof.
  intros Hr Hc Hp Hvs Hne. unfold install. destruct (alloc value s) as [s1 b] eqn:Ha.
  destruct (alloc_rep value s s1 b Hr Ha) as (Hr1 & Hb & Hlt & ->).
  destruct (alloc_versions value s s1 _ _ _ Hr Ha Hvs) as [Hvs1 Hnot].
  destruct (update_entry_push _ value s1 vs Hr1 Hb Hc Hp Hnot Hlt Hvs1 Hne)
    as (s2 & -> & Hvs2 & Hsame & Hr2 & Hna & Hu & a & Hchild & Hhead).
  assert (same_elsewhere (name value) s s2) as Hsame'.
  { intros m vs' Hm Hv. apply Hsame; [done|]. by eapply (alloc_versions value s s1 _ m vs' Hr Ha). }
  assert (undo_buffer s1 = undo_buffer s) as Hu1 by (unfold alloc in Ha; by simplify_eq).
  cbn [mbind result_bind mret result_ret]. unfold PushCatalogEntry. destruct (has_transaction tx).
  - rewrite Hchild. cbn [mbind result_bind]. eexists _, a. split; [done|]. split_and!; [done|done|done| |].
    + destruct Hr2. by split.
    + cbn. by rewrite Hu, Hu1.
  - eexists _, a. split; [done|]. split_and!; try done. cbn. by rewrite Hu, Hu1.
Qed.

(** ** Removing a version *)

Lemma versions_cons s n a v vs :
  versions_of s n ((a, v) :: vs) -> entries s !! n = Some a /\
  exists e es, heap s !! a = Some e /\ parent e = None /\ erase e = v /\ strip es = vs /\
    NoDup (a :: es.*1) /\ Forall (fun x => name x.2 = n) ((a, e) :: es) /\
    match child e with None => es = [] | Some c => chain (heap s) (Some a) c es end.
Proof.
  intros (es & Hc & Hs). unfold chain_at in Hc. destruct (entries s !! n) as [a'|] eqn:Hn; [|by subst].
  destruct Hc as (Hc & Hnd & Hall).
  inversion Hc as [? ? e He Hp Hch|? ? e c es' He Hp Hch Hrest]; subst; cbn in Hs; simplify_eq;
    (split; [done|]).
  - exists e, []. rewrite Hch. by split_and!.
  - exists e, es'. rewrite Hch. by split_and!.
Qed.

Lemma drop_head s n a v vs :
  rep s -> versions_of s n ((a, v) :: vs) ->
  exists s', CatalogEntryMap.DropEntry a s = Ok s' /\ versions_of s' n vs /\ same_elsewhere n s s' /\
    rep s' /\ undo_buffer s' = undo_buffer s /\ next_addr s' = next_addr s.
Proof.
  intros Hr Hv. destruct (versions_cons s n a v vs Hv) as (Hn & e & es & Ha & Hp & <- & <- & Hnd & Hall & Hch).
  apply NoDup_cons in Hnd as [Hnot Hnd]. apply Forall_cons in Hall as [Hname Hall]. cbn in Hname.
  unfold CatalogEntryMap.DropEntry, deref, CatalogEntryMap.GetEntry. rewrite Ha.
  cbn [mbind result_bind mret result_ret]. rewrite Hname, Hn. unfold TakeChild, deref. rewrite Ha.
  cbn [mbind result_bind mret result_ret]. rewrite Hp.
  destruct (child e) as [c|] eqn:Hc.
  - destruct (chain_head _ _ _ _ Hch) as (ec & es' & -> & Hec & Hpc).
    assert (a <> c) as Hac by (intros ->; apply Hnot; by left).
    eexists. split; [done|]. set (s' := set_entries _ _).
    assert (heap s' !! c = Some (set_parent None ec)) as Hc'.
    { subst s'. cbn [heap set_entries]. rewrite lookup_free, !lookup_update, decide_False, decide_False by done.
      rewrite decide_True by done. by rewrite Hec. }
    assert (forall x, x <> a -> x <> c -> heap s' !! x = heap s !! x) as Hx.
    { intros x Hxa Hxc. subst s'. cbn [heap set_entries]. rewrite lookup_free, !lookup_update. by rewrite !decide_False. }
    assert (heap s' !! a = None) as Ha'.
    { subst s'. cbn [heap set_entries]. by rewrite lookup_free, decide_True. }
    assert (versions_of s' n (strip ((c, ec) :: es'))) as Hvs.
    { exists (reparent None ((c, ec) :: es')). split; [|by rewrite strip_reparent]. unfold chain_at.
      subst s'. cbn [entries set_entries]. rewrite lookup_insert_eq. split_and!.
      - eapply (chain_reparent (heap s)); [done|done|by rewrite Hec, Hc'|].
        intros x Hx1 Hx2. apply Hx; [|done]. intros ->. done.
      - done.
      - apply Forall_cons in Hall as [? ?]. by constructor. }
    assert (same_elsewhere n s s') as Hsame.
    { apply same_elsewhere_of.
      - intros m Hm. subst s'. cbn. by rewrite lookup_insert_ne by done.
      - intros x ex Hex Hne. apply Forall_cons in Hall as [Hnc _]. cbn in Hnc.
        rewrite Hx; [done|intros ->; congruence|intros ->; congruence]. }
    split_and!; try done. apply (rep_of n _ s s' Hr Hsame Hvs). intros x Hxf.
    destruct (decide (x = a)) as [->|]; [done|].
    destruct (decide (x = c)) as [->|]; [|rewrite Hx by done; by apply (rep_fresh s Hr)].
    by rewrite (rep_fresh s Hr) in Hec.
  - subst es. eexists. split; [done|]. set (s' := set_entries _ _).
    assert (versions_of s' n (strip [])) as Hvs.
    { apply versions_nil. subst s'. cbn. apply lookup_delete_eq. }
    assert (forall x, x <> a -> heap s' !! x = heap s !! x) as Hx.
    { intros x Hxa. subst s'. cbn [heap set_entries]. rewrite lookup_free, lookup_update. by rewrite !decide_False. }
    assert (same_elsewhere n s s') as Hsame.
    { apply same_elsewhere_of.
      - intros m Hm. subst s'. cbn. by rewrite lookup_delete_ne by done.
      - intros x ex Hex Hne. rewrite Hx; [done|]. intros ->. congruence. }
    split_and!; try done. apply (rep_of n _ s s' Hr Hsame Hvs). intros x Hxf.
    destruct (decide (x = a)) as [->|]; [|rewrite Hx by done; by apply (rep_fresh s Hr)].
    subst s'. cbn [heap set_entries]. by rewrite lookup_free, decide_True.
Qed.

(** A chain that runs through [p] and then [a], with the part below [a] relinked to [p]. *)
Lemma chain_remove h h' q h0 pre p ep a e post :
  chain h q h0 (pre ++ (p, ep) :: (a, e) :: post) ->
  NoDup (pre ++ (p, ep) :: (a, e) :: post).*1 ->
  h' !! p = Some (set_child (child e) ep) ->
  match post with [] => True | (c, ec) :: _ => h' !! c = Some (set_parent (Some p) ec) end ->
  (forall x, x <> p -> x <> a -> match post with [] => True | (c, _) :: _ => x <> c end -> h' !! x = h !! x) ->
  chain h' q h0 (pre ++ (p, set_child (child e) ep) :: reparent (Some p) post).
Proof.
  intros Hc Hnd Hp Hpost Hx. revert q h0 Hc. induction pre as [|[b eb] pre IH]; intros q h0 Hc; cbn [app] in *.
  - inversion Hc as [|? ? ? c es He Hpar Hch Hrest]; subst.
    inversion Hrest as [? ? ? He2 Hp2 Hc2|? ? ? c2 es He2 Hp2 Hc2 Hrest2]; subst.
    + rewrite Hc2. rewrite Hc2 in Hp. cbn. by constructor.
    + rewrite Hc2. rewrite Hc2 in Hp. econstructor; [done|done|done|].
      destruct (chain_head _ _ _ _ Hrest2) as (ec & es' & -> & Hec & _).
      eapply (chain_reparent h); [done| |by rewrite Hec|].
      * by apply NoDup_cons in Hnd as [_ [_ ?]%NoDup_cons].
      * intros x Hx1 Hx2. apply Hx; [| |done].
        -- intros ->. apply NoDup_cons in Hnd as [Hnot _]. apply Hnot. by right.
        -- intros ->. apply NoDup_cons in Hnd as [_ [Hnot _]%NoDup_cons]. done.
  - cbn [fmap list_fmap] in Hnd. apply NoDup_cons in Hnd as [Hnot Hnd].
    assert (forall y, y ∈ (pre ++ (p, ep) :: (a, e) :: post).*1 -> b <> y) as Hb by (intros y Hy ->; done).
    rewrite fmap_app in Hb. cbn in Hb.
    assert (h' !! b = h !! b) as Hbb.
    { apply Hx; [apply Hb; set_solver|apply Hb; set_solver|]. destruct post as [|[c ec] post]; [done|].
      apply Hb. cbn. set_solver. }
    inversion Hc as [? ? ? ? ? ? Heq|? ? ? c es He Hpar Hch Hrest]; subst; [by destruct pre|].
    econstructor; [by rewrite Hbb|done|done|]. by apply IH.
Qed.

(** The links around the pair [p], [a] of a chain. *)
Lemma chain_links h q h0 pre p ep a e post :
  chain h q h0 (pre ++ (p, ep) :: (a, e) :: post) ->
  parent e = Some p /\ child ep = Some a /\
  match post with [] => child e = None | (c, ec) :: _ => child e = Some c /\ h !! c = Some ec end.
Proof.
  revert q h0. induction pre as [|[b eb] pre IH]; intros q h0 Hc; cbn in Hc.
  - inversion Hc as [|? ? ? c es He Hp2 Hch2 Hrest]; subst.
    inversion Hrest as [? ? ? ? ? Hc2|? ? ? c2 es ? ? Hc2 Hrest2]; subst; [done|].
    by destruct (chain_head _ _ _ _ Hrest2) as (ec & es' & -> & Hec & _).
  - inversion Hc as [? ? ? ? ? ? Heq|? ? ? c es He Hp2 Hch2 Hrest]; subst; [by destruct pre|].
    by eapply IH.
Qed.

Lemma drop_inner s n vs1 p vp a v vs2 :
  rep s -> versions_of s n (vs1 ++ (p, vp) :: (a, v) :: vs2) ->
  exists s', CatalogEntryMap.DropEntry a s = Ok s' /\ versions_of s' n (vs1 ++ (p, vp) :: vs2) /\
    same_elsewhere n s s' /\ rep s' /\ undo_buffer s' = undo_buffer s /\ next_addr s' = next_addr s.
Proof.
  intros Hr (es & Hc & Hs). unfold strip in Hs.
  apply fmap_app_inv in Hs as (pre & rest & -> & Hs2 & ->).
  destruct rest as [|[p' ep] [|[a' e] post]]; cbn in Hs2; simplify_eq. fold (strip pre). fold (strip post).
  assert (Forall (fun x => heap s !! x.1 = Some x.2 /\ name x.2 = n) (pre ++ (p', ep) :: (a', e) :: post)) as Hlk
    by (by apply chain_at_lookup).
  apply Forall_app in Hlk as [_ [[Hpl Hpn] [[Hal Han] Hlk]%Forall_cons]%Forall_cons]. cbn in Hpl, Hpn, Hal, Han.
  unfold chain_at in Hc. destruct (entries s !! n) as [h0|] eqn:Hn; [|by destruct pre].
  destruct Hc as (Hc & Hnd & Hall).
  assert (parent e = Some p' /\ child ep = Some a' /\ match post with [] => child e = None
    | (c, ec) :: _ => child e = Some c /\ heap s !! c = Some ec end) as (Hpar & Hchp & Hch)
    by (by eapply chain_links).
  unfold CatalogEntryMap.DropEntry, deref, CatalogEntryMap.GetEntry. rewrite Hal.
  cbn [mbind result_bind mret result_ret]. rewrite Han, Hn. unfold TakeChild, deref. rewrite Hal.
  cbn [mbind result_bind mret result_ret]. rewrite Hpar.
  assert (NoDup (p' :: a' :: post.*1)) as Hnd2 by (rewrite fmap_app in Hnd; by apply NoDup_app in Hnd as (_ & _ & ?)).
  apply NoDup_cons in Hnd2 as [Hpnot [Hanot Hndp]%NoDup_cons].
  assert (p' <> a') as Hpa by (intros ->; apply Hpnot; by left).
  set (oc := child e) in *.
  assert (match oc with None => post = [] | Some c => exists ec post', post = (c, ec) :: post' /\ heap s !! c = Some ec
    /\ c <> p' /\ c <> a' /\ name ec = n end) as Hoc.
  { destruct post as [|[c ec] post']; [by rewrite Hch|]. destruct Hch as [-> Hec]. exists ec, post'.
    apply Forall_cons in Hlk as [[_ ?] _]. split_and!; [done|done| | |done].
    - intros ->. apply Hpnot. cbn. by right; left.
    - intros ->. apply Hanot. cbn. by left. }
  set (s1 := update a' (set_child None) _).
  assert (forall x, heap s1 !! x = if decide (x = a') then set_child None <$> heap s !! x
    else if decide (oc = Some x) then set_parent None <$> heap s !! x else heap s !! x) as Hs1.
  { intros x. subst s1. rewrite lookup_update. destruct oc as [c|].
    - destruct Hoc as (_ & _ & _ & _ & _ & Hca & _). rewrite lookup_update.
      repeat case_decide; simplify_eq; done.
    - repeat case_decide; simplify_eq; done. }
  unfold SetChild, deref. rewrite Hs1, decide_False by done. rewrite decide_False.
  2: { intros Heq. rewrite Heq in Hoc. by destruct Hoc as (_ & _ & _ & _ & ? & _). }
  rewrite Hpl. cbn [mbind result_bind mret result_ret]. rewrite Hchp. rewrite decide_False.
  2: { intros Heq. rewrite Heq in Hoc. by destruct Hoc as (_ & _ & _ & _ & _ & ? & _). }
  eexists. split; [done|]. set (s' := match oc with Some c => _ | None => _ end).
  assert (forall x, heap s' !! x = if decide (x = a') then None else if decide (x = p') then Some (set_child oc ep)
    else if decide (oc = Some x) then set_parent (Some p') <$> heap s !! x else heap s !! x) as Hs'.
  { intros x. subst s'. destruct oc as [c|].
    - destruct Hoc as (ec & _ & _ & Hec & Hcp & Hca & _). rewrite !lookup_update, lookup_free, Hs1.
      repeat case_decide; simplify_eq; try done; by rewrite ?Hpl, ?Hec.
    - rewrite !lookup_update, lookup_free, Hs1. repeat case_decide; simplify_eq; try done; by rewrite ?Hpl. }
  assert (entries s' = entries s /\ next_addr s' = next_addr s /\ undo_buffer s' = undo_buffer s) as (He' & Hna & Hu)
    by (subst s' s1; by destruct oc).
  assert (versions_of s' n (strip pre ++ (p', erase ep) :: strip post)) as Hvs.
  { exists (pre ++ (p', set_child oc ep) :: reparent (Some p') post). split.
    - unfold chain_at. rewrite He', Hn. split_and!.
      + eapply (chain_remove (heap s)); [done|done|by rewrite Hs', decide_False, decide_True by done| |].
        * destruct post as [|[c ec] post']; [done|]. destruct oc as [c'|]; [|done].
          destruct Hoc as (ec' & post'' & [= -> -> ->] & Hec & Hcp & Hca & _).
          rewrite Hs', !decide_False, decide_True by done. by rewrite Hec.
        * intros x Hxp Hxa Hxc. rewrite Hs', !decide_False; [done| |done|done]. intros Heq.
          rewrite Heq in Hoc. destruct Hoc as (ec & post' & -> & _). done.
      + rewrite fmap_app in Hnd |- *. cbn in Hnd |- *. rewrite reparent_fst.
        apply NoDup_app in Hnd as (Hn1 & Hn2 & Hn3). apply NoDup_app. split_and!; [done| |].
        * intros x Hx Hx2. apply (Hn2 x Hx). set_solver.
        * constructor; [|done]. intros Hx. apply Hpnot. by right.
      + apply Forall_app in Hall as [? Hall]. apply Forall_app. split; [done|].
        apply Forall_cons in Hall as [? [_ Hall]%Forall_cons]. constructor; [done|].
        destruct post as [|[c ec] post']; [done|]. apply Forall_cons in Hall as [? ?]. by constructor.
    - unfold strip. rewrite fmap_app. cbn. fold (strip (reparent (Some p') post)).
      rewrite strip_reparent. done. }
  assert (same_elsewhere n s s') as Hsame.
  { apply same_elsewhere_of; [by rewrite He'|]. intros x ex Hex Hne. rewrite Hs'.
    rewrite decide_False by congruence. rewrite decide_False by congruence. rewrite decide_False; [done|].
    intros Heq. rewrite Heq in Hoc. destruct Hoc as (ec & _ & _ & Hec & _ & _ & ?). congruence. }
  split_and!; try done. apply (rep_of n _ s s' Hr Hsame Hvs). intros x Hxf. rewrite Hna in Hxf.
  rewrite Hs'. pose proof (rep_fresh s Hr x Hxf) as Hnone. rewrite Hnone.
  repeat case_decide; try done. congruence.
Qed.

(** ** Reading: the version a transaction sees *)

(** The walk of [GetEntryForTransaction]: the newest version the view sees, or the oldest one. *)
Fixpoint pick (v : SnapshotView) (vs : list (addr * CatalogEntry)) : option (addr * CatalogEntry * bool) :=
  match vs with
  | [] => None
  | [(a, e)] => Some (a, e, false)
  | (a, e) :: vs' => if Sees v (timestamp e) then Some (a, e, true) else pick v vs'
  end.

(** What a lookup returns: nothing when the version is a tombstone. *)
Definition lookup_version (v : SnapshotView) (vs : list (addr * CatalogEntry)) : option addr :=
  match pick v vs with
  | Some (a, e, _) => if deleted e then None else Some a
  | None => None
  end.

(** Snapshot semantics: the newest version the view sees. *)
Definition newest_seen (v : SnapshotView) (vs : list (addr * CatalogEntry)) : option (addr * CatalogEntry) :=
  head (List.filter (fun x => Sees v (timestamp x.2)) vs).

Lemma pick_cons v a e vs :
  vs <> [] -> pick v ((a, e) :: vs) = if Sees v (timestamp e) then Some (a, e, true) else pick v vs.
Proof. by destruct vs. Qed.

(** The walk finds the newest version that is seen, or the oldest one if none is. *)
Definition found_version (v : SnapshotView) (vs : list (addr * CatalogEntry)) : option (addr * CatalogEntry) :=
  match newest_seen v vs with Some x => Some x | None => last vs end.

Lemma pick_found v vs : (fun x => x.1) <$> pick v vs = found_version v vs.
Proof.
  unfold found_version. induction vs as [|[b eb] vs IH]; [done|]. destruct vs as [|x vs].
  - unfold newest_seen. cbn. by destruct (Sees v (timestamp eb)).
  - rewrite pick_cons by done. unfold newest_seen in *. cbn [List.filter snd]. destruct (Sees v (timestamp eb)); [done|].
    rewrite IH. by destruct (head _).
Qed.

Lemma length_versions s n vs : rep s -> versions_of s n vs -> (length vs <= size (heap s))%nat.
Proof.
  intros Hr (es & Hc & <-). unfold strip. rewrite length_fmap.
  destruct (decide (es = [])) as [->|Hne]; [cbn; lia|].
  assert (Forall (fun x => heap s !! x.1 = Some x.2 /\ name x.2 = n) es) as Hlk by (by apply chain_at_lookup).
  unfold chain_at in Hc. destruct (entries s !! n); [|done]. destruct Hc as (_ & Hnd & _).
  rewrite <- (length_fmap fst es), <- (size_list_to_set (C := gset addr) es.*1) by done.
  rewrite <- size_dom. apply subseteq_size. intros a. rewrite elem_of_list_to_set.
  intros ((b & e) & -> & Hin)%list_elem_of_fmap. rewrite Forall_forall in Hlk.
  destruct (Hlk _ Hin) as [He _]. by apply elem_of_dom_2 in He.
Qed.

Lemma entry_for_transaction_pick fuel tx p a es s :
  chain (heap s) p a es -> (length es <= fuel)%nat ->
  exists b e vis, pick (view tx) (strip es) = Some (b, erase e, vis) /\ heap s !! b = Some e /\
    entry_for_transaction fuel tx a s = Ok (b, vis).
Proof.
  intros Hc. revert fuel. induction Hc as [p a e He Hp Hch|p a e c es He Hp Hch Hrest IH]; intros fuel Hf;
    (destruct fuel as [|fuel]; [cbn in Hf; lia|]); cbn [entry_for_transaction]; unfold deref; rewrite He;
    cbn [mbind result_bind mret result_ret]; rewrite Hch.
  - by exists a, e, false.
  - assert (strip es <> []) as Hne by (by inversion Hrest).
    change (strip ((a, e) :: es)) with ((a, erase e) :: strip es). rewrite pick_cons by done.
    change (timestamp (erase e)) with (timestamp e). unfold UseTimestamp.
    destruct (Sees (view tx) (timestamp e)); [by exists a, e, true|]. apply IH. cbn in Hf. lia.
Qed.

Lemma get_entry_for_transaction tx n a s vs :
  rep s -> versions_of s n vs -> entries s !! n = Some a ->
  exists b e vis, pick (view tx) vs = Some (b, erase e, vis) /\ heap s !! b = Some e /\
    GetEntryForTransaction tx a s = Ok (b, vis).
Proof.
  intros Hr Hvs Hn. pose proof (length_versions s n vs Hr Hvs) as Hl. destruct Hvs as (es & Hc & <-).
  unfold chain_at in Hc. rewrite Hn in Hc. destruct Hc as (Hc & _).
  apply (entry_for_transaction_pick _ tx None); [done|]. unfold strip in Hl. by rewrite length_fmap in Hl.
Qed.

Lemma get_entry_present defaults tx n s x vs :
  rep s -> versions_of s n (x :: vs) -> GetEntry defaults tx n s = Ok (s, lookup_version (view tx) (x :: vs)).
Proof.
  intros Hr Hvs. unfold GetEntry, GetEntryDetailed, CatalogEntryMap.GetEntry. destruct x as [a v].
  destruct (versions_cons s n a v vs Hvs) as (Hn & _). rewrite Hn.
  destruct (get_entry_for_transaction tx n a s _ Hr Hvs Hn) as (b & e & vis & Hp & Hb & ->).
  cbn [mbind result_bind]. unfold deref. rewrite Hb. cbn [mbind result_bind mret result_ret].
  unfold lookup_version. rewrite Hp. cbn. by destruct (deleted e).
Qed.

Lemma get_entry_versions defaults tx n s vs :
  rep s -> versions_of s n vs -> defaults n = None ->
  GetEntry defaults tx n s = Ok (s, lookup_version (view tx) vs).
Proof.
  intros Hr Hvs Hd. destruct vs as [|x vs]; [|by apply get_entry_present]. apply versions_nil in Hvs.
  unfold GetEntry, GetEntryDetailed, CatalogEntryMap.GetEntry, CreateDefaultEntry. by rewrite Hvs, Hd.
Qed.

(** ** Visibility of a pushed version *)

Lemma lookup_push_hidden v b e vs :
  vs <> [] -> Sees v (timestamp e) = false -> lookup_version v ((b, e) :: vs) = lookup_version v vs.
Proof. intros Hne Hs. unfold lookup_version. by rewrite pick_cons, Hs. Qed.

Lemma lookup_push_seen v b e vs :
  vs <> [] -> Sees v (timestamp e) = true ->
  lookup_version v ((b, e) :: vs) = if deleted e then None else Some b.
Proof. intros Hne Hs. unfold lookup_version. by rewrite pick_cons, Hs. Qed.

(** ** Creating and dropping *)

(** [s'] is [s] with the version [v] pushed on [n] by the transaction [tx]; a name without versions
    first gets the dummy node. *)
Record pushed (tx : CatalogTransaction) (n : Identifier) (v : CatalogEntry) (vs : list (addr * CatalogEntry))
    (s s' : CatalogSet) : Prop := {
  psh_rep : rep s';
  psh_same : same_elsewhere n s s';
  psh_versions : exists b below, versions_of s' n ((b, v) :: below) /\
    (below = vs \/ vs = [] /\ exists d o, below = [(d, InCatalogEntry o INVALID n 0 true)]) /\
    below <> [] /\
    (has_transaction tx = true -> exists a, head below.*1 = Some a /\
       undo_buffer s' = (transaction_id (view tx), a) :: undo_buffer s)
}.

Lemma install_pushed tx v s vs :
  rep s -> child v = None -> parent v = None -> versions_of s (name v) vs -> vs <> [] ->
  exists s' b, install tx v s = Ok (s', b) /\ pushed tx (name v) v vs s s'.
Proof.
  intros Hr Hc Hp Hvs Hne.
  destruct (install_push tx v s vs Hr Hc Hp Hvs Hne) as (s' & a & -> & Ha & Hv & Hs & Hr' & Hu).
  eexists _, _. split; [done|]. split; [done|done|]. eexists _, vs. split; [done|].
  split; [by left|]. split; [done|]. intros Ht. exists a. rewrite Ht in Hu. done.
Qed.

(** A new entry starts the chain of a name without versions. *)
Lemma first_version e s s1 a :
  rep s -> versions_of s (name e) [] -> child e = None -> parent e = None -> alloc e s = (s1, a) ->
  exists s', CatalogEntryMap.AddEntry a s1 = Ok s' /\ rep s' /\ same_elsewhere (name e) s s' /\
    versions_of s' (name e) [(a, e)] /\ undo_buffer s' = undo_buffer s.
Proof.
  intros Hr Hvs Hc Hp Ha. destruct (alloc_rep _ _ _ _ Hr Ha) as (Hr1 & Hd1 & _ & _).
  assert (entries s1 = entries s) as He1 by (injection Ha as <- <-; done).
  apply versions_nil in Hvs. unfold CatalogEntryMap.AddEntry, deref. rewrite Hd1.
  cbn [mbind result_bind mret result_ret]. rewrite He1, Hvs.
  eexists. split; [done|]. set (s' := set_entries _ s1).
  assert (versions_of s' (name e) [(a, e)]) as Hv.
  { exists [(a, e)]. split; [|unfold strip, erase; cbn; destruct e; cbn in *; by subst]. unfold chain_at. subst s'.
    cbn [entries set_entries heap]. rewrite lookup_insert_eq. split_and!.
    - by constructor.
    - apply NoDup_singleton.
    - by constructor. }
  assert (same_elsewhere (name e) s s') as Hsame.
  { intros m vs Hm Hvm. destruct (alloc_versions _ _ _ _ m vs Hr Ha Hvm) as [(es & Hch & Hs) _]. exists es. split; [|done].
    unfold chain_at in *. subst s'. cbn [entries set_entries heap]. rewrite He1 in Hch. by rewrite lookup_insert_ne by done. }
  split_and!; try done.
  - apply (rep_of (name e) _ s s' Hr Hsame Hv). apply (rep_fresh s1 Hr1).
  - subst s'. cbn. by injection Ha as <- <-.
Qed.

(** A new dummy node starts the chain of a name without versions. *)
Lemma start_chain_versions defaults n s :
  rep s -> versions_of s n [] -> defaults n = None ->
  exists s' d o, StartChain defaults n s = Ok (s', true) /\ rep s' /\ same_elsewhere n s s' /\
    versions_of s' n [(d, InCatalogEntry o INVALID n 0 true)] /\ undo_buffer s' = undo_buffer s.
Proof.
  intros Hr Hvs Hd. unfold StartChain, CreateDefaultEntry. rewrite Hd. cbn [mbind result_bind mret result_ret].
  destruct (NextOid s) as [s1 o] eqn:Hs0.
  assert (rep s1 /\ (forall m vs, versions_of s m vs <-> versions_of s1 m vs) /\ undo_buffer s1 = undo_buffer s) as (Hr1 & Hv1 & Hu1).
  { injection Hs0 as <- <-. split_and!; try done. destruct Hr. by split. }
  destruct (alloc (InCatalogEntry o INVALID n 0 true) s1) as [s2 d] eqn:Ha.
  destruct (first_version (InCatalogEntry o INVALID n 0 true) s1 s2 d) as (s' & Hadd & Hr' & Hsame & Hv' & Hu'); [done|by apply Hv1|done..|].
  rewrite Hadd. cbn [mbind result_bind mret result_ret]. exists s', d, o. split_and!; try done; [|congruence].
  intros m vs Hm Hvm. by apply Hsame, Hv1.
Qed.

(** The default entry of a name without versions becomes its only version. *)
Lemma create_default_versions defaults n s d :
  rep s -> versions_of s n [] -> defaults n = Some d -> name d = n -> child d = None -> parent d = None ->
  exists s' a, CreateDefaultEntry defaults n s = Ok (s', Some a) /\ rep s' /\ same_elsewhere n s s' /\
    versions_of s' n [(a, set_timestamp 0 d)] /\ undo_buffer s' = undo_buffer s.
Proof.
  intros Hr Hvs Hd <- Hc Hp. unfold CreateDefaultEntry, CreateCommittedEntry, CatalogEntryMap.GetEntry. rewrite Hd.
  pose proof Hvs as Hn. apply versions_nil in Hn. rewrite Hn.
  destruct (alloc (set_timestamp 0 d) s) as [s1 a] eqn:Ha.
  destruct (first_version (set_timestamp 0 d) s s1 a) as (s' & Hadd & Hr' & Hsame & Hv' & Hu'); [done..|].
  rewrite Hadd. cbn [mbind result_bind mret result_ret]. by exists s', a.
Qed.

Lemma create_entry_internal defaults tx n value s vs :
  rep s -> versions_of s n vs -> defaults n = None ->
  name value = n -> child value = None -> parent value = None ->
  match vs with
  | [] => exists s', CreateEntryInternal defaults tx n value true s = Ok (s', true) /\ pushed tx n value [] s s'
  | (a, e) :: _ =>
      if Sees (view tx) (timestamp e) then
        if deleted e then
          exists s', CreateEntryInternal defaults tx n value true s = Ok (s', true) /\ pushed tx n value vs s s'
        else CreateEntryInternal defaults tx n value true s = Ok (s, false)
      else CreateEntryInternal defaults tx n value true s
           = Throw (TransactionException "Catalog write-write conflict on create")
  end.
Proof.
  intros Hr Hvs Hd Hname Hc Hp. unfold CreateEntryInternal, CatalogEntryMap.GetEntry.
  destruct vs as [|[a e] vs].
  - pose proof Hvs as Hn. apply versions_nil in Hn. rewrite Hn.
    destruct (start_chain_versions defaults n s Hr Hvs Hd) as (s1 & d & o & -> & Hr1 & Hs1 & Hv1 & Hu1).
    cbn [mbind result_bind]. subst n.
    destruct (install_push tx value s1 _ Hr1 Hc Hp Hv1 ltac:(done)) as (s' & a & -> & Ha & Hv & Hs & Hr' & Hu).
    cbn [mbind result_bind]. eexists. split; [done|]. split; [done| |].
    + intros m vs' Hm Hv'. by apply Hs, Hs1.
    + eexists _, _. split; [done|]. split; [right; split; [done|by exists d, o]|]. split; [done|].
      intros Ht. exists a. rewrite Ht, Hu1 in Hu. done.
  - destruct (versions_cons s n a e vs Hvs) as (Hn & e' & es & Ha & _ & <- & _).
    rewrite Hn. unfold deref. rewrite Ha. cbn [mbind result_bind mret result_ret].
    unfold VerifyVacancy, HasConflict. change (timestamp (erase e')) with (timestamp e').
    destruct (Sees (view tx) (timestamp e')); cbn [negb]; [|done].
    change (deleted (erase e')) with (deleted e'). cbn [mbind result_bind mret result_ret].
    destruct (deleted e') eqn:Hdel; [|done]. subst n.
    destruct (install_pushed tx value s _ Hr Hc Hp Hvs ltac:(done)) as (s' & b & -> & Hpush).
    cbn [mbind result_bind]. by eexists.
Qed.

Lemma next_oid_versions s s1 o n vs : NextOid s = (s1, o) -> versions_of s n vs -> versions_of s1 n vs.
Proof. intros [= <- <-] (es & Hc & Hs). by exists es. Qed.

Lemma next_oid_rep s s1 o : NextOid s = (s1, o) -> rep s -> rep s1 /\ undo_buffer s1 = undo_buffer s.
Proof. intros [= <- <-] []. by split. Qed.

(** The tombstone [DropEntryInternal] pushes. *)
Definition tombstone (o : Z) (n : Identifier) (tx : CatalogTransaction) : CatalogEntry :=
  InCatalogEntry o DELETED_ENTRY n (transaction_id (view tx)) true.

Lemma drop_entry_internal tx n allow s vs :
  rep s -> versions_of s n vs ->
  match vs with
  | [] => DropEntryInternal tx n allow s = Ok (s, false)
  | (a, e) :: _ =>
      if Sees (view tx) (timestamp e) then
        if deleted e then DropEntryInternal tx n allow s = Ok (s, false)
        else if internal e && negb allow then
          DropEntryInternal tx n allow s
          = Throw (CatalogException "Cannot drop entry because it is an internal system entry")
        else exists s' o, DropEntryInternal tx n allow s = Ok (s', true) /\ pushed tx n (tombstone o n tx) vs s s'
      else DropEntryInternal tx n allow s = Throw (TransactionException "Catalog write-write conflict on alter")
  end.
Proof.
  intros Hr Hvs. unfold DropEntryInternal, GetEntryInternal, CatalogEntryMap.GetEntry.
  destruct vs as [|[a e] vs].
  - pose proof Hvs as Hn. apply versions_nil in Hn. by rewrite Hn.
  - destruct (versions_cons s n a e vs Hvs) as (Hn & e' & es & Ha & _ & <- & _ & _ & Hall & _).
    apply Forall_cons in Hall as [Hname _]. cbn in Hname.
    rewrite Hn. unfold deref. rewrite Ha. cbn [mbind result_bind mret result_ret].
    unfold HasConflict. change (timestamp (erase e')) with (timestamp e').
    destruct (Sees (view tx) (timestamp e')); cbn [negb]; [|done].
    change (deleted (erase e')) with (deleted e'). cbn [mbind result_bind mret result_ret].
    destruct (deleted e') eqn:Hdel; [done|]. rewrite Ha. cbn [mbind result_bind mret result_ret].
    change (internal (erase e')) with (internal e'). destruct (internal e' && negb allow); [done|].
    destruct (NextOid s) as [s1 o] eqn:Ho. destruct (next_oid_rep s s1 o Ho Hr) as [Hr1 Hu1].
    rewrite Hname.
    destruct (install_push tx (tombstone o n tx) s1 ((a, erase e') :: vs)) as (s' & b & Hi & Hb & Hv & Hs & Hr' & Hu);
      [done|done|done|by apply (next_oid_versions s s1 o n)|done|].
    change (InCatalogEntry o DELETED_ENTRY n (transaction_id (view tx)) true) with (tombstone o n tx).
    rewrite Hi. cbn [mbind result_bind]. exists s', o. split; [done|]. split; [done| |].
    + intros m vs' Hm Hv'. apply Hs; [done|]. by apply (next_oid_versions s s1 o m).
    + eexists _, _. split; [exact Hv|]. split; [by left|]. split; [done|]. intros Ht. exists b.
      rewrite Ht, Hu1 in Hu. done.
Qed.

(** ** Rollback *)

Lemma versions_parent s n vs1 p vp a v vs2 :
  versions_of s n (vs1 ++ (p, vp) :: (a, v) :: vs2) ->
  exists ea, heap s !! a = Some ea /\ parent ea = Some p.
Proof.
  intros (es & Hc & Hs). unfold strip in Hs.
  apply fmap_app_inv in Hs as (pre & rest & -> & Hs2 & ->).
  destruct rest as [|[p' ep] [|[a' ea] post]]; cbn in Hs2; simplify_eq.
  pose proof (chain_at_lookup s n _ Hc) as Hlk.
  apply Forall_app in Hlk as [_ [_ [[Hal _] _]%Forall_cons]%Forall_cons].
  unfold chain_at in Hc. destruct (entries s !! n); [|by destruct pre]. destruct Hc as (Hc & _).
  destruct (chain_links _ _ _ _ _ _ _ _ _ Hc) as (Hp & _). by exists ea.
Qed.

Lemma chain_last_child h q h0 pre p ep : chain h q h0 (pre ++ [(p, ep)]) -> child ep = None.
Proof.
  revert q h0. induction pre as [|[b eb] pre IH]; intros q h0 Hc; cbn in Hc.
  - inversion Hc as [|? ? ? c es ? ? ? Hrest]; subst; [done|inversion Hrest].
  - inversion Hc as [|? ? ? c es ? ? ? Hrest]; subst; [by destruct pre|]. by eapply IH.
Qed.

(** The object behind a version: its links tell whether it is the newest and the oldest one. *)
Lemma versions_node s n vs1 p vp vs2 :
  versions_of s n (vs1 ++ (p, vp) :: vs2) ->
  exists ep, heap s !! p = Some ep /\ erase ep = vp /\ (child ep = None <-> vs2 = []) /\
    (parent ep = None <-> vs1 = []).
Proof.
  intros (es & Hc & Hs). unfold strip in Hs.
  apply fmap_app_inv in Hs as (pre & rest & -> & Hs2 & ->).
  destruct rest as [|[p' ep] post]; cbn in Hs2; simplify_eq.
  unfold chain_at in Hc. destruct (entries s !! n) as [h0|]; [|by destruct pre]. destruct Hc as (Hc & _).
  exists ep. split_and!; [|done| |].
  - apply chain_lookup in Hc. by apply Forall_app in Hc as [_ [? _]%Forall_cons].
  - destruct post as [|[c ec] post].
    + split; [done|]. intros _. by eapply chain_last_child.
    + split; [|done]. intros Hn. destruct (chain_links _ _ _ _ _ _ _ _ _ Hc) as (_ & ? & _). congruence.
  - destruct pre as [|x pre] using rev_ind.
    + split; [done|]. intros _. by inversion Hc.
    + clear IHpre. split; [|by destruct pre]. intros Hn. destruct x as [b eb]. rewrite <- app_assoc in Hc.
      destruct (chain_links _ _ _ _ _ _ _ _ _ Hc) as (? & _). congruence.
Qed.

(** Undoing the newest version of a name removes it; a dummy node left alone is removed too. *)
Lemma undo_head s n b v a e vs :
  rep s -> versions_of s n ((b, v) :: (a, e) :: vs) ->
  exists s', Undo a s = Ok s' /\ rep s' /\ same_elsewhere n s s' /\
    versions_of s' n (if decide (type e = INVALID) then vs else (a, e) :: vs).
Proof.
  intros Hr Hvs. unfold Undo, Parent, deref.
  destruct (versions_parent s n [] b v a e vs Hvs) as (ea & Ha & Hpa).
  rewrite Ha. cbn [mbind result_bind mret result_ret]. rewrite Hpa. cbn [mbind result_bind mret result_ret].
  destruct (drop_head s n b v _ Hr Hvs) as (s1 & -> & Hv1 & Hs1 & Hr1 & _). cbn [mbind result_bind].
  destruct (versions_cons s1 n a e vs Hv1) as (_ & e1 & es & Ha1 & _ & He1 & _). rewrite Ha1.
  cbn [mbind result_bind mret result_ret].
  assert (type e1 = type e) as -> by (by rewrite <- He1). case_decide.
  - destruct (drop_head s1 n a e vs Hr1 Hv1) as (s2 & -> & Hv2 & Hs2 & Hr2 & _).
    exists s2. split_and!; try done. intros m vs' Hm Hv. by apply Hs2, Hs1.
  - by exists s1.
Qed.

(** ** Commit *)

Definition stamp (a : addr) (ts : Z) (x : addr * CatalogEntry) : addr * CatalogEntry :=
  if decide (x.1 = a) then (x.1, set_timestamp ts x.2) else x.

Lemma chain_stamp h h' p a es b ts :
  chain h p a es -> (forall x, h' !! x = if decide (x = b) then set_timestamp ts <$> h !! x else h !! x) ->
  chain h' p a (stamp b ts <$> es).
Proof.
  intros Hc Hh. induction Hc as [p a e He Hp Hch|p a e c es He Hp Hch Hrest IH]; cbn; unfold stamp at 1; cbn;
    case_decide as Hd; [constructor|constructor|econstructor|econstructor]; try done;
    rewrite Hh, He; by case_decide.
Qed.

Lemma update_timestamp_versions s n vs a ts :
  rep s -> versions_of s n vs -> a ∈ vs.*1 ->
  versions_of (UpdateTimestamp a ts s) n (stamp a ts <$> vs) /\
  same_elsewhere n s (UpdateTimestamp a ts s) /\ rep (UpdateTimestamp a ts s).
Proof.
  intros Hr Hvs Hin. set (s' := UpdateTimestamp a ts s).
  assert (forall x, heap s' !! x = if decide (x = a) then set_timestamp ts <$> heap s !! x else heap s !! x) as Hh.
  { intros x. subst s'. unfold UpdateTimestamp. rewrite lookup_update. repeat case_decide; congruence || done. }
  assert (versions_of s' n (stamp a ts <$> vs)) as Hv'.
  { destruct Hvs as (es & Hc & <-). exists (stamp a ts <$> es). split.
    - unfold chain_at in *. change (entries s') with (entries s). destruct (entries s !! n) as [h0|]; [|by rewrite Hc].
      destruct Hc as (Hc & Hnd & Hall). split_and!.
      + by eapply chain_stamp.
      + replace (stamp a ts <$> es).*1 with es.*1; [done|]. rewrite <- list_fmap_compose.
        apply list_fmap_ext. intros _ x _. unfold stamp; cbn. by case_decide.
      + apply Forall_fmap. eapply Forall_impl; [done|]. intros x Hx. unfold compose, stamp. by case_decide.
    - unfold strip. rewrite <- !list_fmap_compose. apply list_fmap_ext. intros _ x _.
      unfold compose, stamp. cbn. by case_decide. }
  assert (same_elsewhere n s s') as Hsame.
  { apply same_elsewhere_of; [done|]. intros x e Hx Hne. rewrite Hh. case_decide; [|done]. subst.
    destruct Hvs as (es & Hc & <-). rewrite strip_fst in Hin.
    destruct (chain_at_in s n es a Hc Hin) as (e' & ? & ?). congruence. }
  split_and!; [done|done|]. apply (rep_of n _ s s' Hr Hsame Hv'). intros x Hx.
  rewrite Hh. rewrite (rep_fresh s Hr x Hx). by case_decide.
Qed.

Lemma versions_nodup s n vs : versions_of s n vs -> NoDup vs.*1.
Proof.
  intros (es & Hc & <-). rewrite strip_fst. unfold chain_at in Hc.
  destruct (entries s !! n); [by destruct Hc as (_ & ? & _)|]. subst. constructor.
Qed.

Lemma stamp_other b ts (vs : list (addr * CatalogEntry)) : b ∉ vs.*1 -> stamp b ts <$> vs = vs.
Proof.
  induction vs as [|[x e] vs IH]; [done|]. cbn. intros [Hne Hnot]%not_elem_of_cons.
  rewrite IH by done. unfold stamp. by rewrite decide_False by (cbn; congruence).
Qed.

(** Committing the undo entry of the newest version stamps that version with the commit id. *)
Lemma commit_head s n b v a e vs commit_id :
  rep s -> versions_of s n ((b, v) :: (a, e) :: vs) ->
  exists s', CommitCatalogEntry commit_id a s = Ok s' /\ rep s' /\ same_elsewhere n s s' /\
    versions_of s' n ((b, set_timestamp commit_id v) :: (a, e) :: vs).
Proof.
  intros Hr Hvs. unfold CommitCatalogEntry, Parent, deref.
  destruct (versions_parent s n [] b v a e vs Hvs) as (ea & Ha & Hpa).
  rewrite Ha. cbn [mbind result_bind mret result_ret]. rewrite Hpa. cbn [mbind result_bind mret result_ret].
  eexists. split; [done|].
  destruct (update_timestamp_versions s n _ b commit_id Hr Hvs ltac:(by left)) as (Hv & Hs & Hr').
  split_and!; [done|done|].
  assert (stamp b commit_id <$> (b, v) :: (a, e) :: vs = (b, set_timestamp commit_id v) :: (a, e) :: vs) as <-; [|done].
  apply versions_nodup in Hvs. cbn in Hvs. apply NoDup_cons in Hvs as [Hnot _].
  rewrite fmap_cons. unfold stamp at 1. rewrite decide_True by done. f_equal.
  apply stamp_other. exact Hnot.
Qed.

(** ** Cleanup *)

(** Removing the version [a] right below a version everyone sees changes no lookup. *)
Lemma pick_remove v vs1 p vp a e vs2 :
  Sees v (timestamp vp) = true ->
  lookup_version v (vs1 ++ (p, vp) :: (a, e) :: vs2) = lookup_version v (vs1 ++ (p, vp) :: vs2).
Proof.
  intros Hs. unfold lookup_version. induction vs1 as [|[b eb] vs1 IH]; cbn [app].
  - rewrite pick_cons, Hs by done. destruct vs2; [done|]. by rewrite pick_cons, Hs.
  - rewrite !pick_cons by (by destruct vs1). by destruct (Sees v (timestamp eb)).
Qed.

(** The versions a cleanup leaves give the same lookups. *)
Lemma cleaned_lookup v (vs1 : list (addr * CatalogEntry)) p vp a e vs2 :
  Sees v (timestamp vp) = true ->
  lookup_version v (if decide (vs1 = [] /\ vs2 = [] /\ deleted vp = true) then [] else vs1 ++ (p, vp) :: vs2)
  = lookup_version v (vs1 ++ (p, vp) :: (a, e) :: vs2).
Proof.
  intros Hs. rewrite pick_remove by done. case_decide as Hd; [|done]. destruct Hd as (-> & -> & Hdel).
  unfold lookup_version. cbn. by rewrite Hdel.
Qed.

Lemma cleanup_entry s n vs1 p vp a e vs2 :
  rep s -> versions_of s n (vs1 ++ (p, vp) :: (a, e) :: vs2) ->
  exists s', CleanupEntry a s = Ok s' /\ rep s' /\ same_elsewhere n s s' /\
    versions_of s' n (if decide (vs1 = [] /\ vs2 = [] /\ deleted vp = true) then [] else vs1 ++ (p, vp) :: vs2).
Proof.
  intros Hr Hvs. unfold CleanupEntry.
  destruct (versions_parent s n vs1 p vp a e vs2 Hvs) as (ea & Ha & Hpa).
  assert (Parent s a = Ok p) as ->.
  { unfold Parent, deref. rewrite Ha. cbn [mbind result_bind mret result_ret]. by rewrite Hpa. }
  cbn [mbind result_bind].
  destruct (drop_inner s n vs1 p vp a e vs2 Hr Hvs) as (s1 & -> & Hv1 & Hs1 & Hr1 & _). cbn [mbind result_bind].
  assert (exists ep, heap s1 !! p = Some ep /\ erase ep = vp /\ (child ep = None <-> vs2 = []) /\
    (parent ep = None <-> vs1 = [])) as (ep & Hp & <- & Hcn & Hpn) by (by apply (versions_node s1 n)).
  unfold deref. rewrite Hp. cbn [mbind result_bind mret result_ret].
  change (deleted (erase ep)) with (deleted ep). unfold HasChild, HasParent.
  destruct (deleted ep) eqn:Hd; cbn [andb].
  2: { exists s1. split_and!; try done. rewrite decide_False; [done|]. by intros (_ & _ & ?). }
  destruct (child ep) eqn:Hc; cbn [negb andb].
  { exists s1. split_and!; try done. rewrite decide_False; [done|]. by intros (_ & ?%Hcn & _). }
  destruct (parent ep) eqn:Hpar; cbn [negb].
  { exists s1. split_and!; try done. rewrite decide_False; [done|]. by intros (?%Hpn & _). }
  assert (vs1 = []) as -> by (by apply Hpn). assert (vs2 = []) as -> by (by apply Hcn).
  destruct (drop_head s1 n p (erase ep) [] Hr1 Hv1) as (s2 & -> & Hv2 & Hs2 & Hr2 & _).
  exists s2. split_and!; try done. intros m vs' Hm Hv. by apply Hs2, Hs1.
Qed.

(** ** Altering an entry in place *)

Lemma alter_entry_push defaults AlterObject tx n allow alter s a e vs value :
  rep s -> versions_of s n ((a, e) :: vs) -> defaults n = None -> has_transaction tx = true ->
  vs <> [] -> Sees (view tx) (timestamp e) = true -> deleted e = false ->
  (negb allow && internal e) = false ->
  (forall e', erase e' = e -> alter e' = Ok (Some value)) ->
  name value = n -> child value = None -> parent value = None ->
  (forall e1 e2, AlterObject tx e1 e2 = Ok tt) ->
  exists s', AlterEntry defaults AlterObject tx n allow alter s = Ok (s', true) /\
    pushed tx n (set_oid (oid e) (set_timestamp (transaction_id (view tx)) value)) ((a, e) :: vs) s s'.
Proof.
  intros Hr Hvs Hd Ht Hne Hs Hdel Hint Halter Hname Hc Hp Hobj. unfold AlterEntry.
  rewrite (get_entry_versions defaults tx n s _ Hr Hvs Hd). cbn [mbind result_bind].
  rewrite lookup_push_seen, Hdel by done.
  destruct (versions_cons s n a e vs Hvs) as (Hn & e' & es & Ha & _ & He & _ & _ & Hall & _).
  apply Forall_cons in Hall as [Hname' _]. cbn in Hname'.
  assert (deref s a = Ok e') as Hderef by (unfold deref; by rewrite Ha).
  rewrite Hderef. cbn [mbind result_bind].
  assert (internal e' = internal e) as -> by (by rewrite <- He). rewrite Hint.
  rewrite (Halter e' He). cbn [mbind result_bind].
  assert (GetEntryInternal tx n s = Ok (Some a)) as ->.
  { unfold GetEntryInternal, CatalogEntryMap.GetEntry. rewrite Hn, Hderef. cbn [mbind result_bind].
    unfold HasConflict. assert (timestamp e' = timestamp e) as -> by (by rewrite <- He).
    assert (deleted e' = deleted e) as -> by (by rewrite <- He). by rewrite Hs, Hdel. }
  cbn [mbind result_bind]. rewrite Hderef. cbn [mbind result_bind].
  assert (oid e' = oid e) as -> by (by rewrite <- He).
  set (value' := set_oid (oid e) (set_timestamp (transaction_id (view tx)) value)).
  assert (name value' = n) as Hnv by done.
  rewrite bool_decide_eq_true_2 by congruence. cbn [mbind result_bind mret result_ret negb].
  rewrite <- Hnv in Hvs.
  destruct (install_pushed tx value' s _ Hr Hc Hp Hvs ltac:(done)) as (s' & b & -> & Hpush).
  cbn [mbind result_bind]. rewrite Ht. cbn [mbind result_bind mret result_ret]. rewrite Hobj.
  cbn [mbind result_bind]. exists s'. split; [done|]. by rewrite Hnv in Hpush.
Qed.
