(* ===== verification/CatalogTheorems.v ===== *)
(** * The versioned catalog: the theorems

    A name of a catalog set has a list of versions, newest first ([versions_of]); lookups return the
    newest version a transaction sees, writes push one version, and rollback, commit and cleanup
    touch that version only. *)

From S2P Require Import Prelude Snapshot CatalogSet CatalogSetFacts.

Local Open Scope Z_scope.

(** ** Consequences of a pushed version *)

Section Pushed.
Context (tx : CatalogTransaction) (n : Identifier) (e : CatalogEntry) (vs : list (addr * CatalogEntry))
  (s s' : CatalogSet).
Hypothesis Hpush : pushed tx n e vs s s'.

(** What a lookup finds after the push. *)
Lemma pushed_lookup :
  exists b below, versions_of s' n ((b, e) :: below) /\
    forall v, lookup_version v ((b, e) :: below)
      = if Sees v (timestamp e) then (if deleted e then None else Some b) else lookup_version v vs.
Proof.
  destruct Hpush as [_ _ (b & below & Hv & Hbelow & Hne & _)]. exists b, below. split; [done|]. intros v.
  destruct (Sees v (timestamp e)) eqn:Hs; [by apply lookup_push_seen|].
  rewrite lookup_push_hidden by done. destruct Hbelow as [->|(-> & d & o & ->)]; [done|]. done.
Qed.

(** Undoing the push leaves the versions the name had before. *)
Lemma pushed_undo :
  has_transaction tx = true -> (forall a e', head vs = Some (a, e') -> type e' <> INVALID) ->
  exists a s'', undo_buffer s' = (transaction_id (view tx), a) :: undo_buffer s /\
    Undo a s' = Ok s'' /\ rep s'' /\ same_elsewhere n s' s'' /\ versions_of s'' n vs.
Proof.
  intros Ht Htype. destruct Hpush as [Hrep _ (b & below & Hv & Hbelow & Hne & Hundo)].
  destruct (Hundo Ht) as (a & Ha & Hbuf). destruct below as [|[a' e'] below]; [done|].
  cbn in Ha. injection Ha as ->. destruct (undo_head s' n b e a e' below Hrep Hv) as (s'' & Hu & Hr & Hse & Hvs).
  exists a, s''. split_and!; [done|done|done|done|]. case_decide as Hi.
  - destruct Hbelow as [<-|(-> & d & o & Heq)]; [by destruct (Htype a e' eq_refl)|].
    injection Heq as _ _ ->. done.
  - destruct Hbelow as [<-|(-> & d & o & Heq)]; [done|]. injection Heq as _ -> _. done.
Qed.

(** Committing the push stamps the new version. *)
Lemma pushed_commit commit_id :
  has_transaction tx = true ->
  exists a s'' b below, undo_buffer s' = (transaction_id (view tx), a) :: undo_buffer s /\
    CommitCatalogEntry commit_id a s' = Ok s'' /\ rep s'' /\ same_elsewhere n s' s'' /\
    versions_of s'' n ((b, set_timestamp commit_id e) :: below) /\
    forall v, lookup_version v ((b, set_timestamp commit_id e) :: below)
      = if Sees v commit_id then (if deleted e then None else Some b) else lookup_version v vs.
Proof.
  intros Ht. destruct Hpush as [Hrep _ (b & below & Hv & Hbelow & Hne & Hundo)].
  destruct (Hundo Ht) as (a & Ha & Hbuf). destruct below as [|[a' e'] below]; [done|].
  cbn in Ha. injection Ha as ->.
  destruct (commit_head s' n b e a e' below commit_id Hrep Hv) as (s'' & Hc & Hr & Hse & Hvs).
  exists a, s'', b, ((a, e') :: below). split_and!; [done|done|done|done|done|]. intros v.
  destruct (Sees v commit_id) eqn:Hs; [by rewrite lookup_push_seen|].
  rewrite lookup_push_hidden by done. destruct Hbelow as [<-|(-> & d & o & Heq)]; [done|].
  injection Heq as -> -> ->. done.
Qed.
End Pushed.

(** The lookup of every other transaction is the one from before the push. *)
Lemma pushed_isolated tx n e vs s s' v b below :
  pushed tx n e vs s s' -> timestamp e = transaction_id (view tx) ->
  WfView (view tx) -> WfView v -> transaction_id v <> transaction_id (view tx) ->
  versions_of s' n ((b, e) :: below) -> lookup_version v ((b, e) :: below) = lookup_version v vs.
Proof.
  intros Hp Hts [_ Hid] Hwf Hne Hv. destruct (pushed_lookup tx n e vs s s' Hp) as (b' & below' & Hv' & Hl).
  pose proof (versions_fun _ _ _ _ Hv Hv') as Heq. rewrite Heq, Hl, Hts, Sees_uncommitted; [done|done| |congruence].
  unfold IsCommitted, MAX_COMMIT_ID. apply Z.leb_gt. lia.
Qed.

(** ** Scans *)

Lemma collect_total {A} (f : addr -> result (list A)) heads :
  (forall a, a ∈ heads -> exists xs, f a = Ok xs) ->
  exists l, collect f heads = Ok l /\ forall x, x ∈ l <-> exists a xs, a ∈ heads /\ f a = Ok xs /\ x ∈ xs.
Proof.
  induction heads as [|a heads IH]; intros Hf; cbn [collect].
  - exists []. split; [done|]. intros x. split; [by intros ?%not_elem_of_nil|by intros (? & ? & ?%not_elem_of_nil & _)].
  - destruct (Hf a) as [xs Hxs]; [by left|]. destruct IH as (l & Hl & Hin); [intros; apply Hf; by right|].
    rewrite Hxs, Hl. cbn. eexists. split; [done|]. intros x. rewrite elem_of_app, Hin. split.
    + intros [H|(b & ys & Hb & H1 & H2)]; [exists a, xs; split_and!; [by left|done|done]|].
      exists b, ys. split_and!; [by right|done|done].
    + intros (b & ys & [->|Hb]%elem_of_cons & H1 & H2); [left; congruence|right; eauto].
Qed.

Lemma scan_lookup tx s :
  rep s -> exists l, Scan tx s = Ok l /\
    forall a, a ∈ l <-> exists n vs, versions_of s n vs /\ lookup_version (view tx) vs = Some a.
Proof.
  intros Hrep. unfold Scan.
  assert (forall h n, entries s !! n = Some h -> exists vs, versions_of s n vs /\
    ('(current, _) ← GetEntryForTransaction tx h s; e ← deref s current; mret (if deleted e then [] else [current]))
    = Ok (match lookup_version (view tx) vs with Some a => [a] | None => [] end)) as Hf.
  { intros h n Hh. destruct (versions_exist s n Hrep) as [vs Hvs]. exists vs. split; [done|].
    destruct (get_entry_for_transaction tx n h s vs Hrep Hvs Hh) as (b & e & vis & Hp & Hb & ->).
    cbn [mbind result_bind]. unfold deref. rewrite Hb. cbn. unfold lookup_version. rewrite Hp.
    change (deleted (erase e)) with (deleted e). by destruct (deleted e). }
  assert (forall h, h ∈ (map_to_list (entries s)).*2 <-> exists n, entries s !! n = Some h) as Hheads.
  { intros h. rewrite list_elem_of_fmap. split.
    - intros ([n h'] & -> & Hin%elem_of_map_to_list). by exists n.
    - intros [n Hn]. exists (n, h). split; [done|]. by apply elem_of_map_to_list. }
  edestruct (collect_total (A := addr)) as (l & Hl & Hin).
  { intros h (n & Hn)%Hheads. destruct (Hf h n Hn) as (vs & _ & Heq). eexists. exact Heq. }
  exists l. split; [exact Hl|]. intros a. rewrite Hin. split.
  - intros (h & xs & (n & Hn)%Hheads & Hxs & Ha). destruct (Hf h n Hn) as (vs & Hvs & Heq).
    exists n, vs. split; [done|]. rewrite Heq in Hxs. injection Hxs as <-.
    destruct (lookup_version _ vs); [by apply list_elem_of_singleton in Ha as ->|by apply not_elem_of_nil in Ha].
  - intros (n & vs & Hvs & Ha). destruct (entries s !! n) as [h|] eqn:Hn.
    + destruct (Hf h n Hn) as (vs' & Hvs' & Heq). rewrite (versions_fun _ _ _ _ Hvs' Hvs), Ha in Heq.
      exists h, [a]. split_and!; [apply Hheads; by exists n|exact Heq|by left].
    + apply versions_nil in Hn. rewrite (versions_fun _ _ _ _ Hvs Hn) in Ha. done.
Qed.

(** ** The theorems *)

Section Theorems.
#[local] Set Default Proof Using "Type".
Context (catalog : DuckCatalog) (defaults : Identifier -> option CatalogEntry)
  (AddObject : CatalogTransaction -> CatalogEntry -> result unit)
  (DropObject : CatalogTransaction -> CatalogEntry -> bool -> result unit)
  (AlterObject : CatalogTransaction -> CatalogEntry -> CatalogEntry -> result unit).

(** C31. [CatalogSet::GetEntry] returns the newest version of the name that the transaction sees - the oldest
    version if it sees none -, and nothing when that is a tombstone; the set is not changed. For a name
    without versions it returns nothing and changes nothing either, unless the default generator has an
    entry of that name: that entry is then created as the only version, committed at 0, and returned; the
    versions of the other names and the undo buffer stay. *)
Theorem lookup_is_newest_seen tx n s vs :
  rep s -> versions_of s n vs ->
  (forall d, defaults n = Some d -> name d = n /\ child d = None /\ parent d = None) ->
  match vs, defaults n with
  | [], Some d => exists s' a, GetEntry defaults tx n s = Ok (s', Some a) /\ rep s' /\
      versions_of s' n [(a, set_timestamp 0 d)] /\ same_elsewhere n s s' /\ undo_buffer s' = undo_buffer s
  | _, _ => GetEntry defaults tx n s
      = Ok (s, match found_version (view tx) vs with
               | Some (a, e) => if deleted e then None else Some a
               | None => None
               end)
  end.
Proof.
  intros Hrep Hvs Hdef.
  assert (lookup_version (view tx) vs = match found_version (view tx) vs with Some (a, e) => if deleted e then None else Some a | None => None end) as <-.
  { rewrite <- pick_found. unfold lookup_version. by destruct (pick (view tx) vs) as [[[b eb] vis]|]. }
  destruct vs as [|x vs].
  - destruct (defaults n) as [d|] eqn:Hd; [|by apply get_entry_versions].
    destruct (Hdef d eq_refl) as (Hname & Hc & Hp).
    destruct (create_default_versions defaults n s d Hrep Hvs Hd Hname Hc Hp) as (s' & a & Hcr & Hr' & Hsame & Hv' & Hu').
    exists s', a. split; [|done]. unfold GetEntry, GetEntryDetailed, CatalogEntryMap.GetEntry.
    apply versions_nil in Hvs. rewrite Hvs, Hcr. done.
  - by apply get_entry_present.
Qed.

(** [CatalogSet::CreateEntry]: a name without versions, or whose newest version is a tombstone the
    transaction sees, gets one new version, stamped with the transaction id and recorded in the undo
    buffer; an existing visible entry makes the call return false and changes nothing; a newest
    version the transaction does not see is a write-write conflict. *)
Theorem create_entry_outcome tx n value s vs :
  rep s -> versions_of s n vs -> defaults n = None ->
  name value = n -> child value = None -> parent value = None ->
  CheckCatalogEntryInvariants catalog value n = Ok tt ->
  AddObject tx (set_timestamp (transaction_id (view tx)) value) = Ok tt ->
  let version := set_timestamp (transaction_id (view tx)) value in
  match vs with
  | [] => exists s', CreateEntry catalog defaults AddObject tx n value s = Ok (s', true) /\ pushed tx n version [] s s'
  | (a, e) :: _ =>
      if Sees (view tx) (timestamp e) then
        if deleted e then
          exists s', CreateEntry catalog defaults AddObject tx n value s = Ok (s', true) /\ pushed tx n version vs s s'
        else CreateEntry catalog defaults AddObject tx n value s = Ok (s, false)
      else CreateEntry catalog defaults AddObject tx n value s
           = Throw (TransactionException "Catalog write-write conflict on create")
  end.
Proof.
  intros Hrep Hvs Hdef Hn Hc Hp Hinv Hadd version. unfold CreateEntry. rewrite Hinv. cbn [mbind result_bind].
  rewrite Hadd. cbn [mbind result_bind]. by apply create_entry_internal.
Qed.

(** [CatalogSet::DropEntry]: nothing is dropped when the transaction finds no entry of that name;
    internal entries are refused; a newest version the transaction does not see is a write-write
    conflict; otherwise one tombstone is pushed on the name. *)
Theorem drop_entry_outcome tx n cascade allow s vs :
  rep s -> versions_of s n vs -> defaults n = None -> (forall e, DropObject tx e cascade = Ok tt) ->
  match pick (view tx) vs with
  | None => DropEntry defaults DropObject tx n cascade allow s = Ok (s, false)
  | Some (_, e, _) =>
      if deleted e then DropEntry defaults DropObject tx n cascade allow s = Ok (s, false)
      else if internal e && negb allow then
        DropEntry defaults DropObject tx n cascade allow s
        = Throw (CatalogException "Cannot drop entry because it is an internal system entry")
      else exists a newest vs', vs = (a, newest) :: vs' /\
        if Sees (view tx) (timestamp newest)
        then exists s' o, DropEntry defaults DropObject tx n cascade allow s = Ok (s', true) /\
               pushed tx n (tombstone o n tx) vs s s'
        else DropEntry defaults DropObject tx n cascade allow s
             = Throw (TransactionException "Catalog write-write conflict on alter")
  end.
Proof.
  intros Hrep Hvs Hdef Hdrop. unfold DropEntry, DropDependencies.
  rewrite (get_entry_versions defaults tx n s vs Hrep Hvs Hdef). unfold lookup_version. cbn [mbind result_bind].
  pose proof (drop_entry_internal tx n allow s vs Hrep Hvs) as Hint.
  destruct vs as [|[a newest] vs']; [done|].
  destruct (versions_cons s n a newest vs' Hvs) as [Hhead _].
  destruct (get_entry_for_transaction tx n a s _ Hrep Hvs Hhead) as (b & e & vis & Hpick & Hb & _).
  rewrite Hpick. change (deleted (erase e)) with (deleted e). change (internal (erase e)) with (internal e).
  destruct (deleted e) eqn:Hdel; [done|]. cbn [mbind result_bind]. unfold deref. rewrite Hb. cbn [mbind result_bind mret result_ret].
  destruct (internal e && negb allow) eqn:Hi; [done|]. rewrite Hdrop. cbn [mbind result_bind mret result_ret].
  exists a, newest, vs'. split; [done|]. destruct (Sees (view tx) (timestamp newest)) eqn:Hs; [|done].
  assert (newest = erase e) as ->.
  { destruct vs'; [cbn in Hpick; congruence|]. rewrite pick_cons, Hs in Hpick by done. congruence. }
  change (deleted (erase e)) with (deleted e) in Hint. change (internal (erase e)) with (internal e) in Hint.
  by rewrite Hdel, Hi in Hint.
Qed.

(** A version pushed by a transaction (a created entry, a tombstone, an altered entry) is seen by
    that transaction and by no other: every other snapshot finds what it found before. *)
Theorem push_is_isolated tx n e vs s s' other :
  pushed tx n e vs s s' -> timestamp e = transaction_id (view tx) -> defaults n = None ->
  WfView (view tx) -> WfView (view other) -> transaction_id (view other) <> transaction_id (view tx) ->
  GetEntry defaults other n s' = Ok (s', lookup_version (view other) vs) /\
  exists b, GetEntry defaults tx n s' = Ok (s', if deleted e then None else Some b).
Proof.
  intros Hp Hts Hdef Hwf Hwfo Hne. destruct (pushed_lookup tx n e vs s s' Hp) as (b & below & Hv & Hl).
  pose proof (psh_rep _ _ _ _ _ _ Hp) as Hrep. split.
  - rewrite (get_entry_versions defaults other n s' _ Hrep Hv Hdef). f_equal. f_equal.
    by eapply pushed_isolated.
  - exists b. rewrite (get_entry_versions defaults tx n s' _ Hrep Hv Hdef), Hl, Hts, Sees_own. done.
Qed.

(** Two transactions cannot both create, drop or alter the same name: once one of them has pushed
    a version, the writes of the other throw a write-write conflict, until the first has committed
    or rolled back. *)
Theorem second_writer_conflicts tx n e vs s s' other value allow :
  pushed tx n e vs s s' -> timestamp e = transaction_id (view tx) -> defaults n = None ->
  WfView (view tx) -> WfView (view other) -> transaction_id (view other) <> transaction_id (view tx) ->
  name value = n -> child value = None -> parent value = None ->
  CreateEntryInternal defaults other n value true s'
    = Throw (TransactionException "Catalog write-write conflict on create") /\
  DropEntryInternal other n allow s' = Throw (TransactionException "Catalog write-write conflict on alter").
Proof.
  clear AddObject DropObject AlterObject.
  intros Hp Hts Hdef [_ Hid] Hwfo Hne Hn Hc Hpar. destruct Hp as [Hrep _ (b & below & Hv & _)].
  assert (Sees (view other) (timestamp e) = false) as Hs.
  { rewrite Hts. apply Sees_uncommitted; [done| |congruence]. unfold IsCommitted, MAX_COMMIT_ID. apply Z.leb_gt. lia. }
  pose proof (create_entry_internal defaults other n value s' _ Hrep Hv Hdef Hn Hc Hpar) as H1.
  pose proof (drop_entry_internal other n allow s' _ Hrep Hv) as H2. cbn in H1, H2. rewrite Hs in H1, H2. done.
Qed.

(** C32. Rolling back a push: undoing the entry the push recorded restores the versions the name had,
    and with them every lookup; no other name is touched. *)
Theorem undo_restores_versions tx n e vs s s' :
  pushed tx n e vs s s' -> has_transaction tx = true ->
  (forall a e', head vs = Some (a, e') -> type e' <> INVALID) -> defaults n = None ->
  exists a s'', undo_buffer s' = (transaction_id (view tx), a) :: undo_buffer s /\
    Undo a s' = Ok s'' /\ same_elsewhere n s' s'' /\ versions_of s'' n vs /\
    forall other, GetEntry defaults other n s'' = Ok (s'', lookup_version (view other) vs).
Proof.
  intros Hp Ht Htype Hdef. destruct (pushed_undo tx n e vs s s' Hp Ht Htype) as (a & s'' & Hb & Hu & Hrep & Hse & Hv).
  exists a, s''. split_and!; try done. intros other. by apply get_entry_versions.
Qed.

(** Committing a push: the transactions whose snapshot includes the commit id find the new version
    (nothing, for a tombstone), all others find what they found before. *)
Theorem commit_publishes_version tx n e vs s s' commit_id :
  pushed tx n e vs s s' -> has_transaction tx = true -> defaults n = None ->
  exists a s'' b, undo_buffer s' = (transaction_id (view tx), a) :: undo_buffer s /\
    CommitCatalogEntry commit_id a s' = Ok s'' /\ same_elsewhere n s' s'' /\
    forall other, GetEntry defaults other n s''
      = Ok (s'', if Sees (view other) commit_id then (if deleted e then None else Some b)
                 else lookup_version (view other) vs).
Proof.
  intros Hp Ht Hdef.
  destruct (pushed_commit tx n e vs s s' Hp commit_id Ht) as (a & s'' & b & below & Hb & Hc & Hrep & Hse & Hv & Hl).
  exists a, s'', b. split_and!; try done. intros other. rewrite (get_entry_versions defaults other n s'' _ Hrep Hv Hdef).
  by rewrite Hl.
Qed.

(** Cleaning up a superseded version removes it without changing any lookup of a transaction that
    sees the version above it; a tombstone that is left alone is removed too. *)
Theorem cleanup_is_invisible s n vs1 p vp a e vs2 other :
  rep s -> versions_of s n (vs1 ++ (p, vp) :: (a, e) :: vs2) -> defaults n = None ->
  Sees (view other) (timestamp vp) = true ->
  exists s' vs', CleanupEntry a s = Ok s' /\ rep s' /\ same_elsewhere n s s' /\ versions_of s' n vs' /\
    a ∉ vs'.*1 /\
    GetEntry defaults other n s' = Ok (s', lookup_version (view other) (vs1 ++ (p, vp) :: (a, e) :: vs2)).
Proof.
  clear AddObject DropObject AlterObject.
  intros Hrep Hv Hdef Hs. pose proof (versions_nodup _ _ _ Hv) as Hnd.
  destruct (cleanup_entry s n vs1 p vp a e vs2 Hrep Hv) as (s' & Hc & Hrep' & Hse & Hv').
  eexists s', _. split_and!; [done|done|done|done| |].
  - rewrite fmap_app, !fmap_cons in Hnd. cbn [fst] in Hnd. case_decide; [by apply not_elem_of_nil|].
    rewrite fmap_app, fmap_cons. cbn [fst].
    apply NoDup_app in Hnd as (_ & Hd & Hnd2). apply NoDup_cons in Hnd2 as [Hp Hnd3]. apply NoDup_cons in Hnd3 as [Ha _].
    rewrite not_elem_of_app, not_elem_of_cons. split_and!; [|set_solver|done].
    intros Hin. apply (Hd a Hin). set_solver.
  - rewrite (get_entry_versions defaults other n s' _ Hrep' Hv' Hdef). f_equal. f_equal.
    by apply cleaned_lookup.
Qed.

(** [CatalogSet::AlterEntry] without a rename pushes the altered entry as the new version, with the
    oid of the entry it replaces and the timestamp of the transaction. *)
Theorem alter_pushes_version tx n allow alter s a e vs value :
  rep s -> versions_of s n ((a, e) :: vs) -> defaults n = None -> has_transaction tx = true ->
  vs <> [] -> Sees (view tx) (timestamp e) = true -> deleted e = false ->
  (negb allow && internal e) = false ->
  (forall e', erase e' = e -> alter e' = Ok (Some value)) ->
  name value = n -> child value = None -> parent value = None ->
  (forall e1 e2, AlterObject tx e1 e2 = Ok tt) ->
  exists s', AlterEntry defaults AlterObject tx n allow alter s = Ok (s', true) /\
    pushed tx n (set_oid (oid e) (set_timestamp (transaction_id (view tx)) value)) ((a, e) :: vs) s s'.
Proof. by apply alter_entry_push. Qed.

(** [CatalogSet::Scan] lists exactly the entries that lookups of the same transaction find. *)
Theorem scan_matches_lookups tx s :
  rep s -> (forall n, defaults n = None) ->
  exists l, Scan tx s = Ok l /\ forall a, a ∈ l <-> exists n, GetEntry defaults tx n s = Ok (s, Some a).
Proof.
  intros Hrep Hdef. destruct (scan_lookup tx s Hrep) as (l & Hl & Hin). exists l. split; [done|].
  intros a. rewrite Hin. split.
  - intros (n & vs & Hvs & Ha). exists n. rewrite (get_entry_versions defaults tx n s vs Hrep Hvs (Hdef n)). by rewrite Ha.
  - intros (n & Hg). destruct (versions_exist s n Hrep) as [vs Hvs]. exists n, vs. split; [done|].
    rewrite (get_entry_versions defaults tx n s vs Hrep Hvs (Hdef n)) in Hg. congruence.
Qed.
End Theorems.

(** ** Witnesses *)

Definition no_defaults (n : Identifier) : option CatalogEntry := None.
Definition accept_add (tx : CatalogTransaction) (e : CatalogEntry) : result unit := mret tt.
Definition accept_drop (tx : CatalogTransaction) (e : CatalogEntry) (cascade : bool) : result unit := mret tt.
Definition accept_alter (tx : CatalogTransaction) (e e' : CatalogEntry) : result unit := mret tt.
Definition user_catalog : DuckCatalog := mkDuckCatalog false false.

(** Two transactions that started at time 10, and a table that one of them creates. *)
Definition creator : CatalogTransaction :=
  mkCatalogTransaction (mkSnapshotView (TRANSACTION_ID_START + 7) (VisibilityBound.Before 10)) true.
Definition bystander : CatalogTransaction :=
  mkCatalogTransaction (mkSnapshotView (TRANSACTION_ID_START + 8) (VisibilityBound.Before 10)) true.
Definition new_table : CatalogEntry := mkEntry 0 TABLE_ENTRY "t" false false false 0 None None.
Definition table_version : CatalogEntry := set_timestamp (TRANSACTION_ID_START + 7) new_table.

Lemma creator_wf : WfView (view creator).
Proof. split; cbn; unfold TRANSACTION_ID_START, NOT_DELETED_ID, u64_max; lia. Qed.

Lemma bystander_wf : WfView (view bystander).
Proof. split; cbn; unfold TRANSACTION_ID_START, NOT_DELETED_ID, u64_max; lia. Qed.

Lemma rep_empty : rep empty_set.
Proof. split; [|done]. intros n. by exists []. Qed.

Lemma versions_empty n : versions_of empty_set n [].
Proof. by exists []. Qed.

Lemma table_pushed : exists s, pushed creator "t" table_version [] empty_set s.
Proof.
  destruct (create_entry_internal no_defaults creator "t" table_version empty_set [] rep_empty (versions_empty "t"))
    as (s & _ & Hp); try done. by exists s.
Qed.

(** A set in which the table "t" (committed at 5) replaced the dummy node. *)
Definition table_set : CatalogSet :=
  mkSet {[ 0%nat := mkEntry 0 INVALID "t" true false false 0 None (Some 1%nat);
           1%nat := mkEntry 1 TABLE_ENTRY "t" false false false 5 (Some 0%nat) None ]}
        {[ "t"%string := 1%nat ]} 2 2 [].

Definition table_versions : list (addr * CatalogEntry) :=
  [(1%nat, mkEntry 1 TABLE_ENTRY "t" false false false 5 None None);
   (0%nat, mkEntry 0 INVALID "t" true false false 0 None None)].

Lemma table_set_versions : versions_of table_set "t" table_versions.
Proof.
  eexists [(1%nat, mkEntry 1 TABLE_ENTRY "t" false false false 5 (Some 0%nat) None);
           (0%nat, mkEntry 0 INVALID "t" true false false 0 None (Some 1%nat))].
  split; [|done]. unfold chain_at. replace (entries table_set !! "t"%string) with (Some 1%nat) by by vm_compute.
  split_and!.
  - eapply chain_cons; [by vm_compute|done|done|]. apply chain_last; [by vm_compute|done|done].
  - apply NoDup_cons. split; [set_solver|]. apply NoDup_singleton.
  - by repeat constructor.
Qed.

Lemma table_set_rep : rep table_set.
Proof.
  split.
  - intros n. destruct (decide (n = "t"%string)) as [->|Hne].
    + destruct table_set_versions as (es & H & _). by exists es.
    + exists []. unfold chain_at. cbn [entries table_set]. by rewrite lookup_singleton_ne.
  - intros [|[|a]] Ha; cbn in Ha; [lia|lia|]. cbn [heap table_set].
    by rewrite lookup_insert_ne, lookup_singleton_ne.
Qed.

(** A set of functions has a default entry that is not created yet. *)
Definition default_functions (n : Identifier) : option CatalogEntry :=
  if bool_decide (n = "f"%string) then Some (InCatalogEntry 7 TABLE_ENTRY "f" 0 false) else None.

Lemma lookup_is_newest_seen_witness :
  GetEntry no_defaults bystander "t" table_set = Ok (table_set, Some 1%nat) /\
  exists s a, GetEntry default_functions bystander "f" table_set = Ok (s, Some a) /\
    versions_of s "t" table_versions.
Proof.
  split.
  - apply (lookup_is_newest_seen no_defaults bystander "t" table_set table_versions).
    + apply table_set_rep.
    + apply table_set_versions.
    + done.
  - destruct (lookup_is_newest_seen default_functions bystander "f" table_set []) as (s & a & Hg & _ & _ & Hsame & _).
    + apply table_set_rep.
    + apply versions_nil. reflexivity.
    + by intros d [= <-].
    + exists s, a. split; [exact Hg|]. apply Hsame; [done|]. apply table_set_versions.
Defined.

Lemma create_entry_outcome_witness :
  exists s, CreateEntry user_catalog no_defaults accept_add creator "t" new_table empty_set = Ok (s, true) /\
    pushed creator "t" table_version [] empty_set s.
Proof.
  apply (create_entry_outcome user_catalog no_defaults accept_add creator "t" new_table empty_set []).
  - apply rep_empty.
  - apply versions_empty.
  - reflexivity.
  - reflexivity.
  - reflexivity.
  - reflexivity.
  - reflexivity.
  - reflexivity.
Defined.

Lemma drop_entry_outcome_witness :
  exists s o, DropEntry no_defaults accept_drop creator "t" false false table_set = Ok (s, true) /\
    pushed creator "t" (tombstone o "t" creator) table_versions table_set s.
Proof.
  destruct (drop_entry_outcome no_defaults accept_drop creator "t" false false table_set table_versions)
    as (a & newest & vs' & Hvs & H).
  - apply table_set_rep.
  - apply table_set_versions.
  - reflexivity.
  - reflexivity.
  - injection Hvs as <- <- <-. exact H.
Defined.

Lemma push_is_isolated_witness :
  exists s, GetEntry no_defaults bystander "t" s = Ok (s, None) /\
    exists b, GetEntry no_defaults creator "t" s = Ok (s, Some b).
Proof.
  destruct table_pushed as [s Hp]. exists s.
  apply (push_is_isolated no_defaults creator "t" table_version [] empty_set s bystander Hp).
  - reflexivity.
  - reflexivity.
  - apply creator_wf.
  - apply bystander_wf.
  - cbn. lia.
Defined.

Lemma second_writer_conflicts_witness :
  exists s, CreateEntryInternal no_defaults bystander "t" new_table true s
      = Throw (TransactionException "Catalog write-write conflict on create") /\
    DropEntryInternal bystander "t" false s = Throw (TransactionException "Catalog write-write conflict on alter").
Proof.
  destruct table_pushed as [s Hp]. exists s.
  apply (second_writer_conflicts no_defaults creator "t" table_version [] empty_set s bystander new_table false Hp).
  - reflexivity.
  - reflexivity.
  - apply creator_wf.
  - apply bystander_wf.
  - cbn. lia.
  - reflexivity.
  - reflexivity.
  - reflexivity.
Defined.

Lemma undo_restores_versions_witness :
  exists s a s', undo_buffer s = [(TRANSACTION_ID_START + 7, a)] /\ Undo a s = Ok s' /\ versions_of s' "t" [].
Proof.
  destruct table_pushed as [s Hp]. exists s.
  destruct (undo_restores_versions no_defaults creator "t" table_version [] empty_set s Hp) as (a & s' & Hb & Hu & _ & Hv & _).
  - reflexivity.
  - done.
  - reflexivity.
  - exists a, s'. split; [exact Hb|]. split; [exact Hu|exact Hv].
Defined.

Lemma commit_publishes_version_witness :
  exists s a s' b, CommitCatalogEntry 9 a s = Ok s' /\
    GetEntry no_defaults bystander "t" s' = Ok (s', Some b).
Proof.
  destruct table_pushed as [s Hp]. exists s.
  destruct (commit_publishes_version no_defaults creator "t" table_version [] empty_set s 9 Hp) as (a & s' & b & _ & Hc & _ & Hg).
  - reflexivity.
  - reflexivity.
  - exists a, s', b. split; [exact Hc|]. exact (Hg bystander).
Defined.

Lemma cleanup_is_invisible_witness :
  exists s vs', CleanupEntry 0%nat table_set = Ok s /\ rep s /\ same_elsewhere "t" table_set s /\
    versions_of s "t" vs' /\ 0%nat ∉ vs'.*1 /\ GetEntry no_defaults bystander "t" s = Ok (s, Some 1%nat).
Proof.
  apply (cleanup_is_invisible no_defaults table_set "t" [] 1%nat
    (mkEntry 1 TABLE_ENTRY "t" false false false 5 None None) 0%nat
    (mkEntry 0 INVALID "t" true false false 0 None None) [] bystander).
  - apply table_set_rep.
  - apply table_set_versions.
  - reflexivity.
  - reflexivity.
Defined.

Lemma alter_pushes_version_witness :
  exists s, AlterEntry no_defaults accept_alter creator "t" false (fun _ => Ok (Some new_table)) table_set = Ok (s, true) /\
    pushed creator "t" (set_oid 1 (set_timestamp (TRANSACTION_ID_START + 7) new_table)) table_versions table_set s.
Proof.
  apply (alter_pushes_version no_defaults accept_alter creator "t" false (fun _ => Ok (Some new_table)) table_set 1%nat
    (mkEntry 1 TABLE_ENTRY "t" false false false 5 None None)
    [(0%nat, mkEntry 0 INVALID "t" true false false 0 None None)] new_table).
  - apply table_set_rep.
  - apply table_set_versions.
  - reflexivity.
  - reflexivity.
  - discriminate.
  - reflexivity.
  - reflexivity.
  - reflexivity.
  - intros e' _. reflexivity.
  - reflexivity.
  - reflexivity.
  - reflexivity.
  - intros e1 e2. reflexivity.
Defined.

Lemma scan_matches_lookups_witness :
  exists l, Scan bystander table_set = Ok l /\
    forall a, a ∈ l <-> exists n, GetEntry no_defaults bystander n table_set = Ok (table_set, Some a).
Proof.
  apply (scan_matches_lookups no_defaults bystander table_set).
  - apply table_set_rep.
  - reflexivity.
Defined.
