(* ===== verification/TransactionManager.v ===== *)
(** * The transaction manager

    Models [transaction/duck_transaction_manager.cpp] and the parts of
    [transaction/duck_transaction.cpp] it drives: how transactions get their ids and snapshots, how
    they commit and roll back, and when the versions they superseded may be destroyed. The body of
    every operation holds [transaction_lock]; [CommitTransaction] releases it only while the WAL is
    written, before it draws the commit id. *)

From S2P Require Import Prelude Snapshot.

Local Open Scope Z_scope.

Record UndoBufferProperties := mkUndoProperties {
  estimated_size : Z;
  has_updates : bool;
  has_deletes : bool;
  has_index_deletes : bool;
  has_catalog_changes : bool;
  has_dropped_entries : bool
}.

Record DuckTransaction := mkTransaction {
  start_time : Z;
  tview : SnapshotView;
  commit_id : Z;
  catalog_version : Z;
  awaiting_cleanup : bool;
  undo_properties : UndoBufferProperties;
  changes_made : bool
}.

Definition GetTransactionId (t : DuckTransaction) : Z := transaction_id (tview t).

Definition set_commit (id : Z) (t : DuckTransaction) : DuckTransaction :=
  mkTransaction (start_time t) (tview t) id (catalog_version t) (awaiting_cleanup t) (undo_properties t) (changes_made t).
Definition set_catalog_version (v : Z) (t : DuckTransaction) : DuckTransaction :=
  mkTransaction (start_time t) (tview t) (commit_id t) v (awaiting_cleanup t) (undo_properties t) (changes_made t).
Definition set_awaiting (b : bool) (t : DuckTransaction) : DuckTransaction :=
  mkTransaction (start_time t) (tview t) (commit_id t) (catalog_version t) b (undo_properties t) (changes_made t).

Record DuckCleanupInfo := mkCleanupInfo {
  cleanup_transactions : list DuckTransaction;
  cleanup_bound : VisibilityBound.t
}.

Record DuckTransactionManager := mkManager {
  current_start_timestamp : Z;
  current_transaction_id : Z;
  lowest_visibility_bound : VisibilityBound.t;
  last_commit : Z;
  last_committed_version : Z;
  last_uncommitted_catalog_version : Z;
  active_transactions : list DuckTransaction;
  recently_committed_transactions : list DuckTransaction;
  cleanup_queue : list DuckCleanupInfo
}.

Definition set_active (l : list DuckTransaction) (s : DuckTransactionManager) : DuckTransactionManager :=
  mkManager (current_start_timestamp s) (current_transaction_id s) (lowest_visibility_bound s) (last_commit s)
    (last_committed_version s) (last_uncommitted_catalog_version s) l (recently_committed_transactions s)
    (cleanup_queue s).
Definition set_lowest (b : VisibilityBound.t) (s : DuckTransactionManager) : DuckTransactionManager :=
  mkManager (current_start_timestamp s) (current_transaction_id s) b (last_commit s)
    (last_committed_version s) (last_uncommitted_catalog_version s) (active_transactions s)
    (recently_committed_transactions s) (cleanup_queue s).
Definition set_recent (l : list DuckTransaction) (s : DuckTransactionManager) : DuckTransactionManager :=
  mkManager (current_start_timestamp s) (current_transaction_id s) (lowest_visibility_bound s) (last_commit s)
    (last_committed_version s) (last_uncommitted_catalog_version s) (active_transactions s) l (cleanup_queue s).
Definition set_queue (q : list DuckCleanupInfo) (s : DuckTransactionManager) : DuckTransactionManager :=
  mkManager (current_start_timestamp s) (current_transaction_id s) (lowest_visibility_bound s) (last_commit s)
    (last_committed_version s) (last_uncommitted_catalog_version s) (active_transactions s)
    (recently_committed_transactions s) q.

(** [DuckTransactionManager(db)], which does not initialize [last_commit]: [garbage] is what the
    memory holds. *)
Definition initial_manager (garbage : Z) : DuckTransactionManager :=
  mkManager (SYSTEM_TRANSACTION_TIMESTAMP + 1) TRANSACTION_ID_START VisibilityBound.IncludingUncommitted garbage
    0 TRANSACTION_ID_START [] [] [].

(** ** Starting *)

Definition no_undo : UndoBufferProperties := mkUndoProperties 0 false false false false false.

Definition StartTransaction (s : DuckTransactionManager) : result (DuckTransactionManager * DuckTransaction) :=
  if TRANSACTION_ID_START <=? current_start_timestamp s then
    Throw (InternalException "Cannot start more transactions, ran out of transaction identifiers!")
  else
    let start_time := current_start_timestamp s in
    let tid := current_transaction_id s in
    let view := mkSnapshotView tid (VisibilityBound.Before start_time) in
    let lowest := match active_transactions s with
                  | [] => visibility_bound view
                  | _ => lowest_visibility_bound s
                  end in
    let t := mkTransaction start_time view 0 (last_committed_version s) false no_undo false in
    mret (mkManager (u64 (start_time + 1)) (u64 (tid + 1)) lowest (last_commit s) (last_committed_version s)
            (last_uncommitted_catalog_version s) (active_transactions s ++ [t])
            (recently_committed_transactions s) (cleanup_queue s), t).

(** ** Checkpoint decisions *)

Inductive CheckpointType := FULL_CHECKPOINT | CONCURRENT_CHECKPOINT | VACUUM_ONLY.

Inductive CheckpointDecision :=
  | CannotCheckpoint (reason : string)
  | CanCheckpointAs (type : CheckpointType).

(** Transactions are compared by identity: their ids are unique. *)
Definition HasOtherTransactions (tid : Z) (s : DuckTransactionManager) : bool :=
  existsb (fun t => negb (GetTransactionId t =? tid)) (active_transactions s).

(** The questions [CanCheckpoint] asks of the database, the settings and the checkpoint lock. *)
Record CheckpointConditions := mkConditions {
  is_system : bool;
  is_read_only : bool;
  storage_loaded : bool;
  automatic_checkpoint : bool;
  skip_on_commit : bool;
  checkpoint_lock_free : bool;
  in_memory : bool;
  compression_enabled : bool
}.

Definition CanCheckpoint (c : CheckpointConditions) : CheckpointDecision :=
  if is_system c then CannotCheckpoint "system transaction"
  else if is_read_only c then CannotCheckpoint "transaction is read-only"
  else if negb (storage_loaded c) then CannotCheckpoint "cannot checkpoint while loading"
  else if negb (automatic_checkpoint c) then CannotCheckpoint "no reason to automatically checkpoint"
  else if skip_on_commit c then CannotCheckpoint "checkpointing on commit disabled through configuration"
  else if negb (checkpoint_lock_free c) then CannotCheckpoint "Failed to obtain checkpoint lock"
  else CanCheckpointAs FULL_CHECKPOINT.

Definition GetCheckpointType (tid : Z) (props : UndoBufferProperties) (c : CheckpointConditions)
    (s : DuckTransactionManager) : CheckpointDecision :=
  let other := HasOtherTransactions tid s in
  if other && (has_updates props || has_dropped_entries props) then
    if has_dropped_entries props
    then CannotCheckpoint "Transaction has dropped catalog entries and there are other transactions active"
    else CannotCheckpoint "Transaction has performed updates and there are other transactions active"
  else
    let checkpoint_type := if other then CONCURRENT_CHECKPOINT else FULL_CHECKPOINT in
    if in_memory c && negb (compression_enabled c) then
      match checkpoint_type with
      | CONCURRENT_CHECKPOINT => CannotCheckpoint "Cannot vacuum, and compression is disabled for in-memory table"
      | _ => CanCheckpointAs VACUUM_ONLY
      end
    else CanCheckpointAs checkpoint_type.

(** The type of an explicit [CHECKPOINT]. *)
Definition ExplicitCheckpointType (s : DuckTransactionManager) : CheckpointType :=
  if last_commit s >=?b lowest_visibility_bound s then CONCURRENT_CHECKPOINT else FULL_CHECKPOINT.

(** ** Removing a transaction *)

Definition GetCommitTimestamp (s : DuckTransactionManager) : DuckTransactionManager * Z :=
  (mkManager (u64 (current_start_timestamp s + 1)) (current_transaction_id s) (lowest_visibility_bound s)
     (last_commit s) (last_committed_version s) (last_uncommitted_catalog_version s) (active_transactions s)
     (recently_committed_transactions s) (cleanup_queue s), current_start_timestamp s).

(** The bound over the active transactions other than [exclude]. *)
Definition computed_lowest (exclude : Z) (l : list DuckTransaction) : VisibilityBound.t :=
  foldl (fun acc t => if GetTransactionId t =? exclude then acc
                      else VisibilityBound.Min acc (visibility_bound (tview t)))
    VisibilityBound.AllCommitted l.

Fixpoint index_of (exclude : Z) (l : list DuckTransaction) : nat :=
  match l with
  | [] => 0%nat
  | t :: rest => if GetTransactionId t =? exclude then 0%nat else S (index_of exclude rest)
  end.

Definition UpdateLowestVisibilityBound (exclude : Z) (s : DuckTransactionManager) : DuckTransactionManager * nat :=
  (set_lowest (computed_lowest exclude (active_transactions s)) s, index_of exclude (active_transactions s)).

(** The committed transactions before the bound, up to the first one that is not. *)
Fixpoint sweep (bound : VisibilityBound.t) (l : list DuckTransaction)
    : list DuckTransaction * list DuckTransaction :=
  match l with
  | [] => ([], [])
  | t :: rest =>
      if commit_id t >=?b bound then ([], l)
      else let '(swept, kept) := sweep bound rest in (set_awaiting true t :: swept, kept)
  end.

Definition SweepCommittedTransactions (info : DuckCleanupInfo) (s : DuckTransactionManager)
    : DuckTransactionManager * DuckCleanupInfo :=
  let '(swept, kept) := sweep (cleanup_bound info) (recently_committed_transactions s) in
  (set_recent kept s, mkCleanupInfo (cleanup_transactions info ++ swept) (cleanup_bound info)).

Definition RemoveTransaction (tid : Z) (store_transaction : bool) (s : DuckTransactionManager)
    : result (DuckTransactionManager * DuckCleanupInfo) :=
  let '(s, t_index) := UpdateLowestVisibilityBound tid s in
  match active_transactions s !! t_index with
  | None => Throw (InternalException "transaction is not active")
  | Some current =>
      let '(recent, queued) :=
        if store_transaction then
          if negb (commit_id current =? 0) then ([current], []) else ([], [current])
        else if changes_made current then ([], [set_awaiting true current]) else ([], []) in
      let s := set_recent (recently_committed_transactions s ++ recent) s in
      let info := mkCleanupInfo queued (lowest_visibility_bound s) in
      let s := set_active (delete t_index (active_transactions s)) s in
      mret (SweepCommittedTransactions info s)
  end.

Definition ScheduleCleanup (info : DuckCleanupInfo) : bool :=
  match cleanup_transactions info with [] => false | _ => true end.

Definition QueueCleanup (info : DuckCleanupInfo) (s : DuckTransactionManager) : DuckTransactionManager :=
  if ScheduleCleanup info then set_queue (cleanup_queue s ++ [info]) s else s.

(** One turn of [CleanupTransactions]: the oldest cleanup info is processed and popped. *)
Definition CleanupStep (s : DuckTransactionManager) : option (DuckTransactionManager * DuckCleanupInfo) :=
  match cleanup_queue s with
  | [] => None
  | info :: rest => Some (set_queue rest s, info)
  end.

(** ** Commit and rollback *)

Definition update_transaction (tid : Z) (f : DuckTransaction -> DuckTransaction) (s : DuckTransactionManager)
    : DuckTransactionManager :=
  set_active ((fun t => if GetTransactionId t =? tid then f t else t) <$> active_transactions s) s.

Definition find_transaction (tid : Z) (s : DuckTransactionManager) : option DuckTransaction :=
  active_transactions s !! index_of tid (active_transactions s).

(** What the transaction did since it started, as its undo buffer and local storage report it. *)
Definition RecordChanges (tid : Z) (props : UndoBufferProperties) (s : DuckTransactionManager)
    : DuckTransactionManager :=
  update_transaction tid (fun t => mkTransaction (start_time t) (tview t) (commit_id t) (catalog_version t)
    (awaiting_cleanup t) props true) s.

(** [PushCatalogEntry]: the version numbers. *)
Definition PushCatalogVersion (tid : Z) (s : DuckTransactionManager) : DuckTransactionManager :=
  let v := u64 (last_uncommitted_catalog_version s + 1) in
  update_transaction tid (set_catalog_version v)
    (mkManager (current_start_timestamp s) (current_transaction_id s) (lowest_visibility_bound s) (last_commit s)
       (last_committed_version s) v (active_transactions s) (recently_committed_transactions s) (cleanup_queue s)).

Definition set_last_commit (id : Z) (s : DuckTransactionManager) : DuckTransactionManager :=
  mkManager (current_start_timestamp s) (current_transaction_id s) (lowest_visibility_bound s) id
    (last_committed_version s) (last_uncommitted_catalog_version s) (active_transactions s)
    (recently_committed_transactions s) (cleanup_queue s).
Definition set_committed_version (v : Z) (s : DuckTransactionManager) : DuckTransactionManager :=
  mkManager (current_start_timestamp s) (current_transaction_id s) (lowest_visibility_bound s) (last_commit s)
    v (last_uncommitted_catalog_version s) (active_transactions s) (recently_committed_transactions s)
    (cleanup_queue s).

Definition store_transaction (props : UndoBufferProperties) (error : bool) : bool :=
  has_updates props || has_index_deletes props || has_catalog_changes props || error.

(** [CommitTransaction] once the WAL has been written: [wal_error] tells whether that failed,
    [commit_error] whether committing the undo buffer does. The boolean is the success of the
    commit. *)
Definition CommitTransaction (tid : Z) (wal_error commit_error : bool) (s : DuckTransactionManager)
    : result (DuckTransactionManager * bool) :=
  match find_transaction tid s with
  | None => Throw (InternalException "transaction is not active")
  | Some t =>
      let '(s, id) := GetCommitTimestamp s in
      let error := wal_error || commit_error in
      let s := if wal_error then s else update_transaction tid (set_commit id) s in
      let s :=
        if error then update_transaction tid (set_commit 0) s
        else
          let s := set_last_commit id s in
          if TRANSACTION_ID_START <=? catalog_version t then
            let v := u64 (last_committed_version s + 1) in
            update_transaction tid (set_catalog_version v) (set_committed_version v s)
          else s in
      '(s, info) ← RemoveTransaction tid (store_transaction (undo_properties t) error) s;
      mret (QueueCleanup info s, negb error)
  end.

Definition RollbackTransaction (tid : Z) (s : DuckTransactionManager) : result DuckTransactionManager :=
  match find_transaction tid s with
  | None => Throw (InternalException "transaction is not active")
  | Some t =>
      '(s, info) ← RemoveTransaction tid (changes_made t) s;
      mret (QueueCleanup info s)
  end.

(** ** The state machine *)

Inductive step : DuckTransactionManager -> DuckTransactionManager -> Prop :=
  | step_start s s' t : StartTransaction s = Ok (s', t) -> step s s'
  | step_changes s tid props : step s (RecordChanges tid props s)
  | step_catalog s tid : step s (PushCatalogVersion tid s)
  | step_commit s s' tid we ce ok :
      current_start_timestamp s < TRANSACTION_ID_START ->
      CommitTransaction tid we ce s = Ok (s', ok) -> step s s'
  | step_rollback s s' tid : RollbackTransaction tid s = Ok s' -> step s s'
  | step_cleanup s s' info : CleanupStep s = Some (s', info) -> step s s'.

Inductive reachable : DuckTransactionManager -> Prop :=
  | reachable_initial garbage : reachable (initial_manager garbage)
  | reachable_step s s' : reachable s -> step s s' -> reachable s'.
