(* ===== verification/TransactionManagerFacts.v ===== *)
(** * The transaction manager: invariants of the reachable states *)

From stdpp Require Import sorting.
From S2P Require Import Prelude Snapshot TransactionManager.

Local Open Scope Z_scope.

(** ** Lists of transactions *)

Lemma index_of_middle tid l1 t l2 :
  GetTransactionId t = tid -> tid ∉ GetTransactionId <$> l1 -> index_of tid (l1 ++ t :: l2) = length l1.
Proof.
  intros Ht. induction l1 as [|x l1 IH]; cbn.
  - by rewrite Ht, Z.eqb_refl.
  - intros [Hne Hnot]%not_elem_of_cons. destruct (Z.eqb_spec (GetTransactionId x) tid); [congruence|].
    by rewrite IH.
Qed.

Lemma index_of_lookup tid l t :
  l !! index_of tid l = Some t ->
  exists l1 l2, l = l1 ++ t :: l2 /\ GetTransactionId t = tid /\ tid ∉ GetTransactionId <$> l1.
Proof.
  induction l as [|x l IH]; [done|]. cbn. destruct (Z.eqb_spec (GetTransactionId x) tid) as [Hx|Hx]; cbn.
  - intros [= ->]. exists [], l. split_and!; [done|done|apply not_elem_of_nil].
  - intros (l1 & l2 & -> & Ht & Hnot)%IH. exists (x :: l1), l2. split_and!; [done|done|].
    cbn. apply not_elem_of_cons. split; [congruence|done].
Qed.

(** Updating the transaction [tid] when the ids are distinct. *)
Lemma update_middle tid f l1 t l2 :
  GetTransactionId t = tid -> NoDup (GetTransactionId <$> l1 ++ t :: l2) ->
  (fun t => if GetTransactionId t =? tid then f t else t) <$> l1 ++ t :: l2 = l1 ++ f t :: l2.
Proof.
  intros Ht Hnd. rewrite fmap_app in Hnd. rewrite fmap_app. cbn in Hnd |- *.
  apply NoDup_app in Hnd as (_ & Hdis & [Hnot _]%NoDup_cons).
  assert (forall l : list DuckTransaction, tid ∉ GetTransactionId <$> l ->
    (fun t => if GetTransactionId t =? tid then f t else t) <$> l = l) as Hid.
  { induction l as [|x l IH]; [done|]. cbn. intros [Hne Hn]%not_elem_of_cons.
    destruct (Z.eqb_spec (GetTransactionId x) tid); [congruence|]. by rewrite IH. }
  rewrite Ht, Z.eqb_refl. rewrite !Hid; [done| |].
  - by rewrite <- Ht.
  - intros Hin. apply (Hdis tid Hin). rewrite Ht. by left.
Qed.

(** ** The lowest visibility bound *)

Lemma all_committed_value : VisibilityBound.value VisibilityBound.AllCommitted = TRANSACTION_ID_START.
Proof. reflexivity. Qed.

Lemma min_value a b :
  VisibilityBound.value (VisibilityBound.Min a b) = Z.min (VisibilityBound.value a) (VisibilityBound.value b).
Proof. unfold VisibilityBound.Min. destruct (Z.ltb_spec (VisibilityBound.value a) (VisibilityBound.value b)); lia. Qed.

Definition low_step (exclude : Z) (acc : VisibilityBound.t) (t : DuckTransaction) : VisibilityBound.t :=
  if GetTransactionId t =? exclude then acc else VisibilityBound.Min acc (visibility_bound (tview t)).

Lemma low_fold exclude l acc :
  VisibilityBound.value (foldl (low_step exclude) acc l) <= VisibilityBound.value acc /\
  forall t, t ∈ l -> GetTransactionId t <> exclude ->
    VisibilityBound.value (foldl (low_step exclude) acc l) <= VisibilityBound.value (visibility_bound (tview t)).
Proof.
  revert acc. induction l as [|x l IH]; intros acc; cbn [foldl].
  { split; [done|]. by intros t ?%not_elem_of_nil. }
  destruct (IH (low_step exclude acc x)) as [H1 H2].
  assert (VisibilityBound.value (low_step exclude acc x) <= VisibilityBound.value acc) as Hx.
  { unfold low_step. case_match; [lia|]. rewrite min_value. lia. }
  split; [lia|]. intros t [->|Hin]%elem_of_cons Hne; [|by apply H2].
  etrans; [exact H1|]. unfold low_step. destruct (Z.eqb_spec (GetTransactionId x) exclude); [done|].
  rewrite min_value. lia.
Qed.

Lemma computed_lowest_le exclude l t :
  t ∈ l -> GetTransactionId t <> exclude ->
  VisibilityBound.value (computed_lowest exclude l) <= VisibilityBound.value (visibility_bound (tview t)).
Proof. intros. by apply (low_fold exclude l VisibilityBound.AllCommitted). Qed.

(** The bound is positive when the bounds of the transactions are. *)
Lemma computed_lowest_pos exclude l :
  (forall t, t ∈ l -> GetTransactionId t <> exclude -> 0 < VisibilityBound.value (visibility_bound (tview t))) ->
  0 < VisibilityBound.value (computed_lowest exclude l).
Proof.
  unfold computed_lowest. assert (0 < VisibilityBound.value VisibilityBound.AllCommitted) as Hacc.
  { rewrite all_committed_value. unfold TRANSACTION_ID_START. lia. }
  revert Hacc. generalize VisibilityBound.AllCommitted as acc. induction l as [|t l IH]; intros acc Hacc Hl; [done|].
  cbn [foldl]. apply IH; [|intros; apply Hl; [by right|done]].
  destruct (Z.eqb_spec (GetTransactionId t) exclude); [done|]. rewrite min_value.
  specialize (Hl t ltac:(by left) ltac:(done)). lia.
Qed.

(** With no other transaction, everything committed is before the bound. *)
Lemma computed_lowest_none exclude l :
  (forall t, t ∈ l -> GetTransactionId t = exclude) ->
  computed_lowest exclude l = VisibilityBound.AllCommitted.
Proof.
  intros H. unfold computed_lowest. change (foldl (low_step exclude) VisibilityBound.AllCommitted l = VisibilityBound.AllCommitted).
  induction l as [|x l IH]; [done|]. cbn. unfold low_step at 2. rewrite H by (by left).
  rewrite Z.eqb_refl. apply IH. intros t Ht. apply H. by right.
Qed.

(** ** Sweeping *)

Lemma sweep_spec bound l :
  let '(swept, kept) := sweep bound l in
  exists n, swept = set_awaiting true <$> take n l /\ kept = drop n l /\
    Forall (fun t => commit_id t < VisibilityBound.value bound) (take n l) /\
    (forall t, head kept = Some t -> VisibilityBound.value bound <= commit_id t).
Proof.
  induction l as [|t l IH]; cbn [sweep]; [by exists 0%nat|].
  unfold VisibilityBound.not_before, VisibilityBound.before.
  destruct (Z.ltb_spec (commit_id t) (VisibilityBound.value bound)) as [Hlt|Hge]; cbn [negb].
  - destruct (sweep bound l) as [swept kept]. destruct IH as (n & -> & -> & Hf & Hk).
    exists (S n). split_and!; [done|done| |done]. by constructor.
  - exists 0%nat. split_and!; [done|done|constructor|]. by intros t' [= <-].
Qed.

(** ** Removing an active transaction *)

(** What becomes of a removed transaction: kept for its old versions, or queued for cleanup. *)
Definition rehome (store : bool) (t : DuckTransaction) : list DuckTransaction * list DuckTransaction :=
  if store then if negb (commit_id t =? 0) then ([t], []) else ([], [t])
  else if changes_made t then ([], [set_awaiting true t]) else ([], []).

Lemma remove_transaction tid store s l1 t l2 :
  active_transactions s = l1 ++ t :: l2 -> GetTransactionId t = tid -> tid ∉ GetTransactionId <$> l1 ->
  let low := computed_lowest tid (l1 ++ t :: l2) in
  let '(recent, queued) := rehome store t in
  let '(swept, kept) := sweep low (recently_committed_transactions s ++ recent) in
  RemoveTransaction tid store s =
  Ok (set_recent kept (set_active (l1 ++ l2) (set_recent (recently_committed_transactions s ++ recent) (set_lowest low s))),
      mkCleanupInfo (queued ++ swept) low).
Proof.
  intros Hl Ht Hnot. cbv zeta. unfold RemoveTransaction, UpdateLowestVisibilityBound. rewrite Hl.
  cbn [active_transactions set_lowest]. rewrite Hl, index_of_middle by done.
  rewrite lookup_app_r, Nat.sub_diag by lia. cbn [lookup list_lookup].
  unfold rehome. destruct store.
  - destruct (negb (commit_id t =? 0)); cbv beta iota zeta; unfold SweepCommittedTransactions; cbn;
      rewrite Hl, delete_middle; by destruct (sweep _ _).
  - destruct (changes_made t); cbv beta iota zeta; unfold SweepCommittedTransactions; cbn;
      rewrite Hl, delete_middle; by destruct (sweep _ _).
Qed.

(** ** The invariant *)

(** The transaction left versions that others may still have to read. *)
Definition keeps_versions (t : DuckTransaction) : bool :=
  has_updates (undo_properties t) || has_index_deletes (undo_properties t)
  || has_catalog_changes (undo_properties t).

(** An active transaction in a manager whose next timestamps are [cst] and [ctid]. *)
Record active_ok (cst ctid : Z) (t : DuckTransaction) : Prop := {
  act_start : 2 <= start_time t < cst;
  act_view : visibility_bound (tview t) = VisibilityBound.Before (start_time t);
  act_id : TRANSACTION_ID_START <= GetTransactionId t < ctid;
  act_commit : commit_id t = 0;
  act_wait : awaiting_cleanup t = false
}.

(** A committed transaction kept for its versions. *)
Record recent_ok (cst : Z) (t : DuckTransaction) : Prop := {
  rec_commit : 0 < commit_id t < cst;
  rec_wait : awaiting_cleanup t = false
}.

(** The old versions of a transaction that awaits cleanup are needed by no active transaction. *)
Definition collectable (cst : Z) (active : list DuckTransaction) (t : DuckTransaction) : Prop :=
  awaiting_cleanup t = true -> keeps_versions t = true ->
  0 < commit_id t < cst /\ forall a, a ∈ active -> commit_id t < start_time a.

Record Inv (s : DuckTransactionManager) : Prop := {
  inv_start : 2 <= current_start_timestamp s <= TRANSACTION_ID_START;
  inv_ids : TRANSACTION_ID_START <= current_transaction_id s
            <= TRANSACTION_ID_START + current_start_timestamp s - 2;
  inv_active : Forall (active_ok (current_start_timestamp s) (current_transaction_id s)) (active_transactions s);
  inv_nodup : NoDup (GetTransactionId <$> active_transactions s);
  inv_lowest : forall t, t ∈ active_transactions s ->
               VisibilityBound.value (lowest_visibility_bound s) <= start_time t;
  inv_recent : Forall (recent_ok (current_start_timestamp s)) (recently_committed_transactions s);
  inv_sorted : StronglySorted Z.lt (commit_id <$> recently_committed_transactions s);
  inv_queue : forall info, info ∈ cleanup_queue s -> forall t, t ∈ cleanup_transactions info ->
              collectable (current_start_timestamp s) (active_transactions s) t;
  inv_low_pos : 0 < VisibilityBound.value (lowest_visibility_bound s)
}.

Lemma inv_initial garbage : Inv (initial_manager garbage).
Proof.
  split; cbn; try (unfold SYSTEM_TRANSACTION_TIMESTAMP, TRANSACTION_ID_START, MAX_TRANSACTION_ID, u64_max; lia).
  all: try solve [apply NoDup_nil_2 | apply Forall_nil_2 | apply SSorted_nil].
  - by intros t ?%not_elem_of_nil.
  - by intros info ?%not_elem_of_nil.
Qed.

Lemma active_ok_mono cst cst' ctid ctid' t : cst <= cst' -> ctid <= ctid' -> active_ok cst ctid t -> active_ok cst' ctid' t.
Proof. intros ? ? []. split; try done; lia. Qed.

Lemma recent_ok_mono cst cst' t : cst <= cst' -> recent_ok cst t -> recent_ok cst' t.
Proof. intros ? []. split; [lia|done]. Qed.

Lemma inv_step_start s s' t : Inv s -> StartTransaction s = Ok (s', t) -> Inv s' /\ t ∈ active_transactions s'.
Proof.
  intros []. unfold StartTransaction.
  destruct (Z.leb_spec TRANSACTION_ID_START (current_start_timestamp s)); [done|]. intros [= <- <-].
  assert (u64 (current_start_timestamp s + 1) = current_start_timestamp s + 1) as Hs.
  { apply wrapu_small. unfold in_u. change (2 ^ 64) with 18446744073709551616. unfold TRANSACTION_ID_START in *. lia. }
  assert (u64 (current_transaction_id s + 1) = current_transaction_id s + 1) as Hi.
  { apply wrapu_small. unfold in_u. change (2 ^ 64) with 18446744073709551616. unfold TRANSACTION_ID_START in *. lia. }
  split; [|cbn; apply elem_of_app; right; by left].
  split; cbn [current_start_timestamp current_transaction_id active_transactions lowest_visibility_bound
    recently_committed_transactions cleanup_queue last_commit]; rewrite ?Hs, ?Hi; try lia.
  - apply Forall_app. split.
    + eapply Forall_impl; [done|]. intros t. apply active_ok_mono; lia.
    + constructor; [|constructor]. split; cbn; try done; lia.
  - rewrite fmap_app. apply NoDup_app. split_and!; [done| |apply NoDup_singleton].
    intros x (t & -> & Hin)%list_elem_of_fmap. rewrite Forall_forall in inv_active0.
    specialize (inv_active0 t Hin). cbn. rewrite list_elem_of_singleton. destruct inv_active0. unfold GetTransactionId in *. cbn. lia.
  - intros t [Hin|Heq%list_elem_of_singleton]%elem_of_app; [|rewrite Heq].
    + destruct (active_transactions s) eqn:Ha; [by apply not_elem_of_nil in Hin|]. by apply inv_lowest0.
    + cbn. destruct (active_transactions s) as [|a l] eqn:Ha; [done|].
      assert (a ∈ a :: l) as Hin by (by left). specialize (inv_lowest0 a Hin).
      apply Forall_cons in inv_active0 as [[] _]. lia.
  - eapply Forall_impl; [done|]. intros t. apply recent_ok_mono. lia.
  - done.
  - intros info Hinfo t Ht Hw Hk. destruct (inv_queue0 info Hinfo t Ht Hw Hk) as [? Hall]. split; [lia|].
    intros a [Hin|Heq%list_elem_of_singleton]%elem_of_app; [by apply Hall|]. rewrite Heq. cbn. lia.
  - destruct (active_transactions s); cbn; lia.
Qed.

(** Facts about transactions that only depend on their ids, start times and states. *)
Lemma inv_update_active s l' :
  Inv s ->
  Forall2 (fun t t' => start_time t' = start_time t /\ tview t' = tview t /\ commit_id t' = commit_id t /\
    awaiting_cleanup t' = awaiting_cleanup t) (active_transactions s) l' -> Inv (set_active l' s).
Proof.
  intros [] Hf.
  assert (GetTransactionId <$> l' = GetTransactionId <$> active_transactions s) as Hids.
  { clear -Hf. induction Hf as [|x y l l' (_ & Hv & _) _ IH]; [done|]. cbn. unfold GetTransactionId at 1 3.
    by rewrite Hv, IH. }
  assert (forall t', t' ∈ l' -> exists t, t ∈ active_transactions s /\ start_time t' = start_time t) as Hin.
  { intros t' [i Hi]%list_elem_of_lookup. destruct (Forall2_lookup_r _ _ _ _ _ Hf Hi) as (t & Ht & Hs & _).
    exists t. split; [by apply list_elem_of_lookup_2 in Ht|done]. }
  split; cbn; try done.
  - clear -Hf inv_active0. induction Hf as [|x y l l' (Hs & Hv & Hc & Hw) _ IH]; [constructor|].
    apply Forall_cons in inv_active0 as [[] ?]. constructor; [|by apply IH].
    split; unfold GetTransactionId in *; rewrite ?Hs, ?Hv, ?Hc, ?Hw; done.
  - by rewrite Hids.
  - intros t' (t & Ht & ->)%Hin. by apply inv_lowest0.
  - intros info Hinfo t Ht Hw Hk. destruct (inv_queue0 info Hinfo t Ht Hw Hk) as [? Hall]. split; [done|].
    intros a (a0 & Ha & ->)%Hin. by apply Hall.
Qed.

Lemma inv_update_transaction s tid f :
  (forall t, start_time (f t) = start_time t /\ tview (f t) = tview t /\ commit_id (f t) = commit_id t /\
    awaiting_cleanup (f t) = awaiting_cleanup t) ->
  Inv s -> Inv (update_transaction tid f s).
Proof.
  intros Hf Hs. apply inv_update_active; [done|].
  induction (active_transactions s) as [|x l IH]; [constructor|]. cbn. constructor; [|done].
  destruct (GetTransactionId x =? tid); [apply Hf|done].
Qed.

Lemma SSorted_singleton (x : Z) : StronglySorted Z.lt [x].
Proof. repeat constructor. Qed.

Lemma StronglySorted_drop n (l : list Z) : StronglySorted Z.lt l -> StronglySorted Z.lt (drop n l).
Proof.
  revert l. induction n as [|n IH]; intros l Hl; [done|]. destruct l as [|x l]; [done|].
  apply StronglySorted_cons in Hl as [_ ?]. by apply IH.
Qed.

(** The state a removal leaves, for a transaction whose commit id has been decided. *)
Lemma inv_remove s tid store l1 t l2 :
  (* the invariant holds for everything but the commit id of the transaction itself *)
  Inv (set_active (l1 ++ set_commit 0 t :: l2) s) ->
  active_transactions s = l1 ++ t :: l2 -> GetTransactionId t = tid ->
  (commit_id t = 0 \/ 0 < commit_id t < current_start_timestamp s /\
     Forall (fun r => commit_id r < commit_id t) (recently_committed_transactions s)) ->
  (store = false -> changes_made t = true -> keeps_versions t = false) ->
  exists s' info, RemoveTransaction tid store s = Ok (s', info) /\
    Inv (QueueCleanup info s') /\
    active_transactions (QueueCleanup info s') = l1 ++ l2 /\
    lowest_visibility_bound (QueueCleanup info s') = computed_lowest tid (l1 ++ t :: l2) /\
    (forall r, head (recently_committed_transactions (QueueCleanup info s')) = Some r ->
       VisibilityBound.value (computed_lowest tid (l1 ++ t :: l2)) <= commit_id r).
Proof.
  intros HI Hact Ht Hcommit Hkeep.
  destruct HI as [Hst Hid Hall Hnd Hlow Hrec Hsort Hq Hlast Hlpos]. cbn in *.
  assert (tid ∉ GetTransactionId <$> l1) as Hnot.
  { rewrite fmap_app in Hnd. apply NoDup_app in Hnd as (_ & Hdis & _). intros Hin. apply (Hdis tid Hin).
    cbn. rewrite <- Ht. by left. }
  pose proof (remove_transaction tid store s l1 t l2 Hact Ht Hnot) as Heq. cbv zeta in Heq.
  set (low := computed_lowest tid (l1 ++ t :: l2)) in *.
  destruct (rehome store t) as [recent queued] eqn:Hre.
  destruct (sweep low (recently_committed_transactions s ++ recent)) as [swept kept] eqn:Hsw.
  eexists _, _. split; [exact Heq|].
  pose proof (sweep_spec low (recently_committed_transactions s ++ recent)) as Hs. rewrite Hsw in Hs.
  destruct Hs as (n & -> & -> & Hsweep & Hhead).
  assert (forall a, a ∈ l1 ++ l2 -> a ∈ l1 ++ set_commit 0 t :: l2) as Hsub
    by (intros a; rewrite !elem_of_app, elem_of_cons; tauto).
  assert (forall a, a ∈ l1 ++ l2 -> VisibilityBound.value low <= start_time a) as Hlow'.
  { intros a Ha. rewrite Forall_forall in Hall. pose proof (Hall a (Hsub a Ha)) as [_ Hv _ _ _].
    change (start_time a) with (VisibilityBound.value (VisibilityBound.Before (start_time a))). rewrite <- Hv.
    apply computed_lowest_le; [rewrite elem_of_app, elem_of_cons in *; tauto|].
    intros Hid'. rewrite fmap_app in Hnd. cbn in Hnd. apply NoDup_app in Hnd as (_ & Hdis & [Hn2 _]%NoDup_cons).
    assert (GetTransactionId (set_commit 0 t) = tid) as Ht' by done.
    apply elem_of_app in Ha as [Ha|Ha].
    - apply Hnot. rewrite <- Hid'. by apply list_elem_of_fmap_2.
    - apply Hn2. rewrite Ht', <- Hid'. by apply list_elem_of_fmap_2. }
  assert (awaiting_cleanup t = false) as Hwait.
  { apply Forall_app in Hall as [_ [[] _]%Forall_cons]. done. }
  assert (Forall (recent_ok (current_start_timestamp s)) recent /\
    (recent = [] \/ recent = [t] /\ Forall (fun r => commit_id r < commit_id t) (recently_committed_transactions s)) /\
    Forall (collectable (current_start_timestamp s) (l1 ++ l2)) queued) as (Hrec1 & Hrec2 & Hqueued).
  { unfold rehome in Hre. destruct store.
    - destruct (Z.eqb_spec (commit_id t) 0) as [H0|H0]; cbn [negb] in Hre; simplify_eq.
      + split_and!; [done|by left|]. constructor; [|done]. intros Hw. congruence.
      + destruct Hcommit as [?|[? ?]]; [done|]. split_and!; [by constructor|by right|done].
    - destruct (changes_made t) eqn:Hch; simplify_eq; split_and!; try done; try by left.
      constructor; [|done]. intros _ Hk. unfold keeps_versions in *. cbn in Hk. by rewrite Hkeep in Hk. }
  set (all := recently_committed_transactions s ++ recent) in *.
  assert (Forall (recent_ok (current_start_timestamp s)) all) as Hrec' by (by apply Forall_app).
  assert (StronglySorted Z.lt (commit_id <$> all)) as Hsort'.
  { subst all. rewrite fmap_app. apply StronglySorted_app_2; [|done|].
    - intros x1 x2 (r1 & -> & H1)%list_elem_of_fmap (r2 & -> & H2)%list_elem_of_fmap.
      destruct Hrec2 as [->|[-> Hf]]; [by apply not_elem_of_nil in H2|].
      apply list_elem_of_singleton in H2 as ->. rewrite Forall_forall in Hf. by apply Hf.
    - destruct Hrec2 as [->|[-> _]]; [constructor|apply SSorted_singleton]. }
  assert (forall info, info ∈ cleanup_queue s ++ [mkCleanupInfo (queued ++ (set_awaiting true <$> take n all)) low] ->
    forall t', t' ∈ cleanup_transactions info -> collectable (current_start_timestamp s) (l1 ++ l2) t') as Hq'.
  { intros info [Hinfo|Heqi%list_elem_of_singleton]%elem_of_app t' Hin.
    - intros Hw Hk. destruct (Hq info Hinfo t' Hin Hw Hk) as [? Ha]. split; [done|]. auto.
    - rewrite Heqi in Hin. apply elem_of_app in Hin as [Hin|(r & -> & Hr)%list_elem_of_fmap].
      + rewrite Forall_forall in Hqueued. by apply Hqueued.
      + intros _ _. cbn. rewrite Forall_forall in Hsweep. specialize (Hsweep r Hr).
        apply elem_of_take in Hr as (j & Hj%list_elem_of_lookup_2 & _). rewrite Forall_forall in Hrec'.
        destruct (Hrec' r Hj). split; [done|]. intros a Ha. specialize (Hlow' a Ha). lia. }
  assert (Inv (set_recent (drop n all) (set_active (l1 ++ l2) (set_recent all (set_lowest low s))))) as HI.
  { split; cbn; try done.
    - rewrite Forall_app in Hall |- *. destruct Hall as [? [_ ?]%Forall_cons]. done.
    - rewrite fmap_app in Hnd |- *. cbn in Hnd. apply NoDup_app in Hnd as (? & Hdis & [? ?]%NoDup_cons).
      apply NoDup_app. split_and!; [done| |done]. intros x Hx Hx2. apply (Hdis x Hx). by right.
    - by apply Forall_drop.
    - rewrite fmap_drop. by apply StronglySorted_drop.
    - intros info Hinfo t' Hin. apply (Hq' info); [|done]. apply elem_of_app. by left.
    - apply computed_lowest_pos. intros a Ha Hne. assert (a ∈ l1 ++ l2) as Ha'.
      { apply elem_of_app in Ha as [?|[->|?]%elem_of_cons]; [apply elem_of_app; by left|done|apply elem_of_app; by right]. }
      rewrite Forall_forall in Hall. destruct (Hall a (Hsub a Ha')) as [? -> _ _ _]. cbn. lia. }
  unfold QueueCleanup. destruct (ScheduleCleanup _); [|by split_and!].
  split_and!; try done. destruct HI. by split.
Qed.

Lemma inv_tick s s1 id :
  Inv s -> current_start_timestamp s < TRANSACTION_ID_START -> GetCommitTimestamp s = (s1, id) ->
  Inv s1 /\ id = current_start_timestamp s /\ current_start_timestamp s1 = id + 1 /\
  active_transactions s1 = active_transactions s /\
  recently_committed_transactions s1 = recently_committed_transactions s.
Proof.
  intros [] Hlt [= <- <-].
  assert (u64 (current_start_timestamp s + 1) = current_start_timestamp s + 1) as Hs.
  { apply wrapu_small. unfold in_u. change (2 ^ 64) with 18446744073709551616. unfold TRANSACTION_ID_START in *. lia. }
  split_and!; cbn; try done. split; cbn; rewrite ?Hs; try done; try lia.
  - eapply Forall_impl; [done|]. intros t. apply active_ok_mono; lia.
  - eapply Forall_impl; [done|]. intros t. apply recent_ok_mono. lia.
  - intros info Hinfo t Ht Hw Hk. destruct (inv_queue0 info Hinfo t Ht Hw Hk) as [? Hall]. split; [lia|done].
Qed.

(** The state in which [CommitTransaction] removes the transaction: [t'] is the transaction with its
    final commit id. *)
Lemma commit_before_remove s tid l1 t l2 (we ce : bool) s1 id :
  Inv s -> active_transactions s = l1 ++ t :: l2 -> GetTransactionId t = tid ->
  Inv s1 -> active_transactions s1 = active_transactions s -> 0 < id < current_start_timestamp s1 ->
  let error := we || ce in
  let s2 := if we then s1 else update_transaction tid (set_commit id) s1 in
  let s3 := if error then update_transaction tid (set_commit 0) s2
            else let s := set_last_commit id s2 in
                 if TRANSACTION_ID_START <=? catalog_version t then
                   let v := u64 (last_committed_version s + 1) in
                   update_transaction tid (set_catalog_version v) (set_committed_version v s)
                 else s in
  exists t', active_transactions s3 = l1 ++ t' :: l2 /\ GetTransactionId t' = tid /\
    commit_id t' = (if error then 0 else id) /\ undo_properties t' = undo_properties t /\
    changes_made t' = changes_made t /\
    Inv (set_active (l1 ++ set_commit 0 t' :: l2) s3) /\
    current_start_timestamp s3 = current_start_timestamp s1 /\
    recently_committed_transactions s3 = recently_committed_transactions s1 /\
    last_commit s3 = (if error then last_commit s1 else id) /\
    cleanup_queue s3 = cleanup_queue s1 /\ current_transaction_id s3 = current_transaction_id s1.
Proof.
  intros HI Hact Ht HI1 Hact1 Hid. cbv zeta. rewrite Hact in Hact1.
  assert (NoDup (GetTransactionId <$> l1 ++ t :: l2)) as Hnd by (rewrite <- Hact; apply HI).
  assert (forall f t0 s0, GetTransactionId t0 = tid -> GetTransactionId (f t0) = tid ->
    active_transactions s0 = l1 ++ t0 :: l2 ->
    active_transactions (update_transaction tid f s0) = l1 ++ f t0 :: l2) as Hup.
  { intros f t0 s0 Ht0 _ Hs0. unfold update_transaction. cbn. rewrite Hs0. apply update_middle; [done|].
    rewrite fmap_app in Hnd |- *. cbn in Hnd |- *. by rewrite Ht0, <- Ht. }
  assert (commit_id t = 0) as H0.
  { destruct HI. rewrite Hact in inv_active0. by apply Forall_app in inv_active0 as [_ [[] _]%Forall_cons]. }
  assert (forall t0 s0, start_time t0 = start_time t -> tview t0 = tview t -> awaiting_cleanup t0 = awaiting_cleanup t ->
    current_start_timestamp s0 = current_start_timestamp s1 -> current_transaction_id s0 = current_transaction_id s1 ->
    lowest_visibility_bound s0 = lowest_visibility_bound s1 ->
    recently_committed_transactions s0 = recently_committed_transactions s1 -> cleanup_queue s0 = cleanup_queue s1 ->
    Inv (set_active (l1 ++ set_commit 0 t0 :: l2) s0)) as Hinv.
  { intros t0 s0 E1 E2 E3 F1 F2 F3 F4 F5.
    assert (Inv (set_active (l1 ++ set_commit 0 t0 :: l2) s1)) as [].
    { apply inv_update_active; [done|]. rewrite Hact1. apply Forall2_app; [apply Forall_Forall2_diag, Forall_forall; done|].
      constructor; [done|]. apply Forall_Forall2_diag, Forall_forall. done. }
    split; cbn in *; rewrite ?F1, ?F2, ?F3, ?F4, ?F5; done. }
  destruct we, ce; cbn [orb].
  - exists (set_commit 0 t). split_and!; try done; [by apply Hup|by apply Hinv].
  - exists (set_commit 0 t). split_and!; try done; [by apply Hup|by apply Hinv].
  - exists (set_commit 0 (set_commit id t)). split_and!; try done; [|by apply Hinv].
    apply Hup; [done|done|]. by apply Hup.
  - destruct (TRANSACTION_ID_START <=? catalog_version t).
    + eexists (set_catalog_version _ (set_commit id t)). split_and!; try done.
      * apply Hup; [done|done|]. cbn. by apply (Hup (set_commit id)).
      * by apply Hinv.
    + exists (set_commit id t). split_and!; try done; [by apply (Hup (set_commit id))|].
      by apply Hinv.
Qed.

(** A commit: the transaction leaves the active set, and the invariant holds again. *)
Lemma inv_step_commit s s' tid we ce ok :
  Inv s -> current_start_timestamp s < TRANSACTION_ID_START ->
  CommitTransaction tid we ce s = Ok (s', ok) ->
  Inv s' /\ current_start_timestamp s' = current_start_timestamp s + 1 /\ ok = negb (we || ce) /\
  last_commit s' = (if ok then current_start_timestamp s else last_commit s) /\
  exists l1 t l2, active_transactions s = l1 ++ t :: l2 /\ GetTransactionId t = tid /\
    active_transactions s' = l1 ++ l2 /\
    lowest_visibility_bound s' = computed_lowest tid (l1 ++ t :: l2) /\
    (forall r, head (recently_committed_transactions s') = Some r ->
       VisibilityBound.value (lowest_visibility_bound s') <= commit_id r).
Proof.
  intros HI Hlt. unfold CommitTransaction, find_transaction.
  destruct (active_transactions s !! index_of tid (active_transactions s)) as [t|] eqn:Hf; [|done].
  destruct (index_of_lookup _ _ _ Hf) as (l1 & l2 & Hact & Ht & _).
  destruct (GetCommitTimestamp s) as [s1 id] eqn:Hg.
  destruct (inv_tick s s1 id HI Hlt Hg) as (HI1 & Hid & Hcst & Hact1 & Hrec1).
  assert (0 < id < current_start_timestamp s1) as Hidr by (pose proof (inv_start _ HI); lia).
  destruct (commit_before_remove s tid l1 t l2 we ce s1 id HI Hact Ht HI1 Hact1 Hidr)
    as (t' & Hact3 & Ht' & Hc' & Hp' & Hch' & HI3 & Hcst3 & Hrec3 & Hlast3 & _). cbv zeta in Hact3, HI3, Hcst3, Hrec3, Hlast3.
  set (s3 := if we || ce then _ else _) in *.
  destruct (inv_remove s3 tid (store_transaction (undo_properties t) (we || ce)) l1 t' l2 HI3 Hact3 Ht')
    as (s4 & info & Hrm & HI4 & Hact4 & Hlow4 & Hhead4).
  { rewrite Hc', Hcst3, Hrec3, Hrec1. destruct (we || ce); [by left|]. right. split; [done|].
    eapply Forall_impl; [apply (inv_recent _ HI)|]. intros r [? _]. lia. }
  { intros Hst _. unfold keeps_versions. rewrite Hp'. unfold store_transaction in Hst.
    by apply orb_false_iff in Hst as [? _]. }
  rewrite Hrm. cbn [mbind result_bind]. intros [= <- <-].
  assert (computed_lowest tid (l1 ++ t' :: l2) = computed_lowest tid (l1 ++ t :: l2)) as Hcl.
  { unfold computed_lowest. rewrite !foldl_app. cbn [foldl]. by rewrite Ht, Ht', !Z.eqb_refl. }
  assert (current_start_timestamp (QueueCleanup info s4) = current_start_timestamp s3 /\
    last_commit (QueueCleanup info s4) = last_commit s3) as [Hc4 Hl4].
  { assert (tid ∉ GetTransactionId <$> l1) as Hnot.
    { pose proof (inv_nodup _ HI) as Hnd. rewrite Hact, fmap_app in Hnd. apply NoDup_app in Hnd as (_ & Hdis & _).
      intros Hin. apply (Hdis tid Hin). cbn. rewrite <- Ht. by left. }
    pose proof (remove_transaction tid (store_transaction (undo_properties t) (we || ce)) s3 l1 t' l2 Hact3 Ht' Hnot) as Heq.
    cbv zeta in Heq. destruct (rehome _ t'), (sweep _ _). rewrite Hrm in Heq. injection Heq as -> ->.
    unfold QueueCleanup. by destruct (ScheduleCleanup _). }
  split_and!; [done|lia|done| |].
  - assert (last_commit s1 = last_commit s) as Hl1 by (unfold GetCommitTimestamp in Hg; by injection Hg as <- _).
    rewrite Hl4, Hlast3. destruct (we || ce); cbn [negb]; [done|lia].
  - exists l1, t, l2. rewrite Hlow4. split_and!; try done. 
Qed.

Lemma inv_step_rollback s s' tid :
  Inv s -> RollbackTransaction tid s = Ok s' -> Inv s'.
Proof.
  intros HI. unfold RollbackTransaction, find_transaction.
  destruct (active_transactions s !! index_of tid (active_transactions s)) as [t|] eqn:Hf; [|done].
  destruct (index_of_lookup _ _ _ Hf) as (l1 & l2 & Hact & Ht & _).
  assert (commit_id t = 0) as H0.
  { pose proof (inv_active _ HI) as Ha. rewrite Hact in Ha. by apply Forall_app in Ha as [_ [[] _]%Forall_cons]. }
  assert (set_commit 0 t = t) as Hsame by (destruct t; cbn in *; by subst).
  destruct (inv_remove s tid (changes_made t) l1 t l2) as (s1 & info & -> & HI1 & _); [|done|done|by left| |].
  - rewrite Hsame, <- Hact. destruct s; done.
  - intros -> ?. congruence.
  - cbn [mbind result_bind]. by intros [= <-].
Qed.

Lemma inv_step s s' : Inv s -> step s s' -> Inv s'.
Proof.
  intros HI Hs. destruct Hs as [s s' t Hst|s tid props|s tid|s s' tid we ce ok Hlt Hc|s s' tid Hr|s s' info Hc].
  - by eapply inv_step_start.
  - by apply inv_update_transaction.
  - apply inv_update_transaction; [done|]. destruct HI. by split.
  - by destruct (inv_step_commit _ _ _ _ _ _ HI Hlt Hc).
  - by eapply inv_step_rollback.
  - unfold CleanupStep in Hc. destruct (cleanup_queue s) as [|i q] eqn:Hq; [done|]. injection Hc as <- <-.
    destruct HI. split; cbn; try done. intros info Hin. apply inv_queue0. rewrite Hq. by right.
Qed.

Lemma reachable_inv s : reachable s -> Inv s.
Proof. induction 1; [apply inv_initial|by eapply inv_step]. Qed.

(** Every active transaction has a well-formed snapshot: what the row versions and the catalog
    rely on. *)
Lemma reachable_wf_view s t : reachable s -> t ∈ active_transactions s -> WfView (tview t).
Proof.
  intros Hr%reachable_inv Hin. destruct Hr. rewrite Forall_forall in inv_active0.
  destruct (inv_active0 t Hin) as [Hs Hv Hi _ _]. split.
  - rewrite Hv. cbn. lia.
  - unfold GetTransactionId in Hi. unfold NOT_DELETED_ID, TRANSACTION_ID_START, u64_max in *. lia.
Qed.
