(* ===== verification/TransactionQueues.v ===== *)
(** * Where the transactions of a manager are

    A transaction is active, kept for its versions, or queued for cleanup, and never in two of these
    places; what a commit and a rollback do to the three lists. *)

From S2P Require Import Prelude Snapshot TransactionManager TransactionManagerFacts.

Local Open Scope Z_scope.

Section Queues.
Implicit Types (s : DuckTransactionManager) (t : DuckTransaction).

Definition queued s : list DuckTransaction := concat (cleanup_transactions <$> cleanup_queue s).
Definition pending s : list DuckTransaction := recently_committed_transactions s ++ queued s.
Definition all_ids s : list Z := GetTransactionId <$> (active_transactions s ++ pending s).

Record ids_ok s : Prop := {
  ids_distinct : NoDup (all_ids s);
  ids_below : forall id, id ∈ all_ids s -> id < current_transaction_id s
}.

(** The transaction [t] leaves the active ones: the lists afterwards. *)
Definition removed store t (l1 l2 : list DuckTransaction) s s' : Prop :=
  active_transactions s' = l1 ++ l2 /\
  let '(recent, rehomed) := rehome store t in
  exists n, let all := recently_committed_transactions s ++ recent in
    recently_committed_transactions s' = drop n all /\
    queued s' = queued s ++ rehomed ++ (set_awaiting true <$> take n all).

Lemma remove_queues tid store s l1 t l2 :
  active_transactions s = l1 ++ t :: l2 -> GetTransactionId t = tid -> tid ∉ GetTransactionId <$> l1 ->
  exists s' info, RemoveTransaction tid store s = Ok (s', info) /\
    current_start_timestamp (QueueCleanup info s') = current_start_timestamp s /\
    current_transaction_id (QueueCleanup info s') = current_transaction_id s /\
    removed store t l1 l2 s (QueueCleanup info s').
Proof.
  intros Hl Ht Hnot. pose proof (remove_transaction tid store s l1 t l2 Hl Ht Hnot) as Heq. cbv zeta in Heq.
  unfold removed. destruct (rehome store t) as [recent rehomed].
  pose proof (sweep_spec (computed_lowest tid (l1 ++ t :: l2)) (recently_committed_transactions s ++ recent)) as Hs.
  destruct (sweep _ _) as [swept kept]. destruct Hs as (n & -> & -> & _).
  eexists _, _. split; [exact Heq|]. unfold QueueCleanup, ScheduleCleanup.
  destruct (cleanup_transactions _) as [|x l] eqn:E; cbn in E |- *; (split; [done|]; split; [done|]; split; [done|]);
    exists n; (split; [done|]); unfold queued; cbn.
  - by rewrite E, app_nil_r.
  - rewrite fmap_app, concat_app. cbn. by rewrite app_nil_r.
Qed.

Lemma awaiting_id b t : GetTransactionId (set_awaiting b t) = GetTransactionId t.
Proof. done. Qed.

Lemma removed_ids store t0 t l1 l2 s s' : active_transactions s = l1 ++ t0 :: l2 -> GetTransactionId t0 = GetTransactionId t ->
  removed store t l1 l2 s s' -> all_ids s' ⊆+ all_ids s.
Proof.
  intros Hl Hid (Hl' & Hrest). destruct (rehome store t) as [recent rehomed] eqn:Hre. destruct Hrest as (n & Hr & Hq).
  assert (Hone : GetTransactionId <$> (recent ++ rehomed) ⊆+ [GetTransactionId t]).
  { unfold rehome in Hre. destruct store, (negb (commit_id t =? 0)), (changes_made t); injection Hre as <- <-; cbn;
      done || apply submseteq_nil_l. }
  unfold all_ids, pending. rewrite Hl, Hl', Hr, Hq. set (all := recently_committed_transactions s ++ recent) in *.
  assert (Hswept : GetTransactionId <$> (set_awaiting true <$> take n all) = GetTransactionId <$> take n all).
  { rewrite <- list_fmap_compose. by apply list_fmap_ext. }
  rewrite !fmap_app, Hswept. cbn. rewrite Hid.
  trans ((GetTransactionId <$> l1) ++ (GetTransactionId <$> l2) ++ (GetTransactionId <$> (take n all ++ drop n all)) ++
         (GetTransactionId <$> queued s) ++ (GetTransactionId <$> rehomed)).
  { rewrite !fmap_app. apply Permutation_submseteq. solve_Permutation. }
  rewrite take_drop. unfold all. rewrite fmap_app in Hone |- *.
  trans ((GetTransactionId <$> recent ++ rehomed) ++ (GetTransactionId <$> l1) ++ (GetTransactionId <$> l2) ++
    (GetTransactionId <$> recently_committed_transactions s) ++ (GetTransactionId <$> queued s)).
  { rewrite !fmap_app. apply Permutation_submseteq. solve_Permutation. }
  rewrite fmap_app. trans ([GetTransactionId t] ++ (GetTransactionId <$> l1) ++ (GetTransactionId <$> l2) ++
    (GetTransactionId <$> recently_committed_transactions s) ++ (GetTransactionId <$> queued s)); [by apply submseteq_skips_r|].
  apply Permutation_submseteq. solve_Permutation.
Qed.

Lemma ids_ok_removed store t0 t l1 l2 s s' : ids_ok s -> active_transactions s = l1 ++ t0 :: l2 ->
  GetTransactionId t0 = GetTransactionId t -> current_transaction_id s' = current_transaction_id s ->
  removed store t l1 l2 s s' -> ids_ok s'.
Proof.
  intros [Hd Hb] Hl Hid Hc Hr. pose proof (removed_ids store t0 t l1 l2 s s' Hl Hid Hr) as Hsub. apply submseteq_Permutation in Hsub as [k Hk]. split.
  - rewrite Hk in Hd. by apply NoDup_app in Hd as (? & _).
  - intros id Hin. rewrite Hc. apply Hb. rewrite Hk. apply elem_of_app. by left.
Qed.

(** A transaction that is active waits in no queue. *)
Lemma active_not_pending s t p : ids_ok s -> t ∈ active_transactions s -> p ∈ pending s -> GetTransactionId p <> GetTransactionId t.
Proof.
  intros [Hd _] Ht Hp Heq. unfold all_ids in Hd. rewrite fmap_app in Hd. apply NoDup_app in Hd as (_ & Hdis & _).
  apply (Hdis (GetTransactionId t)); [by apply list_elem_of_fmap_2|]. rewrite <- Heq. by apply list_elem_of_fmap_2.
Qed.

Lemma commit_queues s s' tid we ce ok :
  Inv s -> current_start_timestamp s < TRANSACTION_ID_START -> CommitTransaction tid we ce s = Ok (s', ok) ->
  ok = negb (we || ce) /\
  exists l1 t l2 t', active_transactions s = l1 ++ t :: l2 /\ find_transaction tid s = Some t /\
    GetTransactionId t = tid /\ GetTransactionId t' = tid /\
    commit_id t' = (if we || ce then 0 else current_start_timestamp s) /\
    undo_properties t' = undo_properties t /\ changes_made t' = changes_made t /\ awaiting_cleanup t' = false /\
    current_start_timestamp s' = current_start_timestamp s + 1 /\ current_transaction_id s' = current_transaction_id s /\
    removed (store_transaction (undo_properties t) (we || ce)) t' l1 l2 s s'.
Proof.
  intros HI Hlt Hcommit. destruct (inv_step_commit s s' tid we ce ok HI Hlt Hcommit) as (_ & _ & Hok & _). split; [done|].
  revert Hcommit. unfold CommitTransaction. destruct (find_transaction tid s) as [t|] eqn:Hf; [|done].
  destruct (index_of_lookup _ _ _ Hf) as (l1 & l2 & Hact & Ht & Hnot).
  destruct (GetCommitTimestamp s) as [s1 id] eqn:Hg.
  destruct (inv_tick s s1 id HI Hlt Hg) as (HI1 & Hid & Hcst & Hact1 & Hrec1).
  assert (cleanup_queue s1 = cleanup_queue s /\ current_transaction_id s1 = current_transaction_id s) as [Hq1 Hc1] by by injection Hg as <- <-.
  assert (0 < id < current_start_timestamp s1) as Hidr by (pose proof (inv_start _ HI); lia).
  destruct (commit_before_remove s tid l1 t l2 we ce s1 id HI Hact Ht HI1 Hact1 Hidr)
    as (t' & Hact3 & Ht' & Hc' & Hp' & Hch' & HI3 & Hcst3 & Hrec3 & _ & Hq3 & Htid3). cbv zeta in *.
  set (s3 := if we || ce then _ else _) in *.
  destruct (remove_queues tid (store_transaction (undo_properties t) (we || ce)) s3 l1 t' l2 Hact3 Ht' Hnot)
    as (s4 & info & Hrm & Hst4 & Htid4 & Hr4).
  rewrite Hrm. cbn [mbind result_bind]. intros [= <- _]. exists l1, t, l2, t'.
  assert (awaiting_cleanup t' = false) as Hw.
  { pose proof (inv_active _ HI3) as Ha. cbn in Ha. apply Forall_app in Ha as [_ [[] _]%Forall_cons]. done. }
  split_and!; try done; [by rewrite Hc', Hid|lia|congruence|].
  destruct Hr4 as [Hl4 Hrest]. split; [done|]. destruct (rehome _ t') as [recent rehomed].
  destruct Hrest as (n & Hr4 & Hq4). exists n. rewrite Hrec3, Hrec1 in Hr4, Hq4. unfold queued in *. by rewrite Hq3, Hq1 in Hq4.
Qed.

Lemma rollback_queues s s' tid : RollbackTransaction tid s = Ok s' ->
  exists l1 t l2, active_transactions s = l1 ++ t :: l2 /\ find_transaction tid s = Some t /\ GetTransactionId t = tid /\
    current_start_timestamp s' = current_start_timestamp s /\ current_transaction_id s' = current_transaction_id s /\
    removed (changes_made t) t l1 l2 s s'.
Proof.
  unfold RollbackTransaction. destruct (find_transaction tid s) as [t|] eqn:Hf; [|done].
  destruct (index_of_lookup _ _ _ Hf) as (l1 & l2 & Hact & Ht & Hnot).
  destruct (remove_queues tid (changes_made t) s l1 t l2 Hact Ht Hnot) as (s1 & info & -> & Hst & Htid & Hr).
  cbn [mbind result_bind]. intros [= <-]. by exists l1, t, l2.
Qed.

Lemma ids_ok_initial garbage : ids_ok (initial_manager garbage).
Proof. split; cbn; [constructor|]. by intros id ?%not_elem_of_nil. Qed.

Lemma ids_ok_start s s' t : Inv s -> ids_ok s -> StartTransaction s = Ok (s', t) -> ids_ok s'.
Proof.
  intros HI [Hd Hb] Hs. destruct (inv_step_start s s' t HI Hs) as [HI' _]. revert Hs. unfold StartTransaction.
  destruct (Z.leb_spec TRANSACTION_ID_START (current_start_timestamp s)); [done|]. intros [= <- <-].
  assert (u64 (current_transaction_id s + 1) = current_transaction_id s + 1) as Hi.
  { apply wrapu_small. pose proof (inv_ids _ HI). unfold in_u. change (2 ^ 64) with 18446744073709551616. unfold TRANSACTION_ID_START in *. lia. }
  assert (Hperm : all_ids (mkManager (u64 (current_start_timestamp s + 1)) (u64 (current_transaction_id s + 1))
      match active_transactions s with [] => VisibilityBound.Before (current_start_timestamp s) | _ => lowest_visibility_bound s end
      (last_commit s) (last_committed_version s) (last_uncommitted_catalog_version s)
      (active_transactions s ++ [mkTransaction (current_start_timestamp s)
        (mkSnapshotView (current_transaction_id s) (VisibilityBound.Before (current_start_timestamp s))) 0 (last_committed_version s) false no_undo false])
      (recently_committed_transactions s) (cleanup_queue s)) ≡ₚ current_transaction_id s :: all_ids s).
  { unfold all_ids, pending, queued. cbn. rewrite !fmap_app. cbn. solve_Permutation. }
  split.
  - cbn. rewrite Hperm. constructor; [|done]. intros Hin. specialize (Hb _ Hin). lia.
  - intros id. cbn. rewrite Hperm, Hi. intros [->|Hin]%elem_of_cons; [lia|]. specialize (Hb _ Hin). lia.
Qed.

(** The transactions may change, but not their ids. *)
Lemma ids_ok_same s s' g : (forall t, GetTransactionId (g t) = GetTransactionId t) ->
  active_transactions s' = g <$> active_transactions s -> pending s' = pending s ->
  current_transaction_id s' = current_transaction_id s -> ids_ok s -> ids_ok s'.
Proof.
  intros Hg Hact Hp Hc [Hd Hb]. assert (all_ids s' = all_ids s) as Heq.
  { unfold all_ids. rewrite Hp, Hact, !fmap_app, <- list_fmap_compose. f_equal. apply list_fmap_ext. intros _ t _. apply Hg. }
  split; by rewrite Heq, ?Hc.
Qed.
End Queues.
