(* ===== verification/TransactionTheorems.v ===== *)
(** * The transaction manager: the theorems

    What the manager guarantees in every reachable state, and what that means for the row versions and
    the catalog versions that rely on its snapshots and its cleanup bounds. *)

From stdpp Require Import sorting.
From S2P Require Import Prelude Snapshot ValidityMask ChunkInfo RowVersions RowVersionsFacts.
From S2P Require Import CatalogSet CatalogSetFacts TransactionManager TransactionManagerFacts TransactionQueues.

Local Open Scope Z_scope.

(** The snapshot of an active transaction sees exactly the commits before its start. *)
Lemma active_sees_commit s t id :
  reachable s -> t ∈ active_transactions s -> id < TRANSACTION_ID_START ->
  Sees (tview t) id = (id <? start_time t).
Proof.
  intros Hr Ht Hid. pose proof (reachable_inv s Hr) as HI. destruct HI.
  rewrite Forall_forall in inv_active. destruct (inv_active t Ht). unfold GetTransactionId in act_id.
  unfold Sees, VisibilityBound.before. rewrite act_view. cbn.
  destruct (Z.eqb_spec id (transaction_id (tview t))); [lia|]. apply orb_false_r.
Qed.

(** Every active transaction sees the commit of a transaction whose old versions are queued. *)
Lemma queued_commit_seen s info t a :
  reachable s -> info ∈ cleanup_queue s -> t ∈ cleanup_transactions info ->
  awaiting_cleanup t = true -> keeps_versions t = true -> a ∈ active_transactions s ->
  Sees (tview a) (commit_id t) = true.
Proof.
  intros Hr Hinfo Ht Hw Hk Ha. pose proof (reachable_inv s Hr) as HI.
  destruct (inv_queue s HI info Hinfo t Ht Hw Hk) as [Hc Hall].
  rewrite (active_sees_commit s a _ Hr Ha); [by apply Z.ltb_lt, Hall|]. pose proof (inv_start s HI). lia.
Qed.

(** In every reachable state every active transaction has a well-formed snapshot: its bound is a
    commit timestamp and its id lies above every commit id and below [NOT_DELETED_ID]; the ids of
    the active transactions are distinct. *)
Theorem active_snapshots_wf s :
  reachable s ->
  (forall t, t ∈ active_transactions s -> WfView (tview t)) /\ NoDup (GetTransactionId <$> active_transactions s).
Proof. intros Hr. split; [intros t; by apply reachable_wf_view|apply (reachable_inv s Hr)]. Qed.

(** The next timestamp never goes back. *)
Lemma timestamp_grows s s1 : reachable s -> rtc step s s1 -> reachable s1 /\ current_start_timestamp s <= current_start_timestamp s1.
Proof.
  intros Hr Hsteps. induction Hsteps as [s|s s1 s2 Hs _ IH]; [done|]. pose proof (reachable_inv s Hr) as HI.
  destruct IH as [Hr2 Hle]; [by eapply reachable_step|]. split; [done|]. enough (current_start_timestamp s <= current_start_timestamp s1) by lia.
  destruct Hs as [s s' t Hst|s tid props|s tid|s s' tid we ce ok Hlt Hc|s s' tid Hrb|s s' info Hc]; try done.
  - unfold StartTransaction in Hst. destruct (Z.leb_spec TRANSACTION_ID_START (current_start_timestamp s)); [done|]. injection Hst as <- _.
    cbn. pose proof (inv_start _ HI). rewrite wrapu_small; [lia|].
    unfold in_u. change (2 ^ 64) with 18446744073709551616. unfold TRANSACTION_ID_START in *. lia.
  - destruct (inv_step_commit s s' tid we ce ok HI Hlt Hc) as (_ & -> & _). lia.
  - destruct (rollback_queues s s' tid Hrb) as (l1 & t & l2 & _ & _ & _ & -> & _). lia.
  - unfold CleanupStep in Hc. destruct (cleanup_queue s); [done|]. injection Hc as <- _. cbn. lia.
Qed.

(** What leaves the active transactions by a commit that failed is not kept as committed. *)
Lemma failed_commit_keeps s s' tid we ce r : Inv s -> current_start_timestamp s < TRANSACTION_ID_START ->
  CommitTransaction tid we ce s = Ok (s', false) -> r ∈ recently_committed_transactions s' -> r ∈ recently_committed_transactions s.
Proof.
  intros HI Hlt Hc. destruct (commit_queues s s' tid we ce false HI Hlt Hc)
    as (Herr & l1 & t & l2 & t' & _ & _ & _ & _ & Hcid & _ & _ & _ & _ & _ & _ & Hrem).
  destruct (we || ce); [|done]. unfold rehome in Hrem. rewrite Hcid in Hrem. unfold store_transaction in Hrem. rewrite orb_true_r in Hrem.
  cbn in Hrem. destruct Hrem as (n & -> & _). rewrite app_nil_r. intros (i & Hi)%list_elem_of_lookup.
  rewrite lookup_drop in Hi. by eapply list_elem_of_lookup_2.
Qed.

(** C28. A successful commit publishes the timestamp at which it happens as its id: no transaction active at
    that moment sees it, and every transaction sees it that is started in a later state of the manager,
    whatever happens in between. A failed commit publishes no id: the last commit is what it was, and no
    transaction is added to the committed ones. *)
Theorem commit_visibility s tid we ce s' ok :
  reachable s -> current_start_timestamp s < TRANSACTION_ID_START ->
  CommitTransaction tid we ce s = Ok (s', ok) ->
  ok = negb (we || ce) /\
  last_commit s' = (if ok then current_start_timestamp s else last_commit s) /\
  (ok = false -> forall r, r ∈ recently_committed_transactions s' -> r ∈ recently_committed_transactions s) /\
  (ok = true ->
     (forall a, a ∈ active_transactions s -> Sees (tview a) (last_commit s') = false) /\
     (forall s1 s2 t, rtc step s' s1 -> StartTransaction s1 = Ok (s2, t) -> Sees (tview t) (last_commit s') = true)).
Proof.
  intros Hr Hlt Hc. pose proof (reachable_inv s Hr) as HI.
  destruct (inv_step_commit s s' tid we ce ok HI Hlt Hc) as (_ & Hcst & Hok & Hlast & _).
  split; [done|]. split; [done|]. split; [intros -> r; by eapply failed_commit_keeps|].
  intros ->. cbn [negb] in Hlast. rewrite Hlast. split.
  - intros a Ha. rewrite (active_sees_commit s a _ Hr Ha Hlt). apply Z.ltb_ge.
    pose proof (inv_active s HI) as Hact. rewrite Forall_forall in Hact. destruct (Hact a Ha). lia.
  - intros s1 s2 t Hsteps. assert (reachable s') as Hr' by (eapply reachable_step; [exact Hr|by eapply step_commit]).
    destruct (timestamp_grows s' s1 Hr' Hsteps) as [_ Hle]. unfold StartTransaction. case_match; [done|]. intros [= _ <-].
    cbn. apply Sees_spec. left. cbn. lia.
Qed.

(** C29. Safety of the cleanup: when the manager has queued a committed transaction for the destruction
    of the versions it superseded, every active transaction sees the commit that superseded them. *)
Theorem cleanup_queue_safe s info t a :
  reachable s -> info ∈ cleanup_queue s -> t ∈ cleanup_transactions info ->
  awaiting_cleanup t = true -> keeps_versions t = true -> a ∈ active_transactions s ->
  Sees (tview a) (commit_id t) = true.
Proof. apply queued_commit_seen. Qed.

(** Progress of the cleanup: a commit that leaves no transaction active queues all the committed
    transactions, so no version is kept for ever. *)
Theorem last_commit_sweeps s tid we ce s' ok :
  reachable s -> current_start_timestamp s < TRANSACTION_ID_START ->
  CommitTransaction tid we ce s = Ok (s', ok) -> active_transactions s' = [] ->
  recently_committed_transactions s' = [].
Proof.
  intros Hr Hlt Hc Hnone. pose proof (reachable_inv s Hr) as HI.
  destruct (inv_step_commit s s' tid we ce ok HI Hlt Hc) as (HI' & _ & _ & _ & l1 & t & l2 & Ha & Hid & Ha' & Hlow & Hhead).
  rewrite Hnone in Ha'. symmetry in Ha'. apply app_eq_nil in Ha' as [-> ->].
  rewrite (computed_lowest_none tid) in Hlow by (intros x ->%list_elem_of_singleton; done).
  destruct (recently_committed_transactions s') as [|r l] eqn:Hrec; [done|]. exfalso.
  specialize (Hhead r eq_refl). rewrite Hlow, all_committed_value in Hhead.
  pose proof (inv_recent s' HI') as Hall. rewrite Hrec in Hall. apply Forall_cons in Hall as [[] _].
  pose proof (inv_start s' HI'). lia.
Qed.

(** The committed transactions that are kept are in commit order, and every commit id is older than
    the next timestamp. *)
Theorem recent_commits_ordered s :
  reachable s ->
  StronglySorted Z.lt (commit_id <$> recently_committed_transactions s) /\
  Forall (fun t => 0 < commit_id t < current_start_timestamp s) (recently_committed_transactions s).
Proof.
  intros Hr. destruct (reachable_inv s Hr). split_and!; [done|].
  eapply Forall_impl; [done|]. by intros t [].
Qed.

(** An explicit checkpoint runs as a full checkpoint only when every active transaction sees the
    last commit (the hypothesis on it rules out a field that no commit has set yet); an automatic one
    only when the committing transaction is the only active one. *)
Theorem full_checkpoint_sees_all s tid props c :
  reachable s -> last_commit s < TRANSACTION_ID_START ->
  (ExplicitCheckpointType s = FULL_CHECKPOINT ->
     forall a, a ∈ active_transactions s -> Sees (tview a) (last_commit s) = true) /\
  (GetCheckpointType tid props c s = CanCheckpointAs FULL_CHECKPOINT ->
     forall a, a ∈ active_transactions s -> GetTransactionId a = tid).
Proof.
  intros Hr Hlt. split.
  - unfold ExplicitCheckpointType. intros Hf a Ha. pose proof (reachable_inv s Hr) as HI.
    destruct (last_commit s >=?b lowest_visibility_bound s) eqn:Hb; [done|].
    apply negb_false_iff, Z.ltb_lt in Hb. rewrite (active_sees_commit s a _ Hr Ha Hlt). apply Z.ltb_lt.
    pose proof (inv_lowest s HI a Ha). lia.
  - unfold GetCheckpointType. intros Hf a Ha. destruct (HasOtherTransactions tid s) eqn:Ho.
    + cbn [andb] in Hf. repeat (case_match; try done).
    + unfold HasOtherTransactions in Ho. destruct (Z.eqb_spec (GetTransactionId a) tid) as [|Hne]; [done|].
      assert (existsb (fun t => negb (GetTransactionId t =? tid)) (active_transactions s) = true); [|congruence].
      apply existsb_exists. exists a. split; [by apply list_elem_of_In|]. apply negb_true_iff. by apply Z.eqb_neq.
Qed.

(** ** The components together *)

(** Compressing the version info of a row group with the lowest visibility bound of the manager
    changes nothing that any active transaction sees. *)
Theorem compression_safe_for_active `{VS : VectorSize} s m t :
  reachable s -> wf_manager m -> t ∈ active_transactions s ->
  exists m', RowVersionManager.CompressVersionIds (lowest_visibility_bound s) m = Ok m' /\ wf_manager m' /\
    forall row, row_visible (tview t) m' row = row_visible (tview t) m row.
Proof.
  intros Hr Hwf Ht. pose proof (reachable_inv s Hr) as HI.
  destruct (compress_manager (lowest_visibility_bound s) m Hwf (inv_low_pos s HI)) as (m' & Hc & Hwf' & Hv).
  exists m'. split_and!; [done|done|]. intros row. apply Hv.
  pose proof (inv_active s HI) as Hact. rewrite Forall_forall in Hact. destruct (Hact t Ht). rewrite act_view. cbn.
  by apply (inv_lowest s HI).
Qed.

(** Destroying a catalog version that a queued transaction superseded changes no lookup of any
    active transaction. *)
Theorem catalog_cleanup_safe_for_active defaults s info t a cs n vs1 p vp x e vs2 has :
  reachable s -> info ∈ cleanup_queue s -> t ∈ cleanup_transactions info ->
  awaiting_cleanup t = true -> keeps_versions t = true -> a ∈ active_transactions s ->
  rep cs -> versions_of cs n (vs1 ++ (p, vp) :: (x, e) :: vs2) -> timestamp vp = commit_id t -> defaults n = None ->
  exists cs', CleanupEntry x cs = Ok cs' /\ rep cs' /\
    GetEntry defaults (mkCatalogTransaction (tview a) has) n cs'
    = Ok (cs', lookup_version (tview a) (vs1 ++ (p, vp) :: (x, e) :: vs2)).
Proof.
  intros Hr Hinfo Ht Hw Hk Ha Hrep Hv Hts Hdef.
  pose proof (queued_commit_seen s info t a Hr Hinfo Ht Hw Hk Ha) as Hs. rewrite <- Hts in Hs.
  destruct (cleanup_entry cs n vs1 p vp x e vs2 Hrep Hv) as (cs' & Hc & Hrep' & _ & Hv').
  exists cs'. split_and!; [done|done|].
  rewrite (get_entry_versions defaults (mkCatalogTransaction (tview a) has) n cs' _ Hrep' Hv' Hdef). cbn [view].
  f_equal. f_equal. by apply cleaned_lookup.
Qed.

(** ** Witnesses

    Three transactions: the first makes catalog changes and commits while the second is active; the
    third starts; the second commits, which lets the versions the first one superseded go. *)

Definition start_of (s : DuckTransactionManager) : DuckTransactionManager :=
  match StartTransaction s with Ok (s', _) => s' | Throw _ => s end.
Definition commit_of (tid : Z) (s : DuckTransactionManager) : DuckTransactionManager :=
  match CommitTransaction tid false false s with Ok (s', _) => s' | Throw _ => s end.

Lemma reachable_start_of s : reachable s -> reachable (start_of s).
Proof.
  intros Hr. unfold start_of. destruct (StartTransaction s) as [[s' t]|] eqn:Hs; [|done].
  eapply reachable_step; [done|]. by eapply step_start.
Qed.

Lemma reachable_commit_of tid s :
  reachable s -> current_start_timestamp s < TRANSACTION_ID_START -> reachable (commit_of tid s).
Proof.
  intros Hr Hlt. unfold commit_of. destruct (CommitTransaction tid false false s) as [[s' ok]|] eqn:Hs; [|done].
  eapply reachable_step; [done|]. by eapply step_commit.
Qed.

Definition catalog_undo : UndoBufferProperties := mkUndoProperties 0 false false false true false.

Definition two_active : DuckTransactionManager :=
  RecordChanges TRANSACTION_ID_START catalog_undo (start_of (start_of (initial_manager 0))).
Definition one_kept : DuckTransactionManager := commit_of TRANSACTION_ID_START two_active.
Definition one_queued : DuckTransactionManager := commit_of (TRANSACTION_ID_START + 1) (start_of one_kept).

Lemma two_active_reachable : reachable two_active.
Proof.
  eapply reachable_step; [|apply step_changes]. do 2 apply reachable_start_of. apply reachable_initial.
Qed.

Lemma one_kept_reachable : reachable one_kept.
Proof. apply reachable_commit_of; [apply two_active_reachable|done]. Qed.

Lemma one_queued_reachable : reachable one_queued.
Proof. apply reachable_commit_of; [apply reachable_start_of, one_kept_reachable|done]. Qed.

(** The transaction that is queued and the one that is still active. *)
Definition queued_transaction : DuckTransaction :=
  mkTransaction 2 (mkSnapshotView TRANSACTION_ID_START (VisibilityBound.Before 2)) 4 0 true catalog_undo true.
Definition active_transaction : DuckTransaction :=
  mkTransaction 5 (mkSnapshotView (TRANSACTION_ID_START + 2) (VisibilityBound.Before 5)) 0 0 false no_undo false.
Definition queued_info : DuckCleanupInfo := mkCleanupInfo [queued_transaction] (VisibilityBound.Before 5).

Lemma one_queued_queue : cleanup_queue one_queued = [queued_info].
Proof. vm_compute. reflexivity. Qed.

Lemma one_queued_active : active_transactions one_queued = [active_transaction].
Proof. vm_compute. reflexivity. Qed.

Lemma active_snapshots_wf_witness :
  (forall t, t ∈ active_transactions two_active -> WfView (tview t)) /\
  NoDup (GetTransactionId <$> active_transactions two_active).
Proof. apply (active_snapshots_wf two_active). apply two_active_reachable. Defined.

(** A transaction that starts after another one started and was rolled back. *)
Definition rolled_back : DuckTransactionManager :=
  match RollbackTransaction (TRANSACTION_ID_START + 2) (start_of one_kept) with Ok s => s | Throw _ => one_kept end.

Lemma commit_visibility_witness :
  CommitTransaction TRANSACTION_ID_START false false two_active = Ok (one_kept, true) /\
  (forall a, a ∈ active_transactions two_active -> Sees (tview a) (last_commit one_kept) = false) /\
  Sees (mkSnapshotView (TRANSACTION_ID_START + 3) (VisibilityBound.Before 6)) (last_commit one_kept) = true /\
  exists s', CommitTransaction TRANSACTION_ID_START false true two_active = Ok (s', false) /\ last_commit s' = last_commit two_active.
Proof.
  pose proof two_active_reachable as Hr. split; [vm_compute; reflexivity|].
  destruct (commit_visibility two_active TRANSACTION_ID_START false false one_kept true Hr) as (_ & _ & _ & H);
    [reflexivity|vm_compute; reflexivity|].
  destruct (H eq_refl) as [Hactive Hlater]. split; [exact Hactive|]. split.
  - apply (Hlater rolled_back (start_of rolled_back) (mkTransaction 6 (mkSnapshotView (TRANSACTION_ID_START + 3) (VisibilityBound.Before 6)) 0 0 false no_undo false));
      [|vm_compute; reflexivity].
    eapply rtc_l; [apply (step_start one_kept (start_of one_kept) (mkTransaction 5 (mkSnapshotView (TRANSACTION_ID_START + 2) (VisibilityBound.Before 5)) 0 0 false no_undo false));
      vm_compute; reflexivity|].
    eapply rtc_l; [apply (step_rollback (start_of one_kept) rolled_back (TRANSACTION_ID_START + 2)); vm_compute; reflexivity|apply rtc_refl].
  - destruct (CommitTransaction TRANSACTION_ID_START false true two_active) as [[s' ok]|] eqn:Hc; [|by vm_compute in Hc].
    destruct (commit_visibility two_active TRANSACTION_ID_START false true s' ok Hr eq_refl Hc) as (Hok & Hl & _).
    cbn in Hok. subst ok. exists s'. split; [reflexivity|exact Hl].
Defined.

Lemma cleanup_queue_safe_witness : Sees (tview active_transaction) (commit_id queued_transaction) = true.
Proof.
  apply (cleanup_queue_safe one_queued queued_info queued_transaction active_transaction).
  - apply one_queued_reachable.
  - rewrite one_queued_queue. by left.
  - by left.
  - reflexivity.
  - reflexivity.
  - rewrite one_queued_active. by left.
Defined.

Lemma last_commit_sweeps_witness :
  recently_committed_transactions (commit_of (TRANSACTION_ID_START + 1) one_kept) = [].
Proof.
  apply (last_commit_sweeps one_kept (TRANSACTION_ID_START + 1) false false _ true).
  - apply one_kept_reachable.
  - reflexivity.
  - vm_compute. reflexivity.
  - vm_compute. reflexivity.
Defined.

Lemma recent_commits_ordered_witness :
  StronglySorted Z.lt (commit_id <$> recently_committed_transactions one_kept) /\
  Forall (fun t => 0 < commit_id t < current_start_timestamp one_kept) (recently_committed_transactions one_kept).
Proof. apply (recent_commits_ordered one_kept). apply one_kept_reachable. Defined.

Lemma full_checkpoint_sees_all_witness :
  ExplicitCheckpointType (start_of (initial_manager 0)) = FULL_CHECKPOINT /\
  forall a, a ∈ active_transactions (start_of (initial_manager 0)) ->
    Sees (tview a) (last_commit (start_of (initial_manager 0))) = true.
Proof.
  split; [reflexivity|].
  apply (full_checkpoint_sees_all (start_of (initial_manager 0)) 0 no_undo
    (mkConditions false false true true false true false false)).
  - apply reachable_start_of, reachable_initial.
  - reflexivity.
  - reflexivity.
Defined.

Lemma compression_safe_for_active_witness :
  exists m', @RowVersionManager.CompressVersionIds default_vector_size (lowest_visibility_bound one_queued)
      RowVersionManager.make = Ok m' /\ @wf_manager default_vector_size m' /\
    forall row, @row_visible default_vector_size (tview active_transaction) m' row
      = @row_visible default_vector_size (tview active_transaction) RowVersionManager.make row.
Proof.
  apply (@compression_safe_for_active default_vector_size one_queued RowVersionManager.make active_transaction).
  - apply one_queued_reachable.
  - by intros [|v] c.
  - rewrite one_queued_active. by left.
Defined.

(** The catalog entry the first transaction created at commit 4, above its dummy node. *)
Definition committed_set : CatalogSet :=
  mkSet {[ 0%nat := mkEntry 0 INVALID "t" true false false 0 None (Some 1%nat);
           1%nat := mkEntry 1 TABLE_ENTRY "t" false false false 4 (Some 0%nat) None ]}
        {[ "t"%string := 1%nat ]} 2 2 [].

Lemma committed_set_versions : versions_of committed_set "t"
  ([] ++ (1%nat, mkEntry 1 TABLE_ENTRY "t" false false false 4 None None)
      :: (0%nat, mkEntry 0 INVALID "t" true false false 0 None None) :: []).
Proof.
  eexists [(1%nat, mkEntry 1 TABLE_ENTRY "t" false false false 4 (Some 0%nat) None);
           (0%nat, mkEntry 0 INVALID "t" true false false 0 None (Some 1%nat))].
  split; [|done]. unfold chain_at. replace (entries committed_set !! "t"%string) with (Some 1%nat) by by vm_compute.
  split_and!.
  - eapply chain_cons; [by vm_compute|done|done|]. apply chain_last; [by vm_compute|done|done].
  - apply NoDup_cons. split; [set_solver|]. apply NoDup_singleton.
  - by repeat constructor.
Qed.

Lemma committed_set_rep : rep committed_set.
Proof.
  split.
  - intros n. destruct (decide (n = "t"%string)) as [->|Hne].
    + destruct committed_set_versions as (es & H & _). by exists es.
    + exists []. unfold chain_at. cbn [entries committed_set]. by rewrite lookup_singleton_ne.
  - intros [|[|a]] Ha; cbn in Ha; [lia|lia|]. cbn [heap committed_set].
    by rewrite lookup_insert_ne, lookup_singleton_ne.
Qed.

Lemma catalog_cleanup_safe_for_active_witness :
  exists cs, CleanupEntry 0%nat committed_set = Ok cs /\ rep cs /\
    GetEntry (fun _ => None) (mkCatalogTransaction (tview active_transaction) true) "t" cs = Ok (cs, Some 1%nat).
Proof.
  apply (catalog_cleanup_safe_for_active (fun _ => None) one_queued queued_info queued_transaction active_transaction
    committed_set "t" [] 1%nat (mkEntry 1 TABLE_ENTRY "t" false false false 4 None None) 0%nat
    (mkEntry 0 INVALID "t" true false false 0 None None) [] true).
  - apply one_queued_reachable.
  - rewrite one_queued_queue. by left.
  - by left.
  - reflexivity.
  - reflexivity.
  - rewrite one_queued_active. by left.
  - apply committed_set_rep.
  - apply committed_set_versions.
  - reflexivity.
  - reflexivity.
Defined.
