(* ===== verification/StorageLock.v ===== *)
(** * The storage lock

    Models [storage/storage_lock.cpp]: a read-write lock whose waiters sleep on a condition variable.
    Every transition below is what one thread does while it holds [state_lock]; a blocking
    acquisition is two transitions, the registration and the step that finds the wait condition
    true. The counters are unbounded naturals, and the wrap-around of the 64-bit ones is left out. *)

From S2P Require Import Prelude.

Inductive StorageLockType := SHARED | EXCLUSIVE.

Record StorageLockInternals := mkInternals {
  read_count : nat;
  writer_active : bool;
  writer_tickets : nat;
  writers_done : nat
}.

Definition initial_internals : StorageLockInternals := mkInternals 0 false 0 0.

(** The states of a thread: outside the lock, inside [state_cv.wait] (asleep, or woken and about to
    test the condition again), or with the keys it holds. *)
Inductive thread :=
  | Idle
  | WaitExclusive (asleep : bool)
  | WaitShared (target : nat) (asleep : bool)
  | HoldShared
  | HoldExclusive
  | HoldBoth.

#[export] Instance thread_eq_dec : EqDecision thread.
Proof. solve_decision. Defined.

(** [GetExclusiveLock]: [await_writer] is one turn of the loop of [state_cv.wait] and what follows it. *)
Definition register_writer (s : StorageLockInternals) : StorageLockInternals :=
  mkInternals (read_count s) (writer_active s) (S (writer_tickets s)) (writers_done s).
Definition writer_can_enter (s : StorageLockInternals) : bool :=
  negb (writer_active s) && (read_count s =? 0).
Definition await_writer (s : StorageLockInternals) : StorageLockInternals * thread :=
  if writer_can_enter s
  then (mkInternals (read_count s) true (writer_tickets s) (writers_done s), HoldExclusive)
  else (s, WaitExclusive true).
Definition GetExclusiveLock (s : StorageLockInternals) : StorageLockInternals * thread :=
  await_writer (register_writer s).

(** [GetSharedLock]: the reader remembers the writers registered before it. *)
Definition reader_can_enter (target : nat) (s : StorageLockInternals) : bool :=
  negb (writer_active s) && (target <=? writers_done s).
Definition await_reader (target : nat) (s : StorageLockInternals) : StorageLockInternals * thread :=
  if reader_can_enter target s
  then (mkInternals (S (read_count s)) (writer_active s) (writer_tickets s) (writers_done s), HoldShared)
  else (s, WaitShared target true).
Definition GetSharedLock (s : StorageLockInternals) : StorageLockInternals * thread :=
  await_reader (writer_tickets s) s.

Definition TryGetExclusiveLock (s : StorageLockInternals) : option StorageLockInternals :=
  if writer_active s || negb (read_count s =? 0) then None
  else Some (mkInternals (read_count s) true (S (writer_tickets s)) (writers_done s)).

(** The type is that of the key passed in. *)
Definition TryUpgradeCheckpointLock (type : StorageLockType) (s : StorageLockInternals)
    : result (option StorageLockInternals) :=
  match type with
  | EXCLUSIVE => Throw (InternalException "StorageLock::TryUpgradeLock called on an exclusive lock")
  | SHARED =>
      if writer_active s || negb (read_count s =? 1) then mret None
      else mret (Some (mkInternals (read_count s) true (S (writer_tickets s)) (writers_done s)))
  end.

(** The critical sections of the two releases, with whether [notify_all] is called after them. *)
Definition ReleaseExclusiveLock (s : StorageLockInternals) : StorageLockInternals * bool :=
  (mkInternals (read_count s) false (writer_tickets s) (S (writers_done s)), true).
Definition ReleaseSharedLock (s : StorageLockInternals) : StorageLockInternals * bool :=
  let count := read_count s - 1 in
  (mkInternals count (writer_active s) (writer_tickets s) (writers_done s), count =? 0).

Definition ReleaseKey (type : StorageLockType) (s : StorageLockInternals) : StorageLockInternals * bool :=
  match type with EXCLUSIVE => ReleaseExclusiveLock s | SHARED => ReleaseSharedLock s end.

(** ** Threads *)

(** The effect of [notify_all] and of a spurious wake-up on one thread. *)
Definition wake (t : thread) : thread :=
  match t with
  | WaitExclusive _ => WaitExclusive false
  | WaitShared target _ => WaitShared target false
  | t => t
  end.

(** [notifications] counts the [notify_all] calls that are due: they are made after [state_lock] is
    released, so other threads may run in between. *)
Record system := mkSystem {
  lock : StorageLockInternals;
  threads : list thread;
  notifications : nat
}.

(** What a thread holds after the destructor of one of its keys ran. *)
Definition after_release (type : StorageLockType) (t : thread) : option thread :=
  match type, t with
  | EXCLUSIVE, HoldExclusive => Some Idle
  | EXCLUSIVE, HoldBoth => Some HoldShared
  | SHARED, HoldShared => Some Idle
  | SHARED, HoldBoth => Some HoldExclusive
  | _, _ => None
  end.

Definition due (notify : bool) (n : nat) : nat := if notify then S n else n.

Inductive lock_step : system -> system -> Prop :=
  | step_get_exclusive l l' ts n i t : ts !! i = Some Idle -> GetExclusiveLock l = (l', t) ->
      lock_step (mkSystem l ts n) (mkSystem l' (<[i := t]> ts) n)
  | step_resume_exclusive l l' ts n i t : ts !! i = Some (WaitExclusive false) -> await_writer l = (l', t) ->
      lock_step (mkSystem l ts n) (mkSystem l' (<[i := t]> ts) n)
  | step_get_shared l l' ts n i t : ts !! i = Some Idle -> GetSharedLock l = (l', t) ->
      lock_step (mkSystem l ts n) (mkSystem l' (<[i := t]> ts) n)
  | step_resume_shared l l' ts n i target t : ts !! i = Some (WaitShared target false) ->
      await_reader target l = (l', t) -> lock_step (mkSystem l ts n) (mkSystem l' (<[i := t]> ts) n)
  | step_try_exclusive l l' ts n i : ts !! i = Some Idle -> TryGetExclusiveLock l = Some l' ->
      lock_step (mkSystem l ts n) (mkSystem l' (<[i := HoldExclusive]> ts) n)
  | step_upgrade l l' ts n i : ts !! i = Some HoldShared -> TryUpgradeCheckpointLock SHARED l = Ok (Some l') ->
      lock_step (mkSystem l ts n) (mkSystem l' (<[i := HoldBoth]> ts) n)
  | step_release type l l' ts n i t t' notify : ts !! i = Some t -> after_release type t = Some t' ->
      ReleaseKey type l = (l', notify) ->
      lock_step (mkSystem l ts n) (mkSystem l' (<[i := t']> ts) (due notify n))
  | step_notify l ts n : lock_step (mkSystem l ts (S n)) (mkSystem l (wake <$> ts) n)
  | step_spurious l ts n i t : ts !! i = Some t ->
      lock_step (mkSystem l ts n) (mkSystem l (<[i := wake t]> ts) n).

Inductive lock_reachable (n : nat) : system -> Prop :=
  | lock_initial : lock_reachable n (mkSystem initial_internals (replicate n Idle) 0)
  | lock_next s s' : lock_reachable n s -> lock_step s s' -> lock_reachable n s'.

(** ** Counting threads *)

Definition shared (t : thread) : bool := match t with HoldShared | HoldBoth => true | _ => false end.
Definition exclusive (t : thread) : bool := match t with HoldExclusive | HoldBoth => true | _ => false end.
Definition writer (t : thread) : bool :=
  match t with WaitExclusive _ | HoldExclusive | HoldBoth => true | _ => false end.

Definition count_threads (p : thread -> bool) (ts : list thread) : nat := length (List.filter p ts).

Definition b2n (b : bool) : nat := if b then 1 else 0.

Lemma count_insert p ts i t t' :
  ts !! i = Some t -> count_threads p (<[i := t']> ts) + b2n (p t) = count_threads p ts + b2n (p t').
Proof.
  unfold count_threads. revert i. induction ts as [|x ts IH]; intros [|i] Hi; try done; cbn in Hi.
  - simplify_eq. cbn. destruct (p t), (p t'); cbn; lia.
  - change (<[S i := t']> (x :: ts)) with (x :: <[i := t']> ts). cbn [List.filter].
    specialize (IH i Hi). destruct (p x); cbn [length]; lia.
Qed.

Lemma count_pos p ts i t : ts !! i = Some t -> p t = true -> 0 < count_threads p ts.
Proof.
  unfold count_threads. revert i. induction ts as [|x ts IH]; intros [|i] Hi Hp; try done; cbn in Hi |- *.
  - simplify_eq. rewrite Hp. cbn. lia.
  - specialize (IH i Hi Hp). destruct (p x); cbn; lia.
Qed.

Lemma count_two p ts i j t u :
  i <> j -> ts !! i = Some t -> ts !! j = Some u -> p t = true -> p u = true -> 2 <= count_threads p ts.
Proof.
  unfold count_threads. revert i j. induction ts as [|x ts IH]; intros [|i] [|j] Hij Hi Hj Ht Hu; try done;
    cbn in Hi, Hj |- *; simplify_eq.
  - rewrite Ht. cbn. pose proof (count_pos p ts j u Hj Hu) as H. unfold count_threads in H. lia.
  - rewrite Hu. cbn. pose proof (count_pos p ts i t Hi Ht) as H. unfold count_threads in H. lia.
  - specialize (IH i j ltac:(lia) Hi Hj Ht Hu). destruct (p x); cbn; lia.
Qed.

Lemma count_none p ts : (forall i t, ts !! i = Some t -> p t = false) -> count_threads p ts = 0.
Proof.
  unfold count_threads. induction ts as [|x ts IH]; intros H; [done|]. cbn.
  rewrite (H 0 x eq_refl). apply IH. intros i t Hi. by apply (H (S i)).
Qed.

Lemma count_wake p ts : (forall t, p (wake t) = p t) -> count_threads p (wake <$> ts) = count_threads p ts.
Proof.
  intros Hp. unfold count_threads. induction ts as [|x ts IH]; [done|].
  rewrite fmap_cons. cbn [List.filter]. rewrite Hp. destruct (p x); cbn [length]; lia.
Qed.

(** ** The invariant *)

(** A sleeping thread whose wait condition holds. *)
Definition overslept (l : StorageLockInternals) (t : thread) : bool :=
  match t with
  | WaitExclusive true => writer_can_enter l
  | WaitShared target true => reader_can_enter target l
  | _ => false
  end.

(** No thread other than [i] holds a key. *)
Definition alone (ts : list thread) (i : nat) : Prop :=
  forall j u, j <> i -> ts !! j = Some u -> shared u = false /\ exclusive u = false.

Record LockInv (s : system) : Prop := {
  lk_readers : count_threads shared (threads s) = read_count (lock s);
  lk_writer : count_threads exclusive (threads s) = b2n (writer_active (lock s));
  lk_tickets : writers_done (lock s) + count_threads writer (threads s) = writer_tickets (lock s);
  lk_exclusion : forall i t, threads s !! i = Some t -> exclusive t = true -> alone (threads s) i;
  lk_targets : forall i target b, threads s !! i = Some (WaitShared target b) -> target <= writer_tickets (lock s);
  lk_awake : forall i t, threads s !! i = Some t -> overslept (lock s) t = true -> 0 < notifications s
}.

(** A move of one thread keeps mutual exclusion when a key is only taken while the keys it excludes
    are free. *)
Lemma exclusion_insert ts i t t' :
  ts !! i = Some t ->
  (forall i t, ts !! i = Some t -> exclusive t = true -> alone ts i) ->
  (exclusive t' = true -> alone ts i) ->
  (shared t' = true \/ exclusive t' = true -> shared t = true \/ exclusive t = true \/ count_threads exclusive ts = 0) ->
  forall a ta, <[i := t']> ts !! a = Some ta -> exclusive ta = true -> alone (<[i := t']> ts) a.
Proof.
  intros Hi Hex Hx Hs a ta Ha Hta b tb Hab Hb.
  destruct (decide (a = i)) as [->|Hai].
  - rewrite list_lookup_insert_ne in Hb by done.
    rewrite list_lookup_insert_eq in Ha by (by eapply lookup_lt_Some). simplify_eq. by eapply Hx.
  - rewrite list_lookup_insert_ne in Ha by done. destruct (decide (b = i)) as [->|Hbi].
    + rewrite list_lookup_insert_eq in Hb by (by eapply lookup_lt_Some). simplify_eq.
      pose proof (count_pos exclusive ts a ta Ha Hta). destruct (Hex a ta Ha Hta i t Hab Hi) as [H1 H2].
      destruct (shared tb) eqn:Hsb, (exclusive tb) eqn:Heb; try done;
        destruct Hs as [?|[?|?]]; auto; solve [congruence|lia].
    + rewrite list_lookup_insert_ne in Hb by done. by eapply (Hex a ta).
Qed.

(** What holds of the moved thread and of all the others holds after the move. *)
Lemma insert_all (P : thread -> Prop) (ts : list thread) (i : nat) t' :
  P t' -> (forall j t, ts !! j = Some t -> P t) -> forall j t, <[i := t']> ts !! j = Some t -> P t.
Proof.
  intros Ht' Hts j t Hj. destruct (decide (i = j)) as [<-|Hne].
  - apply list_lookup_insert_Some in Hj as [(_ & <- & _)|(? & _)]; done.
  - rewrite list_lookup_insert_ne in Hj by done. by eapply Hts.
Qed.

(** Nobody holds the lock when no writer is active and there are no readers. *)
Lemma no_holders ts i :
  count_threads shared ts = 0 -> count_threads exclusive ts = 0 -> alone ts i.
Proof.
  intros Hs He j u _ Hj. split; apply not_true_is_false; intros Hu.
  - pose proof (count_pos shared ts j u Hj Hu). lia.
  - pose proof (count_pos exclusive ts j u Hj Hu). lia.
Qed.

(** The only reader is [i]. *)
Lemma sole_reader ts i t :
  ts !! i = Some t -> shared t = true -> count_threads shared ts = 1 -> count_threads exclusive ts = 0 -> alone ts i.
Proof.
  intros Hi Ht Hs He j u Hji Hj. split; apply not_true_is_false; intros Hu.
  - pose proof (count_two shared ts j i u t Hji Hj Hi Hu Ht). lia.
  - pose proof (count_pos exclusive ts j u Hj Hu). lia.
Qed.

(** One thread moves from [t] to [t'] while the internals go from [l] to [l']: what has to be shown. *)
Record good_move (l l' : StorageLockInternals) (n n' : nat) (ts : list thread) (i : nat) (t t' : thread) : Prop := {
  gm_at : ts !! i = Some t;
  gm_readers : read_count l' + b2n (shared t) = read_count l + b2n (shared t');
  gm_writer : b2n (writer_active l') + b2n (exclusive t) = b2n (writer_active l) + b2n (exclusive t');
  gm_tickets : writer_tickets l' + writers_done l + b2n (writer t)
               = writer_tickets l + writers_done l' + b2n (writer t');
  gm_grow : writer_tickets l <= writer_tickets l';
  gm_alone : exclusive t' = true -> alone ts i;
  gm_free : shared t' = true \/ exclusive t' = true ->
            shared t = true \/ exclusive t = true \/ writer_active l = false;
  gm_target : forall target b, t' = WaitShared target b -> target <= writer_tickets l';
  gm_self : overslept l' t' = true -> 0 < n';
  gm_others : forall u, overslept l' u = true -> overslept l u = true \/ 0 < n';
  gm_due : n <= n'
}.

Lemma good_move_inv l l' n n' ts i t t' :
  LockInv (mkSystem l ts n) -> good_move l l' n n' ts i t t' -> LockInv (mkSystem l' (<[i := t']> ts) n').
Proof.
  intros [Hr Hw Ht Hex Htg Haw] []. cbn [lock threads notifications] in *.
  pose proof (count_insert shared _ _ _ t' gm_at0) as C1. pose proof (count_insert exclusive _ _ _ t' gm_at0) as C2.
  pose proof (count_insert writer _ _ _ t' gm_at0) as C3.
  split; cbn [lock threads notifications]; [lia|lia|lia| | |].
  - apply (exclusion_insert ts i t); try done. intros H. destruct (gm_free0 H) as [|[|H0]]; auto.
    rewrite H0 in Hw. auto.
  - intros j target b Hj.
    eapply (insert_all (fun u => forall tg c, u = WaitShared tg c -> tg <= writer_tickets l') ts i t'); [done| |done|done].
    intros k u Hk tg c ->. specialize (Htg k tg c Hk). lia.
  - apply (insert_all (fun u => overslept l' u = true -> 0 < n') ts i t'); [done|].
    intros k u Hk Hu. destruct (gm_others0 u Hu) as [H|H]; [|done]. specialize (Haw k u Hk H). lia.
Qed.

(** Closes the counting side conditions of a move. *)
Ltac move_counts := cbn [lock threads notifications read_count writer_active writer_tickets writers_done shared
  exclusive writer b2n] in *; try done; try lia.

Lemma overslept_mono l l' :
  (writer_can_enter l' = true -> writer_can_enter l = true) ->
  (forall target, reader_can_enter target l' = true -> reader_can_enter target l = true) ->
  forall u, overslept l' u = true -> overslept l u = true.
Proof. intros Hw Hr [|[]|target []| | |]; cbn; auto. Qed.

Lemma active_overslept l u : writer_active l = true -> overslept l u = false.
Proof. intros H. destruct u as [|[]|target []| | |]; cbn; unfold writer_can_enter, reader_can_enter; by rewrite ?H. Qed.

(** A thread that does not hold the lock runs one turn of the writer's wait loop. *)
Lemma await_writer_move l l0 l' n ts i t t' :
  LockInv (mkSystem l ts n) -> ts !! i = Some t -> shared t = false -> exclusive t = false ->
  read_count l0 = read_count l -> writer_active l0 = writer_active l -> writers_done l0 = writers_done l ->
  writer_tickets l0 + b2n (writer t) = S (writer_tickets l) -> await_writer l0 = (l', t') ->
  good_move l l' n n ts i t t'.
Proof.
  intros HI Hi Hs He E1 E2 E3 E4 Ha. unfold await_writer in Ha.
  assert (b2n (writer t) <= 1) by (destruct (writer t); cbn; lia).
  destruct (writer_can_enter l0) eqn:Hc; injection Ha as <- <-.
  - unfold writer_can_enter in Hc. apply andb_true_iff in Hc as [Hc1%negb_true_iff Hc2%Nat.eqb_eq].
    rewrite E2 in Hc1. destruct HI as [Hr Hw _ _ _ _]. cbn [lock threads] in *. rewrite Hc1 in Hw.
    split; rewrite ?Hs, ?He, ?Hc1; move_counts; auto.
    + intros _. apply no_holders; [lia|done].
    + intros u Hu. rewrite active_overslept in Hu; done.
  - split; rewrite ?Hs, ?He; move_counts; auto; try congruence.
    + cbn. congruence.
    + intros u Hu. left. revert u Hu. apply overslept_mono; unfold writer_can_enter, reader_can_enter;
        rewrite ?E1, ?E2, ?E3; auto.
Qed.

Lemma await_reader_move l l' n ts i t t' target :
  LockInv (mkSystem l ts n) -> ts !! i = Some t -> shared t = false -> exclusive t = false -> writer t = false ->
  target <= writer_tickets l -> await_reader target l = (l', t') -> good_move l l' n n ts i t t'.
Proof.
  intros HI Hi Hs He Hw Htg Ha. unfold await_reader in Ha. destruct (reader_can_enter target l) eqn:Hc; injection Ha as <- <-.
  - unfold reader_can_enter in Hc. apply andb_true_iff in Hc as [Hc1%negb_true_iff _].
    split; rewrite ?Hs, ?He, ?Hw; move_counts; auto.
    intros u Hu. left. revert u Hu. apply overslept_mono; unfold writer_can_enter, reader_can_enter; move_counts; auto.
    rewrite Hc1. cbn. done.
  - split; rewrite ?Hs, ?He, ?Hw; move_counts; auto.
    + by intros ? ? [= <- <-].
    + cbn. congruence.
Qed.

(** [TryGetExclusiveLock] and [TryUpgradeCheckpointLock] take the exclusive key in one step. *)
Lemma grab_move l n ts i t t' :
  LockInv (mkSystem l ts n) -> ts !! i = Some t -> writer_active l = false -> writer t = false -> exclusive t = false ->
  read_count l = b2n (shared t) -> exclusive t' = true -> writer t' = true -> shared t' = shared t ->
  good_move l (mkInternals (read_count l) true (S (writer_tickets l)) (writers_done l)) n n ts i t t'.
Proof.
  intros [Hr Hw _ _ _ _] Hi Ha Hwt Het Hc Het' Hwt' Hst'. cbn [lock threads] in *. rewrite Ha in Hw. cbn in Hw.
  split; rewrite ?Hwt, ?Het, ?Het', ?Hwt', ?Hst', ?Ha; move_counts; auto.
  - intros _. destruct (shared t) eqn:Hs; cbn in Hc; [|apply no_holders; lia]. eapply sole_reader; [done|done|lia|done].
  - intros target b ->. done.
  - by rewrite active_overslept.
  - intros u Hu. rewrite active_overslept in Hu; done.
Qed.

Lemma release_move type l l' n ts i t t' notify :
  LockInv (mkSystem l ts n) -> ts !! i = Some t -> after_release type t = Some t' ->
  ReleaseKey type l = (l', notify) -> good_move l l' n (due notify n) ts i t t'.
Proof.
  intros [Hr Hw _ Hex _ _] Hi Ht Hl. cbn [lock threads] in *.
  pose proof (fun H => count_pos shared ts i t Hi H). pose proof (fun H => count_pos exclusive ts i t Hi H).
  destruct type; cbn in Hl; injection Hl as <- <-.
  - assert (shared t = true /\ shared t' = false /\ exclusive t' = exclusive t /\ writer t' = writer t
      /\ forall l, overslept l t' = false) as (E1 & E2 & E3 & E4 & E5) by (destruct t; cbn in Ht; by simplify_eq).
    split; rewrite ?E1, ?E2, ?E3, ?E4, ?E5; move_counts; auto.
    + intros Hx. by eapply Hex.
    + intros target b ->. by destruct t.
    + intros u Hu. destruct (read_count l - 1 =? 0) eqn:Hz; cbn; [right; lia|left].
      revert u Hu. apply overslept_mono; unfold writer_can_enter, reader_can_enter; cbn; [|auto].
      rewrite Hz, andb_false_r. done.
    + unfold due. destruct (_ =? 0); lia.
  - assert (exclusive t = true /\ shared t' = shared t /\ exclusive t' = false /\ writer t' = false
      /\ writer t = true /\ forall l, overslept l t' = false) as (E1 & E2 & E3 & E4 & E4' & E5)
      by (destruct t; cbn in Ht; by simplify_eq).
    assert (writer_active l = true) as Hact by (destruct (writer_active l); [done|cbn in Hw; specialize (H0 E1); lia]).
    split; rewrite ?E1, ?E2, ?E3, ?E4, ?E4', ?E5, ?Hact; move_counts; auto.
    + intros target b ->. by destruct t.
    + intros u Hu. right. cbn. lia.
Qed.

Lemma lock_inv_step s s' : LockInv s -> lock_step s s' -> LockInv s'.
Proof.
  intros HI Hs. destruct Hs as
    [l l' ts n i t Hi Hc|l l' ts n i t Hi Hc|l l' ts n i t Hi Hc|l l' ts n i target t Hi Hc|l l' ts n i Hi Hc
    |l l' ts n i Hi Hc|type l l' ts n i t t' notify Hi Ht Hc|l ts n|l ts n i t Hi].
  - eapply good_move_inv, (await_writer_move l (register_writer l)); try done; cbn; lia.
  - eapply good_move_inv, (await_writer_move l l); try done; cbn; lia.
  - eapply good_move_inv, await_reader_move; try done; cbn; lia.
  - eapply good_move_inv, (await_reader_move _ _ _ _ _ _ _ target); try done. by apply (lk_targets _ HI i target false).
  - unfold TryGetExclusiveLock in Hc. destruct (writer_active l || negb (read_count l =? 0)) eqn:Hb; [done|].
    apply orb_false_iff in Hb as [Hb1 Hb2%negb_false_iff%Nat.eqb_eq]. injection Hc as <-.
    by eapply good_move_inv, grab_move.
  - cbn in Hc. destruct (writer_active l || negb (read_count l =? 1)) eqn:Hb; [done|].
    apply orb_false_iff in Hb as [Hb1 Hb2%negb_false_iff%Nat.eqb_eq]. injection Hc as <-.
    by eapply good_move_inv, grab_move.
  - by eapply good_move_inv, release_move.
  - destruct HI as [Hr Hw Ht Hex Htg _]. cbn [lock threads] in *.
    split; cbn [lock threads]; rewrite ?count_wake; try done; try by intros [].
    + intros i t. rewrite list_lookup_fmap, fmap_Some. intros (t0 & Hi & ->) He j u Hj.
      rewrite list_lookup_fmap, fmap_Some. intros (u0 & Hu & ->).
      replace (shared (wake u0)) with (shared u0) by by destruct u0.
      replace (exclusive (wake u0)) with (exclusive u0) by by destruct u0.
      eapply (Hex i t0); try done. by destruct t0.
    + intros i target b. rewrite list_lookup_fmap, fmap_Some. intros (t0 & Hi & Heq).
      destruct t0 as [| |tg c| | |]; try done. cbn in Heq. injection Heq as -> _. by apply (Htg i tg c).
    + intros i t. rewrite list_lookup_fmap, fmap_Some. intros (t0 & Hi & ->). by destruct t0.
  - apply (good_move_inv l l n n ts i t); [done|]. destruct HI as [Hr Hw Ht Hex Htg Haw]. cbn [lock threads] in *.
    assert (overslept l (wake t) = false) as Ho by by destruct t.
    split; rewrite ?Ho; auto; try done; try by destruct t.
    + intros He. eapply (Hex i t); [done|by destruct t].
    + intros H. destruct t; cbn in *; intuition done.
    + intros target b Heq. destruct t as [| |tg b'| | |]; try done. cbn in Heq. injection Heq as -> _. by apply (Htg i target b').
Qed.

Lemma count_idle p n : p Idle = false -> count_threads p (replicate n Idle) = 0.
Proof. intros Hp. apply count_none. intros i t [-> _]%lookup_replicate. done. Qed.

Lemma lock_reachable_inv n s : lock_reachable n s -> LockInv s.
Proof.
  induction 1 as [|s s' _ IH Hs]; [|by eapply lock_inv_step]. split; cbn [lock threads initial_internals read_count
    writer_active writers_done writer_tickets].
  - by apply count_idle.
  - by apply count_idle.
  - by rewrite count_idle.
  - by intros i t [-> _]%lookup_replicate.
  - by intros i target b [? _]%lookup_replicate.
  - by intros i t [-> _]%lookup_replicate.
Qed.

Definition waiting (t : thread) : bool := match t with WaitExclusive _ | WaitShared _ _ => true | _ => false end.
Definition holding (t : thread) : bool := shared t || exclusive t.

(** The next turn of a woken thread takes the lock. *)
Definition can_acquire (l : StorageLockInternals) (t : thread) : bool :=
  match t with
  | WaitExclusive false => writer_can_enter l
  | WaitShared target false => reader_can_enter target l
  | _ => false
  end.

(** Some waiting thread has a true wait condition when nobody holds the lock. *)
Lemma waiter_enabled s i t :
  LockInv s -> threads s !! i = Some t -> waiting t = true ->
  (forall j u, threads s !! j = Some u -> holding u = false) ->
  exists j u, threads s !! j = Some u /\ (overslept (lock s) u = true \/ can_acquire (lock s) u = true).
Proof.
  intros [Hr Hw Ht Hex Htg _] Hi Hwait Hfree.
  assert (read_count (lock s) = 0) as H0.
  { rewrite <- Hr. apply count_none. intros j u Hj. specialize (Hfree j u Hj). by apply orb_false_iff in Hfree as [? _]. }
  assert (writer_active (lock s) = false) as H1.
  { rewrite (count_none exclusive) in Hw; [by destruct (writer_active (lock s))|].
    intros j u Hj. specialize (Hfree j u Hj). by apply orb_false_iff in Hfree as [_ ?]. }
  assert (forall j b, threads s !! j = Some (WaitExclusive b) -> exists j u, threads s !! j = Some u
    /\ (overslept (lock s) u = true \/ can_acquire (lock s) u = true)) as Hwr.
  { intros j b Hj. exists j, (WaitExclusive b). split; [done|]. cbn. unfold writer_can_enter. rewrite H1, H0. destruct b; auto. }
  destruct (count_threads writer (threads s)) as [|n] eqn:Hn.
  - destruct t as [|b|target b| | |]; try done; [by eapply Hwr|].
    exists i, (WaitShared target b). split; [done|]. cbn. unfold reader_can_enter. rewrite H1. cbn.
    specialize (Htg i target b Hi). replace (target <=? writers_done (lock s)) with true by (symmetry; apply Nat.leb_le; lia).
    destruct b; auto.
  - unfold count_threads in Hn. destruct (List.filter writer (threads s)) as [|u us] eqn:Hf; [done|].
    assert (In u (List.filter writer (threads s))) as Hin by (rewrite Hf; by left).
    apply List.filter_In in Hin as [Hin Hu]. apply list_elem_of_In, list_elem_of_lookup in Hin as [j Hj].
    specialize (Hfree j u Hj). destruct u; try done. by eapply Hwr.
Qed.

Lemma lock_progress s i t :
  LockInv s -> threads s !! i = Some t -> waiting t = true ->
  (forall j u, threads s !! j = Some u -> holding u = false) ->
  0 < notifications s \/ exists j u, threads s !! j = Some u /\ can_acquire (lock s) u = true.
Proof.
  intros HI Hi Hw Hf. destruct (waiter_enabled s i t HI Hi Hw Hf) as (j & u & Hj & [Ho|Ho]).
  - left. by eapply (lk_awake _ HI).
  - eauto.
Qed.
