(* ===== verification/LockTheorems.v ===== *)
(** * The storage lock: the theorems *)

From S2P Require Import Prelude StorageLock.

Lemma lock_to n s s1 s2 : lock_reachable n s -> lock_step s s1 -> s1 = s2 -> lock_reachable n s2.
Proof. intros Hr Hs <-. by eapply lock_next. Qed.

(** C35. Mutual exclusion: while a thread holds the exclusive key, no other thread holds any key. *)
Theorem mutual_exclusion n s i j t u :
  lock_reachable n s -> threads s !! i = Some t -> threads s !! j = Some u -> j <> i ->
  exclusive t = true -> shared u = false /\ exclusive u = false.
Proof. intros Hr Hi Hj Hij Ht. eapply (lk_exclusion _ (lock_reachable_inv n s Hr) i t); done. Qed.

(** The counters are exact: [read_count] is the number of shared keys, [writer_active] tells
    whether an exclusive key is out, and the tickets not yet done are the writers that wait or hold.
    In particular releasing a shared key never takes [read_count] below zero. *)
Theorem counters_exact n s :
  lock_reachable n s ->
  count_threads shared (threads s) = read_count (lock s) /\
  count_threads exclusive (threads s) = b2n (writer_active (lock s)) /\
  writers_done (lock s) + count_threads writer (threads s) = writer_tickets (lock s) /\
  forall i t, threads s !! i = Some t -> shared t = true -> 0 < read_count (lock s).
Proof.
  intros Hr. destruct (lock_reachable_inv n s Hr). split_and!; [done..|].
  intros i t Hi Ht. rewrite <- lk_readers. by eapply count_pos.
Qed.

(** C36. No wake-up is lost: a thread that sleeps although its wait condition holds will be woken by a
    [notify_all] that is already due. *)
Theorem no_lost_wakeup n s i t :
  lock_reachable n s -> threads s !! i = Some t -> overslept (lock s) t = true -> 0 < notifications s.
Proof. intros Hr. apply (lk_awake _ (lock_reachable_inv n s Hr)). Qed.

(** C37. Freedom from deadlock: when threads wait and no thread holds a key, a [notify_all] is due or
    some waiting thread takes the lock with its next turn. *)
Theorem waiters_progress n s i t :
  lock_reachable n s -> threads s !! i = Some t -> waiting t = true ->
  (forall j u, threads s !! j = Some u -> holding u = false) ->
  0 < notifications s \/ exists j u, threads s !! j = Some u /\ can_acquire (lock s) u = true.
Proof. intros Hr. apply lock_progress. by eapply lock_reachable_inv. Qed.

(** Steps during which thread [i] goes on waiting for the exclusive key. *)
Inductive steps_waiting (i : nat) : system -> system -> Prop :=
  | waiting_refl s : steps_waiting i s s
  | waiting_step s s' s'' b : lock_step s s' -> threads s' !! i = Some (WaitExclusive b) ->
      steps_waiting i s' s'' -> steps_waiting i s s''.

(** Thread 3 reads; thread 0 asks for the exclusive key and sleeps; thread 1 asks for a shared key and
    sleeps behind it; thread 3 leaves; thread 2 takes and returns the exclusive key with
    [TryGetExclusiveLock]; thread 1 is woken and enters. *)
Definition writer_waits : system :=
  mkSystem (mkInternals 1 false 1 0) [WaitExclusive true; Idle; Idle; HoldShared] 0.
Definition reader_entered : system :=
  mkSystem (mkInternals 1 false 2 1) [WaitExclusive false; HoldShared; Idle; Idle] 1.

(** A reader can be admitted past a writer that registered before it: the release of a
    [TryGetExclusiveLock] counts as one of the writers the reader waits for, although the registered
    writer is still waiting. *)
Theorem reader_passes_writer :
  lock_reachable 4 writer_waits /\ threads writer_waits !! 0 = Some (WaitExclusive true) /\
  threads writer_waits !! 1 = Some Idle /\ steps_waiting 0 writer_waits reader_entered /\
  threads reader_entered !! 1 = Some HoldShared.
Proof.
  split_and!; try done.
  - eapply lock_to; [eapply lock_next; [apply lock_initial|]| |].
    + by eapply (step_get_shared _ _ _ _ 3).
    + by eapply (step_get_exclusive _ _ _ _ 0).
    + reflexivity.
  - eapply waiting_step; [by eapply (step_get_shared _ _ _ _ 1)|done|].
    eapply waiting_step; [by eapply (step_release SHARED _ _ _ _ 3)|done|].
    eapply waiting_step; [by eapply (step_try_exclusive _ _ _ _ 2)|done|].
    eapply waiting_step; [by eapply (step_release EXCLUSIVE _ _ _ _ 2)|done|].
    eapply waiting_step; [apply step_notify|done|].
    eapply waiting_step; [by eapply (step_resume_shared _ _ _ _ 1)|done|].
    apply waiting_refl.
Qed.

(** ** Witnesses *)

(** Thread 0 holds the exclusive key, thread 1 sleeps behind it. *)
Definition exclusive_held : system :=
  mkSystem (mkInternals 0 true 2 0) [HoldExclusive; WaitExclusive true] 0.

Lemma exclusive_held_reachable : lock_reachable 2 exclusive_held.
Proof.
  eapply lock_to; [eapply lock_next; [apply lock_initial|]| |].
  - by eapply (step_get_exclusive _ _ _ _ 0).
  - by eapply (step_get_exclusive _ _ _ _ 1).
  - reflexivity.
Qed.

(** The exclusive key was released, the notification is still due. *)
Definition exclusive_released : system :=
  mkSystem (mkInternals 0 false 2 1) [Idle; WaitExclusive true] 1.

Lemma exclusive_released_reachable : lock_reachable 2 exclusive_released.
Proof.
  eapply lock_to; [apply exclusive_held_reachable|by eapply (step_release EXCLUSIVE _ _ _ _ 0)|reflexivity].
Qed.

Lemma mutual_exclusion_witness : shared (WaitExclusive true) = false /\ exclusive (WaitExclusive true) = false.
Proof.
  apply (mutual_exclusion 2 exclusive_held 0 1 HoldExclusive (WaitExclusive true)).
  - apply exclusive_held_reachable.
  - reflexivity.
  - reflexivity.
  - lia.
  - reflexivity.
Defined.

Lemma counters_exact_witness :
  count_threads shared (threads exclusive_held) = 0 /\ count_threads exclusive (threads exclusive_held) = 1.
Proof.
  destruct (counters_exact 2 exclusive_held) as (H1 & H2 & _).
  - apply exclusive_held_reachable.
  - split; [exact H1|exact H2].
Defined.

Lemma no_lost_wakeup_witness : 0 < notifications exclusive_released.
Proof.
  apply (no_lost_wakeup 2 exclusive_released 1 (WaitExclusive true)).
  - apply exclusive_released_reachable.
  - reflexivity.
  - reflexivity.
Defined.

Lemma waiters_progress_witness :
  0 < notifications exclusive_released \/
  exists j u, threads exclusive_released !! j = Some u /\ can_acquire (lock exclusive_released) u = true.
Proof.
  apply (waiters_progress 2 exclusive_released 1 (WaitExclusive true)).
  - apply exclusive_released_reachable.
  - reflexivity.
  - reflexivity.
  - intros [|[|j]] u Hu; cbn in Hu; simplify_eq; reflexivity.
Defined.
