(* ===== verification/Dates.v ===== *)
(** * Dates

    Models the calendar arithmetic of [common/types/date.cpp] (its text conversion is in
    [DateText]): a date is the number of days since 1970-01-01 in a 32-bit integer. A 32-bit
    operation that could overflow goes through [ck32], so that a result [Ok] says that none did. *)

From S2P Require Import Prelude.

Local Open Scope Z_scope.

Definition signed_overflow : exception := InternalException "signed integer overflow".

(** The result of a 32-bit signed operation. *)
Definition ck32 (z : Z) : result Z :=
  if (i32_min <=? z) && (z <=? i32_max) then mret z else Throw signed_overflow.

(** ** Tables and constants *)

Definition NORMAL_DAYS : list Z :=
  [0; 31; 28; 31; 30; 31; 30; 31; 31; 30; 31; 30; 31].

Definition CUMULATIVE_DAYS : list Z :=
  [0; 31; 59; 90; 120; 151; 181; 212; 243; 273; 304; 334; 365].

Definition LEAP_DAYS : list Z :=
  [0; 31; 29; 31; 30; 31; 30; 31; 31; 30; 31; 30; 31].

Definition CUMULATIVE_LEAP_DAYS : list Z :=
  [0; 31; 60; 91; 121; 152; 182; 213; 244; 274; 305; 335; 366].

Definition MONTH_PER_DAY_OF_YEAR : list Z :=
  [1; 1; 1; 1; 1; 1; 1; 1; 1; 1; 1; 1; 1; 1; 1; 1; 1; 1; 1; 1; 1; 1; 1; 1; 1; 1; 1; 1; 1; 1; 1;
   2; 2; 2; 2; 2; 2; 2; 2; 2; 2; 2; 2; 2; 2; 2; 2; 2; 2; 2; 2; 2; 2; 2; 2; 2; 2; 2; 2; 3; 3; 3;
   3; 3; 3; 3; 3; 3; 3; 3; 3; 3; 3; 3; 3; 3; 3; 3; 3; 3; 3; 3; 3; 3; 3; 3; 3; 3; 3; 3; 4; 4; 4;
   4; 4; 4; 4; 4; 4; 4; 4; 4; 4; 4; 4; 4; 4; 4; 4; 4; 4; 4; 4; 4; 4; 4; 4; 4; 4; 4; 5; 5; 5; 5;
   5; 5; 5; 5; 5; 5; 5; 5; 5; 5; 5; 5; 5; 5; 5; 5; 5; 5; 5; 5; 5; 5; 5; 5; 5; 5; 5; 6; 6; 6; 6;
   6; 6; 6; 6; 6; 6; 6; 6; 6; 6; 6; 6; 6; 6; 6; 6; 6; 6; 6; 6; 6; 6; 6; 6; 6; 6; 7; 7; 7; 7; 7;
   7; 7; 7; 7; 7; 7; 7; 7; 7; 7; 7; 7; 7; 7; 7; 7; 7; 7; 7; 7; 7; 7; 7; 7; 7; 7; 8; 8; 8; 8; 8;
   8; 8; 8; 8; 8; 8; 8; 8; 8; 8; 8; 8; 8; 8; 8; 8; 8; 8; 8; 8; 8; 8; 8; 8; 8; 8; 9; 9; 9; 9; 9;
   9; 9; 9; 9; 9; 9; 9; 9; 9; 9; 9; 9; 9; 9; 9; 9; 9; 9; 9; 9; 9; 9; 9; 9; 9; 10; 10; 10; 10; 10; 10;
   10; 10; 10; 10; 10; 10; 10; 10; 10; 10; 10; 10; 10; 10; 10; 10; 10; 10; 10; 10; 10; 10; 10; 10; 10; 11; 11; 11; 11; 11; 11;
   11; 11; 11; 11; 11; 11; 11; 11; 11; 11; 11; 11; 11; 11; 11; 11; 11; 11; 11; 11; 11; 11; 11; 11; 12; 12; 12; 12; 12; 12; 12;
   12; 12; 12; 12; 12; 12; 12; 12; 12; 12; 12; 12; 12; 12; 12; 12; 12; 12; 12; 12; 12; 12; 12; 12].

Definition LEAP_MONTH_PER_DAY_OF_YEAR : list Z :=
  [1; 1; 1; 1; 1; 1; 1; 1; 1; 1; 1; 1; 1; 1; 1; 1; 1; 1; 1; 1; 1; 1; 1; 1; 1; 1; 1; 1; 1; 1; 1;
   2; 2; 2; 2; 2; 2; 2; 2; 2; 2; 2; 2; 2; 2; 2; 2; 2; 2; 2; 2; 2; 2; 2; 2; 2; 2; 2; 2; 2; 3; 3;
   3; 3; 3; 3; 3; 3; 3; 3; 3; 3; 3; 3; 3; 3; 3; 3; 3; 3; 3; 3; 3; 3; 3; 3; 3; 3; 3; 3; 3; 4; 4;
   4; 4; 4; 4; 4; 4; 4; 4; 4; 4; 4; 4; 4; 4; 4; 4; 4; 4; 4; 4; 4; 4; 4; 4; 4; 4; 4; 4; 5; 5; 5;
   5; 5; 5; 5; 5; 5; 5; 5; 5; 5; 5; 5; 5; 5; 5; 5; 5; 5; 5; 5; 5; 5; 5; 5; 5; 5; 5; 5; 6; 6; 6;
   6; 6; 6; 6; 6; 6; 6; 6; 6; 6; 6; 6; 6; 6; 6; 6; 6; 6; 6; 6; 6; 6; 6; 6; 6; 6; 6; 7; 7; 7; 7;
   7; 7; 7; 7; 7; 7; 7; 7; 7; 7; 7; 7; 7; 7; 7; 7; 7; 7; 7; 7; 7; 7; 7; 7; 7; 7; 7; 8; 8; 8; 8;
   8; 8; 8; 8; 8; 8; 8; 8; 8; 8; 8; 8; 8; 8; 8; 8; 8; 8; 8; 8; 8; 8; 8; 8; 8; 8; 8; 9; 9; 9; 9;
   9; 9; 9; 9; 9; 9; 9; 9; 9; 9; 9; 9; 9; 9; 9; 9; 9; 9; 9; 9; 9; 9; 9; 9; 9; 9; 10; 10; 10; 10; 10;
   10; 10; 10; 10; 10; 10; 10; 10; 10; 10; 10; 10; 10; 10; 10; 10; 10; 10; 10; 10; 10; 10; 10; 10; 10; 10; 11; 11; 11; 11; 11;
   11; 11; 11; 11; 11; 11; 11; 11; 11; 11; 11; 11; 11; 11; 11; 11; 11; 11; 11; 11; 11; 11; 11; 11; 11; 12; 12; 12; 12; 12; 12;
   12; 12; 12; 12; 12; 12; 12; 12; 12; 12; 12; 12; 12; 12; 12; 12; 12; 12; 12; 12; 12; 12; 12; 12; 12].

Definition CUMULATIVE_YEAR_DAYS : list Z :=
  [0; 365; 730; 1096; 1461; 1826; 2191; 2557; 2922; 3287; 3652; 4018; 4383; 4748;
   5113; 5479; 5844; 6209; 6574; 6940; 7305; 7670; 8035; 8401; 8766; 9131; 9496; 9862;
   10227; 10592; 10957; 11323; 11688; 12053; 12418; 12784; 13149; 13514; 13879; 14245; 14610; 14975;
   15340; 15706; 16071; 16436; 16801; 17167; 17532; 17897; 18262; 18628; 18993; 19358; 19723; 20089;
   20454; 20819; 21184; 21550; 21915; 22280; 22645; 23011; 23376; 23741; 24106; 24472; 24837; 25202;
   25567; 25933; 26298; 26663; 27028; 27394; 27759; 28124; 28489; 28855; 29220; 29585; 29950; 30316;
   30681; 31046; 31411; 31777; 32142; 32507; 32872; 33238; 33603; 33968; 34333; 34699; 35064; 35429;
   35794; 36160; 36525; 36890; 37255; 37621; 37986; 38351; 38716; 39082; 39447; 39812; 40177; 40543;
   40908; 41273; 41638; 42004; 42369; 42734; 43099; 43465; 43830; 44195; 44560; 44926; 45291; 45656;
   46021; 46387; 46752; 47117; 47482; 47847; 48212; 48577; 48942; 49308; 49673; 50038; 50403; 50769;
   51134; 51499; 51864; 52230; 52595; 52960; 53325; 53691; 54056; 54421; 54786; 55152; 55517; 55882;
   56247; 56613; 56978; 57343; 57708; 58074; 58439; 58804; 59169; 59535; 59900; 60265; 60630; 60996;
   61361; 61726; 62091; 62457; 62822; 63187; 63552; 63918; 64283; 64648; 65013; 65379; 65744; 66109;
   66474; 66840; 67205; 67570; 67935; 68301; 68666; 69031; 69396; 69762; 70127; 70492; 70857; 71223;
   71588; 71953; 72318; 72684; 73049; 73414; 73779; 74145; 74510; 74875; 75240; 75606; 75971; 76336;
   76701; 77067; 77432; 77797; 78162; 78528; 78893; 79258; 79623; 79989; 80354; 80719; 81084; 81450;
   81815; 82180; 82545; 82911; 83276; 83641; 84006; 84371; 84736; 85101; 85466; 85832; 86197; 86562;
   86927; 87293; 87658; 88023; 88388; 88754; 89119; 89484; 89849; 90215; 90580; 90945; 91310; 91676;
   92041; 92406; 92771; 93137; 93502; 93867; 94232; 94598; 94963; 95328; 95693; 96059; 96424; 96789;
   97154; 97520; 97885; 98250; 98615; 98981; 99346; 99711; 100076; 100442; 100807; 101172; 101537; 101903;
   102268; 102633; 102998; 103364; 103729; 104094; 104459; 104825; 105190; 105555; 105920; 106286; 106651; 107016;
   107381; 107747; 108112; 108477; 108842; 109208; 109573; 109938; 110303; 110669; 111034; 111399; 111764; 112130;
   112495; 112860; 113225; 113591; 113956; 114321; 114686; 115052; 115417; 115782; 116147; 116513; 116878; 117243;
   117608; 117974; 118339; 118704; 119069; 119435; 119800; 120165; 120530; 120895; 121260; 121625; 121990; 122356;
   122721; 123086; 123451; 123817; 124182; 124547; 124912; 125278; 125643; 126008; 126373; 126739; 127104; 127469;
   127834; 128200; 128565; 128930; 129295; 129661; 130026; 130391; 130756; 131122; 131487; 131852; 132217; 132583;
   132948; 133313; 133678; 134044; 134409; 134774; 135139; 135505; 135870; 136235; 136600; 136966; 137331; 137696;
   138061; 138427; 138792; 139157; 139522; 139888; 140253; 140618; 140983; 141349; 141714; 142079; 142444; 142810;
   143175; 143540; 143905; 144271; 144636; 145001; 145366; 145732; 146097].

Definition DATE_MIN_YEAR : Z := -5877641.
Definition DATE_MIN_MONTH : Z := 6.
Definition DATE_MIN_DAY : Z := 25.
Definition DATE_MAX_YEAR : Z := 5881580.
Definition DATE_MAX_MONTH : Z := 7.
Definition DATE_MAX_DAY : Z := 10.
Definition EPOCH_YEAR : Z := 1970.
Definition YEAR_INTERVAL : Z := 400.
Definition DAYS_PER_YEAR_INTERVAL : Z := 146097.

(** [date_t::infinity()], [date_t::ninfinity()] and [date_t::IsFinite()] *)
Definition infinity : Z := i32_max.
Definition ninfinity : Z := - i32_max.
Definition IsFinite (days : Z) : bool := negb (days =? infinity) && negb (days =? ninfinity).

(** Table lookup by an integer index. *)
Definition at_ (l : list Z) (i : Z) : Z := rd l (Z.to_nat i).

(** ** From days to year, month and day *)

Definition out_of_fuel : exception := InternalException "loop bound exceeded".

(** The two [while] loops that shift [n] into the range of the table. *)
Fixpoint shift_up (fuel : nat) (n year : Z) : result (Z * Z) :=
  match fuel with
  | O => Throw out_of_fuel
  | S fuel' =>
      if n <? 0 then
        n ← ck32 (n + DAYS_PER_YEAR_INTERVAL);
        year ← ck32 (year - YEAR_INTERVAL);
        shift_up fuel' n year
      else mret (n, year)
  end.

Fixpoint shift_down (fuel : nat) (n year : Z) : result (Z * Z) :=
  match fuel with
  | O => Throw out_of_fuel
  | S fuel' =>
      if DAYS_PER_YEAR_INTERVAL <=? n then
        n ← ck32 (n - DAYS_PER_YEAR_INTERVAL);
        year ← ck32 (year + YEAR_INTERVAL);
        shift_down fuel' n year
      else mret (n, year)
  end.

(** [while (n < CUMULATIVE_YEAR_DAYS[year_offset]) year_offset--;] *)
Fixpoint find_year_offset (year_offset : nat) (n : Z) : nat :=
  if n <? rd CUMULATIVE_YEAR_DAYS year_offset then
    match year_offset with O => O | S k => find_year_offset k n end
  else year_offset.

(** An interval of 400 years has 146097 days: 14700 turns cover the 32-bit range. *)
Definition interval_turns : nat := Z.to_nat 14701.

(** The normalized [n], the year and the year offset. *)
Definition ExtractYearOffset (n : Z) : result (Z * Z * nat) :=
  '(n, year) ← shift_up interval_turns n EPOCH_YEAR;
  '(n, year) ← shift_down interval_turns n year;
  let year_offset := find_year_offset (Z.to_nat (Z.quot n 365)) n in
  year ← ck32 (year + Z.of_nat year_offset);
  mret (n, year, year_offset).

Definition Convert (days : Z) : result (Z * Z * Z) :=
  '(n, year, year_offset) ← ExtractYearOffset days;
  let day := n - rd CUMULATIVE_YEAR_DAYS year_offset in
  let is_leap_year := rd CUMULATIVE_YEAR_DAYS (S year_offset) - rd CUMULATIVE_YEAR_DAYS year_offset =? 366 in
  let month := if is_leap_year then at_ LEAP_MONTH_PER_DAY_OF_YEAR day else at_ MONTH_PER_DAY_OF_YEAR day in
  let day := day - (if is_leap_year then at_ CUMULATIVE_LEAP_DAYS (month - 1) else at_ CUMULATIVE_DAYS (month - 1)) in
  mret (year, month, day + 1).

(** ** From year, month and day to days *)

Definition IsLeapYear (year : Z) : bool :=
  (Z.rem year 4 =? 0) && (negb (Z.rem year 100 =? 0) || (Z.rem year 400 =? 0)).

Definition MonthDays (year month : Z) : Z :=
  if IsLeapYear year then at_ LEAP_DAYS month else at_ NORMAL_DAYS month.

Definition IsValid (year month day : Z) : bool :=
  if (month <? 1) || (12 <? month) then false
  else if day <? 1 then false
  else if (year <=? DATE_MIN_YEAR) &&
          ((year <? DATE_MIN_YEAR) ||
           ((month <? DATE_MIN_MONTH) || ((month =? DATE_MIN_MONTH) && (day <? DATE_MIN_DAY)))) then false
  else if (DATE_MAX_YEAR <=? year) &&
          ((DATE_MAX_YEAR <? year) ||
           ((DATE_MAX_MONTH <? month) || ((month =? DATE_MAX_MONTH) && (DATE_MAX_DAY <? day)))) then false
  else day <=? (if IsLeapYear year then at_ LEAP_DAYS month else at_ NORMAL_DAYS month).

(** [None] when the function returns false. *)
Definition TryFromDate (year month day : Z) : result (option Z) :=
  if negb (IsValid year month day) then mret None
  else
    n ← ck32 (0 + (if IsLeapYear year then at_ CUMULATIVE_LEAP_DAYS (month - 1) else at_ CUMULATIVE_DAYS (month - 1)));
    n ← ck32 (n + (day - 1));
    if year <? 1970 then
      diff_from_base ← ck32 (1970 - year);
      let year_index := 400 - Z.rem diff_from_base 400 in
      let fractions := Z.quot diff_from_base 400 in
      n ← ck32 (n + at_ CUMULATIVE_YEAR_DAYS year_index);
      n ← ck32 (n - DAYS_PER_YEAR_INTERVAL);
      shift ← ck32 (fractions * DAYS_PER_YEAR_INTERVAL);
      n ← ck32 (n - shift);
      mret (Some n)
    else if 2370 <=? year then
      diff_from_base ← ck32 (year - 2370);
      let year_index := Z.rem diff_from_base 400 in
      let fractions := Z.quot diff_from_base 400 in
      n ← ck32 (n + at_ CUMULATIVE_YEAR_DAYS year_index);
      n ← ck32 (n + DAYS_PER_YEAR_INTERVAL);
      shift ← ck32 (fractions * DAYS_PER_YEAR_INTERVAL);
      n ← ck32 (n + shift);
      mret (Some n)
    else
      n ← ck32 (n + at_ CUMULATIVE_YEAR_DAYS (year - 1970));
      mret (Some n).

Definition date_out_of_range : exception := ConversionException "Date out of range".

Definition FromDate (year month day : Z) : result Z :=
  r ← TryFromDate year month day;
  match r with Some n => mret n | None => Throw date_out_of_range end.

(** ** Parts of a date *)

Definition ExtractYear (days : Z) : result Z :=
  '(_, year, _) ← ExtractYearOffset days; mret year.
Definition ExtractMonth (days : Z) : result Z := '(_, month, _) ← Convert days; mret month.
Definition ExtractDay (days : Z) : result Z := '(_, _, day) ← Convert days; mret day.

(** [ExtractYearOffset] normalizes the local copy of the date. *)
Definition ExtractDayOfTheYear (days : Z) : result Z :=
  '(n, _, year_offset) ← ExtractYearOffset days;
  mret (n - rd CUMULATIVE_YEAR_DAYS year_offset + 1).

Definition ExtractJulianDay (days : Z) : Z := days - (-2440588).

Definition ExtractISODayOfTheWeek (days : Z) : Z :=
  if days <? 0 then 7 - Z.rem (- days + 3) 7 else Z.rem (days + 3) 7 + 1.

(** The quotient and the remainder. *)
Definition PythonDivMod (x y : Z) : Z * Z :=
  let quo := Z.quot x y in
  let r := x - quo * y in
  if r <? 0 then (quo - 1, r + y) else (quo, r).

Definition GetISOWeekOne (year : Z) : result Z :=
  first_day ← FromDate year 1 1;
  let first_weekday := ExtractISODayOfTheWeek first_day - 1 in
  week1_monday ← ck32 (first_day - first_weekday);
  if 3 <? first_weekday then ck32 (week1_monday + 7) else mret week1_monday.

(** The ISO year and week. *)
Definition GetISOYearWeek (days : Z) : result (Z * Z) :=
  '(year, _, _) ← Convert days;
  week1_monday ← GetISOWeekOne year;
  delta ← ck32 (days - week1_monday);
  let week := fst (PythonDivMod delta 7) in
  if week <? 0 then
    week1_monday ← GetISOWeekOne (year - 1);
    delta ← ck32 (days - week1_monday);
    mret (year - 1, fst (PythonDivMod delta 7) + 1)
  else if 52 <=? week then
    next ← GetISOWeekOne (year + 1);
    mret (if next <=? days then (year + 1, 0 + 1) else (year, week + 1))
  else mret (year, week + 1).

Definition ExtractISOWeekNumber (days : Z) : result Z := '(_, week) ← GetISOYearWeek days; mret week.
Definition ExtractISOYearNumber (days : Z) : result Z := '(year, _) ← GetISOYearWeek days; mret year.

Definition ExtractWeekNumberRegular (days : Z) (monday_first : bool) : result Z :=
  '(year, month, day) ← Convert days;
  let month := month - 1 in
  let day := day - 1 in
  let day_of_the_year :=
    (if IsLeapYear year then at_ CUMULATIVE_LEAP_DAYS month else at_ CUMULATIVE_DAYS month) + day in
  first ← FromDate year 1 1;
  let day_of_jan_first := ExtractISODayOfTheWeek first in
  let first_week_start :=
    if monday_first then if day_of_jan_first =? 1 then 0 else 8 - day_of_jan_first
    else 7 - day_of_jan_first in
  mret (if day_of_the_year <? first_week_start then 0
        else Z.quot (day_of_the_year - first_week_start) 7 + 1).

Definition SubtractDays (date days : Z) : result Z :=
  min_days ← FromDate DATE_MIN_YEAR DATE_MIN_MONTH DATE_MIN_DAY;
  let result := date - days in
  if (result <? min_days) || (i32_max - 1 <? result)
  then Throw (OutOfRangeException "Date out of range: subtracting days") else mret result.

Definition GetMondayOfCurrentWeek (date : Z) : result Z :=
  SubtractDays date (ExtractISODayOfTheWeek date - 1).

(** ** Conversions to time units *)

Definition SECS_PER_DAY : Z := 86400.
Definition MICROS_PER_DAY : Z := 86400000000.
Definition MICROS_PER_MSEC : Z := 1000.

Definition Epoch (days : Z) : Z := days * SECS_PER_DAY.
Definition EpochToDate (epoch : Z) : Z := i32 (Z.quot epoch SECS_PER_DAY).

(** [TryMultiplyOperator] on 64-bit integers: the product when it is in range. *)
Definition TryMultiply64 (left right : Z) : option Z :=
  let r := left * right in
  if (i64_min <=? r) && (r <=? i64_max) then Some r else None.

Definition to_unit (days per_day : Z) (msg : string) : result Z :=
  match TryMultiply64 days per_day with Some r => mret r | None => Throw (ConversionException msg) end.

Definition EpochNanoseconds (days : Z) : result Z :=
  to_unit days (MICROS_PER_DAY * 1000) "Could not convert DATE to nanoseconds".
Definition EpochMicroseconds (days : Z) : result Z :=
  to_unit days MICROS_PER_DAY "Could not convert DATE to microseconds".
Definition EpochMilliseconds (days : Z) : result Z :=
  to_unit days (Z.quot MICROS_PER_DAY MICROS_PER_MSEC) "Could not convert DATE to milliseconds".
