(* ===== verification/DatesFacts.v ===== *)
(** * Dates: the calendar and the conversions

    The tables and the loops of [Dates] against the proleptic Gregorian calendar, written as
    year lengths and month lengths. *)

From S2P Require Import Prelude Dates.

Local Open Scope Z_scope.

(** ** The calendar *)

Definition leap (y : Z) : bool := (y mod 4 =? 0) && (negb (y mod 100 =? 0) || (y mod 400 =? 0)).
Definition days_in_year (y : Z) : Z := if leap y then 366 else 365.

(** The day number of January 1st. *)
Definition year_start (y : Z) : Z :=
  365 * (y - 1970) + ((y - 1) / 4 - (y - 1) / 100 + (y - 1) / 400) - 477.

Definition month_length (lp : bool) (m : Z) : Z :=
  if m =? 2 then if lp then 29 else 28
  else if (m =? 4) || (m =? 6) || (m =? 9) || (m =? 11) then 30 else 31.

(** The days of the year before the first of the month. *)
Definition month_start (lp : bool) (m : Z) : Z :=
  foldl (fun acc k => acc + month_length lp (Z.of_nat k)) 0 (seq 1 (Z.to_nat (m - 1))).

Definition valid_civil (y m d : Z) : Prop := 1 <= m <= 12 /\ 1 <= d <= month_length (leap y) m.
Definition civil_days (y m d : Z) : Z := year_start y + month_start (leap y) m + (d - 1).

(** [y / k] counts the multiples of [k]. *)
Lemma div_pred k y : 0 < k -> y / k = (y - 1) / k + (if y mod k =? 0 then 1 else 0).
Proof.
  intros Hk. destruct (Z.eqb_spec (y mod k) 0) as [H|H].
  - assert (y = k * (y / k)) as Hy by (pose proof (Z.div_mod y k); lia).
    rewrite Hy at 2. replace (k * (y / k) - 1) with ((y / k - 1) * k + (k - 1)) by lia.
    rewrite Z.div_add_l, (Z.div_small (k - 1)) by lia. lia.
  - pose proof (Z.div_mod y k ltac:(lia)). pose proof (Z.mod_pos_bound y k Hk).
    rewrite Z.add_0_r. apply (Z.div_unique (y - 1) k (y / k) (y mod k - 1)); lia.
Qed.

(** Multiples of 400 are multiples of 100, which are multiples of 4. *)
Lemma mod_chain y : (y mod 400 = 0 -> y mod 100 = 0) /\ (y mod 100 = 0 -> y mod 4 = 0).
Proof. split; intros; div_lia. Qed.

Lemma year_start_succ y : year_start (y + 1) = year_start y + days_in_year y.
Proof.
  unfold year_start, days_in_year, leap. replace (y + 1 - 1) with y by lia.
  rewrite (div_pred 4 y), (div_pred 100 y), (div_pred 400 y) by lia. pose proof (mod_chain y) as [H1 H2].
  destruct (Z.eqb_spec (y mod 4) 0), (Z.eqb_spec (y mod 100) 0), (Z.eqb_spec (y mod 400) 0); cbn [andb orb negb];
    try lia; tauto.
Qed.

Lemma days_in_year_bounds y : 365 <= days_in_year y <= 366.
Proof. unfold days_in_year. destruct (leap y); lia. Qed.

Lemma year_start_le y y' : y <= y' -> year_start y + 365 * (y' - y) <= year_start y'.
Proof.
  intros Hle. replace y' with (y + (y' - y)) by lia. assert (0 <= y' - y) as Hk by lia. revert Hk.
  generalize (y' - y) as k. apply natlike_ind; [rewrite Z.add_0_r; lia|]. intros k Hk IH.
  replace (y + Z.succ k) with (y + k + 1) by lia. rewrite year_start_succ.
  pose proof (days_in_year_bounds (y + k)). lia.
Qed.

Lemma year_start_period y q : year_start (y + 400 * q) = year_start y + 146097 * q.
Proof.
  unfold year_start. replace (y + 400 * q - 1) with (y - 1 + 400 * q) by lia.
  replace ((y - 1 + 400 * q) / 4) with ((y - 1) / 4 + 100 * q) by div_lia.
  replace ((y - 1 + 400 * q) / 100) with ((y - 1) / 100 + 4 * q) by div_lia.
  replace ((y - 1 + 400 * q) / 400) with ((y - 1) / 400 + q) by div_lia. lia.
Qed.

Lemma leap_period y q : leap (y + 400 * q) = leap y.
Proof.
  unfold leap. replace ((y + 400 * q) mod 4) with (y mod 4) by div_lia.
  replace ((y + 400 * q) mod 100) with (y mod 100) by div_lia.
  by replace ((y + 400 * q) mod 400) with (y mod 400) by div_lia.
Qed.

(** The twelve months. *)
Lemma month_cases m : 1 <= m <= 12 ->
  m = 1 \/ m = 2 \/ m = 3 \/ m = 4 \/ m = 5 \/ m = 6 \/ m = 7 \/ m = 8 \/ m = 9 \/ m = 10 \/ m = 11 \/ m = 12.
Proof. lia. Qed.

Ltac each_month H := apply month_cases in H; repeat (destruct H as [->|H]); [..|subst].

Lemma month_facts lp m : 1 <= m <= 12 ->
  month_start lp (m + 1) = month_start lp m + month_length lp m /\ 28 <= month_length lp m <= 31 /\
  0 <= month_start lp m /\ month_start lp (m + 1) <= (if lp then 366 else 365).
Proof. intros H. each_month H; destruct lp; vm_compute; intuition discriminate. Qed.

Lemma month_start_le lp m m' : 1 <= m -> m < m' -> m' <= 12 -> month_start lp m + month_length lp m <= month_start lp m'.
Proof.
  intros H1 H2 H3. assert (1 <= m' <= 12) as Hm' by lia. assert (1 <= m <= 12) as Hm by lia. clear H1 H3.
  each_month Hm'; each_month Hm; try lia; destruct lp; vm_compute; discriminate.
Qed.

(** A day number has at most one civil date. *)
Lemma civil_unique y m d y' m' d' :
  valid_civil y m d -> valid_civil y' m' d' -> civil_days y m d = civil_days y' m' d' ->
  y = y' /\ m = m' /\ d = d'.
Proof.
  intros [Hm Hd] [Hm' Hd'] Heq. unfold civil_days in Heq.
  assert (forall y m d, 1 <= m <= 12 -> 1 <= d <= month_length (leap y) m ->
    0 <= month_start (leap y) m + (d - 1) < days_in_year y) as Hin.
  { intros y0 m0 d0 H0 H1. destruct (month_facts (leap y0) m0 H0) as (? & ? & ? & ?).
    unfold days_in_year. destruct (leap y0); lia. }
  pose proof (Hin y m d Hm Hd). pose proof (Hin y' m' d' Hm' Hd').
  assert (y = y') as <-.
  { destruct (Z.lt_trichotomy y y') as [H1|[H1|H1]]; [|done|].
    - pose proof (year_start_le (y + 1) y' ltac:(lia)). rewrite year_start_succ in *. lia.
    - pose proof (year_start_le (y' + 1) y ltac:(lia)). rewrite year_start_succ in *. lia. }
  assert (m = m') as <-; [|lia].
  destruct (Z.lt_trichotomy m m') as [H1|[H1|H1]]; [|done|].
  - pose proof (month_start_le (leap y) m m'). lia.
  - pose proof (month_start_le (leap y) m' m). lia.
Qed.

(** ** The tables *)

Lemma table_months lp m : 1 <= m <= 12 ->
  at_ (if lp : bool then CUMULATIVE_LEAP_DAYS else CUMULATIVE_DAYS) (m - 1) = month_start lp m /\
  at_ (if lp then LEAP_DAYS else NORMAL_DAYS) m = month_length lp m.
Proof. intros H. each_month H; destruct lp; split; reflexivity. Qed.

Definition month_of_day_ok (lp : bool) (day : nat) : bool :=
  let m := at_ (if lp then LEAP_MONTH_PER_DAY_OF_YEAR else MONTH_PER_DAY_OF_YEAR) (Z.of_nat day) in
  (1 <=? m) && (m <=? 12) && (month_start lp m <=? Z.of_nat day) && (Z.of_nat day <? month_start lp (m + 1)).

Lemma table_days lp day : 0 <= day < (if lp : bool then 366 else 365) ->
  let m := at_ (if lp then LEAP_MONTH_PER_DAY_OF_YEAR else MONTH_PER_DAY_OF_YEAR) day in
  1 <= m <= 12 /\ month_start lp m <= day < month_start lp (m + 1).
Proof.
  intros Hd.
  assert (month_of_day_ok lp (Z.to_nat day) = true) as H.
  { assert (forallb (month_of_day_ok lp) (seq 0 (if lp then 366 else 365)) = true) as Hall
      by (destruct lp; vm_compute; reflexivity).
    rewrite forallb_seq in Hall. apply Hall. destruct lp; lia. }
  unfold month_of_day_ok in H. rewrite Z2Nat.id in H by lia. cbv zeta. reflect_bools. lia.
Qed.

Lemma table_years k : (k <= 400)%nat -> rd CUMULATIVE_YEAR_DAYS k = year_start (1970 + Z.of_nat k).
Proof.
  intros Hk.
  assert (forallb (fun k => rd CUMULATIVE_YEAR_DAYS k =? year_start (1970 + Z.of_nat k)) (seq 0 401) = true) as H
    by (vm_compute; reflexivity).
  rewrite forallb_seq in H. apply Z.eqb_eq, H. lia.
Qed.

Lemma is_leap_year y : IsLeapYear y = leap y.
Proof.
  unfold IsLeapYear, leap. assert (forall k, 0 < k -> (Z.rem y k =? 0) = (y mod k =? 0)) as H.
  { intros k Hk. apply eq_true_iff_eq. rewrite !Z.eqb_eq. rewrite Z.rem_divide, Z.mod_divide by lia. done. }
  by rewrite !H by lia.
Qed.

(** ** From days to the civil date *)

Lemma ck32_ok z : i32_min <= z <= i32_max -> ck32 z = Ok z.
Proof.
  intros [H1 H2]. unfold ck32. by rewrite (proj2 (Z.leb_le i32_min z) H1), (proj2 (Z.leb_le z i32_max) H2).
Qed.

Lemma i32_bounds : i32_min = -2147483648 /\ i32_max = 2147483647.
Proof. done. Qed.

(** Discharges the range conditions of [ck32]. *)
Ltac ck := rewrite ck32_ok by (pose proof i32_bounds; lia); cbn [mbind result_bind].

Lemma shift_up_spec fuel n y :
  i32_min <= n <= i32_max -> (0 < fuel)%nat -> - (146097 * (Z.of_nat fuel - 1)) <= n ->
  -1000000000 + 400 * Z.of_nat fuel <= y <= 1000000000 ->
  shift_up fuel n y = Ok (if n <? 0 then (n mod 146097, y + 400 * (n / 146097)) else (n, y)).
Proof.
  pose proof i32_bounds. revert n y. induction fuel as [|fuel IH]; intros n y Hn Hf Hlow Hy; [lia|].
  cbn [shift_up]. destruct (Z.ltb_spec n 0) as [Hneg|Hpos]; [|done].
  unfold DAYS_PER_YEAR_INTERVAL, YEAR_INTERVAL. ck. ck. rewrite IH by lia. f_equal.
  destruct (Z.ltb_spec (n + 146097) 0).
  - f_equal; [|replace ((n + 146097) / 146097) with (n / 146097 + 1) by div_lia; lia]. div_lia.
  - f_equal; [div_lia|]. replace (n / 146097) with (-1) by div_lia. lia.
Qed.

Lemma shift_down_spec fuel n y :
  0 <= n <= i32_max -> (0 < fuel)%nat -> n < 146097 * Z.of_nat fuel ->
  -1000000000 <= y <= 1000000000 - 400 * Z.of_nat fuel ->
  shift_down fuel n y = Ok (n mod 146097, y + 400 * (n / 146097)).
Proof.
  pose proof i32_bounds. revert n y. induction fuel as [|fuel IH]; intros n y Hn Hf Hhigh Hy; [lia|].
  cbn [shift_down]. unfold DAYS_PER_YEAR_INTERVAL, YEAR_INTERVAL. destruct (Z.leb_spec 146097 n) as [Hge|Hlt].
  - ck. ck. rewrite IH by lia. f_equal. replace ((n - 146097) / 146097) with (n / 146097 - 1) by div_lia.
    f_equal; [div_lia|lia].
  - rewrite Z.mod_small, Z.div_small by lia. do 2 f_equal. lia.
Qed.

Lemma find_year_spec yo r :
  (yo <= 400)%nat -> 0 <= r < 146097 -> (yo = 400%nat \/ r < year_start (1970 + Z.of_nat yo + 1)) ->
  let k := find_year_offset yo r in
  (k <= 399)%nat /\ year_start (1970 + Z.of_nat k) <= r < year_start (1970 + Z.of_nat k + 1).
Proof.
  induction yo as [|yo IH]; intros Hyo Hr Hup; cbn [find_year_offset]; rewrite table_years by done.
  - change (year_start (1970 + Z.of_nat 0)) with 0. rewrite (proj2 (Z.ltb_ge r 0)) by lia. cbv zeta.
    destruct Hup as [?|?]; [lia|]. split; [lia|]. change (year_start (1970 + Z.of_nat 0)) with 0. lia.
  - destruct (Z.ltb_spec r (year_start (1970 + Z.of_nat (S yo)))) as [Hlt|Hge].
    + apply IH; [lia|done|]. right. by replace (1970 + Z.of_nat yo + 1) with (1970 + Z.of_nat (S yo)) by lia.
    + cbv zeta. destruct Hup as [Heq|Hup]; [|split; [|done]].
      * assert (year_start (1970 + Z.of_nat (S yo)) = 146097) as H0 by (rewrite Heq; reflexivity). lia.
      * destruct (decide (S yo = 400%nat)) as [Heq|]; [|lia].
        assert (year_start (1970 + Z.of_nat (S yo)) = 146097) as H0 by (rewrite Heq; reflexivity). lia.
Qed.

Lemma extract_year_offset n :
  i32_min <= n <= i32_max ->
  exists y k, ExtractYearOffset n = Ok (n mod 146097, y, k) /\ (k <= 399)%nat /\
    year_start y <= n < year_start (y + 1) /\
    n mod 146097 - rd CUMULATIVE_YEAR_DAYS k = n - year_start y /\
    (rd CUMULATIVE_YEAR_DAYS (S k) - rd CUMULATIVE_YEAR_DAYS k =? 366) = leap y /\
    -6000000 <= y <= 6000000.
Proof.
  intros Hn. pose proof i32_bounds. unfold ExtractYearOffset, EPOCH_YEAR.
  assert (Z.of_nat interval_turns = 14701) as Hturns by reflexivity.
  rewrite shift_up_spec by lia. cbn [mbind result_bind].
  assert ((if n <? 0 then (n mod 146097, 1970 + 400 * (n / 146097)) else (n, 1970))
    = (if n <? 0 then n mod 146097 else n, if n <? 0 then 1970 + 400 * (n / 146097) else 1970)) as -> by by destruct (n <? 0).
  cbv beta iota. rewrite shift_down_spec by (destruct (Z.ltb_spec n 0); div_lia). cbn [mbind result_bind].
  assert ((if n <? 0 then n mod 146097 else n) mod 146097 = n mod 146097) as ->.
  { destruct (n <? 0); [|done]. by rewrite Z.mod_mod. }
  assert ((if n <? 0 then 1970 + 400 * (n / 146097) else 1970) + 400 * ((if n <? 0 then n mod 146097 else n) / 146097)
    = 1970 + 400 * (n / 146097)) as ->.
  { destruct (n <? 0); [|done]. rewrite (Z.div_small (n mod 146097)); [lia|]. apply Z.mod_pos_bound. lia. }
  set (r := n mod 146097). set (q := n / 146097).
  assert (0 <= r < 146097) as Hr by (apply Z.mod_pos_bound; lia).
  assert (n = 146097 * q + r) as Hnq by (apply Z.div_mod; lia).
  destruct (find_year_spec (Z.to_nat (Z.quot r 365)) r) as [Hk Hb].
  { rewrite Z.quot_div_nonneg by lia. div_lia. }
  { done. }
  { right. rewrite Z.quot_div_nonneg, Z2Nat.id by div_lia.
    assert (0 <= r / 365) by (apply Z.div_pos; lia).
    pose proof (year_start_le 1970 (1970 + r / 365 + 1) ltac:(lia)) as Hle. change (year_start 1970) with 0 in Hle.
    pose proof (Z.div_mod r 365 ltac:(lia)). pose proof (Z.mod_pos_bound r 365 ltac:(lia)). lia. }
  set (k := find_year_offset _ r) in *. assert (-14700 <= q <= 14699) as Hq by (subst q; div_lia).
  cbv zeta. ck. eexists _, k. split; [done|]. split; [done|].
  replace (1970 + 400 * q + Z.of_nat k + 1) with (1970 + Z.of_nat k + 1 + 400 * q) by lia.
  replace (1970 + 400 * q + Z.of_nat k) with (1970 + Z.of_nat k + 400 * q) by lia.
  rewrite !year_start_period, leap_period, !table_years by lia.
  split_and!; try lia. rewrite Nat2Z.inj_succ. unfold Z.succ. rewrite Z.add_assoc, year_start_succ.
  unfold days_in_year. destruct (leap (1970 + Z.of_nat k)); [apply Z.eqb_eq|apply Z.eqb_neq]; lia.
Qed.

Lemma convert_civil n :
  i32_min <= n <= i32_max ->
  exists y m d, Convert n = Ok (y, m, d) /\ valid_civil y m d /\ civil_days y m d = n /\ -6000000 <= y <= 6000000.
Proof.
  intros Hn. destruct (extract_year_offset n Hn) as (y & k & Heq & Hk & Hb & Hday & Hleap & Hy).
  unfold Convert. rewrite Heq. cbn [mbind result_bind]. cbv zeta. rewrite Hday, Hleap. rewrite year_start_succ in Hb.
  unfold days_in_year in Hb.
  assert (0 <= n - year_start y < (if leap y then 366 else 365)) as Hd by (destruct (leap y); lia).
  pose proof (table_days (leap y) _ Hd) as [Hm Hr]. cbv zeta in Hm, Hr.
  set (m := if leap y then at_ LEAP_MONTH_PER_DAY_OF_YEAR (n - year_start y) else at_ MONTH_PER_DAY_OF_YEAR (n - year_start y)).
  assert (at_ (if leap y then LEAP_MONTH_PER_DAY_OF_YEAR else MONTH_PER_DAY_OF_YEAR) (n - year_start y) = m) as Em
    by (subst m; by destruct (leap y)).
  rewrite Em in Hm, Hr. pose proof (table_months (leap y) m Hm) as [Hs _].
  replace (if leap y then at_ CUMULATIVE_LEAP_DAYS (m - 1) else at_ CUMULATIVE_DAYS (m - 1)) with (month_start (leap y) m)
    by (rewrite <- Hs; by destruct (leap y)).
  destruct (month_facts (leap y) m Hm) as (Hnext & _).
  eexists y, m, _. split; [done|]. split; [split; [done|lia]|]. split; [|done]. unfold civil_days. lia.
Qed.

(** ** From the civil date to days *)

Definition min_finite : Z := -2147483646.
Definition max_finite : Z := 2147483646.

Definition civil_before (y m d y' m' d' : Z) : Prop := y < y' \/ y = y' /\ (m < m' \/ m = m' /\ d < d').

Lemma civil_day_of_year y m d : valid_civil y m d -> 0 <= month_start (leap y) m + (d - 1) < days_in_year y.
Proof.
  intros [Hm Hd]. destruct (month_facts (leap y) m Hm) as (? & ? & ? & ?). unfold days_in_year. destruct (leap y); lia.
Qed.

Lemma civil_days_before y m d y' m' d' :
  valid_civil y m d -> valid_civil y' m' d' -> civil_before y m d y' m' d' ->
  civil_days y m d < civil_days y' m' d'.
Proof.
  intros Hv Hv' Hb. unfold civil_days.
  pose proof (civil_day_of_year y m d Hv). pose proof (civil_day_of_year y' m' d' Hv').
  destruct Hb as [Hy|[-> [Hm|[-> Hd]]]]; [| |lia].
  - pose proof (year_start_le (y + 1) y' ltac:(lia)). rewrite year_start_succ in *. lia.
  - destruct Hv as [? ?], Hv' as [? ?]. pose proof (month_start_le (leap y') m m'). lia.
Qed.

Lemma civil_days_order y m d y' m' d' :
  valid_civil y m d -> valid_civil y' m' d' ->
  civil_before y m d y' m' d' <-> civil_days y m d < civil_days y' m' d'.
Proof.
  intros Hv Hv'. split; [by apply civil_days_before|]. intros Hlt.
  assert (civil_before y m d y' m' d' \/ civil_before y' m' d' y m d \/ (y = y' /\ m = m' /\ d = d')) as [?|[Hb|(-> & -> & ->)]]
    by (unfold civil_before; lia); [done| |lia].
  pose proof (civil_days_before _ _ _ _ _ _ Hv' Hv Hb). lia.
Qed.

Lemma is_valid_spec y m d :
  IsValid y m d = true <-> valid_civil y m d /\ min_finite <= civil_days y m d <= max_finite.
Proof.
  assert (valid_civil DATE_MIN_YEAR DATE_MIN_MONTH DATE_MIN_DAY) as Hvmin by (split; vm_compute; intuition discriminate).
  assert (valid_civil DATE_MAX_YEAR DATE_MAX_MONTH DATE_MAX_DAY) as Hvmax by (split; vm_compute; intuition discriminate).
  assert (IsValid y m d = true <-> valid_civil y m d /\
    ~ civil_before y m d DATE_MIN_YEAR DATE_MIN_MONTH DATE_MIN_DAY /\
    ~ civil_before DATE_MAX_YEAR DATE_MAX_MONTH DATE_MAX_DAY y m d) as ->.
  { unfold IsValid, valid_civil, civil_before. destruct (Z.ltb_spec m 1), (Z.ltb_spec 12 m); cbn [orb];
      try (split; [done|lia]). rewrite is_leap_year.
    assert (1 <= m <= 12) as Hm by lia. pose proof (table_months (leap y) m Hm) as [_ Hl].
    replace (if leap y then at_ LEAP_DAYS m else at_ NORMAL_DAYS m) with (month_length (leap y) m)
      by (rewrite <- Hl; by destruct (leap y)).
    generalize (month_length (leap y) m) as ml. intros ml.
    unfold DATE_MIN_YEAR, DATE_MIN_MONTH, DATE_MIN_DAY, DATE_MAX_YEAR, DATE_MAX_MONTH, DATE_MAX_DAY.
    repeat (case_match; reflect_bools); rewrite ?Z.leb_le;
      repeat match goal with
      | H : (_ || _)%bool = true |- _ => apply orb_true_iff in H
      | H : (_ && _)%bool = true |- _ => apply andb_true_iff in H
      | H : (_ && _)%bool = false |- _ => apply andb_false_iff in H
      end; rewrite ?andb_true_iff, ?Z.eqb_eq, ?Z.ltb_lt, ?Z.ltb_ge, ?Z.leb_gt, ?Z.eqb_neq in *; split; try done; try lia. }
  change min_finite with (civil_days DATE_MIN_YEAR DATE_MIN_MONTH DATE_MIN_DAY).
  change max_finite with (civil_days DATE_MAX_YEAR DATE_MAX_MONTH DATE_MAX_DAY).
  split; intros [Hv H]; (split; [done|]).
  - rewrite (civil_days_order y m d _ _ _ Hv Hvmin), (civil_days_order _ _ _ y m d Hvmax Hv) in H. lia.
  - rewrite (civil_days_order y m d _ _ _ Hv Hvmin), (civil_days_order _ _ _ y m d Hvmax Hv). lia.
Qed.

Lemma try_from_date y m d :
  TryFromDate y m d = Ok (if IsValid y m d then Some (civil_days y m d) else None).
Proof.
  unfold TryFromDate. destruct (IsValid y m d) eqn:Hval; cbn [negb]; [|done].
  apply is_valid_spec in Hval as [Hv Hrange]. pose proof (civil_day_of_year y m d Hv) as Hdoy.
  pose proof (days_in_year_bounds y). pose proof i32_bounds.
  pose proof Hv as [Hm Hd]. pose proof (table_months (leap y) m Hm) as [Hs _]. destruct (month_facts (leap y) m Hm) as (_ & _ & Hms & _).
  rewrite is_leap_year.
  replace (if leap y then at_ CUMULATIVE_LEAP_DAYS (m - 1) else at_ CUMULATIVE_DAYS (m - 1)) with (month_start (leap y) m)
    by (rewrite <- Hs; by destruct (leap y)).
  assert (year_start y = civil_days y m d - month_start (leap y) m - (d - 1)) as Hys by (unfold civil_days; lia).
  unfold min_finite, max_finite, DAYS_PER_YEAR_INTERVAL in *.
  assert (DATE_MIN_YEAR <= y <= DATE_MAX_YEAR) as Hy.
  { unfold DATE_MIN_YEAR, DATE_MAX_YEAR. split; apply Z.nlt_ge; intros Hc.
    - pose proof (year_start_le (y + 1) (-5877641) ltac:(lia)) as Hle. rewrite year_start_succ in Hle.
      assert (year_start (-5877641) = -2147483821) as Hval by reflexivity. lia.
    - pose proof (year_start_le 5881581 y ltac:(lia)) as Hle. assert (year_start 5881581 = 2147483821) as Hval by reflexivity. lia. }
  unfold DATE_MIN_YEAR, DATE_MAX_YEAR in Hy. ck. ck.
  assert (forall k, 0 <= k <= 400 -> at_ CUMULATIVE_YEAR_DAYS k = year_start (1970 + k) /\ 0 <= year_start (1970 + k) <= 146097) as Htab.
  { intros k Hk. unfold at_. rewrite table_years, Z2Nat.id by lia. split; [done|].
    pose proof (year_start_le 1970 (1970 + k) ltac:(lia)) as H1. pose proof (year_start_le (1970 + k) 2370 ltac:(lia)) as H2.
    change (year_start 1970) with 0 in H1. change (year_start 2370) with 146097 in H2. lia. }
  destruct (Z.ltb_spec y 1970); [|destruct (Z.leb_spec 2370 y)].
  - ck. rewrite Z.rem_mod_nonneg, Z.quot_div_nonneg by lia.
    pose proof (Z.div_mod (1970 - y) 400 ltac:(lia)) as Hdm. pose proof (Z.mod_pos_bound (1970 - y) 400 ltac:(lia)) as Hmb.
    set (fr := (1970 - y) / 400) in *. set (rm := (1970 - y) mod 400) in *.
    destruct (Htab (400 - rm)) as [-> Hb]; [lia|].
    assert (year_start (1970 + (400 - rm)) = year_start y + 146097 * (1 + fr)) as Hp
      by (rewrite <- year_start_period; f_equal; lia).
    repeat ck. apply (f_equal Ok), (f_equal Some). unfold civil_days. lia.
  - ck. rewrite Z.rem_mod_nonneg, Z.quot_div_nonneg by lia.
    pose proof (Z.div_mod (y - 2370) 400 ltac:(lia)) as Hdm. pose proof (Z.mod_pos_bound (y - 2370) 400 ltac:(lia)) as Hmb.
    set (fr := (y - 2370) / 400) in *. set (rm := (y - 2370) mod 400) in *.
    destruct (Htab rm) as [-> Hb]; [lia|].
    assert (year_start y = year_start (1970 + rm) + 146097 * (1 + fr)) as Hp
      by (rewrite <- year_start_period; f_equal; lia).
    repeat ck. apply (f_equal Ok), (f_equal Some). unfold civil_days. lia.
  - destruct (Htab (y - 1970)) as [-> Hb]; [lia|]. replace (1970 + (y - 1970)) with y in * by lia.
    repeat ck. apply (f_equal Ok), (f_equal Some). unfold civil_days. lia.
Qed.

(** ** Weeks *)

Lemma iso_day_of_week n : ExtractISODayOfTheWeek n = (n + 3) mod 7 + 1.
Proof.
  unfold ExtractISODayOfTheWeek. destruct (Z.ltb_spec n 0); rewrite Z.rem_mod_nonneg by lia; [div_lia|done].
Qed.

Lemma python_div_mod x y : 0 < y -> PythonDivMod x y = (x / y, x mod y).
Proof.
  intros Hy. unfold PythonDivMod. pose proof (Z.quot_rem x y ltac:(lia)) as Hqr.
  assert (0 <= x -> 0 <= Z.rem x y < y) by (intros; apply Z.rem_bound_pos; lia).
  assert (x <= 0 -> - y < Z.rem x y <= 0).
  { intros Hx. pose proof (Z.rem_bound_pos (- x) y ltac:(lia) Hy) as Hb. rewrite Z.rem_opp_l in Hb by lia. lia. }
  destruct (Z.ltb_spec (x - Z.quot x y * y) 0).
  - f_equal; [apply (Z.div_unique x y _ (x - Z.quot x y * y + y)); lia|].
    apply (Z.mod_unique x y (Z.quot x y - 1)); lia.
  - f_equal; [apply (Z.div_unique x y _ (x - Z.quot x y * y)); lia|].
    apply (Z.mod_unique x y (Z.quot x y)); lia.
Qed.

(** The Monday of the week that contains January 4th. *)
Definition week_one (y : Z) : Z := year_start y + 3 - (year_start y + 6) mod 7.

Lemma week_one_bounds y : year_start y - 3 <= week_one y <= year_start y + 3 /\ (week_one y + 3) mod 7 = 0.
Proof. unfold week_one. generalize (year_start y) as s. intros s. split; div_lia. Qed.

Lemma week_one_succ y : week_one y + 364 <= week_one (y + 1) <= week_one y + 371.
Proof.
  pose proof (week_one_bounds y) as [H1 H2]. pose proof (week_one_bounds (y + 1)) as [H3 H4].
  rewrite year_start_succ in H3. pose proof (days_in_year_bounds y). div_lia.
Qed.

(** January 1st of these years is a date. *)
Lemma jan_first y : -5877640 <= y <= 5881580 ->
  IsValid y 1 1 = true /\ civil_days y 1 1 = year_start y /\ -2147483456 <= year_start y <= 2147483455.
Proof.
  intros Hy.
  pose proof (year_start_le (-5877640) y ltac:(lia)) as Hlo. pose proof (year_start_le y 5881580 ltac:(lia)) as Hhi.
  assert (year_start (-5877640) = -2147483456) as H1 by reflexivity.
  assert (year_start 5881580 = 2147483455) as H2 by reflexivity.
  assert (civil_days y 1 1 = year_start y) as Hc
    by (assert (month_start (leap y) 1 = 0) by reflexivity; unfold civil_days; lia).
  split; [|split; [done|]].
  - apply is_valid_spec. rewrite Hc. unfold min_finite, max_finite. split; [|lia].
    split; [lia|]. destruct (leap y); vm_compute; intuition discriminate.
  - lia.
Qed.

Lemma from_date_valid y m d : IsValid y m d = true -> FromDate y m d = Ok (civil_days y m d).
Proof. intros H. unfold FromDate. by rewrite try_from_date, H. Qed.

Lemma from_date_invalid y m d : IsValid y m d = false -> FromDate y m d = Throw date_out_of_range.
Proof. intros H. unfold FromDate. by rewrite try_from_date, H. Qed.

Lemma iso_week_one y : -5877640 <= y <= 5881580 -> GetISOWeekOne y = Ok (week_one y).
Proof.
  intros Hy. destruct (jan_first y Hy) as (Hv & Hc & Hr). unfold GetISOWeekOne, week_one.
  rewrite from_date_valid, Hc by done. cbn [mbind result_bind]. rewrite iso_day_of_week.
  revert Hr. generalize (year_start y) as s. intros s Hr. clear - Hr. cbv zeta.
  replace ((s + 3) mod 7 + 1 - 1) with ((s + 3) mod 7) by lia.
  assert (0 <= (s + 3) mod 7 < 7) as Hm by (apply Z.mod_pos_bound; lia).
  ck. destruct (Z.ltb_spec 3 ((s + 3) mod 7)); [ck|]; apply (f_equal Ok); div_lia.
Qed.

(** The Thursday of the week (Monday to Sunday) of a day. *)
Definition thursday (n : Z) : Z := n - (n + 3) mod 7 + 3.

(** The first Thursday of a year is in its first ISO week. *)
Lemma week_one_thursday y n :
  (week_one y <= n <-> year_start y <= thursday n) /\ (n - week_one y) / 7 = (thursday n - year_start y) / 7.
Proof. unfold week_one, thursday. generalize (year_start y) as s. intros s. repeat split; intros; div_lia. Qed.

Lemma first_iso_week : week_one (-5877640) = -2147483453 /\ year_start (-5877640) = -2147483456.
Proof. split; reflexivity. Qed.

Lemma year_of_day n : i32_min <= n <= i32_max ->
  exists y m d, Convert n = Ok (y, m, d) /\ year_start y <= n < year_start (y + 1).
Proof.
  intros Hn. destruct (convert_civil n Hn) as (y & m & d & Heq & Hv & Hc & _). exists y, m, d. split; [done|].
  pose proof (civil_day_of_year y m d Hv). rewrite year_start_succ. unfold civil_days in Hc. lia.
Qed.

Lemma year_range n y lo hi : year_start y <= n < year_start (y + 1) -> year_start lo <= n -> n < year_start (hi + 1) -> lo <= y <= hi.
Proof.
  intros H Hlo Hhi. split; apply Z.nlt_ge; intros Hc.
  - pose proof (year_start_le (y + 1) lo ltac:(lia)). lia.
  - pose proof (year_start_le (hi + 1) y ltac:(lia)). lia.
Qed.

Lemma iso_week_defined n : -2147483453 <= n <= max_finite ->
  exists y, year_start y <= thursday n < year_start (y + 1) /\ GetISOYearWeek n = Ok (y, (thursday n - year_start y) / 7 + 1).
Proof.
  intros Hn. unfold max_finite in Hn. pose proof i32_bounds as Hi. destruct first_iso_week as [Hw Hs].
  destruct (year_of_day n ltac:(lia)) as (y & m & d & Heq & Hy).
  assert (-5877640 <= y <= 5881580) as Hyr.
  { apply (year_range n); [done|lia|]. assert (year_start (5881580 + 1) = 2147483821) as -> by reflexivity. lia. }
  unfold GetISOYearWeek. rewrite Heq. cbn [mbind result_bind]. rewrite (iso_week_one y Hyr). cbn [mbind result_bind].
  pose proof (week_one_bounds y) as [Hb _]. pose proof (days_in_year_bounds y). pose proof (year_start_succ y).
  destruct (jan_first y Hyr) as (_ & _ & Hjan).
  ck. cbv zeta. rewrite python_div_mod by lia. cbn [fst].
  destruct (week_one_thursday y n) as [Hth Hwk]. destruct (Z.ltb_spec ((n - week_one y) / 7) 0) as [Hneg|Hpos].
  - assert (n < week_one y) as Hlt by div_lia.
    assert (y - 1 >= -5877640) by (destruct (decide (y = -5877640)) as [->|]; lia).
    rewrite iso_week_one by lia. cbn [mbind result_bind]. pose proof (week_one_succ (y - 1)) as Hsucc.
    replace (y - 1 + 1) with y in Hsucc by lia. ck. rewrite python_div_mod by lia. cbn [fst].
    destruct (week_one_thursday (y - 1) n) as [Hth' Hwk']. exists (y - 1). rewrite Hwk'. split; [|done].
    replace (y - 1 + 1) with y by lia. split; [|lia]. apply Hth'.
    pose proof (week_one_bounds (y - 1)). pose proof (year_start_succ (y - 1)) as Hp. replace (y - 1 + 1) with y in Hp by lia.
    pose proof (days_in_year_bounds (y - 1)). lia.
  - assert (week_one y <= n) as Hge by div_lia. destruct (Z.leb_spec 52 ((n - week_one y) / 7)) as [H52|H52].
    + assert (364 <= n - week_one y) by div_lia. assert (y < 5881580).
      { destruct (decide (y = 5881580)) as [->|]; [|lia]. assert (week_one 5881580 >= 2147483452) by (vm_compute; discriminate). lia. }
      rewrite iso_week_one by lia. cbn [mbind result_bind].
      destruct (week_one_thursday (y + 1) n) as [Hth' Hwk']. pose proof (week_one_bounds (y + 1)).
      destruct (Z.leb_spec (week_one (y + 1)) n) as [Hle|Hgt].
      * exists (y + 1). rewrite <- Hwk'. split; [|rewrite Z.div_small by lia; done].
        split; [lia|]. rewrite year_start_succ. pose proof (days_in_year_bounds (y + 1)).
        unfold thursday in *. assert (0 <= (n + 3) mod 7) by (apply Z.mod_pos_bound; lia). lia.
      * exists y. rewrite Hwk. split; [lia|done].
    + exists y. rewrite Hwk. split; [|done]. split; [lia|]. apply Z.nle_gt. intros Hc.
      destruct (week_one_thursday (y + 1) n) as [Hth' _]. apply Hth' in Hc. pose proof (week_one_succ y). div_lia.
Qed.

Lemma iso_week_undefined n : min_finite <= n < -2147483453 -> GetISOYearWeek n = Throw date_out_of_range.
Proof.
  intros Hn. unfold min_finite in Hn. pose proof i32_bounds as Hi. destruct first_iso_week as [Hw Hs].
  destruct (year_of_day n ltac:(lia)) as (y & m & d & Heq & Hy).
  assert (-5877641 <= y <= -5877640) as Hyr.
  { apply (year_range n); [done| |]; [assert (year_start (-5877641) = -2147483821) as -> by reflexivity; lia|].
    assert (year_start (-5877640 + 1) = -2147483090) as -> by reflexivity. lia. }
  assert (IsValid (-5877641) 1 1 = false) as Hinv by reflexivity.
  unfold GetISOYearWeek. rewrite Heq. cbn [mbind result_bind].
  destruct (decide (y = -5877641)) as [->|].
  - unfold GetISOWeekOne at 1. rewrite from_date_invalid by done. done.
  - assert (y = -5877640) as -> by lia. rewrite (iso_week_one (-5877640)) by lia. rewrite Hw. cbn [mbind result_bind].
    ck. cbv zeta. rewrite python_div_mod by lia. cbn [fst].
    rewrite (proj2 (Z.ltb_lt ((n - -2147483453) / 7) 0)) by div_lia.
    change (-5877640 - 1) with (-5877641). unfold GetISOWeekOne. rewrite from_date_invalid by done. done.
Qed.
