(* ===== verification/DateText.v ===== *)
(** * Dates as text

    Models [Date::TryConvertDate], [Date::FromCString] and [Date::ToString] of
    [common/types/date.cpp], with [DateToStringCast] and [NumericHelper::FormatUnsigned] of
    [common/types/cast_helpers.hpp] and the character classes of [common/string_util.hpp]. A
    character is its code; a buffer is the list of its characters and a position an index in it. *)

From S2P Require Import Prelude Dates.

Local Open Scope Z_scope.

Definition codes (s : string) : list Z := map (fun a => Z.of_nat (Ascii.nat_of_ascii a)) (String.list_ascii_of_string s).

(** ** Character classes *)

Definition CharacterIsSpace (c : Z) : bool :=
  (c =? 32) || (c =? 9) || (c =? 10) || (c =? 11) || (c =? 12) || (c =? 13).
Definition CharacterIsDigit (c : Z) : bool := (48 <=? c) && (c <=? 57).
Definition CharacterToLower (c : Z) : Z := if (65 <=? c) && (c <=? 90) then c + (97 - 65) else c.

(** [buf[pos]], read only where [pos < len]. *)
Notation "buf .[ pos ]" := (rd buf pos) (at level 2, left associativity, format "buf .[ pos ]").

(** ** Parsing *)

Inductive DateCastResult := SUCCESS | ERROR_INCORRECT_FORMAT | ERROR_RANGE.

(** What [TryConvertDate] leaves behind: its return value, the position, the date it wrote to
    [result], if any, and the special flag. *)
Record date_cast := {
  cast_result : DateCastResult;
  cast_pos : nat;
  cast_date : option Z;
  cast_special : bool
}.

(** [while (pos < len && CharacterIsSpace(buf[pos])) pos++;], bounded by the buffer's length. *)
Fixpoint skip_spaces (fuel : nat) (buf : list Z) (pos : nat) : nat :=
  match fuel with
  | O => pos
  | S fuel' =>
      if (pos <? length buf)%nat && CharacterIsSpace buf.[pos] then skip_spaces fuel' buf (S pos) else pos
  end.

(** The one or two digits at the position: their value and the position behind them. *)
Definition ParseDoubleDigit (buf : list Z) (pos : nat) : option (Z * nat) :=
  if (pos <? length buf)%nat && CharacterIsDigit buf.[pos] then
    let result := buf.[pos] - 48 in
    let pos := S pos in
    if (pos <? length buf)%nat && CharacterIsDigit buf.[pos]
    then Some (buf.[pos] - 48 + result * 10, S pos)
    else Some (result, pos)
  else None.

(** [DateSpecial]: the full text and the length of its abbreviation. *)
Definition PINF : list Z * nat := (codes "infinity", 3%nat).
Definition NINF : list Z * nat := (codes "-infinity", 4%nat).
Definition EPOCH : list Z * nat := (codes "epoch", 5%nat).

(** The loop over the special text: what is left of it and the position, unless a character differs. *)
Fixpoint match_special (buf : list Z) (p : nat) (special : list Z) : option (nat * list Z) :=
  match special with
  | [] => Some (p, [])
  | s :: rest =>
      if (p <? length buf)%nat then
        if CharacterToLower buf.[p] =? s then match_special buf (S p) rest else None
      else Some (p, special)
  end.

Definition TryConvertDateSpecial (buf : list Z) (pos : nat) (s : list Z * nat) : option nat :=
  match match_special buf pos (fst s) with
  | None => None
  | Some (p, []) => Some p
  | Some (p, _) => if (p - pos =? snd s)%nat then Some p else None
  end.

(** The loop over the digits of the year: the year, its length and the position; [None] when the
    loop returns [ERROR_RANGE]. *)
Fixpoint parse_year (fuel : nat) (buf : list Z) (year : Z) (year_length pos : nat) : result (option (Z * nat * nat)) :=
  match fuel with
  | O => mret (Some (year, year_length, pos))
  | S fuel' =>
      if (pos <? length buf)%nat && CharacterIsDigit buf.[pos] then
        if 100000000 <=? year then mret None
        else year ← ck32 (buf.[pos] - 48 + year * 10); parse_year fuel' buf year (S year_length) (S pos)
      else mret (Some (year, year_length, pos))
  end.

Definition is_separator (sep : Z) : bool := (sep =? 32) || (sep =? 45) || (sep =? 47) || (sep =? 92).

(** [ (BC)] at the position *)
Definition at_bc (buf : list Z) (pos : nat) : bool :=
  (5 <=? length buf - pos)%nat && CharacterIsSpace buf.[pos] && (buf.[pos + 1] =? 40) &&
  (CharacterToLower buf.[pos + 2] =? 98) && (CharacterToLower buf.[pos + 3] =? 99) && (buf.[pos + 4] =? 41).

Section Parse.

Variable buf : list Z.
Variable strict : bool.

Definition cast_error (code : DateCastResult) (pos : nat) : date_cast :=
  {| cast_result := code; cast_pos := pos; cast_date := None; cast_special := false |}.
Definition bad_format (pos : nat) : result date_cast := mret (cast_error ERROR_INCORRECT_FORMAT pos).

(** From the optional suffix to the end. *)
Definition convert_tail (yearneg : bool) (year month day : Z) (pos : nat) : result date_cast :=
  let bc := at_bc buf pos in
  if bc && (yearneg || (year =? 0)) then bad_format pos
  else
    year ← (if bc then ck32 (- year + 1) else mret year);
    let pos := if bc then (pos + 5)%nat else pos in
    let pos := if strict then skip_spaces (length buf) buf pos else pos in
    if strict && (pos <? length buf)%nat then bad_format pos
    else if negb strict && ((pos <? length buf)%nat && CharacterIsDigit buf.[pos]) then bad_format pos
    else
      r ← TryFromDate year month day;
      mret match r with
           | Some n => {| cast_result := SUCCESS; cast_pos := pos; cast_date := Some n; cast_special := false |}
           | None => cast_error ERROR_RANGE pos
           end.

(** From the separator behind the year to the day. *)
Definition convert_month_day (yearneg : bool) (year : Z) (pos : nat) : result date_cast :=
  if (length buf <=? pos)%nat then bad_format pos
  else
    let sep := buf.[pos] in
    let pos := S pos in
    if negb (is_separator sep) then bad_format pos
    else match ParseDoubleDigit buf pos with
         | None => bad_format pos
         | Some (month, pos) =>
             if (length buf <=? pos)%nat then bad_format pos
             else if negb (buf.[pos] =? sep) then bad_format (S pos)
             else
               let pos := S pos in
               if (length buf <=? pos)%nat then bad_format pos
               else match ParseDoubleDigit buf pos with
                    | None => bad_format pos
                    | Some (day, pos) => convert_tail yearneg year month day pos
                    end
         end.

(** [infinity], [-infinity] and [epoch] *)
Definition convert_special (yearneg : bool) (pos : nat) : date_cast :=
  let finish n pos :=
    let pos := skip_spaces (length buf) buf pos in
    {| cast_result := if (pos =? length buf)%nat then SUCCESS else ERROR_INCORRECT_FORMAT;
       cast_pos := pos; cast_date := Some n; cast_special := true |} in
  match TryConvertDateSpecial buf pos PINF with
  | Some pos => finish (if yearneg then ninfinity else infinity) pos
  | None =>
      match TryConvertDateSpecial buf pos EPOCH with
      | Some pos => finish 0 pos
      | None => cast_error ERROR_INCORRECT_FORMAT pos
      end
  end.

Definition TryConvertDate : result date_cast :=
  if (length buf =? 0)%nat then bad_format 0
  else
    let pos := skip_spaces (length buf) buf 0 in
    if (length buf <=? pos)%nat then bad_format pos
    else
      let yearneg := buf.[pos] =? 45 in
      let pos := if yearneg then S pos else pos in
      if yearneg && (length buf <=? pos)%nat then bad_format pos
      else if negb (CharacterIsDigit buf.[pos]) then mret (convert_special yearneg pos)
      else
        r ← parse_year (length buf) buf 0 0 pos;
        match r with
        | None => mret (cast_error ERROR_RANGE pos)
        | Some (year, year_length, pos) =>
            if (year_length <? 2)%nat && strict then bad_format pos
            else
              year ← (if yearneg then ck32 (- year) else mret year);
              convert_month_day yearneg year pos
        end.

Definition FromCString : result Z :=
  r ← TryConvertDate;
  match cast_result r with
  | ERROR_INCORRECT_FORMAT => Throw (ConversionException "invalid date field format")
  | ERROR_RANGE => Throw (ConversionException "date field value out of range")
  | SUCCESS => mret (default 0 (cast_date r))
  end.

End Parse.

(** ** Printing *)

(** The pairs of digits 00 to 99. *)
Definition digits : list Z := codes
  "00010203040506070809101112131415161718192021222324252627282930313233343536373839404142434445464748495051525354555657585960616263646566676869707172737475767778798081828384858687888990919293949596979899".

(** The characters written backwards from the pointer, in front of [tail]; two digits a turn. *)
Fixpoint FormatUnsigned (fuel : nat) (value : Z) (tail : list Z) : list Z :=
  match fuel with
  | O => tail
  | S fuel' =>
      if 100 <=? value then
        let index := Z.rem value 100 * 2 in
        FormatUnsigned fuel' (Z.quot value 100) (at_ digits index :: at_ digits (index + 1) :: tail)
      else if value <? 10 then (48 + value) :: tail
      else
        let index := value * 2 in
        at_ digits index :: at_ digits (index + 1) :: tail
  end.

(** A 32-bit value has at most ten digits. *)
Definition digit_turns : nat := 6.

(** The length of the text, the year as printed, the length of the year and whether it is BC. *)
Definition YearLength (year : Z) : Z * Z * nat * bool :=
  let add_bc := year <=? 0 in
  let length := if add_bc then 6 + 5 else 6 in
  let year := if add_bc then - year + 1 else year in
  let year_length := (4 + Nat.b2n (10000 <=? year)%Z + Nat.b2n (100000 <=? year)%Z +
                      Nat.b2n (1000000 <=? year)%Z + Nat.b2n (10000000 <=? year)%Z)%nat in
  (length + Z.of_nat year_length, year, year_length, add_bc).

Definition FormatComponent (number : Z) : list Z :=
  if number <? 10 then [45; 48; 48 + number]
  else let index := number * 2 in [45; at_ digits index; at_ digits (index + 1)].

Definition buffer_underflow : exception := InternalException "write in front of the buffer".

(** The year is written backwards from [data + year_length] and filled up with zeros; more than
    [year_length] digits would be written in front of the buffer. *)
Definition Format (year month day : Z) (year_length : nat) (add_bc : bool) : result (list Z) :=
  let ds := FormatUnsigned digit_turns year [] in
  if (year_length <? length ds)%nat then Throw buffer_underflow
  else mret (replicate (year_length - length ds) 48 ++ ds ++ FormatComponent month ++ FormatComponent day ++
             (if add_bc then codes " (BC)" else [])).

Definition ToString (days : Z) : result (list Z) :=
  if negb (IsFinite days) then mret (fst (if days =? infinity then PINF else NINF))
  else
    '(year, month, day) ← Convert days;
    let '(_, year, year_length, add_bc) := YearLength year in
    Format year month day year_length add_bc.
