(* ===== verification/DateTextFacts.v ===== *)
(** * Dates as text: facts

    The parser of [DateText] reads inside its buffer and does not overflow; the printer's digits
    denote the number printed; printing and parsing fit together. *)

From S2P Require Import Prelude Dates DatesFacts DateText.

Local Open Scope Z_scope.

(** ** Bounds of the parser *)

Lemma digit_range c : CharacterIsDigit c = true <-> 48 <= c <= 57.
Proof. unfold CharacterIsDigit. rewrite andb_true_iff, !Z.leb_le. done. Qed.

Lemma skip_spaces_bounds fuel buf pos :
  (pos <= length buf)%nat -> (pos <= skip_spaces fuel buf pos <= length buf)%nat.
Proof.
  revert pos. induction fuel as [|fuel IH]; intros pos Hp; cbn [skip_spaces]; [lia|].
  destruct (Nat.ltb_spec pos (length buf)); cbn [andb]; [|lia].
  destruct (CharacterIsSpace _); [|lia]. pose proof (IH (S pos)). lia.
Qed.

Lemma double_digit_bounds buf pos v pos' :
  ParseDoubleDigit buf pos = Some (v, pos') -> 0 <= v <= 99 /\ (pos < pos' <= length buf)%nat.
Proof.
  unfold ParseDoubleDigit. destruct (Nat.ltb_spec pos (length buf)); cbn [andb]; [|done].
  destruct (CharacterIsDigit _) eqn:H1; [|done]. apply digit_range in H1.
  destruct (Nat.ltb_spec (S pos) (length buf)); cbn [andb]; [|intros [= <- <-]; lia].
  destruct (CharacterIsDigit (rd buf (S pos))) eqn:H2; intros [= <- <-]; [apply digit_range in H2|]; lia.
Qed.

Lemma match_special_bounds buf p sp p' rest :
  (p <= length buf)%nat -> match_special buf p sp = Some (p', rest) -> (p <= p' <= length buf)%nat.
Proof.
  revert p. induction sp as [|s sp IH]; intros p Hp; cbn [match_special]; [intros [= <- <-]; lia|].
  destruct (Nat.ltb_spec p (length buf)); [|intros [= <- <-]; lia]. destruct (_ =? s); [|done].
  intros H1%IH; lia.
Qed.

Lemma special_bounds buf pos s pos' :
  (pos <= length buf)%nat -> TryConvertDateSpecial buf pos s = Some pos' -> (pos <= pos' <= length buf)%nat.
Proof.
  unfold TryConvertDateSpecial. intros Hp. destruct (match_special _ _ _) as [[p rest]|] eqn:Hm; [|done].
  apply match_special_bounds in Hm; [|done]. intros H. repeat case_match; simplify_eq; lia.
Qed.

Lemma parse_year_total fuel buf year yl pos :
  0 <= year <= 999999999 -> (pos <= length buf)%nat ->
  exists r, parse_year fuel buf year yl pos = Ok r /\
    forall y l p, r = Some (y, l, p) -> 0 <= y <= 999999999 /\ (pos <= p <= length buf)%nat.
Proof.
  revert year yl pos. induction fuel as [|fuel IH]; intros year yl pos Hy Hp; cbn [parse_year].
  { eexists. split; [done|]. intros ??? [= <- <- <-]. lia. }
  destruct (Nat.ltb_spec pos (length buf)); cbn [andb].
  2: { eexists. split; [done|]. intros ??? [= <- <- <-]. lia. }
  destruct (CharacterIsDigit _) eqn:Hd.
  2: { eexists. split; [done|]. intros ??? [= <- <- <-]. lia. }
  apply digit_range in Hd. destruct (Z.leb_spec 100000000 year); [by eexists|]. ck.
  destruct (IH (rd buf pos - 48 + year * 10) (S yl) (S pos)) as (r & -> & Hr); [lia..|].
  eexists. split; [done|]. intros y l p Heq. apply Hr in Heq. lia.
Qed.

(** A parse result stays in the buffer, and a success carries a date. *)
Definition cast_ok (buf : list Z) (r : date_cast) : Prop :=
  (cast_pos r <= length buf)%nat /\
  (cast_result r = SUCCESS ->
   exists n, cast_date r = Some n /\ (min_finite <= n <= max_finite \/ n = infinity \/ n = ninfinity)).

Lemma error_ok buf code pos : code <> SUCCESS -> (pos <= length buf)%nat -> cast_ok buf (cast_error code pos).
Proof. intros H Hp. split; [done|]. intros Hc. by destruct H. Qed.

Lemma bad_format_ok buf pos : (pos <= length buf)%nat -> exists r, bad_format pos = Ok r /\ cast_ok buf r.
Proof. intros H. eexists. split; [done|]. by apply error_ok. Qed.

Lemma at_bc_fits buf pos : at_bc buf pos = true -> (pos + 5 <= length buf)%nat.
Proof. unfold at_bc. rewrite !andb_true_iff. intros (((((H & _) & _) & _) & _) & _). apply Nat.leb_le in H. lia. Qed.

Lemma convert_tail_ok buf strict yearneg year month day pos :
  -999999999 <= year <= 999999999 -> (pos <= length buf)%nat ->
  exists r, convert_tail buf strict yearneg year month day pos = Ok r /\ cast_ok buf r.
Proof.
  intros Hy Hp. unfold convert_tail. cbv zeta. destruct (at_bc buf pos && _); [by apply bad_format_ok|].
  pose proof (at_bc_fits buf pos) as Hbc. set (pos1 := if at_bc buf pos then (pos + 5)%nat else pos).
  assert (pos1 <= length buf)%nat as Hp1 by (subst pos1; destruct (at_bc buf pos); [by apply Hbc|done]).
  assert (exists y', (if at_bc buf pos then ck32 (- year + 1) else mret year) = Ok y') as [y' ->].
  { destruct (at_bc buf pos); [|by eexists]. eexists. apply ck32_ok. pose proof i32_bounds. lia. }
  cbn [mbind result_bind]. set (pos2 := if strict then skip_spaces (length buf) buf pos1 else pos1).
  assert (pos2 <= length buf)%nat as Hp2
    by (subst pos2; destruct strict; [apply skip_spaces_bounds|]; done).
  destruct (strict && _); [by apply bad_format_ok|]. destruct (negb strict && _); [by apply bad_format_ok|].
  rewrite try_from_date. cbn [mbind result_bind]. destruct (IsValid y' month day) eqn:Hv; eexists; (split; [done|]).
  - split; [done|]. intros _. eexists. split; [done|]. left. apply is_valid_spec in Hv. apply Hv.
  - by apply error_ok.
Qed.

Lemma convert_month_day_ok buf strict yearneg year pos :
  -999999999 <= year <= 999999999 -> (pos <= length buf)%nat ->
  exists r, convert_month_day buf strict yearneg year pos = Ok r /\ cast_ok buf r.
Proof.
  intros Hy Hp. unfold convert_month_day. cbv zeta.
  destruct (Nat.leb_spec (length buf) pos); [apply bad_format_ok; lia|]. destruct (negb _); [apply bad_format_ok; lia|].
  destruct (ParseDoubleDigit buf (S pos)) as [[month p1]|] eqn:H1; [|apply bad_format_ok; lia].
  apply double_digit_bounds in H1. destruct (Nat.leb_spec (length buf) p1); [apply bad_format_ok; lia|].
  destruct (negb _); [apply bad_format_ok; lia|].
  destruct (Nat.leb_spec (length buf) (S p1)); [apply bad_format_ok; lia|].
  destruct (ParseDoubleDigit buf (S p1)) as [[day p2]|] eqn:Hp2; [|apply bad_format_ok; lia].
  apply double_digit_bounds in Hp2. apply convert_tail_ok; [done|lia].
Qed.

Lemma convert_special_ok buf yearneg pos :
  (pos <= length buf)%nat -> cast_ok buf (convert_special buf yearneg pos).
Proof.
  intros Hp. unfold convert_special.
  destruct (TryConvertDateSpecial buf pos PINF) as [p|] eqn:H1; [|destruct (TryConvertDateSpecial buf pos EPOCH) as [p|] eqn:H2].
  - apply special_bounds in H1; [|done]. pose proof (skip_spaces_bounds (length buf) buf p).
    split; [cbn; lia|]. intros _. eexists. split; [done|]. right. destruct yearneg; auto.
  - apply special_bounds in H2; [|done]. pose proof (skip_spaces_bounds (length buf) buf p).
    split; [cbn; lia|]. intros _. eexists. split; [done|]. left. unfold min_finite, max_finite. lia.
  - by apply error_ok.
Qed.

Lemma try_convert_ok buf strict : exists r, TryConvertDate buf strict = Ok r /\ cast_ok buf r.
Proof.
  unfold TryConvertDate. cbv zeta. destruct (Nat.eqb_spec (length buf) 0); [apply bad_format_ok; lia|].
  pose proof (skip_spaces_bounds (length buf) buf 0 ltac:(lia)) as Hs. set (pos := skip_spaces _ _ _) in *.
  destruct (Nat.leb_spec (length buf) pos); [apply bad_format_ok; lia|].
  set (neg := rd buf pos =? 45). set (pos1 := if neg then S pos else pos).
  assert (pos1 <= length buf)%nat as Hp1 by (subst pos1; destruct neg; lia).
  destruct (neg && _); [by apply bad_format_ok|].
  destruct (negb _); [eexists; split; [done|]; by apply convert_special_ok|].
  destruct (parse_year_total (length buf) buf 0 0 pos1) as (r & -> & Hr); [lia..|]. cbn [mbind result_bind].
  destruct r as [[[year yl] p]|]; [|eexists; split; [done|]; by apply error_ok].
  destruct (Hr _ _ _ eq_refl) as [Hyear Hp]. destruct (_ && strict); [apply bad_format_ok; lia|].
  pose proof i32_bounds. destruct neg; [ck|cbn [mbind result_bind]]; apply convert_month_day_ok; lia.
Qed.

(** ** Digits *)

Definition is_digit (c : Z) : Prop := 48 <= c <= 57.

(** The number a list of digits continues. *)
Definition digits_value (y : Z) (ds : list Z) : Z := foldl (fun (y c : Z) => c - 48 + y * 10) y ds.

Definition pair_ok (k : nat) : bool :=
  let a := at_ digits (Z.of_nat k * 2) in
  let b := at_ digits (Z.of_nat k * 2 + 1) in
  (48 <=? a) && (a <=? 57) && (48 <=? b) && (b <=? 57) && (b - 48 + (a - 48) * 10 =? Z.of_nat k).

Lemma table_digits v : 0 <= v < 100 ->
  is_digit (at_ digits (v * 2)) /\ is_digit (at_ digits (v * 2 + 1)) /\
  at_ digits (v * 2 + 1) - 48 + (at_ digits (v * 2) - 48) * 10 = v.
Proof.
  intros Hv. assert (forallb pair_ok (seq 0 100) = true) as H by (vm_compute; reflexivity).
  rewrite forallb_seq in H. specialize (H (Z.to_nat v) ltac:(lia)). unfold pair_ok in H.
  rewrite Z2Nat.id in H by lia. cbv zeta in H. unfold is_digit. reflect_bools. lia.
Qed.

Lemma digits_value_app y l l' : digits_value y (l ++ l') = digits_value (digits_value y l) l'.
Proof. apply foldl_app. Qed.

Lemma digits_value_ge ds y : 0 <= y -> Forall is_digit ds -> y <= digits_value y ds.
Proof.
  revert y. induction ds as [|c ds IH]; intros y Hy Hd; [done|]. inversion_clear Hd as [|?? Hc Hds].
  unfold is_digit in Hc. cbn. specialize (IH (c - 48 + y * 10) ltac:(lia) Hds). unfold digits_value in IH. lia.
Qed.

Lemma digits_pair a b : is_digit a -> is_digit b -> Forall is_digit [a; b].
Proof. intros Ha Hb. apply Forall_cons_2; [done|]. apply Forall_cons_2; [done|apply Forall_nil_2]. Qed.

(** The digits written denote the value, and there are no more of them than needed. *)
Lemma format_unsigned fuel v tail :
  0 <= v < 100 ^ Z.of_nat fuel -> (0 < fuel)%nat ->
  exists ds, FormatUnsigned fuel v tail = ds ++ tail /\ Forall is_digit ds /\ digits_value 0 ds = v /\
    (1 <= length ds)%nat /\ forall k, 1 <= k -> v < 10 ^ k -> Z.of_nat (length ds) <= k.
Proof.
  revert v tail. induction fuel as [|fuel IH]; intros v tail Hv Hf; [lia|]. cbn [FormatUnsigned]. cbv zeta.
  destruct (Z.leb_spec 100 v) as [Hbig|Hsmall]; [|destruct (Z.ltb_spec v 10)].
  - assert (0 < fuel)%nat as Hf' by (destruct fuel; [change (100 ^ Z.of_nat 1) with 100 in Hv|]; lia).
    rewrite Nat2Z.inj_succ, Z.pow_succ_r in Hv by lia.
    rewrite Z.rem_mod_nonneg, Z.quot_div_nonneg by lia.
    destruct (table_digits (v mod 100)) as (Ha & Hb & Hab); [apply Z.mod_pos_bound; lia|].
    destruct (IH (v / 100) (at_ digits (v mod 100 * 2) :: at_ digits (v mod 100 * 2 + 1) :: tail)) as (ds & -> & Hds & Hval & Hlen & Hk).
    { split; [apply Z.div_pos; lia|]. apply Z.div_lt_upper_bound; lia. }
    { done. }
    eexists (ds ++ [at_ digits (v mod 100 * 2); at_ digits (v mod 100 * 2 + 1)]).
    rewrite <- (assoc_L (++)). split; [done|]. rewrite digits_value_app, Hval, length_app. split_and!.
    + apply Forall_app. split; [done|]. by apply digits_pair.
    + unfold digits_value; cbn [foldl]. pose proof (Z.div_mod v 100 ltac:(lia)). lia.
    + cbn [length]. lia.
    + intros k Hk1 Hk2. assert (3 <= k) as Hk3.
      { apply Z.nlt_ge. intros Hc. assert (k = 1 \/ k = 2) as [->| ->] by lia; cbn in Hk2; lia. }
      cbn [length]. specialize (Hk (k - 2) ltac:(lia)). assert (v / 100 < 10 ^ (k - 2)); [|lia].
      apply Z.div_lt_upper_bound; [lia|]. change 100 with (10 ^ 2). rewrite <- Z.pow_add_r by lia.
      by replace (2 + (k - 2)) with k by lia.
  - exists [48 + v]. split_and!; [done| |cbn; lia|cbn; lia|cbn [length]; intros; lia].
    apply Forall_cons_2; [unfold is_digit; lia|apply Forall_nil_2].
  - destruct (table_digits v) as (Ha & Hb & Hab); [lia|]. eexists [_; _]. split_and!; [done|by apply digits_pair|unfold digits_value; cbn [foldl]; lia|cbn [length]; lia|].
    intros k Hk1 Hk2. cbn [length]. destruct (decide (k = 1)) as [->|]; [change (10 ^ 1) with 10 in Hk2|]; lia.
Qed.

Lemma format_component v : 0 <= v < 100 ->
  exists a b, FormatComponent v = [45; a; b] /\ is_digit a /\ is_digit b /\ b - 48 + (a - 48) * 10 = v.
Proof.
  intros Hv. unfold FormatComponent. destruct (Z.ltb_spec v 10).
  - exists 48, (48 + v). split_and!; [done|unfold is_digit; lia..|lia].
  - destruct (table_digits v Hv) as (? & ? & ?). by eexists _, _.
Qed.

(** ** Parsing the printed text *)

Lemma rd_app_l l l' i : (i < length l)%nat -> rd (l ++ l') i = rd l i.
Proof. intros H. unfold rd. by rewrite lookup_app_l. Qed.

Lemma rd_app_r l l' i : rd (l ++ l') (length l + i) = rd l' i.
Proof. unfold rd. rewrite lookup_app_r by lia. do 2 f_equal. lia. Qed.

Lemma digit_true c : is_digit c -> CharacterIsDigit c = true.
Proof. apply digit_range. Qed.

(** [rest] does not continue the digits in front of it. *)
Definition no_digit (rest : list Z) : Prop := forall c l, rest = c :: l -> CharacterIsDigit c = false.

Lemma parse_year_digits ds fuel pre rest y yl :
  Forall is_digit ds -> (length ds <= fuel)%nat -> no_digit rest -> 0 <= y -> digits_value y ds <= 999999999 ->
  parse_year fuel (pre ++ ds ++ rest) y yl (length pre) =
  Ok (Some (digits_value y ds, (yl + length ds)%nat, (length pre + length ds)%nat)).
Proof.
  revert fuel pre y yl. induction ds as [|c ds IH]; intros fuel pre y yl Hds Hf Hrest Hy Hval.
  - assert (((length pre <? length (pre ++ rest))%nat && CharacterIsDigit (rd (pre ++ rest) (length pre))) = false) as Hno.
    { destruct rest as [|c rest]; [rewrite app_nil_r, Nat.ltb_irrefl; done|].
      replace (rd _ _) with c by (replace (length pre) with (length pre + 0)%nat by lia; by rewrite rd_app_r).
      by rewrite (Hrest c rest), andb_false_r. }
    cbn [digits_value foldl length app]. rewrite !Nat.add_0_r.
    destruct fuel; cbn [parse_year]; [done|]. by rewrite Hno.
  - inversion_clear Hds as [|?? Hc Hds']. cbn [length] in *. destruct fuel as [|fuel]; [lia|]. cbn [parse_year].
    rewrite (proj2 (Nat.ltb_lt (length pre) (length (pre ++ (c :: ds) ++ rest)))) by (rewrite !length_app; cbn [length]; lia).
    assert (rd (pre ++ (c :: ds) ++ rest) (length pre) = c) as ->.
    { replace (length pre) with (length pre + 0)%nat by lia. by rewrite rd_app_r. }
    rewrite digit_true by done. cbn [andb]. unfold is_digit in Hc.
    pose proof (digits_value_ge ds (c - 48 + y * 10) ltac:(lia) Hds') as Hge. cbn [digits_value foldl] in Hval. unfold digits_value in Hge.
    rewrite (proj2 (Z.leb_gt 100000000 y)) by lia. ck.
    replace (pre ++ (c :: ds) ++ rest) with ((pre ++ [c]) ++ ds ++ rest) by (by rewrite <- (assoc_L (++))).
    replace (S (length pre)) with (length (pre ++ [c])) by (rewrite length_app; cbn; lia).
    rewrite IH; [|done|lia|done|lia|done]. rewrite length_app. cbn [length]. do 3 f_equal; [f_equal; lia|lia].
Qed.

Lemma double_digit_at buf pos a b :
  (S pos < length buf)%nat -> rd buf pos = a -> rd buf (S pos) = b -> is_digit a -> is_digit b ->
  ParseDoubleDigit buf pos = Some (b - 48 + (a - 48) * 10, S (S pos)).
Proof.
  intros Hp <- <- Ha Hb. unfold ParseDoubleDigit. rewrite (proj2 (Nat.ltb_lt pos (length buf))), (proj2 (Nat.ltb_lt (S pos) (length buf))) by lia.
  by rewrite !digit_true by done.
Qed.

Lemma skip_spaces_none fuel buf pos :
  CharacterIsSpace (rd buf pos) = false \/ (length buf <= pos)%nat -> skip_spaces fuel buf pos = pos.
Proof.
  intros H. destruct fuel; cbn [skip_spaces]; [done|]. destruct H as [->|H]; [by rewrite andb_false_r|].
  by rewrite (proj2 (Nat.ltb_ge pos (length buf))).
Qed.

Definition bc_suffix (bc : bool) : list Z := if bc then codes " (BC)" else [].

Lemma convert_tail_end text strict (bc : bool) py year month day :
  year = (if bc then - py + 1 else py) -> 0 <= py <= 999999999 -> (bc = true -> py <> 0) -> IsValid year month day = true ->
  convert_tail (text ++ bc_suffix bc) strict false py month day (length text) =
  Ok {| cast_result := SUCCESS; cast_pos := length (text ++ bc_suffix bc);
        cast_date := Some (civil_days year month day); cast_special := false |}.
Proof.
  intros Hyear Hpy Hbc Hv. unfold convert_tail. cbv zeta. pose proof i32_bounds.
  assert (at_bc (text ++ bc_suffix bc) (length text) = bc) as ->.
  { unfold at_bc. rewrite length_app, !rd_app_r. replace (length text) with (length text + 0)%nat at 3 by lia.
    rewrite rd_app_r. replace (length text + length (bc_suffix bc) - length text)%nat with (length (bc_suffix bc)) by lia.
    by destruct bc. }
  rewrite orb_false_l. replace (bc && (py =? 0)) with false
    by (symmetry; destruct bc; [apply Z.eqb_neq; by apply Hbc|done]).
  replace (if bc then ck32 (- py + 1) else mret py) with (mret year : result Z)
    by (subst year; destruct bc; [rewrite ck32_ok by lia|]; done).
  cbn [mbind result_bind mret result_ret].
  replace (if bc then (length text + 5)%nat else length text) with (length (text ++ bc_suffix bc))
    by (rewrite length_app; destruct bc; cbn; lia).
  rewrite (skip_spaces_none _ _ (length _)) by (right; lia).
  replace (if strict then length (text ++ bc_suffix bc) else length (text ++ bc_suffix bc)) with (length (text ++ bc_suffix bc))
    by (by destruct strict).
  rewrite Nat.ltb_irrefl, !andb_false_r, try_from_date, Hv. done.
Qed.

Lemma parse_text Y a b c e strict (bc : bool) py year month day :
  Forall is_digit Y -> (2 <= length Y)%nat -> digits_value 0 Y = py -> py <= 999999999 -> (bc = true -> py <> 0) ->
  is_digit a -> is_digit b -> is_digit c -> is_digit e ->
  b - 48 + (a - 48) * 10 = month -> e - 48 + (c - 48) * 10 = day ->
  year = (if bc then - py + 1 else py) -> IsValid year month day = true ->
  let buf := Y ++ [45; a; b; 45; c; e] ++ bc_suffix bc in
  TryConvertDate buf strict =
  Ok {| cast_result := SUCCESS; cast_pos := length buf; cast_date := Some (civil_days year month day); cast_special := false |}.
Proof.
  intros HY Hlen Hval Hpy Hbc Ha Hb Hc He Hmonth Hday Hyear Hv buf. unfold TryConvertDate.
  assert (length buf = length Y + 6 + length (bc_suffix bc))%nat as Hlb by (subst buf; rewrite !length_app; cbn; lia).
  assert (exists d0 Y', Y = d0 :: Y') as (d0 & Y' & EY) by (destruct Y; [cbn in Hlen; lia|eauto]).
  assert (is_digit d0) as Hd0 by (subst Y; by inversion HY). assert (rd buf 0 = d0) as Hrd0 by (subst buf Y; done).
  assert (CharacterIsSpace d0 = false) as Hsp by (unfold is_digit in Hd0; unfold CharacterIsSpace; rewrite !orb_false_iff, !Z.eqb_neq; lia).
  rewrite (proj2 (Nat.eqb_neq (length buf) 0)) by lia. cbv zeta.
  rewrite (skip_spaces_none _ buf 0) by (left; by rewrite Hrd0).
  rewrite (proj2 (Nat.leb_gt (length buf) 0)), Hrd0 by lia. rewrite (proj2 (Z.eqb_neq d0 45)) by (unfold is_digit in Hd0; lia).
  cbn [andb]. rewrite Hrd0, digit_true by done. cbn [negb].
  assert (0 <= py) as Hpy0 by (rewrite <- Hval; by apply digits_value_ge).
  assert (parse_year (length buf) buf 0 0 0 = Ok (Some (py, length Y, length Y))) as ->.
  { rewrite <- Hval. apply (parse_year_digits Y (length buf) [] ([45; a; b; 45; c; e] ++ bc_suffix bc) 0 0); try done; try lia.
    by intros ? ? [= <- <-]. }
  cbn [mbind result_bind]. rewrite (proj2 (Nat.ltb_ge (length Y) 2)) by lia. cbn [andb mret result_ret mbind result_bind].
  assert (forall i, rd buf (length Y + i) = rd ([45; a; b; 45; c; e] ++ bc_suffix bc) i) as Hrd by (intros; apply rd_app_r).
  assert (rd buf (length Y) = 45) as H0 by (rewrite <- (Nat.add_0_r (length Y)); by rewrite Hrd).
  assert (rd buf (S (length Y)) = a) as H1 by (replace (S (length Y)) with (length Y + 1)%nat by lia; by rewrite Hrd).
  assert (rd buf (S (S (length Y))) = b) as H2 by (replace (S (S (length Y))) with (length Y + 2)%nat by lia; by rewrite Hrd).
  assert (rd buf (length Y + 3) = 45) as H3 by by rewrite Hrd.
  assert (rd buf (S (length Y + 3)) = c) as H4 by (replace (S (length Y + 3)) with (length Y + 4)%nat by lia; by rewrite Hrd).
  assert (rd buf (S (S (length Y + 3))) = e) as H5 by (replace (S (S (length Y + 3))) with (length Y + 5)%nat by lia; by rewrite Hrd).
  unfold convert_month_day. rewrite (proj2 (Nat.leb_gt (length buf) (length Y))) by lia. rewrite H0. cbv zeta.
  change (is_separator 45) with true. cbn [negb].
  rewrite (double_digit_at buf _ a b) by (done || lia). replace (S (S (S (length Y)))) with (length Y + 3)%nat by lia.
  rewrite (proj2 (Nat.leb_gt (length buf) (length Y + 3))) by lia. rewrite H3. change (45 =? 45) with true. cbn [negb].
  rewrite (proj2 (Nat.leb_gt (length buf) (S (length Y + 3)))) by lia.
  rewrite (double_digit_at buf _ c e) by (done || lia). replace (S (S (S (length Y + 3)))) with (length (Y ++ [45; a; b; 45; c; e])) by (rewrite length_app; cbn; lia).
  subst buf. rewrite (assoc_L (++)). rewrite Hmonth, Hday. by apply convert_tail_end.
Qed.
