(* ===== verification/DateTheorems.v ===== *)
(** * Dates: theorems

    The date arithmetic of [Dates] and the text conversion of [DateText] against the proleptic
    Gregorian calendar of [DatesFacts]. *)

From S2P Require Import Prelude Dates DatesFacts DateText DateTextFacts.

Local Open Scope Z_scope.

(** C39. [Date::Convert] on any 32-bit day number: the loops end, no 32-bit operation overflows, and
    the result is the civil date of that day, the only one; so the parts are those of the calendar,
    the day of the year counts from January 1st, and the results of two day numbers compare - by year,
    then month, then day - as the day numbers do. *)
Theorem convert_is_calendar (n : Z) (Hn : i32_min <= n <= i32_max) :
  exists y m d,
    Convert n = Ok (y, m, d) /\ valid_civil y m d /\ civil_days y m d = n /\
    (forall y' m' d', valid_civil y' m' d' -> civil_days y' m' d' = n -> (y', m', d') = (y, m, d)) /\
    ExtractYear n = Ok y /\ ExtractMonth n = Ok m /\ ExtractDay n = Ok d /\
    ExtractDayOfTheYear n = Ok (n - year_start y + 1) /\
    forall n' y' m' d', i32_min <= n' <= i32_max -> Convert n' = Ok (y', m', d') -> civil_before y m d y' m' d' <-> n < n'.
Proof.
  destruct (convert_civil n Hn) as (y & m & d & Heq & Hv & Hc & _). exists y, m, d.
  destruct (extract_year_offset n Hn) as (y' & k & Hx & _ & Hb & Hday & _).
  assert (y' = y) as ->.
  { pose proof (civil_day_of_year y m d Hv). unfold civil_days in Hc.
    enough (y <= y' <= y) by lia. apply (year_range n); [done| |rewrite year_start_succ]; lia. }
  split_and!; [done..| | | | | |].
  - intros y1 m1 d1 Hv1 Hc1. destruct (civil_unique y1 m1 d1 y m d Hv1 Hv) as (-> & -> & ->); [lia|done].
  - unfold ExtractYear. by rewrite Hx.
  - unfold ExtractMonth. by rewrite Heq.
  - unfold ExtractDay. by rewrite Heq.
  - unfold ExtractDayOfTheYear. rewrite Hx. cbn [mbind result_bind]. by rewrite Hday.
  - intros n' y' m' d' Hn' Heq'. destruct (convert_civil n' Hn') as (y2 & m2 & d2 & Heq2 & Hv' & <- & _).
    rewrite Heq' in Heq2. injection Heq2 as <- <- <-. rewrite <- Hc. by apply civil_days_order.
Qed.

Lemma convert_is_calendar_witness :
  Convert 11016 = Ok (2000, 2, 29) /\
  exists y m d, Convert 11016 = Ok (y, m, d) /\ valid_civil y m d /\ civil_days y m d = 11016.
Proof.
  split; [vm_compute; reflexivity|].
  destruct (convert_is_calendar 11016) as (y & m & d & H1 & H2 & H3 & _).
  - vm_compute. split; discriminate.
  - exists y, m, d. split; [exact H1|]. split; [exact H2|exact H3].
Defined.

(** [Date::TryFromDate] on any year, month and day does not overflow and returns the day number
    exactly when the date exists in the calendar and its day number is a finite date, false
    otherwise; [Date::IsValid] decides that condition; and on finite dates the conversions are inverse to
    each other. *)
Theorem try_from_date_exact (y m d : Z) :
  TryFromDate y m d = Ok (if IsValid y m d then Some (civil_days y m d) else None) /\
  (IsValid y m d = true <-> valid_civil y m d /\ min_finite <= civil_days y m d <= max_finite) /\
  (forall n, TryFromDate y m d = Ok (Some n) <-> min_finite <= n <= max_finite /\ Convert n = Ok (y, m, d)).
Proof.
  split_and!; [apply try_from_date|apply is_valid_spec|]. intros n. rewrite try_from_date. split.
  - destruct (IsValid y m d) eqn:Hv; [|done]. intros [= <-]. apply is_valid_spec in Hv as [Hv Hr]. split; [done|].
    destruct (convert_civil (civil_days y m d)) as (y' & m' & d' & -> & Hv' & Hc & _).
    { unfold min_finite, max_finite in Hr. pose proof i32_bounds. lia. }
    by destruct (civil_unique y' m' d' y m d Hv' Hv Hc) as (-> & -> & ->).
  - intros [Hr Heq]. destruct (convert_civil n) as (y' & m' & d' & Heq' & Hv' & Hc & _).
    { unfold min_finite, max_finite in Hr. pose proof i32_bounds. lia. }
    rewrite Heq' in Heq. injection Heq as -> -> ->.
    assert (IsValid y m d = true) as ->; [|by rewrite Hc]. apply is_valid_spec. split; [done|]. by rewrite Hc.
Qed.

(** The ISO week of a finite date is that of its week's Thursday: the ISO year is the year in
    which the Thursday falls and the week counts the Thursdays of that year. It is defined from
    -5877640-01-04 on; for the finite dates before, which exist, the function throws, because
    January 1st of the year -5877641 is not a date. *)
Theorem iso_week_exact (n : Z) (Hn : min_finite <= n <= max_finite) :
  (-2147483453 <= n ->
   exists y, year_start y <= thursday n < year_start (y + 1) /\
     GetISOYearWeek n = Ok (y, (thursday n - year_start y) / 7 + 1) /\
     ExtractISOYearNumber n = Ok y /\ ExtractISOWeekNumber n = Ok ((thursday n - year_start y) / 7 + 1)) /\
  (n < -2147483453 -> GetISOYearWeek n = Throw date_out_of_range /\
     ExtractISOYearNumber n = Throw date_out_of_range /\ ExtractISOWeekNumber n = Throw date_out_of_range).
Proof.
  unfold ExtractISOYearNumber, ExtractISOWeekNumber. split; intros H.
  - destruct (iso_week_defined n) as (y & Hy & ->); [lia|]. by exists y.
  - rewrite iso_week_undefined by lia. done.
Qed.

Lemma iso_week_exact_witness :
  GetISOYearWeek 14244 = Ok (2009, 1) /\
  exists y, year_start y <= thursday 14244 < year_start (y + 1) /\
    GetISOYearWeek 14244 = Ok (y, (thursday 14244 - year_start y) / 7 + 1).
Proof.
  split; [vm_compute; reflexivity|].
  destruct (iso_week_exact 14244) as [H _]; [vm_compute; split; discriminate|].
  destruct H as (y & H1 & H2 & _); [vm_compute; discriminate|]. exists y. split; [exact H1|exact H2].
Defined.

(** Parsing any buffer, strictly or not: [Date::TryConvertDate] returns without 32-bit overflow,
    leaves the position inside the buffer, and reports success only with a finite date or an
    infinity; [Date::FromCString] throws a conversion error in the other cases. *)
Theorem date_parse_total (buf : list Z) (strict : bool) :
  exists r, TryConvertDate buf strict = Ok r /\ (cast_pos r <= length buf)%nat /\
    (cast_result r = SUCCESS ->
     exists n, cast_date r = Some n /\ (min_finite <= n <= max_finite \/ n = infinity \/ n = ninfinity) /\
       FromCString buf strict = Ok n) /\
    (cast_result r <> SUCCESS -> exists msg, FromCString buf strict = Throw (ConversionException msg)).
Proof.
  destruct (try_convert_ok buf strict) as (r & Heq & Hpos & Hok). exists r. unfold FromCString. rewrite Heq.
  cbn [mbind result_bind]. split_and!; [done..| |].
  - intros Hs. destruct (Hok Hs) as (n & Hn & Hr). exists n. by rewrite Hs, Hn.
  - intros Hs. destruct (cast_result r); [done|by eexists..].
Qed.

(** The digits of a printed year. *)
Lemma printed_year y py lz yl bc :
  YearLength y = (lz, py, yl, bc) -> -6000000 <= y <= 6000000 ->
  py = (if bc then - y + 1 else y) /\ bc = (y <=? 0) /\ (4 <= yl)%nat /\ py < 10 ^ Z.of_nat yl /\
  lz = 6 + Z.of_nat yl + Z.of_nat (length (bc_suffix bc)).
Proof.
  unfold YearLength. intros Heq Hy. injection Heq as <- <- <- <-.
  set (v := if y <=? 0 then - y + 1 else y). assert (v <= 6000001) as Hv by (subst v; destruct (Z.leb_spec y 0); lia).
  split_and!; [done|done|lia| |destruct (y <=? 0); cbn [length bc_suffix codes]; cbn; lia].
  destruct (Z.leb_spec 10000 v), (Z.leb_spec 100000 v), (Z.leb_spec 1000000 v), (Z.leb_spec 10000000 v);
    cbn [Nat.b2n Nat.add]; lia.
Qed.

(** C40. Printing and parsing dates: [Date::ToString] of a finite date stays in the buffer of the
    length it computed, and parsing the text, strictly or not, consumes all of it and gives the date
    back; the infinities are printed and parsed back as well. *)
Theorem date_text_round_trip (n : Z) (strict : bool)
  (Hn : min_finite <= n <= max_finite \/ n = infinity \/ n = ninfinity) :
  exists text r, ToString n = Ok text /\ TryConvertDate text strict = Ok r /\
    cast_result r = SUCCESS /\ cast_pos r = length text /\ cast_date r = Some n /\
    cast_special r = negb (IsFinite n) /\ FromCString text strict = Ok n /\
    (IsFinite n = true -> exists y m d, Convert n = Ok (y, m, d) /\
       Z.of_nat (length text) = fst (fst (fst (YearLength y)))).
Proof.
  destruct Hn as [Hn|[->| ->]]; [|by destruct strict; eexists _, _; split_and!..].
  unfold min_finite, max_finite in Hn. pose proof i32_bounds as Hi.
  assert (IsFinite n = true) as Hfin.
  { unfold IsFinite, ninfinity, infinity. destruct Hi as [_ ->]. rewrite andb_true_iff, !negb_true_iff, !Z.eqb_neq. lia. }
  destruct (convert_civil n ltac:(lia)) as (y & m & d & Heq & Hv & Hc & Hy).
  assert (IsValid y m d = true) as Hvalid by (apply is_valid_spec; rewrite Hc; unfold min_finite, max_finite; auto).
  destruct (YearLength y) as [[[lz py] yl] bc] eqn:Hyl.
  destruct (printed_year y py lz yl bc Hyl Hy) as (Hpy & Hbc & Hyl4 & Hpow & Hlz).
  assert (0 <= py <= 6000001) as Hpyr by (subst bc py; destruct (Z.leb_spec y 0); lia).
  destruct (format_unsigned digit_turns py []) as (ds & Hds & Hdig & Hval & _ & Hk).
  { change (100 ^ Z.of_nat digit_turns) with 1000000000000. lia. } { unfold digit_turns. lia. }
  rewrite app_nil_r in Hds. specialize (Hk (Z.of_nat yl) ltac:(lia) Hpow).
  destruct Hv as [Hm Hd]. destruct (month_facts (leap y) m Hm) as (_ & Hml & _).
  destruct (format_component m) as (a & b & Em & Ha & Hb & Hab); [lia|].
  destruct (format_component d) as (c & e & Ed & Hc' & He & Hce); [lia|].
  set (Y := replicate (yl - length ds) 48 ++ ds).
  assert (length Y = yl) as HlenY by (subst Y; rewrite length_app, length_replicate; lia).
  assert (Forall is_digit Y) as HY.
  { apply Forall_app. split; [|done]. apply Forall_replicate. unfold is_digit. lia. }
  assert (digits_value 0 Y = py) as HvalY.
  { subst Y. rewrite digits_value_app. replace (digits_value 0 (replicate _ 48)) with 0; [done|].
    generalize (yl - length ds)%nat as k. induction k as [|k IHk]; [done|]. unfold digits_value in *. cbn. exact IHk. }
  exists (Y ++ [45; a; b; 45; c; e] ++ bc_suffix bc), {| cast_result := SUCCESS;
    cast_pos := length (Y ++ [45; a; b; 45; c; e] ++ bc_suffix bc); cast_date := Some n; cast_special := false |}.
  assert (TryConvertDate (Y ++ [45; a; b; 45; c; e] ++ bc_suffix bc) strict = Ok {| cast_result := SUCCESS;
    cast_pos := length (Y ++ [45; a; b; 45; c; e] ++ bc_suffix bc); cast_date := Some n; cast_special := false |}) as Hparse.
  { rewrite <- Hc. apply (parse_text Y a b c e strict bc py y m d); try done; try lia.
    - intros ->. destruct (Z.leb_spec y 0); [lia|done].
    - subst bc py. destruct (Z.leb_spec y 0); lia. }
  split_and!; [|exact Hparse|done..|by rewrite Hfin| |].
  - unfold ToString. rewrite Hfin. cbn [negb]. rewrite Heq. cbn [mbind result_bind]. rewrite Hyl. unfold Format.
    cbv zeta. rewrite Hds, (proj2 (Nat.ltb_ge yl (length ds))), Em, Ed by lia. subst Y. by rewrite <- (assoc_L (++)).
  - unfold FromCString. by rewrite Hparse.
  - intros _. exists y, m, d. split; [done|]. rewrite Hyl. cbn [fst]. rewrite !length_app, HlenY. cbn [length]. lia.
Qed.

Lemma date_text_round_trip_witness :
  ToString (-719529) = Ok (codes "0002-12-31 (BC)") /\
  exists text, ToString (-719529) = Ok text /\ FromCString text true = Ok (-719529).
Proof.
  split; [vm_compute; reflexivity|].
  destruct (date_text_round_trip (-719529) true) as (text & r & H1 & _ & _ & _ & _ & _ & H2 & _).
  - left. vm_compute. split; discriminate.
  - exists text. split; [exact H1|exact H2].
Defined.
