(* ===== verification/UpdateInfo.v ===== *)
(** * Update infos: the values a transaction wrote over, one vector of one column at a time

    Models [transaction/update_info.hpp] and the part of [storage/table/update_segment.cpp] that works
    on one [UpdateInfo] at a time: initializing, fetching, merging, rolling back. The data columns are
    the template instances over an integral physical type ([ColumnType]); the validity column is the
    instance over [bool] whose vectors are validity masks. *)

From S2P Require Import Prelude Snapshot ValidityMask.

Local Open Scope nat_scope.

(** ** Values, vectors and selections *)

(** What the template instances use of a fixed-size physical type: [T()], [==], [LessThan::Operation]
    and [NumericLimits]. *)
Class ColumnType (T : Type) := {
  type_default : T;
  type_equals : T -> T -> bool;
  type_less : T -> T -> bool;
  type_minimum : T;
  type_maximum : T
}.

(** Reading an array of [T]. *)
Definition at_ {T} `{ColumnType T} (l : list T) (i : nat) : T := default type_default (l !! i).
Definition at_nat (l : list nat) (i : nat) : nat := default 0 (l !! i).

(** A selection without a buffer selects incrementally. *)
Definition SelectionVector := option (list nat).

Definition get_index (sel : SelectionVector) (idx : nat) : nat :=
  match sel with None => idx | Some l => at_nat l idx end.

Record FlatVector (T : Type) := mkFlat { flat_data : list T; flat_validity : ValidityMask }.
Arguments mkFlat {T}. Arguments flat_data {T}. Arguments flat_validity {T}.

(** [update.sel], [update.data] and [update.validity]. *)
Record UnifiedVectorFormat (T : Type) := mkUnified {
  format_sel : SelectionVector;
  format_data : list T;
  format_validity : ValidityMask
}.
Arguments mkUnified {T}. Arguments format_sel {T}. Arguments format_data {T}. Arguments format_validity {T}.

(** ** [UpdateInfo] *)

(** An entry of an undo buffer or of the segment's allocator; unset when the entry is null. *)
Definition UndoBufferPointer := option positive.

(** [tuples] and [values] are the first [N] slots of the arrays behind the struct, which have room
    for [max]. *)
Record UpdateInfo (T : Type) := mkInfo {
  column_index : nat;
  row_group_start : Z;
  version_number : Z;
  vector_index : nat;
  max : nat;
  tuples : list nat;
  values : list T;
  prev : UndoBufferPointer;
  next : UndoBufferPointer
}.
Arguments mkInfo {T}. Arguments column_index {T}. Arguments row_group_start {T}.
Arguments version_number {T}. Arguments vector_index {T}. Arguments max {T}. Arguments tuples {T}.
Arguments values {T}. Arguments prev {T}. Arguments next {T}.

Section Fields.
Context {T : Type}.
Implicit Types info : UpdateInfo T.

Definition N info : nat := length (tuples info).
Definition HasPrev info : bool := bool_decide (is_Some (prev info)).
Definition HasNext info : bool := bool_decide (is_Some (next info)).

Definition set_prev (p : UndoBufferPointer) info : UpdateInfo T :=
  mkInfo (column_index info) (row_group_start info) (version_number info) (vector_index info) (max info)
    (tuples info) (values info) p (next info).
Definition set_next (p : UndoBufferPointer) info : UpdateInfo T :=
  mkInfo (column_index info) (row_group_start info) (version_number info) (vector_index info) (max info)
    (tuples info) (values info) (prev info) p.
Definition set_data (ids : list nat) (vals : list T) info : UpdateInfo T :=
  mkInfo (column_index info) (row_group_start info) (version_number info) (vector_index info) (max info)
    ids vals (prev info) (next info).
Definition set_version (v : Z) info : UpdateInfo T :=
  mkInfo (column_index info) (row_group_start info) v (vector_index info) (max info)
    (tuples info) (values info) (prev info) (next info).
Definition set_column (c : nat) info : UpdateInfo T :=
  mkInfo c (row_group_start info) (version_number info) (vector_index info) (max info)
    (tuples info) (values info) (prev info) (next info).
Definition set_vector (v : nat) info : UpdateInfo T :=
  mkInfo (column_index info) (row_group_start info) (version_number info) v (max info)
    (tuples info) (values info) (prev info) (next info).

(** A dummy version for the root: it always applies. *)
Definition AppliesToTransaction (view : SnapshotView) info : bool :=
  if (version_number info =? MAX_COMMIT_ID)%Z then true
  else negb (Sees view (version_number info)).
End Fields.

(** [NextPowerOfTwo] (common/constants.cpp): smear the highest bit of [v - 1] to the right. *)
Definition NextPowerOfTwo (v : Z) : result Z :=
  if (v <? 1)%Z then Ok 2%Z
  else
    let smear s v := Z.lor v (Z.shiftr v s) in
    let r := u64 (smear 32 (smear 16 (smear 8 (smear 4 (smear 2 (smear 1 (v - 1)))))) + 1)%Z in
    if (r =? 0)%Z then Throw (OutOfRangeException "Can't find next power of 2 for %llu") else Ok r.

Section WithVectorSize.
Context {VS : VectorSize}.

Definition GetCompactCapacity (count : nat) : result nat :=
  if count <=? 8 then Ok 8
  else capacity ← NextPowerOfTwo (Z.of_nat count);
       Ok (Nat.min (Z.to_nat capacity) STANDARD_VECTOR_SIZE).

(** [UpdateInfo::Initialize] of a slot whose remaining fields are not set yet. *)
Definition Initialize {T} (transaction_id row_group_start : Z) (capacity : nat) : UpdateInfo T :=
  mkInfo 0 row_group_start transaction_id 0 capacity [] [] None None.

(** ** The row ids of an update *)

(** [UnsafeNumericCast<idx_t>(id) - offset], unsigned. *)
Definition offset_in_vector (id offset : Z) : nat := Z.to_nat (u64 (u64 id - offset)).

(** [NumericCast<sel_t>(NumericCast<idx_t>(id) - vector_offset)]: both casts are checked. *)
Definition checked_tuple (id vector_offset : Z) : result nat :=
  if (id <? 0)%Z then Throw (InternalException "Information loss on integer cast")
  else
    let d := u64 (id - vector_offset) in
    if (2 ^ 32 <=? d)%Z then Throw (InternalException "Information loss on integer cast")
    else Ok (Z.to_nat d).

Fixpoint checked_tuples (ids : list Z) (sel : SelectionVector) (vector_offset : Z) (i n : nat)
    : result (list nat) :=
  match n with
  | O => Ok []
  | S n' =>
      t ← checked_tuple (rd ids (get_index sel i)) vector_offset;
      ts ← checked_tuples ids sel vector_offset (S i) n';
      Ok (t :: ts)
  end.

(** The member function [InitializeUpdateInfo(info, ids, sel, count, vector_index, vector_offset)]. *)
Definition InitializeUpdateInfo {T} (info : UpdateInfo T) (ids : list Z) (sel : SelectionVector)
    (count vector_index : nat) (vector_offset : Z) : result (UpdateInfo T) :=
  ts ← checked_tuples ids sel vector_offset 0 count;
  Ok (set_data ts (values info) (set_vector vector_index (set_prev None (set_next None info)))).

(** ** Fetching *)

Section Data.
Context {T : Type} `{ColumnType T}.

Definition MergeUpdateInfo (current : UpdateInfo T) (result_data : list T) : list T :=
  if N current =? STANDARD_VECTOR_SIZE
  then take (N current) (values current) ++ drop (N current) result_data
  else for_range 0 (N current) (fun i result_data =>
         <[at_nat (tuples current) i := at_ (values current) i]> result_data) result_data.

(** [MergeUpdateInfoRange]: [continue] below [start], [break] from [end] on. *)
Fixpoint merge_range (n i start end_ result_offset : nat) (current : UpdateInfo T) (result_data : list T)
    : list T :=
  match n with
  | O => result_data
  | S n' =>
      let tuple_idx := at_nat (tuples current) i in
      if tuple_idx <? start then merge_range n' (S i) start end_ result_offset current result_data
      else if end_ <=? tuple_idx then result_data
      else merge_range n' (S i) start end_ result_offset current
             (<[result_offset + tuple_idx - start := at_ (values current) i]> result_data)
  end.
Definition MergeUpdateInfoRange (current : UpdateInfo T) (start end_ result_offset : nat)
    (result_data : list T) : list T :=
  merge_range (N current) 0 start end_ result_offset current result_data.

(** [FindUpdatedTuple]: a binary search; the interval halves, so [N] turns are enough. *)
Fixpoint find_updated (fuel : nat) (current : UpdateInfo T) (row_idx left right : nat) : option nat :=
  match fuel with
  | O => None
  | S fuel' =>
      if left <? right then
        let mid := left + (right - left) / 2 in
        if at_nat (tuples current) mid =? row_idx then Some mid
        else if at_nat (tuples current) mid <? row_idx
             then find_updated fuel' current row_idx (S mid) right
             else find_updated fuel' current row_idx left mid
      else None
  end.
Definition FindUpdatedTuple (current : UpdateInfo T) (row_idx : nat) : option nat :=
  find_updated (N current) current row_idx 0 (N current).

(** The body of the callback of [TemplatedFetchRows]. *)
Definition FetchRowsInfo (current : UpdateInfo T) (offsets : list nat) (sel : SelectionVector)
    (fetch_offset count vector_offset result_offset : nat) (result_data : list T) : list T :=
  for_range 0 count (fun idx result_data =>
    let row_idx := at_nat offsets (get_index sel (fetch_offset + idx)) - vector_offset in
    match FindUpdatedTuple current row_idx with
    | Some update_idx => <[result_offset + fetch_offset + idx := at_ (values current) update_idx]> result_data
    | None => result_data
    end) result_data.
End Data.

(** *** The validity column: [MergeValidityInfo] and its range form *)

#[export] Instance validity_type : ColumnType bool :=
  {| type_default := false; type_equals := Bool.eqb; type_less a b := negb a && b;
     type_minimum := false; type_maximum := true |}.

Definition MergeValidityInfo (current : UpdateInfo bool) (result_mask : ValidityMask) : ValidityMask :=
  for_range 0 (N current) (fun i m => SetRow (at_nat (tuples current) i) (at_ (values current) i) m)
    result_mask.

Fixpoint merge_validity_range (n i start end_ result_offset : nat) (current : UpdateInfo bool)
    (result_mask : ValidityMask) : ValidityMask :=
  match n with
  | O => result_mask
  | S n' =>
      let tuple_idx := at_nat (tuples current) i in
      if tuple_idx <? start then merge_validity_range n' (S i) start end_ result_offset current result_mask
      else if end_ <=? tuple_idx then result_mask
      else merge_validity_range n' (S i) start end_ result_offset current
             (SetRow (result_offset + tuple_idx - start) (at_ (values current) i) result_mask)
  end.
Definition MergeUpdateInfoRangeValidity (current : UpdateInfo bool) (start end_ result_offset : nat)
    (result_mask : ValidityMask) : ValidityMask :=
  merge_validity_range (N current) 0 start end_ result_offset current result_mask.

(** The body of the callback of [FetchRowsValidity]. *)
Definition FetchRowsInfoValidity (current : UpdateInfo bool) (offsets : list nat) (sel : SelectionVector)
    (fetch_offset count vector_offset result_offset : nat) (result_mask : ValidityMask) : ValidityMask :=
  for_range 0 count (fun idx m =>
    let row_idx := at_nat offsets (get_index sel (fetch_offset + idx)) - vector_offset in
    match FindUpdatedTuple current row_idx with
    | Some update_idx => SetRow (result_offset + fetch_offset + idx) (at_ (values current) update_idx) m
    | None => m
    end) result_mask.

(** ** The first update of a vector *)

(** [InitializeUpdateData<T>]: the new values into [update_info], the base table's values into
    [base_info] (the transaction's info), with [T()] where the base row is NULL. *)
Definition InitializeUpdateData {T} `{ColumnType T} (base_info : UpdateInfo T) (base_data : FlatVector T)
    (update_info : UpdateInfo T) (update : UnifiedVectorFormat T) (sel : SelectionVector)
    : UpdateInfo T * UpdateInfo T :=
  let tuple_data := map (fun i => at_ (format_data update) (get_index (format_sel update) (get_index sel i)))
                        (seq 0 (N update_info)) in
  let base_tuple_data := map (fun i =>
        let base_idx := at_nat (tuples base_info) i in
        if negb (RowIsValid (flat_validity base_data) base_idx) then type_default
        else at_ (flat_data base_data) base_idx) (seq 0 (N base_info)) in
  (set_data (tuples base_info) base_tuple_data base_info,
   set_data (tuples update_info) tuple_data update_info).

(** [InitializeUpdateValidity] *)
Definition InitializeUpdateValidity (base_info : UpdateInfo bool) (base_mask : ValidityMask)
    (update_info : UpdateInfo bool) (update : UnifiedVectorFormat bool) (sel : SelectionVector)
    : UpdateInfo bool * UpdateInfo bool :=
  let update_mask := format_validity update in
  let tuple_data :=
    if negb (CannotHaveNull update_mask)
    then map (fun i => RowIsValid update_mask (get_index (format_sel update) (get_index sel i)))
             (seq 0 (N update_info))
    else map (fun _ => true) (seq 0 (N update_info)) in
  let base_tuple_data :=
    if negb (CannotHaveNull base_mask)
    then map (fun i => RowIsValid base_mask (at_nat (tuples base_info) i)) (seq 0 (N base_info))
    else map (fun _ => true) (seq 0 (N base_info)) in
  (set_data (tuples base_info) base_tuple_data base_info,
   set_data (tuples update_info) tuple_data update_info).

(** ** Merging a new batch of updates into existing ones *)

(** [MergeLoop]: merges the selected ids of [a] (minus [aoffset]) with the tuples [b]; both are sorted.
    Every turn advances a side, so [acount + bcount] turns are enough. *)
Section MergeLoop.
Context {St : Type} (a : list Z) (b : list nat) (acount bcount : nat) (aoffset : Z).
Context (merge : nat -> nat -> nat -> nat -> St -> St) (pick_a pick_b : nat -> nat -> nat -> St -> St).
Context (asel : SelectionVector).

Fixpoint merge_both (fuel aidx bidx count : nat) (s : St) : nat * nat * nat * St :=
  match fuel with
  | O => (aidx, bidx, count, s)
  | S fuel' =>
      if (aidx <? acount) && (bidx <? bcount) then
        let a_index := get_index asel aidx in
        let a_id := offset_in_vector (rd a a_index) aoffset in
        let b_id := at_nat b bidx in
        if a_id =? b_id then merge_both fuel' (S aidx) (S bidx) (S count) (merge a_id a_index bidx count s)
        else if a_id <? b_id then merge_both fuel' (S aidx) bidx (S count) (pick_a a_id a_index count s)
        else merge_both fuel' aidx (S bidx) (S count) (pick_b b_id bidx count s)
      else (aidx, bidx, count, s)
  end.

Definition MergeLoop (s : St) : nat * St :=
  let '(aidx, bidx, count, s) := merge_both (acount + bcount) 0 0 0 s in
  let '(count, s) := for_range aidx acount (fun aidx '(count, s) =>
    let a_index := get_index asel aidx in
    (S count, pick_a (offset_in_vector (rd a a_index) aoffset) a_index count s)) (count, s) in
  for_range bidx bcount (fun bidx '(count, s) => (S count, pick_b (at_nat b bidx) bidx count s)) (count, s).
End MergeLoop.

(** [MergeUpdateLoopInternal<T, V, OP>]: [base_extract] and [update_extract] are
    [OP::Extract<T, V>] on the base table's data and on the update's data. *)
Section MergeUpdateLoopInternal.
Context {T : Type} `{ColumnType T}.
Context (base_info update_info : UpdateInfo T) (base_extract update_extract : nat -> T).
Context (update_vector_sel : SelectionVector) (ids : list Z) (count : nat) (sel : SelectionVector).
Context (row_group_start : Z) (base_table_validity : option ValidityMask).

Definition base_id : Z :=
  u64 (row_group_start + Z.of_nat (vector_index base_info) * Z.of_nat STANDARD_VECTOR_SIZE).

(** Entry [i] of the transaction's info moves to the result. *)
Definition write_update (i : nat) (res : list (nat * T)) : list (nat * T) :=
  res ++ [(at_nat (tuples update_info) i, at_ (values update_info) i)].

(** [while (update_info_offset < N && update_tuples[update_info_offset] < update_id)] *)
Fixpoint write_smaller (fuel update_id update_info_offset : nat) (res : list (nat * T))
    : nat * list (nat * T) :=
  match fuel with
  | O => (update_info_offset, res)
  | S fuel' =>
      if (update_info_offset <? N update_info) && (at_nat (tuples update_info) update_info_offset <? update_id)
      then write_smaller fuel' update_id (S update_info_offset) (write_update update_info_offset res)
      else (update_info_offset, res)
  end.

(** [while (base_info_offset < N && base_tuples[base_info_offset] < update_id)] *)
Fixpoint skip_smaller (fuel update_id base_info_offset : nat) : nat :=
  match fuel with
  | O => base_info_offset
  | S fuel' =>
      if (base_info_offset <? N base_info) && (at_nat (tuples base_info) base_info_offset <? update_id)
      then skip_smaller fuel' update_id (S base_info_offset)
      else base_info_offset
  end.

(** The value a row had before this update. *)
Definition old_value (base_info_offset update_id : nat) : T :=
  if (base_info_offset <? N base_info) && (at_nat (tuples base_info) base_info_offset =? update_id)
  then at_ (values base_info) base_info_offset
  else match base_table_validity with
       | Some base_table_validity =>
           if negb (RowIsValid base_table_validity update_id) then type_default else base_extract update_id
       | None => base_extract update_id
       end.

(** One turn of the loop that collects the old values: the offsets into the two infos and the
    result arrays. *)
Definition merge_old_step (i : nat) (st : nat * nat * list (nat * T)) : nat * nat * list (nat * T) :=
  let '(update_info_offset, base_info_offset, res) := st in
  let update_id := offset_in_vector (rd ids (get_index sel i)) base_id in
  let '(update_info_offset, res) := write_smaller (N update_info) update_id update_info_offset res in
  if (update_info_offset <? N update_info) && (at_nat (tuples update_info) update_info_offset =? update_id)
  then (S update_info_offset, base_info_offset, write_update update_info_offset res)
  else
    let base_info_offset := skip_smaller (N base_info) update_id base_info_offset in
    (update_info_offset, base_info_offset, res ++ [(update_id, old_value base_info_offset update_id)]).

Definition merge_old : list (nat * T) :=
  let '(update_info_offset, _, res) := for_range 0 count merge_old_step (0, 0, []) in
  for_range update_info_offset (N update_info) write_update res.

Definition merge_new : list (nat * T) :=
  let pick_new (id aidx count : nat) res :=
    res ++ [(id, update_extract (get_index update_vector_sel aidx))] in
  let pick_old (id bidx count : nat) res := res ++ [(id, at_ (values base_info) bidx)] in
  let merge (id aidx bidx count : nat) res := pick_new id aidx count res in
  (MergeLoop ids (tuples base_info) count (N base_info) base_id merge pick_new pick_old sel []).2.

(** Both infos after the merge: [base_info], then [update_info]. *)
Definition MergeUpdateLoopInternal : UpdateInfo T * UpdateInfo T :=
  (set_data (map fst merge_new) (map snd merge_new) base_info,
   set_data (map fst merge_old) (map snd merge_old) update_info).
End MergeUpdateLoopInternal.

Definition MergeUpdateLoop {T} `{ColumnType T} (base_info : UpdateInfo T) (base_data : FlatVector T)
    (update_info : UpdateInfo T) (update : UnifiedVectorFormat T) (ids : list Z) (count : nat)
    (sel : SelectionVector) (row_group_start : Z) : UpdateInfo T * UpdateInfo T :=
  MergeUpdateLoopInternal base_info update_info (at_ (flat_data base_data)) (at_ (format_data update))
    (format_sel update) ids count sel row_group_start (Some (flat_validity base_data)).

Definition MergeValidityLoop (base_info : UpdateInfo bool) (base_validity : ValidityMask)
    (update_info : UpdateInfo bool) (update : UnifiedVectorFormat bool) (ids : list Z) (count : nat)
    (sel : SelectionVector) (row_group_start : Z) : UpdateInfo bool * UpdateInfo bool :=
  MergeUpdateLoopInternal base_info update_info (RowIsValid base_validity)
    (RowIsValid (format_validity update)) (format_sel update) ids count sel row_group_start None.

(** ** Rolling back and conflicts *)

(** [while (base_tuples[base_offset] < id) base_offset++;]: every id of an info is in the root. *)
Fixpoint scan_base (fuel : nat) (base_tuples : list nat) (id base_offset : nat) : nat :=
  match fuel with
  | O => base_offset
  | S fuel' => if at_nat base_tuples base_offset <? id
               then scan_base fuel' base_tuples id (S base_offset) else base_offset
  end.

(** The template [RollbackUpdate<T>]. *)
Definition RollbackInfo {T} `{ColumnType T} (base_info rollback_info : UpdateInfo T) : UpdateInfo T :=
  let '(_, base_data) := for_range 0 (N rollback_info) (fun i '(base_offset, base_data) =>
    let id := at_nat (tuples rollback_info) i in
    let base_offset := scan_base (N base_info) (tuples base_info) id base_offset in
    (base_offset, <[base_offset := at_ (values rollback_info) i]> base_data)) (0, values base_info) in
  set_data (tuples base_info) base_data base_info.

(** The merge join of [CheckForConflicts] on one info: does a selected id occur in it? Every turn
    advances a side. *)
Fixpoint join_conflicts (fuel : nat) (ids : list Z) (sel : SelectionVector) (count : nat) (offset : Z)
    (tuples : list nat) (i j : nat) : bool :=
  match fuel with
  | O => false
  | S fuel' =>
      let id := (rd ids (get_index sel i) - offset)%Z in
      let tuple := Z.of_nat (at_nat tuples j) in
      if (id =? tuple)%Z then true
      else if (id <? tuple)%Z
           then if S i =? count then false else join_conflicts fuel' ids sel count offset tuples (S i) j
           else if S j =? length tuples then false
                else join_conflicts fuel' ids sel count offset tuples i (S j)
  end.
End WithVectorSize.
