(* ===== verification/UpdateSegment.v ===== *)
(** * The update segment of a column

    Models the operations of [UpdateSegment] ([storage/table/update_segment.hpp/.cpp]) on an explicit
    memory of update infos, with [DuckTransaction::CreateUpdateInfo] and the update cases of
    [transaction/commit_state.cpp], [transaction/rollback_state.cpp] and
    [transaction/cleanup_state.cpp]. Every vector of the column has a root info with the newest values;
    behind it, a doubly linked chain of infos keeps the values each transaction wrote over. *)

From S2P Require Import Prelude Snapshot ValidityMask UpdateInfo.
From Stdlib Require Import Sorted.

Local Open Scope nat_scope.

(** ** Statistics of the updated values (storage/statistics/numeric_stats.hpp, base_statistics.hpp) *)

Record SegmentStatistics (T : Type) := mkStats {
  has_null : bool;
  has_no_null : bool;
  stat_min : T;
  stat_max : T
}.
Arguments mkStats {T}. Arguments has_null {T}. Arguments has_no_null {T}.
Arguments stat_min {T}. Arguments stat_max {T}.

Section Statistics.
Context {T : Type} `{ColumnType T}.

(** [BaseStatistics::CreateEmpty] *)
Definition empty_stats : SegmentStatistics T := mkStats false false type_maximum type_minimum.

Definition SetHasNullFast (s : SegmentStatistics T) : SegmentStatistics T :=
  mkStats true (has_no_null s) (stat_min s) (stat_max s).
Definition SetHasNoNullFast (s : SegmentStatistics T) : SegmentStatistics T :=
  mkStats (has_null s) true (stat_min s) (stat_max s).

(** [NumericStats::UpdateValue] of an integral type. *)
Definition UpdateNumericStats (new_value : T) (s : SegmentStatistics T) : SegmentStatistics T :=
  mkStats (has_null s) (has_no_null s)
    (if type_less new_value (stat_min s) then new_value else stat_min s)
    (if type_less (stat_max s) new_value then new_value else stat_max s).

(** Updates the statistics, and selects the updates that are not NULL. *)
Definition TemplatedUpdateNumericStatistics (stats : SegmentStatistics T) (update : UnifiedVectorFormat T)
    (count : nat) : SegmentStatistics T * nat * SelectionVector :=
  let mask := format_validity update in
  if CannotHaveNull mask then
    (for_range 0 count (fun i stats =>
       UpdateNumericStats (at_ (format_data update) (get_index (format_sel update) i)) stats)
       (SetHasNoNullFast stats), count, None)
  else
    let '(stats, sel) := for_range 0 count (fun i '(stats, sel) =>
      let idx := get_index (format_sel update) i in
      if RowIsValid mask idx
      then (UpdateNumericStats (at_ (format_data update) idx) (SetHasNoNullFast stats), sel ++ [i])
      else (SetHasNullFast stats, sel)) (stats, []) in
    (stats, length sel, Some sel).

(** [TemplatedGetEffectiveUpdates]: drops the updates that write the value the base row has. *)
Definition TemplatedGetEffectiveUpdates (update : UnifiedVectorFormat T) (ids : list Z) (count : nat)
    (sel : SelectionVector) (base_data : FlatVector T) (id_offset : Z) : nat * SelectionVector :=
  let new_sel := for_range 0 count (fun i new_sel =>
    let sel_idx := get_index sel i in
    let update_idx := get_index (format_sel update) sel_idx in
    let original_idx := offset_in_vector (rd ids sel_idx) id_offset in
    if RowIsValid (flat_validity base_data) original_idx &&
       type_equals (at_ (format_data update) update_idx) (at_ (flat_data base_data) original_idx)
    then new_sel else new_sel ++ [sel_idx]) [] in
  (length new_sel, Some new_sel).
End Statistics.

Definition UpdateValidityStatistics (stats : SegmentStatistics bool) (update : UnifiedVectorFormat bool)
    (count : nat) : SegmentStatistics bool * nat * SelectionVector :=
  let mask := format_validity update in
  let stats :=
    if negb (CannotHaveNull mask) && negb (has_null stats)
    then if existsb (fun i => negb (RowIsValid mask (get_index (format_sel update) i))) (seq 0 count)
         then SetHasNullFast stats else stats
    else stats in
  let stats := if negb (has_no_null stats) && negb (CheckAllInvalid mask count)
               then SetHasNoNullFast stats else stats in
  (stats, count, None).

Definition GetEffectiveUpdatesValidity (update : UnifiedVectorFormat bool) (ids : list Z) (count : nat)
    (sel : SelectionVector) (base_validity : ValidityMask) (id_offset : Z) : nat * SelectionVector :=
  let new_sel := for_range 0 count (fun i new_sel =>
    let sel_idx := get_index sel i in
    let update_idx := get_index (format_sel update) sel_idx in
    let original_idx := offset_in_vector (rd ids sel_idx) id_offset in
    if Bool.eqb (RowIsValid base_validity original_idx) (RowIsValid (format_validity update) update_idx)
    then new_sel else new_sel ++ [sel_idx]) [] in
  (length new_sel, Some new_sel).

(** ** The functions an update segment selects by the physical type of its column

    [Vec] is what a vector of the column holds: data and validity for a data column, a validity mask
    for the validity column. *)
Class SegmentFunctions (T Vec : Type) `{VectorSize} := {
  fetch_info : UpdateInfo T -> Vec -> Vec;
  fetch_info_range : UpdateInfo T -> nat -> nat -> nat -> Vec -> Vec;
  fetch_info_rows : UpdateInfo T -> list nat -> SelectionVector -> nat -> nat -> nat -> nat -> Vec -> Vec;
  initialize_update_function :
    UpdateInfo T -> Vec -> UpdateInfo T -> UnifiedVectorFormat T -> SelectionVector -> UpdateInfo T * UpdateInfo T;
  merge_update_function :
    UpdateInfo T -> Vec -> UpdateInfo T -> UnifiedVectorFormat T -> list Z -> nat -> SelectionVector -> Z ->
    UpdateInfo T * UpdateInfo T;
  rollback_update_function : UpdateInfo T -> UpdateInfo T -> UpdateInfo T;
  statistics_update_function :
    SegmentStatistics T -> UnifiedVectorFormat T -> nat -> SegmentStatistics T * nat * SelectionVector;
  get_effective_updates :
    UnifiedVectorFormat T -> list Z -> nat -> SelectionVector -> Vec -> Z -> nat * SelectionVector
}.

Section Instances.
Context {VS : VectorSize}.

Definition on_data {T} (f : list T -> list T) (v : FlatVector T) : FlatVector T :=
  mkFlat (f (flat_data v)) (flat_validity v).

#[export] Instance data_functions {T} `{ColumnType T} : SegmentFunctions T (FlatVector T) := {|
  fetch_info info := on_data (MergeUpdateInfo info);
  fetch_info_range info start end_ offset := on_data (MergeUpdateInfoRange info start end_ offset);
  fetch_info_rows info offsets sel fetch_offset count vector_offset result_offset :=
    on_data (FetchRowsInfo info offsets sel fetch_offset count vector_offset result_offset);
  initialize_update_function := InitializeUpdateData;
  merge_update_function := MergeUpdateLoop;
  rollback_update_function := RollbackInfo;
  statistics_update_function := TemplatedUpdateNumericStatistics;
  get_effective_updates := TemplatedGetEffectiveUpdates
|}.

#[export] Instance validity_functions : SegmentFunctions bool ValidityMask := {|
  fetch_info := MergeValidityInfo;
  fetch_info_range := MergeUpdateInfoRangeValidity;
  fetch_info_rows := FetchRowsInfoValidity;
  initialize_update_function := InitializeUpdateValidity;
  merge_update_function := MergeValidityLoop;
  rollback_update_function := RollbackInfo;
  statistics_update_function := UpdateValidityStatistics;
  get_effective_updates := GetEffectiveUpdatesValidity
|}.
End Instances.

(** ** [std::sort] with a comparison of keys: any sorted permutation of the input *)
Class StdSort := { std_sort : (nat -> nat -> bool) -> list nat -> list nat }.

Class StdSortSpec `{StdSort} : Prop := {
  std_sort_perm less l : std_sort less l ≡ₚ l;
  std_sort_sorted (key : nat -> Z) l :
    StronglySorted (fun i j => (key i <= key j)%Z) (std_sort (fun i j => (key i <? key j)%Z) l)
}.

(** ** The segment and the memory of its update infos *)

Record UpdateSegment (T : Type) := mkSegment {
  infos : gmap positive (UpdateInfo T);
  next_entry : positive;
  undo_entries : gmap Z (list positive);
  root : option (list UndoBufferPointer);
  stats : SegmentStatistics T
}.
Arguments mkSegment {T}. Arguments infos {T}. Arguments next_entry {T}. Arguments undo_entries {T}.
Arguments root {T}. Arguments stats {T}.

(** What a write of a segment did: its outcome and the state it left; [None] is a dangling pointer. *)
Abbreviation outcome T := (option (result unit * UpdateSegment T)).

Section Memory.
Context {T : Type}.
Implicit Types seg : UpdateSegment T.

Definition update_infos (f : gmap positive (UpdateInfo T) -> gmap positive (UpdateInfo T)) seg :=
  mkSegment (f (infos seg)) (next_entry seg) (undo_entries seg) (root seg) (stats seg).
Definition store (p : positive) (info : UpdateInfo T) seg := update_infos <[p := info]> seg.
Definition modify (p : positive) (f : UpdateInfo T -> UpdateInfo T) seg := update_infos (alter f p) seg.
Definition set_stats (s : SegmentStatistics T) seg :=
  mkSegment (infos seg) (next_entry seg) (undo_entries seg) (root seg) s.
Definition set_root (r : option (list UndoBufferPointer)) seg :=
  mkSegment (infos seg) (next_entry seg) (undo_entries seg) r (stats seg).

(** An allocator hands out a new entry ([root->allocator] or the undo buffer of a transaction). *)
Definition Allocate (info : UpdateInfo T) seg : positive * UpdateSegment T :=
  (next_entry seg,
   mkSegment (<[next_entry seg := info]> (infos seg)) (Pos.succ (next_entry seg))
     (undo_entries seg) (root seg) (stats seg)).

Definition push_undo (tid : Z) (p : positive) seg : UpdateSegment T :=
  mkSegment (infos seg) (next_entry seg)
    (<[tid := default [] (undo_entries seg !! tid) ++ [p]]> (undo_entries seg)) (root seg) (stats seg).

Definition initial_segment `{ColumnType T} : UpdateSegment T := mkSegment ∅ 1%positive ∅ None empty_stats.

(** [UpdateNode]'s vector of root pointers: [root->info[vector_index] = p]. *)
Definition set_root_info (vector_index : nat) (p : UndoBufferPointer) seg : UpdateSegment T :=
  set_root (<[vector_index := p]> <$> root seg) seg.

Definition GetUpdateNode (vector_idx : nat) seg : UndoBufferPointer :=
  match root seg with
  | None => None
  | Some info => mjoin (info !! vector_idx)
  end.

(** [InitializeUpdateInfo(vector_idx)]: creates the root and extends it to [vector_idx]. *)
Definition InitializeRoot (vector_idx : nat) seg : UpdateSegment T :=
  let info := default [] (root seg) in
  if vector_idx <? length info then set_root (Some info) seg
  else set_root (Some (info ++ replicate (S vector_idx - length info) None)) seg.

Definition HasUpdates seg : bool := bool_decide (is_Some (root seg)).
Definition HasUpdatesVector (vector_index : nat) seg : bool :=
  bool_decide (is_Some (GetUpdateNode vector_index seg)).
Definition HasUncommittedUpdates (vector_index : nat) seg : bool :=
  match GetUpdateNode vector_index seg with
  | None => false
  | Some p => match infos seg !! p with Some info => HasNext info | None => false end
  end.
(** [HasUpdates(start_row_index, end_row_index)] *)
Definition HasUpdatesRange `{VectorSize} (start_row_index end_row_index : nat) seg : bool :=
  match root seg with
  | None => false
  | Some _ =>
      let base_vector_index := start_row_index / STANDARD_VECTOR_SIZE in
      let end_vector_index := end_row_index / STANDARD_VECTOR_SIZE in
      existsb (fun i => bool_decide (is_Some (GetUpdateNode i seg)))
        (seq base_vector_index (S end_vector_index - base_vector_index))
  end.
End Memory.

(** ** Reading *)

Section Reading.
Context {T Vec : Type} `{SegmentFunctions T Vec}.
Implicit Types seg : UpdateSegment T.

(** The walk of [UpdatesForTransaction] behind the current info; a chain does not repeat an info, so
    one turn per info in memory is enough. *)
Fixpoint updates_loop {A} (fuel : nat) seg (view : SnapshotView) (callback : UpdateInfo T -> A -> A)
    (update_ptr : UndoBufferPointer) (acc : A) : option A :=
  match update_ptr with
  | None => Some acc
  | Some p =>
      match fuel with
      | O => None
      | S fuel' =>
          info ← infos seg !! p;
          updates_loop fuel' seg view callback (next info)
            (if AppliesToTransaction view info then callback info acc else acc)
      end
  end.

Definition UpdatesForTransaction {A} seg (current : UpdateInfo T) (view : SnapshotView)
    (callback : UpdateInfo T -> A -> A) (acc : A) : option A :=
  updates_loop (size (infos seg)) seg view callback (next current)
    (if AppliesToTransaction view current then callback current acc else acc).

Definition FetchUpdates (view : SnapshotView) (vector_index : nat) seg (result : Vec) : option Vec :=
  match GetUpdateNode vector_index seg with
  | None => Some result
  | Some p => info ← infos seg !! p; UpdatesForTransaction seg info view fetch_info result
  end.

Definition FetchCommitted (vector_index : nat) seg (result : Vec) : option Vec :=
  match GetUpdateNode vector_index seg with
  | None => Some result
  | Some p => info ← infos seg !! p; Some (fetch_info info result)
  end.

Definition FetchCommittedRange (start_row count : nat) seg (result : Vec) : option Vec :=
  match root seg with
  | None => Some result
  | Some _ =>
      let end_row := start_row + count in
      let start_vector := start_row / STANDARD_VECTOR_SIZE in
      let end_vector := (end_row - 1) / STANDARD_VECTOR_SIZE in
      for_range start_vector (S end_vector) (fun vector_idx result =>
        result ← result;
        match GetUpdateNode vector_idx seg with
        | None => Some result
        | Some p =>
            info ← infos seg !! p;
            let start_in_vector :=
              if vector_idx =? start_vector then start_row - start_vector * STANDARD_VECTOR_SIZE else 0 in
            let end_in_vector :=
              if vector_idx =? end_vector then end_row - end_vector * STANDARD_VECTOR_SIZE
              else STANDARD_VECTOR_SIZE in
            let result_offset := vector_idx * STANDARD_VECTOR_SIZE + start_in_vector - start_row in
            Some (fetch_info_range info start_in_vector end_in_vector result_offset result)
        end) (Some result)
  end.

Definition out_of_range : exception := InternalException "UpdateSegment::FetchRows out of range".

(** The inner loop of [FetchRows]: how many rows from [idx] on lie in the vector of row [idx]. *)
Fixpoint vector_run (n : nat) (offsets : list nat) (sel : SelectionVector)
    (column_count vector_index idx vector_count : nat) : Prelude.result nat :=
  match n with
  | O => Ok vector_count
  | S n' =>
      let next_offset := at_nat offsets (get_index sel (idx + vector_count)) in
      if column_count <? next_offset then Throw out_of_range
      else if negb (next_offset / STANDARD_VECTOR_SIZE =? vector_index) then Ok vector_count
      else vector_run n' offsets sel column_count vector_index idx (S vector_count)
  end.

Fixpoint fetch_rows_loop (fuel : nat) (view : SnapshotView) (offsets : list nat) (sel : SelectionVector)
    (fetch_count column_count : nat) seg (result_offset idx : nat) (result : Vec)
    : option (Prelude.result Vec) :=
  match fuel with
  | O => Some (Ok result)
  | S fuel' =>
      if fetch_count <=? idx then Some (Ok result)
      else
        let offset := at_nat offsets (get_index sel idx) in
        if column_count <? offset then Some (Throw out_of_range)
        else
          let vector_index := offset / STANDARD_VECTOR_SIZE in
          let vector_offset := vector_index * STANDARD_VECTOR_SIZE in
          match vector_run (fetch_count - idx - 1) offsets sel column_count vector_index idx 1 with
          | Throw e => Some (Throw e)
          | Ok vector_count =>
              result ← match GetUpdateNode vector_index seg with
                       | None => Some result
                       | Some p =>
                           info ← infos seg !! p;
                           UpdatesForTransaction seg info view (fun current =>
                             fetch_info_rows current offsets sel idx vector_count vector_offset result_offset)
                             result
                       end;
              fetch_rows_loop fuel' view offsets sel fetch_count column_count seg result_offset
                (idx + vector_count) result
          end
  end.

Definition FetchRows (view : SnapshotView) (offsets : list nat) (sel : SelectionVector)
    (fetch_count column_count : nat) seg (result : Vec) (result_offset : nat)
    : option (Prelude.result Vec) :=
  if (fetch_count =? 0) || negb (HasUpdates seg) then Some (Ok result)
  else fetch_rows_loop fetch_count view offsets sel fetch_count column_count seg result_offset 0 result.
End Reading.

(** ** Unlinking, rolling back, committing *)

Section Unlinking.
Context {T Vec : Type} `{SegmentFunctions T Vec}.
Implicit Types seg : UpdateSegment T.

(** Both neighbours are pinned before either is changed. *)
Definition CleanupUpdateInternal (p : positive) seg : option (UpdateSegment T) :=
  info ← infos seg !! p;
  seg ← match prev info with
        | Some q => _ ← infos seg !! q; Some (modify q (set_next (next info)) seg)
        | None => Some seg
        end;
  match next info with
  | Some q => _ ← infos seg !! q; Some (modify q (set_prev (prev info)) seg)
  | None => Some seg
  end.

Definition CleanupUpdate : positive -> UpdateSegment T -> option (UpdateSegment T) := CleanupUpdateInternal.

Definition RollbackUpdate (p : positive) seg : option (UpdateSegment T) :=
  info ← infos seg !! p;
  if negb (HasPrev info) then Some seg
  else match GetUpdateNode (vector_index info) seg with
       | None => Some seg
       | Some r =>
           base_info ← infos seg !! r;
           CleanupUpdateInternal p (store r (rollback_update_function base_info info) seg)
       end.

(** [info->version_number = commit_id] of the update cases of [CommitEntry] and [RevertCommit]. *)
Definition CommitUpdate (commit_id : Z) (p : positive) seg : UpdateSegment T :=
  modify p (set_version commit_id) seg.

(** The undo buffer of a transaction: [Commit] and [Cleanup] visit the entries in the order they were
    created, [RevertCommit] and [Rollback] in reverse. *)
Definition undo_of (tid : Z) seg : list positive := default [] (undo_entries seg !! tid).

Definition CommitUpdates (tid commit_id : Z) seg : UpdateSegment T :=
  foldl (fun seg p => CommitUpdate commit_id p seg) seg (undo_of tid seg).
Definition RevertCommitUpdates (tid : Z) seg : UpdateSegment T :=
  foldl (fun seg p => CommitUpdate tid p seg) seg (rev (undo_of tid seg)).
Definition RollbackUpdates (tid : Z) seg : option (UpdateSegment T) :=
  foldl (fun r p => r ≫= RollbackUpdate p) (Some seg) (rev (undo_of tid seg)).
Definition CleanupUpdates (tid : Z) seg : option (UpdateSegment T) :=
  foldl (fun r p => r ≫= CleanupUpdate p) (Some seg) (undo_of tid seg).
End Unlinking.

(** ** Updating *)

(** [SortSelectionVector]: sorted by row id and without duplicates. *)
Definition ids_sorted (ids : list Z) (sel : SelectionVector) (count : nat) : bool :=
  forallb (fun i => negb (rd ids (get_index sel i) <=? rd ids (get_index sel (i - 1)))%Z) (seq 1 (count - 1)).

Definition SortSelectionVector `{StdSort} (sel : SelectionVector) (count : nat) (ids : list Z)
    : nat * SelectionVector :=
  if ids_sorted ids sel count then (count, sel)
  else
    let sorted_sel := std_sort (fun l r => (rd ids l <? rd ids r)%Z) (map (get_index sel) (seq 0 count)) in
    let '(pos, sorted_sel) := for_range 1 count (fun i '(pos, sorted_sel) =>
      let prev_idx := at_nat sorted_sel (i - 1) in
      let idx := at_nat sorted_sel i in
      if negb (rd ids prev_idx =? rd ids idx)%Z then (S pos, <[pos := idx]> sorted_sel)
      else (pos, sorted_sel)) (1, sorted_sel) in
    (pos, Some sorted_sel).

Definition conflict_on_update : exception := TransactionException "Conflict on update!".
Definition pointer_not_set : exception :=
  InternalException "Attempting to dereference an optional pointer that is not set".

Section Updating.
Context {T Vec : Type} `{SegmentFunctions T Vec} `{StdSort}.
Implicit Types seg : UpdateSegment T.

(** Walks the chain; the result is the info of this transaction, if there is one. *)
Fixpoint CheckForConflicts (fuel : nat) (next_ptr : UndoBufferPointer) (view : SnapshotView) (ids : list Z)
    (sel : SelectionVector) (count : nat) (offset : Z) seg (node_ref : UndoBufferPointer)
    : option (result UndoBufferPointer) :=
  match next_ptr with
  | None => Some (Ok node_ref)
  | Some p =>
      match fuel with
      | O => None
      | S fuel' =>
          info ← infos seg !! p;
          if (version_number info =? transaction_id view)%Z
          then CheckForConflicts fuel' (next info) view ids sel count offset seg (Some p)
          else if version_number info >=?b visibility_bound view
          then if join_conflicts (count + N info) ids sel count offset (tuples info) 0 0
               then Some (Throw conflict_on_update)
               else CheckForConflicts fuel' (next info) view ids sel count offset seg node_ref
          else CheckForConflicts fuel' (next info) view ids sel count offset seg node_ref
      end
  end.

(** [DuckTransaction::CreateUpdateInfo]: an entry of the undo buffer with room for a whole vector. *)
Definition CreateUpdateInfo (transaction_id row_group_start : Z) seg : positive * UpdateSegment T :=
  let '(p, seg) := Allocate (Initialize transaction_id row_group_start STANDARD_VECTOR_SIZE) seg in
  (p, push_undo transaction_id p seg).

(** [CreateEmptyUpdateInfo]: a temporary info, for writes without a transaction. *)
Definition CreateEmptyUpdateInfo (transaction_id row_group_start : Z) : UpdateInfo T :=
  Initialize transaction_id row_group_start STANDARD_VECTOR_SIZE.

(** Copies the root info into a larger allocation when [update_count] more tuples may not fit. *)
Definition ReallocateRootInfoIfNeeded (p : positive) (current_info : UpdateInfo T)
    (update_count vector_index : nat) seg : result (UpdateSegment T) :=
  let required_capacity := Nat.min (N current_info + update_count) STANDARD_VECTOR_SIZE in
  if required_capacity <=? max current_info then Ok seg
  else
    new_capacity ← GetCompactCapacity required_capacity;
    let new_info := mkInfo (column_index current_info) (row_group_start current_info)
      (version_number current_info) (UpdateInfo.vector_index current_info) new_capacity
      (tuples current_info) (values current_info) (prev current_info) (next current_info) in
    let '(q, seg) := Allocate new_info seg in
    let seg := match next current_info with
               | Some n => modify n (set_prev (Some q)) seg
               | None => seg
               end in
    Ok (set_root_info vector_index (Some q) seg).

(** The update of a vector that has a root info: conflicts, then the info of this transaction (its
    own one, or a new one linked behind the root), then the merge. *)
Definition update_existing (has_transaction : bool) (view : SnapshotView) (column_index : nat)
    (update : UnifiedVectorFormat T) (ids : list Z) (count : nat) (sel : SelectionVector) (base_data : Vec)
    (row_group_start : Z) (vector_index : nat) (vector_offset : Z) (root_pointer : positive) seg
    : outcome T :=
  root_info ← infos seg !! root_pointer;
  conflicts ← CheckForConflicts (size (infos seg)) (next root_info) view ids sel count vector_offset seg None;
  match conflicts with
  | Throw e => Some (Throw e, seg)
  | Ok node_ref =>
      match ReallocateRootInfoIfNeeded root_pointer root_info count vector_index seg with
      | Throw e => Some (Throw e, seg)
      | Ok seg =>
          root_pointer ← GetUpdateNode vector_index seg;
          base_info ← infos seg !! root_pointer;
          match node_ref with
          | Some p =>
              node ← infos seg !! p;
              let '(base_info, node) := merge_update_function base_info base_data node update ids count sel
                                          row_group_start in
              Some (Ok tt, store p node (store root_pointer base_info seg))
          | None =>
              if has_transaction then
                let '(p, seg) := CreateUpdateInfo (transaction_id view) row_group_start seg in
                node ← infos seg !! p;
                let node := set_column column_index (set_data [] [] (set_vector vector_index node)) in
                let node := set_prev (Some root_pointer) (set_next (next base_info) node) in
                seg ← match next base_info with
                      | Some n => _ ← infos seg !! n; Some (modify n (set_prev (Some p)) seg)
                      | None => Some seg
                      end;
                let base_info := set_next (Some p) base_info in
                let '(base_info, node) := merge_update_function base_info base_data node update ids count sel
                                            row_group_start in
                Some (Ok tt, store p node (store root_pointer base_info seg))
              else match next base_info with
              | Some _ => Some (Throw pointer_not_set, seg)
              | None =>
                  let node := set_column column_index (set_data [] [] (set_vector vector_index
                                (CreateEmptyUpdateInfo (transaction_id view) row_group_start))) in
                  let node := set_prev (Some root_pointer) node in
                  let '(base_info, _) := merge_update_function base_info base_data node update ids count sel
                                           row_group_start in
                  Some (Ok tt, store root_pointer (set_next None base_info) seg)
              end
          end
      end
  end.

(** The first update of a vector: the root info with the new values, and the transaction's info with
    the values of the base table. *)
Definition update_first (has_transaction : bool) (view : SnapshotView) (column_index : nat)
    (update : UnifiedVectorFormat T) (ids : list Z) (count : nat) (sel : SelectionVector) (base_data : Vec)
    (row_group_start : Z) (vector_index : nat) (vector_offset : Z) seg : outcome T :=
  match GetCompactCapacity count with
  | Throw e => Some (Throw e, seg)
  | Ok compact_capacity =>
      let '(handle, seg) := Allocate (Initialize MAX_COMMIT_ID row_group_start compact_capacity) seg in
      let update_info := set_column column_index (Initialize MAX_COMMIT_ID row_group_start compact_capacity) in
      match InitializeUpdateInfo update_info ids sel count vector_index vector_offset with
      | Throw e => Some (Throw e, seg)
      | Ok update_info =>
          let '(node_ref, seg) :=
            if has_transaction
            then let '(p, seg) := CreateUpdateInfo (transaction_id view) row_group_start seg in (Some p, seg)
            else (None, seg) in
          match InitializeUpdateInfo (CreateEmptyUpdateInfo (transaction_id view) row_group_start)
                  ids sel count vector_index vector_offset with
          | Throw e => Some (Throw e, seg)
          | Ok transaction_node =>
              let '(transaction_node, update_info) :=
                initialize_update_function transaction_node base_data update_info update sel in
              let update_info := set_prev None (set_next node_ref update_info) in
              let transaction_node :=
                set_column column_index (set_prev (Some handle) (set_next None transaction_node)) in
              let seg := store handle update_info seg in
              let seg := match node_ref with Some p => store p transaction_node seg | None => seg end in
              Some (Ok tt, set_root_info vector_index (Some handle) seg)
          end
      end
  end.

Definition Update (has_transaction : bool) (view : SnapshotView) (column_index : nat)
    (update : UnifiedVectorFormat T) (ids : list Z) (count : nat) (base_data : Vec) (row_group_start : Z) seg
    : outcome T :=
  let '(new_stats, count, sel) := statistics_update_function (stats seg) update count in
  let seg := set_stats new_stats seg in
  if count =? 0 then Some (Ok tt, seg)
  else
    let '(count, sel) := SortSelectionVector sel count ids in
    let first_id := rd ids (get_index sel 0) in
    let vector_index := offset_in_vector first_id row_group_start / STANDARD_VECTOR_SIZE in
    let vector_offset := u64 (row_group_start + Z.of_nat vector_index * Z.of_nat STANDARD_VECTOR_SIZE) in
    let is_set := bool_decide (is_Some (GetUpdateNode vector_index seg)) in
    let '(count, sel) :=
      if is_set then (count, sel)
      else get_effective_updates update ids count sel base_data vector_offset in
    if count =? 0 then Some (Ok tt, seg)
    else
      let seg := InitializeRoot vector_index seg in
      match GetUpdateNode vector_index seg with
      | Some root_pointer =>
          update_existing has_transaction view column_index update ids count sel base_data row_group_start
            vector_index vector_offset root_pointer seg
      | None =>
          update_first has_transaction view column_index update ids count sel base_data row_group_start
            vector_index vector_offset seg
      end.
End Updating.
