(* ===== verification/UpdateInfoFacts.v ===== *)
(** * Facts about single update infos

    An info is a finite map from rows to values ([info_map]) kept as two sorted arrays. Fetching
    overlays the map on a vector, a merge is a union of maps, the binary search and the merge join
    decide membership. *)

From S2P Require Import Prelude Snapshot ValidityMask UpdateInfo.
From Stdlib Require Import Sorted.

Local Open Scope nat_scope.

(** ** Counted loops over lists *)

Lemma for_range_foldl {A St} (l : list A) (body : nat -> St -> St) (f : St -> A -> St) (s : St) :
  (forall i x s, l !! i = Some x -> body i s = f s x) ->
  for_range 0 (length l) body s = foldl f s l.
Proof.
  induction l as [|x l IH] using rev_ind; intros Hf; [done|].
  rewrite length_app, Nat.add_1_r, for_range_S_r, foldl_app by lia. cbn.
  rewrite IH; [|intros i y s' Hi; apply Hf, lookup_app_l_Some, Hi].
  apply Hf. by rewrite lookup_app_r, Nat.sub_diag by lia.
Qed.

Lemma for_range_shift {St} a b (body : nat -> St -> St) s :
  for_range a b body s = for_range 0 (b - a) (fun i => body (a + i)) s.
Proof.
  unfold for_range. rewrite Nat.sub_0_r. remember (b - a) as n. clear Heqn b.
  assert (forall k, for_loop n (a + k) body s = for_loop n k (fun i => body (a + i)) s) as E.
  { revert s. induction n as [|n IH]; intros s k; [done|]. cbn. rewrite <- IH. f_equal. lia. }
  by rewrite <- (E 0), Nat.add_0_r.
Qed.

Lemma for_range_ext {St} a b (f g : nat -> St -> St) s :
  (forall i s, a <= i < b -> f i s = g i s) -> for_range a b f s = for_range a b g s.
Proof.
  intros E. destruct (Nat.le_gt_cases a b) as [Hab|]; [|by rewrite !for_range_ge by lia].
  revert Hab E. induction b as [|b IH]; intros Hab E; [by rewrite !for_range_ge by lia|].
  destruct (Nat.eq_dec a (S b)) as [->|]; [by rewrite !for_range_ge by lia|].
  rewrite !for_range_S_r, IH by (try intros; try apply E; lia). apply E. lia.
Qed.

(** ** Sorted association lists *)

Section Keyed.
Context {T : Type}.
Implicit Types l us bs : list (nat * T).

Definition sorted_keys l : Prop := StronglySorted lt l.*1.
Definition kmap l : gmap nat T := list_to_map l.

Lemma sorted_keys_nodup l : sorted_keys l -> NoDup l.*1.
Proof.
  unfold sorted_keys. induction (l.*1) as [|k ks IH]; intros Hs; [constructor|].
  apply StronglySorted_inv in Hs as [Hs Hf]. constructor; [|by apply IH].
  intros Hin. rewrite Forall_forall in Hf. specialize (Hf k Hin). lia.
Qed.

Lemma kmap_elem l k x : sorted_keys l -> kmap l !! k = Some x <-> (k, x) ∈ l.
Proof. intros Hs. symmetry. apply elem_of_list_to_map, sorted_keys_nodup, Hs. Qed.

Lemma kmap_none l k : kmap l !! k = None <-> k ∉ l.*1.
Proof. symmetry. apply not_elem_of_list_to_map. Qed.

Lemma kmap_is_some l k : is_Some (kmap l !! k) <-> k ∈ l.*1.
Proof.
  rewrite <- not_eq_None_Some, kmap_none. split; [|tauto].
  intros Hn. by destruct (decide (k ∈ l.*1)).
Qed.

Lemma kmap_app l l' : kmap (l ++ l') = kmap l ∪ kmap l'.
Proof. apply list_to_map_app. Qed.

Lemma kmap_cons k x l : kmap ((k, x) :: l) = <[k := x]> (kmap l).
Proof. done. Qed.

Lemma sorted_keys_cons k x l :
  sorted_keys ((k, x) :: l) <-> sorted_keys l /\ forall j, j ∈ l.*1 -> k < j.
Proof.
  unfold sorted_keys. cbn. split.
  - intros [Hs Hf]%StronglySorted_inv. by rewrite Forall_forall in Hf.
  - intros [Hs Hf]. constructor; [done|]. by apply Forall_forall.
Qed.

Lemma kmap_below k x l j : sorted_keys ((k, x) :: l) -> j <= k -> kmap l !! j = None.
Proof.
  intros [_ Hl]%sorted_keys_cons Hj. apply kmap_none. intros Hin. specialize (Hl j Hin). lia.
Qed.

(** The reference merge: the entries of both lists in key order, of equal keys the left one. *)
Fixpoint merge_ref us : list (nat * T) -> list (nat * T) :=
  fix go bs :=
    match us, bs with
    | [], _ => bs
    | _, [] => us
    | (i, x) :: us', (j, y) :: bs' =>
        if i =? j then (i, x) :: merge_ref us' bs'
        else if i <? j then (i, x) :: merge_ref us' bs
        else (j, y) :: go bs'
    end.

Lemma merge_ref_nil_r us : merge_ref us [] = us.
Proof. by destruct us as [|[]]. Qed.
Lemma merge_ref_nil_l bs : merge_ref [] bs = bs.
Proof. by destruct bs. Qed.

Lemma merge_ref_cons i x us j y bs :
  merge_ref ((i, x) :: us) ((j, y) :: bs) =
  if i =? j then (i, x) :: merge_ref us bs
  else if i <? j then (i, x) :: merge_ref us ((j, y) :: bs)
  else (j, y) :: merge_ref ((i, x) :: us) bs.
Proof. done. Qed.

Lemma merge_ref_keys us bs k : k ∈ (merge_ref us bs).*1 <-> k ∈ us.*1 \/ k ∈ bs.*1.
Proof.
  revert bs. induction us as [|[i x] us IHu]; intros bs.
  { rewrite merge_ref_nil_l. cbn. rewrite elem_of_nil. tauto. }
  induction bs as [|[j y] bs IHb].
  { rewrite merge_ref_nil_r. cbn. rewrite elem_of_nil. tauto. }
  rewrite merge_ref_cons. destruct (Nat.eqb_spec i j) as [->|]; [|destruct (i <? j)];
    cbn [fmap list_fmap fst] in *; rewrite !elem_of_cons.
  - rewrite IHu. tauto.
  - rewrite IHu. cbn. rewrite !elem_of_cons. tauto.
  - rewrite IHb, elem_of_cons. tauto.
Qed.

Lemma merge_ref_sorted us bs : sorted_keys us -> sorted_keys bs -> sorted_keys (merge_ref us bs).
Proof.
  revert bs. induction us as [|[i x] us IHu]; intros bs Hu Hb.
  { by rewrite merge_ref_nil_l. }
  induction bs as [|[j y] bs IHb]; [by rewrite merge_ref_nil_r|].
  rewrite merge_ref_cons. pose proof Hu as [Hu' Hiu]%sorted_keys_cons. pose proof Hb as [Hb' Hjb]%sorted_keys_cons.
  destruct (Nat.eqb_spec i j) as [->|Hij]; [|destruct (Nat.ltb_spec i j)];
    apply sorted_keys_cons; (split; [auto|]); intros k; rewrite merge_ref_keys; cbn; rewrite ?elem_of_cons.
  - intros [Hk|Hk]; auto.
  - intros [Hk|[->|Hk]]; auto. specialize (Hjb _ Hk). lia.
  - intros [[->|Hk]|Hk]; auto; [lia|]. specialize (Hiu _ Hk). lia.
Qed.

Lemma merge_ref_kmap us bs :
  sorted_keys us -> sorted_keys bs -> kmap (merge_ref us bs) = kmap us ∪ kmap bs.
Proof.
  revert bs. induction us as [|[i x] us IHu]; intros bs Hu Hb.
  { rewrite merge_ref_nil_l. cbn. by rewrite (left_id_L ∅ (∪)). }
  induction bs as [|[j y] bs IHb].
  { rewrite merge_ref_nil_r. cbn. by rewrite (right_id_L ∅ (∪)). }
  rewrite merge_ref_cons. pose proof Hu as [Hu' Hiu]%sorted_keys_cons. pose proof Hb as [Hb' Hjb]%sorted_keys_cons.
  destruct (Nat.eqb_spec i j) as [->|Hij]; [|destruct (Nat.ltb_spec i j)]; rewrite kmap_cons.
  - rewrite IHu, !kmap_cons by done. apply map_eq. intros k.
    rewrite lookup_union. destruct (decide (k = j)) as [->|]; simpl_map; by rewrite ?lookup_union.
  - by rewrite IHu, !kmap_cons, insert_union_l by done.
  - rewrite IHb, !kmap_cons by done. apply insert_union_r. apply lookup_insert_None.
    split; [|lia]. apply kmap_none. intros Hk. specialize (Hiu _ Hk). lia.
Qed.
End Keyed.

(** ** Infos as maps *)

Section Infos.
Context {VS : VectorSize} {T : Type}.
Implicit Types info : UpdateInfo T.

Definition entries info : list (nat * T) := zip (tuples info) (values info).
Definition info_map info : gmap nat T := kmap (entries info).

Record wf_info info : Prop := {
  wf_info_sorted : StronglySorted lt (tuples info);
  wf_info_values : length (values info) = N info;
  wf_info_rows : Forall (fun t => t < STANDARD_VECTOR_SIZE) (tuples info);
  wf_info_max : N info <= max info
}.

Lemma entries_fst info : length (values info) = N info -> (entries info).*1 = tuples info.
Proof. unfold N. intros E. apply fst_zip. lia. Qed.

Lemma entries_snd info : length (values info) = N info -> (entries info).*2 = values info.
Proof. unfold N. intros E. apply snd_zip. lia. Qed.

Lemma length_entries info : length (values info) = N info -> length (entries info) = N info.
Proof. unfold N, entries. rewrite length_zip_with. lia. Qed.

Lemma entries_lookup info i r x :
  entries info !! i = Some (r, x) <-> tuples info !! i = Some r /\ values info !! i = Some x.
Proof.
  unfold entries. rewrite lookup_zip_with. destruct (tuples info !! i), (values info !! i); cbn;
    split; [intros [= -> ->]|intros [[= ->] [= ->]]|..]; try done; intros [? ?]; done.
Qed.

Lemma wf_info_keys info : wf_info info -> sorted_keys (entries info).
Proof. intros []. unfold sorted_keys. by rewrite entries_fst. Qed.

Lemma info_map_dom info r : wf_info info -> is_Some (info_map info !! r) <-> r ∈ tuples info.
Proof. intros []. unfold info_map. by rewrite kmap_is_some, entries_fst. Qed.

Lemma info_map_row info r x : wf_info info -> info_map info !! r = Some x -> r < STANDARD_VECTOR_SIZE.
Proof.
  intros Hwf Hr. assert (r ∈ tuples info) as Hin by (apply info_map_dom; eauto).
  destruct Hwf. rewrite Forall_forall in wf_info_rows0. auto.
Qed.

Lemma info_map_lookup info r x : wf_info info ->
  info_map info !! r = Some x <-> exists i, tuples info !! i = Some r /\ values info !! i = Some x.
Proof.
  intros Hwf. unfold info_map. rewrite kmap_elem by by apply wf_info_keys.
  rewrite list_elem_of_lookup. by setoid_rewrite entries_lookup.
Qed.

Lemma entries_set_data ids vals info : length ids = length vals -> entries (set_data ids vals info) = zip ids vals.
Proof. done. Qed.

Lemma entries_set_entries (l : list (nat * T)) info :
  entries (set_data (map fst l) (map snd l) info) = l.
Proof. unfold entries. cbn. induction l as [|[] l IH]; cbn; by f_equal. Qed.

Lemma entries_set_prev p info : entries (set_prev p info) = entries info.
Proof. done. Qed.

Lemma sorted_snoc (l : list nat) x : StronglySorted lt (l ++ [x]) -> StronglySorted lt l /\ Forall (fun y => y < x) l.
Proof.
  induction l as [|y l IH]; intros Hs; [by repeat constructor|]. cbn in Hs.
  apply StronglySorted_inv in Hs as [Hs Hf]. destruct (IH Hs) as [H1 H2].
  apply Forall_app in Hf as [Hf Hx]. apply Forall_inv in Hx. by repeat constructor.
Qed.

(** The number of rows of an info is at most the vector size, since its rows are distinct. *)
Lemma sorted_length (l : list nat) n : StronglySorted lt l -> Forall (fun t => t < n) l -> length l <= n.
Proof.
  revert n. induction l as [|x l IH] using rev_ind; intros n Hs Hb; [cbn; lia|].
  apply sorted_snoc in Hs as [Hs Hlt]. apply Forall_app in Hb as [_ Hx]. apply Forall_inv in Hx.
  rewrite length_app. cbn. specialize (IH x Hs Hlt). lia.
Qed.

(** A sorted list of [n] rows below [n] is [0, 1, 2, ...]: the special case of [MergeUpdateInfo]. *)
Lemma sorted_full (l : list nat) n :
  StronglySorted lt l -> Forall (fun t => t < n) l -> length l = n -> l = seq 0 n.
Proof.
  revert n. induction l as [|x l IH] using rev_ind; intros n Hs Hb Hl; [by subst|].
  rewrite length_app in Hl. cbn in Hl.
  apply sorted_snoc in Hs as [Hsl Hlt].
  apply Forall_app in Hb as [_ Hx]. apply Forall_inv in Hx.
  pose proof (sorted_length l x Hsl Hlt). assert (length l = x) by lia.
  rewrite (IH x) by done. replace n with (S x) by lia. by rewrite seq_S.
Qed.
End Infos.

(** ** Fetching overlays the map *)

Section Fetch.
Context {VS : VectorSize} {T : Type} `{ColumnType T}.
Implicit Types info : UpdateInfo T.

Lemma at_lookup (l : list T) i x : l !! i = Some x -> at_ l i = x.
Proof. unfold at_. by intros ->. Qed.

Lemma at_nat_lookup (l : list nat) i x : l !! i = Some x -> at_nat l i = x.
Proof. unfold at_nat. by intros ->. Qed.

(** Overlaying entries one by one. *)
Lemma foldl_insert_lookup (l : list (nat * T)) (v : list T) r : sorted_keys l -> r < length v ->
  foldl (fun v e => <[e.1 := e.2]> v) v l !! r = kmap l !! r ∪ v !! r.
Proof.
  revert v. induction l as [|[k x] l IH]; intros v Hs Hr; cbn [foldl].
  { cbn. by rewrite lookup_empty, (left_id_L None (∪)). }
  rewrite IH; [|by apply sorted_keys_cons in Hs as []|by rewrite length_insert]. cbn [fst snd].
  rewrite kmap_cons. destruct (decide (r = k)) as [->|]; simpl_map.
  - rewrite (kmap_below k x l k Hs) by lia. rewrite list_lookup_insert_eq by done. by destruct (v !! k).
  - by rewrite list_lookup_insert_ne by done.
Qed.

Lemma length_foldl_insert (l : list (nat * T)) (v : list T) :
  length (foldl (fun v e => <[e.1 := e.2]> v) v l) = length v.
Proof. revert v. induction l as [|e l IH]; intros v; [done|]. cbn. by rewrite IH, length_insert. Qed.

Lemma merge_update_info_foldl info v : wf_info info -> length v = STANDARD_VECTOR_SIZE ->
  MergeUpdateInfo info v = foldl (fun v e => <[e.1 := e.2]> v) v (entries info).
Proof.
  intros Hwf Hv. unfold MergeUpdateInfo. destruct (Nat.eqb_spec (N info) STANDARD_VECTOR_SIZE) as [Hn|].
  - pose proof Hwf as [Hs Hl Hb _]. pose proof (sorted_full _ _ Hs Hb Hn) as Hseq.
    apply list_eq. intros r. destruct (Nat.lt_ge_cases r STANDARD_VECTOR_SIZE) as [Hr|Hr].
    + rewrite foldl_insert_lookup by (by apply wf_info_keys || lia).
      rewrite lookup_app_l by (rewrite length_take; lia). rewrite lookup_take_lt by lia.
      destruct (lookup_lt_is_Some_2 (values info) r) as [x Hx]; [lia|]. rewrite Hx.
      assert (info_map info !! r = Some x) as E.
      { apply info_map_lookup; [done|]. exists r. split; [|done]. rewrite Hseq. by apply lookup_seq. }
      unfold info_map in E. rewrite E. by destruct (v !! r).
    + rewrite !lookup_ge_None_2; [done| |].
      * rewrite length_foldl_insert. lia.
      * rewrite length_app, length_take, length_drop. lia.
  - rewrite <- (length_entries info) by apply Hwf.
    apply for_range_foldl. intros i [r x] s [Ht Hx]%entries_lookup.
    by rewrite (at_nat_lookup _ _ _ Ht), (at_lookup _ _ _ Hx).
Qed.

Lemma merge_update_info_lookup info v r : wf_info info -> length v = STANDARD_VECTOR_SIZE ->
  r < STANDARD_VECTOR_SIZE -> MergeUpdateInfo info v !! r = info_map info !! r ∪ v !! r.
Proof.
  intros Hwf Hv Hr. rewrite merge_update_info_foldl by done.
  apply foldl_insert_lookup; [by apply wf_info_keys|lia].
Qed.

Lemma length_merge_update_info info v : wf_info info -> length v = STANDARD_VECTOR_SIZE ->
  length (MergeUpdateInfo info v) = STANDARD_VECTOR_SIZE.
Proof. intros. by rewrite merge_update_info_foldl, length_foldl_insert. Qed.
End Fetch.

(** ** The binary search *)

Section Search.
Context {VS : VectorSize} {T : Type} `{ColumnType T}.
Implicit Types info : UpdateInfo T.

Lemma sorted_lookup_lt (l : list nat) i j x y :
  StronglySorted lt l -> l !! i = Some x -> l !! j = Some y -> i < j -> x < y.
Proof.
  intros Hs. revert i j. induction Hs as [|z l Hs IH Hf]; intros [|i] [|j] Hi Hj Hij; try done; try lia; cbn in *.
  - injection Hi as ->. rewrite Forall_forall in Hf. apply Hf. by apply list_elem_of_lookup_2 in Hj.
  - by apply (IH i j); [..|lia].
Qed.

Lemma sorted_lookup_inj (l : list nat) i j x :
  StronglySorted lt l -> l !! i = Some x -> l !! j = Some x -> i = j.
Proof.
  intros Hs Hi Hj. destruct (Nat.lt_trichotomy i j) as [?|[?|?]]; [|done|].
  - pose proof (sorted_lookup_lt l i j x x Hs Hi Hj). lia.
  - pose proof (sorted_lookup_lt l j i x x Hs Hj Hi). lia.
Qed.

Lemma find_updated_spec fuel info row l r :
  StronglySorted lt (tuples info) -> r <= N info -> r - l <= fuel ->
  (forall i, tuples info !! i = Some row -> l <= i < r) ->
  match find_updated fuel info row l r with
  | Some i => tuples info !! i = Some row
  | None => row ∉ tuples info
  end.
Proof.
  intros Hs. revert l r. induction fuel as [|fuel IH]; intros l r Hr Hf Hin; cbn [find_updated].
  { intros (i & Hi)%list_elem_of_lookup. apply Hin in Hi. lia. }
  destruct (Nat.ltb_spec l r); [|intros (i & Hi)%list_elem_of_lookup; apply Hin in Hi; lia].
  set (mid := l + (r - l) / 2). assert (l <= mid < r) as Hm by (subst mid; div_lia).
  destruct (lookup_lt_is_Some_2 (tuples info) mid) as [m Hmid]; [unfold N in *; lia|].
  rewrite (at_nat_lookup _ _ _ Hmid).
  destruct (Nat.eqb_spec m row) as [->|Hne]; [done|].
  assert (r - S mid <= fuel /\ mid - l <= fuel) as [Hf1 Hf2] by lia.
  destruct (Nat.ltb_spec m row); apply IH; try lia; intros i Hi; pose proof (Hin i Hi) as Hi'.
  - destruct (Nat.lt_ge_cases mid i); [lia|]. exfalso.
    destruct (Nat.eq_dec i mid) as [->|]; [congruence|].
    pose proof (sorted_lookup_lt _ i mid _ _ Hs Hi Hmid). lia.
  - destruct (Nat.lt_ge_cases i mid); [lia|]. exfalso.
    destruct (Nat.eq_dec i mid) as [->|]; [congruence|].
    pose proof (sorted_lookup_lt _ mid i _ _ Hs Hmid Hi). lia.
Qed.

(** The binary search finds the row exactly when the info has it. *)
Lemma find_updated_tuple_spec info row : wf_info info ->
  (at_ (values info)) <$> FindUpdatedTuple info row = info_map info !! row.
Proof.
  intros Hwf. unfold FindUpdatedTuple.
  pose proof (find_updated_spec (N info) info row 0 (N info) (wf_info_sorted _ Hwf)) as Hfind.
  destruct (find_updated (N info) info row 0 (N info)) as [i|] eqn:E; cbn.
  - assert (tuples info !! i = Some row) as Hi.
    { apply Hfind; try lia. intros j Hj. apply lookup_lt_Some in Hj. unfold N. lia. }
    destruct (lookup_lt_is_Some_2 (values info) i) as [x Hx].
    { rewrite (wf_info_values _ Hwf). by apply lookup_lt_Some in Hi. }
    rewrite (at_lookup _ _ _ Hx). symmetry. apply info_map_lookup; eauto.
  - symmetry. apply eq_None_not_Some. rewrite info_map_dom by done.
    apply Hfind; try lia. intros j Hj. apply lookup_lt_Some in Hj. unfold N. lia.
Qed.
End Search.

(** ** Fetching a range, and fetching rows *)

Section Ranges.
Context {VS : VectorSize} {T : Type} `{ColumnType T}.
Implicit Types info : UpdateInfo T.

(** Both range loops are instances of this one. *)
Fixpoint range_ref {V} (put : nat -> T -> V -> V) (l : list (nat * T)) (start end_ offset : nat) (v : V) : V :=
  match l with
  | [] => v
  | (t, x) :: l' =>
      if t <? start then range_ref put l' start end_ offset v
      else if end_ <=? t then v
      else range_ref put l' start end_ offset (put (offset + t - start) x v)
  end.

Lemma drop_entries info i r x : entries info !! i = Some (r, x) ->
  drop i (entries info) = (r, x) :: drop (S i) (entries info).
Proof. intros. by apply drop_S. Qed.

Lemma merge_range_ref info n i start end_ offset v : length (values info) = N info -> i + n = N info ->
  merge_range n i start end_ offset info v =
  range_ref (fun j x v => <[j := x]> v) (drop i (entries info)) start end_ offset v.
Proof.
  intros Hl. revert i v. induction n as [|n IH]; intros i v Hn; cbn [merge_range].
  { rewrite drop_ge; [done|]. rewrite length_entries by done. lia. }
  destruct (lookup_lt_is_Some_2 (entries info) i) as [[r x] Hi].
  { rewrite length_entries by done. lia. }
  rewrite (drop_entries _ _ _ _ Hi). cbn [range_ref]. pose proof Hi as [Ht Hx]%entries_lookup.
  rewrite (at_nat_lookup _ _ _ Ht), (at_lookup _ _ _ Hx), !IH by lia. done.
Qed.

Lemma range_ref_ok {V} (put : nat -> T -> V -> V) (ok : V -> Prop) (l : list (nat * T)) start end_ offset v :
  (forall i x v, ok v -> ok (put i x v)) -> ok v -> ok (range_ref put l start end_ offset v).
Proof.
  intros Hok. revert v. induction l as [|[t x] l IH]; intros v Hv; cbn [range_ref]; [done|].
  destruct (t <? start); [by apply IH|]. destruct (end_ <=? t); [done|]. by apply IH, Hok.
Qed.

(** What a range fetch leaves at an index, for any update function [put] of a vector with a getter. *)
Lemma range_ref_get {V A} (put : nat -> T -> V -> V) (get : V -> nat -> A) (ok : V -> Prop) (inj : T -> A)
    (l : list (nat * T)) start end_ offset v j :
  (forall i x v, ok v -> ok (put i x v)) ->
  (forall i x v, i < offset + (end_ - start) -> ok v ->
     get (put i x v) j = if decide (i = j) then inj x else get v j) ->
  sorted_keys l -> ok v ->
  get (range_ref put l start end_ offset v) j =
  match kmap l !! (start + (j - offset)) with
  | Some x => if decide (offset <= j /\ start + (j - offset) < end_) then inj x else get v j
  | None => get v j
  end.
Proof.
  intros Hok Hput. revert v. induction l as [|[t x] l IH]; intros v Hs Hv; cbn [range_ref]; [done|].
  pose proof Hs as [Hs' Hlt]%sorted_keys_cons. rewrite kmap_cons.
  assert (forall k, k <= t -> kmap l !! k = None) as Hbelow by (intros; by eapply kmap_below).
  destruct (Nat.ltb_spec t start).
  { rewrite IH by done. by rewrite lookup_insert_ne by lia. }
  destruct (Nat.leb_spec end_ t).
  { destruct (decide (start + (j - offset) = t)) as [<-|]; simpl_map.
    - rewrite decide_False by lia. done.
    - destruct (kmap l !! _) eqn:E; [|done]. rewrite decide_False; [done|].
      intros [? ?]. rewrite Hbelow in E by lia. done. }
  rewrite IH by auto.
  rewrite Hput by (done || lia).
  destruct (decide (start + (j - offset) = t)) as [E|E].
  - rewrite E, Hbelow, lookup_insert_eq by lia.
    destruct (decide (offset + t - start = j)), (decide (offset <= j /\ t < end_)); try done; lia.
  - rewrite lookup_insert_ne by done.
    rewrite (decide_False (P := offset + t - start = j)) by lia. done.
Qed.
End Ranges.

(** ** The merge loops *)

Section Merging.
Context {VS : VectorSize} {T : Type} `{ColumnType T}.
Implicit Types l us bs : list (nat * T).

Lemma merge_ref_skip l u x us : sorted_keys l ->
  exists k, (forall j e, j < k -> l !! j = Some e -> e.1 < u) /\ (forall e, l !! k = Some e -> u <= e.1) /\
    k <= length l /\
    merge_ref l ((u, x) :: us) =
      take k l ++ match l !! k with
                  | Some (t, y) => if t =? u then (t, y) :: merge_ref (drop (S k) l) us
                                   else (u, x) :: merge_ref (drop k l) us
                  | None => (u, x) :: us
                  end.
Proof.
  induction l as [|[t y] l IH]; intros Hs.
  { exists 0. split_and!; [intros; lia|done|done|done]. }
  pose proof Hs as [Hs' Hlt]%sorted_keys_cons. rewrite merge_ref_cons.
  destruct (Nat.lt_ge_cases t u) as [Htu|Htu].
  - destruct (IH Hs') as (k & H1 & H2 & H3 & ->). exists (S k).
    split_and!; [|done|cbn; lia|].
    { intros [|j] e Hj He; [by injection He as <-|]. apply (H1 j); [lia|done]. }
    destruct (Nat.eqb_spec t u); [lia|]. destruct (Nat.ltb_spec t u); [done|lia].
  - exists 0. split_and!; [intros; lia| |cbn; lia|].
    { intros e [= <-]. done. }
    cbn -[merge_ref drop Nat.eqb Nat.ltb].
    destruct (Nat.eqb_spec t u) as [->|]; [done|]. destruct (Nat.ltb_spec t u); [lia|done].
Qed.

(** [MergeLoop] with callbacks that append computes the reference merge. *)
Lemma merge_both_ref (a : list Z) (b : list nat) us bs aoffset asel pa pb aidx bidx fuel count s :
  (forall i, i < length us -> exists x, us !! i = Some (offset_in_vector (rd a (get_index asel i)) aoffset, x) /\
     pa (get_index asel i) = x) ->
  (forall i, i < length bs -> exists t x, bs !! i = Some (t, x) /\ at_nat b i = t /\ pb i = x) ->
  aidx <= length us -> bidx <= length bs -> length us - aidx + (length bs - bidx) <= fuel ->
  let '(aidx', bidx', _, s') :=
    merge_both a b (length us) (length bs) aoffset
      (fun id ai bi c res => res ++ [(id, pa ai)]) (fun id ai c res => res ++ [(id, pa ai)])
      (fun id bi c res => res ++ [(id, pb bi)]) asel fuel aidx bidx count s in
  s ++ merge_ref (drop aidx us) (drop bidx bs) = s' ++ drop aidx' us ++ drop bidx' bs /\
  (aidx' = length us \/ bidx' = length bs) /\ aidx' <= length us /\ bidx' <= length bs.
Proof.
  intros Ha Hb. revert aidx bidx count s. induction fuel as [|fuel IH]; intros aidx bidx count s Hai Hbi Hf; cbn [merge_both].
  { assert (aidx = length us /\ bidx = length bs) as [-> ->] by lia.
    rewrite !drop_all. cbn. split_and!; [done|by left|done..]. }
  destruct (Nat.ltb_spec aidx (length us)), (Nat.ltb_spec bidx (length bs)); cbn [andb].
  2-4: split_and!; [|lia..].
  2: replace bidx with (length bs) by lia; rewrite drop_all, merge_ref_nil_r; by rewrite app_nil_r.
  2,3: replace aidx with (length us) by lia; rewrite drop_all, merge_ref_nil_l; done.
  destruct (Ha aidx) as (x & Hx & Hpa); [lia|]. destruct (Hb bidx) as (t & y & Hy & Ht & Hpb); [lia|].
  rewrite (drop_S us _ _ Hx), (drop_S bs _ _ Hy), merge_ref_cons. rewrite Ht, Hpa, Hpb.
  set (u := offset_in_vector _ _).
  destruct (u =? t); [|destruct (u <? t)].
  - specialize (IH (S aidx) (S bidx) (S count) (s ++ [(u, x)])). rewrite <- app_assoc in IH. apply IH; lia.
  - specialize (IH (S aidx) bidx (S count) (s ++ [(u, x)])).
    rewrite <- app_assoc, (drop_S bs _ _ Hy) in IH. apply IH; lia.
  - specialize (IH aidx (S bidx) (S count) (s ++ [(t, y)])).
    rewrite <- app_assoc, (drop_S us _ _ Hx) in IH. apply IH; lia.
Qed.

(** Loops that append one entry per turn. *)
Lemma for_range_append {A} (l : list A) k (body : nat -> list A -> list A) s :
  (forall i x s, l !! i = Some x -> body i s = s ++ [x]) -> k <= length l ->
  for_range k (length l) body s = s ++ drop k l.
Proof.
  intros Hb Hk. rewrite for_range_shift, <- (length_drop l k).
  rewrite (for_range_foldl (drop k l) _ (fun s x => s ++ [x])).
  - generalize (drop k l). clear. intros l. revert s. induction l as [|x l IH]; intros s; cbn.
    + by rewrite app_nil_r.
    + by rewrite IH, <- app_assoc.
  - intros i x s' Hi. rewrite lookup_drop in Hi. by apply Hb.
Qed.

Lemma for_range_count_append {A} (l : list A) k (body : nat -> nat * list A -> nat * list A) c s :
  (forall i x c s, l !! i = Some x -> body i (c, s) = (S c, s ++ [x])) -> k <= length l ->
  (for_range k (length l) body (c, s)).2 = s ++ drop k l.
Proof.
  intros Hb Hk. rewrite for_range_shift, <- (length_drop l k).
  rewrite (for_range_foldl (drop k l) _ (fun s x => (S s.1, s.2 ++ [x]))).
  - generalize (drop k l). clear. intros l. revert c s. induction l as [|x l IH]; intros c s; cbn.
    + by rewrite app_nil_r.
    + by rewrite IH, <- app_assoc.
  - intros i x [c' s'] Hi. rewrite lookup_drop in Hi. by apply Hb.
Qed.

Lemma merge_loop_ref (a : list Z) (b : list nat) us bs aoffset asel pa pb :
  (forall i, i < length us -> exists x, us !! i = Some (offset_in_vector (rd a (get_index asel i)) aoffset, x) /\
     pa (get_index asel i) = x) ->
  (forall i, i < length bs -> exists t x, bs !! i = Some (t, x) /\ at_nat b i = t /\ pb i = x) ->
  (MergeLoop a b (length us) (length bs) aoffset
     (fun id ai bi c res => res ++ [(id, pa ai)]) (fun id ai c res => res ++ [(id, pa ai)])
     (fun id bi c res => res ++ [(id, pb bi)]) asel []).2 = merge_ref us bs.
Proof.
  intros Ha Hb. unfold MergeLoop.
  pose proof (merge_both_ref a b us bs aoffset asel pa pb 0 0 (length us + length bs) 0 [] Ha Hb) as Hm.
  destruct (merge_both _ _ _ _ _ _ _ _ _ _ _ _ _ _) as [[[ai bi] c] s].
  destruct Hm as (Hm & _ & Hai & Hbi); [lia..|]. rewrite !drop_0 in Hm. cbn in Hm. rewrite Hm.
  destruct (for_range ai _ _ _) as [c' s'] eqn:E.
  assert (s' = s ++ drop ai us) as ->.
  { erewrite <- (for_range_count_append us ai _ c s), E; [done| |done].
    intros i x c0 s0 Hi. destruct (Ha i) as (y & Hy & Hpa); [by apply lookup_lt_Some in Hi|].
    rewrite Hy in Hi. injection Hi as <-. by rewrite Hpa. }
  rewrite app_assoc. apply for_range_count_append; [|done].
  intros i x c0 s0 Hi. destruct (Hb i) as (t & y & Hy & Ht & Hpb); [by apply lookup_lt_Some in Hi|].
  rewrite Hy in Hi. injection Hi as <-. by rewrite Ht, Hpb.
Qed.
End Merging.

(** *** Collecting the old values *)

Section Old.
Context {VS : VectorSize} {T : Type} `{ColumnType T}.
Context (base_info update_info : UpdateInfo T) (base_extract : nat -> T).
Context (ids : list Z) (sel : SelectionVector) (row_group_start : Z).
Context (base_table_validity : option ValidityMask).
Context (Hbase : wf_info base_info) (Hupd : wf_info update_info).

(** The row of selected update [i], and the value a row has before the update. *)
Definition updated_row (i : nat) : nat :=
  offset_in_vector (rd ids (get_index sel i)) (base_id base_info row_group_start).

Definition base_fallback (r : nat) : T :=
  match base_table_validity with
  | Some m => if RowIsValid m r then base_extract r else type_default
  | None => base_extract r
  end.

Definition old_of (r : nat) : T := default (base_fallback r) (info_map base_info !! r).

Lemma write_smaller_spec fuel u uo res k :
  uo + k <= N update_info -> N update_info - uo <= fuel ->
  (forall j e, j < k -> entries update_info !! (uo + j) = Some e -> e.1 < u) ->
  (forall e, entries update_info !! (uo + k) = Some e -> u <= e.1) ->
  write_smaller update_info fuel u uo res = (uo + k, res ++ take k (drop uo (entries update_info))).
Proof.
  revert uo res k. induction fuel as [|fuel IH]; intros uo res k Hk Hf Hlt Hge; cbn [write_smaller].
  { assert (k = 0) as -> by lia. rewrite Nat.add_0_r, take_0, app_nil_r. done. }
  destruct (Nat.ltb_spec uo (N update_info)) as [Huo|Huo]; cbn [andb].
  2: { assert (k = 0) as -> by lia. rewrite Nat.add_0_r, take_0, app_nil_r. done. }
  destruct (lookup_lt_is_Some_2 (entries update_info) uo) as [[t x] He].
  { rewrite length_entries by apply Hupd. done. }
  pose proof He as [Ht Hx]%entries_lookup. rewrite (at_nat_lookup _ _ _ Ht).
  destruct k as [|k].
  - rewrite Nat.add_0_r in Hge. specialize (Hge _ He). cbn in Hge.
    destruct (Nat.ltb_spec t u); [lia|]. by rewrite Nat.add_0_r, take_0, app_nil_r.
  - assert (t < u) as Htu by (apply (Hlt 0 (t, x)); [lia|by rewrite Nat.add_0_r]).
    destruct (Nat.ltb_spec t u); [|lia]. rewrite (IH _ _ k); try lia.
    + unfold write_update. rewrite (at_nat_lookup _ _ _ Ht), (at_lookup _ _ _ Hx).
      rewrite (drop_S _ _ _ He). cbn [take]. rewrite <- app_assoc. f_equal. lia.
    + intros j e Hj. replace (S uo + j) with (uo + S j) by lia. apply Hlt. lia.
    + intros e. replace (S uo + k) with (uo + S k) by lia. apply Hge.
Qed.

Lemma skip_smaller_spec fuel u bo :
  N base_info - bo <= fuel -> (forall j t, j < bo -> tuples base_info !! j = Some t -> t < u) ->
  (forall j t, j < skip_smaller base_info fuel u bo -> tuples base_info !! j = Some t -> t < u) /\
  (forall t, tuples base_info !! skip_smaller base_info fuel u bo = Some t -> u <= t).
Proof.
  revert bo. induction fuel as [|fuel IH]; intros bo Hf Hlt; cbn [skip_smaller].
  { split; [done|]. intros t Ht%lookup_lt_Some. unfold N in *. lia. }
  destruct (Nat.ltb_spec bo (N base_info)) as [Hbo|Hbo]; cbn [andb].
  2: { split; [done|]. intros t Ht%lookup_lt_Some. unfold N in *. lia. }
  destruct (lookup_lt_is_Some_2 (tuples base_info) bo Hbo) as [t Ht]. rewrite (at_nat_lookup _ _ _ Ht).
  destruct (Nat.ltb_spec t u).
  - apply IH; [lia|]. intros j t' Hj Ht'. destruct (Nat.eq_dec j bo) as [->|]; [|apply (Hlt j); [lia|done]].
    congruence.
  - split; [done|]. intros t' Ht'. rewrite Ht in Ht'. by injection Ht' as <-.
Qed.

Lemma old_value_spec bo u :
  (forall j t, j < bo -> tuples base_info !! j = Some t -> t < u) ->
  (forall t, tuples base_info !! bo = Some t -> u <= t) ->
  old_value base_info base_extract base_table_validity bo u = old_of u.
Proof.
  intros Hlt Hge. unfold old_value, old_of.
  assert (Hfall : match base_table_validity with
    | Some m => if negb (RowIsValid m u) then type_default else base_extract u
    | None => base_extract u end = base_fallback u).
  { unfold base_fallback. destruct base_table_validity; [|done]. by destruct (RowIsValid _ u). }
  destruct (info_map base_info !! u) as [x|] eqn:E; cbn [default from_option].
  - apply info_map_lookup in E as (i & Hi & Hx); [|done].
    assert (i = bo) as ->.
    { destruct (Nat.lt_trichotomy i bo) as [?|[?|?]]; [|done|].
      - specialize (Hlt i u). intuition lia.
      - destruct (lookup_lt_is_Some_2 (tuples base_info) bo) as [t Ht].
        { apply lookup_lt_Some in Hi. lia. }
        pose proof (sorted_lookup_lt _ bo i t u (wf_info_sorted _ Hbase) Ht Hi). specialize (Hge t Ht). lia. }
    rewrite (at_nat_lookup _ _ _ Hi), Nat.eqb_refl, (at_lookup _ _ _ Hx).
    apply lookup_lt_Some in Hi. destruct (Nat.ltb_spec bo (N base_info)); [done|unfold N in *; lia].
  - destruct (Nat.ltb_spec bo (N base_info)) as [Hbo|]; cbn [andb]; [|by apply Hfall].
    destruct (lookup_lt_is_Some_2 (tuples base_info) bo Hbo) as [t Ht]. rewrite (at_nat_lookup _ _ _ Ht).
    destruct (Nat.eqb_spec t u) as [->|]; [|by apply Hfall]. exfalso.
    apply eq_None_not_Some in E. apply E, info_map_dom; [done|]. by apply list_elem_of_lookup_2 in Ht.
Qed.

Definition olds (i n : nat) : list (nat * T) := map (fun i => (updated_row i, old_of (updated_row i))) (seq i n).

Lemma merge_old_loop n i uo bo res :
  StronglySorted lt (map updated_row (seq i n)) -> uo <= N update_info ->
  (forall u, u ∈ map updated_row (seq i n) -> forall j t, j < bo -> tuples base_info !! j = Some t -> t < u) ->
  let '(uo', _, res') := for_loop n i (merge_old_step base_info update_info base_extract ids sel
                            row_group_start base_table_validity) (uo, bo, res) in
  uo' <= N update_info /\
  res' ++ drop uo' (entries update_info) = res ++ merge_ref (drop uo (entries update_info)) (olds i n).
Proof.
  revert i uo bo res. induction n as [|n IH]; intros i uo bo res Hs Huo Hbo.
  { cbn. split; [done|]. by rewrite merge_ref_nil_r. }
  cbn [for_loop]. unfold olds. cbn [seq map]. fold (olds (S i) n). cbn [seq map] in Hs, Hbo.
  apply StronglySorted_inv in Hs as [Hs Hu]. rewrite Forall_forall in Hu.
  set (u := updated_row i) in *.
  assert (sorted_keys (drop uo (entries update_info))) as Hsk.
  { pose proof (wf_info_keys _ Hupd) as Hk. unfold sorted_keys in *. rewrite fmap_drop.
    generalize (entries update_info).*1 Hk. clear. intros l. revert uo.
    induction l as [|x l IHl]; intros [|uo] Hl; cbn; try done. apply IHl. by apply StronglySorted_inv in Hl as []. }
  destruct (merge_ref_skip (drop uo (entries update_info)) u (old_of u) (olds (S i) n) Hsk)
    as (k & Hlt & Hge & Hk & ->).
  setoid_rewrite lookup_drop in Hlt. setoid_rewrite lookup_drop in Hge.
  rewrite length_drop, length_entries in Hk by apply Hupd. rewrite lookup_drop.
  unfold merge_old_step at 2. fold (updated_row i). fold u.
  rewrite (write_smaller_spec _ u uo res k) by (done || lia).
  assert (Hskip : forall res', let bo' := skip_smaller base_info (N base_info) u bo in
    let '(uo', _, res'') := for_loop n (S i) (merge_old_step base_info update_info base_extract ids sel
           row_group_start base_table_validity)
           (uo + k, bo', res' ++ [(u, old_value base_info base_extract base_table_validity bo' u)]) in
    uo' <= N update_info /\
    res'' ++ drop uo' (entries update_info) =
    res' ++ (u, old_of u) :: merge_ref (drop k (drop uo (entries update_info))) (olds (S i) n)).
  { intros res' bo'. destruct (skip_smaller_spec (N base_info) u bo) as [H1 H2]; [lia| |].
    { intros j t. apply (Hbo u). by left. }
    rewrite old_value_spec by done. rewrite drop_drop.
    specialize (IH (S i) (uo + k) bo' (res' ++ [(u, old_of u)])). rewrite <- app_assoc in IH. apply IH; [done|lia|].
    intros u' Hu' j t Hj Ht. specialize (H1 j t Hj Ht). specialize (Hu u' Hu'). lia. }
  destruct (entries update_info !! (uo + k)) as [[t y]|] eqn:E.
  - pose proof E as [Ht Hy]%entries_lookup. rewrite (at_nat_lookup _ _ _ Ht).
    pose proof (lookup_lt_Some _ _ _ Ht). destruct (Nat.ltb_spec (uo + k) (N update_info)); [|unfold N in *; lia].
    cbn [andb]. rewrite app_assoc. destruct (Nat.eqb_spec t u) as [->|]; [|apply Hskip].
    unfold write_update. rewrite (at_nat_lookup _ _ _ Ht), (at_lookup _ _ _ Hy), drop_drop.
    specialize (IH (S i) (S (uo + k)) bo ((res ++ take k (drop uo (entries update_info))) ++ [(u, y)])).
    rewrite <- (app_assoc _ [_]) in IH. replace (uo + S k) with (S (uo + k)) by lia. apply IH; [done|lia|].
    intros u' Hu' j t' Hj Ht'. assert (t' < u) by (apply (Hbo u (list_elem_of_here _ _) j); done).
    specialize (Hu u' Hu'). lia.
  - apply lookup_ge_None in E. rewrite length_entries in E by apply Hupd.
    destruct (Nat.ltb_spec (uo + k) (N update_info)); [lia|]. cbn [andb].
    rewrite app_assoc. specialize (Hskip (res ++ take k (drop uo (entries update_info)))). cbn zeta in Hskip.
    rewrite drop_drop, (drop_ge _ (uo + k)), merge_ref_nil_l in Hskip by (rewrite length_entries by apply Hupd; lia).
    assert (olds (S i) n = olds (S i) n) by done. apply Hskip.
Qed.

Lemma merge_old_ref count : StronglySorted lt (map updated_row (seq 0 count)) ->
  merge_old base_info update_info base_extract ids count sel row_group_start base_table_validity =
  merge_ref (entries update_info) (olds 0 count).
Proof.
  intros Hs. unfold merge_old, for_range at 1. rewrite Nat.sub_0_r.
  pose proof (merge_old_loop count 0 0 0 [] Hs) as Hm.
  destruct (for_loop _ _ _ _) as [[uo bo] res]. cbn [app] in Hm. rewrite drop_0 in Hm.
  destruct Hm as [Huo <-]; [lia|intros; lia|].
  rewrite <- (length_entries update_info) by apply Hupd.
  apply for_range_append; [|rewrite length_entries by apply Hupd; done].
  intros i [t x] s [Ht Hx]%entries_lookup. unfold write_update.
  by rewrite (at_nat_lookup _ _ _ Ht), (at_lookup _ _ _ Hx).
Qed.
End Old.

(** *** Both infos after a merge *)

Section MergeSpec.
Context {VS : VectorSize} {T : Type} `{ColumnType T}.

Lemma fst_map_pair {A} (f : nat -> nat) (g : nat -> A) l : (map (fun i => (f i, g i)) l).*1 = map f l.
Proof. induction l as [|i l IH]; cbn; by f_equal. Qed.

Lemma length_merge_ref (us bs : list (nat * T)) : length (merge_ref us bs) <= length us + length bs.
Proof.
  revert bs. induction us as [|[i x] us IHu]; intros bs; [rewrite merge_ref_nil_l; cbn; lia|].
  induction bs as [|[j y] bs IHb]; [rewrite merge_ref_nil_r; lia|].
  rewrite merge_ref_cons. destruct (i =? j); [|destruct (i <? j)]; cbn [length] in *.
  - specialize (IHu bs). lia.
  - specialize (IHu ((j, y) :: bs)). cbn [length] in IHu. lia.
  - lia.
Qed.

Lemma wf_set_entries (l : list (nat * T)) info : sorted_keys l ->
  Forall (fun k => k < STANDARD_VECTOR_SIZE) l.*1 ->
  length l <= max info \/ STANDARD_VECTOR_SIZE <= max info ->
  wf_info (set_data (map fst l) (map snd l) info) /\
  info_map (set_data (map fst l) (map snd l) info) = kmap l.
Proof.
  intros Hs Hb Hmax. split.
  - split; cbn.
    + apply Hs.
    + unfold N. cbn. by rewrite !length_map.
    + apply Hb.
    + unfold N. cbn. rewrite length_map. destruct Hmax; [done|].
      pose proof (sorted_length _ _ Hs Hb). rewrite length_fmap in *. lia.
  - unfold info_map. by rewrite entries_set_entries.
Qed.

Lemma merge_update_spec (base_info update_info : UpdateInfo T) base_extract update_extract usel ids count sel rgs btv :
  wf_info base_info -> wf_info update_info ->
  let row := updated_row base_info ids sel rgs in
  StronglySorted lt (map row (seq 0 count)) ->
  Forall (fun r => r < STANDARD_VECTOR_SIZE) (map row (seq 0 count)) ->
  Nat.min (N base_info + count) STANDARD_VECTOR_SIZE <= max base_info ->
  STANDARD_VECTOR_SIZE <= max update_info ->
  let news := map (fun i => (row i, update_extract (get_index usel (get_index sel i)))) (seq 0 count) in
  exists l1 l2,
    MergeUpdateLoopInternal base_info update_info base_extract update_extract usel ids count sel rgs btv =
      (set_data (map fst l1) (map snd l1) base_info, set_data (map fst l2) (map snd l2) update_info) /\
    wf_info (set_data (map fst l1) (map snd l1) base_info) /\
    wf_info (set_data (map fst l2) (map snd l2) update_info) /\
    info_map (set_data (map fst l1) (map snd l1) base_info) = kmap news ∪ info_map base_info /\
    info_map (set_data (map fst l2) (map snd l2) update_info) =
      info_map update_info ∪ kmap (olds base_info base_extract ids sel rgs btv 0 count).
Proof.
  intros Hb Hu row Hs Hr Hmb Hmu news.
  assert (sorted_keys news /\ news.*1 = map row (seq 0 count)) as [Hsn Hkn].
  { assert (news.*1 = map row (seq 0 count)) as E.
    { apply fst_map_pair. }
    split; [|done]. unfold sorted_keys. by rewrite E. }
  set (os := olds base_info base_extract ids sel rgs btv 0 count).
  assert (sorted_keys os /\ os.*1 = map row (seq 0 count)) as [Hso Hko].
  { assert (os.*1 = map row (seq 0 count)) as E.
    { apply fst_map_pair. }
    split; [|done]. unfold sorted_keys. by rewrite E. }
  exists (merge_ref news (entries base_info)), (merge_ref (entries update_info) os).
  assert (length news = count) as Hln by (unfold news; by rewrite length_map, length_seq).
  split.
  { unfold MergeUpdateLoopInternal. rewrite merge_old_ref by done.
    assert (merge_new base_info update_extract usel ids count sel rgs = merge_ref news (entries base_info)) as ->;
      [|done].
    unfold merge_new. rewrite <- Hln at 1. rewrite <- (length_entries base_info) by apply Hb.
    apply (merge_loop_ref ids (tuples base_info) news (entries base_info) _ sel
             (fun ai => update_extract (get_index usel ai)) (at_ (values base_info))).
    - intros i Hi. exists (update_extract (get_index usel (get_index sel i))). split; [|done].
      unfold news. rewrite list_lookup_fmap, lookup_seq_lt by lia. done.
    - intros i Hi. destruct (lookup_lt_is_Some_2 _ _ Hi) as [[t x] Hx]. pose proof Hx as [Ht Hv]%entries_lookup.
      exists t, x. by rewrite (at_nat_lookup _ _ _ Ht), (at_lookup _ _ _ Hv). }
  pose proof (wf_info_keys _ Hb) as Hkb. pose proof (wf_info_keys _ Hu) as Hku.
  assert (Forall (fun k => k < STANDARD_VECTOR_SIZE) (merge_ref news (entries base_info)).*1).
  { apply Forall_forall. intros k. rewrite merge_ref_keys, Hkn, entries_fst by apply Hb.
    destruct Hb. rewrite Forall_forall in wf_info_rows0, Hr. intros [?|?]; auto. }
  assert (Forall (fun k => k < STANDARD_VECTOR_SIZE) (merge_ref (entries update_info) os).*1).
  { apply Forall_forall. intros k. rewrite merge_ref_keys, Hko, entries_fst by apply Hu.
    destruct Hu. rewrite Forall_forall in wf_info_rows0, Hr. intros [?|?]; auto. }
  destruct (wf_set_entries (merge_ref news (entries base_info)) base_info) as [Hw1 Hm1]; [by apply merge_ref_sorted|done| |].
  { pose proof (length_merge_ref news (entries base_info)).
    pose proof (length_entries base_info (wf_info_values _ Hb)). rewrite Hln in *.
    destruct (Nat.le_gt_cases (N base_info + count) STANDARD_VECTOR_SIZE); [left|right]; lia. }
  destruct (wf_set_entries (merge_ref (entries update_info) os) update_info) as [Hw2 Hm2];
    [by apply merge_ref_sorted|done|by right|].
  split_and!; [done..| |].
  - by rewrite Hm1, merge_ref_kmap.
  - by rewrite Hm2, merge_ref_kmap.
Qed.
End MergeSpec.

(** ** Rolling back *)

Section Rolling.
Context {VS : VectorSize} {T : Type} `{ColumnType T}.

Lemma scan_base_spec fuel (l : list nat) off j k : StronglySorted lt l ->
  l !! j = Some k -> off <= j -> j - off <= fuel -> scan_base fuel l k off = j.
Proof.
  intros Hs Hj. revert off. induction fuel as [|fuel IH]; intros off Hoff Hf; cbn [scan_base]; [lia|].
  destruct (lookup_lt_is_Some_2 l off) as [t Ht]; [apply lookup_lt_Some in Hj; lia|].
  rewrite (at_nat_lookup _ _ _ Ht). destruct (Nat.eq_dec off j) as [->|].
  - assert (t = k) as -> by congruence. destruct (Nat.ltb_spec k k); [lia|done].
  - pose proof (sorted_lookup_lt l off j t k Hs Ht Hj). destruct (Nat.ltb_spec t k); [|lia]. apply IH; lia.
Qed.

Lemma rollback_loop (l : list (nat * T)) (tb : list nat) off (data : list T) : StronglySorted lt tb ->
  sorted_keys l -> length data = length tb ->
  (forall k, k ∈ l.*1 -> exists j, off <= j /\ tb !! j = Some k) ->
  let '(_, data') := foldl (fun st e => let j := scan_base (length tb) tb e.1 st.1 in (j, <[j := e.2]> st.2))
                       (off, data) l in
  length data' = length tb /\ forall j t, tb !! j = Some t -> data' !! j = kmap l !! t ∪ data !! j.
Proof.
  intros Hs. revert off data. induction l as [|[k x] l IH]; intros off data Hl Hd Hin; cbn [foldl fst snd].
  { split; [done|]. intros j t _. cbn. rewrite lookup_empty. by destruct (data !! j). }
  pose proof Hl as [Hl' Hlt]%sorted_keys_cons.
  destruct (Hin k) as (j0 & Hoff & Hj0); [by left|]. pose proof (lookup_lt_Some _ _ _ Hj0).
  rewrite (scan_base_spec _ _ off j0) by (done || lia).
  specialize (IH j0 (<[j0:=x]> data)). destruct (foldl _ _ l) as [off' data'].
  destruct IH as [Hlen Hget]; [done|by rewrite length_insert| |].
  { intros k' Hk'. destruct (Hin k') as (j' & _ & Hj'); [by right|]. exists j'. split; [|done].
    specialize (Hlt k' Hk'). destruct (Nat.le_gt_cases j0 j'); [done|].
    pose proof (sorted_lookup_lt tb j' j0 k' k Hs Hj' Hj0). lia. }
  split; [done|]. intros j t Ht. rewrite (Hget j t Ht), kmap_cons.
  destruct (decide (t = k)) as [->|].
  - assert (j = j0) as -> by (by apply (sorted_lookup_inj tb j j0 k)).
    rewrite (kmap_below k x l k Hl), list_lookup_insert_eq, lookup_insert_eq by lia. by destruct (data !! j0).
  - rewrite lookup_insert_ne by done. rewrite list_lookup_insert_ne; [done|]. intros ->. congruence.
Qed.

(** The rows of the rolled back info get their old values back in the root. *)
Lemma rollback_info_spec (base_info rb : UpdateInfo T) : wf_info base_info -> wf_info rb ->
  (forall r, r ∈ tuples rb -> r ∈ tuples base_info) ->
  exists vals, RollbackInfo base_info rb = set_data (tuples base_info) vals base_info /\
    wf_info (set_data (tuples base_info) vals base_info) /\
    info_map (set_data (tuples base_info) vals base_info) = info_map rb ∪ info_map base_info.
Proof.
  intros Hb Hr Hin. unfold RollbackInfo.
  rewrite <- (length_entries rb) by apply Hr.
  erewrite (for_range_foldl (entries rb) _
    (fun st e => let j := scan_base (length (tuples base_info)) (tuples base_info) e.1 st.1 in (j, <[j := e.2]> st.2))).
  2: { intros i [t x] [off data] [Ht Hx]%entries_lookup. cbn [fst snd].
       by rewrite (at_nat_lookup _ _ _ Ht), (at_lookup _ _ _ Hx). }
  pose proof (rollback_loop (entries rb) (tuples base_info) 0 (values base_info)
                (wf_info_sorted _ Hb) (wf_info_keys _ Hr) (wf_info_values _ Hb)) as Hloop.
  destruct (foldl _ _ _) as [off vals]. destruct Hloop as [Hlen Hget].
  { intros k. rewrite entries_fst by apply Hr. intros Hk%Hin.
    apply list_elem_of_lookup in Hk as [j Hj]. exists j. split; [lia|done]. }
  exists vals. split; [done|]. assert (wf_info (set_data (tuples base_info) vals base_info)) as Hw.
  { destruct Hb. split; cbn; done. }
  split; [done|]. apply map_eq. intros r. apply option_eq. intros y. rewrite lookup_union.
  split.
  - intros (j & Ht & Hv)%info_map_lookup; [|done]. cbn in Ht, Hv. rewrite (Hget _ _ Ht) in Hv.
    fold (info_map rb) in Hv. destruct (info_map rb !! r) as [z|] eqn:E.
    + rewrite union_Some_l in *. done.
    + rewrite (left_id_L None (∪)) in *. apply info_map_lookup; eauto.
  - intros Hy. assert (r ∈ tuples base_info) as (j & Hj)%list_elem_of_lookup.
    { destruct (info_map rb !! r) eqn:E.
      - apply Hin, info_map_dom; [done|]. rewrite E. eauto.
      - rewrite (left_id_L None (∪)) in Hy. apply info_map_dom; [done|]. rewrite Hy. eauto. }
    apply info_map_lookup; [done|]. exists j. split; [done|]. cbn.
    destruct (lookup_lt_is_Some_2 (values base_info) j) as [z Hz].
    { rewrite (wf_info_values _ Hb). by apply lookup_lt_Some in Hj. }
    assert (info_map base_info !! r = Some z) as Ez by (apply info_map_lookup; eauto).
    rewrite (Hget _ _ Hj), Hz, <- Hy, Ez. done.
Qed.
End Rolling.

(** ** The merge join of the conflict check *)

Section Joining.
Context (ids : list Z) (sel : SelectionVector) (offset : Z).

Definition relative_id (i : nat) : Z := (rd ids (get_index sel i) - offset)%Z.

Lemma join_conflicts_spec fuel count (tuples : list nat) i j :
  (forall i i', i < i' < count -> (relative_id i < relative_id i')%Z) -> StronglySorted lt tuples ->
  i < count -> j < length tuples -> (count - i) + (length tuples - j) <= fuel ->
  join_conflicts fuel ids sel count offset tuples i j = true <->
  exists i' j' t, i <= i' < count /\ j <= j' /\ tuples !! j' = Some t /\ relative_id i' = Z.of_nat t.
Proof.
  intros Hid Hs. revert i j. induction fuel as [|fuel IH]; intros i j Hi Hj Hf; cbn [join_conflicts]; [lia|].
  destruct (lookup_lt_is_Some_2 tuples j Hj) as [t Ht]. rewrite (at_nat_lookup _ _ _ Ht).
  fold (relative_id i).
  destruct (Z.eqb_spec (relative_id i) (Z.of_nat t)) as [E|E].
  { split; [|done]. intros _. exists i, j, t. split_and!; [lia|lia|lia|done|done]. }
  assert (Hid_le : forall i', i <= i' < count -> (relative_id i <= relative_id i')%Z).
  { intros i' Hi'. destruct (Nat.eq_dec i i') as [->|]; [lia|]. specialize (Hid i i'). lia. }
  assert (Hs_le : forall j' t', j <= j' -> tuples !! j' = Some t' -> t <= t').
  { intros j' t' Hj' Ht'. destruct (Nat.eq_dec j j') as [->|]; [by assert (t = t') as -> by congruence|].
    pose proof (sorted_lookup_lt tuples j j' t t' Hs Ht Ht'). lia. }
  destruct (Z.ltb_spec (relative_id i) (Z.of_nat t)).
  - (* the id is smaller than every remaining tuple *)
    assert (Hnot : forall i' j' t', i' = i -> j <= j' -> tuples !! j' = Some t' -> relative_id i' <> Z.of_nat t').
    { intros i' j' t' -> Hj' Ht'. specialize (Hs_le j' t' Hj' Ht'). lia. }
    destruct (Nat.eqb_spec (S i) count).
    + split; [done|]. intros (i' & j' & t' & Hi' & Hj' & Ht' & E'). exfalso. apply (Hnot i' j' t'); [lia|done..].
    + rewrite IH by lia. split; intros (i' & j' & t' & Hi' & Hj' & Ht' & E'); exists i', j', t';
        (split; [|done]); [lia|]. destruct (Nat.eq_dec i' i); [|lia]. exfalso. by apply (Hnot i' j' t').
  - assert (Hnot : forall i' j' t', i <= i' < count -> j' = j -> tuples !! j' = Some t' -> relative_id i' <> Z.of_nat t').
    { intros i' j' t' Hi' -> Ht'. assert (t' = t) as -> by congruence. specialize (Hid_le i' Hi'). lia. }
    destruct (Nat.eqb_spec (S j) (length tuples)).
    + split; [done|]. intros (i' & j' & t' & Hi' & Hj' & Ht' & E'). exfalso.
      apply (Hnot i' j' t'); [done| |done|done]. apply lookup_lt_Some in Ht'. lia.
    + rewrite IH by lia. split; intros (i' & j' & t' & Hi' & Hj' & Ht' & E'); exists i', j', t';
        (split; [done|]; split; [|done]); [lia|]. destruct (Nat.eq_dec j' j); [|lia]. exfalso. by apply (Hnot i' j' t').
Qed.
End Joining.

(** ** The validity column *)

Section Validity.
Context {VS : VectorSize}.

Definition mask_covers (m : ValidityMask) : Prop := mask_ok m /\ capacity m = STANDARD_VECTOR_SIZE.

Lemma mask_covers_set i v m : mask_covers m -> mask_covers (SetRow i v m).
Proof. intros [? ?]. split; [by apply mask_ok_set|by rewrite capacity_set]. Qed.

Lemma merge_validity_info_spec (info : UpdateInfo bool) m : wf_info info -> mask_covers m ->
  mask_covers (MergeValidityInfo info m) /\
  forall r, r < STANDARD_VECTOR_SIZE ->
    RowIsValid (MergeValidityInfo info m) r = default (RowIsValid m r) (info_map info !! r).
Proof.
  intros Hwf Hm. unfold MergeValidityInfo. rewrite <- (length_entries info) by apply Hwf.
  rewrite (for_range_foldl (entries info) _ (fun m e => SetRow e.1 e.2 m)).
  2: { intros i [t x] s [Ht Hx]%entries_lookup. cbn. by rewrite (at_nat_lookup _ _ _ Ht), (at_lookup _ _ _ Hx). }
  unfold info_map. pose proof (wf_info_keys _ Hwf) as Hs.
  assert (Forall (fun k => k < STANDARD_VECTOR_SIZE) (entries info).*1) as Hb.
  { rewrite entries_fst by apply Hwf. apply Hwf. }
  revert m Hm Hs Hb. induction (entries info) as [|[k x] l IH]; intros m Hm Hs Hb; cbn [foldl fst snd]; [done|].
  pose proof Hs as [Hs' _]%sorted_keys_cons. cbn in Hb. apply Forall_cons in Hb as [Hk Hb].
  destruct (IH (SetRow k x m)) as [H1 H2]; [by apply mask_covers_set|done|done|].
  split; [done|]. intros r Hr. destruct Hm as [Hm Hc].
  rewrite H2, kmap_cons, row_is_valid_set by (try done; rewrite ?Hc; done).
  destruct (decide (r = k)) as [->|]; simpl_map; [|by destruct (decide (k = r))].
  rewrite (kmap_below k x l k Hs) by lia. cbn. by destruct (decide _).
Qed.
End Validity.
