(* ===== verification/UpdateLaws.v ===== *)
(** * The contract of the functions an update segment selects by type

    [SegmentLaws] states what the functions of [SegmentFunctions] promise, in terms of the maps of the
    infos; the data columns and the validity column both satisfy it. The segment is verified against
    the contract. *)

From S2P Require Import Prelude Snapshot ValidityMask UpdateInfo UpdateSegment UpdateInfoFacts.
From Stdlib Require Import Sorted.

Local Open Scope nat_scope.

(** Comparing equal means being equal: what skipping an update relies on. *)
Class ColumnTypeLaws (T : Type) `{ColumnType T} : Prop :=
  { type_equals_eq x y : type_equals x y = true -> x = y }.

(** The positions a selection selects. *)
Definition selected (sel : SelectionVector) (count : nat) : list nat := map (get_index sel) (seq 0 count).

Class SegmentLaws (T Vec : Type) `{SegmentFunctions T Vec} := {
  vec_get : Vec -> nat -> T;
  vec_fits : Vec -> nat -> Prop;
  (** the value saved for a row of the base table, and the rows for which it is the row's value *)
  base_value : Vec -> nat -> T;
  base_plain : Vec -> nat -> Prop;
  (** the value and the selection of update position [i] *)
  update_value : UnifiedVectorFormat T -> nat -> T;
  update_selects : UnifiedVectorFormat T -> nat -> bool;

  base_plain_get v r : r < STANDARD_VECTOR_SIZE -> vec_fits v STANDARD_VECTOR_SIZE -> base_plain v r ->
    base_value v r = vec_get v r;
  law_fetch info v : wf_info info -> vec_fits v STANDARD_VECTOR_SIZE ->
    vec_fits (fetch_info info v) STANDARD_VECTOR_SIZE /\
    forall r, r < STANDARD_VECTOR_SIZE -> vec_get (fetch_info info v) r = default (vec_get v r) (info_map info !! r);
  law_range info start end_ offset n v : wf_info info -> vec_fits v n -> offset + (end_ - start) <= n ->
    vec_fits (fetch_info_range info start end_ offset v) n /\
    forall j, j < n -> vec_get (fetch_info_range info start end_ offset v) j =
      if decide (offset <= j < offset + (end_ - start))
      then default (vec_get v j) (info_map info !! (start + (j - offset))) else vec_get v j;
  law_rows info offsets sel fetch_offset count vector_offset result_offset n v :
    wf_info info -> vec_fits v n -> result_offset + fetch_offset + count <= n ->
    let v' := fetch_info_rows info offsets sel fetch_offset count vector_offset result_offset v in
    vec_fits v' n /\
    forall j, j < n -> vec_get v' j =
      if decide (result_offset + fetch_offset <= j < result_offset + fetch_offset + count)
      then default (vec_get v j)
             (info_map info !! (at_nat offsets (get_index sel (j - result_offset)) - vector_offset))
      else vec_get v j;
  law_initialize node base_data info update ids sel count rgs :
    let row i := offset_in_vector (rd ids (get_index sel i)) rgs in
    tuples node = map row (seq 0 count) -> tuples info = map row (seq 0 count) ->
    initialize_update_function node base_data info update sel =
      (set_data (tuples node) (map (base_value base_data) (tuples node)) node,
       set_data (tuples info) (map (update_value update) (selected sel count)) info);
  law_merge base_info base_data node update ids count sel rgs :
    wf_info base_info -> wf_info node ->
    let row := updated_row base_info ids sel rgs in
    StronglySorted lt (map row (seq 0 count)) ->
    Forall (fun r => r < STANDARD_VECTOR_SIZE) (map row (seq 0 count)) ->
    Nat.min (N base_info + count) STANDARD_VECTOR_SIZE <= max base_info ->
    STANDARD_VECTOR_SIZE <= max node ->
    exists l1 l2,
      merge_update_function base_info base_data node update ids count sel rgs =
        (set_data (map fst l1) (map snd l1) base_info, set_data (map fst l2) (map snd l2) node) /\
      wf_info (set_data (map fst l1) (map snd l1) base_info) /\
      wf_info (set_data (map fst l2) (map snd l2) node) /\
      info_map (set_data (map fst l1) (map snd l1) base_info) =
        kmap (map (fun i => (row i, update_value update (get_index sel i))) (seq 0 count)) ∪ info_map base_info /\
      info_map (set_data (map fst l2) (map snd l2) node) =
        info_map node ∪
        kmap (map (fun i => (row i, default (base_value base_data (row i)) (info_map base_info !! row i)))
                (seq 0 count));
  law_rollback base_info info : wf_info base_info -> wf_info info -> (forall r, r ∈ tuples info -> r ∈ tuples base_info) ->
    exists vals, rollback_update_function base_info info = set_data (tuples base_info) vals base_info /\
      wf_info (set_data (tuples base_info) vals base_info) /\
      info_map (set_data (tuples base_info) vals base_info) = info_map info ∪ info_map base_info;
  law_statistics stats update count :
    let '(_, n, sel) := statistics_update_function stats update count in
    selected sel n = List.filter (update_selects update) (seq 0 count);
  (** the updates that are dropped write the value the base row has *)
  law_effective update ids count sel base_data offset :
    let '(n, sel') := get_effective_updates update ids count sel base_data offset in
    exists keep : nat -> bool,
      selected sel' n = List.filter keep (selected sel count) /\
      forall i, keep i = false ->
        let r := offset_in_vector (rd ids i) offset in
        base_plain base_data r /\ update_value update i = base_value base_data r
}.

Lemma selected_some (l : list nat) : selected (Some l) (length l) = l.
Proof.
  unfold selected. cbn. induction l as [|x l IH] using rev_ind; [done|].
  rewrite length_app, Nat.add_1_r, seq_S, map_app. cbn. f_equal.
  - etransitivity; [|exact IH]. apply map_ext_in. intros i [_ Hi]%in_seq. cbn. unfold at_nat. by rewrite lookup_app_l by lia.
  - unfold at_nat. by rewrite lookup_app_r, Nat.sub_diag by lia.
Qed.

(** A loop that appends the positions it keeps. *)
Lemma for_range_filter (keep : nat -> bool) (f : nat -> nat) n (body : nat -> list nat -> list nat) s :
  (forall i s, i < n -> body i s = if keep (f i) then s ++ [f i] else s) ->
  for_range 0 n body s = s ++ List.filter keep (map f (seq 0 n)).
Proof.
  induction n as [|n IH]; intros Hb; [by rewrite app_nil_r|].
  rewrite for_range_S_r, seq_S, map_app, List.filter_app, IH, Hb by (lia || (intros; apply Hb; lia)).
  cbn. destruct (keep (f n)); [by rewrite app_assoc|by rewrite app_nil_r].
Qed.

(** ** The data columns *)

Section DataLaws.
Context {VS : VectorSize} {T : Type} `{ColumnTypeLaws T}.

Definition data_selects (update : UnifiedVectorFormat T) (i : nat) : bool :=
  CannotHaveNull (format_validity update) || RowIsValid (format_validity update) (get_index (format_sel update) i).

Lemma filter_id {A} (p : A -> bool) l : (forall x, x ∈ l -> p x = true) -> List.filter p l = l.
Proof.
  induction l as [|x l IH]; intros Hp; [done|]. cbn. rewrite Hp by left.
  f_equal. apply IH. intros y Hy. apply Hp. by right.
Qed.

Lemma data_statistics stats update count :
  let '(_, n, sel) := TemplatedUpdateNumericStatistics stats update count in
  selected sel n = List.filter (data_selects update) (seq 0 count).
Proof.
  unfold TemplatedUpdateNumericStatistics, data_selects.
  destruct (CannotHaveNull (format_validity update)) eqn:E; cbn [orb].
  - unfold selected. cbn. rewrite map_id, filter_id; done.
  - match goal with |- context [for_range 0 count ?body (?st, [])] =>
      assert (Hl : forall n, (for_range 0 n body (st, [])).2 =
        List.filter (fun i => RowIsValid (format_validity update) (get_index (format_sel update) i)) (seq 0 n))
    end.
    { intros n. induction n as [|n IH]; [done|].
      rewrite for_range_S_r, seq_S, List.filter_app by lia. cbn [List.filter plus].
      destruct (for_range 0 n _ _) as [st sel]. cbn [snd] in IH. rewrite IH.
      destruct (RowIsValid _ _); cbn [snd]; [done|by rewrite app_nil_r]. }
    specialize (Hl count). destruct (for_range 0 count _ _) as [st sel]. cbn [snd] in Hl. subst sel.
    apply selected_some.
Qed.

Definition data_value (v : FlatVector T) (r : nat) : T :=
  if RowIsValid (flat_validity v) r then at_ (flat_data v) r else type_default.

Lemma data_effective update ids count sel base_data offset :
  let '(n, sel') := TemplatedGetEffectiveUpdates update ids count sel base_data offset in
  exists keep : nat -> bool,
    selected sel' n = List.filter keep (selected sel count) /\
    forall i, keep i = false ->
      let r := offset_in_vector (rd ids i) offset in
      RowIsValid (flat_validity base_data) r = true /\
      at_ (format_data update) (get_index (format_sel update) i) = data_value base_data r.
Proof.
  unfold TemplatedGetEffectiveUpdates.
  set (same i := RowIsValid (flat_validity base_data) (offset_in_vector (rd ids i) offset) &&
    type_equals (at_ (format_data update) (get_index (format_sel update) i))
                (at_ (flat_data base_data) (offset_in_vector (rd ids i) offset))).
  exists (fun i => negb (same i)). rewrite selected_some. split.
  - rewrite (for_range_filter (fun i => negb (same i)) (get_index sel)); [done|].
    intros i s _. cbv zeta. fold (same (get_index sel i)). by destruct (same _).
  - intros i [Hv Heq]%negb_false_iff%andb_true_iff. cbv zeta. split; [done|].
    apply type_equals_eq in Heq. unfold data_value. by rewrite Hv.
Qed.

Lemma at_insert (l : list T) i j x : i < length l -> at_ (<[i := x]> l) j = if decide (i = j) then x else at_ l j.
Proof.
  intros Hi. unfold at_. destruct (decide (i = j)) as [<-|]; [by rewrite list_lookup_insert_eq|by rewrite list_lookup_insert_ne].
Qed.

Lemma data_fetch info (v : FlatVector T) : wf_info info -> length (flat_data v) = STANDARD_VECTOR_SIZE ->
  length (flat_data (fetch_info info v)) = STANDARD_VECTOR_SIZE /\
  forall r, r < STANDARD_VECTOR_SIZE ->
    at_ (flat_data (fetch_info info v)) r = default (at_ (flat_data v) r) (info_map info !! r).
Proof.
  intros Hwf Hv. cbn. split; [by apply length_merge_update_info|]. intros r Hr.
  unfold at_. rewrite merge_update_info_lookup by done.
  destruct (info_map info !! r); [by rewrite union_Some_l|by rewrite (left_id_L None (∪))].
Qed.
End DataLaws.

Lemma fetch_rows_ok {VS : VectorSize} {T V} `{ColumnType T} (put : nat -> T -> V -> V) (ok : V -> Prop)
    (info : UpdateInfo T) (row : nat -> nat) start count v :
  (forall i x v, ok v -> ok (put i x v)) -> ok v ->
  ok (for_range 0 count (fun idx v =>
    match FindUpdatedTuple info (row idx) with
    | Some update_idx => put (start + idx) (at_ (values info) update_idx) v
    | None => v
    end) v).
Proof.
  intros Hok Hv. apply (for_range_ind (fun _ v => ok v)); [lia|done|].
  intros i w _ Hw. destruct (FindUpdatedTuple info (row i)); auto.
Qed.

(** The loop of a row fetch, for any update function [put] of a vector with a getter. *)
Lemma fetch_rows_get {VS : VectorSize} {T V A} `{ColumnType T} (put : nat -> T -> V -> V) (get : V -> nat -> A)
    (ok : V -> Prop) (inj : T -> A) (info : UpdateInfo T) (row : nat -> nat) start count v j :
  wf_info info ->
  (forall i x v, ok v -> ok (put i x v)) ->
  (forall i x v, i < start + count -> ok v -> get (put i x v) j = if decide (i = j) then inj x else get v j) ->
  ok v ->
  let v' := for_range 0 count (fun idx v =>
    match FindUpdatedTuple info (row idx) with
    | Some update_idx => put (start + idx) (at_ (values info) update_idx) v
    | None => v
    end) v in
  get v' j = if decide (start <= j < start + count)
             then default (get v j) (inj <$> info_map info !! (row (j - start))) else get v j.
Proof.
  intros Hwf Hok Hput Hv. cbv zeta. induction count as [|count IH].
  { rewrite decide_False by lia. done. }
  assert (Hput' : forall i x v, i < start + count -> ok v -> get (put i x v) j = if decide (i = j) then inj x else get v j).
  { intros. apply Hput; [lia|done]. }
  specialize (IH Hput').
  pose proof (fetch_rows_ok put ok info row start count v Hok Hv) as Hok'.
  rewrite for_range_S_r by lia.
  destruct (decide (j = start + count)) as [->|Hne].
  - rewrite decide_True by lia. replace (start + count - start) with count by lia.
    rewrite decide_False in IH by lia. rewrite <- (find_updated_tuple_spec info _ Hwf).
    destruct (FindUpdatedTuple info (row count)); cbn [fmap option_fmap option_map default from_option]; [|done].
    rewrite Hput by (done || lia). by rewrite decide_True.
  - assert (Hd : forall a b : A, (if decide (start <= j < start + S count) then a else b) =
                        (if decide (start <= j < start + count) then a else b)).
    { intros a b. repeat case_decide; (done || lia). }
    rewrite Hd, <- IH. destruct (FindUpdatedTuple info (row count)); [|done].
    rewrite Hput by (done || lia). by rewrite decide_False by lia.
Qed.

Section DataLaws2.
Context {VS : VectorSize} {T : Type} `{ColumnTypeLaws T}.

Lemma data_range (info : UpdateInfo T) start end_ offset n (v : FlatVector T) :
  wf_info info -> length (flat_data v) = n -> offset + (end_ - start) <= n ->
  length (flat_data (fetch_info_range info start end_ offset v)) = n /\
  forall j, j < n -> at_ (flat_data (fetch_info_range info start end_ offset v)) j =
    if decide (offset <= j < offset + (end_ - start))
    then default (at_ (flat_data v) j) (info_map info !! (start + (j - offset))) else at_ (flat_data v) j.
Proof.
  intros Hwf Hv Hn. cbn. unfold MergeUpdateInfoRange.
  rewrite merge_range_ref by (apply Hwf || lia). rewrite drop_0.
  split; [apply range_ref_ok; [intros; by rewrite length_insert|done]|]. intros j Hj.
  rewrite (range_ref_get (fun j (x : T) v => <[j:=x]> v) at_ (fun v => length v = n) id).
  - change (kmap (entries info)) with (info_map info).
    destruct (info_map info !! _); cbn; repeat case_decide; (done || lia).
  - intros. by rewrite length_insert.
  - intros i x w Hi Hw. apply at_insert. lia.
  - by apply wf_info_keys.
  - done.
Qed.

Lemma data_rows (info : UpdateInfo T) offsets sel fetch_offset count vector_offset result_offset n (v : FlatVector T) :
  wf_info info -> length (flat_data v) = n -> result_offset + fetch_offset + count <= n ->
  let v' := fetch_info_rows info offsets sel fetch_offset count vector_offset result_offset v in
  length (flat_data v') = n /\
  forall j, j < n -> at_ (flat_data v') j =
    if decide (result_offset + fetch_offset <= j < result_offset + fetch_offset + count)
    then default (at_ (flat_data v) j)
           (info_map info !! (at_nat offsets (get_index sel (j - result_offset)) - vector_offset))
    else at_ (flat_data v) j.
Proof.
  intros Hwf Hv Hn. cbn. unfold FetchRowsInfo.
  split.
  - apply (fetch_rows_ok (fun j (x : T) v => <[j:=x]> v) (fun v => length v = n) info
      (fun idx => at_nat offsets (get_index sel (fetch_offset + idx)) - vector_offset)
      (result_offset + fetch_offset)); [intros; by rewrite length_insert|done].
  - intros j Hj.
    rewrite (fetch_rows_get (fun j (x : T) v => <[j:=x]> v) at_ (fun v => length v = n) id info
      (fun idx => at_nat offsets (get_index sel (fetch_offset + idx)) - vector_offset)
      (result_offset + fetch_offset) count (flat_data v) j Hwf);
      [|intros; by rewrite length_insert|intros; apply at_insert; lia|done].
    case_decide; [|done]. replace (fetch_offset + (j - (result_offset + fetch_offset))) with (j - result_offset) by lia.
    by destruct (info_map info !! _).
Qed.

Lemma data_initialize (node : UpdateInfo T) base_data info update ids sel count rgs :
  let row i := offset_in_vector (rd ids (get_index sel i)) rgs in
  tuples node = map row (seq 0 count) -> tuples info = map row (seq 0 count) ->
  InitializeUpdateData node base_data info update sel =
    (set_data (tuples node) (map (data_value base_data) (tuples node)) node,
     set_data (tuples info) (map (fun i => at_ (format_data update) (get_index (format_sel update) i)) (selected sel count)) info).
Proof.
  intros row Hn Hi. unfold InitializeUpdateData, N. f_equal; f_equal.
  - transitivity (map (data_value base_data) (selected (Some (tuples node)) (length (tuples node)))).
    + unfold selected. rewrite map_map. apply map_ext. intros i. unfold data_value. cbn. by destruct (RowIsValid _ _).
    + by rewrite selected_some.
  - rewrite Hi, length_map, length_seq. unfold selected. by rewrite map_map.
Qed.

#[export] Program Instance data_laws : SegmentLaws T (FlatVector T) := {|
  vec_get v := at_ (flat_data v);
  vec_fits v n := length (flat_data v) = n;
  base_value := data_value;
  base_plain v r := RowIsValid (flat_validity v) r = true;
  update_value update i := at_ (format_data update) (get_index (format_sel update) i);
  update_selects := data_selects;
  law_fetch := data_fetch;
  law_range := data_range;
  law_rows := data_rows;
  law_initialize := data_initialize;
  law_statistics := data_statistics;
  law_effective := data_effective
|}.
Next Obligation. intros v r _ _ Hv. unfold data_value. by rewrite Hv. Qed.
Next Obligation.
  intros base_info base_data node update ids count sel rgs Hb Hn row Hs Hr Hmb Hmn.
  exact (merge_update_spec base_info node (at_ (flat_data base_data)) (at_ (format_data update)) (format_sel update)
    ids count sel rgs (Some (flat_validity base_data)) Hb Hn Hs Hr Hmb Hmn).
Qed.
Next Obligation. apply rollback_info_spec. Qed.
End DataLaws2.

(** ** The validity column *)

Section ValidityLaws.
Context {VS : VectorSize}.

Definition mask_fits (m : ValidityMask) (n : nat) : Prop := mask_ok m /\ capacity m = n.

Lemma mask_fits_set i x m n : mask_fits m n -> mask_fits (SetRow i x m) n.
Proof. intros [? ?]. split; [by apply mask_ok_set|by rewrite capacity_set]. Qed.

Lemma mask_set_get i x m n j : i < n -> j < n -> mask_fits m n ->
  RowIsValid (SetRow i x m) j = if decide (i = j) then x else RowIsValid m j.
Proof. intros Hi Hj [Hok Hc]. apply row_is_valid_set; rewrite ?Hc; done. Qed.

Lemma merge_validity_range_ref (info : UpdateInfo bool) n i start end_ offset m :
  length (values info) = N info -> i + n = N info ->
  merge_validity_range n i start end_ offset info m = range_ref SetRow (drop i (entries info)) start end_ offset m.
Proof.
  intros Hl. revert i m. induction n as [|n IH]; intros i m Hn; cbn [merge_validity_range].
  { rewrite drop_ge; [done|]. rewrite length_entries by done. lia. }
  destruct (lookup_lt_is_Some_2 (entries info) i) as [[r x] Hi].
  { rewrite length_entries by done. lia. }
  rewrite (drop_entries _ _ _ _ Hi). cbn [range_ref]. pose proof Hi as [Ht Hx]%entries_lookup.
  rewrite (at_nat_lookup _ _ _ Ht), (at_lookup _ _ _ Hx), !IH by lia. done.
Qed.

Lemma validity_fetch (info : UpdateInfo bool) m : wf_info info -> mask_fits m STANDARD_VECTOR_SIZE ->
  mask_fits (MergeValidityInfo info m) STANDARD_VECTOR_SIZE /\
  forall r, r < STANDARD_VECTOR_SIZE ->
    RowIsValid (MergeValidityInfo info m) r = default (RowIsValid m r) (info_map info !! r).
Proof. apply merge_validity_info_spec. Qed.

Lemma validity_range (info : UpdateInfo bool) start end_ offset n m :
  wf_info info -> mask_fits m n -> offset + (end_ - start) <= n ->
  mask_fits (MergeUpdateInfoRangeValidity info start end_ offset m) n /\
  forall j, j < n -> RowIsValid (MergeUpdateInfoRangeValidity info start end_ offset m) j =
    if decide (offset <= j < offset + (end_ - start))
    then default (RowIsValid m j) (info_map info !! (start + (j - offset))) else RowIsValid m j.
Proof.
  intros Hwf Hm Hn. unfold MergeUpdateInfoRangeValidity.
  rewrite merge_validity_range_ref by (apply Hwf || lia). rewrite drop_0.
  split; [apply (range_ref_ok SetRow (fun m => mask_fits m n)); [intros; by apply mask_fits_set|done]|]. intros j Hj.
  rewrite (range_ref_get SetRow RowIsValid (fun m => mask_fits m n) id).
  - change (kmap (entries info)) with (info_map info).
    destruct (info_map info !! _); cbn; repeat case_decide; (done || lia).
  - intros. by apply mask_fits_set.
  - intros i x w Hi Hw. apply (mask_set_get i x w n); [lia|done..].
  - by apply wf_info_keys.
  - done.
Qed.

Lemma validity_rows (info : UpdateInfo bool) offsets sel fetch_offset count vector_offset result_offset n m :
  wf_info info -> mask_fits m n -> result_offset + fetch_offset + count <= n ->
  let m' := FetchRowsInfoValidity info offsets sel fetch_offset count vector_offset result_offset m in
  mask_fits m' n /\
  forall j, j < n -> RowIsValid m' j =
    if decide (result_offset + fetch_offset <= j < result_offset + fetch_offset + count)
    then default (RowIsValid m j)
           (info_map info !! (at_nat offsets (get_index sel (j - result_offset)) - vector_offset))
    else RowIsValid m j.
Proof.
  intros Hwf Hm Hn. cbv zeta. unfold FetchRowsInfoValidity. split.
  - apply (fetch_rows_ok SetRow (fun m => mask_fits m n) info
      (fun idx => at_nat offsets (get_index sel (fetch_offset + idx)) - vector_offset)
      (result_offset + fetch_offset)); [intros; by apply mask_fits_set|done].
  - intros j Hj.
    rewrite (fetch_rows_get SetRow RowIsValid (fun m => mask_fits m n) id info
      (fun idx => at_nat offsets (get_index sel (fetch_offset + idx)) - vector_offset)
      (result_offset + fetch_offset) count m j Hwf);
      [|intros; by apply mask_fits_set|intros; apply (mask_set_get _ _ _ n); (done || lia)|done].
    case_decide; [|done]. replace (fetch_offset + (j - (result_offset + fetch_offset))) with (j - result_offset) by lia.
    by destruct (info_map info !! _).
Qed.

Lemma row_is_valid_no_mask m r : CannotHaveNull m = true -> RowIsValid m r = true.
Proof. unfold CannotHaveNull, RowIsValid. by destruct (validity_mask m). Qed.

Lemma validity_initialize (node : UpdateInfo bool) base_mask info update ids sel count rgs :
  let row i := offset_in_vector (rd ids (get_index sel i)) rgs in
  tuples node = map row (seq 0 count) -> tuples info = map row (seq 0 count) ->
  InitializeUpdateValidity node base_mask info update sel =
    (set_data (tuples node) (map (RowIsValid base_mask) (tuples node)) node,
     set_data (tuples info)
       (map (fun i => RowIsValid (format_validity update) (get_index (format_sel update) i)) (selected sel count)) info).
Proof.
  intros row Hn Hi. unfold InitializeUpdateValidity, N. f_equal; f_equal.
  - transitivity (map (RowIsValid base_mask) (selected (Some (tuples node)) (length (tuples node)))).
    + unfold selected. rewrite map_map. destruct (CannotHaveNull base_mask) eqn:E; apply map_ext; intros i; [|done].
      by rewrite row_is_valid_no_mask.
    + by rewrite selected_some.
  - rewrite Hi, length_map, length_seq. unfold selected. rewrite map_map.
    destruct (CannotHaveNull (format_validity update)) eqn:E; apply map_ext; intros i; [|done].
    by rewrite row_is_valid_no_mask.
Qed.

Lemma validity_statistics stats (update : UnifiedVectorFormat bool) count :
  let '(_, n, sel) := UpdateValidityStatistics stats update count in
  selected sel n = List.filter (fun _ => true) (seq 0 count).
Proof. cbn. unfold selected. cbn. rewrite map_id, filter_id; done. Qed.

Lemma validity_effective (update : UnifiedVectorFormat bool) ids count sel base_mask offset :
  let '(n, sel') := GetEffectiveUpdatesValidity update ids count sel base_mask offset in
  exists keep : nat -> bool,
    selected sel' n = List.filter keep (selected sel count) /\
    forall i, keep i = false ->
      let r := offset_in_vector (rd ids i) offset in
      True /\ RowIsValid (format_validity update) (get_index (format_sel update) i) = RowIsValid base_mask r.
Proof.
  unfold GetEffectiveUpdatesValidity.
  set (same i := Bool.eqb (RowIsValid base_mask (offset_in_vector (rd ids i) offset))
                          (RowIsValid (format_validity update) (get_index (format_sel update) i))).
  exists (fun i => negb (same i)). rewrite selected_some. split.
  - rewrite (for_range_filter (fun i => negb (same i)) (get_index sel)); [done|].
    intros i s _. cbv zeta. fold (same (get_index sel i)). by destruct (same _).
  - intros i Heq%negb_false_iff. cbv zeta. split; [done|]. symmetry. by apply Bool.eqb_prop.
Qed.

#[export] Program Instance validity_laws : SegmentLaws bool ValidityMask := {|
  vec_get := RowIsValid;
  vec_fits := mask_fits;
  base_value := RowIsValid;
  base_plain _ _ := True;
  update_value update i := RowIsValid (format_validity update) (get_index (format_sel update) i);
  update_selects _ _ := true;
  law_fetch := validity_fetch;
  law_range := validity_range;
  law_rows := validity_rows;
  law_initialize := validity_initialize;
  law_statistics := validity_statistics;
  law_effective := validity_effective
|}.
Next Obligation. done. Qed.
Next Obligation.
  intros base_info base_mask node update ids count sel rgs Hb Hn row Hs Hr Hmb Hmn.
  exact (merge_update_spec base_info node (RowIsValid base_mask) (RowIsValid (format_validity update))
    (format_sel update) ids count sel rgs None Hb Hn Hs Hr Hmb Hmn).
Qed.
Next Obligation. apply rollback_info_spec. Qed.
End ValidityLaws.
