(* ===== verification/UpdateVersions.v ===== *)
(** * The versions of a row: what the update segment implements

    The abstract store keeps, for every row, the history of the values written to it, newest first,
    each with the version (transaction id or commit id) that wrote it. Reading finds the newest version
    seen. [row_rep] relates the history of a row to what the update infos keep of it: the newest value,
    and for every version that somebody may not see the value it wrote over. *)

From S2P Require Import Prelude Snapshot.
From Stdlib Require Import Sorted.

Local Open Scope Z_scope.

(** ** Histories *)

Section Histories.
Context {T : Type}.
Implicit Types (h : list (Z * T)) (v : SnapshotView).

Definition newest (floor : T) h : T := match h with [] => floor | (_, x) :: _ => x end.

(** The newest version the view sees, or the value of the base table. *)
Fixpoint read_version v (floor : T) h : T :=
  match h with
  | [] => floor
  | (a, x) :: h' => if Sees v a then x else read_version v floor h'
  end.

Definition seen_by v h : Prop := forall a x, (a, x) ∈ h -> Sees v a = true.

Definition relabel_version (tid c a : Z) : Z := if a =? tid then c else a.
Definition relabel (tid c : Z) h : list (Z * T) := map (fun e => (relabel_version tid c e.1, e.2)) h.
Definition remove_version (tid : Z) h : list (Z * T) := List.filter (fun e => negb (e.1 =? tid)) h.

(** Versions do not increase towards the past, and whatever a version was written over is its own or
    committed. *)
Definition supersedes (a b : Z) : Prop := a = b \/ (b < a /\ b < MAX_COMMIT_ID).

Definition ordered h : Prop := StronglySorted supersedes (map fst h).

(** What a transaction wrote over was its own or visible to it. *)
Definition own_writes_on_top v h : Prop := forall pre x post, h = pre ++ (transaction_id v, x) :: post ->
  forall b y, (b, y) ∈ post -> Sees v b = true.

(** A view that sees a version sees everything below it. *)
Fixpoint downward v h : Prop :=
  match h with [] => True | (a, _) :: h' => (Sees v a = true -> seen_by v h') /\ downward v h' end.

Lemma ordered_cons a x h : ordered ((a, x) :: h) <->
  ordered h /\ forall b y, (b, y) ∈ h -> supersedes a b.
Proof.
  unfold ordered. cbn. split.
  - intros [Hs Hf]%StronglySorted_inv. split; [done|]. rewrite Forall_forall in Hf.
    intros b y Hin. apply Hf. apply list_elem_of_In, in_map_iff. exists (b, y). by rewrite <- list_elem_of_In.
  - intros [Hs Hf]. constructor; [done|]. apply Forall_forall. intros b Hb.
    apply list_elem_of_In, in_map_iff in Hb as ([b' y] & <- & Hin). apply (Hf b' y). by apply list_elem_of_In.
Qed.

Lemma own_writes_cons v a x h : own_writes_on_top v ((a, x) :: h) <->
  (a = transaction_id v -> seen_by v h) /\ own_writes_on_top v h.
Proof.
  split.
  - intros Hown. split.
    + intros -> b y Hin. by apply (Hown [] x h eq_refl b y).
    + intros pre x' post -> b y Hin. by apply (Hown ((a, x) :: pre) x' post eq_refl b y).
  - intros [Ha Hown] pre x' post E b y Hin. destruct pre as [|[a' x''] pre]; injection E as -> -> ->.
    + by apply (Ha eq_refl b y).
    + by apply (Hown pre x' post eq_refl b y).
Qed.

Lemma ordered_downward v h : WfView v -> ordered h -> own_writes_on_top v h ->
  (forall a x, (a, x) ∈ h -> a <> transaction_id v -> Sees v a = true -> a < VisibilityBound.value (visibility_bound v)) ->
  downward v h.
Proof.
  intros Hv. induction h as [|[a x] h IH]; [done|]. intros [Ho Hsup]%ordered_cons [Ha Hown]%own_writes_cons Hc.
  cbn. split; [|apply IH; [done|done|]; intros b y Hb; apply (Hc b y); by right].
  intros Hs. destruct (Z.eq_dec a (transaction_id v)) as [->|Hne]; [by apply Ha|].
  assert (a < VisibilityBound.value (visibility_bound v)) by (by apply (Hc a x); [left|..]).
  intros b y Hb. apply Sees_spec. left. destruct (Hsup b y Hb); lia.
Qed.

Lemma seen_below_bound v a : Sees v a = true -> a <> transaction_id v ->
  a < VisibilityBound.value (visibility_bound v).
Proof. rewrite Sees_spec. tauto. Qed.

Lemma downward_intro v h : WfView v -> ordered h -> own_writes_on_top v h -> downward v h.
Proof. intros Hv Ho Hw. apply ordered_downward; [done..|]. intros. by apply seen_below_bound. Qed.

Lemma seen_by_read v floor h : seen_by v h -> read_version v floor h = newest floor h.
Proof. destruct h as [|[a x] h]; [done|]. intros Hs. cbn. by rewrite (Hs a x) by left. Qed.
End Histories.

(** ** Representation: what the infos of a chain keep of a row *)

Section Representation.
Context {T : Type} (floor : T).
Implicit Types (h c : list (Z * T)) (v : SnapshotView).

(** [c] lists, newest first, the versions whose info has the row, with the value written over. Versions
    below [low] may be gone; a version that wrote a row twice keeps the first value it wrote over. *)
Inductive row_rep (low : Z) : list (Z * T) -> list (Z * T) -> Prop :=
  | rep_nil : row_rep low [] []
  | rep_kept a x h c : row_rep low h c -> (forall y, (a, y) ∉ h) -> row_rep low ((a, x) :: h) ((a, newest floor h) :: c)
  | rep_again a x y h c : row_rep low ((a, y) :: h) c -> row_rep low ((a, x) :: (a, y) :: h) c
  | rep_gone a x h c : a < low -> row_rep low h c -> row_rep low ((a, x) :: h) c.

Lemma row_rep_mono low low' h c : low <= low' -> row_rep low h c -> row_rep low' h c.
Proof. intros Hl. induction 1; try by constructor. apply rep_gone; [lia|done]. Qed.

Lemma row_rep_versions low h c a y : row_rep low h c -> (a, y) ∈ c -> exists x, (a, x) ∈ h.
Proof.
  induction 1 as [|b x h c Hrep IH Hnew|b x z h c Hrep IH|b x h c Hb Hrep IH]; intros Hin.
  - by apply elem_of_nil in Hin.
  - apply elem_of_cons in Hin as [[= -> ->]|Hin]; [exists x; by left|].
    destruct (IH Hin) as [x' Hx']. exists x'. by right.
  - destruct (IH Hin) as [x' Hx']. exists x'. by right.
  - destruct (IH Hin) as [x' Hx']. exists x'. by right.
Qed.

Lemma row_rep_kept low h c a x : row_rep low h c -> (a, x) ∈ h -> low <= a -> exists y, (a, y) ∈ c.
Proof.
  intros Hrep. revert a x.
  induction Hrep as [|b z h c Hrep IH Hnew|b z z' h c Hrep IH|b z h c Hb Hrep IH]; intros a x Hin Hlow.
  - by apply elem_of_nil in Hin.
  - apply elem_of_cons in Hin as [[= -> ->]|Hin]; [eexists; by left|].
    destruct (IH a x Hin Hlow) as [y Hy]. exists y. by right.
  - apply elem_of_cons in Hin as [[= -> ->]|Hin]; [|by apply (IH a x)].
    apply (IH b z'); [by left|done].
  - apply elem_of_cons in Hin as [[= -> ->]|Hin]; [lia|by apply (IH a x)].
Qed.

(** The walk along the chain: the values written over, from the newest version to the oldest one,
    as far as the version is not seen. *)
Definition undo_unseen v (x : T) c : T := foldl (fun x e => if Sees v e.1 then x else e.2) x c.

Lemma undo_unseen_seen v x low h c : row_rep low h c -> seen_by v h -> undo_unseen v x c = x.
Proof.
  intros Hrep Hs. assert (forall a y, (a, y) ∈ c -> Sees v a = true) as Hc.
  { intros a y Hin. destruct (row_rep_versions _ _ _ _ _ Hrep Hin) as [z Hz]. by apply (Hs a z). }
  clear Hrep Hs h. revert x. induction c as [|[a y] c IH]; intros x; [done|].
  unfold undo_unseen. cbn. rewrite (Hc a y) by left. apply IH. intros b z Hin. apply (Hc b z). by right.
Qed.

Lemma undo_unseen_start v x x' c a y : (a, y) ∈ c -> Sees v a = false -> undo_unseen v x c = undo_unseen v x' c.
Proof.
  revert x x'. induction c as [|[b z] c IH]; intros x x' Hin Ha; [by apply elem_of_nil in Hin|].
  unfold undo_unseen. cbn. destruct (Sees v b) eqn:E; [|done].
  apply elem_of_cons in Hin as [[= -> ->]|Hin]; [congruence|]. by apply IH.
Qed.

Lemma unseen_above_bound v a : Sees v a = false -> VisibilityBound.value (visibility_bound v) <= a.
Proof. intros E. apply Z.le_ngt. intros Hlt. rewrite (proj2 (Sees_spec v a)) in E by (by left). done. Qed.

(** Undoing what a view does not see leaves the newest version it does see. *)
Lemma undo_unseen_read v low h c : row_rep low h c -> downward v h ->
  low <= VisibilityBound.value (visibility_bound v) ->
  undo_unseen v (newest floor h) c = read_version v floor h.
Proof.
  intros Hrep Hd Hlow. induction Hrep as [|a x h c Hrep IH Hnew|a x z h c Hrep IH|a x h c Ha Hrep IH]; [done|..];
    destruct Hd as [Hs Hd]; specialize (IH Hd); cbn in *.
  - unfold undo_unseen. cbn. destruct (Sees v a); [|by apply IH].
    eapply undo_unseen_seen; [done|by apply Hs].
  - destruct (Sees v a) eqn:E; [eapply undo_unseen_seen; [done|by apply Hs]|].
    rewrite <- IH. apply unseen_above_bound in E as Hb.
    destruct (row_rep_kept _ _ _ a z Hrep) as [y Hy]; [by left|lia|].
    by apply (undo_unseen_start v x z c a y).
  - assert (Sees v a = true) as E by (apply Sees_spec; left; lia). rewrite E.
    eapply undo_unseen_seen; [done|by apply Hs].
Qed.

(** A row has an unseen version exactly when its chain does: what the conflict check looks at. *)
Lemma unseen_in_chain v low h c : row_rep low h c -> low <= VisibilityBound.value (visibility_bound v) ->
  (exists a x, (a, x) ∈ h /\ Sees v a = false) <-> (exists a y, (a, y) ∈ c /\ Sees v a = false).
Proof.
  intros Hrep Hlow. split.
  - intros (a & x & Hin & Ha). pose proof (unseen_above_bound _ _ Ha).
    destruct (row_rep_kept _ _ _ a x Hrep) as [y Hy]; [done|lia|]. eauto.
  - intros (a & y & Hin & Ha). destruct (row_rep_versions _ _ _ _ _ Hrep Hin) as [x Hx]. eauto.
Qed.

Lemma relabel_in {A} tid cid (h : list (Z * A)) a x :
  (a, x) ∈ relabel tid cid h <-> exists b, (b, x) ∈ h /\ a = relabel_version tid cid b.
Proof.
  unfold relabel. rewrite list_elem_of_In, in_map_iff. setoid_rewrite list_elem_of_In. split.
  - intros ([b y] & [= <- <-] & Hin). eauto.
  - intros (b & Hin & ->). by exists (b, x).
Qed.

Lemma row_rep_relabel low tid cid h c : low <= tid -> low <= cid -> (forall x, (cid, x) ∉ h) ->
  row_rep low h c -> row_rep low (relabel tid cid h) (relabel tid cid c).
Proof.
  intros Ht Hc Hfresh Hrep. revert Hfresh.
  induction Hrep as [|a x h c Hrep IH Hnew|a x z h c Hrep IH|a x h c Ha Hrep IH]; intros Hfresh; cbn in *; [by constructor|..];
    (ospecialize (IH _); [intros y Hy; apply (Hfresh y); by right|]).
  - replace (newest floor h) with (newest floor (relabel tid cid h)) by (destruct h as [|[]]; done).
    constructor; [done|]. intros y (b & Hb & E)%relabel_in.
    unfold relabel_version in E. destruct (Z.eqb_spec a tid), (Z.eqb_spec b tid); subst; [by apply (Hnew y)|..].
    + apply (Hfresh y). by right.
    + apply (Hfresh x). by left.
    + by apply (Hnew y).
  - by constructor.
  - apply rep_gone; [|done]. unfold relabel_version. destruct (Z.eqb_spec a tid); lia.
Qed.

Lemma remove_version_cons {A} a b (x : A) (h : list (Z * A)) :
  remove_version a ((b, x) :: h) = if b =? a then remove_version a h else (b, x) :: remove_version a h.
Proof. unfold remove_version. cbn. by destruct (b =? a). Qed.

(** Removing the infos of a version nobody can miss. *)
Lemma row_rep_remove low a h c : a < low -> row_rep low h c -> row_rep low h (remove_version a c).
Proof.
  intros Ha. induction 1 as [|b x h c Hrep IH Hnew|b x z h c Hrep IH|b x h c Hb Hrep IH]; cbn in *; try by constructor.
  destruct (Z.eqb_spec b a) as [->|]; cbn; by constructor.
Qed.

Lemma remove_version_not_in {A} a (h : list (Z * A)) : (forall x, (a, x) ∉ h) -> remove_version a h = h.
Proof.
  unfold remove_version. induction h as [|[b x] h IH]; intros Hn; [done|]. cbn [List.filter fst].
  destruct (Z.eqb_spec b a) as [->|].
  - exfalso. apply (Hn x). by left.
  - cbn [negb]. rewrite IH; [done|]. intros y Hy. apply (Hn y). by right.
Qed.

Lemma ordered_not_below a x h tid : ordered ((a, x) :: h) -> a <> tid -> MAX_COMMIT_ID <= tid ->
  forall y, (tid, y) ∉ h.
Proof. intros [_ Hs]%ordered_cons Hne Ht y Hin. destruct (Hs _ _ Hin); lia. Qed.

(** Rolling back: the newest version becomes the value the transaction wrote over. *)
Lemma row_rep_rollback low tid h c : ordered h -> MAX_COMMIT_ID <= tid -> low <= MAX_COMMIT_ID ->
  row_rep low h c ->
  row_rep low (remove_version tid h) (remove_version tid c) /\
  forall old, (tid, old) ∈ c -> old = newest floor (remove_version tid h).
Proof.
  intros Ho Ht Hlow Hrep.
  assert (Hother : forall a x h c, ordered ((a, x) :: h) -> a <> tid -> row_rep low ((a, x) :: h) c ->
    row_rep low (remove_version tid ((a, x) :: h)) (remove_version tid c) /\
    forall old, (tid, old) ∈ c -> old = newest floor (remove_version tid ((a, x) :: h))).
  { clear -Ht. intros a x h c Ho Hne Hrep.
    assert (forall y, (tid, y) ∉ (a, x) :: h) as Hn.
    { intros y [[= -> ->]|Hin]%elem_of_cons; [done|]. by eapply ordered_not_below. }
    assert (forall y, (tid, y) ∉ c) as Hnc.
    { intros y Hin. destruct (row_rep_versions _ _ _ _ _ Hrep Hin) as [z Hz]. by apply (Hn z). }
    rewrite !remove_version_not_in by done. split; [done|]. intros old Hin. by apply Hnc in Hin. }
  induction Hrep as [|a x h c Hrep IH Hnew|a x z h c Hrep IH|a x h c Ha Hrep IH].
  - split; [constructor|]. by intros old ?%elem_of_nil.
  - destruct (Z.eq_dec a tid) as [->|]; [|apply Hother; [done..|by constructor]].
    apply ordered_cons in Ho as [Ho _]. destruct (IH Ho) as [H1 H2].
    rewrite !remove_version_cons, Z.eqb_refl. split; [done|]. intros old [[= ->]|Hin]%elem_of_cons; [|by apply H2].
    by rewrite remove_version_not_in.
  - destruct (Z.eq_dec a tid) as [->|]; [|apply Hother; [done..|by constructor]].
    apply ordered_cons in Ho as [Ho _]. destruct (IH Ho) as [H1 H2].
    by rewrite (remove_version_cons tid tid x), Z.eqb_refl.
  - apply Hother; [done|lia|by apply rep_gone].
Qed.

Lemma newest_remove_unchanged low tid h c : ordered h -> MAX_COMMIT_ID <= tid -> low <= MAX_COMMIT_ID ->
  row_rep low h c -> (forall y, (tid, y) ∉ c) -> remove_version tid h = h.
Proof.
  intros Ho Ht Hlow Hrep Hn. apply remove_version_not_in. intros x Hin.
  destruct (row_rep_kept _ _ _ _ _ Hrep Hin) as [y Hy]; [lia|]. by apply (Hn y).
Qed.
End Representation.

(** ** The invariant of a row *)

(** The timeline of a running system: [now] bounds the commits so far, no active or future transaction
    misses a version below [low]. *)
Record clock_ok (active : list SnapshotView) (low now : Z) : Prop := {
  clock_low : low <= now;
  clock_now : now <= MAX_COMMIT_ID;
  clock_views : forall v, v ∈ active ->
    WfView v /\ low <= VisibilityBound.value (visibility_bound v) <= now;
  clock_ids : NoDup (transaction_id <$> active)
}.

Lemma clock_same_id active low now v w : clock_ok active low now -> v ∈ active -> w ∈ active ->
  transaction_id v = transaction_id w -> v = w.
Proof.
  intros [_ _ _ Hnd] (i & Hi)%list_elem_of_lookup (j & Hj)%list_elem_of_lookup E.
  assert (i = j) as ->; [|congruence].
  apply (NoDup_lookup _ i j (transaction_id v) Hnd); rewrite list_lookup_fmap.
  - by rewrite Hi.
  - rewrite Hj. cbn. by rewrite E.
Qed.

Lemma max_commit_lt_id v : WfView v -> MAX_COMMIT_ID < transaction_id v.
Proof. intros [_ [Hi _]]. unfold MAX_COMMIT_ID. lia. Qed.

Section RowInvariant.
Context {T : Type} (floor : T).
Implicit Types (h c : list (Z * T)) (v : SnapshotView).

Record row_inv (active : list SnapshotView) (low now : Z) h c : Prop := {
  row_inv_rep : row_rep floor low h c;
  row_inv_ordered : ordered h;
  row_inv_own : forall v, v ∈ active -> own_writes_on_top v h;
  row_inv_versions : forall a x, (a, x) ∈ h -> a < now \/ exists v, v ∈ active /\ a = transaction_id v
}.

Lemma row_inv_nil active low now : row_inv active low now [] [].
Proof.
  split; [constructor|constructor| |].
  - intros v _ pre x post E. by destruct pre.
  - intros a x Hin. by apply elem_of_nil in Hin.
Qed.

Context {active : list SnapshotView} {low now : Z}.

(** What an active transaction reads. *)
Lemma row_inv_read v h c : clock_ok active low now -> v ∈ active -> row_inv active low now h c ->
  undo_unseen v (newest floor h) c = read_version v floor h.
Proof.
  intros [_ _ Hviews _] Hv [Hrep Ho Hown _]. destruct (Hviews v Hv) as [Hwf Hb].
  apply undo_unseen_read with low; [done| |lia]. by apply downward_intro; [..|apply Hown].
Qed.

Definition write_chain (tid : Z) (old : T) c : list (Z * T) :=
  if bool_decide (tid ∈ c.*1) then c else (tid, old) :: c.

Lemma in_fst {A} (l : list (Z * A)) a : a ∈ l.*1 <-> exists x, (a, x) ∈ l.
Proof.
  rewrite list_elem_of_fmap. split.
  - intros ([b x] & -> & Hin). by exists x.
  - intros (x & Hin). by exists (a, x).
Qed.

(** A write of a row all of whose versions the writer sees. *)
Lemma row_inv_write v x h c : clock_ok active low now -> v ∈ active -> seen_by v h ->
  row_inv active low now h c ->
  row_inv active low now ((transaction_id v, x) :: h) (write_chain (transaction_id v) (newest floor h) c).
Proof.
  intros Hc Hv Hs [Hrep Ho Hown Hver]. pose proof Hc as [Hl Hn Hviews _]. destruct (Hviews v Hv) as [Hwf Hb].
  pose proof (max_commit_lt_id v Hwf) as Ht. split.
  - unfold write_chain. case_bool_decide as Hin.
    + apply in_fst in Hin as [y Hy]. destruct (row_rep_versions _ _ _ _ _ _ Hrep Hy) as [z Hz].
      destruct h as [|[a y'] h]; [by apply elem_of_nil in Hz|].
      assert (a = transaction_id v) as ->; [|by constructor].
      destruct (Z.eq_dec a (transaction_id v)) as [|Hne]; [done|].
      exfalso. apply elem_of_cons in Hz as [[= ? ?]|Hz]; [congruence|].
      by apply (ordered_not_below a y' h (transaction_id v) Ho Hne ltac:(lia) z).
    + apply rep_kept; [done|]. intros y Hy. apply Hin, in_fst.
      destruct (row_rep_kept _ _ _ _ _ _ Hrep Hy) as [z Hz]; [lia|]. eauto.
  - apply ordered_cons. split; [done|]. intros b y Hin. specialize (Hs b y Hin). unfold supersedes.
    apply Sees_spec in Hs as [Hs|Hs]; [right; lia|by left].
  - intros w Hw. apply own_writes_cons. split; [|by apply Hown].
    intros E. assert (v = w) as <- by (by eapply clock_same_id). done.
  - intros a y [[= -> ->]|Hin]%elem_of_cons; [right; eauto|by eapply Hver].
Qed.

Definition others (tid : Z) : list SnapshotView := List.filter (fun v => negb (transaction_id v =? tid)) active.

Lemma others_in tid v : v ∈ others tid <-> v ∈ active /\ transaction_id v <> tid.
Proof.
  unfold others. rewrite !list_elem_of_In, List.filter_In, negb_true_iff, Z.eqb_neq. done.
Qed.

Lemma own_writes_relabel tid cid w h : transaction_id w <> tid -> transaction_id w <> cid ->
  Sees w tid = false -> own_writes_on_top w h -> own_writes_on_top w (relabel tid cid h).
Proof.
  intros Hne Hnc Hns. induction h as [|[a x] h IH]; intros Hown; [intros pre x post E; by destruct pre|].
  apply own_writes_cons in Hown as [Ha Hown]. apply own_writes_cons. split; [|by apply IH].
  cbn. unfold relabel_version. destruct (Z.eqb_spec a tid); [congruence|].
  intros E b y (b' & Hb' & ->)%relabel_in. specialize (Ha E b' y Hb').
  unfold relabel_version. destruct (Z.eqb_spec b' tid); [congruence|done].
Qed.

Lemma remove_version_in {A} tid (h : list (Z * A)) b y :
  (b, y) ∈ remove_version tid h <-> (b, y) ∈ h /\ b <> tid.
Proof.
  unfold remove_version. by rewrite !list_elem_of_In, List.filter_In, negb_true_iff, Z.eqb_neq.
Qed.

Lemma own_writes_remove tid w h : own_writes_on_top w h -> own_writes_on_top w (remove_version tid h).
Proof.
  induction h as [|[a x] h IH]; intros Hown; [done|]. apply own_writes_cons in Hown as [Ha Hown].
  rewrite remove_version_cons. destruct (a =? tid); [by apply IH|]. apply own_writes_cons.
  split; [|by apply IH]. intros E b y Hin. apply (Ha E b y).
  by apply remove_version_in in Hin as [Hin _].
Qed.

Lemma ordered_remove tid h : ordered h -> ordered (remove_version tid h).
Proof.
  induction h as [|[a x] h IH]; intros Ho; [done|]. apply ordered_cons in Ho as [Ho Hs].
  rewrite remove_version_cons. destruct (a =? tid); [by apply IH|]. apply ordered_cons.
  split; [by apply IH|]. intros b y Hin. apply (Hs b y).
  by apply remove_version_in in Hin as [Hin _].
Qed.

(** Commit: the versions of the transaction get the commit id. *)
Lemma row_inv_commit v cid h c : clock_ok active low now -> v ∈ active -> now <= cid < MAX_COMMIT_ID ->
  row_inv active low now h c ->
  row_inv (others (transaction_id v)) low (cid + 1)
    (relabel (transaction_id v) cid h) (relabel (transaction_id v) cid c).
Proof.
  intros Hc Hv Hcid [Hrep Ho Hown Hver]. pose proof Hc as [Hl Hn Hviews _]. destruct (Hviews v Hv) as [Hwf Hb].
  pose proof (max_commit_lt_id v Hwf) as Ht.
  assert (Hbelow : forall a x, (a, x) ∈ h -> a < now \/ MAX_COMMIT_ID < a).
  { intros a x Hin. destruct (Hver a x Hin) as [?|(w & Hw & ->)]; [by left|right].
    apply max_commit_lt_id. by apply Hviews. }
  split.
  - apply row_rep_relabel; [lia|lia| |done]. intros x Hin. destruct (Hbelow _ _ Hin); lia.
  - clear Hrep Hown Hver. induction h as [|[a x] h IH]; [constructor|].
    apply ordered_cons in Ho as [Ho Hsup]. change (relabel (transaction_id v) cid ((a, x) :: h)) with
      ((relabel_version (transaction_id v) cid a, x) :: relabel (transaction_id v) cid h).
    apply ordered_cons. split; [apply IH; [done|]; intros b y Hin; apply (Hbelow b y); by right|].
    intros b y (b' & Hb' & ->)%relabel_in. pose proof (Hsup b' y Hb') as Hs. unfold supersedes, relabel_version in *.
    pose proof (Hbelow b' y ltac:(by right)).
    destruct (Z.eqb_spec a (transaction_id v)), (Z.eqb_spec b' (transaction_id v)); lia.
  - intros w [Hw Hne]%others_in. destruct (Hviews w Hw) as [Hwfw Hbw]. pose proof (max_commit_lt_id w Hwfw).
    apply own_writes_relabel; [done|lia| |by apply Hown].
    apply Sees_uncommitted; [done| |done]. unfold IsCommitted. lia.
  - intros a x (b & Hb' & ->)%relabel_in. unfold relabel_version.
    destruct (Z.eqb_spec b (transaction_id v)); [left; lia|].
    destruct (Hver _ _ Hb') as [?|(w & Hw & ->)]; [left; lia|]. right. exists w. by rewrite others_in.
Qed.

(** Rollback: the versions of the transaction disappear. *)
Lemma row_inv_rollback v h c : clock_ok active low now -> v ∈ active -> row_inv active low now h c ->
  row_inv active low now (remove_version (transaction_id v) h) (remove_version (transaction_id v) c) /\
  (forall old, (transaction_id v, old) ∈ c -> old = newest floor (remove_version (transaction_id v) h)) /\
  ((forall old, (transaction_id v, old) ∉ c) -> remove_version (transaction_id v) h = h).
Proof.
  intros Hc Hv [Hrep Ho Hown Hver]. pose proof Hc as [Hl Hn Hviews _]. destruct (Hviews v Hv) as [Hwf Hb].
  pose proof (max_commit_lt_id v Hwf) as Ht.
  destruct (row_rep_rollback floor low (transaction_id v) h c Ho) as [Hrep' Hold]; [lia|lia|done|].
  split_and!; [|done|].
  - split; [done|by apply ordered_remove|intros w Hw; by apply own_writes_remove, Hown|].
    intros a x Hin. apply (Hver a x). by apply remove_version_in in Hin as [Hin _].
  - intros Hno. eapply newest_remove_unchanged; [done| | |done|done]; lia.
Qed.

(** The transaction is over once none of its versions is left. *)
Lemma row_inv_forget v h c : row_inv active low now h c -> (forall x, (transaction_id v, x) ∉ h) ->
  row_inv (others (transaction_id v)) low now h c.
Proof.
  intros [Hrep Ho Hown Hver] Hno. split; [done|done| |].
  - intros w [Hw _]%others_in. by apply Hown.
  - intros a x Hin. destruct (Hver a x Hin) as [?|(w & Hw & ->)]; [by left|right]. exists w.
    rewrite others_in. split_and!; [done| |done]. intros E. rewrite E in Hin. by apply (Hno x).
Qed.

(** Cleanup: versions below every bound may lose their infos. *)
Lemma row_inv_cleanup low' a h c : low <= low' -> a < low' -> row_inv active low now h c ->
  row_inv active low' now h (remove_version a c).
Proof.
  intros Hlow Ha [Hrep Ho Hown Hver]. split; try done.
  apply row_rep_remove; [done|]. by eapply row_rep_mono.
Qed.

(** A new transaction. *)
Lemma row_inv_begin v h c : clock_ok active low now -> WfView v ->
  transaction_id v ∉ transaction_id <$> active -> now <= VisibilityBound.value (visibility_bound v) ->
  row_inv active low now h c ->
  row_inv (v :: active) low (VisibilityBound.value (visibility_bound v)) h c.
Proof.
  intros [Hl Hn Hviews _] Hwf Hnew Hb [Hrep Ho Hown Hver]. pose proof (max_commit_lt_id v Hwf).
  split; [done|done| |].
  - intros w [->|Hw]%elem_of_cons; [|by apply Hown].
    intros pre x post ->. exfalso. destruct (Hver (transaction_id v) x) as [?|(w & Hw & E)]; [apply elem_of_app; right; by left|lia|].
    apply Hnew. rewrite E. by apply list_elem_of_fmap_2.
  - intros a x Hin. destruct (Hver a x Hin) as [?|(w & Hw & ->)]; [left; lia|right]. exists w. split; [by right|done].
Qed.
End RowInvariant.
