(* ===== verification/UpdateChains.v ===== *)
(** * Doubly linked chains of update infos

    The shape of the memory behind a root info: segments of a doubly linked list, walking them,
    linking a new info behind the root, unlinking one, and moving the root to a larger allocation. *)

From S2P Require Import Prelude Snapshot ValidityMask UpdateInfo UpdateSegment UpdateInfoFacts.

Local Open Scope nat_scope.

Section Chains.
Context {T : Type}.
Implicit Types (m : gmap positive (UpdateInfo T)) (info : UpdateInfo T) (l : list positive).

Definition ptrs info : UndoBufferPointer * UndoBufferPointer := (prev info, next info).

(** Everything but the pointers. *)
Definition payload info := (version_number info, vector_index info, max info, tuples info, values info).

(** A segment from [p] on, preceded by [pp]; its last info is [q], what follows it is [qn]. *)
Fixpoint dseg m (pp p : UndoBufferPointer) l (q qn : UndoBufferPointer) : Prop :=
  match l with
  | [] => pp = q /\ p = qn
  | a :: l' => p = Some a /\ exists n, ptrs <$> m !! a = Some (pp, n) /\ dseg m (Some a) n l' q qn
  end.

Lemma dseg_app m pp p l1 l2 q qn :
  dseg m pp p (l1 ++ l2) q qn <-> exists j jn, dseg m pp p l1 j jn /\ dseg m j jn l2 q qn.
Proof.
  revert pp p. induction l1 as [|a l1 IH]; intros pp p; cbn.
  - split; [intros; by exists pp, p|]. by intros (j & jn & [-> ->] & ?).
  - split.
    + intros (-> & n & Hn & (j & jn & H1 & H2)%IH). exists j, jn. split; [|done]. split; [done|]. by exists n.
    + intros (j & jn & (-> & n & Hn & H1) & H2). split; [done|]. exists n. split; [done|]. apply IH. by exists j, jn.
Qed.

Lemma dseg_frame m m' pp p l q qn :
  (forall a, a ∈ l -> ptrs <$> m' !! a = ptrs <$> m !! a) -> dseg m pp p l q qn -> dseg m' pp p l q qn.
Proof.
  revert pp p. induction l as [|a l IH]; intros pp p Hm; [done|].
  intros (-> & n & Hn & Hd). split; [done|]. exists n. rewrite Hm by left. split; [done|].
  apply IH; [|done]. intros b Hb. apply Hm. by right.
Qed.

(** The root [r] and the chain [l] behind it. *)
Definition linked m (r : positive) l : Prop :=
  NoDup (r :: l) /\ exists q, dseg m None (Some r) (r :: l) q None.

Lemma linked_frame m m' r l :
  (forall a, a ∈ r :: l -> ptrs <$> m' !! a = ptrs <$> m !! a) -> linked m r l -> linked m' r l.
Proof. intros Hm [Hnd (q & Hd)]. split; [done|]. exists q. by eapply dseg_frame. Qed.

Lemma linked_root m r l : linked m r l -> exists info, m !! r = Some info /\ prev info = None /\ next info = head l.
Proof.
  intros [_ (q & _ & n & Hn & Hd)]. destruct (m !! r) as [info|]; [|done]. injection Hn as Hp Hn.
  exists info. split_and!; [done..|]. rewrite Hn. destruct l; [by destruct Hd as [_ ->]|by destruct Hd as [-> _]].
Qed.

Lemma dseg_in m pp p l q qn a : dseg m pp p l q qn -> a ∈ l -> is_Some (m !! a).
Proof.
  revert pp p. induction l as [|b l IH]; intros pp p Hd Ha; [by apply elem_of_nil in Ha|].
  destruct Hd as (-> & n & Hn & Hd). apply elem_of_cons in Ha as [->|Ha]; [|by eapply IH].
  by destruct (m !! b).
Qed.

Lemma linked_in m r l a : linked m r l -> a ∈ r :: l -> is_Some (m !! a).
Proof. intros [_ (q & Hd)]. by eapply dseg_in. Qed.

Lemma dseg_last m pp p l a q qn : dseg m pp p (l ++ [a]) q qn ->
  q = Some a /\ exists j, dseg m pp p l j (Some a) /\ ptrs <$> m !! a = Some (j, qn).
Proof.
  intros (j & jn & H1 & (-> & n & Hn & <- & ->))%dseg_app. split; [done|]. by exists j.
Qed.

Lemma linked_node m r l1 a l2 : linked m r (l1 ++ a :: l2) ->
  exists info, m !! a = Some info /\ prev info = last (r :: l1) /\ next info = head l2.
Proof.
  intros [_ (q & Hd)]. change (r :: l1 ++ a :: l2) with ((r :: l1) ++ a :: l2) in Hd.
  apply dseg_app in Hd as (j & jn & H1 & (-> & n & Hn & H2)).
  destruct (m !! a) as [info|]; [|done]. injection Hn as Hp Hn. exists info. split_and!; [done| |].
  - rewrite Hp. destruct (exists_last (l := r :: l1)) as (l & b & E); [done|].
    rewrite E in *. apply dseg_last in H1 as [-> _]. by rewrite last_snoc.
  - rewrite Hn. destruct l2; [by destruct H2 as [_ ->]|by destruct H2 as [-> _]].
Qed.

Lemma linked_length m r l : linked m r l -> length l <= size m.
Proof.
  intros Hl. pose proof Hl as [Hnd _]. transitivity (size (list_to_set l : gset positive)).
  - rewrite size_list_to_set; [done|]. by apply NoDup_cons in Hnd as [_ ?].
  - rewrite <- (size_dom m). apply subseteq_size. intros a Ha%elem_of_list_to_set.
    apply elem_of_dom. eapply linked_in; [done|]. by right.
Qed.

Lemma ptrs_set_prev m a p : ptrs <$> alter (set_prev p) a m !! a = (fun x => (p, x.2)) <$> (ptrs <$> m !! a).
Proof. rewrite lookup_alter_eq. by destruct (m !! a). Qed.
Lemma ptrs_set_next m a p : ptrs <$> alter (set_next p) a m !! a = (fun x => (x.1, p)) <$> (ptrs <$> m !! a).
Proof. rewrite lookup_alter_eq. by destruct (m !! a). Qed.

(** ** Linking a new info behind the root *)

Lemma linked_push m r l p node :
  linked m r l -> p ∉ r :: l -> prev node = Some r -> next node = head l ->
  let m1 := match head l with Some n => alter (set_prev (Some p)) n m | None => m end in
  linked (<[p := node]> (alter (set_next (Some p)) r m1)) r (p :: l).
Proof.
  intros [Hnd (q & _ & n & Hn & Hd)] Hp Hprev Hnext m1.
  apply NoDup_cons in Hnd as [Hr Hnd]. rewrite not_elem_of_cons in Hp. destruct Hp as [Hpr Hpl].
  split.
  { constructor; [|by constructor]. intros [->|?]%elem_of_cons; done. }
  assert (Hn1 : ptrs <$> m1 !! r = ptrs <$> m !! r).
  { unfold m1. destruct l as [|b l]; cbn; [done|]. rewrite lookup_alter_ne; [done|].
    intros ->. apply Hr. by left. }
  exists (match l with [] => Some p | _ => q end). cbn. split; [done|].
  exists (Some p). split.
  { rewrite lookup_insert_ne, ptrs_set_next, Hn1, Hn by done. done. }
  split; [done|]. exists (head l). split.
  { rewrite lookup_insert_eq. cbn. unfold ptrs. by rewrite Hprev, Hnext. }
  destruct l as [|b l]; [done|]. destruct Hd as (-> & n' & Hn' & Hd). cbn. split; [done|].
  apply NoDup_cons in Hnd as [Hb Hnd].
  assert (b <> r) by (intros ->; apply Hr; by left). assert (b <> p) by (intros ->; apply Hpl; by left).
  exists n'. split.
  { rewrite lookup_insert_ne, lookup_alter_ne by done. unfold m1. cbn.
    rewrite ptrs_set_prev, Hn'. done. }
  eapply dseg_frame; [|done]. intros a Ha.
  rewrite lookup_insert_ne, lookup_alter_ne by (intros ->; first [by apply Hpl; right|by apply Hr; right]).
  unfold m1. cbn. rewrite lookup_alter_ne; [done|]. by intros ->.
Qed.

(** ** Unlinking *)

Definition unlink (p : positive) info m : gmap positive (UpdateInfo T) :=
  let m := match prev info with Some q => alter (set_next (next info)) q m | None => m end in
  match next info with Some q => alter (set_prev (prev info)) q m | None => m end.

Lemma linked_unlink m r l1 p l2 info : linked m r (l1 ++ p :: l2) -> m !! p = Some info ->
  linked (unlink p info m) r (l1 ++ l2).
Proof.
  intros Hl Hp. pose proof (linked_node _ _ _ _ _ Hl) as (info' & Hp' & Hprev & Hnext).
  rewrite Hp in Hp'. injection Hp' as <-. destruct Hl as [Hnd (q & Hd)].
  change (r :: l1 ++ p :: l2) with ((r :: l1) ++ p :: l2) in Hnd, Hd.
  destruct (exists_last (l := r :: l1)) as (l & a & E); [done|].
  unfold unlink. rewrite Hprev, Hnext, E, last_snoc. rewrite E in Hnd, Hd.
  apply dseg_app in Hd as (j & jn & H1 & (-> & n & Hn & H2)).
  apply dseg_last in H1 as [-> (j & H1 & Ha)].
  assert (Hpp : ptrs <$> m !! p = Some (prev info, next info)) by by rewrite Hp.
  rewrite Hn, Hprev, Hnext, E, last_snoc in Hpp. injection Hpp as ->.
  rewrite <- app_assoc in Hnd. cbn in Hnd.
  apply NoDup_app in Hnd as (Hnl & Hdis & Hnd). apply NoDup_cons in Hnd as [Hap Hnd].
  apply NoDup_cons in Hnd as [Hpl2 Hnd2]. rewrite not_elem_of_cons in Hap. destruct Hap as [Hap Hal2].
  split.
  { rewrite app_comm_cons, E, <- app_assoc. cbn. apply NoDup_app. split_and!; [done| |by constructor].
    intros b Hb. specialize (Hdis b Hb). rewrite !elem_of_cons in *. tauto. }
  assert (Hnotl : forall b, b ∈ l -> b <> a /\ b <> p /\ b ∉ l2).
  { intros b Hb. specialize (Hdis b Hb). rewrite !elem_of_cons in Hdis. tauto. }
  set (m1 := alter (set_next (head l2)) a m).
  exists (match l2 with [] => Some a | _ => q end).
  rewrite app_comm_cons, E, <- app_assoc. cbn. apply dseg_app. exists j, (Some a). split.
  { eapply dseg_frame; [|done]. intros b Hb. destruct (Hnotl b Hb) as (Hba & Hbp & Hbl).
    destruct l2 as [|c l2]; cbn.
    - unfold m1. by rewrite lookup_alter_ne.
    - rewrite lookup_alter_ne by (intros ->; apply Hbl; by left). unfold m1. by rewrite lookup_alter_ne. }
  split; [done|]. exists (head l2). split.
  { destruct l2 as [|c l2]; cbn.
    - unfold m1. by rewrite ptrs_set_next, Ha.
    - rewrite lookup_alter_ne by (intros ->; apply Hal2; by left). unfold m1. by rewrite ptrs_set_next, Ha. }
  destruct l2 as [|c l2]; [done|]. destruct H2 as (_ & n' & Hn' & H2). cbn. split; [done|].
  apply NoDup_cons in Hnd2 as [Hc Hnd2]. rewrite not_elem_of_cons in Hal2. destruct Hal2 as [Hac Hal2].
  exists n'. split.
  { rewrite ptrs_set_prev. unfold m1. by rewrite lookup_alter_ne, Hn'. }
  eapply dseg_frame; [|done]. intros b Hb.
  rewrite lookup_alter_ne by (by intros ->). unfold m1. rewrite lookup_alter_ne; [done|]. by intros ->.
Qed.

Lemma unlink_other m r l1 p l2 info q : linked m r (l1 ++ p :: l2) -> m !! p = Some info ->
  q ∉ r :: l1 ++ p :: l2 -> unlink p info m !! q = m !! q.
Proof.
  intros Hl Hp Hq. pose proof (linked_node _ _ _ _ _ Hl) as (i & Hi & Hprev & Hnext).
  assert (i = info) as -> by congruence. unfold unlink. rewrite Hprev, Hnext.
  destruct (exists_last (l := r :: l1)) as (l & a & E); [done|]. rewrite E, last_snoc.
  assert (a <> q) as Haq.
  { intros ->. apply Hq. rewrite app_comm_cons, E. apply elem_of_app. left. apply elem_of_app. right. by left. }
  destruct l2 as [|n l2]; cbn [head]; [by rewrite lookup_alter_ne|].
  rewrite !lookup_alter_ne; [done|done|]. intros ->. apply Hq. rewrite !elem_of_cons, elem_of_app, !elem_of_cons. tauto.
Qed.

(** ** Moving the root to a new allocation *)

Lemma linked_move m r l q root_info : linked m r l -> q ∉ r :: l ->
  prev root_info = None -> next root_info = head l ->
  let m1 := <[q := root_info]> m in
  linked (match head l with Some n => alter (set_prev (Some q)) n m1 | None => m1 end) q l.
Proof.
  intros [Hnd (e & _ & n & Hn & Hd)] Hq Hprev Hnext m1.
  apply NoDup_cons in Hnd as [Hr Hnd]. rewrite not_elem_of_cons in Hq. destruct Hq as [Hqr Hql].
  split; [by constructor|]. exists (match l with [] => Some q | _ => e end). cbn. split; [done|].
  exists (head l). split.
  { destruct l as [|b l]; cbn.
    - unfold m1. rewrite lookup_insert_eq. cbn. unfold ptrs. by rewrite Hprev, Hnext.
    - rewrite lookup_alter_ne by (intros ->; apply Hql; by left). unfold m1. rewrite lookup_insert_eq.
      cbn. unfold ptrs. by rewrite Hprev, Hnext. }
  destruct l as [|b l]; [done|]. destruct Hd as (-> & n' & Hn' & Hd). cbn. split; [done|].
  apply NoDup_cons in Hnd as [Hb Hnd]. rewrite not_elem_of_cons in Hql. destruct Hql as [Hqb Hql].
  exists n'. split.
  { rewrite ptrs_set_prev. unfold m1. by rewrite lookup_insert_ne, Hn'. }
  eapply dseg_frame; [|done]. intros a Ha. rewrite lookup_alter_ne by (by intros ->).
  unfold m1. rewrite lookup_insert_ne; [done|]. by intros ->.
Qed.
End Chains.

(** ** Walking *)

Section Walking.
Context {T Vec : Type} `{SegmentFunctions T Vec}.
Implicit Types (seg : UpdateSegment T) (l : list positive).

(** The infos of a chain, newest first. *)
Definition chain_infos (m : gmap positive (UpdateInfo T)) l : list (UpdateInfo T) := omap (m !!.) l.

Definition overlay {A} (view : SnapshotView) (callback : UpdateInfo T -> A -> A) (acc : A) (ls : list (UpdateInfo T)) : A :=
  foldl (fun acc info => if AppliesToTransaction view info then callback info acc else acc) acc ls.

Lemma updates_loop_walk {A} fuel seg view (callback : UpdateInfo T -> A -> A) pp p l q acc :
  dseg (infos seg) pp p l q None -> length l <= fuel ->
  updates_loop fuel seg view callback p acc = Some (overlay view callback acc (chain_infos (infos seg) l)).
Proof.
  revert fuel pp p acc. induction l as [|a l IH]; intros fuel pp p acc Hd Hf.
  { destruct Hd as [_ ->]. by destruct fuel. }
  destruct Hd as (-> & n & Hn & Hd). cbn in Hf. destruct fuel as [|fuel]; [lia|]. cbn [updates_loop].
  destruct (infos seg !! a) as [info|] eqn:E; [|done]. injection Hn as Hpp Hn'. cbn [mbind option_bind].
  rewrite Hn', (IH fuel (Some a) n) by (done || lia). unfold chain_infos. cbn. by rewrite E.
Qed.

Lemma updates_for_transaction_walk {A} seg view (callback : UpdateInfo T -> A -> A) r l root_info acc :
  linked (infos seg) r l -> infos seg !! r = Some root_info ->
  UpdatesForTransaction seg root_info view callback acc =
  Some (overlay view callback acc (root_info :: chain_infos (infos seg) l)).
Proof.
  intros Hl Hr. unfold UpdatesForTransaction. pose proof (linked_length _ _ _ Hl) as Hlen.
  destruct Hl as [_ (q & _ & n & Hn & Hd)]. rewrite Hr in Hn. injection Hn as _ ->.
  by rewrite (updates_loop_walk _ seg view callback (Some r) n l q).
Qed.
End Walking.
