(* ===== verification/UpdateInvariant.v ===== *)
(** * The invariant of the update chain of a vector

    [chain_inv] relates the root info and the infos behind it to the histories of the rows; the lemmas
    show that a write, a commit, a rollback and a cleanup keep it. They do not mention the pointers,
    which [UpdateChains] takes care of. *)

From S2P Require Import Prelude Snapshot ValidityMask UpdateInfo UpdateSegment UpdateInfoFacts UpdateVersions UpdateChains.
From Stdlib Require Import Sorted.

Local Open Scope nat_scope.

Section Invariant.
Context {VS : VectorSize} {T : Type}.
Implicit Types (R info : UpdateInfo T) (ls : list (UpdateInfo T)) (h : nat -> list (Z * T)) (v : SnapshotView).

(** What a list of infos keeps of a row. *)
Definition row_chain ls (row : nat) : list (Z * T) :=
  omap (fun info => pair (version_number info) <$> info_map info !! row) ls.

Record root_ok (vi : nat) R : Prop := {
  root_wf : wf_info R;
  root_version : version_number R = MAX_COMMIT_ID;
  root_vector : vector_index R = vi
}.

Record node_ok (vi : nat) R info : Prop := {
  node_wf : wf_info info;
  node_version : version_number info <> MAX_COMMIT_ID;
  node_vector : vector_index info = vi;
  node_size : 0 < N info;
  node_max : STANDARD_VECTOR_SIZE <= max info;
  node_rows : forall t, t ∈ tuples info -> t ∈ tuples R
}.

(** A transaction sees none of the infos above its own. *)
Definition own_info_order (active : list SnapshotView) (vs : list Z) : Prop :=
  forall v vs1 vs2, v ∈ active -> vs = vs1 ++ transaction_id v :: vs2 ->
    forall b, b ∈ vs1 -> Sees v b = false.

Record chain_inv (active : list SnapshotView) (low now : Z) (vi : nat) (floor : nat -> T) R ls h : Prop := {
  chain_root : root_ok vi R;
  chain_nodes : forall info, info ∈ ls -> node_ok vi R info;
  chain_distinct : NoDup (version_number <$> ls);
  chain_order : own_info_order active (version_number <$> ls);
  chain_rows row : row < STANDARD_VECTOR_SIZE -> row_inv (floor row) active low now (h row) (row_chain ls row);
  chain_newest row : row < STANDARD_VECTOR_SIZE ->
    default (floor row) (info_map R !! row) = newest (floor row) (h row);
  chain_kept row : row < STANDARD_VECTOR_SIZE -> is_Some (info_map R !! row) \/ h row = []
}.

Lemma row_chain_in ls row a y :
  (a, y) ∈ row_chain ls row <-> exists info, info ∈ ls /\ version_number info = a /\ info_map info !! row = Some y.
Proof.
  unfold row_chain. rewrite list_elem_of_omap. split.
  - intros (info & Hin & E). destruct (info_map info !! row) as [z|] eqn:Ez; [|done].
    injection E as <- <-. eauto.
  - intros (info & Hin & <- & E). exists info. by rewrite E.
Qed.

Lemma row_chain_app ls1 ls2 row : row_chain (ls1 ++ ls2) row = row_chain ls1 row ++ row_chain ls2 row.
Proof. apply omap_app. Qed.

Lemma row_chain_cons info ls row : row_chain (info :: ls) row =
  match info_map info !! row with Some y => (version_number info, y) :: row_chain ls row | None => row_chain ls row end.
Proof. unfold row_chain. cbn. by destruct (info_map info !! row). Qed.

(** ** Writing *)

Definition no_conflict v (um : gmap nat T) ls : Prop :=
  forall info, info ∈ ls -> Sees v (version_number info) = false ->
  forall row, is_Some (um !! row) -> info_map info !! row = None.

Definition write_history (tid : Z) (um : gmap nat T) h (row : nat) : list (Z * T) :=
  match um !! row with Some x => (tid, x) :: h row | None => h row end.

(** The infos after a write: the writer's own info gets the values written over, or a new one does. *)
Inductive written (vi : nat) (tid : Z) (olds : gmap nat T) ls : list (UpdateInfo T) -> Prop :=
  | written_own ls1 own own' ls2 :
      ls = ls1 ++ own :: ls2 -> version_number own = tid -> version_number own' = tid ->
      info_map own' = info_map own ∪ olds -> written vi tid olds ls (ls1 ++ own' :: ls2)
  | written_new own' :
      (forall info, info ∈ ls -> version_number info <> tid) -> version_number own' = tid ->
      info_map own' = olds -> written vi tid olds ls (own' :: ls).

Section Write.
Context {active : list SnapshotView} {low now : Z} (Hclock : clock_ok active low now).
Context (v : SnapshotView) (Hv : v ∈ active).
Context (vi : nat) (floor : nat -> T) (R : UpdateInfo T) (ls : list (UpdateInfo T)) (h : nat -> list (Z * T)).
Context (Hinv : chain_inv active low now vi floor R ls h).
Context (um : gmap nat T) (Hum : no_conflict v um ls).

Let tid := transaction_id v.
Let olds := map_imap (fun row _ => Some (default (floor row) (info_map R !! row))) um.

Lemma olds_lookup row : olds !! row = (fun _ => default (floor row) (info_map R !! row)) <$> um !! row.
Proof. unfold olds. rewrite map_lookup_imap. by destruct (um !! row). Qed.

(** The writer sees every version of the rows it writes. *)
Lemma write_sees row : row < STANDARD_VECTOR_SIZE -> is_Some (um !! row) -> seen_by v (h row).
Proof.
  intros Hr Hrow a x Hin. destruct (Sees v a) eqn:E; [done|exfalso].
  destruct Hclock as [_ _ Hviews _]. destruct (Hviews v Hv) as [_ Hb].
  pose proof (chain_rows _ _ _ _ _ _ _ _ Hinv row Hr) as Hri.
  destruct (proj1 (unseen_in_chain (floor row) v low (h row) (row_chain ls row)
              (row_inv_rep _ _ _ _ _ _ Hri) ltac:(lia))) as (b & y & Hin' & Eb); [eauto|].
  apply row_chain_in in Hin' as (info & Hin' & <- & Ey).
  rewrite (Hum info Hin' Eb row Hrow) in Ey. done.
Qed.

Lemma written_rows ls' row : written vi tid olds ls ls' -> row < STANDARD_VECTOR_SIZE ->
  row_chain ls' row =
  match um !! row with
  | Some _ => write_chain tid (newest (floor row) (h row)) (row_chain ls row)
  | None => row_chain ls row
  end.
Proof.
  intros Hw Hr. pose proof (olds_lookup row) as Hol. rewrite (chain_newest _ _ _ _ _ _ _ _ Hinv row Hr) in Hol.
  inversion Hw as [ls1 own own' ls2 E Ho Ho' Hmap|own' Hno Ho' Hmap]; subst ls'.
  - assert (forall info, info ∈ ls1 -> Sees v (version_number info) = false) as Habove.
    { intros info Hin. apply (chain_order _ _ _ _ _ _ _ _ Hinv v (version_number <$> ls1) (version_number <$> ls2) Hv).
      - rewrite E, fmap_app. cbn. by rewrite Ho.
      - by apply list_elem_of_fmap_2. }
    rewrite E, !row_chain_app, !row_chain_cons, Hmap, lookup_union, Hol, Ho, Ho'.
    destruct (um !! row) as [x|] eqn:Ex; cbn [fmap option_fmap option_map].
    + assert (row_chain ls1 row = []) as E1.
      { destruct (row_chain ls1 row) as [|[a y] c] eqn:Ec; [done|exfalso].
        assert ((a, y) ∈ row_chain ls1 row) as Hin by (rewrite Ec; left).
        apply row_chain_in in Hin as (info & Hin & <- & Ey).
        rewrite (Hum info) in Ey; [done|rewrite E; apply elem_of_app; by left|by apply Habove|eauto]. }
      rewrite E1. cbn. unfold write_chain. destruct (info_map own !! row) as [y|] eqn:Ey.
      * rewrite bool_decide_true by (cbn; by left). done.
      * rewrite bool_decide_false; [done|]. intros [y Hin]%in_fst.
        apply row_chain_in in Hin as (info & Hin & Hvs & Ei).
        pose proof (chain_distinct _ _ _ _ _ _ _ _ Hinv) as Hnd. rewrite E, fmap_app in Hnd. cbn in Hnd.
        apply NoDup_app in Hnd as (_ & _ & Hnd). apply NoDup_cons in Hnd as [Hnot _].
        apply Hnot. rewrite Ho, <- Hvs. by apply list_elem_of_fmap_2.
    + rewrite (right_id_L None (∪)). done.
  - rewrite row_chain_cons, Hmap, Hol, Ho'. destruct (um !! row) as [x|]; cbn; [|done].
    unfold write_chain. rewrite bool_decide_false; [done|]. intros [y Hin]%in_fst.
    apply row_chain_in in Hin as (info & Hin & Hvs & _). by apply (Hno info).
Qed.

Lemma chain_inv_write R' ls' : written vi tid olds ls ls' -> root_ok vi R' ->
  info_map R' = um ∪ info_map R -> (forall info, info ∈ ls' -> node_ok vi R' info) ->
  chain_inv active low now vi floor R' ls' (write_history tid um h).
Proof.
  intros Hw HR' HmR Hnodes. destruct Hclock as [Hl Hn Hviews Hids]. destruct (Hviews v Hv) as [Hwf Hb].
  pose proof (max_commit_lt_id v Hwf) as Ht. split; try done.
  - pose proof (chain_distinct _ _ _ _ _ _ _ _ Hinv) as Hnd.
    inversion Hw as [ls1 own own' ls2 E Ho Ho' Hmap|own' Hno Ho' Hmap]; subst ls'.
    + rewrite E, fmap_app in Hnd. cbn in Hnd. rewrite fmap_app. cbn. by rewrite Ho', <- Ho.
    + cbn. constructor; [|done]. rewrite Ho'. intros (info & E & Hin)%list_elem_of_fmap. by apply (Hno info).
  - pose proof (chain_order _ _ _ _ _ _ _ _ Hinv) as Hord.
    inversion Hw as [ls1 own own' ls2 E Ho Ho' Hmap|own' Hno Ho' Hmap]; subst ls'.
    + rewrite E, fmap_app in Hord. cbn in Hord. rewrite fmap_app. cbn. by rewrite Ho', <- Ho.
    + intros w vs1 vs2 Hwa Ej b Hin. cbn in Ej.
      destruct vs1 as [|b1 vs1]; [by apply elem_of_nil in Hin|]. injection Ej as <- Ej.
      apply elem_of_cons in Hin as [->|Hin]; [|by apply (Hord w vs1 vs2)].
      rewrite Ho'. destruct (Hviews w Hwa) as [Hwfw Hbw]. apply Sees_uncommitted; [done| |].
      * unfold IsCommitted. lia.
      * intros E. assert (transaction_id w ∈ version_number <$> ls) as (info & Hvs & Hi)%list_elem_of_fmap.
        { rewrite Ej. apply elem_of_app. right. by left. }
        apply (Hno info Hi). congruence.
  - intros row Hr. rewrite (written_rows ls' row Hw Hr). unfold write_history.
    destruct (um !! row) as [x|] eqn:Ex; [|by apply (chain_rows _ _ _ _ _ _ _ _ Hinv)].
    apply row_inv_write; [done|done|apply write_sees; [done|eauto]|by apply (chain_rows _ _ _ _ _ _ _ _ Hinv)].
  - intros row Hr. unfold write_history. rewrite HmR, lookup_union.
    destruct (um !! row) as [x|]; cbn.
    + by rewrite union_Some_l.
    + rewrite (left_id_L None (∪)). by apply (chain_newest _ _ _ _ _ _ _ _ Hinv).
  - intros row Hr. unfold write_history. rewrite HmR, lookup_union.
    destruct (um !! row) as [x|]; [left; rewrite union_Some_l; eauto|].
    rewrite (left_id_L None (∪)). by apply (chain_kept _ _ _ _ _ _ _ _ Hinv).
Qed.
End Write.

(** ** Versions of the infos *)

Context {active : list SnapshotView} {low now : Z} (Hclock : clock_ok active low now).
Context (vi : nat) (floor : nat -> T) (R : UpdateInfo T) (ls : list (UpdateInfo T)) (h : nat -> list (Z * T)).
Context (Hinv : chain_inv active low now vi floor R ls h).

Lemma node_row info : info ∈ ls -> exists row y, row < STANDARD_VECTOR_SIZE /\ info_map info !! row = Some y.
Proof.
  intros Hin. destruct (chain_nodes _ _ _ _ _ _ _ _ Hinv info Hin) as [Hwf _ _ Hn _ _].
  destruct (lookup_lt_is_Some_2 (tuples info) 0 Hn) as [row Hrow]. exists row.
  destruct (proj2 (info_map_dom info row Hwf)) as [y Hy]; [by apply list_elem_of_lookup_2 in Hrow|].
  exists y. split; [by eapply info_map_row|done].
Qed.

Lemma node_version_bound info : info ∈ ls ->
  (version_number info < now)%Z \/ exists w, w ∈ active /\ version_number info = transaction_id w.
Proof.
  intros Hin. destruct (node_row info Hin) as (row & y & Hr & Hy).
  pose proof (chain_rows _ _ _ _ _ _ _ _ Hinv row Hr) as [Hrep _ _ Hver].
  destruct (row_rep_versions _ _ _ _ (version_number info) y Hrep) as [x Hx]; [|by eapply Hver].
  apply row_chain_in. eauto.
Qed.

(** ** Committing *)

Definition commit_info (tid cid : Z) info : UpdateInfo T :=
  if (version_number info =? tid)%Z then set_version cid info else info.

Lemma commit_info_version tid cid info :
  version_number (commit_info tid cid info) = relabel_version tid cid (version_number info).
Proof. unfold commit_info, relabel_version. by destruct (version_number info =? tid)%Z. Qed.

Lemma commit_info_map tid cid info : info_map (commit_info tid cid info) = info_map info.
Proof. unfold commit_info. by destruct (version_number info =? tid)%Z. Qed.

Lemma row_chain_commit tid cid row : row_chain (map (commit_info tid cid) ls) row = relabel tid cid (row_chain ls row).
Proof.
  clear Hinv. induction ls as [|info l IH]; [done|]. cbn [map]. rewrite !row_chain_cons, commit_info_map, commit_info_version, IH.
  by destruct (info_map info !! row).
Qed.

Lemma chain_inv_commit v cid : v ∈ active -> (now <= cid < MAX_COMMIT_ID)%Z ->
  chain_inv (others (active := active) (transaction_id v)) low (cid + 1) vi floor R
    (map (commit_info (transaction_id v) cid) ls) (fun row => relabel (transaction_id v) cid (h row)).
Proof.
  intros Hv Hcid. pose proof Hclock as [Hl Hn Hviews Hids]. destruct (Hviews v Hv) as [Hwf Hb].
  pose proof (max_commit_lt_id v Hwf) as Ht.
  assert (Hvs : version_number <$> map (commit_info (transaction_id v) cid) ls =
                map (relabel_version (transaction_id v) cid) (version_number <$> ls)).
  { clear. induction ls as [|info l IH]; [done|]. cbn. by rewrite commit_info_version, IH. }
  split.
  - apply Hinv.
  - intros info (info0 & <- & Hin%list_elem_of_In)%list_elem_of_In%in_map_iff.
    destruct (chain_nodes _ _ _ _ _ _ _ _ Hinv info0 Hin) as [[] Hver ? ? ? ?].
    unfold commit_info. destruct (version_number info0 =? transaction_id v)%Z; split; try done. cbn. lia.
  - rewrite Hvs. apply NoDup_fmap_2_strong; [|apply Hinv].
    intros a b (ia & -> & Ha)%list_elem_of_fmap (ib & -> & Hb')%list_elem_of_fmap E.
    assert (forall info, info ∈ ls -> version_number info <> cid) as Hnc.
    { intros info Hi. destruct (node_version_bound info Hi) as [?|(w & Hw & ->)]; [lia|].
      pose proof (max_commit_lt_id w (proj1 (Hviews w Hw))). lia. }
    pose proof (Hnc ia Ha). pose proof (Hnc ib Hb'). unfold relabel_version in E.
    destruct (Z.eqb_spec (version_number ia) (transaction_id v)), (Z.eqb_spec (version_number ib) (transaction_id v)); congruence.
  - intros w vs1 vs2 [Hw Hne]%others_in E b Hin. rewrite Hvs in E.
    destruct (Hviews w Hw) as [Hwfw Hbw]. pose proof (max_commit_lt_id w Hwfw) as Htw.
    apply map_eq_app in E as (l1 & l2 & E & <- & E2). apply map_eq_cons in E2 as (a & l2' & -> & Ea & _).
    assert (a = transaction_id w) as ->.
    { unfold relabel_version in Ea. destruct (Z.eqb_spec a (transaction_id v)); [lia|done]. }
    apply list_elem_of_In, in_map_iff in Hin as (b0 & <- & Hb0%list_elem_of_In).
    pose proof (chain_order _ _ _ _ _ _ _ _ Hinv w l1 l2' Hw E b0 Hb0) as Hs.
    unfold relabel_version. destruct (Z.eqb_spec b0 (transaction_id v)); [|done].
    apply not_true_is_false. rewrite Sees_spec. lia.
  - intros row Hr. rewrite row_chain_commit. eapply row_inv_commit; [done..|by apply Hinv].
  - intros row Hr. rewrite (chain_newest _ _ _ _ _ _ _ _ Hinv row Hr). by destruct (h row) as [|[]].
  - intros row Hr. destruct (chain_kept _ _ _ _ _ _ _ _ Hinv row Hr) as [Hk|E]; [by left|right; by rewrite E].
Qed.

(** ** Rolling back *)

Lemma row_chain_without ls1 info ls2 row : ls = ls1 ++ info :: ls2 ->
  row_chain (ls1 ++ ls2) row = remove_version (version_number info) (row_chain ls row).
Proof.
  intros E. pose proof (chain_distinct _ _ _ _ _ _ _ _ Hinv) as Hnd. rewrite E, fmap_app in Hnd. cbn in Hnd.
  apply NoDup_app in Hnd as (_ & Hdis & Hnd). apply NoDup_cons in Hnd as [Hnot _].
  assert (Hout : forall l, version_number info ∉ version_number <$> l ->
            remove_version (version_number info) (row_chain l row) = row_chain l row).
  { intros l Hl. apply remove_version_not_in. intros y (i & Hi & Ev & _)%row_chain_in. apply Hl.
    rewrite <- Ev. by apply list_elem_of_fmap_2. }
  assert (version_number info ∉ version_number <$> ls1) as Hnot1.
  { intros Hin. apply (Hdis _ Hin). by left. }
  rewrite E, !row_chain_app, row_chain_cons.
  assert (Happ : forall a (c1 c2 : list (Z * T)), remove_version a (c1 ++ c2) = remove_version a c1 ++ remove_version a c2).
  { intros. apply List.filter_app. }
  rewrite Happ, Hout by done. f_equal.
  destruct (info_map info !! row); [rewrite remove_version_cons, Z.eqb_refl|]; by rewrite Hout.
Qed.

Lemma own_order_without ls1 info ls2 : ls = ls1 ++ info :: ls2 ->
  own_info_order active (version_number <$> ls1 ++ ls2).
Proof.
  intros E w vs1 vs2 Hw Ev b Hb. pose proof (chain_order _ _ _ _ _ _ _ _ Hinv w) as Hord.
  rewrite E, fmap_app in Hord. cbn in Hord. rewrite fmap_app in Ev.
  apply app_eq_inv in Ev as [(k & E1 & E2)|(k & E1 & E2)].
  - destruct k as [|c k].
    + cbn in E2. rewrite app_nil_r in E1. subst vs1.
      apply (Hord ((version_number <$> ls1) ++ [version_number info]) vs2 Hw).
      * rewrite <- app_assoc. cbn. by rewrite <- E2.
      * apply elem_of_app. by left.
    + injection E2 as <- E2. apply (Hord vs1 (k ++ version_number info :: (version_number <$> ls2)) Hw); [|done].
      rewrite E1, <- app_assoc. done.
  - apply (Hord ((version_number <$> ls1) ++ version_number info :: k) vs2 Hw).
    + rewrite <- app_assoc. cbn. by rewrite E2.
    + rewrite E1 in Hb. rewrite elem_of_app, elem_of_cons. apply elem_of_app in Hb. tauto.
Qed.

Lemma nodes_without R' ls1 info ls2 : ls = ls1 ++ info :: ls2 -> (forall t, t ∈ tuples R -> t ∈ tuples R') ->
  forall i, i ∈ ls1 ++ ls2 -> node_ok vi R' i.
Proof.
  intros E HR i Hi. assert (i ∈ ls) as Hin.
  { rewrite E. rewrite elem_of_app, elem_of_cons. apply elem_of_app in Hi. tauto. }
  destruct (chain_nodes _ _ _ _ _ _ _ _ Hinv i Hin). split; auto.
Qed.

Lemma distinct_without ls1 info ls2 : ls = ls1 ++ info :: ls2 -> NoDup (version_number <$> ls1 ++ ls2).
Proof.
  intros E. pose proof (chain_distinct _ _ _ _ _ _ _ _ Hinv) as Hnd. rewrite E in Hnd.
  rewrite !fmap_app in *. cbn in Hnd. apply NoDup_app in Hnd as (H1 & Hdis & Hnd). apply NoDup_cons in Hnd as [_ H2].
  apply NoDup_app. split_and!; [done| |done]. intros a Ha Ha2. apply (Hdis a Ha). by right.
Qed.

Lemma chain_inv_rollback v R' ls1 own ls2 : v ∈ active -> ls = ls1 ++ own :: ls2 ->
  version_number own = transaction_id v -> root_ok vi R' -> tuples R' = tuples R ->
  info_map R' = info_map own ∪ info_map R ->
  chain_inv active low now vi floor R' (ls1 ++ ls2) (fun row => remove_version (transaction_id v) (h row)).
Proof.
  intros Hv E Ho HR' Ht HmR. split; [done|..].
  - apply (nodes_without R' ls1 own ls2 E). by rewrite Ht.
  - by apply (distinct_without ls1 own ls2).
  - by apply (own_order_without ls1 own ls2).
  - intros row Hr. rewrite (row_chain_without ls1 own ls2 row E), Ho.
    apply (row_inv_rollback (floor row) v (h row) (row_chain ls row) Hclock Hv). by apply Hinv.
  - intros row Hr. destruct (row_inv_rollback (floor row) v (h row) (row_chain ls row) Hclock Hv) as (_ & Hold & Hsame); [by apply Hinv|].
    rewrite HmR, lookup_union. destruct (info_map own !! row) as [y|] eqn:Ey.
    + rewrite union_Some_l. cbn. apply Hold. apply row_chain_in. exists own. split_and!; [|done..].
      rewrite E. apply elem_of_app. right. by left.
    + rewrite (left_id_L None (∪)), (chain_newest _ _ _ _ _ _ _ _ Hinv row Hr), Hsame; [done|].
      intros y (i & Hi & Ev & Ei)%row_chain_in.
      assert (i = own) as ->; [|congruence].
      pose proof (chain_distinct _ _ _ _ _ _ _ _ Hinv) as Hnd.
      apply list_elem_of_lookup in Hi as [k Hk].
      assert (ls !! length ls1 = Some own) as Hown by by rewrite E, lookup_app_r, Nat.sub_diag by done.
      assert (k = length ls1) as ->; [|congruence].
      apply (NoDup_lookup _ k (length ls1) (transaction_id v) Hnd); rewrite list_lookup_fmap;
        [rewrite Hk|rewrite Hown]; cbn; congruence.
  - intros row Hr. rewrite HmR, lookup_union. destruct (chain_kept _ _ _ _ _ _ _ _ Hinv row Hr) as [[x Hk]|Eh]; [left|right; by rewrite Eh].
    rewrite Hk. destruct (info_map own !! row); [rewrite union_Some_l|rewrite (left_id_L None (∪))]; eauto.
Qed.

Lemma chain_inv_rollback_none v : v ∈ active -> (forall info, info ∈ ls -> version_number info <> transaction_id v) ->
  chain_inv active low now vi floor R ls (fun row => remove_version (transaction_id v) (h row)).
Proof.
  intros Hv Hno. assert (Hsame : forall row, row < STANDARD_VECTOR_SIZE -> remove_version (transaction_id v) (h row) = h row).
  { intros row Hr. apply (row_inv_rollback (floor row) v (h row) (row_chain ls row) Hclock Hv); [by apply Hinv|].
    intros y (i & Hi & Ev & _)%row_chain_in. by apply (Hno i). }
  destruct Hinv. split; try done; intros row Hr; rewrite Hsame by done; auto.
Qed.

(** ** Cleaning up, starting and ending transactions *)

Lemma chain_inv_cleanup low' ls1 info ls2 : (low <= low')%Z -> ls = ls1 ++ info :: ls2 ->
  (version_number info < low')%Z -> chain_inv active low' now vi floor R (ls1 ++ ls2) h.
Proof.
  intros Hlow E Hv. split; [apply Hinv|..].
  - by apply (nodes_without R ls1 info ls2 E).
  - by apply (distinct_without ls1 info ls2).
  - by apply (own_order_without ls1 info ls2).
  - intros row Hr. rewrite (row_chain_without ls1 info ls2 row E).
    apply (row_inv_cleanup (floor row) (low := low) low'); [done|done|by apply Hinv].
  - by apply Hinv.
  - by apply Hinv.
Qed.

Lemma chain_inv_raise low' : (low <= low')%Z -> chain_inv active low' now vi floor R ls h.
Proof.
  intros Hlow. destruct Hinv as [? ? ? ? Hrows ? ?]. split; try done. intros row Hr.
  destruct (Hrows row Hr) as [Hrep ? ? ?]. split; try done. by eapply row_rep_mono.
Qed.

Lemma chain_inv_forget v : (forall row x, row < STANDARD_VECTOR_SIZE -> (transaction_id v, x) ∉ h row) ->
  chain_inv (others (active := active) (transaction_id v)) low now vi floor R ls h.
Proof.
  intros Hno. destruct Hinv as [? ? ? Hord Hrows ? ?]. split; try done.
  - intros w vs1 vs2 [Hw _]%others_in. by apply Hord.
  - intros row Hr. apply row_inv_forget; [by apply Hrows|]. intros x. by apply Hno.
Qed.

Lemma chain_inv_begin v : WfView v -> transaction_id v ∉ transaction_id <$> active ->
  (now <= VisibilityBound.value (visibility_bound v))%Z ->
  chain_inv (v :: active) low (VisibilityBound.value (visibility_bound v)) vi floor R ls h.
Proof.
  intros Hwf Hnew Hb. pose proof (max_commit_lt_id v Hwf). split; try apply Hinv.
  - intros w vs1 vs2 [->|Hw]%elem_of_cons E b Hin; [|by eapply (chain_order _ _ _ _ _ _ _ _ Hinv w)].
    exfalso. assert (transaction_id v ∈ version_number <$> ls) as (i & Ei & Hi)%list_elem_of_fmap.
    { rewrite E. apply elem_of_app. right. by left. }
    destruct Hclock as [_ Hn _ _]. destruct (node_version_bound i Hi) as [?|(w & Hw & Ew)]; [lia|].
    apply Hnew. rewrite Ei, Ew. by apply list_elem_of_fmap_2.
  - intros row Hr. eapply row_inv_begin; try done. by apply Hinv.
Qed.

(** ** Reading *)

(** The infos of the chain keep rows of the root only. *)
Lemma row_chain_unkept row : info_map R !! row = None -> row_chain ls row = [].
Proof.
  intros Hno. destruct (row_chain ls row) as [|[a y] c] eqn:E; [done|exfalso].
  assert ((a, y) ∈ row_chain ls row) as (info & Hin & _ & Ey)%row_chain_in by (rewrite E; left).
  destruct (chain_nodes _ _ _ _ _ _ _ _ Hinv info Hin) as [Hwf _ _ _ _ Hrows].
  destruct (chain_root _ _ _ _ _ _ _ _ Hinv) as [HwR _ _].
  destruct (proj2 (info_map_dom R row HwR)) as [z Hz]; [|congruence]. apply Hrows, (info_map_dom info row Hwf). eauto.
Qed.

Lemma overlay_cons {A} (cb : UpdateInfo T -> A -> A) v acc info (l : list (UpdateInfo T)) :
  overlay v cb acc (info :: l) =
  overlay v cb (if (version_number info =? MAX_COMMIT_ID)%Z then cb info acc
                else if Sees v (version_number info) then acc else cb info acc) l.
Proof.
  unfold overlay. cbn [foldl]. unfold AppliesToTransaction at 2.
  destruct (_ =? _)%Z; [done|]. by destruct (Sees v (version_number info)).
Qed.

Lemma overlay_get {A} (cb : UpdateInfo T -> A -> A) (get : A -> nat -> T) (ok : A -> Prop) v acc row (l : list (UpdateInfo T)) :
  row < STANDARD_VECTOR_SIZE ->
  (forall info acc, wf_info info -> ok acc -> ok (cb info acc) /\
     get (cb info acc) row = default (get acc row) (info_map info !! row)) ->
  (forall info, info ∈ l -> wf_info info /\ version_number info <> MAX_COMMIT_ID) -> ok acc ->
  ok (overlay v cb acc l) /\ get (overlay v cb acc l) row = undo_unseen v (get acc row) (row_chain l row).
Proof.
  intros Hr Hcb. revert acc. induction l as [|info l IH]; intros acc Hl Hok; [done|].
  destruct (Hl info) as [Hwf Hne]; [by left|]. rewrite overlay_cons, row_chain_cons.
  destruct (Z.eqb_spec (version_number info) MAX_COMMIT_ID); [done|].
  destruct (Hcb info acc Hwf Hok) as [Hok' Hget].
  assert (Hl' : forall info, info ∈ l -> wf_info info /\ version_number info <> MAX_COMMIT_ID).
  { intros i Hi. apply Hl. by right. }
  destruct (Sees v (version_number info)) eqn:E.
  - destruct (IH acc Hl' Hok) as [H1 ->]. split; [done|].
    destruct (info_map info !! row); [|done]. unfold undo_unseen. cbn. by rewrite E.
  - destruct (IH (cb info acc) Hl' Hok') as [H1 ->]. split; [done|]. rewrite Hget.
    destruct (info_map info !! row); cbn; [|done]. unfold undo_unseen. cbn. by rewrite E.
Qed.

(** Reading a vector through its root and its chain gives what the histories say for every row of the
    root; the other rows keep what the accumulator had, and were never written. *)
Lemma chain_inv_read {A} (cb : UpdateInfo T -> A -> A) (get : A -> nat -> T) (ok : A -> Prop) v acc row :
  row < STANDARD_VECTOR_SIZE -> v ∈ active ->
  (forall info acc, wf_info info -> ok acc -> ok (cb info acc) /\
     get (cb info acc) row = default (get acc row) (info_map info !! row)) ->
  ok acc ->
  ok (overlay v cb acc (R :: ls)) /\
  get (overlay v cb acc (R :: ls)) row = match info_map R !! row with Some _ => read_version v (floor row) (h row) | None => get acc row end.
Proof.
  intros Hr Hv Hcb Hok. destruct (chain_root _ _ _ _ _ _ _ _ Hinv) as [Hwf Hver _].
  rewrite overlay_cons, Hver, Z.eqb_refl.
  destruct (Hcb R acc Hwf Hok) as [Hok' Hget].
  destruct (overlay_get cb get ok v (cb R acc) row ls Hr Hcb) as [H1 ->]; [|done|].
  { intros info Hin. by destruct (chain_nodes _ _ _ _ _ _ _ _ Hinv info Hin). }
  split; [done|]. rewrite Hget. pose proof (chain_newest _ _ _ _ _ _ _ _ Hinv row Hr) as Hnew.
  destruct (info_map R !! row) as [x|] eqn:Ex; cbn [default] in *.
  - rewrite Hnew. by apply (row_inv_read (floor row) (active := active) (low := low) (now := now)); [..|apply Hinv].
  - rewrite (row_chain_unkept row Ex). done.
Qed.
End Invariant.
