(* ===== verification/UpdateSegmentFacts.v ===== *)
(** * Facts about the operations of an update segment

    [seg_inv]: every vector has a well-linked chain that represents the histories of its rows, and the
    undo entries of every active transaction are its infos in those chains. *)

From S2P Require Import Prelude Snapshot ValidityMask UpdateInfo UpdateSegment.
From S2P Require Import UpdateInfoFacts UpdateLaws UpdateVersions UpdateChains UpdateInvariant.
From Stdlib Require Import Sorted.

Local Open Scope nat_scope.

(** ** Sorting the selection *)

Section Sorting.
Context `{StdSortSpec} (ids : list Z).

Abbreviation key := (rd ids).

Definition key_lt (i j : nat) : Prop := (key i < key j)%Z.

Lemma strongly_sorted_snoc {A} (R : A -> A -> Prop) (l : list A) x :
  StronglySorted R (l ++ [x]) <-> StronglySorted R l /\ Forall (fun y => R y x) l.
Proof.
  induction l as [|y l IH]; cbn.
  - split; [by repeat constructor|]. intros _. by repeat constructor.
  - split.
    + intros [Hs Hf]%StronglySorted_inv. apply IH in Hs as [H1 H2]. apply Forall_app in Hf as [Hf Hx].
      apply Forall_inv in Hx. split; by constructor.
    + intros [[Hs Hf]%StronglySorted_inv [Hyx Hl]%Forall_cons]. constructor; [by apply IH|].
      apply Forall_app. by repeat constructor.
Qed.

Lemma strongly_sorted_lookup {A} (R : A -> A -> Prop) (l : list A) i j x y :
  StronglySorted R l -> l !! i = Some x -> l !! j = Some y -> i < j -> R x y.
Proof.
  intros Hs. revert i j. induction Hs as [|z l Hs IH Hf]; intros [|i] [|j] Hi Hj Hij; try done; try lia; cbn in *.
  - injection Hi as ->. rewrite Forall_forall in Hf. apply Hf. by apply list_elem_of_lookup_2 in Hj.
  - by apply (IH i j); [..|lia].
Qed.

(** The loop that drops duplicates in place. *)
Lemma dedup_spec (l : list nat) : 0 < length l -> StronglySorted (fun i j => (key i <= key j)%Z) l ->
  let '(pos, s) := for_range 1 (length l) (fun i '(pos, sorted_sel) =>
      let prev_idx := at_nat sorted_sel (i - 1) in
      let idx := at_nat sorted_sel i in
      if negb (key prev_idx =? key idx)%Z then (S pos, <[pos := idx]> sorted_sel)
      else (pos, sorted_sel)) (1, l) in
  0 < pos <= length s /\ StronglySorted key_lt (take pos s) /\
  (forall k, k ∈ take pos s -> k ∈ l) /\
  (forall k, k ∈ l -> exists k', k' ∈ take pos s /\ key k' = key k).
Proof.
  intros Hlen Hs.
  assert (exists f, l !! 0 = Some f) as [f Hf] by (apply lookup_lt_is_Some_2; lia).
  pose (Inv i (st : nat * list nat) := let '(pos, s) := st in
    length s = length l /\ 1 <= pos <= i /\ (forall j, i - 1 <= j -> s !! j = l !! j) /\
    StronglySorted key_lt (take pos s) /\
    (forall k k', k ∈ take pos s -> l !! (i - 1) = Some k' -> (key k <= key k')%Z) /\
    (exists k k', k ∈ take pos s /\ l !! (i - 1) = Some k' /\ key k = key k') /\
    (forall k, k ∈ take pos s -> k ∈ l) /\
    (forall j k, j < i -> l !! j = Some k -> exists k', k' ∈ take pos s /\ key k' = key k)).
  match goal with |- let '(_, _) := for_range 1 (length l) ?body (1, l) in _ => set (b := body) end.
  assert (Inv (length l) (for_range 1 (length l) b (1, l))) as HI.
  { apply for_range_ind; [lia| |].
    - unfold Inv. assert (take 1 l = [f]) as -> by (destruct l as [|f' l]; [done|]; by injection Hf as ->).
      split_and!; try done; try lia.
      + by repeat constructor.
      + intros k k' ->%list_elem_of_singleton Hk'. cbn in Hk'. assert (f = k') as -> by congruence. lia.
      + exists f, f. split_and!; [by left|done|done].
      + intros k ->%list_elem_of_singleton. by apply list_elem_of_lookup_2 in Hf.
      + intros j k Hj Hk. assert (j = 0) as -> by lia. exists f. split; [by left|congruence].
    - intros i [pos s] Hi (Hl & Hpos & Hsame & Hsort & Hle & (e & e' & He & He' & Hee) & Hsub & Hcov).
      unfold b. destruct (lookup_lt_is_Some_2 l i) as [x Hx]; [lia|].
      rewrite (at_nat_lookup s (i - 1) e'), (at_nat_lookup s i x) by (rewrite Hsame by lia; done).
      pose proof (strongly_sorted_lookup _ l (i - 1) i e' x Hs He' Hx ltac:(lia)) as Hex. cbn in Hex.
      destruct (Z.eqb_spec (key e') (key x)) as [E|E]; cbn [negb]; unfold Inv; replace (S i - 1) with i by lia.
      + split_and!; try done; try lia.
        * intros j Hj. apply Hsame. lia.
        * intros k k' Hk Hk'. assert (k' = x) as -> by congruence. specialize (Hle k e' Hk He'). lia.
        * exists e, x. split_and!; [done|done|congruence].
        * intros j k Hj Hk. destruct (Nat.eq_dec j i) as [->|]; [|apply (Hcov j k); [lia|done]].
          assert (k = x) as -> by congruence. exists e. split; [done|congruence].
      + assert (Htake : take (S pos) (<[pos:=x]> s) = take pos s ++ [x]).
        { rewrite (take_S_r _ pos x) by (by rewrite list_lookup_insert_eq by lia). by rewrite take_insert_ge by lia. }
        rewrite Htake, length_insert. split_and!; try done; try lia.
        * intros j Hj. destruct (Nat.eq_dec j pos) as [->|]; [|rewrite list_lookup_insert_ne by done; apply Hsame; lia].
          rewrite list_lookup_insert_eq by lia. assert (pos = i) as -> by lia. done.
        * apply strongly_sorted_snoc. split; [done|]. apply Forall_forall. intros k Hk.
          specialize (Hle k e' Hk He'). unfold key_lt. lia.
        * intros k k' [Hk| ->%list_elem_of_singleton]%elem_of_app Hk'; assert (k' = x) as -> by congruence; [|lia].
          specialize (Hle k e' Hk He'). lia.
        * exists x, x. split_and!; [apply elem_of_app; right; by left|done|done].
        * intros k [Hk| ->%list_elem_of_singleton]%elem_of_app; [by apply Hsub|]. by apply list_elem_of_lookup_2 in Hx.
        * intros j k Hj Hk. destruct (Nat.eq_dec j i) as [->|].
          -- assert (k = x) as -> by congruence. exists x. split; [apply elem_of_app; right; by left|done].
          -- destruct (Hcov j k) as (k' & Hk' & Ek); [lia|done|]. exists k'. split; [apply elem_of_app; by left|done]. }
  destruct (for_range 1 (length l) b (1, l)) as [pos s].
  destruct HI as (Hl & Hpos & _ & Hsort & _ & _ & Hsub & Hcov). split_and!; try done; try lia.
  intros k (j & Hj)%list_elem_of_lookup. apply (Hcov j k); [|done]. by apply lookup_lt_Some in Hj.
Qed.

Lemma selected_lookup sel count i k : selected sel count !! i = Some k <-> i < count /\ k = get_index sel i.
Proof.
  unfold selected. rewrite list_lookup_fmap. destruct (Nat.lt_ge_cases i count).
  - rewrite lookup_seq_lt by done. cbn. split; [intros [= <-]; done|]. by intros [_ ->].
  - rewrite lookup_seq_ge by done. split; [done|]. intros [? _]. lia.
Qed.

Lemma selected_in sel count k : k ∈ selected sel count <-> exists i, i < count /\ k = get_index sel i.
Proof. rewrite list_elem_of_lookup. by setoid_rewrite selected_lookup. Qed.

Lemma length_selected sel count : length (selected sel count) = count.
Proof. unfold selected. by rewrite length_map, length_seq. Qed.

Lemma ids_sorted_spec sel count : ids_sorted ids sel count = true -> StronglySorted key_lt (selected sel count).
Proof.
  unfold ids_sorted. rewrite List.forallb_forall. intros Hs.
  unfold selected. induction count as [|count IH]; [constructor|].
  rewrite seq_S, map_app. apply strongly_sorted_snoc. cbn [plus map].
  assert (StronglySorted key_lt (map (get_index sel) (seq 0 count))) as IH'.
  { apply IH. intros i Hi. apply Hs. rewrite in_seq in *. lia. }
  split; [done|]. apply Forall_forall. intros k Hk. fold (selected sel count) in Hk, IH'.
  destruct count as [|count]; [by apply elem_of_nil in Hk|].
  assert (key_lt (get_index sel count) (get_index sel (S count))) as Hlast.
  { unfold key_lt. specialize (Hs (S count)). rewrite in_seq in Hs.
    assert (1 <= S count < 1 + (S (S count) - 1)) as Hr by lia.
    apply Hs in Hr. apply negb_true_iff, Z.leb_gt in Hr. by replace (S count - 1) with count in Hr by lia. }
  apply selected_in in Hk as (i & Hi & ->).
  destruct (Nat.eq_dec i count) as [->|]; [done|].
  pose proof (strongly_sorted_lookup key_lt (selected sel (S count)) i count (get_index sel i) (get_index sel count) IH') as Hlt.
  unfold key_lt in *. rewrite !selected_lookup in Hlt. specialize (Hlt ltac:(split; [lia|done]) ltac:(split; [lia|done]) ltac:(lia)). lia.
Qed.

(** Sorted by row id, without duplicates, and covering every id. *)
Lemma sort_selection_spec sel count : 0 < count ->
  let '(n, sel') := SortSelectionVector sel count ids in
  0 < n /\ StronglySorted key_lt (selected sel' n) /\
  (forall k, k ∈ selected sel' n -> k ∈ selected sel count) /\
  (forall k, k ∈ selected sel count -> exists k', k' ∈ selected sel' n /\ key k' = key k).
Proof.
  intros Hc. unfold SortSelectionVector. destruct (ids_sorted ids sel count) eqn:E.
  { split_and!; [done|by apply ids_sorted_spec|done|]. intros k Hk. by exists k. }
  fold (selected sel count). set (l := std_sort _ (selected sel count)).
  assert (l ≡ₚ selected sel count) as Hperm by apply std_sort_perm.
  assert (length l = count) as Hl by by rewrite Hperm, length_selected.
  pose proof (dedup_spec l ltac:(lia) (std_sort_sorted key (selected sel count))) as Hd.
  rewrite Hl in Hd. destruct (for_range 1 count _ (1, l)) as [pos s]. destruct Hd as (Hpos & Hsort & Hsub & Hcov).
  assert (selected (Some s) pos = take pos s) as ->.
  { apply list_eq. intros i. apply option_eq. intros k. rewrite selected_lookup. split.
    - intros [Hi ->]. rewrite lookup_take_lt by done. destruct (lookup_lt_is_Some_2 s i) as [x Hx]; [lia|].
      rewrite Hx. cbn. by rewrite (at_nat_lookup _ _ _ Hx).
    - intros Hi. apply lookup_take_Some in Hi as [Hi Hlt]. split; [done|]. cbn. by rewrite (at_nat_lookup _ _ _ Hi). }
  split_and!; [lia|done| |].
  - intros k Hk. rewrite <- Hperm. by apply Hsub.
  - intros k Hk. apply Hcov. by rewrite Hperm.
Qed.
End Sorting.

(** ** The conflict check *)

Section Conflicts.
Context {T Vec : Type} `{SegmentLaws T Vec}.
Implicit Types seg : UpdateSegment T.

Lemma chain_infos_in (m : gmap positive (UpdateInfo T)) l info :
  info ∈ chain_infos m l <-> exists p, p ∈ l /\ m !! p = Some info.
Proof. apply list_elem_of_omap. Qed.

Lemma unseen_not_before v (info : UpdateInfo T) : version_number info <> transaction_id v ->
  (version_number info >=?b visibility_bound v) = negb (Sees v (version_number info)).
Proof.
  intros Hne. unfold Sees. destruct (Z.eqb_spec (version_number info) (transaction_id v)); [done|].
  by rewrite orb_false_r.
Qed.

(** The selected rows, relative to the vector. *)
Context (ids : list Z) (sel : SelectionVector) (count : nat) (offset : Z).
Context (Hcount : 0 < count).
Context (Hsorted : forall i j, i < j < count -> (relative_id ids sel offset i < relative_id ids sel offset j)%Z).

Definition touches (row : Z) : Prop := exists i, i < count /\ relative_id ids sel offset i = row.

Lemma check_conflicts_walk fuel pp p l q v seg node_ref :
  dseg (infos seg) pp p l q None -> length l <= fuel ->
  (forall info, info ∈ chain_infos (infos seg) l -> wf_info info /\ 0 < N info) ->
  match CheckForConflicts fuel p v ids sel count offset seg node_ref with
  | None => False
  | Some (Throw e) => e = conflict_on_update /\
      exists info, info ∈ chain_infos (infos seg) l /\ Sees v (version_number info) = false /\
        exists t, t ∈ tuples info /\ touches (Z.of_nat t)
  | Some (Ok r) =>
      (forall info, info ∈ chain_infos (infos seg) l -> Sees v (version_number info) = false ->
         forall t, t ∈ tuples info -> ~ touches (Z.of_nat t)) /\
      ((r = node_ref /\ forall info, info ∈ chain_infos (infos seg) l -> version_number info <> transaction_id v) \/
       exists a info, r = Some a /\ a ∈ l /\ infos seg !! a = Some info /\ version_number info = transaction_id v)
  end.
Proof.
  revert fuel pp p node_ref. induction l as [|a l IH]; intros fuel pp p node_ref Hd Hf Hok.
  { destruct Hd as [_ ->]. assert (CheckForConflicts fuel None v ids sel count offset seg node_ref = Some (Ok node_ref)) as ->
      by (by destruct fuel).
    split; [by intros info ?%elem_of_nil|left]. split; [done|]. by intros info ?%elem_of_nil. }
  destruct Hd as (-> & n & Hn & Hd). cbn in Hf. destruct fuel as [|fuel]; [lia|]. cbn [CheckForConflicts].
  destruct (infos seg !! a) as [info|] eqn:Ea; [|done]. injection Hn as _ Hnext. cbn [mbind option_bind]. rewrite Hnext.
  assert (chain_infos (infos seg) (a :: l) = info :: chain_infos (infos seg) l) as Echain.
  { unfold chain_infos. cbn. by rewrite Ea. }
  rewrite Echain in *. destruct (Hok info) as [Hwf HN]; [by left|].
  assert (Hok' : forall i, i ∈ chain_infos (infos seg) l -> wf_info i /\ 0 < N i) by (intros i Hi; apply Hok; by right).
  destruct (Z.eqb_spec (version_number info) (transaction_id v)) as [Eown|Eother].
  - specialize (IH fuel (Some a) n (Some a) Hd ltac:(lia) Hok').
    destruct (CheckForConflicts _ _ _ _ _ _ _ _ _) as [[r|e]|]; [|..|done].
    + destruct IH as [Hno Hr]. split.
      { intros i [->|Hi]%elem_of_cons; [|by apply Hno]. rewrite Eown, Sees_own. done. }
      right. destruct Hr as [[-> _]|(b & i & -> & Hb & Hi & Ev)]; [exists a, info|exists b, i].
      * split_and!; [done|by left|done|done].
      * split_and!; [done|by right|done|done].
    + destruct IH as [-> (i & Hi & Hs & Ht)]. split; [done|]. exists i. split; [by right|done].
  - rewrite unseen_not_before by done. destruct (Sees v (version_number info)) eqn:Es; cbn [negb].
    + specialize (IH fuel (Some a) n node_ref Hd ltac:(lia) Hok').
      destruct (CheckForConflicts _ _ _ _ _ _ _ _ _) as [[r|e]|]; [|..|done].
      * destruct IH as [Hno Hr]. split.
        { intros i [->|Hi]%elem_of_cons; [|by apply Hno]. congruence. }
        destruct Hr as [[-> Hn2]|(b & i & -> & Hb & Hi & Ev)]; [left|right; exists b, i; split_and!; [done|by right|done|done]].
        split; [done|]. intros i [->|Hi]%elem_of_cons; [done|by apply Hn2].
      * destruct IH as [-> (i & Hi & Hs & Ht)]. split; [done|]. exists i. split; [by right|done].
    + pose proof (join_conflicts_spec ids sel offset (count + N info) count (tuples info) 0 0 Hsorted
                    (wf_info_sorted _ Hwf) Hcount HN ltac:(unfold N; lia)) as Hj.
      destruct (join_conflicts _ _ _ _ _ _ _ _).
      * destruct (proj1 Hj eq_refl) as (i & j & t & Hi & _ & Ht & Er). split; [done|].
        exists info. split_and!; [by left|done|]. exists t. split; [by apply list_elem_of_lookup_2 in Ht|].
        exists i. split; [lia|done].
      * specialize (IH fuel (Some a) n node_ref Hd ltac:(lia) Hok').
        destruct (CheckForConflicts _ _ _ _ _ _ _ _ _) as [[r|e]|]; [|..|done].
        -- destruct IH as [Hno Hr]. split.
           { intros i [->|Hi]%elem_of_cons; [|by apply Hno]. intros _ t (k & Ht)%list_elem_of_lookup (i & Hi & Er).
             assert (false = true) as ?; [apply Hj; exists i, k, t; split_and!; (done || lia)|done]. }
           destruct Hr as [[-> Hn2]|(b & i & -> & Hb & Hi & Ev)]; [left|right; exists b, i; split_and!; [done|by right|done|done]].
           split; [done|]. intros i [->|Hi]%elem_of_cons; [done|by apply Hn2].
        -- destruct IH as [-> (i & Hi & Hs & Ht)]. split; [done|]. exists i. split; [by right|done].
Qed.
End Conflicts.
