(* ===== verification/UpdateSegmentSpec.v ===== *)
(** * The invariant of an update segment, and what its operations do to the histories of the rows

    Every operation is shown to keep [seg_inv], with the histories changed the way the abstract store
    of [UpdateVersions] changes them. *)

From S2P Require Import Prelude Snapshot ValidityMask UpdateInfo UpdateSegment.
From S2P Require Import UpdateInfoFacts UpdateLaws UpdateVersions UpdateChains UpdateInvariant UpdateSegmentFacts.
From Stdlib Require Import Sorted.

Local Open Scope nat_scope.

Section Spec.
Context {T Vec : Type} `{SegmentLaws T Vec}.
Implicit Types (seg : UpdateSegment T) (m : gmap positive (UpdateInfo T)).

(** The base table's vectors; the values its rows have when nothing was written to them. *)
Context (base : nat -> Vec).
Definition floor (vi row : nat) : T := base_value (base vi) row.

(** The histories of the rows of all vectors, and the root and chain of every vector. *)
Abbreviation histories := (nat -> nat -> list (Z * T)).
Abbreviation chain_map := (nat -> option (positive * list positive)).

(** [p] is an info of version [a], linked into a chain. *)
Definition linked_entry (chains : chain_map) seg (a : Z) (p : positive) : Prop :=
  exists vi r l info, chains vi = Some (r, l) /\ p ∈ l /\ infos seg !! p = Some info /\ version_number info = a.

(** [owned a] lists, for the versions that will still be committed, rolled back or cleaned up, the infos
    of version [a]. *)
Abbreviation ownership := (Z -> option (list positive)).

Record seg_inv (active : list SnapshotView) (low now : Z) (hist : histories) (chains : chain_map)
    (owned : ownership) seg : Prop := {
  seg_root vi : GetUpdateNode vi seg = fst <$> chains vi;
  seg_chain vi r l : chains vi = Some (r, l) -> exists R,
    infos seg !! r = Some R /\ linked (infos seg) r l /\
    chain_inv active low now vi (floor vi) R (chain_infos (infos seg) l) (hist vi);
  seg_untouched vi : chains vi = None -> forall row, row < STANDARD_VECTOR_SIZE ->
    hist vi row = [];
  seg_fresh p : is_Some (infos seg !! p) -> (p < next_entry seg)%positive;
  seg_owned a ps : owned a = Some ps -> NoDup ps /\ forall p, p ∈ ps <-> linked_entry chains seg a p
}.

(** Only the memory and the roots matter. *)
Lemma seg_inv_same active low now hist chains owned seg seg' :
  infos seg' = infos seg -> next_entry seg' = next_entry seg ->
  (forall vi, GetUpdateNode vi seg' = GetUpdateNode vi seg) ->
  seg_inv active low now hist chains owned seg -> seg_inv active low now hist chains owned seg'.
Proof.
  intros Hi Hn Hr []. split; rewrite ?Hi, ?Hn; try done.
  - intros vi. by rewrite Hr.
  - unfold linked_entry in *. by rewrite Hi.
Qed.

Lemma chain_inv_ext active low now vi fl (R : UpdateInfo T) ls h h' :
  (forall row, row < STANDARD_VECTOR_SIZE -> h row = h' row) ->
  chain_inv active low now vi fl R ls h -> chain_inv active low now vi fl R ls h'.
Proof. intros E []. split; try done; intros row Hr; rewrite <- E by done; auto. Qed.

Lemma seg_inv_ext active low now hist hist' chains owned seg :
  (forall vi row, row < STANDARD_VECTOR_SIZE -> hist vi row = hist' vi row) ->
  seg_inv active low now hist chains owned seg -> seg_inv active low now hist' chains owned seg.
Proof.
  intros E []. split; try done.
  - intros vi r l Hc. destruct (seg_chain0 vi r l Hc) as (R & H1' & H2 & H3). exists R. split_and!; [done..|].
    eapply chain_inv_ext; [|done]. by apply E.
  - intros vi Hc row Hr. rewrite <- E by done. by apply seg_untouched0.
Qed.

Definition set_chain (chains : chain_map) (vi : nat) (c : positive * list positive) : chain_map :=
  fun vj => if vj =? vi then Some c else chains vj.
Definition set_history (hist : histories) (vi : nat) (h : nat -> list (Z * T)) : histories :=
  fun vj => if vj =? vi then h else hist vj.

(** An info of a chain belongs to its vector. *)
Lemma seg_inv_vector active low now hist chains owned seg vi r l p :
  seg_inv active low now hist chains owned seg -> chains vi = Some (r, l) -> p ∈ r :: l ->
  exists info, infos seg !! p = Some info /\ vector_index info = vi.
Proof.
  intros Hinv Hc Hp. destruct (seg_chain _ _ _ _ _ _ _ Hinv vi r l Hc) as (R & HR & Hl & Hci).
  destruct (linked_in _ _ _ _ Hl Hp) as [info Hi]. exists info. split; [done|].
  apply elem_of_cons in Hp as [->|Hp].
  - assert (info = R) as -> by congruence. apply Hci.
  - apply (chain_nodes _ _ _ _ _ _ _ _ Hci). apply chain_infos_in. eauto.
Qed.

Lemma chain_infos_frame m m' l : (forall p, p ∈ l -> m' !! p = m !! p) -> chain_infos m' l = chain_infos m l.
Proof.
  intros E. unfold chain_infos. induction l as [|p l IH]; [done|]. cbn.
  rewrite E by left. rewrite IH; [done|]. intros q Hq. apply E. by right.
Qed.

(** A change that is confined to the infos of one vector and to new infos. *)
Definition confined (vi : nat) seg seg' : Prop :=
  (forall p info, infos seg !! p = Some info -> vector_index info <> vi -> infos seg' !! p = Some info) /\
  (forall vj, vj <> vi -> GetUpdateNode vj seg' = GetUpdateNode vj seg).

Lemma seg_inv_update active low now hist chains owned owned' seg seg' vi r l h :
  seg_inv active low now hist chains owned seg -> confined vi seg seg' ->
  GetUpdateNode vi seg' = Some r ->
  (exists R, infos seg' !! r = Some R /\ linked (infos seg') r l /\
     chain_inv active low now vi (floor vi) R (chain_infos (infos seg') l) h) ->
  (forall p, is_Some (infos seg' !! p) -> (p < next_entry seg')%positive) ->
  (forall a ps, owned' a = Some ps -> NoDup ps /\
    forall p, p ∈ ps <-> linked_entry (set_chain chains vi (r, l)) seg' a p) ->
  seg_inv active low now (set_history hist vi h) (set_chain chains vi (r, l)) owned' seg'.
Proof.
  intros Hinv [Hmem Hroots] Hr Hchain Hfresh Hundo. split; [| | |done|done].
  - intros vj. unfold set_chain. destruct (Nat.eqb_spec vj vi) as [->|]; [done|].
    rewrite Hroots by done. apply Hinv.
  - intros vj r' l'. unfold set_chain, set_history. destruct (Nat.eqb_spec vj vi) as [->|Hne]; [by intros [= <- <-]|].
    intros Hc. destruct (seg_chain _ _ _ _ _ _ _ Hinv vj r' l' Hc) as (R & HR & Hl & Hci).
    assert (forall p, p ∈ r' :: l' -> infos seg' !! p = infos seg !! p) as Hsame.
    { intros p Hp. destruct (seg_inv_vector _ _ _ _ _ _ _ _ _ _ p Hinv Hc Hp) as (info & Hi & Hv).
      rewrite Hi. apply Hmem; congruence. }
    exists R. rewrite Hsame by left. split_and!; [done| |].
    + eapply linked_frame; [|done]. intros p Hp. by rewrite Hsame.
    + rewrite (chain_infos_frame (infos seg)); [done|]. intros p Hp. apply Hsame. by right.
  - intros vj. unfold set_chain, set_history. destruct (Nat.eqb_spec vj vi); [done|]. apply Hinv.
Qed.

(** The linked entries of a vector whose chain changes. *)
Lemma linked_entry_set_chain chains seg seg' vi r l a p :
  confined vi seg seg' ->
  (forall vj r' l', chains vj = Some (r', l') -> vj <> vi -> forall q, q ∈ l' -> infos seg' !! q = infos seg !! q) ->
  linked_entry (set_chain chains vi (r, l)) seg' a p <->
  (exists info, p ∈ l /\ infos seg' !! p = Some info /\ version_number info = a) \/
  (exists vj r' l' info, vj <> vi /\ chains vj = Some (r', l') /\ p ∈ l' /\ infos seg !! p = Some info /\ version_number info = a).
Proof.
  intros Hconf Hsame. unfold linked_entry, set_chain. split.
  - intros (vj & r' & l' & info & Hc & Hp & Hi & Hv). destruct (Nat.eqb_spec vj vi) as [->|Hne].
    + injection Hc as <- <-. left. eauto.
    + right. rewrite (Hsame vj r' l') in Hi by done. exists vj, r', l', info. done.
  - intros [(info & Hp & Hi & Hv)|(vj & r' & l' & info & Hne & Hc & Hp & Hi & Hv)].
    + exists vi, r, l, info. by rewrite Nat.eqb_refl.
    + exists vj, r', l', info. destruct (Nat.eqb_spec vj vi); [done|]. by rewrite (Hsame vj r' l').
Qed.

Lemma confined_same active low now hist chains owned seg seg' vi :
  seg_inv active low now hist chains owned seg -> confined vi seg seg' ->
  forall vj r' l', chains vj = Some (r', l') -> vj <> vi -> forall q, q ∈ l' -> infos seg' !! q = infos seg !! q.
Proof.
  intros Hinv [Hmem _] vj r' l' Hc Hne q Hq.
  destruct (seg_inv_vector _ _ _ _ _ _ _ _ _ _ q Hinv Hc) as (info & Hi & Hv); [by right|].
  rewrite Hi. apply Hmem; congruence.
Qed.

(** ** Reading *)

Context {active : list SnapshotView} {low now : Z} (Hclock : clock_ok active low now).

(** What the root keeps of a row, and what a reader that finds [x] in the base table gets for it. *)
Definition root_row seg vi row : option T := p ← GetUpdateNode vi seg; R ← infos seg !! p; info_map R !! row.
Definition fetched v (hist : histories) seg vi row (x : T) : T :=
  match root_row seg vi row with Some _ => read_version v (floor vi row) (hist vi row) | None => x end.

(** Only of a row that was never written the value in the base table matters. *)
Lemma fetched_read v vi row hist chains owned seg x : seg_inv active low now hist chains owned seg -> row < STANDARD_VECTOR_SIZE ->
  x = floor vi row \/ hist vi row <> [] -> fetched v hist seg vi row x = read_version v (floor vi row) (hist vi row).
Proof.
  intros Hinv Hr Hx. unfold fetched, root_row. rewrite (seg_root _ _ _ _ _ _ _ Hinv).
  destruct (chains vi) as [[r l]|] eqn:Hc; cbn.
  - destruct (seg_chain _ _ _ _ _ _ _ Hinv vi r l Hc) as (R & HR & _ & Hci). rewrite HR. cbn.
    destruct (chain_kept _ _ _ _ _ _ _ _ Hci row Hr) as [[y ->]|E]; [done|]. rewrite E in *.
    by destruct (info_map R !! row); [|destruct Hx].
  - rewrite (seg_untouched _ _ _ _ _ _ _ Hinv vi Hc row Hr) in *. by destruct Hx.
Qed.

(** The walk of a reader over the root and the chain of a vector. *)
Lemma fetch_walk {A} (cb : UpdateInfo T -> A -> A) (get : A -> nat -> T) (ok : A -> Prop) v acc vi r seg hist chains owned info :
  seg_inv active low now hist chains owned seg -> v ∈ active -> GetUpdateNode vi seg = Some r -> infos seg !! r = Some info ->
  (forall row, row < STANDARD_VECTOR_SIZE -> forall info acc, wf_info info -> ok acc -> ok (cb info acc) /\
     get (cb info acc) row = default (get acc row) (info_map info !! row)) ->
  ok acc ->
  exists acc', UpdatesForTransaction seg info v cb acc = Some acc' /\ ok acc' /\
    forall row, row < STANDARD_VECTOR_SIZE -> get acc' row = fetched v hist seg vi row (get acc row).
Proof.
  intros Hinv Hv Hr Hi Hcb Hok. unfold fetched, root_row. rewrite Hr. cbn. rewrite Hi. cbn. rewrite (seg_root _ _ _ _ _ _ _ Hinv) in Hr.
  destruct (chains vi) as [[r' l]|] eqn:Hc; [|done]. injection Hr as ->.
  destruct (seg_chain _ _ _ _ _ _ _ Hinv vi r l Hc) as (R & HR & Hl & Hci).
  assert (info = R) as -> by congruence.
  eexists. split; [by apply updates_for_transaction_walk with (r := r) (l := l)|].
  pose proof vector_size_pos as Hpos. split.
  - (* the accumulator is well-formed whatever it holds *)
    assert (forall l acc, (forall info, info ∈ l -> wf_info info) -> ok acc -> ok (overlay v cb acc l)) as Hgen.
    { clear -Hcb Hpos. induction l as [|i l IH]; intros acc Hl Hok; [done|]. rewrite overlay_cons.
      apply IH; [intros j Hj; apply Hl; by right|].
      assert (ok (cb i acc)) by (apply (Hcb 0 Hpos); [apply Hl; by left|done]).
      destruct (_ =? _)%Z; [done|]. by destruct (Sees _ _). }
    apply Hgen; [|done]. intros i [->|Hin]%elem_of_cons; [apply Hci|by apply (chain_nodes _ _ _ _ _ _ _ _ Hci)].
  - intros row Hrow. eapply (chain_inv_read Hclock vi (floor vi) R _ (hist vi) Hci cb get ok); try done. by apply Hcb.
Qed.

(** [FetchUpdates] turns the scanned base vector into what the transaction sees. *)
Lemma fetch_updates_spec v vi seg hist chains owned result : seg_inv active low now hist chains owned seg -> v ∈ active ->
  vec_fits result STANDARD_VECTOR_SIZE ->
  exists result', FetchUpdates v vi seg result = Some result' /\ vec_fits result' STANDARD_VECTOR_SIZE /\
    forall row, row < STANDARD_VECTOR_SIZE -> vec_get result' row = fetched v hist seg vi row (vec_get result row).
Proof.
  intros Hinv Hv Hfit. unfold FetchUpdates. destruct (GetUpdateNode vi seg) as [r|] eqn:Hr.
  - assert (exists R, infos seg !! r = Some R) as [R HR].
    { rewrite (seg_root _ _ _ _ _ _ _ Hinv) in Hr. destruct (chains vi) as [[r' l]|] eqn:Hc; [|done]. injection Hr as ->.
      destruct (seg_chain _ _ _ _ _ _ _ Hinv vi r l Hc) as (R & HR & _). eauto. }
    rewrite HR. cbn [mbind option_bind].
    apply (fetch_walk fetch_info vec_get (fun x => vec_fits x STANDARD_VECTOR_SIZE) v result vi r seg hist chains owned R); try done.
    intros row Hrow info acc Hwf Hok. destruct (law_fetch info acc Hwf Hok) as [? Hget]. split; [done|by apply Hget].
  - exists result. split_and!; [done..|]. intros row Hrow. unfold fetched, root_row. by rewrite Hr.
Qed.

(** ** Pointers do not matter to the invariant of a chain *)

Definition same_payload (i j : UpdateInfo T) : Prop := payload i = payload j.

Lemma same_payload_fields i j : same_payload i j ->
  version_number i = version_number j /\ vector_index i = vector_index j /\ max i = max j /\
  tuples i = tuples j /\ values i = values j.
Proof. unfold same_payload, payload. intros [= -> -> -> -> ->]. done. Qed.

Lemma info_map_payload i j : same_payload i j -> info_map i = info_map j.
Proof. intros (_ & _ & _ & Ht & Hv)%same_payload_fields. unfold info_map, entries. by rewrite Ht, Hv. Qed.

Lemma wf_info_payload i j : same_payload i j -> wf_info i -> wf_info j.
Proof.
  intros (_ & _ & Hm & Ht & Hv)%same_payload_fields []. split; unfold N in *; by rewrite <- ?Ht, <- ?Hv, <- ?Hm.
Qed.

Lemma root_ok_payload vi R R' : same_payload R R' -> root_ok vi R -> root_ok vi R'.
Proof.
  intros Hs []. pose proof (same_payload_fields _ _ Hs) as (Hver & Hvi & _). split; [by eapply wf_info_payload|congruence..].
Qed.

Lemma node_ok_payload vi R R' i j : tuples R' = tuples R -> same_payload i j -> node_ok vi R i -> node_ok vi R' j.
Proof.
  intros HR Hs []. pose proof (same_payload_fields _ _ Hs) as (Hver & Hvi & Hm & Ht & _).
  split; [by eapply wf_info_payload|congruence|congruence| |congruence|].
  - unfold N in *. by rewrite <- Ht.
  - by rewrite HR, <- Ht.
Qed.

Lemma versions_payload ls ls' : Forall2 same_payload ls ls' -> version_number <$> ls = version_number <$> ls'.
Proof. induction 1 as [|i j ls ls' Hs _ IH]; [done|]. cbn. apply same_payload_fields in Hs as [-> _]. by rewrite IH. Qed.

Lemma row_chain_payload ls ls' row : Forall2 same_payload ls ls' -> row_chain ls row = row_chain ls' row.
Proof.
  induction 1 as [|i j ls ls' Hs _ IH]; [done|]. rewrite !row_chain_cons, (info_map_payload _ _ Hs), IH.
  by apply same_payload_fields in Hs as [-> _].
Qed.

Lemma chain_inv_payload act lo nw vi fl R R' ls ls' h : same_payload R R' -> Forall2 same_payload ls ls' ->
  chain_inv act lo nw vi fl R ls h -> chain_inv act lo nw vi fl R' ls' h.
Proof.
  intros HR Hls []. split.
  - by eapply root_ok_payload.
  - intros j Hj. apply list_elem_of_lookup in Hj as [k Hk].
    destruct (Forall2_lookup_r _ _ _ _ _ Hls Hk) as (i & Hi & Hs).
    eapply node_ok_payload; [|done|apply chain_nodes; by apply list_elem_of_lookup_2 in Hi].
    symmetry. by apply same_payload_fields in HR as (_ & _ & _ & -> & _).
  - by rewrite <- (versions_payload _ _ Hls).
  - by rewrite <- (versions_payload _ _ Hls).
  - intros row Hr. rewrite <- (row_chain_payload _ _ row Hls). by apply chain_rows.
  - intros row Hr. rewrite <- (info_map_payload _ _ HR). by apply chain_newest.
  - intros row Hr. rewrite <- (info_map_payload _ _ HR). by apply chain_kept.
Qed.

(** Memories that differ in pointers only. *)
Definition same_payloads m m' : Prop := forall p, payload <$> m' !! p = payload <$> m !! p.

Lemma same_payloads_lookup m m' p i : same_payloads m m' -> m !! p = Some i -> exists j, m' !! p = Some j /\ same_payload i j.
Proof.
  intros Hs Hi. specialize (Hs p). rewrite Hi in Hs. destruct (m' !! p) as [j|]; [|done].
  exists j. split; [done|]. unfold same_payload. cbn in Hs. congruence.
Qed.

Lemma same_payloads_chain m m' l : same_payloads m m' -> Forall2 same_payload (chain_infos m l) (chain_infos m' l).
Proof.
  intros Hs. unfold chain_infos. induction l as [|p l IH]; [constructor|]. cbn.
  destruct (m !! p) as [i|] eqn:Ei.
  - destruct (same_payloads_lookup _ _ _ _ Hs Ei) as (j & -> & Hj). by constructor.
  - specialize (Hs p). rewrite Ei in Hs. by destruct (m' !! p).
Qed.

Lemma same_payloads_alter m p f : (forall i, payload (f i) = payload i) -> same_payloads m (alter f p m).
Proof.
  intros Hf q. destruct (decide (p = q)) as [<-|]; [|by rewrite lookup_alter_ne].
  rewrite lookup_alter_eq. destruct (m !! p); [|done]. cbn. by rewrite Hf.
Qed.

Lemma same_payloads_trans m1 m2 m3 : same_payloads m1 m2 -> same_payloads m2 m3 -> same_payloads m1 m3.
Proof. intros H12 H23 p. by rewrite H23. Qed.

Lemma unlink_same_payloads p info m : same_payloads m (unlink p info m).
Proof.
  unfold unlink.
  assert (forall q m, same_payloads m (match q with Some q => alter (set_next (next info)) q m | None => m end)) as H1'.
  { intros [q|] m'; [by apply same_payloads_alter|done]. }
  assert (forall q m, same_payloads m (match q with Some q => alter (set_prev (prev info)) q m | None => m end)) as H2'.
  { intros [q|] m'; [by apply same_payloads_alter|done]. }
  eapply same_payloads_trans; [apply H1'|apply H2'].
Qed.

(** ** Unlinking an info of a chain *)

Lemma cleanup_internal_unlink m r l1 p l2 seg info : infos seg = m -> linked m r (l1 ++ p :: l2) -> m !! p = Some info ->
  CleanupUpdateInternal p seg = Some (update_infos (unlink p info) seg).
Proof.
  intros Em Hl Hp. pose proof (linked_node _ _ _ _ _ Hl) as (i & Hi & Hprev & Hnext).
  assert (i = info) as -> by congruence. unfold CleanupUpdateInternal. rewrite Em, Hp. cbn [mbind option_bind].
  unfold unlink. rewrite Hprev, Hnext.
  destruct (exists_last (l := r :: l1)) as (l & a & E); [done|]. rewrite E, last_snoc.
  assert (is_Some (m !! a)) as [ia Ha].
  { eapply linked_in; [done|]. rewrite app_comm_cons, E. apply elem_of_app. left. apply elem_of_app. right. by left. }
  rewrite Ha. cbn [mbind option_bind]. destruct l2 as [|n l2]; cbn [head].
  - unfold modify, update_infos. cbn. rewrite Em. done.
  - assert (is_Some (infos (modify a (set_next (Some n)) seg) !! n)) as [i2 Hn].
    { cbn. rewrite Em. destruct (decide (a = n)) as [->|]; [rewrite lookup_alter_eq, Ha; eauto|].
      rewrite lookup_alter_ne by done. eapply linked_in; [done|].
      rewrite !elem_of_cons, elem_of_app, !elem_of_cons. tauto. }
    rewrite Hn. cbn [mbind option_bind]. unfold modify, update_infos. cbn. done.
Qed.

Definition drop_owned (a : Z) (p : positive) (owned : ownership) : ownership :=
  fun b => if (b =? a)%Z then List.filter (fun q => negb (bool_decide (q = p))) <$> owned b else owned b.

Lemma drop_owned_in a p owned b ps : drop_owned a p owned b = Some ps ->
  exists ps0, owned b = Some ps0 /\ (NoDup ps0 -> NoDup ps) /\ forall q, q ∈ ps <-> q ∈ ps0 /\ (b = a -> q <> p).
Proof.
  unfold drop_owned. destruct (Z.eqb_spec b a) as [->|Hne].
  - destruct (owned a) as [ps0|]; [|done]. intros [= <-]. exists ps0. split_and!; [done| |].
    + intros Hnd. apply NoDup_ListNoDup, List.NoDup_filter, NoDup_ListNoDup, Hnd.
    + intros q. rewrite !list_elem_of_In, List.filter_In, negb_true_iff, bool_decide_eq_false.
      split; [intros [? ?]; done|]. intros [? Hq]. split; [done|by apply Hq].
  - intros Hps. exists ps. split_and!; [done|done|]. intros q. split; [done|]. by intros [? _].
Qed.

(** Storing a root with the pointers of the old one. *)
Lemma linked_store_root m r l R R' : linked m r l -> m !! r = Some R -> ptrs R' = ptrs R -> linked (<[r := R']> m) r l.
Proof.
  intros Hl HR Hp. eapply linked_frame; [|done]. intros a _. destruct (decide (a = r)) as [->|].
  - rewrite lookup_insert_eq, HR. cbn. by rewrite Hp.
  - by rewrite lookup_insert_ne.
Qed.

Lemma chain_infos_app m l1 l2 : chain_infos m (l1 ++ l2) = chain_infos m l1 ++ chain_infos m l2.
Proof. apply omap_app. Qed.

Lemma chain_infos_split m l1 p l2 info : m !! p = Some info ->
  chain_infos m (l1 ++ p :: l2) = chain_infos m l1 ++ info :: chain_infos m l2.
Proof. intros Hp. rewrite chain_infos_app. unfold chain_infos at 2. cbn. by rewrite Hp. Qed.

(** Unlinking one info, with the root info and the histories of the vector changed to match. *)
Lemma seg_inv_unlink seg hist chains owned vi r l1 p l2 info R R' h' :
  seg_inv active low now hist chains owned seg -> chains vi = Some (r, l1 ++ p :: l2) ->
  infos seg !! p = Some info -> infos seg !! r = Some R -> ptrs R' = ptrs R ->
  chain_inv active low now vi (floor vi) R' (chain_infos (infos seg) (l1 ++ l2)) h' ->
  exists seg', CleanupUpdateInternal p (store r R' seg) = Some seg' /\
    undo_entries seg' = undo_entries seg /\
    seg_inv active low now (set_history hist vi h') (set_chain chains vi (r, l1 ++ l2))
      (drop_owned (version_number info) p owned) seg'.
Proof.
  intros Hinv Hc Hp HR Hptrs Hci'. set (seg1 := store r R' seg).
  destruct (seg_chain _ _ _ _ _ _ _ Hinv vi _ _ Hc) as (R0 & HR0 & Hl & Hci).
  assert (R0 = R) as -> by congruence. pose proof Hl as [Hnd _].
  assert (Hpr : p <> r).
  { intros ->. apply NoDup_cons in Hnd as [Hr _]. apply Hr. rewrite elem_of_app, elem_of_cons. tauto. }
  assert (Hl1 : linked (infos seg1) r (l1 ++ p :: l2)) by (by eapply linked_store_root).
  assert (Hp1 : infos seg1 !! p = Some info) by (cbn; by rewrite lookup_insert_ne).
  rewrite (cleanup_internal_unlink _ r l1 p l2 seg1 info eq_refl Hl1 Hp1).
  eexists. split; [done|]. split; [done|].
  assert (Hr_l : forall a, a ∈ l1 ++ p :: l2 -> a <> r).
  { intros a Ha ->. by apply NoDup_cons in Hnd as [Hr _]. }
  assert (Hsame1 : forall a, a ∈ l1 ++ l2 -> infos seg1 !! a = infos seg !! a).
  { intros a Ha. cbn. rewrite lookup_insert_ne; [done|]. apply not_eq_sym, Hr_l.
    rewrite elem_of_app, elem_of_cons. apply elem_of_app in Ha. tauto. }
  set (seg2 := update_infos (unlink p info) seg1).
  assert (Hpay : same_payloads (infos seg1) (infos seg2)) by apply unlink_same_payloads.
  assert (Hconf : confined vi seg seg2).
  { split; [|done]. intros q iq Hq Hne.
    assert (Hq1 : infos seg1 !! q = Some iq).
    { cbn. rewrite lookup_insert_ne; [done|]. intros ->.
      destruct (seg_inv_vector _ _ _ _ _ _ _ _ _ _ q Hinv Hc) as (i & Hi & Hv); [by left|]. congruence. }
    assert (forall a, a ∈ r :: l1 ++ p :: l2 -> a <> q) as Hnot.
    { intros a Ha ->. destruct (seg_inv_vector _ _ _ _ _ _ _ _ _ _ q Hinv Hc Ha) as (i & Hi & Hv). congruence. }
    rewrite <- Hq1. apply (unlink_other _ r l1 p l2); [done|done|]. intros Hin. by apply (Hnot q Hin). }
  apply (seg_inv_update _ _ _ _ _ owned _ seg); [done|done| | | |].
  - transitivity (GetUpdateNode vi seg); [done|]. by rewrite (seg_root _ _ _ _ _ _ _ Hinv), Hc.
  - destruct (same_payloads_lookup _ _ r R' Hpay) as (R2 & HR2 & Hs2); [cbn; by rewrite lookup_insert_eq|].
    exists R2. split_and!; [done|by apply linked_unlink|].
    eapply chain_inv_payload; [done| |done].
    rewrite <- (chain_infos_frame (infos seg) (infos seg1)) by done. by apply same_payloads_chain.
  - intros q Hq. apply (seg_fresh _ _ _ _ _ _ _ Hinv). specialize (Hpay q).
    destruct Hq as [iq Hq]. rewrite Hq in Hpay. cbn in Hpay.
    destruct (decide (q = r)) as [->|]; [eauto|]. rewrite lookup_insert_ne in Hpay by done.
    by destruct (infos seg !! q).
  - intros a ps Hps. destruct (drop_owned_in _ _ _ _ _ Hps) as (ps0 & Hps0 & Hnd0 & Hin).
    destruct (seg_owned _ _ _ _ _ _ _ Hinv a ps0 Hps0) as [Hnd' Hiff]. split; [by apply Hnd0|].
    intros q. rewrite Hin, Hiff, linked_entry_set_chain; [|done|by eapply confined_same].
    assert (Hver : forall q', q' ∈ l1 ++ l2 ->
      (exists i, infos seg2 !! q' = Some i /\ version_number i = a) <-> (exists i, infos seg !! q' = Some i /\ version_number i = a)).
    { intros q' Hq'. specialize (Hpay q'). rewrite Hsame1 in Hpay by done.
      destruct (infos seg2 !! q') as [i2|], (infos seg !! q') as [i0|]; try done; cbn in Hpay; split; intros (i & Hi & Hv); try done;
        injection Hi as <-; eexists; (split; [done|]); injection Hpay; congruence. }
    split.
    + intros [(vj & r' & l' & i & Hc' & Hq & Hi & Hv) Hne]. destruct (Nat.eq_dec vj vi) as [->|Hvj].
      * rewrite Hc in Hc'. injection Hc' as <- <-. left.
        assert (q ∈ l1 ++ l2) as Hq'.
        { rewrite elem_of_app in *. rewrite elem_of_cons in Hq. destruct Hq as [?|[->|?]]; [tauto| |tauto].
          exfalso. apply Hne; [congruence|done]. }
        destruct (proj2 (Hver q Hq') ltac:(eauto)) as (i2 & ? & ?). eauto.
      * right. exists vj, r', l', i. done.
    + intros [(i & Hq & Hi & Hv)|(vj & r' & l' & i & Hvj & Hc' & Hq & Hi & Hv)].
      * destruct (proj1 (Hver q Hq) ltac:(eauto)) as (i0 & Hi0 & Hv0). split.
        -- exists vi, r, (l1 ++ p :: l2), i0. split_and!; [done| |done|done].
           rewrite elem_of_app, elem_of_cons. apply elem_of_app in Hq. tauto.
        -- intros _ ->. apply NoDup_cons in Hnd as [_ Hnd]. apply NoDup_app in Hnd as (_ & Hd1 & Hnd2).
           apply NoDup_cons in Hnd2 as [Hp2 _]. apply elem_of_app in Hq as [Hq|Hq]; [|done]. apply (Hd1 p Hq). by left.
      * split; [by exists vj, r', l', i|]. intros _ ->.
        destruct (seg_inv_vector _ _ _ _ _ _ _ _ _ _ p Hinv Hc') as (i1 & Hi1 & Hv1); [by right|].
        destruct (seg_inv_vector _ _ _ _ _ _ _ _ _ _ p Hinv Hc) as (i2 & Hi2 & Hv2); [|congruence].
        rewrite !elem_of_cons, elem_of_app, elem_of_cons. tauto.
Qed.

(** ** Rolling back *)

Lemma clock_tid v : v ∈ active -> (MAX_COMMIT_ID < transaction_id v)%Z.
Proof. intros Hv. apply max_commit_lt_id. by apply (clock_views _ _ _ Hclock). Qed.

Lemma rollback_update_spec v p seg hist chains owned : seg_inv active low now hist chains owned seg -> v ∈ active ->
  linked_entry chains seg (transaction_id v) p ->
  exists seg' vi chains', RollbackUpdate p seg = Some seg' /\ undo_entries seg' = undo_entries seg /\
    seg_inv active low now (set_history hist vi (fun row => remove_version (transaction_id v) (hist vi row)))
      chains' (drop_owned (transaction_id v) p owned) seg'.
Proof.
  intros Hinv Hv (vi & r & l & info & Hc & Hp & Hi & Hver). apply list_elem_of_split in Hp as (l1 & l2 & ->).
  destruct (seg_chain _ _ _ _ _ _ _ Hinv vi _ _ Hc) as (R & HR & Hl & Hci).
  pose proof (chain_infos_split _ l1 p l2 info Hi) as Hsplit.
  assert (node_ok vi R info) as Hnode.
  { apply (chain_nodes _ _ _ _ _ _ _ _ Hci). rewrite Hsplit. apply elem_of_app. right. by left. }
  destruct (chain_root _ _ _ _ _ _ _ _ Hci) as [HwR HvR HviR]. destruct Hnode as [Hwi _ Hvii _ _ Hrows].
  destruct (law_rollback R info HwR Hwi Hrows) as (vals & ER & HwR' & HmR').
  unfold RollbackUpdate. rewrite Hi. cbn [mbind option_bind].
  assert (HasPrev info = true) as ->.
  { destruct (linked_node _ _ _ _ _ Hl) as (i & Hi' & Hprev & _). assert (i = info) as -> by congruence.
    unfold HasPrev. rewrite Hprev. apply bool_decide_true. destruct (exists_last (l := r :: l1)) as (l & a & E); [done|].
    rewrite E, last_snoc. eauto. }
  cbn [negb]. rewrite Hvii, (seg_root _ _ _ _ _ _ _ Hinv), Hc. cbn [fmap option_fmap option_map fst].
  rewrite HR. cbn [mbind option_bind]. rewrite ER.
  destruct (seg_inv_unlink seg hist chains owned vi r l1 p l2 info R (set_data (tuples R) vals R)
              (fun row => remove_version (transaction_id v) (hist vi row)) Hinv Hc Hi HR eq_refl) as (seg' & -> & Hu & Hinv').
  - rewrite chain_infos_app.
    eapply (chain_inv_rollback Hclock vi (floor vi) R _ (hist vi) Hci v _ _ info); done.
  - exists seg', vi, (set_chain chains vi (r, l1 ++ l2)). rewrite Hver in Hinv'. done.
Qed.

Lemma no_entries_no_versions v seg hist chains owned vi row : seg_inv active low now hist chains owned seg -> v ∈ active ->
  owned (transaction_id v) = Some [] -> row < STANDARD_VECTOR_SIZE ->
  remove_version (transaction_id v) (hist vi row) = hist vi row.
Proof.
  intros Hinv Hv Ho Hr. destruct (chains vi) as [[r l]|] eqn:Hc.
  - destruct (seg_chain _ _ _ _ _ _ _ Hinv vi _ _ Hc) as (R & HR & Hl & Hci).
    apply (row_inv_rollback (floor vi row) v (hist vi row) (row_chain (chain_infos (infos seg) l) row) Hclock Hv); [by apply Hci|].
    intros y (i & Hi & Ev & _)%row_chain_in. apply chain_infos_in in Hi as (p & Hp & Hi).
    destruct (seg_owned _ _ _ _ _ _ _ Hinv _ _ Ho) as [_ Hin].
    apply (not_elem_of_nil p), Hin. by exists vi, r, l, i.
  - by rewrite (seg_untouched _ _ _ _ _ _ _ Hinv vi Hc row Hr).
Qed.

Lemma remove_version_idemp {A} a (h : list (Z * A)) : remove_version a (remove_version a h) = remove_version a h.
Proof. apply remove_version_not_in. by intros x [_ ?]%remove_version_in. Qed.

#[local] Instance filter_permutation {A} (p : A -> bool) : Proper ((≡ₚ) ==> (≡ₚ)) (List.filter p).
Proof.
  intros l l' E. induction E as [|x k1 k2 _ IH|x y k|k1 k2 k3 _ IH1 _ IH2]; cbn.
  - done.
  - destruct (p x); [by constructor|done].
  - destruct (p x), (p y); try done. by constructor.
  - by rewrite IH1.
Qed.

(** Unlinking the infos of a version one after the other, when every step changes the histories of one
    vector the same way. *)
Lemma unlink_fold (step : positive -> UpdateSegment T -> option (UpdateSegment T)) (f : list (Z * T) -> list (Z * T)) a :
  (forall h, f (f h) = f h) ->
  (forall p seg hist chains owned, seg_inv active low now hist chains owned seg -> linked_entry chains seg a p ->
     exists seg' vi chains', step p seg = Some seg' /\ undo_entries seg' = undo_entries seg /\
       seg_inv active low now (set_history hist vi (fun row => f (hist vi row))) chains' (drop_owned a p owned) seg') ->
  forall ps seg hist chains owned ps0, seg_inv active low now hist chains owned seg ->
  owned a = Some ps0 -> ps ≡ₚ ps0 ->
  exists seg' hist' chains' owned', foldl (fun r p => r ≫= step p) (Some seg) ps = Some seg' /\
    undo_entries seg' = undo_entries seg /\ seg_inv active low now hist' chains' owned' seg' /\
    owned' a = Some [] /\ (forall b, b <> a -> owned' b = owned b) /\
    forall vi row, hist' vi row = hist vi row \/ hist' vi row = f (hist vi row).
Proof.
  intros Hidem Hstep ps. induction ps as [|p ps IH]; intros seg hist chains owned ps0 Hinv Ho Hperm.
  { apply Permutation_nil_l in Hperm as <-. exists seg, hist, chains, owned. split_and!; try done. intros; by left. }
  destruct (seg_owned _ _ _ _ _ _ _ Hinv _ _ Ho) as [Hnd Hin].
  destruct (Hstep p seg hist chains owned Hinv) as (seg1 & vi & chains1 & Hr & Hu1 & Hinv1).
  { apply Hin. rewrite <- Hperm. by left. }
  assert (drop_owned a p owned a = Some (List.filter (fun q => negb (bool_decide (q = p))) ps0)) as Ho1.
  { unfold drop_owned. by rewrite Z.eqb_refl, Ho. }
  destruct (IH seg1 _ chains1 _ _ Hinv1 Ho1) as (seg' & hist' & chains' & owned' & Hf & Hu & Hinv' & Ho' & Hoth & Hh).
  { assert (NoDup (p :: ps)) as [Hp Hnd']%NoDup_cons by by rewrite Hperm.
    rewrite <- Hperm. cbn. rewrite bool_decide_true by done. cbn. rewrite filter_id; [done|].
    intros x Hx. rewrite bool_decide_false; [done|]. by intros ->. }
  exists seg', hist', chains', owned'. cbn [foldl mbind option_bind]. rewrite Hr. split_and!; try done.
  - congruence.
  - intros b Hb. rewrite Hoth by done. unfold drop_owned. by destruct (Z.eqb_spec b a).
  - intros vj row. specialize (Hh vj row). unfold set_history in Hh. destruct (Nat.eqb_spec vj vi) as [->|]; [|done].
    right. destruct Hh as [->| ->]; [done|]. by rewrite Hidem.
Qed.

Lemma seg_inv_forget v seg hist chains owned : seg_inv active low now hist chains owned seg -> v ∈ active ->
  owned (transaction_id v) = Some [] ->
  seg_inv (others (active := active) (transaction_id v)) low now
    (fun vi row => remove_version (transaction_id v) (hist vi row)) chains owned seg.
Proof.
  intros Hinv Hv Ho.
  assert (seg_inv active low now (fun vi row => remove_version (transaction_id v) (hist vi row)) chains owned seg) as Hinv'.
  { eapply seg_inv_ext; [|done]. intros vi row Hr. symmetry. by eapply no_entries_no_versions. }
  split; try apply Hinv'.
  - intros vi r l Hc. destruct (seg_chain _ _ _ _ _ _ _ Hinv' vi r l Hc) as (R & HR & Hl & Hci).
    exists R. split_and!; [done..|]. apply chain_inv_forget; [done|]. intros row x _. by intros [_ ?]%remove_version_in.
Qed.

(** Rolling back a transaction removes its versions from every history. *)
Lemma rollback_updates_spec v seg hist chains owned : seg_inv active low now hist chains owned seg -> v ∈ active ->
  owned (transaction_id v) = Some (undo_of (transaction_id v) seg) ->
  exists seg' chains' owned', RollbackUpdates (transaction_id v) seg = Some seg' /\
    undo_entries seg' = undo_entries seg /\ (forall a, a <> transaction_id v -> owned' a = owned a) /\
    seg_inv (others (active := active) (transaction_id v)) low now
      (fun vi row => remove_version (transaction_id v) (hist vi row)) chains' owned' seg'.
Proof.
  intros Hinv Hv Ho.
  destruct (unlink_fold RollbackUpdate (remove_version (transaction_id v)) (transaction_id v) (remove_version_idemp _)
              (fun p sg hs cs ow Hi => rollback_update_spec v p sg hs cs ow Hi Hv)
              (rev (undo_of (transaction_id v) seg)) seg hist chains owned _ Hinv Ho)
    as (seg' & hist' & chains' & owned' & Hf & Hu & Hinv' & Ho' & Hoth & Hh).
  { symmetry. apply Permutation_rev. }
  exists seg', chains', owned'. split_and!; [done..|].
  eapply seg_inv_ext; [|by apply (seg_inv_forget v _ _ _ _ Hinv' Hv Ho')].
  intros vi row _. destruct (Hh vi row) as [->| ->]; [done|]. by rewrite remove_version_idemp.
Qed.
End Spec.
