(* ===== verification/UpdateSegmentSteps.v ===== *)
(** * Commit, cleanup and begin keep the invariant of an update segment

    A commit relabels the versions of a transaction in every history; reverting it restores the segment
    exactly. A cleanup unlinks the infos of a version nobody misses, and changes no history. *)

From S2P Require Import Prelude Snapshot ValidityMask UpdateInfo UpdateSegment.
From S2P Require Import UpdateInfoFacts UpdateLaws UpdateVersions UpdateChains UpdateInvariant UpdateSegmentFacts UpdateSegmentSpec.
From Stdlib Require Import Sorted.

Local Open Scope nat_scope.

Section Steps.
Context {T Vec : Type} `{SegmentLaws T Vec}.
Implicit Types (seg : UpdateSegment T) (m : gmap positive (UpdateInfo T)).

Context (base : nat -> Vec).

(** ** Setting the version of a list of infos *)

Lemma commit_updates_infos cid ps seg p : NoDup ps ->
  infos (foldl (fun seg p => CommitUpdate cid p seg) seg ps) !! p =
  (if bool_decide (p ∈ ps) then set_version cid else id) <$> infos seg !! p.
Proof.
  revert seg. induction ps as [|q ps IH]; intros seg Hnd; cbn [foldl].
  { by rewrite option_fmap_id. }
  apply NoDup_cons in Hnd as [Hq Hnd]. rewrite IH by done. cbn [CommitUpdate modify update_infos infos].
  destruct (decide (q = p)) as [->|Hne].
  - rewrite lookup_alter_eq, (bool_decide_false (p ∈ ps)) by done.
    rewrite (bool_decide_true (p ∈ p :: ps)) by left. by rewrite option_fmap_id.
  - rewrite lookup_alter_ne by done. repeat case_bool_decide; set_solver.
Qed.

Lemma commit_updates_rest cid ps seg :
  let seg' := foldl (fun seg p => CommitUpdate cid p seg) seg ps in
  next_entry seg' = next_entry seg /\ undo_entries seg' = undo_entries seg /\ root seg' = root seg /\ stats seg' = stats seg.
Proof.
  cbv zeta. revert seg. induction ps as [|p ps IH]; intros seg; cbn [foldl]; [done|].
  by destruct (IH (CommitUpdate cid p seg)) as (-> & -> & -> & ->).
Qed.

Lemma segment_eq seg seg' : infos seg = infos seg' -> next_entry seg = next_entry seg' ->
  undo_entries seg = undo_entries seg' -> root seg = root seg' -> stats seg = stats seg' -> seg = seg'.
Proof. destruct seg, seg'. cbn. by intros -> -> -> -> ->. Qed.

Context {active : list SnapshotView} {low now : Z} (Hclock : clock_ok active low now).

Abbreviation inv := (seg_inv base).

Lemma owned_version hist chains owned seg a ps p : inv active low now hist chains owned seg -> owned a = Some ps ->
  p ∈ ps -> exists info, infos seg !! p = Some info /\ version_number info = a.
Proof.
  intros Hinv Ho Hp. destruct (seg_owned _ _ _ _ _ _ _ _ Hinv a ps Ho) as [_ Hin].
  apply Hin in Hp as (vi & r & l & info & _ & _ & Hi & Hv). eauto.
Qed.

Lemma set_version_same (info : UpdateInfo T) : set_version (version_number info) info = info.
Proof. by destruct info. Qed.

(** Setting infos of a transaction to a commit id and back. *)
Lemma revert_commit_some hist chains owned seg tid cid ps qs : inv active low now hist chains owned seg ->
  owned tid = Some qs -> NoDup ps -> ps ⊆ qs ->
  foldl (fun seg p => CommitUpdate tid p seg) (foldl (fun seg p => CommitUpdate cid p seg) seg ps) (rev ps) = seg.
Proof.
  intros Hinv Ho Hnd Hsub.
  pose proof (commit_updates_rest cid ps seg) as (Hn & Hu & Hr & Hs).
  set (seg' := foldl _ seg ps) in *.
  pose proof (commit_updates_rest tid (rev ps) seg') as (Hn' & Hu' & Hr' & Hs').
  apply segment_eq; [|etransitivity; done..].
  apply map_eq. intros p. rewrite commit_updates_infos by by apply NoDup_ListNoDup, NoDup_rev, NoDup_ListNoDup.
  unfold seg'. rewrite commit_updates_infos by done.
  assert (p ∈ rev ps <-> p ∈ ps) as Hrev by by rewrite <- Permutation_rev.
  repeat case_bool_decide; try tauto.
  - destruct (owned_version _ _ _ _ _ _ p Hinv Ho) as (info & -> & Hv); [by apply Hsub|]. cbn. f_equal.
    transitivity (set_version tid info); [by destruct info|]. by rewrite <- Hv, set_version_same.
  - by rewrite !option_fmap_id.
Qed.

(** [RevertCommit] undoes [Commit]. *)
Lemma revert_commit_updates hist chains owned seg tid cid : inv active low now hist chains owned seg ->
  owned tid = Some (undo_of tid seg) -> RevertCommitUpdates tid (CommitUpdates tid cid seg) = seg.
Proof.
  intros Hinv Ho. destruct (seg_owned _ _ _ _ _ _ _ _ Hinv _ _ Ho) as [Hnd _].
  unfold RevertCommitUpdates. assert (undo_of tid (CommitUpdates tid cid seg) = undo_of tid seg) as ->.
  { unfold undo_of, CommitUpdates. by rewrite (proj1 (proj2 (commit_updates_rest cid (undo_of tid seg) seg))). }
  by eapply revert_commit_some.
Qed.

(** ** Committing *)

Definition commit_owned (tid cid : Z) (owned : Z -> option (list positive)) (a : Z) : option (list positive) :=
  if (a =? cid)%Z then owned tid else if (a =? tid)%Z then None else owned a.

Definition relabel_all (tid cid : Z) (hist : nat -> nat -> list (Z * T)) : nat -> nat -> list (Z * T) :=
  fun vi row => relabel tid cid (hist vi row).

Lemma linked_version_bound hist chains owned seg a p : inv active low now hist chains owned seg ->
  linked_entry chains seg a p -> (a < now)%Z \/ exists w, w ∈ active /\ a = transaction_id w.
Proof.
  intros Hinv (vi & r & l & info & Hc & Hp & Hi & <-).
  destruct (seg_chain _ _ _ _ _ _ _ _ Hinv vi r l Hc) as (R & HR & Hl & Hci).
  eapply (node_version_bound vi (floor base vi) R _ (hist vi) Hci). apply chain_infos_in. eauto.
Qed.

Lemma commit_updates_spec v cid seg hist chains owned : inv active low now hist chains owned seg -> v ∈ active ->
  owned (transaction_id v) = Some (undo_of (transaction_id v) seg) -> (now <= cid < MAX_COMMIT_ID)%Z ->
  inv (others (active := active) (transaction_id v)) low (cid + 1) (relabel_all (transaction_id v) cid hist) chains
    (commit_owned (transaction_id v) cid owned) (CommitUpdates (transaction_id v) cid seg) /\
  undo_entries (CommitUpdates (transaction_id v) cid seg) = undo_entries seg.
Proof.
  intros Hinv Hv Ho Hcid. set (tid := transaction_id v) in *. set (ps := undo_of tid seg) in *.
  set (seg' := CommitUpdates tid cid seg).
  destruct (seg_owned _ _ _ _ _ _ _ _ Hinv _ _ Ho) as [Hnd Hin].
  pose proof (commit_updates_rest cid ps seg) as (Hn & Hu & Hr & Hs).
  pose proof (clock_tid Hclock v Hv) as Htid. fold tid in Htid.
  assert (Hnode : forall vi r l p info, chains vi = Some (r, l) -> p ∈ l -> infos seg !! p = Some info ->
            infos seg' !! p = Some (commit_info tid cid info)).
  { intros vi r l p info Hc Hp Hi. unfold seg', CommitUpdates. rewrite commit_updates_infos, Hi by done. cbn. f_equal.
    unfold commit_info. destruct (Z.eqb_spec (version_number info) tid) as [E|E].
    - rewrite bool_decide_true; [done|]. apply Hin. by exists vi, r, l, info.
    - rewrite bool_decide_false; [done|]. intros Hps. destruct (owned_version _ _ _ _ _ _ p Hinv Ho Hps) as (i & Hi' & Ev).
      congruence. }
  assert (Hroot : forall r R, infos seg !! r = Some R -> version_number R = MAX_COMMIT_ID -> infos seg' !! r = Some R).
  { intros r R HR Ev. unfold seg', CommitUpdates. rewrite commit_updates_infos, HR, bool_decide_false by
      (done || (intros Hps; destruct (owned_version _ _ _ _ _ _ r Hinv Ho Hps) as (i & Hi' & Ev'); assert (i = R) by congruence; subst; lia)).
    done. }
  assert (Hlinked : forall a p, linked_entry chains seg' a p <->
            (a = cid /\ linked_entry chains seg tid p) \/ (a <> cid /\ a <> tid /\ linked_entry chains seg a p)).
  { intros a p. split.
    - intros (vi & r & l & info' & Hc & Hp & Hi' & Ev).
      destruct (seg_inv_vector _ _ _ _ _ _ _ _ _ _ _ p Hinv Hc) as (info & Hi & _); [by right|].
      rewrite (Hnode vi r l p info Hc Hp Hi) in Hi'. injection Hi' as <-. rewrite commit_info_version in Ev.
      assert (linked_entry chains seg (version_number info) p) as Hl by by exists vi, r, l, info.
      unfold relabel_version in Ev. destruct (Z.eqb_spec (version_number info) tid) as [E|E].
      + left. split; [done|]. by rewrite <- E.
      + right. subst a. split_and!; [|done|done]. pose proof (linked_version_bound _ _ _ _ _ _ Hinv Hl) as [?|(w & Hw & ->)]; [lia|].
        pose proof (clock_tid Hclock w Hw). lia.
    - intros [[-> (vi & r & l & info & Hc & Hp & Hi & Ev)]|(Hne & Hne' & (vi & r & l & info & Hc & Hp & Hi & Ev))];
        exists vi, r, l, (commit_info tid cid info); (split_and!; [done|done|by eapply Hnode|]);
        rewrite commit_info_version; unfold relabel_version; rewrite Ev.
      + by rewrite Z.eqb_refl.
      + by destruct (Z.eqb_spec a tid). }
  split; [|done]. split.
  - intros vi. rewrite <- (seg_root _ _ _ _ _ _ _ _ Hinv). unfold GetUpdateNode. unfold seg', CommitUpdates. fold ps. by rewrite Hr.
  - intros vi r l Hc. destruct (seg_chain _ _ _ _ _ _ _ _ Hinv vi r l Hc) as (R & HR & Hl & Hci).
    exists R. split; [by apply Hroot; [|apply Hci]|]. split.
    + eapply linked_frame; [|done]. intros p _. unfold seg', CommitUpdates. rewrite commit_updates_infos by done.
      destruct (infos seg !! p) as [info|]; [|done]. cbn. f_equal. by case_bool_decide.
    + assert (chain_infos (infos seg') l = map (commit_info tid cid) (chain_infos (infos seg) l)) as ->.
      { assert (Hsub : forall p, p ∈ l -> exists info, infos seg !! p = Some info /\ infos seg' !! p = Some (commit_info tid cid info)).
        { intros p Hp. destruct (linked_in _ _ _ p Hl) as [info Hi]; [by right|]. eauto. }
        clear -Hsub. induction l as [|p l IH]; [done|]. destruct (Hsub p) as (info & Hi & Hi'); [by left|].
        unfold chain_infos in *. cbn. rewrite Hi, Hi'. cbn. f_equal. apply IH. intros q Hq. apply Hsub. by right. }
      by apply (chain_inv_commit Hclock vi (floor base vi) R _ (hist vi) Hci).
  - intros vi Hc row Hrow. unfold relabel_all. by rewrite (seg_untouched _ _ _ _ _ _ _ _ Hinv vi Hc row Hrow).
  - intros p. unfold seg', CommitUpdates. rewrite commit_updates_infos, fmap_is_Some by done. fold ps. rewrite Hn.
    apply (seg_fresh _ _ _ _ _ _ _ _ Hinv).
  - intros a qs. unfold commit_owned. destruct (Z.eqb_spec a cid) as [->|Hac].
    + rewrite Ho. intros [= <-]. split; [done|]. intros p. rewrite Hlinked, Hin. tauto.
    + destruct (Z.eqb_spec a tid) as [->|Hat]; [done|]. intros Hq.
      destruct (seg_owned _ _ _ _ _ _ _ _ Hinv a qs Hq) as [Hndq Hinq]. split; [done|]. intros p. rewrite Hlinked, Hinq. tauto.
Qed.

(** ** Cleaning up *)

Lemma seg_inv_raise hist chains owned seg low' : inv active low now hist chains owned seg -> (low <= low')%Z ->
  inv active low' now hist chains owned seg.
Proof.
  intros Hinv Hl. split; try apply Hinv.
  - intros vi r l Hc. destruct (seg_chain _ _ _ _ _ _ _ _ Hinv vi r l Hc) as (R & HR & Hlk & Hci).
    exists R. split_and!; [done..|]. by apply (chain_inv_raise (low := low)).
Qed.

Lemma cleanup_update_spec a p seg hist chains owned : inv active low now hist chains owned seg -> (a < low)%Z ->
  linked_entry chains seg a p ->
  exists seg' vi chains', CleanupUpdate p seg = Some seg' /\ undo_entries seg' = undo_entries seg /\
    inv active low now (set_history hist vi (fun row => hist vi row)) chains' (drop_owned a p owned) seg'.
Proof.
  intros Hinv Ha (vi & r & l & info & Hc & Hp & Hi & Hver). apply list_elem_of_split in Hp as (l1 & l2 & ->).
  destruct (seg_chain _ _ _ _ _ _ _ _ Hinv vi _ _ Hc) as (R & HR & Hl & Hci).
  destruct (seg_inv_unlink base seg hist chains owned vi r l1 p l2 info R R (hist vi) Hinv Hc Hi HR eq_refl)
    as (seg' & Hs & Hu & Hinv').
  - rewrite chain_infos_app.
    apply (chain_inv_cleanup vi (floor base vi) R _ (hist vi) Hci low (chain_infos (infos seg) l1) info); [lia| |lia].
    by apply chain_infos_split.
  - assert (store r R seg = seg) as Est.
    { apply segment_eq; try done. cbn. by apply insert_id. }
    rewrite Est in Hs. exists seg', vi, (set_chain chains vi (r, l1 ++ l2)). rewrite Hver in Hinv'. done.
Qed.

(** Cleaning up a committed transaction changes no history. *)
Lemma cleanup_updates_spec tid cid seg hist chains owned : inv active low now hist chains owned seg -> (cid < low)%Z ->
  owned cid = Some (undo_of tid seg) ->
  exists seg' chains' owned', CleanupUpdates tid seg = Some seg' /\ undo_entries seg' = undo_entries seg /\
    (forall a, a <> cid -> owned' a = owned a) /\ inv active low now hist chains' owned' seg'.
Proof.
  intros Hinv Ha Ho.
  destruct (unlink_fold base CleanupUpdate (fun h => h) cid (fun _ => eq_refl)
              (fun p sg hs cs ow Hi => cleanup_update_spec cid p sg hs cs ow Hi Ha)
              (undo_of tid seg) seg hist chains owned _ Hinv Ho)
    as (seg' & hist' & chains' & owned' & Hf & Hu & Hinv' & Ho' & Hoth & Hh); [done|].
  exists seg', chains', owned'. split_and!; [done..|].
  eapply seg_inv_ext; [|done]. intros vi row _. by destruct (Hh vi row) as [->| ->].
Qed.

(** ** Beginning *)

Lemma begin_spec v seg hist chains owned : inv active low now hist chains owned seg -> WfView v ->
  transaction_id v ∉ transaction_id <$> active -> (now <= VisibilityBound.value (visibility_bound v))%Z ->
  inv (v :: active) low (VisibilityBound.value (visibility_bound v)) hist chains
    (fun a => if (a =? transaction_id v)%Z then Some [] else owned a) seg.
Proof.
  intros Hinv Hwf Hnew Hb. pose proof (max_commit_lt_id v Hwf). split; try apply Hinv.
  - intros vi r l Hc. destruct (seg_chain _ _ _ _ _ _ _ _ Hinv vi r l Hc) as (R & HR & Hl & Hci).
    exists R. split_and!; [done..|]. by apply (chain_inv_begin Hclock).
  - intros a ps. destruct (Z.eqb_spec a (transaction_id v)) as [->|]; [|by apply Hinv].
    intros [= <-]. split; [constructor|]. intros p. split; [by intros ?%elem_of_nil|]. intros Hl.
    destruct (linked_version_bound _ _ _ _ _ _ Hinv Hl) as [?|(w & Hw & E)].
    + destruct Hclock. lia.
    + exfalso. apply Hnew. rewrite E. by apply list_elem_of_fmap_2.
Qed.
End Steps.
