(* ===== verification/UpdateWrite.v ===== *)
(** * What an update does to the histories of the rows

    [Update] writes the selected rows into the root info and the values written over into the info of
    the transaction, or it reports a conflict and changes nothing. *)

From S2P Require Import Prelude Snapshot ValidityMask UpdateInfo UpdateSegment.
From S2P Require Import UpdateInfoFacts UpdateLaws UpdateVersions UpdateChains UpdateInvariant UpdateSegmentFacts UpdateSegmentSpec UpdateSegmentSteps.
From Stdlib Require Import Sorted.

Local Open Scope nat_scope.

(** ** Capacities *)

Section Capacities.
Local Open Scope Z_scope.

(** The bits of [y] are those of [x] smeared over [d] positions to the right. *)
Definition smeared (d x y : Z) : Prop :=
  0 <= y /\ forall k, 0 <= k -> Z.testbit y k = true <-> exists j, k <= j < k + d /\ Z.testbit x j = true.

Lemma smeared_step d x y : 0 < d -> smeared d x y -> smeared (2 * d) x (Z.lor y (Z.shiftr y d)).
Proof.
  intros Hd [Hy Hbits]. split; [apply Z.lor_nonneg; split; [done|by apply Z.shiftr_nonneg]|].
  intros k Hk. rewrite Z.lor_spec, Z.shiftr_spec, orb_true_iff, !Hbits by lia. split.
  - intros [(j & Hj & E)|(j & Hj & E)]; exists j; (split; [lia|done]).
  - intros (j & Hj & E). destruct (Z.lt_ge_cases j (k + d)); [left|right]; exists j; (split; [lia|done]).
Qed.

Lemma smeared_full x y : 0 < x < 2 ^ 64 -> smeared 64 x y -> y = Z.ones (Z.log2 x + 1).
Proof.
  intros Hx [Hy Hbits]. pose proof (Z.log2_nonneg x) as Hl.
  assert (Z.log2 x < 64) as Hl64 by (apply Z.log2_lt_pow2; lia).
  apply Z.bits_inj_iff'. intros k Hk. apply eq_true_iff_eq. rewrite Hbits by done.
  destruct (Z.lt_ge_cases k (Z.log2 x + 1)).
  - rewrite Z.ones_spec_low by lia. split; [done|]. intros _. exists (Z.log2 x).
    split; [lia|]. apply Z.bit_log2. lia.
  - rewrite Z.ones_spec_high by lia. split; [|done]. intros (j & Hj & E).
    rewrite Z.bits_above_log2 in E; [done|lia|lia].
Qed.

Lemma next_power_of_two_spec v : 1 <= v < 2 ^ 64 ->
  NextPowerOfTwo v = if v <=? 2 ^ 63 then Ok (2 ^ Z.log2_up v)
                     else Throw (OutOfRangeException "Can't find next power of 2 for %llu").
Proof.
  intros Hv. destruct (Z.eq_dec v 1) as [->|Hv1]; [done|]. unfold NextPowerOfTwo. destruct (Z.ltb_spec v 1); [lia|]. cbv zeta.
  assert (Hs : smeared 1 (v - 1) (v - 1)).
  { split; [lia|]. intros k Hk. split; [intros E; exists k; split; [lia|done]|].
    intros (j & Hj & E). by replace j with k in E by lia. }
  apply (smeared_step 1) in Hs; [|done]. apply (smeared_step 2) in Hs; [|done].
  apply (smeared_step 4) in Hs; [|done]. apply (smeared_step 8) in Hs; [|done].
  apply (smeared_step 16) in Hs; [|done]. apply (smeared_step 32) in Hs; [|done].
  change (2 * 32) with 64 in Hs. set (y := Z.lor _ (Z.shiftr _ 32)) in *.
  rewrite (smeared_full (v - 1) y) by (done || lia). rewrite Z.ones_equiv.
  assert (Z.log2_up v = Z.log2 (v - 1) + 1) as Elog.
  { rewrite Z.log2_up_eqn by lia. by rewrite Z.sub_1_r, Z.add_1_r. }
  rewrite <- Elog. replace (Z.pred (2 ^ Z.log2_up v) + 1) with (2 ^ Z.log2_up v) by lia.
  assert (0 < 2 ^ Z.log2_up v) as Hpos by (apply Z.pow_pos_nonneg; [lia|apply Z.log2_up_nonneg]).
  destruct (Z.leb_spec v (2 ^ 63)).
  - assert (Z.log2_up v <= 63) by (apply Z.log2_up_le_pow2; lia).
    assert (2 ^ Z.log2_up v <= 2 ^ 63) by (apply Z.pow_le_mono_r; lia).
    rewrite wrapu_small by (unfold in_u; lia). destruct (Z.eqb_spec (2 ^ Z.log2_up v) 0); [lia|done].
  - assert (Z.log2_up v = 64) as ->.
    { assert (63 < Z.log2_up v) by (apply Z.log2_up_lt_pow2; lia).
      assert (Z.log2_up v <= 64) by (apply Z.log2_up_le_pow2; lia). lia. }
    done.
Qed.

Lemma next_power_of_two_ge v : 1 <= v <= 2 ^ 63 -> exists r, NextPowerOfTwo v = Ok r /\ v <= r.
Proof.
  intros Hv. rewrite next_power_of_two_spec by lia. destruct (Z.leb_spec v (2 ^ 63)); [|lia].
  eexists. split; [done|]. destruct (Z.eq_dec v 1) as [->|]; [done|]. by apply Z.log2_up_spec; lia.
Qed.
End Capacities.

(** ** The rows of an update *)

Section Rows.
Context {VS : VectorSize}.

(** Where the row ids of the vector start. *)
Definition vector_start (rgs : Z) (vi : nat) : Z := (rgs + Z.of_nat vi * Z.of_nat STANDARD_VECTOR_SIZE)%Z.

(** The bounds under which row ids and rows of a vector fit their types: [row_t] is signed, [sel_t] has
    32 bits. *)
Record vector_bounds (rgs : Z) (vi : nat) : Prop := {
  bounds_start : (0 <= rgs)%Z;
  bounds_end : (vector_start rgs vi + Z.of_nat STANDARD_VECTOR_SIZE <= 2 ^ 63)%Z;
  bounds_size : (Z.of_nat STANDARD_VECTOR_SIZE <= 2 ^ 32)%Z
}.

Context {rgs : Z} {vi : nat} (Hb : vector_bounds rgs vi) (ids : list Z).

Definition in_vector (rgs : Z) (vi : nat) (ids : list Z) (i : nat) : Prop :=
  (vector_start rgs vi <= rd ids i < vector_start rgs vi + Z.of_nat STANDARD_VECTOR_SIZE)%Z.
Definition row_at (rgs : Z) (vi : nat) (ids : list Z) (i : nat) : nat := Z.to_nat (rd ids i - vector_start rgs vi).

Abbreviation row := (row_at rgs vi ids).

Lemma compact_capacity_ok c : c <= STANDARD_VECTOR_SIZE -> exists cap, GetCompactCapacity c = Ok cap /\ c <= cap.
Proof.
  intros Hc. destruct Hb as [_ _ Hs]. unfold GetCompactCapacity. destruct (Nat.leb_spec c 8); [by exists 8|].
  destruct (next_power_of_two_ge (Z.of_nat c)) as (r & -> & Hr); [lia|]. cbn. eexists. split; [done|lia].
Qed.

Lemma vector_start_u64 : u64 (vector_start rgs vi) = vector_start rgs vi.
Proof. destruct Hb. apply wrapu_small. unfold in_u, vector_start in *. lia. Qed.

Lemma row_bound i : in_vector rgs vi ids i -> row i < STANDARD_VECTOR_SIZE.
Proof. unfold in_vector, row_at. lia. Qed.

Lemma row_id i : in_vector rgs vi ids i -> (rd ids i - vector_start rgs vi = Z.of_nat (row i))%Z.
Proof. unfold in_vector, row_at. lia. Qed.

Lemma offset_in_vector_row i : in_vector rgs vi ids i -> offset_in_vector (rd ids i) (vector_start rgs vi) = row i.
Proof.
  intros Hi. destruct Hb. unfold offset_in_vector, in_vector, row_at, vector_start in *.
  rewrite (wrapu_small 64 (rd ids i)) by (unfold in_u; lia). rewrite wrapu_small by (unfold in_u; lia). done.
Qed.

Lemma vector_index_of i : in_vector rgs vi ids i -> offset_in_vector (rd ids i) rgs / STANDARD_VECTOR_SIZE = vi.
Proof.
  intros Hi. destruct Hb. unfold offset_in_vector, in_vector, vector_start in *.
  rewrite (wrapu_small 64 (rd ids i)) by (unfold in_u; lia). rewrite wrapu_small by (unfold in_u; lia).
  symmetry. apply (Nat.div_unique _ _ _ (row i)); unfold row_at, vector_start; lia.
Qed.

Lemma checked_tuples_rows sel n : (forall i, i < n -> in_vector rgs vi ids (get_index sel i)) ->
  checked_tuples ids sel (vector_start rgs vi) 0 n = Ok (map (fun i => row (get_index sel i)) (seq 0 n)).
Proof.
  intros Hin. assert (Hk : forall k m, k + m <= n ->
    checked_tuples ids sel (vector_start rgs vi) k m = Ok (map (fun i => row (get_index sel i)) (seq k m))); [|by apply Hk].
  intros k m. revert k. induction m as [|m IH]; intros k Hk; [done|]. cbn [checked_tuples].
  specialize (Hin k ltac:(lia)). pose proof (row_bound _ Hin). pose proof (row_id _ Hin) as Hid.
  unfold checked_tuple. destruct Hb. unfold in_vector, vector_start in *.
  destruct (Z.ltb_spec (rd ids (get_index sel k)) 0); [lia|].
  rewrite wrapu_small by (unfold in_u; lia). rewrite Hid.
  destruct (Z.leb_spec (2 ^ 32) (Z.of_nat (row (get_index sel k)))); [lia|]. cbn. rewrite IH by lia. cbn. by rewrite Nat2Z.id.
Qed.

Lemma map_selected {A} (f : nat -> A) sel n : map f (selected sel n) = map (fun i => f (get_index sel i)) (seq 0 n).
Proof. apply map_map. Qed.

Lemma rows_sorted sel n : StronglySorted (key_lt ids) (selected sel n) ->
  (forall i, i ∈ selected sel n -> in_vector rgs vi ids i) -> StronglySorted lt (map row (selected sel n)).
Proof.
  generalize (selected sel n). clear. intros l Hs. induction Hs as [|i l Hs IH Hf]; intros Hin; [constructor|]. cbn.
  constructor; [apply IH; intros j Hj; apply Hin; by right|].
  apply Forall_forall. intros r (j & -> & Hj)%list_elem_of_fmap.
  rewrite Forall_forall in Hf. specialize (Hf j Hj). unfold key_lt in Hf.
  pose proof (row_id i (Hin i ltac:(by left))). pose proof (row_id j (Hin j ltac:(by right))). lia.
Qed.

Lemma rows_bounded sel n : (forall i, i ∈ selected sel n -> in_vector rgs vi ids i) ->
  Forall (fun r => r < STANDARD_VECTOR_SIZE) (map row (selected sel n)).
Proof. intros Hin. apply Forall_forall. intros r (i & -> & Hi)%list_elem_of_fmap. by apply row_bound, Hin. Qed.
End Rows.

(** ** Writing into a chain *)

Section Write.
Context {T Vec : Type} `{SegmentLaws T Vec} `{StdSortSpec}.
Implicit Types (seg : UpdateSegment T) (m : gmap positive (UpdateInfo T)) (um : gmap nat T).

Context (base : nat -> Vec).
Context {active : list SnapshotView} {low now : Z} (Hclock : clock_ok active low now).
Context (v : SnapshotView) (Hv : v ∈ active).

Abbreviation inv := (seg_inv base active low now).
Abbreviation tid := (transaction_id v).

(** The values a write saves: what the rows of [um] had before. *)
Definition old_values (fl : nat -> T) (R : UpdateInfo T) um : gmap nat T :=
  map_imap (fun row _ => Some (default (fl row) (info_map R !! row))) um.

Lemma kmap_imap (f : nat -> nat) (x g : nat -> T) l :
  kmap (map (fun i => (f i, g (f i))) l) = map_imap (fun row _ => Some (g row)) (kmap (map (fun i => (f i, x i)) l)).
Proof.
  induction l as [|i l IH]; cbn [map].
  - unfold kmap. cbn. by rewrite map_imap_empty.
  - rewrite !kmap_cons, IH. by rewrite map_imap_insert_Some with (y := g (f i)).
Qed.

Lemma info_map_nonempty (info : UpdateInfo T) t : is_Some (info_map info !! t) -> 0 < N info.
Proof.
  intros Ht. unfold info_map in Ht. apply kmap_is_some in Ht. unfold N.
  apply list_elem_of_fmap in Ht as ([k x] & -> & Hin). unfold entries in Hin.
  apply elem_of_zip_l in Hin. destruct (tuples info); [by apply elem_of_nil in Hin|cbn; lia].
Qed.

Lemma old_values_dom fl R um t : is_Some (old_values fl R um !! t) <-> is_Some (um !! t).
Proof. unfold old_values. rewrite map_lookup_imap. destruct (um !! t); cbn; split; intros [? ?]; eauto; done. Qed.

(** The writer's info after the write belongs to the chain of the new root. *)
Lemma written_node vi fl R R' um own own' : wf_info R -> wf_info R' -> info_map R' = um ∪ info_map R ->
  wf_info own' -> info_map own' = info_map own ∪ old_values fl R um ->
  (forall t, is_Some (info_map own !! t) -> t ∈ tuples R) -> (exists t, is_Some (um !! t)) ->
  version_number own' <> MAX_COMMIT_ID -> vector_index own' = vi -> STANDARD_VECTOR_SIZE <= max own' ->
  node_ok vi R' own'.
Proof.
  intros HR HR' HmR Hown Hm Hin [t Ht] Hver Hvec Hmax. split; try done.
  - apply (info_map_nonempty own' t). rewrite Hm, lookup_union. apply (old_values_dom fl R) in Ht as [x ->].
    destruct (info_map own !! t); cbn; eauto.
  - intros s Hs%info_map_dom; [|done]. apply info_map_dom; [done|]. rewrite HmR. rewrite Hm in Hs.
    apply lookup_union_is_Some in Hs as [Hs|Hs]; apply lookup_union_is_Some.
    + right. apply info_map_dom; [done|]. by apply Hin.
    + left. by apply old_values_dom in Hs.
Qed.

Lemma root_rows_grow vi R R' um info : wf_info R -> wf_info R' -> info_map R' = um ∪ info_map R ->
  node_ok vi R info -> node_ok vi R' info.
Proof.
  intros HR HR' HmR []. split; try done. intros t Ht. apply info_map_dom; [done|]. rewrite HmR.
  apply lookup_union_is_Some. right. apply info_map_dom; [done|]. auto.
Qed.

(** A segment whose change amounts to a write. *)
Lemma seg_inv_write seg seg' hist chains owned owned' vi r' l l' R R' um :
  inv hist chains owned seg -> confined vi seg seg' ->
  chain_inv active low now vi (floor base vi) R (chain_infos (infos seg) l) (hist vi) ->
  no_conflict v um (chain_infos (infos seg) l) ->
  GetUpdateNode vi seg' = Some r' -> infos seg' !! r' = Some R' -> linked (infos seg') r' l' ->
  written vi tid (old_values (floor base vi) R um) (chain_infos (infos seg) l) (chain_infos (infos seg') l') ->
  root_ok vi R' -> info_map R' = um ∪ info_map R ->
  (forall info, info ∈ chain_infos (infos seg') l' -> node_ok vi R' info) ->
  (forall p, is_Some (infos seg' !! p) -> (p < next_entry seg')%positive) ->
  (forall a ps, owned' a = Some ps -> NoDup ps /\
    forall p, p ∈ ps <-> linked_entry (set_chain chains vi (r', l')) seg' a p) ->
  inv (set_history hist vi (write_history tid um (hist vi))) (set_chain chains vi (r', l')) owned' seg'.
Proof.
  intros Hinv Hconf Hci Hno Hr HR' Hl Hw Hok HmR Hnodes Hfresh Hown.
  apply (seg_inv_update base _ _ _ _ _ owned _ seg); [done..| |done|done].
  exists R'. split_and!; [done..|].
  by apply (chain_inv_write Hclock v Hv vi (floor base vi) R (chain_infos (infos seg) l) (hist vi) Hci um Hno).
Qed.

(** The linked entries after a change that keeps the versions of the chain and puts new infos on top. *)
Lemma linked_entry_change seg seg' hist chains owned vi r' news a q :
  inv hist chains owned seg -> confined vi seg seg' ->
  (forall p, p ∈ default [] (snd <$> chains vi) ->
     version_number <$> infos seg' !! p = version_number <$> infos seg !! p) ->
  linked_entry (set_chain chains vi (r', news ++ default [] (snd <$> chains vi))) seg' a q <->
  (q ∈ news /\ version_number <$> infos seg' !! q = Some a) \/ linked_entry chains seg a q.
Proof.
  intros Hinv Hconf Hver. rewrite linked_entry_set_chain; [|done|by eapply confined_same].
  assert (Hv' : forall m p, (exists info, m !! p = Some info /\ version_number info = a) <-> version_number <$> m !! p = Some a).
  { intros m p. rewrite fmap_Some. split; intros (i & ? & ?); eauto. }
  split.
  - intros [(info & Hq & Hi & E)|(vj & r & l & info & Hne & Hc & Hq & Hi & E)]; [|right; by exists vj, r, l, info].
    apply elem_of_app in Hq as [Hq|Hq]; [left; split; [done|]; apply Hv'; eauto|right].
    pose proof (Hver q Hq) as Hq'. rewrite Hi in Hq'. symmetry in Hq'. apply fmap_Some in Hq' as (i0 & Hi0 & E0).
    destruct (chains vi) as [[r l]|] eqn:Hc; [|by apply elem_of_nil in Hq]. exists vi, r, l, i0. split_and!; [done..|congruence].
  - intros [[Hq E]|(vj & r & l & info & Hc & Hq & Hi & E)].
    + apply Hv' in E as (info & Hi & E). left. exists info. split; [apply elem_of_app; by left|done].
    + destruct (Nat.eq_dec vj vi) as [->|]; [left|right; by exists vj, r, l, info].
      rewrite Hc in *. cbn in *. specialize (Hver q Hq). rewrite Hi in Hver. apply fmap_Some in Hver as (i' & Hi' & E').
      exists i'. split_and!; [apply elem_of_app; by right|done|congruence].
Qed.

Lemma confined_store vi seg p info r R R' : infos seg !! p = Some info -> vector_index info = vi ->
  infos seg !! r = Some R -> vector_index R = vi -> forall own',
  confined vi seg (store p own' (store r R' seg)).
Proof.
  intros Hp Hpv HR HRv own'. split; [|done]. intros q i Hq Hne. cbn.
  rewrite !lookup_insert_ne; [done|..]; congruence.
Qed.

(** The transaction has an info in the chain already: it gets the values written over as well. *)
Lemma seg_inv_write_own seg hist chains owned vi r l1 p l2 own own' R R' um :
  inv hist chains owned seg -> chains vi = Some (r, l1 ++ p :: l2) ->
  infos seg !! r = Some R -> infos seg !! p = Some own -> version_number own = tid ->
  no_conflict v um (chain_infos (infos seg) (l1 ++ p :: l2)) -> (exists t, is_Some (um !! t)) ->
  wf_info R' -> wf_info own' -> ptrs R' = ptrs R -> ptrs own' = ptrs own ->
  version_number R' = version_number R -> vector_index R' = vector_index R ->
  version_number own' = version_number own -> vector_index own' = vector_index own -> max own' = max own ->
  info_map R' = um ∪ info_map R -> info_map own' = info_map own ∪ old_values (floor base vi) R um ->
  inv (set_history hist vi (write_history tid um (hist vi))) (set_chain chains vi (r, l1 ++ p :: l2)) owned
    (store p own' (store r R' seg)).
Proof.
  intros Hinv Hc HR Hp Hver Hno Hum HwR Hwo HpR Hpo HverR HvecR Hvero Hveco Hmaxo HmR Hmo.
  destruct (seg_chain _ _ _ _ _ _ _ _ Hinv vi _ _ Hc) as (R0 & HR0 & Hl & Hci). assert (R0 = R) as -> by congruence.
  pose proof (chain_infos_split _ l1 p l2 own Hp) as Hsplit.
  destruct (chain_root _ _ _ _ _ _ _ _ Hci) as [HwfR Hroot HvR].
  assert (node_ok vi R own) as Hown.
  { apply (chain_nodes _ _ _ _ _ _ _ _ Hci). rewrite Hsplit. apply elem_of_app. right. by left. }
  pose proof Hown as [_ Hvo Hvec Hsize Hmax Hrows].
  assert (NoDup (r :: l1 ++ p :: l2)) as Hnd by apply Hl.
  apply NoDup_cons in Hnd as [Hrl Hnd]. apply NoDup_app in Hnd as (_ & Hd1 & Hd2). apply NoDup_cons in Hd2 as [Hp2 _].
  assert (Hframe : forall q, q ∈ l1 ++ l2 -> infos (store p own' (store r R' seg)) !! q = infos seg !! q).
  { intros q Hq. cbn. rewrite !lookup_insert_ne; [done|..].
    - intros ->. apply Hrl. rewrite elem_of_app, elem_of_cons. apply elem_of_app in Hq. tauto.
    - intros ->. apply elem_of_app in Hq as [Hq|Hq]; [|done]. apply (Hd1 q Hq). by left. }
  assert (Hprp : p <> r) by (intros ->; apply Hrl; apply elem_of_app; right; by left).
  assert (chain_infos (infos (store p own' (store r R' seg))) (l1 ++ p :: l2) =
          chain_infos (infos seg) l1 ++ own' :: chain_infos (infos seg) l2) as Hsplit'.
  { rewrite (chain_infos_split _ l1 p l2 own') by (cbn; by rewrite lookup_insert_eq).
    rewrite (chain_infos_frame (infos seg) _ l1), (chain_infos_frame (infos seg) _ l2); [done|..];
      intros q Hq; apply Hframe, elem_of_app; tauto. }
  assert (Hconf : confined vi seg (store p own' (store r R' seg))) by (by eapply confined_store).
  eapply (seg_inv_write seg _ hist chains owned owned vi r (l1 ++ p :: l2) (l1 ++ p :: l2) R R' um); try done.
  - transitivity (GetUpdateNode vi seg); [done|]. by rewrite (seg_root _ _ _ _ _ _ _ _ Hinv), Hc.
  - cbn. by rewrite lookup_insert_ne, lookup_insert_eq.
  - eapply linked_frame; [|done]. intros q _. cbn. destruct (decide (p = q)) as [<-|].
    + rewrite lookup_insert_eq, Hp. cbn. by rewrite Hpo.
    + rewrite lookup_insert_ne by done. destruct (decide (r = q)) as [<-|]; [|by rewrite lookup_insert_ne].
      rewrite lookup_insert_eq, HR. cbn. by rewrite HpR.
  - rewrite Hsplit'. eapply written_own; [done..|congruence|done].
  - split; [done|congruence..].
  - intros info Hi. rewrite Hsplit' in Hi.
    apply elem_of_app in Hi as [Hi|[->|Hi]%elem_of_cons].
    + apply (root_rows_grow vi R R' um); [done..|]. apply (chain_nodes _ _ _ _ _ _ _ _ Hci). rewrite Hsplit, elem_of_app. by left.
    + apply (written_node vi (floor base vi) R R' um own own'); [done..| |done|congruence|congruence|congruence].
      intros t Ht. apply Hrows. apply info_map_dom; [apply Hown|done].
    + apply (root_rows_grow vi R R' um); [done..|]. apply (chain_nodes _ _ _ _ _ _ _ _ Hci).
      rewrite Hsplit, elem_of_app, elem_of_cons. tauto.
  - intros q [i Hq]. apply (seg_fresh _ _ _ _ _ _ _ _ Hinv). cbn in Hq.
    destruct (decide (p = q)) as [<-|]; [eauto|]. rewrite lookup_insert_ne in Hq by done.
    destruct (decide (r = q)) as [<-|]; [eauto|]. rewrite lookup_insert_ne in Hq by done. eauto.
  - intros a ps Hps. destruct (seg_owned _ _ _ _ _ _ _ _ Hinv a ps Hps) as [Hnd Hiff]. split; [done|]. intros q. rewrite Hiff.
    pose proof (linked_entry_change seg (store p own' (store r R' seg)) hist chains owned vi r [] a q Hinv Hconf) as Hle.
    rewrite Hc in Hle. cbn [fmap option_fmap option_map snd default from_option app] in Hle.
    rewrite Hle; [split; [by right|]; intros [[?%elem_of_nil _]|]; done|].
    intros s Hs. change (s ∈ l1 ++ p :: l2) in Hs. destruct (decide (s = p)) as [->|]; [cbn; rewrite lookup_insert_eq, Hp; cbn; by rewrite Hvero|].
    rewrite Hframe; [done|]. rewrite elem_of_app, elem_of_cons in Hs. rewrite elem_of_app. tauto.
Qed.

Definition add_owned (a : Z) (p : positive) (owned : Z -> option (list positive)) : Z -> option (list positive) :=
  fun b => if (b =? a)%Z then (fun ps => ps ++ [p]) <$> owned b else owned b.

Lemma add_owned_in seg seg' hist chains owned vi r' news p a q b ps :
  inv hist chains owned seg -> confined vi seg seg' ->
  (forall p, p ∈ default [] (snd <$> chains vi) ->
     version_number <$> infos seg' !! p = version_number <$> infos seg !! p) ->
  news = [p] -> infos seg !! p = None -> version_number <$> infos seg' !! p = Some a ->
  add_owned a p owned b = Some ps -> NoDup ps /\
    (q ∈ ps <-> linked_entry (set_chain chains vi (r', news ++ default [] (snd <$> chains vi))) seg' b q).
Proof.
  intros Hinv Hconf Hver -> Hp Hpa Hps. rewrite (linked_entry_change seg seg' hist chains owned) by done.
  unfold add_owned in Hps. destruct (Z.eqb_spec b a) as [->|Hne].
  - destruct (owned a) as [ps0|] eqn:Ho; [|done]. injection Hps as <-.
    destruct (seg_owned _ _ _ _ _ _ _ _ Hinv a ps0 Ho) as [Hnd Hin]. split.
    + apply NoDup_app. split_and!; [done| |apply NoDup_singleton]. intros s Hs ->%list_elem_of_singleton.
      destruct (owned_version _ _ _ _ _ _ _ p Hinv Ho Hs) as (i & Hi & _). congruence.
    + rewrite elem_of_app, Hin. split; [|intros [[? _]|?]; [by right|by left]].
      intros [?|Hs]; [by right|left]. split; [done|]. apply list_elem_of_singleton in Hs as ->. done.
  - destruct (seg_owned _ _ _ _ _ _ _ _ Hinv b ps Hps) as [Hnd Hin]. split; [done|].
    rewrite Hin. split; [by right|]. intros [[->%list_elem_of_singleton E]|?]; [congruence|done].
Qed.

(** The transaction has no info in the chain yet: a new one is linked behind the root. *)
Lemma seg_inv_write_new seg seg' hist chains owned vi r l p node node' R R' um :
  inv hist chains owned seg -> chains vi = Some (r, l) -> infos seg !! r = Some R -> p = next_entry seg ->
  (forall info, info ∈ chain_infos (infos seg) l -> version_number info <> tid) ->
  no_conflict v um (chain_infos (infos seg) l) -> (exists t, is_Some (um !! t)) ->
  infos seg' = <[p := node']> (<[r := R']> (match head l with
    | Some n => alter (set_prev (Some p)) n (<[p := node]> (infos seg))
    | None => <[p := node]> (infos seg) end)) ->
  next_entry seg' = Pos.succ p -> (forall vj, GetUpdateNode vj seg' = GetUpdateNode vj seg) ->
  wf_info R' -> wf_info node' -> ptrs R' = (None, Some p) -> ptrs node' = (Some r, head l) ->
  version_number R' = version_number R -> vector_index R' = vector_index R ->
  version_number node' = tid -> vector_index node' = vi -> STANDARD_VECTOR_SIZE <= max node' ->
  info_map R' = um ∪ info_map R -> info_map node' = old_values (floor base vi) R um ->
  inv (set_history hist vi (write_history tid um (hist vi))) (set_chain chains vi (r, p :: l)) (add_owned tid p owned) seg'.
Proof.
  intros Hinv Hc HR Hpn Hnov Hno Hum Einfos Hnext Hroots HwR Hwn HpR Hpp HverR HvecR Hvern Hvecn Hmaxn HmR Hmn.
  destruct (seg_chain _ _ _ _ _ _ _ _ Hinv vi _ _ Hc) as (R0 & HR0 & Hl & Hci). assert (R0 = R) as -> by congruence.
  destruct (chain_root _ _ _ _ _ _ _ _ Hci) as [HwfR Hroot HvR].
  assert (Hpnone : infos seg !! p = None).
  { apply eq_None_not_Some. intros Hs%(seg_fresh _ _ _ _ _ _ _ _ Hinv). lia. }
  assert (Hpl : p ∉ r :: l) by (intros Hs; apply (linked_in _ _ _ _ Hl) in Hs as [? ?]; congruence).
  assert (Hrl : r ∉ l) by (destruct Hl as [Hnd _]; by apply NoDup_cons in Hnd as [? _]).
  rewrite not_elem_of_cons in Hpl. destruct Hpl as [Hpr Hpl].
  (* what the memory holds besides the root and the new info *)
  set (seg1 := update_infos (fun m => match head l with
    | Some n => alter (set_prev (Some p)) n m | None => m end) seg).
  assert (Hpay : same_payloads (infos seg) (infos seg1)).
  { cbn. destruct (head l); [by apply same_payloads_alter|done]. }
  assert (Hlook : forall q, q <> p -> q <> r -> infos seg' !! q = infos seg1 !! q).
  { intros q Hqp Hqr. rewrite Einfos, !lookup_insert_ne by done. cbn. destruct l as [|n l]; cbn [head].
    - by rewrite lookup_insert_ne.
    - destruct (decide (n = q)) as [->|]; [rewrite !lookup_alter_eq|rewrite !lookup_alter_ne by done]; by rewrite lookup_insert_ne. }
  assert (Hlookp : infos seg' !! p = Some node') by (by rewrite Einfos, lookup_insert_eq).
  assert (Hlookr : infos seg' !! r = Some R') by (by rewrite Einfos, lookup_insert_ne, lookup_insert_eq).
  assert (Hlookl : forall q, q ∈ l -> infos seg' !! q = infos seg1 !! q).
  { intros q Hq. apply Hlook; intros ->; done. }
  assert (Hconf : confined vi seg seg').
  { split; [|done]. intros q i Hq Hne. rewrite Hlook; [|congruence..].
    cbn. destruct l as [|n l]; [done|]. cbn [head]. rewrite lookup_alter_ne; [done|]. intros ->.
    destruct (seg_inv_vector _ _ _ _ _ _ _ _ _ _ _ q Hinv Hc) as (i' & Hi' & Hvi'); [right; by left|]. congruence. }
  assert (Hver : forall q, q ∈ default [] (snd <$> chains vi) ->
            version_number <$> infos seg' !! q = version_number <$> infos seg !! q).
  { rewrite Hc. intros q Hq. change (q ∈ l) in Hq. rewrite (Hlookl q Hq). specialize (Hpay q).
    destruct (infos seg1 !! q), (infos seg !! q); try done. cbn in *. by injection Hpay as ->. }
  assert (Hchain : chain_infos (infos seg') (p :: l) = node' :: chain_infos (infos seg1) l).
  { unfold chain_infos. cbn [omap list_omap]. rewrite Hlookp. f_equal. by apply chain_infos_frame. }
  pose proof (same_payloads_chain _ _ l Hpay) as Hpc.
  pose proof (chain_inv_payload _ _ _ _ _ R R _ _ _ eq_refl Hpc Hci) as Hci1.
  eapply (seg_inv_update base _ _ _ _ _ owned _ seg); [done..| | | |].
  - by rewrite Hroots, (seg_root _ _ _ _ _ _ _ _ Hinv), Hc.
  - exists R'. split; [done|]. split.
    + pose proof (linked_push (infos seg) r l p node' Hl ltac:(by rewrite not_elem_of_cons)) as Hpush.
      unfold ptrs in Hpp. injection Hpp as Hpp1 Hpp2. specialize (Hpush Hpp1 Hpp2). cbv zeta in Hpush.
      eapply linked_frame; [|exact Hpush]. intros q _. destruct (decide (q = p)) as [->|Hqp].
      { by rewrite Hlookp, lookup_insert_eq. }
      rewrite (lookup_insert_ne _ p) by done. destruct (decide (q = r)) as [->|Hqr].
      { rewrite Hlookr, ptrs_set_next. cbn. rewrite HpR.
        destruct (linked_root _ _ _ Hl) as (R1 & HR1 & Hprev & _). assert (R1 = R) as -> by congruence.
        assert (match head l with Some n => alter (set_prev (Some p)) n (infos seg) | None => infos seg end !! r = Some R) as ->.
        { destruct l as [|n l]; cbn; [done|]. rewrite lookup_alter_ne; [done|]. intros ->. apply Hrl. by left. }
        cbn. by rewrite Hprev. }
      rewrite lookup_alter_ne by done. rewrite Hlook by done. done.
    + rewrite Hchain. eapply (chain_inv_write Hclock v Hv vi (floor base vi) R _ (hist vi) Hci1 um).
      * intros info Hi. destruct (list_elem_of_lookup_1 _ _ Hi) as [k Hk].
        destruct (Forall2_lookup_r _ _ _ _ _ Hpc Hk) as (i0 & Hi0 & Hs).
        rewrite <- (info_map_payload _ _ Hs). pose proof (same_payload_fields _ _ Hs) as (<- & _).
        apply Hno. by apply list_elem_of_lookup_2 in Hi0.
      * eapply written_new; [|done|done]. intros info Hi. destruct (list_elem_of_lookup_1 _ _ Hi) as [k Hk].
        destruct (Forall2_lookup_r _ _ _ _ _ Hpc Hk) as (i0 & Hi0 & Hs).
        pose proof (same_payload_fields _ _ Hs) as (<- & _). apply Hnov. by apply list_elem_of_lookup_2 in Hi0.
      * split; [done|congruence..].
      * done.
      * intros info [->|Hi]%elem_of_cons; [|apply (root_rows_grow vi R R' um); [done..|by apply (chain_nodes _ _ _ _ _ _ _ _ Hci1)]].
        pose proof (clock_tid Hclock v Hv).
        apply (written_node vi (floor base vi) R R' um (set_data [] [] node') node'); [done..| | |done|lia|done|done].
        -- rewrite Hmn. change (info_map (set_data [] [] node')) with (∅ : gmap nat T). by rewrite (left_id_L ∅ (∪)).
        -- intros t [? ?]. done.
  - intros q Hq. rewrite Hnext. destruct (decide (q = p)) as [->|Hqp]; [lia|].
    assert (is_Some (infos seg !! q)) as Hs; [|apply (seg_fresh _ _ _ _ _ _ _ _ Hinv) in Hs; lia].
    destruct (decide (q = r)) as [->|Hqr]; [eauto|]. rewrite Hlook in Hq by done. specialize (Hpay q).
    destruct Hq as [? Hq]. rewrite Hq in Hpay. destruct (infos seg !! q); [eauto|done].
  - intros a ps Hps. assert (forall q, NoDup ps /\ (q ∈ ps <-> linked_entry (set_chain chains vi (r, p :: l)) seg' a q)) as Hall.
    { intros q. pose proof (add_owned_in seg seg' hist chains owned vi r [p] p tid q a ps Hinv Hconf Hver eq_refl Hpnone) as Hadd.
      rewrite Hc in Hadd. apply Hadd; [|done]. rewrite Hlookp. cbn. by rewrite Hvern. }
    split; [apply (Hall p)|]. intros q. apply Hall.
Qed.

(** ** The root pointers *)

Definition has_slot (vi : nat) seg : Prop := exists ps, root seg = Some ps /\ vi < length ps.

Lemma get_set_root_info vi vj x seg : has_slot vi seg ->
  GetUpdateNode vj (set_root_info vi x seg) = if vj =? vi then x else GetUpdateNode vj seg.
Proof.
  intros (ps & Hps & Hlt). unfold GetUpdateNode, set_root_info, set_root. rewrite Hps. cbn.
  destruct (Nat.eqb_spec vj vi) as [->|]; [by rewrite list_lookup_insert_eq|by rewrite list_lookup_insert_ne].
Qed.

Lemma node_has_slot vi seg p : GetUpdateNode vi seg = Some p -> has_slot vi seg.
Proof.
  unfold GetUpdateNode. destruct (root seg) as [ps|] eqn:Hps; [|done]. intros Hp. exists ps. split; [done|].
  destruct (ps !! vi) eqn:E; [|done]. by apply lookup_lt_Some in E.
Qed.

Lemma initialize_root_spec vi seg : has_slot vi (InitializeRoot vi seg) /\
  forall vj, GetUpdateNode vj (InitializeRoot vi seg) = GetUpdateNode vj seg.
Proof.
  unfold InitializeRoot. set (ps := default [] (root seg)).
  assert (Hps : forall vj, GetUpdateNode vj seg = mjoin (ps !! vj)).
  { intros vj. unfold GetUpdateNode, ps. by destruct (root seg). }
  destruct (Nat.ltb_spec vi (length ps)).
  - split; [by exists ps|]. intros vj. by rewrite Hps.
  - split; [eexists; split; [done|]; rewrite length_app, length_replicate; lia|]. intros vj. rewrite Hps.
    unfold GetUpdateNode, set_root. cbn [root]. destruct (Nat.lt_ge_cases vj (length ps)).
    + by rewrite lookup_app_l.
    + rewrite lookup_app_r, (lookup_ge_None_2 ps) by done. cbn.
      destruct (replicate _ _ !! _) eqn:E; [|done]. by apply lookup_replicate in E as [-> _].
Qed.

(** ** Moving the root to a larger allocation *)

Lemma set_chain_same (chains : nat -> option (positive * list positive)) vi c vj :
  chains vi = Some c -> set_chain chains vi c vj = chains vj.
Proof. intros Hc. unfold set_chain. by destruct (Nat.eqb_spec vj vi) as [->|]. Qed.

Lemma seg_inv_same_chain seg hist chains owned vi c : chains vi = Some c -> inv hist chains owned seg ->
  inv hist (set_chain chains vi c) owned seg.
Proof.
  intros Hc []. split; try done.
  - intros vj. by rewrite (set_chain_same _ _ _ _ Hc).
  - intros vj r' l'. rewrite (set_chain_same _ _ _ _ Hc). apply seg_chain.
  - intros vj. rewrite (set_chain_same _ _ _ _ Hc). apply seg_untouched.
  - intros a ps Hps. destruct (seg_owned a ps Hps) as [? Hin]. split; [done|]. intros p. rewrite Hin.
    unfold linked_entry. setoid_rewrite (set_chain_same _ _ _ _ Hc). done.
Qed.

Lemma set_history_same (hist : nat -> nat -> list (Z * T)) vi vj : set_history hist vi (hist vi) vj = hist vj.
Proof. unfold set_history. by destruct (Nat.eqb_spec vj vi) as [->|]. Qed.

(** The root copied to a new entry, the first info of the chain pointing back to it. *)
Lemma seg_inv_move_root seg hist chains owned vi r l R R1 :
  inv hist chains owned seg -> chains vi = Some (r, l) -> infos seg !! r = Some R ->
  tuples R1 = tuples R -> values R1 = values R -> max R <= max R1 -> version_number R1 = version_number R ->
  vector_index R1 = vector_index R -> prev R1 = prev R -> next R1 = next R ->
  let '(q, seg') := Allocate R1 seg in
  let seg' := match next R with Some n => modify n (set_prev (Some q)) seg' | None => seg' end in
  infos seg' !! q = Some R1 /\ same_payloads (infos seg) (delete q (infos seg')) /\ (forall p, p ∈ l -> p <> q) /\
  inv hist (set_chain chains vi (q, l)) owned (set_root_info vi (Some q) seg').
Proof.
  intros Hinv Hc HR Ht Hvals Hmax Hver Hvec Hp Hn. cbn [Allocate].
  destruct (seg_chain _ _ _ _ _ _ _ _ Hinv vi _ _ Hc) as (R0 & HR0 & Hl & Hci).
  assert (R0 = R) as -> by congruence.
  destruct (linked_root _ _ _ Hl) as (R' & HR' & Hprev & Hnext). assert (R' = R) as -> by congruence.
  set (q := next_entry seg). rewrite Hnext.
  assert (Hq : infos seg !! q = None).
  { apply eq_None_not_Some. intros Hs%(seg_fresh _ _ _ _ _ _ _ _ Hinv). unfold q in Hs. lia. }
  assert (Hql : q ∉ r :: l) by (intros Hs; apply (linked_in _ _ _ _ Hl) in Hs as [? ?]; congruence).
  assert (Hqn : forall n, head l = Some n -> n <> q).
  { intros n Hh ->. apply Hql. right. destruct l; [done|]. injection Hh as ->. by left. }
  set (seg2 := match head l with Some n => _ | None => _ end).
  assert (Hinfos : infos seg2 = match head l with Some n => alter (set_prev (Some q)) n (<[q := R1]> (infos seg)) | None => <[q := R1]> (infos seg) end).
  { unfold seg2. by destruct (head l). }
  assert (Hroot2 : root seg2 = root seg) by (unfold seg2; by destruct (head l)).
  assert (Hnext2 : next_entry seg2 = Pos.succ q) by (unfold seg2; by destruct (head l)).
  assert (Hgr : forall vj, GetUpdateNode vj seg2 = GetUpdateNode vj seg) by (intros vj; unfold GetUpdateNode; by rewrite Hroot2).
  assert (Hlq : infos seg2 !! q = Some R1).
  { rewrite Hinfos. destruct (head l) as [n|] eqn:Hh; [|by rewrite lookup_insert_eq].
    rewrite lookup_alter_ne by by apply Hqn. by rewrite lookup_insert_eq. }
  assert (Hlo : forall s, s <> q -> infos seg2 !! s = infos seg !! s \/
            (head l = Some s /\ infos seg2 !! s = set_prev (Some q) <$> infos seg !! s)).
  { intros s Hs. rewrite Hinfos. destruct (head l) as [n|] eqn:Hh; [|left; by rewrite lookup_insert_ne].
    destruct (decide (n = s)) as [->|]; [right; by rewrite lookup_alter_eq, lookup_insert_ne|left].
    by rewrite lookup_alter_ne, lookup_insert_ne by done. }
  assert (Hpay : same_payloads (infos seg) (delete q (infos seg2))).
  { intros s. destruct (decide (s = q)) as [->|Hs]; [by rewrite lookup_delete_eq, Hq|]. rewrite lookup_delete_ne by done.
    destruct (Hlo s Hs) as [->|[_ ->]]; [done|]. by destruct (infos seg !! s). }
  assert (Hlne : forall p, p ∈ l -> p <> q) by (intros p Hpl ->; apply Hql; by right).
  split_and!; [done..|].
  assert (has_slot vi seg2) as Hslot.
  { destruct (node_has_slot vi seg r) as (ps & Hps & Hlt); [by rewrite (seg_root _ _ _ _ _ _ _ _ Hinv), Hc|].
    exists ps. by rewrite Hroot2. }
  eapply seg_inv_ext; [intros vj row _; by rewrite (set_history_same hist vi vj)|].
  assert (Hconf : confined vi seg (set_root_info vi (Some q) seg2)).
  { split.
    - intros s i Hs Hne. change (infos seg2 !! s = Some i). destruct (Hlo s) as [->|[Hh E]]; [congruence|done|].
      destruct l as [|n l]; [done|]. injection Hh as ->.
      destruct (seg_inv_vector _ _ _ _ _ _ _ _ _ _ _ s Hinv Hc) as (i' & Hi' & Hvi'); [right; by left|]. congruence.
    - intros vj Hne. rewrite get_set_root_info, Hgr by done. by destruct (Nat.eqb_spec vj vi). }
  assert (Hcinfos : Forall2 same_payload (chain_infos (infos seg) l) (chain_infos (infos seg2) l)).
  { rewrite <- (chain_infos_frame (infos seg2) (delete q (infos seg2))); [by apply same_payloads_chain|].
    intros p Hpl. rewrite lookup_delete_ne; [done|]. by apply not_eq_sym, Hlne. }
  apply (seg_inv_update base _ _ _ _ _ owned _ seg); [done..| | | |].
  - rewrite get_set_root_info by done. by rewrite Nat.eqb_refl.
  - exists R1. split; [done|]. split.
    + pose proof (linked_move (infos seg) r l q R1 Hl Hql) as Hmove. rewrite Hp, Hn in Hmove.
      change (linked (infos seg2) q l). rewrite Hinfos. by apply Hmove.
    + change (infos (set_root_info vi (Some q) seg2)) with (infos seg2).
      destruct (chain_inv_payload _ _ _ _ _ R R _ _ _ eq_refl Hcinfos Hci) as [[HwR HvR HviR] Hnodes ? ? ? Hnew Hkept].
      split; try done.
      * split; [|congruence..]. destruct HwR. split; unfold N in *; rewrite ?Ht, ?Hvals; try done. lia.
      * intros i Hi. destruct (Hnodes i Hi). split; try done. by rewrite Ht.
      * intros row Hr. unfold info_map, entries. rewrite Ht, Hvals. by apply Hnew.
      * intros row Hr. unfold info_map, entries. rewrite Ht, Hvals. by apply Hkept.
  - intros s. change (is_Some (infos seg2 !! s) -> (s < next_entry seg2)%positive). rewrite Hnext2. intros [i Hs].
    destruct (decide (s = q)) as [->|Hsq]; [lia|].
    assert (is_Some (infos seg !! s)) as Hs'; [|apply (seg_fresh _ _ _ _ _ _ _ _ Hinv) in Hs'; fold q in Hs'; lia].
    destruct (Hlo s Hsq) as [E|[_ E]]; rewrite E in Hs; [eauto|]. destruct (infos seg !! s); [eauto|done].
  - intros a ps Hps. destruct (seg_owned _ _ _ _ _ _ _ _ Hinv a ps Hps) as [Hnd Hiff]. split; [done|]. intros s. rewrite Hiff.
    pose proof (linked_entry_change seg (set_root_info vi (Some q) seg2) hist chains owned vi q [] a s Hinv Hconf) as Hle.
    rewrite Hc in Hle. cbn [fmap option_fmap option_map snd default from_option app] in Hle.
    rewrite Hle; [split; [by right|]; intros [[?%elem_of_nil _]|]; done|].
    intros p Hpl. change (p ∈ l) in Hpl. specialize (Hpay p). rewrite lookup_delete_ne in Hpay by by apply not_eq_sym, Hlne.
    change (infos (set_root_info vi (Some q) seg2)) with (infos seg2).
    destruct (infos seg2 !! p), (infos seg !! p); try done. cbn in *. by injection Hpay as ->.
Qed.
End Write.
