(* ===== verification/UpdateOutcome.v ===== *)
(** * The outcome of an update

    [update_spec]: an update either writes the requested rows on top of their histories, or some
    requested row has a version the transaction does not see, and nothing changes. *)

From S2P Require Import Prelude Snapshot ValidityMask UpdateInfo UpdateSegment.
From S2P Require Import UpdateInfoFacts UpdateLaws UpdateVersions UpdateChains UpdateInvariant UpdateSegmentFacts UpdateSegmentSpec UpdateSegmentSteps UpdateWrite.
From Stdlib Require Import Sorted.

Local Open Scope nat_scope.

Section Outcome.
Context {T Vec : Type} `{SegmentLaws T Vec} `{StdSortSpec}.
Implicit Types (seg : UpdateSegment T) (um : gmap nat T).

Context (base : nat -> Vec).
Context {active : list SnapshotView} {low now : Z} (Hclock : clock_ok active low now).
Context (v : SnapshotView) (Hv : v ∈ active).

Abbreviation inv := (seg_inv base active low now).
Abbreviation tid := (transaction_id v).

Lemma reallocate_spec seg hist chains owned vi rgs r l R count :
  vector_bounds rgs vi -> inv hist chains owned seg -> chains vi = Some (r, l) -> infos seg !! r = Some R ->
  exists seg1 r1 R1, ReallocateRootInfoIfNeeded r R count vi seg = Ok seg1 /\
    infos seg1 !! r1 = Some R1 /\ Nat.min (N R1 + count) STANDARD_VECTOR_SIZE <= max R1 /\
    undo_entries seg1 = undo_entries seg /\
    (forall p, p ∈ l -> payload <$> infos seg1 !! p = payload <$> infos seg !! p) /\
    inv hist (set_chain chains vi (r1, l)) owned seg1.
Proof.
  intros Hb Hinv Hc HR. destruct (seg_chain _ _ _ _ _ _ _ _ Hinv vi _ _ Hc) as (R0 & HR0 & Hl & Hci).
  assert (R0 = R) as -> by congruence. destruct (chain_root _ _ _ _ _ _ _ _ Hci) as [HwfR Hroot HvR].
  unfold ReallocateRootInfoIfNeeded.
  destruct (Nat.leb_spec (Nat.min (N R + count) STANDARD_VECTOR_SIZE) (max R)) as [Hle|Hgt].
  { exists seg, r, R. split_and!; [done..|]. by apply seg_inv_same_chain. }
  destruct (compact_capacity_ok Hb (Nat.min (N R + count) STANDARD_VECTOR_SIZE)) as (cap & -> & Hcap); [lia|].
  cbn [mbind result_bind]. set (R1 := mkInfo _ _ _ _ cap (tuples R) (values R) _ _).
  pose proof (seg_inv_move_root base seg hist chains owned vi r l R R1 Hinv Hc HR eq_refl eq_refl) as Hmove.
  destruct (Allocate R1 seg) as [q seg1] eqn:Ea. injection Ea as <- <-.
  destruct Hmove as (Hq & Hpay & Hlq & Hinv'); [cbn; lia|done..|].
  eexists _, _, R1. split; [done|]. split; [exact Hq|]. split; [exact Hcap|].
  split; [by destruct (next R)|]. split; [|exact Hinv'].
  intros p Hp. specialize (Hpay p). rewrite lookup_delete_ne in Hpay by by apply not_eq_sym, Hlq. exact Hpay.
Qed.

(** ** The arguments of an update *)

Context (column_index : nat) (update : UnifiedVectorFormat T) (ids : list Z) (rgs : Z) (vi : nat).
Context (Hb : vector_bounds rgs vi).

Abbreviation row := (row_at rgs vi ids).

(** What the update positions of a list write. *)
Definition written_map (l : list nat) : gmap nat T := kmap (map (fun i => (row i, update_value update i)) l).

Lemma written_map_dom l r : is_Some (written_map l !! r) <-> exists i, i ∈ l /\ row i = r.
Proof.
  unfold written_map. rewrite kmap_is_some, fst_map_pair, list_elem_of_fmap. split; intros (i & ? & ?); eauto.
Qed.

Lemma written_map_in l r x : written_map l !! r = Some x -> exists i, i ∈ l /\ row i = r /\ update_value update i = x.
Proof.
  intros E. apply elem_of_list_to_map_2 in E. apply list_elem_of_fmap in E as (i & [= -> ->] & Hi). eauto.
Qed.

Lemma old_values_written (fl : nat -> T) (R : UpdateInfo T) l :
  kmap (map (fun i => (row i, default (fl (row i)) (info_map R !! row i))) l) = old_values fl R (written_map l).
Proof. unfold old_values, written_map. apply (kmap_imap row (update_value update) (fun r => default (fl r) (info_map R !! r))). Qed.

(** [merge_update_function] in these terms. *)
Lemma merge_written R node sel count :
  wf_info R -> wf_info node -> vector_index R = vi ->
  StronglySorted (key_lt ids) (selected sel count) -> (forall i, i ∈ selected sel count -> in_vector rgs vi ids i) ->
  Nat.min (N R + count) STANDARD_VECTOR_SIZE <= max R -> STANDARD_VECTOR_SIZE <= max node ->
  exists l1 l2,
    let R' := set_data (map fst l1) (map snd l1) R in
    let node' := set_data (map fst l2) (map snd l2) node in
    merge_update_function R (base vi) node update ids count sel rgs = (R', node') /\
    wf_info R' /\ wf_info node' /\
    info_map R' = written_map (selected sel count) ∪ info_map R /\
    info_map node' = info_map node ∪ old_values (floor base vi) R (written_map (selected sel count)).
Proof.
  intros HwR Hwn HvR Hsort Hin HmR Hmn.
  assert (Hrow : forall i, i < count -> updated_row R ids sel rgs i = row (get_index sel i)).
  { intros i Hi. unfold updated_row, base_id. rewrite HvR. fold (vector_start rgs vi). rewrite (vector_start_u64 Hb).
    apply (offset_in_vector_row Hb). apply Hin, selected_in. eauto. }
  assert (Hmap : forall {A} (f : nat -> nat -> A), map (fun i => f (updated_row R ids sel rgs i) (get_index sel i)) (seq 0 count) =
            map (fun i => f (row i) i) (selected sel count)).
  { intros A f. rewrite map_selected. apply map_ext_in. intros i [_ Hi]%in_seq. by rewrite Hrow. }
  assert (map (updated_row R ids sel rgs) (seq 0 count) = map row (selected sel count)) as Hrows by exact (Hmap _ (fun r _ => r)).
  destruct (law_merge R (base vi) node update ids count sel rgs HwR Hwn) as (l1 & l2 & Hm & Hw1 & Hw2 & Hm1 & Hm2).
  - rewrite Hrows. by eapply rows_sorted.
  - rewrite Hrows. by apply rows_bounded.
  - done.
  - done.
  - exists l1, l2. cbv zeta. split_and!; [done..| |].
    + by rewrite Hm1, (Hmap _ (fun r i => (r, update_value update i))).
    + by rewrite Hm2, (Hmap _ (fun r _ => (r, default (base_value (base vi) r) (info_map R !! r)))), <- old_values_written.
Qed.

(** ** A vector that has a root info *)

(** The segment after a successful update: the histories have changed to [hist'], the infos of the
    transaction are the entries of its undo buffer, other transactions are not affected. *)
Definition updated (hist' : nat -> nat -> list (Z * T)) (owned : Z -> option (list positive)) seg seg' : Prop :=
  exists chains' owned', inv hist' chains' owned' seg' /\ owned' tid = Some (undo_of tid seg') /\
    forall a, a <> tid -> owned' a = owned a /\ undo_entries seg' !! a = undo_entries seg !! a.

(** The update of the transaction's own info. *)
Lemma update_own seg hist chains owned r l R p own sel count :
  inv hist chains owned seg -> owned tid = Some (undo_of tid seg) -> chains vi = Some (r, l) ->
  infos seg !! r = Some R -> Nat.min (N R + count) STANDARD_VECTOR_SIZE <= max R ->
  p ∈ l -> infos seg !! p = Some own -> version_number own = tid ->
  0 < count -> StronglySorted (key_lt ids) (selected sel count) -> (forall i, i ∈ selected sel count -> in_vector rgs vi ids i) ->
  no_conflict v (written_map (selected sel count)) (chain_infos (infos seg) l) ->
  exists R' own', merge_update_function R (base vi) own update ids count sel rgs = (R', own') /\
    updated (set_history hist vi (write_history tid (written_map (selected sel count)) (hist vi))) owned seg
      (store p own' (store r R' seg)).
Proof.
  intros Hinv Ho Hc HR HmR Hp Hi Hver Hcount Hsort Hin Hno.
  destruct (seg_chain _ _ _ _ _ _ _ _ Hinv vi _ _ Hc) as (R0 & HR0 & Hl & Hci). assert (R0 = R) as -> by congruence.
  destruct (chain_root _ _ _ _ _ _ _ _ Hci) as [HwR HvR HviR].
  apply list_elem_of_split in Hp as (l1 & l2 & ->).
  assert (node_ok vi R own) as [Hwo _ Hvio _ Hmo _].
  { apply (chain_nodes _ _ _ _ _ _ _ _ Hci). rewrite (chain_infos_split _ _ _ _ _ Hi). apply elem_of_app. right. by left. }
  destruct (merge_written R own sel count HwR Hwo HviR Hsort Hin HmR Hmo) as (k1 & k2 & Hm & Hw1 & Hw2 & Hm1 & Hm2).
  eexists _, _. split; [done|]. exists (set_chain chains vi (r, l1 ++ p :: l2)), owned. split_and!; [|done|done].
  apply (seg_inv_write_own base Hclock v Hv seg hist chains owned vi r l1 p l2 own
    (set_data (map fst k2) (map snd k2) own) R (set_data (map fst k1) (map snd k1) R) _ Hinv Hc HR Hi Hver Hno); try done.
  exists (row (get_index sel 0)). apply written_map_dom. exists (get_index sel 0). split; [apply selected_in; eauto|done].
Qed.

(** The update through a new info. *)
Lemma update_new seg hist chains owned r l R sel count :
  inv hist chains owned seg -> owned tid = Some (undo_of tid seg) -> chains vi = Some (r, l) ->
  infos seg !! r = Some R -> Nat.min (N R + count) STANDARD_VECTOR_SIZE <= max R ->
  (forall info, info ∈ chain_infos (infos seg) l -> version_number info <> tid) ->
  0 < count -> StronglySorted (key_lt ids) (selected sel count) -> (forall i, i ∈ selected sel count -> in_vector rgs vi ids i) ->
  no_conflict v (written_map (selected sel count)) (chain_infos (infos seg) l) ->
  exists seg',
    (let '(p, seg1) := CreateUpdateInfo tid rgs seg in
     node ← infos seg1 !! p;
     let node := set_column column_index (set_data [] [] (set_vector vi node)) in
     let node := set_prev (Some r) (set_next (next R) node) in
     seg2 ← match next R with
            | Some n => _ ← infos seg1 !! n; Some (modify n (set_prev (Some p)) seg1)
            | None => Some seg1
            end;
     let '(base_info, node) := merge_update_function (set_next (Some p) R) (base vi) node update ids count sel rgs in
     Some (Ok tt, store p node (store r base_info seg2))) = Some (Ok tt, seg') /\
    updated (set_history hist vi (write_history tid (written_map (selected sel count)) (hist vi))) owned seg seg'.
Proof.
  intros Hinv Ho Hc HR HmR Hnov Hcount Hsort Hin Hno.
  destruct (seg_chain _ _ _ _ _ _ _ _ Hinv vi _ _ Hc) as (R0 & HR0 & Hl & Hci). assert (R0 = R) as -> by congruence.
  destruct (chain_root _ _ _ _ _ _ _ _ Hci) as [HwR HvR HviR].
  destruct (linked_root _ _ _ Hl) as (R0 & HR0' & Hprev & Hnext). assert (R0 = R) as -> by congruence.
  unfold CreateUpdateInfo, Allocate. cbn [infos push_undo]. set (p := next_entry seg).
  rewrite lookup_insert_eq. cbn [mbind option_bind].
  set (init := Initialize tid rgs STANDARD_VECTOR_SIZE).
  set (node := set_prev (Some r) (set_next (next R) (set_column column_index (set_data [] [] (set_vector vi init))))).
  set (seg1 := push_undo tid p _).
  assert (exists seg2, match next R with
            | Some n => _ ← <[p := init]> (infos seg) !! n; Some (modify n (set_prev (Some p)) seg1)
            | None => Some seg1 end = Some seg2 /\
            infos seg2 = match head l with Some n => alter (set_prev (Some p)) n (<[p := init]> (infos seg)) | None => <[p := init]> (infos seg) end /\
            next_entry seg2 = Pos.succ p /\ undo_entries seg2 = undo_entries seg1 /\ root seg2 = root seg) as (seg2 & -> & Hi2 & Hn2 & Hu2 & Hr2).
  { rewrite Hnext. destruct l as [|n l]; cbn [head]; [by exists seg1|].
    assert (is_Some (<[p := init]> (infos seg) !! n)) as [? ->]; [|by eexists].
    destruct (decide (p = n)) as [->|]; [rewrite lookup_insert_eq; eauto|]. rewrite lookup_insert_ne by done.
    eapply linked_in; [done|]. right. by left. }
  cbn [mbind option_bind].
  destruct (merge_written (set_next (Some p) R) node sel count) as (k1 & k2 & Hm & Hw1 & Hw2 & Hm1 & Hm2); try done.
  { destruct HwR. by split. }
  { split; [constructor|done|constructor|cbn; lia]. }
  rewrite Hm. eexists. split; [done|].
  exists (set_chain chains vi (r, p :: l)), (add_owned tid p owned). split_and!.
  - apply (seg_inv_write_new base Hclock v Hv seg _ hist chains owned vi r l p init (set_data (map fst k2) (map snd k2) node) R
      (set_data (map fst k1) (map snd k1) (set_next (Some p) R)) _ Hinv Hc HR eq_refl Hnov Hno); try done.
    + exists (row (get_index sel 0)). apply written_map_dom. exists (get_index sel 0). split; [apply selected_in; eauto|done].
    + unfold store, update_infos. cbn [infos]. by rewrite Hi2.
    + intros vj. unfold GetUpdateNode, store, update_infos. cbn [root]. by rewrite Hr2.
    + cbn. unfold ptrs. cbn. by rewrite Hprev.
    + cbn. unfold ptrs. cbn. by rewrite Hnext.
    + rewrite Hm2. change (info_map node) with (∅ : gmap nat T). by rewrite (left_id_L ∅ (∪)).
  - unfold add_owned, undo_of. rewrite Z.eqb_refl, Ho. cbn [undo_entries store update_infos]. rewrite Hu2. cbn.
    by rewrite lookup_insert_eq.
  - intros a Ha. unfold add_owned. destruct (Z.eqb_spec a tid); [done|]. split; [done|].
    cbn [undo_entries store update_infos]. rewrite Hu2. cbn. by rewrite lookup_insert_ne.
Qed.

Lemma touches_row sel count t : (forall i, i ∈ selected sel count -> in_vector rgs vi ids i) ->
  touches ids sel count (vector_start rgs vi) (Z.of_nat t) <-> exists i, i ∈ selected sel count /\ row i = t.
Proof.
  intros Hin. unfold touches, relative_id. split.
  - intros (i & Hi & E). assert (get_index sel i ∈ selected sel count) as Hs by (apply selected_in; eauto).
    exists (get_index sel i). split; [done|]. rewrite row_id in E by by apply Hin. lia.
  - intros (k & Hk & <-). pose proof Hk as (i & Hi & ->)%selected_in. exists i. split; [done|]. by apply row_id, Hin.
Qed.

Lemma relative_id_sorted sel count : StronglySorted (key_lt ids) (selected sel count) ->
  forall i j, i < j < count ->
  (relative_id ids sel (vector_start rgs vi) i < relative_id ids sel (vector_start rgs vi) j)%Z.
Proof.
  intros Hs i j Hij. unfold relative_id.
  pose proof (strongly_sorted_lookup _ _ i j (get_index sel i) (get_index sel j) Hs) as Hlt.
  unfold key_lt in Hlt. rewrite !selected_lookup in Hlt. specialize (Hlt ltac:(split; [lia|done]) ltac:(split; [lia|done]) ltac:(lia)). lia.
Qed.

(** What no conflict means for an info, and for the histories. *)
Lemma no_touch_no_row (info : UpdateInfo T) sel count : (forall i, i ∈ selected sel count -> in_vector rgs vi ids i) -> wf_info info ->
  (forall t, t ∈ tuples info -> ~ touches ids sel count (vector_start rgs vi) (Z.of_nat t)) ->
  forall r, is_Some (written_map (selected sel count) !! r) -> info_map info !! r = None.
Proof.
  intros Hin Hwf Hno r Hr%written_map_dom. apply eq_None_not_Some. intros Hs%info_map_dom; [|done].
  apply (Hno r Hs). by apply touches_row.
Qed.

Lemma conflict_unseen R ls (h : nat -> list (Z * T)) info t : chain_inv active low now vi (floor base vi) R ls h -> info ∈ ls ->
  t ∈ tuples info -> Sees v (version_number info) = false -> ~ seen_by v (h t).
Proof.
  intros Hci Hi Ht Hs Hall. assert (wf_info info) as Hwf by by destruct (chain_nodes _ _ _ _ _ _ _ _ Hci info Hi).
  destruct (proj2 (info_map_dom info t Hwf) Ht) as [y Hy]. pose proof (info_map_row _ _ _ Hwf Hy) as Hr.
  destruct (row_rep_versions _ _ _ _ (version_number info) y (row_inv_rep _ _ _ _ _ _ (chain_rows _ _ _ _ _ _ _ _ Hci t Hr))) as [x Hx].
  - apply row_chain_in. eauto.
  - rewrite (Hall _ _ Hx) in Hs. done.
Qed.

Lemma update_existing_spec seg hist chains owned r l sel count :
  inv hist chains owned seg -> owned tid = Some (undo_of tid seg) -> chains vi = Some (r, l) ->
  0 < count -> StronglySorted (key_lt ids) (selected sel count) -> (forall i, i ∈ selected sel count -> in_vector rgs vi ids i) ->
  exists res seg', update_existing true v column_index update ids count sel (base vi) rgs vi (vector_start rgs vi) r seg = Some (res, seg') /\
  match res with
  | Ok _ => (forall i, i ∈ selected sel count -> seen_by v (hist vi (row i))) /\
      updated (set_history hist vi (write_history tid (written_map (selected sel count)) (hist vi))) owned seg seg'
  | Throw e => e = conflict_on_update /\ seg' = seg /\ exists i, i ∈ selected sel count /\ ~ seen_by v (hist vi (row i))
  end.
Proof.
  intros Hinv Ho Hc Hcount Hsort Hin.
  destruct (seg_chain _ _ _ _ _ _ _ _ Hinv vi _ _ Hc) as (R & HR & Hl & Hci).
  unfold update_existing. rewrite HR. cbn [mbind option_bind].
  destruct (linked_root _ _ _ Hl) as (R0 & HR0 & Hprev & Hnext). assert (R0 = R) as -> by congruence.
  pose proof (linked_length _ _ _ Hl) as Hlen.
  assert (exists q, dseg (infos seg) (Some r) (next R) l q None) as (q & Hd).
  { destruct Hl as [_ (q & _ & n & Hn & Hd)]. rewrite HR in Hn. injection Hn as _ <-. eauto. }
  pose proof (check_conflicts_walk ids sel count (vector_start rgs vi) Hcount (relative_id_sorted sel count Hsort)
    (size (infos seg)) (Some r) (next R) l q v seg None Hd Hlen) as Hwalk.
  destruct (CheckForConflicts _ _ _ _ _ _ _ _ _) as [[node_ref|e]|]; cbn [mbind option_bind].
  2: { destruct Hwalk as (-> & info & Hi & Hs & t & Ht & Htouch).
       { intros i Hi. destruct (chain_nodes _ _ _ _ _ _ _ _ Hci i Hi). done. }
       eexists _, seg. split; [done|]. split_and!; [done..|]. apply touches_row in Htouch as (i & Hi' & <-); [|done].
       exists i. split; [done|]. by eapply conflict_unseen. }
  2: { destruct Hwalk. intros i Hi. by destruct (chain_nodes _ _ _ _ _ _ _ _ Hci i Hi). }
  destruct Hwalk as [Hno Href].
  { intros i Hi. by destruct (chain_nodes _ _ _ _ _ _ _ _ Hci i Hi). }
  destruct (reallocate_spec seg hist chains owned vi rgs r l R count Hb Hinv Hc HR)
    as (seg1 & r1 & R1 & -> & HR1 & Hcap & Hu1 & Hpay & Hinv1).
  assert (set_chain chains vi (r1, l) vi = Some (r1, l)) as Hc1 by (unfold set_chain; by rewrite Nat.eqb_refl).
  rewrite (seg_root _ _ _ _ _ _ _ _ Hinv1), Hc1. cbn [fmap option_fmap option_map fst mbind option_bind]. rewrite HR1. cbn [mbind option_bind].
  destruct (seg_chain _ _ _ _ _ _ _ _ Hinv1 vi _ _ Hc1) as (R1' & HR1' & Hl1 & Hci1). assert (R1' = R1) as -> by congruence.
  assert (Hsame : forall info1, info1 ∈ chain_infos (infos seg1) l -> exists info, info ∈ chain_infos (infos seg) l /\ same_payload info info1).
  { intros info1 (p & Hp & Hi1)%chain_infos_in. specialize (Hpay p Hp). rewrite Hi1 in Hpay.
    destruct (infos seg !! p) as [info|] eqn:Hi; [|done]. exists info. split; [apply chain_infos_in; eauto|].
    cbn in Hpay. unfold same_payload. congruence. }
  assert (Hnoc : no_conflict v (written_map (selected sel count)) (chain_infos (infos seg1) l)).
  { intros info1 Hi1 Hs1. destruct (Hsame info1 Hi1) as (info & Hi & Hs). rewrite <- (info_map_payload _ _ Hs).
    pose proof (same_payload_fields _ _ Hs) as (Ever & _). rewrite <- Ever in Hs1.
    apply no_touch_no_row; [done|by destruct (chain_nodes _ _ _ _ _ _ _ _ Hci info Hi)|by apply Hno]. }
  assert (Hseen : forall i, i ∈ selected sel count -> seen_by v (hist vi (row i))).
  { intros i Hi. eapply (write_sees Hclock v Hv vi (floor base vi) R1 _ (hist vi) Hci1 _ Hnoc).
    - eapply row_bound. by apply Hin.
    - apply written_map_dom. eauto. }
  assert (Ho1 : owned tid = Some (undo_of tid seg1)) by (unfold undo_of; by rewrite Hu1).
  assert (Hup : forall h seg', updated h owned seg1 seg' -> updated h owned seg seg').
  { intros h seg' (c' & o' & ? & ? & Hoth). exists c', o'. split_and!; [done..|]. by rewrite <- Hu1. }
  destruct Href as [[-> Hnov]|(p & info & -> & Hp & Hi & Hver)].
  - destruct (update_new seg1 hist _ owned r1 l R1 sel count Hinv1 Ho1 Hc1 HR1 Hcap) as (seg' & Hup' & Hupd); try done.
    { intros info1 Hi1. destruct (Hsame info1 Hi1) as (info & Hi & Hs). pose proof (same_payload_fields _ _ Hs) as (<- & _). by apply Hnov. }
    exists (Ok tt), seg'. split; [exact Hup'|]. split; [done|]. by apply Hup.
  - pose proof (Hpay p Hp) as Hpp. rewrite Hi in Hpp. destruct (infos seg1 !! p) as [own|] eqn:Hown; [|done].
    destruct (update_own seg1 hist _ owned r1 l R1 p own sel count Hinv1 Ho1 Hc1 HR1 Hcap Hp Hown) as (R' & own' & Hm & Hupd); try done.
    { cbn in Hpp. injection Hpp. congruence. }
    cbn [mbind option_bind]. rewrite Hm. eexists (Ok tt), _. split; [done|]. split; [done|]. by apply Hup.
Qed.

(** ** The first update of a vector *)

Lemma wf_zip (info : UpdateInfo T) (keys : list nat) (vals : list T) : StronglySorted lt keys -> length vals = length keys ->
  Forall (fun t => t < STANDARD_VECTOR_SIZE) keys -> length keys <= max info -> wf_info (set_data keys vals info).
Proof. intros. by split. Qed.

Lemma zip_map {A B} (f : nat -> A) (g : nat -> B) l : zip (map f l) (map g l) = map (fun i => (f i, g i)) l.
Proof. induction l as [|i l IH]; cbn; by f_equal. Qed.

(** A vector nothing was written to, as a chain with an empty root. *)
Lemma untouched_chain_inv seg hist chains owned : inv hist chains owned seg -> chains vi = None ->
  chain_inv active low now vi (floor base vi) (set_vector vi (Initialize MAX_COMMIT_ID rgs 0)) [] (hist vi).
Proof.
  intros Hinv Hc. split.
  - split; [|done|done]. split; [constructor|done|constructor|done].
  - by intros i ?%elem_of_nil.
  - constructor.
  - intros w vs1 vs2 _ E. by destruct vs1.
  - intros r Hr. rewrite (seg_untouched _ _ _ _ _ _ _ _ Hinv vi Hc r Hr). apply row_inv_nil.
  - intros r Hr. by rewrite (seg_untouched _ _ _ _ _ _ _ _ Hinv vi Hc r Hr).
  - intros r Hr. right. by apply (seg_untouched _ _ _ _ _ _ _ _ Hinv vi Hc r Hr).
Qed.

Lemma update_first_spec seg hist chains owned sel count :
  inv hist chains owned seg -> owned tid = Some (undo_of tid seg) -> chains vi = None -> has_slot vi seg ->
  0 < count -> StronglySorted (key_lt ids) (selected sel count) -> (forall i, i ∈ selected sel count -> in_vector rgs vi ids i) ->
  exists seg', update_first true v column_index update ids count sel (base vi) rgs vi (vector_start rgs vi) seg = Some (Ok tt, seg') /\
    updated (set_history hist vi (write_history tid (written_map (selected sel count)) (hist vi))) owned seg seg'.
Proof.
  intros Hinv Ho Hc Hslot Hcount Hsort Hin. pose proof (rows_sorted (rgs := rgs) (vi := vi) ids sel count Hsort Hin) as Hrs.
  pose proof (rows_bounded (rgs := rgs) (vi := vi) ids sel count Hin) as Hrb.
  pose proof (sorted_length _ _ Hrs Hrb) as Hlen. rewrite length_map, length_selected in Hlen.
  destruct (compact_capacity_ok Hb count Hlen) as (cap & Hcap & Hcap').
  unfold update_first. rewrite Hcap. cbn [Allocate]. unfold InitializeUpdateInfo.
  assert (checked_tuples ids sel (vector_start rgs vi) 0 count = Ok (map row (selected sel count))) as ->.
  { rewrite (checked_tuples_rows Hb); [by rewrite map_selected|]. intros i Hi. apply Hin, selected_in. eauto. }
  cbn [mbind result_bind]. unfold CreateUpdateInfo. cbn [Allocate].
  set (h := next_entry seg). set (p := Pos.succ h).
  set (keys := map row (selected sel count)) in *.
  match goal with |- context [initialize_update_function ?n _ ?i update sel] => set (node := n); set (info := i) end.
  assert (Hoff : map row (selected sel count) = map (fun i => offset_in_vector (rd ids (get_index sel i)) (vector_start rgs vi)) (seq 0 count)).
  { rewrite map_selected. apply map_ext_in. intros i [_ Hi]%in_seq. symmetry. apply (offset_in_vector_row Hb), Hin, selected_in. eauto. }
  rewrite (law_initialize node (base vi) info update ids sel count (vector_start rgs vi)) by done.
  eexists. split; [done|].
  set (um := written_map (selected sel count)).
  set (node' := set_column column_index (set_prev (Some h) (set_next None
    (set_data (tuples node) (map (base_value (base vi)) (tuples node)) node)))).
  set (R' := set_prev None (set_next (Some p) (set_data (tuples info) (map (update_value update) (selected sel count)) info))).
  match goal with |- updated _ _ _ ?s => set (seg' := s) end.
  assert (Hh : infos seg !! h = None).
  { apply eq_None_not_Some. intros Hs%(seg_fresh _ _ _ _ _ _ _ _ Hinv). unfold h in Hs. lia. }
  assert (Hp : infos seg !! p = None).
  { apply eq_None_not_Some. intros Hs%(seg_fresh _ _ _ _ _ _ _ _ Hinv). unfold p, h in Hs. lia. }
  assert (Hph : p <> h) by (unfold p; lia).
  assert (Hlp : infos seg' !! p = Some node') by (cbn; by rewrite lookup_insert_eq).
  assert (Hlh : infos seg' !! h = Some R') by (cbn; by rewrite lookup_insert_ne, lookup_insert_eq).
  assert (Hlo : forall q, q <> p -> q <> h -> infos seg' !! q = infos seg !! q).
  { intros q Hqp Hqh. cbn. by rewrite !lookup_insert_ne. }
  assert (Hroots : forall vj, GetUpdateNode vj seg' = if vj =? vi then Some h else GetUpdateNode vj seg).
  { intros vj. unfold seg'. by rewrite get_set_root_info by exact Hslot. }
  assert (Hconf : confined vi seg seg').
  { split; [|intros vj Hne; rewrite Hroots; by destruct (Nat.eqb_spec vj vi)]. intros q i Hq _. rewrite Hlo; [done|congruence..]. }
  assert (HmapR : info_map R' = um ∪ ∅).
  { rewrite (right_id_L ∅ (∪)). unfold info_map, entries. cbn. unfold keys. by rewrite zip_map. }
  assert (HmapN : info_map node' = old_values (floor base vi) (set_vector vi (Initialize MAX_COMMIT_ID rgs 0)) um).
  { unfold um. rewrite <- old_values_written. unfold info_map, entries. cbn. unfold keys. rewrite map_map, zip_map.
    unfold kmap. cbn. done. }
  assert (HwR : wf_info R').
  { change (wf_info (set_data keys (map (update_value update) (selected sel count)) R')). apply wf_zip; try done.
    - unfold keys. by rewrite !length_map.
    - cbn. unfold keys. rewrite length_map, length_selected. lia. }
  assert (HwN : wf_info node').
  { change (wf_info (set_data keys (map (base_value (base vi)) keys) node')). apply wf_zip; try done.
    - by rewrite length_map.
    - cbn. unfold keys. rewrite length_map, length_selected. lia. }
  assert (Hum : exists t, is_Some (um !! t)).
  { exists (row (get_index sel 0)). apply written_map_dom. exists (get_index sel 0). split; [apply selected_in; eauto|done]. }
  pose proof (clock_tid Hclock v Hv) as Htid.
  exists (set_chain chains vi (h, [p])), (add_owned tid p owned). split_and!.
  - eapply (seg_inv_write base Hclock v Hv seg seg' hist chains owned (add_owned tid p owned) vi h [] [p]
      (set_vector vi (Initialize MAX_COMMIT_ID rgs 0)) R' um); try done.
    + by eapply untouched_chain_inv.
    + intros i ?%elem_of_nil. done.
    + rewrite Hroots. by rewrite Nat.eqb_refl.
    + split; [by apply NoDup_cons; split; [rewrite list_elem_of_singleton; apply not_eq_sym|apply NoDup_singleton]|].
      exists (Some p). cbn [dseg]. split; [done|]. exists (Some p). rewrite Hlh. split; [done|]. split; [done|]. exists None. by rewrite Hlp.
    + unfold chain_infos at 2. cbn [omap list_omap]. rewrite Hlp. apply written_new; [by intros i ?%elem_of_nil|done|done].
    + unfold chain_infos. cbn [omap list_omap]. rewrite Hlp. intros i ->%list_elem_of_singleton.
      apply (written_node base vi (floor base vi) (set_vector vi (Initialize MAX_COMMIT_ID rgs 0)) R' um (set_data [] [] node') node'); try done.
      * split; [constructor|done|constructor|done].
      * rewrite HmapN. change (info_map (set_data [] [] node')) with (∅ : gmap nat T). by rewrite (left_id_L ∅ (∪)).
      * intros t [? ?]. done.
      * change (tid <> MAX_COMMIT_ID). lia.
    + intros q Hq. change (is_Some (infos seg' !! q)) in Hq. change (q < Pos.succ p)%positive.
      destruct (decide (q = p)) as [->|]; [lia|]. destruct (decide (q = h)) as [->|]; [unfold p; lia|].
      rewrite Hlo in Hq by done. apply (seg_fresh _ _ _ _ _ _ _ _ Hinv) in Hq. unfold p, h. lia.
    + intros a ps Hps. assert (forall q, NoDup ps /\ (q ∈ ps <-> linked_entry (set_chain chains vi (h, [p])) seg' a q)) as Hall.
      { intros q. pose proof (add_owned_in base (active := active) (low := low) (now := now) seg seg' hist chains owned vi h [p] p tid q a ps Hinv Hconf) as Hadd.
        rewrite Hc in Hadd. apply Hadd; try done; [by intros s ?%elem_of_nil|]. by rewrite Hlp. }
      split; [apply (Hall p)|]. intros q. apply Hall.
  - unfold add_owned, undo_of. rewrite Z.eqb_refl, Ho. cbn. by rewrite lookup_insert_eq.
  - intros a Ha. unfold add_owned. destruct (Z.eqb_spec a tid); [done|]. split; [done|]. cbn. by rewrite lookup_insert_ne.
Qed.

(** ** Any update *)

(** The positions of the update that are not NULL. *)
Definition requested (count : nat) : list nat := List.filter (update_selects update) (seq 0 count).

(** What a successful update writes: every row it touches gets a value requested for it, unless the row
    had that value already and no version of it is in doubt. *)
Record writes (count : nat) (um : gmap nat T) (h : nat -> list (Z * T)) : Prop := {
  writes_requested r x : um !! r = Some x -> exists i, i ∈ requested count /\ row i = r /\ update_value update i = x;
  writes_seen i : i ∈ requested count -> seen_by v (h (row i));
  writes_all i : i ∈ requested count -> is_Some (um !! row i) \/ exists j, j ∈ requested count /\ row j = row i /\
    base_plain (base vi) (row i) /\ newest (floor base vi (row i)) (h (row i)) = update_value update j
}.

Lemma untouched_seen seg hist chains owned r : inv hist chains owned seg -> chains vi = None -> r < STANDARD_VECTOR_SIZE ->
  seen_by v (hist vi r).
Proof.
  intros Hinv Hc Hr a x Hin. by rewrite (seg_untouched _ _ _ _ _ _ _ _ Hinv vi Hc r Hr), elem_of_nil in Hin.
Qed.

Lemma updated_same seg seg' hist chains owned : inv hist chains owned seg -> owned tid = Some (undo_of tid seg) ->
  infos seg' = infos seg -> next_entry seg' = next_entry seg -> undo_entries seg' = undo_entries seg ->
  (forall vj, GetUpdateNode vj seg' = GetUpdateNode vj seg) -> updated hist owned seg seg'.
Proof.
  intros Hinv Ho Hi Hn Hu Hr. exists chains, owned. split_and!; [by eapply seg_inv_same| |by rewrite Hu].
  unfold undo_of. by rewrite Hu.
Qed.

Lemma updated_from seg0 seg seg' hist owned : undo_entries seg = undo_entries seg0 -> updated hist owned seg seg' ->
  updated hist owned seg0 seg'.
Proof. intros Hu (c & o & ? & ? & Hoth). exists c, o. split_and!; [done..|]. by rewrite <- Hu. Qed.

Lemma updated_ext seg seg' hist hist' owned : (forall vj r, r < STANDARD_VECTOR_SIZE -> hist vj r = hist' vj r) ->
  updated hist owned seg seg' -> updated hist' owned seg seg'.
Proof. intros E (c & o & ? & ? & ?). exists c, o. split_and!; [by eapply seg_inv_ext|done..]. Qed.

Lemma write_nothing (hist : nat -> nat -> list (Z * T)) vj r : set_history hist vi (write_history tid ∅ (hist vi)) vj r = hist vj r.
Proof.
  unfold set_history, write_history. destruct (Nat.eqb_spec vj vi) as [->|]; [|done]. by rewrite lookup_empty.
Qed.

Lemma filter_sorted (keep : nat -> bool) l : StronglySorted (key_lt ids) l -> StronglySorted (key_lt ids) (List.filter keep l).
Proof.
  induction 1 as [|i l Hs IH Hf]; cbn; [constructor|]. destruct (keep i); [|done]. constructor; [done|].
  rewrite !Forall_forall in *. intros j [Hj _]%list_elem_of_In%List.filter_In. by apply Hf, list_elem_of_In.
Qed.

Lemma update_spec seg hist chains owned count :
  inv hist chains owned seg -> owned tid = Some (undo_of tid seg) ->
  (forall i, i ∈ requested count -> in_vector rgs vi ids i) ->
  exists res seg', Update true v column_index update ids count (base vi) rgs seg = Some (res, seg') /\
  match res with
  | Ok _ => exists um, writes count um (hist vi) /\
      updated (set_history hist vi (write_history tid um (hist vi))) owned seg seg'
  | Throw e => e = conflict_on_update /\ (exists i, i ∈ requested count /\ ~ seen_by v (hist vi (row i))) /\
      updated hist owned seg seg'
  end.
Proof.
  intros Hinv Ho Hreq. unfold Update.
  pose proof (law_statistics (stats seg) update count) as Hstat.
  destruct (statistics_update_function (stats seg) update count) as [[new_stats n0] sel0].
  fold (requested count) in Hstat. set (seg0 := set_stats new_stats seg).
  destruct (Nat.eqb_spec n0 0) as [->|Hn0].
  { exists (Ok tt), seg0. split; [done|]. exists ∅. split.
    - split; [by intros r x|..]; rewrite <- Hstat; by intros i ?%elem_of_nil.
    - apply (updated_ext _ _ hist); [intros; symmetry; apply write_nothing|]. by apply (updated_same _ _ _ chains). }
  pose proof (sort_selection_spec ids sel0 n0 ltac:(lia)) as Hsort.
  destruct (SortSelectionVector sel0 n0 ids) as [n1 sel1]. rewrite Hstat in Hsort.
  destruct Hsort as (Hn1 & Hsorted & Hsub & Hcov).
  assert (Hin1 : forall i, i ∈ selected sel1 n1 -> in_vector rgs vi ids i) by (intros i Hi; apply Hreq; by apply Hsub).
  assert (get_index sel1 0 ∈ selected sel1 n1) as H0in by (apply selected_in; eauto).
  rewrite (vector_index_of Hb ids) by by apply Hin1. fold (vector_start rgs vi). rewrite (vector_start_u64 Hb).
  change (GetUpdateNode vi seg0) with (GetUpdateNode vi seg). rewrite (seg_root _ _ _ _ _ _ _ _ Hinv).
  destruct (initialize_root_spec base vi seg0) as [Hslot Hroots].
  set (seg1 := InitializeRoot vi seg0) in *.
  assert (Hs1 : infos seg1 = infos seg /\ next_entry seg1 = next_entry seg /\ undo_entries seg1 = undo_entries seg).
  { unfold seg1, InitializeRoot. by destruct (_ <? _). }
  destruct Hs1 as (Hi1 & Hne1 & Hu1).
  assert (Hr1 : forall vj, GetUpdateNode vj seg1 = GetUpdateNode vj seg) by exact Hroots.
  assert (inv hist chains owned seg1) as Hinv1 by by eapply seg_inv_same.
  assert (owned tid = Some (undo_of tid seg1)) as Ho1 by (unfold undo_of; by rewrite Hu1).
  destruct (chains vi) as [[r l]|] eqn:Hc.
  - rewrite bool_decide_true by (cbn; eauto). destruct (Nat.eqb_spec n1 0); [lia|].
    rewrite Hr1, (seg_root _ _ _ _ _ _ _ _ Hinv), Hc. cbn [fmap option_fmap option_map fst].
    destruct (update_existing_spec seg1 hist chains owned r l sel1 n1 Hinv1 Ho1 Hc Hn1 Hsorted Hin1) as (res & seg' & -> & Hres).
    exists res, seg'. split; [done|]. destruct res as [[]|e].
    + destruct Hres as [Hseen Hup]. exists (written_map (selected sel1 n1)). split; [|by apply (updated_from seg seg1)].
      split.
      * intros s x (i & Hi & ? & ?)%written_map_in. exists i. split; [by apply Hsub|done].
      * intros i Hi. destruct (Hcov i Hi) as (k & Hk & Ek). unfold row_at. rewrite <- Ek. by apply Hseen.
      * intros i Hi. destruct (Hcov i Hi) as (k & Hk & Ek). left. apply written_map_dom. exists k. split; [done|].
        unfold row_at. by rewrite Ek.
    + destruct Hres as (-> & -> & i & Hi & Hns). split; [done|]. split; [exists i; split; [by apply Hsub|done]|].
      by apply (updated_same seg seg1 hist chains).
  - rewrite bool_decide_false by (intros [? ?]; done).
    pose proof (law_effective update ids n1 sel1 (base vi) (vector_start rgs vi)) as Heff.
    destruct (get_effective_updates _ _ _ _ _ _) as [n2 sel2]. destruct Heff as (keep & Hkeep & Hdrop).
    assert (Hnew : forall i, newest (floor base vi (row i)) (hist vi (row i)) = floor base vi (row i) \/ STANDARD_VECTOR_SIZE <= row i).
    { intros i. destruct (Nat.lt_ge_cases (row i) STANDARD_VECTOR_SIZE) as [Hlt|]; [left|by right].
      by rewrite (seg_untouched _ _ _ _ _ _ _ _ Hinv vi Hc). }
    assert (Hw : writes count (written_map (selected sel2 n2)) (hist vi)).
    { split.
      - intros s x (i & Hi & ? & ?)%written_map_in. exists i. split; [|done]. apply Hsub. rewrite Hkeep in Hi.
        apply list_elem_of_In, List.filter_In in Hi as [Hi _]. by apply list_elem_of_In.
      - intros i Hi. eapply untouched_seen; [done..|]. eapply row_bound. by apply Hreq.
      - intros i Hi. destruct (Hcov i Hi) as (k & Hk & Ek).
        assert (row k = row i) as Erow by (unfold row_at; by rewrite Ek).
        destruct (keep k) eqn:Ekeep.
        + left. apply written_map_dom. exists k. split; [|done]. rewrite Hkeep. apply list_elem_of_In, List.filter_In.
          split; [by apply list_elem_of_In|done].
        + right. exists k. split_and!; [by apply Hsub|done|..]; destruct (Hdrop k Ekeep) as [Hplain Hval];
            rewrite (offset_in_vector_row Hb), Erow in * by by apply Hin1.
          * done.
          * destruct (Hnew i) as [->|Hge]; [done|]. pose proof (row_bound _ _ (Hreq i Hi)). lia. }
    destruct (Nat.eqb_spec n2 0) as [->|Hn2].
    + exists (Ok tt), seg0. split; [done|]. exists (written_map (selected sel2 0)). split; [done|].
      apply (updated_ext _ _ hist); [intros; symmetry; apply write_nothing|]. by apply (updated_same _ _ _ chains).
    + rewrite Hr1, (seg_root _ _ _ _ _ _ _ _ Hinv), Hc. cbn [fmap option_fmap option_map].
      destruct (update_first_spec seg1 hist chains owned sel2 n2 Hinv1 Ho1 Hc Hslot ltac:(lia)) as (seg' & -> & Hup).
      * rewrite Hkeep. by apply filter_sorted.
      * intros i Hi. apply Hin1. rewrite Hkeep in Hi. apply list_elem_of_In, List.filter_In in Hi as [Hi _]. by apply list_elem_of_In.
      * exists (Ok tt), seg'. split; [done|]. exists (written_map (selected sel2 n2)). split; [done|]. by apply (updated_from seg seg1).
Qed.
End Outcome.
