(* ===== verification/UpdateFetch.v ===== *)
(** * Point lookups and scans of committed values

    [FetchRows] reads what [FetchUpdates] would, row by row; [FetchCommittedRange] reads the newest
    values. *)

From S2P Require Import Prelude Snapshot ValidityMask UpdateInfo UpdateSegment.
From S2P Require Import UpdateInfoFacts UpdateLaws UpdateVersions UpdateChains UpdateInvariant UpdateSegmentFacts UpdateSegmentSpec.
From Stdlib Require Import Sorted.

Local Open Scope nat_scope.

(** ** The runs of rows of one vector *)

Section Runs.
Context {VS : VectorSize}.
Context (offsets : list nat) (sel : SelectionVector) (fetch_count column_count : nat).

Definition offset_of (k : nat) : nat := at_nat offsets (get_index sel k).

Lemma vector_run_spec n vi idx c : idx + c + n = fetch_count ->
  match vector_run n offsets sel column_count vi idx c with
  | Ok c' => c <= c' /\ idx + c' <= fetch_count /\
      forall k, idx + c <= k < idx + c' -> offset_of k <= column_count /\ offset_of k / STANDARD_VECTOR_SIZE = vi
  | Throw e => e = out_of_range /\ exists k, idx + c <= k < fetch_count /\ column_count < offset_of k
  end.
Proof.
  revert c. induction n as [|n IH]; intros c Hc; cbn [vector_run].
  { split_and!; [lia|lia|]. intros k Hk. lia. }
  fold (offset_of (idx + c)). destruct (Nat.ltb_spec column_count (offset_of (idx + c))) as [Hlt|Hle].
  { split; [done|]. exists (idx + c). split; [lia|done]. }
  destruct (Nat.eqb_spec (offset_of (idx + c) / STANDARD_VECTOR_SIZE) vi) as [E|E]; cbn [negb].
  - specialize (IH (S c) ltac:(lia)). destruct (vector_run _ _ _ _ _ _ _) as [c'|e].
    + destruct IH as (H1 & H2 & H3). split_and!; [lia|done|]. intros k Hk.
      destruct (Nat.eq_dec k (idx + c)) as [->|]; [done|]. apply H3. lia.
    + destruct IH as (-> & k & Hk & Hgt). split; [done|]. exists k. split; [lia|done].
  - split_and!; [lia|lia|]. intros k Hk. lia.
Qed.

Lemma same_vector_row k vi : offset_of k / STANDARD_VECTOR_SIZE = vi ->
  offset_of k - vi * STANDARD_VECTOR_SIZE = offset_of k mod STANDARD_VECTOR_SIZE.
Proof. intros <-. pose proof vector_size_pos. rewrite (Nat.Div0.mod_eq (offset_of k)). lia. Qed.
End Runs.

Section Fetch.
Context {T Vec : Type} `{SegmentLaws T Vec}.
Implicit Types (seg : UpdateSegment T).
Context (base : nat -> Vec).
Context {active : list SnapshotView} {low now : Z} (Hclock : clock_ok active low now).

Abbreviation inv := (seg_inv base active low now).

(** ** The walk of a reader *)

Lemma walk_result {A} (cb : UpdateInfo T -> A -> A) (ok : A -> Prop) v acc vi r seg hist chains owned :
  inv hist chains owned seg -> GetUpdateNode vi seg = Some r ->
  (forall info acc, wf_info info -> ok acc -> ok (cb info acc)) -> ok acc ->
  exists R acc', infos seg !! r = Some R /\ UpdatesForTransaction seg R v cb acc = Some acc' /\ ok acc' /\
    (forall P : A -> Prop, (forall info acc, wf_info info -> ok acc -> P acc -> P (cb info acc)) -> P acc -> P acc') /\
    (forall (get : A -> T) row, v ∈ active -> row < STANDARD_VECTOR_SIZE ->
       (forall info acc, wf_info info -> ok acc -> get (cb info acc) = default (get acc) (info_map info !! row)) ->
       get acc' = fetched base v hist seg vi row (get acc)).
Proof.
  intros Hinv Hr Hok Hacc. unfold fetched, root_row. rewrite Hr. cbn [mbind option_bind]. rewrite (seg_root _ _ _ _ _ _ _ _ Hinv) in Hr.
  destruct (chains vi) as [[r' l]|] eqn:Hc; [|done]. injection Hr as ->.
  destruct (seg_chain _ _ _ _ _ _ _ _ Hinv vi r l Hc) as (R & HR & Hl & Hci).
  exists R. eexists. split; [done|]. split; [by apply updates_for_transaction_walk with (r := r) (l := l)|].
  set (ls := R :: chain_infos (infos seg) l).
  assert (Hwf : forall info, info ∈ ls -> wf_info info).
  { intros i [->|Hin]%elem_of_cons; [apply Hci|by apply (chain_nodes _ _ _ _ _ _ _ _ Hci)]. }
  assert (Hgen : forall P : A -> Prop, (forall info acc, wf_info info -> P acc -> P (cb info acc)) -> P acc -> P (overlay v cb acc ls)).
  { intros P HP. clear -Hwf HP. revert acc. induction ls as [|i ls IH]; intros acc Hacc; [done|]. rewrite overlay_cons.
    apply IH; [intros j Hj; apply Hwf; by right|].
    assert (P (cb i acc)) by (apply HP; [apply Hwf; by left|done]).
    destruct (_ =? _)%Z; [done|]. by destruct (Sees _ _). }
  split_and!.
  - by apply (Hgen ok).
  - intros P HP HPa. apply (Hgen (fun a => ok a /\ P a)); [|done]. intros i a Hi [? ?]. split; auto.
  - intros get row Hv Hrow Hget. rewrite HR. cbn [mbind option_bind].
    apply (chain_inv_read Hclock vi (floor base vi) R _ (hist vi) Hci cb (fun a _ => get a) ok v acc row); try done.
    intros i a Hi Ha. split; auto.
Qed.

(** ** [FetchRows] *)

Section Rows.
Context (v : SnapshotView) (Hv : v ∈ active) (offsets : list nat) (sel : SelectionVector).
Context (fetch_count column_count result_offset n : nat).
Context (seg : UpdateSegment T) (hist : nat -> nat -> list (Z * T)) (chains : nat -> option (positive * list positive)).
Context (owned : Z -> option (list positive)) (Hinv : inv hist chains owned seg).

Abbreviation off := (offset_of offsets sel).

(** What the reader gets for row [k], of which [x] was found in the base table. *)
Definition row_value (k : nat) (x : T) : T :=
  fetched base v hist seg (off k / STANDARD_VECTOR_SIZE) (off k mod STANDARD_VECTOR_SIZE) x.

(** The rows [idx, idx + count) of one vector. *)
Lemma fetch_vector_rows vi idx count result : vec_fits result n -> result_offset + idx + count <= n ->
  (forall k, idx <= k < idx + count -> off k / STANDARD_VECTOR_SIZE = vi) ->
  exists result', match GetUpdateNode vi seg with
                  | None => Some result
                  | Some p => info ← infos seg !! p;
                      UpdatesForTransaction seg info v (fun current =>
                        fetch_info_rows current offsets sel idx count (vi * STANDARD_VECTOR_SIZE) result_offset) result
                  end = Some result' /\ vec_fits result' n /\
    (forall k, idx <= k < idx + count -> vec_get result' (result_offset + k) = row_value k (vec_get result (result_offset + k))) /\
    (forall j, j < n -> ~ (result_offset + idx <= j < result_offset + idx + count) -> vec_get result' j = vec_get result j).
Proof.
  intros Hfit Hn Hvi. pose proof vector_size_pos as Hpos. destruct (GetUpdateNode vi seg) as [r|] eqn:Hr.
  - set (cb := fun current => fetch_info_rows current offsets sel idx count (vi * STANDARD_VECTOR_SIZE) result_offset).
    assert (Hcb : forall info acc, wf_info info -> vec_fits acc n -> vec_fits (cb info acc) n /\ forall j, j < n ->
              vec_get (cb info acc) j = if decide (result_offset + idx <= j < result_offset + idx + count)
                then default (vec_get acc j) (info_map info !! (off (j - result_offset) - vi * STANDARD_VECTOR_SIZE))
                else vec_get acc j).
    { intros info acc Hwf Ha. by apply (law_rows info offsets sel idx count _ result_offset n acc Hwf Ha). }
    destruct (walk_result cb (fun a => vec_fits a n) v result vi r seg hist chains owned Hinv Hr) as (R & result' & -> & Hu & Hfit' & Hframe & Hread).
    { intros info acc Hwf Ha. by apply Hcb. }
    { done. }
    exists result'. split; [exact Hu|]. split; [done|]. split.
    + intros k Hk. pose proof (same_vector_row offsets sel k vi (Hvi k Hk)) as Hrow.
      pose proof (Nat.mod_upper_bound (off k) STANDARD_VECTOR_SIZE ltac:(lia)) as Hlt.
      unfold row_value. rewrite (Hvi k Hk).
      apply (Hread (fun a => vec_get a (result_offset + k)) (off k mod STANDARD_VECTOR_SIZE)); [done|done|].
      intros info acc Hwf Ha. destruct (Hcb info acc Hwf Ha) as [_ Hget]. rewrite Hget by lia.
      rewrite decide_True by lia. replace (result_offset + k - result_offset) with k by lia. by rewrite Hrow.
    + intros j Hj Hout. apply (Hframe (fun a => vec_get a j = vec_get result j)); [|done].
      intros info acc Hwf Ha E. destruct (Hcb info acc Hwf Ha) as [_ Hget]. by rewrite Hget, decide_False.
  - exists result. split_and!; try done. intros k Hk. unfold row_value, fetched, root_row. by rewrite (Hvi k Hk), Hr.
Qed.

Lemma fetch_rows_loop_spec fuel idx result : vec_fits result n -> result_offset + fetch_count <= n ->
  fetch_count - idx <= fuel ->
  exists res, fetch_rows_loop fuel v offsets sel fetch_count column_count seg result_offset idx result = Some res /\
  match res with
  | Ok result' => vec_fits result' n /\ (forall k, idx <= k < fetch_count -> off k <= column_count) /\
      (forall k, idx <= k < fetch_count -> vec_get result' (result_offset + k) = row_value k (vec_get result (result_offset + k))) /\
      (forall j, j < n -> ~ (result_offset + idx <= j < result_offset + fetch_count) -> vec_get result' j = vec_get result j)
  | Throw e => e = out_of_range /\ exists k, k < fetch_count /\ column_count < off k
  end.
Proof.
  revert idx result. induction fuel as [|fuel IH]; intros idx result Hfit Hn Hf; cbn [fetch_rows_loop].
  { exists (Ok result). split_and!; try done; intros; lia. }
  destruct (Nat.leb_spec fetch_count idx) as [Hdone|Hlt].
  { exists (Ok result). split_and!; try done; intros; lia. }
  fold (off idx). destruct (Nat.ltb_spec column_count (off idx)) as [Hgt|Hle].
  { eexists. split; [done|]. split; [done|]. by exists idx. }
  set (vi := off idx / STANDARD_VECTOR_SIZE).
  pose proof (vector_run_spec offsets sel fetch_count column_count (fetch_count - idx - 1) vi idx 1 ltac:(lia)) as Hrun.
  destruct (vector_run _ _ _ _ _ _ _) as [c|e].
  2: { destruct Hrun as (-> & k & Hk & Hgt). eexists. split; [done|]. split; [done|]. exists k. split; [lia|done]. }
  destruct Hrun as (Hc & Hc' & Hrun).
  assert (Hall : forall k, idx <= k < idx + c -> off k <= column_count /\ off k / STANDARD_VECTOR_SIZE = vi).
  { intros k Hk. destruct (Nat.eq_dec k idx) as [->|]; [done|]. apply Hrun. lia. }
  destruct (fetch_vector_rows vi idx c result Hfit ltac:(lia)) as (result1 & -> & Hfit1 & Hval1 & Hsame1).
  { intros k Hk. by apply Hall. }
  cbn [mbind option_bind].
  destruct (IH (idx + c) result1 Hfit1 Hn ltac:(lia)) as (res & -> & Hres). exists res. split; [done|].
  destruct res as [result'|e]; [|done]. destruct Hres as (Hfit' & Hrange & Hval & Hsame). split; [done|].
  assert (Hcase : forall k, idx <= k < fetch_count -> idx <= k < idx + c \/ idx + c <= k < fetch_count) by lia.
  split_and!.
  - intros k [Hk|Hk]%Hcase; [by apply Hall|by apply Hrange].
  - intros k [Hk|Hk]%Hcase.
    + rewrite Hsame by lia. by apply Hval1.
    + rewrite Hval by done. rewrite Hsame1 by lia. done.
  - intros j Hj Hout. rewrite Hsame, Hsame1 by lia. done.
Qed.

Lemma fetch_rows_spec result : vec_fits result n -> result_offset + fetch_count <= n ->
  exists res, FetchRows v offsets sel fetch_count column_count seg result result_offset = Some res /\
  match res with
  | Ok result' => vec_fits result' n /\
      (if HasUpdates seg then forall k, k < fetch_count -> off k <= column_count else result' = result) /\
      (forall k, k < fetch_count -> vec_get result' (result_offset + k) = row_value k (vec_get result (result_offset + k))) /\
      (forall j, j < n -> ~ (result_offset <= j < result_offset + fetch_count) -> vec_get result' j = vec_get result j)
  | Throw e => HasUpdates seg = true /\ e = out_of_range /\ exists k, k < fetch_count /\ column_count < off k
  end.
Proof.
  intros Hfit Hn. unfold FetchRows. destruct (Nat.eqb_spec fetch_count 0) as [Hz|Hz]; cbn [orb].
  { exists (Ok result). split_and!; try done; [|intros; lia]. destruct (HasUpdates seg); [intros; lia|done]. }
  destruct (HasUpdates seg) eqn:Hu; cbn [negb].
  - destruct (fetch_rows_loop_spec fetch_count 0 result Hfit Hn ltac:(lia)) as (res & -> & Hres). exists res. split; [done|].
    destruct res as [result'|e]; [|done]. destruct Hres as (? & Hrange & Hval & Hsame). split_and!; [done| | |].
    + intros k Hk. apply Hrange. lia.
    + intros k Hk. apply Hval. lia.
    + intros j Hj Hout. apply Hsame; [done|]. lia.
  - exists (Ok result). split_and!; try done. intros k Hk. unfold row_value, fetched, root_row, GetUpdateNode.
    unfold HasUpdates in Hu. apply bool_decide_eq_false in Hu. destruct (root seg) eqn:E; [|done]. exfalso. apply Hu. eauto.
Qed.
End Rows.

(** ** [FetchCommitted] and [FetchCommittedRange] *)

Lemma root_newest seg hist chains owned vi r R row : inv hist chains owned seg -> GetUpdateNode vi seg = Some r ->
  infos seg !! r = Some R -> row < STANDARD_VECTOR_SIZE ->
  wf_info R /\ default (floor base vi row) (info_map R !! row) = newest (floor base vi row) (hist vi row).
Proof.
  intros Hinv Hr HR Hrow. rewrite (seg_root _ _ _ _ _ _ _ _ Hinv) in Hr. destruct (chains vi) as [[r' l]|] eqn:Hc; [|done].
  injection Hr as ->. destruct (seg_chain _ _ _ _ _ _ _ _ Hinv vi r l Hc) as (R' & HR' & _ & Hci).
  assert (R' = R) as -> by congruence. split; [apply Hci|by apply (chain_newest _ _ _ _ _ _ _ _ Hci)].
Qed.

Lemma root_untouched seg hist chains owned vi row : inv hist chains owned seg -> GetUpdateNode vi seg = None ->
  row < STANDARD_VECTOR_SIZE -> newest (floor base vi row) (hist vi row) = floor base vi row.
Proof.
  intros Hinv Hr Hrow. rewrite (seg_root _ _ _ _ _ _ _ _ Hinv) in Hr. destruct (chains vi) as [?|] eqn:Hc; [done|].
  by rewrite (seg_untouched _ _ _ _ _ _ _ _ Hinv vi Hc row Hrow).
Qed.

Lemma root_stored seg hist chains owned vi r : inv hist chains owned seg -> GetUpdateNode vi seg = Some r ->
  exists R, infos seg !! r = Some R /\ wf_info R.
Proof.
  intros Hinv Hr. rewrite (seg_root _ _ _ _ _ _ _ _ Hinv) in Hr. destruct (chains vi) as [[r' l]|] eqn:Hc; [|done].
  injection Hr as ->. destruct (seg_chain _ _ _ _ _ _ _ _ Hinv vi r l Hc) as (R & HR & _ & Hci). exists R. split; [done|apply Hci].
Qed.

(** The newest value of the row with a number, and its value in the base table. *)
Definition newest_at (hist : nat -> nat -> list (Z * T)) (i : nat) : T :=
  newest (floor base (i / STANDARD_VECTOR_SIZE) (i mod STANDARD_VECTOR_SIZE))
    (hist (i / STANDARD_VECTOR_SIZE) (i mod STANDARD_VECTOR_SIZE)).
Definition floor_at (i : nat) : T := floor base (i / STANDARD_VECTOR_SIZE) (i mod STANDARD_VECTOR_SIZE).

Lemma row_in_vector i vi : vi * STANDARD_VECTOR_SIZE <= i < S vi * STANDARD_VECTOR_SIZE ->
  i / STANDARD_VECTOR_SIZE = vi /\ i mod STANDARD_VECTOR_SIZE = i - vi * STANDARD_VECTOR_SIZE.
Proof.
  intros Hi. pose proof vector_size_pos as Hpos.
  assert (i / STANDARD_VECTOR_SIZE = vi) as E.
  { symmetry. apply (Nat.div_unique i STANDARD_VECTOR_SIZE vi (i - vi * STANDARD_VECTOR_SIZE)); lia. }
  split; [done|]. rewrite (Nat.Div0.mod_eq i STANDARD_VECTOR_SIZE), E. lia.
Qed.

(** One vector of the range: the rows from [from] to [to] of it. *)
Lemma committed_vector seg hist chains owned vi from to offset n result : inv hist chains owned seg ->
  vec_fits result n -> from <= to <= STANDARD_VECTOR_SIZE -> offset + (to - from) <= n ->
  exists result', match GetUpdateNode vi seg with
                  | None => Some result
                  | Some p => info ← infos seg !! p; Some (fetch_info_range info from to offset result)
                  end = Some result' /\ vec_fits result' n /\
    (forall j, j < to - from -> vec_get result (offset + j) = floor base vi (from + j) ->
       vec_get result' (offset + j) = newest (floor base vi (from + j)) (hist vi (from + j))) /\
    (forall j, j < n -> ~ (offset <= j < offset + (to - from)) -> vec_get result' j = vec_get result j).
Proof.
  intros Hinv Hfit Hto Hn. destruct (GetUpdateNode vi seg) as [r|] eqn:Hr.
  - destruct (root_stored seg hist chains owned vi r Hinv Hr) as (R & HR & Hwf). rewrite HR. cbn [mbind option_bind].
    destruct (law_range R from to offset n result Hwf Hfit Hn) as [Hfit' Hget].
    eexists. split; [done|]. split; [done|]. split.
    + intros j Hj Hfl. destruct (root_newest seg hist chains owned vi r R (from + j) Hinv Hr HR ltac:(lia)) as [_ Hnew].
      rewrite Hget by lia. rewrite decide_True by lia. replace (offset + j - offset) with j by lia. by rewrite Hfl.
    + intros j Hj Hout. rewrite Hget by done. by rewrite decide_False.
  - exists result. split_and!; try done. intros j Hj ->. symmetry. eapply root_untouched; [done|done|lia].
Qed.

Lemma fetch_committed_range_spec seg hist chains owned start count n result : inv hist chains owned seg ->
  0 < count <= n -> vec_fits result n ->
  exists result', FetchCommittedRange start count seg result = Some result' /\ vec_fits result' n /\
    (forall j, j < count -> vec_get result j = floor_at (start + j) -> vec_get result' j = newest_at hist (start + j)) /\
    (forall j, count <= j < n -> vec_get result' j = vec_get result j).
Proof.
  intros Hinv Hcount Hfit. pose proof vector_size_pos as Hpos. unfold FetchCommittedRange.
  destruct (root seg) as [ps|] eqn:Hroot.
  2: { exists result. split_and!; try done. intros j Hj ->. unfold newest_at, floor_at. symmetry.
       eapply root_untouched; [done| |apply Nat.mod_upper_bound; lia]. unfold GetUpdateNode. by rewrite Hroot. }
  set (first := start / STANDARD_VECTOR_SIZE). set (last_ := (start + count - 1) / STANDARD_VECTOR_SIZE).
  pose proof (Nat.div_mod start STANDARD_VECTOR_SIZE ltac:(lia)) as Hd1.
  pose proof (Nat.mod_upper_bound start STANDARD_VECTOR_SIZE ltac:(lia)) as Hm1.
  pose proof (Nat.div_mod (start + count - 1) STANDARD_VECTOR_SIZE ltac:(lia)) as Hd2.
  pose proof (Nat.mod_upper_bound (start + count - 1) STANDARD_VECTOR_SIZE ltac:(lia)) as Hm2.
  fold first in Hd1. fold last_ in Hd2.
  assert (first <= last_) as Hfl by (apply Nat.Div0.div_le_mono; lia).
  set (Inv := fun k (acc : option Vec) => exists result', acc = Some result' /\ vec_fits result' n /\
    (forall j, j < count -> (start + j) < k * STANDARD_VECTOR_SIZE -> vec_get result j = floor_at (start + j) ->
       vec_get result' j = newest_at hist (start + j)) /\
    (forall j, j < n -> k * STANDARD_VECTOR_SIZE <= start + j \/ count <= j -> vec_get result' j = vec_get result j)).
  match goal with |- context [for_range first (S last_) ?b _] => set (body := b) end.
  assert (Inv (S last_) (for_range first (S last_) body (Some result))) as (result' & -> & Hfit' & Hval & Hsame).
  { apply for_range_ind; [lia| |].
    - exists result. split_and!; try done. intros j Hj Hlt. nia.
    - intros vi acc Hvi (result1 & -> & Hfit1 & Hval1 & Hsame1). unfold body. cbn [mbind option_bind].
      set (from := if vi =? first then start - first * STANDARD_VECTOR_SIZE else 0).
      set (to := if vi =? last_ then start + count - last_ * STANDARD_VECTOR_SIZE else STANDARD_VECTOR_SIZE).
      set (offset := vi * STANDARD_VECTOR_SIZE + from - start).
      assert (from <= to <= STANDARD_VECTOR_SIZE /\ start <= vi * STANDARD_VECTOR_SIZE + from /\
              vi * STANDARD_VECTOR_SIZE + to <= start + count /\
              (vi * STANDARD_VECTOR_SIZE + from = start \/ from = 0) /\
              (vi * STANDARD_VECTOR_SIZE + to = start + count \/ to = STANDARD_VECTOR_SIZE)) as (Hft & Hs & He & Hfrom & Hto).
      { unfold from, to. destruct (Nat.eqb_spec vi first), (Nat.eqb_spec vi last_); subst; nia. }
      destruct (committed_vector seg hist chains owned vi from to offset n result1 Hinv Hfit1 Hft ltac:(unfold offset; lia))
        as (result2 & E & Hfit2 & Hval2 & Hsame2).
      exists result2. split; [exact E|]. split; [done|]. split.
      + intros j Hj Hlt Hfloor. destruct (Nat.lt_ge_cases (start + j) (vi * STANDARD_VECTOR_SIZE)) as [Hb|Hb].
        * rewrite Hsame2 by (unfold offset; lia). by apply Hval1.
        * assert (offset <= j < offset + (to - from)) as Hin by (unfold offset; lia).
          destruct (row_in_vector (start + j) vi ltac:(lia)) as [Ev Er].
          unfold newest_at, floor_at in *. rewrite Ev, Er in *.
          specialize (Hval2 (j - offset) ltac:(lia)). replace (offset + (j - offset)) with j in Hval2 by lia.
          replace (from + (j - offset)) with (start + j - vi * STANDARD_VECTOR_SIZE) in Hval2 by (unfold offset; lia).
          apply Hval2. rewrite Hsame1 by lia. done.
      + intros j Hj Hout. rewrite Hsame2, Hsame1 by (unfold offset; lia). done. }
  exists result'. split_and!; [done..| |].
  - intros j Hj. apply Hval; [done|]. lia.
  - intros j Hj. apply Hsame; [lia|right; lia].
Qed.
End Fetch.
