(* ===== verification/UpdateStatistics.v ===== *)
(** * The statistics of an update segment cover every updated value

    [law_covers] is what the statistics functions promise; the segment keeps the statistics it computed
    for an update whatever the outcome of the update is. *)

From S2P Require Import Prelude Snapshot ValidityMask UpdateInfo UpdateSegment UpdateInfoFacts UpdateLaws.
From Stdlib Require Import Sorted.

Local Open Scope nat_scope.

Class StatisticsLaws (T Vec : Type) `{SegmentLaws T Vec} := {
  covers : SegmentStatistics T -> T -> Prop;
  statistics_ok : UnifiedVectorFormat T -> nat -> Prop;
  law_covers stats update count : statistics_ok update count ->
    let stats' := (statistics_update_function stats update count).1.1 in
    (forall x, covers stats x -> covers stats' x) /\
    forall i, i < count -> update_selects update i = true -> covers stats' (update_value update i)
}.

(** ** Data columns: minimum and maximum *)

(** [LessThan::Operation] orders the values. *)
Class ColumnOrder (T : Type) `{ColumnType T} : Prop := {
  type_less_irrefl x : type_less x x = false;
  type_less_trans x y z : type_less x y = false -> type_less y z = false -> type_less x z = false;
  type_less_asym x y : type_less x y = true -> type_less y x = false
}.

Section Numeric.
Context {VS : VectorSize} {T : Type} `{ColumnTypeLaws T} {Ho : ColumnOrder T}.
Implicit Types (s : SegmentStatistics T) (x y : T).

Definition numeric_covers s x : Prop :=
  has_no_null s = true /\ type_less x (stat_min s) = false /\ type_less (stat_max s) x = false.

Lemma update_numeric_covers s x y : numeric_covers s x -> numeric_covers (UpdateNumericStats y s) x.
Proof.
  intros (Hn & Hmin & Hmax). unfold numeric_covers, UpdateNumericStats. cbn. split_and!; [done| |].
  - destruct (type_less y (stat_min s)) eqn:E; [|done].
    eapply type_less_trans; [exact Hmin|]. by apply type_less_asym.
  - destruct (type_less (stat_max s) y) eqn:E; [|done].
    eapply type_less_trans; [|exact Hmax]. by apply type_less_asym.
Qed.

Lemma update_numeric_new s y : has_no_null s = true -> numeric_covers (UpdateNumericStats y s) y.
Proof.
  intros Hn. unfold numeric_covers, UpdateNumericStats. cbn. split_and!; [done| |].
  - destruct (type_less y (stat_min s)) eqn:E; [apply type_less_irrefl|done].
  - destruct (type_less (stat_max s) y) eqn:E; [apply type_less_irrefl|done].
Qed.

Lemma set_no_null_covers s x : numeric_covers s x -> numeric_covers (SetHasNoNullFast s) x.
Proof. intros (? & ? & ?). by split_and!. Qed.
Lemma set_null_covers s x : numeric_covers s x -> numeric_covers (SetHasNullFast s) x.
Proof. intros (? & ? & ?). by split_and!. Qed.

Lemma numeric_statistics_covers s (update : UnifiedVectorFormat T) count :
  let s' := (TemplatedUpdateNumericStatistics s update count).1.1 in
  (forall x, numeric_covers s x -> numeric_covers s' x) /\
  (forall i, i < count -> data_selects update i = true ->
     numeric_covers s' (at_ (format_data update) (get_index (format_sel update) i))) /\
  (forall i, i < count -> data_selects update i = false -> has_null s' = true).
Proof.
  cbv zeta. unfold TemplatedUpdateNumericStatistics, data_selects.
  destruct (CannotHaveNull (format_validity update)); cbn [orb fst].
  - set (body := fun i s => UpdateNumericStats (at_ (format_data update) (get_index (format_sel update) i)) s).
    pose (Inv k s' := has_no_null s' = true /\ (forall x, numeric_covers s x -> numeric_covers s' x) /\
      forall i, i < k -> numeric_covers s' (at_ (format_data update) (get_index (format_sel update) i))).
    assert (Inv count (for_range 0 count body (SetHasNoNullFast s))) as (_ & H1 & H2); [|split_and!; [done|by intros; apply H2|done]].
    apply for_range_ind; [lia| |].
    + split_and!; [done|by intros; apply set_no_null_covers|lia].
    + intros i s' Hi (Hn & Hk & Hnew). split_and!; [done|by intros; apply update_numeric_covers, Hk|].
      intros j Hj. destruct (Nat.eq_dec j i) as [->|]; [by apply update_numeric_new|]. apply update_numeric_covers, Hnew. lia.
  - match goal with |- context [for_range 0 count ?b (s, [])] => set (body := b) end.
    pose (Inv k (st : SegmentStatistics T * list nat) := let s' := st.1 in
      (forall x, numeric_covers s x -> numeric_covers s' x) /\
      (forall i, i < k -> RowIsValid (format_validity update) (get_index (format_sel update) i) = true ->
        numeric_covers s' (at_ (format_data update) (get_index (format_sel update) i))) /\
      (forall i, i < k -> RowIsValid (format_validity update) (get_index (format_sel update) i) = false -> has_null s' = true)).
    assert (Inv count (for_range 0 count body (s, []))) as HI; [|by destruct (for_range 0 count body (s, []))].
    apply for_range_ind; [lia| |].
    + split_and!; [done|lia|lia].
    + intros i [s' sel] Hi (Hk & Hnew & Hnull). cbn [fst] in *. unfold body.
      destruct (RowIsValid _ (get_index (format_sel update) i)) eqn:E; cbn [fst]; split_and!.
      * intros x Hx. by apply update_numeric_covers, set_no_null_covers, Hk.
      * intros j Hj Hv. destruct (Nat.eq_dec j i) as [->|]; [by apply update_numeric_new|].
        apply update_numeric_covers, set_no_null_covers, Hnew; [lia|done].
      * intros j Hj Hv. destruct (Nat.eq_dec j i) as [->|]; [congruence|]. by apply (Hnull j); [lia|].
      * intros x Hx. by apply set_null_covers, Hk.
      * intros j Hj Hv. destruct (Nat.eq_dec j i) as [->|]; [congruence|]. apply set_null_covers, Hnew; [lia|done].
      * done.
Qed.

#[export] Program Instance numeric_statistics : StatisticsLaws T (FlatVector T) := {|
  covers := numeric_covers;
  statistics_ok _ _ := True
|}.
Next Obligation.
  intros s update count _. destruct (numeric_statistics_covers s update count) as (H1 & H2 & _). by split.
Qed.
End Numeric.

(** ** The validity column: are there NULLs, are there values *)

Section Validity.
Context {VS : VectorSize}.
Implicit Types (s : SegmentStatistics bool).

Definition validity_covers s (valid : bool) : Prop := if valid then has_no_null s = true else has_null s = true.

(** The mask of the update is read at the positions themselves by one of the two tests. *)
Definition plain_mask (update : UnifiedVectorFormat bool) (count : nat) : Prop :=
  format_sel update = None /\ mask_ok (format_validity update) /\ count <= capacity (format_validity update).

Lemma validity_statistics_covers s (update : UnifiedVectorFormat bool) count : plain_mask update count ->
  let s' := (UpdateValidityStatistics s update count).1.1 in
  (forall x, validity_covers s x -> validity_covers s' x) /\
  forall i, i < count -> validity_covers s' (RowIsValid (format_validity update) (get_index (format_sel update) i)).
Proof.
  intros (Hsel & Hok & Hcap). cbv zeta. cbn [UpdateValidityStatistics fst]. rewrite Hsel. cbn [get_index].
  set (mask := format_validity update).
  set (s1 := if negb (CannotHaveNull mask) && negb (has_null s) then _ else s).
  assert (H1 : has_no_null s1 = has_no_null s /\ (has_null s = true -> has_null s1 = true) /\
    forall i, i < count -> RowIsValid mask i = false -> has_null s1 = true).
  { unfold s1. destruct (CannotHaveNull mask) eqn:En; cbn [negb andb].
    { split_and!; [done|done|]. intros i _ Hi. by rewrite row_is_valid_no_mask in Hi. }
    destruct (has_null s) eqn:Eh; cbn [negb]; [by rewrite Eh|].
    destruct (existsb _ _) eqn:Ex; cbn; split_and!; try done.
    intros i Hi Hv. apply not_true_iff_false in Ex. exfalso. apply Ex, existsb_exists. exists i. split; [by apply in_seq; lia|].
    by apply negb_true_iff. }
  destruct H1 as (Hn1 & Hh1 & Hnull1). clearbody s1.
  set (s2 := if negb (has_no_null s1) && negb (CheckAllInvalid mask count) then _ else s1).
  assert (H2 : has_null s2 = has_null s1 /\ (has_no_null s1 = true -> has_no_null s2 = true) /\
    forall i, i < count -> RowIsValid mask i = true -> has_no_null s2 = true).
  { unfold s2. destruct (has_no_null s1) eqn:En; cbn [negb andb]; [done|].
    destruct (CheckAllInvalid mask count) eqn:Ec; cbn [negb]; split_and!; try done.
    intros i Hi Hv. rewrite (proj1 (check_all_invalid_spec mask count Hok Hcap) Ec i Hi) in Hv. done. }
  destruct H2 as (Hh2 & Hn2 & Hvalid2). split.
  - intros [] Hx; cbn in *; [apply Hn2; congruence|rewrite Hh2; by apply Hh1].
  - intros i Hi. destruct (RowIsValid mask i) eqn:E; cbn; [by eapply Hvalid2|]. rewrite Hh2. by eapply Hnull1.
Qed.

#[export] Program Instance validity_statistics_laws : StatisticsLaws bool ValidityMask := {|
  covers := validity_covers;
  statistics_ok := plain_mask
|}.
Next Obligation.
  intros s update count Hok. destruct (validity_statistics_covers s update count Hok) as [H1 H2]. split; [done|].
  intros i Hi _. by apply H2.
Qed.
End Validity.

(** ** The segment keeps the statistics of its updates *)

Section Segment.
Context {T Vec : Type} `{SegmentFunctions T Vec} `{StdSort}.
Implicit Types seg : UpdateSegment T.

Lemma reallocate_stats p info n vi seg seg' : ReallocateRootInfoIfNeeded p info n vi seg = Ok seg' -> stats seg' = stats seg.
Proof.
  unfold ReallocateRootInfoIfNeeded. destruct (_ <=? _); [by intros [= <-]|].
  destruct (GetCompactCapacity _); [|done]. cbn. intros [= <-]. by destruct (next info).
Qed.

Lemma update_existing_stats tx v col update ids count sel bd rgs vi off r seg res seg' :
  update_existing tx v col update ids count sel bd rgs vi off r seg = Some (res, seg') -> stats seg' = stats seg.
Proof.
  unfold update_existing. destruct (infos seg !! r) as [R|]; [|done]. cbn [mbind option_bind].
  destruct (CheckForConflicts _ _ _ _ _ _ _ _ _) as [[node_ref|e]|]; [|by intros [= <- <-]|done]. cbn [mbind option_bind].
  destruct (ReallocateRootInfoIfNeeded _ _ _ _ _) as [seg1|e] eqn:Er; [|by intros [= <- <-]].
  apply reallocate_stats in Er. rewrite <- Er. clear Er.
  destruct (GetUpdateNode vi seg1) as [r1|]; [|done]. cbn [mbind option_bind].
  destruct (infos seg1 !! r1) as [R1|]; [|done]. cbn [mbind option_bind].
  destruct node_ref as [p|].
  - destruct (infos seg1 !! p); [|done]. cbn [mbind option_bind]. destruct (merge_update_function _ _ _ _ _ _ _ _).
    by intros [= <- <-].
  - destruct tx.
    + cbn [CreateUpdateInfo Allocate]. destruct (infos _ !! _); [|done]. cbn [mbind option_bind].
      destruct (next R1) as [n|].
      * destruct (infos _ !! n); [|done]. cbn [mbind option_bind]. destruct (merge_update_function _ _ _ _ _ _ _ _).
        by intros [= <- <-].
      * cbn [mbind option_bind]. destruct (merge_update_function _ _ _ _ _ _ _ _). by intros [= <- <-].
    + destruct (next R1); [by intros [= <- <-]|]. destruct (merge_update_function _ _ _ _ _ _ _ _). by intros [= <- <-].
Qed.

Lemma update_first_stats tx v col update ids count sel bd rgs vi off seg res seg' :
  update_first tx v col update ids count sel bd rgs vi off seg = Some (res, seg') -> stats seg' = stats seg.
Proof.
  unfold update_first. destruct (GetCompactCapacity count); [|by intros [= <- <-]]. cbn [Allocate].
  destruct (InitializeUpdateInfo _ _ _ _ _ _); [|by intros [= <- <-]].
  destruct tx; cbn [CreateUpdateInfo Allocate].
  - destruct (InitializeUpdateInfo _ _ _ _ _ _); [|by intros [= <- <-]].
    destruct (initialize_update_function _ _ _ _ _). by intros [= <- <-].
  - destruct (InitializeUpdateInfo _ _ _ _ _ _); [|by intros [= <- <-]].
    destruct (initialize_update_function _ _ _ _ _). by intros [= <- <-].
Qed.

Lemma update_stats tx v col update ids count bd rgs seg res seg' :
  Update tx v col update ids count bd rgs seg = Some (res, seg') ->
  stats seg' = (statistics_update_function (stats seg) update count).1.1.
Proof.
  unfold Update. destruct (statistics_update_function (stats seg) update count) as [[s n] sel]. cbn [fst].
  destruct (n =? 0); [by intros [= <- <-]|]. destruct (SortSelectionVector sel n ids) as [n1 sel1].
  destruct (if bool_decide _ then _ else _) as [n2 sel2]. destruct (n2 =? 0); [by intros [= <- <-]|].
  assert (Hroot : forall vi, stats (InitializeRoot vi (set_stats s seg)) = s).
  { intros vi. unfold InitializeRoot. by destruct (_ <? _). }
  destruct (GetUpdateNode _ _).
  - intros Hu%update_existing_stats. by rewrite Hu, Hroot.
  - intros Hu%update_first_stats. by rewrite Hu, Hroot.
Qed.

Lemma cleanup_internal_stats p seg seg' : CleanupUpdateInternal p seg = Some seg' -> stats seg' = stats seg.
Proof.
  unfold CleanupUpdateInternal. destruct (infos seg !! p) as [i|]; [|done]. cbn [mbind option_bind].
  destruct (prev i) as [q|]; [destruct (infos seg !! q); [|done]|]; cbn [mbind option_bind];
    (destruct (next i) as [q'|]; [destruct (infos _ !! q'); [|done]|]; cbn [mbind option_bind]; by intros [= <-]).
Qed.

Lemma rollback_stats p seg seg' : RollbackUpdate p seg = Some seg' -> stats seg' = stats seg.
Proof.
  unfold RollbackUpdate. destruct (infos seg !! p) as [i|]; [|done]. cbn [mbind option_bind].
  destruct (HasPrev i); cbn [negb]; [|by intros [= <-]].
  destruct (GetUpdateNode _ _) as [r|]; [|by intros [= <-]].
  destruct (infos seg !! r); [|done]. cbn [mbind option_bind]. intros Hc%cleanup_internal_stats. by rewrite Hc.
Qed.

Lemma fold_stats (step : positive -> UpdateSegment T -> option (UpdateSegment T)) ps seg seg' :
  (forall p seg seg', step p seg = Some seg' -> stats seg' = stats seg) ->
  foldl (fun r p => r ≫= step p) (Some seg) ps = Some seg' -> stats seg' = stats seg.
Proof.
  intros Hstep. revert seg. induction ps as [|p ps IH]; intros seg; cbn [foldl]; [by intros [= <-]|].
  cbn [mbind option_bind]. destruct (step p seg) as [seg1|] eqn:E.
  - intros Hf. rewrite (IH _ Hf). by eapply Hstep.
  - assert (foldl (fun r p => r ≫= step p) None ps = None) as -> by (clear; by induction ps). done.
Qed.

Lemma commit_stats cid ps seg : stats (foldl (fun seg p => CommitUpdate cid p seg) seg ps) = stats seg.
Proof. revert seg. induction ps as [|p ps IH]; intros seg; cbn [foldl]; [done|]. by rewrite IH. Qed.
End Segment.
