(* ===== verification/UpdateSystem.v ===== *)
(** * Transactions running against an update segment

    A system of transactions that begin, read, update, commit, roll back and are cleaned up, as a step
    relation over the segment; the store of versions it implements, as a step relation over the
    histories of the rows; and the simulation between them. *)

From S2P Require Import Prelude Snapshot ValidityMask UpdateInfo UpdateSegment.
From S2P Require Import UpdateInfoFacts UpdateLaws UpdateVersions UpdateChains UpdateInvariant UpdateSegmentFacts UpdateSegmentSpec UpdateSegmentSteps UpdateWrite UpdateOutcome.
From Stdlib Require Import Sorted.

Local Open Scope nat_scope.

(** ** The timeline the transaction manager keeps *)

(** The running transactions, the bound below which nobody misses a version, the next commit id and the
    next transaction id; the transactions that committed and wait for their cleanup. *)
Record Timeline := mkTimeline {
  running : list SnapshotView;
  lowest : Z;
  next_commit : Z;
  next_transaction : Z;
  uncleaned : list (Z * Z)
}.

Definition initial_timeline : Timeline := mkTimeline [] 0 0 TRANSACTION_ID_START [].

(** [StartTransaction]: a new id, a snapshot of everything committed so far. *)
Definition can_begin (v : SnapshotView) (t : Timeline) : Prop :=
  WfView v /\ (next_transaction t <= transaction_id v)%Z /\
  (next_commit t <= VisibilityBound.value (visibility_bound v) <= MAX_COMMIT_ID)%Z.
Definition begin_timeline (v : SnapshotView) (t : Timeline) : Timeline :=
  mkTimeline (v :: running t) (lowest t) (VisibilityBound.value (visibility_bound v)) (transaction_id v + 1) (uncleaned t).

Definition without (tid : Z) (l : list SnapshotView) : list SnapshotView :=
  List.filter (fun v => negb (transaction_id v =? tid)%Z) l.

Definition commit_timeline (tid cid : Z) (t : Timeline) : Timeline :=
  mkTimeline (without tid (running t)) (lowest t) (cid + 1) (next_transaction t) ((tid, cid) :: uncleaned t).
Definition rollback_timeline (tid : Z) (t : Timeline) : Timeline :=
  mkTimeline (without tid (running t)) (lowest t) (next_commit t) (next_transaction t) (uncleaned t).
Definition cleanup_timeline (tid : Z) (t : Timeline) : Timeline :=
  mkTimeline (running t) (lowest t) (next_commit t) (next_transaction t)
    (List.filter (fun e => negb (e.1 =? tid)%Z) (uncleaned t)).
(** The bound may rise as far as no running transaction misses a version. *)
Definition can_raise (low : Z) (t : Timeline) : Prop :=
  (lowest t <= low <= next_commit t)%Z /\
  forall v, v ∈ running t -> (low <= VisibilityBound.value (visibility_bound v))%Z.
Definition raise_timeline (low : Z) (t : Timeline) : Timeline :=
  mkTimeline (running t) low (next_commit t) (next_transaction t) (uncleaned t).

Record timeline_ok (t : Timeline) : Prop := {
  timeline_clock : clock_ok (running t) (lowest t) (next_commit t);
  timeline_ids v : v ∈ running t -> (transaction_id v < next_transaction t)%Z;
  timeline_uncleaned tid cid : (tid, cid) ∈ uncleaned t ->
    (tid < next_transaction t)%Z /\ (cid < next_commit t)%Z /\ tid ∉ transaction_id <$> running t;
  timeline_distinct : NoDup (uncleaned t).*1;
  timeline_commits : NoDup (uncleaned t).*2;
  timeline_next : (MAX_COMMIT_ID < next_transaction t)%Z
}.

Lemma without_in tid l v : v ∈ without tid l <-> v ∈ l /\ transaction_id v <> tid.
Proof. apply (others_in (active := l)). Qed.

Lemma without_ids tid l : NoDup (transaction_id <$> l) -> NoDup (transaction_id <$> without tid l).
Proof.
  induction l as [|v l IH]; intros Hnd; [constructor|]. cbn in Hnd. apply NoDup_cons in Hnd as [Hv Hnd].
  cbn. destruct (transaction_id v =? tid)%Z; [by apply IH|]. cbn. constructor; [|by apply IH].
  intros (w & E & [Hw _]%without_in)%list_elem_of_fmap. apply Hv. rewrite E. by apply list_elem_of_fmap_2.
Qed.

Lemma begin_timeline_ok v t : timeline_ok t -> can_begin v t -> timeline_ok (begin_timeline v t).
Proof.
  intros [[Hl Hn Hv Hids] Hi Hu Hd Hc Hx] (Hwf & Hnew & Hb). split; cbn; try done.
  - split; [lia|lia| |].
    + intros w [->|Hw]%elem_of_cons; [split; [done|lia]|]. destruct (Hv w Hw). split; [done|lia].
    + cbn. constructor; [|done]. intros (w & E & Hw)%list_elem_of_fmap. pose proof (Hi w Hw). lia.
  - intros w [->|Hw]%elem_of_cons; [lia|]. pose proof (Hi w Hw). lia.
  - intros tid cid Hin. destruct (Hu tid cid Hin) as (H1 & H2 & H3). split_and!; [lia|lia|].
    rewrite not_elem_of_cons. split; [lia|done].
  - pose proof (max_commit_lt_id v Hwf). lia.
Qed.

Lemma end_clock tid t now' : clock_ok (running t) (lowest t) (next_commit t) -> (next_commit t <= now' <= MAX_COMMIT_ID)%Z ->
  clock_ok (without tid (running t)) (lowest t) now'.
Proof.
  intros [Hl Hn Hv Hids] Hnow. split; [lia|lia| |by apply without_ids].
  intros w [Hw _]%without_in. destruct (Hv w Hw). split; [done|lia].
Qed.

Lemma commit_timeline_ok v cid t : timeline_ok t -> v ∈ running t -> (next_commit t <= cid < MAX_COMMIT_ID)%Z ->
  timeline_ok (commit_timeline (transaction_id v) cid t).
Proof.
  intros [Hck Hi Hu Hd Hc Hx] Hv Hcid. split; cbn; try done.
  - apply end_clock; [done|lia].
  - intros w [Hw _]%without_in. by apply Hi.
  - assert (forall tid, tid ∉ transaction_id <$> running t -> tid ∉ transaction_id <$> without (transaction_id v) (running t)) as Hsub.
    { intros tid Hn (w & -> & [Hw _]%without_in)%list_elem_of_fmap. apply Hn. by apply list_elem_of_fmap_2. }
    intros tid cid' [[= -> ->]|Hin]%elem_of_cons.
    + split_and!; [by apply Hi|lia|]. intros (w & E & [_ Hne]%without_in)%list_elem_of_fmap. congruence.
    + destruct (Hu tid cid' Hin) as (H1 & H2 & H3). split_and!; [done|lia|by apply Hsub].
  - constructor; [|done]. intros ([tid c] & E & Hin)%list_elem_of_fmap. cbn in E. subst tid.
    destruct (Hu _ _ Hin) as (_ & _ & Hn). apply Hn. by apply list_elem_of_fmap_2.
  - constructor; [|done]. intros ([tid c] & E & Hin)%list_elem_of_fmap. cbn in E. subst c.
    destruct (Hu _ _ Hin) as (_ & ? & _). lia.
Qed.

Lemma rollback_timeline_ok tid t : timeline_ok t -> timeline_ok (rollback_timeline tid t).
Proof.
  intros [Hck Hi Hu Hd Hc Hx]. split; cbn; try done.
  - apply end_clock; [done|]. destruct Hck. lia.
  - intros w [Hw _]%without_in. by apply Hi.
  - intros tid' cid Hin. destruct (Hu tid' cid Hin) as (H1 & H2 & H3). split_and!; [done..|].
    intros (w & -> & [Hw _]%without_in)%list_elem_of_fmap. apply H3. by apply list_elem_of_fmap_2.
Qed.

Lemma filter_fst_nodup {A} (p : Z * A -> bool) (l : list (Z * A)) : NoDup l.*1 -> NoDup (List.filter p l).*1.
Proof.
  induction l as [|e l IH]; intros Hnd; [constructor|]. cbn in Hnd. apply NoDup_cons in Hnd as [He Hnd].
  cbn. destruct (p e); [|by apply IH]. cbn. constructor; [|by apply IH].
  intros (e' & E & [Hin _]%list_elem_of_In%List.filter_In)%list_elem_of_fmap. apply He. rewrite E.
  apply list_elem_of_fmap_2. by apply list_elem_of_In.
Qed.

Lemma filter_snd_nodup {A} (p : A * Z -> bool) (l : list (A * Z)) : NoDup l.*2 -> NoDup (List.filter p l).*2.
Proof.
  induction l as [|e l IH]; intros Hnd; [constructor|]. cbn in Hnd. apply NoDup_cons in Hnd as [He Hnd].
  cbn. destruct (p e); [|by apply IH]. cbn. constructor; [|by apply IH].
  intros (e' & E & [Hin _]%list_elem_of_In%List.filter_In)%list_elem_of_fmap. apply He. rewrite E.
  apply list_elem_of_fmap_2. by apply list_elem_of_In.
Qed.

Lemma cleanup_timeline_ok tid t : timeline_ok t -> timeline_ok (cleanup_timeline tid t).
Proof.
  intros [Hck Hi Hu Hd Hc Hx]. split; cbn; try done.
  - intros tid' cid [Hin _]%list_elem_of_In%List.filter_In. apply Hu. by apply list_elem_of_In.
  - by apply filter_fst_nodup.
  - by apply filter_snd_nodup.
Qed.

Lemma raise_timeline_ok low t : timeline_ok t -> can_raise low t -> timeline_ok (raise_timeline low t).
Proof.
  intros [[Hl Hn Hv Hids] Hi Hu Hd Hc Hx] [Hlow Hr]. split; cbn; try done. split; [lia|lia| |done].
  intros v Hin. destruct (Hv v Hin). split; [done|]. specialize (Hr v Hin). lia.
Qed.

(** ** Labelled runs *)

Inductive run {S E : Type} (step : S -> E -> S -> Prop) : S -> list E -> S -> Prop :=
  | run_nil s : run step s [] s
  | run_snoc s s1 s2 tr e : run step s tr s1 -> step s1 e s2 -> run step s (tr ++ [e]) s2.

(** A relation every step keeps is kept by runs. *)
Lemma run_simulation {S A E : Type} (step : S -> E -> S -> Prop) (astep : A -> E -> A -> Prop) (rel : S -> A -> Prop) :
  (forall s a e s', rel s a -> step s e s' -> exists a', astep a e a' /\ rel s' a') ->
  forall s a tr s', rel s a -> run step s tr s' -> exists a', run astep a tr a' /\ rel s' a'.
Proof.
  intros Hsim s a tr s' Hrel Hrun. induction Hrun as [s|s s1 s2 tr e Hrun IH Hstep]; [exists a; split; [constructor|done]|].
  destruct (IH Hrel) as (a1 & Ha1 & Hrel1). destruct (Hsim _ _ _ _ Hrel1 Hstep) as (a2 & Ha2 & Hrel2).
  exists a2. split; [by eapply run_snoc|done].
Qed.

Lemma run_forall {S E : Type} (step : S -> E -> S -> Prop) (P : E -> Prop) s tr s' : run step s tr s' -> Forall P tr ->
  run (fun s e s' => P e /\ step s e s') s tr s'.
Proof.
  induction 1 as [s|s s1 s2 tr e _ IH Hstep]; intros Hf; [constructor|]. apply Forall_app in Hf as [Hf He].
  eapply run_snoc; [by apply IH|]. split; [by apply Forall_inv in He|done].
Qed.

(** ** The system, and the store it implements *)

Section System.
Context {T Vec : Type} `{SegmentLaws T Vec} `{StdSortSpec}.
Implicit Types (seg : UpdateSegment T) (t : Timeline) (v : SnapshotView).

Context (base : nat -> Vec).

Record UpdateRequest := mkRequest {
  request_vector : nat;
  request_column : nat;
  request_update : UnifiedVectorFormat T;
  request_ids : list Z;
  request_count : nat;
  request_start : Z
}.

(** The row ids of a request lie in its vector. *)
Definition request_ok (r : UpdateRequest) : Prop :=
  vector_bounds (request_start r) (request_vector r) /\
  forall i, i ∈ requested (request_update r) (request_count r) -> in_vector (request_start r) (request_vector r) (request_ids r) i.

Definition request_row (r : UpdateRequest) : nat -> nat := row_at (request_start r) (request_vector r) (request_ids r).
Definition request_positions (r : UpdateRequest) : list nat := requested (request_update r) (request_count r).

Inductive event :=
  | Began v
  | Updated v (r : UpdateRequest)
  | Conflicted v (r : UpdateRequest)
  | Committed v (cid : Z)
  | RolledBack v
  | CleanedUp (tid : Z)
  | Raised (low : Z)
  | Fetched v (vi : nat) (result : Vec).

(** What a scan of the base table leaves in the result vector. *)
Definition scanned (vi : nat) (result : Vec) : Prop :=
  vec_fits result STANDARD_VECTOR_SIZE /\
  forall row, row < STANDARD_VECTOR_SIZE -> base_plain (base vi) row -> vec_get result row = base_value (base vi) row.

Record system := mkSystem { timeline : Timeline; segment : UpdateSegment T }.

Definition run_update v (r : UpdateRequest) seg : outcome T :=
  Update true v (request_column r) (request_update r) (request_ids r) (request_count r) (base (request_vector r))
    (request_start r) seg.

(** A commit that fails is reverted, and the transaction is rolled back. *)
Inductive system_step : system -> event -> system -> Prop :=
  | system_begin t seg v : can_begin v t ->
      system_step (mkSystem t seg) (Began v) (mkSystem (begin_timeline v t) seg)
  | system_update t seg seg' v r : v ∈ running t -> request_ok r -> run_update v r seg = Some (Ok tt, seg') ->
      system_step (mkSystem t seg) (Updated v r) (mkSystem t seg')
  | system_conflict t seg seg' v r e : v ∈ running t -> request_ok r -> run_update v r seg = Some (Throw e, seg') ->
      system_step (mkSystem t seg) (Conflicted v r) (mkSystem t seg')
  | system_commit t seg v cid : v ∈ running t -> (next_commit t <= cid < MAX_COMMIT_ID)%Z ->
      system_step (mkSystem t seg) (Committed v cid)
        (mkSystem (commit_timeline (transaction_id v) cid t) (CommitUpdates (transaction_id v) cid seg))
  | system_rollback t seg seg' v : v ∈ running t -> RollbackUpdates (transaction_id v) seg = Some seg' ->
      system_step (mkSystem t seg) (RolledBack v) (mkSystem (rollback_timeline (transaction_id v) t) seg')
  | system_failed_commit t seg seg' v cid : v ∈ running t ->
      RollbackUpdates (transaction_id v) (RevertCommitUpdates (transaction_id v) (CommitUpdates (transaction_id v) cid seg)) = Some seg' ->
      system_step (mkSystem t seg) (RolledBack v) (mkSystem (rollback_timeline (transaction_id v) t) seg')
  | system_cleanup t seg seg' tid cid : (tid, cid) ∈ uncleaned t -> (cid < lowest t)%Z ->
      CleanupUpdates tid seg = Some seg' ->
      system_step (mkSystem t seg) (CleanedUp tid) (mkSystem (cleanup_timeline tid t) seg')
  | system_raise t seg low : can_raise low t ->
      system_step (mkSystem t seg) (Raised low) (mkSystem (raise_timeline low t) seg)
  | system_fetch t seg v vi scan result : v ∈ running t -> scanned vi scan -> FetchUpdates v vi seg scan = Some result ->
      system_step (mkSystem t seg) (Fetched v vi result) (mkSystem t seg).

Definition initial_system `{ColumnType T} : system := mkSystem initial_timeline initial_segment.

(** The store keeps every version of every row until it is rolled back. *)
Record store := mkStore { store_timeline : Timeline; history : nat -> nat -> list (Z * T) }.

Definition initial_store : store := mkStore initial_timeline (fun _ _ => []).

Definition request_writes v (r : UpdateRequest) (um : gmap nat T) (h : nat -> list (Z * T)) : Prop :=
  writes base v (request_update r) (request_ids r) (request_start r) (request_vector r) (request_count r) um h.

(** The rows whose reads the store determines: those with a version, and those that are not NULL in the
    base table. What remains are rows that are NULL and were never written; their value means nothing. *)
Definition has_value (h : nat -> nat -> list (Z * T)) (vi row : nat) : Prop := base_plain (base vi) row \/ h vi row <> [].

Inductive store_step : store -> event -> store -> Prop :=
  | store_begin t h v : can_begin v t -> store_step (mkStore t h) (Began v) (mkStore (begin_timeline v t) h)
  | store_update t h v r um : v ∈ running t -> request_writes v r um (h (request_vector r)) ->
      store_step (mkStore t h) (Updated v r)
        (mkStore t (set_history h (request_vector r) (write_history (transaction_id v) um (h (request_vector r)))))
  | store_conflict t h v r i : v ∈ running t -> i ∈ request_positions r ->
      ~ seen_by v (h (request_vector r) (request_row r i)) ->
      store_step (mkStore t h) (Conflicted v r) (mkStore t h)
  | store_commit t h v cid : v ∈ running t -> (next_commit t <= cid < MAX_COMMIT_ID)%Z ->
      store_step (mkStore t h) (Committed v cid)
        (mkStore (commit_timeline (transaction_id v) cid t) (relabel_all (transaction_id v) cid h))
  | store_rollback t h v : v ∈ running t ->
      store_step (mkStore t h) (RolledBack v)
        (mkStore (rollback_timeline (transaction_id v) t) (fun vi row => remove_version (transaction_id v) (h vi row)))
  | store_cleanup t h tid cid : (tid, cid) ∈ uncleaned t -> (cid < lowest t)%Z ->
      store_step (mkStore t h) (CleanedUp tid) (mkStore (cleanup_timeline tid t) h)
  | store_raise t h low : can_raise low t -> store_step (mkStore t h) (Raised low) (mkStore (raise_timeline low t) h)
  | store_fetch t h v vi result : v ∈ running t ->
      (forall row, row < STANDARD_VECTOR_SIZE -> has_value h vi row ->
         vec_get result row = read_version v (base_value (base vi) row) (h vi row)) ->
      store_step (mkStore t h) (Fetched v vi result) (mkStore t h).

(** ** The simulation *)

Record owners (t : Timeline) (owned : Z -> option (list positive)) seg : Prop := {
  owners_running v : v ∈ running t -> owned (transaction_id v) = Some (undo_of (transaction_id v) seg);
  owners_uncleaned tid cid : (tid, cid) ∈ uncleaned t -> owned cid = Some (undo_of tid seg);
  owners_fresh a : (next_transaction t <= a)%Z -> undo_entries seg !! a = None
}.

Record related (s : system) (a : store) : Prop := {
  related_timeline : store_timeline a = timeline s;
  related_ok : timeline_ok (timeline s);
  related_segment : exists chains owned,
    seg_inv base (running (timeline s)) (lowest (timeline s)) (next_commit (timeline s)) (history a) chains owned (segment s) /\
    owners (timeline s) owned (segment s)
}.

Lemma related_initial `{ColumnType T} : related initial_system initial_store.
Proof.
  split; [done| |].
  - split; cbn.
    + split; [done|done|by intros v ?%elem_of_nil|constructor].
    + by intros v ?%elem_of_nil.
    + by intros tid cid ?%elem_of_nil.
    + constructor.
    + constructor.
    + done.
  - exists (fun _ => None), (fun _ => None). split.
    + split; try done.
      * intros p [? ?]. done.
    + split; cbn; [by intros v ?%elem_of_nil|by intros tid cid ?%elem_of_nil|done].
Qed.

(** An update changes the entries of its transaction only. *)
Lemma owners_updated t h owned seg seg' v : timeline_ok t -> v ∈ running t -> owners t owned seg ->
  updated base (active := running t) (low := lowest t) (now := next_commit t) v h owned seg seg' ->
  exists chains' owned', seg_inv base (running t) (lowest t) (next_commit t) h chains' owned' seg' /\ owners t owned' seg'.
Proof.
  intros Hok Hv [Hr Hu Hf] (chains' & owned' & Hinv & Ho & Hoth). exists chains', owned'. split; [done|].
  assert (Hsame : forall a, a <> transaction_id v -> undo_of a seg' = undo_of a seg).
  { intros a Ha. unfold undo_of. by destruct (Hoth a Ha) as [_ ->]. }
  pose proof (timeline_clock _ Hok) as Hck. pose proof (clock_tid Hck v Hv) as Htid. split.
  - intros w Hw. destruct (Z.eq_dec (transaction_id w) (transaction_id v)) as [->|Hne]; [done|].
    destruct (Hoth _ Hne) as [-> _]. rewrite Hsame by done. by apply Hr.
  - intros tid cid Hin. destruct (timeline_uncleaned _ Hok tid cid Hin) as (_ & Hc & Hn).
    destruct Hck as [_ Hnow _ _]. destruct (Hoth cid) as [-> _]; [lia|]. rewrite Hsame; [by apply Hu|].
    intros ->. apply Hn. by apply list_elem_of_fmap_2.
  - intros a Ha. pose proof (timeline_ids _ Hok v Hv). destruct (Hoth a) as [_ ->]; [lia|by apply Hf].
Qed.

Lemma undo_of_same a seg seg' : undo_entries seg' = undo_entries seg -> undo_of a seg' = undo_of a seg.
Proof. unfold undo_of. by intros ->. Qed.

(** What an update does, in the terms of the store. *)
Lemma run_update_spec t seg hist chains owned v r : timeline_ok t ->
  seg_inv base (running t) (lowest t) (next_commit t) hist chains owned seg -> owners t owned seg ->
  v ∈ running t -> request_ok r ->
  exists res seg', run_update v r seg = Some (res, seg') /\
  match res with
  | Ok _ => exists um, request_writes v r um (hist (request_vector r)) /\ exists chains' owned',
      seg_inv base (running t) (lowest t) (next_commit t)
        (set_history hist (request_vector r) (write_history (transaction_id v) um (hist (request_vector r)))) chains' owned' seg' /\
      owners t owned' seg'
  | Throw e => e = conflict_on_update /\
      (exists i, i ∈ request_positions r /\ ~ seen_by v (hist (request_vector r) (request_row r i))) /\ exists chains' owned',
      seg_inv base (running t) (lowest t) (next_commit t) hist chains' owned' seg' /\ owners t owned' seg'
  end.
Proof.
  intros Hok Hinv Hown Hv [Hb Hin].
  destruct (update_spec base (timeline_clock _ Hok) v Hv (request_column r) (request_update r) (request_ids r) (request_start r)
    (request_vector r) Hb seg hist chains owned (request_count r) Hinv (owners_running _ _ _ Hown v Hv) Hin) as (res & seg' & Hu & Hres).
  exists res, seg'. split; [done|]. destruct res as [u|e].
  - destruct Hres as (um & Hw & Hup). exists um. split; [done|]. by eapply owners_updated.
  - destruct Hres as (He & Hi & Hup). split_and!; [done..|]. by eapply owners_updated.
Qed.

Lemma rollback_related t seg hist chains owned v : timeline_ok t ->
  seg_inv base (running t) (lowest t) (next_commit t) hist chains owned seg -> owners t owned seg -> v ∈ running t ->
  exists seg', RollbackUpdates (transaction_id v) seg = Some seg' /\
    related (mkSystem (rollback_timeline (transaction_id v) t) seg')
      (mkStore (rollback_timeline (transaction_id v) t) (fun vi row => remove_version (transaction_id v) (hist vi row))).
Proof.
  intros Hok Hinv Hown Hv. pose proof (timeline_clock _ Hok) as Hck. pose proof (clock_tid Hck v Hv) as Htid.
  destruct (rollback_updates_spec base Hck v seg hist chains owned Hinv Hv (owners_running _ _ _ Hown v Hv))
    as (seg' & chains' & owned' & Hr & Hu & Hoth & Hinv').
  exists seg'. split; [done|]. split; [done|by apply rollback_timeline_ok|]. exists chains', owned'. split; [done|].
  destruct Hown as [Hrun Hunc Hf]. split; cbn.
  - intros w [Hw Hne]%without_in. rewrite Hoth, (undo_of_same _ seg) by done. by apply Hrun.
  - intros tid cid Hin. destruct (timeline_uncleaned _ Hok tid cid Hin) as (_ & Hc & _). destruct Hck as [_ Hnow _ _].
    rewrite Hoth, (undo_of_same _ seg) by (done || lia). by apply Hunc.
  - intros a Ha. rewrite Hu. by apply Hf.
Qed.

Lemma commit_related t seg hist chains owned v cid : timeline_ok t ->
  seg_inv base (running t) (lowest t) (next_commit t) hist chains owned seg -> owners t owned seg -> v ∈ running t ->
  (next_commit t <= cid < MAX_COMMIT_ID)%Z ->
  related (mkSystem (commit_timeline (transaction_id v) cid t) (CommitUpdates (transaction_id v) cid seg))
    (mkStore (commit_timeline (transaction_id v) cid t) (relabel_all (transaction_id v) cid hist)).
Proof.
  intros Hok Hinv Hown Hv Hcid. pose proof (timeline_clock _ Hok) as Hck. pose proof (clock_tid Hck v Hv) as Htid.
  destruct (commit_updates_spec base Hck v cid seg hist chains owned Hinv Hv (owners_running _ _ _ Hown v Hv) Hcid) as [Hinv' Hu].
  split; [done|by apply commit_timeline_ok|]. exists chains, (commit_owned (transaction_id v) cid owned). split; [done|].
  destruct Hown as [Hrun Hunc Hf]. split; cbn.
  - intros w [Hw Hne]%without_in. pose proof (clock_tid Hck w Hw). unfold commit_owned.
    destruct (Z.eqb_spec (transaction_id w) cid); [lia|]. destruct (Z.eqb_spec (transaction_id w) (transaction_id v)); [done|].
    rewrite (undo_of_same _ seg) by done. by apply Hrun.
  - intros tid c [[= -> ->]|Hin]%elem_of_cons; unfold commit_owned; rewrite (undo_of_same _ seg) by done.
    + rewrite Z.eqb_refl. by apply Hrun.
    + destruct (timeline_uncleaned _ Hok tid c Hin) as (_ & Hc & _). destruct Hck as [_ Hnow _ _].
      destruct (Z.eqb_spec c cid); [lia|]. destruct (Z.eqb_spec c (transaction_id v)); [lia|]. by apply Hunc.
  - intros a Ha. rewrite Hu. by apply Hf.
Qed.

Lemma cleanup_related t seg hist chains owned tid cid : timeline_ok t ->
  seg_inv base (running t) (lowest t) (next_commit t) hist chains owned seg -> owners t owned seg ->
  (tid, cid) ∈ uncleaned t -> (cid < lowest t)%Z ->
  exists seg', CleanupUpdates tid seg = Some seg' /\
    related (mkSystem (cleanup_timeline tid t) seg') (mkStore (cleanup_timeline tid t) hist).
Proof.
  intros Hok Hinv Hown Hin Hc. pose proof (timeline_clock _ Hok) as Hck.
  destruct (cleanup_updates_spec base tid cid seg hist chains owned Hinv Hc (owners_uncleaned _ _ _ Hown tid cid Hin))
    as (seg' & chains' & owned' & Hs & Hu & Hoth & Hinv').
  exists seg'. split; [done|]. split; [done|by apply cleanup_timeline_ok|]. exists chains', owned'. split; [done|].
  destruct Hown as [Hrun Hunc Hf]. split; cbn.
  - intros w Hw. pose proof (clock_tid Hck w Hw). destruct (timeline_uncleaned _ Hok tid cid Hin) as (_ & Hn & _).
    destruct Hck as [_ Hnow _ _]. rewrite Hoth, (undo_of_same _ seg) by (done || lia). by apply Hrun.
  - intros tid' c [Hin' Hne%negb_true_iff%Z.eqb_neq]%list_elem_of_In%List.filter_In. apply list_elem_of_In in Hin'.
    rewrite Hoth, (undo_of_same _ seg); [by apply Hunc|done|]. intros ->.
    pose proof (timeline_commits _ Hok) as Hnd.
    apply list_elem_of_lookup in Hin as [i Hi], Hin' as [j Hj].
    assert (i = j) as ->; [|cbn in Hne; congruence].
    apply (NoDup_lookup _ i j cid Hnd); rewrite list_lookup_fmap; by rewrite ?Hi, ?Hj.
  - intros a Ha. rewrite Hu. by apply Hf.
Qed.

Lemma begin_related t seg hist chains owned v : timeline_ok t ->
  seg_inv base (running t) (lowest t) (next_commit t) hist chains owned seg -> owners t owned seg -> can_begin v t ->
  related (mkSystem (begin_timeline v t) seg) (mkStore (begin_timeline v t) hist).
Proof.
  intros Hok Hinv Hown Hv. pose proof (timeline_clock _ Hok) as Hck. pose proof Hv as (Hwf & Hnew & Hb).
  assert (Hfresh : transaction_id v ∉ transaction_id <$> running t).
  { intros (w & E & Hw)%list_elem_of_fmap. pose proof (timeline_ids _ Hok w Hw). lia. }
  split; [done|by apply begin_timeline_ok|]. eexists chains, _. split.
  - apply (begin_spec base Hck v seg hist chains owned Hinv Hwf Hfresh). lia.
  - pose proof (max_commit_lt_id v Hwf). destruct Hown as [Hrun Hunc Hf]. split; cbn.
    + intros w [->|Hw]%elem_of_cons.
      * rewrite Z.eqb_refl. unfold undo_of. by rewrite (Hf (transaction_id v)) by lia.
      * pose proof (timeline_ids _ Hok w Hw). destruct (Z.eqb_spec (transaction_id w) (transaction_id v)); [lia|]. by apply Hrun.
    + intros tid cid Hin. destruct (timeline_uncleaned _ Hok tid cid Hin) as (_ & Hc & _).
      destruct (Z.eqb_spec cid (transaction_id v)); [lia|]. by apply Hunc.
    + intros a Ha. apply Hf. lia.
Qed.

(** ** The simulation itself *)

Lemma fetch_related t seg hist chains owned v vi scan : timeline_ok t ->
  seg_inv base (running t) (lowest t) (next_commit t) hist chains owned seg -> v ∈ running t -> scanned vi scan ->
  exists result, FetchUpdates v vi seg scan = Some result /\
    (forall row, row < STANDARD_VECTOR_SIZE -> vec_get result row = fetched base v hist seg vi row (vec_get scan row)) /\
    forall row, row < STANDARD_VECTOR_SIZE -> has_value hist vi row ->
      vec_get result row = read_version v (base_value (base vi) row) (hist vi row).
Proof.
  intros Hok Hinv Hv [Hfit Hscan].
  destruct (fetch_updates_spec base (timeline_clock _ Hok) v vi seg hist chains owned scan Hinv Hv Hfit) as (result & Hf & _ & Hget).
  exists result. split_and!; [done..|]. intros row Hr Hp. rewrite Hget by done. apply (fetched_read base v vi row hist chains owned seg _ Hinv Hr).
  destruct Hp as [Hp|Hp]; [left; by apply Hscan|by right].
Qed.

Lemma system_simulated s a e s' : related s a -> system_step s e s' -> exists a', store_step a e a' /\ related s' a'.
Proof.
  intros [Ht Hok (chains & owned & Hinv & Hown)] Hstep. destruct a as [ta h]. cbn in Ht, Hinv. subst ta.
  destruct Hstep as [t seg v Hb|t seg seg' v r Hv Hr Hu|t seg seg' v r e Hv Hr Hu|t seg v cid Hv Hc|t seg seg' v Hv Hu
    |t seg seg' v cid Hv Hu|t seg seg' tid cid Hin Hc Hu|t seg low Hl|t seg v vi scan result Hv Hs Hf]; cbn [timeline segment] in *.
  - eexists. split; [by constructor|]. by eapply begin_related.
  - destruct (run_update_spec t seg h chains owned v r Hok Hinv Hown Hv Hr) as (res & seg1 & E & Hres).
    rewrite Hu in E. injection E as <- <-. destruct Hres as (um & Hw & c' & o' & Hinv' & Hown').
    eexists. split; [by eapply store_update|]. split; [done|done|]. by exists c', o'.
  - destruct (run_update_spec t seg h chains owned v r Hok Hinv Hown Hv Hr) as (res & seg1 & E & Hres).
    rewrite Hu in E. injection E as <- <-. destruct Hres as (_ & (i & Hi & Hn) & c' & o' & Hinv' & Hown').
    eexists. split; [by eapply store_conflict|]. split; [done|done|]. by exists c', o'.
  - eexists. split; [by constructor|]. by eapply commit_related.
  - destruct (rollback_related t seg h chains owned v Hok Hinv Hown Hv) as (seg1 & E & Hrel).
    rewrite Hu in E. injection E as <-. eexists. split; [by constructor|done].
  - rewrite (revert_commit_updates base (active := running t) (low := lowest t) (now := next_commit t) h chains owned) in Hu
      by (done || by apply Hown).
    destruct (rollback_related t seg h chains owned v Hok Hinv Hown Hv) as (seg1 & E & Hrel).
    rewrite Hu in E. injection E as <-. eexists. split; [by constructor|done].
  - destruct (cleanup_related t seg h chains owned tid cid Hok Hinv Hown Hin Hc) as (seg1 & E & Hrel).
    rewrite Hu in E. injection E as <-. eexists. split; [by eapply store_cleanup|done].
  - eexists. split; [by constructor|]. split; [done|by apply raise_timeline_ok|]. exists chains, owned. split.
    + cbn. apply (seg_inv_raise base (low := lowest t)); [done|]. destruct Hl. lia.
    + by destruct Hown.
  - destruct (fetch_related t seg h chains owned v vi scan Hok Hinv Hv Hs) as (result' & E & _ & Hget).
    rewrite Hf in E. injection E as <-. eexists. split; [by constructor|]. split; [done|done|]. by exists chains, owned.
Qed.
End System.
