(* ===== verification/UpdateTheorems.v ===== *)
(** * Update segments: the theorems

    Transactions that read and update the columns of a table through an update segment observe a store
    of versions; the consequences for what they read, for conflicts, for statistics and for the memory
    of the segment; and a concrete run. *)

From S2P Require Import Prelude Snapshot ValidityMask UpdateInfo UpdateSegment.
From S2P Require Import UpdateInfoFacts UpdateLaws UpdateVersions UpdateChains UpdateInvariant UpdateSegmentFacts UpdateSegmentSpec UpdateSegmentSteps UpdateWrite UpdateOutcome UpdateFetch UpdateStatistics UpdateSystem.
From Stdlib Require Import Sorted.
From stdpp Require Import sorting.

Local Open Scope nat_scope.

(** ** A concrete column of integers, with vectors of four rows *)

Module Sample.

#[export] Instance z_type : ColumnType Z :=
  {| type_default := 0%Z; type_equals := Z.eqb; type_less := Z.ltb; type_minimum := i64_min; type_maximum := i64_max |}.
#[export] Instance z_laws : ColumnTypeLaws Z.
Proof. split. apply Z.eqb_eq. Qed.

Definition four_rows : VectorSize.
Proof. refine {| STANDARD_VECTOR_SIZE := 4 |}. by exists 2. Defined.
#[export] Existing Instance four_rows.

Definition not_above (less : nat -> nat -> bool) (i j : nat) : Prop := less j i = false.
#[export] Instance not_above_dec less i j : Decision (not_above less i j).
Proof. unfold not_above. apply _. Defined.
#[export] Instance sort : StdSort := {| std_sort less l := merge_sort (not_above less) l |}.

#[export] Instance sort_spec : StdSortSpec.
Proof.
  split.
  - intros less l. apply merge_sort_Permutation.
  - intros key l. set (R := not_above (fun i j => (key i <? key j)%Z)).
    assert (Transitive R) by (intros i j k; unfold R, not_above; rewrite !Z.ltb_ge; lia).
    assert (Total R) by (intros i j; unfold R, not_above; rewrite !Z.ltb_ge; lia).
    assert (StronglySorted R (merge_sort R l)) as Hs by apply (StronglySorted_merge_sort R).
    change (std_sort (fun i j => (key i <? key j)%Z) l) with (merge_sort R l).
    induction Hs as [|i k _ IH Hf]; constructor; [done|].
    eapply Forall_impl; [exact Hf|]. intros j. unfold R, not_above. by rewrite Z.ltb_ge.
Qed.

(** Three vectors' worth of base values. *)
Definition base (vi : nat) : FlatVector Z :=
  mkFlat (map (fun r => Z.of_nat (100 * vi + r)) (seq 0 4)) (empty_mask 4).
Definition flat (l : list Z) : UnifiedVectorFormat Z := mkUnified None l (empty_mask 4).

Definition first_writer : SnapshotView := mkSnapshotView TRANSACTION_ID_START (VisibilityBound.mk 2).
Definition second_writer : SnapshotView := mkSnapshotView (TRANSACTION_ID_START + 1) (VisibilityBound.mk 3).

(** Row ids 4, 6 and 4 again of the vector 1; row id 6; row id 5. *)
Definition first_request : UpdateRequest := mkRequest 1 0 (flat [7; 8; 9]%Z) [4; 6; 4]%Z 3 0.
Definition second_request : UpdateRequest := mkRequest 1 0 (flat [5]%Z) [6]%Z 1 0.
Definition third_request : UpdateRequest := mkRequest 1 0 (flat [6]%Z) [5]%Z 1 0.

Definition segment_of (o : outcome Z) : UpdateSegment Z := match o with Some (_, s) => s | None => initial_segment end.
Definition after (o : option (UpdateSegment Z)) : UpdateSegment Z := default initial_segment o.

Definition timeline1 : Timeline := begin_timeline second_writer (begin_timeline first_writer initial_timeline).
Definition segment1 : UpdateSegment Z := Eval vm_compute in segment_of (run_update base first_writer first_request initial_segment).
Definition segment2 : UpdateSegment Z := Eval vm_compute in segment_of (run_update base second_writer second_request segment1).
Definition segment3 : UpdateSegment Z := Eval vm_compute in segment_of (run_update base second_writer third_request segment2).
Definition segment4 : UpdateSegment Z := Eval vm_compute in CommitUpdates (transaction_id first_writer) 3 segment3.
Definition result3 : FlatVector Z := Eval vm_compute in default (base 1) (FetchUpdates second_writer 1 segment4 (base 1)).
End Sample.

(** ** What runs keep *)

Section Kept.
Context {T Vec : Type} `{SegmentLaws T Vec} `{StdSortSpec} {HC : ColumnType T}.
Context (base : nat -> Vec).
Implicit Types (s : system (T := T)) (a : store (T := T)) (v : SnapshotView).

Lemma reached_related tr s :
  run (system_step base) initial_system tr s ->
  exists a, run (store_step base) initial_store tr a /\ related base s a.
Proof.
  intros Hr. eapply run_simulation; [|apply related_initial|exact Hr].
  intros s1 a1 e s2 Hrel Hstep. by eapply system_simulated.
Qed.

(** An event that does not change what the transaction of [v] reads. *)
Definition undisturbed v (e : event (T := T) (Vec := Vec)) : Prop :=
  match e with
  | Updated w _ | Committed w _ | RolledBack w => transaction_id w <> transaction_id v
  | _ => True
  end.

Lemma read_write_history v w fl um (h : nat -> list (Z * T)) row : Sees v (transaction_id w) = false ->
  read_version v fl (write_history (transaction_id w) um h row) = read_version v fl (h row).
Proof. intros Hs. unfold write_history. destruct (um !! row); [|done]. cbn. by rewrite Hs. Qed.

Lemma read_relabel v tid cid fl (h : list (Z * T)) : Sees v tid = false -> Sees v cid = false ->
  read_version v fl (relabel tid cid h) = read_version v fl h.
Proof.
  intros Ht Hc. induction h as [|[a x] h IH]; [done|]. cbn. unfold relabel_version.
  destruct (Z.eqb_spec a tid) as [->|]; [by rewrite Hc, Ht|]. by destruct (Sees v a).
Qed.

Lemma read_remove v tid fl (h : list (Z * T)) : Sees v tid = false ->
  read_version v fl (remove_version tid h) = read_version v fl h.
Proof.
  intros Ht. induction h as [|[a x] h IH]; [done|]. rewrite remove_version_cons.
  destruct (Z.eqb_spec a tid) as [->|]; cbn; [by rewrite Ht|]. by destruct (Sees v a).
Qed.

Lemma other_unseen t v w : timeline_ok t -> v ∈ running t -> w ∈ running t -> transaction_id w <> transaction_id v ->
  Sees v (transaction_id w) = false.
Proof.
  intros Hok Hv Hw Hne. destruct (timeline_clock _ Hok) as [_ _ Hviews _]. destruct (Hviews v Hv) as [Hwf _].
  destruct (Hviews w Hw) as [Hwfw _]. apply Sees_uncommitted; [done| |done].
  pose proof (max_commit_lt_id w Hwfw). unfold IsCommitted. lia.
Qed.

Lemma store_step_reads a e a' v : timeline_ok (store_timeline a) -> v ∈ running (store_timeline a) -> undisturbed v e ->
  store_step base a e a' -> v ∈ running (store_timeline a') /\
  forall vi row fl, read_version v fl (history a' vi row) = read_version v fl (history a vi row).
Proof.
  intros Hok Hv Hund Hstep. destruct Hstep as [t h w Hb|t h w r um Hw Hu|t h w r i Hw Hi Hn|t h w cid Hw Hc|t h w Hw
    |t h tid cid Hin Hc|t h low Hl|t h w vi result Hw Hf]; cbn [store_timeline history running] in *; try done.
  - split; [by right|done].
  - split; [done|]. intros vi row fl. unfold set_history. destruct (Nat.eqb_spec vi (request_vector r)) as [->|]; [|done].
    apply read_write_history. by eapply other_unseen.
  - split; [apply without_in; split; [done|]; by apply not_eq_sym|]. intros vi row fl.
    destruct (timeline_clock _ Hok) as [_ _ Hviews _]. destruct (Hviews v Hv) as [Hwf Hbound].
    apply read_relabel; [by eapply other_unseen|]. apply not_true_is_false. rewrite Sees_spec.
    pose proof (max_commit_lt_id v Hwf). lia.
  - split; [apply without_in; split; [done|]; by apply not_eq_sym|]. intros vi row fl.
    apply read_remove. by eapply other_unseen.
Qed.

Lemma related_fetch s a v vi scan result : related base s a -> v ∈ running (timeline s) -> scanned base vi scan ->
  FetchUpdates v vi (segment s) scan = Some result -> forall row, row < STANDARD_VECTOR_SIZE -> has_value base (history a) vi row ->
  vec_get result row = read_version v (base_value (base vi) row) (history a vi row).
Proof.
  intros [_ Hok (chains & owned & Hinv & _)] Hv Hs Hf.
  destruct (fetch_related base (timeline s) (segment s) (history a) chains owned v vi scan Hok Hinv Hv Hs) as (result' & E & _ & Hget).
  rewrite Hf in E. by injection E as <-.
Qed.

(** Whatever is read comes from the scan or from the store. *)
Lemma related_fetch_any s a v vi scan result row : related base s a -> v ∈ running (timeline s) -> scanned base vi scan ->
  FetchUpdates v vi (segment s) scan = Some result -> row < STANDARD_VECTOR_SIZE ->
  vec_get result row = vec_get scan row \/ vec_get result row = read_version v (base_value (base vi) row) (history a vi row).
Proof.
  intros [_ Hok (chains & owned & Hinv & _)] Hv Hs Hf Hrow.
  destruct (fetch_related base (timeline s) (segment s) (history a) chains owned v vi scan Hok Hinv Hv Hs) as (result' & E & Hget & _).
  rewrite Hf in E. injection E as <-. rewrite Hget by done. unfold fetched. destruct (root_row _ _ _); [by right|by left].
Qed.

Lemma undisturbed_reads s1 a1 tr s2 v : related base s1 a1 ->
  v ∈ running (timeline s1) -> run (system_step base) s1 tr s2 -> Forall (undisturbed v) tr ->
  exists a2, related base s2 a2 /\ v ∈ running (timeline s2) /\
    forall vi row fl, read_version v fl (history a2 vi row) = read_version v fl (history a1 vi row).
Proof.
  intros Hrel Hv Hrun Hund. apply (run_forall _ (undisturbed v)) in Hrun; [|done].
  destruct (run_simulation (fun s e s' => undisturbed v e /\ system_step base s e s') (store_step base)
    (fun s a => related base s a /\ v ∈ running (timeline s) /\
       forall vi row fl, read_version v fl (history a vi row) = read_version v fl (history a1 vi row))) with (s := s1) (a := a1) (tr := tr) (s' := s2)
    as (a2 & _ & ? & ? & ?); [|done|done|by exists a2].
  intros s a e s' (Hr & Hin & Heq) [Hu Hstep].
  destruct (system_simulated base s a e s' Hr Hstep) as (a' & Hstep' & Hr').
  exists a'. split; [done|]. split; [done|].
  destruct (store_step_reads a e a' v) as [Hin' Heq']; [| |done|done|].
  - rewrite (related_timeline _ _ _ Hr). apply Hr.
  - by rewrite (related_timeline _ _ _ Hr).
  - rewrite <- (related_timeline _ _ _ Hr'). split; [done|]. intros vi row fl. by rewrite Heq'.
Qed.
End Kept.

(** ** The theorems *)

Section Theorems.
Context {T Vec : Type} `{SegmentLaws T Vec} `{StdSortSpec} {HC : ColumnType T}.
Context (base : nat -> Vec).

Abbreviation reached tr s := (run (system_step base) initial_system tr s).

(** C7. The update segment implements the store of versions: whatever transactions do with it, in whatever
    order, every update outcome, conflict, commit, rollback, cleanup and fetched vector is one the store
    of versions allows, where a read returns for every row the newest version its snapshot sees. This holds
    for every row but those that are NULL in the base table and have no version, whose value is left open. *)
Theorem updates_refine_versions tr s : reached tr s ->
  exists a, run (store_step base) initial_store tr a /\ store_timeline a = timeline s.
Proof.
  intros (a & Ha & Hrel)%reached_related. exists a. split; [done|]. by apply related_timeline in Hrel.
Qed.

(** No operation of the segment follows a dangling pointer or fails in another way than by a conflict:
    in every reachable state reads, rollbacks and the cleanups that are due go through, and an update
    either succeeds or reports a conflict. *)
Theorem updates_never_stuck tr s : reached tr s ->
  (forall v vi scan, v ∈ running (timeline s) -> scanned base vi scan -> is_Some (FetchUpdates v vi (segment s) scan)) /\
  (forall v r, v ∈ running (timeline s) -> request_ok r -> exists res seg', run_update base v r (segment s) = Some (res, seg') /\
     (res = Ok tt \/ res = Throw conflict_on_update)) /\
  (forall v, v ∈ running (timeline s) -> is_Some (RollbackUpdates (transaction_id v) (segment s))) /\
  (forall tid cid, (tid, cid) ∈ uncleaned (timeline s) -> (cid < lowest (timeline s))%Z ->
     is_Some (CleanupUpdates tid (segment s))).
Proof.
  intros (a & _ & [_ Hok (chains & owned & Hinv & Hown)])%reached_related. split_and!.
  - intros v vi scan Hv Hs. destruct (fetch_related base _ _ _ _ _ v vi scan Hok Hinv Hv Hs) as (result & -> & _). eauto.
  - intros v r Hv Hr. destruct (run_update_spec base _ _ _ _ _ v r Hok Hinv Hown Hv Hr) as (res & seg' & E & Hres).
    exists res, seg'. split; [done|]. destruct res as [[]|e]; [by left|right]. by destruct Hres as (-> & _).
  - intros v Hv. destruct (rollback_related base _ _ _ _ _ v Hok Hinv Hown Hv) as (seg' & -> & _). eauto.
  - intros tid cid Hin Hc. destruct (cleanup_related base _ _ _ _ _ tid cid Hok Hinv Hown Hin Hc) as (seg' & -> & _). eauto.
Qed.

(** C30. First updater wins, exactly: an update throws the conflict if and only if one of the rows it asks to
    write has a version that its transaction does not see. *)
Theorem conflicts_exact tr s : reached tr s ->
  exists a, run (store_step base) initial_store tr a /\
  forall v r, v ∈ running (timeline s) -> request_ok r ->
    (exists seg', run_update base v r (segment s) = Some (Throw conflict_on_update, seg')) <->
    exists i, i ∈ request_positions r /\ ~ seen_by v (history a (request_vector r) (request_row r i)).
Proof.
  intros (a & Ha & [_ Hok (chains & owned & Hinv & Hown)])%reached_related. exists a. split; [done|].
  intros v r Hv Hr. destruct (run_update_spec base _ _ _ _ _ v r Hok Hinv Hown Hv Hr) as (res & seg' & E & Hres). split.
  - intros (seg1 & E1). rewrite E in E1. injection E1 as -> ->. by destruct Hres as (_ & Hi & _).
  - intros (i & Hi & Hn). destruct res as [[]|e]; [exfalso|destruct Hres as (-> & _); eauto].
    destruct Hres as (um & Hw & _). apply Hn. by apply (writes_seen _ _ _ _ _ _ _ _ _ Hw).
Qed.

(** Two running transactions never both have written the same row. *)
Theorem one_writer_per_row tr s : reached tr s ->
  exists a, run (store_step base) initial_store tr a /\
  forall vi row v w x y, row < STANDARD_VECTOR_SIZE -> v ∈ running (timeline s) -> w ∈ running (timeline s) ->
    (transaction_id v, x) ∈ history a vi row -> (transaction_id w, y) ∈ history a vi row -> v = w.
Proof.
  intros (a & Ha & [_ Hok (chains & owned & Hinv & Hown)])%reached_related. exists a. split; [done|].
  intros vi row v w x y Hrow Hv Hw Hx Hy. pose proof (timeline_clock _ Hok) as Hck.
  apply (clock_same_id _ _ _ v w Hck Hv Hw).
  assert (ordered (history a vi row)) as Ho.
  { destruct (chains vi) as [[r l]|] eqn:Hc.
    - destruct (seg_chain _ _ _ _ _ _ _ _ Hinv vi r l Hc) as (R & _ & _ & Hci). by apply (chain_rows _ _ _ _ _ _ _ _ Hci row Hrow).
    - rewrite (seg_untouched _ _ _ _ _ _ _ _ Hinv vi Hc row Hrow). constructor. }
  pose proof (clock_tid Hck v Hv) as Htv. pose proof (clock_tid Hck w Hw) as Htw.
  clear -Ho Hx Hy Htv Htw. induction (history a vi row) as [|[b z] h IH]; [by apply elem_of_nil in Hx|].
  apply ordered_cons in Ho as [Ho Hsup].
  apply elem_of_cons in Hx as [[= Ex _]|Hx], Hy as [[= Ey _]|Hy].
  - congruence.
  - destruct (Hsup _ _ Hy) as [E|[_ ?]]; [congruence|lia].
  - destruct (Hsup _ _ Hx) as [E|[_ ?]]; [congruence|lia].
  - by apply IH.
Qed.

(** Snapshot isolation of reads: until a transaction updates, commits or rolls back itself, fetching a
    vector again gives it the same values, whatever the others do in between. *)
Theorem snapshot_reads_repeat tr1 s1 tr2 s2 v vi scan1 scan2 result1 result2 row :
  reached tr1 s1 -> run (system_step base) s1 tr2 s2 -> v ∈ running (timeline s1) -> Forall (undisturbed v) tr2 ->
  scanned base vi scan1 -> FetchUpdates v vi (segment s1) scan1 = Some result1 ->
  scanned base vi scan2 -> FetchUpdates v vi (segment s2) scan2 = Some result2 ->
  row < STANDARD_VECTOR_SIZE -> base_plain (base vi) row -> vec_get result1 row = vec_get result2 row.
Proof.
  intros (a1 & _ & Hrel1)%reached_related Hrun Hv Hund Hs1 Hf1 Hs2 Hf2 Hrow Hp.
  destruct (undisturbed_reads base s1 a1 tr2 s2 v Hrel1 Hv Hrun Hund) as (a2 & Hrel2 & Hv2 & Heq).
  rewrite (related_fetch base s1 a1 v vi scan1 result1 Hrel1 Hv Hs1 Hf1 row Hrow (or_introl Hp)).
  rewrite (related_fetch base s2 a2 v vi scan2 result2 Hrel2 Hv2 Hs2 Hf2 row Hrow (or_introl Hp)). by rewrite Heq.
Qed.

(** A transaction reads its own writes: after an update, a fetch gives every requested row a value that
    was requested for it, and every other row the value it had before. *)
Theorem own_writes_read tr s v r seg' scan before after row :
  reached tr s -> v ∈ running (timeline s) -> request_ok r -> run_update base v r (segment s) = Some (Ok tt, seg') ->
  scanned base (request_vector r) scan ->
  FetchUpdates v (request_vector r) (segment s) scan = Some before ->
  FetchUpdates v (request_vector r) seg' scan = Some after ->
  row < STANDARD_VECTOR_SIZE -> base_plain (base (request_vector r)) row ->
  ((exists i, i ∈ request_positions r /\ request_row r i = row) ->
   exists j, j ∈ request_positions r /\ request_row r j = row /\ vec_get after row = update_value (request_update r) j) /\
  ((forall i, i ∈ request_positions r -> request_row r i <> row) -> vec_get after row = vec_get before row).
Proof.
  intros (a & _ & Hrel)%reached_related Hv Hr Hu Hs Hf Hf' Hrow Hp.
  pose proof (related_fetch base s a v _ scan before Hrel Hv Hs Hf row Hrow (or_introl Hp)) as Hbefore.
  destruct Hrel as [_ Hok (chains & owned & Hinv & Hown)].
  destruct (run_update_spec base _ _ _ _ _ v r Hok Hinv Hown Hv Hr) as (res & seg1 & E & Hres).
  rewrite Hu in E. injection E as <- <-. destruct Hres as (um & Hw & c' & o' & Hinv' & Hown').
  destruct (fetch_related base _ _ _ _ _ v (request_vector r) scan Hok Hinv' Hv Hs) as (result & E & _ & Hget).
  rewrite Hf' in E. injection E as <-. specialize (Hget row Hrow (or_introl Hp)).
  unfold set_history in Hget. rewrite Nat.eqb_refl in Hget. unfold write_history in Hget. split.
  - intros (i & Hi & Ei). destruct (um !! row) as [x|] eqn:Ex.
    + destruct (writes_requested _ _ _ _ _ _ _ _ _ Hw row x Ex) as (j & Hj & Ej & <-). exists j. split_and!; [done..|].
      rewrite Hget. cbn. by rewrite Sees_own.
    + destruct (writes_all _ _ _ _ _ _ _ _ _ Hw i Hi) as [[x Hx]|(j & Hj & Ej & _ & Hnew)].
      { change (um !! request_row r i = Some x) in Hx. rewrite Ei in Hx. congruence. }
      pose proof (writes_seen _ _ _ _ _ _ _ _ _ Hw i Hi) as Hseen.
      change (row_at _ _ _ i) with (request_row r i) in Hnew, Hseen, Ej. rewrite Ei in Hnew, Hseen, Ej.
      exists j. split_and!; [done..|]. rewrite Hget, seen_by_read by done. exact Hnew.
  - intros Hno. rewrite Hget, Hbefore. destruct (um !! row) as [x|] eqn:Ex; [|done].
    destruct (writes_requested _ _ _ _ _ _ _ _ _ Hw row x Ex) as (j & Hj & Ej & _). by destruct (Hno j Hj).
Qed.

(** C34. A point lookup gives for every row, also for rows that are NULL in the base table, what a fetch of the
    row's vector gives; it throws only when a row lies beyond the column; and a segment without updates
    returns the vector as it is, whatever the rows asked for. *)
Theorem point_lookups_agree tr s v offsets sel count column_count result result_offset n :
  reached tr s -> v ∈ running (timeline s) -> vec_fits result n -> result_offset + count <= n ->
  let off k := at_nat offsets (get_index sel k) in
  exists res, FetchRows v offsets sel count column_count (segment s) result result_offset = Some res /\
  match res with
  | Ok found => (if HasUpdates (segment s) then forall k, k < count -> off k <= column_count else found = result) /\
      forall k scan full, k < count -> scanned base (off k / STANDARD_VECTOR_SIZE) scan ->
        FetchUpdates v (off k / STANDARD_VECTOR_SIZE) (segment s) scan = Some full ->
        vec_get result (result_offset + k) = vec_get scan (off k mod STANDARD_VECTOR_SIZE) ->
        vec_get found (result_offset + k) = vec_get full (off k mod STANDARD_VECTOR_SIZE)
  | Throw e => HasUpdates (segment s) = true /\ e = out_of_range /\ exists k, k < count /\ column_count < off k
  end.
Proof.
  intros (a & _ & Hrel)%reached_related Hv Hfit Hn off.
  pose proof Hrel as [_ Hok (chains & owned & Hinv & _)].
  destruct (fetch_rows_spec base (timeline_clock _ Hok) v Hv offsets sel count column_count result_offset n (segment s)
    (history a) chains owned Hinv result Hfit Hn) as (res & E & Hres).
  exists res. split; [done|]. destruct res as [found|e]; [|done]. destruct Hres as (_ & Hrange & Hval & _). split; [done|].
  intros k scan full Hk Hs Hf Hbase. pose proof vector_size_pos.
  assert (off k mod STANDARD_VECTOR_SIZE < STANDARD_VECTOR_SIZE) as Hlt by (apply Nat.mod_upper_bound; lia).
  destruct (fetch_related base _ _ _ chains owned v _ scan Hok Hinv Hv Hs) as (full' & E' & Hget & _).
  rewrite Hf in E'. injection E' as <-. rewrite Hget by done. rewrite Hval by done. by rewrite Hbase.
Qed.

(** The committed-range scan, as used to checkpoint a column, overlays the newest value of every row of
    the range on the base values, whoever wrote it, and nothing outside the range. *)
Theorem committed_range_newest tr s : reached tr s ->
  exists a, run (store_step base) initial_store tr a /\
  forall start count n result, 0 < count <= n -> vec_fits result n ->
    exists result', FetchCommittedRange start count (segment s) result = Some result' /\
      (forall j, j < count -> vec_get result j = floor_at base (start + j) ->
         vec_get result' j = newest_at base (history a) (start + j)) /\
      (forall j, count <= j < n -> vec_get result' j = vec_get result j).
Proof.
  intros (a & Ha & [_ Hok (chains & owned & Hinv & _)])%reached_related. exists a. split; [done|].
  intros start count n result Hc Hfit.
  destruct (fetch_committed_range_spec base (segment s) (history a) chains owned start count n result Hinv Hc Hfit)
    as (result' & E & _ & H1' & H2'). by exists result'.
Qed.

(** Reverting a commit restores the segment exactly. *)
Theorem revert_commit_exact tr s v cid : reached tr s -> v ∈ running (timeline s) ->
  RevertCommitUpdates (transaction_id v) (CommitUpdates (transaction_id v) cid (segment s)) = segment s.
Proof.
  intros (a & _ & [_ Hok (chains & owned & Hinv & Hown)])%reached_related Hv.
  eapply revert_commit_updates; [exact Hinv|]. by apply Hown.
Qed.

(** C33. The memory of a segment keeps its shape: behind every root pointer lies a doubly linked chain whose
    root has the dummy version, every info of it has strictly increasing rows below the vector size, as
    many values as rows and room for them, infos behind the root are not empty, hold a whole vector and
    only rows of the root, and no version has two of them. *)
Theorem segment_memory_shape tr s vi r : reached tr s -> GetUpdateNode vi (segment s) = Some r ->
  exists R l, infos (segment s) !! r = Some R /\ linked (infos (segment s)) r l /\ root_ok vi R /\
    (forall info, info ∈ chain_infos (infos (segment s)) l -> node_ok vi R info) /\
    NoDup (version_number <$> chain_infos (infos (segment s)) l).
Proof.
  intros (a & _ & [_ Hok (chains & owned & Hinv & _)])%reached_related Hr.
  rewrite (seg_root _ _ _ _ _ _ _ _ Hinv) in Hr. destruct (chains vi) as [[r' l]|] eqn:Hc; [|done]. injection Hr as ->.
  destruct (seg_chain _ _ _ _ _ _ _ _ Hinv vi r l Hc) as (R & HR & Hl & Hci). exists R, l.
  split_and!; [done|done|apply Hci|by apply (chain_nodes _ _ _ _ _ _ _ _ Hci)|apply Hci].
Qed.
End Theorems.

(** ** Statistics *)

Section StatisticsTheorems.
Context {T Vec : Type} `{StatisticsLaws T Vec} `{StdSortSpec} {HC : ColumnType T}.
Context (base : nat -> Vec).

(** The updates of a run are ones the statistics are computed of. *)
Definition statistics_event (e : event (T := T) (Vec := Vec)) : Prop :=
  match e with Updated _ r | Conflicted _ r => statistics_ok (request_update r) (request_count r) | _ => True end.

Definition covered (s : system (T := T)) (a : store (T := T)) : Prop :=
  forall vi row b x, (b, x) ∈ history a vi row -> covers (stats (segment s)) x.

Lemma run_update_stats v r seg res seg' : run_update base v r seg = Some (res, seg') ->
  stats seg' = (statistics_update_function (stats seg) (request_update r) (request_count r)).1.1.
Proof. apply update_stats. Qed.

Lemma covered_step s a e s' a' : covered s a -> statistics_event e -> system_step base s e s' -> store_step base a e a' ->
  covered s' a'.
Proof.
  intros Hc He Hs Ha. destruct Hs as [t seg v Hb|t seg seg' v r Hv Hr Hu|t seg seg' v r e Hv Hr Hu|t seg v cid Hv Hcid|t seg seg' v Hv Hu
    |t seg seg' v cid Hv Hu|t seg seg' tid cid Hin Hlow Hu|t seg low Hl|t seg v vi scan result Hv Hscan Hf];
    inversion Ha; subst; unfold covered in *; cbn [segment history] in *; try done.
  - (* an update *)
    rewrite (run_update_stats _ _ _ _ _ Hu).
    destruct (law_covers (stats seg) (request_update r) (request_count r) He) as [Hold Hnew].
    intros vi row b x Hin. unfold set_history in Hin.
    destruct (Nat.eqb_spec vi (request_vector r)) as [->|]; [|by eapply Hold, Hc].
    unfold write_history in Hin. destruct (um !! row) as [y|] eqn:Ey; [|by eapply Hold, Hc].
    apply elem_of_cons in Hin as [[= -> ->]|Hin]; [|by eapply Hold, Hc].
    match goal with Hw : request_writes _ _ _ _ _ |- _ =>
      destruct (writes_requested _ _ _ _ _ _ _ _ _ Hw row y Ey) as (i & Hi & _ & <-) end.
    unfold requested in Hi. apply list_elem_of_In, List.filter_In in Hi as [[_ Hi]%in_seq Hsel]. by apply Hnew.
  - rewrite (run_update_stats _ _ _ _ _ Hu).
    destruct (law_covers (stats seg) (request_update r) (request_count r) He) as [Hold _].
    intros vi row b x Hin. by eapply Hold, Hc.
  - unfold CommitUpdates. rewrite commit_stats. intros vi row b x (b' & Hin & _)%relabel_in. by eapply Hc.
  - unfold RollbackUpdates in Hu. apply fold_stats in Hu; [|apply rollback_stats]. rewrite Hu.
    intros vi row b x [Hin _]%remove_version_in. by eapply Hc.
  - unfold RollbackUpdates in Hu. apply fold_stats in Hu; [|apply rollback_stats]. rewrite Hu.
    unfold RevertCommitUpdates, CommitUpdates. rewrite !commit_stats.
    intros vi row b x [Hin _]%remove_version_in. by eapply Hc.
  - unfold CleanupUpdates in Hu. apply fold_stats in Hu; [|apply cleanup_internal_stats]. by rewrite Hu.
Qed.

(** C38. If no update of a validity column comes with a selection, the statistics of a segment cover every value
    that the updates wrote and a transaction can read: a fetched value is the one the scan of the base table
    gave, or the one saved for the row from the base table, or lies within the statistics, so that a filter
    may skip the segment by the statistics of the base table and these. This includes rows that are NULL
    in the base table. *)
Theorem statistics_cover_reads tr s v vi scan result row :
  run (system_step base) initial_system tr s -> Forall statistics_event tr ->
  v ∈ running (timeline s) -> scanned base vi scan -> FetchUpdates v vi (segment s) scan = Some result ->
  row < STANDARD_VECTOR_SIZE ->
  vec_get result row = vec_get scan row \/ vec_get result row = base_value (base vi) row \/ covers (stats (segment s)) (vec_get result row).
Proof.
  intros Hrun Hst Hv Hs Hf Hrow. apply (run_forall _ statistics_event) in Hrun; [|done].
  destruct (run_simulation (fun s e s' => statistics_event e /\ system_step base s e s') (store_step base)
    (fun s a => related base s a /\ covered s a)) with (s := initial_system (T := T)) (a := initial_store (T := T)) (tr := tr) (s' := s)
    as (a & _ & Hrel & Hcov); [| |done|].
  - intros s1 a1 e s2 [Hrel Hcov] [He Hstep]. destruct (system_simulated base s1 a1 e s2 Hrel Hstep) as (a2 & Ha & Hrel2).
    exists a2. split_and!; [done..|]. by eapply covered_step.
  - split; [apply related_initial|]. by intros ? ? ? ? ?%elem_of_nil.
  - destruct (related_fetch_any base s a v vi scan result row Hrel Hv Hs Hf Hrow) as [->| ->]; [by left|right].
    clear -Hcov. specialize (Hcov vi row). induction (history a vi row) as [|[b x] h IH]; [by left|]. cbn.
    destruct (Sees v b); [right; apply (Hcov b); by left|]. apply IH. intros b' x' Hin. apply (Hcov b'). by right.
Qed.
End StatisticsTheorems.

(** ** Single infos *)

(** The binary search for a row of an info finds its position exactly when the row was updated. *)
Theorem find_updated_tuple_exact {VS : VectorSize} {T : Type} (info : UpdateInfo T) row i :
  wf_info info -> FindUpdatedTuple info row = Some i <-> tuples info !! i = Some row.
Proof.
  intros Hwf. unfold FindUpdatedTuple.
  pose proof (find_updated_spec (UpdateInfo.N info) info row 0 (UpdateInfo.N info) (wf_info_sorted _ Hwf) (Nat.le_refl _) ltac:(lia)) as Hf.
  assert (forall j, tuples info !! j = Some row -> 0 <= j < UpdateInfo.N info) as Hr.
  { intros j Hj%lookup_lt_Some. unfold UpdateInfo.N. lia. }
  specialize (Hf Hr). destruct (find_updated _ _ _ _ _) as [j|].
  - split; [by intros [= ->]|]. intros Hi. f_equal. by eapply sorted_lookup_inj; [apply Hwf|..].
  - split; [done|]. intros Hi. exfalso. apply Hf. by apply list_elem_of_lookup_2 in Hi.
Qed.

(** Merging an update into the infos of a vector: the root gets the new values on top of its own, the
    info of the transaction keeps what it has saved and adds the old values of the rows it lacks, both
    as sorted arrays without duplicates. *)
Theorem merge_update_exact {VS : VectorSize} {T : Type} `{ColumnTypeLaws T} (root node : UpdateInfo T) base_data update ids count sel rgs :
  wf_info root -> wf_info node ->
  let row := updated_row root ids sel rgs in
  StronglySorted lt (map row (seq 0 count)) ->
  Forall (fun r => r < STANDARD_VECTOR_SIZE) (map row (seq 0 count)) ->
  Nat.min (UpdateInfo.N root + count) STANDARD_VECTOR_SIZE <= UpdateInfo.max root -> STANDARD_VECTOR_SIZE <= UpdateInfo.max node ->
  let '(root', node') := MergeUpdateLoop root base_data node update ids count sel rgs in
  wf_info root' /\ wf_info node' /\
  info_map root' = kmap (map (fun i => (row i, at_ (format_data update) (get_index (format_sel update) (get_index sel i)))) (seq 0 count))
                   ∪ info_map root /\
  info_map node' = info_map node ∪
    kmap (map (fun i => (row i, default (data_value base_data (row i)) (info_map root !! row i))) (seq 0 count)).
Proof.
  intros Hr Hn row Hs Hb Hmr Hmn.
  destruct (law_merge root base_data node update ids count sel rgs Hr Hn Hs Hb Hmr Hmn) as (l1 & l2 & E & H1' & H2' & H3' & H4').
  cbn [merge_update_function data_functions] in E. rewrite E. done.
Qed.

(** [NextPowerOfTwo] is the least power of two that is not smaller, and throws exactly when that does not
    fit 64 bits; 0 gives 2. *)
Theorem next_power_of_two_exact v : (0 <= v < 2 ^ 64)%Z ->
  NextPowerOfTwo v = if (v =? 0)%Z then Ok 2%Z else if (v <=? 2 ^ 63)%Z then Ok (2 ^ Z.log2_up v)%Z
                     else Throw (OutOfRangeException "Can't find next power of 2 for %llu").
Proof. intros Hv. destruct (Z.eqb_spec v 0) as [->|]; [done|]. apply next_power_of_two_spec. lia. Qed.

(** The statistics of the validity column read the update's mask at the first positions instead of the
    selected ones: an update whose selection points past NULLs can leave the statistics without the
    values it writes. *)
Theorem validity_statistics_ignore_selection : exists (update : UnifiedVectorFormat bool) (count : nat),
  (forall i, i < count -> RowIsValid (format_validity update) (get_index (format_sel update) i) = true) /\
  has_no_null (UpdateValidityStatistics empty_stats update count).1.1 = false.
Proof.
  exists (mkUnified (Some [2; 3]) [] (SetInvalid 1 (SetInvalid 0 (empty_mask 4)))), 2. split; [|vm_compute; reflexivity].
  intros [|[|i]] Hi; [reflexivity|reflexivity|lia].
Qed.

(** ** A run *)

Module SampleRun.
Import Sample.

Abbreviation sys t s := (mkSystem t s).
Definition timeline2 : Timeline := commit_timeline (transaction_id first_writer) 3 timeline1.
Definition timeline3 : Timeline := commit_timeline (transaction_id second_writer) 4 timeline2.
Definition timeline4 : Timeline := raise_timeline 5 timeline3.
Definition timeline5 : Timeline := cleanup_timeline (transaction_id first_writer) timeline4.
Definition segment5 : UpdateSegment Z := Eval vm_compute in CommitUpdates (transaction_id second_writer) 4 segment4.
Definition segment6 : UpdateSegment Z := Eval vm_compute in after (CleanupUpdates (transaction_id first_writer) segment5).

Definition quiet_events : list (event (T := Z) (Vec := FlatVector Z)) := [Committed first_writer 3].
Definition opening_events : list (event (T := Z) (Vec := FlatVector Z)) :=
  [Began first_writer; Began second_writer; Updated first_writer first_request; Conflicted second_writer second_request;
   Updated second_writer third_request].
Definition closing_events : list (event (T := Z) (Vec := FlatVector Z)) :=
  [Fetched second_writer 1 result3; Committed second_writer 4; Raised 5; CleanedUp (transaction_id first_writer)].

Lemma request_ok_sample r : r ∈ [first_request; second_request; third_request] -> request_ok r.
Proof.
  intros Hr. split.
  - by repeat (apply elem_of_cons in Hr as [->|Hr]; [split; vm_compute; (done || (split; congruence))|]); apply elem_of_nil in Hr.
  - intros i Hi. repeat (apply elem_of_cons in Hr as [->|Hr];
      [vm_compute in Hi; repeat (apply elem_of_cons in Hi as [->|Hi]; [vm_compute; split; congruence|]); by apply elem_of_nil in Hi|]).
    by apply elem_of_nil in Hr.
Qed.

Lemma base_scanned vi : scanned base vi (base vi).
Proof. split; [done|]. intros row Hr _. cbn. unfold data_value. cbn. done. Qed.

Lemma opening_run : run (system_step base) initial_system opening_events (sys timeline1 segment3).
Proof.
  change opening_events with ((((([] ++ [Began first_writer]) ++ [Began second_writer]) ++ [Updated first_writer first_request])
    ++ [Conflicted second_writer second_request]) ++ [Updated second_writer third_request] : list (event (T := Z) (Vec := FlatVector Z))).
  eapply (run_snoc _ _ (sys timeline1 segment2)).
  - eapply (run_snoc _ _ (sys timeline1 segment1)).
    + eapply (run_snoc _ _ (sys timeline1 initial_segment)).
      * eapply (run_snoc _ _ (sys (begin_timeline first_writer initial_timeline) initial_segment)).
        -- eapply (run_snoc _ _ initial_system); [constructor|]. apply system_begin. split_and!; [split|..]; vm_compute; (done || (split; congruence) || congruence).
        -- apply system_begin. split_and!; [split|..]; vm_compute; (done || (split; congruence) || congruence).
      * apply system_update; [right; left|apply request_ok_sample; left|vm_compute; reflexivity].
    + eapply system_conflict; [left|apply request_ok_sample; right; left|vm_compute; reflexivity].
  - apply system_update; [left|apply request_ok_sample; right; right; left|vm_compute; reflexivity].
Qed.

Lemma quiet_run : run (system_step base) (sys timeline1 segment3) quiet_events (sys timeline2 segment4).
Proof.
  change quiet_events with ([] ++ [Committed first_writer 3] : list (event (T := Z) (Vec := FlatVector Z))).
  eapply run_snoc; [constructor|].
  apply (system_commit base timeline1 segment3 first_writer 3); [right; left|]. vm_compute. split; congruence.
Qed.

Lemma run_app {S E : Type} (step : S -> E -> S -> Prop) s1 tr1 s2 tr2 s3 : run step s1 tr1 s2 -> run step s2 tr2 s3 ->
  run step s1 (tr1 ++ tr2) s3.
Proof.
  intros H1 H2. induction H2 as [s|s s' s'' tr e _ IH Hstep]; [by rewrite app_nil_r|].
  rewrite app_assoc. eapply run_snoc; [by apply IH|done].
Qed.

Lemma closing_run : run (system_step base) (sys timeline2 segment4) closing_events (sys timeline5 segment6).
Proof.
  change closing_events with (((([] ++ [Fetched second_writer 1 result3]) ++ [Committed second_writer 4]) ++ [Raised 5])
    ++ [CleanedUp (transaction_id first_writer)] : list (event (T := Z) (Vec := FlatVector Z))).
  eapply (run_snoc _ _ (sys timeline4 segment5)).
  - eapply (run_snoc _ _ (sys timeline3 segment5)).
    + eapply (run_snoc _ _ (sys timeline2 segment4)).
      * eapply run_snoc; [constructor|]. eapply (system_fetch base timeline2 segment4 second_writer 1 (base 1)); [left|apply base_scanned|vm_compute; reflexivity].
      * apply (system_commit base timeline2 segment4 second_writer 4); [left|]. vm_compute. split; congruence.
    + apply system_raise. split; [vm_compute; split; congruence|]. by intros v ?%elem_of_nil.
  - eapply (system_cleanup base timeline4 segment5 segment6 (transaction_id first_writer) 3); [right; left|reflexivity|vm_compute; reflexivity].
Qed.

Lemma whole_run : run (system_step base) initial_system (opening_events ++ quiet_events ++ closing_events) (sys timeline5 segment6).
Proof. eapply run_app; [apply opening_run|]. eapply run_app; [apply quiet_run|apply closing_run]. Qed.

Lemma updates_refine_versions_witness :
  run (system_step base) initial_system (opening_events ++ quiet_events ++ closing_events) (sys timeline5 segment6) /\
  exists a, run (store_step base) initial_store (opening_events ++ quiet_events ++ closing_events) a /\
    store_timeline a = timeline5.
Proof. split; [apply whole_run|]. apply (updates_refine_versions base _ (sys timeline5 segment6)), whole_run. Defined.

Lemma updates_never_stuck_witness : is_Some (RollbackUpdates (T := Z) (transaction_id first_writer) segment3) /\
  exists seg', CleanupUpdates (T := Z) (transaction_id first_writer) segment5 = Some seg'.
Proof.
  split; [|by exists segment6].
  apply (updates_never_stuck base _ _ opening_run). right. left.
Defined.

Lemma conflicts_exact_witness : exists a, run (store_step base) initial_store opening_events a /\
  exists i, i ∈ request_positions second_request /\ ~ seen_by second_writer (history a 1 (request_row second_request i)).
Proof.
  destruct (conflicts_exact base _ _ opening_run) as (a & Ha & Hc). exists a. split; [exact Ha|].
  apply (Hc second_writer second_request); [left|apply request_ok_sample; right; left|].
  eexists. vm_compute. reflexivity.
Defined.

Lemma one_writer_per_row_witness : exists a, run (store_step base) initial_store opening_events a /\
  forall x, (transaction_id second_writer, x) ∉ history a 1 0 \/ forall y, (transaction_id first_writer, y) ∉ history a 1 0.
Proof.
  destruct (one_writer_per_row base _ _ opening_run) as (a & Ha & Hw). exists a. split; [exact Ha|]. intros x.
  destruct (decide ((transaction_id second_writer, x) ∈ history a 1 0)) as [Hx|]; [right|by left]. intros y Hy.
  assert (second_writer = first_writer) as E; [|discriminate E].
  apply (Hw 1 0 second_writer first_writer x y); [vm_compute; lia|left|right; left|exact Hx|exact Hy].
Defined.

Lemma snapshot_reads_repeat_witness :
  FetchUpdates second_writer 1 segment3 (base 1) <> None /\ FetchUpdates second_writer 1 segment4 (base 1) = Some result3 /\
  at_ (flat_data (default (base 1) (FetchUpdates second_writer 1 segment3 (base 1)))) 0 = at_ (flat_data result3) 0.
Proof.
  split; [vm_compute; discriminate|]. split; [vm_compute; reflexivity|].
  apply (snapshot_reads_repeat base opening_events (sys timeline1 segment3) quiet_events (sys timeline2 segment4)
    second_writer 1 (base 1) (base 1) (default (base 1) (FetchUpdates second_writer 1 segment3 (base 1))) result3 0
    opening_run quiet_run).
  - left.
  - constructor; [vm_compute; discriminate|constructor].
  - apply base_scanned.
  - vm_compute. reflexivity.
  - apply base_scanned.
  - vm_compute. reflexivity.
  - vm_compute. lia.
  - reflexivity.
Defined.

Definition segment7 : UpdateSegment Z := Eval vm_compute in segment_of (run_update base second_writer third_request segment3).

Lemma own_writes_read_witness : exists j, j ∈ request_positions third_request /\ request_row third_request j = 1 /\
  vec_get (default (base 1) (FetchUpdates second_writer 1 segment7 (base 1))) 1 = update_value (request_update third_request) j.
Proof.
  apply (own_writes_read base opening_events (sys timeline1 segment3) second_writer third_request segment7 (base 1)
    (default (base 1) (FetchUpdates second_writer 1 segment3 (base 1)))
    (default (base 1) (FetchUpdates second_writer 1 segment7 (base 1))) 1 opening_run).
  - left.
  - apply request_ok_sample. right. right. left.
  - vm_compute. reflexivity.
  - apply base_scanned.
  - vm_compute. reflexivity.
  - vm_compute. reflexivity.
  - vm_compute. lia.
  - reflexivity.
  - exists 0. split; [vm_compute; left|reflexivity].
Defined.

(** Rows 5, 6 and 1 of the column. *)
Lemma point_lookups_agree_witness :
  exists res, FetchRows second_writer [5; 6; 1] None 3 12 segment3 (mkFlat [101; 102; 1; 0]%Z (empty_mask 4)) 0 = Some res /\
  match res with
  | Ok found => at_ (flat_data found) 0 = 6%Z
  | Throw e => False
  end.
Proof.
  destruct (point_lookups_agree base opening_events (sys timeline1 segment3) second_writer [5; 6; 1] None 3 12
    (mkFlat [101; 102; 1; 0]%Z (empty_mask 4)) 0 4 opening_run ltac:(left) eq_refl ltac:(lia)) as (res & E & Hres).
  exists res. split; [exact E|]. destruct res as [found|e].
  - destruct Hres as [_ Hval]. etransitivity.
    + apply (Hval 0 (base 1) (default (base 1) (FetchUpdates second_writer 1 segment3 (base 1))));
        [lia|apply base_scanned|vm_compute; reflexivity|vm_compute; reflexivity].
    + vm_compute. reflexivity.
  - destruct Hres as (_ & _ & k & Hk & Hgt). destruct k as [|[|[|k]]]; [vm_compute in Hgt; lia..|lia].
Defined.

Lemma committed_range_newest_witness : exists a, run (store_step base) initial_store opening_events a /\
  newest_at base (history a) 5 = 6%Z.
Proof.
  destruct (committed_range_newest base _ _ opening_run) as (a & Ha & Hr). exists a. split; [exact Ha|].
  destruct (Hr 5 2 4 (mkFlat [101; 102; 0; 0]%Z (empty_mask 4)) ltac:(lia) eq_refl) as (result' & E & Hval & _).
  etransitivity; [symmetry; exact (Hval 0 ltac:(lia) eq_refl)|]. vm_compute in E. injection E as <-. reflexivity.
Defined.

Lemma revert_commit_exact_witness :
  RevertCommitUpdates (T := Z) (transaction_id first_writer) (CommitUpdates (transaction_id first_writer) 3 segment3) = segment3 /\
  CommitUpdates (T := Z) (transaction_id first_writer) 3 segment3 <> segment3.
Proof.
  split; [|vm_compute; discriminate].
  apply (revert_commit_exact base opening_events (sys timeline1 segment3) first_writer 3 opening_run). right. left.
Defined.

Lemma segment_memory_shape_witness : GetUpdateNode 1 segment3 = Some 1%positive /\
  exists R l, infos segment3 !! 1%positive = Some R /\ linked (infos segment3) 1 l /\ l = [3; 2]%positive.
Proof.
  split; [reflexivity|].
  destruct (segment_memory_shape base opening_events (sys timeline1 segment3) 1 1 opening_run eq_refl) as (R & l & HR & Hl & _ & _ & _).
  exists R, l. split; [exact HR|]. split; [exact Hl|]. destruct Hl as [_ (q & _ & n & Hn & Hd)].
  vm_compute in Hn. injection Hn as <-. destruct l as [|a l]; [by destruct Hd|]. destruct Hd as ([= <-] & n & Hn & Hd).
  vm_compute in Hn. injection Hn as <-. destruct l as [|a l]; [by destruct Hd|]. destruct Hd as ([= <-] & n & Hn & Hd).
  vm_compute in Hn. injection Hn as <-. destruct l as [|a l]; [reflexivity|]. by destruct Hd.
Defined.

#[local] Instance z_order : ColumnOrder Z.
Proof.
  split; cbn.
  - apply Z.ltb_irrefl.
  - intros x y z. rewrite !Z.ltb_ge. lia.
  - intros x y. rewrite Z.ltb_lt, Z.ltb_ge. lia.
Qed.

Lemma statistics_cover_reads_witness :
  vec_get result3 1 = vec_get (base 1) 1 \/ vec_get result3 1 = base_value (base 1) 1 \/ covers (stats segment4) (vec_get result3 1).
Proof.
  apply (statistics_cover_reads base (opening_events ++ quiet_events) (sys timeline2 segment4) second_writer 1 (base 1) result3 1).
  - eapply run_app; [apply opening_run|apply quiet_run].
  - repeat (constructor; [exact I|]). constructor.
  - left.
  - apply base_scanned.
  - vm_compute. reflexivity.
  - vm_compute. lia.
Defined.

Definition sample_info : UpdateInfo Z := mkInfo 0 0 MAX_COMMIT_ID 1 8 [0; 2; 3] [9; 8; 7]%Z None None.
Definition sample_node : UpdateInfo Z := mkInfo 0 0 TRANSACTION_ID_START 1 4 [2] [102]%Z None None.

Lemma wf_sample_info : wf_info sample_info /\ wf_info sample_node.
Proof.
  split; split; [repeat constructor; cbn; lia|reflexivity|repeat constructor; cbn; lia|vm_compute; lia| | | |];
    [repeat constructor|reflexivity|repeat constructor; cbn; lia|vm_compute; lia].
Qed.

Lemma find_updated_tuple_exact_witness : FindUpdatedTuple sample_info 3 = Some 2.
Proof. apply (find_updated_tuple_exact sample_info 3 2 (proj1 wf_sample_info)). reflexivity. Defined.

(** Rows 1 and 2 of the vector get the values 5 and 6. *)
Lemma merge_update_exact_witness :
  info_map (MergeUpdateLoop sample_info (base 1) sample_node (flat [5; 6]%Z) [5; 6]%Z 2 None 0).2 !! 1 = Some 101%Z /\
  info_map (MergeUpdateLoop sample_info (base 1) sample_node (flat [5; 6]%Z) [5; 6]%Z 2 None 0).1 !! 2 = Some 6%Z.
Proof.
  pose proof (merge_update_exact sample_info sample_node (base 1) (flat [5; 6]%Z) [5; 6]%Z 2 None 0
    (proj1 wf_sample_info) (proj2 wf_sample_info)) as Hm.
  specialize (Hm ltac:(vm_compute; repeat constructor) ltac:(vm_compute; repeat constructor) ltac:(vm_compute; lia) ltac:(vm_compute; lia)).
  destruct (MergeUpdateLoop _ _ _ _ _ _ _ _) as [root' node']. destruct Hm as (_ & _ & H1 & H2). cbn [fst snd].
  rewrite H1, H2. split; vm_compute; reflexivity.
Defined.

Lemma next_power_of_two_exact_witness : NextPowerOfTwo 5 = Ok 8%Z.
Proof. rewrite (next_power_of_two_exact 5); [reflexivity|lia]. Defined.
End SampleRun.
