(* ===== verification/UndoBuffer.v ===== *)
(** * The undo buffer of a transaction

    Models [transaction/undo_buffer_allocator.hpp/.cpp] and [transaction/undo_buffer.hpp/.cpp] on bytes:
    blocks of memory in a doubly linked list, entries with an eight-byte header, and the iterations of
    commit, revert, rollback and cleanup over them, with callbacks and pins that can throw. *)

From S2P Require Import Prelude Snapshot ValidityMask UpdateInfo UpdateSegment TransactionManager.

Local Open Scope nat_scope.

(** ** The allocator *)

(** What the buffer manager gives: the size of its blocks, and memory with arbitrary contents. *)
Class BufferManager := {
  GetBlockSize : nat;
  fresh_memory : nat -> list Z;
  fresh_length n : length (fresh_memory n) = n
}.

(** The outcome of pinning a block: it throws when memory is short. *)
Definition Pinning := positive -> result unit.

(** A block and a byte position in it. *)
Definition BufferPointer : Type := positive * nat.

(** [next] is the older block, [prev] the newer one. *)
Module UndoBufferEntry.
Record t := mk {
  memory : list Z;
  position : nat;
  capacity : nat;
  next : option positive;
  prev : option positive
}.

Definition set_memory (f : list Z -> list Z) (e : t) : t := mk (f (memory e)) (position e) (capacity e) (next e) (prev e).
Definition set_position (n : nat) (e : t) : t := mk (memory e) n (capacity e) (next e) (prev e).
Definition set_prev (p : option positive) (e : t) : t := mk (memory e) (position e) (capacity e) (next e) p.
End UndoBufferEntry.
Import (notations) UndoBufferEntry.

Record UndoBufferAllocator := mkAllocator {
  blocks : gmap positive UndoBufferEntry.t;
  next_block : positive;
  head : option positive;
  tail : option positive
}.

Definition empty_allocator : UndoBufferAllocator := mkAllocator ∅ 1 None None.

Definition alter_block (f : UndoBufferEntry.t -> UndoBufferEntry.t) (p : positive) (a : UndoBufferAllocator) :=
  mkAllocator (alter f p (blocks a)) (next_block a) (head a) (tail a).

(** Little-endian memory accesses: [Store<uint32_t>], [Load<uint32_t>]. *)
Definition store_bytes (position : nat) (bytes memory : list Z) : list Z :=
  take position memory ++ bytes ++ drop (position + length bytes) memory.
Definition store32 (position : nat) (value : Z) : list Z -> list Z := store_bytes position (Stream.le_bytes 4 (u32 value)).
Definition load32 (position : nat) (memory : list Z) : Z := Stream.le_value (take 4 (drop position memory)).

Section Allocator.
Context `{BufferManager}.

Definition block_capacity (has_head : bool) (alloc_len : nat) : result nat :=
  let capacity := if negb has_head && (alloc_len <=? 4096) then 4096 else GetBlockSize in
  if capacity <? alloc_len then capacity ← NextPowerOfTwo (Z.of_nat alloc_len); Ok (Z.to_nat capacity)
  else Ok capacity.

(** A new block in front of the chain. *)
Definition push_block (capacity : nat) (a : UndoBufferAllocator) : positive * UndoBufferAllocator :=
  let p := next_block a in
  let entry := UndoBufferEntry.mk (fresh_memory capacity) 0 capacity (head a) None in
  let bs := match head a with
            | Some h => alter (UndoBufferEntry.set_prev (Some p)) h (blocks a)
            | None => blocks a
            end in
  let tail := match head a with Some _ => tail a | None => Some p end in
  (p, mkAllocator (<[p := entry]> bs) (Pos.succ p) (Some p) tail).

(** [current_position = head->position; head->position += alloc_len] *)
Definition take_space (alloc_len : nat) (p : positive) (a : UndoBufferAllocator)
    : option (BufferPointer * UndoBufferAllocator) :=
  e ← blocks a !! p;
  let current_position := UndoBufferEntry.position e in
  Some ((p, current_position), alter_block (UndoBufferEntry.set_position (current_position + alloc_len)) p a).

(** [None] is a dangling block pointer. *)
Definition Allocate (pin : Pinning) (alloc_len : nat) (a : UndoBufferAllocator)
    : option (result BufferPointer * UndoBufferAllocator) :=
  let new_block :=
    match block_capacity (bool_decide (is_Some (head a))) alloc_len with
    | Throw e => Some (Throw e, a)
    | Ok capacity =>
        let '(p, a) := push_block capacity a in
        '(ptr, a) ← take_space alloc_len p a; Some (Ok ptr, a)
    end in
  match head a with
  | None => new_block
  | Some h =>
      e ← blocks a !! h;
      if UndoBufferEntry.capacity e <? UndoBufferEntry.position e + alloc_len then new_block
      else match pin h with
           | Throw e => Some (Throw e, a)
           | Ok _ => '(ptr, a) ← take_space alloc_len h a; Some (Ok ptr, a)
           end
  end.
End Allocator.

(** ** Entries (common/enums/undo_flags.hpp) *)

Inductive UndoFlags :=
  | EMPTY_ENTRY | CATALOG_ENTRY | INSERT_TUPLE | DELETE_TUPLE | UPDATE_TUPLE | SEQUENCE_VALUE | ATTACHED_DATABASE.

Definition flag_value (f : UndoFlags) : Z :=
  match f with
  | EMPTY_ENTRY => 0 | CATALOG_ENTRY => 1 | INSERT_TUPLE => 2 | DELETE_TUPLE => 3 | UPDATE_TUPLE => 4
  | SEQUENCE_VALUE => 5 | ATTACHED_DATABASE => 6
  end.

Definition UNDO_ENTRY_HEADER_SIZE : nat := 8.

(** [AlignValue<idx_t>]: up to a multiple of eight. *)
Definition AlignValue (n : nat) : nat := (n + 7) / 8 * 8.

Record UndoBuffer := mkUndoBuffer { allocator : UndoBufferAllocator; cleaned_up_entries : nat }.
Definition new_undo_buffer : UndoBuffer := mkUndoBuffer empty_allocator 0.

Definition on_block (p : positive) (f : list Z -> list Z) (b : UndoBuffer) : UndoBuffer :=
  mkUndoBuffer (alter_block (UndoBufferEntry.set_memory f) p (allocator b)) (cleaned_up_entries b).

(** The caller of [CreateEntry] and the operations on the entry write its payload through the handle. *)
Definition WritePayload (ptr : BufferPointer) (offset : nat) (bytes : list Z) (b : UndoBuffer) : UndoBuffer :=
  on_block ptr.1 (store_bytes (ptr.2 + offset) bytes) b.

Definition CreateEntry `{BufferManager} (pin : Pinning) (type : UndoFlags) (len : nat) (b : UndoBuffer)
    : option (result BufferPointer * UndoBuffer) :=
  let alloc_len := AlignValue (len + UNDO_ENTRY_HEADER_SIZE) in
  '(handle, a) ← Allocate pin alloc_len (allocator b);
  let b := mkUndoBuffer a (cleaned_up_entries b) in
  match handle with
  | Throw e => Some (Throw e, b)
  | Ok (p, position) =>
      let b := on_block p (store32 position (flag_value type)) b in
      let b := on_block p (store32 (position + 4) (Z.of_nat (alloc_len - UNDO_ENTRY_HEADER_SIZE))) b in
      Some (Ok (p, position + UNDO_ENTRY_HEADER_SIZE), b)
  end.

Definition ChangesMade (b : UndoBuffer) : bool := bool_decide (is_Some (head (allocator b))).

(** ** Iterating *)

(** [start] and [end_] are offsets into the block of [handle]. *)
Record IteratorState := mkIterator {
  handle : option positive;
  current : option positive;
  start : nat;
  end_ : nat;
  started : bool
}.
Definition new_iterator : IteratorState := mkIterator None None 0 0 false.

(** A callback reads the flags and the payload of an entry and changes a state of its own; when it
    throws, the changes it made so far stay. *)
Definition Callback (A : Type) := Z -> BufferPointer -> A -> result unit * A.

Section Iterating.
Context {A : Type}.
Implicit Types (callback : Callback A) (acc : A) (a : UndoBufferAllocator).

(** The entries of one block. An entry has at least its header, so one turn per byte is enough. *)
Fixpoint iterate_block (fuel : nat) (p : positive) (memory : list Z) callback (start end_ : nat) acc
    : result unit * nat * A :=
  match fuel with
  | O => (Ok tt, start, acc)
  | S fuel' =>
      if start <? end_ then
        let len_position := start + 4 in
        let payload_position := len_position + 4 in
        let type := load32 start memory in
        let len := load32 len_position memory in
        let '(r, acc) := callback type (p, payload_position) acc in
        match r with
        | Throw e => (Throw e, start, acc)
        | Ok _ => iterate_block fuel' p memory callback (payload_position + Z.to_nat len) end_ acc
        end
      else (Ok tt, start, acc)
  end.

(** From [state.current] to the newest block; a chain has no more blocks than there are. *)
Fixpoint iterate_blocks (fuel : nat) (pin : Pinning) a callback (state : IteratorState) acc
    : option (result unit * IteratorState * A) :=
  match current state with
  | None => Some (Ok tt, state, acc)
  | Some p =>
      match fuel with
      | O => None
      | S fuel' =>
          e ← blocks a !! p;
          match pin p with
          | Throw ex => Some (Throw ex, state, acc)
          | Ok _ =>
              let n := UndoBufferEntry.position e in
              let '(r, start, acc) := iterate_block n p (UndoBufferEntry.memory e) callback 0 n acc in
              match r with
              | Throw ex => Some (Throw ex, mkIterator (Some p) (Some p) start n true, acc)
              | Ok _ => iterate_blocks fuel' pin a callback
                          (mkIterator (Some p) (UndoBufferEntry.prev e) start n true) acc
              end
          end
      end
  end.

Definition IterateEntries (pin : Pinning) callback (state : IteratorState) (b : UndoBuffer) acc
    : option (result unit * IteratorState * A) :=
  iterate_blocks (size (blocks (allocator b))) pin (allocator b) callback
    (mkIterator (handle state) (tail (allocator b)) (start state) (end_ state) true) acc.

(** Calls the callback on each entry of a list, up to the first one that throws: the outcome and how
    many calls returned. *)
Fixpoint run_entries callback (l : list (Z * BufferPointer)) acc : result unit * nat * A :=
  match l with
  | [] => (Ok tt, 0, acc)
  | (type, data) :: l' =>
      let '(r, acc) := callback type data acc in
      match r with
      | Throw e => (Throw e, 0, acc)
      | Ok _ => let '(r, n, acc) := run_entries callback l' acc in (r, S n, acc)
      end
  end.

(** [nodes]: the entries of a block up to [end_]. *)
Fixpoint collect_nodes (fuel : nat) (p : positive) (memory : list Z) (start end_ : nat) : list (Z * BufferPointer) :=
  match fuel with
  | O => []
  | S fuel' =>
      if start <? end_ then
        let type := load32 start memory in
        let len := load32 (start + 4) memory in
        (type, (p, start + 4 + 4)) :: collect_nodes fuel' p memory (start + 4 + 4 + Z.to_nat len) end_
      else []
  end.

Fixpoint reverse_blocks (fuel : nat) (pin : Pinning) a callback (end_state : IteratorState) (end_position : nat)
    (cur : option positive) acc : option (result unit * A) :=
  match cur with
  | None => Some (Ok tt, acc)
  | Some p =>
      match fuel with
      | O => None
      | S fuel' =>
          e ← blocks a !! p;
          match pin p with
          | Throw ex => Some (Throw ex, acc)
          | Ok _ =>
              let n := if bool_decide (current end_state = Some p) then end_position else UndoBufferEntry.position e in
              let nodes := collect_nodes n p (UndoBufferEntry.memory e) 0 n in
              let '(r, _, acc) := run_entries callback (rev nodes) acc in
              match r with
              | Throw ex => Some (Throw ex, acc)
              | Ok _ => reverse_blocks fuel' pin a callback end_state end_position (UndoBufferEntry.next e) acc
              end
          end
      end
  end.

Definition ReverseIterateFrom (pin : Pinning) callback (end_state : IteratorState) (b : UndoBuffer) acc
    : option (result unit * A) :=
  let a := allocator b in
  if negb (started end_state) then Some (Ok tt, acc)
  else match current end_state with
       | None => reverse_blocks (size (blocks a)) pin a callback end_state 0 (head a) acc
       | Some p =>
           match handle end_state with
           | None => Some (Throw pointer_not_set, acc)
           | Some _ => reverse_blocks (size (blocks a)) pin a callback end_state (start end_state) (Some p) acc
           end
       end.

Definition ReverseIterateEntries (pin : Pinning) callback (b : UndoBuffer) acc : option (result unit * A) :=
  ReverseIterateFrom pin callback (mkIterator None None 0 0 true) b acc.

(** ** The operations: the callbacks are the entry functions of [CommitState], [RollbackState] and
    [CleanupState] *)

Definition Commit (pin : Pinning) (CommitEntry : Callback A) (iterator_state : IteratorState) (b : UndoBuffer) acc :=
  IterateEntries pin CommitEntry iterator_state b acc.

Definition RevertCommit (pin : Pinning) (RevertEntry : Callback A) (end_state : IteratorState) (b : UndoBuffer) acc :=
  ReverseIterateFrom pin RevertEntry end_state b acc.

Definition Rollback (pin : Pinning) (RollbackEntry : Callback A) (b : UndoBuffer) acc :=
  ReverseIterateEntries pin RollbackEntry b acc.
End Iterating.

(** [entry_idx], [cleaned_up_entries] and the state of the entries. *)
Definition cleanup_callback {A} (CleanupEntry : Callback A) : Callback (nat * nat * A) :=
  fun type data '(entry_idx, cleaned_up, acc) =>
    if entry_idx <? cleaned_up then (Ok tt, (S entry_idx, cleaned_up, acc))
    else
      let '(r, acc) := CleanupEntry type data acc in
      match r with
      | Throw e => (Throw e, (S entry_idx, cleaned_up, acc))
      | Ok _ => (Ok tt, (S entry_idx, S cleaned_up, acc))
      end.

Definition Cleanup {A} (pin : Pinning) (CleanupEntry : Callback A) (b : UndoBuffer) (acc : A)
    : option (result unit * UndoBuffer * A) :=
  '(r, _, (_, cleaned_up, acc)) ←
    IterateEntries pin (cleanup_callback CleanupEntry) new_iterator b (0, cleaned_up_entries b, acc);
  Some (r, mkUndoBuffer (allocator b) cleaned_up, acc).

(** ** [GetProperties] *)

(** What it reads of the payload of a delete and of a catalog entry. *)
Record DeleteShape := mkDeleteShape { shape_consecutive : bool; shape_count : Z; shape_indexes : bool }.
Inductive CatalogShape := DeletedParent | IndexParent (initial_index_size : Z) | OtherParent.

Section Properties.
Context (delete_at : BufferPointer -> DeleteShape) (catalog_at : BufferPointer -> CatalogShape).

Definition entry_properties : Callback UndoBufferProperties := fun type data properties =>
  let '(mkUndoProperties estimated_size has_updates has_deletes has_index_deletes has_catalog_changes has_dropped_entries)
    := properties in
  (Ok tt,
   if (type =? flag_value UPDATE_TUPLE)%Z
   then mkUndoProperties estimated_size true has_deletes has_index_deletes has_catalog_changes has_dropped_entries
   else if (type =? flag_value DELETE_TUPLE)%Z
   then
     let info := delete_at data in
     mkUndoProperties
       (if shape_consecutive info then u64 (estimated_size + u64 (8 * shape_count info)) else estimated_size)
       has_updates true (shape_indexes info || has_index_deletes) has_catalog_changes has_dropped_entries
   else if (type =? flag_value CATALOG_ENTRY)%Z
   then match catalog_at data with
        | DeletedParent => mkUndoProperties estimated_size has_updates has_deletes has_index_deletes true true
        | IndexParent size =>
            mkUndoProperties (u64 (estimated_size + size)) has_updates has_deletes has_index_deletes true has_dropped_entries
        | OtherParent =>
            mkUndoProperties estimated_size has_updates has_deletes has_index_deletes true has_dropped_entries
        end
   else properties).

Fixpoint sum_positions (fuel : nat) (a : UndoBufferAllocator) (node : option positive) (estimated_size : Z) : option Z :=
  match node with
  | None => Some estimated_size
  | Some p =>
      match fuel with
      | O => None
      | S fuel' =>
          e ← blocks a !! p;
          sum_positions fuel' a (UndoBufferEntry.next e)
            (u64 (estimated_size + Z.of_nat (UndoBufferEntry.position e)))
      end
  end.

Definition GetProperties (pin : Pinning) (b : UndoBuffer) : option (result UndoBufferProperties) :=
  if negb (ChangesMade b) then Some (Ok no_undo)
  else
    let a := allocator b in
    size ← sum_positions (size (blocks a)) a (head a) 0;
    '(r, _, properties) ← IterateEntries pin entry_properties new_iterator b
                            (mkUndoProperties size false false false false false);
    Some (match r with Ok _ => Ok properties | Throw e => Throw e end).
End Properties.

(** ** Entries of updates

    The cases of [CommitState::CommitEntry], [CommitState::RevertCommit], [RollbackState::RollbackEntry]
    and [CleanupState::CleanupEntry] for [UPDATE_TUPLE], on the memory of a segment. The other cases
    work on other components; what is left of them here is whether the commit and its revert throw. *)

Definition table_modified_exception : exception :=
  TransactionException "Attempting to modify table %s but another transaction has %s this table".

Section UpdateEntries.
Context {T Vec : Type} `{SegmentFunctions T Vec}.
(** The info a payload is; whether the catalog has a newer version of its table that another transaction
    made; the outcome of committing, and of reverting the commit of, an entry of another kind. *)
Context (info_at : BufferPointer -> positive) (table_modified : BufferPointer -> bool).
Context (commit_other revert_other : Z -> BufferPointer -> result unit).

Definition is_update (type : Z) : bool := (type =? flag_value UPDATE_TUPLE)%Z.

Definition CommitEntry (commit_id : Z) : Callback (option (UpdateSegment T)) := fun type data seg =>
  if is_update type then
    if table_modified data then (Throw table_modified_exception, seg)
    else (Ok tt, CommitUpdate commit_id (info_at data) <$> seg)
  else (commit_other type data, seg).

Definition RevertEntry (transaction_id : Z) : Callback (option (UpdateSegment T)) := fun type data seg =>
  if is_update type then (Ok tt, CommitUpdate transaction_id (info_at data) <$> seg)
  else (revert_other type data, seg).

Definition RollbackEntry : Callback (option (UpdateSegment T)) := fun type data seg =>
  (Ok tt, if is_update type then seg ≫= RollbackUpdate (info_at data) else seg).

Definition CleanupEntry : Callback (option (UpdateSegment T)) := fun type data seg =>
  (Ok tt, if is_update type then seg ≫= CleanupUpdate (info_at data) else seg).
End UpdateEntries.
