(* ===== verification/UndoBufferFacts.v ===== *)
(** * The undo buffer: its representation and its operations

    [represents] relates the blocks of an allocator to the list of entries created in it, oldest
    first; creating an entry appends to the list, and the iterations visit it in order or in reverse. *)

From S2P Require Import Prelude Snapshot ValidityMask UpdateInfo UpdateSegment UpdateWrite TransactionManager UndoBuffer.

Local Open Scope nat_scope.

(** ** Bytes of a block *)

Section Bytes.
Implicit Types (memory bytes : list Z).

Lemma store_bytes_lookup position bytes memory i : position + length bytes <= length memory ->
  store_bytes position bytes memory !! i =
  if (position <=? i) && (i <? position + length bytes) then bytes !! (i - position) else memory !! i.
Proof.
  intros Hlen. unfold store_bytes.
  destruct (Nat.leb_spec position i); cbn [andb].
  - rewrite lookup_app_r by (rewrite length_take; lia). rewrite length_take, Nat.min_l by lia.
    destruct (Nat.ltb_spec i (position + length bytes)); [by rewrite lookup_app_l by lia|].
    rewrite lookup_app_r, lookup_drop by lia. f_equal. lia.
  - rewrite lookup_app_l by (rewrite length_take; lia). rewrite lookup_take. by destruct (decide (i < position)); [|lia].
Qed.

Lemma length_store_bytes position bytes memory : position + length bytes <= length memory ->
  length (store_bytes position bytes memory) = length memory.
Proof. intros. unfold store_bytes. rewrite !length_app, length_take, length_drop. lia. Qed.

Lemma load32_ext position memory memory' :
  (forall i, position <= i < position + 4 -> memory !! i = memory' !! i) -> load32 position memory = load32 position memory'.
Proof.
  intros Heq. unfold load32. f_equal. apply list_eq. intros i. rewrite !lookup_take, !lookup_drop.
  destruct (decide (i < 4)); [|done]. apply Heq. lia.
Qed.

Lemma load32_store_other position position' bytes memory : position' + length bytes <= length memory ->
  position + 4 <= position' \/ position' + length bytes <= position ->
  load32 position (store_bytes position' bytes memory) = load32 position memory.
Proof.
  intros Hlen Hd. apply load32_ext. intros i Hi. rewrite store_bytes_lookup by done.
  destruct (Nat.leb_spec position' i), (Nat.ltb_spec i (position' + length bytes)); cbn; done || lia.
Qed.

Lemma length_store32 position value memory : position + 4 <= length memory ->
  length (store32 position value memory) = length memory.
Proof. intros. apply length_store_bytes. by rewrite Stream.length_le_bytes. Qed.

Lemma store32_below position value memory i : position + 4 <= length memory -> i < position ->
  store32 position value memory !! i = memory !! i.
Proof.
  intros. unfold store32. rewrite store_bytes_lookup by by rewrite Stream.length_le_bytes.
  by destruct (Nat.leb_spec position i); [lia|].
Qed.

Lemma load32_store32 position value memory : position + 4 <= length memory -> (0 <= value < 2 ^ 32)%Z ->
  load32 position (store32 position value memory) = value.
Proof.
  intros Hlen Hv. unfold load32, store32, store_bytes. rewrite drop_app_length' by (rewrite length_take; lia).
  rewrite take_app_length' by by rewrite Stream.length_le_bytes.
  rewrite Stream.le_value_bytes; [by apply wrapu_small|]. rewrite wrapu_small; [|done].
  by change (256 ^ Z.of_nat 4)%Z with (2 ^ 32)%Z.
Qed.

Lemma load32_store32_other position position' value memory : position' + 4 <= length memory ->
  position + 4 <= position' \/ position' + 4 <= position ->
  load32 position (store32 position' value memory) = load32 position memory.
Proof. intros. apply load32_store_other; by rewrite Stream.length_le_bytes. Qed.
End Bytes.

(** ** The entries of a block *)

(** An entry that was created: its flags, the pointer to its payload and the payload's length. *)
Record Entry := mkEntry { entry_type : UndoFlags; entry_data : BufferPointer; entry_len : nat }.

(** What a callback is called with. *)
Definition visit (x : Entry) : Z * BufferPointer := (flag_value (entry_type x), entry_data x).

(** The bytes of [memory] from [s] to [e] are the entries [l] of block [p]. *)
Inductive parses (p : positive) (memory : list Z) : nat -> nat -> list Entry -> Prop :=
  | parses_nil s : parses p memory s s []
  | parses_cons s e x l :
      entry_data x = (p, s + 8) -> s + 8 + entry_len x <= e -> Nat.divide 8 (8 + entry_len x) ->
      load32 s memory = flag_value (entry_type x) -> load32 (s + 4) memory = Z.of_nat (entry_len x) ->
      parses p memory (s + 8 + entry_len x) e l -> parses p memory s e (x :: l).

Section Parses.
Context (p : positive).
Implicit Types (memory : list Z) (l : list Entry).

Lemma parses_le memory s e l : parses p memory s e l -> s <= e.
Proof. induction 1; lia. Qed.

Lemma parses_frame memory memory' s e l : (forall i, s <= i < e -> memory !! i = memory' !! i) ->
  parses p memory s e l -> parses p memory' s e l.
Proof.
  intros Heq Hp. induction Hp as [|s e x l Hx Hle Hdiv Hty Hlen Hp IH]; constructor; try done.
  - rewrite <- Hty. symmetry. apply load32_ext. intros i Hi. apply Heq. lia.
  - rewrite <- Hlen. symmetry. apply load32_ext. intros i Hi. apply Heq. lia.
  - apply IH. intros i Hi. apply Heq. lia.
Qed.

Lemma parses_app memory s m e l l' : parses p memory s m l -> parses p memory m e l' -> parses p memory s e (l ++ l').
Proof.
  induction 1 as [|s m x l Hx Hle Hdiv Hty Hlen Hp IH]; [done|]. intros Hl'. cbn.
  pose proof (parses_le _ _ _ _ Hl'). apply parses_cons; [done|lia|done..|by apply IH].
Qed.

Lemma parses_entry memory s e l n x : parses p memory s e l -> l !! n = Some x ->
  exists k, entry_data x = (p, k + 8) /\ s <= k /\ k + 8 + entry_len x <= e /\
    parses p memory s k (take n l) /\ parses p memory (k + 8 + entry_len x) e (drop (S n) l) /\
    Nat.divide 8 (8 + entry_len x) /\ load32 k memory = flag_value (entry_type x) /\
    load32 (k + 4) memory = Z.of_nat (entry_len x).
Proof.
  intros Hp. revert n. induction Hp as [|s e y l Hy Hle Hdiv Hty Hlen Hp IH]; intros n Hx; [done|].
  destruct n as [|n]; cbn in Hx.
  - injection Hx as <-. exists s. cbn. rewrite drop_0. split_and!; try done. constructor.
  - destruct (IH _ Hx) as (k & Hk & Hs & He & Hl & Hr & Hh). exists k. split; [done|].
    split; [lia|]. split; [done|]. split; [|done]. cbn. by apply parses_cons.
Qed.

Lemma parses_aligned memory s e l : Nat.divide 8 s -> parses p memory s e l ->
  Forall (fun x => Nat.divide 8 (entry_data x).2) l /\ Nat.divide 8 e.
Proof.
  intros Hs Hp. induction Hp as [|s e x l Hx Hle Hdiv Hty Hlen Hp IH]; [done|].
  destruct IH as [IHl IHe].
  { replace (s + 8 + entry_len x) with (s + (8 + entry_len x)) by lia. by apply Nat.divide_add_r. }
  split; [|done]. constructor; [|done]. rewrite Hx. cbn. apply Nat.divide_add_r; [done|]. by exists 1.
Qed.

(** Reading the entries up to [e]. *)
Lemma collect_parses memory s e l fuel : parses p memory s e l -> e - s <= fuel ->
  collect_nodes fuel p memory s e = map visit l.
Proof.
  intros Hp. revert fuel. induction Hp as [s|s e x l Hx Hle Hdiv Hty Hlen Hp IH]; intros fuel Hf.
  - destruct fuel; cbn [collect_nodes]; [done|]. destruct (Nat.ltb_spec s s); [lia|done].
  - destruct fuel as [|fuel]; [lia|]. cbn [collect_nodes map]. destruct (Nat.ltb_spec s e); [|lia].
    rewrite Hty, Hlen, Nat2Z.id. replace (s + 4 + 4 + entry_len x) with (s + 8 + entry_len x) by lia.
    rewrite IH by lia. replace (s + 4 + 4) with (s + 8) by lia. unfold visit at 2. by rewrite Hx.
Qed.
End Parses.

(** ** Runs of callbacks *)

Section Runs.
Context {A : Type} (callback : Callback A).

Lemma run_entries_app l l' acc : run_entries callback (l ++ l') acc =
  match run_entries callback l acc with
  | (Throw e, n, acc) => (Throw e, n, acc)
  | (Ok _, n, acc) => let '(r, m, acc) := run_entries callback l' acc in (r, n + m, acc)
  end.
Proof.
  revert acc. induction l as [|[type data] l IH]; intros acc; cbn.
  - by destruct (run_entries callback l' acc) as [[? ?] ?].
  - destruct (callback type data acc) as [[[]|e] acc']; [|done]. rewrite IH.
    destruct (run_entries callback l acc') as [[[u|e] n] acc'']; [|done].
    by destruct (run_entries callback l' acc'') as [[? ?] ?].
Qed.

Lemma run_entries_count l acc r n acc' : run_entries callback l acc = (r, n, acc') ->
  (r = Ok tt /\ n = length l) \/ (exists e, r = Throw e) /\ n < length l.
Proof.
  revert acc n. induction l as [|[type data] l IH]; intros acc n; cbn.
  - intros [= <- <- <-]. by left.
  - destruct (callback type data acc) as [[[]|e] acc1].
    + destruct (run_entries callback l acc1) as [[r1 n1] acc2] eqn:E. intros [= <- <- <-].
      destruct (IH _ _ E) as [[-> ->]|[[e ->] Hn]]; [by left|right; split; [by eexists|lia]].
    + intros [= <- <- <-]. right. split; [by eexists|lia].
Qed.

(** The offset at which an iteration of a block stands after [n] entries. *)
Definition entry_start (l : list Entry) (n e : nat) : nat :=
  match l !! n with Some x => (entry_data x).2 - 8 | None => e end.

Lemma iterate_block_parses p memory s e l fuel acc : parses p memory s e l -> e - s <= fuel ->
  iterate_block fuel p memory callback s e acc =
  let '(r, n, acc) := run_entries callback (map visit l) acc in (r, entry_start l n e, acc).
Proof.
  intros Hp. revert fuel acc. induction Hp as [s|s e x l Hx Hle Hdiv Hty Hlen Hp IH]; intros fuel acc Hf.
  - destruct fuel; cbn [iterate_block]; [done|]. by destruct (Nat.ltb_spec s s); [lia|].
  - destruct fuel as [|fuel]; [lia|]. cbn [iterate_block map run_entries visit].
    destruct (Nat.ltb_spec s e); [|lia]. rewrite Hty, Hlen, Nat2Z.id, Hx.
    replace (s + 4 + 4) with (s + 8) by lia.
    destruct (callback _ _ acc) as [[[]|ex] acc'].
    + rewrite IH by lia. by destruct (run_entries callback (map visit l) acc') as [[r n] acc''].
    + unfold entry_start. cbn. rewrite Hx. cbn. do 2 f_equal. lia.
Qed.

(** The callback behind the pin of the entry's block. *)
Definition pinned (pin : Pinning) : Callback A := fun type data acc =>
  match pin data.1 with Throw e => (Throw e, acc) | Ok _ => callback type data acc end.

Lemma run_pinned pin l acc : Forall (fun v => pin v.2.1 = Ok tt) l ->
  run_entries (pinned pin) l acc = run_entries callback l acc.
Proof.
  intros Hl. revert acc. induction Hl as [|[type data] l Hv Hl IH]; intros acc; [done|]. cbn. unfold pinned at 1. cbn in Hv.
  rewrite Hv. destruct (callback type data acc) as [[?|?] ?]; [|done]. by rewrite IH.
Qed.
End Runs.

(** ** The chain of blocks *)

(** A block with its entries, as the spec sees it; the oldest block comes first. *)
Abbreviation Block := (positive * list Entry)%type.

Definition log (bs : list Block) : list Entry := concat (map snd bs).

Record block_ok (p : positive) (e : UndoBufferEntry.t) (older newer : option positive) (l : list Entry) : Prop := {
  ok_next : UndoBufferEntry.next e = older;
  ok_prev : UndoBufferEntry.prev e = newer;
  ok_length : length (UndoBufferEntry.memory e) = UndoBufferEntry.capacity e;
  ok_position : UndoBufferEntry.position e <= UndoBufferEntry.capacity e;
  ok_parses : parses p (UndoBufferEntry.memory e) 0 (UndoBufferEntry.position e) l
}.

Record represents (a : UndoBufferAllocator) (bs : list Block) : Prop := {
  rep_head : head a = fst <$> last bs;
  rep_tail : tail a = fst <$> bs !! 0;
  rep_block i p l : bs !! i = Some (p, l) -> exists e, blocks a !! p = Some e /\
    block_ok p e (match i with O => None | S j => fst <$> bs !! j end) (fst <$> bs !! S i) l;
  rep_nodup : NoDup (map fst bs);
  rep_size : size (blocks a) = length bs;
  rep_fresh p : is_Some (blocks a !! p) -> (p < next_block a)%positive
}.

Lemma represents_empty : represents empty_allocator [].
Proof. constructor; try done; [constructor|]. intros p [? Hp]. cbn in Hp. by rewrite lookup_empty in Hp. Qed.

Lemma block_index (bs : list Block) i j p l l' : NoDup (map fst bs) ->
  bs !! i = Some (p, l) -> bs !! j = Some (p, l') -> i = j.
Proof.
  intros Hnd Hi Hj. eapply NoDup_lookup; [exact Hnd| |]; rewrite list_lookup_fmap.
  - by rewrite Hi.
  - by rewrite Hj.
Qed.

Lemma log_split (bs : list Block) i p l : bs !! i = Some (p, l) ->
  log bs = log (take i bs) ++ l ++ log (drop (S i) bs).
Proof.
  intros Hi. unfold log. rewrite <- (take_drop_middle _ _ _ Hi) at 1.
  by rewrite map_app, concat_app.
Qed.

Lemma log_take_S (bs : list Block) i p l : bs !! i = Some (p, l) -> log (take (S i) bs) = log (take i bs) ++ l.
Proof.
  intros Hi. unfold log. rewrite (take_S_r _ _ _ Hi), map_app, concat_app. cbn. by rewrite app_nil_r.
Qed.

Lemma log_drop_S (bs : list Block) i p l : bs !! i = Some (p, l) -> log (drop i bs) = l ++ log (drop (S i) bs).
Proof. intros Hi. unfold log. by rewrite (drop_S _ _ _ Hi). Qed.

(** Where an iteration stands after [n] entries. *)
Definition stopped (bs : list Block) (n : nat) (st : IteratorState) : Prop :=
  started st = true /\
  ((current st = None /\ n = length (log bs)) \/
   exists j p l k x, bs !! j = Some (p, l) /\ l !! k = Some x /\ current st = Some p /\ handle st = Some p /\
     start st = (entry_data x).2 - 8 /\ n = length (log (take j bs)) + k).

Lemma lookup_app_add {X} (l k : list X) i : (l ++ k) !! (length l + i) = k !! i.
Proof. rewrite lookup_app_r by lia. f_equal. lia. Qed.

(** A block without entries is pinned as well. *)
Definition empties_pin (pin : Pinning) (bs : list Block) : Prop :=
  forall i p, bs !! i = Some (p, []) -> pin p = Ok tt.

(** Every block has an entry. *)
Definition full (bs : list Block) : Prop := forall i p, bs !! i <> Some (p, []).

Section Iterations.
Context {A : Type} (callback : Callback A) (pin : Pinning).

Lemma block_pinned a bs i p l : represents a bs -> bs !! i = Some (p, l) -> Forall (fun x => (entry_data x).1 = p) l.
Proof.
  intros Hrep E. destruct (rep_block _ _ Hrep _ _ _ E) as (e & _ & []). apply Forall_lookup. intros k x Hx.
  destruct (parses_entry _ _ _ _ _ _ _ ok_parses0 Hx) as (s & -> & _). done.
Qed.

(** The entries of a block, once it is pinned; and of a block that cannot be pinned. *)
Lemma run_block_pinned p l acc : Forall (fun x => (entry_data x).1 = p) l -> pin p = Ok tt ->
  run_entries (pinned callback pin) (map visit l) acc = run_entries callback (map visit l) acc.
Proof.
  intros Hl Hp. apply run_pinned, Forall_map. eapply Forall_impl; [exact Hl|]. intros x Hx. cbn. by rewrite Hx.
Qed.

Lemma run_block_pinned_rev p l acc : Forall (fun x => (entry_data x).1 = p) l -> pin p = Ok tt ->
  run_entries (pinned callback pin) (rev (map visit l)) acc = run_entries callback (rev (map visit l)) acc.
Proof. intros Hl Hp. rewrite <- map_rev. apply (run_block_pinned p); [|done]. by apply Forall_rev. Qed.

Lemma run_block_unpinned p l acc ex : Forall (fun x => (entry_data x).1 = p) l -> pin p = Throw ex -> l <> [] ->
  run_entries (pinned callback pin) (map visit l) acc = (Throw ex, 0, acc).
Proof. intros Hl Hp. destruct Hl as [|x l Hx _]; [done|]. intros _. cbn. unfold pinned. by rewrite Hx, Hp. Qed.

Lemma iterate_blocks_spec a bs i st acc fuel r n acc' : represents a bs -> empties_pin pin bs ->
  started st = true -> current st = fst <$> bs !! i -> length bs - i <= fuel -> i <= length bs ->
  run_entries (pinned callback pin) (map visit (log (drop i bs))) acc = (r, n, acc') ->
  exists st', iterate_blocks fuel pin a callback st acc = Some (r, st', acc') /\
    ((forall x, log (drop i bs) !! n = Some x -> pin (entry_data x).1 = Ok tt) ->
     stopped bs (length (log (take i bs)) + n) st').
Proof.
  intros Hrep Hempty. revert i st acc r n acc'.
  induction fuel as [|fuel IH]; intros i st acc r n acc' Hst Hcur Hf Hi Hrun.
  all: destruct (bs !! i) as [[p l]|] eqn:E; cbn in Hcur; cbn [iterate_blocks]; rewrite Hcur.
  all: try (apply lookup_ge_None in E; rewrite drop_ge in Hrun by lia; cbn in Hrun; injection Hrun as <- <- <-;
    exists st; split; [done|]; intros _; split; [done|]; left; split; [done|]; rewrite take_ge by lia; lia).
  { apply lookup_lt_Some in E. lia. }
  pose proof (lookup_lt_Some _ _ _ E). pose proof (block_pinned _ _ _ _ _ Hrep E) as Hl.
  destruct (rep_block _ _ Hrep _ _ _ E) as (e & He & Hok). rewrite He. cbn [mbind option_bind].
  rewrite (log_drop_S _ _ _ _ E), map_app, run_entries_app in Hrun. rewrite (log_drop_S _ _ _ _ E).
  destruct (pin p) as [[]|exp] eqn:Ep.
  2:{ assert (Hne : l <> []) by (intros ->; pose proof (Hempty _ _ E); congruence).
    rewrite (run_block_unpinned p) with (ex := exp) in Hrun by done. injection Hrun as <- <- <-.
    eexists. split; [done|]. intros Hn. destruct Hl as [|x l Hx _]; [done|].
    specialize (Hn x eq_refl). congruence. }
  rewrite (run_block_pinned p) in Hrun by done.
  rewrite (iterate_block_parses callback _ _ _ _ l) by (try lia; by destruct Hok).
  destruct (run_entries callback (map visit l) acc) as [[r1 n1] acc1] eqn:E1.
  pose proof (run_entries_count _ _ _ _ _ _ E1) as Hc. rewrite length_map in Hc.
  destruct Hc as [[-> ->]|[[ex ->] Hn]].
  - destruct (run_entries (pinned callback pin) (map visit (log (drop (S i) bs))) acc1) as [[r2 n2] acc2] eqn:E2.
    injection Hrun as <- <- <-.
    set (st1 := mkIterator (Some p) _ _ _ _).
    destruct (IH (S i) st1 acc1 r2 n2 acc2) as (st' & Hit & Hstop); [done| |lia|lia|done|].
    { cbn. by apply (ok_prev _ _ _ _ _ Hok). }
    exists st'. split; [done|]. rewrite (log_take_S _ _ _ _ E), length_app in Hstop. rewrite Nat.add_assoc.
    intros Hx. apply Hstop. intros x. rewrite <- (lookup_app_add l). apply Hx.
  - injection Hrun as <- <- <-. eexists. split; [done|]. intros _. split; [done|]. right.
    destruct (lookup_lt_is_Some_2 _ _ Hn) as [x Hx].
    exists i, p, l, n1, x. unfold entry_start. by rewrite Hx.
Qed.

(** An iteration calls the callback on the entries in order, up to the first one that throws or whose
    block cannot be pinned. *)
Lemma iterate_pinned_spec b bs st acc r n acc' : represents (allocator b) bs -> empties_pin pin bs ->
  run_entries (pinned callback pin) (map visit (log bs)) acc = (r, n, acc') ->
  exists st', IterateEntries pin callback st b acc = Some (r, st', acc') /\
    ((forall x, log bs !! n = Some x -> pin (entry_data x).1 = Ok tt) -> stopped bs n st').
Proof.
  intros Hrep Hempty Hrun. unfold IterateEntries. apply (iterate_blocks_spec _ bs 0); try done; try lia.
  - cbn. apply (rep_tail _ _ Hrep).
  - rewrite (rep_size _ _ Hrep). lia.
Qed.

(** The blocks before the [j]-th, newest first. *)
Lemma reverse_blocks_spec a bs st ep j fuel acc r n acc' : represents a bs -> empties_pin pin bs -> j <= length bs -> j <= fuel ->
  (forall i p l, i < j -> bs !! i = Some (p, l) -> current st <> Some p) ->
  run_entries (pinned callback pin) (rev (map visit (log (take j bs)))) acc = (r, n, acc') ->
  reverse_blocks fuel pin a callback st ep (match j with O => None | S i => fst <$> bs !! i end) acc = Some (r, acc').
Proof.
  intros Hrep Hempty. revert j acc n. induction fuel as [|fuel IH]; intros j acc n Hj Hf Hcur Hrun.
  { destruct j; [|lia]. cbn in *. by injection Hrun as <- <- <-. }
  destruct j as [|i]; [cbn in *; by injection Hrun as <- <- <-|].
  destruct (lookup_lt_is_Some_2 bs i ltac:(lia)) as [[p l] E]. rewrite E. cbn [fmap option_fmap option_map fst reverse_blocks].
  pose proof (block_pinned _ _ _ _ _ Hrep E) as Hl.
  destruct (rep_block _ _ Hrep _ _ _ E) as (e & He & Hok). rewrite He. cbn [mbind option_bind].
  rewrite (log_take_S _ _ _ _ E), map_app, rev_app_distr, run_entries_app in Hrun.
  destruct (pin p) as [[]|exp] eqn:Ep.
  2:{ assert (Hne : rev l <> []).
    { intros Hr. apply (f_equal (@rev _)) in Hr. rewrite rev_involutive in Hr. subst l. pose proof (Hempty _ _ E). congruence. }
    rewrite <- map_rev, (run_block_unpinned p) with (ex := exp) in Hrun; [by injection Hrun as <- <- <-| |done..].
    by apply Forall_rev. }
  rewrite (run_block_pinned_rev p) in Hrun by done.
  rewrite bool_decide_eq_false_2 by (by eapply Hcur; [|exact E]; lia).
  rewrite (collect_parses p _ 0 _ l) by (try lia; by destruct Hok).
  destruct (run_entries callback (rev (map visit l)) acc) as [[[u|ex] n1] acc1].
  - destruct (run_entries (pinned callback pin) (rev (map visit (log (take i bs)))) acc1) as [[r2 n2] acc2] eqn:E2.
    injection Hrun as <- <- <-. rewrite (ok_next _ _ _ _ _ Hok).
    eapply (IH i); [lia|lia| |exact E2]. intros k q l' Hk. apply Hcur. lia.
  - by injection Hrun as <- <- <-.
Qed.

(** A reverse iteration pins the block in which it starts, even when it visits none of its entries. *)
Lemma reverse_pinned_spec b bs k st acc r n acc' : represents (allocator b) bs -> empties_pin pin bs -> stopped bs k st ->
  run_entries (pinned callback pin) (rev (map visit (take k (log bs)))) acc = (r, n, acc') ->
  ReverseIterateFrom pin callback st b acc =
  match log bs !! k with
  | Some x => match pin (entry_data x).1 with Throw e => Some (Throw e, acc) | Ok _ => Some (r, acc') end
  | None => Some (r, acc')
  end.
Proof.
  intros Hrep Hempty [Hst Hstop] Hrun. unfold ReverseIterateFrom. rewrite Hst. cbn [negb].
  destruct Hstop as [[Hcur ->]|(j & p & l & i & x & E & Hx & Hcur & Hh & Hs & ->)]; rewrite Hcur.
  - rewrite (lookup_ge_None_2 (log bs)) by lia.
    rewrite firstn_all in Hrun. rewrite (rep_head _ _ Hrep), (rep_size _ _ Hrep).
    replace (fst <$> last bs) with (match length bs with O => None | S i => fst <$> bs !! i end)
      by (rewrite last_lookup; by destruct bs).
    eapply reverse_blocks_spec; [done|done|lia|lia|by rewrite Hcur|by rewrite firstn_all].
  - rewrite Hh. pose proof (lookup_lt_Some _ _ _ E). rewrite (rep_size _ _ Hrep).
    pose proof (block_pinned _ _ _ _ _ Hrep E) as Hl.
    assert (Hk : log bs !! (length (log (take j bs)) + i) = Some x).
    { rewrite (log_split _ _ _ _ E), lookup_app_add. by apply lookup_app_l_Some. }
    rewrite Hk. rewrite Forall_lookup in Hl. rewrite (Hl _ _ Hx). rewrite <- Forall_lookup in Hl.
    destruct (length bs) as [|fuel] eqn:Hlen; [lia|]. cbn [reverse_blocks].
    destruct (rep_block _ _ Hrep _ _ _ E) as (e & He & Hok). rewrite He. cbn [mbind option_bind].
    destruct (pin p) as [[]|exp] eqn:Ep; [|done].
    rewrite bool_decide_eq_true_2 by done.
    destruct (parses_entry _ _ _ _ _ _ _ (ok_parses _ _ _ _ _ Hok) Hx) as (s & Hd & _ & _ & Htake & _).
    rewrite Hs, Hd. cbn [snd]. rewrite Nat.add_sub.
    rewrite (collect_parses p _ 0 _ _ _ Htake) by lia.
    rewrite (log_split _ _ _ _ E), (app_assoc (log _)), take_app_le in Hrun
      by (rewrite length_app; apply lookup_lt_Some in Hx; lia).
    rewrite take_app_add, map_app, rev_app_distr, run_entries_app in Hrun.
    rewrite (run_block_pinned_rev p) in Hrun by (done || by apply Forall_take).
    destruct (run_entries callback (rev (map visit (take i l))) acc) as [[[u|ex] n1] acc1].
    + destruct (run_entries (pinned callback pin) (rev (map visit (log (take j bs)))) acc1) as [[r2 n2] acc2] eqn:E2.
      injection Hrun as <- <- <-. rewrite (ok_next _ _ _ _ _ Hok).
      eapply (reverse_blocks_spec _ bs _ _ j); [done|done|lia|lia| |exact E2].
      intros k q l' Hkj Hq. rewrite Hcur. intros [= <-]. pose proof (block_index _ _ _ _ _ _ (rep_nodup _ _ Hrep) Hq E). lia.
    + by injection Hrun as <- <- <-.
Qed.

(** *** When every block can be pinned *)

Context (pin_ok : forall p, pin p = Ok tt).

Lemma run_pinned_ok l acc : run_entries (pinned callback pin) l acc = run_entries callback l acc.
Proof. apply run_pinned, Forall_true. intros. apply pin_ok. Qed.

Lemma iterate_spec b bs st acc r n acc' : represents (allocator b) bs ->
  run_entries callback (map visit (log bs)) acc = (r, n, acc') ->
  exists st', IterateEntries pin callback st b acc = Some (r, st', acc') /\ stopped bs n st'.
Proof.
  intros Hrep Hrun. rewrite <- run_pinned_ok in Hrun.
  destruct (iterate_pinned_spec b bs st acc r n acc' Hrep) as (st' & ? & Hstop); [by intros ???|done|].
  exists st'. split; [done|]. by apply Hstop.
Qed.

Lemma reverse_spec b bs k st acc r n acc' : represents (allocator b) bs -> stopped bs k st ->
  run_entries callback (rev (map visit (take k (log bs)))) acc = (r, n, acc') ->
  ReverseIterateFrom pin callback st b acc = Some (r, acc').
Proof.
  intros Hrep Hstop Hrun. rewrite <- run_pinned_ok in Hrun.
  rewrite (reverse_pinned_spec _ bs k _ _ r n acc') by (done || by intros ???).
  destruct (log bs !! k); [|done]. by rewrite pin_ok.
Qed.
End Iterations.

(** ** Writing: changing a block, a new block, a new entry *)

Section Writing.
Implicit Types (a : UndoBufferAllocator) (bs : list Block).

Lemma log_insert bs i p l l' : bs !! i = Some (p, l) ->
  log (<[i := (p, l')]> bs) = log (take i bs) ++ l' ++ log (drop (S i) bs).
Proof.
  intros Hi. pose proof (lookup_lt_Some _ _ _ Hi). rewrite (log_split _ i p l') by by apply list_lookup_insert_eq.
  by rewrite take_insert_ge, drop_insert_lt by lia.
Qed.

Lemma map_fst_insert bs i p l l' : bs !! i = Some (p, l) -> map fst (<[i := (p, l')]> bs) = map fst bs.
Proof.
  intros Hi. rewrite (list_fmap_insert fst). cbn. apply list_insert_id. by rewrite list_lookup_fmap, Hi.
Qed.

Lemma fst_insert bs i j p l l' : bs !! i = Some (p, l) -> fst <$> (<[i := (p, l')]> bs) !! j = fst <$> bs !! j.
Proof.
  intros Hi. destruct (Nat.eq_dec i j) as [->|].
  - rewrite list_lookup_insert_eq by by eapply lookup_lt_Some. by rewrite Hi.
  - by rewrite list_lookup_insert_ne.
Qed.

Lemma represents_alter a bs i p l l' f : represents a bs -> bs !! i = Some (p, l) ->
  (forall older newer e, blocks a !! p = Some e -> block_ok p e older newer l -> block_ok p (f e) older newer l') ->
  represents (alter_block f p a) (<[i := (p, l')]> bs).
Proof.
  intros Hrep Hi Hf. constructor; cbn.
  - rewrite (rep_head _ _ Hrep), !last_lookup, length_insert. by rewrite (fst_insert _ _ _ _ _ _ Hi).
  - by rewrite (rep_tail _ _ Hrep), (fst_insert _ _ _ _ _ _ Hi).
  - intros j q lq Hq. rewrite (fst_insert _ _ _ _ _ _ Hi).
    assert (match j with O => None | S k => fst <$> <[i:=(p, l')]> bs !! k end =
            match j with O => None | S k => fst <$> bs !! k end) as ->.
    { destruct j; [done|]. by rewrite (fst_insert _ _ _ _ _ _ Hi). }
    destruct (Nat.eq_dec i j) as [->|Hij].
    + rewrite list_lookup_insert_eq in Hq by by eapply lookup_lt_Some. injection Hq as <- <-.
      destruct (rep_block _ _ Hrep _ _ _ Hi) as (e & He & Hok). exists (f e). rewrite lookup_alter_eq, He. split; [done|by apply Hf].
    + rewrite list_lookup_insert_ne in Hq by done. destruct (rep_block _ _ Hrep _ _ _ Hq) as (e & He & Hok).
      exists e. rewrite lookup_alter_ne; [done|]. intros ->. by pose proof (block_index _ _ _ _ _ _ (rep_nodup _ _ Hrep) Hi Hq).
  - rewrite (map_fst_insert _ _ _ _ _ Hi). apply (rep_nodup _ _ Hrep).
  - rewrite length_insert, <- (rep_size _ _ Hrep), <- !size_dom. by rewrite dom_alter_L.
  - intros q. rewrite lookup_alter_is_Some. apply (rep_fresh _ _ Hrep).
Qed.

Lemma alter_block_compose f g p a : alter_block f p (alter_block g p a) = alter_block (f ∘ g) p a.
Proof. unfold alter_block. cbn. by rewrite alter_alter_eq. Qed.

(** A new entry at the end of a block that has room for it. *)
Lemma append_entry_ok p e older newer l type n : block_ok p e older newer l ->
  UndoBufferEntry.position e + (8 + n) <= UndoBufferEntry.capacity e -> Nat.divide 8 (8 + n) -> (Z.of_nat n < 2 ^ 32)%Z ->
  let pos := UndoBufferEntry.position e in
  block_ok p
    (UndoBufferEntry.set_memory (store32 (pos + 4) (Z.of_nat n))
      (UndoBufferEntry.set_memory (store32 pos (flag_value type)) (UndoBufferEntry.set_position (pos + (8 + n)) e)))
    older newer (l ++ [mkEntry type (p, pos + 8) n]).
Proof.
  intros [] Hroom Hdiv Hn. destruct e as [memory pos capacity nx pv]. cbn -[Nat.add] in *.
  set (m1 := store32 pos (flag_value type) memory). set (m2 := store32 (pos + 4) (Z.of_nat n) m1).
  assert (Hl1 : length m1 = length memory) by (apply length_store32; lia).
  assert (Hl2 : length m2 = length memory) by (rewrite <- Hl1; apply length_store32; lia).
  constructor; cbn -[Nat.add]; fold m1; fold m2; [done|done|lia|lia|]. apply (parses_app _ _ _ pos).
  - eapply parses_frame; [|exact ok_parses0]. intros i Hi.
    unfold m2. rewrite store32_below by lia. unfold m1. by rewrite store32_below by lia.
  - apply parses_cons; cbn -[Nat.add]; try done; [lia| | |].
    + unfold m2. rewrite load32_store32_other by lia. apply load32_store32; [lia|by destruct type].
    + unfold m2. rewrite load32_store32; [done|lia|lia].
    + replace (pos + 8 + n) with (pos + (8 + n)) by lia. constructor.
Qed.

Lemma push_block_represents `{BufferManager} capacity a bs : represents a bs ->
  let '(p, a') := push_block capacity a in
  represents a' (bs ++ [(p, [])]) /\
  blocks a' !! p = Some (UndoBufferEntry.mk (fresh_memory capacity) 0 capacity (head a) None).
Proof.
  intros Hrep. unfold push_block. set (p := next_block a).
  assert (Hfresh : blocks a !! p = None).
  { destruct (blocks a !! p) as [e|] eqn:E; [|done]. pose proof (rep_fresh _ _ Hrep p (ex_intro _ _ E)). unfold p in *. lia. }
  assert (Hnot : forall i q l, bs !! i = Some (q, l) -> q <> p).
  { intros i q l Hq ->. destruct (rep_block _ _ Hrep _ _ _ Hq) as (e & He & _). congruence. }
  set (links := match head a with Some h => alter (UndoBufferEntry.set_prev (Some p)) h (blocks a) | None => blocks a end).
  assert (Hdom : dom links = dom (blocks a)) by (unfold links; destruct (head a); by rewrite ?dom_alter_L).
  cbn. split; [|by rewrite lookup_insert_eq]. constructor; cbn.
  - by rewrite last_snoc.
  - rewrite (rep_head _ _ Hrep), (rep_tail _ _ Hrep). destruct bs as [|b bs]; [done|]. by rewrite last_cons; destruct (last bs).
  - intros i q l Hi. apply lookup_app_Some in Hi as [Hi|[Hge Hi]].
    + pose proof (lookup_lt_Some _ _ _ Hi). rewrite lookup_insert_ne by (by apply not_eq_sym, (Hnot _ _ _ Hi)).
      destruct (rep_block _ _ Hrep _ _ _ Hi) as (e & He & []).
      assert (match i with O => None | S j => fst <$> (bs ++ [(p, [])]) !! j end = match i with O => None | S j => fst <$> bs !! j end) as ->.
      { destruct i; [done|]. by rewrite lookup_app_l by lia. }
      unfold links. rewrite (rep_head _ _ Hrep), last_lookup.
      destruct (Nat.eq_dec (S i) (length bs)) as [Hlast|Hlast].
      * rewrite <- Hlast. cbn [pred]. rewrite Hi. cbn. rewrite lookup_alter_eq, He. eexists. split; [done|].
        rewrite lookup_app_r, Hlast, Nat.sub_diag by lia. by constructor.
      * rewrite lookup_app_l by lia. exists e.
        destruct (bs !! pred (length bs)) as [[h lh]|] eqn:Eh; [|apply lookup_ge_None in Eh; lia].
        cbn. rewrite lookup_alter_ne; [split; [done|by constructor]|].
        intros ->. pose proof (block_index _ _ _ _ _ _ (rep_nodup _ _ Hrep) Eh Hi). lia.
    + apply list_lookup_singleton_Some in Hi as [Hi0 [= <- <-]]. rewrite lookup_insert_eq. eexists. split; [done|].
      assert (i = length bs) as -> by lia. rewrite (lookup_ge_None_2 (bs ++ _)) by (rewrite length_app; cbn; lia).
      constructor; cbn; try done; [|apply fresh_length|lia|constructor].
      rewrite (rep_head _ _ Hrep), last_lookup. destruct (length bs) as [|k] eqn:Hlen; [by apply nil_length_inv in Hlen as ->|].
      cbn. by rewrite lookup_app_l by lia.
  - rewrite map_app. apply NoDup_app. split_and!; [apply (rep_nodup _ _ Hrep)| |cbn; apply NoDup_singleton].
    intros q Hq. apply list_elem_of_lookup_1 in Hq as [i Hi]. rewrite list_lookup_fmap in Hi.
    destruct (bs !! i) as [[q' l]|] eqn:Ei; [|done]. injection Hi as <-. cbn. rewrite list_elem_of_singleton. by eapply Hnot.
  - rewrite map_size_insert_None by (by rewrite <- not_elem_of_dom, Hdom, not_elem_of_dom).
    rewrite <- size_dom, Hdom, size_dom, (rep_size _ _ Hrep), length_app. cbn. lia.
  - intros q. destruct (decide (q = p)) as [->|]; [unfold p; lia|]. rewrite lookup_insert_ne by done.
    rewrite <- elem_of_dom, Hdom, elem_of_dom. intros Hq. pose proof (rep_fresh _ _ Hrep _ Hq). unfold p. lia.
Qed.
End Writing.

(** ** Creating entries and writing their payloads *)

Section Creating.
Context `{BufferManager}.
Implicit Types (a : UndoBufferAllocator) (b : UndoBuffer) (bs : list Block).

Lemma align_value_ge n : n <= AlignValue n.
Proof. unfold AlignValue. div_lia. Qed.
Lemma align_value_le n : AlignValue n <= n + 7.
Proof. unfold AlignValue. div_lia. Qed.
Lemma align_value_divide n : Nat.divide 8 (AlignValue n).
Proof. by exists ((n + 7) / 8). Qed.

Lemma block_capacity_ge has_head n : 1 <= n -> (Z.of_nat n <= 2 ^ 63)%Z ->
  exists capacity, block_capacity has_head n = Ok capacity /\ n <= capacity.
Proof.
  intros Hn Hmax. unfold block_capacity.
  set (c := if negb has_head && (n <=? 4096) then 4096 else GetBlockSize).
  destruct (Nat.ltb_spec c n); [|by eexists].
  destruct (next_power_of_two_ge (Z.of_nat n)) as (r & Hr & Hle); [lia|]. rewrite Hr. eexists. split; [done|lia].
Qed.

(** The bytes of a payload. *)
Definition payload (ptr : BufferPointer) (n : nat) b : list Z :=
  match blocks (allocator b) !! ptr.1 with
  | Some e => take n (drop ptr.2 (UndoBufferEntry.memory e))
  | None => []
  end.

(** [CreateEntry] once a block with room is found. *)
Definition fill_entry (type : UndoFlags) (alloc_len : nat) (p : positive) (cleaned : nat) a : option (result BufferPointer * UndoBuffer) :=
  '((p, position), a) ← take_space alloc_len p a;
  let b := on_block p (store32 position (flag_value type)) (mkUndoBuffer a cleaned) in
  let b := on_block p (store32 (position + 4) (Z.of_nat (alloc_len - UNDO_ENTRY_HEADER_SIZE))) b in
  Some (Ok (p, position + UNDO_ENTRY_HEADER_SIZE), b).

Lemma fill_entry_spec type n p cleaned a bs i l e : represents a bs -> bs !! i = Some (p, l) -> S i = length bs ->
  blocks a !! p = Some e -> UndoBufferEntry.position e + (8 + n) <= UndoBufferEntry.capacity e ->
  Nat.divide 8 (8 + n) -> (Z.of_nat n < 2 ^ 32)%Z ->
  exists ptr b x, fill_entry type (8 + n) p cleaned a = Some (Ok ptr, b) /\ cleaned_up_entries b = cleaned /\
    let bs' := <[i := (p, l ++ [x])]> bs in represents (allocator b) bs' /\ log bs' = log bs ++ [mkEntry type ptr n].
Proof.
  intros Hrep Hi Hlast He Hroom Hdiv Hn. unfold fill_entry, take_space. rewrite He. cbn [mbind option_bind].
  eexists _, _, (mkEntry type (p, UndoBufferEntry.position e + 8) n).
  split; [done|]. split; [done|]. cbn [allocator on_block].
  rewrite !alter_block_compose. replace (8 + n - UNDO_ENTRY_HEADER_SIZE) with n by (unfold UNDO_ENTRY_HEADER_SIZE; lia). split.
  - eapply represents_alter; [done..|]. intros older newer e' He'. rewrite He in He'. injection He' as <-. intros Hok.
    by apply append_entry_ok.
  - rewrite (log_insert _ _ _ _ _ Hi), (log_split _ _ _ _ Hi), drop_ge by lia. cbn. by rewrite !app_nil_r, <- app_assoc.
Qed.

Lemma full_insert bs i p l : (forall j q, j <> i -> bs !! j <> Some (q, [])) -> l <> [] -> full (<[i := (p, l)]> bs).
Proof.
  intros Hbs Hl j q Hj. destruct (decide (j = i)) as [->|Hne]; [|rewrite list_lookup_insert_ne in Hj by done; by eapply Hbs].
  apply list_lookup_insert_Some in Hj as [(_ & [=] & _)|[? _]]; done.
Qed.

(** The allocator finds a last block with room, or it throws and changes nothing. *)
Lemma allocate_finds pin n a bs : represents a bs -> 1 <= n -> (Z.of_nat n <= 2 ^ 63)%Z ->
  (exists e, Allocate pin n a = Some (Throw e, a)) \/
  exists p a0 bs0 i l e, represents a0 bs0 /\ log bs0 = log bs /\ bs0 !! i = Some (p, l) /\ S i = length bs0 /\
    (full bs -> forall l', l' <> [] -> full (<[i := (p, l')]> bs0)) /\
    blocks a0 !! p = Some e /\ UndoBufferEntry.position e + n <= UndoBufferEntry.capacity e /\
    Allocate pin n a = ('(ptr, a1) ← take_space n p a0; Some (Ok ptr, a1)).
Proof.
  intros Hrep Hn Hmax. unfold Allocate.
  destruct (block_capacity_ge (bool_decide (is_Some (head a))) n Hn Hmax) as (c & Hc & Hge). rewrite Hc.
  destruct (push_block c a) as [p a0] eqn:E.
  assert (Hnew : exists bs0 i l e, represents a0 bs0 /\ log bs0 = log bs /\ bs0 !! i = Some (p, l) /\ S i = length bs0 /\
    (full bs -> forall l', l' <> [] -> full (<[i := (p, l')]> bs0)) /\
    blocks a0 !! p = Some e /\ UndoBufferEntry.position e + n <= UndoBufferEntry.capacity e).
  { pose proof (push_block_represents c _ _ Hrep) as Hpush. rewrite E in Hpush. destruct Hpush as [Hrep0 Hp].
    exists (bs ++ [(p, [])]), (length bs), [], (UndoBufferEntry.mk (fresh_memory c) 0 c (head a) None).
    rewrite lookup_app_r, Nat.sub_diag, length_app by lia. unfold log. rewrite map_app, concat_app. cbn -[Nat.add].
    rewrite !app_nil_r. split_and!; try done; try lia. intros Hfull l' Hl. apply full_insert; [|done]. intros j q Hj Hq.
    apply lookup_app_Some in Hq as [Hq|[? Hq]]; [by eapply Hfull|]. apply lookup_lt_Some in Hq. cbn in Hq. lia. }
  destruct Hnew as (bs0 & i & l & e & Hnew).
  destruct (head a) as [h|] eqn:Ehead; [|right; exists p, a0, bs0, i, l, e; by destruct_and! Hnew].
  pose proof (rep_head _ _ Hrep) as Hh. rewrite Ehead, last_lookup in Hh.
  destruct (bs !! pred (length bs)) as [[h' lh]|] eqn:Eh; [|done]. injection Hh as ->.
  destruct (rep_block _ _ Hrep _ _ _ Eh) as (eh & He & Hok). rewrite He. cbn [mbind option_bind].
  destruct (Nat.ltb_spec (UndoBufferEntry.capacity eh) (UndoBufferEntry.position eh + n));
    [right; exists p, a0, bs0, i, l, e; by destruct_and! Hnew|].
  destruct (pin h') as [[]|ex]; [right|left; by exists ex].
  exists h', a, bs, (pred (length bs)), lh, eh. split_and!; try done; [apply lookup_lt_Some in Eh; lia|].
  intros Hfull l' Hl. apply full_insert; [|done]. intros j q _. apply Hfull.
Qed.

Lemma create_entry_spec pin type len b bs : represents (allocator b) bs -> (Z.of_nat len + 16 <= 2 ^ 32)%Z ->
  exists r b', CreateEntry pin type len b = Some (r, b') /\ cleaned_up_entries b' = cleaned_up_entries b /\
    match r with
    | Ok ptr => exists bs', represents (allocator b') bs' /\ (full bs -> full bs') /\ log bs' = log bs ++ [mkEntry type ptr (AlignValue (len + 8) - 8)]
    | Throw _ => b' = b
    end.
Proof.
  intros Hrep Hlen. unfold CreateEntry, UNDO_ENTRY_HEADER_SIZE.
  pose proof (align_value_ge (len + 8)). pose proof (align_value_le (len + 8)). pose proof (align_value_divide (len + 8)) as Hdiv.
  remember (AlignValue (len + 8) - 8) as n eqn:Hn. replace (AlignValue (len + 8)) with (8 + n) in * by lia.
  destruct (allocate_finds pin (8 + n) (allocator b) bs Hrep) as
    [[e Ha]|(p & a0 & bs0 & i & l & e & Hrep0 & Hlog0 & Hi & Hlast & Hfull & He & Hroom & Ha)]; [lia|lia|..]; rewrite Ha.
  { eexists _, _. split; [done|]. split; [done|]. by destruct b. }
  destruct (fill_entry_spec type n p (cleaned_up_entries b) a0 bs0 i l e Hrep0 Hi Hlast He Hroom Hdiv ltac:(lia))
    as (ptr & b' & x & Hf & Hcl & Hr & Hlog).
  exists (Ok ptr), b'. unfold fill_entry, take_space, UNDO_ENTRY_HEADER_SIZE in *. rewrite He in Hf |- *.
  cbn [mbind option_bind] in *. rewrite <- Hn in Hf.
  split; [exact Hf|]. split; [done|]. eexists. split; [exact Hr|]. split; [|by rewrite Hlog, Hlog0].
  intros Hbs. apply (Hfull Hbs). by destruct l.
Qed.

(** *** The entries of a buffer do not overlap *)

(** The header and the payload of [x] end before those of [y] start, or they are in another block. *)
Definition apart (x y : Entry) : Prop :=
  (entry_data x).1 <> (entry_data y).1 \/
  (entry_data x).2 + entry_len x + 8 <= (entry_data y).2 \/ (entry_data y).2 + entry_len y + 8 <= (entry_data x).2.

Lemma parses_apart p memory s e l i j x y : parses p memory s e l -> i < j -> l !! i = Some x -> l !! j = Some y ->
  (entry_data x).2 + entry_len x + 8 <= (entry_data y).2.
Proof.
  intros Hp Hij Hx Hy. destruct (parses_entry _ _ _ _ _ _ _ Hp Hx) as (k & Hk & _ & _ & _ & Hr & _).
  assert (Hy' : drop (S i) l !! (j - S i) = Some y) by (rewrite lookup_drop; by replace (S i + (j - S i)) with j by lia).
  destruct (parses_entry _ _ _ _ _ _ _ Hr Hy') as (k' & Hk' & Hge & _). rewrite Hk, Hk'. cbn. lia.
Qed.

(** An entry of the log is the [k]-th of some block. *)
Lemma log_lookup bs n x : log bs !! n = Some x ->
  exists i p l k, bs !! i = Some (p, l) /\ l !! k = Some x /\ n = length (log (take i bs)) + k.
Proof.
  revert n. induction bs as [|[p l] bs IH]; intros n Hn; [done|]. unfold log in Hn. cbn in Hn.
  apply lookup_app_Some in Hn as [Hn|[Hge Hn]].
  - by exists 0, p, l, n.
  - destruct (IH _ Hn) as (i & q & lq & k & Hi & Hk & E). exists (S i), q, lq, k. split_and!; try done.
    unfold log in *. cbn. rewrite length_app. lia.
Qed.

Lemma log_entry_block a bs i p l k x : represents a bs -> bs !! i = Some (p, l) -> l !! k = Some x ->
  exists e, blocks a !! p = Some e /\ parses p (UndoBufferEntry.memory e) 0 (UndoBufferEntry.position e) l /\
    UndoBufferEntry.position e <= UndoBufferEntry.capacity e /\
    length (UndoBufferEntry.memory e) = UndoBufferEntry.capacity e /\ (entry_data x).1 = p.
Proof.
  intros Hrep Hi Hk. destruct (rep_block _ _ Hrep _ _ _ Hi) as (e & He & []). exists e. split_and!; try done.
  destruct (parses_entry _ _ _ _ _ _ _ ok_parses0 Hk) as (s & Hs & _). by rewrite Hs.
Qed.

Lemma entries_apart a bs i j x y : represents a bs -> i <> j -> log bs !! i = Some x -> log bs !! j = Some y -> apart x y.
Proof.
  intros Hrep Hij Hx Hy.
  destruct (log_lookup _ _ _ Hx) as (m & p & l & k & Hm & Hk & ->), (log_lookup _ _ _ Hy) as (m' & p' & l' & k' & Hm' & Hk' & ->).
  destruct (log_entry_block _ _ _ _ _ _ _ Hrep Hm Hk) as (e & He & Hp & _ & _ & Hx1).
  destruct (log_entry_block _ _ _ _ _ _ _ Hrep Hm' Hk') as (e' & He' & _ & _ & _ & Hy1).
  destruct (decide (p = p')) as [<-|]; [right|left; congruence].
  pose proof (block_index _ _ _ _ _ _ (rep_nodup _ _ Hrep) Hm Hm') as <-. rewrite Hm in Hm'. injection Hm' as <-.
  destruct (decide (k < k')); [left|right]; (eapply parses_apart; [exact Hp| |eassumption..]; lia).
Qed.

(** Writing into a payload leaves every header, and every other payload, as it is. *)
Lemma write_payload_represents b bs x offset bytes : represents (allocator b) bs -> x ∈ log bs ->
  offset + length bytes <= entry_len x ->
  represents (allocator (WritePayload (entry_data x) offset bytes b)) bs.
Proof.
  intros Hrep Hx Hlen. apply list_elem_of_lookup_1 in Hx as [n Hx].
  destruct (log_lookup _ _ _ Hx) as (i & p & l & k & Hi & Hk & _).
  destruct (log_entry_block _ _ _ _ _ _ _ Hrep Hi Hk) as (e0 & He0 & _ & _ & _ & Hp).
  unfold WritePayload, on_block. cbn. rewrite Hp. rewrite <- (list_insert_id bs i (p, l) Hi).
  eapply represents_alter; [done|exact Hi|]. intros older newer e He Hok.
  destruct (parses_entry _ _ _ _ _ _ _ (ok_parses _ _ _ _ _ Hok) Hk)
    as (s & Hs & _ & Hle & Hbefore & Hafter & Hdiv & Hty & Hn).
  destruct Hok. rewrite Hs. cbn [snd].
  assert (Hroom : s + 8 + offset + length bytes <= length (UndoBufferEntry.memory e)) by lia.
  assert (Hsame : forall j, j < s + 8 \/ s + 8 + entry_len x <= j ->
    UndoBufferEntry.memory e !! j = store_bytes (s + 8 + offset) bytes (UndoBufferEntry.memory e) !! j).
  { intros j Hj. rewrite store_bytes_lookup by done.
    destruct (Nat.leb_spec (s + 8 + offset) j), (Nat.ltb_spec j (s + 8 + offset + length bytes)); cbn; done || lia. }
  constructor; cbn -[Nat.add]; try done; [by rewrite length_store_bytes|].
  rewrite <- (take_drop_middle _ _ _ Hk). apply (parses_app _ _ _ s).
  { eapply parses_frame; [|exact Hbefore]. intros j Hj. apply Hsame. lia. }
  apply parses_cons; try done.
  - rewrite load32_store_other by lia. done.
  - rewrite load32_store_other by lia. done.
  - eapply parses_frame; [|exact Hafter]. intros j Hj. apply Hsame. lia.
Qed.

Lemma payload_lookup ptr n b e i : blocks (allocator b) !! ptr.1 = Some e ->
  payload ptr n b !! i = if decide (i < n) then UndoBufferEntry.memory e !! (ptr.2 + i) else None.
Proof. intros He. unfold payload. rewrite He, lookup_take, lookup_drop. done. Qed.

Lemma write_payload_memory b bs n x offset bytes : represents (allocator b) bs -> log bs !! n = Some x ->
  offset + length bytes <= entry_len x ->
  exists e, blocks (allocator b) !! (entry_data x).1 = Some e /\
    (entry_data x).2 + entry_len x <= length (UndoBufferEntry.memory e) /\
    blocks (allocator (WritePayload (entry_data x) offset bytes b)) !! (entry_data x).1 =
      Some (UndoBufferEntry.set_memory (store_bytes ((entry_data x).2 + offset) bytes) e).
Proof.
  intros Hrep Hx Hlen. destruct (log_lookup _ _ _ Hx) as (i & p & l & k & Hi & Hk & _).
  destruct (log_entry_block _ _ _ _ _ _ _ Hrep Hi Hk) as (e & He & Hpar & Hpos & Hm & Hp).
  destruct (parses_entry _ _ _ _ _ _ _ Hpar Hk) as (s & Hs & _ & Hle & _).
  exists e. rewrite Hp. split; [done|]. split; [rewrite Hs; cbn -[Nat.add]; lia|].
  unfold WritePayload, on_block. cbn. by rewrite Hp, lookup_alter_eq, He.
Qed.

(** What was written is read back. *)
Lemma write_payload_read b bs n x offset bytes : represents (allocator b) bs -> log bs !! n = Some x ->
  offset + length bytes <= entry_len x ->
  take (length bytes) (drop offset (payload (entry_data x) (entry_len x) (WritePayload (entry_data x) offset bytes b))) = bytes.
Proof.
  intros Hrep Hx Hlen. destruct (write_payload_memory _ _ _ _ _ _ Hrep Hx Hlen) as (e & He & Hle & Hw).
  apply list_eq. intros i. rewrite lookup_take, lookup_drop, (payload_lookup _ _ _ _ _ Hw). cbn.
  destruct (decide (i < length bytes)); [|symmetry; apply lookup_ge_None; lia].
  destruct (decide (offset + i < entry_len x)); [|lia].
  rewrite store_bytes_lookup by lia.
  destruct (Nat.leb_spec ((entry_data x).2 + offset) ((entry_data x).2 + (offset + i))); [|lia].
  destruct (Nat.ltb_spec ((entry_data x).2 + (offset + i)) ((entry_data x).2 + offset + length bytes)); [|lia].
  cbn. f_equal. lia.
Qed.

Lemma write_payload_frame b bs n m x y offset bytes : represents (allocator b) bs -> n <> m ->
  log bs !! n = Some x -> log bs !! m = Some y -> offset + length bytes <= entry_len x ->
  payload (entry_data y) (entry_len y) (WritePayload (entry_data x) offset bytes b) =
  payload (entry_data y) (entry_len y) b.
Proof.
  intros Hrep Hnm Hx Hy Hlen. pose proof (entries_apart _ _ _ _ _ _ Hrep Hnm Hx Hy) as Hap.
  destruct (write_payload_memory _ _ _ _ _ _ Hrep Hx Hlen) as (e & He & Hle & Hw).
  destruct (decide ((entry_data x).1 = (entry_data y).1)) as [Heq|Hne].
  - destruct Hap as [?|Hap]; [done|]. apply list_eq. intros i. rewrite Heq in He, Hw.
    rewrite (payload_lookup _ _ _ _ _ Hw), (payload_lookup _ _ _ _ _ He). destruct (decide (i < entry_len y)); [|done].
    cbn. rewrite store_bytes_lookup by lia.
    destruct (Nat.leb_spec ((entry_data x).2 + offset) ((entry_data y).2 + i)),
      (Nat.ltb_spec ((entry_data y).2 + i) ((entry_data x).2 + offset + length bytes)); cbn; done || lia.
  - unfold payload, WritePayload, on_block. cbn. by rewrite lookup_alter_ne.
Qed.
End Creating.

(** ** Cleanup: the entries that were cleaned up before are skipped *)

Lemma cleanup_run {A} (CleanupEntry : Callback A) l idx cleaned (acc : A) : idx <= cleaned ->
  exists n idx',
  run_entries (cleanup_callback CleanupEntry) l (idx, cleaned, acc) =
  let '(r, m, acc') := run_entries CleanupEntry (drop (cleaned - idx) l) acc in (r, n, (idx', cleaned + m, acc')).
Proof.
  revert idx cleaned acc. induction l as [|[type data] l IH]; intros idx cleaned acc Hle.
  - rewrite drop_nil. cbn. rewrite Nat.add_0_r. by eexists _, _.
  - cbn [run_entries cleanup_callback]. destruct (Nat.ltb_spec idx cleaned).
    + destruct (IH (S idx) cleaned acc) as (n & idx' & ->); [lia|].
      replace (cleaned - idx) with (S (cleaned - S idx)) by lia. cbn [drop].
      destruct (run_entries CleanupEntry (drop (cleaned - S idx) l) acc) as [[r m] acc']. by eexists _, _.
    + assert (cleaned = idx) as -> by lia. rewrite Nat.sub_diag. cbn [drop run_entries].
      destruct (CleanupEntry type data acc) as [[[]|e] acc']; [|rewrite Nat.add_0_r; by eexists _, _].
      destruct (IH (S idx) (S idx) acc') as (n & idx' & ->); [lia|]. rewrite Nat.sub_diag. rewrite drop_0.
      destruct (run_entries CleanupEntry l acc') as [[r m] acc'']. exists (S n), idx'. by rewrite Nat.add_succ_r.
Qed.

Lemma cleanup_spec {A} (CleanupEntry : Callback A) pin b bs (acc : A) : (forall p, pin p = Ok tt) ->
  represents (allocator b) bs ->
  Cleanup pin CleanupEntry b acc =
  let '(r, n, acc') := run_entries CleanupEntry (map visit (drop (cleaned_up_entries b) (log bs))) acc in
  Some (r, mkUndoBuffer (allocator b) (cleaned_up_entries b + n), acc').
Proof.
  intros Hpin Hrep. unfold Cleanup.
  destruct (cleanup_run CleanupEntry (map visit (log bs)) 0 (cleaned_up_entries b) acc) as (n & idx' & Hrun); [lia|].
  rewrite Nat.sub_0_r, skipn_map in Hrun.
  destruct (run_entries CleanupEntry (map visit (drop (cleaned_up_entries b) (log bs))) acc) as [[r m] acc'].
  destruct (iterate_spec _ pin Hpin b bs new_iterator _ _ _ _ Hrep Hrun) as (st & -> & _). done.
Qed.
