(* ===== verification/UndoTheorems.v ===== *)
(** * The undo buffer: the theorems

    Commit, revert, rollback and cleanup visit the entries of a transaction in the order the update
    segment, the catalog and the row versions rely on; the last theorems put the undo buffer together
    with an update segment. *)

From S2P Require Import Prelude Snapshot ValidityMask UpdateInfo UpdateSegment.
From S2P Require Import UpdateInfoFacts UpdateLaws UpdateVersions UpdateChains UpdateInvariant UpdateSegmentFacts UpdateSegmentSpec UpdateSegmentSteps UpdateWrite UpdateOutcome UpdateSystem UpdateTheorems.
From S2P Require Import TransactionManager UndoBuffer UndoBufferFacts.

Local Open Scope nat_scope.

(** ** The buffers a transaction can build *)

(** A buffer and the entries created in it, in the order of their creation: entries are created, a
    creation can throw, and payloads are written. *)
Inductive built `{BufferManager} : UndoBuffer -> list Entry -> Prop :=
  | built_new : built new_undo_buffer []
  | built_create b es pin type len ptr b' :
      built b es -> (Z.of_nat len + 16 <= 2 ^ 32)%Z -> CreateEntry pin type len b = Some (Ok ptr, b') ->
      built b' (es ++ [mkEntry type ptr (AlignValue (len + 8) - 8)])
  | built_throw b es pin type len e b' :
      built b es -> (Z.of_nat len + 16 <= 2 ^ 32)%Z -> CreateEntry pin type len b = Some (Throw e, b') -> built b' es
  | built_write b es x offset bytes :
      built b es -> x ∈ es -> offset + length bytes <= entry_len x ->
      built (WritePayload (entry_data x) offset bytes b) es.

Lemma built_represents `{BufferManager} b es : built b es ->
  (exists bs, (represents (allocator b) bs /\ full bs) /\ log bs = es) /\ cleaned_up_entries b = 0.
Proof.
  induction 1 as [|b es pin type len ptr b' _ [(bs & [Hrep Hfull] & <-) Hcl] Hlen Hc|b es pin type len e b' _ [(bs & [Hrep Hfull] & <-) Hcl] Hlen Hc
    |b es x offset bytes _ [(bs & [Hrep Hfull] & <-) Hcl] Hx Hlen].
  - split; [|done]. exists []. split; [split; [apply represents_empty|by intros ??]|done].
  - destruct (create_entry_spec pin type len b bs Hrep Hlen) as (r & b1 & Hc' & Hcl' & Hr).
    rewrite Hc in Hc'. injection Hc' as <- <-. destruct Hr as (bs' & ? & ? & ?). split; [exists bs'; auto|congruence].
  - destruct (create_entry_spec pin type len b bs Hrep Hlen) as (r & b1 & Hc' & Hcl' & Hr).
    rewrite Hc in Hc'. injection Hc' as <- <-. subst b'. split; [by exists bs|done].
  - split; [|done]. exists bs. split; [split; [by apply write_payload_represents|done]|done].
Qed.

(** ** A buffer with two blocks *)

Module UndoSample.
#[export] Instance manager : BufferManager := {| GetBlockSize := 4096; fresh_memory n := replicate n 0%Z; fresh_length n := length_replicate n _ |}.

Definition pin_all : Pinning := fun _ => Ok tt.

Definition created (o : option (result BufferPointer * UndoBuffer)) : BufferPointer * UndoBuffer :=
  match o with Some (Ok p, b) => (p, b) | _ => ((1%positive, 0), new_undo_buffer) end.

(** An append, an update, and a delete that needs a block of its own. *)
Definition step1 := created (CreateEntry pin_all INSERT_TUPLE 20 new_undo_buffer).
Definition step2 := created (CreateEntry pin_all UPDATE_TUPLE 100 step1.2).
Definition step3 := created (CreateEntry pin_all DELETE_TUPLE 4090 step2.2).

Definition entry1 := mkEntry INSERT_TUPLE (1%positive, 8) 24.
Definition entry2 := mkEntry UPDATE_TUPLE (1%positive, 40) 104.
Definition entry3 := mkEntry DELETE_TUPLE (2%positive, 8) 4096.

(** Collects what it is called with, and throws at the payload [stop]. *)
Definition collect (stop : option BufferPointer) : Callback (list (Z * BufferPointer)) := fun type data acc =>
  if bool_decide (stop = Some data) then (Throw (TransactionException "conflict"), acc) else (Ok tt, acc ++ [(type, data)]).
End UndoSample.

(** ** The theorems *)

(** C10. A commit visits the entries in the order of their creation, up to the first one whose callback throws
    or whose block cannot be pinned; a rollback visits all of them, newest first, up to such an entry. The
    revert after a commit that no pin stopped visits exactly the entries that were committed, newest first,
    up to one of its own that throws or cannot be pinned; it also pins the block of the entry that stopped
    the commit. None of them follows a dangling pointer. After a commit that a failing pin stopped, the revert
    visits other entries: [pin_failure_misleads_revert]. *)
Theorem undo_entries_visited `{BufferManager} b es : built b es ->
  (forall A (CommitEntry : Callback A) pin acc,
     let '(r, n, acc') := run_entries (pinned CommitEntry pin) (map visit es) acc in
     exists st, Commit pin CommitEntry new_iterator b acc = Some (r, st, acc') /\
       ((forall x, es !! n = Some x -> pin (entry_data x).1 = Ok tt) ->
        forall B (RevertEntry : Callback B) pin' acc1,
          let '(r', _, acc2) := run_entries (pinned RevertEntry pin') (rev (map visit (take n es))) acc1 in
          RevertCommit pin' RevertEntry st b acc1 =
          match es !! n with
          | Some x => match pin' (entry_data x).1 with Throw e => Some (Throw e, acc1) | Ok _ => Some (r', acc2) end
          | None => Some (r', acc2)
          end)) /\
  forall A (RollbackEntry : Callback A) pin acc,
    let '(r, _, acc') := run_entries (pinned RollbackEntry pin) (rev (map visit es)) acc in
    Rollback pin RollbackEntry b acc = Some (r, acc').
Proof.
  intros [(bs & [Hrep Hfull] & <-) _]%built_represents.
  assert (Hempty : forall pin, empties_pin pin bs) by (intros pin i p E; by destruct (Hfull i p)). split.
  - intros A CommitEntry pin acc. destruct (run_entries _ (map visit (log bs)) acc) as [[r n] acc'] eqn:E.
    destruct (iterate_pinned_spec CommitEntry pin b bs new_iterator _ _ _ _ Hrep (Hempty _) E) as (st & Hit & Hstop).
    exists st. split; [done|]. intros Hn B RevertEntry pin' acc1.
    destruct (run_entries _ (rev (map visit (take n (log bs)))) acc1) as [[r' n'] acc2] eqn:E'.
    eapply reverse_pinned_spec; eauto.
  - intros A RollbackEntry pin acc. destruct (run_entries _ (rev (map visit (log bs))) acc) as [[r n] acc'] eqn:E.
    unfold Rollback, ReverseIterateEntries. rewrite (reverse_pinned_spec _ _ _ bs (length (log bs)) _ _ r n acc'); try done.
    + by rewrite lookup_ge_None_2 by lia.
    + split; [done|]. by left.
    + by rewrite firstn_all.
Qed.

Section Theorems.
Context `{BufferManager} (pin : Pinning) (pin_ok : forall p, pin p = Ok tt).

(** The payloads of a buffer are aligned to eight bytes, lie inside their blocks, and do not overlap:
    what is written to a payload is read back, and no other payload changes. *)
Theorem undo_payloads_separate b es i x offset bytes : built b es -> es !! i = Some x ->
  offset + length bytes <= entry_len x ->
  Nat.divide 8 (entry_data x).2 /\
  length (payload (entry_data x) (entry_len x) b) = entry_len x /\
  let b' := WritePayload (entry_data x) offset bytes b in
  take (length bytes) (drop offset (payload (entry_data x) (entry_len x) b')) = bytes /\
  forall j y, j <> i -> es !! j = Some y ->
    payload (entry_data y) (entry_len y) b' = payload (entry_data y) (entry_len y) b.
Proof.
  intros [(bs & [Hrep _] & <-) _]%built_represents Hx Hlen.
  destruct (log_lookup _ _ _ Hx) as (m & p & l & k & Hm & Hk & _).
  destruct (log_entry_block _ _ _ _ _ _ _ Hrep Hm Hk) as (e & He & Hp & Hpos & Hmem & Hfst).
  cbv zeta. split_and!.
  - destruct (parses_aligned _ _ _ _ _ (Nat.divide_0_r 8) Hp) as [Hal _].
    rewrite Forall_lookup in Hal. by eapply Hal.
  - destruct (parses_entry _ _ _ _ _ _ _ Hp Hk) as (s & Hs & _ & Hle & _).
    unfold payload. rewrite Hfst, He, length_take, length_drop, Hs. cbn -[Nat.add]. lia.
  - by eapply write_payload_read.
  - intros j y Hj%not_eq_sym Hy. by eapply write_payload_frame.
Qed.

(** A cleanup visits the entries in order; when it throws, the cleanup that is tried again goes on with
    the entry that threw, and no entry is cleaned up twice. *)
Theorem cleanup_resumes b es A (CleanupEntry : Callback A) acc : built b es ->
  let '(r, n, acc') := run_entries CleanupEntry (map visit es) acc in
  exists b', Cleanup pin CleanupEntry b acc = Some (r, b', acc') /\
  forall (CleanupAgain : Callback A) acc1,
    let '(r', m, acc2) := run_entries CleanupAgain (map visit (drop n es)) acc1 in
    exists b'', Cleanup pin CleanupAgain b' acc1 = Some (r', b'', acc2) /\
      (r' = Ok tt -> forall (CleanupMore : Callback A) acc3, Cleanup pin CleanupMore b'' acc3 = Some (Ok tt, b'', acc3)).
Proof.
  intros [(bs & [Hrep _] & <-) Hcl]%built_represents. rewrite (cleanup_spec _ _ b bs) by done. rewrite Hcl, drop_0.
  destruct (run_entries CleanupEntry (map visit (log bs)) acc) as [[r n] acc'].
  eexists. split; [done|]. intros CleanupAgain acc1. rewrite (cleanup_spec _ _ _ bs) by done. cbn -[drop].
  destruct (run_entries CleanupAgain (map visit (drop n (log bs))) acc1) as [[r' m] acc2] eqn:E.
  eexists. split; [done|]. intros -> CleanupMore acc3. rewrite (cleanup_spec _ _ _ bs) by done. cbn -[drop].
  apply run_entries_count in E as [[_ ->]|[[e [=]] _]].
  rewrite length_map, length_drop, drop_ge by lia. cbn. by rewrite Nat.add_0_r.
Qed.
End Theorems.

(** ** The undo buffer and an update segment *)

Section Updates.
Context `{BufferManager}.
Context {T Vec : Type} `{SegmentLaws T Vec} `{StdSortSpec} {HC : ColumnType T}.
Context (base : nat -> Vec).
Context (info_at : BufferPointer -> positive) (table_modified : BufferPointer -> bool).
Context (commit_other revert_other : Z -> BufferPointer -> result unit).

(** The infos of a buffer's update entries. *)
Definition update_entries (es : list Entry) : list positive :=
  map (fun x => info_at (entry_data x)) (filter (fun x => is_update (flag_value (entry_type x)) = true) es).

Lemma update_entries_cons x es : update_entries (x :: es) =
  if is_update (flag_value (entry_type x)) then info_at (entry_data x) :: update_entries es else update_entries es.
Proof. unfold update_entries. rewrite filter_cons. by destruct (is_update _). Qed.

Lemma update_entries_app es es' : update_entries (es ++ es') = update_entries es ++ update_entries es'.
Proof. unfold update_entries. by rewrite filter_app, map_app. Qed.

Lemma update_entries_rev es : update_entries (rev es) = rev (update_entries es).
Proof.
  induction es as [|x es IH]; [done|]. cbn [rev]. rewrite update_entries_app, IH, !update_entries_cons.
  destruct (is_update _); [done|]. apply app_nil_r.
Qed.

(** A callback that throws and changes nothing, or works on the infos of the update entries. *)
Definition on_updates (callback : Callback (option (UpdateSegment T))) (f : positive -> option (UpdateSegment T) -> option (UpdateSegment T)) :=
  forall type data acc, (exists e, callback type data acc = (Throw e, acc)) \/
    callback type data acc = (Ok tt, if is_update type then f (info_at data) acc else acc).

Lemma on_updates_run callback f es acc : on_updates callback f ->
  let '(_, n, acc') := run_entries callback (map visit es) acc in
  acc' = foldl (fun acc p => f p acc) acc (update_entries (take n es)).
Proof.
  intros Hf. revert acc. induction es as [|x es IH]; intros acc; [done|]. cbn [map run_entries visit].
  destruct (Hf (flag_value (entry_type x)) (entry_data x) acc) as [[e ->]| ->]; [done|].
  specialize (IH (if is_update (flag_value (entry_type x)) then f (info_at (entry_data x)) acc else acc)).
  destruct (run_entries callback (map visit es) _) as [[r n] acc']. cbn [take]. rewrite IH, update_entries_cons.
  by destruct (is_update _).
Qed.

Lemma on_updates_pinned callback f pin : on_updates callback f -> on_updates (pinned callback pin) f.
Proof. intros Hf type data acc. unfold pinned. destruct (pin data.1); [apply Hf|left; by eexists]. Qed.

Lemma commit_on_updates cid :
  on_updates (CommitEntry info_at table_modified commit_other cid) (fun p => fmap (CommitUpdate cid p)).
Proof.
  intros type data acc. unfold CommitEntry. destruct (is_update type).
  - destruct (table_modified data); [left; by eexists|by right].
  - destruct (commit_other type data) as [[]|e]; [by right|left; by eexists].
Qed.

Lemma revert_on_updates tid : on_updates (RevertEntry info_at revert_other tid) (fun p => fmap (CommitUpdate tid p)).
Proof.
  intros type data acc. unfold RevertEntry. destruct (is_update type); [by right|].
  destruct (revert_other type data) as [[]|e]; [by right|left; by eexists].
Qed.

(** A callback that never throws works on all of them. *)
Lemma updates_run (callback : Callback (option (UpdateSegment T))) (f : positive -> option (UpdateSegment T) -> option (UpdateSegment T)) es acc :
  (forall type data acc, callback type data acc = (Ok tt, if is_update type then f (info_at data) acc else acc)) ->
  run_entries callback (map visit es) acc = (Ok tt, length es, foldl (fun acc p => f p acc) acc (update_entries es)).
Proof.
  intros Hf. revert acc. induction es as [|x es IH]; intros acc; [done|]. cbn [map run_entries visit]. rewrite Hf, update_entries_cons.
  destruct (is_update (flag_value (entry_type x))); cbn [foldl]; by rewrite IH.
Qed.

Lemma foldl_some {B} (f : B -> positive -> B) ps x : foldl (fun acc p => (fun y => f y p) <$> acc) (Some x) ps = Some (foldl f x ps).
Proof. revert x. induction ps as [|p ps IH]; intros x; [done|]. cbn. by rewrite IH. Qed.

(** Reverting a prefix of the commit gives the infos their transaction id back. *)
Lemma revert_prefix s v cid es n : (exists tr, run (system_step base) initial_system tr s) -> v ∈ running (timeline s) ->
  update_entries es = undo_of (transaction_id v) (segment s) ->
  foldl (fun seg p => CommitUpdate (transaction_id v) p seg)
    (foldl (fun seg p => CommitUpdate cid p seg) (segment s) (update_entries (take n es))) (rev (update_entries (take n es))) = segment s.
Proof.
  intros [tr (a & _ & [_ Hok (chains & owned & Hinv & Hown)])%reached_related] Hv Hes.
  set (seg := segment s) in *. set (tid := transaction_id v) in *.
  assert (Ho : owned tid = Some (undo_of tid seg)) by by apply Hown.
  destruct (seg_owned _ _ _ _ _ _ _ _ Hinv _ _ Ho) as [Hnd _].
  assert (Hsplit : undo_of tid seg = update_entries (take n es) ++ update_entries (drop n es)).
  { by rewrite <- Hes, <- update_entries_app, firstn_skipn. }
  eapply (revert_commit_some base _ chains owned); [exact Hinv|exact Ho| |].
  - rewrite Hsplit in Hnd. by apply NoDup_app in Hnd as (? & _).
  - rewrite Hsplit. set_solver.
Qed.

(** The revert of the other entries returns. *)
Lemma revert_run tid pin' es (acc : option (UpdateSegment T)) :
  (forall x, x ∈ es -> pin' (entry_data x).1 = Ok tt /\
     (is_update (flag_value (entry_type x)) = false -> revert_other (flag_value (entry_type x)) (entry_data x) = Ok tt)) ->
  (run_entries (pinned (RevertEntry info_at revert_other tid) pin') (map visit es) acc).1 = (Ok tt, length es).
Proof.
  revert acc. induction es as [|x es IH]; intros acc Hall; [done|]. cbn [map run_entries visit].
  destruct (Hall x) as [Hpin Hother]; [set_solver|]. unfold pinned at 1. rewrite Hpin. unfold RevertEntry at 1.
  assert (Hes : forall acc : option (UpdateSegment T), (run_entries (pinned (RevertEntry info_at revert_other tid) pin') (map visit es) acc).1 = (Ok tt, length es)).
  { intros acc'. apply IH. intros y Hy. apply Hall. by right. }
  destruct (is_update _); [|rewrite Hother by done];
    (destruct (run_entries _ (map visit es) _) as [[r m] acc'] eqn:E; pose proof (f_equal fst E) as E1; rewrite Hes in E1;
     by injection E1 as <- <-).
Qed.

(** C11. Whichever entry of the undo buffer makes a commit fail - an update of a table that was altered, or an
    entry of another kind -, the revert, when it does not throw, restores the segment exactly, provided that
    no pin stopped the commit (a pin that does misleads the revert: [pin_failure_misleads_revert]). The revert
    does not throw when it can pin every block and reverting the entries of other kinds does not throw.
    A commit that does not fail gives the commit id to all infos of the transaction. *)
Theorem failed_commit_restores_segment tr s v cid b es pin pin' :
  run (system_step base) initial_system tr s -> v ∈ running (timeline s) -> built b es ->
  update_entries es = undo_of (transaction_id v) (segment s) ->
  (forall x, x ∈ es -> pin (entry_data x).1 = Ok tt) ->
  exists r st seg' r' seg'',
    Commit pin (CommitEntry info_at table_modified commit_other cid) new_iterator b (Some (segment s)) = Some (r, st, Some seg') /\
    (r = Ok tt -> seg' = CommitUpdates (transaction_id v) cid (segment s)) /\
    RevertCommit pin' (RevertEntry info_at revert_other (transaction_id v)) st b (Some seg') = Some (r', seg'') /\
    (r' = Ok tt -> seg'' = Some (segment s)) /\
    ((forall x, x ∈ es -> pin' (entry_data x).1 = Ok tt /\
        (is_update (flag_value (entry_type x)) = false -> revert_other (flag_value (entry_type x)) (entry_data x) = Ok tt)) ->
     r' = Ok tt).
Proof.
  intros Hrun Hv [(bs & [Hrep Hfull] & <-) _]%built_represents Hes Hpin.
  set (seg := segment s) in *. set (tid := transaction_id v) in *.
  assert (Hempty : forall pin, empties_pin pin bs) by (intros q i p E; by destruct (Hfull i p)).
  pose proof (on_updates_run _ _ (log bs) (Some seg) (on_updates_pinned _ _ pin (commit_on_updates cid))) as Hcommit.
  destruct (run_entries _ (map visit (log bs)) (Some seg)) as [[r n] acc] eqn:E. rewrite (foldl_some (fun seg p => CommitUpdate cid p seg)) in Hcommit. subst acc.
  destruct (iterate_pinned_spec _ pin b bs new_iterator _ _ _ _ Hrep (Hempty _) E) as (st & Hit & Hstop).
  specialize (Hstop (fun x Hx => Hpin x (list_elem_of_lookup_2 _ _ _ Hx))).
  set (seg' := foldl _ _ _) in *.
  destruct (run_entries (pinned (RevertEntry info_at revert_other tid) pin') (rev (map visit (take n (log bs)))) (Some seg')) as [[r' m] acc'] eqn:E'.
  pose proof (reverse_pinned_spec _ pin' b bs n st _ _ _ _ Hrep (Hempty _) Hstop E') as Hrev.
  rewrite <- map_rev in E'.
  pose proof (on_updates_run _ _ (rev (take n (log bs))) (Some seg') (on_updates_pinned _ _ pin' (revert_on_updates tid))) as Hrevert.
  rewrite E' in Hrevert. rewrite (foldl_some (fun seg p => CommitUpdate tid p seg)) in Hrevert.
  assert (Hdone : r' = Ok tt -> acc' = Some seg).
  { intros ->. apply run_entries_count in E' as [[_ ->]|[[e [=]] _]]. rewrite length_map, firstn_all, update_entries_rev in Hrevert.
    rewrite Hrevert. f_equal. by apply revert_prefix; [eexists|..]. }
  assert (Hret : (forall x, x ∈ log bs -> pin' (entry_data x).1 = Ok tt /\
      (is_update (flag_value (entry_type x)) = false -> revert_other (flag_value (entry_type x)) (entry_data x) = Ok tt)) -> r' = Ok tt).
  { intros Hall. pose proof (revert_run tid pin' (rev (take n (log bs))) (Some seg')) as Hr. rewrite E' in Hr.
    assert (Hr' : (r', m) = (Ok tt, length (rev (take n (log bs))))) by (apply Hr; intros x Hx; apply Hall;
      apply list_elem_of_In, in_rev, list_elem_of_In, elem_of_take in Hx as (? & Hx & _); by eapply list_elem_of_lookup_2). by injection Hr' as ->. }
  assert (Hc : r = Ok tt -> seg' = CommitUpdates tid cid seg).
  { intros ->. apply run_entries_count in E as [[_ ->]|[[e [=]] _]]. unfold seg'. by rewrite length_map, firstn_all, Hes. }
  unfold Commit, RevertCommit. rewrite Hit. eexists r, st, seg'.
  destruct (log bs !! n) as [x|] eqn:Ex; [destruct (pin' (entry_data x).1) as [[]|e] eqn:Epin|].
  - exists r', acc'. by split_and!.
  - exists (Throw e), (Some seg'). split_and!; try done. intros Hall.
    destruct (Hall x) as [Hp _]; [by eapply list_elem_of_lookup_2|]. congruence.
  - exists r', acc'. by split_and!.
Qed.

(** The rollback and the cleanup of a transaction's undo buffer roll back and unlink its infos in the
    order the update segment is verified for. *)
Theorem undo_buffer_drives_segment pin (pin_ok : forall p, pin p = Ok tt) b es tid (seg : UpdateSegment T) : built b es -> update_entries es = undo_of tid seg ->
  Rollback pin (RollbackEntry info_at) b (Some seg) = Some (Ok tt, RollbackUpdates tid seg) /\
  exists b', Cleanup pin (CleanupEntry info_at) b (Some seg) = Some (Ok tt, b', CleanupUpdates tid seg).
Proof.
  intros [(bs & [Hrep _] & <-) Hcl]%built_represents Hes. split.
  - eapply (reverse_spec _ pin pin_ok b bs (length (log bs))); [done|split; [done|by left]|].
    rewrite firstn_all, <- map_rev, (updates_run _ (fun p acc => acc ≫= RollbackUpdate p)) by done.
    by rewrite update_entries_rev, Hes.
  - rewrite (cleanup_spec _ _ _ bs) by done. rewrite Hcl, drop_0.
    rewrite (updates_run _ (fun p acc => acc ≫= CleanupUpdate p)) by done. rewrite Hes. by eexists.
Qed.
End Updates.

(** ** The properties of a buffer *)

Section Properties.
Context `{BufferManager} (pin : Pinning) (pin_ok : forall p, pin p = Ok tt).
Context (delete_at : BufferPointer -> DeleteShape) (catalog_at : BufferPointer -> CatalogShape).

Definition has_entry (f : UndoFlags) (es : list Entry) : bool := existsb (fun x => (flag_value (entry_type x) =? flag_value f)%Z) es.

Lemma properties_run es ps : exists ps',
  run_entries (entry_properties delete_at catalog_at) (map visit es) ps = (Ok tt, length es, ps') /\
  has_updates ps' = has_updates ps || has_entry UPDATE_TUPLE es /\
  has_deletes ps' = has_deletes ps || has_entry DELETE_TUPLE es /\
  has_catalog_changes ps' = has_catalog_changes ps || has_entry CATALOG_ENTRY es.
Proof.
  revert ps. induction es as [|x es IH]; intros ps.
  { exists ps. cbn. by rewrite !orb_false_r. }
  set (ps1 := (entry_properties delete_at catalog_at (flag_value (entry_type x)) (entry_data x) ps).2).
  destruct (IH ps1) as (ps' & Hrun & Hu & Hd & Hc). exists ps'. cbn [map run_entries visit length].
  replace (entry_properties delete_at catalog_at (flag_value (entry_type x)) (entry_data x) ps) with (@Ok unit tt, ps1)
    by (unfold ps1; by destruct ps).
  rewrite Hrun, Hu, Hd, Hc. split; [done|]. unfold ps1, entry_properties, has_entry. destruct ps.
  destruct x as [f data len], f; cbn; try destruct (catalog_at data); cbn; by rewrite ?orb_true_r.
Qed.

Lemma sum_positions_total a bs j fuel z : represents a bs -> j <= length bs -> j <= fuel ->
  is_Some (sum_positions fuel a (match j with O => None | S i => fst <$> bs !! i end) z).
Proof.
  intros Hrep. revert j z. induction fuel as [|fuel IH]; intros j z Hj Hf; destruct j as [|i]; try done; [lia|].
  destruct (lookup_lt_is_Some_2 bs i ltac:(lia)) as [[p l] E]. rewrite E. cbn [fmap option_fmap option_map fst sum_positions].
  destruct (rep_block _ _ Hrep _ _ _ E) as (e & He & Hok). rewrite He. cbn [mbind option_bind].
  rewrite (ok_next _ _ _ _ _ Hok). apply IH; lia.
Qed.

(** The properties of an undo buffer report exactly the kinds of entries it holds. *)
Theorem properties_report_entries b es : built b es ->
  exists ps, GetProperties delete_at catalog_at pin b = Some (Ok ps) /\
    has_updates ps = has_entry UPDATE_TUPLE es /\ has_deletes ps = has_entry DELETE_TUPLE es /\
    has_catalog_changes ps = has_entry CATALOG_ENTRY es.
Proof.
  intros [(bs & [Hrep _] & <-) _]%built_represents. unfold GetProperties, ChangesMade. cbv zeta.
  rewrite (rep_head _ _ Hrep).
  destruct (last bs) as [[h l]|] eqn:Elast.
  - cbn [bool_decide fmap option_fmap option_map]. rewrite bool_decide_eq_true_2 by by eexists. cbn [negb].
    destruct (sum_positions_total _ bs (length bs) (size (blocks (allocator b))) 0 Hrep) as [z Hz]; [lia|rewrite (rep_size _ _ Hrep); lia|].
    replace (match length bs with O => None | S i => fst <$> bs !! i end) with (fst <$> last bs) in Hz
      by (rewrite last_lookup; by destruct bs).
    rewrite Elast in Hz. cbn in Hz. cbn [fst]. rewrite Hz. cbn [mbind option_bind].
    destruct (properties_run (log bs) (mkUndoProperties z false false false false false)) as (ps & Hrun & Hu & Hd & Hc).
    destruct (iterate_spec _ pin pin_ok b bs new_iterator _ _ _ _ Hrep Hrun) as (st & -> & _).
    exists ps. cbn. split; [done|]. by rewrite Hu, Hd, Hc.
  - apply last_None in Elast as ->. by exists no_undo.
Qed.
End Properties.

(** ** A concrete buffer *)

Module UndoRun.
Import UndoSample Sample.

Definition entries := [entry1; entry2; entry3].

Lemma sample_built : built step3.2 entries.
Proof.
  unfold entries. change [entry1; entry2; entry3] with ((([] ++ [entry1]) ++ [entry2]) ++ [entry3]).
  apply (built_create step2.2 _ pin_all DELETE_TUPLE 4090 (2%positive, 8)); [|vm_compute; congruence|vm_compute; reflexivity].
  apply (built_create step1.2 _ pin_all UPDATE_TUPLE 100 (1%positive, 40)); [|vm_compute; congruence|vm_compute; reflexivity].
  apply (built_create new_undo_buffer _ pin_all INSERT_TUPLE 20 (1%positive, 8)); [constructor|vm_compute; congruence|vm_compute; reflexivity].
Qed.

(** When pinning the second block throws during a commit, the iterator stands in the first block's offsets
    but points to the second block: the revert visits the third entry, which was never committed. When
    pinning the first block throws, nothing was committed, and the revert throws. *)
Theorem pin_failure_misleads_revert :
  let pin_first : Pinning := fun p => if (p =? 1)%positive then Ok tt else Throw (IOException "out of memory") in
  let pin_none : Pinning := fun _ => Throw (IOException "out of memory") in
  exists b st st', built b entries /\
    Commit pin_first (collect None) new_iterator b [] = Some (Throw (IOException "out of memory"), st, map visit [entry1; entry2]) /\
    RevertCommit pin_all (collect None) st b [] = Some (Ok tt, map visit [entry3; entry2; entry1]) /\
    Commit pin_none (collect None) new_iterator b [] = Some (Throw (IOException "out of memory"), st', []) /\
    RevertCommit pin_all (collect None) st' b [] = Some (Throw pointer_not_set, []).
Proof.
  exists step3.2, (mkIterator (Some 1%positive) (Some 2%positive) 144 144 true), (mkIterator None (Some 1%positive) 0 0 true).
  split; [apply sample_built|]. split_and!; vm_compute; reflexivity.
Qed.

Lemma undo_entries_visited_witness : built step3.2 entries /\
  (exists st, Commit pin_all (collect (Some (2%positive, 8))) new_iterator step3.2 [] =
     Some (Throw (TransactionException "conflict"), st, map visit [entry1; entry2]) /\
   RevertCommit pin_all (collect None) st step3.2 [] = Some (Ok tt, map visit [entry2; entry1])) /\
  Rollback (fun p => if (p =? 2)%positive then Ok tt else Throw (IOException "out of memory")) (collect None) step3.2 [] =
    Some (Throw (IOException "out of memory"), map visit [entry3]).
Proof.
  split; [apply sample_built|]. destruct (undo_entries_visited _ _ sample_built) as [Hcommit Hrollback]. split.
  - destruct (Hcommit _ (collect (Some (2%positive, 8))) pin_all []) as (st & Hc & Hr). exists st. split; [exact Hc|].
    apply (Hr (fun _ _ => eq_refl) _ (collect None) pin_all []).
  - apply (Hrollback _ (collect None) (fun p => if (p =? 2)%positive then Ok tt else Throw (IOException "out of memory")) []).
Defined.

Lemma undo_payloads_separate_witness : entries !! 1 = Some entry2 /\
  payload (entry_data entry1) (entry_len entry1) (WritePayload (entry_data entry2) 4 [1; 2; 3]%Z step3.2) =
  payload (entry_data entry1) (entry_len entry1) step3.2.
Proof.
  split; [reflexivity|].
  destruct (undo_payloads_separate step3.2 entries 1 entry2 4 [1; 2; 3]%Z sample_built eq_refl ltac:(vm_compute; lia)) as (_ & _ & _ & Hf).
  apply (Hf 0 entry1); [lia|reflexivity].
Defined.

Lemma cleanup_resumes_witness : exists b' b'',
  Cleanup pin_all (collect (Some (1%positive, 40))) step3.2 [] = Some (Throw (TransactionException "conflict"), b', map visit [entry1]) /\
  Cleanup pin_all (collect None) b' [] = Some (Ok tt, b'', map visit [entry2; entry3]).
Proof.
  destruct (cleanup_resumes pin_all (fun _ => eq_refl) step3.2 entries _ (collect (Some (1%positive, 40))) [] sample_built) as (b' & H1 & H2).
  destruct (H2 (collect None) []) as (b'' & H3 & _). exists b', b''. split; [exact H1|exact H3].
Defined.

Lemma properties_report_entries_witness : exists ps,
  GetProperties (fun _ => mkDeleteShape true 3 false) (fun _ => OtherParent) pin_all step3.2 = Some (Ok ps) /\
  has_updates ps = true /\ has_deletes ps = true /\ has_catalog_changes ps = false.
Proof. apply (properties_report_entries pin_all (fun _ => eq_refl) _ _ _ _ sample_built). Defined.

(** The first writer of the sample run updates one vector; committing its third entry throws. *)
Definition refuse_deletes (type : Z) (data : BufferPointer) : result unit :=
  if (type =? flag_value DELETE_TUPLE)%Z then Throw table_modified_exception else Ok tt.

Lemma failed_commit_restores_segment_witness :
  update_entries (fun _ => 2%positive) entries = undo_of (transaction_id Sample.first_writer) Sample.segment3 /\
  exists st seg',
    Commit pin_all (CommitEntry (fun _ => 2%positive) (fun _ => false) refuse_deletes 3) new_iterator step3.2 (Some Sample.segment3) =
      Some (Throw table_modified_exception, st, Some seg') /\
    RevertCommit pin_all (RevertEntry (fun _ => 2%positive) refuse_deletes (transaction_id Sample.first_writer)) st step3.2 (Some seg') =
      Some (Ok tt, Some Sample.segment3).
Proof.
  split; [vm_compute; reflexivity|].
  destruct (failed_commit_restores_segment Sample.base (fun _ => 2%positive) (fun _ => false) refuse_deletes refuse_deletes
    _ (mkSystem Sample.timeline1 Sample.segment3) Sample.first_writer 3 step3.2 entries pin_all pin_all SampleRun.opening_run)
    as (r & st & seg' & r' & seg'' & Hc & _ & Hr & Hdone & _).
  - right. left.
  - apply sample_built.
  - vm_compute. reflexivity.
  - reflexivity.
  - exists st, seg'. vm_compute in Hc. injection Hc as <- <- <-. vm_compute in Hr. injection Hr as <- <-. split; vm_compute; reflexivity.
Defined.

Lemma undo_buffer_drives_segment_witness :
  Rollback pin_all (RollbackEntry (fun _ => 2%positive)) step3.2 (Some Sample.segment3) =
    Some (Ok tt, RollbackUpdates (transaction_id Sample.first_writer) Sample.segment3).
Proof.
  apply (undo_buffer_drives_segment (fun _ => 2%positive) pin_all (fun _ => eq_refl) step3.2 entries _ Sample.segment3 sample_built).
  vm_compute. reflexivity.
Defined.
End UndoRun.
