(* ===== verification/UpdateDatabase.v ===== *)
(** * The transaction manager and an update segment together

    Transactions that the manager starts, commits, rolls back and cleans up, reading and updating a
    column through its update segment. Every run of this database is a run of the system the update
    segment is verified for: the manager keeps the promises that system makes about snapshots, commit
    ids and the moment of a cleanup. *)

From S2P Require Import Prelude Snapshot ValidityMask UpdateInfo UpdateSegment.
From S2P Require Import UpdateInfoFacts UpdateLaws UpdateVersions UpdateChains UpdateInvariant UpdateSegmentFacts UpdateSegmentSpec UpdateSegmentSteps UpdateWrite UpdateOutcome UpdateSystem UpdateTheorems.
From S2P Require Import TransactionManager TransactionManagerFacts TransactionQueues.

Local Open Scope Z_scope.

Section Database.
Context {T Vec : Type} `{SegmentLaws T Vec} `{StdSortSpec} {HC : ColumnType T}.
Context (base : nat -> Vec).
Implicit Types (m : DuckTransactionManager) (seg : UpdateSegment T) (t p : DuckTransaction) (tl : Timeline).

Record database := mkDatabase { manager : DuckTransactionManager; column : UpdateSegment T }.

(** [DuckCleanupInfo::Cleanup] on the undo buffers of the transactions that await it. *)
Definition CleanupColumn (l : list DuckTransaction) seg : option (UpdateSegment T) :=
  foldl (fun r t => if awaiting_cleanup t then r ≫= CleanupUpdates (GetTransactionId t) else r) (Some seg) l.

(** What the manager knows of a transaction when it commits: its undo buffer reports updates
    ([UndoBuffer::GetProperties]). *)
Definition reports t seg : Prop :=
  undo_of (GetTransactionId t) seg <> [] -> has_updates (undo_properties t) = true.

(** A commit of the undo buffer that fails after [k] update infos, and its reversal
    ([UndoBuffer::RevertCommit] up to where the iteration stopped). *)
Definition CommitFirst (k : nat) (tid cid : Z) seg : UpdateSegment T :=
  foldl (fun seg entry => CommitUpdate cid entry seg) seg (take k (undo_of tid seg)).
Definition RevertFirst (k : nat) (tid : Z) seg : UpdateSegment T :=
  foldl (fun seg entry => CommitUpdate tid entry seg) seg (rev (take k (undo_of tid seg))).

Abbreviation events := (list (event (T := T) (Vec := Vec))).

(** A commit fails when the WAL cannot be written, or while the undo buffer is committed: that is
    reverted. In both cases the transaction is rolled back. Left out: a pin of an undo buffer's block that
    fails, and a revert that throws, after which [DuckTransaction::Commit] invalidates the database. *)
Inductive db_step : database -> events -> database -> Prop :=
  | db_start m m' t seg : StartTransaction m = Ok (m', t) ->
      db_step (mkDatabase m seg) [Began (tview t)] (mkDatabase m' seg)
  | db_changes m tid props seg : db_step (mkDatabase m seg) [] (mkDatabase (RecordChanges tid props m) seg)
  | db_catalog m tid seg : db_step (mkDatabase m seg) [] (mkDatabase (PushCatalogVersion tid m) seg)
  | db_update m seg seg' t r : t ∈ active_transactions m -> request_ok r ->
      run_update base (tview t) r seg = Some (Ok tt, seg') ->
      db_step (mkDatabase m seg) [Updated (tview t) r] (mkDatabase m seg')
  | db_conflict m seg seg' t r e : t ∈ active_transactions m -> request_ok r ->
      run_update base (tview t) r seg = Some (Throw e, seg') ->
      db_step (mkDatabase m seg) [Conflicted (tview t) r] (mkDatabase m seg')
  | db_fetch m seg t vi scan result : t ∈ active_transactions m -> scanned base vi scan ->
      FetchUpdates (tview t) vi seg scan = Some result ->
      db_step (mkDatabase m seg) [Fetched (tview t) vi result] (mkDatabase m seg)
  | db_commit m m' seg t tid : current_start_timestamp m < MAX_COMMIT_ID -> find_transaction tid m = Some t ->
      reports t seg -> CommitTransaction tid false false m = Ok (m', true) ->
      db_step (mkDatabase m seg) [Committed (tview t) (current_start_timestamp m)]
        (mkDatabase m' (CommitUpdates tid (current_start_timestamp m) seg))
  | db_failed_wal m m' seg seg' t tid ce : current_start_timestamp m < MAX_COMMIT_ID -> find_transaction tid m = Some t ->
      CommitTransaction tid true ce m = Ok (m', false) -> RollbackUpdates tid seg = Some seg' ->
      db_step (mkDatabase m seg) [RolledBack (tview t)] (mkDatabase m' seg')
  | db_failed_commit m m' seg seg' t tid k : current_start_timestamp m < MAX_COMMIT_ID -> find_transaction tid m = Some t ->
      CommitTransaction tid false true m = Ok (m', false) ->
      RollbackUpdates tid (RevertFirst k tid (CommitFirst k tid (current_start_timestamp m) seg)) = Some seg' ->
      db_step (mkDatabase m seg) [RolledBack (tview t)] (mkDatabase m' seg')
  | db_rollback m m' seg seg' t tid : find_transaction tid m = Some t ->
      RollbackTransaction tid m = Ok m' -> RollbackUpdates tid seg = Some seg' ->
      db_step (mkDatabase m seg) [RolledBack (tview t)] (mkDatabase m' seg')
  | db_cleanup m m' seg seg' info : CleanupStep m = Some (m', info) ->
      CleanupColumn (cleanup_transactions info) seg = Some seg' ->
      db_step (mkDatabase m seg) [] (mkDatabase m' seg').

Inductive db_run : events -> database -> Prop :=
  | db_initial garbage : db_run [] (mkDatabase (initial_manager garbage) initial_segment)
  | db_next tr d es d' : db_run tr d -> db_step d es d' -> db_run (tr ++ es) d'.

(** ** The relation to the system of the update segment *)

(** The events a client sees; cleanups and the bound they need are internal. *)
Definition visible (e : event (T := T) (Vec := Vec)) : bool :=
  match e with CleanedUp _ | Raised _ => false | _ => true end.

Abbreviation reached tr s := (run (system_step base) initial_system tr s).

(** The versions of a committed transaction are still in the chains. *)
Definition waits tl p : Prop := keeps_versions p = true /\ (GetTransactionId p, commit_id p) ∈ uncleaned tl.

Record keeps_up m seg tl : Prop := {
  up_reachable : reachable m;
  up_ids : ids_ok m;
  up_running v : v ∈ running tl <-> exists t, t ∈ active_transactions m /\ tview t = v;
  up_commit : next_commit tl <= current_start_timestamp m;
  up_tid : next_transaction tl <= current_transaction_id m;
  up_recent p : p ∈ recently_committed_transactions m -> waits tl p;
  up_queue p : p ∈ queued m -> awaiting_cleanup p = true -> undo_of (GetTransactionId p) seg = [] \/ waits tl p
}.

(** A step that leaves the pending transactions, and their entries in the undo buffers, alone. *)
Lemma keeps_up_queues m seg tl m' seg' tl' : keeps_up m seg tl -> reachable m' -> ids_ok m' ->
  (forall v, v ∈ running tl' <-> exists t, t ∈ active_transactions m' /\ tview t = v) ->
  next_commit tl' <= current_start_timestamp m' -> next_transaction tl' <= current_transaction_id m' ->
  recently_committed_transactions m' = recently_committed_transactions m -> queued m' = queued m ->
  uncleaned tl' = uncleaned tl ->
  (forall p, p ∈ pending m -> undo_of (GetTransactionId p) seg' = undo_of (GetTransactionId p) seg) ->
  keeps_up m' seg' tl'.
Proof.
  intros [] Hr Hi Hrun Hc Ht Hrec Hq Hu Hundo. split; try done.
  - intros p. rewrite Hrec. unfold waits. rewrite Hu. apply up_recent0.
  - intros p. rewrite Hq. intros Hp Hw. rewrite Hundo by (apply elem_of_app; by right). unfold waits. rewrite Hu. by apply up_queue0.
Qed.

(** A transaction leaves the active ones. *)
Lemma keeps_up_removed store t0 t l1 l2 m seg tl m' seg' tl' : keeps_up m seg tl -> reachable m' ->
  active_transactions m = l1 ++ t0 :: l2 -> GetTransactionId t0 = GetTransactionId t -> removed store t l1 l2 m m' ->
  current_transaction_id m' = current_transaction_id m ->
  (forall v, v ∈ running tl' <-> v ∈ running tl /\ transaction_id v <> GetTransactionId t0) ->
  next_commit tl' <= current_start_timestamp m' -> next_transaction tl' = next_transaction tl ->
  (forall e, e ∈ uncleaned tl -> e ∈ uncleaned tl') ->
  undo_entries seg' = undo_entries seg ->
  (forall p, p ∈ (rehome store t).1 -> waits tl' p) ->
  (forall p, p ∈ (rehome store t).2 -> awaiting_cleanup p = true -> undo_of (GetTransactionId p) seg = []) ->
  keeps_up m' seg' tl'.
Proof.
  intros [] Hr Hact Hid Hrem Hctid Hrun Hc Ht Hu Hundo Hnew Hempty.
  pose proof (ids_ok_removed store t0 t l1 l2 m m' up_ids0 Hact Hid Hctid Hrem) as Hids'.
  destruct Hrem as [Hact' Hrest]. destruct (rehome store t) as [recent rehomed]. destruct Hrest as (n & Hrec & Hq). cbn in *.
  assert (Hall : forall p, p ∈ recently_committed_transactions m ++ recent -> waits tl' p).
  { intros p [Hp|Hp]%elem_of_app; [|by apply Hnew]. destruct (up_recent0 p Hp) as [? ?]. split; [done|by apply Hu]. }
  split; try done.
  - intros v. rewrite Hrun, up_running0, Hact, Hact'.
    pose proof (inv_nodup _ (reachable_inv _ up_reachable0)) as Hnd. rewrite Hact, fmap_app in Hnd. cbn in Hnd.
    apply NoDup_app in Hnd as (_ & Hdis & [Hnot _]%NoDup_cons). split.
    + intros [(t1 & Hin & <-) Hne]. exists t1. split; [|done].
      apply elem_of_app in Hin as [?|[->|?]%elem_of_cons]; [apply elem_of_app; by left|done|apply elem_of_app; by right].
    + intros (t1 & Hin & <-). apply elem_of_app in Hin as [Hin|Hin]; (split; [exists t1; split; [|done]|]).
      * apply elem_of_app. by left.
      * intros E. apply (Hdis (GetTransactionId t0)); [|by left]. rewrite <- E. by apply (list_elem_of_fmap_2 GetTransactionId).
      * apply elem_of_app. right. by right.
      * intros E. apply Hnot. rewrite <- E. by apply (list_elem_of_fmap_2 GetTransactionId).
  - lia.
  - intros p. rewrite Hrec. intros Hp. apply Hall. apply list_elem_of_lookup in Hp as [i Hi].
    rewrite lookup_drop in Hi. by apply list_elem_of_lookup_2 in Hi.
  - intros p. rewrite Hq. unfold undo_of. rewrite Hundo. intros [Hp|[Hp|(r & -> & Hr')%list_elem_of_fmap]%elem_of_app]%elem_of_app Hw.
    + destruct (up_queue0 p Hp Hw) as [?|[? ?]]; [by left|right; split; [done|by apply Hu]].
    + left. by apply Hempty.
    + right. apply elem_of_take in Hr' as (i & Hi%list_elem_of_lookup_2 & _). by apply (Hall r).
Qed.

(** ** What the steps of a segment leave alone *)

Lemma update_frame s a v r seg' res x : related base s a -> v ∈ running (timeline s) -> request_ok r ->
  run_update base v r (segment s) = Some (res, seg') -> x <> transaction_id v -> undo_of x seg' = undo_of x (segment s).
Proof.
  intros [_ Hok (chains & owned & Hinv & Hown)] Hv [Hb Hin] Hrun Hx.
  destruct (update_spec base (timeline_clock _ Hok) v Hv (request_column r) (request_update r) (request_ids r) (request_start r)
    (request_vector r) Hb (segment s) (history a) chains owned (request_count r) Hinv (owners_running _ _ _ Hown v Hv) Hin)
    as (res' & seg1 & Hu & Hres).
  unfold run_update in Hrun. rewrite Hu in Hrun. injection Hrun as -> ->. unfold undo_of.
  destruct res as [u|e]; [destruct Hres as (um & _ & Hup)|destruct Hres as (_ & _ & Hup)];
    destruct Hup as (c & o & _ & _ & Hoth); by destruct (Hoth x Hx) as [_ ->].
Qed.

Lemma rollback_frame s a v seg' : related base s a -> v ∈ running (timeline s) ->
  RollbackUpdates (transaction_id v) (segment s) = Some seg' -> undo_entries seg' = undo_entries (segment s).
Proof.
  intros [_ Hok (chains & owned & Hinv & Hown)] Hv Hrun.
  destruct (rollback_updates_spec base (timeline_clock _ Hok) v (segment s) (history a) chains owned Hinv Hv
    (owners_running _ _ _ Hown v Hv)) as (seg1 & c & o & Hr & Hu & _).
  rewrite Hrun in Hr. by injection Hr as ->.
Qed.

(** However far a commit got, reverting it restores the segment. *)
Lemma revert_first s a v k cid : related base s a -> v ∈ running (timeline s) ->
  RevertFirst k (transaction_id v) (CommitFirst k (transaction_id v) cid (segment s)) = segment s.
Proof.
  intros [_ Hok (chains & owned & Hinv & Hown)] Hv. pose proof (owners_running _ _ _ Hown v Hv) as Ho.
  destruct (seg_owned _ _ _ _ _ _ _ _ Hinv _ _ Ho) as [Hnd _].
  unfold RevertFirst, CommitFirst. set (ps := take k (undo_of (transaction_id v) (segment s))).
  assert (take k (undo_of (transaction_id v) (foldl (fun seg q => CommitUpdate cid q seg) (segment s) ps)) = ps) as ->.
  { unfold undo_of. by rewrite (proj1 (proj2 (commit_updates_rest cid ps (segment s)))). }
  eapply (revert_commit_some base); [exact Hinv|exact Ho|..].
  - by eapply sublist_NoDup; [exact Hnd|apply sublist_take].
  - intros p Hp. by eapply elem_of_submseteq; [exact Hp|apply sublist_submseteq, sublist_take].
Qed.

Lemma cleanup_goes_through s a tid cid : related base s a -> (tid, cid) ∈ uncleaned (timeline s) -> cid < lowest (timeline s) ->
  exists seg', CleanupUpdates tid (segment s) = Some seg' /\ undo_entries seg' = undo_entries (segment s).
Proof.
  intros [_ Hok (chains & owned & Hinv & Hown)] Hin Hc.
  destruct (cleanup_updates_spec base tid cid (segment s) (history a) chains owned Hinv Hc (owners_uncleaned _ _ _ Hown tid cid Hin))
    as (seg1 & c & o & Hr & Hu & _). by exists seg1.
Qed.

(** ** A cleanup of the manager *)

(** The moment the cleanup of a committed transaction is due for its versions. *)
Lemma clean_one tr tl seg tid cid : reached tr (mkSystem tl seg) -> (tid, cid) ∈ uncleaned tl ->
  (forall v, v ∈ running tl -> cid < VisibilityBound.value (visibility_bound v)) ->
  exists seg' es low, CleanupUpdates tid seg = Some seg' /\ undo_entries seg' = undo_entries seg /\
    List.filter visible es = [] /\ reached (tr ++ es) (mkSystem (cleanup_timeline tid (raise_timeline low tl)) seg').
Proof.
  intros Hreach Hin Hbound. destruct (reached_related base _ _ Hreach) as (a & _ & Hrel).
  pose proof (related_ok _ _ _ Hrel) as Hok. cbn in Hok. destruct (timeline_uncleaned _ Hok tid cid Hin) as (_ & Hc & _).
  set (low := Z.max (lowest tl) (cid + 1)).
  assert (Hraise : can_raise low tl).
  { split; [pose proof (clock_low _ _ _ (timeline_clock _ Hok)); lia|]. intros v Hv. specialize (Hbound v Hv).
    destruct (clock_views _ _ _ (timeline_clock _ Hok) v Hv) as [_ ?]. lia. }
  assert (Hreach1 : reached (tr ++ [Raised low]) (mkSystem (raise_timeline low tl) seg)).
  { eapply run_snoc; [exact Hreach|by constructor]. }
  destruct (reached_related base _ _ Hreach1) as (a1 & _ & Hrel1).
  destruct (cleanup_goes_through _ _ tid cid Hrel1) as (seg' & Hclean & Hundo); [done|cbn; lia|]. cbn in Hclean, Hundo.
  exists seg', [Raised low; CleanedUp tid], low. split_and!; [done..|].
  change [Raised low; CleanedUp tid] with ([Raised low] ++ [CleanedUp tid] : events). rewrite app_assoc.
  eapply run_snoc; [exact Hreach1|]. eapply (system_cleanup base _ _ _ tid cid); [done|cbn; lia|done].
Qed.

Lemma clean_column l tr tl seg : reached tr (mkSystem tl seg) -> NoDup (GetTransactionId <$> l) ->
  (forall p, p ∈ l -> awaiting_cleanup p = true -> undo_of (GetTransactionId p) seg = [] \/
     waits tl p /\ forall v, v ∈ running tl -> commit_id p < VisibilityBound.value (visibility_bound v)) ->
  exists seg' tl' es, CleanupColumn l seg = Some seg' /\ undo_entries seg' = undo_entries seg /\
    List.filter visible es = [] /\ reached (tr ++ es) (mkSystem tl' seg') /\
    running tl' = running tl /\ next_commit tl' = next_commit tl /\ next_transaction tl' = next_transaction tl /\
    forall tid cid, (tid, cid) ∈ uncleaned tl -> tid ∉ GetTransactionId <$> l -> (tid, cid) ∈ uncleaned tl'.
Proof.
  unfold CleanupColumn. revert tr tl seg. induction l as [|p l IH]; intros tr tl seg Hreach Hnd Hl.
  { exists seg, tl, []. rewrite app_nil_r. by split_and!. }
  cbn in Hnd. apply NoDup_cons in Hnd as [Hp Hnd].
  assert (Hskip : CleanupColumn l seg = foldl (fun r t => if awaiting_cleanup t then r ≫= CleanupUpdates (GetTransactionId t) else r)
      (if awaiting_cleanup p then Some seg ≫= CleanupUpdates (GetTransactionId p) else Some seg) l ->
    exists seg' tl' es, CleanupColumn l seg = Some seg' /\ undo_entries seg' = undo_entries seg /\
    List.filter visible es = [] /\ reached (tr ++ es) (mkSystem tl' seg') /\
    running tl' = running tl /\ next_commit tl' = next_commit tl /\ next_transaction tl' = next_transaction tl /\
    forall tid cid, (tid, cid) ∈ uncleaned tl -> tid ∉ GetTransactionId p :: (GetTransactionId <$> l) -> (tid, cid) ∈ uncleaned tl').
  { intros _. destruct (IH tr tl seg Hreach Hnd) as (seg' & tl' & es & Hc1 & Hc2 & Hc3 & Hc4 & Hc5 & Hc6 & Hc7 & Hc8).
    - intros q Hq. apply Hl. by right.
    - exists seg', tl', es. split_and!; try done. intros tid cid Hin [_ Hn]%not_elem_of_cons. by apply Hc8. }
  cbn [foldl]. destruct (awaiting_cleanup p) eqn:Ew; [|by apply Hskip].
  destruct (Hl p ltac:(left) Ew) as [Hnone|[[_ Hin] Hbound]].
  - assert (CleanupUpdates (GetTransactionId p) seg = Some seg) as Hid by (unfold CleanupUpdates; by rewrite Hnone).
    cbn [mbind option_bind]. rewrite Hid. apply Hskip. cbn [mbind option_bind]. by rewrite Hid.
  - destruct (clean_one tr tl seg _ _ Hreach Hin Hbound) as (seg1 & es1 & low & Hclean & Hu1 & Hv1 & Hreach1).
    cbn [mbind option_bind]. rewrite Hclean.
    destruct (IH _ _ _ Hreach1 Hnd) as (seg' & tl' & es & Hc1 & Hc2 & Hc3 & Hc4 & Hc5 & Hc6 & Hc7 & Hc8).
    { intros q Hq Hwq. unfold undo_of. rewrite Hu1. destruct (Hl q ltac:(by right) Hwq) as [?|[[Hk Hinq] Hb]]; [by left|].
      right. split; [split; [done|]|done]. cbn. apply list_elem_of_In, List.filter_In. split; [by apply list_elem_of_In|].
      cbn. apply negb_true_iff, Z.eqb_neq. intros E. apply Hp. rewrite <- E. by apply list_elem_of_fmap_2. }
    exists seg', tl', (es1 ++ es). rewrite app_assoc. split_and!; try done; [congruence|by rewrite List.filter_app, Hv1, Hc3|].
    intros tid cid Hin' [Hne Hn]%not_elem_of_cons. apply Hc8; [|done]. cbn. apply list_elem_of_In, List.filter_In.
    split; [by apply list_elem_of_In|]. cbn. by apply negb_true_iff, Z.eqb_neq.
Qed.
(** ** Every step of the database is steps of the system *)

(** The steps a segment takes for a step of the database. *)
Definition follows tr es m' seg' : Prop := exists es0 tl',
  reached (tr ++ es0) (mkSystem tl' seg') /\ List.filter visible es0 = es /\ keeps_up m' seg' tl'.

Lemma follows_one tr e tl m' seg tl' seg' : reached tr (mkSystem tl seg) -> system_step base (mkSystem tl seg) e (mkSystem tl' seg') ->
  visible e = true -> keeps_up m' seg' tl' -> follows tr [e] m' seg'.
Proof.
  intros Hr Hs Hv Hk. exists [e], tl'. split_and!; [by eapply run_snoc|cbn; by rewrite Hv|done].
Qed.

Lemma find_active m tid t : find_transaction tid m = Some t -> t ∈ active_transactions m /\ GetTransactionId t = tid.
Proof.
  intros (l1 & l2 & -> & Ht & _)%index_of_lookup. split; [|done]. apply elem_of_app. right. by left.
Qed.

Lemma active_running m seg tl t : keeps_up m seg tl -> t ∈ active_transactions m -> tview t ∈ running tl.
Proof. intros Hk Ht. apply (up_running _ _ _ Hk). by exists t. Qed.

Lemma start_fields m m' t : Inv m -> StartTransaction m = Ok (m', t) ->
  active_transactions m' = active_transactions m ++ [t] /\ transaction_id (tview t) = current_transaction_id m /\
  VisibilityBound.value (visibility_bound (tview t)) = current_start_timestamp m /\
  current_start_timestamp m' = current_start_timestamp m + 1 /\ current_transaction_id m' = current_transaction_id m + 1 /\
  recently_committed_transactions m' = recently_committed_transactions m /\ queued m' = queued m /\
  current_start_timestamp m < TRANSACTION_ID_START.
Proof.
  intros HI. unfold StartTransaction. destruct (Z.leb_spec TRANSACTION_ID_START (current_start_timestamp m)); [done|].
  intros [= <- <-]. pose proof (inv_ids _ HI). pose proof (inv_start _ HI). cbn.
  assert (in_u 64 (current_start_timestamp m + 1) /\ in_u 64 (current_transaction_id m + 1)) as [Hs Hi].
  { unfold in_u. change (2 ^ 64) with 18446744073709551616. unfold TRANSACTION_ID_START in *. lia. }
  split_and!; try done; by apply wrapu_small.
Qed.

Lemma follows_start tr m m' t seg tl : reached tr (mkSystem tl seg) -> keeps_up m seg tl -> StartTransaction m = Ok (m', t) ->
  follows tr [Began (tview t)] m' seg.
Proof.
  intros Hr Hk Hs. pose proof (reachable_inv _ (up_reachable _ _ _ Hk)) as HI.
  assert (reachable m') as Hreach by (eapply reachable_step; [apply Hk|by eapply step_start]).
  destruct (start_fields m m' t HI Hs) as (Hact & Hid & Hb & Hst & Htid & Hrec & Hq & Hlt).
  pose proof (up_commit _ _ _ Hk). pose proof (up_tid _ _ _ Hk).
  eapply follows_one; [exact Hr|apply system_begin|done|].
  - split; [|split; [lia|]].
    + apply (reachable_wf_view m' t Hreach). rewrite Hact. apply elem_of_app. right. by left.
    + rewrite Hb. change TRANSACTION_ID_START with (MAX_COMMIT_ID + 1) in Hlt. lia.
  - eapply keeps_up_queues; try done; cbn; [by eapply ids_ok_start, Hs; [|apply Hk]|..|lia|lia].
    intros v. rewrite elem_of_cons, (up_running _ _ _ Hk), Hact. split.
    + intros [->|(t1 & Ht1 & <-)]; [exists t|exists t1]; (split; [|done]); apply elem_of_app; [right; by left|by left].
    + intros (t1 & [Ht1| ->%list_elem_of_singleton]%elem_of_app & <-); [right; by exists t1|by left].
Qed.

(** What a transaction records about itself does not concern the segment. *)
Lemma follows_record tr g m m' seg tl : reached tr (mkSystem tl seg) -> keeps_up m seg tl -> step m m' ->
  active_transactions m' = g <$> active_transactions m -> (forall t, tview (g t) = tview t) ->
  recently_committed_transactions m' = recently_committed_transactions m -> queued m' = queued m ->
  current_start_timestamp m' = current_start_timestamp m -> current_transaction_id m' = current_transaction_id m ->
  follows tr [] m' seg.
Proof.
  intros Hr Hk Hstep Hact Hg Hrec Hq Hst Htid. exists [], tl. rewrite app_nil_r. split_and!; [done..|].
  eapply keeps_up_queues; try done; [by eapply reachable_step; [apply Hk|]|..].
  - eapply (ids_ok_same m m' g); try done; [|unfold pending; congruence|apply Hk]. intros t. unfold GetTransactionId. by rewrite Hg.
  - intros v. rewrite (up_running _ _ _ Hk), Hact. split.
    + intros (t & Ht & <-). exists (g t). split; [by apply list_elem_of_fmap_2|done].
    + intros (t' & (t & -> & Ht)%list_elem_of_fmap & <-). by exists t.
  - rewrite Hst. apply Hk.
  - rewrite Htid. apply Hk.
Qed.

(** An update, by a step that leaves the manager alone. *)
Lemma follows_write tr m seg seg' t r res e tl : reached tr (mkSystem tl seg) -> keeps_up m seg tl ->
  t ∈ active_transactions m -> request_ok r -> run_update base (tview t) r seg = Some (res, seg') ->
  visible e = true -> system_step base (mkSystem tl seg) e (mkSystem tl seg') -> follows tr [e] m seg'.
Proof.
  intros Hr Hk Ht Hok Hu Hv Hs. destruct (reached_related base _ _ Hr) as (a & _ & Hrel).
  eapply follows_one; [exact Hr|exact Hs|done|]. eapply keeps_up_queues; try done; try apply Hk.
  intros p Hp. apply (update_frame (mkSystem tl seg) a (tview t) r seg' res); [done|by eapply active_running|done|done|].
  by apply (active_not_pending m t p); [apply Hk|..].
Qed.

(** A commit: the transaction is kept for its versions exactly when it has any. *)
Lemma follows_commit tr m m' seg t tid tl : reached tr (mkSystem tl seg) -> keeps_up m seg tl ->
  current_start_timestamp m < MAX_COMMIT_ID -> find_transaction tid m = Some t -> reports t seg ->
  CommitTransaction tid false false m = Ok (m', true) ->
  follows tr [Committed (tview t) (current_start_timestamp m)] m' (CommitUpdates tid (current_start_timestamp m) seg).
Proof.
  intros Hr Hk Hlt Hf Hrep Hc. pose proof (reachable_inv _ (up_reachable _ _ _ Hk)) as HI.
  assert (current_start_timestamp m < TRANSACTION_ID_START) as Hlt'.
  { change TRANSACTION_ID_START with (MAX_COMMIT_ID + 1). lia. }
  destruct (commit_queues m m' tid false false true HI Hlt' Hc)
    as (_ & l1 & t0 & l2 & t' & Hact & Hf' & Ht & Ht' & Hcid & Hp & Hch & _ & Hst & Htid & Hrem).
  assert (t0 = t) as -> by congruence. clear Hf'. cbn in Hcid.
  pose proof (up_commit _ _ _ Hk) as Hnext. pose proof (inv_start _ HI) as Hpos.
  assert (Hv : tview t ∈ running tl). { eapply active_running; [done|]. by apply (find_active m tid t). }
  eapply follows_one; [exact Hr| |done|].
  { rewrite <- Ht. apply system_commit; [done|lia]. }
  eapply (keeps_up_removed _ t t' l1 l2); try done; cbn; try lia.
  - eapply reachable_step; [apply Hk|]. by eapply step_commit, Hc.
  - intros v. by rewrite without_in.
  - intros e He. by right.
  - apply commit_updates_rest.
  - intros p. unfold rehome. rewrite Hcid. destruct (store_transaction _ _) eqn:Es; [|by destruct (changes_made t'); intros ?%elem_of_nil].
    destruct (Z.eqb_spec (current_start_timestamp m) 0); [lia|]. intros ->%list_elem_of_singleton. split.
    + unfold keeps_versions. rewrite Hp. unfold store_transaction in Es. by rewrite orb_false_r in Es.
    + rewrite Ht', Hcid, <- Ht. by left.
  - intros p. unfold rehome. rewrite Hcid. destruct (store_transaction _ _) eqn:Es.
    { destruct (Z.eqb_spec (current_start_timestamp m) 0); [lia|]. by intros ?%elem_of_nil. }
    destruct (changes_made t'); [|by intros ?%elem_of_nil]. intros ->%list_elem_of_singleton _.
    change (undo_of (GetTransactionId t') seg = []). rewrite Ht', <- Ht.
    destruct (undo_of (GetTransactionId t) seg) eqn:Eu; [done|]. exfalso.
    assert (has_updates (undo_properties t) = true) as Hu by (apply Hrep; by rewrite Eu).
    unfold store_transaction in Es. by rewrite Hu in Es.
Qed.

(** A rollback, whatever led to it: nothing waits for the versions of the transaction. *)
Lemma follows_rollback store tr m m' seg seg' t t' l1 l2 tl : reached tr (mkSystem tl seg) -> keeps_up m seg tl ->
  reachable m' -> active_transactions m = l1 ++ t :: l2 -> GetTransactionId t' = GetTransactionId t ->
  commit_id t' = 0 -> awaiting_cleanup t' = false -> (store = false -> changes_made t' = false) ->
  removed store t' l1 l2 m m' -> current_transaction_id m' = current_transaction_id m ->
  current_start_timestamp m <= current_start_timestamp m' ->
  system_step base (mkSystem tl seg) (RolledBack (tview t)) (mkSystem (rollback_timeline (GetTransactionId t) tl) seg') ->
  undo_entries seg' = undo_entries seg -> follows tr [RolledBack (tview t)] m' seg'.
Proof.
  intros Hr Hk Hreach Hact Hid Hc Hw Hch Hrem Htid Hst Hstep Hu.
  pose proof (up_commit _ _ _ Hk). pose proof (up_tid _ _ _ Hk).
  eapply follows_one; [exact Hr|exact Hstep|done|].
  eapply (keeps_up_removed _ t t' l1 l2); try done; cbn; try lia.
  - intros v. by rewrite without_in.
  - intros p. unfold rehome. rewrite Hc. destruct store; cbn; [by intros ?%elem_of_nil|].
    rewrite Hch by done. by intros ?%elem_of_nil.
  - intros p. unfold rehome. rewrite Hc. destruct store; cbn.
    + intros ->%list_elem_of_singleton. congruence.
    + rewrite Hch by done. by intros ?%elem_of_nil.
Qed.

Lemma follows_failed tr m m' seg seg' t tid we ce tl : reached tr (mkSystem tl seg) -> keeps_up m seg tl ->
  current_start_timestamp m < MAX_COMMIT_ID -> find_transaction tid m = Some t ->
  CommitTransaction tid we ce m = Ok (m', false) ->
  system_step base (mkSystem tl seg) (RolledBack (tview t)) (mkSystem (rollback_timeline (GetTransactionId t) tl) seg') ->
  undo_entries seg' = undo_entries seg -> follows tr [RolledBack (tview t)] m' seg'.
Proof.
  intros Hr Hk Hlt Hf Hc Hstep Hu. pose proof (reachable_inv _ (up_reachable _ _ _ Hk)) as HI.
  assert (current_start_timestamp m < TRANSACTION_ID_START) as Hlt'.
  { change TRANSACTION_ID_START with (MAX_COMMIT_ID + 1). lia. }
  destruct (commit_queues m m' tid we ce false HI Hlt' Hc)
    as (Herr & l1 & t0 & l2 & t' & Hact & Hf' & Ht & Ht' & Hcid & _ & _ & Hw & Hst & Htid & Hrem).
  assert (t0 = t) as -> by congruence. destruct (we || ce); [|done].
  apply (follows_rollback (store_transaction (undo_properties t) true) tr m m' seg seg' t t' l1 l2 tl); try done; [|congruence| |lia].
  - eapply reachable_step; [apply Hk|]. by eapply step_commit, Hc.
  - unfold store_transaction. by rewrite orb_true_r.
Qed.

(** A cleanup of the manager always goes through, and takes no version a transaction still needs. *)
Lemma follows_cleanup tr m m' info seg tl : reached tr (mkSystem tl seg) -> keeps_up m seg tl -> CleanupStep m = Some (m', info) ->
  exists seg', CleanupColumn (cleanup_transactions info) seg = Some seg' /\ follows tr [] m' seg'.
Proof.
  intros Hr Hk Hs. pose proof (reachable_inv _ (up_reachable _ _ _ Hk)) as HI. pose proof (up_ids _ _ _ Hk) as [Hd Hb].
  assert (reachable m') as Hreach by (eapply reachable_step; [apply Hk|by eapply step_cleanup]).
  unfold CleanupStep in Hs. destruct (cleanup_queue m) as [|i rest] eqn:Hq; [done|]. injection Hs as <- ->.
  assert (Hperm : all_ids m ≡ₚ (GetTransactionId <$> cleanup_transactions info) ++ all_ids (set_queue rest m)).
  { unfold all_ids, pending, queued. cbn. rewrite Hq. cbn. rewrite !fmap_app. solve_Permutation. }
  rewrite Hperm in Hd. apply NoDup_app in Hd as (Hnd & Hdis & Hnd').
  assert (Hqueued : queued m = cleanup_transactions info ++ queued (set_queue rest m)) by (unfold queued; by rewrite Hq).
  destruct (clean_column (cleanup_transactions info) tr tl seg Hr Hnd) as (seg' & tl' & es & Hc & Hu & Hv & Hreach' & Hrun & Hnc & Hnt & Hunc).
  { intros p Hp Hw. destruct (up_queue _ _ _ Hk p) as [?|Hwait]; [|done|by left|right].
    { rewrite Hqueued. apply elem_of_app. by left. }
    split; [done|]. intros v Hin. apply (up_running _ _ _ Hk) in Hin as (t & Ht & <-).
    destruct (inv_queue _ HI info) with p as [_ Hall]; [rewrite Hq; by left|done|done|apply Hwait|].
    pose proof (inv_active _ HI) as Hf. rewrite Forall_forall in Hf. rewrite (act_view _ _ _ (Hf t Ht)). by apply Hall. }
  exists seg'. split; [done|]. exists es, tl'. split_and!; [done..|].
  assert (Hkeep : forall p, p ∈ pending (set_queue rest m) -> waits tl p -> waits tl' p).
  { intros p Hp [? Hin]. split; [done|]. apply Hunc; [done|]. intros Hin'. apply (Hdis _ Hin').
    unfold all_ids. apply list_elem_of_fmap_2, elem_of_app. by right. }
  split; try done.
  - split; [done|]. intros id Hid. apply Hb. rewrite Hperm. apply elem_of_app. by right.
  - intros v. rewrite Hrun. apply (up_running _ _ _ Hk).
  - rewrite Hnc. apply (up_commit _ _ _ Hk).
  - rewrite Hnt. apply (up_tid _ _ _ Hk).
  - intros p Hp. apply Hkeep; [apply elem_of_app; by left|]. by apply (up_recent _ _ _ Hk).
  - intros p Hp Hw. unfold undo_of. rewrite Hu. destruct (up_queue _ _ _ Hk p) as [?|?]; [|done|by left|right].
    + rewrite Hqueued. apply elem_of_app. by right.
    + apply Hkeep; [|done]. apply elem_of_app. by right.
Qed.
Lemma follows_rolled_back tr m m' seg seg' t tid tl : reached tr (mkSystem tl seg) -> keeps_up m seg tl ->
  find_transaction tid m = Some t -> RollbackTransaction tid m = Ok m' ->
  system_step base (mkSystem tl seg) (RolledBack (tview t)) (mkSystem (rollback_timeline (GetTransactionId t) tl) seg') ->
  undo_entries seg' = undo_entries seg -> follows tr [RolledBack (tview t)] m' seg'.
Proof.
  intros Hr Hk Hf Hc Hstep Hu. pose proof (reachable_inv _ (up_reachable _ _ _ Hk)) as HI.
  destruct (rollback_queues m m' tid Hc) as (l1 & t0 & l2 & Hact & Hf' & Ht & Hst & Htid & Hrem).
  assert (t0 = t) as -> by congruence.
  destruct (find_active m tid t Hf) as [Hin _]. pose proof (inv_active _ HI) as Hall. rewrite Forall_forall in Hall.
  destruct (Hall t Hin) as [_ _ _ Hcid Hw].
  apply (follows_rollback (changes_made t) tr m m' seg seg' t t l1 l2 tl); try done; [|lia].
  eapply reachable_step; [apply Hk|]. by eapply step_rollback.
Qed.

(** ** The simulation *)

Lemma db_step_follows tr m seg tl es d' : reached tr (mkSystem tl seg) -> keeps_up m seg tl ->
  db_step (mkDatabase m seg) es d' -> follows tr es (manager d') (column d').
Proof.
  intros Hr Hk Hs. destruct (reached_related base _ _ Hr) as (a & _ & Hrel).
  inversion Hs as [m0 m' t ? Hst|m0 tid props ?|m0 tid ?|m0 ? seg' t r Ht Hok Hu|m0 ? seg' t r e Ht Hok Hu
    |m0 ? t vi scan result Ht Hsc Hf|m0 m' ? t tid Hlt Hf Hrep Hc|m0 m' ? seg' t tid ce Hlt Hf Hc Hroll
    |m0 m' ? seg' t tid k Hlt Hf Hc Hroll|m0 m' ? seg' t tid Hf Hc Hroll|m0 m' ? seg' info Hc Hclean];
    subst; cbn [manager column].
  - by eapply follows_start.
  - eapply follows_record; try done; [apply step_changes|]. intros t. cbn. by destruct (_ =? _).
  - eapply follows_record; try done; [apply step_catalog|]. intros t. cbn. by destruct (_ =? _).
  - eapply follows_write; try done. apply system_update; [by eapply active_running|done|done].
  - eapply follows_write; try done. eapply system_conflict; [by eapply active_running|done|done].
  - eapply follows_one; [done| |done|exact Hk]. eapply system_fetch; [by eapply active_running|done|done].
  - by eapply follows_commit.
  - destruct (find_active m tid t Hf) as [Hin <-]. pose proof (active_running _ _ _ _ Hk Hin) as Hv.
    eapply follows_failed; try done; [by apply system_rollback|]. by eapply (rollback_frame (mkSystem tl seg)).
  - destruct (find_active m tid t Hf) as [Hin <-]. pose proof (active_running _ _ _ _ Hk Hin) as Hv.
    change (GetTransactionId t) with (transaction_id (tview t)) in Hroll.
    rewrite (revert_first (mkSystem tl seg) a) in Hroll by done.
    eapply follows_failed; try done; [by apply system_rollback|]. by eapply (rollback_frame (mkSystem tl seg)).
  - destruct (find_active m tid t Hf) as [Hin <-]. pose proof (active_running _ _ _ _ Hk Hin) as Hv.
    eapply follows_rolled_back; try done; [by apply system_rollback|]. by eapply (rollback_frame (mkSystem tl seg)).
  - destruct (follows_cleanup tr m m' info seg tl Hr Hk Hc) as (seg1 & E & Hfol). rewrite Hclean in E. by injection E as <-.
Qed.

Lemma keeps_up_initial garbage : keeps_up (initial_manager garbage) initial_segment initial_timeline.
Proof.
  split; try (by intros p ?%elem_of_nil); [apply reachable_initial|apply ids_ok_initial|..]; cbn; [|by vm_compute..].
  intros v. split; [by intros ?%elem_of_nil|]. by intros (t & ?%elem_of_nil & _).
Qed.

Lemma db_follows tr d : db_run tr d -> exists tr0 tl,
  reached tr0 (mkSystem tl (column d)) /\ List.filter visible tr0 = tr /\ keeps_up (manager d) (column d) tl.
Proof.
  induction 1 as [garbage|tr [m seg] es d' _ (tr0 & tl & Hr & <- & Hk) Hs].
  - exists [], initial_timeline. split_and!; [constructor|done|apply keeps_up_initial].
  - destruct (db_step_follows tr0 m seg tl es d' Hr Hk Hs) as (es0 & tl' & Hr' & <- & Hk'). exists (tr0 ++ es0), tl'.
    by rewrite List.filter_app.
Qed.
(** ** The theorems *)

(** C8. Whatever transactions do and in whatever order - start, update, conflict, read, commit, roll back -,
    and whether a commit fails because the WAL cannot be written or after any number of its entries, the
    database behaves as the store of versions: every event its clients see is one the store allows, between
    cleanups that change no version, and the transactions that run are the manager's active ones. The manager
    draws its commit ids, hands out its snapshots and cleans up in a way that never takes a version somebody
    reads. The blocks of the undo buffers can be pinned, and the revert of a commit that failed returns: when
    it throws, the code declares the database invalid, and nothing is said about it. *)
Theorem database_refines_versions tr d : db_run tr d ->
  exists tr0 a, List.filter visible tr0 = tr /\ run (store_step base) initial_store tr0 a /\
    forall v, v ∈ running (store_timeline a) <-> exists t, t ∈ active_transactions (manager d) /\ tview t = v.
Proof.
  intros (tr0 & tl & Hr & Htr & Hk)%db_follows. destruct (reached_related base _ _ Hr) as (a & Ha & Hrel).
  exists tr0, a. split_and!; [done..|]. rewrite (related_timeline _ _ _ Hrel). apply Hk.
Qed.

(** C9. No operation of the database gets stuck: an active transaction can always read, be rolled back, and
    update with no other failure than a conflict; and the cleanup the manager has queued first always
    finds the infos it unlinks. *)
Theorem database_never_stuck tr d : db_run tr d ->
  (forall t, t ∈ active_transactions (manager d) ->
     (forall vi scan, scanned base vi scan -> is_Some (FetchUpdates (tview t) vi (column d) scan)) /\
     (forall r, request_ok r -> exists res seg', run_update base (tview t) r (column d) = Some (res, seg') /\
        (res = Ok tt \/ res = Throw conflict_on_update)) /\
     is_Some (RollbackUpdates (GetTransactionId t) (column d))) /\
  (forall m' info, CleanupStep (manager d) = Some (m', info) ->
     is_Some (CleanupColumn (cleanup_transactions info) (column d))).
Proof.
  intros (tr0 & tl & Hr & _ & Hk)%db_follows. destruct (reached_related base _ _ Hr) as (a & _ & [_ Hok (chains & owned & Hinv & Hown)]).
  split.
  - intros t Ht. pose proof (active_running _ _ _ _ Hk Ht) as Hv. split_and!.
    + intros vi scan Hs. destruct (fetch_related base _ _ _ _ _ (tview t) vi scan Hok Hinv Hv Hs) as (result & E & _). by exists result.
    + intros r Hreq. destruct (run_update_spec base _ _ _ _ _ (tview t) r Hok Hinv Hown Hv Hreq) as (res & seg' & E & Hres).
      exists res, seg'. split; [done|]. destruct res as [[]|e]; [by left|right]. by destruct Hres as (-> & _).
    + destruct (rollback_related base _ _ _ _ _ (tview t) Hok Hinv Hown Hv) as (seg' & E & _). by exists seg'.
  - intros m' info Hs. destruct (follows_cleanup tr0 _ _ _ _ _ Hr Hk Hs) as (seg' & E & _). by exists seg'.
Qed.
End Database.

(** ** A run *)

Module DatabaseRun.
Import Sample.

Definition manager_of (r : result (DuckTransactionManager * DuckTransaction)) : DuckTransactionManager :=
  match r with Ok (m, _) => m | Throw _ => initial_manager 0 end.
Definition after_commit (r : result (DuckTransactionManager * bool)) : DuckTransactionManager :=
  match r with Ok (m, _) => m | Throw _ => initial_manager 0 end.
Definition after_rollback (r : result DuckTransactionManager) : DuckTransactionManager :=
  match r with Ok m => m | Throw _ => initial_manager 0 end.

(** A writer and a reader start; the writer updates the vector 1 and commits while the reader runs, so
    that its versions have to wait; when the reader has gone they are queued for cleanup. *)
Definition writer : SnapshotView := mkSnapshotView TRANSACTION_ID_START (VisibilityBound.mk 2).
Definition reader : SnapshotView := mkSnapshotView (TRANSACTION_ID_START + 1) (VisibilityBound.mk 3).
Definition writer_undo : UndoBufferProperties := mkUndoProperties 0 true false false false false.
Definition m1 := Eval vm_compute in manager_of (StartTransaction (initial_manager 0)).
Definition m2 := Eval vm_compute in manager_of (StartTransaction m1).
Definition m3 := Eval vm_compute in RecordChanges (transaction_id writer) writer_undo m2.
Definition m4 := Eval vm_compute in after_commit (CommitTransaction (transaction_id writer) false false m3).
Definition m5 := Eval vm_compute in after_rollback (RollbackTransaction (transaction_id reader) m4).
Definition m6 := Eval vm_compute in default m5 (fst <$> CleanupStep m5).
Definition queued5 := Eval vm_compute in default [] (cleanup_transactions ∘ snd <$> CleanupStep m5).
Definition updated1 : UpdateSegment Z := Eval vm_compute in segment_of (run_update base writer first_request initial_segment).
Definition committed2 : UpdateSegment Z := Eval vm_compute in CommitUpdates (transaction_id writer) 4 updated1.
Definition fetched2 : FlatVector Z := Eval vm_compute in default (base 1) (FetchUpdates reader 1 committed2 (base 1)).
Definition cleaned3 : UpdateSegment Z := Eval vm_compute in default committed2 (CleanupColumn queued5 committed2).
Abbreviation db m seg := (mkDatabase m seg).
Definition client_events : list (event (T := Z) (Vec := FlatVector Z)) :=
  [Began writer; Began reader; Updated writer first_request; Committed writer 4; Fetched reader 1 fetched2; RolledBack reader].

Definition writer_t : DuckTransaction := mkTransaction 2 writer 0 0 false writer_undo true.
Definition reader_t : DuckTransaction := mkTransaction 3 reader 0 0 false no_undo false.

Lemma request_sample : request_ok first_request.
Proof. apply SampleRun.request_ok_sample. left. Qed.

Lemma begun_run : db_run base [Began writer; Began reader] (db m3 initial_segment).
Proof.
  eapply (db_next _ [Began writer; Began reader] (db m2 initial_segment) []); [|exact (db_changes _ m2 (transaction_id writer) writer_undo _)].
  eapply (db_next _ [Began writer] (db m1 initial_segment) [Began reader]); [|exact (db_start _ m1 m2 reader_t _ eq_refl)].
  eapply (db_next _ [] (db (initial_manager 0) initial_segment) [Began writer]); [apply db_initial|].
  exact (db_start _ (initial_manager 0) m1 (mkTransaction 2 writer 0 0 false no_undo false) _ eq_refl).
Qed.

Lemma waiting_run : db_run base client_events (db m5 committed2).
Proof.
  change client_events with (([Began writer; Began reader] ++ [Updated writer first_request]) ++ [Committed writer 4] ++ [Fetched reader 1 fetched2]
    ++ [RolledBack reader] : list (event (T := Z) (Vec := FlatVector Z))).
  rewrite !app_assoc. eapply (db_next _ _ (db m4 committed2)).
  - eapply (db_next _ _ (db m4 committed2)).
    + eapply (db_next _ _ (db m3 updated1)).
      * eapply (db_next _ _ (db m3 initial_segment)); [apply begun_run|].
        apply (db_update _ _ _ _ writer_t); [left|apply request_sample|vm_compute; reflexivity].
      * exact (db_commit _ m3 m4 updated1 writer_t (transaction_id writer) eq_refl eq_refl (fun _ => eq_refl) eq_refl).
    + eapply (db_fetch _ _ _ reader_t); [left|apply SampleRun.base_scanned|vm_compute; reflexivity].
  - exact (db_rollback _ m4 m5 committed2 committed2 reader_t (transaction_id reader) eq_refl eq_refl eq_refl).
Qed.

Lemma cleaned_run : db_run base client_events (db m6 cleaned3).
Proof.
  rewrite <- (app_nil_r client_events). eapply db_next; [apply waiting_run|].
  eapply (db_cleanup _ _ _ _ _ (mkCleanupInfo queued5 _)); [vm_compute; reflexivity|vm_compute; reflexivity].
Qed.

Lemma database_refines_versions_witness : db_run base client_events (db m6 cleaned3) /\
  exists tr0 a, List.filter visible tr0 = client_events /\ run (store_step base) initial_store tr0 a.
Proof.
  split; [apply cleaned_run|].
  destruct (database_refines_versions base client_events (db m6 cleaned3) cleaned_run) as (tr0 & a & Htr & Ha & _). by exists tr0, a.
Defined.

Lemma database_never_stuck_witness : db_run base client_events (db m5 committed2) /\
  is_Some (CleanupColumn queued5 committed2).
Proof.
  split; [apply waiting_run|].
  destruct (database_never_stuck base client_events (db m5 committed2) waiting_run) as [_ Hclean].
  eapply (Hclean m6 (mkCleanupInfo queued5 _)). vm_compute. reflexivity.
Defined.
End DatabaseRun.
