(* ===== verification/RleCompression.v ===== *)
(** * Run-length compression

    Models [storage/compression/rle.cpp] with the parts of
    [storage/compression/compression_segment_reader.hpp/.cpp],
    [storage/compression/standard_compression_state.hpp/.cpp], [storage/statistics/stats_writer.hpp] and
    [storage/table/column_checkpoint_state.cpp] it uses: a state machine that turns the rows of a column
    into runs, the segments of bytes the runs are written to, and the scans, skips, selections, filters
    and point lookups that read them back. A segment read from a file may be corrupt: [None] is a read
    outside an array or a loop that does not end, which the theorems exclude for all bytes. *)

From S2P Require Import Prelude ValidityMask UpdateInfo UpdateSegment UndoBuffer.

Local Open Scope nat_scope.

(** ** The type of a column *)

(** [sizeof], [alignof], [Store] and [Load] of the type; [NullValue<T>] and [RLEValueEqual<T>]. *)
Class RleType (T : Type) := {
  type_size : nat;
  type_align : nat;
  type_bytes : T -> list Z;
  type_load : list Z -> T;
  NullValue : T;
  RLEValueEqual : T -> T -> bool
}.

(** [AlignValueFloor<idx_t>]: down to a multiple of eight. *)
Definition AlignValueFloor (n : nat) : nat := n / 8 * 8.

Definition RLE_HEADER_SIZE : nat := 8.
(** [sizeof(rle_count_t)] and [NumericLimits<rle_count_t>::Maximum()]. *)
Definition COUNT_SIZE : nat := 2.
Definition COUNT_MAXIMUM : nat := Z.to_nat 65535.

Section Rle.
Context {T : Type} `{ColumnType T} `{RleType T}.

(** ** Turning rows into runs *)

Record RLEState := mkRLEState {
  seen_count : nat;
  last_value : T;
  last_seen_count : nat;
  all_null : bool
}.

Definition new_rle_state : RLEState := mkRLEState 0 NullValue 0 true.

(** [OP::Operation(value, count, dataptr, is_null)] changes what [dataptr] points to. *)
Definition Writer (W : Type) : Type := T -> nat -> bool -> W -> result W.
Definition EmptyRLEWriter : Writer unit := fun _ _ _ w => Ok w.

(** [rle_count_t] arithmetic *)
Definition count_succ (n : nat) : nat := (n + 1) mod (COUNT_MAXIMUM + 1).

Definition Flush {W} (OP : Writer W) (s : RLEState) (w : W) : result W :=
  OP (last_value s) (last_seen_count s) (all_null s) w.

(** The run that ends with this row, if it is full. *)
Definition flush_full {W} (OP : Writer W) (s : RLEState) (w : W) : result (RLEState * W) :=
  if last_seen_count s =? COUNT_MAXIMUM then
    w ← Flush OP s w;
    Ok (mkRLEState (S (seen_count s)) (last_value s) 0 (all_null s), w)
  else Ok (s, w).

Definition Update {W} (OP : Writer W) (data : list T) (validity : ValidityMask) (idx : nat) (s : RLEState) (w : W)
    : result (RLEState * W) :=
  '(s, w) ←
    if RowIsValid validity idx then
      if all_null s then
        Ok (mkRLEState (S (seen_count s)) (at_ data idx) (count_succ (last_seen_count s)) false, w)
      else if RLEValueEqual (last_value s) (at_ data idx) then
        Ok (mkRLEState (seen_count s) (last_value s) (count_succ (last_seen_count s)) (all_null s), w)
      else
        '(s, w) ←
          if 0 <? last_seen_count s then
            w ← Flush OP s w;
            Ok (mkRLEState (S (seen_count s)) (last_value s) (last_seen_count s) (all_null s), w)
          else Ok (s, w);
        Ok (mkRLEState (seen_count s) (at_ data idx) 1 (all_null s), w)
    else Ok (mkRLEState (seen_count s) (last_value s) (count_succ (last_seen_count s)) (all_null s), w);
  flush_full OP s w.

(** ** Analyze *)

Definition RLEAnalyze (vdata : UnifiedVectorFormat T) (count : nat) (s : RLEState) : result RLEState :=
  for_range 0 count (fun i r =>
    s ← r;
    let idx := get_index (format_sel vdata) i in
    '(s, _) ← Update EmptyRLEWriter (format_data vdata) (format_validity vdata) idx s tt;
    Ok s) (Ok s).

(** The analysis of the vectors of a column. *)
Fixpoint analyze_vectors (vectors : list (UnifiedVectorFormat T * nat)) (s : RLEState) : result RLEState :=
  match vectors with
  | [] => Ok s
  | (vdata, count) :: rest => s ← RLEAnalyze vdata count s; analyze_vectors rest s
  end.

Definition RLEFinalAnalyze (s : RLEState) : nat := (COUNT_SIZE + type_size) * seen_count s.

(** ** Compress *)

(** What is written for a segment: the memory of its block, how many rows it has, how many bytes of
    the block it uses, and its statistics. *)
Record ColumnSegment := mkSegment {
  segment_data : list Z;
  segment_count : nat;
  segment_size : nat;
  segment_stats : SegmentStatistics T
}.

(** [StatsWriter<T>]: [Clear], [Update], [Merge] into the statistics of a new segment. *)
Definition ClearStats : SegmentStatistics T := mkStats false false type_maximum type_minimum.
Definition SetHasNull (s : SegmentStatistics T) : SegmentStatistics T :=
  mkStats true (has_no_null s) (stat_min s) (stat_max s).
Definition UpdateStats (new_value : T) (s : SegmentStatistics T) : SegmentStatistics T :=
  UpdateNumericStats new_value (SetHasNoNullFast s).
Definition MergeStats (s target : SegmentStatistics T) : SegmentStatistics T :=
  let target := if has_null s then SetHasNullFast target else target in
  let target := if has_no_null s then SetHasNoNullFast target else target in
  if has_no_null s then UpdateNumericStats (stat_max s) (UpdateNumericStats (stat_min s) target) else target.

Section Compress.
Context `{BufferManager} (WRITE_STATISTICS : bool).

Definition MaxRLECount : nat :=
  let entry_size := type_size + COUNT_SIZE in
  AlignValueFloor ((GetBlockSize - RLE_HEADER_SIZE) / entry_size).

(** [handle] is the memory of the current segment's block; [flushed] the segments that were handed to
    the checkpoint. *)
Record RLECompressState := mkCompress {
  handle : list Z;
  current_count : nat;
  stats_writer : SegmentStatistics T;
  entry_count : nat;
  flushed : list ColumnSegment
}.

(** The block of a new segment holds whatever its memory held before. *)
Definition new_compress_state : RLECompressState := mkCompress (fresh_memory GetBlockSize) 0 ClearStats 0 [].

Definition CreateEmptySegment (st : RLECompressState) : RLECompressState :=
  mkCompress (fresh_memory GetBlockSize) 0 (stats_writer st) (entry_count st) (flushed st).

(** [ColumnCheckpointState::FlushSegmentInternal]: an empty segment is dropped. *)
Definition FlushSegmentInternal (seg : ColumnSegment) (l : list ColumnSegment) : result (list ColumnSegment) :=
  if GetBlockSize <? segment_size seg then
    Throw (InternalException "segment size exceeds block size in ColumnCheckpointState::FlushSegmentInternal")
  else if segment_count seg =? 0 then Ok l
  else Ok (l ++ [seg]).

Definition FlushSegment (st : RLECompressState) : result RLECompressState :=
  let counts_size := COUNT_SIZE * entry_count st in
  let original_rle_offset := RLE_HEADER_SIZE + MaxRLECount * type_size in
  let minimal_rle_offset := RLE_HEADER_SIZE + type_size * entry_count st in
  let aligned_rle_offset := AlignValue minimal_rle_offset in
  let total_segment_size := aligned_rle_offset + counts_size in
  let data := handle st in
  let data :=
    if minimal_rle_offset <? aligned_rle_offset
    then store_bytes minimal_rle_offset (replicate (aligned_rle_offset - minimal_rle_offset) 0%Z) data else data in
  let data := store_bytes aligned_rle_offset (take counts_size (drop original_rle_offset data)) data in
  let data := store_bytes 0 (Stream.le_bytes 8 (Z.of_nat aligned_rle_offset)) data in
  let seg := mkSegment data (current_count st) total_segment_size (MergeStats (stats_writer st) empty_stats) in
  l ← FlushSegmentInternal seg (flushed st);
  Ok (mkCompress data (current_count st) ClearStats (entry_count st) l).

Definition WriteValue : Writer RLECompressState := fun value count is_null st =>
  let data_pointer := RLE_HEADER_SIZE in
  let index_pointer := RLE_HEADER_SIZE + MaxRLECount * type_size in
  let data := store_bytes (data_pointer + entry_count st * type_size) (type_bytes value) (handle st) in
  let data := store_bytes (index_pointer + entry_count st * COUNT_SIZE)
                (Stream.le_bytes COUNT_SIZE (Z.of_nat count)) data in
  let stats :=
    if WRITE_STATISTICS
    then if negb is_null then UpdateStats value (stats_writer st) else SetHasNull (stats_writer st)
    else stats_writer st in
  let st := mkCompress data (current_count st + count) stats (S (entry_count st)) (flushed st) in
  if entry_count st =? MaxRLECount then
    st ← FlushSegment st;
    let st := CreateEmptySegment st in
    Ok (mkCompress (handle st) (current_count st) (stats_writer st) 0 (flushed st))
  else Ok st.

Definition append_row (vdata : UnifiedVectorFormat T) (i : nat) (s : RLEState) (st : RLECompressState)
    : result (RLEState * RLECompressState) :=
  let idx := get_index (format_sel vdata) i in
  let st :=
    if WRITE_STATISTICS && negb (RowIsValid (format_validity vdata) idx)
    then mkCompress (handle st) (current_count st) (SetHasNull (stats_writer st)) (entry_count st) (flushed st)
    else st in
  Update WriteValue (format_data vdata) (format_validity vdata) idx s st.

Definition Append (vdata : UnifiedVectorFormat T) (count : nat) (s : RLEState) (st : RLECompressState)
    : result (RLEState * RLECompressState) :=
  for_range 0 count (fun i r => '(s, st) ← r; append_row vdata i s st) (Ok (s, st)).

Definition Finalize (s : RLEState) (st : RLECompressState) : result (list ColumnSegment) :=
  st ← Flush WriteValue s st;
  st ← FlushSegment st;
  Ok (flushed st).

(** [RLEInitCompression], [RLECompress] on each scanned vector, [RLEFinalizeCompress]. *)
Fixpoint compress_vectors (vectors : list (UnifiedVectorFormat T * nat)) (s : RLEState) (st : RLECompressState)
    : result (RLEState * RLECompressState) :=
  match vectors with
  | [] => Ok (s, st)
  | (vdata, count) :: rest => '(s, st) ← Append vdata count s st; compress_vectors rest s st
  end.

Definition RLECompress (vectors : list (UnifiedVectorFormat T * nat)) : result (list ColumnSegment) :=
  '(s, st) ← compress_vectors vectors new_rle_state new_compress_state;
  Finalize s st.
End Compress.

(** ** Reading a segment (CompressionSegmentReader) *)

Definition corrupted (msg : string) : exception := DataCorruptionException msg.

Record CompressionSegmentReader := mkReader {
  reader_data : list Z;
  reader_address : nat;
  reader_size : nat
}.

(** The block in memory and its address; where the segment lies in it, and its recorded size. *)
Record SegmentBlock := mkBlock {
  block_memory : list Z;
  block_address : nat;
  block_offset : nat;
  data_size : option nat
}.

Definition FromSegment (b : SegmentBlock) : result CompressionSegmentReader :=
  let block_size := length (block_memory b) in
  if block_size <? block_offset b then Throw (corrupted "block offset exceeds the block size")
  else
    let reader_size := block_size - block_offset b in
    let data := drop (block_offset b) (block_memory b) in
    let address := block_address b + block_offset b in
    match data_size b with
    | Some n => if reader_size <? n then Throw (corrupted "segment byte size exceeds the remaining block size")
                else Ok (mkReader data address n)
    | None => Ok (mkReader data address reader_size)
    end.

(** [Load] of [n] bytes. *)
Definition load_bytes (data : list Z) (offset n : nat) : checked (list Z) :=
  if offset + n <=? length data then mret (take n (drop offset data)) else None.

(** [Read<uint64_t>] at the position 0. *)
Definition ReadOffset (r : CompressionSegmentReader) : checked nat :=
  if reader_size r <? 8 then throw (corrupted "attempted to read past the end of the segment")
  else bytes ← load_bytes (reader_data r) 0 8; mret (Z.to_nat (Stream.le_value bytes)).

(** [CheckArray<T>] for an element of [size] bytes with the alignment [align]. *)
Definition CheckArray (size align offset count : nat) (r : CompressionSegmentReader) : checked unit :=
  if reader_size r <? offset then throw (corrupted "offset is outside the segment")
  else if negb ((reader_address r + offset) mod align =? 0) then throw (corrupted "array offset is misaligned")
  else if (reader_size r - offset) / size <? count then throw (corrupted "array count extends past the end of the segment")
  else mret tt.

(** The elements of an array view, loaded. *)
Fixpoint load_array {A} (size : nat) (load : list Z -> A) (data : list Z) (offset count : nat) : checked (list A) :=
  match count with
  | O => mret []
  | S count' =>
      bytes ← load_bytes data offset size;
      rest ← load_array size load data (offset + size) count';
      mret (load bytes :: rest)
  end.

(** [GetArraySlice<T>(offset, 0, count)] *)
Definition GetArray {A} (size align : nat) (load : list Z -> A) (offset count : nat) (r : CompressionSegmentReader)
    : checked (list A) :=
  _ ← CheckArray size align offset 0 r;
  let capacity := (reader_size r - offset) / size in
  if capacity - 0 <? count then throw (corrupted "array count extends past the end of the segment")
  else load_array size load (reader_data r) offset count.

(** ** Scan state *)

Definition offset_invalid : exception := corrupted "rle_count_offset is corrupted".
Definition counts_exhausted : exception := corrupted "run counts do not cover the segment row count".
Definition count_exceeds : exception := corrupted "run count exceeds the remaining row count".

Record ValidatedRun := mkRun { run_value : T; run_length : nat }.

Record SegmentLayout := mkLayout {
  values : list T;
  run_counts : list nat;
  entry_capacity : nat;
  validated_entry_count : nat;
  unvalidated_row_count : nat
}.

Definition ReadSegmentLayout (b : SegmentBlock) (count : nat) : checked SegmentLayout :=
  r ← Some (FromSegment b);
  rle_count_offset ← ReadOffset r;
  if (rle_count_offset <? RLE_HEADER_SIZE) || (reader_size r <? rle_count_offset) then throw offset_invalid
  else
    let value_capacity := (rle_count_offset - RLE_HEADER_SIZE) / type_size in
    let count_capacity := (reader_size r - rle_count_offset) / COUNT_SIZE in
    let entry_capacity := Nat.min value_capacity count_capacity in
    vs ← GetArray type_size type_align type_load RLE_HEADER_SIZE value_capacity r;
    cs ← GetArray COUNT_SIZE COUNT_SIZE (fun b => Z.to_nat (Stream.le_value b)) rle_count_offset count_capacity r;
    mret (mkLayout vs cs entry_capacity 0 count).

(** One run is validated per turn. *)
Fixpoint validate_loop (fuel : nat) (entry_index : nat) (l : SegmentLayout) : checked SegmentLayout :=
  match fuel with
  | O => None
  | S fuel' =>
      if validated_entry_count l <=? entry_index then
        if entry_capacity l <=? validated_entry_count l then throw counts_exhausted
        else
          run_count ← access (run_counts l) (validated_entry_count l);
          if unvalidated_row_count l <? run_count then throw count_exceeds
          else validate_loop fuel' entry_index
                 (mkLayout (values l) (run_counts l) (entry_capacity l) (S (validated_entry_count l))
                    (unvalidated_row_count l - run_count))
      else mret l
  end.

Definition ValidateThrough (entry_index : nat) (l : SegmentLayout) : checked SegmentLayout :=
  validate_loop (S (S entry_index)) entry_index l.

Definition ValidateAndGetRun (entry_index : nat) (l : SegmentLayout) : checked (ValidatedRun * SegmentLayout) :=
  l ← ValidateThrough entry_index l;
  value ← access (values l) entry_index;
  count ← access (run_counts l) entry_index;
  mret (mkRun value count, l).

Fixpoint validate_all_loop (fuel : nat) (l : SegmentLayout) : checked SegmentLayout :=
  match fuel with
  | O => None
  | S fuel' =>
      if 0 <? unvalidated_row_count l then
        l ← ValidateThrough (validated_entry_count l) l;
        validate_all_loop fuel' l
      else mret l
  end.

(** Returns the validated entries with the layout. *)
Definition ValidateAllRuns (l : SegmentLayout) : checked (nat * SegmentLayout) :=
  l ← validate_all_loop (S (S (entry_capacity l))) l;
  mret (validated_entry_count l, l).

(** [matching_runs], once a filter has been applied: which runs match, and how many do. *)
Record RLEScanState := mkScan {
  layout : SegmentLayout;
  entry_pos : nat;
  position_in_entry : nat;
  matching_runs : option (list bool);
  matching_run_count : nat
}.

Definition set_layout (l : SegmentLayout) (s : RLEScanState) : RLEScanState :=
  mkScan l (entry_pos s) (position_in_entry s) (matching_runs s) (matching_run_count s).
Definition set_position (n : nat) (s : RLEScanState) : RLEScanState :=
  mkScan (layout s) (entry_pos s) n (matching_runs s) (matching_run_count s).

Definition RLEInitScan (b : SegmentBlock) (count : nat) : checked RLEScanState :=
  l ← ReadSegmentLayout b count; mret (mkScan l 0 0 None 0).

Definition ForwardToNextRun (s : RLEScanState) : checked RLEScanState :=
  if entry_capacity (layout s) <? S (entry_pos s) then throw counts_exhausted
  else mret (mkScan (layout s) (S (entry_pos s)) 0 (matching_runs s) (matching_run_count s)).

Definition ExhaustedRun (length : nat) (s : RLEScanState) : bool := length <=? position_in_entry s.

(** Empty runs do not represent rows. *)
Fixpoint current_run_loop (fuel : nat) (s : RLEScanState) : checked (ValidatedRun * RLEScanState) :=
  match fuel with
  | O => None
  | S fuel' =>
      '(run, l) ← ValidateAndGetRun (entry_pos s) (layout s);
      let s := set_layout l s in
      if run_length run =? 0 then s ← ForwardToNextRun s; current_run_loop fuel' s
      else mret (run, s)
  end.

Definition ValidateAndGetCurrentRun (s : RLEScanState) : checked (ValidatedRun * RLEScanState) :=
  current_run_loop (S (entry_capacity (layout s) - entry_pos s)) s.

(** Every turn skips at least one row. *)
Fixpoint skip_loop (fuel : nat) (skip_count : nat) (s : RLEScanState) : checked RLEScanState :=
  if skip_count =? 0 then mret s
  else
    match fuel with
    | O => None
    | S fuel' =>
        '(run, s) ← ValidateAndGetCurrentRun s;
        let skip_amount := Nat.min skip_count (run_length run - position_in_entry s) in
        let s := set_position (position_in_entry s + skip_amount) s in
        s ← if ExhaustedRun (run_length run) s then ForwardToNextRun s else mret s;
        skip_loop fuel' (skip_count - skip_amount) s
    end.

Definition SkipInternal (skip_count : nat) (s : RLEScanState) : checked RLEScanState := skip_loop skip_count skip_count s.
Definition RLESkip (skip_count : nat) (s : RLEScanState) : checked RLEScanState := SkipInternal skip_count s.

(** ** Scans *)

(** The vector a scan fills. *)
Inductive ResultVector :=
  | ConstantVector (count : nat) (value : T)
  | FlatVector (data : list T).

(** Writes outside of the vector's memory are undefined. *)
Definition write_at (i : nat) (x : T) (data : list T) : checked (list T) :=
  if i <? length data then mret (<[i := x]> data) else None.

(** [for (i = 0; i < n; i++) result_data[offset + i] = element] *)
Definition write_run (offset n : nat) (element : T) (data : list T) : checked (list T) :=
  for_range 0 n (fun i r => data ← r; write_at (offset + i) element data) (mret data).

Context `{VectorSize}.

Definition CanEmitConstantVector (entire_vector : bool) (position length scan_count : nat) : bool :=
  if negb entire_vector then false
  else if negb (scan_count =? STANDARD_VECTOR_SIZE) then false
  else scan_count <=? length - position.

Definition RLEScanConstant (run : ValidatedRun) (scan_count : nat) (s : RLEScanState) : checked (ResultVector * RLEScanState) :=
  let s := set_position (position_in_entry s + scan_count) s in
  s ← if ExhaustedRun (run_length run) s then ForwardToNextRun s else mret s;
  mret (ConstantVector scan_count (run_value run), s).

(** Every turn writes at least one row. *)
Fixpoint scan_loop (fuel : nat) (result_offset result_end : nat) (data : list T) (s : RLEScanState)
    : checked (list T * RLEScanState) :=
  if result_offset <? result_end then
    match fuel with
    | O => None
    | S fuel' =>
        '(run, s) ← ValidateAndGetCurrentRun s;
        let run_count := run_length run - position_in_entry s in
        let remaining_scan_count := result_end - result_offset in
        if remaining_scan_count <? run_count then
          data ← write_run result_offset remaining_scan_count (run_value run) data;
          mret (data, set_position (position_in_entry s + remaining_scan_count) s)
        else
          data ← write_run result_offset run_count (run_value run) data;
          s ← ForwardToNextRun s;
          scan_loop fuel' (result_offset + run_count) result_end data s
    end
  else mret (data, s).

Definition RLEScanPartialInternal (entire_vector : bool) (scan_count : nat) (result : list T) (result_offset : nat)
    (s : RLEScanState) : checked (ResultVector * RLEScanState) :=
  '(current_run, s) ← ValidateAndGetCurrentRun s;
  if (position_in_entry s <? run_length current_run) &&
     CanEmitConstantVector entire_vector (position_in_entry s) (run_length current_run) scan_count
  then RLEScanConstant current_run scan_count s
  else
    '(data, s) ← scan_loop scan_count result_offset (result_offset + scan_count) result s;
    mret (FlatVector data, s).

Definition RLEScanPartial (scan_count : nat) (result : list T) (result_offset : nat) (s : RLEScanState) :=
  RLEScanPartialInternal false scan_count result result_offset s.
Definition RLEScan (scan_count : nat) (result : list T) (s : RLEScanState) :=
  RLEScanPartialInternal true scan_count result 0 s.

(** ** Select *)

Definition not_ordered (where_ : string) : exception :=
  InternalException ("Error in " +:+ where_ +:+ " - selection vector indices are not ordered").

(** [while (next_idx >= run_end)]: every turn moves [run_end] by at least one. *)
Fixpoint advance_runs (fuel next_idx run_end : nat) (run : ValidatedRun) (s : RLEScanState)
    : checked (nat * ValidatedRun * RLEScanState) :=
  if run_end <=? next_idx then
    match fuel with
    | O => None
    | S fuel' =>
        s ← ForwardToNextRun s;
        '(run, s) ← ValidateAndGetCurrentRun s;
        advance_runs fuel' next_idx (run_end + run_length run) run s
    end
  else mret (run_end, run, s).

(** [n] more selected rows, from the [i]th: the result data, the last selected row, and where the scan is. *)
Fixpoint select_loop (n i : nat) (sel : SelectionVector) (result_offset prev_idx run_end : nat) (run : ValidatedRun)
    (data : list T) (s : RLEScanState) : checked (list T * nat * nat * ValidatedRun * RLEScanState) :=
  match n with
  | O => mret (data, prev_idx, run_end, run, s)
  | S n' =>
      let next_idx := get_index sel i in
      if next_idx <? prev_idx then throw (not_ordered "RLESelect")
      else
        '(run_end, run, s) ← advance_runs (S next_idx) next_idx run_end run s;
        data ← write_at (result_offset + i) (run_value run) data;
        select_loop n' (S i) sel result_offset next_idx run_end run data s
  end.

Definition RLESelect (vector_count : nat) (result : list T) (sel : SelectionVector) (sel_count result_offset : nat)
    (entire_vector : bool) (s : RLEScanState) : checked (ResultVector * RLEScanState) :=
  '(current_run, s) ← ValidateAndGetCurrentRun s;
  if entire_vector && (position_in_entry s <? run_length current_run) &&
     CanEmitConstantVector true (position_in_entry s) (run_length current_run) vector_count
  then RLEScanConstant current_run vector_count s
  else
    '(data, prev_idx, run_end, run, s) ←
      select_loop sel_count 0 sel result_offset 0 (run_length current_run - position_in_entry s) current_run result s;
    let s := set_position (run_length run - (run_end - prev_idx)) s in
    s ← SkipInternal (vector_count - prev_idx) s;
    mret (FlatVector data, s).

(** ** Filter *)

(** [ColumnSegment::FilterSelection]: the entries of the run values that pass the filter. *)
Context (FilterSelection : list T -> list nat).

Definition set_matching (m : list bool) (n : nat) (s : RLEScanState) : RLEScanState :=
  mkScan (layout s) (entry_pos s) (position_in_entry s) (Some m) n.

(** Evaluates the filter on all the runs, the first time. *)
Definition match_runs (s : RLEScanState) : checked RLEScanState :=
  match matching_runs s with
  | Some _ => mret s
  | None =>
      '(total_run_count, l) ← ValidateAllRuns (layout s);
      let run_matches := FilterSelection (take total_run_count (values l)) in
      let matching := foldl (fun m idx => <[idx := true]> m) (replicate total_run_count false) run_matches in
      mret (set_matching matching (length run_matches) (set_layout l s))
  end.

(** [matching_runs[entry_pos]] *)
Definition run_matches (s : RLEScanState) : checked bool :=
  match matching_runs s with Some m => access m (entry_pos s) | None => None end.

(** The rows [offset, ..., offset + n - 1] of a run: written and selected. *)
Definition emit_run (offset n : nat) (element : T) (data : list T) (matching_sel : list nat) : checked (list T * list nat) :=
  data ← write_run offset n element data;
  mret (data, matching_sel ++ seq offset n).

Fixpoint filter_loop (fuel result_offset result_end : nat) (data : list T) (matching_sel : list nat) (s : RLEScanState)
    : checked (list T * list nat * RLEScanState) :=
  if result_offset <? result_end then
    match fuel with
    | O => None
    | S fuel' =>
        '(run, s) ← ValidateAndGetCurrentRun s;
        let run_count := run_length run - position_in_entry s in
        let remaining_scan_count := result_end - result_offset in
        b ← run_matches s;
        if remaining_scan_count <? run_count then
          '(data, matching_sel) ←
            if (b : bool) then emit_run result_offset remaining_scan_count (run_value run) data matching_sel else mret (data, matching_sel);
          mret (data, matching_sel, set_position (position_in_entry s + remaining_scan_count) s)
        else
          '(data, matching_sel) ←
            if (b : bool) then emit_run result_offset run_count (run_value run) data matching_sel else mret (data, matching_sel);
          s ← ForwardToNextRun s;
          filter_loop fuel' (result_offset + run_count) result_end data matching_sel s
    end
  else mret (data, matching_sel, s).

(** The rows of a selection, one at a time. *)
Fixpoint filter_sel_loop (n i : nat) (sel : SelectionVector) (prev_idx : nat) (data : list T) (matching_sel : list nat)
    (s : RLEScanState) : checked (list T * list nat * nat * RLEScanState) :=
  match n with
  | O => mret (data, matching_sel, prev_idx, s)
  | S n' =>
      let read_idx := get_index sel i in
      if read_idx <? prev_idx then throw (not_ordered "RLEFilter")
      else
        s ← SkipInternal (read_idx - prev_idx) s;
        '(run, s) ← ValidateAndGetCurrentRun s;
        b ← run_matches s;
        if negb b then filter_sel_loop n' (S i) sel read_idx data matching_sel s
        else
          data ← write_at read_idx (run_value run) data;
          filter_sel_loop n' (S i) sel read_idx data (matching_sel ++ [read_idx]) s
  end.

(** The result data, the selection and its count. *)
Definition RLEFilter (vector_count : nat) (result : list T) (sel : SelectionVector) (sel_count : nat) (s : RLEScanState)
    : checked (list T * SelectionVector * nat * RLEScanState) :=
  s ← match_runs s;
  if matching_run_count s =? 0 then mret (result, sel, 0, s)
  else
    '(data, matching_sel, s) ←
      match sel with
      | None => filter_loop sel_count 0 sel_count result [] s
      | Some _ =>
          '(data, matching_sel, prev_idx, s) ← filter_sel_loop sel_count 0 sel 0 result [] s;
          s ← SkipInternal (vector_count - prev_idx) s;
          mret (data, matching_sel, s)
      end;
    if negb (length matching_sel =? sel_count) then mret (data, Some matching_sel, length matching_sel, s)
    else mret (data, sel, sel_count, s).

(** ** Fetch *)

Definition RLEFetchRow (b : SegmentBlock) (count row_index : nat) (result : list T) (result_idx : nat) : checked (list T) :=
  s ← RLEInitScan b count;
  s ← RLESkip row_index s;
  '(run, _) ← ValidateAndGetCurrentRun s;
  write_at result_idx (run_value run) result.
End Rle.
