(* ===== verification/RleScanFacts.v ===== *)
(** * Reading run-length compressed segments

    A logic for the checked computations of [RleCompression], and the specification of the scan state:
    skips, scans, selections and filters against the rows the runs of a segment stand for. *)

From S2P Require Import Prelude ValidityMask UpdateInfo UpdateSegment UndoBuffer RleCompression.

Local Open Scope nat_scope.

(** ** Sound computations *)

Definition corruption (e : exception) : Prop := exists msg, e = DataCorruptionException msg.

(** Nothing undefined happens; unless something is wrong with the segment ([fine] fails) the result
    satisfies [Q]; and the only thing thrown is that the data is corrupt. *)
Definition sound {A} (fine : Prop) (m : checked A) (Q : A -> Prop) : Prop :=
  match m with
  | None => False
  | Some (Throw e) => corruption e /\ ~ fine
  | Some (Ok a) => Q a
  end.

Lemma sound_ret {A} fine (a : A) Q : Q a -> sound fine (mret a) Q.
Proof. done. Qed.

Lemma sound_throw {A} fine e (Q : A -> Prop) : corruption e -> ~ fine -> sound fine (throw e) Q.
Proof. done. Qed.

Lemma sound_bind {A B} fine (m : checked A) (f : A -> checked B) P Q :
  sound fine m P -> (forall a, P a -> sound fine (f a) Q) -> sound fine (m ≫= f) Q.
Proof. destruct m as [[a|e]|]; cbn; auto. Qed.

Lemma sound_weaken {A} (fine fine' : Prop) (m : checked A) (P Q : A -> Prop) :
  sound fine m P -> (fine' -> fine) -> (forall a, P a -> Q a) -> sound fine' m Q.
Proof. destruct m as [[a|e]|]; cbn; [auto|intros [? ?]; split; auto|done]. Qed.

Lemma sound_access {A} fine (l : list A) i a (Q : A -> Prop) : l !! i = Some a -> Q a -> sound fine (access l i) Q.
Proof. unfold access. by intros ->. Qed.

Lemma sound_ok {A} (fine : Prop) (m : checked A) Q : sound fine m Q -> fine -> exists a, m = Some (Ok a) /\ Q a.
Proof. destruct m as [[a|e]|]; cbn; [eauto|by intros [_ ?]|done]. Qed.

Lemma corruption_corrupted msg : corruption (corrupted msg).
Proof. by exists msg. Qed.
#[export] Hint Resolve corruption_corrupted : core.

(** ** Runs and rows *)

Section Runs.
Context {T : Type}.
Implicit Types (l : list (T * nat)).

Fixpoint rows_in l : nat := match l with [] => 0 | (_, n) :: l' => n + rows_in l' end.
Fixpoint decode l : list T := match l with [] => [] | (v, n) :: l' => replicate n v ++ decode l' end.

Lemma rows_in_app l1 l2 : rows_in (l1 ++ l2) = rows_in l1 + rows_in l2.
Proof. induction l1 as [|[v n] l1 IH]; cbn; [done|lia]. Qed.

Lemma decode_app l1 l2 : decode (l1 ++ l2) = decode l1 ++ decode l2.
Proof. induction l1 as [|[v n] l1 IH]; cbn; [done|]. by rewrite IH, app_assoc. Qed.

Lemma length_decode l : length (decode l) = rows_in l.
Proof. induction l as [|[v n] l IH]; cbn; [done|]. by rewrite length_app, length_replicate, IH. Qed.

Lemma take_S_lookup {A} (l : list A) i x : l !! i = Some x -> take (S i) l = take i l ++ [x].
Proof. apply take_S_r. Qed.

Lemma rows_in_take_S l i v n : l !! i = Some (v, n) -> rows_in (take (S i) l) = rows_in (take i l) + n.
Proof. intros Hi. rewrite (take_S_lookup _ _ _ Hi), rows_in_app. cbn. lia. Qed.

Lemma rows_in_take_mono l i j : i <= j -> rows_in (take i l) <= rows_in (take j l).
Proof.
  intros Hij. replace (take i l) with (take i (take j l)) by (rewrite take_take; f_equal; lia).
  rewrite <- (take_drop i (take j l)) at 2. rewrite rows_in_app. lia.
Qed.

Lemma rows_in_take_le l i : rows_in (take i l) <= rows_in l.
Proof. rewrite <- (take_drop i l) at 2. rewrite rows_in_app. lia. Qed.

(** The rows of a run. *)
Lemma decode_lookup l i v n k : l !! i = Some (v, n) -> k < n -> decode l !! (rows_in (take i l) + k) = Some v.
Proof.
  intros Hi Hk. assert (decode l = decode (take i l) ++ replicate n v ++ decode (drop (S i) l)) as ->.
  { rewrite <- (take_drop_middle l i (v, n) Hi) at 1. by rewrite decode_app. }
  rewrite lookup_app_r; rewrite length_decode; [|lia]. rewrite lookup_app_l by (rewrite length_replicate; lia).
  by apply lookup_replicate_2; lia.
Qed.
End Runs.

(** ** The layout of a segment *)

Section Scan.
Context {T : Type} `{ColumnType T} `{RleType T}.
Context (runs : list (T * nat)) (total : nat).
Implicit Types (l : SegmentLayout (T := T)) (s : RLEScanState (T := T)).

(** The runs cover the rows of the segment exactly. *)
Definition covered : Prop := exists k, k <= length runs /\ rows_in (take k runs) = total.

Record layout_ok l : Prop := {
  layout_entry i v n : runs !! i = Some (v, n) -> values l !! i = Some v /\ run_counts l !! i = Some n;
  layout_values : length runs <= length (values l);
  layout_capacity : entry_capacity l = length runs;
  layout_validated : validated_entry_count l <= length runs;
  layout_rest : unvalidated_row_count l + rows_in (take (validated_entry_count l) runs) = total
}.

Lemma covered_past i v n : covered -> runs !! i = Some (v, n) -> total < rows_in (take (S i) runs) ->
  total <= rows_in (take i runs).
Proof.
  intros (k & Hk & Hsum) Hi Hlt. destruct (Nat.le_gt_cases (S i) k) as [Hle|Hgt].
  - pose proof (rows_in_take_mono runs (S i) k Hle). lia.
  - rewrite <- Hsum. apply rows_in_take_mono. lia.
Qed.

Lemma validate_loop_spec fuel i l : layout_ok l -> S i - validated_entry_count l < fuel ->
  sound (covered /\ rows_in (take i runs) < total) (validate_loop fuel i l)
    (fun l' => layout_ok l' /\ i < validated_entry_count l' /\ validated_entry_count l <= validated_entry_count l').
Proof.
  revert l. induction fuel as [|fuel IH]; intros l Hl Hf; [lia|]. cbn [validate_loop].
  destruct (Nat.leb_spec (validated_entry_count l) i) as [Hle|Hgt]; [|apply sound_ret; split_and!; [done|lia|lia]].
  pose proof Hl as [He Hval Hc Hv Hr]. rewrite Hc.
  destruct (Nat.leb_spec (length runs) (validated_entry_count l)) as [Hend|Hin].
  { apply sound_throw; [by eexists|]. intros [(k & Hk & Hsum) Hlt].
    pose proof (rows_in_take_mono runs k i ltac:(lia)). lia. }
  destruct (lookup_lt_is_Some_2 runs (validated_entry_count l)) as [[v n] Hi]; [lia|].
  destruct (He _ _ _ Hi) as [_ Hn].
  eapply sound_bind; [by apply (sound_access _ _ _ _ (fun c => c = n) Hn)|]. intros _ ->.
  pose proof (rows_in_take_S runs _ _ _ Hi) as Hsum.
  destruct (Nat.ltb_spec (unvalidated_row_count l) n) as [Hex|Hok].
  { apply sound_throw; [by eexists|]. intros [Hcov Hlt].
    pose proof (covered_past _ _ _ Hcov Hi ltac:(lia)). pose proof (rows_in_take_mono runs _ i Hle). lia. }
  eapply sound_weaken; [apply IH|done|].
  - split; cbn; [done|done|done|lia|lia].
  - cbn. lia.
  - cbn. intros l' (? & ? & ?). split_and!; [done|done|lia].
Qed.

Lemma validate_and_get_spec i l : layout_ok l ->
  sound (covered /\ rows_in (take i runs) < total) (ValidateAndGetRun i l)
    (fun '(run, l') => layout_ok l' /\ runs !! i = Some (run_value run, run_length run) /\ rows_in (take (S i) runs) <= total).
Proof.
  intros Hl. unfold ValidateAndGetRun, ValidateThrough.
  eapply sound_bind; [apply validate_loop_spec; [done|lia]|]. intros l' (Hl' & Hi & _). pose proof Hl' as [He _ _ Hv Hr].
  destruct (lookup_lt_is_Some_2 runs i) as [[v n] Hrun]; [lia|]. destruct (He _ _ _ Hrun) as [Hv1 Hn1].
  eapply sound_bind; [by apply (sound_access _ _ _ _ (fun x => x = v) Hv1)|]. intros _ ->.
  eapply sound_bind; [by apply (sound_access _ _ _ _ (fun x => x = n) Hn1)|]. intros _ ->.
  apply sound_ret. split_and!; [done|done|]. pose proof (rows_in_take_mono runs (S i) (validated_entry_count l') ltac:(lia)). lia.
Qed.

Lemma validate_all_loop_spec fuel l : layout_ok l -> length runs - validated_entry_count l < fuel - 1 ->
  sound covered (validate_all_loop fuel l)
    (fun l' => layout_ok l' /\ rows_in (take (validated_entry_count l') runs) = total).
Proof.
  revert l. induction fuel as [|fuel IH]; intros l Hl Hf; [lia|]. cbn [validate_all_loop].
  pose proof Hl as [_ _ _ Hv Hr].
  destruct (Nat.ltb_spec 0 (unvalidated_row_count l)) as [Hpos|Hzero]; [|apply sound_ret; split; [done|lia]].
  eapply sound_bind.
  - eapply sound_weaken; [apply validate_loop_spec; [exact Hl|lia]| |intros a Ha; exact Ha].
    intros Hcov. split; [done|lia].
  - cbn. intros l' (Hl' & Hlt & _). apply IH; [done|]. pose proof (layout_validated _ Hl'). lia.
Qed.

(** ** Where a scan is *)

(** The next row a scan reads is the row [n] of the segment. *)
Record scan_at (n : nat) s : Prop := {
  at_layout : layout_ok (layout s);
  at_entry : entry_pos s <= length runs;
  at_row : rows_in (take (entry_pos s) runs) + position_in_entry s = n;
  at_position : position_in_entry s = 0 \/
    exists v c, runs !! entry_pos s = Some (v, c) /\ position_in_entry s < c
}.

Definition same_filter s s' : Prop := matching_runs s' = matching_runs s /\ matching_run_count s' = matching_run_count s.

Lemma same_filter_trans s1 s2 s3 : same_filter s1 s2 -> same_filter s2 s3 -> same_filter s1 s3.
Proof. unfold same_filter. intros [-> ->] [-> ->]. done. Qed.

(** The scan stands in a run with rows left: the value of the next row, and how many rows have it. *)
Definition stands_in (n : nat) (run : ValidatedRun (T := T)) s : Prop :=
  scan_at n s /\ runs !! entry_pos s = Some (run_value run, run_length run) /\
  position_in_entry s < run_length run /\ n + (run_length run - position_in_entry s) <= total.

Lemma stands_row n run s k : stands_in n run s -> k < run_length run - position_in_entry s ->
  decode runs !! (n + k) = Some (run_value run).
Proof.
  intros ([_ _ <- _] & Hrun & Hpos & _) Hk. rewrite <- Nat.add_assoc. apply decode_lookup with (run_length run); [done|lia].
Qed.

Lemma forward_entry_spec fine s v c : layout_ok (layout s) -> runs !! entry_pos s = Some (v, c) ->
  sound fine (ForwardToNextRun s) (fun s' => scan_at (rows_in (take (entry_pos s) runs) + c) s' /\
    same_filter s s' /\ position_in_entry s' = 0 /\ entry_pos s' = S (entry_pos s)).
Proof.
  intros Hl Hrun. unfold ForwardToNextRun. rewrite (layout_capacity _ Hl).
  pose proof (lookup_lt_Some _ _ _ Hrun). destruct (Nat.ltb_spec (length runs) (S (entry_pos s))); [lia|].
  apply sound_ret. split_and!; [|done..]. split; cbn; [done|lia| |by left].
  rewrite (rows_in_take_S _ _ _ _ Hrun). lia.
Qed.

Lemma forward_spec fine n run s : stands_in n run s ->
  sound fine (ForwardToNextRun s) (fun s' => scan_at (n + (run_length run - position_in_entry s)) s' /\ same_filter s s').
Proof.
  intros ([Hl He Hn _] & Hrun & Hpos & Htot).
  eapply sound_weaken; [by apply (forward_entry_spec fine s _ _ Hl Hrun)|done|]. cbn beta. intros s' (Hs' & Hf & _).
  split; [|done]. by replace (n + (run_length run - position_in_entry s)) with (rows_in (take (entry_pos s) runs) + run_length run) by lia.
Qed.

Lemma set_position_spec n run s k : stands_in n run s -> k < run_length run - position_in_entry s ->
  scan_at (n + k) (RleCompression.set_position (position_in_entry s + k) s) /\
  same_filter s (RleCompression.set_position (position_in_entry s + k) s).
Proof.
  intros ([Hl He Hn _] & Hrun & Hpos & Htot) Hk. split; [|done]. split; cbn; [done|done|lia|].
  right. exists (run_value run), (run_length run). split; [done|lia].
Qed.

Lemma current_run_loop_spec fuel n s : scan_at n s -> length runs - entry_pos s < fuel ->
  sound (covered /\ n < total) (current_run_loop fuel s) (fun '(run, s') => stands_in n run s' /\ same_filter s s' /\
    position_in_entry s' <= position_in_entry s).
Proof.
  revert s. induction fuel as [|fuel IH]; intros s Hs Hf; [lia|]. cbn [current_run_loop].
  pose proof Hs as [Hl He Hn Hpos].
  eapply sound_bind.
  { eapply sound_weaken; [apply (validate_and_get_spec (entry_pos s)), Hl| |intros a Ha; exact Ha].
    intros [Hcov Hlt]. split; [done|lia]. }
  intros [run l'] (Hl' & Hrun & Htot). pose proof (lookup_lt_Some _ _ _ Hrun) as Hin.
  pose proof (rows_in_take_S _ _ _ _ Hrun) as Hsum.
  destruct (Nat.eqb_spec (run_length run) 0) as [Hz|Hnz].
  - assert (position_in_entry s = 0) as Hp0 by (destruct Hpos as [?|(v & c & Hrun' & ?)]; [done|rewrite Hrun in Hrun'; injection Hrun' as <- <-; lia]).
    eapply sound_bind; [apply (forward_entry_spec _ (set_layout l' s) _ _ Hl' Hrun)|]. cbn beta.
    intros s2 (Hs2 & Hf2 & Hp2 & He2). cbn in He2.
    eapply sound_weaken; [apply (IH s2)|done|].
    + cbn in Hs2. by replace n with (rows_in (take (entry_pos s) runs) + run_length run) by lia.
    + lia.
    + intros [run' s'] (Hst & Hsame & ?). split_and!; [done|by eapply same_filter_trans|lia].
  - assert (position_in_entry s < run_length run) as Hlt.
    { destruct Hpos as [->|(v & c & Hrun' & ?)]; [lia|]. rewrite Hrun in Hrun'. injection Hrun' as <- <-. lia. }
    apply sound_ret. split_and!; [split_and!; cbn; [split; done|done|done|lia]|done|done].
Qed.

Lemma current_run_spec n s : scan_at n s ->
  sound (covered /\ n < total) (ValidateAndGetCurrentRun s) (fun '(run, s') => stands_in n run s' /\ same_filter s s' /\
    position_in_entry s' <= position_in_entry s).
Proof.
  intros Hs. apply current_run_loop_spec; [done|]. rewrite (layout_capacity _ (at_layout _ _ Hs)). lia.
Qed.

(** ** Skipping *)

Lemma skip_loop_spec fuel k n s : scan_at n s -> k <= fuel ->
  sound (covered /\ n + k <= total) (skip_loop fuel k s) (fun s' => scan_at (n + k) s' /\ same_filter s s').
Proof.
  revert k n s. induction fuel as [|fuel IH]; intros k n s Hs Hk; cbn [skip_loop].
  { destruct (Nat.eqb_spec k 0) as [->|]; [|lia]. apply sound_ret. by rewrite Nat.add_0_r. }
  destruct (Nat.eqb_spec k 0) as [->|Hnz]; [apply sound_ret; by rewrite Nat.add_0_r|].
  eapply sound_bind.
  { eapply sound_weaken; [by apply current_run_spec| |intros a Ha; exact Ha]. intros [? ?]. split; [done|lia]. }
  intros [run s1] (Hst & Hf1 & _). pose proof Hst as (_ & _ & Hpos & Htot). set (left := run_length run - position_in_entry s1) in *.
  unfold ExhaustedRun. cbn [position_in_entry RleCompression.set_position].
  destruct (Nat.leb_spec (run_length run) (position_in_entry s1 + Nat.min k left)) as [Hex|Hin].
  - assert (Nat.min k left = left) as Hmin by lia. rewrite Hmin.
    eapply sound_bind; [apply (forward_spec _ n run s1 Hst)|]. cbn beta. intros s2 [Hs2 Hf2].
    eapply sound_weaken; [apply (IH (k - left) (n + left) s2); [done|lia]| |].
    + intros [? ?]. split; [done|lia].
    + cbn. intros s' [Hs' Hf']. replace (n + k) with (n + left + (k - left)) by lia. split; [done|].
      eapply same_filter_trans, same_filter_trans; done.
  - assert (Nat.min k left = k) as Hmin by lia. rewrite Hmin, Nat.sub_diag.
    destruct (set_position_spec n run s1 k Hst ltac:(lia)) as [Hs2 Hf2].
    eapply sound_bind; [apply (sound_ret _ _ (fun s2 => s2 = RleCompression.set_position (position_in_entry s1 + k) s1)); done|].
    intros _ ->. replace (skip_loop fuel 0 _) with (mret (RleCompression.set_position (position_in_entry s1 + k) s1) : checked RLEScanState) by by destruct fuel.
    apply sound_ret. split; [done|]. by eapply same_filter_trans.
Qed.

Lemma skip_spec k n s : scan_at n s ->
  sound (covered /\ n + k <= total) (SkipInternal k s) (fun s' => scan_at (n + k) s' /\ same_filter s s').
Proof. intros Hs. by apply skip_loop_spec. Qed.
End Scan.
