(* ===== verification/RleReadFacts.v ===== *)
(** * Scans, selections and filters of run-length compressed segments

    What the readers of [RleCompression] write, row by row, in terms of [decode]. *)

From S2P Require Import Prelude ValidityMask UpdateInfo UpdateSegment UndoBuffer RleCompression RleScanFacts.
From Stdlib Require Import Sorted.

Local Open Scope nat_scope.

(** ** Writing *)

Section Write.
Context {T : Type} `{ColumnType T} `{RleType T}.
Implicit Types (data : list T).

Lemma write_at_spec fine i x data : i < length data ->
  sound fine (write_at i x data) (fun data' => length data' = length data /\ forall j, data' !! j = if j =? i then Some x else data !! j).
Proof.
  intros Hi. unfold write_at. destruct (Nat.ltb_spec i (length data)); [|lia]. apply sound_ret. split; [apply length_insert|].
  intros j. destruct (Nat.eqb_spec j i) as [->|]; [by apply list_lookup_insert_eq|by apply list_lookup_insert_ne].
Qed.

Lemma write_run_spec fine offset n x data : offset + n <= length data ->
  sound fine (write_run offset n x data) (fun data' => length data' = length data /\
    forall j, data' !! j = if (offset <=? j) && (j <? offset + n) then Some x else data !! j).
Proof.
  intros Hlen. unfold write_run.
  assert (forall k, k <= n -> sound fine (for_range 0 k (fun i r => data ← r; write_at (offset + i) x data) (mret data))
    (fun data' => length data' = length data /\ forall j, data' !! j = if (offset <=? j) && (j <? offset + k) then Some x else data !! j)) as Hk.
  { induction k as [|k IH]; intros Hk.
    - apply sound_ret. split; [done|]. intros j.
      destruct (Nat.leb_spec offset j), (Nat.ltb_spec j (offset + 0)); cbn; done || lia.
    - rewrite for_range_S_r by lia. eapply sound_bind; [apply IH; lia|]. cbn beta. intros data1 [Hl1 Hd1].
      eapply sound_weaken; [apply write_at_spec; lia|done|]. cbn beta. intros data2 [Hl2 Hd2]. split; [lia|].
      intros j. rewrite Hd2, Hd1. destruct (Nat.eqb_spec j (offset + k)), (Nat.leb_spec offset j), (Nat.ltb_spec j (offset + k)),
        (Nat.ltb_spec j (offset + S k)); cbn; done || lia. }
  by apply Hk.
Qed.
End Write.

Section Read.
Context {T : Type} `{ColumnType T} `{RleType T} `{VectorSize}.
Context (runs : list (T * nat)) (total : nat).
Implicit Types (s : RLEScanState (T := T)) (data : list T).

Abbreviation scan_at := (scan_at runs total).
Abbreviation stands_in := (stands_in runs total).
Abbreviation covered := (covered runs total).
Abbreviation row := (lookup (M := list T) (A := T)).

(** [data'] is [data] with the [k] rows from [n] on at [offset]. *)
Definition filled (n k offset : nat) data data' : Prop :=
  length data' = length data /\
  forall j, data' !! j = if (offset <=? j) && (j <? offset + k) then decode runs !! (n + (j - offset)) else data !! j.

Lemma filled_nil n offset data : filled n 0 offset data data.
Proof. split; [done|]. intros j. destruct (Nat.leb_spec offset j), (Nat.ltb_spec j (offset + 0)); cbn; done || lia. Qed.

Lemma filled_app n k1 k2 offset data1 data2 data3 : filled n k1 offset data1 data2 ->
  filled (n + k1) k2 (offset + k1) data2 data3 -> filled n (k1 + k2) offset data1 data3.
Proof.
  intros [Hl1 H12] [Hl2 H23]. split; [lia|]. intros j. rewrite H23, H12.
  destruct (Nat.leb_spec offset j), (Nat.leb_spec (offset + k1) j), (Nat.ltb_spec j (offset + k1 + k2)),
    (Nat.ltb_spec j (offset + k1)), (Nat.ltb_spec j (offset + (k1 + k2))); cbn; try lia; f_equal; lia || done.
Qed.

Lemma write_run_filled fine n run s k offset data : stands_in n run s -> k <= run_length run - position_in_entry s ->
  offset + k <= length data ->
  sound fine (write_run offset k (run_value run) data) (filled n k offset data).
Proof.
  intros Hst Hk Hlen. eapply sound_weaken; [by apply write_run_spec|done|]. cbn beta. intros data' [Hl Hd]. split; [done|].
  intros j. rewrite Hd. destruct (Nat.leb_spec offset j), (Nat.ltb_spec j (offset + k)); cbn; [|done..].
  symmetry. eapply stands_row; [exact Hst|lia].
Qed.

Lemma current_bind {B} fine n s (f : ValidatedRun * RLEScanState -> checked B) Q : scan_at n s -> (fine -> covered /\ n < total) ->
  (forall run s', stands_in n run s' -> same_filter s s' -> position_in_entry s' <= position_in_entry s ->
    sound fine (f (run, s')) Q) ->
  sound fine (ValidateAndGetCurrentRun s ≫= f) Q.
Proof.
  intros Hs Hfine Hf. eapply sound_bind.
  - eapply sound_weaken; [by apply current_run_spec|exact Hfine|intros a Ha; exact Ha].
  - intros [run s'] (Hst & Hsame & ?). by apply Hf.
Qed.

(** ** Scans *)

Lemma scan_loop_spec fuel offset k n data s : scan_at n s -> k <= fuel -> offset + k <= length data ->
  sound (covered /\ n + k <= total) (scan_loop fuel offset (offset + k) data s)
    (fun '(data', s') => filled n k offset data data' /\ scan_at (n + k) s' /\ same_filter s s').
Proof.
  revert offset k n data s. induction fuel as [|fuel IH]; intros offset k n data s Hs Hk Hlen; cbn [scan_loop].
  { destruct (Nat.ltb_spec offset (offset + k)); [lia|]. assert (k = 0) as -> by lia. apply sound_ret. rewrite Nat.add_0_r.
    split_and!; [apply filled_nil|done|done]. }
  destruct (Nat.ltb_spec offset (offset + k)) as [Hpos|Hz].
  2:{ assert (k = 0) as -> by lia. apply sound_ret. rewrite (Nat.add_0_r n). split_and!; [apply filled_nil|done|done]. }
  eapply current_bind; [exact Hs|intros [? ?]; split; [done|lia]|]. intros run s1 Hst Hf1 _. cbv beta iota zeta.
  replace (offset + k - offset) with k by lia. set (left := run_length run - position_in_entry s1).
  destruct (Nat.ltb_spec k left) as [Hin|Hex].
  - eapply sound_bind; [eapply write_run_filled; [exact Hst|lia|lia]|]. intros data' Hd. apply sound_ret.
    destruct (set_position_spec runs total n run s1 k Hst Hin) as [Hs2 Hf2].
    split_and!; [done|done|by eapply same_filter_trans].
  - assert (0 < left) as Hleft by (pose proof Hst as (_ & _ & ? & _); subst left; lia).
    eapply sound_bind; [eapply write_run_filled; [exact Hst|subst left; lia|subst left; lia]|]. intros data1 Hd1.
    eapply sound_bind; [apply (forward_spec runs total _ n run s1 Hst)|]. cbn beta. intros s2 [Hs2 Hf2]. fold left in Hs2, Hd1 |- *.
    replace (offset + k) with (offset + left + (k - left)) by lia.
    eapply sound_weaken; [apply (IH (offset + left) (k - left) (n + left) data1 s2); [done|lia|rewrite (proj1 Hd1); lia]| |].
    + intros [? ?]. split; [done|lia].
    + intros [data' s'] (Hd & Hs' & Hf'). replace (n + k) with (n + left + (k - left)) by lia. split_and!; [|done|].
      * replace k with (left + (k - left)) by lia. by eapply filled_app.
      * by eapply same_filter_trans, same_filter_trans.
Qed.

(** The rows of a result vector. *)
Definition vector_holds (n k offset : nat) data (v : ResultVector (T := T)) : Prop :=
  match v with
  | ConstantVector count x => count = k /\ offset = 0 /\ forall j, j < k -> decode runs !! (n + j) = Some x
  | FlatVector data' => filled n k offset data data'
  end.

Lemma scan_constant_spec fine n run k s : stands_in n run s -> k <= run_length run - position_in_entry s ->
  sound fine (RLEScanConstant run k s) (fun '(v, s') =>
    (exists x, v = ConstantVector k x /\ forall j, j < k -> decode runs !! (n + j) = Some x) /\ scan_at (n + k) s' /\ same_filter s s').
Proof.
  intros Hst Hk. unfold RLEScanConstant, ExhaustedRun. cbn [position_in_entry RleCompression.set_position].
  assert (Hrow : forall j, j < k -> decode runs !! (n + j) = Some (run_value run)).
  { intros j Hj. eapply stands_row; [exact Hst|lia]. }
  destruct (Nat.leb_spec (run_length run) (position_in_entry s + k)) as [Hex|Hin].
  - eapply sound_bind; [apply (forward_spec runs total _ n run s Hst)|]. cbn beta. intros s' [Hs' Hf].
    apply sound_ret. replace (n + k) with (n + (run_length run - position_in_entry s)) by lia. split_and!; eauto.
  - destruct (set_position_spec runs total n run s k Hst ltac:(lia)) as [Hs' Hf].
    eapply sound_bind; [apply (sound_ret _ _ (fun s2 => s2 = RleCompression.set_position (position_in_entry s + k) s)); done|].
    intros _ ->. apply sound_ret. split_and!; eauto.
Qed.

Lemma emit_constant_left entire position length k : CanEmitConstantVector entire position length k = true -> k <= length - position.
Proof.
  unfold CanEmitConstantVector. destruct entire; cbn; [|done]. destruct (k =? STANDARD_VECTOR_SIZE); cbn; [|done]. apply Nat.leb_le.
Qed.

Lemma scan_partial_spec entire k offset n data s : scan_at n s -> offset + k <= length data -> (entire = true -> offset = 0) ->
  sound (covered /\ n + k <= total /\ n < total) (RLEScanPartialInternal entire k data offset s)
    (fun '(v, s') => vector_holds n k offset data v /\ scan_at (n + k) s' /\ same_filter s s').
Proof.
  intros Hs Hlen Hoff. unfold RLEScanPartialInternal.
  eapply current_bind; [exact Hs|intros (? & ? & ?); by split|]. intros run s1 Hst Hf1 _. cbv beta iota.
  destruct (_ && _) eqn:E.
  - apply andb_true_iff in E as [_ E]. assert (offset = 0) as ->.
    { apply Hoff. unfold CanEmitConstantVector in E. by destruct entire. }
    eapply sound_weaken; [apply (scan_constant_spec _ n); [exact Hst|by eapply emit_constant_left]|intros Hc; exact Hc|].
    intros [v s'] ((x & -> & ?) & ? & ?). split_and!; [done|done|by eapply same_filter_trans].
  - eapply sound_bind.
    + eapply sound_weaken; [apply (scan_loop_spec k offset k n data s1); [apply Hst|lia|done]|intros (? & ? & ?); by split|intros a Ha; exact Ha].
    + intros [data' s'] (? & ? & ?). apply sound_ret. split_and!; [done|done|by eapply same_filter_trans].
Qed.

(** ** Selections *)

(** A selection of [m] rows in order, below [count]. *)
Definition ordered_selection (sel : SelectionVector) (m count : nat) : Prop :=
  (forall i, i < m -> get_index sel i < count) /\
  forall i j, i < j -> j < m -> get_index sel i <= get_index sel j.

(** The scan is in the run that ends before the row [base + run_end] of the segment. *)
Record selecting (base run_end : nat) (run : ValidatedRun (T := T)) s : Prop := {
  sel_layout : layout_ok runs total (layout s);
  sel_run : runs !! entry_pos s = Some (run_value run, run_length run);
  sel_end : rows_in (take (entry_pos s) runs) + run_length run = base + run_end;
  sel_total : base + run_end <= total
}.

Lemma stands_selecting n run s : stands_in n run s -> selecting n (run_length run - position_in_entry s) run s.
Proof. intros ([Hl _ Hn _] & Hrun & Hpos & Htot). split; [done|done|lia|done]. Qed.

(** A row of the run. *)
Lemma selecting_row base e run s j : selecting base e run s -> j < e -> e <= j + run_length run ->
  decode runs !! (base + j) = Some (run_value run).
Proof.
  intros [_ Hrun He _] Hj Hlen.
  replace (base + j) with (rows_in (take (entry_pos s) runs) + (run_length run - (e - j))) by lia.
  apply decode_lookup with (run_length run); [done|lia].
Qed.

Lemma advance_spec fuel next e run base s : selecting base e run s -> S next - e < fuel ->
  sound (covered /\ base + next < total) (advance_runs fuel next e run s)
    (fun '(e', run', s') => selecting base e' run' s' /\ next < e' /\ same_filter s s' /\
      (e' = e /\ run' = run \/ e' <= next + run_length run')).
Proof.
  revert e run s. induction fuel as [|fuel IH]; intros e run s Hsel Hf; [lia|]. cbn [advance_runs].
  destruct (Nat.leb_spec e next) as [Hle|Hgt]; [|apply sound_ret; split_and!; [done|lia|done|by left]].
  eapply sound_bind; [apply (forward_entry_spec runs total _ s _ _ (sel_layout _ _ _ _ Hsel) (sel_run _ _ _ _ Hsel))|].
  rewrite (sel_end _ _ _ _ Hsel). cbn beta. intros s1 (Hs1 & Hf1 & Hp1 & _).
  eapply current_bind; [exact Hs1|intros [? ?]; split; [done|lia]|]. intros run2 s2 Hst2 Hf2 Hp2. cbv beta iota.
  pose proof Hst2 as ([Hl2 _ Hrow2 _] & Hrun2 & Hpos2 & Htot2).
  eapply sound_weaken; [apply (IH (e + run_length run2) run2 s2)|done|].
  - split; [done|done|lia|lia].
  - lia.
  - intros [[e' run'] s'] (Hsel' & Hlt & Hf' & Hor). split_and!; [done|done| |].
    + by eapply same_filter_trans, same_filter_trans.
    + right. destruct Hor as [[-> ->]|?]; [lia|done].
Qed.

(** [data'] is [data] with the selected rows [i, ..., i + m - 1] of the vector at [base] written. *)
Definition gathered (base : nat) (sel : SelectionVector) (i m offset : nat) data data' : Prop :=
  length data' = length data /\
  forall j, data' !! j = if (offset + i <=? j) && (j <? offset + i + m) then decode runs !! (base + get_index sel (j - offset)) else data !! j.

Lemma select_loop_spec m i sel offset prev e run data s base count : selecting base e run s ->
  prev < e -> e <= prev + run_length run -> prev <= count ->
  (forall k, i <= k < i + m -> prev <= get_index sel k < count) ->
  (forall j k, i <= j -> j < k -> k < i + m -> get_index sel j <= get_index sel k) ->
  offset + i + m <= length data ->
  sound (covered /\ base + count <= total) (select_loop m i sel offset prev e run data s)
    (fun '(data', prev', e', run', s') => gathered base sel i m offset data data' /\ selecting base e' run' s' /\
      prev' < e' /\ e' <= prev' + run_length run' /\ prev' <= count /\ same_filter s s').
Proof.
  revert i prev e run data s. induction m as [|m IH]; intros i prev e run data s Hsel Hlt Hle Hc Hin Hord Hlen; cbn [select_loop].
  { apply sound_ret. split; [|by split_and!]. split; [done|]. intros j.
    destruct (Nat.leb_spec (offset + i) j), (Nat.ltb_spec j (offset + i + 0)); cbn; done || lia. }
  destruct (Hin i ltac:(lia)) as [Hprev Hi]. destruct (Nat.ltb_spec (get_index sel i) prev); [lia|]. set (next := get_index sel i) in *.
  eapply sound_bind.
  { eapply sound_weaken; [apply (advance_spec (S next) next e run base s Hsel); lia| |intros a Ha; exact Ha]. intros [? ?]. split; [done|lia]. }
  intros [[e1 run1] s1] (Hsel1 & Hlt1 & Hf1 & Hor).
  assert (e1 <= next + run_length run1) as Hle1 by (destruct Hor as [[-> ->]|?]; lia).
  eapply sound_bind; [apply write_at_spec; lia|]. cbn beta. intros data1 [Hl1 Hd1].
  eapply sound_weaken; [apply (IH (S i) next e1 run1 data1 s1 Hsel1 Hlt1 Hle1)|done|].
  - lia.
  - intros k Hk. split; [apply Hord; lia|apply Hin; lia].
  - intros j k Hj Hjk Hk. apply Hord; lia.
  - lia.
  - intros [[[[data' prev'] e'] run'] s'] ((Hl' & Hd') & Hsel' & ? & ? & ? & ?). split_and!; try done; [|by eapply same_filter_trans].
    split; [lia|]. intros j. rewrite Hd', Hd1.
    destruct (Nat.leb_spec (offset + S i) j), (Nat.leb_spec (offset + i) j), (Nat.ltb_spec j (offset + S i + m)),
      (Nat.ltb_spec j (offset + i + S m)), (Nat.eqb_spec j (offset + i)); cbn; try done; try lia.
    symmetry. replace (j - offset) with i by lia. by eapply selecting_row.
Qed.

(** What a selection leaves in the vector. *)
Definition vector_selected (base count : nat) (sel : SelectionVector) (m offset : nat) data (v : ResultVector (T := T)) : Prop :=
  match v with
  | ConstantVector c x => c = count /\ forall j, j < count -> decode runs !! (base + j) = Some x
  | FlatVector data' => gathered base sel 0 m offset data data'
  end.

Lemma select_spec count data sel m offset entire n s : scan_at n s -> ordered_selection sel m count -> offset + m <= length data ->
  sound (covered /\ n + count <= total /\ n < total) (RLESelect count data sel m offset entire s)
    (fun '(v, s') => vector_selected n count sel m offset data v /\ scan_at (n + count) s' /\ same_filter s s').
Proof.
  intros Hs [Hin Hord] Hlen. unfold RLESelect.
  eapply current_bind; [exact Hs|intros (? & ? & ?); by split|]. intros run s1 Hst Hf1 _. cbv beta iota.
  destruct (_ && _) eqn:E.
  - apply andb_true_iff in E as [_ E].
    eapply sound_weaken; [apply (scan_constant_spec _ n run count s1); [exact Hst|by eapply emit_constant_left]|intros Hc; exact Hc|].
    intros [v s'] ((x & -> & ?) & ? & ?). split_and!; [done|done|by eapply same_filter_trans].
  - pose proof Hst as (_ & _ & Hpos & Htot).
    eapply sound_bind.
    + eapply sound_weaken; [apply (select_loop_spec m 0 sel offset 0 _ run data s1 n count (stands_selecting _ _ _ Hst))| |intros a Ha; exact Ha].
      * lia.
      * lia.
      * lia.
      * intros k Hk. split; [lia|apply Hin; lia].
      * intros j k _ ? ?. apply Hord; lia.
      * lia.
      * intros (? & ? & ?). by split.
    + intros [[[[data' prev] e] run'] s2] (Hd & Hsel & Hlt & Hle & Hc & Hf2). cbv beta iota zeta.
      pose proof Hsel as [Hl2 Hrun2 He2 Ht2].
      eapply sound_bind.
      * eapply sound_weaken; [apply (skip_spec runs total (count - prev) (n + prev))|intros (? & ? & ?); split; [done|lia]|intros a Ha; exact Ha].
        pose proof (lookup_lt_Some _ _ _ Hrun2). split; cbn; [done|lia|lia|]. right. exists (run_value run'), (run_length run'). split; [done|lia].
      * intros s' [Hs' Hf']. apply sound_ret. replace (n + count) with (n + prev + (count - prev)) by lia. split_and!; [done|done|].
        eapply same_filter_trans; [done|]. eapply same_filter_trans; [done|]. destruct Hf'. by split.
Qed.

(** ** Filters *)

Context (FilterSelection : list T -> list nat) (passes : T -> bool).
Context (Hfilter : forall l, FilterSelection l = List.filter (fun i => from_option passes false (l !! i)) (seq 0 (length l))).

Definition row_passes (r : nat) : bool := from_option passes false (decode runs !! r).

(** The runs the filter was evaluated on are the ones that cover the segment. *)
Definition filter_ready s : Prop := exists matching k,
  matching_runs s = Some matching /\ k <= length runs /\ rows_in (take k runs) = total /\
  (forall i v c, i < k -> runs !! i = Some (v, c) -> matching !! i = Some (passes v)) /\
  (matching_run_count s = 0 -> forall i v c, i < k -> runs !! i = Some (v, c) -> passes v = false).

Definition filter_ok s : Prop := matching_runs s = None \/ filter_ready s.

Lemma filter_ready_same s s' : same_filter s s' -> filter_ready s -> filter_ready s'.
Proof. intros [Hm Hc] (M & k & ?). exists M, k. by rewrite Hm, Hc. Qed.

Lemma set_matches_lookup (l : list nat) (M : list bool) i : i < length M ->
  foldl (fun m idx => <[idx := true]> m) M l !! i = if bool_decide (i ∈ l) then Some true else M !! i.
Proof.
  revert M. induction l as [|j l IH]; intros M Hi; cbn; [done|].
  rewrite IH by (by rewrite length_insert). repeat case_bool_decide; try set_solver.
  - destruct (Nat.eq_dec i j) as [->|]; [by apply list_lookup_insert_eq|set_solver].
  - apply list_lookup_insert_ne. set_solver.
Qed.

Lemma match_runs_spec n s : scan_at n s -> filter_ok s ->
  sound covered (match_runs FilterSelection s) (fun s' => scan_at n s' /\ filter_ready s').
Proof.
  intros [Hl He Hn Hp] Hok. unfold match_runs. destruct Hok as [Hm|Hready].
  2:{ pose proof Hready as (M & k & Hm & _). rewrite Hm. apply sound_ret. by split. }
  rewrite Hm. unfold ValidateAllRuns.
  eapply sound_bind.
  { eapply sound_bind; [apply (validate_all_loop_spec runs total _ _ Hl)|].
    - rewrite (layout_capacity _ _ _ Hl). lia.
    - intros l' Hl'. apply (sound_ret _ _ (fun '(k, l2) => k = validated_entry_count l2 /\ layout_ok runs total l2 /\
        rows_in (take (validated_entry_count l2) runs) = total)). by split. }
  intros [k l'] (-> & Hl' & Hsum). apply sound_ret. split; [by split|].
  set (k := validated_entry_count l') in *. pose proof (layout_validated _ _ _ Hl') as Hk. pose proof (layout_values _ _ _ Hl') as Hv.
  set (rm := FilterSelection (take k (values l'))).
  assert (Hrm : forall i v c, i < k -> runs !! i = Some (v, c) -> (i ∈ rm <-> passes v = true)).
  { intros i v c Hi Hrun. destruct (layout_entry _ _ _ Hl' _ _ _ Hrun) as [Hval _]. unfold rm. rewrite Hfilter.
    rewrite list_elem_of_In, List.filter_In, in_seq, length_take, lookup_take_lt, Hval by lia. cbn. split; [by intros [_ ?]|]. intros ?. split; [lia|done]. }
  eexists _, k. cbn. split_and!; [done|done|done| |].
  - intros i v c Hi Hrun. rewrite set_matches_lookup by (rewrite length_replicate; lia).
    specialize (Hrm i v c Hi Hrun). case_bool_decide as Hd; [symmetry; f_equal; by apply Hrm|].
    rewrite lookup_replicate_2 by lia. f_equal. destruct (passes v); [|done]. by destruct Hd; apply Hrm.
  - fold rm. intros Hz%nil_length_inv i v c Hi Hrun. specialize (Hrm i v c Hi Hrun). rewrite Hz in Hrm.
    destruct (passes v); [|done]. exfalso. apply (not_elem_of_nil i). by apply Hrm.
Qed.

(** The run a scan stands in has an entry, and its answer holds for the rows of the run. *)
Lemma run_matches_spec fine n run s : stands_in n run s -> filter_ready s ->
  sound fine (run_matches s) (fun b => b = passes (run_value run)).
Proof.
  intros Hst (M & k & Hm & Hk & Hsum & Hmatch & _). pose proof Hst as ([_ _ Hrow _] & Hrun & Hpos & Htot).
  unfold run_matches. rewrite Hm.
  assert (entry_pos s < k) as Hlt.
  { destruct (Nat.lt_ge_cases (entry_pos s) k) as [|Hge]; [done|]. pose proof (rows_in_take_mono runs k (entry_pos s) Hge). lia. }
  eapply sound_access; [by eapply Hmatch|done].
Qed.

Lemma stands_passes n run s j : stands_in n run s -> j < run_length run - position_in_entry s -> row_passes (n + j) = passes (run_value run).
Proof. intros Hst Hj. unfold row_passes. by rewrite (stands_row runs total n run s j Hst Hj). Qed.

(** [data'] is [data] with the rows of [l] that pass written at their places. *)
Definition kept (base : nat) (l : list nat) data data' : Prop :=
  length data' = length data /\
  forall j, data' !! j = if bool_decide (j ∈ l) && row_passes (base + j) then decode runs !! (base + j) else data !! j.

Lemma kept_nil base data : kept base [] data data.
Proof. by split. Qed.

Lemma kept_app base l1 l2 data1 data2 data3 : kept base l1 data1 data2 -> kept base l2 data2 data3 -> kept base (l1 ++ l2) data1 data3.
Proof.
  intros [Hl1 H12] [Hl2 H23]. split; [lia|]. intros j. rewrite H23, H12.
  repeat case_bool_decide; destruct (row_passes (base + j)); cbn; try done; set_solver.
Qed.

Lemma emit_spec fine base run s offset k data msel b : stands_in (base + offset) run s -> k <= run_length run - position_in_entry s ->
  offset + k <= length data -> b = passes (run_value run) ->
  sound fine (if (b : bool) then emit_run offset k (run_value run) data msel else mret (data, msel))
    (fun '(data', msel') => kept base (seq offset k) data data' /\
      msel' = msel ++ List.filter (fun j => row_passes (base + j)) (seq offset k)).
Proof.
  intros Hst Hk Hlen ->.
  assert (Hp : forall j, j ∈ seq offset k -> row_passes (base + j) = passes (run_value run)).
  { intros j Hj%elem_of_seq. replace (base + j) with (base + offset + (j - offset)) by lia. eapply stands_passes; [exact Hst|lia]. }
  assert (Hf : List.filter (fun j => row_passes (base + j)) (seq offset k) = if passes (run_value run) then seq offset k else []).
  { clear -Hp. induction (seq offset k) as [|j l IH]; cbn; [by destruct (passes _)|]. rewrite Hp by by left.
    rewrite IH by (intros j' Hj'; apply Hp; by right). by destruct (passes _). }
  rewrite Hf. destruct (passes (run_value run)) eqn:E.
  - unfold emit_run. eapply sound_bind; [eapply write_run_filled; [exact Hst|done|done]|]. intros data' [Hl Hd]. apply sound_ret.
    split; [|done]. split; [done|]. intros j. rewrite Hd.
    destruct (bool_decide_reflect (j ∈ seq offset k)) as [Hj|Hj]; cbn [andb].
    + rewrite Hp by done. apply elem_of_seq in Hj. destruct (Nat.leb_spec offset j), (Nat.ltb_spec j (offset + k)); cbn; try lia. f_equal. lia.
    + rewrite elem_of_seq in Hj. destruct (Nat.leb_spec offset j), (Nat.ltb_spec j (offset + k)); cbn; done || lia.
  - apply sound_ret. rewrite app_nil_r. split; [|done]. split; [done|]. intros j.
    destruct (bool_decide_reflect (j ∈ seq offset k)) as [Hj|Hj]; cbn; [by rewrite Hp|done].
Qed.

(** The rows of [l] that pass. *)
Definition passing (base : nat) (l : list nat) : list nat := List.filter (fun j => row_passes (base + j)) l.

Lemma filter_loop_spec fuel base offset k data msel s : scan_at (base + offset) s -> filter_ready s -> k <= fuel ->
  offset + k <= length data ->
  sound (covered /\ base + offset + k <= total) (filter_loop fuel offset (offset + k) data msel s)
    (fun '(data', msel', s') => kept base (seq offset k) data data' /\ msel' = msel ++ passing base (seq offset k) /\
      scan_at (base + offset + k) s' /\ filter_ready s').
Proof.
  revert offset k data msel s. induction fuel as [|fuel IH]; intros offset k data msel s Hs Hready Hk Hlen; cbn [filter_loop].
  { destruct (Nat.ltb_spec offset (offset + k)); [lia|]. assert (k = 0) as -> by lia. apply sound_ret.
    rewrite app_nil_r, Nat.add_0_r. split_and!; [apply kept_nil|done..]. }
  destruct (Nat.ltb_spec offset (offset + k)) as [Hpos|Hz].
  2:{ assert (k = 0) as -> by lia. apply sound_ret. rewrite app_nil_r, (Nat.add_0_r (base + offset)). split_and!; [apply kept_nil|done..]. }
  eapply current_bind; [exact Hs|intros [? ?]; split; [done|lia]|]. intros run s1 Hst Hf1 _. cbv beta iota zeta.
  apply (filter_ready_same _ _ Hf1) in Hready. pose proof Hst as (_ & _ & Hleft & _).
  eapply sound_bind; [by eapply run_matches_spec|]. cbn beta. intros b Hb.
  replace (offset + k - offset) with k by lia. set (left := run_length run - position_in_entry s1) in *.
  destruct (Nat.ltb_spec k left) as [Hin|Hex].
  - eapply sound_bind; [eapply (emit_spec _ base run s1 offset k); [exact Hst|lia|lia|exact Hb]|]. intros [data' msel'] [Hd Hm].
    destruct (set_position_spec runs total _ run s1 k Hst Hin) as [Hs2 Hf2]. apply sound_ret.
    split_and!; [done|done|done|by eapply filter_ready_same].
  - eapply sound_bind; [eapply (emit_spec _ base run s1 offset left); [exact Hst|lia|lia|exact Hb]|]. intros [data1 msel1] [Hd1 Hm1].
    eapply sound_bind; [apply (forward_spec runs total _ _ run s1 Hst)|]. cbn beta. fold left. intros s2 [Hs2 Hf2].
    replace (offset + k) with (offset + left + (k - left)) by lia.
    eapply sound_weaken; [apply (IH (offset + left) (k - left) data1 msel1 s2)|intros [? ?]; split; [done|lia]|].
    + by rewrite Nat.add_assoc.
    + by eapply filter_ready_same.
    + lia.
    + destruct Hd1. lia.
    + intros [[data' msel'] s'] (Hd & Hm & Hs' & Hr'). replace (base + offset + k) with (base + (offset + left) + (k - left)) by lia.
      replace (seq offset k) with (seq offset left ++ seq (offset + left) (k - left)) by (rewrite <- seq_app; f_equal; lia).
      split_and!; [by eapply kept_app| |done|done]. subst msel' msel1. unfold passing. by rewrite List.filter_app, app_assoc.
Qed.

(** The rows a selection names. *)
Definition selected (sel : SelectionVector) (i m : nat) : list nat := map (get_index sel) (seq i m).

Lemma filter_sel_loop_spec m i sel prev base count data msel s : scan_at (base + prev) s -> filter_ready s ->
  (forall k, i <= k < i + m -> prev <= get_index sel k < count) -> prev <= count ->
  (forall j k, i <= j -> j < k -> k < i + m -> get_index sel j <= get_index sel k) ->
  count <= length data ->
  sound (covered /\ base + count <= total) (filter_sel_loop m i sel prev data msel s)
    (fun '(data', msel', prev', s') => kept base (selected sel i m) data data' /\ msel' = msel ++ passing base (selected sel i m) /\
      scan_at (base + prev') s' /\ filter_ready s' /\ prev' <= count).
Proof.
  revert i prev data msel s. induction m as [|m IH]; intros i prev data msel s Hs Hready Hin Hc Hord Hlen; cbn [filter_sel_loop].
  { apply sound_ret. rewrite app_nil_r. split_and!; [apply kept_nil|done..]. }
  destruct (Hin i ltac:(lia)) as [Hprev Hi]. destruct (Nat.ltb_spec (get_index sel i) prev); [lia|].
  unfold selected, passing. cbn [seq map List.filter]. set (next := get_index sel i) in *.
  eapply sound_bind.
  { eapply sound_weaken; [apply (skip_spec runs total (next - prev) (base + prev) s Hs)|intros [? ?]; split; [done|lia]|intros x Hx; exact Hx]. }
  cbn beta. replace (base + prev + (next - prev)) with (base + next) by lia. intros s1 [Hs1 Hf1].
  apply (filter_ready_same _ _ Hf1) in Hready.
  eapply current_bind; [exact Hs1|intros [? ?]; split; [done|lia]|]. intros run s2 Hst Hf2 _. cbv beta iota zeta.
  apply (filter_ready_same _ _ Hf2) in Hready. pose proof Hst as (Hs2 & _ & Hleft & _).
  eapply sound_bind; [by eapply run_matches_spec|]. cbn beta. intros b ->.
  assert (Hp : row_passes (base + next) = passes (run_value run)).
  { rewrite <- (Nat.add_0_r (base + next)). eapply stands_passes; [exact Hst|lia]. }
  rewrite Hp. destruct (passes (run_value run)) eqn:E; cbn [negb].
  - eapply sound_bind; [apply (write_at_spec _ next); lia|]. cbn beta. intros data1 [Hl1 Hd1].
    eapply sound_weaken; [apply (IH (S i) next data1 (msel ++ [next]) s2); try done|done|].
    + intros k Hk. split; [apply Hord; lia|apply Hin; lia].
    + lia.
    + intros j k ? ? ?. apply Hord; lia.
    + lia.
    + intros [[[data' msel'] prev'] s'] (Hd & Hm & ? & ? & ?). split_and!; [|by rewrite Hm, <- app_assoc|done..].
      eapply (kept_app _ [next]); [|exact Hd]. split; [done|]. intros j. rewrite Hd1.
      destruct (bool_decide_reflect (j ∈ [next])) as [->%list_elem_of_singleton|Hj]; cbn [andb].
      * rewrite Nat.eqb_refl, Hp. symmetry. rewrite <- (Nat.add_0_r (base + next)). eapply stands_row; [exact Hst|lia].
      * destruct (Nat.eqb_spec j next) as [->|]; [|done]. by destruct Hj; left.
  - eapply sound_weaken; [apply (IH (S i) next data msel s2); try done|done|].
    + intros k Hk. split; [apply Hord; lia|apply Hin; lia].
    + lia.
    + intros j k ? ? ?. apply Hord; lia.
    + intros [[[data' msel'] prev'] s'] (Hd & Hm & ? & ? & ?). split_and!; [|done..].
      eapply (kept_app _ [next]); [|exact Hd]. split; [done|]. intros j.
      case_bool_decide as Hj; cbn; [|done]. apply list_elem_of_singleton in Hj as ->. by rewrite Hp.
Qed.

Lemma decode_lookup_inv (l : list (T * nat)) k r : r < rows_in (take k l) ->
  exists i v c, i < k /\ l !! i = Some (v, c) /\ decode l !! r = Some v.
Proof.
  revert k r. induction l as [|[v c] l IH]; intros [|k] r Hr; cbn in Hr; try lia.
  destruct (Nat.lt_ge_cases r c) as [Hlt|Hge].
  - exists 0, v, c. split_and!; [lia|done|]. cbn. rewrite lookup_app_l by (rewrite length_replicate; lia). by apply lookup_replicate_2.
  - destruct (IH k (r - c)) as (i & w & d & Hi & Hl & Hd); [lia|]. exists (S i), w, d. split_and!; [lia|done|].
    cbn. rewrite lookup_app_r; rewrite length_replicate; [done|lia].
Qed.

Lemma filter_length_all {A} (f : A -> bool) (l : list A) : length (List.filter f l) = length l -> List.filter f l = l.
Proof.
  induction l as [|x l IH]; cbn; [done|]. destruct (f x); cbn; [intros [=]; f_equal; by apply IH|].
  pose proof (List.filter_length_le f l). lia.
Qed.

Lemma selected_all l : selected (Some l) 0 (length l) = l.
Proof.
  unfold selected. cbn. apply list_eq. intros i. rewrite list_lookup_fmap. destruct (Nat.lt_ge_cases i (length l)) as [Hi|Hi].
  - rewrite lookup_seq_lt by done. destruct (lookup_lt_is_Some_2 l i Hi) as [x Hx]. cbn. unfold at_nat. by rewrite Hx.
  - rewrite lookup_seq_ge by done. cbn. symmetry. by apply lookup_ge_None_2.
Qed.

Lemma elem_of_selected sel i m j : j ∈ selected sel i m <-> exists k, i <= k < i + m /\ j = get_index sel k.
Proof.
  unfold selected. rewrite list_elem_of_In, in_map_iff. split.
  - intros (k & <- & ?%in_seq). by exists k.
  - intros (k & ? & ->). exists k. split; [done|]. by apply in_seq.
Qed.

Lemma passing_none base l : (forall j, j ∈ l -> row_passes (base + j) = false) -> passing base l = [].
Proof.
  unfold passing. induction l as [|j l IH]; intros Hl; cbn; [done|]. rewrite Hl by by left. apply IH. intros k Hk. apply Hl. by right.
Qed.

Lemma elem_of_passing base l j : j ∈ passing base l <-> j ∈ l /\ row_passes (base + j) = true.
Proof. unfold passing. by rewrite !list_elem_of_In, List.filter_In. Qed.

(** What the loops found, as the selection and count a filter returns. *)
Lemma filter_result n sel m data data' msel : kept n (selected sel 0 m) data data' -> msel = passing n (selected sel 0 m) ->
  forall fine s' (Q : RLEScanState -> Prop), Q s' ->
  sound fine (if negb (length msel =? m) then mret (data', Some msel, length msel, s') else mret (data', sel, m, s'))
    (fun '(d, sel', m', s2) => selected sel' 0 m' = passing n (selected sel 0 m) /\ length d = length data /\
      (forall j, j ∈ selected sel' 0 m' -> d !! j = decode runs !! (n + j)) /\ Q s2).
Proof.
  intros [Hl Hd] -> fine s' Q HQ. set (l := selected sel 0 m) in *.
  assert (Hin : forall j, j ∈ passing n l -> data' !! j = decode runs !! (n + j)).
  { intros j [Hj Hp]%elem_of_passing. by rewrite Hd, Hp, bool_decide_true by done. }
  destruct (Nat.eqb_spec (length (passing n l)) m) as [Heq|Hne]; cbn [negb]; apply sound_ret.
  - assert (passing n l = l) as Hall.
    { apply filter_length_all. etrans; [exact Heq|]. unfold l, selected. by rewrite length_map, length_seq. }
    fold l. rewrite Hall in Hin |- *. by split_and!.
  - rewrite selected_all. by split_and!.
Qed.

(** After a filter: the selection names the rows that pass, and these are in the vector. *)
Lemma filter_spec count data sel m n s : scan_at n s -> filter_ok s -> ordered_selection sel m count -> (sel = None -> m = count) ->
  count <= length data ->
  sound (covered /\ n + count <= total) (RLEFilter FilterSelection count data sel m s)
    (fun '(data', sel', m', s') => (n + count <= total -> selected sel' 0 m' = passing n (selected sel 0 m)) /\ length data' = length data /\
      (forall j, j ∈ selected sel' 0 m' -> data' !! j = decode runs !! (n + j)) /\
      (filter_ready s' /\ (scan_at (n + count) s' \/ matching_run_count s' = 0 /\ scan_at n s'))).
Proof.
  intros Hs Hok [Hin Hord] Hnone Hlen. unfold RLEFilter.
  eapply sound_bind.
  { eapply sound_weaken; [by apply (match_runs_spec n s)|by intros [? ?]|intros x Hx; exact Hx]. }
  cbn beta. intros s1 [Hs1 Hready].
  destruct (Nat.eqb_spec (matching_run_count s1) 0) as [Hz|Hnz].
  { apply sound_ret. split_and!; [|done|by intros j ?%elem_of_nil|done|by right].
    pose proof Hready as (M & k & _ & _ & Hsum & _ & Hnever). intros Htot.
    symmetry. apply passing_none. intros j (i & Hi & ->)%elem_of_selected. specialize (Hin i ltac:(lia)).
    destruct (decode_lookup_inv runs k (n + get_index sel i)) as (e & v & c & He & Hrun & Hd); [lia|].
    unfold row_passes. rewrite Hd. by eapply Hnever. }
  destruct sel as [l|].
  - eapply sound_bind.
    + eapply sound_bind.
      { apply (filter_sel_loop_spec m 0 (Some l) 0 n count data [] s1); try done; [by rewrite Nat.add_0_r|..|lia|by intros j k _; apply Hord].
        intros k Hk. split; [lia|apply Hin; lia]. }
      intros [[[data' msel] prev] s2] (Hd & Hm & Hs2 & Hr2 & Hprev).
      eapply sound_bind.
      { eapply sound_weaken; [apply (skip_spec runs total (count - prev) (n + prev) s2 Hs2)|intros [? ?]; split; [done|lia]|intros x Hx; exact Hx]. }
      cbn beta. replace (n + prev + (count - prev)) with (n + count) by lia. intros s3 [Hs3 Hf3].
      apply (sound_ret _ _ (fun '(d, ms, s') => kept n (selected (Some l) 0 m) data d /\ ms = passing n (selected (Some l) 0 m) /\
        scan_at (n + count) s' /\ filter_ready s')). split_and!; [done|done|done|by eapply filter_ready_same].
    + intros [[data' msel] s2] (Hd & Hm & Hs2 & Hr2).
      eapply sound_weaken; [apply (filter_result n (Some l) m data data' msel Hd Hm _ s2 (fun s' => s' = s2)); done|intros Hc; exact Hc|].
      intros [[[d sel'] m'] s'] (? & ? & ? & ->). split_and!; try done. by left.
  - specialize (Hnone eq_refl). subst m. eapply sound_bind.
    + pose proof (filter_loop_spec count n 0 count data [] s1) as Hloop. rewrite Nat.add_0_r in Hloop. by apply Hloop.
    + intros [[data' msel] s2] (Hd & Hm & Hs2 & Hr2).
      assert (selected None 0 count = seq 0 count) as Hsel by apply map_id.
      eapply sound_weaken; [apply (filter_result n None count data data' msel) with (s' := s2) (Q := fun s' => s' = s2); [by rewrite Hsel|by rewrite Hsel|done]|intros Hc; exact Hc|].
      intros [[[d sel'] m'] s'] (? & ? & ? & ->). split_and!; try done. by left.
Qed.
End Read.
