(* ===== verification/RleWriteFacts.v ===== *)
(** * Writing run-length compressed segments

    What the state machine of [RleCompression] makes of the rows it is given, and what it leaves in the
    bytes of the segments. *)

From S2P Require Import Prelude ValidityMask UpdateInfo UpdateSegment UpdateLaws UpdateStatistics UndoBuffer UndoBufferFacts RleCompression RleScanFacts.

Local Open Scope nat_scope.

(** The laws of a column type: its bytes hold its values, and comparing equal is being equal. *)
Class RleTypeLaws (T : Type) `{RleType T} : Prop := {
  law_size (x : T) : length (type_bytes x) = type_size;
  law_load (x : T) : type_load (type_bytes x) = x;
  law_positive : 0 < type_size;
  law_align : 0 < type_align /\ exists k, 8 = k * type_align;
  law_equal (x y : T) : RLEValueEqual x y = true <-> x = y
}.

Lemma count_maximum_large : 1 < COUNT_MAXIMUM.
Proof. unfold COUNT_MAXIMUM. lia. Qed.
#[global] Arguments COUNT_MAXIMUM : simpl never.

(** ** Rows and runs *)

Section Runs.
Context {T : Type} `{ColumnType T} `{RleTypeLaws T}.

(** A run as it is handed to a writer: its value, its length, and whether all of its rows are NULL. *)
Abbreviation run := (T * nat * bool)%type.
Implicit Types (log : list run) (rows chunk : list (option T)) (s : RLEState (T := T)).

Definition run_of (r : run) : T * nat := (r.1.1, r.1.2).

(** The rows of a run are NULL or have its value. *)
Definition run_rows (r : run) chunk : Prop :=
  length chunk = r.1.2 /\ forall x, x ∈ chunk -> x = None \/ x = Some r.1.1 /\ r.2 = false.

Definition encodes log rows : Prop := exists chunks, rows = concat chunks /\ Forall2 run_rows log chunks.

Lemma encodes_nil : encodes [] [].
Proof. by exists []. Qed.

Lemma encodes_snoc log rows r chunk : encodes log rows -> run_rows r chunk -> encodes (log ++ [r]) (rows ++ chunk).
Proof.
  intros (chunks & -> & Hf) Hr. exists (chunks ++ [chunk]). split; [by rewrite concat_app; cbn; rewrite app_nil_r|].
  by apply Forall2_app; [|constructor].
Qed.

Lemma encodes_snoc_inv log rows r : encodes (log ++ [r]) rows -> exists rows1 chunk, rows = rows1 ++ chunk /\ encodes log rows1 /\ run_rows r chunk.
Proof.
  intros (chunks & -> & (c1 & c2 & Hc1 & Hc2 & ->)%Forall2_app_inv_l). apply Forall2_cons_inv_l in Hc2 as (chunk & rest & Hr & Hn & ->).
  apply Forall2_nil_inv_l in Hn as ->. exists (concat c1), chunk. rewrite concat_app. cbn. rewrite app_nil_r. split_and!; [done| |done].
  by exists c1.
Qed.

(** What the runs stand for agrees with the rows wherever these are not NULL. *)
Lemma encodes_decode log rows : encodes log rows ->
  length rows = rows_in (run_of <$> log) /\
  forall i v, rows !! i = Some (Some v) -> decode (run_of <$> log) !! i = Some v.
Proof.
  intros (chunks & -> & Hf). induction Hf as [|[[v n] b] chunk log chunks [Hlen Hc] Hf [IHl IH]]; [done|]. cbn in *. split.
  - rewrite length_app. lia.
  - intros i x Hi. destruct (Nat.lt_ge_cases i n) as [Hlt|Hge].
    + rewrite lookup_app_l in Hi by lia. rewrite lookup_app_l by (rewrite length_replicate; lia).
      destruct (Hc (Some x)) as [?|[[= ->] _]]; [by eapply list_elem_of_lookup_2|done|]. by apply lookup_replicate_2.
    + rewrite lookup_app_r in Hi by lia. rewrite lookup_app_r by (rewrite length_replicate; lia). rewrite length_replicate.
      apply IH. by rewrite <- Hlen.
Qed.

(** ** The state machine *)

Definition pending s : run := (last_value s, last_seen_count s, all_null s).

(** The state after the rows [rows], of which the runs [log] were handed to the writer. *)
Record rle_inv s log rows : Prop := {
  inv_encodes : encodes (log ++ [pending s]) rows;
  inv_pending : last_seen_count s < COUNT_MAXIMUM;
  inv_counts : Forall (fun r : run => r.1.2 <= COUNT_MAXIMUM) log;
  inv_seen : length log + 1 = seen_count s + (if all_null s then 1 else 0)
}.

Lemma rle_inv_initial : rle_inv new_rle_state [] [].
Proof.
  split; [|pose proof count_maximum_large; cbn; lia|constructor|done]. exists [[]]. split; [done|]. constructor; [|done].
  split; [done|]. by intros x ?%elem_of_nil.
Qed.

Lemma count_succ_small n : n < COUNT_MAXIMUM -> count_succ n = n + 1.
Proof. intros. unfold count_succ. apply Nat.mod_small. lia. Qed.

(** A row joins the run that is pending. *)
Lemma encodes_join log v n (b b' : bool) v' x rows : encodes (log ++ [(v, n, b)]) rows ->
  (x = None \/ x = Some v' /\ b' = false) -> (b = true /\ b' = false \/ v' = v /\ b' = b) ->
  encodes (log ++ [(v', n + 1, b')]) (rows ++ [x]).
Proof.
  intros (rows1 & chunk & -> & Henc & Hlen & Hc)%encodes_snoc_inv Hx Hb. rewrite <- app_assoc. apply encodes_snoc; [done|].
  split; [rewrite length_app; cbn in *; lia|]. cbn in *. intros y [Hy|Hy%list_elem_of_singleton]%elem_of_app; [|by subst].
  destruct (Hc y Hy) as [?|[? Hf]]; [by left|]. destruct Hb as [[-> _]|[-> ->]]; [done|by right].
Qed.

Section Machine.
Context {W : Type} (OP : Writer (T := T) W) (R : list run -> W -> Prop).
(** The writer records the run. *)
Context (HOP : forall log v n b w, R log w -> n <= COUNT_MAXIMUM ->
  exists w', OP v n b w = Ok w' /\ R (log ++ [(v, n, b)]) w').

Definition row_of (data : list T) (validity : ValidityMask) (idx : nat) : option T :=
  if RowIsValid validity idx then Some (at_ data idx) else None.

Lemma flush_full_spec s log rows w : last_seen_count s <= COUNT_MAXIMUM -> R log w ->
  encodes (log ++ [pending s]) rows -> Forall (fun r : run => r.1.2 <= COUNT_MAXIMUM) log ->
  length log + 1 = seen_count s + (if all_null s then 1 else 0) ->
  exists s' w' log', flush_full OP s w = Ok (s', w') /\ R log' w' /\ rle_inv s' log' rows.
Proof.
  intros Hle HR Henc Hcounts Hseen. unfold flush_full. destruct (Nat.eqb_spec (last_seen_count s) COUNT_MAXIMUM) as [Hfull|Hnot].
  - destruct (HOP log (last_value s) (last_seen_count s) (all_null s) w HR) as (w' & Hw & HR'); [lia|].
    unfold Flush. rewrite Hw. cbn [mbind result_bind]. eexists _, w', _. split; [done|]. split; [exact HR'|]. split; cbn.
    + rewrite <- (app_nil_r rows). apply encodes_snoc; [done|]. split; [done|]. by intros x ?%elem_of_nil.
    + pose proof count_maximum_large. lia.
    + apply Forall_app. split; [done|]. constructor; [|done]. cbn. lia.
    + rewrite length_app. cbn. unfold pending in *. destruct (all_null s); lia.
  - exists s, w, log. split; [done|]. split; [done|]. split; [done|lia|done|done].
Qed.

Lemma row_update_spec s log rows w data validity idx : rle_inv s log rows -> R log w ->
  exists s' w' log', Update OP data validity idx s w = Ok (s', w') /\ R log' w' /\ rle_inv s' log' (rows ++ [row_of data validity idx]).
Proof.
  intros [Henc Hp Hcounts Hseen] HR. unfold Update, row_of. pose proof (count_succ_small _ Hp) as Hs.
  destruct (RowIsValid validity idx) eqn:Hv.
  2:{ cbn [mbind result_bind]. apply (flush_full_spec _ log); cbn; [lia|done| |done|done]. rewrite Hs.
      eapply encodes_join; [exact Henc|by left|by right]. }
  unfold pending in Henc. destruct (all_null s) eqn:Hnull; cbn [mbind result_bind].
  { apply (flush_full_spec _ log); cbn; [lia|done| |done|lia]. rewrite Hs. eapply encodes_join; [exact Henc|by right|by left]. }
  destruct (RLEValueEqual (last_value s) (at_ data idx)) eqn:He; cbn [mbind result_bind].
  { apply law_equal in He. rewrite <- He. apply (flush_full_spec _ log); cbn; [lia|done| |done|done]. rewrite Hs.
    eapply encodes_join; [exact Henc|by right|by right]. }
  pose proof count_maximum_large.
  destruct (Nat.ltb_spec 0 (last_seen_count s)) as [Hpos|Hzero].
  - destruct (HOP log (last_value s) (last_seen_count s) false w HR) as (w' & Hw & HR'); [lia|].
    unfold Flush. rewrite Hnull, Hw. cbn [mbind result_bind].
    eapply flush_full_spec; cbn; [lia|exact HR'| | |].
    + apply encodes_snoc; [exact Henc|]. split; [done|]. intros x ->%list_elem_of_singleton. by right.
    + apply Forall_app. split; [done|]. constructor; [|done]. cbn. lia.
    + rewrite length_app. cbn. lia.
  - cbn [mbind result_bind]. apply (flush_full_spec _ log); cbn; [lia|done| |done|by rewrite Hnull].
    apply encodes_snoc_inv in Henc as (rows1 & chunk & -> & Henc & Hlen & _). cbn in Hlen.
    assert (chunk = []) as -> by (apply nil_length_inv; lia). rewrite app_nil_r. apply encodes_snoc; [done|].
    split; [done|]. intros x ->%list_elem_of_singleton. right. by rewrite Hnull.
Qed.
End Machine.
End Runs.
