(* ===== verification/RleSegmentFacts.v ===== *)
(** * The bytes of run-length compressed segments

    What compressing leaves in the blocks, segment by segment, and that reading a segment finds the
    runs that were written to it. *)

From S2P Require Import Prelude ValidityMask UpdateInfo UpdateSegment UpdateLaws UpdateStatistics UndoBuffer UndoBufferFacts.
From S2P Require Import RleCompression RleScanFacts RleWriteFacts.

Local Open Scope nat_scope.

(** ** Parts of a memory *)

Definition slice (offset n : nat) (data : list Z) : list Z := take n (drop offset data).

Lemma slice_lookup offset n data i : slice offset n data !! i = if decide (i < n) then data !! (offset + i) else None.
Proof. unfold slice. by rewrite lookup_take, lookup_drop. Qed.

Lemma length_slice offset n data : offset + n <= length data -> length (slice offset n data) = n.
Proof. intros. unfold slice. rewrite length_take, length_drop. lia. Qed.

Lemma slice_slice a n offset m data : a + n <= m -> slice a n (slice offset m data) = slice (offset + a) n data.
Proof.
  intros Hle. apply list_eq. intros i. rewrite !slice_lookup. repeat case_decide; try done; [f_equal; lia|lia].
Qed.

Lemma slice_store_same offset bytes data : offset + length bytes <= length data ->
  slice offset (length bytes) (store_bytes offset bytes data) = bytes.
Proof.
  intros Hlen. apply list_eq. intros i. rewrite slice_lookup, store_bytes_lookup by done.
  case_decide; [|symmetry; apply lookup_ge_None_2; lia].
  destruct (Nat.leb_spec offset (offset + i)), (Nat.ltb_spec (offset + i) (offset + length bytes)); cbn [andb]; try lia. f_equal. lia.
Qed.

Lemma slice_store_other offset bytes data a n : offset + length bytes <= length data ->
  a + n <= offset \/ offset + length bytes <= a -> slice a n (store_bytes offset bytes data) = slice a n data.
Proof.
  intros Hlen Hd. apply list_eq. intros i. rewrite !slice_lookup, store_bytes_lookup by done. case_decide; [|done].
  destruct (Nat.leb_spec offset (a + i)), (Nat.ltb_spec (a + i) (offset + length bytes)); cbn [andb]; done || lia.
Qed.

(** ** Alignment *)

Lemma align_value_bounds n : n <= AlignValue n < n + 8.
Proof. unfold AlignValue. div_lia. Qed.

Lemma align_value_below n m : n <= m * 8 -> AlignValue n <= m * 8.
Proof. unfold AlignValue. intros. div_lia. Qed.

Lemma align_value_multiple n : exists k, AlignValue n = k * 8.
Proof. unfold AlignValue. eauto. Qed.

(** ** Segments *)

Section Segments.
Context {T : Type} `{HT : ColumnTypeLaws T} {Ho : ColumnOrder T} `{HL : RleTypeLaws T} `{HB : BufferManager} (WRITE_STATISTICS : bool).
Context {VS : VectorSize}.

Abbreviation run := (T * nat * bool)%type.
Implicit Types (rs : list run) (st : RLECompressState (T := T)) (seg : ColumnSegment (T := T)).

Abbreviation MAX := (MaxRLECount (T := T)).
Definition index_pointer : nat := RLE_HEADER_SIZE + MAX * type_size.

(** The arrays of a block hold the runs [rs]. *)
Definition holds_runs (values counts : nat) rs (data : list Z) : Prop := forall i v n b, rs !! i = Some (v, n, b) ->
  slice (values + i * type_size) type_size data = type_bytes v /\
  slice (counts + i * COUNT_SIZE) COUNT_SIZE data = Stream.le_bytes COUNT_SIZE (Z.of_nat n).

Definition stats_cover rs (s : SegmentStatistics T) : Prop :=
  WRITE_STATISTICS = true -> forall v n, (v, n, false) ∈ rs -> numeric_covers s v.

(** The current segment, while the runs [rs] are in it. *)
Record written rs st : Prop := {
  written_block : length (handle st) = GetBlockSize;
  written_entries : entry_count st = length rs;
  written_fit : length rs <= MAX;
  written_rows : current_count st = rows_in (run_of <$> rs);
  written_runs : holds_runs RLE_HEADER_SIZE index_pointer rs (handle st);
  written_stats : stats_cover rs (stats_writer st)
}.

(** A segment that was handed to the checkpoint. *)
Record stored rs seg : Prop := {
  stored_block : length (segment_data seg) = GetBlockSize;
  stored_size : segment_size seg = AlignValue (RLE_HEADER_SIZE + type_size * length rs) + COUNT_SIZE * length rs;
  stored_fits : segment_size seg <= GetBlockSize;
  stored_offset : slice 0 8 (segment_data seg) = Stream.le_bytes 8 (Z.of_nat (AlignValue (RLE_HEADER_SIZE + type_size * length rs)));
  stored_runs : holds_runs RLE_HEADER_SIZE (AlignValue (RLE_HEADER_SIZE + type_size * length rs)) rs (segment_data seg);
  stored_rows : segment_count seg = rows_in (run_of <$> rs);
  stored_stats : stats_cover rs (segment_stats seg)
}.

Lemma holds_runs_same values counts values' counts' rs (data data' : list Z) :
  (forall i, i < length rs -> slice (values' + i * type_size) type_size data' = slice (values + i * type_size) type_size data) ->
  (forall i, i < length rs -> slice (counts' + i * COUNT_SIZE) COUNT_SIZE data' = slice (counts + i * COUNT_SIZE) COUNT_SIZE data) ->
  holds_runs values counts rs data -> holds_runs values' counts' rs data'.
Proof.
  intros Hv Hc Hh i v n b Hi. destruct (Hh i v n b Hi). pose proof (lookup_lt_Some _ _ _ Hi). by rewrite Hv, Hc.
Qed.

(** The block has room for all the entries. *)
Context (Hmax : 0 < MAX).

Lemma block_room : index_pointer + MAX * COUNT_SIZE <= GetBlockSize /\ exists m, index_pointer = m * 8.
Proof.
  pose proof law_positive. unfold index_pointer, RLE_HEADER_SIZE, COUNT_SIZE in *. unfold MaxRLECount, AlignValueFloor in *.
  unfold RLE_HEADER_SIZE, COUNT_SIZE in *. set (e := (GetBlockSize - 8) / (type_size + 2)) in *.
  assert (e * (type_size + 2) <= GetBlockSize - 8) by (unfold e; rewrite Nat.mul_comm; apply Nat.Div0.mul_div_le).
  assert (e / 8 * 8 <= e) by div_lia. split; [|exists (1 + e / 8 * type_size); lia].
  assert (e / 8 * 8 * (type_size + 2) <= e * (type_size + 2)) by (by apply Nat.mul_le_mono_r).
  lia.
Qed.

Lemma aligned_le k : k <= MAX -> AlignValue (RLE_HEADER_SIZE + type_size * k) <= index_pointer.
Proof.
  intros Hk. destruct block_room as [_ (m & Hm)]. rewrite Hm. apply align_value_below. rewrite <- Hm. unfold index_pointer.
  rewrite Nat.mul_comm. apply Nat.add_le_mono_l, Nat.mul_le_mono_r. done.
Qed.

(** ** Flushing *)

Lemma merge_stats_cover rs s : stats_cover rs s -> stats_cover rs (MergeStats s empty_stats).
Proof.
  intros Hs Hw v n Hv. destruct (Hs Hw v n Hv) as (Hn & Hmin & Hmax'). unfold MergeStats. rewrite Hn.
  set (t := SetHasNoNullFast _). set (t1 := UpdateNumericStats (stat_min s) t).
  assert (numeric_covers t1 (stat_min s)) as Hcov by by apply update_numeric_new.
  apply (update_numeric_covers _ _ (stat_max s)) in Hcov as (? & Hlow & _).
  destruct (update_numeric_new t1 (stat_max s)) as (_ & _ & Hhigh); [done|].
  split_and!; [done|by eapply type_less_trans..].
Qed.

(** The bytes after the padding is cleared, the counts are moved next to the values, and the offset is stored. *)
Lemma compacted rs (data : list Z) : length data = GetBlockSize -> length rs <= MAX -> holds_runs RLE_HEADER_SIZE index_pointer rs data ->
  let minimal := RLE_HEADER_SIZE + type_size * length rs in
  let aligned := AlignValue minimal in
  let data1 := if minimal <? aligned then store_bytes minimal (replicate (aligned - minimal) 0%Z) data else data in
  let data2 := store_bytes aligned (take (COUNT_SIZE * length rs) (drop index_pointer data1)) data1 in
  let data3 := store_bytes 0 (Stream.le_bytes 8 (Z.of_nat aligned)) data2 in
  length data3 = GetBlockSize /\ slice 0 8 data3 = Stream.le_bytes 8 (Z.of_nat aligned) /\
  holds_runs RLE_HEADER_SIZE aligned rs data3.
Proof.
  intros Hlen Hk Hruns minimal aligned data1 data2 data3.
  pose proof (align_value_bounds minimal) as Hal. fold aligned in Hal.
  pose proof (aligned_le _ Hk) as Hle. fold minimal aligned in Hle. destruct block_room as [Hroom _].
  assert (Hh : RLE_HEADER_SIZE = 8) by done. assert (Hc2 : COUNT_SIZE = 2) by done.
  assert (Hfit : COUNT_SIZE * length rs <= MAX * COUNT_SIZE) by lia.
  assert (Hz : length (replicate (aligned - minimal) 0%Z) = aligned - minimal) by apply length_replicate.
  assert (Hl1 : length data1 = GetBlockSize).
  { unfold data1. destruct (minimal <? aligned); [|done]. rewrite length_store_bytes; lia. }
  assert (H1 : forall a n, a + n <= minimal \/ aligned <= a -> slice a n data1 = slice a n data).
  { intros a n Ha. unfold data1. destruct (minimal <? aligned); [|done]. apply slice_store_other; lia. }
  set (counts := take (COUNT_SIZE * length rs) (drop index_pointer data1)) in *.
  assert (Hcl : length counts = COUNT_SIZE * length rs) by (apply (length_slice index_pointer); lia).
  assert (Hl2 : length data2 = GetBlockSize) by (unfold data2; rewrite length_store_bytes; lia).
  assert (Ho8 : length (Stream.le_bytes 8 (Z.of_nat aligned)) = 8) by apply Stream.length_le_bytes.
  assert (H3 : forall a n, 8 <= a -> slice a n data3 = slice a n data2) by (intros a n Ha; apply slice_store_other; lia).
  split_and!.
  - unfold data3. rewrite length_store_bytes; lia.
  - rewrite <- Ho8 at 1. apply slice_store_same. lia.
  - revert Hruns. apply holds_runs_same.
    + intros i Hi. assert (i * type_size + type_size <= type_size * length rs) by nia.
      rewrite H3 by lia. unfold data2. rewrite slice_store_other by lia. apply H1. lia.
    + intros i Hi. rewrite H3 by lia. rewrite <- (slice_slice (i * COUNT_SIZE) COUNT_SIZE aligned (length counts)) by lia.
      unfold data2. rewrite slice_store_same by lia. unfold counts. fold (slice index_pointer (COUNT_SIZE * length rs) data1).
      rewrite slice_slice by lia. apply H1. lia.
Qed.

Definition nonempty (groups : list (list run)) : list (list run) := List.filter (fun g => 0 <? rows_in (run_of <$> g)) groups.

Lemma nonempty_app g1 g2 : nonempty (g1 ++ g2) = nonempty g1 ++ nonempty g2.
Proof. apply List.filter_app. Qed.

Lemma flush_spec rs st : written rs st -> exists st' l, FlushSegment st = Ok st' /\ flushed st' = flushed st ++ l /\
  length (handle st') = GetBlockSize /\ stats_writer st' = ClearStats /\
  Forall2 stored (nonempty [rs]) l.
Proof.
  intros [Hb He Hfit Hrows Hruns Hst]. pose proof (compacted rs (handle st) Hb Hfit Hruns) as Hc.
  unfold FlushSegment. rewrite He. fold index_pointer. cbv zeta in *.
  set (aligned := AlignValue (RLE_HEADER_SIZE + type_size * length rs)) in *.
  set (data := store_bytes 0 _ _) in *. destruct Hc as (Hlen & Hoff & Hr).
  pose proof (aligned_le _ Hfit) as Hle. fold aligned in Hle. destruct block_room as [Hroom _].
  assert (aligned + COUNT_SIZE * length rs <= GetBlockSize) as Hsize by nia.
  unfold FlushSegmentInternal. cbn [segment_size segment_count].
  destruct (Nat.ltb_spec GetBlockSize (aligned + COUNT_SIZE * length rs)); [lia|]. rewrite Hrows.
  unfold nonempty. cbn [List.filter].
  destruct (Nat.eqb_spec (rows_in (run_of <$> rs)) 0) as [->|Hnz]; cbn [mbind result_bind].
  - eexists _, []. cbn. rewrite app_nil_r. by split_and!.
  - eexists _, [_]. split_and!; try done. destruct (Nat.ltb_spec 0 (rows_in (run_of <$> rs))); [|lia].
    constructor; [|done]. split; try done. by apply merge_stats_cover.
Qed.

(** ** Writing *)

(** The runs handed to the writer so far: those of the flushed segments, and those of the current one. *)
Definition records (log : list run) st : Prop := exists groups current, log = concat groups ++ current /\
  Forall2 stored (nonempty groups) (flushed st) /\ written current st /\ length current < MAX.

Lemma written_nil (data : list Z) (l : list (ColumnSegment (T := T))) : length data = GetBlockSize ->
  written [] (mkCompress data 0 ClearStats 0 l).
Proof. intros. split; try done; [cbn; lia|]. by intros _ v n ?%elem_of_nil. Qed.

Lemma stats_cover_snoc rs s v n (b : bool) : stats_cover rs s ->
  stats_cover (rs ++ [(v, n, b)]) (if WRITE_STATISTICS then if negb b then UpdateStats v s else SetHasNull s else s).
Proof.
  intros Hs Hw w m Hin. specialize (Hs Hw). rewrite Hw. apply elem_of_app in Hin as [Hin|[= -> -> <-]%list_elem_of_singleton].
  - specialize (Hs w m Hin). destruct b; cbn [negb]; [by destruct Hs as (? & ? & ?)|].
    by apply update_numeric_covers, set_no_null_covers.
  - by apply update_numeric_new.
Qed.

Lemma write_spec log v n b st : records log st -> n <= COUNT_MAXIMUM ->
  exists st', WriteValue WRITE_STATISTICS v n b st = Ok st' /\ records (log ++ [(v, n, b)]) st'.
Proof.
  intros (groups & rs & -> & Hg & [Hb He Hfit Hrows Hruns Hst] & Hlt) Hn.
  destruct block_room as [Hroom _]. assert (Hc2 : COUNT_SIZE = 2) by done. assert (Hh : RLE_HEADER_SIZE = 8) by done.
  unfold WriteValue. cbv zeta. fold index_pointer. rewrite He.
  set (data1 := store_bytes (RLE_HEADER_SIZE + length rs * type_size) (type_bytes v) (handle st)).
  set (data2 := store_bytes _ _ data1). set (s := if WRITE_STATISTICS then _ else _).
  assert (Hvl : length (type_bytes v) = type_size) by apply law_size.
  assert (Hnl : length (Stream.le_bytes COUNT_SIZE (Z.of_nat n)) = 2) by apply Stream.length_le_bytes.
  assert (Hvfit : RLE_HEADER_SIZE + length rs * type_size + type_size <= index_pointer) by (unfold index_pointer; nia).
  assert (Hl1 : length data1 = GetBlockSize) by (unfold data1; rewrite length_store_bytes; lia).
  assert (Hl2 : length data2 = GetBlockSize) by (unfold data2; rewrite length_store_bytes; lia).
  assert (Hw : written (rs ++ [(v, n, b)]) (mkCompress data2 (current_count st + n) s (S (length rs)) (flushed st))).
  { split; cbn [handle entry_count current_count stats_writer].
    - done.
    - rewrite length_app. cbn. lia.
    - rewrite length_app. cbn. lia.
    - rewrite fmap_app, rows_in_app, Hrows. cbn. lia.
    - intros i w m c Hi. destruct (Nat.lt_ge_cases i (length rs)) as [Hi'|Hi'].
      + rewrite lookup_app_l in Hi by done. destruct (Hruns i w m c Hi) as [Hv Hc].
        assert (i * type_size + type_size <= length rs * type_size) by nia.
        split; unfold data2; rewrite slice_store_other by lia; unfold data1; rewrite slice_store_other by lia; done.
      + rewrite lookup_app_r in Hi by done. apply list_lookup_singleton_Some in Hi as [Hi [= <- <- <-]].
        replace i with (length rs) by lia. split.
        * unfold data2. rewrite slice_store_other by lia. unfold data1.
          pose proof (slice_store_same (RLE_HEADER_SIZE + length rs * type_size) (type_bytes v) (handle st)) as Hs. rewrite Hvl in Hs. apply Hs. lia.
        * pose proof (slice_store_same (index_pointer + length rs * COUNT_SIZE) (Stream.le_bytes COUNT_SIZE (Z.of_nat n)) data1) as Hs.
          rewrite Hnl in Hs. apply Hs. lia.
    - by apply stats_cover_snoc. }
  cbn [entry_count]. destruct (Nat.eqb_spec (S (length rs)) MAX) as [Hfull|Hnot].
  - destruct (flush_spec _ _ Hw) as (st' & l & -> & Hl & Hb' & Hs' & Hseg). cbn [mbind result_bind].
    eexists. split; [done|]. exists (groups ++ [rs ++ [(v, n, b)]]), []. split_and!.
    + rewrite concat_app. cbn. by rewrite !app_nil_r, app_assoc.
    + rewrite nonempty_app. cbn. rewrite Hl. by apply Forall2_app.
    + cbn. rewrite Hs'. apply written_nil, fresh_length.
    + cbn. lia.
  - eexists. split; [done|]. exists groups, (rs ++ [(v, n, b)]). split_and!; [by rewrite app_assoc|done|done|].
    rewrite length_app. cbn. lia.
Qed.

Lemma records_initial : records [] new_compress_state.
Proof.
  exists [], []. split_and!; [done|constructor|apply written_nil, fresh_length|cbn; lia].
Qed.

Lemma records_null log st : records log st ->
  records log (mkCompress (handle st) (current_count st) (SetHasNull (stats_writer st)) (entry_count st) (flushed st)).
Proof.
  intros (groups & rs & -> & Hg & [Hb He Hfit Hrows Hruns Hst] & Hlt). exists groups, rs. by split_and!.
Qed.

(** ** Compressing vectors *)

Definition vector_rows (vdata : UnifiedVectorFormat T) (count : nat) : list (option T) :=
  (fun i => row_of (format_data vdata) (format_validity vdata) (get_index (format_sel vdata) i)) <$> seq 0 count.

Lemma append_spec vdata count s st log rows : rle_inv s log rows -> records log st ->
  exists s' st' log', Append WRITE_STATISTICS vdata count s st = Ok (s', st') /\ records log' st' /\
    rle_inv s' log' (rows ++ vector_rows vdata count).
Proof.
  intros Hs Hr. unfold Append, vector_rows. induction count as [|n IH].
  { exists s, st, log. cbn. rewrite app_nil_r. by split_and!. }
  destruct IH as (s1 & st1 & log1 & Heq & Hr1 & Hs1). rewrite for_range_S_r, Heq by lia. cbn [mbind result_bind].
  rewrite seq_S, fmap_app, app_assoc. cbn. unfold append_row. cbv zeta. set (idx := get_index _ n).
  refine (row_update_spec (WriteValue WRITE_STATISTICS) records _ s1 log1 _ _ _ _ _ Hs1 _).
  - intros log2 v c b w. apply write_spec.
  - destruct (_ && _); [by apply records_null|done].
Qed.

Lemma compress_vectors_spec vectors s st log rows : rle_inv s log rows -> records log st ->
  exists s' st' log', compress_vectors WRITE_STATISTICS vectors s st = Ok (s', st') /\ records log' st' /\
    rle_inv s' log' (rows ++ concat ((fun v => vector_rows v.1 v.2) <$> vectors)).
Proof.
  revert s st log rows. induction vectors as [|[vdata count] vectors IH]; intros s st log rows Hs Hr; cbn.
  { exists s, st, log. rewrite app_nil_r. by split_and!. }
  destruct (append_spec vdata count s st log rows Hs Hr) as (s1 & st1 & log1 & Heq & Hr1 & Hs1).
  rewrite Heq. cbn [mbind result_bind]. rewrite app_assoc. by apply (IH s1 st1 log1).
Qed.

(** A segment holds the rows [part] of the column. *)
Definition segment_encodes seg (part : list (option T)) : Prop := exists rs, stored rs seg /\ encodes rs part /\
  Forall (fun r : run => r.1.2 <= COUNT_MAXIMUM) rs.

Lemma encodes_app_inv (log1 log2 : list run) rows : encodes (log1 ++ log2) rows ->
  exists rows1 rows2, rows = rows1 ++ rows2 /\ encodes log1 rows1 /\ encodes log2 rows2.
Proof.
  intros (chunks & -> & (c1 & c2 & Hc1 & Hc2 & ->)%Forall2_app_inv_l). exists (concat c1), (concat c2).
  rewrite concat_app. split_and!; [done|by exists c1|by exists c2].
Qed.

Lemma groups_encode groups segs rows : Forall2 stored (nonempty groups) segs -> encodes (concat groups) rows ->
  Forall (fun r : run => r.1.2 <= COUNT_MAXIMUM) (concat groups) ->
  exists parts, rows = concat parts /\ Forall2 segment_encodes segs parts.
Proof.
  revert segs rows. induction groups as [|g groups IH]; intros segs rows Hf Henc Hc; unfold nonempty in Hf; cbn [List.filter concat] in *.
  - apply Forall2_nil_inv_l in Hf as ->. destruct Henc as (chunks & -> & ->%Forall2_nil_inv_l). by exists [].
  - apply Forall_app in Hc as [Hc1 Hc2]. apply encodes_app_inv in Henc as (rows1 & rows2 & -> & Henc1 & Henc2).
    destruct (Nat.ltb_spec 0 (rows_in (run_of <$> g))) as [Hpos|Hz].
    + apply Forall2_cons_inv_l in Hf as (seg & segs' & Hseg & Hf & ->). destruct (IH segs' rows2 Hf Henc2 Hc2) as (parts & -> & Hp).
      exists (rows1 :: parts). split; [done|]. constructor; [|done]. by exists g.
    + destruct (encodes_decode _ _ Henc1) as [Hlen _]. assert (rows1 = []) as -> by (apply nil_length_inv; lia). by apply IH.
Qed.

(** Compressing never fails; the segments hold the runs of the state machine, the last one being the
    run that was pending. *)
Lemma compress_groups vectors : exists segs groups s st log, RLECompress WRITE_STATISTICS vectors = Ok segs /\
  compress_vectors WRITE_STATISTICS vectors new_rle_state new_compress_state = Ok (s, st) /\
  Forall2 stored (nonempty groups) segs /\ concat groups = log ++ [pending s] /\
  rle_inv s log (concat ((fun v => vector_rows v.1 v.2) <$> vectors)).
Proof.
  destruct (compress_vectors_spec vectors new_rle_state new_compress_state [] [] rle_inv_initial records_initial)
    as (s & st & log & Heq & Hr & Hinv). cbn [app] in Hinv. pose proof (inv_pending _ _ _ Hinv) as Hp.
  unfold RLECompress. rewrite Heq. cbn [mbind result_bind]. unfold Finalize, Flush.
  destruct (write_spec log (last_value s) (last_seen_count s) (all_null s) st Hr) as (st1 & -> & Hr1); [lia|]. cbn [mbind result_bind].
  destruct Hr1 as (groups & rs & Hlog & Hg & Hw & _).
  destruct (flush_spec rs st1 Hw) as (st2 & l & -> & Hl & _ & _ & Hseg). cbn [mbind result_bind].
  exists (flushed st2), (groups ++ [rs]), s, st, log. split_and!; try done.
  - rewrite nonempty_app, Hl. by apply Forall2_app.
  - rewrite concat_app. cbn. rewrite app_nil_r, <- Hlog. done.
Qed.

(** The segments hold the rows of the vectors, in order. *)
Lemma compress_spec vectors : exists segs parts, RLECompress WRITE_STATISTICS vectors = Ok segs /\
  concat ((fun v => vector_rows v.1 v.2) <$> vectors) = concat parts /\ Forall2 segment_encodes segs parts /\
  Forall (fun seg => 0 < segment_count seg) segs.
Proof.
  destruct (compress_groups vectors) as (segs & groups & s & st & log & Heq & _ & Hall & Hlog & [Henc Hp Hc _]).
  destruct (groups_encode groups segs (concat ((fun v => vector_rows v.1 v.2) <$> vectors)) Hall) as (parts & Hrows & Hparts).
  - by rewrite Hlog.
  - rewrite Hlog. apply Forall_app. split; [done|]. constructor; [cbn; lia|done].
  - exists segs, parts. split_and!; [done..|]. clear -Hall. apply Forall_forall. intros seg Hin.
    apply list_elem_of_lookup in Hin as [i Hi]. destruct (Forall2_lookup_r _ _ _ _ _ Hall Hi) as (g & Hgi & Hst).
    rewrite (stored_rows _ _ Hst). apply list_elem_of_lookup_2, list_elem_of_In, List.filter_In in Hgi as [_ Hgi].
    by apply Nat.ltb_lt in Hgi.
Qed.
End Segments.

(** ** Reading a segment *)

Section Layout.
Context {T : Type} `{HC : ColumnType T} `{HL : RleTypeLaws T}.
Implicit Types (b : SegmentBlock) (r : CompressionSegmentReader).

Lemma load_bytes_slice data offset n : offset + n <= length data -> load_bytes data offset n = Some (Ok (slice offset n data)).
Proof. intros Hle. unfold load_bytes. by destruct (Nat.leb_spec (offset + n) (length data)); [|lia]. Qed.

Lemma load_array_spec {A} size (load : list Z -> A) data offset count : offset + count * size <= length data ->
  load_array size load data offset count = Some (Ok ((fun i => load (slice (offset + i * size) size data)) <$> seq 0 count)).
Proof.
  revert offset. induction count as [|count IH]; intros offset Hle; [done|]. cbn [load_array].
  rewrite load_bytes_slice by nia. cbn [mbind checked_bind]. rewrite IH by nia. cbn [mbind checked_bind mret checked_ret seq fmap list_fmap].
  rewrite <- fmap_S_seq, <- list_fmap_compose. unfold mret, checked_ret. rewrite Nat.mul_0_l, Nat.add_0_r.
  do 3 f_equal. apply list_fmap_ext. intros _ i _. cbn. do 2 f_equal. lia.
Qed.

(** An array that lies in the reader is loaded, unless it is misaligned. *)
Lemma get_array_spec {A} size align (load : list Z -> A) offset count r : reader_size r <= length (reader_data r) ->
  offset <= reader_size r -> count <= (reader_size r - offset) / size ->
  GetArray size align load offset count r =
  if (reader_address r + offset) mod align =? 0
  then Some (Ok ((fun i => load (slice (offset + i * size) size (reader_data r))) <$> seq 0 count))
  else throw (corrupted "array offset is misaligned").
Proof.
  intros Hr Ho Hc. unfold GetArray, CheckArray. destruct (Nat.ltb_spec (reader_size r) offset); [lia|].
  destruct ((reader_address r + offset) mod align =? 0); cbn [negb mbind checked_bind]; [|done].
  destruct (Nat.ltb_spec ((reader_size r - offset) / size) 0); [lia|]. cbn [mbind checked_bind mret checked_ret].
  destruct (Nat.ltb_spec ((reader_size r - offset) / size - 0) count); [lia|]. apply load_array_spec.
  assert ((reader_size r - offset) / size * size <= reader_size r - offset) by (rewrite Nat.mul_comm; apply Nat.Div0.mul_div_le). nia.
Qed.

Lemma from_segment_spec b : sound False (Some (FromSegment b)) (fun r => reader_data r = drop (block_offset b) (block_memory b) /\
  reader_address r = block_address b + block_offset b /\ reader_size r <= length (reader_data r) /\
  forall n, data_size b = Some n -> reader_size r = n).
Proof.
  unfold FromSegment. destruct (Nat.ltb_spec (length (block_memory b)) (block_offset b)); [split; [done|by intros []]|].
  destruct (data_size b) as [n|] eqn:Hd.
  - destruct (Nat.ltb_spec (length (block_memory b) - block_offset b) n); [split; [done|by intros []]|].
    split_and!; cbn; [done|done|rewrite length_drop; lia|]. by intros m [= <-].
  - split_and!; cbn; [done|done|rewrite length_drop; lia|done].
Qed.

Lemma fmap_seq_lookup {A} (f : nat -> A) n i : i < n -> (f <$> seq 0 n) !! i = Some (f i).
Proof. intros Hi. by rewrite list_lookup_fmap, lookup_seq_lt. Qed.

Lemma zip_layout (vs : list T) (cs : list nat) cap count : cap <= length vs -> cap <= length cs ->
  layout_ok (take cap (zip vs cs)) count (mkLayout vs cs cap 0 count).
Proof.
  intros Hv Hc. assert (length (take cap (zip vs cs)) = cap) as Hlen.
  { rewrite length_take, length_zip_with. lia. }
  split; cbn [values run_counts entry_capacity validated_entry_count unvalidated_row_count]; rewrite ?Hlen; try (done || lia).
  intros i v n Hi. pose proof (lookup_lt_Some _ _ _ Hi) as Hlt. rewrite Hlen in Hlt. rewrite lookup_take_lt in Hi by done.
  apply lookup_zip_with_Some in Hi as (v' & n' & [= <- <-] & ? & ?). done.
Qed.

(** Whatever bytes a segment has: reading its layout stays inside of it, and the only failure is that
    the data is corrupt. *)
Lemma read_layout_any b count : sound False (ReadSegmentLayout b count) (fun l => exists runs, layout_ok runs count l).
Proof.
  unfold ReadSegmentLayout. eapply sound_bind; [apply from_segment_spec|]. intros r (_ & _ & Hr & _).
  eapply (sound_bind _ _ _ (fun _ => True)).
  { unfold ReadOffset. destruct (Nat.ltb_spec (reader_size r) 8); [apply sound_throw; [done|by intros []]|].
    by rewrite load_bytes_slice by lia. }
  intros off _. destruct (_ || _) eqn:E; [apply sound_throw; [by eexists|by intros []]|].
  apply orb_false_iff in E as [E1%Nat.ltb_ge E2%Nat.ltb_ge]. cbv zeta.
  assert (Hdiv : (off - RLE_HEADER_SIZE) / type_size <= (reader_size r - RLE_HEADER_SIZE) / type_size).
  { pose proof law_positive. apply Nat.Div0.div_le_mono. lia. }
  rewrite (get_array_spec type_size) by (done || lia). destruct (_ =? 0); [|apply sound_throw; [done|by intros []]]. cbn [mbind checked_bind].
  rewrite (get_array_spec COUNT_SIZE) by (done || lia). destruct (_ =? 0); [|apply sound_throw; [done|by intros []]]. cbn [mbind checked_bind].
  apply sound_ret. eexists. apply zip_layout; rewrite length_fmap, length_seq; lia.
Qed.
End Layout.

Section Stored.
Context {T : Type} `{HT : ColumnTypeLaws T} {Ho : ColumnOrder T} `{HL : RleTypeLaws T} `{HB : BufferManager} (WRITE_STATISTICS : bool).
Context {VS : VectorSize} (Hsize : (Z.of_nat GetBlockSize < 2 ^ 64)%Z).
Abbreviation run := (T * nat * bool)%type.
Implicit Types (b : SegmentBlock) (seg : ColumnSegment (T := T)) (rs : list run).

(** The block in which a segment is found again: its bytes are somewhere in it, aligned to eight. *)
Record placed seg b : Prop := {
  placed_size : data_size b = Some (segment_size seg);
  placed_fits : block_offset b + segment_size seg <= length (block_memory b);
  placed_bytes : slice (block_offset b) (segment_size seg) (block_memory b) = slice 0 (segment_size seg) (segment_data seg);
  placed_aligned : exists k, block_address b + block_offset b = k * 8
}.

Lemma placed_slice seg b a n : placed seg b -> a + n <= segment_size seg ->
  slice a n (drop (block_offset b) (block_memory b)) = slice a n (segment_data seg).
Proof.
  intros [_ _ Hb _] Hle. unfold slice at 1. rewrite drop_drop. fold (slice (block_offset b + a) n (block_memory b)).
  rewrite <- (slice_slice a n (block_offset b) (segment_size seg)) by done. rewrite Hb, slice_slice by done. done.
Qed.

Lemma stored_layout rs seg b : stored WRITE_STATISTICS rs seg -> Forall (fun r : run => r.1.2 <= COUNT_MAXIMUM) rs -> placed seg b ->
  exists l, ReadSegmentLayout b (segment_count seg) = Some (Ok l) /\ layout_ok (run_of <$> rs) (segment_count seg) l.
Proof.
  intros [Hblen Hssize Hfits Hoff Hruns Hrows _] Hcounts Hpl. pose proof Hpl as [Hds Hfit _ (ad & Haddr)].
  set (minimal := RLE_HEADER_SIZE + type_size * length rs) in *. set (aligned := AlignValue minimal) in *.
  pose proof (align_value_bounds minimal) as Hal. fold aligned in Hal.
  assert (RLE_HEADER_SIZE = 8 /\ COUNT_SIZE = 2) as [Hh Hc2] by done. pose proof law_positive as Hpos.
  unfold ReadSegmentLayout, FromSegment. rewrite Hds.
  destruct (Nat.ltb_spec (length (block_memory b)) (block_offset b)); [lia|].
  destruct (Nat.ltb_spec (length (block_memory b) - block_offset b) (segment_size seg)); [lia|]. cbn [mbind checked_bind].
  set (r := mkReader _ _ _). assert (Hrl : reader_size r <= length (reader_data r)) by (cbn; rewrite length_drop; lia).
  unfold ReadOffset. destruct (Nat.ltb_spec (reader_size r) 8) as [Hlt|_]; [cbn [reader_size r] in Hlt; lia|].
  rewrite load_bytes_slice by (cbn [reader_data reader_size r] in *; lia). cbn [mbind checked_bind mret checked_ret].
  assert (Z.to_nat (Stream.le_value (slice 0 8 (reader_data r))) = aligned) as ->.
  { cbn [reader_data r]. rewrite (placed_slice seg) by (done || lia). rewrite Hoff, Stream.le_value_bytes; lia. }
  destruct (_ || _) eqn:E.
  { exfalso. apply orb_true_iff in E as [E%Nat.ltb_lt|E%Nat.ltb_lt]; cbn [reader_size r] in E; lia. }
  assert (Hvc : length rs <= (aligned - RLE_HEADER_SIZE) / type_size).
  { apply Nat.div_le_lower_bound; lia. }
  assert (Hcc : (reader_size r - aligned) / COUNT_SIZE = length rs).
  { cbn [reader_size r]. rewrite Hssize. replace (aligned + COUNT_SIZE * length rs - aligned) with (length rs * COUNT_SIZE) by lia.
    by apply Nat.div_mul. }
  cbv zeta. rewrite Hcc.
  assert (Hdiv : (aligned - RLE_HEADER_SIZE) / type_size <= (reader_size r - RLE_HEADER_SIZE) / type_size).
  { apply Nat.Div0.div_le_mono. cbn [reader_size r]. lia. }
  destruct law_align as [Hapos (ka & Hka)].
  rewrite (get_array_spec type_size) by (cbn [reader_size r] in *; done || lia).
  assert ((reader_address r + RLE_HEADER_SIZE) mod type_align = 0) as ->.
  { cbn [reader_address r]. rewrite Haddr, Hh. replace (ad * 8 + 8) with ((ad * ka + ka) * type_align) by nia. by apply Nat.Div0.mod_mul. }
  cbn [Nat.eqb mbind checked_bind]. rewrite (get_array_spec COUNT_SIZE); [|done|cbn [reader_size r]; lia|by rewrite Hcc].
  assert ((reader_address r + aligned) mod COUNT_SIZE = 0) as ->.
  { cbn [reader_address r]. rewrite Haddr. destruct (align_value_multiple minimal) as [m Hm]. fold aligned in Hm. rewrite Hm.
    replace (ad * 8 + m * 8) with ((ad * 4 + m * 4) * COUNT_SIZE) by lia. by apply Nat.Div0.mod_mul. }
  cbn [Nat.eqb mbind checked_bind mret checked_ret]. eexists. split; [done|].
  split; cbn [values run_counts entry_capacity validated_entry_count unvalidated_row_count]; rewrite ?length_fmap, ?length_seq; try lia.
  - intros i v n Hi. rewrite list_lookup_fmap in Hi. destruct (rs !! i) as [[[w m] c]|] eqn:Hrs; [|done]. injection Hi as -> ->.
    pose proof (lookup_lt_Some _ _ _ Hrs) as Hlt. destruct (Hruns i v n c Hrs) as [Hv Hn].
    assert (i * type_size + type_size <= type_size * length rs) by nia.
    rewrite !fmap_seq_lookup by lia. cbn [reader_data r]. rewrite !(placed_slice seg) by (done || lia). rewrite Hv, law_load, Hn.
    split; [done|]. f_equal. rewrite Stream.le_value_bytes; [lia|].
    rewrite Forall_lookup in Hcounts. specialize (Hcounts i _ Hrs). cbn in Hcounts. unfold COUNT_MAXIMUM in Hcounts.
    change (256 ^ Z.of_nat COUNT_SIZE)%Z with 65536%Z. lia.
  - rewrite take_0. apply Nat.add_0_r.
Qed.

Lemma stored_covered rs seg : stored WRITE_STATISTICS rs seg -> covered (run_of <$> rs) (segment_count seg).
Proof.
  intros Hs. exists (length rs). rewrite length_fmap. split; [done|]. rewrite (stored_rows _ _ _ Hs). f_equal.
  apply take_ge. by rewrite length_fmap.
Qed.
End Stored.
