(* ===== verification/RleTheorems.v ===== *)
(** * Run-length compression: the theorems

    Compressing a column and reading it back, whole or in parts; what the statistics of the segments
    and the analysis promise; and that reading is safe for segments with arbitrary bytes. *)

From Stdlib Require Import Ascii.
From S2P Require Import Prelude ValidityMask UpdateInfo UpdateSegment UpdateLaws UpdateStatistics UndoBuffer UndoBufferFacts.
From S2P Require Import RleCompression RleScanFacts RleReadFacts RleWriteFacts RleSegmentFacts.

Local Open Scope nat_scope.

Section Theorems.
Context {T : Type} `{HT : ColumnTypeLaws T} {Ho : ColumnOrder T} `{HL : RleTypeLaws T} `{HB : BufferManager} {VS : VectorSize}.
Context (WRITE_STATISTICS : bool).
Implicit Types (s : RLEScanState (T := T)) (seg : ColumnSegment (T := T)) (b : SegmentBlock) (part : list (option T)).

Abbreviation column_rows vectors := (concat ((fun v => vector_rows v.1 v.2) <$> vectors)).
Abbreviation compressed seg part := (segment_encodes WRITE_STATISTICS seg part).

(** A scan of the segment stands before the row [n] of its part of the column. *)
Definition scanning seg part (n : nat) s : Prop := exists rs, stored WRITE_STATISTICS rs seg /\ encodes rs part /\
  scan_at (run_of <$> rs) (segment_count seg) n s.

(** [x] is right for the row [r]: the value of the row, unless that is NULL. *)
Definition right_for part (r : nat) (x : option T) : Prop := forall v, part !! r = Some (Some v) -> x = Some v.

Lemma decode_right rs part r x : encodes rs part -> decode (run_of <$> rs) !! r = x -> right_for part r x.
Proof. intros Henc <- v Hv. by apply (proj2 (encodes_decode _ _ Henc)). Qed.

Lemma scanning_count seg part n s : scanning seg part n s -> segment_count seg = length part.
Proof.
  intros (rs & Hst & Henc & _). rewrite (stored_rows _ _ _ Hst). by destruct (encodes_decode _ _ Henc).
Qed.

(** A computation that is sound for the runs of the segment returns. *)
Lemma scanning_runs {A} seg part n s rs (fine : Prop) (m : checked A) Q : scanning seg part n s ->
  stored WRITE_STATISTICS rs seg -> (covered (run_of <$> rs) (segment_count seg) -> fine) -> sound fine m Q ->
  exists a, m = Some (Ok a) /\ Q a.
Proof. intros _ Hst Hfine Hs. eapply sound_ok; [exact Hs|]. by apply Hfine, (stored_covered WRITE_STATISTICS). Qed.

Section Compressed.
Context (Hmax : 0 < MaxRLECount (T := T)) (Hsize : (Z.of_nat GetBlockSize < 2 ^ 64)%Z).

Lemma init_scanning seg part b : compressed seg part -> placed seg b ->
  exists s, RLEInitScan b (segment_count seg) = Some (Ok s) /\ scanning seg part 0 s /\ matching_runs s = None.
Proof.
  intros (rs & Hst & Henc & Hc) Hp. destruct (stored_layout WRITE_STATISTICS Hsize rs seg b Hst Hc Hp) as (l & Hl & Hok).
  unfold RLEInitScan. rewrite Hl. cbn [mbind checked_bind]. eexists. split; [done|]. split; [|done]. exists rs. split_and!; [done..|].
  split; cbn; [done|lia|done|by left].
Qed.

(** C12. Compression loses nothing. Compressing any vectors of a column succeeds; its rows are distributed over
    the segments in order, no segment is empty, and from any block a segment is found in again, a scan of
    it can start and fetching a row that is not NULL gives its value. *)
Theorem rle_round_trip vectors : exists segs parts,
  RLECompress WRITE_STATISTICS vectors = Ok segs /\ column_rows vectors = concat parts /\
  Forall2 (fun seg part => segment_count seg = length part /\ 0 < length part /\ forall b, placed seg b ->
    (exists s, RLEInitScan b (segment_count seg) = Some (Ok s) /\ scanning seg part 0 s) /\
    forall row v result idx, part !! row = Some (Some v) -> idx < length result ->
      RLEFetchRow b (segment_count seg) row result idx = Some (Ok (<[idx := v]> result))) segs parts.
Proof.
  destruct (compress_spec WRITE_STATISTICS Hmax vectors) as (segs & parts & Heq & Hrows & Hseg & Hpos).
  exists segs, parts. split_and!; [done..|]. clear Heq Hrows. induction Hseg as [|seg part segs parts Hs _ IH]; [done|].
  apply Forall_cons in Hpos as [Hpos Hrest]. constructor; [|by apply IH].
  assert (segment_count seg = length part) as Hcount.
  { destruct Hs as (rs & Hst & Henc & _). rewrite (stored_rows _ _ _ Hst). by destruct (encodes_decode _ _ Henc). }
  split_and!; [done|lia|]. intros b Hp. destruct (init_scanning seg part b Hs Hp) as (s & Hinit & Hsc & _).
  split; [by exists s|]. intros row v result idx Hrow Hidx. destruct Hsc as (rs & Hst & Henc & Hat).
  pose proof (lookup_lt_Some _ _ _ Hrow) as Hlt.
  unfold RLEFetchRow. rewrite Hinit. cbn [mbind checked_bind]. unfold RLESkip.
  pose proof (stored_covered WRITE_STATISTICS rs seg Hst) as Hcov.
  destruct (sound_ok _ _ _ (skip_spec _ _ row 0 s Hat)) as (s1 & -> & Hs1 & _); [split; [done|lia]|]. cbn [mbind checked_bind].
  destruct (sound_ok _ _ _ (current_run_spec _ _ _ s1 Hs1)) as ([run s2] & -> & Hst2 & _); [split; [done|cbn; lia]|]. cbn [mbind checked_bind].
  pose proof Hst2 as (_ & _ & Hleft & _).
  pose proof (stands_row _ _ _ run s2 0 Hst2 ltac:(lia)) as Hval. rewrite Nat.add_0_r in Hval. cbn in Hval.
  unfold write_at. destruct (Nat.ltb_spec idx (length result)); [|lia].
  destruct (encodes_decode _ _ Henc) as [_ Hdec]. specialize (Hdec row v Hrow). rewrite Hval in Hdec. by injection Hdec as ->.
Qed.

(** The statistics of a segment cover every value in it, so that a filter may skip the segment by them. *)
Theorem rle_statistics_cover vectors : WRITE_STATISTICS = true -> exists segs parts,
  RLECompress WRITE_STATISTICS vectors = Ok segs /\ column_rows vectors = concat parts /\
  Forall2 (fun seg part => segment_count seg = length part /\
    forall v, Some v ∈ part -> numeric_covers (segment_stats seg) v) segs parts.
Proof.
  intros Hw. destruct (compress_spec WRITE_STATISTICS Hmax vectors) as (segs & parts & Heq & Hrows & Hseg & _).
  exists segs, parts. split_and!; [done..|]. eapply Forall2_impl; [exact Hseg|].
  intros seg part (rs & Hst & Henc & _). split.
  { rewrite (stored_rows _ _ _ Hst). by destruct (encodes_decode _ _ Henc). }
  intros v Hv. destruct Henc as (chunks & -> & Hf).
  apply list_elem_of_In, in_concat in Hv as (chunk & Hin%list_elem_of_In & Hv%list_elem_of_In).
  apply list_elem_of_lookup in Hin as [i Hi]. destruct (Forall2_lookup_r _ _ _ _ _ Hf Hi) as ([[w n] c] & Hr & _ & Hc).
  destruct (Hc _ Hv) as [?|[[= ->] Hcf]]; [done|]. cbn in Hcf. subst c. apply (stored_stats _ _ _ Hst Hw w n).
  by eapply list_elem_of_lookup_2.
Qed.

End Compressed.

(** The values a result vector shows from [offset] on. *)
Definition shows (v : ResultVector (T := T)) (j : nat) : option T :=
  match v with ConstantVector count x => if j <? count then Some x else None | FlatVector data => data !! j end.

(** C15. Scanning the next [k] rows of a segment gives each of them its value, leaves the rest of a flat vector
    alone, and moves the scan behind them; this holds for whole vectors, for which a constant vector may
    be returned, and for parts of one. *)
Theorem rle_scan_exact seg part n s entire k data offset : scanning seg part n s ->
  0 < k -> n + k <= length part -> offset + k <= length data -> (entire = true -> offset = 0) ->
  exists v s', RLEScanPartialInternal entire k data offset s = Some (Ok (v, s')) /\ scanning seg part (n + k) s' /\
    (forall j, j < k -> right_for part (n + j) (shows v (offset + j))) /\
    (forall data' j, v = FlatVector data' -> length data' = length data /\ (j < offset \/ offset + k <= j -> data' !! j = data !! j)).
Proof.
  intros Hsc Hk Hn Hlen Hoff. pose proof (scanning_count _ _ _ _ Hsc) as Hcount. pose proof Hsc as (rs & Hst & Henc & Hat).
  pose proof (stored_covered WRITE_STATISTICS rs seg Hst) as Hcov.
  destruct (sound_ok _ _ _ (scan_partial_spec _ _ entire k offset n data s Hat Hlen Hoff)) as ([v s'] & Heq & Hv & Hs' & _);
    [split_and!; [done|lia|lia]|].
  exists v, s'. split_and!; [done|by exists rs| |].
  - intros j Hj. apply (decode_right rs); [done|]. destruct v as [c x|data']; cbn [shows vector_holds] in *.
    + destruct Hv as (-> & -> & Hx). rewrite Nat.add_0_l. destruct (Nat.ltb_spec j k); [|lia]. by apply Hx.
    + destruct Hv as [_ Hd]. rewrite Hd. destruct (Nat.leb_spec offset (offset + j)), (Nat.ltb_spec (offset + j) (offset + k)); cbn; try lia.
      f_equal. lia.
  - intros data' j ->. destruct Hv as [Hl Hd]. split; [done|]. intros Hj. rewrite Hd.
    destruct (Nat.leb_spec offset j), (Nat.ltb_spec j (offset + k)); cbn; done || lia.
Qed.

(** Skipping moves the scan and nothing else. *)
Theorem rle_skip_exact seg part n s k : scanning seg part n s -> n + k <= length part ->
  exists s', RLESkip k s = Some (Ok s') /\ scanning seg part (n + k) s' /\ matching_runs s' = matching_runs s.
Proof.
  intros Hsc Hn. pose proof (scanning_count _ _ _ _ Hsc) as Hcount. pose proof Hsc as (rs & Hst & Henc & Hat).
  pose proof (stored_covered WRITE_STATISTICS rs seg Hst) as Hcov.
  destruct (sound_ok _ _ _ (skip_spec _ _ k n s Hat)) as (s' & Heq & Hs' & Hf & _); [split; [done|lia]|].
  exists s'. split_and!; [done|by exists rs|done].
Qed.

(** Selecting rows of the next vector: with an ordered selection, position [i] of the result gets the value of
    the [i]th selected row - or a constant vector that is right for every row - and the scan moves behind
    the vector. A selection that is out of order is refused, and nothing else goes wrong. *)
Theorem rle_select_exact seg part n s count data sel m offset entire : scanning seg part n s ->
  0 < count -> n + count <= length part -> offset + m <= length data -> ordered_selection sel m count ->
  exists v s', RLESelect count data sel m offset entire s = Some (Ok (v, s')) /\ scanning seg part (n + count) s' /\
  match v with
  | ConstantVector c x => c = count /\ forall j, j < count -> right_for part (n + j) (Some x)
  | FlatVector data' => length data' = length data /\ forall i, i < m -> right_for part (n + get_index sel i) (data' !! (offset + i))
  end.
Proof.
  intros Hsc Hk Hn Hlen Hsel. pose proof (scanning_count _ _ _ _ Hsc) as Hcount. pose proof Hsc as (rs & Hst & Henc & Hat).
  pose proof (stored_covered WRITE_STATISTICS rs seg Hst) as Hcov.
  destruct (sound_ok _ _ _ (select_spec _ _ count data sel m offset entire n s Hat Hsel Hlen)) as ([v s'] & Heq & Hv & Hs' & _);
    [split_and!; [done|lia|lia]|].
  exists v, s'. split_and!; [done|by exists rs|]. destruct v as [c x|data']; cbn in Hv.
  - destruct Hv as [-> Hx]. split; [done|]. intros j Hj. apply (decode_right rs); [done|]. by apply Hx.
  - destruct Hv as [Hl Hd]. split; [done|]. intros i Hi. apply (decode_right rs); [done|]. rewrite Hd, !Nat.add_0_r.
    destruct (Nat.leb_spec offset (offset + i)), (Nat.ltb_spec (offset + i) (offset + m)); cbn; try lia.
    by replace (offset + i - offset) with i by lia.
Qed.

(** C14. Filtering the next vector: the selection that comes back names, in order, exactly the rows of the given
    selection that the filter passes, and these rows are in the result; a later read goes on behind the
    vector unless no run of the segment passes, in which case no later filter can find a row either. *)
Theorem rle_filter_exact (FilterSelection : list T -> list nat) (passes : T -> bool) seg part n s count data sel m rs :
  (forall l, FilterSelection l = List.filter (fun i => from_option passes false (l !! i)) (seq 0 (length l))) ->
  stored WRITE_STATISTICS rs seg -> encodes rs part -> scan_at (run_of <$> rs) (segment_count seg) n s ->
  filter_ok (run_of <$> rs) (segment_count seg) passes s ->
  n + count <= length part -> count <= length data -> ordered_selection sel m count -> (sel = None -> m = count) ->
  exists data' sel' m' s', RLEFilter FilterSelection count data sel m s = Some (Ok (data', sel', m', s')) /\
    selected sel' 0 m' = passing (run_of <$> rs) passes n (selected sel 0 m) /\
    (forall j, j ∈ selected sel' 0 m' -> right_for part (n + j) (data' !! j)) /\
    filter_ok (run_of <$> rs) (segment_count seg) passes s' /\
    (scan_at (run_of <$> rs) (segment_count seg) (n + count) s' \/
     scan_at (run_of <$> rs) (segment_count seg) n s' /\ forall row, row < length part -> row_passes (run_of <$> rs) passes row = false).
Proof.
  intros Hfilter Hst Henc Hat Hok Hn Hlen Hsel Hnone.
  assert (segment_count seg = length part) as Hcount by (rewrite (stored_rows _ _ _ Hst); by destruct (encodes_decode _ _ Henc)).
  pose proof (stored_covered WRITE_STATISTICS rs seg Hst) as Hcov.
  destruct (sound_ok _ _ _ (filter_spec _ _ FilterSelection passes Hfilter count data sel m n s Hat Hok Hsel Hnone Hlen))
    as ([[[data' sel'] m'] s'] & Heq & Hsel' & Hl & Hd & Hready & Hor); [split; [done|lia]|].
  exists data', sel', m', s'. split_and!; [done|apply Hsel'; lia| |by right|].
  - intros j Hj. apply (decode_right rs); [done|]. by rewrite Hd.
  - destruct Hor as [?|[Hz ?]]; [by left|right]. split; [done|]. intros row Hrow.
    destruct Hready as (M & k & _ & _ & Hsum & _ & Hnever).
    destruct (decode_lookup_inv (run_of <$> rs) k row) as (e & v & c & He & Hrun & Hv); [lia|].
    unfold row_passes. rewrite Hv. by eapply Hnever.
Qed.

(** ** Arbitrary bytes *)

(** What a reader asks of a segment. *)
Inductive read_op :=
  | ReadSkip (count : nat)
  | ReadScan (entire : bool) (count offset : nat)
  | ReadSelect (count : nat) (sel : SelectionVector) (m offset : nat) (entire : bool)
  | ReadFilter (count : nat) (sel : SelectionVector) (m : nat).

(** The result vector has room, and selections are in order. *)
Definition op_ok (size : nat) (o : read_op) : Prop :=
  match o with
  | ReadSkip _ => True
  | ReadScan entire count offset => offset + count <= size /\ (entire = true -> offset = 0)
  | ReadSelect count sel m offset _ => offset + m <= size /\ ordered_selection sel m count
  | ReadFilter count sel m => count <= size /\ ordered_selection sel m count /\ (sel = None -> m = count)
  end.

Definition read_one (F : list T -> list nat) (data : list T) (o : read_op) s : checked RLEScanState :=
  match o with
  | ReadSkip count => RLESkip count s
  | ReadScan entire count offset => '(_, s) ← RLEScanPartialInternal entire count data offset s; mret s
  | ReadSelect count sel m offset entire => '(_, s) ← RLESelect count data sel m offset entire s; mret s
  | ReadFilter count sel m => '(_, _, _, s) ← RLEFilter F count data sel m s; mret s
  end.

Fixpoint read_all (F : list T -> list nat) (data : list T) (ops : list read_op) s : checked RLEScanState :=
  match ops with
  | [] => mret s
  | o :: ops => s ← read_one F data o s; read_all F data ops s
  end.

Section Safe.
Context (F : list T -> list nat) (passes : T -> bool).
Context (HF : forall l, F l = List.filter (fun i => from_option passes false (l !! i)) (seq 0 (length l))).

Lemma read_one_safe runs total data o n s : scan_at runs total n s -> filter_ok runs total passes s -> op_ok (length data) o ->
  sound False (read_one F data o s) (fun s' => exists n', scan_at runs total n' s' /\ filter_ok runs total passes s').
Proof.
  intros Hat Hok Ho'.
  assert (Hsame : forall s', same_filter s s' -> filter_ok runs total passes s').
  { intros s' Hf. destruct Hok as [Hm|Hr]; [left; by rewrite (proj1 Hf)|right; by eapply filter_ready_same]. }
  destruct o as [k|entire k offset|k sel m offset entire|k sel m]; cbn [read_one op_ok] in *.
  - eapply sound_weaken; [apply (skip_spec runs total k n s Hat)|done|]. cbn beta. intros s' [? ?]. eauto.
  - destruct Ho' as [Hlen Hoff]. eapply sound_bind.
    + eapply sound_weaken; [apply (scan_partial_spec runs total entire k offset n data s Hat Hlen Hoff)|done|intros x Hx; exact Hx].
    + intros [v s'] (_ & ? & ?). apply sound_ret. eauto.
  - destruct Ho' as [Hlen Hsel]. eapply sound_bind.
    + eapply sound_weaken; [apply (select_spec runs total k data sel m offset entire n s Hat Hsel Hlen)|done|intros x Hx; exact Hx].
    + intros [v s'] (_ & ? & ?). apply sound_ret. eauto.
  - destruct Ho' as (Hlen & Hsel & Hnone). eapply sound_bind.
    + eapply sound_weaken; [apply (filter_spec runs total F passes HF k data sel m n s Hat Hok Hsel Hnone Hlen)|done|intros x Hx; exact Hx].
    + intros [[[d sel'] m'] s'] (_ & _ & _ & ? & [?|[_ ?]]); apply sound_ret; eexists; (split; [done|by right]).
Qed.

Lemma read_all_safe runs total data ops n s : scan_at runs total n s -> filter_ok runs total passes s -> Forall (op_ok (length data)) ops ->
  sound False (read_all F data ops s) (fun _ => True).
Proof.
  revert n s. induction ops as [|o ops IH]; intros n s Hat Hok Hops; [done|]. apply Forall_cons in Hops as [Ho' Hops]. cbn [read_all].
  eapply sound_bind; [by eapply read_one_safe|]. cbn beta. intros s' (n' & ? & ?). by eapply IH.
Qed.

(** C13. Corrupt data is safe. Whatever bytes a segment has and whatever row count it claims, reading its layout
    and then skipping, scanning, selecting and filtering in any order ends, stays inside of the segment
    and of the result, and either returns or reports that the data is corrupt. *)
Theorem rle_reads_safe b count data ops : Forall (op_ok (length data)) ops ->
  exists r, (s ← RLEInitScan b count; read_all F data ops s) = Some r /\ forall e, r = Throw e -> corruption e.
Proof.
  intros Hops.
  assert (sound False (s ← RLEInitScan b count; read_all F data ops s) (fun _ => True)) as Hs.
  { eapply sound_bind.
    - unfold RLEInitScan. eapply sound_bind; [apply read_layout_any|]. cbn beta. intros l (runs & Hl).
      apply (sound_ret _ _ (fun s => exists runs, scan_at runs count 0 s /\ filter_ok runs count passes s)).
      exists runs. split; [split; cbn; [done|lia|done|by left]|by left].
    - cbn beta. intros s (runs & ? & ?). by eapply read_all_safe. }
  destruct (_ ≫= _) as [[a|e]|]; [|destruct Hs as [? _]|done]; eexists; (split; [done|]); [done|]. by intros e' [= <-].
Qed.
End Safe.

(** ** The analysis *)

(** The state machine does not depend on its writer. *)
Lemma update_state_same {W1 W2} (OP1 : Writer W1) (OP2 : Writer W2) (data : list T) validity idx rs w1 w2 rs1 rs2 w1' w2' :
  Update OP1 data validity idx rs w1 = Ok (rs1, w1') -> Update OP2 data validity idx rs w2 = Ok (rs2, w2') -> rs1 = rs2.
Proof.
  assert (Hfull : forall r v1 v2, flush_full OP1 r v1 = Ok (rs1, w1') -> flush_full OP2 r v2 = Ok (rs2, w2') -> rs1 = rs2).
  { unfold flush_full, Flush. intros r v1 v2. destruct (_ =? _); [|congruence].
    destruct (OP1 _ _ _ _), (OP2 _ _ _ _); cbn; congruence. }
  unfold Update, Flush. destruct (RowIsValid validity idx); [|cbn; apply Hfull].
  destruct (all_null rs); [cbn; apply Hfull|]. destruct (RLEValueEqual _ _); [cbn; apply Hfull|].
  destruct (0 <? last_seen_count rs); [|cbn; apply Hfull].
  destruct (OP1 _ _ _ _), (OP2 _ _ _ _); cbn; try done. apply Hfull.
Qed.

Lemma update_empty (data : list T) validity idx rs : exists rs', Update EmptyRLEWriter data validity idx rs tt = Ok (rs', tt).
Proof.
  unfold Update, flush_full, Flush, EmptyRLEWriter. destruct (RowIsValid validity idx), (all_null rs), (RLEValueEqual (last_value rs) (at_ data idx)),
    (0 <? last_seen_count rs); cbn; case_match; cbn; eauto.
Qed.

Lemma analyze_append vdata count rs st rs' st' : Append WRITE_STATISTICS vdata count rs st = Ok (rs', st') -> RLEAnalyze vdata count rs = Ok rs'.
Proof.
  unfold Append, RLEAnalyze. revert rs' st'. induction count as [|n IH]; intros rs' st'; [cbn; congruence|].
  rewrite !for_range_S_r by lia. destruct (for_range 0 n _ (Ok (rs, st))) as [[rs1 st1]|e] eqn:E; cbn [mbind result_bind]; [|done].
  intros Hrow. rewrite (IH rs1 st1 eq_refl). cbn [mbind result_bind]. cbv zeta.
  destruct (update_empty (format_data vdata) (format_validity vdata) (get_index (format_sel vdata) n) rs1) as [rs2 Hu].
  rewrite Hu. cbn [mbind result_bind]. f_equal. symmetry. eapply update_state_same; [exact Hrow|exact Hu].
Qed.

Lemma analyze_compress vectors rs st rs' st' : compress_vectors WRITE_STATISTICS vectors rs st = Ok (rs', st') ->
  analyze_vectors vectors rs = Ok rs'.
Proof.
  revert rs st. induction vectors as [|[vdata count] vectors IH]; intros rs st; cbn; [congruence|].
  destruct (Append WRITE_STATISTICS vdata count rs st) as [[rs1 st1]|e] eqn:E; cbn [mbind result_bind]; [|done].
  rewrite (analyze_append _ _ _ _ _ _ E). cbn [mbind result_bind]. apply IH.
Qed.

Lemma stored_bytes groups segs : Forall2 (stored WRITE_STATISTICS) (nonempty groups) segs ->
  list_sum (segment_size <$> segs) <= (COUNT_SIZE + type_size) * length (concat groups) + 15 * length segs.
Proof.
  revert segs. induction groups as [|g groups IH]; intros segs Hf; unfold nonempty in Hf; cbn [List.filter] in Hf.
  { apply Forall2_nil_inv_l in Hf as ->. cbn. lia. }
  rewrite concat_cons, length_app. destruct (Nat.ltb_spec 0 (rows_in (run_of <$> g))).
  - apply Forall2_cons_inv_l in Hf as (seg & segs' & Hst & Hf & ->). specialize (IH segs' Hf). cbn [fmap list_fmap list_sum foldr length].
    pose proof (stored_size _ _ _ Hst) as Hs. pose proof (align_value_bounds (RLE_HEADER_SIZE + type_size * length g)) as Ha.
    assert (RLE_HEADER_SIZE = 8) by done. change (foldr Nat.add 0) with list_sum. unfold list_sum in *. nia.
  - specialize (IH segs Hf). nia.
Qed.

Section Estimate.
Context (Hmax : 0 < MaxRLECount (T := T)).

(** The analysis estimates the size: what compressing the same vectors writes is at most the estimate, plus the
    header and the padding of each segment; for a column that is all NULL the one pending entry is missing
    from the estimate. *)
Theorem rle_analysis_bounds vectors : exists rs segs, analyze_vectors vectors new_rle_state = Ok rs /\
  RLECompress WRITE_STATISTICS vectors = Ok segs /\
  list_sum (segment_size <$> segs) <= RLEFinalAnalyze rs + (if all_null rs then COUNT_SIZE + type_size else 0) + 15 * length segs.
Proof.
  destruct (compress_groups WRITE_STATISTICS Hmax vectors) as (segs & groups & rs & st & log & Heq & Hcv & Hall & Hlog & [_ _ _ Hseen]).
  exists rs, segs. split_and!; [by eapply analyze_compress|done|]. pose proof (stored_bytes groups segs Hall) as Hb.
  rewrite Hlog, length_app in Hb. cbn [length] in Hb. unfold RLEFinalAnalyze. destruct (all_null rs); nia.
Qed.
End Estimate.

(** ** Selections that are out of order *)

(** A selected row before the previous one ends the loop. *)
Lemma select_loop_refuses runs total m i sel offset prev e run (data : list T) s base : covered runs total -> selecting runs total base e run s -> prev < e ->
  (forall k, i <= k < i + m -> base + get_index sel k < total) -> offset + i + m <= length data ->
  (exists k, i <= k < i + m /\ get_index sel k < if k =? i then prev else get_index sel (k - 1)) ->
  select_loop m i sel offset prev e run data s = throw (not_ordered "RLESelect").
Proof.
  revert i prev e run data s. induction m as [|m IH]; intros i prev e run data s Hcov Hsel He Hin Hlen (k & Hk & Hlt); [lia|].
  cbn [select_loop]. destruct (Nat.ltb_spec (get_index sel i) prev) as [|Hge]; [done|]. set (next := get_index sel i) in *.
  destruct (Nat.eqb_spec k i) as [->|Hne]; [subst next; lia|].
  destruct (sound_ok _ _ _ (advance_spec runs total (S next) next e run base s Hsel ltac:(lia))) as ([[e1 run1] s1] & -> & Hsel1 & He1 & _).
  { split; [done|]. apply Hin. lia. }
  cbn [mbind checked_bind]. unfold write_at. destruct (Nat.ltb_spec (offset + i) (length data)); [|lia]. cbn [mbind checked_bind mret checked_ret].
  apply (IH (S i)); [done|done|done|intros j Hj; apply Hin; lia|rewrite length_insert; lia|].
  exists k. split; [lia|]. destruct (Nat.eqb_spec k (S i)) as [->|]; [|done]. by replace (S i - 1) with i in Hlt by lia.
Qed.

(** The selection steps back somewhere. *)
Definition out_of_order (sel : SelectionVector) (m : nat) : Prop := exists k, S k < m /\ get_index sel (S k) < get_index sel k.

(** A selection that steps back is refused: nothing is returned for it. *)
Theorem rle_select_refuses seg part n s count data sel m offset : scanning seg part n s ->
  n < length part -> offset + m <= length data -> (forall i, i < m -> n + get_index sel i < length part) -> out_of_order sel m ->
  RLESelect count data sel m offset false s = throw (not_ordered "RLESelect").
Proof.
  intros Hsc Hn Hlen Hin (k & Hk & Hlt). pose proof (scanning_count _ _ _ _ Hsc) as Hcount. pose proof Hsc as (rs & Hst & Henc & Hat).
  pose proof (stored_covered WRITE_STATISTICS rs seg Hst) as Hcov. unfold RLESelect.
  destruct (sound_ok _ _ _ (current_run_spec _ _ n s Hat)) as ([run s1] & -> & Hst1 & _); [split; [done|lia]|].
  cbn [mbind checked_bind andb].
  rewrite (select_loop_refuses _ _ m 0 sel offset 0 _ run data s1 n Hcov (stands_selecting _ _ _ _ _ Hst1)); [done|..|lia|].
  - destruct Hst1 as (_ & _ & ? & _). lia.
  - intros j Hj. rewrite Hcount. apply Hin. lia.
  - exists (S k). split; [lia|]. cbn. by rewrite Nat.sub_0_r.
Qed.
End Theorems.

(** ** Two segments of characters *)

Module RleRun.
(** [UINT8], in blocks of 64 bytes whose memory is not clean, and vectors of four rows. *)
Definition code (c : ascii) : Z := Z.of_N (N_of_ascii c).

Lemma code_inj c d : code c = code d -> c = d.
Proof. unfold code. intros Heq%N2Z.inj. by rewrite <- (ascii_N_embedding c), Heq, ascii_N_embedding. Qed.

#[export] Instance char_type : ColumnType ascii := {|
  type_default := "000"%char; type_equals := Ascii.eqb; type_less c d := (code c <? code d)%Z;
  type_minimum := "000"%char; type_maximum := "255"%char
|}.
#[export] Instance char_laws : ColumnTypeLaws ascii.
Proof. constructor. intros x y. by apply Ascii.eqb_eq. Qed.
#[export] Instance char_order : ColumnOrder ascii.
Proof. constructor; cbn; intros; repeat match goal with H : _ |- _ => revert H end; lia. Qed.
#[export] Instance char_rle : RleType ascii := {|
  type_size := 1; type_align := 1; type_bytes c := [code c]; type_load bytes := ascii_of_N (Z.to_N (hd 0%Z bytes));
  NullValue := "000"%char; RLEValueEqual := Ascii.eqb
|}.
#[export] Instance char_rle_laws : RleTypeLaws ascii.
Proof.
  constructor; cbn; [done| |lia|split; [lia|by exists 8]|apply Ascii.eqb_eq].
  intros x. unfold code. by rewrite N2Z.id, ascii_N_embedding.
Qed.
#[export] Instance small_blocks : BufferManager := {| GetBlockSize := 64; fresh_memory n := replicate n 7%Z; fresh_length n := length_replicate n _ |}.
#[export] Instance four : VectorSize.
Proof. refine {| STANDARD_VECTOR_SIZE := 4 |}. by exists 2. Defined.

Lemma sample_max : 0 < MaxRLECount (T := ascii).
Proof. vm_compute. lia. Qed.
Lemma sample_size : (Z.of_nat GetBlockSize < 2 ^ 64)%Z.
Proof. by vm_compute. Qed.

Definition chars (s : string) : UnifiedVectorFormat ascii := mkUnified None (String.list_ascii_of_string s) (empty_mask 4).
(** Eighteen rows in sixteen runs, the last but one NULL; then two rows more. *)
Definition column : list (UnifiedVectorFormat ascii * nat) :=
  [(chars "abcd", 4); (chars "efgh", 4); (chars "ijkl", 4); (chars "mnop", 4);
   (mkUnified None (format_data (chars "p?zz")) (SetInvalid 1 (empty_mask 4)), 4)].
Definition column_rows : list (option ascii) := concat ((fun v => vector_rows v.1 v.2) <$> column).

Definition sample_segments : list (ColumnSegment (T := ascii)) :=
  match RLECompress true column with Ok segs => segs | Throw _ => [] end.
Definition sample_segment (i : nat) : ColumnSegment := default (mkSegment [] 0 0 empty_stats) (sample_segments !! i).

Lemma sample_shape : RLECompress true column = Ok [sample_segment 0; sample_segment 1].
Proof. vm_compute. reflexivity. Qed.

(** The first eighteen rows, and the first segment in the middle of a block. *)
Definition part : list (option ascii) := take 18 column_rows.
Abbreviation seg := (sample_segment 0).
Definition block : SegmentBlock := mkBlock (replicate 8 1%Z ++ segment_data seg) 16 8 (Some (segment_size seg)).

Lemma sample_count : segment_count seg = 18 /\ part !! 16 = Some (Some "p"%char) /\ part !! 0 = Some (Some "a"%char) /\
  length part = 18.
Proof. split_and!; vm_compute; reflexivity. Qed.

Lemma first_part (p rest : list (option ascii)) : column_rows = p ++ rest -> segment_count seg = length p -> p = part.
Proof. rewrite (proj1 sample_count). intros Hrows Hl. unfold part. rewrite Hrows. symmetry. by apply take_app_length'. Qed.

Lemma sample_compressed : segment_encodes true seg part.
Proof.
  destruct (compress_spec true sample_max column) as (segs & parts & Heq & Hrows & Hseg & _).
  rewrite sample_shape in Heq. injection Heq as <-. apply Forall2_cons_inv_l in Hseg as (p & rest & H0 & _ & ->).
  rewrite <- (first_part p (concat rest) Hrows); [exact H0|]. destruct H0 as (rs & Hst & Henc & _).
  etrans; [apply (stored_rows _ _ _ Hst)|]. by destruct (encodes_decode _ _ Henc).
Qed.

Lemma sample_placed : placed seg block.
Proof. split; [vm_compute; reflexivity|vm_compute; lia|vm_compute; reflexivity|by exists 3]. Qed.

(** A scan of the block, before the first row. *)
Lemma sample_scanning : exists s, RLEInitScan block 18 = Some (Ok s) /\ scanning true seg part 0 s /\ matching_runs s = None.
Proof. rewrite <- (proj1 sample_count). apply (init_scanning true sample_max sample_size seg part block sample_compressed sample_placed). Qed.

(** Passes the characters from [f] on. *)
Definition late (c : ascii) : bool := (code "f" <=? code c)%Z.
Definition select_late (l : list ascii) : list nat := List.filter (fun i => from_option late false (l !! i)) (seq 0 (length l)).

Lemma rle_round_trip_witness : exists s, RLEInitScan block 18 = Some (Ok s) /\ scanning true seg part 0 s /\
  RLEFetchRow block 18 16 ["-"; "-"]%char 1 = Some (Ok ["-"; "p"]%char).
Proof.
  destruct (rle_round_trip true sample_max sample_size column) as (segs & parts & Heq & Hrows & Hseg).
  rewrite sample_shape in Heq. injection Heq as <-.
  apply Forall2_cons_inv_l in Hseg as (p & rest & (Hcount & _ & Hb) & _ & ->).
  rewrite (first_part p (concat rest) Hrows Hcount) in Hb.
  destruct sample_count as (<- & Hp & _ & _). destruct (Hb block sample_placed) as [(s & Hs & Hsc) Hfetch].
  exists s. split; [exact Hs|]. split; [exact Hsc|]. apply (Hfetch 16 "p"%char ["-"; "-"]%char 1 Hp). cbn. lia.
Defined.

Lemma rle_scan_exact_witness : exists s v s', RLEInitScan block 18 = Some (Ok s) /\
  RLEScanPartialInternal false 4 (replicate 6 "-"%char) 1 s = Some (Ok (v, s')) /\ scanning true seg part 4 s' /\ shows v 1 = Some "a"%char.
Proof.
  destruct sample_scanning as (s & Hs & Hsc & _). destruct sample_count as (_ & _ & Ha & Hl).
  destruct (rle_scan_exact true seg part 0 s false 4 (replicate 6 "-"%char) 1 Hsc) as (v & s' & Heq & Hs' & Hv & _);
    [lia|rewrite Hl; lia|cbn; lia|congruence|].
  exists s, v, s'. split; [exact Hs|]. split; [exact Heq|]. split; [exact Hs'|]. apply (Hv 0 ltac:(lia) _ Ha).
Defined.

Lemma rle_skip_exact_witness : exists s s', RLEInitScan block 18 = Some (Ok s) /\ RLESkip 17 s = Some (Ok s') /\ scanning true seg part 17 s'.
Proof.
  destruct sample_scanning as (s & Hs & Hsc & _). destruct sample_count as (_ & _ & _ & Hl).
  destruct (rle_skip_exact true seg part 0 s 17 Hsc ltac:(rewrite Hl; lia)) as (s' & Heq & Hs' & _).
  exists s, s'. split; [exact Hs|]. split; [exact Heq|exact Hs'].
Defined.

(** Rows one and three of the first vector, in order and out of order. *)
Definition odd_rows : SelectionVector := Some [1; 3].
Definition swapped_rows : SelectionVector := Some [3; 1].

Lemma odd_rows_ordered : ordered_selection odd_rows 2 4.
Proof. split; [intros [|[|i]] ?; cbn; lia|]. intros [|[|i]] [|[|j]] ??; cbn; lia. Qed.

Lemma rle_select_exact_witness : exists s v s', RLEInitScan block 18 = Some (Ok s) /\
  RLESelect 4 ["-"; "-"]%char odd_rows 2 0 false s = Some (Ok (v, s')) /\ scanning true seg part 4 s'.
Proof.
  destruct sample_scanning as (s & Hs & Hsc & _). destruct sample_count as (_ & _ & _ & Hl).
  destruct (rle_select_exact true seg part 0 s 4 ["-"; "-"]%char odd_rows 2 0 false Hsc) as (v & s' & Heq & Hs' & _);
    [lia|rewrite Hl; lia|cbn; lia|exact odd_rows_ordered|].
  exists s, v, s'. split; [exact Hs|]. split; [exact Heq|exact Hs'].
Defined.

Lemma rle_select_refuses_witness : exists s, RLEInitScan block 18 = Some (Ok s) /\
  RLESelect 4 ["-"; "-"]%char swapped_rows 2 0 false s = throw (not_ordered "RLESelect").
Proof.
  destruct sample_scanning as (s & Hs & Hsc & _). destruct sample_count as (_ & _ & _ & Hl). exists s. split; [exact Hs|].
  apply (rle_select_refuses true seg part 0 s 4 ["-"; "-"]%char swapped_rows 2 0 Hsc); [rewrite Hl; lia|cbn; lia| |].
  - intros [|[|i]] ?; rewrite Hl; cbn; lia.
  - exists 0. cbn. lia.
Defined.

Lemma rle_filter_exact_witness : exists rs s data' sel' m' s', RLEInitScan block 18 = Some (Ok s) /\
  RLEFilter select_late 4 ["-"; "-"; "-"; "-"]%char None 4 s = Some (Ok (data', sel', m', s')) /\
  selected sel' 0 m' = passing (run_of <$> rs) late 0 [0; 1; 2; 3].
Proof.
  destruct sample_scanning as (s & Hs & (rs & Hst & Henc & Hat) & Hm). destruct sample_count as (_ & _ & _ & Hl).
  destruct (rle_filter_exact true select_late late seg part 0 s 4 ["-"; "-"; "-"; "-"]%char None 4 rs
    ltac:(intros l; reflexivity) Hst Henc Hat (or_introl Hm)) as (data' & sel' & m' & s' & Heq & Hsel & _).
  - rewrite Hl. lia.
  - cbn. lia.
  - split; cbn; intros; lia.
  - reflexivity.
  - exists rs, s, data', sel', m', s'. split; [exact Hs|]. split; [exact Heq|exact Hsel].
Defined.

Lemma rle_statistics_cover_witness : numeric_covers (segment_stats seg) "p"%char.
Proof.
  destruct (rle_statistics_cover true sample_max column eq_refl) as (segs & parts & Heq & Hrows & Hseg).
  rewrite sample_shape in Heq. injection Heq as <-.
  apply Forall2_cons_inv_l in Hseg as (p & rest & [Hcount Hcover] & _ & ->).
  apply Hcover. rewrite (first_part p (concat rest) Hrows Hcount). eapply list_elem_of_lookup_2. apply (proj1 (proj2 sample_count)).
Defined.

Lemma rle_analysis_bounds_witness : exists rs, analyze_vectors column new_rle_state = Ok rs /\
  list_sum (segment_size <$> [seg; sample_segment 1]) <= RLEFinalAnalyze rs + (if all_null rs then 3 else 0) + 15 * 2.
Proof.
  destruct (rle_analysis_bounds true sample_max column) as (rs & segs & Hrs & Heq & Hle).
  rewrite sample_shape in Heq. injection Heq as <-. exists rs. split; [exact Hrs|exact Hle].
Defined.

(** A segment that claims a hundred rows but whose runs are too short, and reads that go far beyond it. *)
Definition broken_block : SegmentBlock := mkBlock (Stream.le_bytes 8 16 ++ replicate 8 65%Z ++ [3; 0; 0; 0; 2; 0]%Z) 0 0 (Some 22).
Definition reads : list read_op :=
  [ReadSkip 2; ReadScan false 4 1; ReadFilter 4 None 4; ReadSelect 4 odd_rows 2 0 true; ReadSkip (2 ^ 10)].

Lemma rle_reads_safe_witness :
  exists r, (s ← RLEInitScan broken_block 100; read_all select_late (replicate 5 "-"%char) reads s) = Some r /\
    forall e, r = Throw e -> corruption e.
Proof.
  apply (rle_reads_safe select_late late ltac:(intros l; reflexivity) broken_block 100 (replicate 5 "-"%char) reads).
  unfold reads. rewrite !Forall_cons. cbn [op_ok]. rewrite length_replicate.
  split_and!; try exact odd_rows_ordered; try done; try lia; split; cbn; intros; lia.
Defined.
End RleRun.
