(* ===== verification/Hugeint.v ===== *)
(** * Signed 128-bit integers

    Models [common/hugeint.hpp], [common/types/hugeint.hpp] and [common/types/hugeint.cpp]:
    [hugeint_t] is a pair of 64-bit words, and every operation is written on the words as the code
    writes it. Where the code has two versions, one with the compiler's 128-bit integers and one
    with four 32-bit parts, [HasInt128] chooses. Arithmetic on [int64_t] goes through [s64]: its
    overflow is undefined. The conversions from and to floating point are not modelled. *)

From Stdlib Require Import Ascii.
From S2P Require Import Prelude.

Local Open Scope Z_scope.

(** ** 64-bit words *)

(** Signed arithmetic. *)
Definition s64 (z : Z) : checked Z := if (i64_min <=? z) && (z <=? i64_max) then mret z else None.
(** Unsigned arithmetic. *)
Definition not64 (x : Z) : Z := u64 (Z.lnot x).
Definition shl64 (x : Z) (n : Z) : Z := u64 (Z.shiftl x n).
(** The upper 32 bits masked away. *)
Definition low32 (x : Z) : Z := Z.land x 4294967295.
Abbreviation u128 := (wrapu 128).

(** [__SIZEOF_INT128__] is defined. *)
Class Platform := { HasInt128 : bool }.

(** ** The type *)

Record hugeint_t := mkHuge { upper : Z; lower : Z }.

#[export] Instance hugeint_eq_dec : EqDecision hugeint_t.
Proof. solve_decision. Defined.

(** The constructor from an [int64_t]. *)
Definition hugeint_of (value : Z) : hugeint_t := mkHuge (if value <? 0 then -1 else 0) (u64 value).

Definition HugeintMinimum : hugeint_t := mkHuge i64_min 0.
Definition HugeintMaximum : hugeint_t := mkHuge i64_max u64_max.

Definition HugeintEquals (lhs rhs : hugeint_t) : bool := (upper lhs =? upper rhs) && (lower lhs =? lower rhs).
Definition HugeintNotEquals (lhs rhs : hugeint_t) : bool := negb (HugeintEquals lhs rhs).
Definition HugeintGreaterThan (lhs rhs : hugeint_t) : bool :=
  (upper lhs >? upper rhs) || ((upper lhs =? upper rhs) && (lower lhs >? lower rhs)).
Definition HugeintGreaterThanEquals (lhs rhs : hugeint_t) : bool :=
  (upper lhs >? upper rhs) || ((upper lhs =? upper rhs) && (lower lhs >=? lower rhs)).
Definition HugeintLessThan (lhs rhs : hugeint_t) : bool :=
  (upper lhs <? upper rhs) || ((upper lhs =? upper rhs) && (lower lhs <? lower rhs)).
Definition HugeintLessThanEquals (lhs rhs : hugeint_t) : bool :=
  (upper lhs <? upper rhs) || ((upper lhs =? upper rhs) && (lower lhs <=? lower rhs)).

(** ** Wrapping arithmetic *)

Definition HugeintNegate (n : hugeint_t) : hugeint_t :=
  mkHuge (i64 (u64 (not64 (u64 (upper n)) + Z.b2z (lower n =? 0)))) (u64 (0 - lower n)).

Definition HugeintSign (n : hugeint_t) : Z :=
  Z.b2z (HugeintGreaterThan n (hugeint_of 0)) - Z.b2z (HugeintLessThan n (hugeint_of 0)).

Definition HugeintAbs (n : hugeint_t) : hugeint_t := if upper n <? 0 then HugeintNegate n else n.

Definition HugeintAddOne (n : hugeint_t) : hugeint_t :=
  let carry := if lower n =? u64_max then 1 else 0 in
  mkHuge (i64 (u64 (u64 (upper n) + carry))) (u64 (lower n + 1)).

Definition HugeintSubtractOne (n : hugeint_t) : hugeint_t :=
  let borrow := if lower n =? 0 then 1 else 0 in
  mkHuge (i64 (u64 (u64 (upper n) - borrow))) (u64 (lower n - 1)).

(** [operator+] and [operator-] *)
Definition hugeint_add (lhs rhs : hugeint_t) : hugeint_t :=
  mkHuge (i64 (u64 (u64 (u64 (upper lhs) + u64 (upper rhs)) + Z.b2z (u64 (lower lhs + lower rhs) <? lower lhs))))
    (u64 (lower lhs + lower rhs)).
Definition hugeint_sub (lhs rhs : hugeint_t) : hugeint_t :=
  mkHuge (i64 (u64 (u64 (u64 (upper lhs) - u64 (upper rhs)) - Z.b2z (u64 (lower lhs - lower rhs) >? lower lhs))))
    (u64 (lower lhs - lower rhs)).

(** ** Multiplication *)

(** The four 32-bit parts of a value, the most significant one first, and their products. *)
Definition parts (h : hugeint_t) (x : nat) : Z :=
  match x with
  | 0%nat => Z.shiftr (u64 (upper h)) 32
  | 1%nat => low32 (u64 (upper h))
  | 2%nat => Z.shiftr (lower h) 32
  | _ => low32 (lower h)
  end.
Definition products (lhs rhs : hugeint_t) (x y : nat) : Z := u64 (parts lhs x * parts rhs y).

(** The sums of the parts of the products, with the carries moved up but not yet masked away:
    [first32], [second32], [third32], [fourth32]. *)
Definition merge_products (p : nat -> nat -> Z) : Z * Z * Z * Z :=
  let fourth32 := low32 (p 3 3)%nat in
  let third32 := u64 (low32 (p 3 2)%nat + Z.shiftr (p 3 3)%nat 32) in
  let second32 := u64 (low32 (p 3 1)%nat + Z.shiftr (p 3 2)%nat 32) in
  let first32 := u64 (low32 (p 3 0)%nat + Z.shiftr (p 3 1)%nat 32) in
  let third32 := u64 (third32 + low32 (p 2 3)%nat) in
  let second32 := u64 (second32 + u64 (low32 (p 2 2)%nat + Z.shiftr (p 2 3)%nat 32)) in
  let first32 := u64 (first32 + u64 (low32 (p 2 1)%nat + Z.shiftr (p 2 2)%nat 32)) in
  let second32 := u64 (second32 + low32 (p 1 3)%nat) in
  let first32 := u64 (first32 + u64 (low32 (p 1 2)%nat + Z.shiftr (p 1 3)%nat 32)) in
  let first32 := u64 (first32 + low32 (p 0 3)%nat) in
  let third32 := u64 (third32 + Z.shiftr fourth32 32) in
  let second32 := u64 (second32 + Z.shiftr third32 32) in
  let first32 := u64 (first32 + Z.shiftr second32 32) in
  (first32, second32, third32, fourth32).

Definition to_uint128 (h : hugeint_t) : Z := Z.lor (u128 (Z.shiftl (u64 (upper h)) 64)) (lower h).

Definition HugeintMultiplyUnchecked `{Platform} (lhs rhs : hugeint_t) : hugeint_t :=
  if HasInt128 then
    let result := u128 (to_uint128 lhs * to_uint128 rhs) in
    mkHuge (i64 (u64 (Z.shiftr result 64))) (u64 result)
  else
    let '(first32, second32, third32, fourth32) := merge_products (products lhs rhs) in
    let '(fourth32, third32, second32, first32) := (low32 fourth32, low32 third32, low32 second32, low32 first32) in
    mkHuge (i64 (u64 (shl64 first32 32 + second32))) (u64 (shl64 third32 32 + fourth32)).

(** ** Division *)

(** [while (up) { up >>= 1; out++; }] *)
Fixpoint count_bits (fuel : nat) (x : Z) (out : nat) : checked nat :=
  if x =? 0 then mret out
  else match fuel with O => None | S fuel' => count_bits fuel' (Z.shiftr x 1) (S out) end.

Definition HugeintHighestBit (bits : hugeint_t) : checked nat :=
  if negb (upper bits =? 0) then count_bits 64 (u64 (upper bits)) 64 else count_bits 64 (lower bits) 0.

Definition HugeintIsBitSet (lhs : hugeint_t) (bit_position : nat) : bool :=
  if (bit_position <? 64)%nat then negb (Z.land (lower lhs) (shl64 1 (Z.of_nat bit_position)) =? 0)
  else negb (Z.land (u64 (upper lhs)) (shl64 1 (Z.of_nat bit_position - 64)) =? 0).

Definition HugeintLeftShift (lhs : hugeint_t) (amount : Z) : hugeint_t :=
  mkHuge (i64 (u64 (shl64 (u64 (upper lhs)) amount + Z.shiftr (lower lhs) (64 - amount)))) (shl64 (lower lhs) amount).

Record HugeintDivModResult := mkDivMod { quotient : hugeint_t; remainder : hugeint_t }.

(** [lower += 1; if (lower == 0) upper += 1;] *)
Definition increment (h : hugeint_t) : checked hugeint_t :=
  let lower' := u64 (lower h + 1) in
  upper' ← if lower' =? 0 then s64 (upper h + 1) else mret (upper h);
  mret (mkHuge upper' lower').

(** [for (x = highest_bit_set; x > 0; x--)] *)
Fixpoint divmod_loop (x : nat) (lhs rhs quotient remainder : hugeint_t) : checked (hugeint_t * hugeint_t) :=
  match x with
  | O => mret (quotient, remainder)
  | S x' =>
      let quotient := HugeintLeftShift quotient 1 in
      let remainder := HugeintLeftShift remainder 1 in
      remainder ← if HugeintIsBitSet lhs x' then increment remainder else mret remainder;
      if HugeintGreaterThanEquals remainder rhs then
        let borrow := if lower remainder <? lower rhs then 1 else 0 in
        subtrahend ← s64 (upper rhs + borrow);
        upper' ← s64 (upper remainder - subtrahend);
        quotient ← increment quotient;
        divmod_loop x' lhs rhs quotient (mkHuge upper' (u64 (lower remainder - lower rhs)))
      else divmod_loop x' lhs rhs quotient remainder
  end.

(** [HugeintDivModMinimum], given the division it calls. *)
Definition HugeintDivModMinimum (divmod : hugeint_t -> hugeint_t -> checked HugeintDivModResult) (lhs rhs : hugeint_t)
    : checked HugeintDivModResult :=
  if (upper rhs =? i64_min) && (lower rhs =? 0) then
    if (upper lhs =? i64_min) && (lower lhs =? 0) then mret (mkDivMod (hugeint_of 1) (hugeint_of 0))
    else mret (mkDivMod (hugeint_of 0) lhs)
  else
    shifted ← divmod (HugeintAddOne lhs) rhs;
    if HugeintEquals (HugeintAddOne (HugeintAbs (remainder shifted))) (HugeintAbs rhs) then
      let quotient := if HugeintSign rhs >? 0 then HugeintSubtractOne (quotient shifted) else HugeintAddOne (quotient shifted) in
      mret (mkDivMod quotient (hugeint_of 0))
    else mret (mkDivMod (quotient shifted) (HugeintSubtractOne (remainder shifted))).

(** The two functions call each other; the fuel bounds the depth. *)
Fixpoint divmod_depth (fuel : nat) (lhs rhs : hugeint_t) : checked HugeintDivModResult :=
  match fuel with
  | O => None
  | S fuel' =>
      if HugeintEquals rhs (hugeint_of 0) then mret (mkDivMod (hugeint_of 0) lhs)
      else if HugeintEquals lhs HugeintMinimum || HugeintEquals rhs HugeintMinimum then
        HugeintDivModMinimum (divmod_depth fuel') lhs rhs
      else
        let lhs_negative := upper lhs <? 0 in
        let rhs_negative := upper rhs <? 0 in
        let lhs := if lhs_negative then HugeintNegate lhs else lhs in
        let rhs := if rhs_negative then HugeintNegate rhs else rhs in
        highest_bit_set ← HugeintHighestBit lhs;
        '(quotient, remainder) ← divmod_loop highest_bit_set lhs rhs (mkHuge 0 0) (mkHuge 0 0);
        let quotient := if xorb lhs_negative rhs_negative then HugeintNegate quotient else quotient in
        let remainder := if lhs_negative then HugeintNegate remainder else remainder in
        mret (mkDivMod quotient remainder)
  end.

Definition HugeintDivMod (lhs rhs : hugeint_t) : checked HugeintDivModResult := divmod_depth 2 lhs rhs.

(** ** Checked arithmetic

    A function that returns [false] leaves its result alone: [None]. *)

Definition negation_out_of_range : exception := OutOfRangeException "Negation of HUGEINT is out of range!".
Definition overflow_in (operation : string) : exception := OutOfRangeException ("Overflow in HUGEINT " +:+ operation).
Definition division_by_zero : exception := OutOfRangeException "Division of HUGEINT by zero".
Definition modulo_by_zero : exception := OutOfRangeException "Modulo of HUGEINT by zero".

(** The result of a [Try] function, or the exception. *)
Definition or_throw {A} (e : exception) (m : checked (option A)) : checked A :=
  r ← m; match r with Some x => mret x | None => throw e end.

(** [NegateInPlace<false>] *)
Definition NegateInPlaceUnchecked (input : hugeint_t) : checked hugeint_t :=
  let lower' := u64 (u64 (u64_max - lower input) + 1) in
  upper' ← s64 (-1 - upper input);
  upper' ← s64 (upper' + Z.b2z (lower' =? 0));
  mret (mkHuge upper' lower').

Definition TryNegate (input : hugeint_t) : checked (option hugeint_t) :=
  if (upper input =? i64_min) && (lower input =? 0) then mret None
  else input ← NegateInPlaceUnchecked input; mret (Some input).

Definition Negate (input : hugeint_t) : checked hugeint_t := or_throw negation_out_of_range (TryNegate input).

Definition Abs (n : hugeint_t) : checked hugeint_t :=
  if HugeintLessThan n (hugeint_of 0) then Negate n else mret n.

Definition TryAddInPlace (lhs rhs : hugeint_t) : checked (option hugeint_t) :=
  let overflow := Z.b2z (u64 (lower lhs + lower rhs) <? lower lhs) in
  if upper rhs >=? 0 then
    bound ← s64 (i64_max - upper rhs);
    bound ← s64 (bound - overflow);
    if upper lhs >? bound then mret None
    else
      sum ← s64 (upper lhs + overflow);
      sum ← s64 (sum + upper rhs);
      mret (Some (mkHuge sum (u64 (lower lhs + lower rhs))))
  else
    bound ← s64 (i64_min - upper rhs);
    bound ← s64 (bound - overflow);
    if upper lhs <? bound then mret None
    else
      addend ← s64 (overflow + upper rhs);
      sum ← s64 (upper lhs + addend);
      mret (Some (mkHuge sum (u64 (lower lhs + lower rhs)))).

Definition TrySubtractInPlace (lhs rhs : hugeint_t) : checked (option hugeint_t) :=
  let underflow := Z.b2z (u64 (lower lhs - lower rhs) >? lower lhs) in
  if upper rhs >=? 0 then
    bound ← s64 (i64_min + upper rhs);
    bound ← s64 (bound + underflow);
    if upper lhs <? bound then mret None
    else
      difference ← s64 (upper lhs - upper rhs);
      difference ← s64 (difference - underflow);
      mret (Some (mkHuge difference (u64 (lower lhs - lower rhs))))
  else
    too_large ←
      if upper lhs >? i64_min then
        before ← s64 (upper lhs - 1);
        bound ← s64 (i64_max + upper rhs);
        bound ← s64 (bound + underflow);
        mret (before >=? bound)
      else mret false;
    if (too_large : bool) then mret None
    else
      subtrahend ← s64 (upper rhs + underflow);
      difference ← s64 (upper lhs - subtrahend);
      mret (Some (mkHuge difference (u64 (lower lhs - lower rhs)))).

Definition Add (lhs rhs : hugeint_t) : checked hugeint_t := or_throw (overflow_in "addition") (TryAddInPlace lhs rhs).
Definition Subtract (lhs rhs : hugeint_t) : checked hugeint_t :=
  or_throw (OutOfRangeException "Underflow in HUGEINT subtraction") (TrySubtractInPlace lhs rhs).

(** The unsigned product of two values that are not negative, if it is below [2 ^ 127]. *)
Definition multiply_int128 (lhs rhs : hugeint_t) : option hugeint_t :=
  let left := u128 (lower lhs + u128 (Z.shiftl (upper lhs) 64)) in
  let right := u128 (lower rhs + u128 (Z.shiftl (upper rhs) 64)) in
  if left * right >? 2 ^ 128 - 1 then None
  else
    let upper' := u64 (Z.shiftr (left * right) 64) in
    if negb (Z.land upper' 9223372036854775808 =? 0) then None
    else Some (mkHuge (i64 upper') (Z.land (left * right) u64_max)).

Definition multiply_parts (lhs rhs : hugeint_t) : option hugeint_t :=
  let p := products lhs rhs in
  let nonzero x := negb (x =? 0) in
  let high_bits x := negb (Z.land x 18446744071562067968 =? 0) in
  if nonzero (p 0 0)%nat || nonzero (p 0 1)%nat || nonzero (p 0 2)%nat ||
     nonzero (p 1 0)%nat || nonzero (p 2 0)%nat || nonzero (p 1 1)%nat then None
  else if high_bits (p 0 3)%nat || high_bits (p 1 2)%nat || high_bits (p 2 1)%nat || high_bits (p 3 0)%nat then None
  else
    let '(first32, second32, third32, fourth32) := merge_products p in
    if negb (Z.land first32 72057591890444288 =? 0) then None
    else
      let '(fourth32, third32, second32, first32) := (low32 fourth32, low32 third32, low32 second32, low32 first32) in
      Some (mkHuge (i64 (Z.lor (shl64 first32 32) second32)) (Z.lor (shl64 third32 32) fourth32)).

Definition TryMultiply `{Platform} (lhs rhs : hugeint_t) : checked (option hugeint_t) :=
  if HugeintEquals lhs HugeintMinimum || HugeintEquals rhs HugeintMinimum then
    if HugeintEquals lhs (hugeint_of 0) || HugeintEquals rhs (hugeint_of 0) then mret (Some (hugeint_of 0))
    else if HugeintEquals lhs (hugeint_of 1) || HugeintEquals rhs (hugeint_of 1) then mret (Some HugeintMinimum)
    else mret None
  else
    let lhs_negative := upper lhs <? 0 in
    let rhs_negative := upper rhs <? 0 in
    left ← if lhs_negative then TryNegate lhs else mret (Some lhs);
    right ← if rhs_negative then TryNegate rhs else mret (Some rhs);
    match left, right with
    | Some lhs, Some rhs =>
        match if HasInt128 then multiply_int128 lhs rhs else multiply_parts lhs rhs with
        | Some result =>
            result ← if xorb lhs_negative rhs_negative then NegateInPlaceUnchecked result else mret result;
            mret (Some result)
        | None => mret None
        end
    | _, _ => mret None
    end.

Definition Multiply `{Platform} (lhs rhs : hugeint_t) : checked hugeint_t :=
  or_throw (overflow_in "multiplication") (TryMultiply lhs rhs).

Definition DivMod (lhs rhs : hugeint_t) : checked (hugeint_t * hugeint_t) :=
  result ← HugeintDivMod lhs rhs; mret (quotient result, remainder result).

Definition TryDivMod (lhs rhs : hugeint_t) : checked (option (hugeint_t * hugeint_t)) :=
  if HugeintEquals rhs (hugeint_of 0) then mret None
  else if HugeintEquals lhs HugeintMinimum && HugeintEquals rhs (hugeint_of (-1)) then mret None
  else result ← DivMod lhs rhs; mret (Some result).

Definition Divide (lhs rhs : hugeint_t) : checked hugeint_t :=
  if HugeintEquals rhs (hugeint_of 0) then throw division_by_zero
  else if HugeintEquals lhs HugeintMinimum && HugeintEquals rhs (hugeint_of (-1)) then throw (overflow_in "division")
  else result ← DivMod lhs rhs; mret result.1.

Definition Modulo (lhs rhs : hugeint_t) : checked hugeint_t :=
  if HugeintEquals rhs (hugeint_of 0) then throw modulo_by_zero
  else if HugeintEquals lhs HugeintMinimum && HugeintEquals rhs (hugeint_of (-1)) then throw (overflow_in "modulo")
  else result ← HugeintDivMod lhs rhs; mret (remainder result).

(** ** Division by a word, and text *)

Fixpoint divmod_positive_loop (x : nat) (lhs : hugeint_t) (rhs : Z) (div_result : hugeint_t) (remainder : Z)
    : checked (hugeint_t * Z) :=
  match x with
  | O => mret (div_result, remainder)
  | S x' =>
      let div_result := HugeintLeftShift div_result 1 in
      let remainder := shl64 remainder 1 in
      let remainder := if HugeintIsBitSet lhs x' then u64 (remainder + 1) else remainder in
      if remainder >=? rhs then
        let remainder := u64 (remainder - rhs) in
        div_result ← increment div_result;
        divmod_positive_loop x' lhs rhs div_result remainder
      else divmod_positive_loop x' lhs rhs div_result remainder
  end.

(** The caller passes [lhs] that is not negative. *)
Definition DivModPositive (lhs : hugeint_t) (rhs : Z) : checked (hugeint_t * Z) :=
  highest_bit_set ← HugeintHighestBit lhs;
  divmod_positive_loop highest_bit_set lhs rhs (mkHuge 0 0) 0.

Definition HUGEINT_MINIMUM_STRING : string := "-170141183460469231731687303715884105728".

(** [while (true)]: at most 39 digits. *)
Fixpoint digits_loop (fuel : nat) (input : hugeint_t) (result : string) : checked string :=
  if (lower input =? 0) && (upper input =? 0) then mret result
  else
    match fuel with
    | O => None
    | S fuel' =>
        '(input, remainder) ← DivModPositive input 10;
        digits_loop fuel' input (String (ascii_of_nat (Z.to_nat (48 + remainder))) result)
    end.

Definition ToString (input : hugeint_t) : checked string :=
  if HugeintEquals input HugeintMinimum then mret HUGEINT_MINIMUM_STRING
  else
    let negative := upper input <? 0 in
    input ← if negative then Negate input else mret input;
    result ← digits_loop 39 input "";
    match result with
    | EmptyString => mret "0"
    | _ => mret (if negative then "-" +:+ result else result)
    end.

(** [POWERS_OF_TEN] *)
Definition POWERS_OF_TEN `{Platform} : list hugeint_t :=
  let ten n := hugeint_of (10 ^ n) in
  (ten <$> [0; 1; 2; 3; 4; 5; 6; 7; 8; 9; 10; 11; 12; 13; 14; 15; 16; 17; 18]) ++
  ((fun n => HugeintMultiplyUnchecked (ten 18) (ten n)) <$> [1; 2; 3; 4; 5; 6; 7; 8; 9; 10; 11; 12; 13; 14; 15; 16; 17; 18]) ++
  ((fun n => HugeintMultiplyUnchecked (HugeintMultiplyUnchecked (ten 18) (ten 18)) (ten n)) <$> [1; 2]).

(** ** Conversions *)

Inductive integer_type := INT8 | INT16 | INT32 | INT64 | UINT8 | UINT16 | UINT32 | UINT64.

#[export] Instance integer_type_eq_dec : EqDecision integer_type.
Proof. solve_decision. Defined.

Definition width (t : integer_type) : Z :=
  match t with INT8 | UINT8 => 8 | INT16 | UINT16 => 16 | INT32 | UINT32 => 32 | INT64 | UINT64 => 64 end.
Definition is_signed (t : integer_type) : bool :=
  match t with INT8 | INT16 | INT32 | INT64 => true | _ => false end.
(** [NumericLimits<T>] *)
Definition Minimum (t : integer_type) : Z := if is_signed t then - 2 ^ (width t - 1) else 0.
Definition Maximum (t : integer_type) : Z := if is_signed t then 2 ^ (width t - 1) - 1 else 2 ^ width t - 1.
(** [static_cast<T>] *)
Definition cast_to (t : integer_type) (z : Z) : Z := if is_signed t then wraps (width t) z else wrapu (width t) z.

Definition HugeintTryCastInteger (DST : integer_type) (SIGNED : bool) (input : hugeint_t) : option Z :=
  if upper input =? 0 then
    if lower input <=? Maximum DST then Some (cast_to DST (lower input)) else None
  else if upper input =? -1 then
    if negb SIGNED then None
    else if lower input >=? u64_max - Maximum DST
    then Some (cast_to DST (- cast_to DST (u64_max - lower input) - 1)) else None
  else None.

(** [Hugeint::TryCast] and [Hugeint::TryConvert] *)
Definition TryCast (DST : integer_type) (input : hugeint_t) : option Z := HugeintTryCastInteger DST (is_signed DST) input.
Definition HugeintConvertInteger (input : Z) : hugeint_t := mkHuge (Z.b2z (input <? 0) * -1) (u64 input).

(** The conversion operators, which truncate. *)
Definition NarrowCast (T : integer_type) (input : hugeint_t) : Z := cast_to T (lower input).

(** ** Bits *)

(** [operator>>] and [operator<<] *)
Definition hugeint_shr (lhs rhs : hugeint_t) : hugeint_t :=
  let shift := lower rhs in
  if negb (upper rhs =? 0) || (shift >=? 128) then hugeint_of 0
  else if shift =? 0 then lhs
  else if shift =? 64 then mkHuge (if upper lhs <? 0 then -1 else 0) (u64 (upper lhs))
  else if shift <? 64 then
    mkHuge (Z.shiftr (upper lhs) shift) (Z.lor (shl64 (u64 (upper lhs)) (64 - shift)) (Z.shiftr (lower lhs) shift))
  else mkHuge (if upper lhs <? 0 then -1 else 0) (u64 (Z.shiftr (upper lhs) (shift - 64))).

Definition hugeint_shl (lhs rhs : hugeint_t) : hugeint_t :=
  if upper lhs <? 0 then hugeint_of 0
  else
    let shift := lower rhs in
    if negb (upper rhs =? 0) || (shift >=? 128) then hugeint_of 0
    else if shift =? 64 then mkHuge (i64 (lower lhs)) 0
    else if shift =? 0 then lhs
    else if shift <? 64 then
      let upper_shift := Z.land (u64 (shl64 (u64 (upper lhs)) shift + Z.shiftr (lower lhs) (64 - shift))) i64_max in
      mkHuge (i64 upper_shift) (shl64 (lower lhs) shift)
    else mkHuge (Z.land (shl64 (lower lhs) (shift - 64)) i64_max) 0.

Definition hugeint_and (lhs rhs : hugeint_t) : hugeint_t := mkHuge (Z.land (upper lhs) (upper rhs)) (Z.land (lower lhs) (lower rhs)).
Definition hugeint_or (lhs rhs : hugeint_t) : hugeint_t := mkHuge (Z.lor (upper lhs) (upper rhs)) (Z.lor (lower lhs) (lower rhs)).
Definition hugeint_xor (lhs rhs : hugeint_t) : hugeint_t := mkHuge (Z.lxor (upper lhs) (upper rhs)) (Z.lxor (lower lhs) (lower rhs)).
Definition hugeint_not (lhs : hugeint_t) : hugeint_t := mkHuge (Z.lnot (upper lhs)) (not64 (lower lhs)).
