(* ===== verification/HugeintFacts.v ===== *)
(** * Signed 128-bit integers: the arithmetic of the words

    [value] is the integer a [hugeint_t] denotes and [of_value] its inverse; the operations on the
    words are the operations on the integers modulo [2 ^ 128] ([wrapped]), and the checked ones
    return [exact] results. *)

From S2P Require Import Prelude Hugeint.

Local Open Scope Z_scope.

(** ** Values *)

Definition value (h : hugeint_t) : Z := upper h * 2 ^ 64 + lower h.
Definition of_value (z : Z) : hugeint_t := mkHuge (z / 2 ^ 64) (z mod 2 ^ 64).
Record huge_ok (h : hugeint_t) : Prop := { ok_upper : in_s 64 (upper h); ok_lower : in_u 64 (lower h) }.

(** The value modulo [2 ^ 128], and the value if it is in range. *)
Definition wrapped (z : Z) : hugeint_t := of_value (wraps 128 z).
Definition in_range (z : Z) : bool := (- 2 ^ 127 <=? z) && (z <? 2 ^ 127).
Definition exact (z : Z) : option hugeint_t := if in_range z then Some (of_value z) else None.

(** Powers of two as numbers, and linear arithmetic with quotients. *)
Ltac numbers :=
  repeat match goal with
  | H : context [2 ^ ?n] |- _ => let v := eval vm_compute in (2 ^ n) in lazymatch v with Zpos _ => change (2 ^ n) with v in H end
  | |- context [2 ^ ?n] => let v := eval vm_compute in (2 ^ n) in lazymatch v with Zpos _ => change (2 ^ n) with v end
  end.
Ltac words :=
  repeat match goal with H : huge_ok ?h |- _ => destruct H as [? ?] end;
  unfold value, of_value, wrapped, wrapu, wraps, in_u, in_s, u64_max, i64_max, i64_min in *; cbn [upper lower] in *;
  numbers; Z.to_euclidean_division_equations; lia.

Lemma value_of_value z : value (of_value z) = z.
Proof. words. Qed.

Lemma of_value_value h : huge_ok h -> of_value (value h) = h.
Proof. intros [Hu Hl]. destruct h as [u l]. unfold of_value, value. f_equal; words. Qed.

Lemma value_inj g h : huge_ok g -> huge_ok h -> value g = value h -> g = h.
Proof. intros Hg Hh Heq. by rewrite <- (of_value_value g Hg), <- (of_value_value h Hh), Heq. Qed.

Lemma value_range h : huge_ok h -> in_s 128 (value h).
Proof. intros. words. Qed.

Lemma of_value_ok z : in_s 128 z -> huge_ok (of_value z).
Proof. intros. constructor; words. Qed.

Lemma wrapped_ok z : huge_ok (wrapped z).
Proof. apply of_value_ok, wraps_range. lia. Qed.

Lemma wrapped_small z : in_s 128 z -> wrapped z = of_value z.
Proof. intros. unfold wrapped. by rewrite wraps_small. Qed.

Lemma value_wrapped z : in_s 128 z -> value (wrapped z) = z.
Proof. intros. by rewrite wrapped_small, value_of_value. Qed.

(** Two words that agree with [z] modulo [2 ^ 128]. *)
Lemma words_wrapped u l z : (u * 2 ^ 64 + u64 l - z) mod 2 ^ 128 = 0 -> mkHuge (i64 u) (u64 l) = wrapped z.
Proof. intros Heq. unfold wrapped, of_value. f_equal; words. Qed.

Lemma i64_u64 x : i64 (u64 x) = i64 x.
Proof. unfold wraps, wrapu. numbers. Z.to_euclidean_division_equations. lia. Qed.

Lemma words_of_value u l z : in_s 64 u -> in_u 64 l -> u * 2 ^ 64 + l = z -> mkHuge u l = of_value z.
Proof. intros Hu Hl <-. symmetry. by apply (of_value_value (mkHuge u l)). Qed.

#[export] Hint Resolve value_range of_value_ok wrapped_ok : duckdb.

(** ** Comparisons *)

Lemma equals_value g h : huge_ok g -> huge_ok h -> HugeintEquals g h = (value g =? value h).
Proof.
  intros. unfold HugeintEquals. destruct (Z.eqb_spec (value g) (value h)) as [Heq|Hne].
  - apply andb_true_iff. rewrite !Z.eqb_eq. split; words.
  - apply andb_false_iff. rewrite !Z.eqb_neq. words.
Qed.

Lemma less_value g h : huge_ok g -> huge_ok h -> HugeintLessThan g h = (value g <? value h).
Proof. intros. unfold HugeintLessThan. apply eq_bool_prop_intro. rewrite !Is_true_true, orb_true_iff, andb_true_iff, !Z.ltb_lt, Z.eqb_eq. words. Qed.

Lemma less_equal_value g h : huge_ok g -> huge_ok h -> HugeintLessThanEquals g h = (value g <=? value h).
Proof. intros. unfold HugeintLessThanEquals. apply eq_bool_prop_intro. rewrite !Is_true_true, orb_true_iff, andb_true_iff, Z.ltb_lt, !Z.leb_le, Z.eqb_eq. words. Qed.

Lemma greater_value g h : huge_ok g -> huge_ok h -> HugeintGreaterThan g h = (value h <? value g).
Proof.
  intros. rewrite <- less_value by done. unfold HugeintGreaterThan, HugeintLessThan.
  by rewrite (Z.eqb_sym (upper g)), !Z.gtb_ltb.
Qed.

Lemma greater_equal_value g h : huge_ok g -> huge_ok h -> HugeintGreaterThanEquals g h = (value h <=? value g).
Proof.
  intros. rewrite <- less_equal_value by done. unfold HugeintGreaterThanEquals, HugeintLessThanEquals.
  by rewrite (Z.eqb_sym (upper g)), Z.gtb_ltb, Z.geb_leb.
Qed.

Lemma hugeint_of_value z : in_s 64 z -> hugeint_of z = of_value z.
Proof. intros. unfold hugeint_of, of_value. f_equal. destruct (Z.ltb_spec z 0); words. Qed.

(** ** Wrapping arithmetic *)

Ltac wrap := rewrite ?i64_u64; apply words_wrapped; words.

Lemma negate_wrapped h : huge_ok h -> HugeintNegate h = wrapped (- value h).
Proof. intros Hh. unfold HugeintNegate, not64, Z.lnot. destruct (Z.eqb_spec (lower h) 0) as [E|E]; cbn [Z.b2z]; wrap. Qed.

Lemma add_one_wrapped h : huge_ok h -> HugeintAddOne h = wrapped (value h + 1).
Proof. intros Hh. unfold HugeintAddOne. destruct (Z.eqb_spec (lower h) u64_max); wrap. Qed.

Lemma subtract_one_wrapped h : huge_ok h -> HugeintSubtractOne h = wrapped (value h - 1).
Proof. intros Hh. unfold HugeintSubtractOne. destruct (Z.eqb_spec (lower h) 0); wrap. Qed.

Lemma add_wrapped g h : huge_ok g -> huge_ok h -> hugeint_add g h = wrapped (value g + value h).
Proof. intros Hg Hh. unfold hugeint_add. destruct (Z.ltb_spec (u64 (lower g + lower h)) (lower g)); cbn [Z.b2z]; wrap. Qed.

Lemma sub_wrapped g h : huge_ok g -> huge_ok h -> hugeint_sub g h = wrapped (value g - value h).
Proof. intros Hg Hh. unfold hugeint_sub. rewrite Z.gtb_ltb. destruct (Z.ltb_spec (lower g) (u64 (lower g - lower h))); cbn [Z.b2z]; wrap. Qed.

Lemma abs_wrapped h : huge_ok h -> HugeintAbs h = wrapped (Z.abs (value h)).
Proof.
  intros Hh. unfold HugeintAbs. destruct (Z.ltb_spec (upper h) 0).
  - rewrite negate_wrapped by done. f_equal. words.
  - rewrite Z.abs_eq by words. rewrite wrapped_small by auto with duckdb. by rewrite of_value_value.
Qed.

Lemma hugeint_of_ok z : in_s 64 z -> huge_ok (hugeint_of z).
Proof. intros. rewrite hugeint_of_value by done. apply of_value_ok. words. Qed.

Lemma value_hugeint_of z : in_s 64 z -> value (hugeint_of z) = z.
Proof. intros. by rewrite hugeint_of_value, value_of_value. Qed.

Lemma sign_value h : huge_ok h -> HugeintSign h = Z.sgn (value h).
Proof.
  intros Hh. unfold HugeintSign. assert (huge_ok (hugeint_of 0)) by by apply hugeint_of_ok.
  rewrite greater_value, less_value by done. rewrite (value_hugeint_of 0) by done.
  destruct (Z.ltb_spec 0 (value h)), (Z.ltb_spec (value h) 0); cbn; lia.
Qed.

(** ** Checked arithmetic *)

Lemma s64_ok z : in_s 64 z -> s64 z = mret z.
Proof.
  intros Hz. unfold s64. destruct (Z.leb_spec i64_min z), (Z.leb_spec z i64_max); cbn [andb]; [done|words..].
Qed.

Lemma s64_bind {A} z (f : Z -> checked A) : in_s 64 z -> (s64 z ≫= f) = f z.
Proof. intros. by rewrite s64_ok. Qed.

(** The next signed operation does not overflow. *)
Ltac no_overflow := etrans; [apply s64_bind; words|]; cbv beta.

Lemma exact_none z : z < - 2 ^ 127 \/ 2 ^ 127 <= z -> exact z = None.
Proof. unfold exact, in_range. destruct (Z.leb_spec (- 2 ^ 127) z), (Z.ltb_spec z (2 ^ 127)); cbn [andb]; [lia|done..]. Qed.

Lemma exact_some z : in_s 128 z -> exact z = Some (of_value z).
Proof. unfold exact, in_range. intros. destruct (Z.leb_spec (- 2 ^ 127) z), (Z.ltb_spec z (2 ^ 127)); cbn [andb]; [done|words..]. Qed.

(** A checked operation returns words that denote [z], or finds that it is out of range. *)
Lemma returns_exact u l z : in_s 64 u -> in_u 64 l -> u * 2 ^ 64 + l = z -> mret (M := checked) (Some (mkHuge u l)) = mret (exact z).
Proof. intros Hu Hl Heq. rewrite (words_of_value u l z), exact_some by words. done. Qed.

Lemma returns_none z : z < - 2 ^ 127 \/ 2 ^ 127 <= z -> mret (M := checked) None = mret (exact z).
Proof. intros. by rewrite exact_none. Qed.

Lemma try_add_exact g h : huge_ok g -> huge_ok h -> TryAddInPlace g h = mret (exact (value g + value h)).
Proof.
  intros Hg Hh. unfold TryAddInPlace. rewrite Z.geb_leb.
  destruct (Z.ltb_spec (u64 (lower g + lower h)) (lower g)), (Z.leb_spec 0 (upper h)); cbn [Z.b2z]; do 2 no_overflow; rewrite ?Z.gtb_ltb;
    case_match eqn:E; reflect_bools; first [apply returns_none; words|do 2 no_overflow; apply returns_exact; words].
Qed.

Lemma try_subtract_exact g h : huge_ok g -> huge_ok h -> TrySubtractInPlace g h = mret (exact (value g - value h)).
Proof.
  intros Hg Hh. unfold TrySubtractInPlace. rewrite Z.geb_leb, !Z.gtb_ltb.
  destruct (Z.ltb_spec (lower g) (u64 (lower g - lower h))), (Z.leb_spec 0 (upper h)); cbn [Z.b2z].
  1, 3: do 2 no_overflow; case_match eqn:E; reflect_bools; first [apply returns_none; words|do 2 no_overflow; apply returns_exact; words].
  all: destruct (Z.ltb_spec i64_min (upper g)); cbn [mbind checked_bind mret checked_ret].
  1, 3: rewrite (s64_bind (upper g - 1)), (s64_bind (i64_max + upper h)), (s64_bind (i64_max + upper h + _)) by words;
    rewrite Z.geb_leb; cbn [mbind checked_bind mret checked_ret]; case_match eqn:E; reflect_bools.
  all: first [apply returns_none; words|do 2 no_overflow; apply returns_exact; words].
Qed.

Lemma negate_in_place h : huge_ok h -> value h <> - 2 ^ 127 -> NegateInPlaceUnchecked h = mret (of_value (- value h)).
Proof.
  intros Hh Hmin. unfold NegateInPlaceUnchecked.
  destruct (Z.eqb_spec (u64 (u64 (u64_max - lower h) + 1)) 0); cbn [Z.b2z]; do 2 no_overflow; unfold of_value; do 3 f_equal; words.
Qed.

Lemma try_negate_exact h : huge_ok h -> TryNegate h = mret (exact (- value h)).
Proof.
  intros Hh. unfold TryNegate. case_match eqn:E; reflect_bools; [apply returns_none; words|].
  assert (value h <> - 2 ^ 127) by (apply andb_false_iff in E as [E|E]; reflect_bools; words).
  rewrite negate_in_place, exact_some by (done || words). done.
Qed.

Lemma negate_exact h : huge_ok h ->
  Negate h = if in_range (- value h) then mret (of_value (- value h)) else throw negation_out_of_range.
Proof. intros. unfold Negate, or_throw. rewrite try_negate_exact by done. unfold exact. by destruct (in_range _). Qed.

(** ** Multiplication *)

Lemma low32_mod x : low32 x = x mod 2 ^ 32.
Proof. unfold low32. change 4294967295 with (Z.ones 32). by rewrite Z.land_ones. Qed.

(** No bit from [k] up is set. *)
Lemma high_bits_clear n k x : 0 <= k <= n -> in_u n x -> (Z.land x (2 ^ n - 2 ^ k) =? 0) = (x <? 2 ^ k).
Proof.
  intros Hk Hx. assert (2 ^ n - 2 ^ k = Z.shiftl (Z.ones (n - k)) k) as ->.
  { rewrite Z.shiftl_mul_pow2, Z.ones_equiv by lia. rewrite <- Z.sub_1_r, Z.mul_sub_distr_r, <- Z.pow_add_r by lia. f_equal; [f_equal|]; lia. }
  assert (Z.land x (Z.shiftl (Z.ones (n - k)) k) = Z.shiftl (Z.shiftr x k) k) as ->.
  { apply Z.bits_inj'. intros i Hi. rewrite Z.land_spec. destruct (Z.lt_ge_cases i k).
    - by rewrite !Z.shiftl_spec_low, andb_false_r by lia.
    - rewrite !Z.shiftl_spec, Z.shiftr_spec by lia. replace (i - k + k) with i by lia.
      destruct (Z.lt_ge_cases (i - k) (n - k)); [by rewrite Z.ones_spec_low, andb_true_r by lia|].
      by rewrite Z.ones_spec_high, andb_false_r, (testbit_u_high n) by (done || lia). }
  rewrite Z.shiftl_mul_pow2, Z.shiftr_div_pow2 by lia. destruct Hx as [Hx _].
  assert (0 < 2 ^ k) by (apply Z.pow_pos_nonneg; lia).
  destruct (Z.ltb_spec x (2 ^ k)); [by rewrite Z.div_small by lia|]. apply Z.eqb_neq.
  assert (1 <= x / 2 ^ k) by (apply Z.div_le_lower_bound; lia). nia.
Qed.

Abbreviation at2 p x y := (p (x)%nat (y)%nat) (only parsing).

(** The merged parts are the sum of the products, without what does not fit. *)
Lemma merge_products_sum (p : nat -> nat -> Z) : (forall x y, 0 <= p x y <= (2 ^ 32 - 1) * (2 ^ 32 - 1)) ->
  let '(first32, second32, third32, fourth32) := merge_products p in
  let dropped := at2 p 0 3 / 2 ^ 32 + at2 p 1 2 / 2 ^ 32 + at2 p 2 1 / 2 ^ 32 + at2 p 3 0 / 2 ^ 32 in
  0 <= first32 < 2 ^ 36 /\ 0 <= second32 < 2 ^ 36 /\ 0 <= third32 < 2 ^ 36 /\ 0 <= fourth32 < 2 ^ 32 /\
  first32 * 2 ^ 96 + low32 second32 * 2 ^ 64 + low32 third32 * 2 ^ 32 + fourth32 + dropped * 2 ^ 128 =
  (at2 p 0 3 + at2 p 1 2 + at2 p 2 1 + at2 p 3 0) * 2 ^ 96 + (at2 p 1 3 + at2 p 2 2 + at2 p 3 1) * 2 ^ 64 +
  (at2 p 2 3 + at2 p 3 2) * 2 ^ 32 + at2 p 3 3.
Proof.
  intros Hp. unfold merge_products. rewrite !low32_mod, !Z.shiftr_div_pow2 by lia. cbv beta iota zeta.
  assert (Hsplit : forall x y, exists q r, p x y = 2 ^ 32 * q + r /\ 0 <= q < 2 ^ 32 /\ 0 <= r < 2 ^ 32 /\ p x y / 2 ^ 32 = q /\ p x y mod 2 ^ 32 = r).
  { intros x y. specialize (Hp x y). exists (p x y / 2 ^ 32), (p x y mod 2 ^ 32). split_and!; words. }
  repeat match goal with |- context [p ?x ?y mod 2 ^ 32] =>
    let q := fresh "q" in let r := fresh "r" in let E := fresh "E" in let Hq := fresh "Hq" in let Hr := fresh "Hr" in
    let Ed := fresh "Ed" in let Em := fresh "Em" in
    destruct (Hsplit x y) as (q & r & E & Hq & Hr & Ed & Em); rewrite ?Ed, ?Em, ?E; clear Ed Em E end.
  clear Hsplit Hp p. rewrite !wrapu_small by words.
  split_and!; words.
Qed.

Lemma parts_bounds h x : huge_ok h -> 0 <= parts h x < 2 ^ 32.
Proof.
  intros Hh. unfold parts. rewrite !low32_mod, !Z.shiftr_div_pow2 by lia. destruct x as [|[|[|x]]]; words.
Qed.

Lemma parts_value h : huge_ok h ->
  parts h 0 * 2 ^ 96 + parts h 1 * 2 ^ 64 + parts h 2 * 2 ^ 32 + parts h 3 = value h mod 2 ^ 128.
Proof. intros Hh. unfold parts. rewrite !low32_mod, !Z.shiftr_div_pow2 by lia. words. Qed.

Lemma products_bounds g h : huge_ok g -> huge_ok h -> forall x y,
  products g h x y = parts g x * parts h y /\ 0 <= products g h x y <= (2 ^ 32 - 1) * (2 ^ 32 - 1).
Proof.
  intros Hg Hh x y. pose proof (parts_bounds g x Hg). pose proof (parts_bounds h y Hh). unfold products.
  assert (0 <= parts g x * parts h y <= (2 ^ 32 - 1) * (2 ^ 32 - 1)) by nia.
  rewrite wrapu_small; [done|]. unfold in_u. numbers. lia.
Qed.

(** The product of two values is the sum of the products of their parts. *)
Lemma products_sum g h : huge_ok g -> huge_ok h -> let p := products g h in
  (value g mod 2 ^ 128) * (value h mod 2 ^ 128) =
  at2 p 0 0 * 2 ^ 192 + (at2 p 0 1 + at2 p 1 0) * 2 ^ 160 + (at2 p 0 2 + at2 p 1 1 + at2 p 2 0) * 2 ^ 128 +
  (at2 p 0 3 + at2 p 1 2 + at2 p 2 1 + at2 p 3 0) * 2 ^ 96 + (at2 p 1 3 + at2 p 2 2 + at2 p 3 1) * 2 ^ 64 +
  (at2 p 2 3 + at2 p 3 2) * 2 ^ 32 + at2 p 3 3.
Proof.
  intros Hg Hh p. rewrite <- !parts_value by done. unfold p. rewrite !(proj1 (products_bounds g h Hg Hh _ _)). ring.
Qed.

Lemma lor_shiftl n a b : 0 <= n -> 0 <= a -> in_u n b -> Z.lor (Z.shiftl a n) b = a * 2 ^ n + b.
Proof.
  intros Hn Ha Hb. assert (Z.land (Z.shiftl a n) b = 0) as Hland.
  { apply Z.bits_inj'. intros i Hi. rewrite Z.land_spec, Z.bits_0.
    destruct (Z.lt_ge_cases i n); [by rewrite Z.shiftl_spec_low|]. by rewrite (testbit_u_high n b), andb_false_r. }
  rewrite <- Z.shiftl_mul_pow2 by done. pose proof (Z.add_lor_land (Z.shiftl a n) b). lia.
Qed.

(** A word put together from its parts. *)
Lemma joined_parts a b : 0 <= a < 2 ^ 32 -> 0 <= b < 2 ^ 32 ->
  Z.lor (shl64 a 32) b = a * 2 ^ 32 + b /\ shl64 a 32 + b = a * 2 ^ 32 + b.
Proof.
  intros Ha Hb. unfold shl64. rewrite wrapu_small by (rewrite Z.shiftl_mul_pow2 by lia; words).
  rewrite lor_shiftl by (done || lia). by rewrite Z.shiftl_mul_pow2.
Qed.

Lemma low32_bounds x : 0 <= low32 x < 2 ^ 32.
Proof. rewrite low32_mod. words. Qed.

Lemma multiply_unchecked_wrapped `{Platform} g h : huge_ok g -> huge_ok h ->
  HugeintMultiplyUnchecked g h = wrapped (value g * value h).
Proof.
  intros Hg Hh. unfold HugeintMultiplyUnchecked.
  assert (Hmod : (value g * value h) mod 2 ^ 128 = ((value g mod 2 ^ 128) * (value h mod 2 ^ 128)) mod 2 ^ 128) by (by rewrite <- Zmult_mod).
  destruct HasInt128.
  - assert (Hwide : forall h, huge_ok h -> to_uint128 h = value h mod 2 ^ 128).
    { clear. intros h Hh. unfold to_uint128. rewrite wrapu_small by (rewrite Z.shiftl_mul_pow2 by lia; words).
      rewrite lor_shiftl by words. words. }
    rewrite !Hwide by done. revert Hmod. generalize (value g * value h) (value g mod 2 ^ 128 * (value h mod 2 ^ 128)).
    intros m n Hmod. rewrite i64_u64, Z.shiftr_div_pow2 by lia. apply words_wrapped. words.
  - pose proof (products_sum g h Hg Hh) as Hsum. cbv zeta in Hsum.
    pose proof (merge_products_sum (products g h) (fun x y => proj2 (products_bounds g h Hg Hh x y))) as Hmerge.
    destruct (merge_products (products g h)) as [[[f1 f2] f3] f4]. cbv zeta in Hmerge. destruct Hmerge as (H1 & H2 & H3 & H4 & Heq).
    rewrite (proj2 (joined_parts (low32 f1) (low32 f2) (low32_bounds _) (low32_bounds _))).
    rewrite (proj2 (joined_parts (low32 f3) (low32 f4) (low32_bounds _) (low32_bounds _))).
    rewrite Hsum in Hmod. clear Hsum. revert Hmod. rewrite !low32_mod in *.
    generalize (value g * value h). intros m Hmod. rewrite i64_u64. apply words_wrapped. clear Hg Hh. words.
Qed.

Lemma multiply_int128_exact g h : huge_ok g -> huge_ok h -> 0 <= value g -> 0 <= value h ->
  multiply_int128 g h = if value g * value h <? 2 ^ 127 then Some (of_value (value g * value h)) else None.
Proof.
  intros Hg Hh Hg0 Hh0. unfold multiply_int128. rewrite !Z.shiftl_mul_pow2, Z.shiftr_div_pow2 by lia.
  replace (u128 (lower g + u128 (upper g * 2 ^ 64))) with (value g) by words.
  replace (u128 (lower h + u128 (upper h * 2 ^ 64))) with (value h) by words.
  assert (0 <= value g * value h) by nia. set (m := value g * value h) in *. clearbody m.
  rewrite Z.gtb_ltb. destruct (Z.ltb_spec (2 ^ 128 - 1) m); [destruct (Z.ltb_spec m (2 ^ 127)); [words|done]|].
  change 9223372036854775808 with (2 ^ 64 - 2 ^ 63). rewrite (high_bits_clear 64 63) by words.
  destruct (Z.ltb_spec (u64 (m / 2 ^ 64)) (2 ^ 63)), (Z.ltb_spec m (2 ^ 127)); cbn [negb]; [|words..|done].
  f_equal. unfold of_value. f_equal; [words|]. unfold u64_max. change 18446744073709551615 with (Z.ones 64). by rewrite Z.land_ones.
Qed.

Lemma multiply_parts_exact g h : huge_ok g -> huge_ok h -> 0 <= value g -> 0 <= value h ->
  multiply_parts g h = if value g * value h <? 2 ^ 127 then Some (of_value (value g * value h)) else None.
Proof.
  intros Hg Hh Hg0 Hh0. pose proof (products_sum g h Hg Hh) as Hsum. cbv zeta in Hsum.
  rewrite !Z.mod_small in Hsum by words.
  assert (Hp : forall x y, 0 <= products g h x y <= (2 ^ 32 - 1) * (2 ^ 32 - 1)) by (intros; by apply products_bounds).
  pose proof (merge_products_sum (products g h) Hp) as Hmerge. unfold multiply_parts. cbv zeta.
  revert Hsum Hp Hmerge. generalize (products g h) (value g * value h). clear. intros p m Hsum Hp Hmerge.
  change 18446744071562067968 with (2 ^ 64 - 2 ^ 31). change 72057591890444288 with (2 ^ 56 - 2 ^ 31).
  rewrite !(high_bits_clear 64 31) by (first [lia|split; [apply Hp|eapply Z.le_lt_trans; [apply Hp|by vm_compute]]]).
  destruct (merge_products p) as [[[f1 f2] f3] f4]. cbv zeta in Hmerge. destruct Hmerge as (H1 & H2 & H3 & H4 & Heq).
  repeat match type of Hsum with context [p ?x ?y] =>
    lazymatch goal with _ : 0 <= p x y <= _ |- _ => fail | _ => pose proof (Hp x y) end end.
  clear Hp.
  destruct (_ || negb (at2 p 1 1 =? 0)) eqn:Hzero.
  { rewrite !orb_true_iff, !negb_true_iff, !Z.eqb_neq in Hzero. destruct (Z.ltb_spec m (2 ^ 127)); [words|done]. }
  destruct (_ || negb (at2 p 3 0 <? 2 ^ 31)) eqn:Hhigh.
  { rewrite !orb_true_iff, !negb_true_iff, !Z.ltb_ge in Hhigh. destruct (Z.ltb_spec m (2 ^ 127)); [words|done]. }
  rewrite !orb_false_iff, !negb_false_iff in Hzero, Hhigh. rewrite !Z.eqb_eq in Hzero. rewrite !Z.ltb_lt in Hhigh.
  rewrite (high_bits_clear 56 31) by words.
  assert (Hm : f1 * 2 ^ 96 + low32 f2 * 2 ^ 64 + low32 f3 * 2 ^ 32 + f4 = m).
  { rewrite !Z.div_small in Heq by words. lia. }
  clear Heq Hsum. rewrite (proj1 (joined_parts (low32 f1) (low32 f2) (low32_bounds _) (low32_bounds _))).
  rewrite (proj1 (joined_parts (low32 f3) (low32 f4) (low32_bounds _) (low32_bounds _))). rewrite !low32_mod in *.
  destruct (Z.ltb_spec f1 (2 ^ 31)), (Z.ltb_spec m (2 ^ 127)); cbn [negb]; [|words..|done].
  f_equal. unfold of_value. f_equal; words.
Qed.

Lemma minimum_ok : huge_ok HugeintMinimum /\ value HugeintMinimum = - 2 ^ 127.
Proof. split; [split; by vm_compute|by vm_compute]. Qed.

Lemma equals_minimum h : huge_ok h -> HugeintEquals h HugeintMinimum = (value h =? - 2 ^ 127).
Proof. intros. destruct minimum_ok as [Hok <-]. by apply equals_value. Qed.

Lemma equals_of h z : huge_ok h -> in_s 64 z -> HugeintEquals h (hugeint_of z) = (value h =? z).
Proof. intros. rewrite equals_value by (done || by apply hugeint_of_ok). by rewrite value_hugeint_of. Qed.

(** What [TryMultiply] returns: the product if it is in range, except that it does not produce the minimum
    from two other values. *)
Definition multiplied (v w : Z) : option hugeint_t :=
  if (v * w =? - 2 ^ 127) && negb (v =? - 2 ^ 127) && negb (w =? - 2 ^ 127) then None else exact (v * w).

(** The operand without its sign. *)
Lemma magnitude h : huge_ok h -> value h <> - 2 ^ 127 ->
  (if upper h <? 0 then TryNegate h else mret (Some h)) = mret (Some (of_value (Z.abs (value h)))) /\
  in_s 128 (Z.abs (value h)) /\ (upper h <? 0) = (value h <? 0).
Proof.
  intros Hh Hmin. pose proof (value_range h Hh). assert ((upper h <? 0) = (value h <? 0)) as ->.
  { destruct (Z.ltb_spec (upper h) 0), (Z.ltb_spec (value h) 0); [done|words|words|done]. }
  destruct (Z.ltb_spec (value h) 0).
  - rewrite try_negate_exact, exact_some by (done || words). rewrite Z.abs_neq by lia. split_and!; [done|words|done].
  - rewrite Z.abs_eq by lia. rewrite of_value_value by done. done.
Qed.

(** The minimum can only be multiplied by zero and one. *)
Lemma minimum_times w : exact (- 2 ^ 127 * w) =
  if w =? 0 then Some (hugeint_of 0) else if w =? 1 then Some HugeintMinimum else None.
Proof.
  destruct (Z.eqb_spec w 0) as [->|]; [done|]. destruct (Z.eqb_spec w 1) as [->|]; [done|].
  apply exact_none. numbers. lia.
Qed.

Lemma try_multiply_exact `{Platform} g h : huge_ok g -> huge_ok h -> TryMultiply g h = mret (multiplied (value g) (value h)).
Proof.
  intros Hg Hh. unfold TryMultiply. rewrite !equals_minimum, !equals_of by done.
  pose proof (value_range g Hg) as Hrg. pose proof (value_range h Hh) as Hrh.
  destruct (Z.eqb_spec (value g) (- 2 ^ 127)) as [Eg|Eg], (Z.eqb_spec (value h) (- 2 ^ 127)) as [Eh|Eh]; cbn [orb].
  - unfold multiplied. by rewrite Eg, Eh.
  - unfold multiplied. rewrite Eg, Z.eqb_refl, andb_false_r, minimum_times. cbn [andb]. by destruct (value h =? 0), (value h =? 1).
  - unfold multiplied. rewrite Eh, Z.eqb_refl, andb_false_r, Z.mul_comm, minimum_times. by destruct (value g =? 0), (value g =? 1).
  - destruct (magnitude g Hg Eg) as (-> & Hag & ->), (magnitude h Hh Eh) as (-> & Hah & ->). cbn [mbind checked_bind mret checked_ret].
    assert ((if HasInt128 then multiply_int128 (of_value (Z.abs (value g))) (of_value (Z.abs (value h)))
      else multiply_parts (of_value (Z.abs (value g))) (of_value (Z.abs (value h)))) =
      if Z.abs (value g) * Z.abs (value h) <? 2 ^ 127 then Some (of_value (Z.abs (value g) * Z.abs (value h))) else None) as ->.
    { destruct HasInt128; rewrite ?multiply_int128_exact, ?multiply_parts_exact, ?value_of_value; auto with duckdb; rewrite value_of_value; lia. }
    unfold multiplied. destruct (Z.eqb_spec (value g) (- 2 ^ 127)); [done|]. destruct (Z.eqb_spec (value h) (- 2 ^ 127)); [done|].
    rewrite andb_true_r, andb_true_r.
    assert (Hsign : Z.abs (value g) * Z.abs (value h) = if xorb (value g <? 0) (value h <? 0) then - (value g * value h) else value g * value h).
    { destruct (Z.ltb_spec (value g) 0), (Z.ltb_spec (value h) 0); cbn [xorb]; lia. }
    rewrite Hsign. assert (0 <= Z.abs (value g) * Z.abs (value h)) as Hpos by lia. rewrite Hsign in Hpos. clear Hsign.
    generalize dependent (value g * value h). intros m Hpos.
    destruct (xorb _ _), (Z.eqb_spec m (- 2 ^ 127)) as [->|]; cbn [negb andb]; [done| |numbers; lia|].
    + destruct (Z.ltb_spec (- m) (2 ^ 127)); [|by rewrite exact_none by lia].
      rewrite negate_in_place; rewrite ?value_of_value; [|apply of_value_ok; words|words].
      cbn [mbind checked_bind]. rewrite exact_some by words. by rewrite Z.opp_involutive.
    + destruct (Z.ltb_spec m (2 ^ 127)); [|by rewrite exact_none by lia]. cbn [mbind checked_bind mret checked_ret]. by rewrite exact_some by words.
Qed.
