(* ===== verification/HugeintDivisionFacts.v ===== *)
(** * Signed 128-bit integers: division, text, conversions and bits *)

From stdpp Require Import pretty.
From Stdlib Require Import Ascii.
From S2P Require Import Prelude Hugeint HugeintFacts.

Local Open Scope Z_scope.

(** ** Bits of a value *)

Lemma value_testbit h i : huge_ok h -> 0 <= i ->
  Z.testbit (value h) i = if i <? 64 then Z.testbit (lower h) i else Z.testbit (upper h) (i - 64).
Proof.
  intros Hh Hi. destruct (Z.ltb_spec i 64).
  - rewrite <- (Z.mod_pow2_bits_low (value h) 64) by lia. f_equal. words.
  - assert (upper h = value h / 2 ^ 64) as -> by words. rewrite Z.div_pow2_bits by lia. f_equal. lia.
Qed.

Lemma count_bits_spec fuel x out : in_u (Z.of_nat fuel) x ->
  exists n, count_bits fuel x out = mret (out + n)%nat /\ x < 2 ^ Z.of_nat n /\ (n <= fuel)%nat.
Proof.
  revert x out. induction fuel as [|fuel IH]; intros x out Hx; cbn [count_bits].
  - unfold in_u in Hx. cbn in Hx. destruct (Z.eqb_spec x 0); [|lia]. exists 0%nat. rewrite Nat.add_0_r. cbn. split_and!; [done|lia|lia].
  - destruct (Z.eqb_spec x 0) as [->|Hne]; [exists 0%nat; rewrite Nat.add_0_r; cbn; split_and!; [done|lia|lia]|].
    destruct (IH (Z.shiftr x 1) (S out)) as (n & -> & Hn & Hle).
    { unfold in_u in *. rewrite Z.shiftr_div_pow2 by lia. rewrite Nat2Z.inj_succ, Z.pow_succ_r in Hx by lia. words. }
    exists (S n). split_and!; [f_equal; lia| |lia]. rewrite Z.shiftr_div_pow2 in Hn by lia.
    rewrite Nat2Z.inj_succ, Z.pow_succ_r by lia. words.
Qed.

Lemma highest_bit_spec h : huge_ok h -> 0 <= value h -> exists n, HugeintHighestBit h = mret n /\ value h < 2 ^ Z.of_nat n /\ (n <= 128)%nat.
Proof.
  intros Hh H0. unfold HugeintHighestBit. destruct (Z.eqb_spec (upper h) 0) as [E|E]; cbn [negb].
  - destruct (count_bits_spec 64 (lower h) 0) as (n & -> & Hn & Hle); [apply Hh|]. exists n. split_and!; [done| |lia]. words.
  - destruct (count_bits_spec 64 (u64 (upper h)) 64) as (n & -> & Hn & Hle); [by apply wrapu_range|].
    exists (64 + n)%nat. split_and!; [done| |lia]. rewrite Nat2Z.inj_add, Z.pow_add_r by lia. change (Z.of_nat 64) with 64.
    assert (u64 (upper h) = upper h) as Hu by words. rewrite Hu in Hn.
    assert (value h < (upper h + 1) * 2 ^ 64) by words. assert ((upper h + 1) * 2 ^ 64 <= 2 ^ Z.of_nat n * 2 ^ 64) by nia. lia.
Qed.

Lemma is_bit_set_testbit h k : huge_ok h -> 0 <= value h -> (k < 128)%nat -> HugeintIsBitSet h k = Z.testbit (value h) (Z.of_nat k).
Proof.
  intros Hh H0 Hk. unfold HugeintIsBitSet. rewrite value_testbit by (done || lia).
  assert (Hone : forall i, 0 <= i < 64 -> shl64 1 i = 2 ^ i).
  { intros i Hi. unfold shl64. rewrite Z.shiftl_1_l. apply wrapu_small. split; [lia|]. apply Z.pow_lt_mono_r; lia. }
  destruct (Nat.ltb_spec k 64), (Z.ltb_spec (Z.of_nat k) 64); try lia.
  - by rewrite Hone, land_pow2_testbit by lia.
  - rewrite Hone, land_pow2_testbit by lia. f_equal. words.
Qed.

Lemma left_shift_wrapped h : huge_ok h -> HugeintLeftShift h 1 = wrapped (2 * value h).
Proof.
  intros Hh. unfold HugeintLeftShift, shl64. rewrite !Z.shiftl_mul_pow2, Z.shiftr_div_pow2 by lia.
  change (64 - 1) with 63. wrap.
Qed.

Lemma increment_value h : huge_ok h -> in_s 128 (value h + 1) -> increment h = mret (of_value (value h + 1)).
Proof.
  intros Hh Hr. unfold increment. destruct (Z.eqb_spec (u64 (lower h + 1)) 0).
  - rewrite s64_ok by words. cbn [mbind checked_bind mret checked_ret]. unfold of_value. do 3 f_equal; words.
  - cbn [mbind checked_bind mret checked_ret]. unfold of_value. do 3 f_equal; words.
Qed.

(** The next bit of a number, from the highest to the lowest. *)
Lemma next_bit v x : 0 <= v -> v / 2 ^ Z.of_nat x = 2 * (v / 2 ^ Z.of_nat (S x)) + Z.b2z (Z.testbit v (Z.of_nat x)).
Proof.
  intros Hv. rewrite Z.testbit_spec' by lia. assert (0 < 2 ^ Z.of_nat x) by (apply Z.pow_pos_nonneg; lia).
  rewrite Nat2Z.inj_succ, Z.pow_succ_r by lia. rewrite (Z.mul_comm 2 (2 ^ _)), <- Z.div_div by lia. words.
Qed.

Lemma shifted_le v x : 0 <= v -> 0 <= v / 2 ^ Z.of_nat x <= v.
Proof.
  intros Hv. assert (0 < 2 ^ Z.of_nat x) by (apply Z.pow_pos_nonneg; lia).
  split; [by apply Z.div_pos|]. apply Z.div_le_upper_bound; [lia|]. nia.
Qed.

(** ** Division *)

(** The quotient and the remainder of the bits of [v] above [x], one bit further. *)
Lemma next_bit_division b v w q r x : 0 <= v < b -> 0 <= r < w -> 0 <= q -> q * w + r = v / 2 ^ Z.of_nat (S x) ->
  let r2 := 2 * r + Z.b2z (Z.testbit v (Z.of_nat x)) in
  0 <= r2 < b /\ 2 * q * w + r2 = v / 2 ^ Z.of_nat x /\ 0 <= 2 * q < b /\ (w <= r2 -> 2 * q + 1 < b) /\ r2 < 2 * w.
Proof.
  intros Hv Hr Hq Heq r2. pose proof (next_bit v x (proj1 Hv)) as Hnext. rewrite <- Heq in Hnext.
  pose proof (shifted_le v x (proj1 Hv)) as Hle. assert (0 <= Z.b2z (Z.testbit v (Z.of_nat x)) <= 1) by (destruct (Z.testbit _ _); cbn; lia).
  assert (2 * q * w + r2 = v / 2 ^ Z.of_nat x) as E by (unfold r2; lia).
  assert (0 <= r2 /\ r2 < 2 * w) by (unfold r2; lia). clearbody r2. split_and!; [lia|nia|done|lia|nia|nia|lia].
Qed.

(** Doubling a number and adding the next bit. *)
Lemma next_bit_remainder lhs r x : huge_ok lhs -> 0 <= value lhs -> (x < 128)%nat -> 0 <= r ->
  let r2 := 2 * r + Z.b2z (Z.testbit (value lhs) (Z.of_nat x)) in r2 < 2 ^ 127 ->
  (if HugeintIsBitSet lhs x then increment (HugeintLeftShift (of_value r) 1) else mret (HugeintLeftShift (of_value r) 1)) = mret (of_value r2).
Proof.
  intros Hl H0 Hx Hr r2 Hr2. rewrite is_bit_set_testbit by done. unfold r2 in *. clear r2.
  assert (huge_ok (of_value r)) as Hok by (apply of_value_ok; destruct (Z.testbit _ _); cbn in *; words).
  rewrite left_shift_wrapped, value_of_value by done. destruct (Z.testbit _ _); cbn [Z.b2z] in *.
  - rewrite wrapped_small by words. rewrite increment_value; rewrite ?value_of_value; [done|apply of_value_ok|]; words.
  - rewrite Z.add_0_r, wrapped_small by words. done.
Qed.

Lemma divmod_loop_spec lhs rhs x q r : huge_ok lhs -> huge_ok rhs -> 0 <= value lhs -> 0 < value rhs -> (x <= 128)%nat ->
  0 <= q -> 0 <= r < value rhs -> q * value rhs + r = value lhs / 2 ^ Z.of_nat x ->
  divmod_loop x lhs rhs (of_value q) (of_value r) = mret (of_value (value lhs / value rhs), of_value (value lhs mod value rhs)).
Proof.
  intros Hl Hr Hl0 Hr0. revert q r. induction x as [|x IH]; intros q r Hx Hq Hrem Heq; cbn [divmod_loop].
  { cbn in Heq. rewrite Z.div_1_r in Heq. do 3 f_equal; [apply (Z.div_unique _ _ q r)|apply (Z.mod_unique _ _ q r)]; lia. }
  destruct (next_bit_division (2 ^ 127) (value lhs) (value rhs) q r x) as (Hr2 & Heq2 & Hq2 & Hq3 & Hlt); [words|done|done|done|].
  rewrite next_bit_remainder by (done || lia). cbn [mbind checked_bind mret checked_ret].
  set (r2 := 2 * r + _) in *. assert (huge_ok (of_value r2)) as Hok2 by (apply of_value_ok; words).
  rewrite left_shift_wrapped by (apply of_value_ok; words). rewrite value_of_value, wrapped_small by words.
  rewrite greater_equal_value, value_of_value by done. destruct (Z.leb_spec (value rhs) r2) as [Hle|Hgt].
  - assert (lower (of_value r2) = r2 mod 2 ^ 64 /\ upper (of_value r2) = r2 / 2 ^ 64) as [Hlow Hup] by done.
    etrans; [apply s64_bind; destruct (Z.ltb_spec (lower (of_value r2)) (lower rhs)); words|]. cbv beta.
    etrans; [apply s64_bind; destruct (Z.ltb_spec (lower (of_value r2)) (lower rhs)); words|]. cbv beta.
    rewrite increment_value; rewrite ?value_of_value; [|apply of_value_ok; words|words]. cbn [mbind checked_bind mret checked_ret].
    replace (mkHuge _ _) with (of_value (r2 - value rhs)); [apply IH; lia|].
    unfold of_value at 1. f_equal; destruct (Z.ltb_spec (lower (of_value r2)) (lower rhs)); words.
  - apply IH; lia.
Qed.

(** Truncated division by sign and magnitude. *)
Lemma quot_signed v w : w <> 0 -> Z.quot v w = if xorb (v <? 0) (w <? 0) then - (Z.abs v / Z.abs w) else Z.abs v / Z.abs w.
Proof.
  intros Hw. rewrite <- Z.quot_div_nonneg by lia. pose proof (Z.quot_opp_l (- v) w). pose proof (Z.quot_opp_r v (- w)).
  pose proof (Z.quot_opp_opp (- v) (- w)). rewrite ?Z.opp_involutive in *.
  destruct (Z.ltb_spec v 0), (Z.ltb_spec w 0); cbn [xorb]; rewrite ?(Z.abs_eq v), ?(Z.abs_eq w), ?(Z.abs_neq v), ?(Z.abs_neq w) by lia; lia.
Qed.

Lemma rem_signed v w : w <> 0 -> Z.rem v w = if v <? 0 then - (Z.abs v mod Z.abs w) else Z.abs v mod Z.abs w.
Proof.
  intros Hw. rewrite <- Z.rem_mod_nonneg by lia. destruct (Z.ltb_spec v 0).
  - rewrite (Z.abs_neq v), Z.rem_opp_l, Z.opp_involutive by lia. destruct (Z.abs_spec w) as [[_ ->]|[_ ->]]; [done|]. by rewrite Z.rem_opp_r.
  - rewrite (Z.abs_eq v) by lia. destruct (Z.abs_spec w) as [[_ ->]|[_ ->]]; [done|]. by rewrite Z.rem_opp_r.
Qed.

Lemma abs_value h : huge_ok h -> value h <> - 2 ^ 127 -> (upper h <? 0) = (value h <? 0) /\
  let a := if value h <? 0 then HugeintNegate h else h in huge_ok a /\ value a = Z.abs (value h).
Proof.
  intros Hh Hmin. assert ((upper h <? 0) = (value h <? 0)) as Hsign.
  { destruct (Z.ltb_spec (upper h) 0), (Z.ltb_spec (value h) 0); [done|words|words|done]. }
  split; [done|]. intros a. pose proof (abs_wrapped h Hh) as Habs. unfold HugeintAbs in Habs. rewrite Hsign in Habs. fold a in Habs.
  assert (in_s 128 (Z.abs (value h))) by (pose proof (value_range h Hh); words).
  rewrite Habs. split; [apply wrapped_ok|by apply value_wrapped].
Qed.

(** Negating a result of the division. *)
Lemma negate_result z : - 2 ^ 127 < z < 2 ^ 127 -> HugeintNegate (of_value z) = of_value (- z).
Proof. intros. rewrite negate_wrapped, value_of_value, wrapped_small; [done|words|apply of_value_ok; words]. Qed.

(** Two values neither of which is the minimum. *)
Lemma divmod_plain fuel g h : huge_ok g -> huge_ok h -> value g <> - 2 ^ 127 -> value h <> - 2 ^ 127 -> value h <> 0 ->
  divmod_depth (S fuel) g h = mret (mkDivMod (of_value (Z.quot (value g) (value h))) (of_value (Z.rem (value g) (value h)))).
Proof.
  intros Hg Hh Eg Eh Hz. cbn [divmod_depth]. rewrite equals_of, !equals_minimum by done.
  destruct (Z.eqb_spec (value h) 0); [done|]. destruct (Z.eqb_spec (value g) (- 2 ^ 127)); [done|].
  destruct (Z.eqb_spec (value h) (- 2 ^ 127)); [done|]. cbn [orb]. pose proof (value_range g Hg) as Hrg. pose proof (value_range h Hh) as Hrh.
  destruct (abs_value g Hg Eg) as (-> & Hga & Hgv). destruct (abs_value h Hh Eh) as (-> & Hha & Hhv).
  rewrite quot_signed, rem_signed by done. rewrite <- Hgv, <- Hhv.
  set (a := if value g <? 0 then HugeintNegate g else g) in *. set (b := if value h <? 0 then HugeintNegate h else h) in *.
  destruct (highest_bit_spec a) as (k & -> & Hn & Hle); [done|lia|]. cbn [mbind checked_bind mret checked_ret].
  change (mkHuge 0 0) with (of_value 0). rewrite divmod_loop_spec by (done || lia || by rewrite Z.div_small by lia).
  cbn [mbind checked_bind mret checked_ret].
  assert (0 <= value a / value b <= value a /\ 0 <= value a mod value b < value b) as [Hq Hr].
  { split; [|apply Z.mod_pos_bound; lia]. split; [apply Z.div_pos; lia|]. apply Z.div_le_upper_bound; [lia|]. nia. }
  do 3 f_equal; [destruct (xorb _ _)|destruct (value g <? 0)]; try done; apply negate_result; words.
Qed.

(** The quotient and the remainder when the dividend is the minimum. *)
Lemma minimum_division w : w <> 0 -> - 2 ^ 127 < w < 2 ^ 127 ->
  let q := Z.quot (- 2 ^ 127 + 1) w in let r := Z.rem (- 2 ^ 127 + 1) w in - 2 ^ 127 < r <= 0 /\ - 2 ^ 127 < q < 2 ^ 127 /\
  if Z.abs r + 1 =? Z.abs w then Z.quot (- 2 ^ 127) w = (if 0 <? w then q - 1 else q + 1) /\ Z.rem (- 2 ^ 127) w = 0
  else Z.quot (- 2 ^ 127) w = q /\ Z.rem (- 2 ^ 127) w = r - 1.
Proof.
  intros Hw Hr. cbv zeta. rewrite !quot_signed, !rem_signed by done.
  change (- 2 ^ 127 + 1 <? 0) with true. change (- 2 ^ 127 <? 0) with true. change (Z.abs (- 2 ^ 127 + 1)) with (2 ^ 127 - 1).
  change (Z.abs (- 2 ^ 127)) with (2 ^ 127). assert (Hd : 0 < Z.abs w < 2 ^ 127) by lia.
  assert (Hsign : (w <? 0) = negb (0 <? w)) by (destruct (Z.ltb_spec w 0), (Z.ltb_spec 0 w); cbn; lia || done). rewrite Hsign.
  generalize dependent (Z.abs w). intros d Hd.
  pose proof (Z.div_mod (2 ^ 127 - 1) d ltac:(lia)) as Hdm. pose proof (Z.mod_pos_bound (2 ^ 127 - 1) d ltac:(lia)) as Hmod.
  set (q := (2 ^ 127 - 1) / d) in *. set (r := (2 ^ 127 - 1) mod d) in *.
  assert (0 <= q <= 2 ^ 127 - 1) by nia. rewrite Z.abs_opp, (Z.abs_eq r) by lia.
  split; [lia|]. split; [destruct (0 <? w); cbn [negb xorb]; lia|].
  destruct (Z.eqb_spec (r + 1) d).
  - assert (2 ^ 127 / d = q + 1) as -> by (symmetry; apply Z.div_unique with 0; lia).
    assert (2 ^ 127 mod d = 0) as -> by (symmetry; apply Z.mod_unique with (q + 1); lia).
    destruct (0 <? w); cbn [negb xorb]; lia.
  - assert (2 ^ 127 / d = q) as -> by (symmetry; apply Z.div_unique with (r + 1); lia).
    assert (2 ^ 127 mod d = r + 1) as -> by (symmetry; apply Z.mod_unique with q; lia).
    destruct (0 <? w); cbn [negb xorb]; lia.
Qed.

Lemma minimum_words h : huge_ok h -> (upper h =? i64_min) && (lower h =? 0) = (value h =? - 2 ^ 127).
Proof.
  intros Hh. rewrite <- equals_minimum by done. done.
Qed.

(** The minimum divided by a value that is neither zero nor the minimum. *)
Lemma divmod_minimum g h fuel : huge_ok g -> huge_ok h -> value g = - 2 ^ 127 -> value h <> 0 -> value h <> - 2 ^ 127 ->
  HugeintDivModMinimum (divmod_depth (S fuel)) g h =
  mret (mkDivMod (wrapped (Z.quot (- 2 ^ 127) (value h))) (of_value (Z.rem (- 2 ^ 127) (value h)))).
Proof.
  intros Hg Hh Eg Hz Eh. pose proof (value_range h Hh) as Hrh. unfold HugeintDivModMinimum. rewrite minimum_words by done.
  destruct (Z.eqb_spec (value h) (- 2 ^ 127)); [done|]. rewrite add_one_wrapped, Eg by done. rewrite wrapped_small by words.
  rewrite divmod_plain; rewrite ?value_of_value; [|apply of_value_ok; words|done|words|done|done].
  cbn [mbind checked_bind mret checked_ret quotient remainder].
  destruct (minimum_division (value h)) as (Hr & Hq & Hres); [done|words|].
  set (q := Z.quot (- 2 ^ 127 + 1) (value h)) in *. set (r := Z.rem (- 2 ^ 127 + 1) (value h)) in *.
  assert (huge_ok (of_value r) /\ huge_ok (of_value q)) as [Hokr Hokq] by (split; apply of_value_ok; words).
  rewrite (abs_wrapped (of_value r)), value_of_value, (wrapped_small (Z.abs r)) by (done || words).
  rewrite add_one_wrapped, value_of_value by (apply of_value_ok; words). rewrite wrapped_small by words.
  rewrite abs_wrapped, wrapped_small by (done || words). rewrite equals_value, !value_of_value by (apply of_value_ok; words).
  destruct (Z.abs r + 1 =? Z.abs (value h)); destruct Hres as [-> ->].
  - rewrite sign_value, Z.gtb_ltb by done.
    assert ((0 <? Z.sgn (value h)) = (0 <? value h)) as -> by (destruct (Z.ltb_spec 0 (Z.sgn (value h))), (Z.ltb_spec 0 (value h)); done || lia).
    rewrite subtract_one_wrapped, add_one_wrapped, value_of_value by done. by destruct (0 <? value h).
  - rewrite subtract_one_wrapped, value_of_value by done. rewrite (wrapped_small q), (wrapped_small (r - 1)) by words. done.
Qed.

(** Division by anything but zero is truncated; the only quotient that is out of range wraps around. *)
Lemma divmod_exact g h : huge_ok g -> huge_ok h -> value h <> 0 ->
  HugeintDivMod g h = mret (mkDivMod (wrapped (Z.quot (value g) (value h))) (of_value (Z.rem (value g) (value h)))).
Proof.
  intros Hg Hh Hz. pose proof (value_range g Hg) as Hrg. pose proof (value_range h Hh) as Hrh. unfold HugeintDivMod.
  assert (Hstep : value g = - 2 ^ 127 \/ value h = - 2 ^ 127 -> divmod_depth 2 g h = HugeintDivModMinimum (divmod_depth 1) g h).
  { intros Hor. cbn [divmod_depth]. rewrite equals_of, !equals_minimum by done. destruct (Z.eqb_spec (value h) 0); [done|].
    destruct Hor as [-> | ->]; by rewrite Z.eqb_refl, ?orb_true_r. }
  destruct (Z.eq_dec (value h) (- 2 ^ 127)) as [Eh|Eh].
  { rewrite Hstep by auto. unfold HugeintDivModMinimum. rewrite !minimum_words, Eh, Z.eqb_refl by done.
    destruct (Z.eqb_spec (value g) (- 2 ^ 127)) as [-> |Eg]; [done|].
    assert (Z.quot (value g) (- 2 ^ 127) = 0) as ->.
    { rewrite quot_signed, Z.div_small by (done || words). by destruct (xorb _ _). }
    assert (Z.rem (value g) (- 2 ^ 127) = value g) as ->.
    { rewrite rem_signed, Z.mod_small by (done || words). destruct (Z.ltb_spec (value g) 0); lia. }
    by rewrite of_value_value. }
  destruct (Z.eq_dec (value g) (- 2 ^ 127)) as [Eg|Eg].
  { rewrite Hstep by auto. by rewrite divmod_minimum, Eg. }
  rewrite divmod_plain by done. do 2 f_equal. symmetry. apply wrapped_small. rewrite quot_signed by done.
  assert (0 <= Z.abs (value g) / Z.abs (value h) <= Z.abs (value g)) by (split; [apply Z.div_pos; lia|apply Z.div_le_upper_bound; [lia|nia]]).
  destruct (xorb _ _); words.
Qed.

(** ** Division by a word, and text *)

Lemma divmod_positive_loop_spec lhs w x q r : huge_ok lhs -> 0 <= value lhs -> 0 < w <= 2 ^ 63 -> (x <= 128)%nat ->
  0 <= q -> 0 <= r < w -> q * w + r = value lhs / 2 ^ Z.of_nat x ->
  divmod_positive_loop x lhs w (of_value q) r = mret (of_value (value lhs / w), value lhs mod w).
Proof.
  intros Hl Hl0 Hw. revert q r. induction x as [|x IH]; intros q r Hx Hq Hrem Heq; cbn [divmod_positive_loop].
  { cbn in Heq. rewrite Z.div_1_r in Heq. do 2 f_equal; [f_equal; apply (Z.div_unique _ _ q r)|apply (Z.mod_unique _ _ q r)]; lia. }
  destruct (next_bit_division (2 ^ 127) (value lhs) w q r x) as (Hr2 & Heq2 & Hq2 & Hq3 & Hlt); [words|done|done|done|].
  rewrite is_bit_set_testbit by (done || lia).
  assert ((if Z.testbit (value lhs) (Z.of_nat x) then u64 (shl64 r 1 + 1) else shl64 r 1) =
    2 * r + Z.b2z (Z.testbit (value lhs) (Z.of_nat x))) as ->.
  { unfold shl64. rewrite Z.shiftl_mul_pow2 by lia. destruct (Z.testbit _ _); cbn [Z.b2z]; words. }
  set (r2 := 2 * r + _) in *. rewrite left_shift_wrapped by (apply of_value_ok; words). rewrite value_of_value, wrapped_small by words.
  rewrite Z.geb_leb. destruct (Z.leb_spec w r2); [|apply IH; lia].
  rewrite increment_value; rewrite ?value_of_value; [|apply of_value_ok; words|words]. cbn [mbind checked_bind mret checked_ret].
  rewrite wrapu_small by words. apply IH; lia.
Qed.

(** The divisor may not use the highest bit of its word. *)
Lemma divmod_positive_exact h w : huge_ok h -> 0 <= value h -> 0 < w <= 2 ^ 63 ->
  DivModPositive h w = mret (of_value (value h / w), value h mod w).
Proof.
  intros Hh H0 Hw. unfold DivModPositive. destruct (highest_bit_spec h Hh H0) as (n & -> & Hn & Hle).
  cbn [mbind checked_bind mret checked_ret]. change (mkHuge 0 0) with (of_value 0).
  apply divmod_positive_loop_spec; try done; try lia. by rewrite Z.div_small.
Qed.

Lemma digit_char r : 0 <= r < 10 -> ascii_of_nat (Z.to_nat (48 + r)) = pretty_N_char (Z.to_N r).
Proof.
  intros Hr. assert (exists n, (n < 10)%nat /\ r = Z.of_nat n) as (n & Hn & ->) by (exists (Z.to_nat r); lia).
  do 10 (destruct n as [|n]; [done|]). lia.
Qed.

Lemma digits_loop_spec fuel v s : 0 <= v < 10 ^ Z.of_nat fuel -> v < 2 ^ 127 ->
  digits_loop fuel (of_value v) s = mret (pretty_N_go (Z.to_N v) s).
Proof.
  revert v s. induction fuel as [|fuel IH]; intros v s Hv Hr; cbn [digits_loop].
  - assert (v = 0) as -> by (cbn in Hv; lia). done.
  - destruct (_ && _) eqn:E; reflect_bools.
    + assert (v = 0) as -> by words. done.
    + assert (v <> 0) by (intros ->; done).
      rewrite divmod_positive_exact, value_of_value; rewrite ?value_of_value; [|apply of_value_ok; words|lia|lia].
      cbn [mbind checked_bind mret checked_ret]. rewrite Nat2Z.inj_succ, Z.pow_succ_r in Hv by lia. rewrite IH by words.
      rewrite (pretty_N_go_step (Z.to_N v)) by lia. f_equal. rewrite digit_char by words. f_equal; [lia|]. do 2 f_equal. lia.
Qed.

Lemma pretty_go_nonempty x c s : exists c' s', pretty_N_go x (String c s) = String c' s'.
Proof.
  revert c s. induction (N.lt_wf_0 x) as [x _ IH]; intros c s. assert (x = 0 \/ 0 < x)%N as [-> |?] by lia; [by exists c, s|].
  rewrite pretty_N_go_step by done. apply IH. by apply N.div_lt.
Qed.

Lemma pretty_digits v : exists c s, pretty_N_go (N.pos v) "" = String c s /\ pretty (Z.pos v) = String c s /\ pretty (Z.neg v) = "-" +:+ String c s.
Proof.
  assert (exists c s, pretty_N_go (N.pos v) "" = String c s) as (c & s & E).
  { rewrite pretty_N_go_step by done. apply pretty_go_nonempty. }
  exists c, s. rewrite <- E. done.
Qed.

(** The text of a value is its decimal representation. *)
Lemma to_string_pretty h : huge_ok h -> ToString h = mret (pretty (value h)).
Proof.
  intros Hh. pose proof (value_range h Hh) as Hrange. unfold ToString. rewrite equals_minimum by done.
  destruct (Z.eqb_spec (value h) (- 2 ^ 127)) as [-> |Hmin]; [by vm_compute|].
  destruct (abs_value h Hh Hmin) as (-> & _).
  assert ((if value h <? 0 then Negate h else mret h) = mret (of_value (Z.abs (value h)))) as ->.
  { destruct (Z.ltb_spec (value h) 0).
    - rewrite negate_exact, Z.abs_neq by (done || lia). unfold in_range.
      destruct (Z.leb_spec (- 2 ^ 127) (- value h)), (Z.ltb_spec (- value h) (2 ^ 127)); cbn [andb]; done || words.
    - by rewrite Z.abs_eq, of_value_value by (done || lia). }
  cbn [mbind checked_bind mret checked_ret]. rewrite digits_loop_spec by words. cbn [mbind checked_bind mret checked_ret].
  destruct (value h) as [|v|v]; [done|..]; destruct (pretty_digits v) as (c & s & E & Epos & Eneg);
    change (Z.to_N (Z.abs _)) with (N.pos v); rewrite E, ?Epos, ?Eneg; done.
Qed.

(** ** Conversions *)

Lemma cast_to_range t z : Minimum t <= z <= Maximum t -> cast_to t z = z.
Proof. intros Hz. unfold Minimum, Maximum, cast_to in *. destruct t; cbn [is_signed width] in *; words. Qed.

Lemma type_limits t : Minimum t = (if is_signed t then - Maximum t - 1 else 0) /\ 0 < Maximum t <= u64_max /\
  (is_signed t = true -> Maximum t <= i64_max).
Proof. by destruct t. Qed.

Lemma try_cast_exact t h : huge_ok h ->
  TryCast t h = if (Minimum t <=? value h) && (value h <=? Maximum t) then Some (value h) else None.
Proof.
  intros Hh. unfold TryCast, HugeintTryCastInteger. destruct (type_limits t) as (Hmin & Hmax & Hs).
  pose proof (cast_to_range t) as Hcast. revert Hmin Hmax Hs Hcast.
  generalize (Minimum t) (Maximum t) (is_signed t) (cast_to t). intros mi ma s cast Hmin Hmax Hs Hcast.
  destruct (Z.eqb_spec (upper h) 0) as [E|E]; [|destruct (Z.eqb_spec (upper h) (-1)) as [E'|E']].
  - assert (value h = lower h) as -> by words. assert (0 <= lower h) by words.
    destruct (Z.leb_spec (lower h) ma), (Z.leb_spec mi (lower h)); cbn [andb]; try done; destruct s; try lia; by rewrite Hcast by lia.
  - assert (value h = lower h - 2 ^ 64) as -> by words. assert (0 <= lower h < 2 ^ 64) by words. destruct s; cbn [negb].
    + specialize (Hs eq_refl). rewrite Z.geb_leb.
      destruct (Z.leb_spec (u64_max - ma) (lower h)), (Z.leb_spec mi (lower h - 2 ^ 64)), (Z.leb_spec (lower h - 2 ^ 64) ma);
        cbn [andb]; try done; try words. rewrite (Hcast (u64_max - lower h)) by words. rewrite Hcast by words. f_equal. words.
    + destruct (Z.leb_spec mi (lower h - 2 ^ 64)), (Z.leb_spec (lower h - 2 ^ 64) ma); cbn [andb]; try done. words.
  - assert (value h < - 2 ^ 64 \/ 2 ^ 64 <= value h) by words.
    destruct (Z.leb_spec mi (value h)), (Z.leb_spec (value h) ma); cbn [andb]; try done. destruct s; words.
Qed.

Lemma convert_integer_value z : in_s 64 z \/ in_u 64 z -> HugeintConvertInteger z = of_value z.
Proof. intros Hz. unfold HugeintConvertInteger, of_value. f_equal. destruct (Z.ltb_spec z 0); cbn [Z.b2z]; destruct Hz; words. Qed.

(** ** Bits *)

Lemma in_s_shiftr z : in_s 64 z <-> Z.shiftr z 63 = 0 \/ Z.shiftr z 63 = -1.
Proof. rewrite Z.shiftr_div_pow2 by lia. unfold in_s. numbers. split; [|intros []]; Z.to_euclidean_division_equations; lia. Qed.

Section Bitwise.
Context (op : Z -> Z -> Z) (f : bool -> bool -> bool).
Context (Hop : forall a b i, 0 <= i -> Z.testbit (op a b) i = f (Z.testbit a i) (Z.testbit b i)) (Hf : f false false = false).

Lemma bitwise_shiftr a b n : 0 <= n -> Z.shiftr (op a b) n = op (Z.shiftr a n) (Z.shiftr b n).
Proof. intros. apply Z.bits_inj'. intros i Hi. rewrite Hop, !Z.shiftr_spec, Hop by lia. done. Qed.

Lemma bitwise_signs a b : a = 0 \/ a = -1 -> b = 0 \/ b = -1 -> op a b = 0 \/ op a b = -1.
Proof.
  intros Ha Hb. assert (Hbits : exists s, forall i, 0 <= i -> Z.testbit (op a b) i = s).
  { exists (f (Z.testbit a 0) (Z.testbit b 0)). intros i Hi. rewrite Hop by done. by destruct Ha as [-> | ->], Hb as [-> | ->]; rewrite ?Z.bits_0, ?Z.bits_m1 by done. }
  destruct Hbits as [[|] Hs]; [right|left]; apply Z.bits_inj'; intros i Hi; rewrite Hs by done; by rewrite ?Z.bits_0, ?Z.bits_m1.
Qed.

(** An operation on every bit of the words is that operation on the bits of the values. *)
Lemma bitwise_value g h : huge_ok g -> huge_ok h ->
  mkHuge (op (upper g) (upper h)) (op (lower g) (lower h)) = of_value (op (value g) (value h)).
Proof.
  intros Hg Hh. assert (Hok : huge_ok (mkHuge (op (upper g) (upper h)) (op (lower g) (lower h)))).
  { split; cbn [upper lower].
    - apply in_s_shiftr. rewrite bitwise_shiftr by lia. apply bitwise_signs; apply in_s_shiftr; [apply Hg|apply Hh].
    - apply u_of_testbit; [lia| |].
      + apply Z.le_ngt. intros Hneg. apply Z.bits_iff_neg_ex in Hneg as [k Hk]. specialize (Hk (Z.max 64 (k + 1)) ltac:(lia)).
        rewrite Hop, (testbit_u_high 64 (lower g)), (testbit_u_high 64 (lower h)), Hf in Hk by (apply Hg || apply Hh || lia). done.
      + intros k Hk. by rewrite Hop, (testbit_u_high 64 (lower g)), (testbit_u_high 64 (lower h)), Hf by (apply Hg || apply Hh || lia). }
  rewrite <- (of_value_value _ Hok). f_equal. apply Z.bits_inj'. intros i Hi. rewrite value_testbit, Hop, !value_testbit by done.
  cbn [upper lower]. destruct (Z.ltb_spec i 64); by rewrite Hop by lia.
Qed.
End Bitwise.

Lemma not_value h : huge_ok h -> hugeint_not h = of_value (Z.lnot (value h)).
Proof. intros Hh. unfold hugeint_not, not64, of_value, Z.lnot. f_equal; words. Qed.

(** The amount of a shift, if it is one. *)
Lemma shift_amount h : huge_ok h ->
  negb (upper h =? 0) || (lower h >=? 128) = negb ((0 <=? value h) && (value h <? 128)) /\ (0 <= value h < 128 -> lower h = value h).
Proof.
  intros Hh. split; [|words]. rewrite Z.geb_leb. apply eq_bool_prop_intro.
  rewrite !Is_true_true, orb_true_iff, !negb_true_iff, andb_false_iff, Z.eqb_neq, Z.leb_le, Z.leb_gt, Z.ltb_ge. words.
Qed.

Lemma testbit_shl64 x n i : 0 <= n -> 0 <= i -> Z.testbit (shl64 x n) i = (i <? 64) && (n <=? i) && Z.testbit x (i - n).
Proof.
  intros Hn Hi. unfold shl64. rewrite testbit_wrapu by lia. destruct (Z.leb_spec n i).
  - rewrite Z.shiftl_spec by done. by rewrite andb_true_r.
  - rewrite Z.shiftl_spec_low by done. by rewrite !andb_false_r.
Qed.

Lemma shift_right_value g h : huge_ok g -> huge_ok h ->
  hugeint_shr g h = if (0 <=? value h) && (value h <? 128) then of_value (Z.shiftr (value g) (value h)) else hugeint_of 0.
Proof.
  intros Hg Hh. unfold hugeint_shr. destruct (shift_amount h Hh) as [-> Hn].
  destruct (Z.leb_spec 0 (value h)), (Z.ltb_spec (value h) 128); cbn [andb negb]; try done. rewrite Hn by done.
  generalize dependent (value h). intros n _ H0 H128. clear h Hh.
  assert (Hup : upper g = Z.shiftr (value g) 64) by (rewrite Z.shiftr_div_pow2 by lia; words).
  destruct (Z.eqb_spec n 0) as [-> |]; [by rewrite Z.shiftr_0_r, of_value_value|].
  assert (Hbits : forall i, 0 <= i -> Z.testbit (Z.shiftr (value g) n mod 2 ^ 64) i = (i <? 64) && Z.testbit (value g) (i + n)).
  { intros i Hi. change (Z.shiftr (value g) n mod 2 ^ 64) with (u64 (Z.shiftr (value g) n)). by rewrite testbit_wrapu, Z.shiftr_spec by lia. }
  unfold of_value. rewrite <- (Z.shiftr_div_pow2 _ 64), Z.shiftr_shiftr by lia.
  destruct (Z.eqb_spec n 64) as [-> |]; [|destruct (Z.ltb_spec n 64)].
  - f_equal; [|by rewrite Hup]. rewrite Z.shiftr_div_pow2 by lia. destruct (Z.ltb_spec (upper g) 0); words.
  - f_equal; [by rewrite Hup, Z.shiftr_shiftr, Z.add_comm by lia|]. apply Z.bits_inj'. intros i Hi.
    rewrite Z.lor_spec, testbit_shl64, Hbits, Z.shiftr_spec, value_testbit by (done || lia).
    destruct (Z.ltb_spec (i + n) 64), (Z.ltb_spec i 64), (Z.leb_spec (64 - n) i); cbn [andb orb]; try lia; try done.
    + rewrite (testbit_u_high 64 (lower g)) by (apply Hg || lia). rewrite orb_false_r, testbit_wrapu by lia.
      destruct (Z.ltb_spec (i - (64 - n)) 64); [|lia]. cbn [andb]. f_equal. lia.
    + apply (testbit_u_high 64); [apply Hg|lia].
  - f_equal.
    + rewrite Z.shiftr_div_pow2 by lia. pose proof (value_range g Hg).
      assert (2 ^ 128 <= 2 ^ (n + 64)) by (apply Z.pow_le_mono_r; lia).
      destruct (Z.ltb_spec (upper g) 0); [apply (Z.div_unique _ _ _ (value g + 2 ^ (n + 64)))|symmetry; apply Z.div_small]; words.
    + rewrite Hup, Z.shiftr_shiftr by lia. by replace (64 + (n - 64)) with n by lia.
Qed.

(** The bits that move from one word into the other do not collide. *)
Lemma shifted_in u l n : in_u 64 l -> 0 <= n < 64 -> shl64 u n + Z.shiftr l (64 - n) = Z.lor (shl64 u n) (Z.shiftr l (64 - n)).
Proof.
  intros Hl Hn. rewrite <- Z.add_lor_land. rewrite <- (Z.add_0_r (Z.lor _ _)) at 2. f_equal. apply Z.bits_inj'. intros i Hi.
  rewrite Z.land_spec, Z.bits_0, testbit_shl64, Z.shiftr_spec by lia. destruct (Z.leb_spec n i); [|by rewrite andb_false_r].
  rewrite (testbit_u_high 64 l) by (done || lia). by rewrite !andb_false_r.
Qed.

(** A value that is not negative is shifted within 127 bits, except that a shift by 64 may reach the sign. *)
Lemma shift_left_value g h : huge_ok g -> huge_ok h ->
  hugeint_shl g h =
    if (value g <? 0) || negb ((0 <=? value h) && (value h <? 128)) then hugeint_of 0
    else if value h =? 64 then wrapped (Z.shiftl (value g) 64)
    else of_value (Z.shiftl (value g) (value h) mod 2 ^ 127).
Proof.
  intros Hg Hh. unfold hugeint_shl. destruct (shift_amount h Hh) as [-> Hn].
  assert ((upper g <? 0) = (value g <? 0)) as -> by (destruct (Z.ltb_spec (upper g) 0), (Z.ltb_spec (value g) 0); done || words).
  destruct (Z.ltb_spec (value g) 0) as [|Hv]; cbn [orb]; [done|].
  destruct (Z.leb_spec 0 (value h)), (Z.ltb_spec (value h) 128); cbn [andb negb]; try done. rewrite Hn by done.
  generalize dependent (value h). intros n _ H0 H128. clear h Hh.
  assert (Hup : upper g = Z.shiftr (value g) 64) by (rewrite Z.shiftr_div_pow2 by lia; words).
  pose proof (value_range g Hg) as Hrange.
  destruct (Z.eqb_spec n 64) as [-> |].
  { rewrite Z.shiftl_mul_pow2 by lia. unfold wrapped, of_value. f_equal; words. }
  destruct (Z.eqb_spec n 0) as [-> |].
  { rewrite Z.shiftl_0_r, Z.mod_small, of_value_value by (done || words). done. }
  assert (Hbits : forall i, 0 <= i -> Z.testbit (Z.shiftl (value g) n mod 2 ^ 127) i = (i <? 127) && (n <=? i) && Z.testbit (value g) (i - n)).
  { intros i Hi. change (Z.shiftl (value g) n mod 2 ^ 127) with (wrapu 127 (Z.shiftl (value g) n)). rewrite testbit_wrapu by lia.
    destruct (Z.leb_spec n i); [by rewrite Z.shiftl_spec, andb_true_r by done|]. by rewrite Z.shiftl_spec_low, !andb_false_r by done. }
  set (m := Z.shiftl (value g) n mod 2 ^ 127) in *. assert (Hm : 0 <= m < 2 ^ 127) by (apply Z.mod_pos_bound; lia).
  assert (Hlow : forall i, 0 <= i -> Z.testbit (m mod 2 ^ 64) i = (i <? 64) && (n <=? i) && Z.testbit (lower g) (i - n)).
  { intros i Hi. change (m mod 2 ^ 64) with (u64 m). rewrite testbit_wrapu, Hbits by lia.
    destruct (Z.ltb_spec i 64), (Z.ltb_spec i 127), (Z.leb_spec n i); cbn [andb]; try done; try lia.
    rewrite value_testbit by (done || lia). by destruct (Z.ltb_spec (i - n) 64); [|lia]. }
  assert (Hmax : i64_max = Z.ones 63) by done. unfold of_value. rewrite <- (Z.shiftr_div_pow2 m 64) by lia.
  destruct (Z.ltb_spec n 64); f_equal.
  - rewrite shifted_in, Hmax, Z.land_ones, wraps_small by (apply Hg || lia || words). apply Z.bits_inj'. intros i Hi.
    change (u64 ?x mod 2 ^ 63) with (wrapu 63 (u64 x)).
    rewrite testbit_wrapu, testbit_wrapu, Z.lor_spec, testbit_shl64, !Z.shiftr_spec, Hbits, value_testbit by (done || lia).
    destruct (Z.ltb_spec i 63), (Z.ltb_spec i 64), (Z.ltb_spec (i + 64) 127), (Z.leb_spec n (i + 64)), (Z.leb_spec n i),
      (Z.ltb_spec (i + 64 - n) 64); cbn [andb orb]; try done; try lia.
    + rewrite (testbit_u_high 64 (lower g)) by (apply Hg || lia). rewrite orb_false_r, testbit_wrapu by lia.
      destruct (Z.ltb_spec (i - n) 64); [|lia]. cbn [andb]. f_equal. lia.
    + f_equal. lia.
  - apply Z.bits_inj'. intros i Hi. by rewrite Hlow, testbit_shl64 by lia.
  - rewrite Hmax, Z.land_ones by lia. apply Z.bits_inj'. intros i Hi.
    change (shl64 ?x ?y mod 2 ^ 63) with (wrapu 63 (shl64 x y)).
    rewrite testbit_wrapu, testbit_shl64, Z.shiftr_spec, Hbits by (done || lia).
    destruct (Z.ltb_spec i 63), (Z.ltb_spec i 64), (Z.ltb_spec (i + 64) 127), (Z.leb_spec n (i + 64)), (Z.leb_spec (n - 64) i);
      cbn [andb]; try done; try lia. rewrite value_testbit by (done || lia). destruct (Z.ltb_spec (i + 64 - n) 64); [|lia]. f_equal. lia.
  - apply Z.bits_inj'. intros i Hi. rewrite Hlow, Z.bits_0 by done. destruct (Z.ltb_spec i 64), (Z.leb_spec n i); cbn [andb]; try done; lia.
Qed.
