(* ===== verification/Uhugeint.v ===== *)
(** * Unsigned 128-bit integers

    Models [common/uhugeint.hpp], [common/types/uhugeint.hpp] and [common/types/uhugeint.cpp]:
    [uhugeint_t] as a pair of unsigned 64-bit words, with the operations of the class [Uhugeint] and
    the operators. The conversions from and to floating point are not modelled. *)

From Stdlib Require Import Ascii.
From S2P Require Import Prelude Hugeint.

Local Open Scope Z_scope.

(** ** The type *)

Record uhugeint_t := mkUhuge { uupper : Z; ulower : Z }.

#[export] Instance uhugeint_eq_dec : EqDecision uhugeint_t.
Proof. solve_decision. Defined.

(** The constructor from a [uint64_t]. *)
Definition uhugeint_of (value : Z) : uhugeint_t := mkUhuge 0 value.

Module Uhugeint.

Definition Equals (lhs rhs : uhugeint_t) : bool := (ulower lhs =? ulower rhs) && (uupper lhs =? uupper rhs).
Definition NotEquals (lhs rhs : uhugeint_t) : bool := negb (Equals lhs rhs).
Definition GreaterThan (lhs rhs : uhugeint_t) : bool :=
  (uupper lhs >? uupper rhs) || ((uupper lhs =? uupper rhs) && (ulower lhs >? ulower rhs)).
Definition GreaterThanEquals (lhs rhs : uhugeint_t) : bool :=
  (uupper lhs >? uupper rhs) || ((uupper lhs =? uupper rhs) && (ulower lhs >=? ulower rhs)).
Definition LessThan (lhs rhs : uhugeint_t) : bool :=
  (uupper lhs <? uupper rhs) || ((uupper lhs =? uupper rhs) && (ulower lhs <? ulower rhs)).
Definition LessThanEquals (lhs rhs : uhugeint_t) : bool :=
  (uupper lhs <? uupper rhs) || ((uupper lhs =? uupper rhs) && (ulower lhs <=? ulower rhs)).

(** ** Addition, subtraction, negation *)

(** [operator+] and [operator-] *)
Definition add (lhs rhs : uhugeint_t) : uhugeint_t :=
  mkUhuge (u64 (u64 (uupper lhs + uupper rhs) + Z.b2z (u64 (ulower lhs + ulower rhs) <? ulower lhs)))
    (u64 (ulower lhs + ulower rhs)).
Definition sub (lhs rhs : uhugeint_t) : uhugeint_t :=
  mkUhuge (u64 (u64 (uupper lhs - uupper rhs) - Z.b2z (u64 (ulower lhs - ulower rhs) >? ulower lhs)))
    (u64 (ulower lhs - ulower rhs)).

Definition NegateInPlace (input : uhugeint_t) : uhugeint_t := sub (uhugeint_of 0) input.
Definition TryNegate (input : uhugeint_t) : option uhugeint_t := Some (NegateInPlace input).

(** The in-place functions change [lhs] whether or not they return [true]. *)
Definition TryAddInPlace (lhs rhs : uhugeint_t) : bool * uhugeint_t :=
  let new_upper := u64 (uupper lhs + uupper rhs) in
  let no_overflow := negb ((new_upper <? uupper lhs) || (new_upper <? uupper rhs)) in
  let new_upper := u64 (new_upper + Z.b2z (u64 (ulower lhs + ulower rhs) <? ulower lhs)) in
  let no_overflow := if (new_upper <? uupper lhs) || (new_upper <? uupper rhs) then false else no_overflow in
  (no_overflow, mkUhuge new_upper (u64 (ulower lhs + ulower rhs))).

Definition TrySubtractInPlace (lhs rhs : uhugeint_t) : bool * uhugeint_t :=
  let new_upper := u64 (u64 (uupper lhs - uupper rhs) - Z.b2z (u64 (ulower lhs - ulower rhs) >? ulower lhs)) in
  let no_overflow := negb (new_upper >? uupper lhs) in
  (no_overflow, mkUhuge new_upper (u64 (ulower lhs - ulower rhs))).

Definition or_overflow (e : exception) (r : bool * uhugeint_t) : result uhugeint_t := if r.1 then Ok r.2 else Throw e.

Definition Add (lhs rhs : uhugeint_t) : result uhugeint_t :=
  or_overflow (OutOfRangeException "Overflow in UHUGEINT addition") (TryAddInPlace lhs rhs).
Definition Subtract (lhs rhs : uhugeint_t) : result uhugeint_t :=
  or_overflow (OutOfRangeException "Underflow in HUGEINT subtraction") (TrySubtractInPlace lhs rhs).

(** ** Multiplication *)

(** The four 32-bit parts, the most significant one first; the first index of a product counts from
    the least significant part. *)
Definition parts (h : uhugeint_t) (x : nat) : Z :=
  match x with
  | 0%nat => Z.shiftr (uupper h) 32
  | 1%nat => low32 (uupper h)
  | 2%nat => Z.shiftr (ulower h) 32
  | _ => low32 (ulower h)
  end.
Definition products (lhs rhs : uhugeint_t) (x y : nat) : Z := u64 (parts lhs (3 - x) * parts rhs y).

(** [first32], [second32], [third32], [fourth32] with the carries moved up. *)
Definition merge_products (p : nat -> nat -> Z) : Z * Z * Z * Z :=
  let fourth32 := low32 (p 0 3)%nat in
  let third32 := u64 (low32 (p 0 2)%nat + Z.shiftr (p 0 3)%nat 32) in
  let second32 := u64 (low32 (p 0 1)%nat + Z.shiftr (p 0 2)%nat 32) in
  let first32 := u64 (low32 (p 0 0)%nat + Z.shiftr (p 0 1)%nat 32) in
  let third32 := u64 (third32 + low32 (p 1 3)%nat) in
  let second32 := u64 (second32 + u64 (low32 (p 1 2)%nat + Z.shiftr (p 1 3)%nat 32)) in
  let first32 := u64 (first32 + u64 (low32 (p 1 1)%nat + Z.shiftr (p 1 2)%nat 32)) in
  let second32 := u64 (second32 + low32 (p 2 3)%nat) in
  let first32 := u64 (first32 + u64 (low32 (p 2 2)%nat + Z.shiftr (p 2 3)%nat 32)) in
  let first32 := u64 (first32 + low32 (p 3 3)%nat) in
  let third32 := u64 (third32 + Z.shiftr fourth32 32) in
  let second32 := u64 (second32 + Z.shiftr third32 32) in
  let first32 := u64 (first32 + Z.shiftr second32 32) in
  (first32, second32, third32, fourth32).

Definition combine (sums : Z * Z * Z * Z) : uhugeint_t :=
  let '(first32, second32, third32, fourth32) := sums in
  mkUhuge (Z.lor (shl64 (low32 first32) 32) (low32 second32)) (Z.lor (shl64 (low32 third32) 32) (low32 fourth32)).

Definition to_uint128 (h : uhugeint_t) : Z := u128 (ulower h + u128 (Z.shiftl (uupper h) 64)).
Definition of_uint128 (z : Z) : uhugeint_t := mkUhuge (u64 (Z.shiftr z 64)) (Z.land z u64_max).

Definition TryMultiply `{Platform} (lhs rhs : uhugeint_t) : option uhugeint_t :=
  if HasInt128 then
    let product := to_uint128 lhs * to_uint128 rhs in
    if product >? 2 ^ 128 - 1 then None else Some (of_uint128 product)
  else
    let p := products lhs rhs in
    let nonzero x := negb (x =? 0) in
    let high_bits x := negb (Z.land x 18446744069414584320 =? 0) in
    if nonzero (p 2 1)%nat || nonzero (p 1 0)%nat || nonzero (p 2 0)%nat then None
    else if high_bits (p 1 1)%nat || high_bits (p 3 0)%nat || high_bits (p 3 3)%nat || high_bits (p 3 2)%nat ||
            high_bits (p 3 1)%nat || high_bits (p 2 2)%nat || high_bits (p 0 0)%nat then None
    else Some (combine (merge_products p)).

(** [Multiply<false>] wraps. *)
Definition MultiplyUnchecked `{Platform} (lhs rhs : uhugeint_t) : uhugeint_t :=
  if HasInt128 then of_uint128 (u128 (to_uint128 lhs * to_uint128 rhs))
  else combine (merge_products (products lhs rhs)).

Definition Multiply `{Platform} (lhs rhs : uhugeint_t) : result uhugeint_t :=
  match TryMultiply lhs rhs with
  | Some r => Ok r
  | None => Throw (OutOfRangeException "Overflow in UHUGEINT multiplication")
  end.

(** ** Shifts and bits *)

(** [operator>>] and [operator<<] *)
Definition shr (lhs rhs : uhugeint_t) : uhugeint_t :=
  let shift := ulower rhs in
  if negb (uupper rhs =? 0) || (shift >=? 128) then uhugeint_of 0
  else if shift =? 0 then lhs
  else if shift =? 64 then mkUhuge 0 (uupper lhs)
  else if shift <? 64 then
    mkUhuge (Z.shiftr (uupper lhs) shift) (u64 (shl64 (uupper lhs) (64 - shift) + Z.shiftr (ulower lhs) shift))
  else mkUhuge 0 (Z.shiftr (uupper lhs) (shift - 64)).

Definition shl (lhs rhs : uhugeint_t) : uhugeint_t :=
  let shift := ulower rhs in
  if negb (uupper rhs =? 0) || (shift >=? 128) then uhugeint_of 0
  else if shift =? 0 then lhs
  else if shift =? 64 then mkUhuge (ulower lhs) 0
  else if shift <? 64 then
    mkUhuge (u64 (shl64 (uupper lhs) shift + Z.shiftr (ulower lhs) (64 - shift))) (shl64 (ulower lhs) shift)
  else mkUhuge (shl64 (ulower lhs) (shift - 64)) 0.

Definition bit_and (lhs rhs : uhugeint_t) : uhugeint_t := mkUhuge (Z.land (uupper lhs) (uupper rhs)) (Z.land (ulower lhs) (ulower rhs)).
Definition bit_or (lhs rhs : uhugeint_t) : uhugeint_t := mkUhuge (Z.lor (uupper lhs) (uupper rhs)) (Z.lor (ulower lhs) (ulower rhs)).
Definition bit_xor (lhs rhs : uhugeint_t) : uhugeint_t := mkUhuge (Z.lxor (uupper lhs) (uupper rhs)) (Z.lxor (ulower lhs) (ulower rhs)).
Definition bit_not (lhs : uhugeint_t) : uhugeint_t := mkUhuge (not64 (uupper lhs)) (not64 (ulower lhs)).

(** ** Division *)

Definition Bits (x : uhugeint_t) : checked nat :=
  if negb (uupper x =? 0) then count_bits 64 (uupper x) 64 else count_bits 64 (ulower x) 0.

(** [for (idx = Bits(lhs); idx > 0; --idx)] *)
Fixpoint divmod_loop (idx : nat) (lhs rhs result remainder : uhugeint_t) : uhugeint_t * uhugeint_t :=
  match idx with
  | O => (result, remainder)
  | S idx' =>
      let result := shl result (uhugeint_of 1) in
      let remainder := shl remainder (uhugeint_of 1) in
      let bit := bit_and (shr lhs (uhugeint_of (Z.of_nat idx'))) (uhugeint_of 1) in
      let remainder := if NotEquals bit (uhugeint_of 0) then add remainder (uhugeint_of 1) else remainder in
      if GreaterThanEquals remainder rhs then
        divmod_loop idx' lhs rhs (add result (uhugeint_of 1)) (sub remainder rhs)
      else divmod_loop idx' lhs rhs result remainder
  end.

(** The quotient and the remainder. *)
Definition DivMod (lhs rhs : uhugeint_t) : checked (uhugeint_t * uhugeint_t) :=
  if Equals rhs (uhugeint_of 0) then mret (uhugeint_of 0, lhs)
  else if Equals rhs (uhugeint_of 1) then mret (lhs, uhugeint_of 0)
  else if Equals lhs rhs then mret (uhugeint_of 1, uhugeint_of 0)
  else if Equals lhs (uhugeint_of 0) || LessThan lhs rhs then mret (uhugeint_of 0, lhs)
  else
    bits ← Bits lhs;
    mret (divmod_loop bits lhs rhs (uhugeint_of 0) (uhugeint_of 0)).

Definition Divide (lhs rhs : uhugeint_t) : checked uhugeint_t :=
  if Equals rhs (uhugeint_of 0) then throw (OutOfRangeException "Division of UHUGEINT by zero")
  else result ← DivMod lhs rhs; mret result.1.
Definition Modulo (lhs rhs : uhugeint_t) : checked uhugeint_t :=
  if Equals rhs (uhugeint_of 0) then throw (OutOfRangeException "Modulo of UHUGEINT by zero")
  else result ← DivMod lhs rhs; mret result.2.

(** ** Text *)

(** [while (true)]: at most 39 digits. *)
Fixpoint digits_loop (fuel : nat) (input : uhugeint_t) (result : string) : checked string :=
  if (ulower input =? 0) && (uupper input =? 0) then mret result
  else
    match fuel with
    | O => None
    | S fuel' =>
        '(input, remainder) ← DivMod input (uhugeint_of 10);
        digits_loop fuel' input (String (ascii_of_nat (Z.to_nat (48 + ulower remainder))) result)
    end.

Definition ToString (input : uhugeint_t) : checked string :=
  result ← digits_loop 39 input "";
  match result with EmptyString => mret "0" | _ => mret result end.

(** [POWERS_OF_TEN] *)
Definition POWERS_OF_TEN `{Platform} : list uhugeint_t :=
  let ten n := uhugeint_of (10 ^ n) in
  (ten <$> [0; 1; 2; 3; 4; 5; 6; 7; 8; 9; 10; 11; 12; 13; 14; 15; 16; 17; 18]) ++
  ((fun n => MultiplyUnchecked (ten 18) (ten n)) <$> [1; 2; 3; 4; 5; 6; 7; 8; 9; 10; 11; 12; 13; 14; 15; 16; 17; 18]) ++
  ((fun n => MultiplyUnchecked (MultiplyUnchecked (ten 18) (ten 18)) (ten n)) <$> [1; 2]).

(** ** Conversions *)

Definition UhugeintTryCastInteger (DST : integer_type) (input : uhugeint_t) : option Z :=
  if (uupper input =? 0) && (ulower input <=? Maximum DST) then Some (cast_to DST (ulower input)) else None.

(** [TryConvert] of an integer type. *)
Definition TryConvert (SRC : integer_type) (value : Z) : option uhugeint_t :=
  if is_signed SRC && (value <? 0) then None else Some (mkUhuge 0 (u64 value)).

(** [TryCast] to [hugeint_t], and the conversion operator, which does not check. *)
Definition to_hugeint (input : uhugeint_t) : hugeint_t := mkHuge (i64 (uupper input)) (ulower input).
Definition of_hugeint (input : hugeint_t) : uhugeint_t := mkUhuge (u64 (upper input)) (lower input).
Definition TryCastHugeint (input : uhugeint_t) : option hugeint_t :=
  if GreaterThan input (of_hugeint HugeintMaximum) then None else Some (mkHuge (uupper input) (ulower input)).
(** [Hugeint::TryCast] to [uhugeint_t] *)
Definition TryCastUhugeint (input : hugeint_t) : option uhugeint_t :=
  if HugeintLessThan input (hugeint_of 0) then None else Some (mkUhuge (upper input) (lower input)).

End Uhugeint.
