(* ===== verification/UhugeintFacts.v ===== *)
(** * Unsigned 128-bit integers: what the operations compute *)

From stdpp Require Import pretty.
From Stdlib Require Import Ascii.
From S2P Require Import Prelude Hugeint HugeintFacts HugeintDivisionFacts Uhugeint.

Local Open Scope Z_scope.

(** ** Values *)

Definition uvalue (h : uhugeint_t) : Z := uupper h * 2 ^ 64 + ulower h.
Definition of_uvalue (z : Z) : uhugeint_t := mkUhuge (z / 2 ^ 64) (z mod 2 ^ 64).
Record uhuge_ok (h : uhugeint_t) : Prop := { ok_uupper : in_u 64 (uupper h); ok_ulower : in_u 64 (ulower h) }.

(** The value modulo [2 ^ 128]. *)
Definition uwrapped (z : Z) : uhugeint_t := of_uvalue (u128 z).

Ltac uwords :=
  repeat match goal with H : uhuge_ok ?h |- _ => destruct H as [? ?] end;
  unfold uvalue, of_uvalue, uwrapped in *; cbn [uupper ulower] in *; words.

Lemma uvalue_of z : uvalue (of_uvalue z) = z.
Proof. uwords. Qed.

Lemma of_uvalue_uvalue h : uhuge_ok h -> of_uvalue (uvalue h) = h.
Proof. intros [Hu Hl]. destruct h as [u l]. unfold of_uvalue, uvalue. f_equal; uwords. Qed.

Lemma uvalue_range h : uhuge_ok h -> in_u 128 (uvalue h).
Proof. intros. uwords. Qed.

Lemma of_uvalue_ok z : in_u 128 z -> uhuge_ok (of_uvalue z).
Proof. intros. constructor; uwords. Qed.

Lemma uwrapped_ok z : uhuge_ok (uwrapped z).
Proof. apply of_uvalue_ok, wrapu_range. lia. Qed.

Lemma uwrapped_small z : in_u 128 z -> uwrapped z = of_uvalue z.
Proof. intros. unfold uwrapped. by rewrite wrapu_small. Qed.

Lemma uvalue_uwrapped z : in_u 128 z -> uvalue (uwrapped z) = z.
Proof. intros. by rewrite uwrapped_small, uvalue_of. Qed.

(** Two words that agree with [z] modulo [2 ^ 128]. *)
Lemma uwords_wrapped u l z : (u * 2 ^ 64 + u64 l - z) mod 2 ^ 128 = 0 -> mkUhuge (u64 u) (u64 l) = uwrapped z.
Proof. intros Heq. unfold uwrapped, of_uvalue. f_equal; words. Qed.
Ltac uwrap := apply uwords_wrapped; uwords.

Lemma uhugeint_of_value z : in_u 64 z -> uhugeint_of z = of_uvalue z.
Proof. intros. unfold uhugeint_of, of_uvalue. f_equal; uwords. Qed.

Lemma uhugeint_of_ok z : in_u 64 z -> uhuge_ok (uhugeint_of z) /\ uvalue (uhugeint_of z) = z.
Proof. intros. unfold uhugeint_of. split; [constructor|]; uwords. Qed.

#[export] Hint Resolve uvalue_range of_uvalue_ok uwrapped_ok : duckdb.

(** ** Comparisons *)

Lemma uequals_value g h : uhuge_ok g -> uhuge_ok h -> Uhugeint.Equals g h = (uvalue g =? uvalue h).
Proof. intros. unfold Uhugeint.Equals. apply eq_bool_prop_intro. rewrite !Is_true_true, andb_true_iff, !Z.eqb_eq. uwords. Qed.

Lemma uless_value g h : uhuge_ok g -> uhuge_ok h -> Uhugeint.LessThan g h = (uvalue g <? uvalue h).
Proof. intros. unfold Uhugeint.LessThan. apply eq_bool_prop_intro. rewrite !Is_true_true, orb_true_iff, andb_true_iff, !Z.ltb_lt, Z.eqb_eq. uwords. Qed.

Lemma uless_equal_value g h : uhuge_ok g -> uhuge_ok h -> Uhugeint.LessThanEquals g h = (uvalue g <=? uvalue h).
Proof. intros. unfold Uhugeint.LessThanEquals. apply eq_bool_prop_intro. rewrite !Is_true_true, orb_true_iff, andb_true_iff, Z.ltb_lt, !Z.leb_le, Z.eqb_eq. uwords. Qed.

Lemma ugreater_value g h : uhuge_ok g -> uhuge_ok h -> Uhugeint.GreaterThan g h = (uvalue h <? uvalue g).
Proof.
  intros. rewrite <- uless_value by done. unfold Uhugeint.GreaterThan, Uhugeint.LessThan. by rewrite (Z.eqb_sym (uupper g)), !Z.gtb_ltb.
Qed.

Lemma ugreater_equal_value g h : uhuge_ok g -> uhuge_ok h -> Uhugeint.GreaterThanEquals g h = (uvalue h <=? uvalue g).
Proof.
  intros. rewrite <- uless_equal_value by done. unfold Uhugeint.GreaterThanEquals, Uhugeint.LessThanEquals.
  by rewrite (Z.eqb_sym (uupper g)), Z.gtb_ltb, Z.geb_leb.
Qed.

(** ** Addition and subtraction *)

Lemma uadd_wrapped g h : uhuge_ok g -> uhuge_ok h -> Uhugeint.add g h = uwrapped (uvalue g + uvalue h).
Proof. intros. unfold Uhugeint.add. destruct (Z.ltb_spec (u64 (ulower g + ulower h)) (ulower g)); cbn [Z.b2z]; uwrap. Qed.

Lemma usub_wrapped g h : uhuge_ok g -> uhuge_ok h -> Uhugeint.sub g h = uwrapped (uvalue g - uvalue h).
Proof. intros. unfold Uhugeint.sub. rewrite Z.gtb_ltb. destruct (Z.ltb_spec (ulower g) (u64 (ulower g - ulower h))); cbn [Z.b2z]; uwrap. Qed.

Lemma utry_add_exact g h : uhuge_ok g -> uhuge_ok h ->
  Uhugeint.TryAddInPlace g h = (uvalue g + uvalue h <? 2 ^ 128, uwrapped (uvalue g + uvalue h)).
Proof.
  intros Hg Hh. unfold Uhugeint.TryAddInPlace. f_equal.
  - apply eq_bool_prop_intro. destruct (_ || _) eqn:E; rewrite !Is_true_true, ?negb_true_iff, ?orb_true_iff, ?orb_false_iff, ?Z.ltb_lt, ?Z.ltb_ge in *;
      destruct (Z.ltb_spec (u64 (ulower g + ulower h)) (ulower g)); cbn [Z.b2z] in *; [split; [done|]; uwords..|split; [|]; uwords|split; uwords].
  - destruct (Z.ltb_spec (u64 (ulower g + ulower h)) (ulower g)); cbn [Z.b2z]; uwrap.
Qed.

(** The flag of a subtraction is not the borrow of the whole value: it stays [true] when the upper words
    differ by [2 ^ 64 - 1] and the lower ones borrow. *)
Definition subtracted (g h : uhugeint_t) : bool :=
  (uvalue h <=? uvalue g) || ((uupper h =? u64_max) && (ulower g <? ulower h)).

Lemma utry_subtract_flag g h : uhuge_ok g -> uhuge_ok h ->
  Uhugeint.TrySubtractInPlace g h = (subtracted g h, uwrapped (uvalue g - uvalue h)).
Proof.
  intros Hg Hh. rewrite <- usub_wrapped by done. unfold Uhugeint.TrySubtractInPlace, Uhugeint.sub, subtracted. f_equal.
  rewrite !Z.gtb_ltb. apply eq_bool_prop_intro. rewrite !Is_true_true, negb_true_iff, Z.ltb_ge, orb_true_iff, andb_true_iff, Z.leb_le, Z.eqb_eq, Z.ltb_lt.
  destruct (Z.ltb_spec (ulower g) (u64 (ulower g - ulower h))); cbn [Z.b2z]; uwords.
Qed.

Lemma unegate_wrapped h : uhuge_ok h -> Uhugeint.NegateInPlace h = uwrapped (- uvalue h).
Proof. intros. unfold Uhugeint.NegateInPlace. by rewrite usub_wrapped by (done || by apply uhugeint_of_ok). Qed.

(** ** Multiplication *)

(** The words as those of a signed value with the same bits. *)
Definition signed_words (h : uhugeint_t) : hugeint_t := mkHuge (i64 (uupper h)) (ulower h).

Lemma signed_words_ok h : uhuge_ok h -> huge_ok (signed_words h) /\ value (signed_words h) mod 2 ^ 128 = uvalue h.
Proof. intros. unfold signed_words. split; [constructor|]; uwords. Qed.

Lemma uparts_signed h x : uhuge_ok h -> Uhugeint.parts h x = parts (signed_words h) x.
Proof.
  intros. unfold Uhugeint.parts, parts, signed_words. cbn [upper lower]. replace (u64 (i64 (uupper h))) with (uupper h) by uwords.
  by destruct x as [|[|[|?]]].
Qed.

(** The unsigned multiplication counts the rows from the other end. *)
Lemma umerge_products g h : uhuge_ok g -> uhuge_ok h ->
  Uhugeint.merge_products (Uhugeint.products g h) = merge_products (products (signed_words g) (signed_words h)).
Proof. intros Hg Hh. unfold Uhugeint.merge_products, Uhugeint.products. rewrite !uparts_signed by done. done. Qed.

Lemma ucombine_wrapped g h : uhuge_ok g -> uhuge_ok h ->
  Uhugeint.combine (Uhugeint.merge_products (Uhugeint.products g h)) = uwrapped (uvalue g * uvalue h).
Proof.
  intros Hg Hh. rewrite umerge_products by done. destruct (signed_words_ok g Hg) as [Hsg Hvg], (signed_words_ok h Hh) as [Hsh Hvh].
  pose proof (products_sum _ _ Hsg Hsh) as Hsum. cbv zeta in Hsum. rewrite Hvg, Hvh in Hsum.
  pose proof (merge_products_sum _ (fun x y => proj2 (products_bounds _ _ Hsg Hsh x y))) as Hmerge.
  destruct (merge_products _) as [[[f1 f2] f3] f4]. cbv zeta in Hmerge. destruct Hmerge as (H1 & H2 & H3 & H4 & Heq).
  unfold Uhugeint.combine. rewrite (proj1 (joined_parts (low32 f1) (low32 f2) (low32_bounds _) (low32_bounds _))).
  rewrite (proj1 (joined_parts (low32 f3) (low32 f4) (low32_bounds _) (low32_bounds _))).
  rewrite Hsum. clear Hsum Hvg Hvh Hsg Hsh Hg Hh. rewrite !low32_mod in *.
  unfold uwrapped, of_uvalue. f_equal; words.
Qed.

Lemma to_uint128_value h : uhuge_ok h -> Uhugeint.to_uint128 h = uvalue h.
Proof. intros. unfold Uhugeint.to_uint128. rewrite Z.shiftl_mul_pow2 by lia. uwords. Qed.

Lemma of_uint128_value z : in_u 128 z -> Uhugeint.of_uint128 z = of_uvalue z.
Proof.
  intros. unfold Uhugeint.of_uint128, of_uvalue. rewrite Z.shiftr_div_pow2 by lia.
  change u64_max with (Z.ones 64). rewrite Z.land_ones by lia. f_equal. uwords.
Qed.

Lemma umultiply_unchecked_wrapped `{Platform} g h : uhuge_ok g -> uhuge_ok h ->
  Uhugeint.MultiplyUnchecked g h = uwrapped (uvalue g * uvalue h).
Proof.
  intros Hg Hh. unfold Uhugeint.MultiplyUnchecked. destruct HasInt128; [|by apply ucombine_wrapped].
  rewrite !to_uint128_value, of_uint128_value by (done || apply wrapu_range; lia). done.
Qed.

(** With 128-bit integers the multiplication is exact. *)
Lemma umultiply_int128 (P : Platform) g h : HasInt128 = true -> uhuge_ok g -> uhuge_ok h ->
  Uhugeint.TryMultiply g h = if uvalue g * uvalue h <? 2 ^ 128 then Some (of_uvalue (uvalue g * uvalue h)) else None.
Proof.
  intros HP Hg Hh. unfold Uhugeint.TryMultiply. rewrite HP, !to_uint128_value by done. rewrite Z.gtb_ltb.
  pose proof (uvalue_range g Hg) as [Hg0 _]. pose proof (uvalue_range h Hh) as [Hh0 _]. assert (0 <= uvalue g * uvalue h) by nia.
  destruct (Z.ltb_spec (2 ^ 128 - 1) (uvalue g * uvalue h)), (Z.ltb_spec (uvalue g * uvalue h) (2 ^ 128)); try lia; [done|].
  by rewrite of_uint128_value.
Qed.

(** Without them it may miss an overflow, and then wraps; an overflow it reports is one. *)
Lemma umultiply_parts (P : Platform) g h : HasInt128 = false -> uhuge_ok g -> uhuge_ok h ->
  match Uhugeint.TryMultiply g h with
  | Some r => r = uwrapped (uvalue g * uvalue h)
  | None => 2 ^ 128 <= uvalue g * uvalue h
  end.
Proof.
  intros HP Hg Hh. unfold Uhugeint.TryMultiply. rewrite HP. rewrite ucombine_wrapped by done.
  destruct (signed_words_ok g Hg) as [Hsg Hvg], (signed_words_ok h Hh) as [Hsh Hvh].
  pose proof (products_sum _ _ Hsg Hsh) as Hsum. cbv zeta in Hsum. rewrite Hvg, Hvh in Hsum.
  assert (Hp : forall x y, 0 <= products (signed_words g) (signed_words h) x y <= (2 ^ 32 - 1) * (2 ^ 32 - 1)) by (intros; by apply products_bounds).
  assert (Hflip : forall x y, (x <= 3)%nat -> Uhugeint.products g h x y = products (signed_words g) (signed_words h) (3 - x) y).
  { intros x y _. unfold Uhugeint.products, products. by rewrite !uparts_signed by done. }
  cbv zeta. rewrite !Hflip by lia. cbn [Nat.sub]. clear Hflip Hsg Hsh Hvg Hvh.
  revert Hsum Hp. generalize (products (signed_words g) (signed_words h)). intros p Hsum Hp. rewrite Hsum. clear Hsum Hg Hh HP.
  change 18446744069414584320 with (2 ^ 64 - 2 ^ 32).
  rewrite !(high_bits_clear 64 32) by (first [lia|split; [apply Hp|eapply Z.le_lt_trans; [apply Hp|by vm_compute]]]).
  assert (Hp0 : forall x y, 0 <= p x y) by (intros x y; apply Hp). clear Hp.
  repeat match goal with |- context [p ?x ?y] =>
    lazymatch goal with _ : 0 <= p x y |- _ => fail | _ => pose proof (Hp0 x y) end end.
  clear Hp0.
  destruct (_ || negb (at2 p 1 0 =? 0)) eqn:Hzero; [rewrite !orb_true_iff, !negb_true_iff, !Z.eqb_neq in Hzero; numbers; lia|].
  destruct (_ || negb (at2 p 3 0 <? 2 ^ 32)) eqn:Hhigh; [|done].
  rewrite !orb_true_iff, !negb_true_iff, !Z.ltb_ge in Hhigh. numbers. lia.
Qed.

(** ** Shifts and bits *)

Lemma uvalue_testbit h i : uhuge_ok h -> 0 <= i ->
  Z.testbit (uvalue h) i = if i <? 64 then Z.testbit (ulower h) i else Z.testbit (uupper h) (i - 64).
Proof.
  intros Hh Hi. destruct (Z.ltb_spec i 64).
  - rewrite <- (Z.mod_pow2_bits_low (uvalue h) 64) by lia. f_equal. uwords.
  - assert (uupper h = uvalue h / 2 ^ 64) as -> by uwords. rewrite Z.div_pow2_bits by lia. f_equal. lia.
Qed.

(** Two values are equal when their words have the same bits. *)
Lemma uwords_bits u l z : in_u 64 u -> in_u 64 l -> in_u 128 z ->
  (forall i, 0 <= i < 64 -> Z.testbit l i = Z.testbit z i) -> (forall i, 0 <= i < 64 -> Z.testbit u i = Z.testbit z (i + 64)) ->
  mkUhuge u l = of_uvalue z.
Proof.
  intros Hu Hl Hz Hlow Hup. unfold of_uvalue. rewrite <- (Z.shiftr_div_pow2 z 64) by lia. f_equal; apply Z.bits_inj'; intros i Hi.
  - rewrite Z.shiftr_spec by lia. destruct (Z.lt_ge_cases i 64); [apply Hup; lia|].
    by rewrite (testbit_u_high 64 u), (testbit_u_high 128 z) by (done || lia).
  - change (z mod 2 ^ 64) with (u64 z). rewrite testbit_wrapu by lia.
    destruct (Z.ltb_spec i 64); [apply Hlow; lia|]. by rewrite (testbit_u_high 64 l) by (done || lia).
Qed.

(** The amount of a shift, if it is one. *)
Lemma ushift_amount h : uhuge_ok h ->
  negb (uupper h =? 0) || (ulower h >=? 128) = negb (uvalue h <? 128) /\ (uvalue h < 128 -> ulower h = uvalue h /\ 0 <= uvalue h).
Proof.
  intros Hh. split; [|uwords]. rewrite Z.geb_leb. apply eq_bool_prop_intro.
  rewrite !Is_true_true, orb_true_iff, !negb_true_iff, Z.eqb_neq, Z.leb_le, Z.ltb_ge. uwords.
Qed.

Lemma ushift_right_value g h : uhuge_ok g -> uhuge_ok h ->
  Uhugeint.shr g h = if uvalue h <? 128 then of_uvalue (Z.shiftr (uvalue g) (uvalue h)) else uhugeint_of 0.
Proof.
  intros Hg Hh. unfold Uhugeint.shr. destruct (ushift_amount h Hh) as [-> Hn].
  destruct (Z.ltb_spec (uvalue h) 128) as [Hlt|]; cbn [negb]; [|done]. destruct (Hn Hlt) as [-> H0].
  generalize dependent (uvalue h). intros n _ Hlt H0. clear h Hh.
  assert (Hup : uupper g = Z.shiftr (uvalue g) 64) by (rewrite Z.shiftr_div_pow2 by lia; uwords).
  destruct (Z.eqb_spec n 0) as [-> |]; [by rewrite Z.shiftr_0_r, of_uvalue_uvalue|].
  assert (Hz : in_u 128 (Z.shiftr (uvalue g) n)).
  { pose proof (uvalue_range g Hg) as [? ?]. rewrite Z.shiftr_div_pow2 by lia. assert (0 < 2 ^ n) by (apply Z.pow_pos_nonneg; lia).
    split; [apply Z.div_pos; lia|]. apply Z.div_lt_upper_bound; nia. }
  assert (Hsmall : forall x k, in_u 64 x -> 0 <= k -> in_u 64 (Z.shiftr x k)).
  { intros x k [? ?] Hk. rewrite Z.shiftr_div_pow2 by lia. assert (0 < 2 ^ k) by (apply Z.pow_pos_nonneg; lia).
    split; [apply Z.div_pos; lia|]. apply Z.div_lt_upper_bound; nia. }
  assert (Hbit : forall i, 0 <= i -> Z.testbit (Z.shiftr (uvalue g) n) i = if i + n <? 64 then Z.testbit (ulower g) (i + n) else Z.testbit (uupper g) (i + n - 64)).
  { intros i Hi. by rewrite Z.shiftr_spec, uvalue_testbit by (done || lia). }
  destruct (Z.eqb_spec n 64) as [-> |]; [|destruct (Z.ltb_spec n 64)]; apply uwords_bits; try done; try (apply Hg); try (by apply Hsmall; [apply Hg|lia]).
  - intros i Hi. rewrite Hbit by lia. destruct (Z.ltb_spec (i + 64) 64); [lia|]. f_equal. lia.
  - intros i Hi. rewrite Hbit, Z.bits_0 by lia. destruct (Z.ltb_spec (i + 64 + 64) 64); [lia|]. rewrite (testbit_u_high 64 (uupper g)); [done|apply Hg|lia].
  - by apply wrapu_range.
  - intros i Hi. pose proof (shifted_in (uupper g) (ulower g) (64 - n)) as Hin. replace (64 - (64 - n)) with n in Hin by lia.
    rewrite Hin by (apply Hg || lia). rewrite testbit_wrapu, Z.lor_spec, testbit_shl64, Z.shiftr_spec, Hbit by lia.
    destruct (Z.ltb_spec i 64), (Z.ltb_spec (i + n) 64), (Z.leb_spec (64 - n) i); cbn [andb orb]; try lia; try done.
    rewrite (testbit_u_high 64 (ulower g)) by (apply Hg || lia). rewrite orb_false_r. f_equal. lia.
  - intros i Hi. rewrite Z.shiftr_spec, Hbit by lia. destruct (Z.ltb_spec (i + 64 + n) 64); [lia|]. f_equal. lia.
  - intros i Hi. rewrite Z.shiftr_spec, Hbit by lia. destruct (Z.ltb_spec (i + n) 64); [lia|]. f_equal. lia.
  - intros i Hi. rewrite Hbit, Z.bits_0 by lia. destruct (Z.ltb_spec (i + 64 + n) 64); [lia|]. rewrite (testbit_u_high 64 (uupper g)); [done|apply Hg|lia].
Qed.

Lemma ushift_left_value g h : uhuge_ok g -> uhuge_ok h ->
  Uhugeint.shl g h = if uvalue h <? 128 then uwrapped (Z.shiftl (uvalue g) (uvalue h)) else uhugeint_of 0.
Proof.
  intros Hg Hh. unfold Uhugeint.shl. destruct (ushift_amount h Hh) as [-> Hn].
  destruct (Z.ltb_spec (uvalue h) 128) as [Hlt|]; cbn [negb]; [|done]. destruct (Hn Hlt) as [-> H0].
  generalize dependent (uvalue h). intros n _ Hlt H0. clear h Hh.
  destruct (Z.eqb_spec n 0) as [-> |]; [rewrite Z.shiftl_0_r, uwrapped_small, of_uvalue_uvalue by auto with duckdb; done|].
  assert (Hbit : forall i, 0 <= i < 128 -> Z.testbit (u128 (Z.shiftl (uvalue g) n)) i =
    (n <=? i) && (if i - n <? 64 then Z.testbit (ulower g) (i - n) else Z.testbit (uupper g) (i - n - 64))).
  { intros i Hi. rewrite testbit_wrapu by lia. destruct (Z.ltb_spec i 128); [|lia]. cbn [andb]. destruct (Z.leb_spec n i).
    - by rewrite Z.shiftl_spec, uvalue_testbit by (done || lia).
    - by rewrite Z.shiftl_spec_low. }
  unfold uwrapped.
  destruct (Z.eqb_spec n 64) as [-> |]; [|destruct (Z.ltb_spec n 64)]; apply uwords_bits; try done; try (apply Hg); try (by apply wrapu_range).
  - intros i Hi. rewrite Hbit, Z.bits_0 by lia. destruct (Z.leb_spec 64 i); [lia|done].
  - intros i Hi. rewrite Hbit by lia. destruct (Z.leb_spec 64 (i + 64)), (Z.ltb_spec (i + 64 - 64) 64); try lia. cbn [andb]. f_equal. lia.
  - intros i Hi. rewrite testbit_shl64, Hbit by lia. destruct (Z.ltb_spec i 64), (Z.ltb_spec (i - n) 64); try lia. done.
  - intros i Hi. rewrite shifted_in by (apply Hg || lia). rewrite testbit_wrapu, Z.lor_spec, testbit_shl64, Z.shiftr_spec, Hbit by lia.
    destruct (Z.ltb_spec i 64), (Z.leb_spec n (i + 64)), (Z.leb_spec n i), (Z.ltb_spec (i + 64 - n) 64); cbn [andb orb]; try lia.
    + rewrite (testbit_u_high 64 (ulower g)) by (apply Hg || lia). rewrite orb_false_r. f_equal. lia.
    + f_equal. lia.
  - intros i Hi. rewrite Hbit, Z.bits_0 by lia. destruct (Z.leb_spec n i); [lia|done].
  - intros i Hi. rewrite testbit_shl64, Hbit by lia.
    destruct (Z.ltb_spec i 64), (Z.leb_spec (n - 64) i), (Z.leb_spec n (i + 64)), (Z.ltb_spec (i + 64 - n) 64); cbn [andb]; try lia; try done. f_equal. lia.
Qed.

Section Bitwise.
Context (op : Z -> Z -> Z) (f : bool -> bool -> bool).
Context (Hop : forall a b i, 0 <= i -> Z.testbit (op a b) i = f (Z.testbit a i) (Z.testbit b i)) (Hf : f false false = false).

Lemma bitwise_range n a b : 0 <= n -> in_u n a -> in_u n b -> in_u n (op a b).
Proof.
  intros Hn Ha Hb. assert (Hhigh : forall k, n <= k -> Z.testbit (op a b) k = false).
  { intros k Hk. by rewrite Hop, (testbit_u_high n a), (testbit_u_high n b) by (done || lia). }
  apply u_of_testbit; [done| |done]. apply Z.le_ngt. intros Hneg. apply Z.bits_iff_neg_ex in Hneg as [k Hk].
  specialize (Hk (Z.max n (k + 1)) ltac:(lia)). rewrite Hhigh in Hk by lia. done.
Qed.

(** An operation on every bit of the words is that operation on the bits of the values. *)
Lemma ubitwise_value g h : uhuge_ok g -> uhuge_ok h ->
  mkUhuge (op (uupper g) (uupper h)) (op (ulower g) (ulower h)) = of_uvalue (op (uvalue g) (uvalue h)).
Proof.
  intros Hg Hh. apply uwords_bits; try (apply bitwise_range; auto with duckdb; (apply Hg || apply Hh || lia)); intros i Hi;
    rewrite !Hop, !uvalue_testbit by (done || lia).
  - by destruct (Z.ltb_spec i 64); [|lia].
  - destruct (Z.ltb_spec (i + 64) 64); [lia|]. by replace (i + 64 - 64) with i by lia.
Qed.
End Bitwise.

Lemma uand_value g h : uhuge_ok g -> uhuge_ok h -> Uhugeint.bit_and g h = of_uvalue (Z.land (uvalue g) (uvalue h)).
Proof. apply (ubitwise_value Z.land andb); [intros; apply Z.land_spec|done]. Qed.
Lemma uor_value g h : uhuge_ok g -> uhuge_ok h -> Uhugeint.bit_or g h = of_uvalue (Z.lor (uvalue g) (uvalue h)).
Proof. apply (ubitwise_value Z.lor orb); [intros; apply Z.lor_spec|done]. Qed.
Lemma uxor_value g h : uhuge_ok g -> uhuge_ok h -> Uhugeint.bit_xor g h = of_uvalue (Z.lxor (uvalue g) (uvalue h)).
Proof. apply (ubitwise_value Z.lxor xorb); [intros; apply Z.lxor_spec|done]. Qed.
Lemma unot_value h : uhuge_ok h -> Uhugeint.bit_not h = of_uvalue (2 ^ 128 - 1 - uvalue h).
Proof. intros Hh. unfold Uhugeint.bit_not, not64, Z.lnot, of_uvalue. f_equal; uwords. Qed.

(** ** Division *)

Lemma ubits_spec h : uhuge_ok h -> exists n, Uhugeint.Bits h = mret n /\ uvalue h < 2 ^ Z.of_nat n /\ (n <= 128)%nat.
Proof.
  intros Hh. unfold Uhugeint.Bits. destruct (Z.eqb_spec (uupper h) 0) as [E|E]; cbn [negb].
  - destruct (count_bits_spec 64 (ulower h) 0) as (n & -> & Hn & Hle); [apply Hh|]. exists n. split_and!; [done| |lia]. uwords.
  - destruct (count_bits_spec 64 (uupper h) 64) as (n & -> & Hn & Hle); [apply Hh|].
    exists (64 + n)%nat. split_and!; [done| |lia]. rewrite Nat2Z.inj_add, Z.pow_add_r by lia. change (Z.of_nat 64) with 64.
    assert (uvalue h < (uupper h + 1) * 2 ^ 64) by uwords. assert ((uupper h + 1) * 2 ^ 64 <= 2 ^ Z.of_nat n * 2 ^ 64) by nia. lia.
Qed.

Lemma uvalue_of_nat k : (k < 128)%nat -> uhuge_ok (uhugeint_of (Z.of_nat k)) /\ uvalue (uhugeint_of (Z.of_nat k)) = Z.of_nat k.
Proof. intros. apply uhugeint_of_ok. unfold in_u. numbers. lia. Qed.

Lemma uone_ok : uhuge_ok (uhugeint_of 1) /\ uvalue (uhugeint_of 1) = 1.
Proof. by apply uhugeint_of_ok. Qed.

Lemma ushift_one z : in_u 128 z -> Uhugeint.shl (of_uvalue z) (uhugeint_of 1) = uwrapped (2 * z).
Proof.
  intros Hz. destruct uone_ok as [Hok Hv]. rewrite ushift_left_value, Hv, uvalue_of by auto with duckdb.
  cbn [Z.ltb Z.compare Pos.compare Pos.compare_cont]. rewrite Z.shiftl_mul_pow2, Z.mul_comm by lia. done.
Qed.

Lemma uadd_one z : in_u 128 z -> Uhugeint.add (of_uvalue z) (uhugeint_of 1) = uwrapped (z + 1).
Proof. intros Hz. destruct uone_ok as [Hok Hv]. by rewrite uadd_wrapped, Hv, uvalue_of by auto with duckdb. Qed.

Lemma ubit_testbit h k : uhuge_ok h -> (k < 128)%nat ->
  Uhugeint.NotEquals (Uhugeint.bit_and (Uhugeint.shr h (uhugeint_of (Z.of_nat k))) (uhugeint_of 1)) (uhugeint_of 0) = Z.testbit (uvalue h) (Z.of_nat k).
Proof.
  intros Hh Hk. destruct uone_ok as [Hone Hv1], (uvalue_of_nat k Hk) as [Hkok Hkv].
  rewrite ushift_right_value, Hkv by done. destruct (Z.ltb_spec (Z.of_nat k) 128); [|lia].
  pose proof (uvalue_range h Hh) as [H0 H1]. assert (0 < 2 ^ Z.of_nat k) by (apply Z.pow_pos_nonneg; lia).
  assert (Hr : in_u 128 (Z.shiftr (uvalue h) (Z.of_nat k))).
  { rewrite Z.shiftr_div_pow2 by lia. split; [apply Z.div_pos; lia|]. apply Z.div_lt_upper_bound; nia. }
  rewrite uand_value, Hv1, uvalue_of by auto with duckdb. change 1 with (Z.ones 1) at 1. rewrite Z.land_ones by lia.
  unfold Uhugeint.NotEquals. rewrite uequals_value, uvalue_of by (first [by apply uhugeint_of_ok|apply of_uvalue_ok; unfold in_u; numbers; lia]).
  assert (Z.testbit (uvalue h) (Z.of_nat k) = (Z.shiftr (uvalue h) (Z.of_nat k) mod 2 =? 1)) as -> by (rewrite <- Z.bit0_eqb, Z.shiftr_spec by lia; done).
  change (uvalue (uhugeint_of 0)) with 0.
  generalize (Z.shiftr (uvalue h) (Z.of_nat k)). intros x. change (2 ^ 1) with 2.
  pose proof (Z.mod_pos_bound x 2). destruct (Z.eqb_spec (x mod 2) 0), (Z.eqb_spec (x mod 2) 1); cbn; lia || done.
Qed.

Lemma udivmod_loop_spec lhs rhs x q r : uhuge_ok lhs -> uhuge_ok rhs -> 0 < uvalue rhs -> (x <= 128)%nat ->
  0 <= q -> 0 <= r < uvalue rhs -> q * uvalue rhs + r = uvalue lhs / 2 ^ Z.of_nat x ->
  Uhugeint.divmod_loop x lhs rhs (of_uvalue q) (of_uvalue r) = (of_uvalue (uvalue lhs / uvalue rhs), of_uvalue (uvalue lhs mod uvalue rhs)).
Proof.
  intros Hl Hr Hr0. pose proof (uvalue_range lhs Hl) as Hvl. pose proof (uvalue_range rhs Hr) as Hvr.
  revert q r. induction x as [|x IH]; intros q r Hx Hq Hrem Heq; cbn [Uhugeint.divmod_loop].
  { cbn in Heq. rewrite Z.div_1_r in Heq. do 2 f_equal; [apply (Z.div_unique _ _ q r)|apply (Z.mod_unique _ _ q r)]; lia. }
  destruct (next_bit_division (2 ^ 128) (uvalue lhs) (uvalue rhs) q r x) as (Hr2 & Heq2 & Hq2 & Hq3 & Hlt); [done..|].
  rewrite ubit_testbit by (done || lia). set (r2 := 2 * r + _) in *.
  assert (0 <= 2 * r <= r2) by (unfold r2; destruct (Z.testbit _ _); cbn; lia).
  rewrite !ushift_one by (split; lia). rewrite !uwrapped_small by (split; lia).
  assert ((if Z.testbit (uvalue lhs) (Z.of_nat x) then Uhugeint.add (of_uvalue (2 * r)) (uhugeint_of 1) else of_uvalue (2 * r)) = of_uvalue r2) as ->.
  { unfold r2 in *. destruct (Z.testbit _ _); cbn [Z.b2z] in *; [by rewrite uadd_one, uwrapped_small by (split; lia)|by rewrite Z.add_0_r]. }
  assert (uhuge_ok (of_uvalue r2)) as Hok2 by by apply of_uvalue_ok.
  rewrite ugreater_equal_value, uvalue_of by done. destruct (Z.leb_spec (uvalue rhs) r2) as [Hle|Hgt].
  - rewrite uadd_one, usub_wrapped, uvalue_of, !uwrapped_small by (done || split; lia). apply IH; lia.
  - apply IH; lia.
Qed.

Lemma udivmod_exact g h : uhuge_ok g -> uhuge_ok h -> uvalue h <> 0 ->
  Uhugeint.DivMod g h = mret (of_uvalue (uvalue g / uvalue h), of_uvalue (uvalue g mod uvalue h)).
Proof.
  intros Hg Hh Hz. pose proof (uvalue_range g Hg) as [Hg0 _]. pose proof (uvalue_range h Hh) as [Hh0 _].
  assert (H0 : uhuge_ok (uhugeint_of 0)) by by apply uhugeint_of_ok. destruct uone_ok as [H1 Hv1].
  unfold Uhugeint.DivMod. rewrite !uequals_value, uless_value, Hv1 by done. change (uvalue (uhugeint_of 0)) with 0.
  destruct (Z.eqb_spec (uvalue h) 0); [done|].
  destruct (Z.eqb_spec (uvalue h) 1) as [-> |]; [by rewrite Z.div_1_r, Z.mod_1_r, of_uvalue_uvalue|].
  destruct (Z.eqb_spec (uvalue g) (uvalue h)) as [-> |]; [by rewrite Z.div_same, Z.mod_same|].
  destruct (_ || _) eqn:E; reflect_bools.
  - assert (uvalue g < uvalue h) by (apply orb_true_iff in E; rewrite Z.eqb_eq, Z.ltb_lt in E; lia). by rewrite Z.div_small, Z.mod_small, of_uvalue_uvalue by (done || lia).
  - destruct (ubits_spec g Hg) as (k & -> & Hk & Hle). cbn [mbind checked_bind mret checked_ret].
    change (uhugeint_of 0) with (of_uvalue 0).
    rewrite udivmod_loop_spec; try done; try lia. by rewrite Z.div_small by lia.
Qed.

(** ** Text and conversions *)

Lemma udigits_loop_spec fuel v s : 0 <= v < 10 ^ Z.of_nat fuel -> v < 2 ^ 128 ->
  Uhugeint.digits_loop fuel (of_uvalue v) s = mret (pretty_N_go (Z.to_N v) s).
Proof.
  revert v s. induction fuel as [|fuel IH]; intros v s Hv Hr; cbn [Uhugeint.digits_loop].
  - assert (v = 0) as -> by (cbn in Hv; lia). done.
  - destruct (_ && _) eqn:E; reflect_bools.
    + assert (v = 0) as -> by uwords. done.
    + assert (v <> 0) by (intros ->; done). assert (Hten : uhuge_ok (uhugeint_of 10) /\ uvalue (uhugeint_of 10) = 10) by by apply uhugeint_of_ok.
      destruct Hten as [Hten Hv10]. rewrite udivmod_exact, Hv10, uvalue_of; [|by apply of_uvalue_ok; split; lia|done|by rewrite Hv10].
      cbn [mbind checked_bind mret checked_ret]. rewrite Nat2Z.inj_succ, Z.pow_succ_r in Hv by lia. clear Hten Hv10 E. rewrite IH by words.
      rewrite (pretty_N_go_step (Z.to_N v)) by lia. f_equal. replace (ulower (of_uvalue (v mod 10))) with (v mod 10) by uwords.
      rewrite digit_char by words. f_equal; [lia|]. do 2 f_equal. lia.
Qed.

(** The text of a value is its decimal representation. *)
Lemma uto_string_pretty h : uhuge_ok h -> Uhugeint.ToString h = mret (pretty (uvalue h)).
Proof.
  intros Hh. pose proof (uvalue_range h Hh) as [H0 H1]. unfold Uhugeint.ToString. rewrite <- (of_uvalue_uvalue h Hh) at 1.
  rewrite udigits_loop_spec by (done || (split; [done|]; numbers; lia)). cbn [mbind checked_bind mret checked_ret].
  destruct (uvalue h) as [|v|v]; [done| |lia]. destruct (pretty_digits v) as (c & s & E & Epos & _).
  change (Z.to_N (Z.pos v)) with (N.pos v). by rewrite E, Epos.
Qed.

Lemma utry_cast_exact t h : uhuge_ok h ->
  Uhugeint.UhugeintTryCastInteger t h = if uvalue h <=? Maximum t then Some (uvalue h) else None.
Proof.
  intros Hh. unfold Uhugeint.UhugeintTryCastInteger. destruct (type_limits t) as (Hmin & Hmax & Hs).
  pose proof (cast_to_range t (ulower h)) as Hcast.
  assert (Minimum t <= 0) by (rewrite Hmin; destruct (is_signed t); lia). unfold u64_max in Hmax.
  destruct (Z.eqb_spec (uupper h) 0) as [E|E].
  - assert (uvalue h = ulower h) as -> by uwords. assert (0 <= ulower h) by uwords. cbn [andb].
    destruct (Z.leb_spec (ulower h) (Maximum t)); [|done]. by rewrite Hcast by lia.
  - assert (2 ^ 64 <= uvalue h) by uwords. cbn [andb]. destruct (Z.leb_spec (uvalue h) (Maximum t)); [numbers; lia|done].
Qed.

Lemma utry_convert_exact t z : Minimum t <= z <= Maximum t ->
  Uhugeint.TryConvert t z = if 0 <=? z then Some (of_uvalue z) else None.
Proof.
  intros Hz. unfold Uhugeint.TryConvert. destruct (type_limits t) as (Hmin & Hmax & _). rewrite Hmin in Hz. unfold u64_max in Hmax.
  assert (0 <= z -> mkUhuge 0 (u64 z) = of_uvalue z) by (intros; unfold of_uvalue; f_equal; words).
  destruct (is_signed t); cbn [andb]; destruct (Z.ltb_spec z 0), (Z.leb_spec 0 z); try lia; cbn [andb]; try done; by f_equal; auto.
Qed.

(** The same words, read with the other sign. *)
Lemma to_hugeint_value h : uhuge_ok h -> Uhugeint.to_hugeint h = wrapped (uvalue h).
Proof. intros. unfold Uhugeint.to_hugeint, wrapped, of_value. f_equal; uwords. Qed.

Lemma of_hugeint_value h : huge_ok h -> Uhugeint.of_hugeint h = uwrapped (value h).
Proof. intros. unfold Uhugeint.of_hugeint. unfold uwrapped, of_uvalue. f_equal; words. Qed.

Lemma try_cast_hugeint_exact h : uhuge_ok h -> Uhugeint.TryCastHugeint h = exact (uvalue h).
Proof.
  intros Hh. unfold Uhugeint.TryCastHugeint. rewrite ugreater_value by (done || by apply of_uvalue_ok).
  change (uvalue (Uhugeint.of_hugeint HugeintMaximum)) with (2 ^ 127 - 1).
  pose proof (uvalue_range h Hh) as [H0 H1]. destruct (Z.ltb_spec (2 ^ 127 - 1) (uvalue h)).
  - by rewrite exact_none by lia.
  - rewrite exact_some by (split; lia). unfold of_value. do 2 f_equal; uwords.
Qed.

Lemma try_cast_uhugeint_exact h : huge_ok h ->
  Uhugeint.TryCastUhugeint h = if 0 <=? value h then Some (of_uvalue (value h)) else None.
Proof.
  intros Hh. unfold Uhugeint.TryCastUhugeint. rewrite less_value by (done || by apply hugeint_of_ok).
  change (value (hugeint_of 0)) with 0. destruct (Z.ltb_spec (value h) 0), (Z.leb_spec 0 (value h)); try lia; [done|].
  unfold of_uvalue. do 2 f_equal; words.
Qed.
