(* ===== verification/HugeintTheorems.v ===== *)
(** * 128-bit integers: the theorems

    Every operation on two words is the operation on the integers they denote, up to the range the
    code promises; the versions with and without 128-bit machine integers agree. *)

From stdpp Require Import pretty.
From S2P Require Import Prelude Hugeint HugeintFacts HugeintDivisionFacts Uhugeint UhugeintFacts.

Local Open Scope Z_scope.

(** The result of an operation that promises [z] or the exception. *)
Definition promised (e : exception) (z : Z) : checked hugeint_t := if in_range z then mret (of_value z) else throw e.
Definition upromised (e : exception) (z : Z) : result uhugeint_t := if (0 <=? z) && (z <? 2 ^ 128) then Ok (of_uvalue z) else Throw e.

Lemma promised_exact e z m : m = mret (exact z) -> or_throw e m = promised e z.
Proof. intros ->. unfold or_throw, exact, promised. by destruct (in_range z). Qed.

Lemma in_range_ok z : in_s 128 z -> in_range z = true.
Proof. intros [? ?]. unfold in_range. apply andb_true_iff. split; [by apply Z.leb_le|by apply Z.ltb_lt]. Qed.

(** A quotient is in range unless the minimum is divided by minus one. *)
Lemma quotient_range v w : in_s 128 v -> w <> 0 -> (v = - 2 ^ 127 -> w <> -1) -> in_s 128 (Z.quot v w).
Proof.
  intros [Hlo Hhi] Hw Hne. change (128 - 1) with 127 in *. rewrite quot_signed by done.
  assert (0 < Z.abs w) by lia. assert (0 <= Z.abs v / Z.abs w <= Z.abs v).
  { split; [apply Z.div_pos; lia|]. apply Z.div_le_upper_bound; nia. }
  unfold in_s. change (128 - 1) with 127. destruct (Z.eq_dec v (- 2 ^ 127)) as [Ev|Ev].
  - destruct (Z.eq_dec w 1) as [-> |]; [rewrite Ev; by vm_compute|].
    assert (Z.abs v / Z.abs w <= 2 ^ 126) by (rewrite Ev; apply Z.div_le_upper_bound; [lia|]; specialize (Hne Ev); change (Z.abs (- 2 ^ 127)) with (2 * 2 ^ 126); nia).
    assert (2 ^ 126 < 2 ^ 127) by done. destruct (xorb _ _); lia.
  - destruct (xorb _ _); lia.
Qed.

(** The other overflow of a multiplication: the minimum from two other values. *)
Definition missing_product (v w : Z) : bool := (v * w =? - 2 ^ 127) && negb (v =? - 2 ^ 127) && negb (w =? - 2 ^ 127).

Section Signed.
Context (g h : hugeint_t) (Hg : huge_ok g) (Hh : huge_ok h).

(** C25. Signed arithmetic. No operation overflows a 64-bit word; addition, subtraction, negation and the
    absolute value return the exact result if it is in range and throw otherwise, and so does
    multiplication, except that it also throws when the product is the minimum of neither operand. *)
Theorem hugeint_arithmetic_exact `{Platform} :
  Add g h = promised (overflow_in "addition") (value g + value h) /\
  Subtract g h = promised (OutOfRangeException "Underflow in HUGEINT subtraction") (value g - value h) /\
  Negate g = promised negation_out_of_range (- value g) /\
  Abs g = promised negation_out_of_range (Z.abs (value g)) /\
  Multiply g h = if missing_product (value g) (value h) then throw (overflow_in "multiplication")
                 else promised (overflow_in "multiplication") (value g * value h).
Proof.
  split_and!.
  - by apply promised_exact, try_add_exact.
  - by apply promised_exact, try_subtract_exact.
  - by apply negate_exact.
  - unfold Abs. rewrite less_value by (done || by apply hugeint_of_ok). change (value (hugeint_of 0)) with 0.
    pose proof (value_range g Hg) as Hr. destruct (Z.ltb_spec (value g) 0).
    + rewrite negate_exact, Z.abs_neq by (done || lia). done.
    + unfold promised. by rewrite Z.abs_eq, in_range_ok, of_value_value by (done || lia).
  - unfold Multiply. rewrite try_multiply_exact by done. unfold multiplied, missing_product.
    destruct (_ && _); [done|]. by apply promised_exact.
Qed.

(** C26. The multiplications agree. With and without 128-bit machine integers, the wrapping and the checked
    multiplication compute the same, in any two builds. *)
Theorem hugeint_products_agree (P Q : Platform) :
  TryMultiply (H := P) g h = TryMultiply (H := Q) g h /\ Multiply (H := P) g h = Multiply (H := Q) g h /\
  HugeintMultiplyUnchecked (H := P) g h = HugeintMultiplyUnchecked (H := Q) g h.
Proof. unfold Multiply. by rewrite !try_multiply_exact, !multiply_unchecked_wrapped. Qed.

(** C27. Signed division. Division and modulo terminate without overflow, throw exactly for a zero divisor and
    for the minimum divided by minus one, and otherwise return the truncated quotient and the remainder
    with the sign of the dividend; [TryDivMod] refuses exactly the same operands. *)
Theorem hugeint_division_exact :
  let overflow := (value g =? - 2 ^ 127) && (value h =? -1) in
  Divide g h = (if value h =? 0 then throw division_by_zero else if overflow then throw (overflow_in "division")
                else mret (of_value (Z.quot (value g) (value h)))) /\
  Modulo g h = (if value h =? 0 then throw modulo_by_zero else if overflow then throw (overflow_in "modulo")
                else mret (of_value (Z.rem (value g) (value h)))) /\
  TryDivMod g h = mret (if (value h =? 0) || overflow then None
                        else Some (of_value (Z.quot (value g) (value h)), of_value (Z.rem (value g) (value h)))).
Proof.
  cbv zeta. unfold Divide, Modulo, TryDivMod, DivMod. rewrite equals_minimum, !equals_of by done.
  destruct (Z.eqb_spec (value h) 0) as [|Hz]; cbn [orb]; [done|]. destruct (_ && _) eqn:E; [done|].
  rewrite divmod_exact by done. cbn [mbind checked_bind mret checked_ret quotient remainder fst].
  assert (in_s 128 (Z.quot (value g) (value h))) as Hq.
  { apply quotient_range; [auto with duckdb|done|]. intros Eg Eh. by rewrite Eg, Eh in E. }
  by rewrite wrapped_small.
Qed.
End Signed.

(** Conversions. A cast of a 128-bit integer to an integer type returns the value exactly when the type
    holds it; converting an integer to 128 bits and casting back returns it; a signed and an unsigned
    128-bit integer are cast to each other exactly when the value is in range of the other. *)
Theorem hugeint_casts_round_trip (t : integer_type) (g : hugeint_t) (u : uhugeint_t) (z : Z) :
  huge_ok g -> uhuge_ok u -> Minimum t <= z <= Maximum t ->
  TryCast t g = (if (Minimum t <=? value g) && (value g <=? Maximum t) then Some (value g) else None) /\
  Uhugeint.UhugeintTryCastInteger t u = (if uvalue u <=? Maximum t then Some (uvalue u) else None) /\
  TryCast t (HugeintConvertInteger z) = Some z /\
  (Uhugeint.TryConvert t z ≫= Uhugeint.UhugeintTryCastInteger t) = (if 0 <=? z then Some z else None) /\
  Uhugeint.TryCastHugeint u = exact (uvalue u) /\
  Uhugeint.TryCastUhugeint g = (if 0 <=? value g then Some (of_uvalue (value g)) else None) /\
  Uhugeint.of_hugeint (Uhugeint.to_hugeint u) = u.
Proof.
  intros Hg Hu Hz. assert (Hz64 : in_s 64 z \/ in_u 64 z).
  { destruct (type_limits t) as (Hmin & Hmax & Hs). rewrite Hmin in Hz. destruct (is_signed t).
    - left. specialize (Hs eq_refl). words.
    - right. words. }
  split_and!; [by apply try_cast_exact|by apply utry_cast_exact| | |by apply try_cast_hugeint_exact|by apply try_cast_uhugeint_exact|].
  - rewrite convert_integer_value, try_cast_exact, value_of_value by (done || apply of_value_ok; clear Hg Hu; destruct Hz64; words).
    destruct (Z.leb_spec (Minimum t) z), (Z.leb_spec z (Maximum t)); cbn [andb]; lia || done.
  - rewrite utry_convert_exact by done. destruct (Z.leb_spec 0 z); cbn [mbind option_bind]; [|done].
    rewrite utry_cast_exact, uvalue_of by (apply of_uvalue_ok; clear Hg Hu; destruct Hz64; words).
    destruct (Z.leb_spec z (Maximum t)); lia || done.
  - rewrite to_hugeint_value, of_hugeint_value by (done || apply wrapped_ok). rewrite <- (of_uvalue_uvalue u Hu) at 2.
    pose proof (uvalue_range u Hu) as Hr. unfold uwrapped, wrapped. f_equal. rewrite value_of_value.
    clear Hg Hu Hz Hz64. destruct u. words.
Qed.

(** Bits. The operations on words are the operations on the two's complement bits of the values; an
    unsigned shift by [n] is the shift modulo [2 ^ 128], or zero from 128 on. A signed right shift is arithmetic
    and gives zero outside [0, 128); a left shift of a value that is not negative drops the bits from 127 on,
    except that a shift by exactly 64 keeps bit 127. *)
Theorem hugeint_bits_exact (g h : hugeint_t) (u w : uhugeint_t) : huge_ok g -> huge_ok h -> uhuge_ok u -> uhuge_ok w ->
  (hugeint_and g h = of_value (Z.land (value g) (value h)) /\ hugeint_or g h = of_value (Z.lor (value g) (value h)) /\
   hugeint_xor g h = of_value (Z.lxor (value g) (value h)) /\ hugeint_not g = of_value (Z.lnot (value g))) /\
  (Uhugeint.bit_and u w = of_uvalue (Z.land (uvalue u) (uvalue w)) /\ Uhugeint.bit_or u w = of_uvalue (Z.lor (uvalue u) (uvalue w)) /\
   Uhugeint.bit_xor u w = of_uvalue (Z.lxor (uvalue u) (uvalue w)) /\ Uhugeint.bit_not u = of_uvalue (2 ^ 128 - 1 - uvalue u)) /\
  (Uhugeint.shr u w = (if uvalue w <? 128 then of_uvalue (Z.shiftr (uvalue u) (uvalue w)) else uhugeint_of 0) /\
   Uhugeint.shl u w = (if uvalue w <? 128 then uwrapped (Z.shiftl (uvalue u) (uvalue w)) else uhugeint_of 0)) /\
  hugeint_shr g h = (if (0 <=? value h) && (value h <? 128) then of_value (Z.shiftr (value g) (value h)) else hugeint_of 0) /\
  hugeint_shl g h =
    (if (value g <? 0) || negb ((0 <=? value h) && (value h <? 128)) then hugeint_of 0
     else if value h =? 64 then wrapped (Z.shiftl (value g) 64)
     else of_value (Z.shiftl (value g) (value h) mod 2 ^ 127)).
Proof.
  intros. split_and!.
  - apply (bitwise_value Z.land andb); [intros; apply Z.land_spec|done..].
  - apply (bitwise_value Z.lor orb); [intros; apply Z.lor_spec|done..].
  - apply (bitwise_value Z.lxor xorb); [intros; apply Z.lxor_spec|done..].
  - by apply not_value.
  - by apply uand_value.
  - by apply uor_value.
  - by apply uxor_value.
  - by apply unot_value.
  - by apply ushift_right_value.
  - by apply ushift_left_value.
  - by apply shift_right_value.
  - by apply shift_left_value.
Qed.

(** Unsigned arithmetic. Addition returns the exact sum or throws; division and modulo terminate and are
    exact, and throw for a zero divisor; the wrapping multiplication is exact modulo [2 ^ 128] in every build, and
    the checked one is exact with 128-bit machine integers. Without them a reported overflow is one, but
    overflows can be missed; and so can the underflow of a subtraction, when the subtrahend's upper word is
    [2 ^ 64 - 1]: the value that is returned is then the one modulo [2 ^ 128]. *)
Theorem uhugeint_arithmetic_exact (P : Platform) (g h : uhugeint_t) : uhuge_ok g -> uhuge_ok h ->
  Uhugeint.Add g h = upromised (OutOfRangeException "Overflow in UHUGEINT addition") (uvalue g + uvalue h) /\
  Uhugeint.Divide g h = (if uvalue h =? 0 then throw (OutOfRangeException "Division of UHUGEINT by zero")
                         else mret (of_uvalue (uvalue g / uvalue h))) /\
  Uhugeint.Modulo g h = (if uvalue h =? 0 then throw (OutOfRangeException "Modulo of UHUGEINT by zero")
                         else mret (of_uvalue (uvalue g mod uvalue h))) /\
  Uhugeint.MultiplyUnchecked g h = uwrapped (uvalue g * uvalue h) /\
  (if HasInt128 then Uhugeint.Multiply g h = upromised (OutOfRangeException "Overflow in UHUGEINT multiplication") (uvalue g * uvalue h)
   else match Uhugeint.TryMultiply g h with Some r => r = uwrapped (uvalue g * uvalue h) | None => 2 ^ 128 <= uvalue g * uvalue h end) /\
  (if (uupper h =? u64_max) && (uvalue g <? uvalue h) && (ulower g <? ulower h)
   then Uhugeint.Subtract g h = Ok (of_uvalue (uvalue g - uvalue h + 2 ^ 128))
   else Uhugeint.Subtract g h = upromised (OutOfRangeException "Underflow in HUGEINT subtraction") (uvalue g - uvalue h)).
Proof.
  intros Hg Hh. pose proof (uvalue_range g Hg) as [Hg0 Hg1]. pose proof (uvalue_range h Hh) as [Hh0 Hh1].
  assert (Hmul : 0 <= uvalue g * uvalue h) by nia. assert (Hz : uhuge_ok (uhugeint_of 0)) by by apply uhugeint_of_ok. split_and!.
  - unfold Uhugeint.Add, Uhugeint.or_overflow, upromised. rewrite utry_add_exact by done. cbn [fst snd].
    destruct (Z.leb_spec 0 (uvalue g + uvalue h)), (Z.ltb_spec (uvalue g + uvalue h) (2 ^ 128)); cbn [andb]; try lia; [|done].
    by rewrite uwrapped_small.
  - unfold Uhugeint.Divide. rewrite uequals_value by done. change (uvalue (uhugeint_of 0)) with 0.
    destruct (Z.eqb_spec (uvalue h) 0); [done|]. by rewrite udivmod_exact.
  - unfold Uhugeint.Modulo. rewrite uequals_value by done. change (uvalue (uhugeint_of 0)) with 0.
    destruct (Z.eqb_spec (uvalue h) 0); [done|]. by rewrite udivmod_exact.
  - by apply umultiply_unchecked_wrapped.
  - destruct HasInt128 eqn:HP; [|by apply umultiply_parts]. unfold Uhugeint.Multiply, upromised. rewrite umultiply_int128 by done.
    destruct (Z.leb_spec 0 (uvalue g * uvalue h)); [|lia]. cbn [andb]. by destruct (uvalue g * uvalue h <? 2 ^ 128).
  - unfold Uhugeint.Subtract, Uhugeint.or_overflow, upromised. rewrite utry_subtract_flag by done. cbn [fst snd]. unfold subtracted.
    rewrite (Z.ltb_antisym (uvalue h)). destruct (Z.leb_spec (uvalue h) (uvalue g)) as [Hle|Hlt]; cbn [negb orb].
    + rewrite andb_false_r. cbn [andb]. rewrite uwrapped_small by (split; lia).
      destruct (Z.leb_spec 0 (uvalue g - uvalue h)), (Z.ltb_spec (uvalue g - uvalue h) (2 ^ 128)); cbn [andb]; lia || done.
    + rewrite andb_true_r. destruct (_ && _) eqn:E; rewrite ?E.
      * unfold uwrapped. do 2 f_equal. symmetry. apply Z.mod_unique with (-1); lia.
      * destruct (Z.leb_spec 0 (uvalue g - uvalue h)); cbn [andb]; lia || done.
Qed.

(** ** Witnesses and counterexamples *)

Module HugeintRun.

Definition with_int128 : Platform := {| HasInt128 := true |}.
Definition without_int128 : Platform := {| HasInt128 := false |}.
Definition minus_one : hugeint_t := hugeint_of (-1).

Lemma minus_one_ok : huge_ok minus_one.
Proof. by apply hugeint_of_ok. Qed.
Lemma minimum_words_ok : huge_ok HugeintMinimum.
Proof. apply minimum_ok. Qed.

(** The minimum minus one is out of range, plus one is not; its absolute value is not, its product with minus one neither. *)
Lemma hugeint_arithmetic_exact_witness :
  Add HugeintMinimum minus_one = throw (overflow_in "addition") /\
  Subtract HugeintMinimum minus_one = mret (of_value (- 2 ^ 127 + 1)) /\
  Negate HugeintMinimum = throw negation_out_of_range /\ Abs HugeintMinimum = throw negation_out_of_range /\
  Multiply (H := without_int128) HugeintMinimum minus_one = throw (overflow_in "multiplication").
Proof.
  destruct (hugeint_arithmetic_exact HugeintMinimum minus_one minimum_words_ok minus_one_ok (H := without_int128)) as (Ha & Hs & Hn & Hb & Hm).
  split_and!; [exact Ha|exact Hs|exact Hn|exact Hb|exact Hm].
Defined.

Lemma hugeint_products_agree_witness :
  TryMultiply (H := with_int128) minus_one minus_one = TryMultiply (H := without_int128) minus_one minus_one /\
  TryMultiply (H := without_int128) minus_one minus_one = mret (Some (hugeint_of 1)).
Proof.
  split; [|by vm_compute].
  apply (hugeint_products_agree minus_one minus_one minus_one_ok minus_one_ok with_int128 without_int128).
Defined.

(** Minus seven divided by two, and the overflow. *)
Lemma hugeint_division_exact_witness :
  (Divide (hugeint_of (-7)) (hugeint_of 2) = mret (hugeint_of (-3)) /\ Modulo (hugeint_of (-7)) (hugeint_of 2) = mret minus_one) /\
  Divide HugeintMinimum minus_one = throw (overflow_in "division").
Proof.
  split.
  - assert (huge_ok (hugeint_of (-7)) /\ huge_ok (hugeint_of 2)) as [H7 H2] by (split; by apply hugeint_of_ok).
    destruct (hugeint_division_exact (hugeint_of (-7)) (hugeint_of 2) H7 H2) as (Hd & Hm & _). split; [exact Hd|exact Hm].
  - exact (proj1 (hugeint_division_exact HugeintMinimum minus_one minimum_words_ok minus_one_ok)).
Defined.

Lemma hugeint_casts_round_trip_witness :
  TryCast UINT8 minus_one = None /\ TryCast INT8 (HugeintConvertInteger 7) = Some 7 /\
  Uhugeint.TryCastHugeint (mkUhuge (2 ^ 63) 0) = None.
Proof.
  assert (uhuge_ok (mkUhuge (2 ^ 63) 0)) as Hu by by constructor.
  destruct (hugeint_casts_round_trip UINT8 minus_one (mkUhuge (2 ^ 63) 0) 7 minus_one_ok Hu) as (Hc & _ & _ & _ & Hh & _); [done|].
  destruct (hugeint_casts_round_trip INT8 minus_one (mkUhuge (2 ^ 63) 0) 7 minus_one_ok Hu) as (_ & _ & Hr & _); [done|].
  split_and!; [exact Hc|exact Hr|exact Hh].
Defined.

Lemma hugeint_bits_exact_witness :
  hugeint_shr HugeintMinimum (hugeint_of 127) = minus_one /\ hugeint_not minus_one = hugeint_of 0 /\
  Uhugeint.shl (uhugeint_of 3) (uhugeint_of 127) = mkUhuge (2 ^ 63) 0.
Proof.
  assert (uhuge_ok (uhugeint_of 3) /\ uhuge_ok (uhugeint_of 127) /\ huge_ok (hugeint_of 127)) as (H3 & H127 & Hs).
  { split_and!; [by apply uhugeint_of_ok..|by apply hugeint_of_ok]. }
  destruct (hugeint_bits_exact HugeintMinimum (hugeint_of 127) (uhugeint_of 3) (uhugeint_of 127) minimum_words_ok Hs H3 H127) as (_ & _ & (_ & Hl) & Hr & _).
  destruct (hugeint_bits_exact minus_one minus_one (uhugeint_of 3) (uhugeint_of 127) minus_one_ok minus_one_ok H3 H127) as ((_ & _ & _ & Hn) & _).
  split_and!; [exact Hr|exact Hn|exact Hl].
Defined.

(** The underflow that is missed, and one that is not. *)
Lemma uhugeint_arithmetic_exact_witness :
  Uhugeint.Subtract (uhugeint_of 0) (mkUhuge u64_max u64_max) = Ok (uhugeint_of 1) /\
  Uhugeint.Subtract (uhugeint_of 0) (uhugeint_of 1) = Throw (OutOfRangeException "Underflow in HUGEINT subtraction").
Proof.
  assert (uhuge_ok (uhugeint_of 0) /\ uhuge_ok (uhugeint_of 1) /\ uhuge_ok (mkUhuge u64_max u64_max)) as (H0 & H1 & Hm).
  { split_and!; [by apply uhugeint_of_ok..|by constructor]. }
  destruct (uhugeint_arithmetic_exact with_int128 (uhugeint_of 0) (mkUhuge u64_max u64_max) H0 Hm) as (_ & _ & _ & _ & _ & Ha).
  destruct (uhugeint_arithmetic_exact with_int128 (uhugeint_of 0) (uhugeint_of 1) H0 H1) as (_ & _ & _ & _ & _ & Hb).
  split; [exact Ha|exact Hb].
Defined.

(** The multiplication reports an overflow for a product that is in range. *)
Theorem hugeint_multiply_misses_minimum :
  let g := of_value (- 2 ^ 126) in let h := hugeint_of 2 in
  huge_ok g /\ huge_ok h /\ value g * value h = value HugeintMinimum /\
  Multiply (H := with_int128) g h = throw (overflow_in "multiplication").
Proof. split_and!; [by apply of_value_ok|by apply hugeint_of_ok|done|by vm_compute]. Qed.

(** Without 128-bit machine integers an unsigned product that overflows is returned as zero. *)
Theorem uhugeint_multiply_misses_overflow :
  Uhugeint.Multiply (H := without_int128) (of_uvalue (2 ^ 96)) (of_uvalue (2 ^ 96)) = Ok (uhugeint_of 0).
Proof. by vm_compute. Qed.

(** A left shift by 64 reaches the sign bit, a shift of the same value by any other way does not. *)
Theorem hugeint_shift_reaches_sign :
  hugeint_shl (of_value (2 ^ 63)) (hugeint_of 64) = HugeintMinimum /\ hugeint_shl (of_value (2 ^ 64)) (hugeint_of 63) = hugeint_of 0.
Proof. split; by vm_compute. Qed.

End HugeintRun.
