(* ===== verification/IntegerOps.v ===== *)
(** * Arithmetic on integers and decimals

    Models the checked operations of [function/scalar/operator/add.cpp], [subtract.cpp] and
    [multiply.cpp], and [TryCastWithOverflowCheck] of [common/operator/numeric_cast.hpp], for the
    integer types of 8 to 64 bits, the 128-bit ones and the decimals. A decimal of width 4, 9, 18 or
    38 is stored in an integer of 16, 32, 64 or 128 bits. Where the code has one version for compilers
    with overflow builtins and one for others, [HasOverflowBuiltins] chooses. *)

From S2P Require Import Prelude Hugeint Uhugeint.

Local Open Scope Z_scope.

(** ** Functions that return [false]

    A function that returns [bool] and sets its result is an [attempt]: it sets the result, returns
    [false], throws or is undefined. *)

Definition attempt (A : Type) : Type := checked (option A).
#[export] Instance attempt_ret : MRet attempt := fun A x => Some (Ok (Some x)).
#[export] Instance attempt_bind : MBind attempt := fun A B f m =>
  match m with
  | Some (Ok (Some x)) => f x
  | Some (Ok None) => Some (Ok None)
  | Some (Throw e) => Some (Throw e)
  | None => None
  end.
Definition return_false {A} : attempt A := Some (Ok None).
(** A computation that does not return a flag. *)
Definition run {A} (m : checked A) : attempt A := m ≫= fun x => mret (Some x).

(** [__GNUC__ >= 5] or clang *)
Class Compiler := { HasOverflowBuiltins : bool }.

(** ** Machine arithmetic *)

(** The type arithmetic is done in: narrow types are promoted to [int]. *)
Definition promoted (t : integer_type) : integer_type :=
  match t with INT8 | INT16 | UINT8 | UINT16 | INT32 => INT32 | UINT32 => UINT32 | INT64 => INT64 | UINT64 => UINT64 end.

(** The result of an operation on values of the type: signed overflow is undefined. *)
Definition arith (t : integer_type) (z : Z) : checked Z :=
  if is_signed (promoted t) then
    if (Minimum (promoted t) <=? z) && (z <=? Maximum (promoted t)) then mret z else None
  else mret (cast_to (promoted t) z).

(** [NumericLimits<T>::Digits] *)
Definition Digits (t : integer_type) : Z :=
  match t with INT8 | UINT8 => 3 | INT16 | UINT16 => 5 | INT32 | UINT32 => 10 | INT64 => 19 | UINT64 => 20 end.

(** ** Casts between integer types *)

Definition TryCastWithOverflowCheck (SRC DST : integer_type) (value : Z) : option Z :=
  if negb (Bool.eqb (is_signed SRC) (is_signed DST)) then
    if is_signed SRC then
      if Digits SRC >? Digits DST then
        if (value <? 0) || (value >? cast_to SRC (Maximum DST)) then None else Some (cast_to DST value)
      else if value <? 0 then None else Some (cast_to DST value)
    else if Digits SRC >=? Digits DST then
      if value <=? cast_to SRC (Maximum DST) then Some (cast_to DST value) else None
    else Some (cast_to DST value)
  else if Digits DST >=? Digits SRC then Some (cast_to DST value)
  else if (value <? cast_to SRC (Minimum DST)) || (value >? cast_to SRC (Maximum DST)) then None
  else Some (cast_to DST value).

(** ** Checked operations *)

(** The type the operation is done in before the result is checked. *)
Definition wider (t : integer_type) : integer_type :=
  match t with
  | INT8 => INT16 | INT16 => INT32 | INT32 => INT64 | INT64 => INT64
  | UINT8 => UINT16 | UINT16 => UINT32 | UINT32 => UINT64 | UINT64 => UINT64
  end.

(** [OverflowCheckedAddition], [OverflowCheckedSubtract] and [OverflowCheckedMultiply] *)
Definition OverflowChecked (op : Z -> Z -> Z) (SRCTYPE UTYPE : integer_type) (left right : Z) : attempt Z :=
  uresult ← run (arith UTYPE (op (cast_to UTYPE left) (cast_to UTYPE right)));
  let uresult := cast_to UTYPE uresult in
  if (uresult <? Minimum SRCTYPE) || (uresult >? Maximum SRCTYPE) then return_false
  else mret (cast_to SRCTYPE uresult).

(** [__builtin_add_overflow] and its relatives on [int64_t] *)
Definition builtin_overflow (op : Z -> Z -> Z) (left right : Z) : attempt Z :=
  if (i64_min <=? op left right) && (op left right <=? i64_max) then mret (op left right) else return_false.

Definition TryAdd64 `{Compiler} (left right : Z) : attempt Z :=
  if HasOverflowBuiltins then builtin_overflow Z.add left right
  else
    let result := i64 (u64 (u64 left + u64 right)) in
    if ((left <? 0) && (right <? 0) && (result >=? 0)) || ((left >=? 0) && (right >=? 0) && (result <? 0)) then return_false
    else mret result.

Definition TryAddOperator `{Compiler} (t : integer_type) (left right : Z) : attempt Z :=
  match t with
  | INT64 => TryAdd64 left right
  | UINT64 => if u64 (u64_max - left) <? right then return_false else OverflowChecked Z.add UINT64 UINT64 left right
  | _ => OverflowChecked Z.add t (wider t) left right
  end.

Definition TrySubtract64 `{Compiler} (left right : Z) : attempt Z :=
  if HasOverflowBuiltins then builtin_overflow Z.sub left right
  else
    bound ← run (s64 ((if right <? 0 then i64_max else i64_min) + right));
    if if right <? 0 then bound <? left else bound >? left then return_false
    else run (s64 (left - right)).

Definition TrySubtractOperator `{Compiler} (t : integer_type) (left right : Z) : attempt Z :=
  match t with
  | INT64 => TrySubtract64 left right
  | _ =>
      if negb (is_signed t) && (right >? left) then return_false
      else OverflowChecked Z.sub t (wider t) left right
  end.

(** The product of two words of which only one may have high bits. *)
Definition high_product_overflows (low_left high_left low_right : Z) : bool :=
  let low_low := u64 (low_left * low_right) in
  let high_low := u64 (high_left * low_right) in
  let high_bits := u64 (high_low + Z.shiftr low_low 32) in
  negb (Z.land high_bits 72057591890444288 =? 0).

(** Whether the multiplication without builtins returns [false], given the absolute values. *)
Definition multiply_overflows (left_non_negative right_non_negative : Z) : bool :=
  let left_high_bits := Z.shiftr left_non_negative 32 in
  let left_low_bits := low32 left_non_negative in
  let right_high_bits := Z.shiftr right_non_negative 32 in
  let right_low_bits := low32 right_non_negative in
  if left_high_bits =? 0 then
    if negb (right_high_bits =? 0) then high_product_overflows right_low_bits right_high_bits left_low_bits else false
  else if right_high_bits =? 0 then high_product_overflows left_low_bits left_high_bits right_low_bits
  else true.

Definition TryMultiply64 `{Compiler} (left right : Z) : attempt Z :=
  if HasOverflowBuiltins then builtin_overflow Z.mul left right
  else if left =? i64_min then
    if right =? 0 then mret 0 else if right =? 1 then mret left else return_false
  else if right =? i64_min then
    if left =? 0 then mret 0 else if left =? 1 then mret right else return_false
  else if multiply_overflows (u64 (Z.abs left)) (u64 (Z.abs right)) then return_false
  else run (s64 (left * right)).

Definition TryMultiplyU64 (left right : Z) : attempt Z :=
  let '(lesser, greater) := if left >? right then (right, left) else (left, right) in
  if lesser >? 4294967295 then return_false
  else
    let c := wrapu 32 (Z.shiftr greater 32) in
    let d := wrapu 32 (low32 greater) in
    let r := u64 (lesser * c) in
    let s := u64 (lesser * d) in
    if r >? 4294967295 then return_false
    else
      let r := shl64 r 32 in
      if u64 (u64_max - s) <? r then return_false else OverflowChecked Z.mul UINT64 UINT64 lesser greater.

Definition TryMultiplyOperator `{Compiler} (t : integer_type) (left right : Z) : attempt Z :=
  match t with
  | INT64 => TryMultiply64 left right
  | UINT64 => TryMultiplyU64 left right
  | _ => OverflowChecked Z.mul t (wider t) left right
  end.

(** ** Decimals *)

(** [TryDecimalAddTemplated] and its relatives on the stored integers *)
Definition TryDecimalAddTemplated (t : integer_type) (min max left right : Z) : attempt Z :=
  bound ← run (arith t ((if right <? 0 then min else max) - right));
  if if right <? 0 then bound >? left else bound <? left then return_false
  else sum ← run (arith t (left + right)); mret (cast_to t sum).

Definition TryDecimalSubtractTemplated (t : integer_type) (min max left right : Z) : attempt Z :=
  bound ← run (arith t ((if right <? 0 then max else min) + right));
  if if right <? 0 then bound <? left else bound >? left then return_false
  else difference ← run (arith t (left - right)); mret (cast_to t difference).

Definition TryDecimalMultiplyTemplated `{Compiler} (t : integer_type) (min max left right : Z) : attempt Z :=
  result ← TryMultiplyOperator t left right;
  if (result <? min) || (result >? max) then return_false else mret result.

(** The stored integers of the widths up to 18. *)
Inductive decimal_type := DECIMAL4 | DECIMAL9 | DECIMAL18.

Definition stored_in (d : decimal_type) : integer_type :=
  match d with DECIMAL4 => INT16 | DECIMAL9 => INT32 | DECIMAL18 => INT64 end.
Definition decimal_max (d : decimal_type) : Z :=
  match d with DECIMAL4 => 9999 | DECIMAL9 => 999999999 | DECIMAL18 => 999999999999999999 end.

Definition TryDecimalAdd (d : decimal_type) : Z -> Z -> attempt Z :=
  TryDecimalAddTemplated (stored_in d) (- decimal_max d) (decimal_max d).
Definition TryDecimalSubtract (d : decimal_type) : Z -> Z -> attempt Z :=
  TryDecimalSubtractTemplated (stored_in d) (- decimal_max d) (decimal_max d).
Definition TryDecimalMultiply `{Compiler} (d : decimal_type) : Z -> Z -> attempt Z :=
  TryDecimalMultiplyTemplated (stored_in d) (- decimal_max d) (decimal_max d).

(** A decimal of width 38: the operation, and whether the result has at most 38 digits. *)
Definition HugeDecimal `{Platform} (operation : hugeint_t -> hugeint_t -> checked (option hugeint_t)) (left right : hugeint_t)
    : attempt hugeint_t :=
  let limit := nth 38 POWERS_OF_TEN (hugeint_of 0) in
  result ← (operation left right : attempt hugeint_t);
  if HugeintLessThanEquals result (HugeintNegate limit) || HugeintGreaterThanEquals result limit then return_false
  else mret result.
