(* ===== verification/IntegerOpsFacts.v ===== *)
(** * Arithmetic on integers and decimals: exactness *)

From S2P Require Import Prelude Hugeint HugeintFacts HugeintDivisionFacts Uhugeint UhugeintFacts IntegerOps.

Local Open Scope Z_scope.

(** ** Ranges of the types *)

Definition in_type (t : integer_type) (z : Z) : bool := (Minimum t <=? z) && (z <=? Maximum t).
Abbreviation of_type t z := (Minimum t <= z <= Maximum t).

(** What a checked operation promises. *)
Definition checked_result (fits : bool) (z : Z) : attempt Z := if fits then mret z else return_false.
Abbreviation exactly t z := (checked_result (in_type t z) z).

Lemma in_type_spec t z : reflect (of_type t z) (in_type t z).
Proof. apply iff_reflect. unfold in_type. rewrite andb_true_iff, !Z.leb_le. done. Qed.

(** The limits as numbers. *)
Ltac limits := unfold Minimum, Maximum, cast_to, promoted, wider in *; cbn [is_signed width] in *.

Lemma arith_exact t z : of_type (promoted t) z -> arith t z = mret z.
Proof.
  intros Hz. unfold arith. fold (in_type (promoted t) z). destruct (in_type_spec (promoted t) z); [|done].
  rewrite cast_to_range by done. by destruct (is_signed _).
Qed.

Lemma arith_bind {A} t z (f : Z -> attempt A) : of_type (promoted t) z -> (run (arith t z) ≫= f) = f z.
Proof. intros Hz. by rewrite arith_exact. Qed.

Lemma s64_run {A} z (f : Z -> attempt A) : in_s 64 z -> (run (s64 z) ≫= f) = f z.
Proof. intros Hz. by rewrite s64_ok. Qed.

Lemma promoted_range t z : of_type t z -> of_type (promoted t) z.
Proof. destruct t; limits; lia. Qed.

(** ** Casts *)

(** Evaluates what does not depend on a value. *)
Ltac evaluate :=
  repeat match goal with
  | |- context [Digits ?a >? Digits ?b] => let v := eval vm_compute in (Digits a >? Digits b) in change (Digits a >? Digits b) with v
  | |- context [Digits ?a >=? Digits ?b] => let v := eval vm_compute in (Digits a >=? Digits b) in change (Digits a >=? Digits b) with v
  | |- context [cast_to ?a (Minimum ?b)] => let v := eval vm_compute in (cast_to a (Minimum b)) in change (cast_to a (Minimum b)) with v
  | |- context [cast_to ?a (Maximum ?b)] => let v := eval vm_compute in (cast_to a (Maximum b)) in change (cast_to a (Maximum b)) with v
  | |- context [Minimum ?a] => let v := eval vm_compute in (Minimum a) in change (Minimum a) with v
  | |- context [Maximum ?a] => let v := eval vm_compute in (Maximum a) in change (Maximum a) with v
  end.
Ltac compare_all := repeat match goal with |- context [?a <=? ?b] => destruct (Z.leb_spec a b) | |- context [?a <? ?b] => destruct (Z.ltb_spec a b) end.

(** A cast between integer types succeeds exactly when the target holds the value. *)
Lemma try_cast_check_exact SRC DST z : of_type SRC z ->
  TryCastWithOverflowCheck SRC DST z = if in_type DST z then Some z else None.
Proof.
  pose proof (cast_to_range DST z) as Hcast. revert Hcast. unfold in_type, TryCastWithOverflowCheck. generalize (cast_to DST z). intros c.
  destruct SRC, DST; evaluate; cbn [is_signed Bool.eqb negb]; evaluate; rewrite ?Z.gtb_ltb; intros Hcast Hz; compare_all; cbn [andb orb];
    first [done|lia|by rewrite Hcast by lia].
Qed.

(** ** Operations done in a wider type *)

Lemma overflow_checked_exact op SRC UTYPE l r : of_type UTYPE l -> of_type UTYPE r -> of_type (promoted UTYPE) (op l r) -> of_type UTYPE (op l r) ->
  (forall z, of_type SRC z -> of_type UTYPE z) -> OverflowChecked op SRC UTYPE l r = exactly SRC (op l r).
Proof.
  intros Hl Hr Hp Hu Hsub. unfold OverflowChecked. rewrite !(cast_to_range UTYPE) by done. rewrite arith_bind by done.
  rewrite (cast_to_range UTYPE) by done. rewrite Z.gtb_ltb. unfold checked_result. destruct (in_type_spec SRC (op l r)).
  - destruct (Z.ltb_spec (op l r) (Minimum SRC)), (Z.ltb_spec (Maximum SRC) (op l r)); cbn [orb]; try lia. by rewrite cast_to_range.
  - destruct (Z.ltb_spec (op l r) (Minimum SRC)), (Z.ltb_spec (Maximum SRC) (op l r)); cbn [orb]; done || lia.
Qed.

Lemma wider_range t z : of_type t z -> of_type (wider t) z.
Proof. destruct t; limits; numbers; lia. Qed.

Lemma builtin_exact op l r : builtin_overflow op l r = exactly INT64 (op l r).
Proof. done. Qed.

Ltac wide := first [apply wider_range; done|intros; by apply wider_range|limits; numbers; lia].

Section Operations.
Context `{Compiler}.

Lemma try_add_operator_exact t l r : of_type t l -> of_type t r -> TryAddOperator t l r = exactly t (l + r).
Proof.
  intros Hl Hr. unfold TryAddOperator. destruct t; try (apply overflow_checked_exact; wide).
  - unfold TryAdd64. destruct HasOverflowBuiltins; [done|]. limits. unfold checked_result, in_type. limits. rewrite !Z.geb_leb.
    destruct (Z.leb_spec (- 2 ^ (64 - 1)) (l + r)), (Z.leb_spec (l + r) (2 ^ (64 - 1) - 1)); cbn [andb];
      match goal with |- context [if ?b then _ else _] => destruct b eqn:E end;
      rewrite ?orb_true_iff, ?orb_false_iff, ?andb_true_iff, ?andb_false_iff, ?Z.ltb_lt, ?Z.ltb_ge, ?Z.leb_le, ?Z.leb_gt in E;
      first [done|words|unfold mret, attempt_ret; do 3 f_equal; words].
  - destruct (Z.ltb_spec (u64 (u64_max - l)) r) as [Hlt|Hge].
    + unfold checked_result. destruct (in_type_spec UINT64 (l + r)); [|done]. limits. words.
    + apply overflow_checked_exact; try done; limits; words.
Qed.

Lemma try_subtract_operator_exact t l r : of_type t l -> of_type t r -> TrySubtractOperator t l r = exactly t (l - r).
Proof.
  intros Hl Hr. unfold TrySubtractOperator. rewrite Z.gtb_ltb.
  assert (Hunsigned : is_signed t = false -> (if negb (is_signed t) && (l <? r) then return_false else OverflowChecked Z.sub t (wider t) l r) = exactly t (l - r)).
  { intros Hs. rewrite Hs. cbn [negb andb]. destruct (Z.ltb_spec l r).
    - unfold checked_result. destruct (in_type_spec t (l - r)); [|done]. destruct t; limits; lia || done.
    - apply overflow_checked_exact; try (by apply wider_range); [..|try (intros; by apply wider_range)];
        destruct t; try done; limits; numbers; lia. }
  destruct t; try (by apply Hunsigned); try (cbn [is_signed negb andb]; apply overflow_checked_exact; wide).
  unfold TrySubtract64. destruct HasOverflowBuiltins; [done|]. limits. numbers. unfold checked_result, in_type. limits.
  destruct (Z.ltb_spec r 0); rewrite s64_run by words; rewrite ?Z.gtb_ltb; unfold i64_max, i64_min; numbers; compare_all; cbn [andb]; try done; try lia.
  all: unfold run; by rewrite s64_ok by words.
Qed.

(** The product of two values with high bits in at most one of them. *)
Lemma high_product_exact low_left high_left low_right : 0 <= low_left < 2 ^ 32 -> 0 <= high_left < 2 ^ 31 -> 0 <= low_right < 2 ^ 32 ->
  (high_left * 2 ^ 32 + low_left) * low_right < 2 ^ 63 -> high_product_overflows low_left high_left low_right = false.
Proof.
  intros H1 H2 H3 Hp. unfold high_product_overflows. rewrite Z.shiftr_div_pow2 by lia.
  assert (0 <= low_left * low_right < 2 ^ 64) by (numbers; nia). assert (0 <= high_left * low_right < 2 ^ 63) by (numbers; nia).
  rewrite !(wrapu_small 64 (_ * _)) by (split; numbers; lia).
  assert (high_left * low_right + low_left * low_right / 2 ^ 32 < 2 ^ 31).
  { assert ((high_left * low_right + low_left * low_right / 2 ^ 32) * 2 ^ 32 <= (high_left * 2 ^ 32 + low_left) * low_right); [|numbers; lia].
    pose proof (Z.mul_div_le (low_left * low_right) (2 ^ 32)). numbers. lia. }
  assert (0 <= low_left * low_right / 2 ^ 32) by (apply Z.div_pos; lia).
  rewrite wrapu_small by (split; numbers; lia). change 72057591890444288 with (2 ^ 56 - 2 ^ 31).
  rewrite (high_bits_clear 56 31) by (split; numbers; lia). apply negb_false_iff, Z.ltb_lt. done.
Qed.

Lemma multiply_overflows_exact a b : 0 <= a < 2 ^ 63 -> 0 <= b < 2 ^ 63 -> a * b < 2 ^ 63 -> multiply_overflows a b = false.
Proof.
  intros Ha Hb Hp. unfold multiply_overflows. rewrite !Z.shiftr_div_pow2, !low32_mod by lia.
  pose proof (Z.div_mod a (2 ^ 32)) as Ea. pose proof (Z.div_mod b (2 ^ 32)) as Eb.
  pose proof (Z.mod_pos_bound a (2 ^ 32)). pose proof (Z.mod_pos_bound b (2 ^ 32)).
  assert (0 <= a / 2 ^ 32 < 2 ^ 31 /\ 0 <= b / 2 ^ 32 < 2 ^ 31) as [? ?].
  { split; (split; [apply Z.div_pos; lia|apply Z.div_lt_upper_bound; lia]). }
  destruct (Z.eqb_spec (a / 2 ^ 32) 0) as [Ea0|Ea0], (Z.eqb_spec (b / 2 ^ 32) 0) as [Eb0|Eb0]; cbn [negb]; [done|..].
  - apply high_product_exact; [numbers; lia..|]. numbers. nia.
  - apply high_product_exact; [numbers; lia..|]. numbers. nia.
  - exfalso. assert (2 ^ 32 <= a) by (numbers; lia). assert (2 ^ 32 <= b) by (numbers; lia). numbers. nia.
Qed.

(** The multiplication of 64-bit integers is exact, at least if the product is below the largest values. *)
Lemma try_multiply64 l r : of_type INT64 l -> of_type INT64 r -> HasOverflowBuiltins = true \/ Z.abs (l * r) < 2 ^ 63 ->
  TryMultiply64 l r = exactly INT64 (l * r).
Proof.
  intros Hl Hr Hc. unfold TryMultiply64. destruct HasOverflowBuiltins; [done|]. destruct Hc as [Hc|Hc]; [done|].
  assert (Hin : in_type INT64 (l * r) = true) by (destruct (in_type_spec INT64 (l * r)); [done|limits; numbers; lia]).
  unfold checked_result. rewrite Hin. limits. numbers. unfold i64_min.
  destruct (Z.eqb_spec l (-9223372036854775808)) as [->|]; [destruct (Z.eqb_spec r 0) as [->|]; [done|]; exfalso; lia|].
  destruct (Z.eqb_spec r (-9223372036854775808)) as [->|]; [destruct (Z.eqb_spec l 0) as [->|]; [done|]; exfalso; lia|].
  rewrite multiply_overflows_exact.
  - unfold run. by rewrite s64_ok by words.
  - words.
  - words.
  - rewrite !wrapu_small by words. numbers. lia.
Qed.

Lemma try_multiply_u64 l r : of_type UINT64 l -> of_type UINT64 r -> TryMultiplyU64 l r = exactly UINT64 (l * r).
Proof.
  intros Hl Hr. unfold TryMultiplyU64. rewrite Z.gtb_ltb.
  assert (exists a b, (if r <? l then (r, l) else (l, r)) = (a, b) /\ a * b = l * r /\ of_type UINT64 a /\ of_type UINT64 b /\ a <= b) as (a & b & -> & Hab & Ha & Hb & Hle).
  { destruct (Z.ltb_spec r l); [exists r, l|exists l, r]; split_and!; try done; lia. }
  rewrite <- Hab. clear l r Hl Hr Hab. rewrite !Z.gtb_ltb. limits. numbers.
  assert (Hover : 2 ^ 64 <= a * b -> return_false = exactly UINT64 (a * b)).
  { intros. unfold checked_result. destruct (in_type_spec UINT64 (a * b)); [limits; numbers; lia|done]. }
  numbers. destruct (Z.ltb_spec 4294967295 a) as [Hl|Hl]; [apply Hover; nia|].
  rewrite low32_mod, Z.shiftr_div_pow2 by lia. pose proof (Z.div_mod b (2 ^ 32)) as Eb. pose proof (Z.mod_pos_bound b (2 ^ 32)) as Hmod.
  assert (0 <= b / 2 ^ 32 < 2 ^ 32) as Hdiv by (split; [apply Z.div_pos; lia|apply Z.div_lt_upper_bound; numbers; lia]). numbers.
  rewrite !(wrapu_small 32) by (split; numbers; lia). set (c := b / 4294967296) in *. set (d := b mod 4294967296) in *.
  assert (0 <= a * c < 18446744073709551616 /\ 0 <= a * d < 18446744073709551616) as [Hac Had] by (split; nia).
  assert (a * b = a * c * 4294967296 + a * d) as E by (rewrite Eb by lia; ring).
  rewrite (wrapu_small 64 (a * c)), (wrapu_small 64 (a * d)) by (split; numbers; lia).
  destruct (Z.ltb_spec 4294967295 (a * c)) as [H1|H1]; [apply Hover; lia|].
  unfold shl64. rewrite Z.shiftl_mul_pow2 by lia. rewrite !wrapu_small by (unfold u64_max; split; numbers; lia).
  unfold u64_max. numbers. destruct (Z.ltb_spec (18446744073709551615 - a * d) (a * c * 4294967296)); [apply Hover; lia|].
  apply overflow_checked_exact; limits; numbers; lia || done.
Qed.

Lemma try_multiply_operator_exact t l r : of_type t l -> of_type t r -> HasOverflowBuiltins = true \/ t <> INT64 ->
  TryMultiplyOperator t l r = exactly t (l * r).
Proof.
  intros Hl Hr Hc. unfold TryMultiplyOperator. destruct t; try (apply overflow_checked_exact; try wide; limits; numbers; nia).
  - apply try_multiply64; try done. by destruct Hc; [left|].
  - by apply try_multiply_u64.
Qed.
End Operations.

(** ** Decimals *)

(** The integers of a decimal type are those of at most its number of digits. *)
Abbreviation decimal_range max z := (- max <= z <= max).

Lemma decimal_max_range d : 0 < decimal_max d /\ of_type (stored_in d) (2 * decimal_max d) /\ of_type (stored_in d) (- (2 * decimal_max d)).
Proof. by destruct d. Qed.

Lemma between_decimal d z : - (2 * decimal_max d) <= z <= 2 * decimal_max d -> of_type (stored_in d) z.
Proof. pose proof (decimal_max_range d). lia. Qed.

Lemma decimal_outcome d z : - (2 * decimal_max d) <= z <= 2 * decimal_max d ->
  (s ← run (arith (stored_in d) z); mret (cast_to (stored_in d) s)) = (mret z : attempt Z).
Proof. intros Hz. apply between_decimal in Hz. rewrite arith_bind by (by apply promoted_range). by rewrite cast_to_range. Qed.

Ltac decimal_step d :=
  pose proof (proj1 (decimal_max_range d)); rewrite arith_bind by (apply promoted_range, between_decimal; lia);
  rewrite ?decimal_outcome by lia; unfold checked_result; rewrite ?Z.gtb_ltb; compare_all; cbn [andb]; done || lia.

Lemma try_decimal_add_exact d l r : decimal_range (decimal_max d) l -> decimal_range (decimal_max d) r ->
  TryDecimalAdd d l r = checked_result ((- decimal_max d <=? l + r) && (l + r <=? decimal_max d)) (l + r).
Proof.
  intros Hl Hr. unfold TryDecimalAdd, TryDecimalAddTemplated. destruct (Z.ltb_spec r 0); decimal_step d.
Qed.

Lemma try_decimal_subtract_exact d l r : decimal_range (decimal_max d) l -> decimal_range (decimal_max d) r ->
  TryDecimalSubtract d l r = checked_result ((- decimal_max d <=? l - r) && (l - r <=? decimal_max d)) (l - r).
Proof.
  intros Hl Hr. unfold TryDecimalSubtract, TryDecimalSubtractTemplated. destruct (Z.ltb_spec r 0); decimal_step d.
Qed.

Lemma try_decimal_multiply_exact `{Compiler} d l r : decimal_range (decimal_max d) l -> decimal_range (decimal_max d) r ->
  HasOverflowBuiltins = true \/ d <> DECIMAL18 ->
  TryDecimalMultiply d l r = checked_result ((- decimal_max d <=? l * r) && (l * r <=? decimal_max d)) (l * r).
Proof.
  intros Hl Hr Hc. unfold TryDecimalMultiply, TryDecimalMultiplyTemplated.
  rewrite try_multiply_operator_exact; [|apply between_decimal; lia|apply between_decimal; lia|destruct Hc; [by left|right; by destruct d]].
  unfold checked_result. destruct (in_type_spec (stored_in d) (l * r)) as [Hin|Hout].
  - cbn [mbind attempt_bind mret attempt_ret]. rewrite Z.gtb_ltb. compare_all; cbn [andb orb]; done || lia.
  - destruct (Z.leb_spec (- decimal_max d) (l * r)), (Z.leb_spec (l * r) (decimal_max d)); cbn [andb]; try done.
    exfalso. apply Hout, between_decimal. lia.
Qed.

Lemma powers_of_ten `{P : Platform} : POWERS_OF_TEN = (fun n => of_value (10 ^ Z.of_nat n)) <$> seq 0 39.
Proof. destruct P as [[|]]; vm_compute; reflexivity. Qed.

Lemma power_of_ten `{Platform} n d : (n <= 38)%nat -> nth n POWERS_OF_TEN d = of_value (10 ^ Z.of_nat n).
Proof.
  intros Hn. rewrite powers_of_ten. apply nth_lookup_Some. rewrite list_lookup_fmap, lookup_seq_lt by lia. done.
Qed.

Lemma power_ok n : (n <= 38)%nat -> huge_ok (of_value (10 ^ Z.of_nat n)).
Proof.
  intros Hn. apply of_value_ok. assert (10 ^ Z.of_nat n <= 10 ^ 38) by (apply Z.pow_le_mono_r; lia). pose proof (Z.pow_pos_nonneg 10 (Z.of_nat n)).
  assert (10 ^ 38 < 2 ^ 127) by done. unfold in_s. change (128 - 1) with 127. lia.
Qed.

(** An operation that is exact in the 128 bits is exact in 38 digits. *)
Lemma huge_decimal_exact `{Platform} operation g h z : operation g h = mret (exact z) ->
  HugeDecimal operation g h = (if (- 10 ^ 38 <? z) && (z <? 10 ^ 38) then mret (of_value z) else return_false : attempt hugeint_t).
Proof.
  intros E. unfold HugeDecimal. rewrite power_of_ten by lia.
  replace (operation g h : attempt hugeint_t) with (Some (Ok (exact z))) by (by rewrite E). clear E.
  assert (Hp : 0 < 10 ^ Z.of_nat 38 < 2 ^ 127) by (split; by vm_compute). change (10 ^ 38) with (10 ^ Z.of_nat 38).
  revert Hp. generalize (10 ^ Z.of_nat 38). intros p Hp. rewrite negate_result by lia.
  assert (Hok : huge_ok (of_value p) /\ huge_ok (of_value (- p))) by (split; apply of_value_ok; split; change (128 - 1) with 127; lia).
  destruct Hok as [Hp1 Hp2]. unfold exact, in_range.
  destruct (Z.leb_spec (- 2 ^ 127) z), (Z.ltb_spec z (2 ^ 127)); cbn [andb].
  1: assert (huge_ok (of_value z)) as Hz by (by apply of_value_ok); cbn [mbind attempt_bind];
    rewrite less_equal_value, greater_equal_value, !value_of_value by done.
  all: destruct (Z.leb_spec z (- p)), (Z.ltb_spec (- p) z), (Z.leb_spec p z), (Z.ltb_spec z p); cbn [andb orb]; done || lia.
Qed.

(** The product that the multiplication misses has more than 38 digits. *)
Lemma huge_decimal_multiply_exact `{Platform} g h : huge_ok g -> huge_ok h ->
  HugeDecimal TryMultiply g h =
  (if (- 10 ^ 38 <? value g * value h) && (value g * value h <? 10 ^ 38) then mret (of_value (value g * value h)) else return_false : attempt hugeint_t).
Proof.
  intros Hg Hh. pose proof (try_multiply_exact g h Hg Hh) as E. unfold multiplied in E.
  destruct ((value g * value h =? - 2 ^ 127) && _ && _) eqn:Hmiss; [|by apply huge_decimal_exact].
  rewrite !andb_true_iff, Z.eqb_eq in Hmiss. destruct Hmiss as [[-> _] _]. unfold HugeDecimal. by rewrite E.
Qed.
