(* ===== verification/IntegerCast.v ===== *)
(** * Integers from text

    Models [common/operator/integer_cast_operator.hpp] and the string casts to 128-bit integers of
    [common/operator/cast_operators.cpp]. A template parameter [OP] with its state [T] is an instance of
    [CastOperation]; a character is its code, a buffer the list of its characters, and every read of
    it is checked ([access]). *)

From Stdlib Require Import Ascii.
From S2P Require Import Prelude DateText Hugeint Uhugeint IntegerOps.

Local Open Scope Z_scope.

(** ** Characters *)

Definition code (a : ascii) : Z := Z.of_nat (nat_of_ascii a).
Arguments code a%_char_scope.

Definition CharacterIsHex (c : Z) : bool :=
  CharacterIsDigit c || ((c >=? code "a") && (c <=? code "f")) || ((c >=? code "A") && (c <=? code "F")).

(** ** The operations a cast is made of *)

Class CastOperation (T : Type) := {
  (** the zeroed state *)
  zero_state : T;
  (** [NEGATIVE], the state, the digit *)
  HandleDigit : bool -> T -> Z -> attempt T;
  HandleHexDigit : T -> Z -> attempt T;
  HandleBinaryDigit : T -> Z -> attempt T;
  HandleExponent : bool -> T -> Z -> attempt T;
  HandleDecimal : bool -> T -> Z -> attempt T;
  Finalize : bool -> T -> attempt T
}.

(** ** The loops *)

(** [if (pos != len && buf[pos] == '_')]: skips one underscore that a digit follows. *)
Definition skip_underscore (accepted : Z -> bool) (buf : list Z) (pos : nat) : attempt nat :=
  if (pos =? length buf)%nat then mret pos
  else
    c ← run (access buf pos);
    if negb (c =? code "_") then mret pos
    else
      let pos := S pos in
      if (pos =? length buf)%nat then return_false
      else c ← run (access buf pos); if accepted c then mret pos else return_false.

Section Loops.
Context {T : Type} `{CastOperation T}.
Context (NEGATIVE : bool) (decimal_separator : Z) (buf : list Z) (strict : bool).

(** The loop over the digits behind the separator: the state and the position. *)
Fixpoint decimals_loop (fuel : nat) (pos : nat) (result : T) : attempt (T * nat) :=
  if (length buf <=? pos)%nat then mret (result, pos)
  else
    match fuel with
    | O => None
    | S fuel' =>
        c ← run (access buf pos);
        if negb (CharacterIsDigit c) then mret (result, pos)
        else
          result ← HandleDecimal NEGATIVE result (c - code "0");
          pos ← skip_underscore CharacterIsDigit buf (S pos);
          decimals_loop fuel' pos result
    end.

(** [while (++pos < len)]: only spaces to the end. *)
Fixpoint trailing_spaces (fuel : nat) (pos : nat) : attempt nat :=
  let pos := S pos in
  if (length buf <=? pos)%nat then mret pos
  else
    match fuel with
    | O => None
    | S fuel' => c ← run (access buf pos); if CharacterIsSpace c then trailing_spaces fuel' pos else return_false
    end.

(** What the loop over the characters does when it is left: [break], or [return] of an exponent's result. *)
Inductive exit := Break (result : T) (pos : nat) | Return (result : T).

(** From a character that is neither a digit nor the separator; [exponent] parses the exponent, if one is allowed. *)
Definition after_number (exponent : option (bool -> list Z -> attempt Z)) (start_pos pos : nat) (result : T) : attempt exit :=
  c ← run (access buf pos);
  if CharacterIsSpace c then
    if (pos =? start_pos)%nat then return_false
    else pos ← trailing_spaces (length buf) pos; mret (Break result pos)
  else
    match exponent with
    | None => return_false
    | Some parse =>
        if (c =? code "e") || (c =? code "E") then
          if strict then return_false
          else if (pos =? start_pos)%nat then return_false
          else
            let pos := S pos in
            if (length buf <=? pos)%nat then return_false
            else
              c ← run (access buf pos);
              exponent ← parse (c =? code "-") (drop pos buf);
              result ← HandleExponent NEGATIVE result exponent;
              mret (Return result)
        else return_false
    end.

(** From the separator. *)
Definition after_separator (exponent : option (bool -> list Z -> attempt Z)) (start_pos pos : nat) (result : T) : attempt exit :=
  if strict then return_false
  else
    let number_before_period := (start_pos <? pos)%nat in
    let pos := S pos in
    let start_digit := pos in
    '(result, pos) ← decimals_loop (length buf) pos result;
    if negb (number_before_period || (start_digit <? pos)%nat) then return_false
    else if (length buf <=? pos)%nat then mret (Break result pos)
    else after_number exponent start_pos pos result.

Fixpoint cast_loop (exponent : option (bool -> list Z -> attempt Z)) (start_pos : nat) (fuel : nat) (pos : nat) (result : T) : attempt exit :=
  if (length buf <=? pos)%nat then mret (Break result pos)
  else
    match fuel with
    | O => None
    | S fuel' =>
        c ← run (access buf pos);
        if negb (CharacterIsDigit c) then
          if c =? decimal_separator then after_separator exponent start_pos pos result
          else after_number exponent start_pos pos result
        else
          result ← HandleDigit NEGATIVE result (c - code "0");
          pos ← (if strict then mret (S pos) else skip_underscore CharacterIsDigit buf (S pos));
          cast_loop exponent start_pos fuel' pos result
    end.

Definition IntegerCastLoop (exponent : option (bool -> list Z -> attempt Z)) (result : T) : attempt T :=
  start_pos ← (
    if NEGATIVE then mret 1%nat
    else
      c ← run (access buf 0);
      if c =? code "+" then (if strict then return_false else mret 1%nat) else mret 0%nat);
  e ← cast_loop exponent start_pos (length buf) start_pos result;
  match e with
  | Return result => mret result
  | Break result pos =>
      result ← Finalize NEGATIVE result;
      if (start_pos <? pos)%nat then mret result else return_false
  end.

(** The loop over hexadecimal or binary digits; [current] is applied to a character before it is looked at. *)
Fixpoint digits_to_end (current : Z -> Z) (accepted : Z -> bool) (digit_of : Z -> Z) (handle : T -> Z -> attempt T)
    (fuel : nat) (pos : nat) (result : T) : attempt (T * nat) :=
  if (length buf <=? pos)%nat then mret (result, pos)
  else
    match fuel with
    | O => None
    | S fuel' =>
        c ← run (access buf pos);
        let current_char := current c in
        if negb (accepted current_char) then return_false
        else
          let digit := digit_of current_char in
          pos ← skip_underscore accepted buf (S pos);
          result ← handle result digit;
          digits_to_end current accepted digit_of handle fuel' pos result
    end.

Definition hex_digit (current_char : Z) : Z :=
  if current_char >=? code "a" then current_char - code "a" + 10 else current_char - code "0".
Definition CharacterIsBinary (c : Z) : bool := (c =? code "0") || (c =? code "1").

(** [IntegerHexCastLoop] and [IntegerBinaryCastLoop], which are called with neither a sign nor an exponent. *)
Definition IntegerHexCastLoop (result : T) : attempt T :=
  '(result, pos) ← digits_to_end CharacterToLower CharacterIsHex hex_digit HandleHexDigit (length buf) 1%nat result;
  result ← Finalize false result;
  if (1 <? pos)%nat then mret result else return_false.

Definition IntegerBinaryCastLoop (result : T) : attempt T :=
  '(result, pos) ← digits_to_end (fun c => c) CharacterIsBinary (fun c => c - code "0") HandleBinaryDigit (length buf) 1%nat result;
  result ← Finalize false result;
  if (1 <? pos)%nat then mret result else return_false.

End Loops.

(** ** Casts of one type of state *)

(** [IntegerCastOperation] on [IntegerCastData<T>] *)
Record IntegerCastData (store : integer_type) := mkCastData { cast_value : Z }.
Arguments mkCastData {store} _.
Arguments cast_value {store} _.

(** The three ways of appending a digit, on a value of type [store_t]. *)
Definition append_digit (store_t : integer_type) (NEGATIVE : bool) (result digit : Z) : attempt Z :=
  if NEGATIVE then
    if result <? Z.quot (Minimum store_t + digit) 10 then return_false
    else r ← run (tens ← arith store_t (result * 10); arith store_t (tens - digit)); mret (cast_to store_t r)
  else
    if result >? Z.quot (Maximum store_t - digit) 10 then return_false
    else r ← run (tens ← arith store_t (result * 10); arith store_t (tens + digit)); mret (cast_to store_t r).

Definition append_in_base (base : Z) (store_t : integer_type) (result digit : Z) : attempt Z :=
  if result >? Z.quot (Maximum store_t - digit) base then return_false
  else r ← run (shifted ← arith store_t (result * base); arith store_t (shifted + digit)); mret (cast_to store_t r).

#[export] Instance IntegerCastOperation (store : integer_type) : CastOperation (IntegerCastData store) := {
  zero_state := mkCastData 0;
  HandleDigit := fun NEGATIVE state digit => r ← append_digit store NEGATIVE (cast_value state) digit; mret (mkCastData r);
  HandleHexDigit := fun state digit => r ← append_in_base 16 store (cast_value state) digit; mret (mkCastData r);
  HandleBinaryDigit := fun state digit => r ← append_in_base 2 store (cast_value state) digit; mret (mkCastData r);
  HandleExponent := fun _ _ _ => return_false;
  HandleDecimal := fun _ _ _ => return_false;
  Finalize := fun _ state => mret state
}.

(** The exponent: an [int16_t] without an exponent of its own. *)
Definition parse_exponent (decimal_separator : Z) (strict NEGATIVE : bool) (buf : list Z) : attempt Z :=
  data ← IntegerCastLoop NEGATIVE decimal_separator buf strict None (zero_state (T := IntegerCastData INT16));
  mret (cast_value data).

(** The characters behind the leading spaces. *)
Fixpoint skip_leading_spaces (buf : list Z) : list Z :=
  match buf with
  | c :: buf' => if CharacterIsSpace c then skip_leading_spaces buf' else buf
  | [] => []
  end.

(** The loop of [TryIntegerCast] for a negative number of an unsigned type: only zeros. *)
Definition only_zeros (buf : list Z) : bool := forallb (fun c => c =? code "0") buf.

Definition TryIntegerCast {T} `{CastOperation T} (IS_SIGNED ALLOW_EXPONENT : bool) (decimal_separator : Z) (buf : list Z) (strict : bool) : attempt T :=
  let buf := skip_leading_spaces buf in
  if (length buf =? 0)%nat then return_false
  else
    let exponent := if ALLOW_EXPONENT then Some (parse_exponent decimal_separator strict) else None in
    c ← run (access buf 0);
    if c =? code "-" then
      if negb IS_SIGNED && negb (only_zeros (drop 1 buf)) then return_false
      else IntegerCastLoop true decimal_separator buf strict exponent zero_state
    else
      next ← (if (1 <? length buf)%nat && (c =? code "0") then run (c ← access buf 1; mret (Some c)) else mret None);
      match next with
      | Some c =>
          if (c =? code "x") || (c =? code "X") then IntegerHexCastLoop (drop 1 buf) zero_state
          else if (c =? code "b") || (c =? code "B") then IntegerBinaryCastLoop (drop 1 buf) zero_state
          else if strict && CharacterIsDigit c then return_false
          else IntegerCastLoop false decimal_separator buf strict exponent zero_state
      | None => IntegerCastLoop false decimal_separator buf strict exponent zero_state
      end.

(** ** Integers of up to 64 bits *)

(** [IntegerDecimalCastData<T>]: the digits before the point, those behind it and their number. *)
Definition store_t (t : integer_type) : integer_type := match t with UINT64 => UINT64 | _ => INT64 end.

Record IntegerDecimalCastData (T : integer_type) := mkDecimalData { dec_result : Z; dec_decimal : Z; dec_digits : Z }.
Arguments mkDecimalData {T} _ _ _.
Arguments dec_result {T} _.
Arguments dec_decimal {T} _.
Arguments dec_digits {T} _.

Section IntegerDecimal.
Context `{Compiler} (T : integer_type).
Implicit Types state : IntegerDecimalCastData T.
Abbreviation store := (store_t T).

(** [while (state.decimal > 10)]; a 64-bit integer has at most 20 digits. *)
Fixpoint leading_digit (fuel : nat) (decimal decimal_digits : Z) : attempt (Z * Z) :=
  if decimal >? 10 then
    match fuel with
    | O => None
    | S fuel' => leading_digit fuel' (Z.quot decimal 10) (u64 (decimal_digits - 1))
    end
  else mret (decimal, decimal_digits).

Definition FinalizeDecimal (NEGATIVE : bool) state : attempt (IntegerDecimalCastData T) :=
  tmp ← (Some (Ok (TryCastWithOverflowCheck store T (dec_result state))) : attempt Z);
  '(decimal, decimal_digits) ← leading_digit 20 (dec_decimal state) (dec_digits state);
  tmp ← (
    if (decimal_digits =? 1) && (decimal >=? 5) then
      if NEGATIVE then TrySubtractOperator T tmp 1 else TryAddOperator T tmp 1
    else mret tmp);
  mret (mkDecimalData tmp decimal decimal_digits).

(** [while (e++ < 0)] *)
Fixpoint shift_down (turns : nat) (result decimal : Z) : Z * Z :=
  match turns with
  | O => (result, decimal)
  | S turns' =>
      let decimal := Z.rem result 10 in
      let result := Z.quot result 10 in
      if (result =? 0) && (decimal =? 0) then (result, decimal) else shift_down turns' result decimal
  end.

(** [while (state.result != 0 && e-- > 0)] *)
Fixpoint shift_up (turns : nat) (result : Z) : attempt Z :=
  if result =? 0 then mret result
  else match turns with O => mret result | S turns' => result ← TryMultiplyOperator store result 10; shift_up turns' result end.

(** [while (shift-- > 0)] *)
Fixpoint shift_decimal (turns : nat) (decimal : Z) : attempt Z :=
  match turns with O => mret decimal | S turns' => decimal ← TryMultiplyOperator store decimal 10; shift_decimal turns' decimal end.

(** [while (shift++ < 0) power *= 10;] *)
Fixpoint power_loop (turns : nat) (power : Z) : attempt Z :=
  match turns with O => mret power | S turns' => power ← run (arith store (power * 10)); power_loop turns' power end.

Definition HandleExponentDecimal (NEGATIVE : bool) state (exponent : Z) : attempt (IntegerDecimalCastData T) :=
  if exponent <? 0 then
    let '(result, decimal) := shift_down (Z.to_nat (- exponent)) (dec_result state) (dec_decimal state) in
    decimal ← (if decimal <? 0 then run (arith store (- decimal)) else mret decimal);
    FinalizeDecimal NEGATIVE (mkDecimalData result decimal 1)
  else
    result ← shift_up (Z.to_nat exponent) (dec_result state);
    if dec_decimal state =? 0 then FinalizeDecimal NEGATIVE (mkDecimalData result (dec_decimal state) (dec_digits state))
    else
      let shift := exponent - i64 (dec_digits state) in
      '(decimal, rest) ← (
        if shift <? 0 then
          if u64 (- shift) <? Digits store then
            power ← power_loop (Z.to_nat (- shift)) 1;
            mret (Z.quot (dec_decimal state) power, Z.rem (dec_decimal state) power)
          else mret (0, dec_decimal state)
        else decimal ← shift_decimal (Z.to_nat shift) (dec_decimal state); mret (decimal, 0));
      let decimal_digits := u64 (dec_digits state - exponent) in
      result ← (if NEGATIVE then TrySubtractOperator store result decimal else TryAddOperator store result decimal);
      FinalizeDecimal NEGATIVE (mkDecimalData result rest decimal_digits).

Definition MAX_DECIMAL_DIGITS : Z := 32768.

Definition HandleDecimalDigit state (digit : Z) : attempt (IntegerDecimalCastData T) :=
  if (dec_digits state =? MAX_DECIMAL_DIGITS) || (dec_decimal state >? Z.quot (Maximum store - digit) 10) then mret state
  else
    decimal ← run (tens ← arith store (dec_decimal state * 10); arith store (tens + digit));
    mret (mkDecimalData (dec_result state) decimal (u64 (dec_digits state + 1))).

Definition set_result state (result : Z) : IntegerDecimalCastData T := mkDecimalData result (dec_decimal state) (dec_digits state).

#[export] Instance IntegerDecimalCastOperation : CastOperation (IntegerDecimalCastData T) := {
  zero_state := mkDecimalData 0 0 0;
  HandleDigit := fun NEGATIVE state digit => r ← append_digit store NEGATIVE (dec_result state) digit; mret (set_result state r);
  HandleHexDigit := fun state digit => r ← append_in_base 16 store (dec_result state) digit; mret (set_result state r);
  HandleBinaryDigit := fun state digit => r ← append_in_base 2 store (dec_result state) digit; mret (set_result state r);
  HandleExponent := HandleExponentDecimal;
  HandleDecimal := fun _ => HandleDecimalDigit;
  Finalize := FinalizeDecimal
}.

(** First as an integer, then with decimals and an exponent. *)
Definition TrySimpleIntegerCast (buf : list Z) (strict : bool) : attempt Z :=
  let simple : attempt (IntegerCastData T) := TryIntegerCast (is_signed T) false (code ".") buf strict in
  match simple with
  | Some (Ok None) =>
      cast_data ← (TryIntegerCast (is_signed T) true (code ".") buf strict : attempt (IntegerDecimalCastData T));
      mret (cast_to T (dec_result cast_data))
  | _ => simple_data ← simple; mret (cast_to T (cast_value simple_data))
  end.
End IntegerDecimal.
