(* ===== verification/IntegerCastFacts.v ===== *)
(** * Integers from text: the loops

    What the loops of a cast do for any [CastOperation] with the laws [CastOperationLaws]: they read
    only inside of the buffer, end, and return a value within the limits of the type; and they read
    back what is written as digits. *)

From Stdlib Require Import Ascii.
From S2P Require Import Prelude DateText DateTextFacts Hugeint HugeintFacts HugeintDivisionFacts IntegerOps IntegerOpsFacts IntegerCast.

Local Open Scope Z_scope.

(** ** Attempts that return *)

(** The attempt neither throws nor is undefined; it sets a result with [P], or returns [false] and [F] holds. *)
Definition returns {A} (m : attempt A) (P : A -> Prop) (F : Prop) : Prop :=
  exists r, m = Some (Ok r) /\ match r with Some x => P x | None => F end.

Lemma returns_ret {A} (x : A) (P : A -> Prop) F : P x -> returns (mret x) P F.
Proof. intros. by exists (Some x). Qed.

Lemma returns_false {A} (P : A -> Prop) (F : Prop) : F -> returns return_false P F.
Proof. intros. by exists None. Qed.

Lemma returns_bind {A B} (m : attempt A) (f : A -> attempt B) P Q (F F' : Prop) :
  returns m P F -> (F -> F') -> (forall x, P x -> returns (f x) Q F') -> returns (m ≫= f) Q F'.
Proof. intros ([x|] & -> & Hx) HF Hf; [by apply Hf|]. exists None. split; [done|by apply HF]. Qed.

Lemma returns_weaken {A} (m : attempt A) (P Q : A -> Prop) (F F' : Prop) :
  returns m P F -> (forall x, P x -> Q x) -> (F -> F') -> returns m Q F'.
Proof. intros ([x|] & -> & Hx) HQ HF; [by exists (Some x); auto|by exists None; auto]. Qed.

Lemma returns_run {A} (m : checked A) (x : A) (P : A -> Prop) F : m = mret x -> P x -> returns (run m) P F.
Proof. intros -> Hx. by exists (Some x). Qed.

(** A read inside of the buffer. *)
Lemma access_bind {A} (buf : list Z) pos c (f : Z -> attempt A) : buf !! pos = Some c -> (run (access buf pos) ≫= f) = f c.
Proof. intros E. unfold access. by rewrite E. Qed.

(** ** The contract of an operation *)

(** What every operation keeps: its invariant, and the digits read. *)
Class CastOperationLaws (T : Type) `{CastOperation T} := {
  (** the limits of the digits before they are finished, and whether they may be negative *)
  digits_lowest : Z;
  digits_highest : Z;
  minus_allowed : Prop;
  (** the digits read so far *)
  number : T -> Z;
  finished : T -> Prop;
  (** the invariant while digits are read ([NEGATIVE]), with room for so many more; while hexadecimal or binary ones are; and that no decimals were *)
  cast_inv : bool -> nat -> T -> Prop;
  fits : nat -> Prop;
  word_inv : T -> Prop;
  no_decimals : T -> Prop;
  digits_zero : digits_lowest <= 0 <= digits_highest;
  fits_fewer m n : (m <= n)%nat -> fits n -> fits m;
  law_fewer NEGATIVE m n state : (m <= n)%nat -> cast_inv NEGATIVE n state -> cast_inv NEGATIVE m state;
  law_zero NEGATIVE n : fits n -> cast_inv NEGATIVE n zero_state /\ word_inv zero_state /\ no_decimals zero_state /\ number zero_state = 0;
  law_word state : word_inv state -> cast_inv false 0 state /\ no_decimals state;
  law_sign NEGATIVE state : cast_inv NEGATIVE 0 state -> if NEGATIVE then number state <= 0 else 0 <= number state;
  law_digit NEGATIVE n state d : cast_inv NEGATIVE (S n) state -> 0 <= d <= 9 -> (NEGATIVE = true -> minus_allowed \/ d = 0) ->
    let v := 10 * number state + (if NEGATIVE then - d else d) in
    returns (HandleDigit NEGATIVE state d)
      (fun state' => cast_inv NEGATIVE n state' /\ number state' = v /\ (no_decimals state -> no_decimals state'))
      (if NEGATIVE then v < digits_lowest else digits_highest < v);
  law_hex state d : word_inv state -> 0 <= d < 16 -> returns (HandleHexDigit state d) word_inv True;
  law_binary state d : word_inv state -> 0 <= d < 2 -> returns (HandleBinaryDigit state d) word_inv True;
  law_decimal NEGATIVE state d : cast_inv NEGATIVE 0 state -> 0 <= d <= 9 -> returns (HandleDecimal NEGATIVE state d) (cast_inv NEGATIVE 0) True;
  law_exponent NEGATIVE state e : (NEGATIVE = true -> minus_allowed) -> cast_inv NEGATIVE 0 state -> in_s 16 e ->
    returns (HandleExponent NEGATIVE state e) finished True;
  law_finalize NEGATIVE state : cast_inv NEGATIVE 0 state -> returns (Finalize NEGATIVE state) finished True
}.

(** What the operations of the integers add: the value of a cast without decimals is the number read, if it is within the limits. *)
Class IntegerOperationLaws (T : Type) `{CastOperationLaws T} := {
  lowest : Z;
  highest : Z;
  output : T -> Z;
  limits_digits : digits_lowest <= lowest /\ highest <= digits_highest;
  integer_hex state d : word_inv state -> 0 <= d < 16 ->
    returns (HandleHexDigit state d) (fun state' => word_inv state' /\ number state' = 16 * number state + d) (highest < 16 * number state + d);
  integer_binary state d : word_inv state -> 0 <= d < 2 ->
    returns (HandleBinaryDigit state d) (fun state' => word_inv state' /\ number state' = 2 * number state + d) (highest < 2 * number state + d);
  integer_finalize NEGATIVE state : cast_inv NEGATIVE 0 state -> no_decimals state ->
    returns (Finalize NEGATIVE state) (fun state' => finished state' /\ output state' = number state) (~ lowest <= number state <= highest);
  finished_limits state : finished state -> lowest <= output state <= highest
}.

(** ** Reading inside of the buffer, to the end *)

Lemma digit_value c : CharacterIsDigit c = true -> 0 <= c - code "0" <= 9.
Proof. intros Hc. apply digit_range in Hc. change (code "0") with 48. lia. Qed.

Lemma lookup_pos (buf : list Z) pos : (pos < length buf)%nat -> exists c, buf !! pos = Some c.
Proof. intros. by apply lookup_lt_is_Some. Qed.

Lemma skip_underscore_total accepted buf pos : (pos <= length buf)%nat ->
  returns (skip_underscore accepted buf pos) (fun pos' => pos <= pos' <= length buf)%nat True.
Proof.
  intros Hpos. unfold skip_underscore. destruct (Nat.eqb_spec pos (length buf)); [by apply returns_ret; lia|].
  destruct (lookup_pos buf pos) as [c E]; [lia|]. rewrite (access_bind _ _ _ _ E).
  destruct (negb _); [apply returns_ret; lia|]. destruct (Nat.eqb_spec (S pos) (length buf)); [by apply returns_false|].
  destruct (lookup_pos buf (S pos)) as [c' E']; [lia|]. rewrite (access_bind _ _ _ _ E').
  destruct (accepted c'); [apply returns_ret; lia|by apply returns_false].
Qed.

Section Total.
Context {T : Type} `{HL : CastOperationLaws T}.
Context (NEGATIVE : bool) (decimal_separator : Z) (buf : list Z) (strict : bool).
Context (Hsign : NEGATIVE = true -> minus_allowed (T := T)).

Lemma decimals_loop_total fuel pos state : cast_inv NEGATIVE 0 state -> (length buf - pos <= fuel)%nat ->
  returns (decimals_loop NEGATIVE buf fuel pos state) (fun '(state', pos') => cast_inv NEGATIVE 0 state' /\ (pos <= pos')%nat) True.
Proof.
  revert pos state. induction fuel as [|fuel IH]; intros pos state Hinv Hfuel; cbn [decimals_loop];
    (destruct (Nat.leb_spec (length buf) pos); [by apply returns_ret|]); [lia|].
  destruct (lookup_pos buf pos) as [c E]; [lia|]. rewrite (access_bind _ _ _ _ E).
  destruct (CharacterIsDigit c) eqn:Hc; cbn [negb]; [|by apply returns_ret].
  eapply returns_bind; [apply law_decimal; [done|by apply digit_value]|done|]. intros state' Hinv'.
  eapply returns_bind; [apply skip_underscore_total; lia|done|]. intros pos' [Hle _].
  eapply returns_weaken; [apply IH; [done|lia]| |done]. intros [state2 pos2] [? ?]. split; [done|lia].
Qed.

Lemma trailing_spaces_total fuel pos : (length buf - S pos <= fuel)%nat -> returns (trailing_spaces buf fuel pos) (fun pos' => pos < pos')%nat True.
Proof.
  revert pos. induction fuel as [|fuel IH]; intros pos Hfuel; cbn [trailing_spaces];
    (destruct (Nat.leb_spec (length buf) (S pos)); [apply returns_ret; lia|]); [lia|].
  destruct (lookup_pos buf (S pos)) as [c E]; [lia|]. rewrite (access_bind _ _ _ _ E).
  destruct (CharacterIsSpace c); [|by apply returns_false]. eapply returns_weaken; [apply IH; lia| |done]. intros p Hp. cbn beta in *. lia.
Qed.

(** Where the loops leave off. *)
Definition left_off (e : exit (T := T)) : Prop :=
  match e with Break state _ => cast_inv NEGATIVE 0 state | Return state => finished state end.

Context (exponent : option (bool -> list Z -> attempt Z)).
Context (Hexponent : forall parse negative text, exponent = Some parse -> (0 < length text)%nat -> returns (parse negative text) (in_s 16) True).

Lemma after_number_total start_pos pos state : cast_inv NEGATIVE 0 state -> (pos < length buf)%nat ->
  returns (after_number NEGATIVE buf strict exponent start_pos pos state) left_off True.
Proof.
  intros Hinv Hpos. unfold after_number. destruct (lookup_pos buf pos) as [c E]; [lia|]. rewrite (access_bind _ _ _ _ E).
  destruct (CharacterIsSpace c).
  { destruct (pos =? start_pos)%nat; [by apply returns_false|].
    eapply returns_bind; [apply trailing_spaces_total; lia|done|]. intros pos' _. by apply returns_ret. }
  destruct exponent as [parse|] eqn:Hparse; [|by apply returns_false]. destruct (_ || _); [|by apply returns_false].
  destruct strict; [by apply returns_false|]. destruct (pos =? start_pos)%nat; [by apply returns_false|].
  destruct (Nat.leb_spec (length buf) (S pos)); [by apply returns_false|].
  destruct (lookup_pos buf (S pos)) as [c' E']; [lia|]. rewrite (access_bind _ _ _ _ E').
  eapply returns_bind; [apply (Hexponent parse); [done|rewrite length_drop; lia]|done|]. intros e He.
  eapply returns_bind; [by apply law_exponent|done|]. intros state' Hout. by apply returns_ret.
Qed.

Lemma after_separator_total start_pos pos state : cast_inv NEGATIVE 0 state -> (pos < length buf)%nat ->
  returns (after_separator NEGATIVE buf strict exponent start_pos pos state) left_off True.
Proof.
  intros Hinv Hpos. unfold after_separator. destruct strict eqn:Hs; [by apply returns_false|].
  eapply returns_bind; [apply decimals_loop_total; [done|lia]|done|]. intros [state' pos'] [Hinv' Hle].
  destruct (negb _); [by apply returns_false|]. destruct (Nat.leb_spec (length buf) pos'); [by apply returns_ret|].
  rewrite <- Hs. by apply after_number_total.
Qed.

Lemma cast_loop_total start_pos fuel pos state : cast_inv NEGATIVE (length buf - pos) state -> (length buf - pos <= fuel)%nat ->
  returns (cast_loop NEGATIVE decimal_separator buf strict exponent start_pos fuel pos state) left_off True.
Proof.
  revert pos state. induction fuel as [|fuel IH]; intros pos state Hinv Hfuel; cbn [cast_loop];
    (destruct (Nat.leb_spec (length buf) pos); [apply returns_ret; eapply law_fewer, Hinv; lia|]); [lia|].
  destruct (lookup_pos buf pos) as [c E]; [lia|]. rewrite (access_bind _ _ _ _ E). assert (Hinv0 : cast_inv NEGATIVE 0 state) by (eapply law_fewer, Hinv; lia).
  replace (length buf - pos)%nat with (S (length buf - S pos)) in Hinv by lia. destruct (CharacterIsDigit c) eqn:Hc; cbn [negb].
  - eapply returns_bind; [eapply law_digit; [done|by apply digit_value|by left; apply Hsign]|done|]. intros state' (Hinv' & _ & _).
    eapply returns_bind with (P := fun pos' => (pos < pos')%nat) (F := True); [|done|intros pos' Hlt; apply IH; [eapply law_fewer, Hinv'|]; lia].
    destruct strict; [apply returns_ret; lia|]. eapply returns_weaken; [apply skip_underscore_total; lia| |done]. intros p Hp. cbn beta in *. lia.
  - destruct (c =? decimal_separator); [by apply after_separator_total|by apply after_number_total].
Qed.

Lemma integer_cast_loop_total state : cast_inv NEGATIVE (length buf) state -> (0 < length buf)%nat ->
  returns (IntegerCastLoop NEGATIVE decimal_separator buf strict exponent state) finished True.
Proof.
  intros Hinv Hlen. unfold IntegerCastLoop. eapply returns_bind with (P := fun _ => True) (F := True); [|done|].
  - destruct NEGATIVE; [by apply returns_ret|]. destruct (lookup_pos buf 0) as [c E]; [lia|]. rewrite (access_bind _ _ _ _ E).
    destruct (c =? _); [|by apply returns_ret]. destruct strict; [by apply returns_false|by apply returns_ret].
  - intros start_pos _. eapply returns_bind; [apply cast_loop_total; [eapply law_fewer, Hinv|]; lia|done|].
    intros [state' pos|state'] Hleft; [|by apply returns_ret].
    eapply returns_bind; [by apply law_finalize|done|]. intros state2 Hout.
    destruct (_ <? _)%nat; [by apply returns_ret|by apply returns_false].
Qed.

Lemma digits_to_end_total current accepted digit_of handle fuel pos state (bound : Z) :
  (forall c, accepted (current c) = true -> 0 <= digit_of (current c) < bound) ->
  (forall state d, word_inv state -> 0 <= d < bound -> returns (handle state d) word_inv True) ->
  word_inv state -> (length buf - pos <= fuel)%nat ->
  returns (digits_to_end buf current accepted digit_of handle fuel pos state) (fun '(state', _) => word_inv state') True.
Proof.
  intros Hdigit Hhandle. revert pos state. induction fuel as [|fuel IH]; intros pos state Hinv Hfuel; cbn [digits_to_end];
    (destruct (Nat.leb_spec (length buf) pos); [by apply returns_ret|]); [lia|].
  destruct (lookup_pos buf pos) as [c E]; [lia|]. rewrite (access_bind _ _ _ _ E).
  destruct (accepted (current c)) eqn:Hc; cbn [negb]; [|by apply returns_false].
  eapply returns_bind; [apply skip_underscore_total; lia|done|]. intros pos' [Hle _].
  eapply returns_bind; [apply Hhandle; [done|by apply Hdigit]|done|]. intros state' Hinv'. apply IH; [done|lia].
Qed.

End Total.

(** ** Reading back digits *)

(** Digits as the code accepts them: with [underscores], single ones may stand between digits. *)
Inductive grouped (accepted : Z -> bool) (underscores : bool) : list Z -> list Z -> Prop :=
  | grouped_one c : accepted c = true -> grouped accepted underscores [c] [c]
  | grouped_digit c text ds : accepted c = true -> grouped accepted underscores text ds -> grouped accepted underscores (c :: text) (c :: ds)
  | grouped_underscore c text ds : underscores = true -> accepted c = true -> grouped accepted underscores text ds ->
      grouped accepted underscores (c :: code "_" :: text) (c :: ds).

(** A number after more digits. *)
Definition appended (NEGATIVE : bool) (v : Z) (ds : list Z) : Z :=
  foldl (fun v c => 10 * v + (if NEGATIVE then - (c - 48) else c - 48)) v ds.

Lemma appended_value (NEGATIVE : bool) ds : appended NEGATIVE 0 ds = if NEGATIVE then - digits_value 0 ds else digits_value 0 ds.
Proof.
  assert (forall v, appended NEGATIVE (if NEGATIVE then - v else v) ds = if NEGATIVE then - digits_value v ds else digits_value v ds) as H.
  { induction ds as [|c ds IH]; intros v; [done|]. unfold appended, digits_value in *. cbn [foldl]. rewrite <- IH. f_equal. destruct NEGATIVE; lia. }
  specialize (H 0). by destruct NEGATIVE.
Qed.

Lemma appended_beyond (NEGATIVE : bool) v ds : Forall is_digit ds -> (if NEGATIVE then v <= 0 else 0 <= v) ->
  if NEGATIVE then appended NEGATIVE v ds <= v else v <= appended NEGATIVE v ds.
Proof.
  intros Hds. revert v. induction Hds as [|c ds Hc Hds IH]; intros v Hv; [by destruct NEGATIVE|]. unfold is_digit in Hc.
  unfold appended in *. cbn [foldl]. destruct NEGATIVE.
  - specialize (IH (10 * v + - (c - 48)) ltac:(lia)). lia.
  - specialize (IH (10 * v + (c - 48)) ltac:(lia)). lia.
Qed.

Lemma grouped_digits accepted us text ds : grouped accepted us text ds -> Forall (fun c => accepted c = true) ds /\ (0 < length ds)%nat.
Proof. induction 1 as [|c text ds Hc _ [IH _]|c text ds _ Hc _ [IH _]]; (split; [by repeat constructor|cbn; lia]). Qed.

Lemma grouped_head accepted us text ds : grouped accepted us text ds -> exists c rest drest, text = c :: rest /\ ds = c :: drest /\ accepted c = true.
Proof. intros [c Hc|c text' ds' Hc _|c text' ds' _ Hc _]; by eexists c, _, _. Qed.

(** A list that does not continue digits. *)
Definition ends_digits (post : list Z) : Prop := forall c rest, post = c :: rest -> CharacterIsDigit c = false /\ c <> code "_".

Lemma lookup_middle (pre post : list Z) c : (pre ++ c :: post) !! length pre = Some c.
Proof. by apply list_lookup_middle. Qed.

Lemma space_properties c : CharacterIsSpace c = true -> CharacterIsDigit c = false /\ c <> code "_" /\ c <> code "." /\ c <> code "," /\ c <> code "e" /\ c <> code "E".
Proof.
  unfold CharacterIsSpace, CharacterIsDigit. rewrite !orb_true_iff, !Z.eqb_eq. intros Hc.
  assert (c = 32 \/ c = 9 \/ c = 10 \/ c = 11 \/ c = 12 \/ c = 13) as H by intuition.
  clear Hc. by destruct H as [-> |[-> |[-> |[-> |[-> | ->]]]]].
Qed.

Lemma is_digit_properties c : is_digit c -> CharacterIsDigit c = true /\ CharacterIsSpace c = false /\ c <> code "-" /\ c <> code "+" /\ c <> code "_" /\ 0 <= c - code "0" <= 9.
Proof.
  intros Hc. split; [by apply digit_true|]. unfold is_digit in Hc. unfold CharacterIsSpace.
  change (code "-") with 45. change (code "+") with 43. change (code "_") with 95. change (code "0") with 48.
  split_and!; lia.
Qed.

Lemma skip_underscore_none accepted pre post : (forall c rest, post = c :: rest -> c <> code "_") ->
  skip_underscore accepted (pre ++ post) (length pre) = mret (length pre).
Proof.
  intros Hpost. unfold skip_underscore. rewrite length_app. destruct post as [|c post]; cbn [length].
  - by rewrite Nat.add_0_r, Nat.eqb_refl.
  - destruct (Nat.eqb_spec (length pre) (length pre + S (length post))); [lia|]. rewrite (access_bind _ _ c) by apply lookup_middle.
    destruct (Z.eqb_spec c (code "_")); [|done]. by destruct (Hpost c post eq_refl).
Qed.

Lemma skip_underscore_one (accepted : Z -> bool) pre c post : accepted c = true ->
  skip_underscore accepted (pre ++ code "_" :: c :: post) (length pre) = mret (S (length pre)).
Proof.
  intros Hc. unfold skip_underscore. rewrite length_app. cbn [length].
  destruct (Nat.eqb_spec (length pre) (length pre + S (S (length post)))); [lia|].
  rewrite (access_bind _ _ (code "_")) by apply lookup_middle. cbn [negb]. rewrite Z.eqb_refl. cbn [negb].
  destruct (Nat.eqb_spec (S (length pre)) (length pre + S (S (length post)))); [lia|].
  rewrite (access_bind _ _ c), Hc; [done|].
  replace (S (length pre)) with (length (pre ++ [code "_"])) by (rewrite length_app; cbn; lia).
  change (code "_" :: c :: post) with ([code "_"] ++ c :: post). rewrite app_assoc. apply lookup_middle.
Qed.

(** What follows an accepted digit is skipped: nothing, or the underscore before the next digit. *)
Lemma skip_after_digit accepted us c text ds pre post : accepted (code "_") = false -> grouped accepted us (c :: text) ds ->
  (forall c' rest, post = c' :: rest -> c' <> code "_") ->
  exists sep text' ds', text = sep ++ text' /\ ds = c :: ds' /\ accepted c = true /\ (us = false -> sep = []) /\
    skip_underscore accepted (pre ++ (c :: text) ++ post) (S (length pre)) = mret (length (pre ++ c :: sep)) /\
    ((text' = [] /\ ds' = []) \/ grouped accepted us text' ds').
Proof.
  intros Hus Hg Hpost. assert (Hlen : S (length pre) = length (pre ++ [c])) by (rewrite length_app; cbn; lia).
  assert (Hne : forall d, accepted d = true -> d <> code "_") by (intros d Hd ->; congruence).
  inversion Hg as [? Hc|? ? ds' Hc Hg'|? text' ds' Hu Hc Hg']; subst.
  - exists [], [], []. split_and!; try done; [|by left]. rewrite Hlen, app_assoc. by apply skip_underscore_none.
  - exists [], text, ds'. split_and!; try done; [|by right]. cbn [app]. rewrite Hlen, cons_middle, app_assoc.
    apply skip_underscore_none. intros d rest Heq. destruct (grouped_head _ _ _ _ Hg') as (d' & ? & ? & -> & _ & Hd'). injection Heq as <- _. by apply Hne.
  - exists [code "_"], text', ds'. split_and!; try done; [|by right]. destruct (grouped_head _ _ _ _ Hg') as (d' & rest & ? & -> & _ & Hd').
    cbn [app]. rewrite Hlen, cons_middle, app_assoc. rewrite skip_underscore_one by done. f_equal. rewrite !length_app. cbn. lia.
Qed.

Section Exact.
Context {T : Type} `{HL : CastOperationLaws T}.
Context (NEGATIVE : bool) (decimal_separator : Z) (strict : bool) (exponent : option (bool -> list Z -> attempt Z)).
Abbreviation beyond v := (if NEGATIVE then v < digits_lowest (T := T) else digits_highest (T := T) < v).
Abbreviation loop buf := (cast_loop NEGATIVE decimal_separator buf strict exponent).

Lemma beyond_appended v ds : Forall (fun c => CharacterIsDigit c = true) ds -> beyond v -> beyond (appended NEGATIVE v ds).
Proof.
  intros Hds Hv. pose proof digits_zero as Hz. assert (Hd : Forall is_digit ds) by (eapply Forall_impl; [exact Hds|intros c; apply digit_range]).
  pose proof (appended_beyond NEGATIVE v ds Hd) as H1. destruct NEGATIVE; specialize (H1 ltac:(lia)); lia.
Qed.

(** An unsigned number with a minus sign is read only if it is zero. *)
Definition sign_allowed (ds : list Z) : Prop := NEGATIVE = true -> minus_allowed (T := T) \/ Forall (fun c => c = code "0") ds.

(** One turn of the loop, at a digit. *)
Lemma digit_turn n buf start fuel pos c state : buf !! pos = Some c -> CharacterIsDigit c = true -> sign_allowed [c] -> cast_inv NEGATIVE (S n) state ->
  let v := appended NEGATIVE (number state) [c] in
  (beyond v /\ loop buf start (S fuel) pos state = return_false) \/
  exists state', cast_inv NEGATIVE n state' /\ number state' = v /\ (no_decimals state -> no_decimals state') /\
    loop buf start (S fuel) pos state =
      (pos ← (if strict then mret (S pos) else skip_underscore CharacterIsDigit buf (S pos)); loop buf start fuel pos state').
Proof.
  intros E Hc Hs Hinv v. cbn [cast_loop]. pose proof (lookup_lt_Some _ _ _ E). destruct (Nat.leb_spec (length buf) pos); [lia|].
  rewrite (access_bind _ _ _ _ E), Hc. cbn [negb].
  assert (Hd : NEGATIVE = true -> minus_allowed (T := T) \/ c - code "0" = 0).
  { intros Hneg. destruct (Hs Hneg) as [?|Hz]; [by left|right]. apply Forall_singleton in Hz as ->. apply Z.sub_diag. }
  destruct (law_digit NEGATIVE n state (c - code "0") Hinv (digit_value c Hc) Hd) as ([state'|] & -> & Hr).
  - right. destruct Hr as (Hinv' & Hn & Hdec). exists state'. split_and!; [done| |done|done]. rewrite Hn. unfold v, appended. cbn [foldl].
    change (code "0") with 48. by destruct NEGATIVE.
  - left. split; [|done]. unfold v, appended. cbn [foldl]. change (code "0") with 48 in Hr. by destruct NEGATIVE.
Qed.

(** The loop over a group of digits. *)
Lemma digits_read n : forall text ds, (length text <= n)%nat -> grouped CharacterIsDigit (negb strict) text ds -> sign_allowed ds ->
  forall pre post start fuel state, ends_digits post -> cast_inv NEGATIVE (length (text ++ post)) state -> (length (text ++ post) <= fuel)%nat ->
  let buf := pre ++ text ++ post in let v := appended NEGATIVE (number state) ds in
  (beyond v /\ loop buf start fuel (length pre) state = return_false) \/
  exists fuel' state', (length post <= fuel')%nat /\ cast_inv NEGATIVE (length post) state' /\ number state' = v /\ (no_decimals state -> no_decimals state') /\
    loop buf start fuel (length pre) state = loop buf start fuel' (length pre + length text)%nat state'.
Proof.
  induction n as [|n IH]; intros text ds Hn Hg Hs pre post start fuel state Hpost Hinv Hfuel buf v.
  { destruct (grouped_head _ _ _ _ Hg) as (? & ? & ? & -> & _). cbn in Hn. lia. }
  destruct (grouped_head _ _ _ _ Hg) as (c & text1 & ds1 & -> & -> & Hc). destruct fuel as [|fuel]; [cbn in Hfuel; lia|].
  pose proof (proj1 (grouped_digits _ _ _ _ Hg)) as Hds. apply Forall_cons in Hds as [_ Hds].
  assert (Hs1 : sign_allowed [c] /\ sign_allowed ds1).
  { split; intros Hneg; destruct (Hs Hneg) as [?|Hz]; [by left| |by left|]; apply Forall_cons in Hz as [? ?]; right; by repeat constructor. }
  destruct (digit_turn (length (text1 ++ post)) buf start fuel (length pre) c state) as [[Hb E]|(state' & Hinv' & Hv & Hdec & E)]; [apply lookup_middle|done|apply Hs1|done|
    left; split; [by apply (beyond_appended _ ds1)|exact E]|]. rewrite E. clear E.
  destruct (skip_after_digit CharacterIsDigit (negb strict) c text1 (c :: ds1) pre post) as (sep & text2 & ds2 & -> & [= ->] & _ & Hsep & Hskip & Hrest);
    [done|done|intros d rest Heq; by destruct (Hpost d rest Heq)|]. subst buf. rewrite Hskip.
  assert ((if strict then mret (S (length pre)) else mret (length (pre ++ c :: sep))) = (mret (length (pre ++ c :: sep)) : attempt nat)) as ->.
  { destruct strict; [|done]. rewrite Hsep by done. rewrite length_app. cbn [length]. f_equal. lia. }
  cbn [mbind attempt_bind mret attempt_ret]. clear Hskip.
  assert (Elen : (length pre + length (c :: sep ++ text2) = length (pre ++ c :: sep) + length text2)%nat) by (rewrite !length_app; cbn; rewrite length_app; lia).
  assert (Ebuf : pre ++ (c :: sep ++ text2) ++ post = (pre ++ c :: sep) ++ text2 ++ post) by (cbn; by rewrite <- !app_assoc).
  rewrite Elen, Ebuf. assert (Hfuel2 : (length (text2 ++ post) <= fuel)%nat) by (cbn in Hfuel; rewrite !length_app in *; lia).
  assert (Hinv2 : cast_inv NEGATIVE (length (text2 ++ post)) state') by (eapply law_fewer, Hinv'; rewrite !length_app; lia).
  destruct Hrest as [[-> ->]|Hg2].
  - right. exists fuel, state'. split_and!; [done|done|done|done|]. cbn [length]. by rewrite Nat.add_0_r.
  - destruct (IH text2 ds2) with (pre := pre ++ c :: sep) (post := post) (start := start) (fuel := fuel) (state := state') as [[Hb E]|(fuel' & state2 & ? & ? & Hv2 & Hdec2 & E)];
      [cbn in Hn; rewrite length_app in Hn; lia|done|apply Hs1|done|done|done|left|right].
    + by rewrite Hv in Hb.
    + exists fuel', state2. rewrite Hv in Hv2. split_and!; auto.
Qed.

Context (Hseparator : CharacterIsSpace decimal_separator = false).

(** The spaces behind a number. *)
Lemma trailing_spaces_read pre c trail fuel : Forall (fun c => CharacterIsSpace c = true) trail -> (length trail <= fuel)%nat ->
  trailing_spaces (pre ++ c :: trail) fuel (length pre) = mret (length (pre ++ c :: trail)).
Proof.
  intros Hs. revert pre c fuel. induction Hs as [|c' trail Hc Hs IH]; intros pre c fuel Hfuel; (destruct fuel as [|fuel]; [try (cbn in Hfuel; lia)|]);
    cbn [trailing_spaces]; rewrite length_app; cbn [length]; try (destruct (Nat.leb_spec (length pre + 1) (S (length pre))); [f_equal; lia|lia]).
  destruct (Nat.leb_spec (length pre + S (S (length trail))) (S (length pre))); [lia|].
  replace (S (length pre)) with (length (pre ++ [c])) by (rewrite length_app; cbn; lia). rewrite (cons_middle c), app_assoc.
  rewrite (access_bind _ _ c') by apply lookup_middle. rewrite Hc. rewrite IH by (cbn in Hfuel; lia). f_equal. rewrite !length_app. cbn. lia.
Qed.

Lemma spaces_after_number pre trail start state : Forall (fun c => CharacterIsSpace c = true) trail -> trail <> [] -> (start < length pre)%nat ->
  after_number NEGATIVE (pre ++ trail) strict exponent start (length pre) state = mret (Break state (length (pre ++ trail))).
Proof.
  intros Hs Hne Hstart. destruct Hs as [|c trail Hc Hs]; [done|]. unfold after_number. rewrite (access_bind _ _ c) by apply lookup_middle. rewrite Hc.
  destruct (Nat.eqb_spec (length pre) start); [lia|]. rewrite trailing_spaces_read; [done|done|]. rewrite length_app. cbn. lia.
Qed.

Lemma spaces_end_digits trail : Forall (fun c => CharacterIsSpace c = true) trail -> ends_digits trail.
Proof. intros Hs c rest ->. apply Forall_cons in Hs as [Hc _]. by destruct (space_properties c Hc) as (? & ? & _). Qed.

(** The loop at the end of a number: only spaces follow. *)
Lemma loop_at_spaces pre trail start fuel state : Forall (fun c => CharacterIsSpace c = true) trail -> (length trail <= fuel)%nat -> (start < length pre)%nat ->
  loop (pre ++ trail) start fuel (length pre) state = mret (Break state (length (pre ++ trail))).
Proof.
  intros Hs Hfuel Hstart. destruct trail as [|c trail].
  - rewrite app_nil_r. destruct fuel; cbn [cast_loop]; by rewrite Nat.leb_refl.
  - destruct fuel as [|fuel]; [cbn in Hfuel; lia|]. cbn [cast_loop]. destruct (Nat.leb_spec (length (pre ++ c :: trail)) (length pre)) as [Hle|_];
      [rewrite length_app in Hle; cbn in Hle; lia|].
    rewrite (access_bind _ _ c) by apply lookup_middle. pose proof Hs as Hs'. apply Forall_cons in Hs' as [Hc _].
    destruct (space_properties c Hc) as (-> & _). cbn [negb]. destruct (Z.eqb_spec c decimal_separator) as [->|_]; [congruence|].
    by apply spaces_after_number.
Qed.

Lemma number_read pre text ds trail state : grouped CharacterIsDigit (negb strict) text ds -> sign_allowed ds ->
  Forall (fun c => CharacterIsSpace c = true) trail -> cast_inv NEGATIVE (length (text ++ trail)) state ->
  let buf := pre ++ text ++ trail in let v := appended NEGATIVE (number state) ds in
  (beyond v /\ loop buf (length pre) (length buf) (length pre) state = return_false) \/
  exists state', cast_inv NEGATIVE 0 state' /\ number state' = v /\ (no_decimals state -> no_decimals state') /\
    loop buf (length pre) (length buf) (length pre) state = mret (Break state' (length buf)).
Proof.
  intros Hg Hs Htrail Hinv buf v.
  destruct (digits_read (length text) text ds) with (pre := pre) (post := trail) (start := length pre) (fuel := length buf) (state := state)
    as [Hb|(fuel' & state' & Hfuel & Hinv' & Hv & Hdec & E)]; [done|done|done|by apply spaces_end_digits|done|subst buf; rewrite !length_app; lia|by left|right].
  exists state'. split_and!; [eapply law_fewer, Hinv'; lia|done|done|]. subst buf. rewrite E, app_assoc, <- length_app. apply loop_at_spaces; [done|done|].
  destruct (grouped_head _ _ _ _ Hg) as (? & ? & ? & -> & _). rewrite length_app. cbn. lia.
Qed.

(** The sign before the digits. *)
Inductive sign_text : bool -> list Z -> Prop :=
  | minus_sign : sign_text true [code "-"]
  | no_sign : sign_text false []
  | plus_sign : strict = false -> sign_text false [code "+"].

Lemma start_position pre text ds trail : sign_text NEGATIVE pre -> grouped CharacterIsDigit (negb strict) text ds ->
  (if NEGATIVE then mret 1%nat
   else c ← run (access (pre ++ text ++ trail) 0); if c =? code "+" then (if strict then return_false else mret 1%nat) else mret 0%nat)
  = (mret (length pre) : attempt nat).
Proof.
  intros Hsign Hg. destruct Hsign as [| |Hs]; [done| |by rewrite Hs].
  destruct (grouped_head _ _ _ _ Hg) as (c & rest & ? & -> & _ & Hc). cbn [app]. rewrite (access_bind _ _ c) by done.
  apply digit_range, is_digit_properties in Hc as (_ & _ & _ & Hp & _). by destruct (Z.eqb_spec c (code "+")).
Qed.

(** A text of digits with its sign: the loop reads the digits, or fails at the limits, and finishes. *)
Lemma integer_cast_loop_digits pre text ds trail state : sign_text NEGATIVE pre -> grouped CharacterIsDigit (negb strict) text ds -> sign_allowed ds ->
  Forall (fun c => CharacterIsSpace c = true) trail -> cast_inv NEGATIVE (length (text ++ trail)) state -> no_decimals state -> number state = 0 ->
  let v := appended NEGATIVE 0 ds in let cast := IntegerCastLoop NEGATIVE decimal_separator (pre ++ text ++ trail) strict exponent state in
  (beyond v /\ cast = return_false) \/
  exists state', cast_inv NEGATIVE 0 state' /\ number state' = v /\ no_decimals state' /\ cast = (state2 ← Finalize NEGATIVE state'; mret state2).
Proof.
  intros Hsign Hg Hallowed Htrail Hinv Hdec Hz v cast. subst cast. unfold IntegerCastLoop. rewrite (start_position _ _ ds) by done. cbn [mbind attempt_bind mret attempt_ret].
  destruct (number_read pre text ds trail state) as [[Hb ->]|(state' & Hinv' & Hv & Hdec' & ->)]; [done|done|done|done|left|right].
  - split; [|done]. by rewrite Hz in Hb.
  - rewrite Hz in Hv. exists state'. split_and!; [done|done|by apply Hdec'|]. cbn [mbind attempt_bind mret attempt_ret].
    destruct (Nat.ltb_spec (length pre) (length (pre ++ text ++ trail))) as [_|Hle]; [done|].
    destruct (grouped_head _ _ _ _ Hg) as (? & ? & ? & -> & _). rewrite !length_app in Hle. cbn in Hle. lia.
Qed.

Lemma integer_cast_loop_returns pre text ds trail state : sign_text NEGATIVE pre -> grouped CharacterIsDigit (negb strict) text ds -> sign_allowed ds ->
  Forall (fun c => CharacterIsSpace c = true) trail -> cast_inv NEGATIVE (length (text ++ trail)) state -> no_decimals state -> number state = 0 ->
  returns (IntegerCastLoop NEGATIVE decimal_separator (pre ++ text ++ trail) strict exponent state) finished True.
Proof.
  intros Hsign Hg Hallowed Htrail Hinv Hdec Hz.
  destruct (integer_cast_loop_digits pre text ds trail state) as [[_ ->]|(state' & Hinv' & _ & _ & ->)]; try done; [by apply returns_false|].
  eapply returns_bind; [by apply law_finalize|done|]. intros s Hs. by apply returns_ret.
Qed.
End Exact.

Section IntegerExact.
Context {T : Type} `{IL : IntegerOperationLaws T}.
Context (NEGATIVE : bool) (decimal_separator : Z) (strict : bool) (exponent : option (bool -> list Z -> attempt Z)).
Context (Hseparator : CharacterIsSpace decimal_separator = false).

Lemma integer_cast_loop_exact pre text ds trail state : sign_text strict NEGATIVE pre -> grouped CharacterIsDigit (negb strict) text ds ->
  sign_allowed NEGATIVE (T := T) ds ->
  Forall (fun c => CharacterIsSpace c = true) trail -> cast_inv NEGATIVE (length (text ++ trail)) state -> no_decimals state -> number state = 0 ->
  let v := appended NEGATIVE 0 ds in
  returns (IntegerCastLoop NEGATIVE decimal_separator (pre ++ text ++ trail) strict exponent state)
    (fun state' => output state' = v /\ finished state') (~ lowest (T := T) <= v <= highest (T := T)).
Proof.
  intros Hsign Hg Hallowed Htrail Hinv Hdec Hz v. pose proof limits_digits as Hlim.
  destruct (integer_cast_loop_digits NEGATIVE decimal_separator strict exponent Hseparator pre text ds trail state)
    as [[Hb ->]|(state' & Hinv' & Hv & Hdec' & ->)]; try done; subst v.
  - apply returns_false. destruct NEGATIVE; lia.
  - eapply returns_bind; [by apply integer_finalize|by rewrite Hv|]. intros s [Hs Hout]. apply returns_ret. by rewrite Hout, Hv.
Qed.
End IntegerExact.

(** ** Hexadecimal and binary digits *)

Section Words.
Context {T : Type} `{IL : IntegerOperationLaws T}.
Context (base : Z) (current : Z -> Z) (accepted : Z -> bool) (digit_of : Z -> Z) (handle : T -> Z -> attempt T).
Context (Hbase : 1 <= base) (Hunderscore : accepted (code "_") = false).
Context (Hcurrent : forall c, accepted c = true -> accepted (current c) = true).
Context (Hdigit : forall c, accepted (current c) = true -> 0 <= digit_of (current c) < base).
Context (Hhandle : forall state d, word_inv state -> 0 <= d < base ->
  returns (handle state d) (fun state' => word_inv state' /\ number state' = base * number state + d) (highest (T := T) < base * number state + d)).

(** The value of digits in the base. *)
Definition word_value (v : Z) (ds : list Z) : Z := foldl (fun v c => base * v + digit_of (current c)) v ds.

Lemma word_value_ge v ds : Forall (fun c => accepted c = true) ds -> 0 <= v -> v <= word_value v ds.
Proof.
  intros Hds. revert v. induction Hds as [|c ds Hc Hds IH]; intros v Hv; [done|]. unfold word_value in *. cbn [foldl].
  pose proof (Hdigit c (Hcurrent c Hc)). specialize (IH (base * v + digit_of (current c)) ltac:(nia)). nia.
Qed.

Lemma word_number_nonneg state : word_inv state -> 0 <= number state.
Proof. intros Hs. apply (law_sign false), law_word, Hs. Qed.

Lemma digits_to_end_exact n : forall text ds, (length text <= n)%nat -> grouped accepted true text ds ->
  forall pre fuel state, word_inv state -> (length text <= fuel)%nat ->
  returns (digits_to_end (pre ++ text) current accepted digit_of handle fuel (length pre) state)
    (fun '(state', pos) => word_inv state' /\ number state' = word_value (number state) ds /\ pos = length (pre ++ text))
    (highest (T := T) < word_value (number state) ds).
Proof.
  induction n as [|n IH]; intros text ds Hn Hg pre fuel state Hinv Hfuel.
  { destruct (grouped_head _ _ _ _ Hg) as (? & ? & ? & -> & _). cbn in Hn. lia. }
  destruct (grouped_head _ _ _ _ Hg) as (c & text1 & ds1 & -> & -> & Hc). destruct fuel as [|fuel]; [cbn in Hfuel; lia|].
  pose proof (proj1 (grouped_digits _ _ _ _ Hg)) as Hds. apply Forall_cons in Hds as [_ Hds].
  cbn [digits_to_end]. destruct (Nat.leb_spec (length (pre ++ c :: text1)) (length pre)) as [Hle|_]; [rewrite length_app in Hle; cbn in Hle; lia|].
  rewrite (access_bind _ _ c) by apply lookup_middle. rewrite (Hcurrent c Hc). cbn [negb].
  destruct (skip_after_digit accepted true c text1 (c :: ds1) pre []) as (sep & text2 & ds2 & -> & [= ->] & _ & _ & Hskip & Hrest); [done|done|done|].
  rewrite app_nil_r in Hskip. rewrite Hskip. cbn [mbind attempt_bind mret attempt_ret].
  pose proof (Hdigit c (Hcurrent c Hc)) as Hd. pose proof (word_number_nonneg state Hinv) as Hnn.
  eapply returns_bind; [apply (Hhandle state (digit_of (current c))); [done|done]| |].
  { cbn beta. intros Hover. unfold word_value. cbn [foldl]. pose proof (word_value_ge (base * number state + digit_of (current c)) ds2 Hds ltac:(nia)) as Hge.
    unfold word_value in Hge. lia. }
  intros state' [Hinv' Hv]. replace (pre ++ c :: sep ++ text2) with ((pre ++ c :: sep) ++ text2) by (by rewrite <- app_assoc).
  unfold word_value. cbn [foldl]. fold (word_value (base * number state + digit_of (current c)) ds2). rewrite <- Hv.
  destruct Hrest as [[-> ->]|Hg2].
  - rewrite app_nil_r. destruct fuel; cbn [digits_to_end]; rewrite Nat.leb_refl; by apply returns_ret.
  - apply IH; [cbn in Hn; rewrite length_app in Hn; lia|done|done|cbn in Hfuel; rewrite length_app in Hfuel; lia].
Qed.
End Words.
