(* ===== verification/IntegerTextFacts.v ===== *)
(** * Integers from text: the cast

    The texts that [TryIntegerCast] reads as integers ([integer_text]), that it returns their value
    exactly when the type holds it, and that for any text it reads only inside of the buffer and
    either returns a value of the type or [false]. *)

From Stdlib Require Import Ascii.
From S2P Require Import Prelude DateText DateTextFacts Hugeint HugeintFacts HugeintDivisionFacts IntegerOps IntegerOpsFacts IntegerCast IntegerCastFacts.

Local Open Scope Z_scope.

(** ** Appending digits *)

Lemma arith_steps t x (g : Z -> Z) v : of_type t x -> g x = v -> of_type t v ->
  (r ← run (shifted ← arith t x; arith t (g shifted)); mret (cast_to t r)) = (mret v : attempt Z).
Proof.
  intros Hx <- Hv. rewrite (arith_exact t x) by (by apply promoted_range). cbn [mbind checked_bind mret checked_ret].
  rewrite arith_exact by (by apply promoted_range). unfold run. cbn [mbind attempt_bind checked_bind mret attempt_ret checked_ret]. by rewrite cast_to_range.
Qed.

Lemma type_digits t : (Minimum t = 0 \/ Minimum t < -9) /\ 9 < Maximum t.
Proof. destruct t; limits; numbers; lia. Qed.

(** The check before a digit is appended. *)
Lemma digit_full t (NEGATIVE : bool) r d : of_type t r -> (if NEGATIVE then r <= 0 else 0 <= r) -> 0 <= d <= 9 ->
  (NEGATIVE = true -> Minimum t < 0 \/ d = 0) ->
  (if NEGATIVE then r <? Z.quot (Minimum t + d) 10 else r >? Z.quot (Maximum t - d) 10) =
  negb (in_type t (10 * r + (if NEGATIVE then - d else d))).
Proof.
  intros Hr Hs Hd Hneg. assert (Hzero : Minimum t <= 0 <= Maximum t) by (destruct t; limits; numbers; lia).
  destruct (type_digits t) as [Hmin Hmax].
  destruct NEGATIVE.
  - replace (Minimum t + d) with (- (- (Minimum t + d))) by lia. rewrite Z.quot_opp_l by lia. destruct (in_type_spec t (10 * r + - d)) as [Hv|Hv]; cbn [negb].
    + apply Z.ltb_ge. destruct Hmin; [destruct (Hneg eq_refl); [lia|]; subst d; replace (- (Minimum t + 0)) with 0 by lia; cbn; lia|].
      rewrite Z.quot_div_nonneg by lia. assert (- r <= - (Minimum t + d) / 10); [|lia]. apply Z.div_le_lower_bound; lia.
    + apply Z.ltb_lt. destruct Hmin; [destruct (Hneg eq_refl); [lia|]; exfalso; apply Hv; lia|].
      rewrite Z.quot_div_nonneg by lia. assert (- (Minimum t + d) / 10 < - r); [|lia]. apply Z.div_lt_upper_bound; lia.
  - rewrite Z.gtb_ltb, Z.quot_div_nonneg by lia. destruct (in_type_spec t (10 * r + d)) as [Hv|Hv]; cbn [negb].
    + apply Z.ltb_ge, Z.div_le_lower_bound; lia.
    + apply Z.ltb_lt, Z.div_lt_upper_bound; lia.
Qed.

Lemma append_digit_exact t (NEGATIVE : bool) r d : of_type t r -> (if NEGATIVE then r <= 0 else 0 <= r) -> 0 <= d <= 9 ->
  (NEGATIVE = true -> Minimum t < 0 \/ d = 0) ->
  append_digit t NEGATIVE r d = exactly t (10 * r + (if NEGATIVE then - d else d)).
Proof.
  intros Hr Hs Hd Hneg. pose proof (digit_full t NEGATIVE r d Hr Hs Hd Hneg) as Hfull. unfold append_digit, checked_result.
  assert (Hzero : Minimum t <= 0 <= Maximum t) by (destruct t; limits; numbers; lia).
  destruct NEGATIVE; rewrite Hfull; match goal with |- context [in_type t ?v] => destruct (in_type_spec t v) as [Hv|Hv] end; cbn [negb]; try done.
  - apply (arith_steps t (r * 10) (fun tens => tens - d)); lia.
  - apply (arith_steps t (r * 10) (fun tens => tens + d)); lia.
Qed.

Lemma append_in_base_exact base t r d : of_type t r -> 0 <= r -> 1 <= base <= 16 -> 0 <= d < base ->
  append_in_base base t r d = exactly t (base * r + d).
Proof.
  intros Hr Hs Hb Hd. unfold append_in_base. assert (Hzero : Minimum t <= 0 <= Maximum t) by (destruct t; limits; numbers; lia).
  assert (Hmax : 16 < Maximum t) by (destruct t; limits; numbers; lia). unfold checked_result.
  assert (Hquot : (r >? Z.quot (Maximum t - d) base) = negb (in_type t (base * r + d))).
  { rewrite Z.gtb_ltb, Z.quot_div_nonneg by lia. destruct (in_type_spec t (base * r + d)) as [Hv|Hv]; cbn [negb].
    - apply Z.ltb_ge, Z.div_le_lower_bound; lia.
    - apply Z.ltb_lt, Z.div_lt_upper_bound; nia. }
  rewrite Hquot. destruct (in_type_spec t (base * r + d)) as [Hv|Hv]; cbn [negb]; [|done].
  apply (arith_steps t (r * base) (fun shifted => shifted + d)); nia.
Qed.

(** ** Integers without decimals *)

Section IntegerLaws.
Context (store : integer_type).
Abbreviation data := (IntegerCastData store).

Definition integer_inv (NEGATIVE : bool) (s : data) : Prop := of_type store (cast_value s) /\ (if NEGATIVE then cast_value s <= 0 else 0 <= cast_value s).

Lemma zero_of_type : Minimum store <= 0 <= Maximum store.
Proof. destruct store; limits; numbers; lia. Qed.

Lemma integer_base base s d : integer_inv false s -> 0 <= d < base -> base <= 16 ->
  returns (r ← append_in_base base store (cast_value s) d; mret (mkCastData r : data))
    (fun s' => integer_inv false s' /\ cast_value s' = base * cast_value s + d) (Maximum store < base * cast_value s + d).
Proof.
  intros [Hs Hsign] Hd Hbase. pose proof zero_of_type. rewrite append_in_base_exact by lia. unfold checked_result, integer_inv.
  destruct (in_type_spec store (base * cast_value s + d)); [apply returns_ret; cbn; nia|apply returns_false; nia].
Qed.

#[export] Instance IntegerCastLaws : CastOperationLaws data.
Proof.
  refine {|
    digits_lowest := Minimum store; digits_highest := Maximum store; minus_allowed := Minimum store < 0; number := cast_value;
    finished := fun s => of_type store (cast_value s);
    cast_inv := fun NEGATIVE _ => integer_inv NEGATIVE;
    fits := fun _ => True;
    word_inv := integer_inv false;
    no_decimals := fun _ => True
  |}; pose proof zero_of_type as Hzero.
  - done.
  - done.
  - done.
  - intros NEGATIVE n _. unfold integer_inv. cbn. by destruct NEGATIVE.
  - done.
  - intros NEGATIVE s [_ Hs]. done.
  - intros NEGATIVE n s d [Hs Hsign] Hd Hneg v. cbn [HandleDigit IntegerCastOperation]. rewrite append_digit_exact by done. fold v. unfold checked_result, integer_inv.
    destruct (in_type_spec store v) as [Hv|Hv].
    + apply returns_ret. cbn. split_and!; try done; destruct NEGATIVE; lia.
    + apply returns_false. destruct NEGATIVE; lia.
  - intros s d Hs Hd. eapply returns_weaken; [by apply (integer_base 16)|by intros ? [? _]|done].
  - intros s d Hs Hd. eapply returns_weaken; [by apply (integer_base 2)|by intros ? [? _]|done].
  - intros. by apply returns_false.
  - intros. by apply returns_false.
  - intros NEGATIVE s [Hs Hsign]. by apply returns_ret.
Defined.

#[export] Instance IntegerCastExact : IntegerOperationLaws data.
Proof.
  refine {| lowest := Minimum store; highest := Maximum store; output := cast_value |}.
  - done.
  - intros s d Hs Hd. by apply (integer_base 16).
  - intros s d Hs Hd. by apply (integer_base 2).
  - intros NEGATIVE s [Hs Hsign] _. by apply returns_ret.
  - done.
Defined.
End IntegerLaws.

Lemma parse_exponent_total separator strict negative text : (0 < length text)%nat -> returns (parse_exponent separator strict negative text) (in_s 16) True.
Proof.
  intros Hlen. unfold parse_exponent. eapply returns_bind.
  - apply integer_cast_loop_total; [intros _; by cbn|by intros|by apply (law_zero (T := IntegerCastData INT16) negative)|done].
  - done.
  - intros s Hs. apply returns_ret. cbn [finished IntegerCastLaws] in Hs. limits. unfold in_s. numbers. lia.
Qed.

(** ** The texts of integers *)

Abbreviation spaces l := (Forall (fun c => CharacterIsSpace c = true) l).
Definition hex_value (ds : list Z) : Z := word_value 16 CharacterToLower hex_digit 0 ds.
Definition binary_value (ds : list Z) : Z := word_value 2 (fun c => c) (fun c => c - code "0") 0 ds.

(** What the code reads as an integer of a signed or an unsigned type, and its value. *)
Inductive integer_text (IS_SIGNED strict : bool) : list Z -> Z -> Prop :=
  | text_digits lead text ds trail : spaces lead -> grouped CharacterIsDigit (negb strict) text ds -> spaces trail ->
      (strict = true -> head ds = Some (code "0") -> length ds = 1%nat) ->
      integer_text IS_SIGNED strict (lead ++ text ++ trail) (digits_value 0 ds)
  | text_plus lead text ds trail : strict = false -> spaces lead -> grouped CharacterIsDigit (negb strict) text ds -> spaces trail ->
      integer_text IS_SIGNED strict (lead ++ [code "+"] ++ text ++ trail) (digits_value 0 ds)
  | text_minus lead text ds trail : IS_SIGNED = true -> spaces lead -> grouped CharacterIsDigit (negb strict) text ds -> spaces trail ->
      integer_text IS_SIGNED strict (lead ++ [code "-"] ++ text ++ trail) (- digits_value 0 ds)
  | text_minus_zero lead n : IS_SIGNED = false -> spaces lead ->
      integer_text IS_SIGNED strict (lead ++ [code "-"] ++ replicate (S n) (code "0")) 0
  | text_hex lead x text ds : spaces lead -> x = code "x" \/ x = code "X" -> grouped CharacterIsHex true text ds ->
      integer_text IS_SIGNED strict (lead ++ code "0" :: x :: text) (hex_value ds)
  | text_binary lead x text ds : spaces lead -> x = code "b" \/ x = code "B" -> grouped CharacterIsBinary true text ds ->
      integer_text IS_SIGNED strict (lead ++ code "0" :: x :: text) (binary_value ds).

Lemma skip_lead lead c rest : spaces lead -> CharacterIsSpace c = false -> skip_leading_spaces (lead ++ c :: rest) = c :: rest.
Proof. intros Hs Hc. induction Hs as [|c' lead Hc' Hs IH]; cbn [app skip_leading_spaces]; [by rewrite Hc|by rewrite Hc']. Qed.

Lemma hex_range c : CharacterIsHex c = true <-> 48 <= c <= 57 \/ 97 <= c <= 102 \/ 65 <= c <= 70.
Proof.
  unfold CharacterIsHex. rewrite !orb_true_iff, digit_range, !andb_true_iff, !Z.geb_leb, !Z.leb_le.
  change (code "a") with 97. change (code "f") with 102. change (code "A") with 65. change (code "F") with 70. lia.
Qed.

Lemma hex_current c : CharacterIsHex c = true -> CharacterIsHex (CharacterToLower c) = true.
Proof. rewrite !hex_range. unfold CharacterToLower. destruct (Z.leb_spec 65 c), (Z.leb_spec c 90); cbn [andb]; lia. Qed.

Lemma hex_digit_range c : CharacterIsHex (CharacterToLower c) = true -> 0 <= hex_digit (CharacterToLower c) < 16.
Proof.
  rewrite hex_range. unfold hex_digit, CharacterToLower. change (code "a") with 97. change (code "0") with 48. rewrite Z.geb_leb.
  destruct (Z.leb_spec 65 c), (Z.leb_spec c 90); cbn [andb]; match goal with |- context [97 <=? ?b] => destruct (Z.leb_spec 97 b) end; lia.
Qed.

Lemma binary_digit_range c : CharacterIsBinary c = true -> 0 <= c - code "0" < 2.
Proof. unfold CharacterIsBinary. rewrite orb_true_iff, !Z.eqb_eq. change (code "0") with 48. change (code "1") with 49. lia. Qed.

Section Cast.
Context {T : Type} `{CastOperation T}.
Context (IS_SIGNED ALLOW_EXPONENT : bool) (decimal_separator : Z) (strict : bool).
Abbreviation cast buf := (TryIntegerCast (T := T) IS_SIGNED ALLOW_EXPONENT decimal_separator buf strict).

(** [TryIntegerCast] behind the leading spaces. *)
Lemma cast_lead lead c rest : spaces lead -> CharacterIsSpace c = false -> cast (lead ++ c :: rest) = cast (c :: rest).
Proof. intros Hl Hc. unfold TryIntegerCast. rewrite skip_lead by done. cbn [skip_leading_spaces]. by rewrite Hc. Qed.

(** The first character decides, or the second if the first one is a zero. *)
Lemma cast_at c rest : CharacterIsSpace c = false ->
  let exponent := if ALLOW_EXPONENT then Some (parse_exponent decimal_separator strict) else None in
  cast (c :: rest) =
  if c =? code "-" then
    if negb IS_SIGNED && negb (only_zeros rest) then return_false
    else IntegerCastLoop true decimal_separator (c :: rest) strict exponent zero_state
  else
    match (if c =? code "0" then head rest else None) with
    | Some d =>
        if (d =? code "x") || (d =? code "X") then IntegerHexCastLoop rest zero_state
        else if (d =? code "b") || (d =? code "B") then IntegerBinaryCastLoop rest zero_state
        else if strict && CharacterIsDigit d then return_false
        else IntegerCastLoop false decimal_separator (c :: rest) strict exponent zero_state
    | None => IntegerCastLoop false decimal_separator (c :: rest) strict exponent zero_state
    end.
Proof.
  intros Hc exponent. unfold TryIntegerCast. cbn [skip_leading_spaces]. rewrite Hc. cbn [length Nat.eqb]. rewrite (access_bind _ _ c) by done.
  fold exponent. cbn [drop]. rewrite drop_0. destruct (c =? code "-"); [done|].
  destruct rest as [|d rest]; cbn [length Nat.ltb Nat.leb andb head]; [by destruct (c =? code "0")|].
  by destruct (c =? code "0").
Qed.

Lemma digit_character c : CharacterIsDigit c = true ->
  CharacterIsSpace c = false /\ (c =? code "-") = false /\ c <> code "x" /\ c <> code "X" /\ c <> code "b" /\ c <> code "B".
Proof.
  intros Hc. apply digit_range in Hc. assert (Hd : is_digit c) by done. destruct (is_digit_properties c Hd) as (_ & Hs & Hm & _).
  split_and!; [done|by apply Z.eqb_neq|..]; intros ->; destruct Hc as [_ Hc]; by apply Hc.
Qed.

(** A character behind a leading zero that does not name a base. *)
Definition no_base (c : Z) (rest : list Z) : Prop :=
  c = code "0" -> forall d, head rest = Some d -> d <> code "x" /\ d <> code "X" /\ d <> code "b" /\ d <> code "B" /\ (strict && CharacterIsDigit d = false).

Lemma cast_plain c rest : CharacterIsSpace c = false -> (c =? code "-") = false -> no_base c rest ->
  cast (c :: rest) = IntegerCastLoop false decimal_separator (c :: rest) strict (if ALLOW_EXPONENT then Some (parse_exponent decimal_separator strict) else None) zero_state.
Proof.
  intros Hs Hm Hbase. rewrite cast_at, Hm by done. destruct (Z.eqb_spec c (code "0")) as [->|_]; [|done].
  destruct (head rest) as [d|] eqn:Hd; [|done]. destruct (Hbase eq_refl d Hd) as (H1 & H2 & H3 & H4 & ->).
  apply Z.eqb_neq in H1, H2, H3, H4. by rewrite H1, H2, H3, H4.
Qed.

(** Digits, which do not start with a zero if they are strict, name no base with what follows. *)
Lemma digits_no_base c text c' ds post : grouped CharacterIsDigit (negb strict) (c :: text) (c' :: ds) ->
  (strict = true -> c' = code "0" -> ds = []) ->
  (forall d, head post = Some d -> d <> code "x" /\ d <> code "X" /\ d <> code "b" /\ d <> code "B" /\ CharacterIsDigit d = false) -> no_base c (text ++ post).
Proof.
  intros Hg Hlead Hpost -> d Hd. inversion Hg as [|? text2 ds2 _ Hg2|? text2 ds2 Hu _ Hg2]; subst.
  - destruct (Hpost d Hd) as (? & ? & ? & ? & ->). by rewrite andb_false_r.
  - destruct (grouped_head _ _ _ _ Hg2) as (d' & ? & ? & -> & -> & Hd'). injection Hd as <-. destruct (digit_character d' Hd') as (_ & _ & ? & ? & ? & ?).
    split_and!; try done. destruct strict; [|done]. by specialize (Hlead eq_refl eq_refl).
  - injection Hd as <-. split_and!; try done. by rewrite andb_false_r.
Qed.

(** An unsigned type reads nothing but zeros behind a minus. *)
Lemma cast_minus_rejected lead rest : IS_SIGNED = false -> spaces lead -> only_zeros rest = false ->
  cast (lead ++ code "-" :: rest) = return_false.
Proof. intros Hs Hl Hz. by rewrite cast_lead, cast_at, Hs, Hz. Qed.
End Cast.

(** Zeros. *)
Lemma zeros_text strict n : let ds := replicate (S n) (code "0") in grouped CharacterIsDigit (negb strict) ds ds /\ digits_value 0 ds = 0.
Proof. split; induction n as [|n IH]; [by apply grouped_one|by apply grouped_digit|done|exact IH]. Qed.

(** ** Integers *)

Section CastExact.
Context {T : Type} `{IL : IntegerOperationLaws T}.
Context (IS_SIGNED ALLOW_EXPONENT : bool) (decimal_separator : Z) (strict : bool).
Context (Hseparator : CharacterIsSpace decimal_separator = false) (Hsigned : IS_SIGNED = true -> minus_allowed (T := T)).
Abbreviation in_limits z := (lowest (T := T) <= z <= highest (T := T)).
Abbreviation cast buf := (TryIntegerCast (T := T) IS_SIGNED ALLOW_EXPONENT decimal_separator buf strict).

(** A cast gives the value [z] when the type holds it, and fails when it does not. *)
Definition casts_to (m : attempt T) (z : Z) : Prop := returns m (fun state => output state = z /\ finished state) (~ in_limits z).

Lemma minus_digits exponent text ds trail : fits (T := T) (length (text ++ trail)) -> grouped CharacterIsDigit (negb strict) text ds -> sign_allowed true (T := T) ds -> spaces trail ->
  casts_to (IntegerCastLoop true decimal_separator ([code "-"] ++ text ++ trail) strict exponent zero_state) (- digits_value 0 ds).
Proof.
  intros Hfits Hg Hs Ht. destruct (law_zero (T := T) true _ Hfits) as (Hinv & _ & Hdec & Hz). rewrite <- (appended_value true).
  apply integer_cast_loop_exact; try done. apply minus_sign.
Qed.

Lemma minus_zeros exponent n : fits (T := T) (S n) -> casts_to (IntegerCastLoop true decimal_separator (code "-" :: replicate (S n) (code "0")) strict exponent zero_state) 0.
Proof.
  intros Hfits. destruct (zeros_text strict n) as [Hg Hv]. assert (Hfits' : fits (T := T) (length (replicate (S n) (code "0") ++ []))) by (by rewrite app_nil_r, length_replicate).
  pose proof (minus_digits exponent _ _ [] Hfits' Hg) as Hminus. rewrite app_nil_r, Hv in Hminus. apply Hminus; [|done]. right. by apply Forall_replicate.
Qed.

Lemma plain_digits exponent pre text ds trail : fits (T := T) (length (text ++ trail)) -> sign_text strict false pre -> grouped CharacterIsDigit (negb strict) text ds -> spaces trail ->
  casts_to (IntegerCastLoop false decimal_separator (pre ++ text ++ trail) strict exponent zero_state) (digits_value 0 ds).
Proof.
  intros Hfits Hpre Hg Ht. destruct (law_zero (T := T) false _ Hfits) as (Hinv & _ & Hdec & Hz). rewrite <- (appended_value false).
  by apply integer_cast_loop_exact.
Qed.

Lemma finalize_word state v (b : bool) : word_inv state -> number state = v -> b = true ->
  casts_to (state' ← Finalize false state; if b then mret state' else return_false) v.
Proof.
  intros Hw <- ->. destruct (law_word state Hw) as [Hinv Hdec]. eapply returns_bind; [by apply integer_finalize|done|].
  intros s [Hlim Hout]. by apply returns_ret.
Qed.

Lemma hex_loop x text ds : fits (T := T) 0 -> grouped CharacterIsHex true text ds -> casts_to (IntegerHexCastLoop (x :: text) zero_state) (hex_value ds).
Proof.
  intros Hfits Hg. destruct (law_zero (T := T) false _ Hfits) as (_ & Hw & _ & Hz). unfold IntegerHexCastLoop, hex_value. rewrite <- Hz.
  destruct (grouped_head _ _ _ _ Hg) as (c & rest & _ & Etext & _).
  eapply returns_bind; [apply (digits_to_end_exact 16 CharacterToLower CharacterIsHex hex_digit HandleHexDigit) with (pre := [x]) (text := text) (ds := ds) (n := length text)|..];
    try done; [apply hex_current|apply hex_digit_range|by apply integer_hex|cbn; lia|cbn beta; lia|].
  intros [state pos] (Hinv & Hv & ->). apply finalize_word; [done|done|]. by subst text.
Qed.

Lemma binary_loop x text ds : fits (T := T) 0 -> grouped CharacterIsBinary true text ds -> casts_to (IntegerBinaryCastLoop (x :: text) zero_state) (binary_value ds).
Proof.
  intros Hfits Hg. destruct (law_zero (T := T) false _ Hfits) as (_ & Hw & _ & Hz). unfold IntegerBinaryCastLoop, binary_value. rewrite <- Hz.
  destruct (grouped_head _ _ _ _ Hg) as (c & rest & _ & Etext & _).
  eapply returns_bind; [apply (digits_to_end_exact 2 (fun c => c) CharacterIsBinary (fun c => c - code "0") HandleBinaryDigit) with (pre := [x]) (text := text) (ds := ds) (n := length text)|..];
    try done; [apply binary_digit_range|by apply integer_binary|cbn; lia|cbn beta; lia|].
  intros [state pos] (Hinv & Hv & ->). apply finalize_word; [done|done|]. by subst text.
Qed.
(** A text of digits is read by the loop over digits. *)
Lemma cast_digits text ds trail : fits (T := T) (length (text ++ trail)) -> grouped CharacterIsDigit (negb strict) text ds -> spaces trail ->
  (strict = true -> head ds = Some (code "0") -> length ds = 1%nat) -> casts_to (cast (text ++ trail)) (digits_value 0 ds).
Proof.
  intros Hfits Hg Ht Hlead. destruct (grouped_head _ _ _ _ Hg) as (c & rest & drest & -> & -> & Hc). destruct (digit_character c Hc) as (Hs & Hm & _).
  cbn [app]. rewrite cast_plain; [|done|done|].
  - apply (plain_digits _ [] (c :: rest)); [done|apply no_sign|done|done].
  - apply (digits_no_base _ _ _ c drest); [done|intros Hst ->; specialize (Hlead Hst eq_refl); by destruct drest|].
    intros d Hd. destruct Ht as [|d' trail Hd' _]; [done|]. injection Hd as <-. destruct (space_properties d' Hd') as (-> & _).
    split_and!; try done; intros ->; by vm_compute in Hd'.
Qed.

Theorem try_integer_cast_exact buf z : fits (T := T) (length buf) -> integer_text IS_SIGNED strict buf z -> casts_to (cast buf) z.
Proof.
  intros Hfits Hbuf. assert (Hfewer : forall n, (n <= length buf)%nat -> fits (T := T) n) by (intros n Hn; by apply (fits_fewer n (length buf))). clear Hfits. destruct Hbuf as [lead text ds trail Hl Hg Ht Hlead|lead text ds trail Hs Hl Hg Ht|lead text ds trail Hs Hl Hg Ht|lead n Hs Hl
    |lead x text ds Hl Hx Hg|lead x text ds Hl Hx Hg].
  - destruct (grouped_head _ _ _ _ Hg) as (c & rest & ? & Etext & _ & Hc). rewrite Etext. cbn [app]. rewrite cast_lead; [|done|by apply digit_character].
    change (c :: rest ++ trail) with ((c :: rest) ++ trail). rewrite <- Etext. apply cast_digits; [apply Hfewer; rewrite !length_app; lia|done..].
  - cbn [app]. rewrite cast_lead, cast_at by done. apply (plain_digits _ [code "+"]); [apply Hfewer; rewrite !length_app; cbn; lia|by apply plus_sign|done|done].
  - cbn [app]. rewrite cast_lead, cast_at by done. rewrite Hs. cbn [negb andb].
    apply minus_digits; [apply Hfewer; rewrite !length_app; cbn; lia|done|intros _; left; by apply Hsigned|done].
  - cbn [app]. rewrite cast_lead, cast_at by done. rewrite Hs.
    assert (only_zeros (replicate (S n) (code "0")) = true) as -> by (clear; induction n as [|n IH]; [done|]; exact IH). apply minus_zeros, Hfewer.
    rewrite !length_app, length_replicate. lia.
  - rewrite cast_lead, cast_at by done. destruct Hx as [-> | ->]; (apply hex_loop; [apply Hfewer; lia|done]).
  - rewrite cast_lead, cast_at by done. destruct Hx as [-> | ->]; (apply binary_loop; [apply Hfewer; lia|done]).
Qed.
End CastExact.

(** ** Any text *)

Section CastTotal.
Context {T : Type} `{HL : CastOperationLaws T}.
Context (IS_SIGNED ALLOW_EXPONENT : bool) (decimal_separator : Z) (strict : bool).
Context (Hseparator : CharacterIsSpace decimal_separator = false) (Hsigned : IS_SIGNED = true -> minus_allowed (T := T)).
Abbreviation cast buf := (TryIntegerCast (T := T) IS_SIGNED ALLOW_EXPONENT decimal_separator buf strict).

Lemma finalize_total (b : bool) state : word_inv state ->
  returns (state' ← Finalize false state; if b then mret state' else return_false) finished True.
Proof.
  intros Hw. destruct (law_word state Hw) as [Hinv _]. eapply returns_bind; [by apply law_finalize|done|].
  intros s Hs. destruct b; [by apply returns_ret|by apply returns_false].
Qed.

Lemma minus_zeros_total exponent rest : only_zeros rest = true -> fits (T := T) (length rest) ->
  returns (IntegerCastLoop true decimal_separator (code "-" :: rest) strict exponent zero_state) (finished (T := T)) True.
Proof.
  intros Hz Hfits. destruct rest as [|d rest].
  - unfold IntegerCastLoop. cbn [mbind attempt_bind mret attempt_ret cast_loop length Nat.leb].
    eapply returns_bind; [by apply law_finalize, (law_zero true 0)|done|]. intros s _. by apply returns_false.
  - assert (Hrest : d :: rest = replicate (S (length rest)) (code "0")).
    { symmetry. apply replicate_as_elem_of. split; [done|]. intros y Hy. apply list_elem_of_In in Hy.
      by apply Z.eqb_eq, (proj1 (forallb_forall _ _) Hz). }
    rewrite Hrest in Hfits |- *. rewrite <- (app_nil_r (replicate _ _)). destruct (zeros_text strict (length rest)) as [Hg _].
    destruct (law_zero (T := T) true _ Hfits) as (Hinv & _ & Hdec & Hv). rewrite length_replicate in Hinv.
    apply (integer_cast_loop_returns true decimal_separator strict exponent Hseparator [code "-"] _ (replicate (S (length rest)) (code "0")) []); try done;
      [apply minus_sign|right; by apply Forall_replicate|by rewrite app_nil_r, length_replicate].
Qed.

(** Any text: no read is outside of the buffer, and a result is a value of the type. *)
Theorem try_integer_cast_total buf : fits (T := T) (length buf) -> returns (cast buf) finished True.
Proof.
  intros Hfits.
  destruct (skip_leading_spaces buf) as [|c rest] eqn:Hskip; [unfold TryIntegerCast; rewrite Hskip; by apply returns_false|].
  assert (Hc : CharacterIsSpace c = false).
  { clear - Hskip. induction buf as [|b buf IH]; [done|]. cbn in Hskip. destruct (CharacterIsSpace b) eqn:E; [by apply IH|]. by injection Hskip as -> _. }
  assert (Hlen : (length (c :: rest) <= length buf)%nat).
  { rewrite <- Hskip. clear. induction buf as [|b buf IH]; [done|]. cbn [skip_leading_spaces length]. destruct (CharacterIsSpace b); cbn [length]; lia. }
  apply (fits_fewer (T := T) _ _ Hlen) in Hfits. clear Hlen. assert (Hfits0 : fits (T := T) 0) by (eapply fits_fewer, Hfits; lia).
  assert (cast buf = cast (c :: rest)) as -> by (unfold TryIntegerCast; rewrite Hskip; cbn [skip_leading_spaces]; by rewrite Hc).
  rewrite cast_at by done. set (exponent := if ALLOW_EXPONENT then _ else _).
  assert (Hexponent : forall parse negative text, exponent = Some parse -> (0 < length text)%nat -> returns (parse negative text) (in_s 16) True).
  { intros parse negative text Hparse Hlen. subst exponent. destruct ALLOW_EXPONENT; [|done]. injection Hparse as <-. by apply parse_exponent_total. }
  assert (Hplain : returns (IntegerCastLoop false decimal_separator (c :: rest) strict exponent zero_state) (finished (T := T)) True)
    by (apply integer_cast_loop_total; [done|exact Hexponent|by apply law_zero|cbn; lia]).
  destruct (Z.eqb_spec c (code "-")) as [->|_].
  - destruct IS_SIGNED eqn:Hsg; cbn [negb andb]; [apply integer_cast_loop_total; [intros _; by apply Hsigned|exact Hexponent|by apply law_zero|cbn; lia]|].
    destruct (only_zeros rest) eqn:Hz; cbn [negb]; [|by apply returns_false].
    apply minus_zeros_total; [done|]. eapply fits_fewer, Hfits. cbn. lia.
  - destruct (if c =? code "0" then head rest else None) as [d|] eqn:Hd; [|done].
    destruct (c =? code "0"); [|done]. destruct rest as [|d' rest]; [done|].
    destruct (_ || _); [|destruct (_ || _); [|destruct (_ && _); [by apply returns_false|done]]].
    + unfold IntegerHexCastLoop. eapply returns_bind; [eapply (digits_to_end_total (T := T)) with (bound := 16)|done|]; [apply hex_digit_range| |by apply (law_zero (T := T) false 0)|lia|].
      { intros s' x Hw Hx. by apply law_hex. }
      intros [s' pos] Hw. by apply finalize_total.
    + unfold IntegerBinaryCastLoop. eapply returns_bind; [eapply (digits_to_end_total (T := T)) with (bound := 2)|done|]; [apply binary_digit_range| |by apply (law_zero (T := T) false 0)|lia|].
      { intros s' x Hw Hx. by apply law_binary. }
      intros [s' pos] Hw. by apply finalize_total.
Qed.
End CastTotal.
