(* ===== verification/IntegerDecimalFacts.v ===== *)
(** * Integers from text: decimals

    [IntegerDecimalCastOperation] is a [CastOperation] with the laws: it rounds half away from zero
    ([finalize_decimal_exact]), and its arithmetic never overflows. *)

From Stdlib Require Import Ascii.
From S2P Require Import Prelude DateText DateTextFacts Hugeint HugeintFacts HugeintDivisionFacts UhugeintFacts IntegerOps IntegerOpsFacts IntegerCast.
From S2P Require Import IntegerCastFacts IntegerTextFacts.

Local Open Scope Z_scope.

Lemma word_range T z : of_type T z -> of_type (store_t T) z.
Proof. unfold store_t. destruct T; limits; numbers; lia. Qed.

Lemma store_limits T : Minimum (store_t T) <= 0 /\ 10 ^ 18 < Maximum (store_t T) < 10 ^ 20 /\ Minimum T <= 0 < Maximum T.
Proof. unfold store_t. destruct T; limits; numbers; lia. Qed.

Lemma checked_returns t z (P : Z -> Prop) (F : Prop) : (of_type t z -> P z) -> (~ of_type t z -> F) -> returns (exactly t z) P F.
Proof. intros HP HF. unfold checked_result. destruct (in_type_spec t z); [by apply returns_ret, HP|by apply returns_false, HF]. Qed.

(** Multiplication by ten is exact with or without the builtins. *)
Lemma multiply_ten64 `{Compiler} z : of_type INT64 z -> TryMultiply64 z 10 = exactly INT64 (z * 10).
Proof.
  intros Hz. destruct (Z.ltb_spec (Z.abs (z * 10)) (2 ^ 63)) as [Hs|Hs]; [apply try_multiply64; [done| |by right]; limits; numbers; lia|].
  unfold TryMultiply64. destruct HasOverflowBuiltins; [done|]. cbn [negb].
  assert (Hout : exactly INT64 (z * 10) = return_false).
  { unfold checked_result. destruct (in_type_spec INT64 (z * 10)); [|done]. limits. numbers. lia. }
  rewrite Hout. unfold i64_min. destruct (Z.eqb_spec z (-9223372036854775808)); [done|]. change (10 =? -9223372036854775808) with false. cbv iota.
  assert (multiply_overflows (u64 (Z.abs z)) (u64 (Z.abs 10)) = true) as ->; [|done].
  limits. numbers. rewrite (wrapu_small 64 (Z.abs z)) by words. set (a := Z.abs z) in *. assert (Ha : 0 <= a < 2 ^ 63) by (subst a; numbers; lia).
  change (u64 (Z.abs 10)) with 10.
  unfold multiply_overflows. change (Z.shiftr 10 32) with 0. change (low32 10) with 10. cbv zeta. cbn [negb Z.eqb].
  rewrite low32_mod, Z.shiftr_div_pow2 by lia.
  pose proof (Z.div_mod a (2 ^ 32) ltac:(lia)) as Ea. pose proof (Z.mod_pos_bound a (2 ^ 32) ltac:(lia)).
  assert (0 <= a / 2 ^ 32 < 2 ^ 31) by (split; [apply Z.div_pos; lia|apply Z.div_lt_upper_bound; numbers; lia]).
  set (h := a / 2 ^ 32) in *. set (l := a mod 2 ^ 32) in *. destruct (Z.eqb_spec h 0); [numbers; lia|].
  unfold high_product_overflows. rewrite Z.shiftr_div_pow2 by lia. rewrite !(wrapu_small 64 (_ * _)) by (split; numbers; lia).
  assert (Hl : 0 <= l * 10 / 2 ^ 32 < 10) by (split; [apply Z.div_pos; lia|apply Z.div_lt_upper_bound; numbers; lia]).
  assert (2 ^ 31 <= h * 10 + l * 10 / 2 ^ 32).
  { pose proof (Z.div_mod (l * 10) (2 ^ 32) ltac:(lia)). pose proof (Z.mod_pos_bound (l * 10) (2 ^ 32) ltac:(lia)). numbers. lia. }
  rewrite wrapu_small by (split; numbers; lia). change 72057591890444288 with (2 ^ 56 - 2 ^ 31).
  rewrite (high_bits_clear 56 31) by (split; numbers; lia). apply negb_true_iff. apply Z.ltb_ge. done.
Qed.

Section Decimal.
Context `{Compiler} (T : integer_type).
Abbreviation store := (store_t T).
Abbreviation data := (IntegerDecimalCastData T).

Lemma multiply_by_ten z : of_type store z -> TryMultiplyOperator store z 10 = exactly store (z * 10).
Proof.
  intros Hz. unfold store_t in *. destruct T; try (by apply multiply_ten64). apply try_multiply_u64; [done|by vm_compute].
Qed.

(** ** Rounding *)

(** Whether decimals round up, by their value and number. *)
Definition rounds_up (decimal digits : Z) : bool := 10 ^ digits <=? 2 * decimal.

(** The loop leaves the leading decimals; the first one decides. *)
Lemma leading_digit_exact fuel D n : 0 <= D < 11 * 10 ^ Z.of_nat fuel -> 0 <= n < 2 ^ 64 ->
  exists D' n', leading_digit fuel D n = mret (D', n') /\ (D < 10 ^ n -> (n' =? 1) && (D' >=? 5) = rounds_up D n).
Proof.
  unfold rounds_up. revert D n. induction fuel as [|fuel IH]; intros D n HD Hn; cbn [leading_digit]; rewrite Z.gtb_ltb; destruct (Z.ltb_spec 10 D) as [Hgt|Hle].
  1: cbn in HD; lia.
  2: { destruct (IH (Z.quot D 10) (u64 (n - 1))) as (D' & n' & E & Hiff).
    - rewrite Z.quot_div_nonneg by lia. rewrite Nat2Z.inj_succ, Z.pow_succ_r in HD by lia. split; [apply Z.div_pos; lia|apply Z.div_lt_upper_bound; lia].
    - apply wrapu_range. lia.
    - exists D', n'. split; [done|]. intros Hlt. assert (2 <= n).
      { destruct (Z.le_gt_cases 2 n); [done|]. assert (10 ^ n <= 10 ^ 1) by (apply Z.pow_le_mono_r; lia). lia. }
      rewrite wrapu_small in Hiff by (unfold in_u; lia). assert (Hpow : 10 ^ n = 10 * 10 ^ (n - 1)) by (rewrite <- Z.pow_succ_r by lia; f_equal; lia).
      assert (Hpow2 : 10 ^ (n - 1) = 2 * (5 * 10 ^ (n - 2))) by (replace (n - 1) with (Z.succ (n - 2)) by lia; rewrite Z.pow_succ_r by lia; lia).
      rewrite Z.quot_div_nonneg in Hiff by lia. pose proof (Z.div_mod D 10 ltac:(lia)). pose proof (Z.mod_pos_bound D 10 ltac:(lia)).
      rewrite Hiff, Hpow by lia. revert Hpow2. generalize (10 ^ (n - 1)), (10 ^ (n - 2)). intros p q Hp.
      destruct (Z.leb_spec p (2 * (D / 10))), (Z.leb_spec (10 * p) (2 * D)); done || lia. }
  all: exists D, n; split; [done|]; intros Hlt; rewrite Z.geb_leb;
    destruct (Z.eqb_spec n 1) as [->|Hn1]; cbn [andb]; [change (10 ^ 1) with 10 in *; compare_all; done || lia|];
    destruct (Z.eqb_spec n 0) as [->|Hn0]; [change (10 ^ 0) with 1 in *; compare_all; done || lia|];
    assert (10 ^ 2 <= 10 ^ n) by (apply Z.pow_le_mono_r; lia); compare_all; done || lia.
Qed.

(** A number rounded away from zero if its decimals are at least a half. *)
Definition rounded (NEGATIVE : bool) (number decimal digits : Z) : Z :=
  if rounds_up decimal digits then (if NEGATIVE then number - 1 else number + 1) else number.

Abbreviation sign_ok NEGATIVE z := (if NEGATIVE : bool then z <= 0 else 0 <= z).

(** The number rounded one way or the other, if the type holds it. *)
Lemma finalize_decimal (NEGATIVE : bool) (s : data) : of_type store (dec_result s) -> 0 <= dec_decimal s < 10 ^ 21 -> 0 <= dec_digits s < 2 ^ 64 ->
  exists up : bool, (dec_decimal s < 10 ^ dec_digits s -> up = rounds_up (dec_decimal s) (dec_digits s)) /\
    let v := if up then (if NEGATIVE then dec_result s - 1 else dec_result s + 1) else dec_result s in
    returns (FinalizeDecimal T NEGATIVE s) (fun s' => dec_result s' = v /\ of_type T v) (~ of_type T (dec_result s) \/ ~ of_type T v).
Proof.
  intros Hr HD Hn. destruct (leading_digit_exact 20 (dec_decimal s) (dec_digits s)) as (D' & n' & E & Hiff); [change (Z.of_nat 20) with 20; change (11 * 10 ^ 20) with (10 ^ 21 + 10 ^ 20); lia|done|].
  exists ((n' =? 1) && (D' >=? 5)). split; [done|]. intros v. unfold FinalizeDecimal. rewrite try_cast_check_exact by done.
  destruct (in_type_spec T (dec_result s)) as [Hin|Hin]; [|apply returns_false; by left]. cbn [mbind attempt_bind]. rewrite E.
  cbn [mbind attempt_bind mret attempt_ret]. destruct ((n' =? 1) && (D' >=? 5)); [|by apply returns_ret].
  assert (of_type T 1) by (pose proof (store_limits T); lia).
  eapply returns_bind with (P := fun z => z = v /\ of_type T v); [|by right; auto|intros z [-> Hv]; by apply returns_ret].
  subst v. destruct NEGATIVE; [rewrite try_subtract_operator_exact by done|rewrite try_add_operator_exact by done]; by apply checked_returns.
Qed.

Lemma finalize_decimal_exact (NEGATIVE : bool) (s : data) : of_type store (dec_result s) -> sign_ok NEGATIVE (dec_result s) ->
  0 <= dec_decimal s < 10 ^ 21 -> 0 <= dec_digits s < 2 ^ 64 -> dec_decimal s < 10 ^ dec_digits s ->
  let v := rounded NEGATIVE (dec_result s) (dec_decimal s) (dec_digits s) in
  returns (FinalizeDecimal T NEGATIVE s) (fun s' => dec_result s' = v /\ of_type T v) (~ of_type T v).
Proof.
  intros Hr Hs HD Hn Hlt v. destruct (finalize_decimal NEGATIVE s Hr HD Hn) as (up & Hup & Hret). rewrite Hup in Hret by done. cbv zeta in Hret.
  eapply returns_weaken; [apply Hret|done|]. intros [Hout|Hout]; [|done]. subst v. unfold rounded. pose proof (store_limits T).
  destruct (rounds_up _ _), NEGATIVE; lia.
Qed.

Lemma finalize_decimal_total (NEGATIVE : bool) (s : data) : of_type store (dec_result s) -> 0 <= dec_decimal s < 10 ^ 21 -> 0 <= dec_digits s < 2 ^ 64 ->
  returns (FinalizeDecimal T NEGATIVE s) (fun s' => of_type T (dec_result s')) True.
Proof.
  intros Hr HD Hn. destruct (finalize_decimal NEGATIVE s Hr HD Hn) as (up & _ & Hret). eapply returns_weaken; [apply Hret| |done]. by intros s' [-> ?].
Qed.

(** ** Decimals and exponents *)

Record decimal_inv (NEGATIVE : bool) (s : data) : Prop := {
  result_ok : of_type store (dec_result s);
  sign_result : sign_ok NEGATIVE (dec_result s);
  decimal_ok : 0 <= dec_decimal s <= Maximum store;
  digits_ok : 0 <= dec_digits s <= MAX_DECIMAL_DIGITS;
  decimal_small : dec_decimal s < 10 ^ dec_digits s
}.

Lemma handle_decimal_digit NEGATIVE (s : data) d : decimal_inv NEGATIVE s -> 0 <= d <= 9 ->
  exists s', HandleDecimalDigit T s d = mret s' /\ decimal_inv NEGATIVE s' /\ dec_result s' = dec_result s /\
    (dec_digits s < MAX_DECIMAL_DIGITS -> 10 * dec_decimal s + d <= Maximum store ->
      dec_decimal s' = 10 * dec_decimal s + d /\ dec_digits s' = dec_digits s + 1).
Proof.
  intros [Hr Hs HD Hn Hlt] Hd. unfold HandleDecimalDigit. pose proof (store_limits T) as (Hmin & Hmax & _).
  destruct (Z.eqb_spec (dec_digits s) MAX_DECIMAL_DIGITS) as [Hfull|Hn1]; cbn [orb]; [exists s; split_and!; [done|done|done|lia]|].
  rewrite Z.gtb_ltb, Z.quot_div_nonneg by lia. destruct (Z.ltb_spec ((Maximum store - d) / 10) (dec_decimal s)) as [Hbig|Hfits].
  { exists s. split_and!; [done|done|done|]. intros _ Hfit. assert (dec_decimal s <= (Maximum store - d) / 10) by (apply Z.div_le_lower_bound; lia). lia. }
  assert (Hv : 10 * dec_decimal s + d <= Maximum store) by (pose proof (Z.mul_div_le (Maximum store - d) 10); lia).
  exists (mkDecimalData (dec_result s) (10 * dec_decimal s + d) (dec_digits s + 1)). split_and!; [| |done|done].
  - rewrite (arith_exact store (dec_decimal s * 10)) by (apply promoted_range; lia). cbn [mbind checked_bind mret checked_ret].
    rewrite arith_bind by (apply promoted_range; lia). unfold MAX_DECIMAL_DIGITS in *. rewrite wrapu_small by (unfold in_u; numbers; lia).
    by rewrite (Z.mul_comm (dec_decimal s) 10).
  - split; cbn [dec_result dec_decimal dec_digits]; try done; [lia|lia|]. rewrite Z.pow_add_r by lia. change (10 ^ 1) with 10. lia.
Qed.

Lemma shift_down_range turns z D : of_type store z -> (0 < turns)%nat \/ Z.abs D <= 9 ->
  let '(z', D') := shift_down turns z D in of_type store z' /\ Z.abs D' <= 9.
Proof.
  revert z D. induction turns as [|turns IH]; intros z D Hz HD; cbn [shift_down]; [split; [done|lia]|].
  assert (Hrem : Z.abs (Z.rem z 10) <= 9) by (pose proof (Z.rem_bound_abs z 10 ltac:(lia)); lia).
  assert (Hq : of_type store (Z.quot z 10)).
  { pose proof (store_limits T) as (Hmin & Hmax & _). pose proof (Z.quot_rem' z 10). destruct (Z.le_gt_cases 0 z).
    - pose proof (Z.quot_pos z 10). pose proof (Z.rem_nonneg z 10). lia.
    - pose proof (Z.rem_nonpos z 10). lia. }
  destruct (_ && _); [done|]. apply IH; [done|by right].
Qed.

Lemma zero_in_store : of_type store 0.
Proof. pose proof (store_limits T). lia. Qed.

(** What is out of range stays so when it is multiplied. *)
Lemma out_of_store z p : ~ of_type store z -> 1 <= p -> ~ of_type store (z * p).
Proof. intros Hz Hp Hzp. apply Hz. pose proof zero_in_store. nia. Qed.

Lemma times_power z turns : z * 10 * 10 ^ Z.of_nat turns = z * 10 ^ Z.of_nat (S turns).
Proof. rewrite Nat2Z.inj_succ, Z.pow_succ_r by lia. ring. Qed.

Lemma exactly_false z : ~ of_type store z -> return_false = exactly store z.
Proof. intros Hz. unfold checked_result. by destruct (in_type_spec store z). Qed.

Lemma power_positive n : 1 <= 10 ^ Z.of_nat n.
Proof. pose proof (Z.pow_pos_nonneg 10 (Z.of_nat n)). lia. Qed.

Lemma shift_decimal_exact turns z : of_type store z -> shift_decimal T turns z = exactly store (z * 10 ^ Z.of_nat turns).
Proof.
  revert z. induction turns as [|turns IH]; intros z Hz; cbn [shift_decimal].
  - rewrite Z.mul_1_r. unfold checked_result. by destruct (in_type_spec store z).
  - rewrite multiply_by_ten, <- times_power by done. unfold checked_result at 1. destruct (in_type_spec store (z * 10)) as [Hin|Hin]; [by apply IH|].
    apply exactly_false, out_of_store; [done|apply power_positive].
Qed.

Lemma shift_up_exact turns z : of_type store z -> shift_up T turns z = exactly store (z * 10 ^ Z.of_nat turns).
Proof.
  revert z. induction turns as [|turns IH]; intros z Hz; cbn [shift_up]; (destruct (Z.eqb_spec z 0) as [->|_];
    [rewrite Z.mul_0_l; unfold checked_result; pose proof zero_in_store; by destruct (in_type_spec store 0)|]).
  - rewrite Z.mul_1_r. unfold checked_result. by destruct (in_type_spec store z).
  - rewrite multiply_by_ten, <- times_power by done. unfold checked_result at 1. destruct (in_type_spec store (z * 10)) as [Hin|Hin]; [by apply IH|].
    apply exactly_false, out_of_store; [done|apply power_positive].
Qed.

Lemma power_loop_exact turns z : 0 <= z -> z * 10 ^ Z.of_nat turns <= Maximum store -> power_loop T turns z = mret (z * 10 ^ Z.of_nat turns).
Proof.
  revert z. induction turns as [|turns IH]; intros z Hz Hmax; cbn [power_loop]; [by rewrite Z.mul_1_r|]. rewrite <- times_power in *.
  pose proof (power_positive turns). pose proof (store_limits T). rewrite arith_bind by (apply promoted_range; nia). apply IH; lia.
Qed.

(** The decimals that an exponent moves before the point, and those it leaves. *)
Lemma moved_decimals D shift : 0 <= D <= Maximum store -> - 2 ^ 32 < shift < 0 ->
  (if u64 (- shift) <? Digits store then power ← power_loop T (Z.to_nat (- shift)) 1; mret (Z.quot D power, Z.rem D power) else mret (0, D)) =
  (mret (D / 10 ^ (- shift), D mod 10 ^ (- shift)) : attempt (Z * Z)).
Proof.
  intros HD Hshift. rewrite wrapu_small by (unfold in_u; numbers; lia).
  assert (Hdigits : 10 ^ (Digits store - 1) <= Maximum store < 10 ^ Digits store /\ 0 < Digits store) by (unfold store_t; destruct T; by vm_compute).
  destruct (Z.ltb_spec (- shift) (Digits store)) as [Hlt|Hge].
  - assert (Hp : 10 ^ (- shift) <= Maximum store) by (transitivity (10 ^ (Digits store - 1)); [apply Z.pow_le_mono_r; lia|lia]).
    assert (0 < 10 ^ (- shift)) by (apply Z.pow_pos_nonneg; lia).
    rewrite power_loop_exact by (rewrite ?Z2Nat.id by lia; lia). rewrite Z2Nat.id, Z.mul_1_l by lia. cbn [mbind attempt_bind mret attempt_ret].
    by rewrite Z.quot_div_nonneg, Z.rem_mod_nonneg by lia.
  - assert (10 ^ Digits store <= 10 ^ (- shift)) by (apply Z.pow_le_mono_r; lia). by rewrite Z.div_small, Z.mod_small by lia.
Qed.

Lemma rounds_up_zero n : 0 <= n -> rounds_up 0 n = false.
Proof. intros Hn. apply Z.leb_gt. pose proof (Z.pow_pos_nonneg 10 n). lia. Qed.

(** The number with the decimals that an exponent moves before the point. *)
Definition combined (NEGATIVE : bool) (number decimals : Z) : Z := if NEGATIVE then number - decimals else number + decimals.

(** A result of the exponent's multiplication and its decimals. *)
Lemma combined_exact NEGATIVE z D : of_type store z -> sign_ok NEGATIVE z -> of_type store D -> 0 <= D ->
  (if NEGATIVE then TrySubtractOperator store z D else TryAddOperator store z D) = exactly store (combined NEGATIVE z D).
Proof. intros Hz Hs HD Hpos. destruct NEGATIVE; [by apply try_subtract_operator_exact|by apply try_add_operator_exact]. Qed.

Lemma sign_scaled (NEGATIVE : bool) z p : sign_ok NEGATIVE z -> 0 < p -> sign_ok NEGATIVE (z * p).
Proof. destruct NEGATIVE; nia. Qed.

(** Values further from zero than one that no value of the type reaches. *)
Lemma further_out (NEGATIVE : bool) z D r n : sign_ok NEGATIVE z -> 0 <= D -> ~ of_type store z \/ ~ of_type store (combined NEGATIVE z D) ->
  ~ of_type T (rounded NEGATIVE (combined NEGATIVE z D) r n).
Proof.
  intros Hs HD Hout Hin. assert (Hz : of_type store (combined NEGATIVE z D)).
  { apply word_range in Hin. unfold rounded, combined in *. pose proof zero_in_store. destruct (rounds_up _ _), NEGATIVE; lia. }
  destruct Hout as [Hout|]; [|done]. apply Hout. unfold combined in Hz. pose proof zero_in_store. destruct NEGATIVE; lia.
Qed.

Lemma store_checked z : returns (exactly store z) (fun x => x = z /\ of_type store z) (~ of_type store z).
Proof. by apply checked_returns. Qed.

(** The decimals moved before the point are a multiple of ten, unless they are in range. *)
Lemma moved_out (NEGATIVE : bool) z q : sign_ok NEGATIVE z -> 0 <= q -> ~ of_type store (q * 10) -> ~ of_type store (combined NEGATIVE z (q * 10)).
Proof. intros Hs Hq Hout Hc. apply Hout. unfold combined, store_t in *. destruct T, NEGATIVE; limits; numbers; lia. Qed.

(** The decimals that are moved, with [left] decimals left. *)
Definition moved (D left : Z) : Z := if left <? 0 then D * 10 ^ (- left) else D / 10 ^ left.
Definition left_over (D left : Z) : Z := if left <? 0 then 0 else D mod 10 ^ left.

Lemma moved_nonneg D left : 0 <= D -> 0 <= moved D left.
Proof.
  intros HD. unfold moved. destruct (Z.ltb_spec left 0); [apply Z.mul_nonneg_nonneg; [lia|apply Z.pow_nonneg; lia]|apply Z.div_pos; [lia|apply Z.pow_pos_nonneg; lia]].
Qed.

Lemma left_over_range D left : 0 <= D -> 0 <= left_over D left <= D.
Proof.
  intros HD. unfold left_over. destruct (Z.ltb_spec left 0); [lia|]. assert (0 < 10 ^ left) by (apply Z.pow_pos_nonneg; lia).
  pose proof (Z.mod_pos_bound D (10 ^ left)). pose proof (Z.mod_le D (10 ^ left)). lia.
Qed.

Lemma moved_zero left : moved 0 left = 0 /\ left_over 0 left = 0.
Proof. unfold moved, left_over. by destruct (left <? 0). Qed.

Lemma move_decimals D left : 0 <= D <= Maximum store -> - 2 ^ 32 < left < 2 ^ 32 ->
  returns (if - left <? 0
      then (if u64 (- - left) <? Digits store then power ← power_loop T (Z.to_nat (- - left)) 1; mret (Z.quot D power, Z.rem D power) else mret (0, D))
      else decimal ← shift_decimal T (Z.to_nat (- left)) D; mret (decimal, 0))
    (fun p => p = (moved D left, left_over D left) /\ of_type store (moved D left))
    (~ of_type store (moved D left) /\ exists q, 0 <= q /\ moved D left = q * 10).
Proof.
  intros HD Hleft. pose proof zero_in_store. unfold moved, left_over. destruct (Z.ltb_spec (- left) 0) as [Hpos|Hneg].
  - rewrite moved_decimals by (numbers; lia). rewrite Z.opp_involutive. destruct (Z.ltb_spec left 0); [lia|]. apply returns_ret. split; [done|].
    assert (0 < 10 ^ left) by (apply Z.pow_pos_nonneg; lia). assert (D / 10 ^ left <= D) by (apply Z.div_le_upper_bound; nia).
    assert (0 <= D / 10 ^ left) by (apply Z.div_pos; lia). lia.
  - rewrite shift_decimal_exact, Z2Nat.id by lia. destruct (Z.ltb_spec left 0) as [Hl|Hl].
    + eapply returns_bind; [apply store_checked| |intros z [-> Hz]; by apply returns_ret]. intros Hout. split; [done|].
      exists (D * 10 ^ (- left - 1)). split; [apply Z.mul_nonneg_nonneg; [lia|apply Z.pow_nonneg; lia]|].
      replace (- left) with (Z.succ (- left - 1)) at 1 by lia. rewrite Z.pow_succ_r by lia. ring.
    + assert (left = 0) as -> by lia. change (10 ^ (- 0)) with 1. change (10 ^ 0) with 1. rewrite Z.div_1_r, Z.mod_1_r, Z.mul_1_r.
      eapply returns_bind; [apply store_checked| |intros z [-> Hz]; by apply returns_ret]. intros Hout. exfalso. apply Hout. lia.
Qed.

(** A positive exponent. *)
Lemma exponent_up NEGATIVE (s : data) e : decimal_inv NEGATIVE s -> 0 <= e < 2 ^ 31 ->
  let left := dec_digits s - e in
  let v := rounded NEGATIVE (combined NEGATIVE (dec_result s * 10 ^ e) (moved (dec_decimal s) left)) (left_over (dec_decimal s) left) (Z.max 0 left) in
  returns (HandleExponentDecimal T NEGATIVE s e) (fun s' => dec_result s' = v /\ of_type T v) (~ of_type T v).
Proof.
  intros [Hr Hs HD Hn Hlt] He left v. unfold HandleExponentDecimal, MAX_DECIMAL_DIGITS in *. destruct (Z.ltb_spec e 0); [lia|].
  assert (Hpow : 0 < 10 ^ e) by (apply Z.pow_pos_nonneg; lia). pose proof (sign_scaled NEGATIVE _ _ Hs Hpow) as Hscaled.
  pose proof (moved_nonneg (dec_decimal s) left ltac:(lia)) as Hmoved. pose proof (left_over_range (dec_decimal s) left ltac:(lia)) as Hleft.
  pose proof (store_limits T) as (_ & Hmax & _).
  rewrite shift_up_exact, Z2Nat.id by (done || lia). eapply returns_bind; [apply store_checked|intros Hout; apply further_out; auto|]. intros z [-> Hz].
  destruct (Z.eqb_spec (dec_decimal s) 0) as [Hzero|Hnz].
  - assert (Hv : v = rounded NEGATIVE (dec_result s * 10 ^ e) (dec_decimal s) (dec_digits s)).
    { subst v. destruct (moved_zero left) as [Hm Hl]. unfold rounded, combined. rewrite Hzero, Hm, Hl, !rounds_up_zero by lia. destruct NEGATIVE; lia. }
    rewrite Hv. apply finalize_decimal_exact; cbn [dec_result dec_decimal dec_digits]; numbers; lia || done.
  - rewrite wraps_small by (unfold in_s; numbers; lia). replace (e - dec_digits s) with (- left) by lia. fold left.
    eapply returns_bind; [apply move_decimals; numbers; lia| |].
    { intros [Hout (q & Hq & Eq)]. apply further_out; [done|done|right]. rewrite Eq in *. by apply moved_out. }
    intros p [-> Hm]. rewrite combined_exact by done.
    eapply returns_bind; [apply store_checked|intros Hout; apply further_out; auto|]. intros z [-> Hc].
    destruct (Z.ltb_spec left 0) as [Hl|Hl].
    + assert (E0 : left_over (dec_decimal s) left = 0) by (unfold left_over; by destruct (Z.ltb_spec left 0); [|lia]).
      assert (Hv : v = rounded NEGATIVE (combined NEGATIVE (dec_result s * 10 ^ e) (moved (dec_decimal s) left)) 0 (u64 left)).
      { subst v. unfold rounded. rewrite E0, !rounds_up_zero by (try lia; apply wrapu_range; lia). done. }
      rewrite Hv, E0. pose proof (wrapu_range 64 left ltac:(lia)) as Hw. unfold in_u in Hw.
      apply finalize_decimal_exact; cbn [dec_result dec_decimal dec_digits]; [done| |lia|lia|pose proof (Z.pow_pos_nonneg 10 (u64 left)); lia].
      unfold combined. destruct NEGATIVE; lia.
    + assert (Hu : u64 left = left) by (apply wrapu_small; unfold in_u; numbers; lia). rewrite Hu.
      assert (Z.max 0 left = left) as E1 by lia. subst v. rewrite E1.
      apply finalize_decimal_exact; cbn [dec_result dec_decimal dec_digits]; [done| |numbers; lia|numbers; lia|].
      * unfold combined. destruct NEGATIVE; lia.
      * unfold left_over. destruct (Z.ltb_spec left 0); [lia|]. apply Z.mod_pos_bound, Z.pow_pos_nonneg; lia.
Qed.

(** A negative exponent drops digits; the last one dropped decides. *)
Lemma shift_down_exact turns z D :
  shift_down (S turns) z D = (Z.quot z (10 ^ Z.of_nat (S turns)), Z.rem (Z.quot z (10 ^ Z.of_nat turns)) 10).
Proof.
  revert z D. induction turns as [|turns IH]; intros z D.
  - cbn [shift_down]. change (10 ^ Z.of_nat 1) with 10. change (10 ^ Z.of_nat 0) with 1. rewrite Z.quot_1_r. by destruct (_ && _).
  - assert (Hquot : forall n, Z.quot (Z.quot z 10) (10 ^ Z.of_nat n) = Z.quot z (10 ^ Z.of_nat (S n))).
    { intros n. rewrite Nat2Z.inj_succ, Z.pow_succ_r by lia. apply Z.quot_quot; [lia|]. pose proof (power_positive n). lia. }
    change (shift_down (S (S turns)) z D) with (let decimal := Z.rem z 10 in let result := Z.quot z 10 in
      if (result =? 0) && (decimal =? 0) then (result, decimal) else shift_down (S turns) result decimal). cbv zeta.
    destruct (Z.eqb_spec (Z.quot z 10) 0) as [Hq|Hq], (Z.eqb_spec (Z.rem z 10) 0) as [Hm|Hm]; cbn [andb]; [|by rewrite IH, !Hquot..].
    rewrite <- !Hquot, Hq, Hm, !Z.quot_0_l; [done|..]; pose proof (power_positive turns); pose proof (power_positive (S turns)); lia.
Qed.

Lemma exponent_down NEGATIVE (s : data) e : decimal_inv NEGATIVE s -> - 2 ^ 31 < e < 0 ->
  let v := rounded NEGATIVE (Z.quot (dec_result s) (10 ^ (- e))) (Z.abs (Z.rem (Z.quot (dec_result s) (10 ^ (- e - 1))) 10)) 1 in
  returns (HandleExponentDecimal T NEGATIVE s e) (fun s' => dec_result s' = v /\ of_type T v) (~ of_type T v).
Proof.
  intros [Hr Hs _ _ _] He v. unfold HandleExponentDecimal. destruct (Z.ltb_spec e 0); [|lia].
  assert (Z.to_nat (- e) = S (Z.to_nat (- e - 1))) as -> by lia. rewrite shift_down_exact, <- Z2Nat.inj_succ, !Z2Nat.id by lia.
  replace (Z.succ (- e - 1)) with (- e) by lia. subst v.
  assert (0 < 10 ^ (- e)) as Hp by (apply Z.pow_pos_nonneg; lia).
  assert (Hq : of_type store (Z.quot (dec_result s) (10 ^ (- e))) /\ sign_ok NEGATIVE (Z.quot (dec_result s) (10 ^ (- e)))).
  { pose proof (store_limits T). revert Hp. generalize (10 ^ (- e)). intros p Hp. destruct NEGATIVE.
    - rewrite <- (Z.opp_involutive (dec_result s)), Z.quot_opp_l, Z.quot_div_nonneg by lia.
      assert (0 <= - dec_result s / p <= - dec_result s); [|lia]. split; [apply Z.div_pos; lia|apply Z.div_le_upper_bound; nia].
    - rewrite Z.quot_div_nonneg by lia. assert (0 <= dec_result s / p <= dec_result s); [|lia]. split; [apply Z.div_pos; lia|apply Z.div_le_upper_bound; nia]. }
  set (d := Z.rem (Z.quot (dec_result s) (10 ^ (- e - 1))) 10). assert (Hd : Z.abs d <= 9) by (pose proof (Z.rem_bound_abs (Z.quot (dec_result s) (10 ^ (- e - 1))) 10 ltac:(lia)); lia).
  assert (Habs : (if d <? 0 then run (arith store (- d)) else mret d) = (mret (Z.abs d) : attempt Z)).
  { destruct (Z.ltb_spec d 0); [|by rewrite Z.abs_eq by lia]. unfold run. rewrite arith_exact by (pose proof (store_limits T); apply promoted_range; lia).
    by rewrite Z.abs_neq by lia. }
  rewrite Habs. cbn [mbind attempt_bind mret attempt_ret].
  apply finalize_decimal_exact; cbn [dec_result dec_decimal dec_digits]; [apply Hq|apply Hq|numbers; lia|numbers; lia|change (10 ^ 1) with 10; lia].
Qed.

Lemma word_state_inv r : of_type store r -> 0 <= r -> decimal_inv false (mkDecimalData r 0 0).
Proof. intros Hr Hs. pose proof (store_limits T). split; cbn [dec_result dec_decimal dec_digits]; unfold MAX_DECIMAL_DIGITS; try done; lia. Qed.

(** Hexadecimal and binary digits, which come with no decimals. *)
Definition word_state (s : data) : Prop := of_type store (dec_result s) /\ 0 <= dec_result s /\ dec_decimal s = 0 /\ dec_digits s = 0.

Lemma word_digit base s d : word_state s -> 0 <= d < base -> base <= 16 ->
  returns (r ← append_in_base base store (dec_result s) d; mret (set_result T s r))
    (fun s' => word_state s' /\ dec_result s' = base * dec_result s + d) (Maximum T < base * dec_result s + d).
Proof.
  intros (Hr & Hs & HD & Hn) Hd Hbase. pose proof (store_limits T) as (_ & _ & Hzero). rewrite append_in_base_exact by lia.
  eapply returns_bind; [apply store_checked|pose proof (word_range T (base * dec_result s + d)); nia|]. intros r [-> Hv]. apply returns_ret.
  unfold word_state. cbn. split_and!; try done; nia.
Qed.

Lemma rounded_whole NEGATIVE (s : data) : dec_decimal s = 0 /\ dec_digits s = 0 -> rounded NEGATIVE (dec_result s) (dec_decimal s) (dec_digits s) = dec_result s.
Proof. intros [-> ->]. unfold rounded. by rewrite rounds_up_zero. Qed.

Lemma finalize_rounds NEGATIVE (s : data) : decimal_inv NEGATIVE s -> let v := rounded NEGATIVE (dec_result s) (dec_decimal s) (dec_digits s) in
  returns (FinalizeDecimal T NEGATIVE s) (fun s' => dec_result s' = v /\ of_type T v) (~ of_type T v).
Proof. intros [Hr Hs HD Hn Hlt]. pose proof (store_limits T). unfold MAX_DECIMAL_DIGITS in *. apply finalize_decimal_exact; numbers; lia || done. Qed.

#[export] Instance IntegerDecimalCastLaws : CastOperationLaws data.
Proof.
  refine {|
    digits_lowest := Minimum store; digits_highest := Maximum store; minus_allowed := Minimum T < 0; number := dec_result;
    finished := fun s => of_type T (dec_result s);
    cast_inv := fun NEGATIVE _ => decimal_inv NEGATIVE;
    fits := fun _ => True;
    word_inv := word_state;
    no_decimals := fun s => dec_decimal s = 0 /\ dec_digits s = 0
  |}; pose proof (store_limits T) as (Hmin & Hmax & Hzero); pose proof zero_in_store as Hz.
  - lia.
  - done.
  - done.
  - intros NEGATIVE n _. unfold word_state. cbn [zero_state IntegerDecimalCastOperation dec_result dec_decimal dec_digits]. split; [|split_and!; done || lia].
    split; cbn [dec_result dec_decimal dec_digits]; unfold MAX_DECIMAL_DIGITS; [done|by destruct NEGATIVE|lia|lia|done].
  - intros [r D n] (Hr & Hs & HD & Hn). cbn [dec_result dec_decimal dec_digits] in *. subst D n. split; [by apply word_state_inv|done].
  - intros NEGATIVE s [_ Hs _ _ _]. done.
  - intros NEGATIVE n s d [Hr Hs HD Hn Hlt] Hd Hneg v. cbn [HandleDigit IntegerDecimalCastOperation].
    assert (Hlow : NEGATIVE = true -> Minimum store < 0 \/ d = 0).
    { intros Hn'. destruct (Hneg Hn') as [?|?]; [left|by right]. unfold store_t. destruct T; limits; numbers; lia. }
    rewrite append_digit_exact by done. fold v. eapply returns_bind; [apply store_checked| |].
    + intros Hout. destruct NEGATIVE; lia.
    + intros r [-> Hv]. apply returns_ret. split_and!; [split|..]; cbn [set_result dec_result dec_decimal dec_digits]; try done. destruct NEGATIVE; lia.
  - intros s d Hs Hd. eapply returns_weaken; [by apply (word_digit 16)|by intros ? [? _]|done].
  - intros s d Hs Hd. eapply returns_weaken; [by apply (word_digit 2)|by intros ? [? _]|done].
  - intros NEGATIVE s d Hinv Hd. destruct (handle_decimal_digit NEGATIVE s d Hinv Hd) as (s' & E & Hinv' & _). cbn [HandleDecimal IntegerDecimalCastOperation]. rewrite E. by apply returns_ret.
  - intros NEGATIVE s e _ Hinv He. unfold in_s in He. cbn [HandleExponent IntegerDecimalCastOperation]. destruct (Z.ltb_spec e 0).
    + eapply returns_weaken; [apply exponent_down; [done|numbers; lia]| |done]. by intros s' [-> ?].
    + eapply returns_weaken; [apply exponent_up; [done|numbers; lia]| |done]. by intros s' [-> ?].
  - intros NEGATIVE s Hs. eapply returns_weaken; [by apply finalize_rounds| |done]. by intros s' [-> ?].
Defined.

#[export] Instance IntegerDecimalCastExact : IntegerOperationLaws data.
Proof.
  refine {| lowest := Minimum T; highest := Maximum T; output := dec_result |}.
  - cbn [digits_lowest digits_highest IntegerDecimalCastLaws]. pose proof (word_range T (Minimum T)). pose proof (word_range T (Maximum T)).
    pose proof (store_limits T). lia.
  - intros s d Hs Hd. by apply (word_digit 16).
  - intros s d Hs Hd. by apply (word_digit 2).
  - intros NEGATIVE s Hs Hnone. cbn [Finalize IntegerDecimalCastOperation number finished IntegerDecimalCastLaws]. cbn [cast_inv IntegerDecimalCastLaws] in Hs.
    eapply returns_weaken; [by apply finalize_rounds|..]; rewrite rounded_whole by done; [|done]. by intros s' [-> ?].
  - done.
Defined.
End Decimal.
