(* ===== verification/NumberText.v ===== *)
(** * Numbers as text

    The texts of numbers with decimals and an exponent, their values, and what the loops of any cast do
    with their parts. *)

From Stdlib Require Import Ascii.
From S2P Require Import Prelude DateText DateTextFacts Hugeint HugeintFacts HugeintDivisionFacts IntegerOps IntegerOpsFacts IntegerCast.
From S2P Require Import IntegerCastFacts IntegerTextFacts.

Local Open Scope Z_scope.

(** ** Rounding half away from zero *)

(** [num / den], for [0 <= num] and [0 < den]. *)
Definition half_away (num den : Z) : Z := (2 * num + den) / (2 * den).

Lemma half_away_rounds a r den : 0 <= r < den -> half_away (a * den + r) den = a + (if den <=? 2 * r then 1 else 0).
Proof.
  intros Hr. unfold half_away. destruct (Z.leb_spec den (2 * r)).
  - symmetry. apply (Z.div_unique _ _ _ (2 * r - den)); lia.
  - symmetry. apply (Z.div_unique _ _ _ (2 * r + den)); lia.
Qed.

Lemma half_away_one num : half_away num 1 = num.
Proof. pose proof (half_away_rounds num 0 1 ltac:(lia)) as E. rewrite Z.mul_1_r, !Z.add_0_r in E. exact E. Qed.

Lemma half_away_scale k num den : 0 < k -> 0 < den -> half_away (k * num) (k * den) = half_away num den.
Proof.
  intros Hk Hd. unfold half_away. replace (2 * (k * num) + k * den) with (k * (2 * num + den)) by ring.
  replace (2 * (k * den)) with (k * (2 * den)) by ring. apply Z.div_mul_cancel_l; lia.
Qed.

(** The value of [M.D] with [n] decimals and the exponent [e], rounded. *)
Definition decimal_value (M D n e : Z) : Z := half_away ((M * 10 ^ n + D) * 10 ^ Z.max 0 e) (10 ^ (n + Z.max 0 (- e))).
Definition signed (NEGATIVE : bool) (m : Z) : Z := if NEGATIVE then - m else m.

Lemma ten_positive n : 0 <= n -> 0 < 10 ^ n.
Proof. intros. by apply Z.pow_pos_nonneg. Qed.

Lemma digits_value_from y ds : digits_value y ds = y * 10 ^ Z.of_nat (length ds) + digits_value 0 ds.
Proof.
  revert y. induction ds as [|c ds IH]; intros y; [cbn; lia|]. unfold digits_value in *. cbn [foldl length]. rewrite IH, (IH (c - 48 + 0 * 10)).
  rewrite Nat2Z.inj_succ, Z.pow_succ_r by lia. ring.
Qed.

Lemma digits_value_below ds : Forall is_digit ds -> 0 <= digits_value 0 ds < 10 ^ Z.of_nat (length ds).
Proof.
  induction 1 as [|c ds Hc Hds IH]; [done|]. unfold is_digit in Hc. change (digits_value 0 (c :: ds)) with (digits_value (c - 48 + 0 * 10) ds).
  rewrite digits_value_from. cbn [length]. rewrite Nat2Z.inj_succ, Z.pow_succ_r by lia. nia.
Qed.

Lemma digits_value_snoc y ds c : digits_value y (ds ++ [c]) = 10 * digits_value y ds + (c - 48).
Proof. unfold digits_value. rewrite foldl_app. cbn [foldl]. lia. Qed.

(** ** Texts with decimals and an exponent *)

Inductive fraction_text : list Z -> list Z -> Prop :=
  | no_fraction : fraction_text [] []
  | bare_point : fraction_text [code "."] []
  | fraction text ds : grouped CharacterIsDigit true text ds -> fraction_text (code "." :: text) ds.

(** From behind the decimals to the end: an exponent of 16 bits, and spaces. *)
Inductive exponent_text : list Z -> Z -> Prop :=
  | no_exponent trail : spaces trail -> exponent_text trail 0
  | with_exponent c NEGATIVE pre text ds trail : c = code "e" \/ c = code "E" -> sign_text false NEGATIVE pre ->
      grouped CharacterIsDigit true text ds -> spaces trail -> in_s 16 (appended NEGATIVE 0 ds) ->
      exponent_text (c :: pre ++ text ++ trail) (appended NEGATIVE 0 ds).

Lemma exponent_head text e : exponent_text text e -> forall c rest, text = c :: rest -> CharacterIsDigit c = false /\ c <> code "_" /\ c <> code "." /\
  c <> code "x" /\ c <> code "X" /\ c <> code "b" /\ c <> code "B".
Proof.
  intros [trail Ht|c' NEGATIVE pre text' ds trail Hc _ _ _ _] c rest Heq.
  - subst. apply Forall_cons in Ht as [Hc _]. destruct (space_properties c Hc) as (? & ? & ? & _). split_and!; try done; intros ->; by vm_compute in Hc.
  - injection Heq as <- _. by destruct Hc as [-> | ->].
Qed.

(** What the loop does where it no longer sees digits. *)
Definition tail {T} `{CastOperation T} (NEGATIVE : bool) buf strict exponent start pos (state : T) : attempt exit :=
  if (length buf <=? pos)%nat then mret (Break state pos) else after_number NEGATIVE buf strict exponent start pos state.

Lemma loop_tail {T} `{CastOperation T} (NEGATIVE : bool) exponent pre etext e start fuel (state : T) : exponent_text etext e -> (length etext <= fuel)%nat ->
  cast_loop NEGATIVE (code ".") (pre ++ etext) false exponent start fuel (length pre) state = tail NEGATIVE (pre ++ etext) false exponent start (length pre) state.
Proof.
  intros He Hfuel. unfold tail. destruct etext as [|c etext].
  - rewrite app_nil_r, Nat.leb_refl. destruct fuel; cbn [cast_loop]; by rewrite Nat.leb_refl.
  - destruct fuel as [|fuel]; [cbn in Hfuel; lia|]. cbn [cast_loop]. destruct (_ <=? _)%nat; [done|].
    destruct (exponent_head _ _ He c etext eq_refl) as (Hd & _ & Hp & _). rewrite (access_bind _ _ c) by apply lookup_middle. rewrite Hd. cbn [negb].
    by apply Z.eqb_neq in Hp as ->.
Qed.

(** Only spaces to the end: the loop is left there. *)
Lemma tail_spaces {T} `{CastOperation T} (NEGATIVE : bool) pre trail exponent start (state : T) : spaces trail -> (start < length pre)%nat ->
  tail NEGATIVE (pre ++ trail) false exponent start (length pre) state = mret (Break state (length (pre ++ trail))).
Proof.
  intros Ht Hstart. unfold tail. destruct trail as [|c trail]; [by rewrite app_nil_r, Nat.leb_refl|].
  destruct (Nat.leb_spec (length (pre ++ c :: trail)) (length pre)) as [Hle|_]; [rewrite length_app in Hle; cbn in Hle; lia|]. by apply spaces_after_number.
Qed.

Section Texts.
Context {T : Type} `{HL : CastOperationLaws T} (NEGATIVE : bool) (exponent : option (bool -> list Z -> attempt Z)).
Abbreviation loop buf := (cast_loop NEGATIVE (code ".") buf false exponent).

(** The digits before the point, if there are any. *)
Definition digits_text (text ds : list Z) : Prop := (text = [] /\ ds = []) \/ grouped CharacterIsDigit true text ds.

Lemma digits_text_read text ds pre post start fuel state : digits_text text ds -> sign_allowed NEGATIVE (T := T) ds -> ends_digits post ->
  cast_inv NEGATIVE (length (text ++ post)) state -> (length (text ++ post) <= fuel)%nat ->
  let buf := pre ++ text ++ post in let v := appended NEGATIVE (number state) ds in
  ((if NEGATIVE then v < digits_lowest (T := T) else digits_highest (T := T) < v) /\ loop buf start fuel (length pre) state = return_false) \/
  exists fuel' state', (length post <= fuel')%nat /\ cast_inv NEGATIVE (length post) state' /\ number state' = v /\ (no_decimals state -> no_decimals state') /\
    loop buf start fuel (length pre) state = loop buf start fuel' (length pre + length text)%nat state'.
Proof.
  intros [[-> ->]|Hg] Hs Hpost Hinv Hfuel.
  - right. exists fuel, state. split_and!; try done. cbn [length]. by rewrite Nat.add_0_r.
  - by apply (digits_read NEGATIVE (code ".") false exponent (length text)).
Qed.
End Texts.

(** ** The digits behind the point *)

Section Decimals.
Context {T : Type} `{CastOperation T} (NEGATIVE : bool) (exponent : option (bool -> list Z -> attempt Z)).
(** What holds after a part of the digits [all] was handled. *)
Context (all : list Z) (handled : list Z -> T -> Prop).
Context (Hstep : forall p c rest state, p ++ c :: rest = all -> CharacterIsDigit c = true -> handled p state ->
  exists state', HandleDecimal NEGATIVE state (c - code "0") = mret state' /\ handled (p ++ [c]) state').

Lemma decimals_end pre post fuel state : ends_digits post -> (length post <= fuel)%nat ->
  decimals_loop NEGATIVE (pre ++ post) fuel (length pre) state = mret (state, length pre).
Proof.
  intros Hpost Hfuel. destruct post as [|c post].
  - rewrite app_nil_r. destruct fuel; cbn [decimals_loop]; by rewrite Nat.leb_refl.
  - destruct fuel; [cbn in Hfuel; lia|]. cbn [decimals_loop]. destruct (_ <=? _)%nat; [done|]. rewrite (access_bind _ _ c) by apply lookup_middle.
    by destruct (Hpost c post eq_refl) as [-> _].
Qed.

Lemma decimals_loop_read n : forall text ds, (length text <= n)%nat -> digits_text text ds -> forall p pre post fuel state,
  ends_digits post -> p ++ ds = all -> handled p state -> (length (text ++ post) <= fuel)%nat ->
  exists state', decimals_loop NEGATIVE (pre ++ text ++ post) fuel (length pre) state = mret (state', length (pre ++ text)) /\ handled all state'.
Proof.
  induction n as [|n IH]; intros text ds Hn [[-> ->]|Hg] p pre post fuel state Hpost Hall Hstate Hfuel.
  1, 3: exists state; rewrite app_nil_r in *; subst p; split; [by apply decimals_end|done].
  { destruct (grouped_head _ _ _ _ Hg) as (? & ? & ? & -> & _). cbn in Hn. lia. }
  destruct (grouped_head _ _ _ _ Hg) as (c & text1 & ds1 & -> & -> & Hc). destruct fuel as [|fuel]; [cbn in Hfuel; lia|].
  cbn [decimals_loop]. destruct (Nat.leb_spec (length (pre ++ (c :: text1) ++ post)) (length pre)) as [Hle|_]; [rewrite length_app in Hle; cbn in Hle; lia|].
  rewrite (access_bind _ _ c) by (cbn; apply lookup_middle). rewrite Hc. cbn [negb].
  destruct (Hstep p c ds1 state Hall Hc Hstate) as (state1 & -> & Hstate1). cbn [mbind attempt_bind mret attempt_ret].
  destruct (skip_after_digit CharacterIsDigit true c text1 (c :: ds1) pre post) as (sep & text2 & ds2 & -> & [= ->] & _ & _ & Hskip & Hrest);
    [done|done|intros d rest Heq; by destruct (Hpost d rest Heq)|]. rewrite Hskip. cbn [mbind attempt_bind mret attempt_ret].
  assert (Ebuf : pre ++ (c :: sep ++ text2) ++ post = (pre ++ c :: sep) ++ text2 ++ post) by (cbn; by rewrite <- !app_assoc). rewrite Ebuf.
  destruct (IH text2 ds2) with (p := p ++ [c]) (pre := pre ++ c :: sep) (post := post) (fuel := fuel) (state := state1) as (state2 & E2 & Hstate2);
    [cbn in Hn; rewrite length_app in Hn; lia|exact Hrest|done|by rewrite <- app_assoc|done|cbn in Hfuel; rewrite !length_app in *; lia|].
  exists state2. rewrite E2. split; [|done]. f_equal. f_equal. rewrite <- !app_assoc. cbn. by rewrite <- ?app_assoc.
Qed.

(** From the point on: what the loop does there is what it does behind the decimals. *)
Lemma fraction_loop_read pre ftext etext e start fuel state : fraction_text ftext all -> exponent_text etext e ->
  (start < length pre)%nat \/ (start = length pre /\ all <> []) -> handled [] state -> (length (ftext ++ etext) <= fuel)%nat ->
  exists state', handled all state' /\
    cast_loop NEGATIVE (code ".") (pre ++ ftext ++ etext) false exponent start fuel (length pre) state =
    tail NEGATIVE ((pre ++ ftext) ++ etext) false exponent start (length (pre ++ ftext)) state'.
Proof.
  intros Hf He Hstart Hstate Hfuel. assert (Hends : ends_digits etext) by (intros c rest Heq; by destruct (exponent_head _ _ He c rest Heq) as (? & ? & _)).
  assert (Hpoint : forall text, ftext = code "." :: text -> digits_text text all -> exists state', handled all state' /\
    cast_loop NEGATIVE (code ".") (pre ++ ftext ++ etext) false exponent start fuel (length pre) state =
    tail NEGATIVE ((pre ++ ftext) ++ etext) false exponent start (length (pre ++ ftext)) state').
  { intros text -> Htext.
    destruct (decimals_loop_read (length text) text all) with (p := @nil Z) (pre := pre ++ [code "."]) (post := etext) (fuel := length (pre ++ (code "." :: text) ++ etext)) (state := state)
      as (state' & E & Hstate'); [done|done|done|done|done|rewrite !length_app; cbn; rewrite ?length_app; lia|]. exists state'. split; [done|].
    destruct fuel as [|fuel]; [cbn in Hfuel; lia|]. cbn [cast_loop]. destruct (Nat.leb_spec (length (pre ++ (code "." :: text) ++ etext)) (length pre)) as [Hle|_];
      [rewrite length_app in Hle; cbn in Hle; lia|].
    cbn [app]. rewrite (access_bind _ _ (code ".")) by apply lookup_middle. change (CharacterIsDigit (code ".")) with false. rewrite Z.eqb_refl. cbn [negb].
    unfold after_separator. rewrite <- app_assoc in E. cbn [app] in E.
    replace (S (length pre)) with (length (pre ++ [code "."])) by (rewrite length_app; cbn; lia). rewrite E. cbn [mbind attempt_bind mret attempt_ret].
    assert (Hany : (start <? length pre)%nat || (length (pre ++ [code "."]) <? length ((pre ++ [code "."]) ++ text))%nat = true).
    { apply orb_true_iff. rewrite !Nat.ltb_lt. destruct Hstart as [?|[_ Hne]]; [by left|right]. destruct Htext as [[_ Hnil]|Hg]; [done|].
      destruct (grouped_head _ _ _ _ Hg) as (? & ? & ? & -> & _). rewrite !length_app. cbn. lia. }
    rewrite Hany. unfold tail. rewrite <- !app_assoc. done. }
  inversion Hf as [Ef Eds|Ef Eds|text ds Hg Ef Eds]; subst ftext.
  - exists state. split; [exact Hstate|]. cbn [app]. rewrite app_nil_r. by apply (loop_tail _ _ _ _ e).
  - destruct (Hpoint [] eq_refl) as (state' & Hs & E); [by left|]. exists state'. split; [by rewrite Eds|exact E].
  - apply (Hpoint text); [done|by right].
Qed.
End Decimals.

(** ** The characters of a number, from its sign on *)

Section NumberText.
Context (NEGATIVE : bool).

Record number_text (pre itext ids ftext fds etext : list Z) (e : Z) : Prop := {
  text_sign : sign_text false NEGATIVE pre;
  text_whole : digits_text itext ids;
  text_fraction : fraction_text ftext fds;
  text_exponent : exponent_text etext e;
  text_any : ids <> [] \/ fds <> []
}.

Definition number_value ids fds e : Z := signed NEGATIVE (decimal_value (digits_value 0 ids) (digits_value 0 fds) (Z.of_nat (length fds)) e).

Lemma number_ends pre itext ids ftext fds etext e : number_text pre itext ids ftext fds etext e -> ends_digits (ftext ++ etext).
Proof.
  intros [_ _ Hf He _] c rest. destruct Hf as [| |text ds _]; cbn [app].
  - intros Heq. by destruct (exponent_head _ _ He c rest Heq) as (? & ? & _).
  - by intros [= <- _].
  - by intros [= <- _].
Qed.

Lemma number_start pre itext ids ftext fds etext e : number_text pre itext ids ftext fds etext e ->
  exists c rest, itext ++ ftext ++ etext = c :: rest /\ (CharacterIsDigit c = true \/ c = code ".").
Proof.
  intros [_ Hi Hf _ Hany]. destruct Hi as [[-> ->]|Hg].
  - destruct Hf as [| |text ds _]; [by destruct Hany|by eexists _, _; split; [|right]..].
  - destruct (grouped_head _ _ _ _ Hg) as (c & rest & ? & -> & _ & Hc). eexists c, _. split; [reflexivity|by left].
Qed.

(** The position of the first digit or point. *)
Lemma number_position pre itext ids ftext fds etext e : number_text pre itext ids ftext fds etext e ->
  (if NEGATIVE then mret 1%nat
   else c ← run (access (pre ++ itext ++ ftext ++ etext) 0); if c =? code "+" then mret 1%nat else mret 0%nat) = (mret (length pre) : attempt nat).
Proof.
  intros Hparts. pose proof (number_start _ _ _ _ _ _ _ Hparts) as (c & rest & Ec & Hc). destruct Hparts as [Hsign _ _ _ _].
  rewrite Ec. destruct Hsign as [| |]; [done| |done]. cbn [app]. rewrite (access_bind _ _ c) by done.
  destruct Hc as [Hc| ->]; [|done]. apply digit_range, is_digit_properties in Hc as (_ & _ & _ & Hp & _). by apply Z.eqb_neq in Hp as ->.
Qed.

(** The cast of such a text, once it is past the spaces and the sign, is the loop. *)
Lemma number_cast {D} `{CastOperation D} (IS_SIGNED ALLOW_EXPONENT : bool) lead pre itext ids ftext fds etext e : (NEGATIVE = true -> IS_SIGNED = true) -> spaces lead -> number_text pre itext ids ftext fds etext e ->
  TryIntegerCast (T := D) IS_SIGNED ALLOW_EXPONENT (code ".") (lead ++ pre ++ itext ++ ftext ++ etext) false =
  IntegerCastLoop NEGATIVE (code ".") (pre ++ itext ++ ftext ++ etext) false (if ALLOW_EXPONENT then Some (parse_exponent (code ".") false) else None) zero_state.
Proof.
  intros Hneg Hl Hparts. pose proof (number_start _ _ _ _ _ _ _ Hparts) as (c & rest & Ec & Hc).
  assert (Hc' : CharacterIsSpace c = false /\ (c =? code "-") = false) by (destruct Hc as [Hc| ->]; [|done]; apply digit_character in Hc as (? & ? & _); done).
  assert (Hbase : pre = [] -> no_base false c rest).
  { intros _ E0. destruct Hparts as [_ Hi Hf He _]. destruct Hi as [[-> ->]|Hg].
    - assert (Hpoint : forall text, code "." :: text = c :: rest -> no_base false c rest) by (intros text Heq; injection Heq as Heq _; rewrite <- Heq in E0; by vm_compute in E0).
      revert E0. destruct Hf as [| |text ds _]; cbn [app] in Ec; [|by eapply Hpoint..].
      destruct (exponent_head _ _ He c rest Ec) as [Hd _]. intros ->. done.
    - destruct (grouped_head _ _ _ _ Hg) as (c1 & t1 & d1 & -> & -> & Hc1). injection Ec as -> <-. rewrite app_assoc. revert E0. rewrite <- app_assoc.
      apply (digits_no_base false c t1 c d1 (ftext ++ etext)); [done|done|]. intros d Hd.
      destruct Hf as [| |text ds _]; cbn [app] in Hd; [|injection Hd as <-; by split_and!..].
      destruct etext as [|x etext]; [done|]. injection Hd as <-. destruct (exponent_head _ _ He x etext eq_refl) as (? & _ & _ & ? & ? & ? & ?). done. }
  destruct Hparts as [Hsign _ _ _ _]. rewrite Ec. destruct Hsign as [| |_]; cbn [app].
  - rewrite cast_lead, cast_at by done. cbn [Z.eqb]. by rewrite Hneg.
  - rewrite cast_lead; [|done|apply Hc']. apply cast_plain; [apply Hc'|apply Hc'|by apply Hbase].
  - rewrite cast_lead, cast_plain by done. done.
Qed.

(** Behind the digits before the point there is a point with digits, if there were none. *)
Lemma number_fraction pre itext ids ftext fds etext e : number_text pre itext ids ftext fds etext e ->
  (length pre < length (pre ++ itext))%nat \/ (length pre = length (pre ++ itext) /\ fds <> []).
Proof.
  intros [_ Hi Hf _ Hany]. rewrite length_app. destruct Hi as [[-> ->]|Hg]; [right; cbn; split; [lia|by destruct Hany]|left].
  destruct (grouped_head _ _ _ _ Hg) as (? & ? & ? & -> & _). cbn. lia.
Qed.

Lemma number_not_empty pre itext ids ftext fds etext e : number_text pre itext ids ftext fds etext e -> (length pre < length ((pre ++ itext) ++ ftext))%nat.
Proof.
  intros [_ Hi Hf _ Hany]. rewrite !length_app. destruct Hi as [[-> ->]|Hg]; [destruct Hf; [by destruct Hany|cbn; lia..]|].
  destruct (grouped_head _ _ _ _ Hg) as (? & ? & ? & -> & _). cbn. lia.
Qed.

Lemma digits_text_digits text ds : digits_text text ds -> Forall is_digit ds.
Proof. intros [[-> ->]|Hg]; [constructor|]. apply grouped_digits in Hg as [Hg _]. eapply Forall_impl; [exact Hg|]. intros d. apply digit_range. Qed.
End NumberText.
