(* ===== verification/IntegerNumberFacts.v ===== *)
(** * Integers from text: numbers with decimals and exponents

    A number with at most 18 decimals and any exponent of 16 bits is read as its value rounded half
    away from zero ([simple_integer_cast_exact]), and fails when the type does not hold that value. *)

From Stdlib Require Import Ascii.
From S2P Require Import Prelude DateText DateTextFacts Hugeint HugeintFacts HugeintDivisionFacts UhugeintFacts IntegerOps IntegerOpsFacts IntegerCast.
From S2P Require Import IntegerCastFacts IntegerTextFacts IntegerDecimalFacts NumberText.

Local Open Scope Z_scope.

(** ** The value of a number *)

Lemma rounded_signed NEGATIVE a r n : rounded NEGATIVE (signed NEGATIVE a) r n = signed NEGATIVE (a + (if rounds_up r n then 1 else 0)).
Proof. unfold rounded, signed. destruct (rounds_up r n), NEGATIVE; lia. Qed.

(** Without an exponent. *)
Lemma value_plain NEGATIVE M D n : 0 <= D < 10 ^ n -> 0 <= n ->
  rounded NEGATIVE (signed NEGATIVE M) D n = signed NEGATIVE (decimal_value M D n 0).
Proof.
  intros HD Hn. rewrite rounded_signed. unfold decimal_value. cbn [Z.opp]. rewrite Z.max_id, Z.add_0_r. change (10 ^ 0) with 1. rewrite Z.mul_1_r.
  by rewrite half_away_rounds by done.
Qed.

(** With a positive exponent. *)
Lemma value_up NEGATIVE M D n e : 0 <= D < 10 ^ n -> 0 <= n -> 0 <= e -> let left := n - e in
  rounded NEGATIVE (combined NEGATIVE (signed NEGATIVE M * 10 ^ e) (moved D left)) (left_over D left) (Z.max 0 left) = signed NEGATIVE (decimal_value M D n e).
Proof.
  intros HD Hn He left. assert (Hc : combined NEGATIVE (signed NEGATIVE M * 10 ^ e) (moved D left) = signed NEGATIVE (M * 10 ^ e + moved D left)).
  { unfold combined, signed. destruct NEGATIVE; lia. }
  rewrite Hc, rounded_signed. f_equal. unfold decimal_value. rewrite (Z.max_r 0 e), (Z.max_l 0 (- e)), Z.add_0_r by lia. unfold moved, left_over.
  pose proof (ten_positive n Hn). pose proof (ten_positive e He).
  destruct (Z.ltb_spec left 0) as [Hl|Hl].
  - rewrite rounds_up_zero by lia. assert (Ee : 10 ^ e = 10 ^ n * 10 ^ (- left)) by (rewrite <- Z.pow_add_r by lia; f_equal; lia).
    replace ((M * 10 ^ n + D) * 10 ^ e) with (10 ^ n * (M * 10 ^ e + D * 10 ^ (- left))) by (rewrite Ee; ring).
    replace (10 ^ n) with (10 ^ n * 1) at 2 by ring. rewrite half_away_scale by lia.
    replace (M * 10 ^ e + D * 10 ^ (- left)) with ((M * 10 ^ e + D * 10 ^ (- left)) * 1 + 0) at 2 by ring. by rewrite half_away_rounds by lia.
  - rewrite Z.max_r by lia. pose proof (ten_positive left Hl). assert (En : 10 ^ n = 10 ^ e * 10 ^ left) by (rewrite <- Z.pow_add_r by lia; f_equal; lia).
    assert (Escale : half_away ((M * 10 ^ n + D) * 10 ^ e) (10 ^ n) = half_away (M * 10 ^ n + D) (10 ^ left)).
    { rewrite (Z.mul_comm _ (10 ^ e)), <- (half_away_scale (10 ^ e) (M * 10 ^ n + D)) by lia. by f_equal. }
    rewrite Escale.
    replace (M * 10 ^ n + D) with ((M * 10 ^ e + D / 10 ^ left) * 10 ^ left + D mod 10 ^ left) by (rewrite En; pose proof (Z.div_mod D (10 ^ left)); lia).
    rewrite half_away_rounds by (apply Z.mod_pos_bound; lia). unfold rounds_up. lia.
Qed.

(** With a negative exponent. *)
Lemma value_down NEGATIVE M D n e : 0 <= D < 10 ^ n -> 0 <= M -> 0 <= n -> e < 0 ->
  rounded NEGATIVE (Z.quot (signed NEGATIVE M) (10 ^ (- e))) (Z.abs (Z.rem (Z.quot (signed NEGATIVE M) (10 ^ (- e - 1))) 10)) 1 =
  signed NEGATIVE (decimal_value M D n e).
Proof.
  intros HD HM Hn He. pose proof (ten_positive (- e - 1) ltac:(lia)) as Hp. assert (Ee : 10 ^ (- e) = 10 * 10 ^ (- e - 1)) by (rewrite <- Z.pow_succ_r by lia; f_equal; lia).
  assert (Hq : Z.quot (signed NEGATIVE M) (10 ^ (- e)) = signed NEGATIVE (M / 10 ^ (- e))).
  { unfold signed. destruct NEGATIVE; [rewrite Z.quot_opp_l by lia|]; by rewrite Z.quot_div_nonneg by lia. }
  assert (Hr : Z.abs (Z.rem (Z.quot (signed NEGATIVE M) (10 ^ (- e - 1))) 10) = M / 10 ^ (- e - 1) mod 10).
  { assert (Hm : 0 <= M / 10 ^ (- e - 1)) by (apply Z.div_pos; lia). pose proof (Z.mod_pos_bound (M / 10 ^ (- e - 1)) 10).
    unfold signed. destruct NEGATIVE; [rewrite Z.quot_opp_l by lia|]; rewrite Z.quot_div_nonneg by lia; [rewrite Z.rem_opp_l by lia|]; rewrite Z.rem_mod_nonneg by lia; lia. }
  rewrite Hq, Hr, rounded_signed. f_equal. unfold decimal_value. rewrite (Z.max_l 0 e), (Z.max_r 0 (- e)) by lia. change (10 ^ 0) with 1. rewrite Z.mul_1_r.
  rewrite Z.pow_add_r by lia. pose proof (ten_positive n Hn) as HN. unfold rounds_up. change (10 ^ 1) with 10. rewrite Ee in *.
  revert HD HN Hp. generalize (10 ^ n) as N, (10 ^ (- e - 1)) as p. clear - HM. intros N p HD HN Hp.
  assert (EM : M = M / (10 * p) * (10 * p) + M mod (10 * p)) by (rewrite (Z.mul_comm _ (10 * p)); apply Z.div_mod; lia).
  pose proof (Z.mod_pos_bound M (10 * p) ltac:(lia)) as Hmod.
  assert (Enum : M * N + D = M / (10 * p) * (N * (10 * p)) + (M mod (10 * p) * N + D)) by (rewrite EM at 1; ring). rewrite Enum. clear Enum EM.
  assert (Hbelow : 0 <= M mod (10 * p) * N + D < N * (10 * p)).
  { assert (M mod (10 * p) + 1 <= 10 * p) as Hle by lia. pose proof (Z.mul_le_mono_nonneg_r _ _ N ltac:(lia) Hle).
    pose proof (Z.mul_nonneg_nonneg (M mod (10 * p)) N). lia. }
  rewrite half_away_rounds by exact Hbelow. f_equal.
  assert (Hdigit : M / p mod 10 = M mod (10 * p) / p).
  { pose proof (Z.mod_pos_bound M p Hp). rewrite (Z.mul_comm 10 p), Z.rem_mul_r, (Z.mul_comm p (_ mod _)), Z.div_add, (Z.div_small (M mod p)) by lia. done. }
  rewrite Hdigit. set (R := M mod (10 * p)) in *. pose proof (Z.div_mod R p ltac:(lia)) as ER. pose proof (Z.mod_pos_bound R p ltac:(lia)) as Hb.
  clearbody R. revert ER Hb. generalize (R / p). intros q ER Hb. clear - HD HN Hp ER Hb.
  destruct (Z.leb_spec 10 (2 * q)) as [Hq|Hq].
  - assert (5 * p <= R) as Hle by nia. pose proof (Z.mul_le_mono_nonneg_r _ _ N ltac:(lia) Hle). destruct (Z.leb_spec (N * (10 * p)) (2 * (R * N + D))); [done|lia].
  - assert (R + 1 <= 5 * p) as Hle by nia. pose proof (Z.mul_le_mono_nonneg_r _ _ N ltac:(lia) Hle). destruct (Z.leb_spec (N * (10 * p)) (2 * (R * N + D))); [lia|done].
Qed.

Section Number.
Context `{Compiler} (T : integer_type) (NEGATIVE : bool).
Abbreviation data := (IntegerDecimalCastData T).
Abbreviation store := (store_t T).
Abbreviation parse := (parse_exponent (code ".") false).

(** The exponent is parsed as a 16-bit integer, by the sign it starts with. *)
Lemma exponent_read negative pre text ds trail : sign_text false negative pre -> grouped CharacterIsDigit true text ds -> spaces trail ->
  in_s 16 (appended negative 0 ds) -> exists c rest, pre ++ text ++ trail = c :: rest /\ parse (c =? code "-") (c :: rest) = mret (appended negative 0 ds).
Proof.
  intros Hsign Hg Ht Hin. destruct (grouped_head _ _ _ _ Hg) as (d & drest & ? & Etext & _ & Hd).
  assert (Hhead : exists c rest, pre ++ text ++ trail = c :: rest /\ (c =? code "-") = negative).
  { destruct Hsign; subst text; eexists _, _; (split; [reflexivity|]); try done. by apply digit_character in Hd as (_ & ? & _). }
  destruct Hhead as (c & rest & Ebuf & Hc). exists c, rest. split; [done|]. rewrite Hc, <- Ebuf. unfold parse_exponent.
  destruct (law_zero (T := IntegerCastData INT16) negative 0 ltac:(exact I)) as (Hinv & _ & Hdec & Hz).
  assert (Hallowed : sign_allowed negative (T := IntegerCastData INT16) ds) by (intros _; by left).
  destruct (integer_cast_loop_exact (T := IntegerCastData INT16) negative (code ".") false None eq_refl pre text ds trail zero_state) as ([r|] & -> & Hr);
    try done.
  - destruct Hr as [<- _]. done.
  - exfalso. apply Hr. cbn [lowest highest IntegerCastExact]. limits. unfold in_s in Hin. numbers. lia.
Qed.

(** What [IntegerCastLoop] does behind its loop. *)
Definition finish start (e : exit) : attempt data :=
  match e with Return r => mret r | Break r pos => r ← Finalize NEGATIVE r; if (start <? pos)%nat then mret r else return_false end.

Lemma tail_exact pre etext e start (s : data) M : exponent_text etext e -> (start < length pre)%nat ->
  decimal_inv T NEGATIVE s -> dec_result s = signed NEGATIVE M -> 0 <= M ->
  let v := signed NEGATIVE (decimal_value M (dec_decimal s) (dec_digits s) e) in
  returns (e ← tail NEGATIVE (pre ++ etext) false (Some parse) start (length pre) s; finish start e) (fun s' => dec_result s' = v /\ of_type T v) (~ of_type T v).
Proof.
  intros He Hstart Hinv HM HM0 v. pose proof Hinv as [Hr Hs HD Hn Hlt]. pose proof (store_limits T) as (_ & Hmax & _). unfold MAX_DECIMAL_DIGITS in Hn.
  unfold tail. destruct He as [trail Ht|c negative epre text ds trail Hc Hsign Hg Ht Hin].
  - fold (tail NEGATIVE (pre ++ trail) false (Some parse) start (length pre) s). rewrite tail_spaces by done. cbn [mbind attempt_bind mret attempt_ret finish]. eapply returns_bind; [apply finalize_decimal_exact; done || lia|..]; rewrite HM, value_plain by lia; fold v; [done|].
    intros s' Hs'. destruct (Nat.ltb_spec start (length (pre ++ trail))) as [_|Hle]; [by apply returns_ret|rewrite length_app in Hle; lia].
  - destruct (Nat.leb_spec (length (pre ++ c :: epre ++ text ++ trail)) (length pre)) as [Hle|_]; [rewrite length_app in Hle; cbn in Hle; lia|].
    destruct (exponent_read negative epre text ds trail Hsign Hg Ht Hin) as (c' & rest & Ebuf & Eparse). rewrite Ebuf. unfold after_number.
    rewrite (access_bind _ _ c) by apply lookup_middle. assert (Hchar : CharacterIsSpace c = false /\ (c =? code "e") || (c =? code "E") = true) by (by destruct Hc as [-> | ->]).
    destruct Hchar as [-> ->]. destruct (Nat.eqb_spec (length pre) start); [lia|].
    assert (Epre : pre ++ c :: c' :: rest = (pre ++ [c]) ++ c' :: rest) by (by rewrite <- app_assoc).
    assert (Elen : S (length pre) = length (pre ++ [c])) by (rewrite length_app; cbn; lia). rewrite Epre, Elen.
    destruct (Nat.leb_spec (length ((pre ++ [c]) ++ c' :: rest)) (length (pre ++ [c]))) as [Hle|_]; [rewrite length_app in Hle; cbn in Hle; lia|].
    rewrite (access_bind _ _ c') by apply lookup_middle. rewrite drop_app_length, Eparse. cbn [mbind attempt_bind mret attempt_ret].
    assert (Hexponent : returns (HandleExponentDecimal T NEGATIVE s (appended negative 0 ds)) (fun s' => dec_result s' = v /\ of_type T v) (~ of_type T v)).
    { subst v. unfold in_s in Hin. destruct (Z.ltb_spec (appended negative 0 ds) 0).
      - rewrite <- value_down, <- HM by lia. apply exponent_down; [done|numbers; lia].
      - rewrite <- value_up, <- HM by lia. apply exponent_up; [done|numbers; lia]. }
    cbn [HandleExponent IntegerDecimalCastOperation]. destruct Hexponent as ([s'|] & -> & Hs'); [by apply returns_ret|by apply returns_false].
Qed.

(** The decimals, of which there are at most 18, are all kept. *)
Definition decimals_kept (s0 : data) (p : list Z) (s : data) : Prop :=
  decimal_inv T NEGATIVE s /\ dec_result s = dec_result s0 /\ dec_decimal s = digits_value 0 p /\ dec_digits s = Z.of_nat (length p).

Lemma decimals_kept_step (s0 : data) all p c rest s : (length all <= 18)%nat -> p ++ c :: rest = all -> CharacterIsDigit c = true -> decimals_kept s0 p s ->
  exists s', HandleDecimal NEGATIVE s (c - code "0") = mret s' /\ decimals_kept s0 (p ++ [c]) s'.
Proof.
  intros Hall <- Hc (Hinv & Hr & HD & HN). rewrite length_app in Hall. cbn in Hall. pose proof (digit_value c Hc) as Hd.
  destruct (handle_decimal_digit T NEGATIVE s (c - code "0") Hinv Hd) as (s1 & E1 & Hinv1 & Hr1 & Hd1).
  exists s1. split; [exact E1|]. destruct Hd1 as [Hd1 Hn1].
  { unfold MAX_DECIMAL_DIGITS. lia. }
  { destruct Hinv as [_ _ HD' HN' Hlt]. pose proof (store_limits T) as (_ & Hmax & _).
    assert (10 ^ dec_digits s <= 10 ^ 17) by (apply Z.pow_le_mono_r; lia). change (10 ^ 18) with (10 * 10 ^ 17) in Hmax. lia. }
  split_and!; [done|congruence| |].
  - rewrite Hd1, HD, digits_value_snoc. change (code "0") with 48. lia.
  - rewrite Hn1, HN, length_app. cbn [length]. lia.
Qed.

Lemma fraction_read pre ftext fds etext e start fuel (s : data) : fraction_text ftext fds -> exponent_text etext e ->
  (start < length pre)%nat \/ (start = length pre /\ fds <> []) -> decimal_inv T NEGATIVE s -> no_decimals s ->
  (length fds <= 18)%nat -> (length (ftext ++ etext) <= fuel)%nat ->
  exists s', decimals_kept s fds s' /\
    cast_loop NEGATIVE (code ".") (pre ++ ftext ++ etext) false (Some parse) start fuel (length pre) s =
    tail NEGATIVE ((pre ++ ftext) ++ etext) false (Some parse) start (length (pre ++ ftext)) s'.
Proof.
  intros Hf He Hstart Hinv [Hd Hn] Hlen Hfuel. apply (fraction_loop_read NEGATIVE (Some parse) fds (decimals_kept s)) with (e := e); try done.
  intros p c rest s' Hall Hc. by apply (decimals_kept_step s fds p c rest).
Qed.

(** A number that the type's casts read: at most 18 decimals. *)
Record number_parts (pre itext ids ftext fds etext : list Z) (e : Z) : Prop := {
  part_text : number_text NEGATIVE pre itext ids ftext fds etext e;
  part_signed : NEGATIVE = true -> Minimum T < 0;
  part_bound : (length fds <= 18)%nat
}.

Abbreviation whole ids := (signed NEGATIVE (digits_value 0 ids)).

Lemma number_cast_exact pre itext ids ftext fds etext e : number_parts pre itext ids ftext fds etext e ->
  let v := number_value NEGATIVE ids fds e in
  returns (IntegerCastLoop NEGATIVE (code ".") (pre ++ itext ++ ftext ++ etext) false (Some parse) (zero_state (T := data)))
    (fun s => dec_result s = v /\ of_type T v) (~ of_type store (whole ids) \/ ~ of_type T v).
Proof.
  intros [Htext Hneg Hbound] v. pose proof (number_ends _ _ _ _ _ _ _ _ Htext) as Hends. unfold IntegerCastLoop.
  rewrite (number_position _ _ _ _ _ _ _ _ Htext). pose proof Htext as [Hsign Hi Hf He Hany].
  cbn [mbind attempt_bind mret attempt_ret]. destruct (law_zero (T := data) NEGATIVE 0 ltac:(exact I)) as (Hinv & _ & Hdec & Hz).
  assert (Hv : appended NEGATIVE (number (zero_state (T := data))) ids = whole ids) by (rewrite Hz; apply appended_value).
  destruct (digits_text_read NEGATIVE (Some parse) itext ids pre (ftext ++ etext) (length pre) (length (pre ++ itext ++ ftext ++ etext)) (zero_state (T := data)))
    as [[Hb ->]|(fuel' & s & Hfuel & Hinv' & Hs & Hdec' & ->)]; [done|intros Hn; left; by apply Hneg|done|done|rewrite (length_app pre); lia| |].
  - apply returns_false. left. rewrite Hv in Hb. cbn [digits_lowest digits_highest IntegerDecimalCastLaws] in Hb. destruct NEGATIVE; lia.
  - rewrite Hv in Hs. rewrite (app_assoc pre), <- length_app.
    destruct (fraction_read (pre ++ itext) ftext fds etext e (length pre) fuel' s) as (s' & (Hinv2 & Hr & HD & HN) & ->); [done|done| |done|by apply Hdec'|done|done|].
    { by apply (number_fraction _ _ _ _ _ _ _ _ Htext). }
    eapply returns_weaken; [apply (tail_exact ((pre ++ itext) ++ ftext) etext e (length pre) s' (digits_value 0 ids)); try done|..].
    + by apply (number_not_empty _ _ _ _ _ _ _ _ Htext).
    + by rewrite Hr.
    + apply digits_value_ge; [done|]. by apply (digits_text_digits itext).
    + intros s2. rewrite HD, HN. done.
    + rewrite HD, HN. by right.
Qed.
End Number.
