(* ===== verification/IntegerSimpleFacts.v ===== *)
(** * Integers from text: integers of up to 64 bits

    [TrySimpleIntegerCast]: the value of an integer text, of a number with decimals and an exponent,
    and that any text gives a value of the type or [false]. *)

From Stdlib Require Import Ascii.
From S2P Require Import Prelude DateText DateTextFacts Hugeint HugeintFacts HugeintDivisionFacts IntegerOps IntegerOpsFacts IntegerCast.
From S2P Require Import IntegerCastFacts IntegerTextFacts IntegerDecimalFacts NumberText IntegerNumberFacts.

Local Open Scope Z_scope.

Section Simple.
Context `{Compiler} (T : integer_type).

Lemma signed_lowest : is_signed T = true -> Minimum T < 0.
Proof. by destruct T. Qed.

(** The two casts, one after the other. *)
Lemma simple_cast (buf : list Z) strict (P : Z -> Prop) (F : Prop) :
  returns (TryIntegerCast (T := IntegerCastData T) (is_signed T) false (code ".") buf strict) (fun s => of_type T (cast_value s) /\ P (cast_value s)) True ->
  returns (TryIntegerCast (T := IntegerDecimalCastData T) (is_signed T) true (code ".") buf strict) (fun s => of_type T (dec_result s) /\ P (dec_result s)) F ->
  returns (TrySimpleIntegerCast T buf strict) (fun z => of_type T z /\ P z) F.
Proof.
  intros ([s|] & E & Hs) Hdec; unfold TrySimpleIntegerCast; rewrite E.
  - cbn [mbind attempt_bind]. apply returns_ret. by rewrite cast_to_range by apply Hs.
  - eapply returns_bind; [exact Hdec|done|]. intros s [Hin Hv]. apply returns_ret. by rewrite cast_to_range.
Qed.

Lemma simple_cast_total buf strict : returns (TrySimpleIntegerCast T buf strict) (fun z => of_type T z) True.
Proof.
  eapply returns_weaken; [apply (simple_cast buf strict (fun _ => True))|..].
  - eapply returns_weaken; [apply try_integer_cast_total; [done|apply signed_lowest|done]|by split|done].
  - eapply returns_weaken; [apply try_integer_cast_total; [done|apply signed_lowest|done]|by split|done].
  - by intros z [? _].
  - done.
Qed.

Lemma simple_text_exact buf strict z : integer_text (is_signed T) strict buf z -> TrySimpleIntegerCast T buf strict = exactly T z.
Proof.
  intros Hbuf. assert (Hret : returns (TrySimpleIntegerCast T buf strict) (fun v => of_type T v /\ v = z) (~ of_type T z)).
  { apply simple_cast.
    - eapply returns_weaken; [apply try_integer_cast_exact; [done|apply signed_lowest|done|done]| |done]. by intros s [<- ?].
    - eapply returns_weaken; [apply try_integer_cast_exact; [done|apply signed_lowest|done|done]| |done]. by intros s [<- ?]. }
  destruct Hret as ([v|] & -> & Hv); unfold checked_result; destruct (in_type_spec T z) as [Hz|Hz]; [|destruct Hv as [? ->]|..]; try done.
  by destruct Hv as [_ ->].
Qed.

Lemma simple_minus_rejected lead rest strict : is_signed T = false -> spaces lead -> only_zeros rest = false ->
  TrySimpleIntegerCast T (lead ++ code "-" :: rest) strict = return_false.
Proof.
  intros Hs Hl Hz. unfold TrySimpleIntegerCast. cbv zeta. by rewrite !cast_minus_rejected.
Qed.

(** ** Numbers with decimals and an exponent *)

Section Number.
Context (NEGATIVE : bool).
Abbreviation value ids fds e := (number_value NEGATIVE ids fds e).

(** Without an exponent parser, the integer cast reads spaces to the end, or fails at the exponent. *)
Lemma integer_tail pre etext e start (s : IntegerCastData T) : exponent_text etext e -> (start < length pre)%nat ->
  returns (tail NEGATIVE (pre ++ etext) false None start (length pre) s) (fun x => exists pos, x = Break s pos /\ e = 0) True.
Proof.
  intros He Hstart. unfold tail. destruct (Nat.leb_spec (length (pre ++ etext)) (length pre)) as [Hle|Hlt].
  - apply returns_ret. exists (length pre). split; [done|]. destruct He as [|]; [done|]. rewrite length_app in Hle. cbn in Hle. lia.
  - destruct He as [trail Ht|c negative epre text ds trail Hc Hsign Hg Ht Hin].
    + rewrite spaces_after_number; [by apply returns_ret; eexists|done|intros ->; rewrite app_nil_r in Hlt; lia|done].
    + unfold after_number. rewrite (access_bind _ _ c) by apply lookup_middle.
      assert (CharacterIsSpace c = false) as -> by (by destruct Hc as [-> | ->]). by apply returns_false.
Qed.

(** At the point, the integer cast fails if a digit follows. *)
Lemma integer_fraction pre ftext fds etext e start fuel (s : IntegerCastData T) : fraction_text ftext fds -> exponent_text etext e ->
  (start < length pre)%nat \/ (start = length pre /\ fds <> []) -> (length (ftext ++ etext) <= fuel)%nat ->
  returns (cast_loop NEGATIVE (code ".") (pre ++ ftext ++ etext) false None start fuel (length pre) s)
    (fun x => exists pos, x = Break s pos /\ e = 0 /\ fds = []) True.
Proof.
  intros Hf He Hstart Hfuel. destruct Hf as [| |text ds Hg].
  - destruct Hstart as [Hstart|[_ ?]]; [|done]. cbn [app]. rewrite (loop_tail _ _ _ _ e) by done.
    eapply returns_weaken; [by apply (integer_tail _ _ e)|by intros x (pos & ? & ?); exists pos|done].
  - destruct Hstart as [Hstart|[_ ?]]; [|done]. destruct fuel as [|fuel]; [cbn in Hfuel; lia|]. cbn [cast_loop app].
    destruct (Nat.leb_spec (length (pre ++ code "." :: etext)) (length pre)) as [Hle|_]; [rewrite length_app in Hle; cbn in Hle; lia|].
    rewrite (access_bind _ _ (code ".")) by apply lookup_middle. change (CharacterIsDigit (code ".")) with false. rewrite Z.eqb_refl. cbn [negb].
    unfold after_separator. rewrite cons_middle, app_assoc. replace (S (length pre)) with (length (pre ++ [code "."])) by (rewrite length_app; cbn; lia).
    assert (Hloop : decimals_loop NEGATIVE ((pre ++ [code "."]) ++ etext) (length ((pre ++ [code "."]) ++ etext)) (length (pre ++ [code "."])) s =
      mret (s, length (pre ++ [code "."]))).
    { destruct etext as [|c etext].
      - rewrite app_nil_r. destruct (length (pre ++ [code "."])) eqn:E; cbn [decimals_loop]; by rewrite E, Nat.leb_refl.
      - destruct (length ((pre ++ [code "."]) ++ c :: etext)) eqn:E; [rewrite length_app in E; cbn in E; lia|]. cbn [decimals_loop]. destruct (_ <=? _)%nat; [done|].
        rewrite (access_bind _ _ c) by apply lookup_middle. by destruct (exponent_head _ _ He c etext eq_refl) as [-> _]. }
    rewrite Hloop. cbn [mbind attempt_bind mret attempt_ret].
    assert ((start <? length pre)%nat = true) as -> by (by apply Nat.ltb_lt). cbn [orb negb].
    eapply returns_weaken; [apply (integer_tail _ _ e); [done|rewrite length_app; cbn; lia]|by intros x (pos & ? & ?); exists pos|done].
  - destruct fuel as [|fuel]; [cbn in Hfuel; lia|]. cbn [cast_loop app].
    destruct (Nat.leb_spec (length (pre ++ code "." :: text ++ etext)) (length pre)) as [Hle|_]; [rewrite length_app in Hle; cbn in Hle; lia|].
    rewrite (access_bind _ _ (code ".")) by apply lookup_middle. change (CharacterIsDigit (code ".")) with false. rewrite Z.eqb_refl. cbn [negb].
    unfold after_separator. destruct (grouped_head _ _ _ _ Hg) as (c & rest & ? & -> & _ & Hc). cbn [app].
    rewrite cons_middle, app_assoc. replace (S (length pre)) with (length (pre ++ [code "."])) by (rewrite length_app; cbn; lia).
    destruct (length ((pre ++ [code "."]) ++ c :: rest ++ etext)) as [|n] eqn:E; [rewrite length_app in E; cbn in E; lia|]. cbn [decimals_loop]. rewrite E.
    destruct (Nat.leb_spec (S n) (length (pre ++ [code "."]))) as [Hle|_]; [rewrite !length_app in *; cbn in *; lia|].
    rewrite (access_bind _ _ c) by apply lookup_middle. rewrite Hc. cbn [negb]. by apply returns_false.
Qed.

Lemma integer_number pre itext ids ftext fds etext e : number_parts T NEGATIVE pre itext ids ftext fds etext e ->
  returns (IntegerCastLoop NEGATIVE (code ".") (pre ++ itext ++ ftext ++ etext) false None (zero_state (T := IntegerCastData T)))
    (fun s => of_type T (cast_value s) /\ cast_value s = value ids fds e) True.
Proof.
  intros [Htext Hneg Hbound]. pose proof (number_ends _ _ _ _ _ _ _ _ Htext) as Hends. unfold IntegerCastLoop.
  rewrite (number_position _ _ _ _ _ _ _ _ Htext). pose proof Htext as [Hsign Hi Hf He Hany].
  cbn [mbind attempt_bind mret attempt_ret]. destruct (law_zero (T := IntegerCastData T) NEGATIVE 0 ltac:(exact I)) as (Hinv & _ & Hdec & Hz).
  destruct (digits_text_read NEGATIVE None itext ids pre (ftext ++ etext) (length pre) (length (pre ++ itext ++ ftext ++ etext)) (zero_state (T := IntegerCastData T)))
    as [[Hb ->]|(fuel' & s & Hfuel & Hinv' & Hs & _ & ->)]; [done|intros Hn; left; by apply Hneg|done|done|rewrite (length_app pre); lia|by apply returns_false|].
  rewrite Hz, appended_value in Hs. rewrite (app_assoc pre), <- length_app.
  eapply returns_bind; [eapply (integer_fraction (pre ++ itext) ftext fds etext e); [done|done| |done]|done|].
  { by apply (number_fraction _ _ _ _ _ _ _ _ Htext). }
  intros x (pos & -> & -> & ->). cbn [Finalize IntegerCastOperation mbind attempt_bind mret attempt_ret].
  destruct (_ <? _)%nat; [|by apply returns_false]. apply returns_ret. split; [apply Hinv'|]. cbn [number IntegerCastLaws] in Hs. rewrite Hs.
  unfold number_value, decimal_value. cbn [digits_value foldl length Z.of_nat Z.opp]. rewrite Z.max_id, !Z.add_0_r. change (10 ^ 0) with 1.
  change (10 ^ Z.of_nat 0) with 1. by rewrite !Z.mul_1_r, half_away_one.
Qed.

Lemma parts_number_exact lead pre itext ids ftext fds etext e : spaces lead -> number_parts T NEGATIVE pre itext ids ftext fds etext e ->
  returns (TrySimpleIntegerCast T (lead ++ pre ++ itext ++ ftext ++ etext) false) (fun z => of_type T z /\ z = value ids fds e)
    (~ of_type (store_t T) (signed NEGATIVE (digits_value 0 ids)) \/ ~ of_type T (value ids fds e)).
Proof.
  intros Hl Hparts. apply simple_cast; rewrite (number_cast NEGATIVE _ _ _ _ _ ids _ fds _ e) by (done || apply Hparts || (intros Hneg; apply Hparts in Hneg; by destruct T)).
  - by apply integer_number.
  - eapply returns_weaken; [by apply number_cast_exact| |done]. by intros s [-> ?].
Qed.

(** A number of zeros, and nothing else. *)
Lemma only_zeros_replicate text : only_zeros text = true -> text = replicate (length text) (code "0").
Proof.
  intros Hz. symmetry. apply replicate_as_elem_of. split; [done|]. intros y Hy. apply list_elem_of_In in Hy.
  by apply Z.eqb_eq, (proj1 (forallb_forall _ _) Hz).
Qed.

Lemma grouped_zeros text ds : grouped CharacterIsDigit true text ds -> only_zeros text = true -> digits_value 0 ds = 0.
Proof.
  intros Hg Hz. unfold only_zeros in Hz. induction Hg as [c Hc|c text ds Hc Hg IH|c text ds _ Hc Hg IH]; cbn [forallb] in Hz.
  - apply andb_true_iff in Hz as [->%Z.eqb_eq _]. done.
  - apply andb_true_iff in Hz as [->%Z.eqb_eq Hz]. by apply IH.
  - apply andb_true_iff in Hz as [_ Hz]. by apply andb_true_iff in Hz as [Hu _].
Qed.

Lemma zeros_number pre itext ids ftext fds etext e : number_text NEGATIVE pre itext ids ftext fds etext e ->
  only_zeros (itext ++ ftext ++ etext) = true -> value ids fds e = 0 /\ exists n, itext ++ ftext ++ etext = replicate (S n) (code "0").
Proof.
  intros [Hsign Hi Hf He Hany] Hz. pose proof (only_zeros_replicate _ Hz) as Hrep.
  unfold only_zeros in Hz. rewrite !forallb_app, !andb_true_iff in Hz. destruct Hz as (Hzi & Hzf & Hze).
  destruct Hf as [| |text ds Hg]; [|done|done].
  assert (e = 0) as ->.
  { destruct He as [trail Ht|c negative epre text ds trail Hc _ _ _ _]; [done|]. cbn in Hze. by destruct Hc as [-> | ->]. }
  destruct Hi as [[-> ->]|Hg]; [by destruct Hany|]. split.
  - unfold number_value, decimal_value. rewrite (grouped_zeros _ _ Hg Hzi). by destruct NEGATIVE.
  - destruct (grouped_head _ _ _ _ Hg) as (c & rest & _ & -> & _). rewrite Hrep. by eexists.
Qed.
End Number.

(** Any sign, in front of any type. *)
Lemma simple_number_exact NEGATIVE lead pre itext ids ftext fds etext e : spaces lead ->
  number_text NEGATIVE pre itext ids ftext fds etext e -> (length fds <= 18)%nat ->
  returns (TrySimpleIntegerCast T (lead ++ pre ++ itext ++ ftext ++ etext) false) (fun z => of_type T z /\ z = number_value NEGATIVE ids fds e)
    ((NEGATIVE = true /\ is_signed T = false /\ only_zeros (itext ++ ftext ++ etext) = false) \/
     ~ of_type (store_t T) (signed NEGATIVE (digits_value 0 ids)) \/ ~ of_type T (number_value NEGATIVE ids fds e)).
Proof.
  intros Hl Htext Hlen. destruct (decide (NEGATIVE = true /\ is_signed T = false)) as [[-> Hsg]|Hsign].
  - pose proof (text_sign _ _ _ _ _ _ _ _ Htext) as Hpre. inversion Hpre; subst pre. cbn [app].
    destruct (only_zeros (itext ++ ftext ++ etext)) eqn:Hz.
    + destruct (zeros_number _ _ _ _ _ _ _ _ Htext Hz) as [-> [n ->]].
      assert (Hzero : of_type T 0) by (destruct T; limits; numbers; lia).
      rewrite (simple_text_exact _ _ 0); [|by apply (text_minus_zero (is_signed T) false lead n)].
      unfold checked_result. destruct (in_type_spec T 0); [|done]. by apply returns_ret.
    + rewrite simple_minus_rejected by done. apply returns_false. by left.
  - eapply returns_weaken; [apply (parts_number_exact NEGATIVE) with (e := e) (fds := fds) (ids := ids); [done|]|by auto|by right].
    split; [done| |done]. intros ->. destruct (is_signed T) eqn:Hs; [by apply signed_lowest|by destruct Hsign].
Qed.
End Simple.
