(* ===== verification/HugeintCast.v ===== *)
(** * 128-bit integers from text

    Models [HugeIntCastData] and [HugeIntegerCastOperation] of [common/operator/cast_operators.cpp]:
    digits are gathered in a 64-bit word, which is flushed into the 128-bit result when it is full.
    The class [HugeOperation] is what the code uses of [Hugeint] and [Uhugeint]. *)

From Stdlib Require Import Ascii.
From S2P Require Import Prelude DateText Hugeint Uhugeint IntegerOps IntegerCast.

Local Open Scope Z_scope.

(** ** The two types *)

Class HugeOperation (R : Type) := {
  (** [INTERMEDIATE_T], and the constructor from it *)
  intermediate_t : integer_type;
  of_intermediate : Z -> R;
  (** the words, as unsigned 64-bit integers *)
  upper_word : R -> Z;
  lower_word : R -> Z;
  of_words : Z -> Z -> R;
  sign_bit : R -> bool;
  POWER_OF_TEN : nat -> R;
  huge_equals : R -> R -> bool;
  huge_less : R -> R -> bool;
  huge_greater : R -> R -> bool;
  huge_greater_equal : R -> R -> bool;
  huge_add : R -> R -> R;
  huge_multiply : R -> R -> R;
  huge_divide : R -> R -> checked R;
  huge_divmod : R -> R -> checked (R * R);
  huge_try_negate : R -> attempt R;
  huge_try_multiply : R -> R -> attempt R;
  huge_try_add : R -> R -> attempt R;
  huge_try_subtract : R -> R -> attempt R
}.

#[export] Instance Hugeint_operation `{Platform} : HugeOperation hugeint_t := {
  intermediate_t := INT64;
  of_intermediate := hugeint_of;
  upper_word := fun h => u64 (upper h);
  lower_word := lower;
  of_words := fun u l => mkHuge (i64 u) l;
  sign_bit := fun h => upper h <? 0;
  POWER_OF_TEN := fun n => nth n POWERS_OF_TEN (hugeint_of 0);
  huge_equals := HugeintEquals;
  huge_less := HugeintLessThan;
  huge_greater := HugeintGreaterThan;
  huge_greater_equal := HugeintGreaterThanEquals;
  huge_add := hugeint_add;
  huge_multiply := HugeintMultiplyUnchecked;
  huge_divide := fun g h => r ← HugeintDivMod g h; mret (quotient r);
  huge_divmod := DivMod;
  huge_try_negate := TryNegate;
  huge_try_multiply := TryMultiply;
  huge_try_add := TryAddInPlace;
  huge_try_subtract := TrySubtractInPlace
}.

(** An in-place operation with its flag. *)
Definition flagged {A} (r : bool * A) : attempt A := if r.1 then mret r.2 else return_false.

#[export] Instance Uhugeint_operation `{Platform} : HugeOperation uhugeint_t := {
  intermediate_t := UINT64;
  of_intermediate := uhugeint_of;
  upper_word := uupper;
  lower_word := ulower;
  of_words := mkUhuge;
  sign_bit := fun _ => false;
  POWER_OF_TEN := fun n => nth n Uhugeint.POWERS_OF_TEN (uhugeint_of 0);
  huge_equals := Uhugeint.Equals;
  huge_less := Uhugeint.LessThan;
  huge_greater := Uhugeint.GreaterThan;
  huge_greater_equal := Uhugeint.GreaterThanEquals;
  huge_add := Uhugeint.add;
  huge_multiply := Uhugeint.MultiplyUnchecked;
  huge_divide := fun g h => r ← Uhugeint.DivMod g h; mret r.1;
  huge_divmod := Uhugeint.DivMod;
  huge_try_negate := fun h => Some (Ok (Uhugeint.TryNegate h));
  huge_try_multiply := fun g h => Some (Ok (Uhugeint.TryMultiply g h));
  huge_try_add := fun g h => flagged (Uhugeint.TryAddInPlace g h);
  huge_try_subtract := fun g h => flagged (Uhugeint.TrySubtractInPlace g h)
}.

(** ** The state *)

Record HugeIntCastData (R : Type) := mkHugeData {
  result : R;
  intermediate : Z;
  digits : Z;
  decimal : R;
  decimal_total_digits : Z;
  decimal_intermediate : R;
  decimal_intermediate_digits : Z
}.
Arguments mkHugeData {R} _ _ _ _ _ _ _.
Arguments result {R} _.
Arguments intermediate {R} _.
Arguments digits {R} _.
Arguments decimal {R} _.
Arguments decimal_total_digits {R} _.
Arguments decimal_intermediate {R} _.
Arguments decimal_intermediate_digits {R} _.

Section HugeCast.
Context {R : Type} `{HugeOperation R}.
Implicit Types state : HugeIntCastData R.

Definition huge_zero : R := of_intermediate 0.
Definition is_zero (h : R) : bool := (lower_word h =? 0) && (upper_word h =? 0).

Definition set_huge_result (r : R) state : HugeIntCastData R :=
  mkHugeData r (intermediate state) (digits state) (decimal state) (decimal_total_digits state)
    (decimal_intermediate state) (decimal_intermediate_digits state).
Definition set_huge_decimal (d : R) (total : Z) (i : R) (n : Z) state : HugeIntCastData R :=
  mkHugeData (result state) (intermediate state) (digits state) d total i n.

Definition Flush state : attempt (HugeIntCastData R) :=
  if (digits state =? 0) && (intermediate state =? 0) then mret state
  else
    r ← (
      if negb (is_zero (result state)) then
        if digits state >? 38 then return_false
        else huge_try_multiply (result state) (POWER_OF_TEN (Z.to_nat (digits state)))
      else mret (result state));
    r ← huge_try_add r (of_intermediate (intermediate state));
    mret (mkHugeData r 0 0 (decimal state) (decimal_total_digits state) (decimal_intermediate state) (decimal_intermediate_digits state)).

Definition FlushDecimal state : attempt (HugeIntCastData R) :=
  if (decimal_intermediate_digits state =? 0) && huge_equals (decimal_intermediate state) huge_zero then mret state
  else
    d ← (
      if negb (is_zero (decimal state)) then
        if decimal_intermediate_digits state >? 38 then return_false
        else huge_try_multiply (decimal state) (POWER_OF_TEN (Z.to_nat (decimal_intermediate_digits state)))
      else mret (decimal state));
    d ← huge_try_add d (decimal_intermediate state);
    mret (set_huge_decimal d (u64 (decimal_total_digits state + decimal_intermediate_digits state)) huge_zero 0 state).

(** ** The operations *)

Definition HandleHugeDigit (NEGATIVE : bool) state (digit : Z) : attempt (HugeIntCastData R) :=
  let full :=
    if NEGATIVE then intermediate state <? Z.quot (Minimum intermediate_t + digit) 10
    else intermediate state >? Z.quot (Maximum intermediate_t - digit) 10 in
  state ← (if full then Flush state else mret state);
  i ← run (
    tens ← arith intermediate_t (intermediate state * 10);
    arith intermediate_t (if NEGATIVE then tens - digit else tens + digit));
  mret (mkHugeData (result state) (cast_to intermediate_t i) (u64 (digits state + 1)) (decimal state) (decimal_total_digits state)
    (decimal_intermediate state) (decimal_intermediate_digits state)).

(** [HandleHexDigit] and [HandleBinaryDigit]: [bits] bits are shifted in. *)
Definition shift_in (bits : Z) state (digit : Z) : attempt (HugeIntCastData R) :=
  let upper := upper_word (result state) in
  let lower := lower_word (result state) in
  if negb (Z.shiftr upper (64 - bits) =? 0) then return_false
  else
    let r := of_words (Z.lor (shl64 upper bits) (Z.shiftr lower (64 - bits))) (Z.lor (shl64 lower bits) digit) in
    if sign_bit r then return_false else mret (set_huge_result r state).

Definition CACHED_POWERS_OF_TEN : Z := 39.

(** [while (state.decimal_total_digits > MAX_DIGITS)] *)
Fixpoint drop_digits (fuel : nat) (decimal : R) (total : Z) : checked (R * Z) :=
  let MAX_DIGITS := CACHED_POWERS_OF_TEN - 1 in
  if total >? MAX_DIGITS then
    match fuel with
    | O => None
    | S fuel' => decimal ← huge_divide decimal (POWER_OF_TEN (Z.to_nat MAX_DIGITS)); drop_digits fuel' decimal (u64 (total - MAX_DIGITS))
    end
  else mret (decimal, total).

(** At most [MAX_DECIMAL_DIGITS] digits: 863 turns are enough. *)
Definition FinalizeHuge (NEGATIVE : bool) state : attempt (HugeIntCastData R) :=
  state ← Flush state;
  state ← FlushDecimal state;
  if huge_equals (decimal state) huge_zero || (decimal_total_digits state =? 0) then mret state
  else
    '(d, total) ← run (drop_digits 863 (decimal state) (decimal_total_digits state));
    d ← run (huge_divide d (POWER_OF_TEN (Z.to_nat (u64 (total - 1)))));
    let state := set_huge_decimal d total (decimal_intermediate state) (decimal_intermediate_digits state) state in
    if huge_greater_equal d (of_intermediate 5) then
      r ← (if NEGATIVE then huge_try_subtract (result state) (of_intermediate 1) else huge_try_add (result state) (of_intermediate 1));
      mret (set_huge_result r state)
    else mret state.

Definition HandleHugeExponent (NEGATIVE : bool) state (exponent : Z) : attempt (HugeIntCastData R) :=
  state ← Flush state;
  if exponent <? -38 then mret (set_huge_result huge_zero state)
  else if exponent <? 0 then
    '(q, remainder) ← run (huge_divmod (result state) (POWER_OF_TEN (Z.to_nat (- exponent))));
    remainder ← (if huge_less remainder huge_zero then huge_try_negate remainder else mret remainder);
    FinalizeHuge NEGATIVE (set_huge_decimal remainder (- exponent) huge_zero 0 (set_huge_result q state))
  else
    r ← (
      if negb (huge_equals (result state) huge_zero) then
        if exponent >? 38 then return_false else huge_try_multiply (result state) (POWER_OF_TEN (Z.to_nat exponent))
      else mret (result state));
    state ← FlushDecimal (set_huge_result r state);
    if huge_equals (decimal state) huge_zero then FinalizeHuge NEGATIVE state
    else
      let shift := exponent - i64 (decimal_total_digits state) in
      '(d, remainder, total) ← (
        if shift <? 0 then
          let total := u64 (decimal_total_digits state - exponent) in
          if shift <? -38 then mret (huge_zero, decimal state, total)
          else '(d, remainder) ← run (huge_divmod (decimal state) (POWER_OF_TEN (Z.to_nat (- shift)))); mret (d, remainder, total)
        else if shift >? 38 then return_false
        else d ← huge_try_multiply (decimal state) (POWER_OF_TEN (Z.to_nat shift)); mret (d, huge_zero, decimal_total_digits state));
      r ← (if NEGATIVE then huge_try_subtract (result state) d else huge_try_add (result state) d);
      FinalizeHuge NEGATIVE (set_huge_decimal remainder total (decimal_intermediate state) (decimal_intermediate_digits state) (set_huge_result r state)).

Definition HandleHugeDecimal state (digit : Z) : attempt (HugeIntCastData R) :=
  state ← Flush state;
  if u64 (decimal_total_digits state + decimal_intermediate_digits state) =? MAX_DECIMAL_DIGITS then mret state
  else
    state ← (
      if huge_greater (decimal_intermediate state) (of_intermediate (Z.quot (i64_max - digit) 10)) then FlushDecimal state else mret state);
    let i := huge_add (huge_multiply (decimal_intermediate state) (of_intermediate 10)) (of_intermediate digit) in
    mret (set_huge_decimal (decimal state) (decimal_total_digits state) i (u64 (decimal_intermediate_digits state + 1)) state).

#[export] Instance HugeIntegerCastOperation : CastOperation (HugeIntCastData R) := {
  zero_state := mkHugeData huge_zero 0 0 huge_zero 0 huge_zero 0;
  HandleDigit := HandleHugeDigit;
  HandleHexDigit := shift_in 4;
  HandleBinaryDigit := shift_in 1;
  HandleExponent := HandleHugeExponent;
  HandleDecimal := fun _ => HandleHugeDecimal;
  Finalize := FinalizeHuge
}.

(** [TryCast::Operation] of a string *)
Definition TryHugeIntegerCast (buf : list Z) (strict : bool) : attempt R :=
  state ← (TryIntegerCast (is_signed intermediate_t) true (code ".") buf strict : attempt (HugeIntCastData R));
  mret (result state).
End HugeCast.
