(* ===== verification/HugeintCastFacts.v ===== *)
(** * 128-bit integers from text: the operations

    What the cast uses of [Hugeint] and [Uhugeint] ([HugeOperationLaws]), and that the cast is then a
    [CastOperation] with the laws: digits gathered in a 64-bit word lose nothing. *)

From Stdlib Require Import Ascii.
From S2P Require Import Prelude DateText DateTextFacts Hugeint HugeintFacts HugeintDivisionFacts Uhugeint UhugeintFacts IntegerOps IntegerOpsFacts.
From S2P Require Import IntegerCast IntegerCastFacts IntegerTextFacts IntegerDecimalFacts HugeintCast.

Local Open Scope Z_scope.

(** The words with [bits] bits shifted in, as [shift_in] computes them. *)
Definition shifted_words {R} `{HugeOperation R} (bits : Z) (h : R) (digit : Z) : attempt R :=
  if negb (Z.shiftr (upper_word h) (64 - bits) =? 0) then return_false
  else
    let r := of_words (Z.lor (shl64 (upper_word h) bits) (Z.shiftr (lower_word h) (64 - bits))) (Z.lor (shl64 (lower_word h) bits) digit) in
    if sign_bit r then return_false else mret r.

Class HugeOperationLaws (R : Type) `{HugeOperation R} := {
  hval : R -> Z;
  hok : R -> Prop;
  hmin : Z;
  hmax : Z;
  h_limits : hmin <= Minimum intermediate_t <= 0 /\ Maximum intermediate_t <= hmax < 2 ^ 128 /\ 2 ^ 127 <= hmax + 1 /\ - 2 ^ 127 <= hmin;
  h_signs : (hmin < 0 -> Minimum intermediate_t < 0) /\ i64_max <= Maximum intermediate_t;
  h_range h : hok h -> hmin <= hval h <= hmax;
  h_intermediate z : of_type intermediate_t z -> hok (of_intermediate z) /\ hval (of_intermediate z) = z;
  h_power n : (n <= 38)%nat -> hok (POWER_OF_TEN n) /\ hval (POWER_OF_TEN n) = 10 ^ Z.of_nat n;
  h_is_zero h : hok h -> is_zero h = (hval h =? 0);
  h_equals g h : hok g -> hok h -> huge_equals g h = (hval g =? hval h);
  h_less g h : hok g -> hok h -> huge_less g h = (hval g <? hval h);
  h_greater g h : hok g -> hok h -> huge_greater g h = (hval h <? hval g);
  h_greater_equal g h : hok g -> hok h -> huge_greater_equal g h = (hval h <=? hval g);
  h_add g h : hok g -> hok h -> hmin <= hval g + hval h <= hmax -> hok (huge_add g h) /\ hval (huge_add g h) = hval g + hval h;
  h_multiply g h : hok g -> hok h -> hmin <= hval g * hval h <= hmax -> hok (huge_multiply g h) /\ hval (huge_multiply g h) = hval g * hval h;
  h_divide g h : hok g -> hok h -> 0 < hval h -> exists q, huge_divide g h = mret q /\ hok q /\ hval q = Z.quot (hval g) (hval h);
  h_divmod g h : hok g -> hok h -> 0 < hval h ->
    exists q r, huge_divmod g h = mret (q, r) /\ hok q /\ hok r /\ hval q = Z.quot (hval g) (hval h) /\ hval r = Z.rem (hval g) (hval h);
  h_negate h : hok h -> hval h < 0 -> returns (huge_try_negate h) (fun r => hok r /\ hval r = - hval h) True;
  h_try_multiply h n : hok h -> (n <= 38)%nat ->
    returns (huge_try_multiply h (POWER_OF_TEN n)) (fun r => hok r /\ hval r = hval h * 10 ^ Z.of_nat n) (~ hmin <= hval h * 10 ^ Z.of_nat n <= hmax);
  h_try_add g h : hok g -> hok h -> returns (huge_try_add g h) (fun r => hok r /\ hval r = hval g + hval h) (~ hmin <= hval g + hval h <= hmax);
  h_try_subtract g h : hmin < 0 \/ hval h = 1 -> hok g -> hok h -> returns (huge_try_subtract g h) (fun r => hok r /\ hval r = hval g - hval h) (~ hmin <= hval g - hval h <= hmax);
  h_shift bits h d : bits = 4 \/ bits = 1 -> hok h -> 0 <= hval h -> 0 <= d < 2 ^ bits ->
    returns (shifted_words bits h d) (fun r => hok r /\ hval r = 2 ^ bits * hval h + d) (hmax < 2 ^ bits * hval h + d)
}.

Section HugeCast.
Context {R : Type} `{HL : HugeOperationLaws R}.
Abbreviation data := (HugeIntCastData R).
Abbreviation in_limits z := (hmin (R := R) <= z <= hmax (R := R)).
Abbreviation sign_ok NEGATIVE z := (if NEGATIVE : bool then z <= 0 else 0 <= z).
Abbreviation word := (intermediate_t (R := R)).
Implicit Types s : data.

Lemma intermediate_small z : 0 <= z <= i64_max -> hok (of_intermediate z : R) /\ hval (of_intermediate z : R) = z.
Proof. intros Hz. apply h_intermediate. pose proof (h_limits (R := R)). pose proof (h_signs (R := R)). lia. Qed.

Lemma zero_ok : hok (huge_zero : R) /\ hval (huge_zero : R) = 0.
Proof. apply intermediate_small. unfold i64_max. lia. Qed.

(** The decimals: what was flushed, and what was not yet. *)
Record decimals_inv s : Prop := {
  decimal_valid : hok (decimal s);
  decimal_pos : 0 <= hval (decimal s);
  rest_valid : hok (decimal_intermediate s);
  rest_pos : 0 <= hval (decimal_intermediate s) <= i64_max;
  totals : 0 <= decimal_total_digits s /\ 0 <= decimal_intermediate_digits s /\
    decimal_total_digits s + decimal_intermediate_digits s <= MAX_DECIMAL_DIGITS
}.

Definition no_decimals_read s : Prop :=
  hval (decimal s) = 0 /\ decimal_total_digits s = 0 /\ hval (decimal_intermediate s) = 0 /\ decimal_intermediate_digits s = 0.

(** The digits: [result] before those gathered in [intermediate]. *)
Record digits_inv (NEGATIVE : bool) (room : nat) s : Prop := {
  result_valid : hok (result s);
  result_sign : sign_ok NEGATIVE (hval (result s));
  word_valid : of_type word (intermediate s);
  word_sign : sign_ok NEGATIVE (intermediate s);
  word_digits : 0 <= digits s /\ digits s + Z.of_nat room < 2 ^ 64;
  word_below : Z.abs (intermediate s) < 10 ^ digits s
}.

Definition huge_number s : Z := hval (result s) * 10 ^ digits s + intermediate s.

Definition same_decimals s s' : Prop :=
  decimal s' = decimal s /\ decimal_total_digits s' = decimal_total_digits s /\
  decimal_intermediate s' = decimal_intermediate s /\ decimal_intermediate_digits s' = decimal_intermediate_digits s.

Lemma same_decimals_inv s s' : same_decimals s s' -> decimals_inv s -> decimals_inv s'.
Proof. intros (E1 & E2 & E3 & E4) [H1 H2 H3 H4 H5]. by split; rewrite ?E1, ?E2, ?E3, ?E4. Qed.

Lemma same_decimals_none s s' : same_decimals s s' -> no_decimals_read s -> no_decimals_read s'.
Proof. intros (E1 & E2 & E3 & E4) (H1 & H2 & H3 & H4). unfold no_decimals_read. by rewrite E1, E2, E3, E4. Qed.

(** A product and a word of the same sign. *)
Lemma beyond_product (NEGATIVE : bool) p i : sign_ok NEGATIVE p -> sign_ok NEGATIVE i -> ~ in_limits p -> ~ in_limits (p + i).
Proof. pose proof (h_limits (R := R)). destruct NEGATIVE; lia. Qed.

Lemma many_digits (NEGATIVE : bool) v n : sign_ok NEGATIVE v -> v <> 0 -> 38 < n -> ~ in_limits (v * 10 ^ n).
Proof.
  intros Hs Hv Hn. pose proof (h_limits (R := R)) as (_ & Hmax & _ & Hmin). assert (Hp : 10 ^ 39 <= 10 ^ n) by (apply Z.pow_le_mono_r; lia).
  assert (Hbig : 2 ^ 128 < 10 ^ 39) by done. revert Hp. generalize (10 ^ n). intros p Hp. destruct NEGATIVE; nia.
Qed.

Lemma flush_exact NEGATIVE room s : digits_inv NEGATIVE room s ->
  returns (Flush s)
    (fun s' => digits_inv NEGATIVE room s' /\ hval (result s') = huge_number s /\ intermediate s' = 0 /\ digits s' = 0 /\ same_decimals s s')
    (~ in_limits (huge_number s)).
Proof.
  intros [Hr Hs Hi Hsi Hd Hlt]. unfold Flush, huge_number.
  destruct (Z.eqb_spec (digits s) 0) as [Ed|Ed], (Z.eqb_spec (intermediate s) 0) as [Ei|Ei]; cbn [andb].
  1: { apply returns_ret. rewrite Ed, Ei, Z.mul_1_r, Z.add_0_r. split_and!; done. }
  all: eapply returns_bind with (P := fun r => hok r /\ hval r = hval (result s) * 10 ^ digits s)
    (F := ~ in_limits (hval (result s) * 10 ^ digits s)); [| |intros r [Hr' Hv]].
  all: assert (Hpow : 0 < 10 ^ digits s) by (apply Z.pow_pos_nonneg; lia).
  all: try (intros Hout; apply (beyond_product NEGATIVE); [|done..]; destruct NEGATIVE; nia).
  all: try (rewrite h_is_zero by done; destruct (Z.eqb_spec (hval (result s)) 0) as [Ez|Ez]; cbn [negb];
    [apply returns_ret; rewrite Ez; split; [done|lia]|]; rewrite Z.gtb_ltb; destruct (Z.ltb_spec 38 (digits s));
    [apply returns_false; by apply (many_digits NEGATIVE)|];
    eapply returns_weaken; [apply (h_try_multiply (result s) (Z.to_nat (digits s))); [done|lia]|..]; rewrite Z2Nat.id by lia; done).
  all: destruct (h_intermediate (R := R) (intermediate s) Hi) as [Hoi Hvi].
  all: eapply returns_bind; [by apply h_try_add|by rewrite Hv, Hvi|]; rewrite Hv, Hvi; intros r' [Hr2 Hv2]; apply returns_ret.
  all: pose proof (h_limits (R := R)) as (Hword & _ & _ & _); pose proof (h_signs (R := R)) as (_ & Hw64); unfold i64_max in Hw64.
  all: split; [split; cbn [result intermediate digits]; [done|rewrite Hv2; destruct NEGATIVE; nia|lia|by destruct NEGATIVE|lia|done]|];
    cbn [result intermediate digits]; split_and!; done.
Qed.

(** A digit appended to the word, which is flushed first if it is full. *)
Lemma digit_exact NEGATIVE room s d : digits_inv NEGATIVE (S room) s -> 0 <= d <= 9 -> (NEGATIVE = true -> hmin (R := R) < 0 \/ d = 0) ->
  let v := 10 * huge_number s + (if NEGATIVE then - d else d) in
  returns (HandleHugeDigit NEGATIVE s d)
    (fun s' => digits_inv NEGATIVE room s' /\ huge_number s' = v /\ same_decimals s s')
    (if NEGATIVE then v < hmin (R := R) else hmax (R := R) < v).
Proof.
  intros Hinv Hd Hneg v. pose proof (h_limits (R := R)) as (Hmin & Hmax & _). pose proof (h_signs (R := R)) as (Hsigned & Hw64). unfold i64_max in Hw64.
  assert (Hneg' : NEGATIVE = true -> Minimum word < 0 \/ d = 0) by (intros Hn; destruct (Hneg Hn); auto).
  unfold HandleHugeDigit. pose proof Hinv as [Hr Hs Hi Hsi Hdig Hlt]. rewrite digit_full by done.
  eapply returns_bind with (F := ~ in_limits (huge_number s))
    (P := fun s1 => digits_inv NEGATIVE (S room) s1 /\ huge_number s1 = huge_number s /\ same_decimals s s1 /\
      of_type word (10 * intermediate s1 + (if NEGATIVE then - d else d))).
  - destruct (in_type_spec word (10 * intermediate s + (if NEGATIVE then - d else d))) as [Hfit|Hfull]; cbn [negb]; [by apply returns_ret|].
    eapply returns_weaken; [by apply flush_exact| |done]. intros s1 (Hinv1 & Hv1 & Hi1 & Hd1 & Hsame). unfold huge_number at 1.
    rewrite Hv1, Hi1, Hd1, Z.mul_1_r, Z.add_0_r. split_and!; try done; pose proof (type_digits word); destruct NEGATIVE; lia.
  - pose proof Hinv as [_ Hs' _ Hsi' _ _]. assert (0 < 10 ^ digits s) by (apply Z.pow_pos_nonneg; lia). intros Hout. subst v.
    assert (sign_ok NEGATIVE (huge_number s)) by (unfold huge_number; destruct NEGATIVE; nia). destruct NEGATIVE; lia.
  - intros s1 ([Hr1 Hs1 Hi1 Hsi1 Hdig1 Hlt1] & Hv1 & Hsame & Hfit).
    assert (Htens : of_type word (intermediate s1 * 10)) by (destruct NEGATIVE; lia).
    assert (Harith : (tens ← arith word (intermediate s1 * 10); arith word (if NEGATIVE then tens - d else tens + d)) =
      mret (10 * intermediate s1 + (if NEGATIVE then - d else d))).
    { rewrite arith_exact by (by apply promoted_range). cbn [mbind checked_bind mret checked_ret]. rewrite arith_exact.
      - f_equal. f_equal. destruct NEGATIVE; lia.
      - apply promoted_range. destruct NEGATIVE; lia. }
    rewrite Harith. unfold run. cbn [mbind checked_bind attempt_bind mret checked_ret attempt_ret]. rewrite cast_to_range by done.
    rewrite wrapu_small by (unfold in_u; lia). apply returns_ret. assert (Hpow : 10 ^ (digits s1 + 1) = 10 * 10 ^ digits s1) by (rewrite Z.add_1_r, Z.pow_succ_r by lia; done).
    split_and!; [split; cbn [result intermediate digits]; [done|done|done|destruct NEGATIVE; lia|lia|rewrite Hpow; destruct NEGATIVE; lia]|unfold huge_number; cbn [result intermediate digits]|apply Hsame..].
    subst v. rewrite <- Hv1. unfold huge_number. rewrite Hpow. lia.
Qed.

(** ** Decimals *)

Definition same_digits s s' : Prop := result s' = result s /\ intermediate s' = intermediate s /\ digits s' = digits s.

Lemma same_digits_inv NEGATIVE room s s' : same_digits s s' -> digits_inv NEGATIVE room s -> digits_inv NEGATIVE room s'.
Proof. intros (E1 & E2 & E3) [H1 H2 H3 H4 H5 H6]. by split; rewrite ?E1, ?E2, ?E3. Qed.

Lemma digits_inv_fewer NEGATIVE m n s : (m <= n)%nat -> digits_inv NEGATIVE n s -> digits_inv NEGATIVE m s.
Proof. intros Hmn [H1 H2 H3 H4 H5 H6]. split; try done. lia. Qed.

Lemma flush_decimal_total s : decimals_inv s ->
  returns (FlushDecimal s) (fun s' => decimals_inv s' /\ same_digits s s' /\ hval (decimal_intermediate s') = 0 /\ decimal_intermediate_digits s' = 0 /\
    decimal_total_digits s' = decimal_total_digits s + decimal_intermediate_digits s /\ (no_decimals_read s -> s' = s)) (~ no_decimals_read s).
Proof.
  intros [Hd Hpos Hr Hrest (Ht & Hi & Hmax)]. destruct zero_ok as [Hzok Hz]. unfold FlushDecimal. rewrite h_equals, Hz by done.
  destruct (Z.eqb_spec (decimal_intermediate_digits s) 0) as [Ei|Ei], (Z.eqb_spec (hval (decimal_intermediate s)) 0) as [Er|Er]; cbn [andb];
    [apply returns_ret; split_and!; try done; lia|..].
  all: assert (Hpow : 0 < 10 ^ decimal_intermediate_digits s) by (apply Z.pow_pos_nonneg; lia).
  all: assert (Hsome : ~ no_decimals_read s) by (intros (_ & _ & ? & ?); congruence).
  all: eapply returns_bind with (P := fun d => hok d /\ 0 <= hval d) (F := True);
    [rewrite h_is_zero by done; destruct (Z.eqb_spec (hval (decimal s)) 0); cbn [negb]; [by apply returns_ret|]; rewrite Z.gtb_ltb;
       destruct (Z.ltb_spec 38 (decimal_intermediate_digits s)); [by apply returns_false|];
       eapply returns_weaken; [apply h_try_multiply; [done|lia]|intros d [Hd' Hv]; split; [done|rewrite Hv, Z2Nat.id by lia; nia]|done]|done|].
  all: intros d [Hdok Hdpos]; eapply returns_bind; [by apply h_try_add|done|]; intros d' [Hok' Hv']; apply returns_ret.
  all: unfold MAX_DECIMAL_DIGITS in *; rewrite wrapu_small by (unfold in_u; numbers; lia).
  all: split_and!; [split|..]; cbn [set_huge_decimal decimal decimal_total_digits decimal_intermediate decimal_intermediate_digits]; try done;
    try (rewrite ?Hz; unfold MAX_DECIMAL_DIGITS, i64_max in *; lia).
  all: by intros ?%Hsome.
Qed.

Lemma handle_decimal_total NEGATIVE s d : digits_inv NEGATIVE 0 s -> decimals_inv s -> 0 <= d <= 9 ->
  returns (HandleHugeDecimal s d) (fun s' => digits_inv NEGATIVE 0 s' /\ decimals_inv s') True.
Proof.
  intros Hdig Hdec Hd. unfold HandleHugeDecimal. eapply returns_bind; [by apply flush_exact|done|]. intros s1 (Hdig1 & _ & _ & _ & Hsame).
  apply (same_decimals_inv _ _ Hsame) in Hdec. clear Hsame. pose proof Hdec as [Hd1 Hp1 Hr1 Hrp1 (Ht & Hi & Hmax)]. unfold MAX_DECIMAL_DIGITS in *.
  rewrite wrapu_small by (unfold in_u; numbers; lia). destruct (Z.eqb_spec (decimal_total_digits s1 + decimal_intermediate_digits s1) 32768); [by apply returns_ret|].
  eapply returns_bind with (F := True)
    (P := fun s2 => digits_inv NEGATIVE 0 s2 /\ decimals_inv s2 /\ decimal_total_digits s2 + decimal_intermediate_digits s2 < 32768 /\
      10 * hval (decimal_intermediate s2) + d <= i64_max); [|done|].
  - destruct (intermediate_small (Z.quot (i64_max - d) 10)) as [Hlok Hl]; [rewrite Z.quot_div_nonneg by (unfold i64_max; lia); unfold i64_max; lia|].
    rewrite h_greater, Hl, Z.quot_div_nonneg by (done || unfold i64_max; lia). destruct (Z.ltb_spec ((i64_max - d) / 10) (hval (decimal_intermediate s1))) as [Hfull|Hfit].
    + eapply returns_weaken; [by apply flush_decimal_total| |done]. intros s2 (Hdec2 & Hsame2 & Hz & Hn & Ht2 & _).
      split_and!; [by apply (same_digits_inv _ _ _ _ Hsame2)|done|lia|unfold i64_max; lia].
    + apply returns_ret. split_and!; [done|done|lia|]. assert (hval (decimal_intermediate s1) * 10 <= i64_max - d); [|lia].
      pose proof (Z.mul_div_le (i64_max - d) 10). lia.
  - intros s2 (Hdig2 & [Hd2 Hp2 Hr2 Hrp2 (Ht2 & Hi2 & Hmax2)] & Hroom & Hfit). rewrite wrapu_small by (unfold in_u; numbers; lia). apply returns_ret.
    pose proof (h_limits (R := R)) as (Hmin & Hhigh & _). pose proof (h_signs (R := R)) as (_ & Hw64).
    destruct (intermediate_small 10) as [Hok10 H10]; [unfold i64_max; lia|]. destruct (intermediate_small d) as [Hokd Hvd]; [unfold i64_max; lia|].
    destruct (h_multiply (decimal_intermediate s2) (of_intermediate 10)) as [Hokm Hvm]; [done|done|lia|].
    destruct (h_add (huge_multiply (decimal_intermediate s2) (of_intermediate 10)) (of_intermediate d)) as [Hoka Hva]; [done|done|lia|].
    split; [by apply (same_digits_inv _ _ s2)|]. split; cbn [set_huge_decimal decimal decimal_total_digits decimal_intermediate decimal_intermediate_digits];
      unfold MAX_DECIMAL_DIGITS; try done; lia.
Qed.

(** The loop that keeps the leading decimals. *)
Lemma drop_digits_total fuel (h : R) total : hok h -> 0 <= hval h -> 1 <= total <= 38 * (Z.of_nat fuel + 1) -> total <= MAX_DECIMAL_DIGITS ->
  exists h' total', drop_digits fuel h total = mret (h', total') /\ hok h' /\ 0 <= hval h' /\ 1 <= total' <= 38.
Proof.
  change CACHED_POWERS_OF_TEN with 39. revert h total. induction fuel as [|fuel IH]; intros h total Hh Hpos Htotal Hmax; cbn [drop_digits];
    change (CACHED_POWERS_OF_TEN - 1) with 38; rewrite Z.gtb_ltb; (destruct (Z.ltb_spec 38 total); [|exists h, total; split_and!; done || lia]); [lia|].
  destruct (h_power (R := R) (Z.to_nat 38)) as [Hpok Hpv]; [lia|]. assert (0 < 10 ^ Z.of_nat (Z.to_nat 38)) by done.
  destruct (h_divide h (POWER_OF_TEN (Z.to_nat 38))) as (q & -> & Hq & Hv); [done|done|lia|]. cbn [mbind checked_bind mret checked_ret].
  unfold MAX_DECIMAL_DIGITS in *. rewrite wrapu_small by (unfold in_u; numbers; lia). apply IH; [done| |lia|lia].
  rewrite Hv, Hpv. apply Z.quot_pos; [done|done].
Qed.

Lemma finalize_exact NEGATIVE s : digits_inv NEGATIVE 0 s -> decimals_inv s ->
  returns (FinalizeHuge NEGATIVE s)
    (fun s' => hok (result s') /\ (no_decimals_read s -> hval (result s') = huge_number s))
    (no_decimals_read s -> ~ in_limits (huge_number s)).
Proof.
  intros Hdig Hdec. destruct zero_ok as [Hzok Hz]. unfold FinalizeHuge.
  eapply returns_bind; [by apply flush_exact|done|]. intros s1 (Hdig1 & Hv1 & Hi1 & Hd1 & Hsame).
  pose proof (same_decimals_inv _ _ Hsame Hdec) as Hdec1. pose proof (same_decimals_none _ _ Hsame) as Hnone1.
  eapply returns_bind; [by apply flush_decimal_total|by intros Hn ?%Hnone1|].
  intros s2 (Hdec2 & (Er2 & Ei2 & Ed2) & _ & Hn2 & Ht2 & Heq). pose proof Hdec2 as [Hdok Hdpos _ _ (Ht & _ & Hmax)].
  pose proof Hdig1 as [Hrok _ _ _ _ _]. rewrite h_equals, Hz by done.
  destruct (Z.eqb_spec (hval (decimal s2)) 0) as [Ez|Ez]; cbn [orb].
  { apply returns_ret. rewrite Er2. split; [done|by intros _]. }
  destruct (Z.eqb_spec (decimal_total_digits s2) 0) as [Et|Et].
  { apply returns_ret. rewrite Er2. split; [done|by intros _]. }
  assert (Hsome : no_decimals_read s -> False) by (intros Hn%Hnone1; apply Ez; rewrite Heq by done; by destruct Hn).
  destruct (drop_digits_total 863 (decimal s2) (decimal_total_digits s2)) as (h & total & -> & Hh & Hhpos & Htotal);
    [done|done|unfold MAX_DECIMAL_DIGITS in Hmax; lia|lia|]. cbn [run mbind attempt_bind checked_bind mret attempt_ret checked_ret].
  rewrite wrapu_small by (unfold in_u; numbers; lia). destruct (h_power (R := R) (Z.to_nat (total - 1))) as [Hpok Hpv]; [lia|].
  assert (0 < 10 ^ Z.of_nat (Z.to_nat (total - 1))) by (apply Z.pow_pos_nonneg; lia).
  destruct (h_divide h (POWER_OF_TEN (Z.to_nat (total - 1)))) as (q & -> & Hq & _); [done|done|lia|]. cbn [run mbind attempt_bind checked_bind mret attempt_ret checked_ret].
  destruct (intermediate_small 1) as [Hok1 Hone]; [unfold i64_max; lia|].
  destruct (huge_greater_equal _ _); [|apply returns_ret; cbn; rewrite Er2; split; [done|by intros ?%Hsome]].
  eapply returns_bind with (P := fun r => hok r) (F := True); [|by intros _ ?%Hsome|intros r Hr; apply returns_ret; cbn; split; [done|by intros ?%Hsome]].
  cbn [set_huge_decimal result]. rewrite Er2. destruct NEGATIVE; (eapply returns_weaken; [first [by apply h_try_add|apply h_try_subtract; by auto]|by intros r [? _]|done]).
Qed.

(** ** Exponents *)

(** A flushed state with another result. *)
Lemma result_inv NEGATIVE s r : digits_inv NEGATIVE 0 s -> hok r -> sign_ok NEGATIVE (hval r) -> digits_inv NEGATIVE 0 (set_huge_result r s).
Proof. intros [H1 H2 H3 H4 H5 H6] Hr Hs. by split. Qed.

Lemma quot_sign (NEGATIVE : bool) v p : sign_ok NEGATIVE v -> 0 < p -> sign_ok NEGATIVE (Z.quot v p).
Proof.
  intros Hv Hp. destruct NEGATIVE; [|by apply Z.quot_pos]. rewrite <- (Z.opp_involutive v), Z.quot_opp_l by lia.
  pose proof (Z.quot_pos (- v) p). lia.
Qed.

(** A state with other decimals and no unflushed ones. *)
Lemma set_decimals NEGATIVE s d total i n : digits_inv NEGATIVE 0 s -> hok d -> 0 <= hval d -> hok i -> hval i = 0 ->
  0 <= total -> 0 <= n -> total + n <= MAX_DECIMAL_DIGITS ->
  digits_inv NEGATIVE 0 (set_huge_decimal d total i n s) /\ decimals_inv (set_huge_decimal d total i n s).
Proof.
  intros Hs Hd Hpos Hi Hz Ht Hn Hmax. split; [by apply (same_digits_inv _ _ s)|]. split; cbn; rewrite ?Hz; unfold i64_max; done || lia.
Qed.

Lemma finalize_limits NEGATIVE s : digits_inv NEGATIVE 0 s -> decimals_inv s ->
  returns (FinalizeHuge NEGATIVE s) (fun s' => hok (result s')) True.
Proof. intros H1 H2. eapply returns_weaken; [by apply finalize_exact|by intros s' [? _]|done]. Qed.

Lemma exponent_down_total NEGATIVE s e : digits_inv NEGATIVE 0 s -> -38 <= e < 0 ->
  returns ('(q, remainder) ← run (huge_divmod (result s) (POWER_OF_TEN (Z.to_nat (- e))));
    remainder ← (if huge_less remainder huge_zero then huge_try_negate remainder else mret remainder);
    FinalizeHuge NEGATIVE (set_huge_decimal remainder (- e) huge_zero 0 (set_huge_result q s)))
    (fun s' => hok (result s')) True.
Proof.
  intros Hs He. pose proof Hs as [Hr Hsign _ _ _ _]. destruct zero_ok as [Hzok Hz]. destruct (h_power (R := R) (Z.to_nat (- e))) as [Hpok Hpv]; [lia|].
  assert (0 < 10 ^ Z.of_nat (Z.to_nat (- e))) by (apply Z.pow_pos_nonneg; lia).
  destruct (h_divmod (result s) (POWER_OF_TEN (Z.to_nat (- e)))) as (q & r & -> & Hq & Hrok & Hqv & Hrv); [done|done|lia|].
  cbn [run mbind attempt_bind checked_bind mret attempt_ret checked_ret]. rewrite h_less, Hz by done.
  eapply returns_bind with (P := fun r => hok r /\ 0 <= hval r) (F := True); [|done|intros r' [Hr' Hpos]].
  - destruct (Z.ltb_spec (hval r) 0); [|by apply returns_ret]. eapply returns_weaken; [by apply h_negate|intros r' [? ->]; split; [done|lia]|done].
  - destruct (set_decimals NEGATIVE (set_huge_result q s) r' (- e) huge_zero 0) as [H1 H2]; try done; try (unfold MAX_DECIMAL_DIGITS; lia).
    + apply result_inv; [done|done|]. rewrite Hqv. apply quot_sign; [done|lia].
    + by apply finalize_limits.
Qed.

(** The decimals that a positive exponent moves: they are added to the result. *)
Lemma exponent_up_total NEGATIVE s e : (NEGATIVE = true -> hmin (R := R) < 0) -> digits_inv NEGATIVE 0 s -> decimals_inv s -> hval (decimal_intermediate s) = 0 -> decimal_intermediate_digits s = 0 ->
  0 <= e < 2 ^ 31 ->
  returns (let shift := e - i64 (decimal_total_digits s) in
      '(d, remainder, total) ← (
        if shift <? 0 then
          let total := u64 (decimal_total_digits s - e) in
          if shift <? -38 then mret (huge_zero, decimal s, total)
          else '(d, remainder) ← run (huge_divmod (decimal s) (POWER_OF_TEN (Z.to_nat (- shift)))); mret (d, remainder, total)
        else if shift >? 38 then return_false
        else d ← huge_try_multiply (decimal s) (POWER_OF_TEN (Z.to_nat shift)); mret (d, huge_zero, decimal_total_digits s));
      r ← (if NEGATIVE then huge_try_subtract (result s) d else huge_try_add (result s) d);
      FinalizeHuge NEGATIVE (set_huge_decimal remainder total (decimal_intermediate s) (decimal_intermediate_digits s) (set_huge_result r s)))
    (fun s' => hok (result s')) True.
Proof.
  intros Hneg Hs Hdec Hi0 Hn0 He. pose proof Hs as [Hr Hsign _ _ _ _]. pose proof Hdec as [Hdok Hdpos Hiok _ (Ht & Hn & Hmax)]. destruct zero_ok as [Hzok Hz].
  unfold MAX_DECIMAL_DIGITS in Hmax. rewrite wraps_small by (unfold in_s; numbers; lia). cbv zeta.
  eapply returns_bind with (P := fun '(d, rem, total) => hok d /\ 0 <= hval d /\ hok rem /\ 0 <= hval rem /\ 0 <= total <= MAX_DECIMAL_DIGITS) (F := True); [|done|].
  - unfold MAX_DECIMAL_DIGITS. destruct (Z.ltb_spec (e - decimal_total_digits s) 0).
    + rewrite wrapu_small by (unfold in_u; numbers; lia). destruct (Z.ltb_spec (e - decimal_total_digits s) (-38)); [apply returns_ret; split_and!; done || lia|].
      set (n := Z.to_nat (- (e - decimal_total_digits s))). destruct (h_power (R := R) n) as [Hpok Hpv]; [lia|].
      assert (0 < 10 ^ Z.of_nat n) by (apply Z.pow_pos_nonneg; lia).
      destruct (h_divmod (decimal s) (POWER_OF_TEN n)) as (q & r & -> & Hq & Hrok & Hqv & Hrv); [done|done|lia|].
      apply returns_ret. split_and!; try done; [rewrite Hqv; apply Z.quot_pos; lia|rewrite Hrv; apply Z.rem_nonneg; lia|lia|lia].
    + rewrite Z.gtb_ltb. destruct (Z.ltb_spec 38 (e - decimal_total_digits s)); [by apply returns_false|].
      eapply returns_bind; [apply h_try_multiply; [done|lia]|done|]. intros d [Hd Hv]. apply returns_ret.
      split_and!; try done; [|lia..]. rewrite Hv. apply Z.mul_nonneg_nonneg; [done|apply Z.pow_nonneg; lia].
  - intros [[d rem] total] (Hd & Hd0 & Hrem & Hrem0 & Htotal).
    eapply returns_bind with (P := fun r => hok r /\ sign_ok NEGATIVE (hval r)) (F := True); [|done|].
    + destruct NEGATIVE; (eapply returns_weaken; [first [by apply h_try_add|apply h_try_subtract; by auto]| |done]); intros r [Hr' Hv]; (split; [done|lia]).
    + intros r [Hr' Hs']. destruct (set_decimals NEGATIVE (set_huge_result r s) rem total (decimal_intermediate s) (decimal_intermediate_digits s)) as [H1 H2];
        try done; try lia; [by apply result_inv|by apply finalize_limits].
Qed.

Lemma exponent_total NEGATIVE s e : (NEGATIVE = true -> hmin (R := R) < 0) -> digits_inv NEGATIVE 0 s -> decimals_inv s -> in_s 16 e ->
  returns (HandleHugeExponent NEGATIVE s e) (fun s' => hok (result s')) True.
Proof.
  intros Hneg Hdig Hdec He. unfold in_s in He. destruct zero_ok as [Hzok Hz]. unfold HandleHugeExponent. eapply returns_bind; [by apply flush_exact|done|].
  intros s1 (Hdig1 & _ & _ & _ & Hsame). apply (same_decimals_inv _ _ Hsame) in Hdec. clear Hsame Hdig s.
  destruct (Z.ltb_spec e (-38)); [by apply returns_ret|].
  destruct (Z.ltb_spec e 0); [apply exponent_down_total; [done|lia]|]. pose proof Hdig1 as [Hr Hsign _ _ _ _]. rewrite h_equals, Hz by done.
  eapply returns_bind with (P := fun r => hok r /\ sign_ok NEGATIVE (hval r)) (F := True); [|done|intros r [Hrok Hrs]].
  - destruct (Z.eqb_spec (hval (result s1)) 0); cbn [negb]; [by apply returns_ret|]. rewrite Z.gtb_ltb. destruct (Z.ltb_spec 38 e); [by apply returns_false|].
    eapply returns_weaken; [apply h_try_multiply; [done|lia]| |done]. intros r [Hr' Hv]. split; [done|]. rewrite Hv.
    assert (0 < 10 ^ Z.of_nat (Z.to_nat e)) by (apply Z.pow_pos_nonneg; lia). destruct NEGATIVE; nia.
  - assert (Hdec1 : decimals_inv (set_huge_result r s1)) by (by apply (same_decimals_inv s1)).
    eapply returns_bind; [by apply flush_decimal_total|done|]. intros s2 (Hdec2 & Hsame2 & Hi2 & Hn2 & _).
    assert (Hdig2 : digits_inv NEGATIVE 0 s2) by (apply (same_digits_inv _ _ _ _ Hsame2); by apply result_inv).
    destruct (huge_equals (decimal s2) huge_zero); [by apply finalize_limits|]. apply exponent_up_total; try done. numbers. lia.
Qed.

(** ** The contract of the cast *)

Ltac fields := cbn [zero_state HugeIntegerCastOperation result intermediate digits decimal decimal_total_digits decimal_intermediate decimal_intermediate_digits].

Record word_state s : Prop := {
  word_result : hok (result s);
  word_pos : 0 <= hval (result s);
  word_rest : intermediate s = 0 /\ digits s = 0;
  word_decimals : decimals_inv s /\ no_decimals_read s
}.

Lemma shift_exact bits s d : bits = 4 \/ bits = 1 -> word_state s -> 0 <= d < 2 ^ bits ->
  returns (shift_in bits s d) (fun s' => word_state s' /\ huge_number s' = 2 ^ bits * huge_number s + d) (hmax (R := R) < 2 ^ bits * huge_number s + d).
Proof.
  intros Hbits [Hr Hpos [Hi Hd0] [Hdec Hnone]] Hd. unfold huge_number. rewrite Hi, Hd0, Z.mul_1_r, Z.add_0_r.
  assert (E : shift_in bits s d = (r ← shifted_words bits (result s) d; mret (set_huge_result r s))).
  { unfold shift_in, shifted_words. destruct (negb _); [done|]. by destruct (sign_bit _). }
  rewrite E. eapply returns_bind; [by apply h_shift|done|]. intros r [Hrok Hv]. apply returns_ret. cbn [set_huge_result result digits intermediate].
  rewrite Hv, Hi, Hd0. split; [|lia]. split; cbn [set_huge_result result digits intermediate]; [done|rewrite Hv; nia|done|].
  split; [by apply (same_decimals_inv s)|by apply (same_decimals_none s)].
Qed.

#[export] Instance HugeintCastLaws : CastOperationLaws data.
Proof.
  refine {|
    digits_lowest := hmin (R := R); digits_highest := hmax (R := R); minus_allowed := hmin (R := R) < 0;
    number := huge_number; finished := fun s => hok (result s);
    cast_inv := fun NEGATIVE room s => digits_inv NEGATIVE room s /\ decimals_inv s;
    fits := fun n => Z.of_nat n < 2 ^ 64;
    word_inv := word_state;
    no_decimals := no_decimals_read
  |}; pose proof (h_limits (R := R)) as (Hmin & Hmax & Hbig & _); destruct zero_ok as [Hzok Hz].
  - lia.
  - lia.
  - intros NEGATIVE m n s Hmn [Hdig Hdec]. split; [by apply (digits_inv_fewer _ m n)|done].
  - intros NEGATIVE n Hn. assert (Hdec : decimals_inv (zero_state (T := data))).
    { split; fields; rewrite ?Hz; unfold MAX_DECIMAL_DIGITS, i64_max; done || lia. }
    assert (Hnone : no_decimals_read (zero_state (T := data))) by (unfold no_decimals_read; fields; by rewrite Hz).
    assert (Hw : of_type word 0) by (pose proof (type_digits word); lia). split; [split; [|done]|split; [|split; [done|unfold huge_number; fields; rewrite Hz; lia]]].
    + split; fields; rewrite ?Hz; [done|by destruct NEGATIVE|done|by destruct NEGATIVE|lia|done].
    + split; fields; rewrite ?Hz; [done|lia|done|by split].
  - intros s [Hr Hpos [Hi Hd] [Hdec Hnone]]. split; [split; [|done]|done]. pose proof (type_digits word). split; rewrite ?Hi, ?Hd; done || lia.
  - intros NEGATIVE s [[Hr Hs Hi Hsi Hd _] _]. unfold huge_number. assert (0 < 10 ^ digits s) by (apply Z.pow_pos_nonneg; lia). destruct NEGATIVE; nia.
  - intros NEGATIVE n s d [Hdig Hdec] Hd Hneg v. eapply returns_weaken; [by apply (digit_exact NEGATIVE n)| |done].
    intros s' (H1 & H2 & H3). split_and!; [done|by apply (same_decimals_inv s)|done|by apply same_decimals_none].
  - intros s d Hw Hd. eapply returns_weaken; [apply (shift_exact 4); [by left|done|done]|by intros ? [? _]|done].
  - intros s d Hw Hd. eapply returns_weaken; [apply (shift_exact 1); [by right|done|done]|by intros ? [? _]|done].
  - intros NEGATIVE s d [Hdig Hdec] Hd. by apply handle_decimal_total.
  - intros NEGATIVE s e Hsign [Hdig Hdec] He. by apply exponent_total.
  - intros NEGATIVE s [Hdig Hdec]. eapply returns_weaken; [by apply finalize_exact|by intros ? [? _]|done].
Defined.

#[export] Instance HugeintCastExact : IntegerOperationLaws data.
Proof.
  refine {| lowest := hmin (R := R); highest := hmax (R := R); output := fun s => hval (result s) |}.
  - done.
  - intros s d Hw Hd. apply (shift_exact 4); [by left|done|done].
  - intros s d Hw Hd. apply (shift_exact 1); [by right|done|done].
  - intros NEGATIVE s [Hdig Hdec] Hnone. eapply returns_weaken; [by apply finalize_exact|..]; [|by auto]. intros s' [Hok Hv]. split; [done|by apply Hv].
  - intros s. apply h_range.
Defined.

Lemma word_signed : is_signed word = true -> hmin (R := R) < 0.
Proof. pose proof (h_limits (R := R)) as (Hmin & _). intros Hs. assert (Minimum word < 0); [|lia]. destruct word; limits; numbers; lia || done. Qed.

Lemma huge_cast_exact buf strict z : Z.of_nat (length buf) < 2 ^ 64 -> integer_text (is_signed word) strict buf z ->
  returns (TryHugeIntegerCast buf strict) (fun r => hok r /\ hval r = z) (~ in_limits z).
Proof.
  intros Hfits Htext. unfold TryHugeIntegerCast. eapply returns_bind; [apply (try_integer_cast_exact (T := data)); [done|apply word_signed|exact Hfits|exact Htext]|done|].
  intros s [Hv Hok]. by apply returns_ret.
Qed.

Lemma huge_cast_total buf strict : Z.of_nat (length buf) < 2 ^ 64 -> returns (TryHugeIntegerCast buf strict) hok True.
Proof.
  intros Hfits. unfold TryHugeIntegerCast. eapply returns_bind; [apply (try_integer_cast_total (T := data)); [done|apply word_signed|exact Hfits]|done|].
  intros s Hok. by apply returns_ret.
Qed.
End HugeCast.
