(* ===== verification/HugeintCastInstances.v ===== *)
(** * 128-bit integers from text: [Hugeint] and [Uhugeint] *)

From Stdlib Require Import Ascii.
From S2P Require Import Prelude DateText DateTextFacts Hugeint HugeintFacts HugeintDivisionFacts Uhugeint UhugeintFacts IntegerOps IntegerOpsFacts.
From S2P Require Import IntegerCast IntegerCastFacts IntegerTextFacts IntegerDecimalFacts HugeintCast HugeintCastFacts.

Local Open Scope Z_scope.

(** ** Words *)

(** Bits shifted into two words are the value times a power of two, unless they reach the top. *)
Lemma shift_words bits u l d : 0 < bits < 64 -> in_u 64 u -> in_u 64 l -> 0 <= d < 2 ^ bits -> Z.shiftr u (64 - bits) = 0 ->
  let u' := Z.lor (shl64 u bits) (Z.shiftr l (64 - bits)) in let l' := Z.lor (shl64 l bits) d in
  in_u 64 u' /\ in_u 64 l' /\ u' * 2 ^ 64 + l' = 2 ^ bits * (u * 2 ^ 64 + l) + d.
Proof.
  intros Hb Hu Hl Hd Hhigh u' l'. unfold in_u in *. rewrite Z.shiftr_div_pow2 in Hhigh by lia. set (p := 2 ^ bits) in *. set (q := 2 ^ (64 - bits)) in *.
  assert (Hpq : p * q = 2 ^ 64) by (subst p q; rewrite <- Z.pow_add_r by lia; f_equal; lia). assert (Hp : 0 < p) by (subst p; apply Z.pow_pos_nonneg; lia).
  assert (Hq : 0 < q) by (subst q; apply Z.pow_pos_nonneg; lia). assert (Huq : u < q) by (apply Z.div_small_iff in Hhigh; lia).
  assert (Eu : u' = u * p + l / q).
  { subst u'. rewrite <- (shifted_in u l bits) by (done || lia). unfold shl64. rewrite Z.shiftl_mul_pow2 by lia. fold p. rewrite wrapu_small by (unfold in_u; nia).
    rewrite Z.shiftr_div_pow2 by lia. done. }
  assert (El : l' = (l mod q) * p + d).
  { subst l'. rewrite Z.lor_comm. unfold shl64, wrapu. rewrite Z.shiftl_mul_pow2 by lia. fold p.
    assert (Emod : (l * p) mod 2 ^ 64 = (l mod q) * p) by (rewrite <- Hpq, (Z.mul_comm p q); apply Z.mul_mod_distr_r; lia). rewrite Emod.
    rewrite Z.lor_comm. transitivity (Z.lor (Z.shiftl (l mod q) bits) d); [by rewrite Z.shiftl_mul_pow2 by lia|].
    apply lor_shiftl; [lia|apply Z.mod_pos_bound; lia|done]. }
  pose proof (Z.div_mod l q ltac:(lia)) as Edm. pose proof (Z.mod_pos_bound l q Hq) as Hmod.
  assert (Hdiv : 0 <= l / q < p) by (split; [apply Z.div_pos; lia|apply Z.div_lt_upper_bound; lia]).
  rewrite Eu, El. split_and!; [nia..|]. rewrite <- Hpq. nia.
Qed.

(** Every result of a checked operation that fits is exact. *)
Lemma huge_exact z : returns (mret (exact z) : checked (option hugeint_t)) (fun r => huge_ok r /\ value r = z) (~ - 2 ^ 127 <= z <= 2 ^ 127 - 1).
Proof.
  exists (exact z). split; [done|]. unfold exact, in_range.
  destruct (Z.leb_spec (- 2 ^ 127) z), (Z.ltb_spec z (2 ^ 127)); cbn [andb]; [split; [apply of_value_ok; unfold in_s; lia|apply value_of_value]|lia..].
Qed.

Lemma power_not_minimum v n : v <> - 2 ^ 127 -> v * 10 ^ Z.of_nat n <> - 2 ^ 127.
Proof.
  intros Hv. destruct n as [|n]; [change (10 ^ Z.of_nat 0) with 1; lia|]. rewrite Nat2Z.inj_succ, Z.pow_succ_r by lia. generalize (10 ^ Z.of_nat n). intros p Hp. numbers. lia.
Qed.

Lemma quot_in_range g h : huge_ok g -> 0 < value h -> in_s 128 (Z.quot (value g) (value h)).
Proof.
  intros Hg Hpos. pose proof (value_range g Hg) as Hr. unfold in_s in *. rewrite quot_signed by lia.
  assert (0 <= Z.abs (value g) / Z.abs (value h) <= Z.abs (value g)) by (split; [apply Z.div_pos; lia|apply Z.div_le_upper_bound; nia]).
  destruct (Z.ltb_spec (value g) 0), (Z.ltb_spec (value h) 0); cbn [xorb]; lia.
Qed.

(** A word whose top bits are set: shifted, it overflows. *)
Lemma top_bits bits u : 0 < bits < 64 -> 0 <= u -> Z.shiftr u (64 - bits) <> 0 -> 2 ^ 64 <= 2 ^ bits * u.
Proof.
  intros Hb Hu Hz. rewrite Z.shiftr_div_pow2 in Hz by lia. assert (2 ^ (64 - bits) <= u).
  { destruct (Z.le_gt_cases (2 ^ (64 - bits)) u); [done|]. exfalso. apply Hz, Z.div_small. lia. }
  assert (2 ^ 64 = 2 ^ bits * 2 ^ (64 - bits)) as -> by (rewrite <- Z.pow_add_r by lia; f_equal; lia). apply Z.mul_le_mono_nonneg_l; [|done].
  apply Z.pow_nonneg. lia.
Qed.

#[export] Instance Hugeint_laws `{Platform} : HugeOperationLaws hugeint_t.
Proof.
  refine {| hval := value; hok := huge_ok; hmin := - 2 ^ 127; hmax := 2 ^ 127 - 1 |};
    cbn [intermediate_t of_intermediate POWER_OF_TEN huge_equals huge_less huge_greater huge_greater_equal huge_add huge_multiply huge_divide huge_divmod
      huge_try_negate huge_try_multiply huge_try_add huge_try_subtract Hugeint_operation].
  - limits. numbers. lia.
  - limits. unfold i64_max. numbers. lia.
  - intros h Hh. pose proof (value_range h Hh) as Hr. unfold in_s in Hr. numbers. lia.
  - intros z Hz. assert (in_s 64 z) by (unfold in_s; limits; numbers; lia). split; [by apply hugeint_of_ok|by apply value_hugeint_of].
  - intros n Hn. rewrite power_of_ten by done. rewrite value_of_value. split; [by apply power_ok|done].
  - intros h [Hu Hl]. unfold is_zero, value. cbn [upper_word lower_word Hugeint_operation]. apply eq_bool_prop_intro.
    rewrite !Is_true_true, andb_true_iff, !Z.eqb_eq. words.
  - intros. by apply equals_value.
  - intros. by apply less_value.
  - intros. by apply greater_value.
  - intros. by apply greater_equal_value.
  - intros g h Hg Hh Hr. rewrite add_wrapped by done. split; [apply wrapped_ok|apply value_wrapped; unfold in_s; numbers; lia].
  - intros g h Hg Hh Hr. rewrite multiply_unchecked_wrapped by done. split; [apply wrapped_ok|apply value_wrapped; unfold in_s; numbers; lia].
  - intros g h Hg Hh Hpos. rewrite divmod_exact by (done || lia). eexists. split; [done|]. cbn [quotient]. split; [apply wrapped_ok|].
    by apply value_wrapped, quot_in_range.
  - intros g h Hg Hh Hpos. unfold DivMod. rewrite divmod_exact by (done || lia). eexists _, _. split; [done|]. cbn [quotient remainder].
    split; [apply wrapped_ok|]. split; [|split; [by apply value_wrapped, quot_in_range|apply value_of_value]].
    apply of_value_ok. pose proof (value_range h Hh) as Hr. pose proof (Z.rem_bound_abs (value g) (value h) ltac:(lia)). unfold in_s in *. lia.
  - intros h Hh Hneg. rewrite try_negate_exact by done. eapply returns_weaken; [apply huge_exact|done|done].
  - intros h n Hh Hn. rewrite try_multiply_exact, power_of_ten, value_of_value by (done || rewrite power_of_ten by done; by apply power_ok).
    unfold multiplied. destruct (Z.eqb_spec (value h) (- 2 ^ 127)) as [_|Hne]; [rewrite andb_false_r; apply huge_exact|].
    assert (value h * 10 ^ Z.of_nat n =? - 2 ^ 127 = false) as -> by (by apply Z.eqb_neq, power_not_minimum). apply huge_exact.
  - intros g h Hg Hh. rewrite try_add_exact by done. apply huge_exact.
  - intros g h _ Hg Hh. rewrite try_subtract_exact by done. apply huge_exact.
  - intros bits h d Hbits [Hu Hl] Hpos Hd. unfold shifted_words. cbn [upper_word lower_word of_words sign_bit Hugeint_operation].
    unfold value in Hpos. assert (Hu0 : 0 <= upper h) by words. assert (Eu : u64 (upper h) = upper h) by (apply wrapu_small; words). rewrite Eu.
    assert (Hb : 0 < bits < 64) by lia. unfold value.
    destruct (Z.eqb_spec (Z.shiftr (upper h) (64 - bits)) 0) as [Hz|Hz]; cbn [negb].
    + destruct (shift_words bits (upper h) (lower h) d Hb) as (Hu' & Hl' & E); [words|done|done|done|]. rewrite <- E.
      set (u' := Z.lor _ _) in *. set (l' := Z.lor _ _) in *. cbn [upper]. destruct (Z.ltb_spec (i64 u') 0) as [Hs|Hs].
      * apply returns_false. revert Hs. words.
      * apply returns_ret. cbn [upper lower]. assert (i64 u' = u') as -> by (revert Hs; words). split; [split; cbn [upper lower]; words|done].
    + apply returns_false. apply top_bits in Hz; [|lia|words].
      assert (0 <= 2 ^ bits * lower h) by (apply Z.mul_nonneg_nonneg; [apply Z.pow_nonneg; lia|words]). rewrite Z.mul_add_distr_l, Z.mul_assoc. numbers. lia.
Defined.

(** ** [Uhugeint], with 128-bit machine integers *)

Lemma upower_of_ten `{P : Platform} n d : (n <= 38)%nat -> nth n Uhugeint.POWERS_OF_TEN d = of_uvalue (10 ^ Z.of_nat n).
Proof.
  intros Hn. assert (E : Uhugeint.POWERS_OF_TEN = (fun n => of_uvalue (10 ^ Z.of_nat n)) <$> seq 0 39) by (destruct P as [[|]]; vm_compute; reflexivity).
  rewrite E. apply nth_lookup_Some. rewrite list_lookup_fmap, lookup_seq_lt by lia. done.
Qed.

Lemma upower_ok n : (n <= 38)%nat -> uhuge_ok (of_uvalue (10 ^ Z.of_nat n)).
Proof.
  intros Hn. apply of_uvalue_ok. assert (10 ^ Z.of_nat n <= 10 ^ 38) by (apply Z.pow_le_mono_r; lia). pose proof (Z.pow_pos_nonneg 10 (Z.of_nat n)).
  assert (10 ^ 38 < 2 ^ 128) by done. unfold in_u. lia.
Qed.

Lemma uquot_ok g h : uhuge_ok g -> uhuge_ok h -> 0 < uvalue h -> uhuge_ok (of_uvalue (uvalue g / uvalue h)) /\ uhuge_ok (of_uvalue (uvalue g mod uvalue h)).
Proof.
  intros Hg Hh Hpos. pose proof (uvalue_range g Hg) as Hr. pose proof (uvalue_range h Hh) as Hr'. unfold in_u in *.
  split; apply of_uvalue_ok; unfold in_u.
  - split; [apply Z.div_pos; lia|]. assert (uvalue g / uvalue h <= uvalue g) by (apply Z.div_le_upper_bound; nia). lia.
  - pose proof (Z.mod_pos_bound (uvalue g) (uvalue h)). lia.
Qed.

Lemma Uhugeint_laws `{Platform} : HasInt128 = true -> HugeOperationLaws uhugeint_t.
Proof.
  intros H128. refine {| hval := uvalue; hok := uhuge_ok; hmin := 0; hmax := 2 ^ 128 - 1 |};
    cbn [intermediate_t of_intermediate POWER_OF_TEN huge_equals huge_less huge_greater huge_greater_equal huge_add huge_multiply huge_divide huge_divmod
      huge_try_negate huge_try_multiply huge_try_add huge_try_subtract Uhugeint_operation].
  - limits. numbers. lia.
  - limits. unfold i64_max. numbers. lia.
  - intros h Hh. pose proof (uvalue_range h Hh) as Hr. unfold in_u in Hr. numbers. lia.
  - intros z Hz. apply uhugeint_of_ok. unfold in_u. limits. numbers. lia.
  - intros n Hn. rewrite upower_of_ten by done. rewrite uvalue_of. split; [by apply upower_ok|done].
  - intros h [Hu Hl]. unfold is_zero, uvalue. cbn [upper_word lower_word Uhugeint_operation]. apply eq_bool_prop_intro.
    rewrite !Is_true_true, andb_true_iff, !Z.eqb_eq. words.
  - intros. by apply uequals_value.
  - intros. by apply uless_value.
  - intros. by apply ugreater_value.
  - intros. by apply ugreater_equal_value.
  - intros g h Hg Hh Hr. rewrite uadd_wrapped by done. split; [apply uwrapped_ok|apply uvalue_uwrapped; unfold in_u; numbers; lia].
  - intros g h Hg Hh Hr. rewrite umultiply_unchecked_wrapped by done. split; [apply uwrapped_ok|apply uvalue_uwrapped; unfold in_u; numbers; lia].
  - intros g h Hg Hh Hpos. rewrite udivmod_exact by (done || lia). eexists. split; [done|]. cbn [fst].
    pose proof (uvalue_range g Hg) as Hr. unfold in_u in Hr. rewrite uvalue_of, Z.quot_div_nonneg by lia. split; [by apply uquot_ok|done].
  - intros g h Hg Hh Hpos. rewrite udivmod_exact by (done || lia). eexists _, _. split; [done|].
    pose proof (uvalue_range g Hg) as Hr. unfold in_u in Hr. rewrite !uvalue_of, Z.quot_div_nonneg, Z.rem_mod_nonneg by lia.
    destruct (uquot_ok g h Hg Hh Hpos). done.
  - intros h Hh Hneg. pose proof (uvalue_range h Hh) as Hr. unfold in_u in Hr. lia.
  - intros h n Hh Hn. rewrite upower_of_ten by done. rewrite umultiply_int128 by (done || by apply upower_ok). rewrite uvalue_of.
    pose proof (uvalue_range h Hh) as Hr. unfold in_u in Hr. assert (0 <= uvalue h * 10 ^ Z.of_nat n) by (apply Z.mul_nonneg_nonneg; [lia|apply Z.pow_nonneg; lia]).
    destruct (Z.ltb_spec (uvalue h * 10 ^ Z.of_nat n) (2 ^ 128)); [|apply returns_false; lia].
    apply returns_ret. rewrite uvalue_of. split; [apply of_uvalue_ok; unfold in_u; lia|done].
  - intros g h Hg Hh. rewrite utry_add_exact by done. unfold flagged. cbn [fst snd].
    pose proof (uvalue_range g Hg) as Hr. pose proof (uvalue_range h Hh) as Hr'. unfold in_u in *.
    destruct (Z.ltb_spec (uvalue g + uvalue h) (2 ^ 128)); [apply returns_ret|apply returns_false; lia].
    split; [apply uwrapped_ok|apply uvalue_uwrapped; unfold in_u; lia].
  - intros g h [?|Hone] Hg Hh; [lia|]. rewrite utry_subtract_flag by done. unfold flagged, subtracted. cbn [fst snd].
    pose proof (uvalue_range g Hg) as Hr. unfold in_u in Hr. assert (Hu : uupper h =? u64_max = false).
    { apply Z.eqb_neq. unfold uvalue in Hone. destruct Hh as [Hu Hl]. unfold u64_max. words. }
    rewrite Hu. cbn [andb]. rewrite orb_false_r. destruct (Z.leb_spec (uvalue h) (uvalue g)); [apply returns_ret|apply returns_false; lia].
    split; [apply uwrapped_ok|apply uvalue_uwrapped; unfold in_u; lia].
  - intros bits h d Hbits [Hu Hl] Hpos Hd. unfold shifted_words. cbn [upper_word lower_word of_words sign_bit Uhugeint_operation].
    assert (Hb : 0 < bits < 64) by lia. unfold uvalue.
    destruct (Z.eqb_spec (Z.shiftr (uupper h) (64 - bits)) 0) as [Hz|Hz]; cbn [negb].
    + destruct (shift_words bits (uupper h) (ulower h) d Hb) as (Hu' & Hl' & E); [done|done|done|done|]. rewrite <- E.
      apply returns_ret. cbn [uupper ulower]. split; [by split|done].
    + apply returns_false. apply top_bits in Hz; [|lia|words].
      assert (0 <= 2 ^ bits * ulower h) by (apply Z.mul_nonneg_nonneg; [apply Z.pow_nonneg; lia|words]). rewrite Z.mul_add_distr_l, Z.mul_assoc. numbers. lia.
Defined.

(** ** Casts *)

Section Casts.
Context `{Platform}.

Lemma hugeint_cast_exact buf strict z : Z.of_nat (length buf) < 2 ^ 64 -> integer_text true strict buf z ->
  TryHugeIntegerCast buf strict = Some (Ok (exact z)).
Proof.
  intros Hfits Htext. assert (Hword : integer_text (is_signed (intermediate_t (R := hugeint_t))) strict buf z) by exact Htext.
  destruct (huge_cast_exact buf strict z Hfits Hword) as ([r|] & -> & Hr).
  - destruct Hr as [Hok <-]. rewrite exact_some by (by apply value_range). by rewrite of_value_value.
  - rewrite exact_none; [done|]. cbn [hmin hmax Hugeint_laws] in Hr. lia.
Qed.

Lemma uhugeint_cast_exact buf strict z : HasInt128 = true -> Z.of_nat (length buf) < 2 ^ 64 -> integer_text false strict buf z ->
  TryHugeIntegerCast buf strict = Some (Ok (if (0 <=? z) && (z <? 2 ^ 128) then Some (of_uvalue z) else None)).
Proof.
  intros H128 Hfits Htext. pose (Uhugeint_laws H128) as HL.
  assert (Hword : integer_text (is_signed (intermediate_t (R := uhugeint_t))) strict buf z) by exact Htext.
  destruct (huge_cast_exact (HL := HL) buf strict z Hfits Hword) as ([r|] & -> & Hr); subst HL;
    cbn [hmin hmax hok hval Uhugeint_laws] in Hr; destruct (Z.leb_spec 0 z), (Z.ltb_spec z (2 ^ 128)); cbn [andb]; try done; try lia;
    destruct Hr as [Hok <-]; pose proof (uvalue_range r Hok) as Hrange; unfold in_u in Hrange; try lia. by rewrite of_uvalue_uvalue.
Qed.

Lemma uhugeint_minus_rejected lead rest strict : spaces lead -> only_zeros rest = false ->
  TryHugeIntegerCast (lead ++ code "-" :: rest) strict = (return_false : attempt uhugeint_t).
Proof. intros Hl Hz. unfold TryHugeIntegerCast. by rewrite cast_minus_rejected. Qed.
End Casts.
