(* ===== verification/IntegerFormat.v ===== *)
(** * Integers and decimals as text

    Models [NumericHelper] and [DecimalToString] of [common/types/cast_helpers.hpp] and
    [cast_helpers.cpp]. The length of a text is computed first and a buffer of that length is filled
    from its end: a text that does not fill the buffer exactly is undefined ([fill]). *)

From Stdlib Require Import Ascii.
From S2P Require Import Prelude DateText Hugeint IntegerOps IntegerCast.

Local Open Scope Z_scope.

(** [length += value >= power] *)
Definition at_least (value power : Z) : Z := Z.b2z (value >=? power).

(** ** The number of digits *)

Definition UnsignedLength8 (value : Z) : Z := 1 + at_least value 10 + at_least value 100.

Definition UnsignedLength16 (value : Z) : Z :=
  1 + at_least value 10 + at_least value 100 + at_least value 1000 + at_least value 10000.

Definition UnsignedLength32 (value : Z) : Z :=
  if value >=? 10000 then
    5 + at_least value 100000 + at_least value 1000000 + at_least value 10000000 + at_least value 100000000 + at_least value 1000000000
  else 1 + at_least value 10 + at_least value 100 + at_least value 1000.

Definition UnsignedLength64 (value : Z) : Z :=
  if value >=? 10000000000 then
    if value >=? 1000000000000000 then
      16 + at_least value 10000000000000000 + at_least value 100000000000000000 + at_least value 1000000000000000000 +
        at_least value 10000000000000000000
    else
      11 + at_least value 100000000000 + at_least value 1000000000000 + at_least value 10000000000000 + at_least value 100000000000000
  else if value >=? 100000 then
    6 + at_least value 1000000 + at_least value 10000000 + at_least value 100000000 + at_least value 1000000000
  else 1 + at_least value 10 + at_least value 100 + at_least value 1000 + at_least value 10000.

Definition MakeUnsigned (t : integer_type) : integer_type :=
  match t with INT8 | UINT8 => UINT8 | INT16 | UINT16 => UINT16 | INT32 | UINT32 => UINT32 | INT64 | UINT64 => UINT64 end.

Definition UnsignedLength (t : integer_type) (value : Z) : Z :=
  match MakeUnsigned t with
  | UINT8 => UnsignedLength8 value
  | UINT16 => UnsignedLength16 value
  | UINT32 => UnsignedLength32 value
  | _ => UnsignedLength64 value
  end.

(** The unsigned magnitude that [SignedLength] and [FormatSigned] compute from the sign, 0 or -1. *)
Definition unsigned_value (t : integer_type) (value : Z) : Z :=
  let sign := - Z.b2z (value <? 0) in
  let U := MakeUnsigned t in
  cast_to U (cast_to U (Z.lxor value sign) + cast_to U (Z.abs sign)).

Definition SignedLength (t : integer_type) (value : Z) : Z :=
  UnsignedLength t (unsigned_value t value) + Z.b2z (value <? 0).

(** ** Integers *)

(** The buffer of the length computed, filled with the text. *)
Definition fill (len : Z) (text : list Z) : checked (list Z) := if len =? Z.of_nat (length text) then mret text else None.

(** A 64-bit value has at most 20 digits, two a turn. *)
Definition number_turns : nat := 10.

Definition FormatSigned (t : integer_type) (value : Z) : checked (list Z) :=
  let digits := FormatUnsigned number_turns (unsigned_value t value) [] in
  fill (SignedLength t value) (if value <? 0 then code "-" :: digits else digits).

(** ** 128-bit integers *)

Section Huge.
Context `{Platform}.

Definition ten_to (n : nat) : hugeint_t := nth n POWERS_OF_TEN (hugeint_of 0).
Definition at_least_ten (value : hugeint_t) (n : nat) : Z := Z.b2z (HugeintGreaterThanEquals value (ten_to n)).

Definition UnsignedLengthHuge (value : hugeint_t) : Z :=
  if upper value =? 0 then UnsignedLength64 (lower value)
  else if HugeintGreaterThanEquals value (ten_to 27) then
    if HugeintGreaterThanEquals value (ten_to 32) then
      if HugeintGreaterThanEquals value (ten_to 36) then 37 + at_least_ten value 37 + at_least_ten value 38
      else 33 + at_least_ten value 33 + at_least_ten value 34 + at_least_ten value 35
    else if HugeintGreaterThanEquals value (ten_to 30) then 31 + at_least_ten value 31 + at_least_ten value 32
    else 28 + at_least_ten value 28 + at_least_ten value 29
  else if HugeintGreaterThanEquals value (ten_to 22) then
    if HugeintGreaterThanEquals value (ten_to 25) then 26 + at_least_ten value 26
    else 23 + at_least_ten value 23 + at_least_ten value 24
  else if HugeintGreaterThanEquals value (ten_to 20) then 21 + at_least_ten value 21
  else 18 + at_least_ten value 18 + at_least_ten value 19.

(** [for (int i = format_length; i < 17; i++)] and [while (dst > (end - scale))]: zeros in front of [digits], up to [n] characters. *)
Definition pad_zeros (n : nat) (digits : list Z) : list Z := replicate (n - length digits) (code "0") ++ digits.

(** Groups of 17 digits while the value has an upper word; 127 bits are at most two groups and a rest. *)
Fixpoint huge_groups (fuel : nat) (value : hugeint_t) (tail : list Z) : checked (list Z) :=
  if upper value >? 0 then
    match fuel with
    | O => None
    | S fuel' =>
        '(value, remainder) ← DivModPositive value 100000000000000000;
        huge_groups fuel' value (pad_zeros 17 (FormatUnsigned number_turns remainder []) ++ tail)
    end
  else mret (FormatUnsigned number_turns (lower value) tail).

Definition FormatUnsignedHuge (value : hugeint_t) : checked (list Z) := huge_groups 2 value [].

Definition FormatSignedHuge (value : hugeint_t) : checked (list Z) :=
  let negative := upper value <? 0 in
  if negative && HugeintEquals value HugeintMinimum then mret (codes HUGEINT_MINIMUM_STRING)
  else
    value ← (if negative then NegateInPlaceUnchecked value else mret value);
    digits ← (if upper value =? 0 then mret (FormatUnsigned number_turns (lower value) []) else FormatUnsignedHuge value);
    fill (UnsignedLengthHuge value + Z.b2z negative) (if negative then code "-" :: digits else digits).

End Huge.

(** ** Decimals *)

(** [NumericHelper::POWERS_OF_TEN], with 19 entries *)
Definition NumericPower (n : nat) : checked Z := if (n <? 19)%nat then mret (10 ^ Z.of_nat n) else None.

Definition DecimalLength (t : integer_type) (value : Z) (width scale : nat) : Z :=
  if (scale =? 0)%nat then SignedLength t value
  else
    let extra_characters := if (scale <? width)%nat then 2 else 1 in
    Z.max (Z.of_nat scale + extra_characters + (if value <? 0 then 1 else 0)) (SignedLength t value + 1).

(** The digits before and behind the point. *)
Definition point_text (width scale : nat) (major : list Z) (minor : list Z) : list Z :=
  (if (scale <? width)%nat then major else []) ++ code "." :: pad_zeros scale minor.

Definition FormatDecimal (t : integer_type) (value : Z) (width scale : nat) : checked (list Z) :=
  let U := MakeUnsigned t in
  let negative := value <? 0 in
  let value := if negative then cast_to t (- value) else value in
  body ← (
    if (scale =? 0)%nat then mret (FormatUnsigned number_turns (cast_to U value) [])
    else
      power ← NumericPower scale;
      let minor := Z.rem (cast_to U value) (cast_to U power) in
      let major := Z.quot (cast_to U value) (cast_to U power) in
      mret (point_text width scale (FormatUnsigned number_turns major []) (FormatUnsigned number_turns minor [])));
  mret (if negative then code "-" :: body else body).

Definition DecimalFormat (t : integer_type) (value : Z) (width scale : nat) : checked (list Z) :=
  text ← FormatDecimal t value width scale;
  fill (DecimalLength t value width scale) text.

Section HugeDecimal.
Context `{Platform}.

Definition DecimalLengthHuge (value : hugeint_t) (width scale : nat) : checked Z :=
  let negative := upper value <? 0 in
  value ← (if negative then NegateInPlaceUnchecked value else mret value);
  if (scale =? 0)%nat then mret (UnsignedLengthHuge value + Z.b2z negative)
  else
    let extra_numbers := if (scale <? width)%nat then 2 else 1 in
    mret (Z.max (Z.of_nat scale + extra_numbers) (UnsignedLengthHuge value + 1) + Z.b2z negative).

Definition FormatDecimalHuge (value : hugeint_t) (width scale : nat) : checked (list Z) :=
  let negative := upper value <? 0 in
  value ← (if negative then NegateInPlaceUnchecked value else mret value);
  body ← (
    if (scale =? 0)%nat then FormatUnsignedHuge value
    else
      '(major, minor) ← DivMod value (ten_to scale);
      minor_digits ← FormatUnsignedHuge minor;
      major_digits ← (if (scale <? width)%nat then FormatUnsignedHuge major else mret []);
      mret (point_text width scale major_digits minor_digits));
  mret (if negative then code "-" :: body else body).

Definition DecimalFormatHuge (value : hugeint_t) (width scale : nat) : checked (list Z) :=
  len ← DecimalLengthHuge value width scale;
  text ← FormatDecimalHuge value width scale;
  fill len text.
End HugeDecimal.
