(* ===== verification/IntegerFormatFacts.v ===== *)
(** * Integers as text: the digits, their number, and reading them back *)

From Stdlib Require Import Ascii.
From S2P Require Import Prelude DateText DateTextFacts Hugeint HugeintFacts HugeintDivisionFacts UhugeintFacts IntegerOps IntegerOpsFacts IntegerCast.
From S2P Require Import IntegerCastFacts IntegerTextFacts NumberText IntegerFormat.

Local Open Scope Z_scope.

(** ** The number of digits *)

(** [v] is written with [n] digits. *)
Definition has_digits (v n : Z) : Prop := 1 <= n /\ v < 10 ^ n /\ (n = 1 \/ 10 ^ (n - 1) <= v).

Lemma has_digits_unique v m n : has_digits v m -> has_digits v n -> m = n.
Proof.
  assert (Hle : forall m n, has_digits v m -> has_digits v n -> ~ m < n).
  { intros a b (Ha & Hlt & _) (Hb & _ & [->|Hge]) Hab; [lia|]. assert (10 ^ a <= 10 ^ (b - 1)) by (apply Z.pow_le_mono_r; lia). lia. }
  intros Hm Hn. pose proof (Hle _ _ Hm Hn). pose proof (Hle _ _ Hn Hm). lia.
Qed.

Lemma at_least_spec v p : (p <= v /\ at_least v p = 1) \/ (v < p /\ at_least v p = 0).
Proof. unfold at_least. rewrite Z.geb_leb. destruct (Z.leb_spec p v); [left|right]; done. Qed.

(** Compares the value with every power the code looks at. *)
Ltac count_digits v :=
  rewrite ?Z.geb_leb; repeat match goal with |- context [?p <=? v] => destruct (Z.leb_spec p v) end;
  repeat match goal with |- context [at_least v ?p] => destruct (at_least_spec v p) as [[? ->]|[? ->]]; try lia end;
  unfold has_digits; match goal with |- context [10 ^ ?n] => let m := eval vm_compute in (10 ^ n) in change (10 ^ n) with m end;
  match goal with |- context [10 ^ (?n - 1)] => let m := eval vm_compute in (10 ^ (n - 1)) in change (10 ^ (n - 1)) with m end; lia.

Lemma unsigned_length64 v : 0 <= v < 2 ^ 64 -> has_digits v (UnsignedLength64 v).
Proof. intros Hv. unfold UnsignedLength64. numbers. count_digits v. Qed.

Lemma unsigned_length32 v : 0 <= v < 2 ^ 32 -> has_digits v (UnsignedLength32 v).
Proof. intros Hv. unfold UnsignedLength32. numbers. count_digits v. Qed.

Lemma unsigned_length16 v : 0 <= v < 2 ^ 16 -> has_digits v (UnsignedLength16 v).
Proof. intros Hv. unfold UnsignedLength16. numbers. count_digits v. Qed.

Lemma unsigned_length8 v : 0 <= v < 2 ^ 8 -> has_digits v (UnsignedLength8 v).
Proof. intros Hv. unfold UnsignedLength8. numbers. count_digits v. Qed.

Lemma unsigned_length t v : of_type (MakeUnsigned t) v -> has_digits v (UnsignedLength t v).
Proof.
  intros Hv. unfold UnsignedLength. destruct t; cbn [MakeUnsigned] in *; limits;
    first [apply unsigned_length8|apply unsigned_length16|apply unsigned_length32|apply unsigned_length64]; numbers; lia.
Qed.

(** ** Digits *)

(** The digits of a value, without leading zeros. *)
Record decimal_digits (v : Z) (ds : list Z) : Prop := {
  all_digits : Forall is_digit ds;
  digits_denote : digits_value 0 ds = v;
  digits_minimal : has_digits v (Z.of_nat (length ds))
}.

Lemma digits_written v : 0 <= v < 2 ^ 64 -> forall tail,
  exists ds, FormatUnsigned number_turns v tail = ds ++ tail /\ decimal_digits v ds.
Proof.
  intros Hv tail. destruct (format_unsigned number_turns v tail) as (ds & E & Hds & Hval & Hlen & Hmin); [change (Z.of_nat number_turns) with 10; numbers; lia|unfold number_turns; lia|].
  exists ds. split; [done|]. split; [done|done|]. pose proof (digits_value_below ds Hds) as Hb. rewrite Hval in Hb. split_and!; [lia|lia|].
  destruct (Z.eq_dec (Z.of_nat (length ds)) 1); [by left|right]. destruct (Z.le_gt_cases (10 ^ (Z.of_nat (length ds) - 1)) v); [done|].
  specialize (Hmin (Z.of_nat (length ds) - 1) ltac:(lia) ltac:(lia)). lia.
Qed.

(** Only zero starts with a zero. *)
Lemma no_leading_zero v ds : decimal_digits v ds -> head ds = Some (code "0") -> length ds = 1%nat.
Proof.
  intros [Hds Hval Hcount] Hhead. destruct ds as [|c ds]; [done|]. injection Hhead as ->. apply Forall_cons in Hds as [_ Hds].
  change (digits_value 0 (code "0" :: ds)) with (digits_value 0 ds) in Hval. pose proof (digits_value_below ds Hds) as Hb. rewrite Hval in Hb.
  destruct Hcount as (_ & _ & [Hone|Hge]); [lia|]. cbn [length] in Hge. rewrite Nat2Z.inj_succ in Hge.
  replace (Z.succ (Z.of_nat (length ds)) - 1) with (Z.of_nat (length ds)) in Hge by lia. lia.
Qed.

Lemma plain_group strict ds : Forall is_digit ds -> ds <> [] -> grouped CharacterIsDigit strict ds ds.
Proof.
  induction 1 as [|c ds Hc Hds IH]; intros Hne; [done|]. apply digit_true in Hc.
  destruct ds as [|d ds]; [by apply grouped_one|]. apply grouped_digit; [done|]. by apply IH.
Qed.

(** A sign and the digits of the absolute value are a text of the integer. *)
Lemma digits_integer_text (IS_SIGNED strict : bool) z ds : decimal_digits (Z.abs z) ds -> (z < 0 -> IS_SIGNED = true) ->
  integer_text IS_SIGNED strict (if z <? 0 then code "-" :: ds else ds) z.
Proof.
  intros Hdigits Hsign. pose proof Hdigits as [Hds Hval (Hlen & _)]. assert (Hne : ds <> []) by (intros ->; cbn in Hlen; lia).
  destruct (Z.ltb_spec z 0).
  - assert (E : code "-" :: ds = [] ++ [code "-"] ++ ds ++ []) by (by rewrite app_nil_r). rewrite E.
    replace z with (- digits_value 0 ds) by lia. apply text_minus; [by apply Hsign|by constructor|by apply plain_group|by constructor].
  - replace z with (digits_value 0 ds) by lia. assert (E : ds = [] ++ ds ++ []) by (by rewrite app_nil_r). rewrite E at 1.
    apply text_digits; [by constructor|by apply plain_group|by constructor|]. intros _. by apply (no_leading_zero (Z.abs z)).
Qed.

(** ** Signed integers *)

Lemma unsigned_value_abs t z : of_type t z -> unsigned_value t z = Z.abs z /\ of_type (MakeUnsigned t) (Z.abs z).
Proof.
  intros Hz. unfold unsigned_value. assert (Hr : of_type (MakeUnsigned t) (Z.abs z)) by (destruct t; cbn [MakeUnsigned] in *; limits; numbers; lia).
  split; [|done]. destruct (Z.ltb_spec z 0).
  - change (- Z.b2z true) with (-1). rewrite Z.lxor_m1_r. change (Z.abs (-1)) with 1.
    assert (Hone : of_type (MakeUnsigned t) (Z.lnot z)) by (unfold Z.lnot in *; destruct t; cbn [MakeUnsigned] in *; limits; numbers; lia).
    rewrite (cast_to_range _ (Z.lnot z)) by done. rewrite (cast_to_range _ 1) by (pose proof (type_digits (MakeUnsigned t)); destruct t; cbn [MakeUnsigned] in *; limits; numbers; lia).
    unfold Z.lnot in *. replace (Z.pred (- z) + 1) with (Z.abs z) by lia. by apply cast_to_range.
  - change (- Z.b2z false) with 0. rewrite Z.lxor_0_r. change (Z.abs 0) with 0. rewrite Z.abs_eq in * by lia.
    rewrite (cast_to_range _ z), (cast_to_range _ 0) by (done || destruct t; by vm_compute). rewrite Z.add_0_r. by apply cast_to_range.
Qed.

Lemma unsigned_word t z : of_type (MakeUnsigned t) z -> 0 <= z < 2 ^ 64.
Proof. destruct t; cbn [MakeUnsigned]; limits; numbers; lia. Qed.

Lemma fill_exact len text : len = Z.of_nat (length text) -> fill len text = mret text.
Proof. intros ->. unfold fill. by rewrite Z.eqb_refl. Qed.

Lemma signed_length t z : of_type t z -> exists n, has_digits (Z.abs z) n /\ SignedLength t z = n + Z.b2z (z <? 0).
Proof.
  intros Hz. unfold SignedLength. destruct (unsigned_value_abs t z Hz) as [-> Hu]. eexists. split; [by apply unsigned_length|done].
Qed.

Lemma format_signed t z : of_type t z ->
  exists ds, FormatSigned t z = mret (if z <? 0 then code "-" :: ds else ds) /\ decimal_digits (Z.abs z) ds.
Proof.
  intros Hz. unfold FormatSigned. destruct (signed_length t z Hz) as (n & Hn & ->). destruct (unsigned_value_abs t z Hz) as [-> Hu].
  destruct (digits_written (Z.abs z) (unsigned_word t _ Hu) []) as (ds & -> & Hds). rewrite app_nil_r. exists ds. split; [|done].
  apply fill_exact. rewrite (has_digits_unique _ _ _ Hn (digits_minimal _ _ Hds)). destruct (z <? 0); cbn [length Z.b2z]; lia.
Qed.

(** ** Groups of digits *)

Lemma pad_length n ds : (length ds <= n)%nat -> length (pad_zeros n ds) = n.
Proof. intros Hn. unfold pad_zeros. rewrite length_app, length_replicate. lia. Qed.

Lemma pad_digits n ds : Forall is_digit ds -> Forall is_digit (pad_zeros n ds) /\ digits_value 0 (pad_zeros n ds) = digits_value 0 ds.
Proof.
  intros Hds. unfold pad_zeros. split.
  - apply Forall_app. split; [|done]. by apply Forall_replicate.
  - rewrite digits_value_app. f_equal. induction (n - length ds)%nat as [|k IH]; [done|exact IH].
Qed.

(** A value below [10 ^ n], padded to [n] digits. *)
Lemma padded v n : 0 <= v < 2 ^ 64 -> v < 10 ^ Z.of_nat n -> (0 < n)%nat -> let ds := pad_zeros n (FormatUnsigned number_turns v []) in
  Forall is_digit ds /\ digits_value 0 ds = v /\ length ds = n.
Proof.
  intros Hv Hlt Hn ds. subst ds. destruct (digits_written v Hv []) as (ds & -> & [Hds Hval (_ & _ & Hmin)]). rewrite app_nil_r.
  destruct (pad_digits n ds Hds) as [Hpad Hpv]. split_and!; [done|by rewrite Hpv|]. apply pad_length.
  destruct (Nat.le_gt_cases (length ds) n) as [|Hgt]; [done|]. destruct Hmin as [?|Hge]; [lia|].
  assert (10 ^ Z.of_nat n <= 10 ^ (Z.of_nat (length ds) - 1)) by (apply Z.pow_le_mono_r; lia). lia.
Qed.

Lemma decimal_digits_group a b ds bs n : decimal_digits a ds -> 0 < a -> Forall is_digit bs -> digits_value 0 bs = b -> length bs = n ->
  decimal_digits (a * 10 ^ Z.of_nat n + b) (ds ++ bs).
Proof.
  intros [Hds Hval (Hlen & Hlt & Hge)] Ha Hbs Hb Hn. pose proof (digits_value_below bs Hbs) as Hbelow. rewrite Hb, Hn in Hbelow. split.
  - by apply Forall_app.
  - by rewrite digits_value_app, Hval, digits_value_from, Hb, Hn.
  - rewrite length_app, Hn, Nat2Z.inj_add. assert (0 < 10 ^ Z.of_nat n) by lia. split_and!; [lia|rewrite Z.pow_add_r by lia; nia|right].
    replace (Z.of_nat (length ds) + Z.of_nat n - 1) with (Z.of_nat (length ds) - 1 + Z.of_nat n) by lia. rewrite Z.pow_add_r by lia.
    destruct Hge as [->|Hge]; [change (10 ^ (1 - 1)) with 1; nia|nia].
Qed.

Section Huge.
Context `{Platform}.

Lemma small_huge h : huge_ok h -> 0 <= value h -> (upper h = 0 <-> value h < 2 ^ 64) /\ 0 <= upper h /\ (upper h = 0 -> lower h = value h).
Proof. intros [Hu Hl] Hpos. unfold value in *. split_and!; words. Qed.

Lemma group_bounds v n : 2 ^ 64 <= v < 2 ^ 64 * 10 ^ (17 * Z.succ n) -> 0 <= n ->
  0 < v / 10 ^ 17 < 2 ^ 64 * 10 ^ (17 * n) /\ v = v / 10 ^ 17 * 10 ^ 17 + v mod 10 ^ 17 /\ 0 <= v mod 10 ^ 17 < 10 ^ 17.
Proof.
  intros [Hlow Hv] Hn. replace (17 * Z.succ n) with (17 + 17 * n) in Hv by lia. rewrite Z.pow_add_r in Hv by lia.
  assert (Hten : 0 < 10 ^ 17 < 2 ^ 64) by done. revert Hv Hten. generalize (10 ^ (17 * n)), (10 ^ 17). intros b p Hv Hp. split_and!.
  - apply Z.div_str_pos. lia.
  - apply Z.div_lt_upper_bound; [lia|]. replace (p * (2 ^ 64 * b)) with (2 ^ 64 * (p * b)) by ring. done.
  - rewrite Z.mul_comm. apply Z.div_mod. lia.
  - apply Z.mod_pos_bound. lia.
  - apply Z.mod_pos_bound. lia.
Qed.

Lemma huge_groups_digits fuel h tail : huge_ok h -> 0 <= value h -> value h < 2 ^ 64 * 10 ^ (17 * Z.of_nat fuel) ->
  exists ds, huge_groups fuel h tail = mret (ds ++ tail) /\ decimal_digits (value h) ds.
Proof.
  revert h tail. induction fuel as [|fuel IH]; intros h tail Hh Hpos Hv; destruct (small_huge h Hh Hpos) as (Hsmall & Hupper & Hlow);
    cbn [huge_groups]; rewrite Z.gtb_ltb.
  all: destruct (Z.ltb_spec 0 (upper h)) as [Hbig|Hle].
  2, 4: assert (Hzero : upper h = 0) by (clear - Hupper Hle; lia); rewrite Hlow by done;
    destruct (digits_written (value h) (conj Hpos (proj1 Hsmall Hzero)) tail) as (ds & -> & Hds); by exists ds.
  - exfalso. change (2 ^ 64 * 10 ^ (17 * Z.of_nat 0)) with (2 ^ 64) in Hv. apply Hsmall in Hv. lia.
  - assert (Hbelow : 2 ^ 64 <= value h) by (apply Z.nlt_ge; intros Hlt; apply Hsmall in Hlt; clear - Hbig Hlt; lia).
    rewrite Nat2Z.inj_succ in Hv. destruct (group_bounds (value h) (Z.of_nat fuel)) as (Hdiv & Edm & Hmod); [by split|clear; lia|].
    change 100000000000000000 with (10 ^ 17). rewrite (divmod_positive_exact h (10 ^ 17) Hh Hpos) by (split; by vm_compute). cbn [mbind checked_bind mret checked_ret].
    assert (Hok : huge_ok (of_value (value h / 10 ^ 17))).
    { apply of_value_ok. pose proof (value_range h Hh) as Hr. unfold in_s in *. assert (Hq : value h / 10 ^ 17 <= value h) by (apply Z.div_le_upper_bound; [done|clear - Hpos; lia]).
      clear - Hr Hdiv Hq. lia. }
    destruct (padded (value h mod 10 ^ 17) 17) as (Hp1 & Hp2 & Hp3); [split; [apply Hmod|apply (Z.lt_trans _ (10 ^ 17)); [apply Hmod|done]]|apply Hmod|clear; lia|].
    destruct (IH (of_value (value h / 10 ^ 17)) (pad_zeros 17 (FormatUnsigned number_turns (value h mod 10 ^ 17) []) ++ tail)) as (ds & -> & Hds);
      rewrite ?value_of_value in *; [done|apply Z.lt_le_incl, Hdiv|apply Hdiv|].
    eexists. split; [by rewrite (assoc_L (++))|]. rewrite Edm at 1.
    change (10 ^ 17) with (10 ^ Z.of_nat 17). apply decimal_digits_group; [exact Hds|apply Hdiv|exact Hp1|exact Hp2|exact Hp3].
Qed.

Lemma format_unsigned_huge h : huge_ok h -> 0 <= value h -> exists ds, FormatUnsignedHuge h = mret ds /\ decimal_digits (value h) ds.
Proof.
  intros Hh Hpos. destruct (huge_groups_digits 2 h [] Hh Hpos) as (ds & E & Hds).
  - pose proof (value_range h Hh) as Hr. unfold in_s in Hr. change (17 * Z.of_nat 2) with 34. numbers. lia.
  - exists ds. by rewrite app_nil_r in E.
Qed.

Lemma at_least_ten_spec h n : huge_ok h -> (n <= 38)%nat -> at_least_ten h n = at_least (value h) (10 ^ Z.of_nat n).
Proof.
  intros Hh Hn. unfold at_least_ten, ten_to, at_least. rewrite power_of_ten by done. rewrite greater_equal_value, value_of_value, Z.geb_leb; [done|done|].
  apply of_value_ok. assert (10 ^ Z.of_nat n <= 10 ^ 38) by (apply Z.pow_le_mono_r; lia). pose proof (Z.pow_pos_nonneg 10 (Z.of_nat n)).
  assert (10 ^ 38 < 2 ^ 127) by done. unfold in_s. change (128 - 1) with 127. lia.
Qed.

Lemma reaches_ten h n : huge_ok h -> (n <= 38)%nat -> HugeintGreaterThanEquals h (ten_to n) = (10 ^ Z.of_nat n <=? value h).
Proof.
  intros Hh Hn. pose proof (at_least_ten_spec h n Hh Hn) as E. unfold at_least_ten, at_least in E. rewrite Z.geb_leb in E.
  by destruct (HugeintGreaterThanEquals _ _), (_ <=? _).
Qed.

(** The powers as numbers. *)
Ltac powers := repeat match goal with |- context [10 ^ Z.of_nat ?n] => let m := eval vm_compute in (10 ^ Z.of_nat n) in change (10 ^ Z.of_nat n) with m end.

Lemma unsigned_length_huge h : huge_ok h -> 0 <= value h -> has_digits (value h) (UnsignedLengthHuge h).
Proof.
  intros Hh Hpos. destruct (small_huge h Hh Hpos) as (Hsmall & Hupper & Hlow). unfold UnsignedLengthHuge. destruct (Z.eqb_spec (upper h) 0) as [Hz|Hz].
  - rewrite Hlow by done. apply unsigned_length64. split; [done|by apply Hsmall].
  - assert (Hrange : 2 ^ 64 <= value h < 2 ^ 127).
    { split; [destruct (Z.le_gt_cases (2 ^ 64) (value h)); [done|exfalso; apply Hz, Hsmall; lia]|]. pose proof (value_range h Hh) as Hr. unfold in_s in Hr. numbers. lia. }
    numbers. rewrite !at_least_ten_spec, !reaches_ten by (done || lia). powers. revert Hrange. generalize (value h). clear. intros v Hv. count_digits v.
Qed.

Lemma minimum_digits : decimal_digits (Z.abs (- 2 ^ 127)) (tl (codes HUGEINT_MINIMUM_STRING)).
Proof.
  assert (E : forallb CharacterIsDigit (tl (codes HUGEINT_MINIMUM_STRING)) = true) by (vm_compute; reflexivity). split.
  - apply Forall_forall. intros c Hc. apply digit_range. eapply forallb_forall; [exact E|by apply list_elem_of_In].
  - by vm_compute.
  - assert (Z.of_nat (length (tl (codes HUGEINT_MINIMUM_STRING))) = 39) as -> by (vm_compute; reflexivity). split; [done|].
    split; [by vm_compute|right; by vm_compute].
Qed.

Lemma format_signed_huge h : huge_ok h ->
  exists ds, FormatSignedHuge h = mret (if value h <? 0 then code "-" :: ds else ds) /\ decimal_digits (Z.abs (value h)) ds.
Proof.
  intros Hh. unfold FormatSignedHuge. rewrite equals_minimum by done.
  assert (Hsign : (upper h <? 0) = (value h <? 0)) by (destruct Hh; unfold value; apply eq_bool_prop_intro; rewrite !Is_true_true, !Z.ltb_lt; words). rewrite Hsign.
  destruct (Z.eqb_spec (value h) (- 2 ^ 127)) as [Emin|Hmin].
  - rewrite Emin. exists (tl (codes HUGEINT_MINIMUM_STRING)). split; [done|]. apply minimum_digits.
  - rewrite andb_false_r. pose proof (value_range h Hh) as Hr. unfold in_s in Hr. change (128 - 1) with 127 in Hr.
    assert (Habs : (if value h <? 0 then NegateInPlaceUnchecked h else mret h) = mret (of_value (Z.abs (value h)))).
    { destruct (Z.ltb_spec (value h) 0); [rewrite negate_in_place by done; by rewrite Z.abs_neq by lia|by rewrite Z.abs_eq, of_value_value by (done || lia)]. }
    rewrite Habs. cbn [mbind checked_bind mret checked_ret]. set (a := of_value (Z.abs (value h))).
    assert (Ha : huge_ok a /\ value a = Z.abs (value h)) by (subst a; rewrite value_of_value; split; [apply of_value_ok; unfold in_s; lia|done]).
    destruct Ha as [Hok Hva]. destruct (small_huge a Hok ltac:(lia)) as (Hsmall & _ & Hlow).
    assert (Hdigits : exists ds, (if upper a =? 0 then mret (FormatUnsigned number_turns (lower a) []) else FormatUnsignedHuge a) = mret ds /\ decimal_digits (value a) ds).
    { destruct (Z.eqb_spec (upper a) 0) as [Hz|_]; [|apply format_unsigned_huge; [done|lia]]. rewrite Hlow by done.
      destruct (digits_written (value a)) with (tail := @nil Z) as (ds & -> & Hds); [split; [lia|by apply Hsmall]|]. rewrite app_nil_r. by exists ds. }
    destruct Hdigits as (ds & -> & Hds). cbn [mbind checked_bind mret checked_ret]. exists ds. rewrite <- Hva. split; [|done].
    apply fill_exact. pose proof (unsigned_length_huge a Hok ltac:(lia)) as Hcount. rewrite (has_digits_unique _ _ _ Hcount (digits_minimal _ _ Hds)).
    destruct (value h <? 0); cbn [length Z.b2z]; lia.
Qed.
End Huge.
