(* ===== verification/DecimalCast.v ===== *)
(** * Decimals from text

    Models [DecimalCastData], [DecimalCastOperation] and [TryDecimalStringCast] of
    [common/operator/decimal_cast_operators.hpp]. The class [DecimalStore] is what the code uses of the
    type a decimal is stored in: an integer of 16, 32 or 64 bits ([stored]), or [hugeint_t]. The fields
    of the state that are set once are parameters: [width], [scale] and [limit]. *)

From Stdlib Require Import Ascii.
From S2P Require Import Prelude DateText Hugeint IntegerOps IntegerCast IntegerFormat.

Local Open Scope Z_scope.

(** ** The stores *)

Class DecimalStore (R : Type) := {
  (** an [int] as the store's type *)
  of_int : Z -> R;
  (** [DecimalWidth::max], and [DecimalCastLimits] *)
  max_width : nat;
  MaximumDiv10 : R;
  MinimumDiv10 : R;
  (** [POWERS_OF_TEN[width]], converted *)
  store_power : nat -> checked R;
  store_equal : R -> R -> bool;
  store_less : R -> R -> bool;
  store_less_equal : R -> R -> bool;
  (** [result * 10 + digit] and [result * 10 - digit] *)
  store_append : bool -> R -> Z -> checked R;
  (** [*= 10], [/= 10] and [% 10] *)
  times_ten : R -> checked R;
  divided_by_ten : R -> checked R;
  modulo_ten : R -> checked R;
  (** [-= 1] and [+= 1] *)
  away_from_zero : bool -> R -> checked R;
  store_negate : R -> checked R
}.

Record stored (t : integer_type) := Stored { stored_value : Z }.
Arguments Stored {t} _.
Arguments stored_value {t} _.

(** The result of an expression of the promoted type, assigned to the store. *)
Definition assigned {t : integer_type} (m : checked Z) : checked (stored t) := z ← m; mret (Stored (cast_to t z)).

#[export] Instance Decimal_store (d : decimal_type) : DecimalStore (stored (stored_in d)) :=
  let t := stored_in d in {|
  of_int := Stored;
  max_width := match d with DECIMAL4 => 4 | DECIMAL9 => 9 | DECIMAL18 => 18 end;
  MaximumDiv10 := Stored (Z.quot (Maximum t) 10);
  MinimumDiv10 := Stored (Z.quot (Minimum t) 10);
  store_power := fun n => assigned (NumericPower n);
  store_equal := fun g h => stored_value g =? stored_value h;
  store_less := fun g h => stored_value g <? stored_value h;
  store_less_equal := fun g h => stored_value g <=? stored_value h;
  store_append := fun NEGATIVE r digit => assigned (
    tens ← arith t (stored_value r * 10); arith t (if NEGATIVE : bool then tens - digit else tens + digit));
  times_ten := fun r => assigned (arith t (stored_value r * 10));
  divided_by_ten := fun r => assigned (arith t (Z.quot (stored_value r) 10));
  modulo_ten := fun r => assigned (arith t (Z.rem (stored_value r) 10));
  away_from_zero := fun NEGATIVE r => assigned (arith t (if NEGATIVE : bool then stored_value r - 1 else stored_value r + 1));
  store_negate := fun r => assigned (arith t (- stored_value r))
|}.

#[export] Instance Hugeint_store `{Platform} : DecimalStore hugeint_t :=
  let ten := hugeint_of 10 in {|
  of_int := hugeint_of;
  max_width := 38;
  MaximumDiv10 := match HugeintDivMod HugeintMaximum ten with Some (Ok r) => quotient r | _ => hugeint_of 0 end;
  MinimumDiv10 := match HugeintDivMod HugeintMinimum ten with Some (Ok r) => quotient r | _ => hugeint_of 0 end;
  store_power := fun n => if (n <? 39)%nat then mret (ten_to n) else None;
  store_equal := HugeintEquals;
  store_less := HugeintLessThan;
  store_less_equal := HugeintLessThanEquals;
  store_append := fun NEGATIVE r digit =>
    let tens := HugeintMultiplyUnchecked r ten in
    mret (if NEGATIVE : bool then hugeint_sub tens (hugeint_of digit) else hugeint_add tens (hugeint_of digit));
  times_ten := fun r => mret (HugeintMultiplyUnchecked r ten);
  divided_by_ten := fun r => r ← HugeintDivMod r ten; mret (quotient r);
  modulo_ten := fun r => r ← HugeintDivMod r ten; mret (remainder r);
  away_from_zero := fun NEGATIVE r => mret (if NEGATIVE : bool then hugeint_sub r (hugeint_of 1) else hugeint_add r (hugeint_of 1));
  store_negate := fun r => mret (HugeintNegate r)
|}.

(** ** The state *)

Inductive ExponentType := EXPONENT_NONE | EXPONENT_POSITIVE | EXPONENT_NEGATIVE.

#[export] Instance ExponentType_eq_dec : EqDecision ExponentType.
Proof. solve_decision. Defined.

Record DecimalCastData (R : Type) (width scale : nat) (limit : R) := mkDecimalCast {
  dc_result : R;
  digit_count : Z;
  decimal_count : Z;
  round_set : bool;
  should_round : bool;
  excessive_decimals : Z;
  exponent_type : ExponentType
}.
Arguments mkDecimalCast {R width scale limit} _ _ _ _ _ _ _.
Arguments dc_result {R width scale limit} _.
Arguments digit_count {R width scale limit} _.
Arguments decimal_count {R width scale limit} _.
Arguments round_set {R width scale limit} _.
Arguments should_round {R width scale limit} _.
Arguments excessive_decimals {R width scale limit} _.
Arguments exponent_type {R width scale limit} _.

Section Operations.
Context {R : Type} `{DecimalStore R} (width scale : nat) (limit : R).
Abbreviation data := (DecimalCastData R width scale limit).
Implicit Types state : data.
Abbreviation SCALE := (Z.of_nat scale).

Definition set_dc_result state (r : R) : data :=
  mkDecimalCast r (digit_count state) (decimal_count state) (round_set state) (should_round state) (excessive_decimals state) (exponent_type state).
Definition set_digit_count state (n : Z) : data :=
  mkDecimalCast (dc_result state) n (decimal_count state) (round_set state) (should_round state) (excessive_decimals state) (exponent_type state).
Definition set_decimal_count state (n : Z) : data :=
  mkDecimalCast (dc_result state) (digit_count state) n (round_set state) (should_round state) (excessive_decimals state) (exponent_type state).
Definition set_excessive state (n : Z) : data :=
  mkDecimalCast (dc_result state) (digit_count state) (decimal_count state) (round_set state) (should_round state) n (exponent_type state).
Definition set_exponent_type state (e : ExponentType) : data :=
  mkDecimalCast (dc_result state) (digit_count state) (decimal_count state) (round_set state) (should_round state) (excessive_decimals state) e.
Definition set_round state (digit : Z) : data :=
  mkDecimalCast (dc_result state) (digit_count state) (decimal_count state) true (5 <=? digit) (excessive_decimals state) (exponent_type state).

(** The fields are [uint8_t]. *)
Definition u8 (z : Z) : Z := wrapu 8 z.

Definition HandleDecimalCastDigit (NEGATIVE : bool) state (digit : Z) : attempt data :=
  if store_equal (dc_result state) (of_int 0) && (digit =? 0) then mret state
  else if digit_count state =? Z.of_nat width - SCALE then return_false
  else
    let state := set_digit_count state (u8 (digit_count state + 1)) in
    if if NEGATIVE then store_less (dc_result state) MinimumDiv10 else store_less MaximumDiv10 (dc_result state) then return_false
    else r ← run (store_append NEGATIVE (dc_result state) digit); mret (set_dc_result state r).

Definition RoundUpResult (NEGATIVE : bool) state : checked data := r ← away_from_zero NEGATIVE (dc_result state); mret (set_dc_result state r).

Definition rounds_away (NEGATIVE : bool) (mod_ten : R) : bool :=
  if NEGATIVE then store_less_equal mod_ten (of_int (-5)) else store_less_equal (of_int 5) mod_ten.

(** [for (i = 0; i < state.excessive_decimals; i++)]: the digits behind are dropped, the last of them decides. *)
Fixpoint drop_decimals (NEGATIVE : bool) (turns : nat) (r : R) (round_up : bool) : checked (R * bool) :=
  match turns with
  | O => mret (r, round_up)
  | S turns' => m ← modulo_ten r; r ← divided_by_ten r; drop_decimals NEGATIVE turns' r (rounds_away NEGATIVE m)
  end.

Definition TruncateExcessiveDecimals (NEGATIVE : bool) state : checked data :=
  '(r, round_up) ← drop_decimals NEGATIVE (Z.to_nat (excessive_decimals state)) (dc_result state) false;
  let state := set_dc_result state r in
  state ← (if bool_decide (exponent_type state = EXPONENT_POSITIVE) && round_up then RoundUpResult NEGATIVE state else mret state);
  mret (set_decimal_count state SCALE).

(** [for (uint8_t i = state.decimal_count; i < state.scale; i++) state.result *= 10;] *)
Fixpoint scale_up (turns : nat) (r : R) : checked R :=
  match turns with O => mret r | S turns' => r ← times_ten r; scale_up turns' r end.

Definition FinalizeDecimalCast (NEGATIVE : bool) state : attempt data :=
  let state :=
    if bool_decide (exponent_type state <> EXPONENT_POSITIVE) && (SCALE <? decimal_count state)
    then set_excessive state (u8 (decimal_count state - SCALE)) else state in
  state ← run (if negb (excessive_decimals state =? 0) then TruncateExcessiveDecimals NEGATIVE state else mret state);
  state ← run (
    if bool_decide (exponent_type state = EXPONENT_NONE) && round_set state && should_round state then RoundUpResult NEGATIVE state else mret state);
  r ← run (scale_up (Z.to_nat (SCALE - decimal_count state)) (dc_result state));
  inside ← run (if NEGATIVE then low ← store_negate limit; mret (store_less low r) else mret (store_less r limit));
  if inside : bool then mret (set_dc_result state r) else return_false.

(** The digits that a negative exponent moves behind the end; the last of them decides. *)
Fixpoint shift_decimals (NEGATIVE : bool) (turns : nat) (r : R) (round_up : bool) : checked (R * bool) :=
  match turns with
  | O => mret (r, round_up)
  | S turns' =>
      m ← modulo_ten r;
      r ← divided_by_ten r;
      let round_up := rounds_away NEGATIVE m in
      if store_equal r (of_int 0) && store_equal m (of_int 0) then mret (r, round_up) else shift_decimals NEGATIVE turns' r round_up
  end.

(** [for (i = 0; i < exponent; i++)]: zeros are appended as digits. *)
Fixpoint append_zeros (NEGATIVE : bool) (turns : nat) state : attempt data :=
  match turns with O => mret state | S turns' => state ← HandleDecimalCastDigit NEGATIVE state 0; append_zeros NEGATIVE turns' state end.

Definition HandleDecimalCastExponent (NEGATIVE : bool) state (exponent : Z) : attempt data :=
  let decimal_excess := if SCALE <? decimal_count state then decimal_count state - SCALE else 0 in
  let '(state, exponent) :=
    if 0 <? exponent then
      let state := set_exponent_type state EXPONENT_POSITIVE in
      if exponent <? decimal_excess then (set_excessive state (u8 (decimal_excess - exponent)), 0) else (state, exponent - decimal_excess)
    else if exponent <? 0 then (set_exponent_type state EXPONENT_NEGATIVE, exponent)
    else (state, exponent) in
  state ← FinalizeDecimalCast NEGATIVE state;
  if exponent <? 0 then
    '(r, round_up) ← run (shift_decimals NEGATIVE (Z.to_nat (- exponent)) (dc_result state) false);
    let state := set_dc_result state r in
    if round_up : bool then run (RoundUpResult NEGATIVE state) else mret state
  else append_zeros NEGATIVE (Z.to_nat exponent) state.

(** [HandleDecimal] where exponents are allowed. *)
Definition HandleDecimalCastDecimal (NEGATIVE : bool) state (digit : Z) : attempt data :=
  let state := if (decimal_count state =? SCALE) && negb (round_set state) then set_round state digit else state in
  if Z.of_nat max_width <=? digit_count state + decimal_count state then mret state
  else
    let state := set_decimal_count state (u8 (decimal_count state + 1)) in
    r ← run (store_append NEGATIVE (dc_result state) digit);
    mret (set_dc_result state r).

#[export] Instance DecimalCastOperation : CastOperation data := {
  zero_state := mkDecimalCast (of_int 0) 0 0 false false 0 EXPONENT_NONE;
  HandleDigit := HandleDecimalCastDigit;
  HandleHexDigit := fun _ _ => return_false;
  HandleBinaryDigit := fun _ _ => return_false;
  HandleExponent := HandleDecimalCastExponent;
  HandleDecimal := HandleDecimalCastDecimal;
  Finalize := FinalizeDecimalCast
}.
End Operations.

Definition TryDecimalStringCast {R} `{DecimalStore R} (decimal_separator : Z) (buf : list Z) (width scale : nat) : attempt R :=
  limit ← run (store_power width);
  state ← (TryIntegerCast true true decimal_separator buf false : attempt (DecimalCastData R width scale limit));
  mret (dc_result state).
