(* ===== verification/DecimalStoreFacts.v ===== *)
(** * Decimals from text: the stores

    [DecimalStoreLaws]: arithmetic on a store is that of its values while they are within its limits;
    for the integers of 16, 32 and 64 bits, and for [hugeint_t]. *)

From Stdlib Require Import Ascii.
From S2P Require Import Prelude DateText DateTextFacts Hugeint HugeintFacts HugeintDivisionFacts IntegerOps IntegerOpsFacts IntegerCast.
From S2P Require Import IntegerCastFacts IntegerFormat DecimalCast.

Local Open Scope Z_scope.

(** The computation returns a value of the store with the value [z]. *)
Definition gives {R} (ok : R -> Prop) (val : R -> Z) (m : checked R) (z : Z) : Prop := exists r, m = mret r /\ ok r /\ val r = z.

Class DecimalStoreLaws (R : Type) `{DecimalStore R} := {
  sval : R -> Z;
  sok : R -> Prop;
  store_min : Z;
  store_max : Z;
  s_width : (max_width <= 38)%nat /\ 10 ^ Z.of_nat max_width < store_max /\ store_min < - 10 ^ Z.of_nat max_width;
  s_range r : sok r -> store_min <= sval r <= store_max;
  s_of_int z : -128 <= z <= 127 -> sok (of_int z) /\ sval (of_int z) = z;
  s_div10 : sok MaximumDiv10 /\ sok MinimumDiv10 /\ sval MaximumDiv10 = Z.quot store_max 10 /\ sval MinimumDiv10 = Z.quot store_min 10;
  s_power n : (n <= max_width)%nat -> gives sok sval (store_power n) (10 ^ Z.of_nat n);
  s_equal g h : sok g -> sok h -> store_equal g h = (sval g =? sval h);
  s_less g h : sok g -> sok h -> store_less g h = (sval g <? sval h);
  s_less_equal g h : sok g -> sok h -> store_less_equal g h = (sval g <=? sval h);
  s_append (NEGATIVE : bool) r d : sok r -> (if NEGATIVE then sval r <= 0 else 0 <= sval r) -> 0 <= d <= 9 ->
    let v := if NEGATIVE then 10 * sval r - d else 10 * sval r + d in store_min <= v <= store_max -> gives sok sval (store_append NEGATIVE r d) v;
  s_times_ten r : sok r -> store_min <= 10 * sval r <= store_max -> gives sok sval (times_ten r) (10 * sval r);
  s_divided r : sok r -> gives sok sval (divided_by_ten r) (Z.quot (sval r) 10);
  s_modulo r : sok r -> gives sok sval (modulo_ten r) (Z.rem (sval r) 10);
  s_away (NEGATIVE : bool) r : sok r -> let v := if NEGATIVE then sval r - 1 else sval r + 1 in
    store_min <= v <= store_max -> gives sok sval (away_from_zero NEGATIVE r) v;
  s_negate r : sok r -> store_min <= - sval r <= store_max -> gives sok sval (store_negate r) (- sval r)
}.

(** ** Integers *)

Section Integers.
Context (d : decimal_type).
Abbreviation t := (stored_in d).
Abbreviation ok := (fun r : stored t => of_type t (stored_value r)).

Lemma stored_signed : is_signed t = true /\ Minimum t = - Maximum t - 1 /\ 32767 <= Maximum t.
Proof. by destruct d. Qed.

Lemma assigned_exact z : of_type t z -> gives ok stored_value (assigned (arith t z)) z.
Proof.
  intros Hz. unfold assigned. rewrite arith_exact by (by apply promoted_range). cbn [mbind checked_bind mret checked_ret].
  exists (Stored z). rewrite cast_to_range by done. done.
Qed.

Lemma Decimal_store_laws : DecimalStoreLaws (stored t).
Proof.
  refine {| sval := stored_value; sok := ok; store_min := Minimum t; store_max := Maximum t |}; destruct stored_signed as (Hs & Hmin & Hmax);
    cbn [of_int max_width MaximumDiv10 MinimumDiv10 store_power store_equal store_less store_less_equal store_append times_ten divided_by_ten modulo_ten
      away_from_zero store_negate Decimal_store stored_value].
  - destruct d; (split; [lia|]); by vm_compute.
  - done.
  - intros z Hz. split; [cbn [stored_value]; lia|done].
  - destruct d; by vm_compute.
  - intros n Hn. set (w := match d with DECIMAL4 => 4%nat | DECIMAL9 => 9%nat | DECIMAL18 => 18%nat end) in *.
    assert (Hw : 10 ^ Z.of_nat w < Maximum t /\ (w < 19)%nat) by (subst w; destruct d; (split; [by vm_compute|lia])).
    assert (Hle : 0 < 10 ^ Z.of_nat n <= 10 ^ Z.of_nat w) by (split; [apply Z.pow_pos_nonneg|apply Z.pow_le_mono_r]; lia).
    assert (Hp : of_type t (10 ^ Z.of_nat n) /\ (n < 19)%nat) by lia.
    destruct Hp as [Hp Hn']. unfold NumericPower. apply Nat.ltb_lt in Hn' as ->. exists (Stored (10 ^ Z.of_nat n)). unfold assigned.
    cbn [mbind checked_bind mret checked_ret]. by rewrite cast_to_range.
  - done.
  - done.
  - done.
  - intros NEGATIVE [r] e Hr Hsign He Hv. cbn [stored_value] in *. set (v := if NEGATIVE then 10 * r - e else 10 * r + e) in *.
    assert (Htens : of_type t (r * 10)) by (subst v; destruct NEGATIVE; lia). rewrite arith_exact by (by apply promoted_range).
    cbn [mbind checked_bind mret checked_ret]. replace (if NEGATIVE then r * 10 - e else r * 10 + e) with v by (subst v; destruct NEGATIVE; lia). by apply assigned_exact.
  - intros [r] Hr Hv. cbn [stored_value] in *. rewrite (Z.mul_comm r). by apply assigned_exact.
  - intros [r] Hr. cbn [stored_value] in *. apply assigned_exact. pose proof (Z.quot_rem r 10 ltac:(lia)). pose proof (Z.rem_bound_abs r 10 ltac:(lia)). nia.
  - intros [r] Hr. cbn [stored_value] in *. apply assigned_exact. pose proof (Z.rem_bound_abs r 10 ltac:(lia)). lia.
  - intros NEGATIVE [r] Hr Hv. cbn [stored_value] in *. by apply assigned_exact.
  - intros [r] Hr Hv. by apply assigned_exact.
Defined.
End Integers.

(** ** 128-bit integers *)

Section Huge.
Context `{Platform}.
Abbreviation ten := (hugeint_of 10).

Lemma small_of z : -128 <= z <= 127 -> huge_ok (hugeint_of z) /\ value (hugeint_of z) = z.
Proof. intros Hz. assert (in_s 64 z) by words. split; [by apply hugeint_of_ok|by apply value_hugeint_of]. Qed.

Lemma wrapped_gives z : in_s 128 z -> gives huge_ok value (mret (wrapped z)) z.
Proof. intros Hz. exists (wrapped z). split; [done|]. split; [apply wrapped_ok|by apply value_wrapped]. Qed.

Lemma divided_gives g : huge_ok g -> gives huge_ok value (r ← HugeintDivMod g ten; mret (quotient r)) (Z.quot (value g) 10) /\
  gives huge_ok value (r ← HugeintDivMod g ten; mret (remainder r)) (Z.rem (value g) 10).
Proof.
  intros Hg. destruct (small_of 10 ltac:(lia)) as [Hok Hv]. pose proof (value_range g Hg) as Hr. unfold in_s in Hr.
  rewrite divmod_exact, Hv by (done || lia). cbn [mbind checked_bind mret checked_ret quotient remainder].
  pose proof (Z.quot_rem (value g) 10 ltac:(lia)). pose proof (Z.rem_bound_abs (value g) 10 ltac:(lia)).
  split; [apply wrapped_gives; unfold in_s; nia|]. eexists. split; [done|]. rewrite value_of_value. split; [apply of_value_ok; unfold in_s; lia|done].
Qed.

Lemma hugeint_limits : huge_ok HugeintMaximum /\ value HugeintMaximum = 2 ^ 127 - 1 /\ huge_ok HugeintMinimum /\ value HugeintMinimum = - 2 ^ 127.
Proof. split_and!; try by vm_compute. Qed.

Lemma quotient_of (m : checked HugeintDivModResult) q : (r ← m; mret (quotient r)) = mret q ->
  match m with Some (Ok r) => quotient r | _ => hugeint_of 0 end = q.
Proof. destruct m as [[r|e]|]; [by intros [= <-]|done..]. Qed.

Lemma Hugeint_store_laws : DecimalStoreLaws hugeint_t.
Proof.
  refine {| sval := value; sok := huge_ok; store_min := - 2 ^ 127; store_max := 2 ^ 127 - 1 |};
    destruct (small_of 10 ltac:(lia)) as [Htok Htv]; destruct (small_of 1 ltac:(lia)) as [H1ok H1v];
    cbn [of_int max_width MaximumDiv10 MinimumDiv10 store_power store_equal store_less store_less_equal store_append times_ten divided_by_ten modulo_ten
      away_from_zero store_negate Hugeint_store].
  - split; [lia|]. by vm_compute.
  - intros r Hr. pose proof (value_range r Hr) as Hv. unfold in_s in Hv. change (128 - 1) with 127 in Hv. lia.
  - intros z Hz. by apply small_of.
  - destruct hugeint_limits as (Hmax & Emax & Hmin & Emin).
    destruct (divided_gives _ Hmax) as [(q & Eq & Hq & Vq) _]. destruct (divided_gives _ Hmin) as [(q' & Eq' & Hq' & Vq') _].
    rewrite Emax in Vq. rewrite Emin in Vq'.
    rewrite (quotient_of _ q Eq), (quotient_of _ q' Eq'). split; [exact Hq|]. split; [exact Hq'|]. split; [exact Vq|exact Vq'].
  - intros n Hn. assert ((n <? 39)%nat = true) as -> by (apply Nat.ltb_lt; lia).
    unfold ten_to. rewrite power_of_ten by done. eexists. split; [done|]. rewrite value_of_value. split; [|done]. by apply power_ok.
  - intros g h. apply equals_value.
  - intros g h. apply less_value.
  - intros g h. apply less_equal_value.
  - intros NEGATIVE r d Hr Hsign Hd Hv. set (v := if NEGATIVE then 10 * value r - d else 10 * value r + d) in *. destruct (small_of d ltac:(lia)) as [Hdok Hdv].
    assert (Htens : HugeintMultiplyUnchecked r ten = wrapped (value r * 10)) by (rewrite multiply_unchecked_wrapped by done; by rewrite Htv).
    assert (Hin : in_s 128 (value r * 10)) by (unfold in_s; change (128 - 1) with 127; subst v; destruct NEGATIVE; lia).
    assert (Hin' : in_s 128 v) by (unfold in_s; change (128 - 1) with 127; lia).
    rewrite Htens. destruct NEGATIVE; [rewrite sub_wrapped by (done || apply wrapped_ok)|rewrite add_wrapped by (done || apply wrapped_ok)];
      rewrite value_wrapped, Hdv, (Z.mul_comm (value r)) by done; by apply wrapped_gives.
  - intros r Hr Hv. rewrite multiply_unchecked_wrapped, Htv, (Z.mul_comm (value r)) by done. apply wrapped_gives. unfold in_s. change (128 - 1) with 127. lia.
  - intros r Hr. by apply divided_gives.
  - intros r Hr. by apply divided_gives.
  - intros NEGATIVE r Hr Hv. assert (in_s 128 (if NEGATIVE then value r - 1 else value r + 1)) by (unfold in_s; change (128 - 1) with 127; lia).
    destruct NEGATIVE; [rewrite sub_wrapped by done|rewrite add_wrapped by done]; rewrite H1v; by apply wrapped_gives.
  - intros r Hr Hv. rewrite negate_wrapped by done. apply wrapped_gives. unfold in_s. change (128 - 1) with 127. lia.
Defined.
End Huge.
