(* ===== verification/DecimalCastFacts.v ===== *)
(** * Decimals from text: the operations

    The operations of a decimal cast on the value of its state: digits before the point and behind it,
    the rounding and scaling at the end, exponents; and that they keep the contract of a cast. *)

From Stdlib Require Import Ascii.
From S2P Require Import Prelude DateText DateTextFacts Hugeint HugeintFacts HugeintDivisionFacts IntegerOps IntegerOpsFacts IntegerCast.
From S2P Require Import IntegerCastFacts IntegerTextFacts NumberText IntegerFormat DecimalCast DecimalStoreFacts.

Local Open Scope Z_scope.

Section Decimal.
Context {R : Type} `{SL : DecimalStoreLaws R} (width scale : nat) (limit : R).
Context (Hwidth : (width <= max_width (R := R))%nat) (Hscale : (scale <= width)%nat).
Context (Hlimit : sok limit /\ sval limit = 10 ^ Z.of_nat width).
Abbreviation data := (DecimalCastData R width scale limit).
Abbreviation WIDTH := (Z.of_nat width).
Abbreviation SCALE := (Z.of_nat scale).
Abbreviation MAX := (Z.of_nat (max_width (R := R))).
Implicit Types s : data.

(** The store holds the magnitude [m] with the sign. *)
Definition holds (NEGATIVE : bool) (r : R) (m : Z) : Prop := sok r /\ sval r = signed NEGATIVE m /\ 0 <= m.

Lemma magnitude_range m : 0 <= m <= 10 ^ MAX -> store_min (R := R) <= signed true m <= store_max (R := R) /\ store_min (R := R) <= signed false m <= store_max (R := R).
Proof. intros Hm. destruct (s_width (R := R)) as (_ & Hmax & Hmin). unfold signed. lia. Qed.

Lemma gives_holds NEGATIVE m z v : gives sok sval m v -> v = signed NEGATIVE z -> 0 <= z -> exists r, m = mret r /\ holds NEGATIVE r z.
Proof. intros (r & -> & Hr & <-) Hv Hz. by exists r. Qed.

(** ** Digits dropped and zeros appended *)

Lemma dropped_less m k : 0 <= m -> 0 <= k -> m / 10 ^ k <= m.
Proof. intros Hm Hk. pose proof (ten_positive k Hk). apply Z.div_le_upper_bound; nia. Qed.

Lemma drop_digit NEGATIVE r m : holds NEGATIVE r m -> exists q e,
  modulo_ten r = mret e /\ divided_by_ten r = mret q /\ holds NEGATIVE q (m / 10) /\
  rounds_away NEGATIVE e = (5 <=? m mod 10) /\ store_equal e (of_int 0) = (m mod 10 =? 0).
Proof.
  intros (Hr & Hv & Hm). destruct (s_modulo r Hr) as (e & -> & He & Ve). destruct (s_divided r Hr) as (q & -> & Hq & Vq). exists q, e.
  destruct (s_of_int (R := R) 0 ltac:(lia)) as [H0 V0]. destruct (s_of_int (R := R) 5 ltac:(lia)) as [H5 V5]. destruct (s_of_int (R := R) (-5) ltac:(lia)) as [H5' V5'].
  pose proof (Z.mod_pos_bound m 10 ltac:(lia)). rewrite Hv in Ve, Vq. unfold signed in *. split; [done|]. split; [done|].
  unfold rounds_away, holds, signed. rewrite s_equal, V0 by done.
  destruct NEGATIVE; rewrite s_less_equal by done; rewrite ?V5, ?V5', Ve, Vq, ?Z.rem_opp_l, ?Z.quot_opp_l, Z.quot_div_nonneg, Z.rem_mod_nonneg by lia;
    (split; [split_and!; try done; apply Z.div_pos; lia|split; apply eq_bool_prop_intro; rewrite !Is_true_true, ?Z.leb_le, ?Z.eqb_eq; lia]).
Qed.

Lemma drop_decimals_exact NEGATIVE turns : forall r m up, holds NEGATIVE r m -> exists q,
  drop_decimals NEGATIVE turns r up = mret (q, match turns with O => up | S k => 5 <=? m / 10 ^ Z.of_nat k mod 10 end) /\
  holds NEGATIVE q (m / 10 ^ Z.of_nat turns).
Proof.
  induction turns as [|turns IH]; intros r m up Hr; cbn [drop_decimals]; [exists r; change (10 ^ Z.of_nat 0) with 1; by rewrite Z.div_1_r|].
  destruct (drop_digit NEGATIVE r m Hr) as (q & e & -> & -> & Hq & Hround & _). cbn [mbind checked_bind mret checked_ret]. rewrite Hround.
  destruct (IH q (m / 10) (5 <=? m mod 10) Hq) as (q' & -> & Hq'). exists q'.
  assert (Hdiv : forall k, m / 10 / 10 ^ Z.of_nat k = m / 10 ^ Z.of_nat (S k)).
  { intros k. rewrite Z.div_div by (pose proof (ten_positive (Z.of_nat k)); lia). by rewrite Nat2Z.inj_succ, Z.pow_succ_r by lia. }
  rewrite Hdiv in Hq'. split; [|done]. do 2 f_equal. destruct turns as [|k]; [|by rewrite Hdiv]. change (10 ^ Z.of_nat 0) with 1. by rewrite Z.div_1_r.
Qed.

Lemma shift_decimals_exact NEGATIVE turns : forall r m up, holds NEGATIVE r m -> exists q b m',
  shift_decimals NEGATIVE turns r up = mret (q, b) /\ holds NEGATIVE q m' /\ m' <= m.
Proof.
  induction turns as [|turns IH]; intros r m up Hr; cbn [shift_decimals]; [exists r, up, m; split_and!; done|].
  destruct (drop_digit NEGATIVE r m Hr) as (q & e & -> & -> & Hq & _ & _). cbn [mbind checked_bind mret checked_ret].
  assert (m / 10 <= m) by (destruct Hr as (_ & _ & Hm); apply Z.div_le_upper_bound; lia).
  destruct (_ && _); [by eexists q, _, (m / 10)|].
  destruct (IH q (m / 10) (rounds_away NEGATIVE e) Hq) as (q' & b & m' & -> & Hq' & Hle). exists q', b, m'. split_and!; [done|done|lia].
Qed.

Lemma scale_up_exact NEGATIVE turns : forall r m, holds NEGATIVE r m -> m * 10 ^ Z.of_nat turns <= 10 ^ MAX -> exists q,
  scale_up turns r = mret q /\ holds NEGATIVE q (m * 10 ^ Z.of_nat turns).
Proof.
  induction turns as [|turns IH]; intros r m Hr Hle; cbn [scale_up]; [exists r; change (10 ^ Z.of_nat 0) with 1 in *; by rewrite Z.mul_1_r|].
  rewrite Nat2Z.inj_succ, Z.pow_succ_r in * by lia. pose proof (ten_positive (Z.of_nat turns) ltac:(lia)). destruct Hr as (Hr & Hv & Hm).
  assert (Hten : 10 * m <= 10 ^ MAX) by nia. destruct (magnitude_range (10 * m) ltac:(lia)) as [H1 H2].
  assert (E10 : 10 * sval r = signed NEGATIVE (10 * m)) by (rewrite Hv; unfold signed; destruct NEGATIVE; lia).
  destruct (gives_holds NEGATIVE (times_ten r) (10 * m) (10 * sval r)) as (q & -> & Hq); [apply s_times_ten; [done|rewrite E10; by destruct NEGATIVE]|done|lia|].
  cbn [mbind checked_bind mret checked_ret]. destruct (IH q (10 * m) Hq) as (q' & -> & Hq'); [lia|]. exists q'. split; [done|]. by replace (m * (10 * 10 ^ Z.of_nat turns)) with (10 * m * 10 ^ Z.of_nat turns) by ring.
Qed.

Lemma round_up_exact NEGATIVE s m : holds NEGATIVE (dc_result s) m -> m < 10 ^ MAX -> exists r,
  RoundUpResult width scale limit NEGATIVE s = mret (set_dc_result width scale limit s r) /\ holds NEGATIVE r (m + 1).
Proof.
  intros (Hr & Hv & Hm) Hle. destruct (magnitude_range (m + 1) ltac:(lia)) as [H1 H2].
  assert (E1 : (if NEGATIVE then sval (dc_result s) - 1 else sval (dc_result s) + 1) = signed NEGATIVE (m + 1)) by (rewrite Hv; unfold signed; destruct NEGATIVE; lia).
  unfold RoundUpResult. destruct (gives_holds NEGATIVE (away_from_zero NEGATIVE (dc_result s)) (m + 1) (signed NEGATIVE (m + 1))) as (q & -> & Hq); [|done|lia|].
  { rewrite <- E1. apply s_away; [done|]. rewrite E1. by destruct NEGATIVE. }
  by exists q.
Qed.

(** ** The invariant *)

(** While digits are read: [m] is the number without its point. *)
Record dc_inv (NEGATIVE : bool) s (m : Z) : Prop := {
  inv_holds : holds NEGATIVE (dc_result s) m;
  inv_below : m < 10 ^ (digit_count s + decimal_count s);
  inv_digits : 0 <= digit_count s <= WIDTH - SCALE;
  inv_decimals : 0 <= decimal_count s;
  inv_room : digit_count s + decimal_count s <= MAX;
  inv_round : round_set s = true -> SCALE <= decimal_count s
}.

Lemma inv_max NEGATIVE s m : dc_inv NEGATIVE s m -> 0 <= m < 10 ^ MAX.
Proof.
  intros [Hholds Hm Hd HD Hr _]. assert (10 ^ (digit_count s + decimal_count s) <= 10 ^ MAX) by (apply Z.pow_le_mono_r; lia).
  destruct Hholds as (_ & _ & ?). lia.
Qed.

Lemma max_width_small : MAX <= 38.
Proof. pose proof (s_width (R := R)). lia. Qed.

Lemma u8_small z : 0 <= z < 256 -> u8 z = z.
Proof. intros. unfold u8, wrapu. by rewrite Z.mod_small. Qed.

(** ** The end of a cast *)

(** The decimals dropped by [Finalize]. *)
Definition dropped s : Z := if bool_decide (exponent_type s <> EXPONENT_POSITIVE) && (SCALE <? decimal_count s) then decimal_count s - SCALE else excessive_decimals s.

(** Whether [Finalize] rounds away from zero, when it drops [k] decimals. *)
Definition rounded_up s (k m : Z) : bool :=
  (bool_decide (exponent_type s = EXPONENT_POSITIVE) && negb (k =? 0) && (5 <=? m / 10 ^ (k - 1) mod 10)) ||
  (bool_decide (exponent_type s = EXPONENT_NONE) && round_set s && should_round s).

(** The number [Finalize] makes of [m]. *)
Definition finalized s (m : Z) : Z :=
  let k := dropped s in
  (m / 10 ^ k + Z.b2z (rounded_up s k m)) * 10 ^ Z.max 0 (SCALE - (if k =? 0 then decimal_count s else SCALE)).

Lemma truncate_exact NEGATIVE s m : holds NEGATIVE (dc_result s) m -> m < 10 ^ MAX -> 0 < excessive_decimals s -> exists s',
  TruncateExcessiveDecimals width scale limit NEGATIVE s = mret s' /\
  holds NEGATIVE (dc_result s') (m / 10 ^ excessive_decimals s +
    Z.b2z (bool_decide (exponent_type s = EXPONENT_POSITIVE) && (5 <=? m / 10 ^ (excessive_decimals s - 1) mod 10))) /\
  decimal_count s' = SCALE /\ digit_count s' = digit_count s /\ exponent_type s' = exponent_type s /\ round_set s' = round_set s /\ should_round s' = should_round s.
Proof.
  intros Hs Hm Hk. unfold TruncateExcessiveDecimals.
  destruct (drop_decimals_exact NEGATIVE (Z.to_nat (excessive_decimals s)) (dc_result s) m false Hs) as (q & -> & Hq). cbn [mbind checked_bind mret checked_ret].
  assert (Hup : match Z.to_nat (excessive_decimals s) with O => false | S k => 5 <=? m / 10 ^ Z.of_nat k mod 10 end = (5 <=? m / 10 ^ (excessive_decimals s - 1) mod 10)).
  { destruct (Z.to_nat (excessive_decimals s)) as [|k] eqn:Ek; [lia|]. by replace (Z.of_nat k) with (excessive_decimals s - 1) by lia. }
  rewrite Hup, Z2Nat.id in * by lia. cbn [set_dc_result exponent_type].
  assert (Hle : m / 10 ^ excessive_decimals s <= m) by (apply dropped_less; [apply Hs|lia]).
  destruct (bool_decide _ && _); cbn [Z.b2z].
  - destruct (round_up_exact NEGATIVE (set_dc_result width scale limit s q) (m / 10 ^ excessive_decimals s)) as (r & -> & Hr); [done|lia|].
    cbn [mbind checked_bind mret checked_ret]. eexists. split; [done|]. done.
  - rewrite Z.add_0_r. eexists. split; [done|]. done.
Qed.

(** The decimals beyond the scale are dropped, and the number is rounded by them, or by the digit that was set aside. *)
Lemma truncate_and_round NEGATIVE s m : holds NEGATIVE (dc_result s) m -> m < 10 ^ MAX -> 0 <= excessive_decimals s -> exists s',
  (state ← (if negb (excessive_decimals s =? 0) then TruncateExcessiveDecimals width scale limit NEGATIVE s else mret s);
   if bool_decide (exponent_type state = EXPONENT_NONE) && round_set state && should_round state then RoundUpResult width scale limit NEGATIVE state else mret state) = mret s' /\
  holds NEGATIVE (dc_result s') (m / 10 ^ excessive_decimals s + Z.b2z (rounded_up s (excessive_decimals s) m)) /\
  decimal_count s' = (if excessive_decimals s =? 0 then decimal_count s else SCALE) /\ digit_count s' = digit_count s.
Proof.
  intros Hs Hm Hk. pose proof Hs as (_ & _ & Hm0). unfold rounded_up.
  assert (Hround : forall state m', holds NEGATIVE (dc_result state) m' -> m' < 10 ^ MAX \/ exponent_type state <> EXPONENT_NONE -> exists s',
    (if bool_decide (exponent_type state = EXPONENT_NONE) && round_set state && should_round state then RoundUpResult width scale limit NEGATIVE state else mret state) = mret s' /\
    holds NEGATIVE (dc_result s') (m' + Z.b2z (bool_decide (exponent_type state = EXPONENT_NONE) && round_set state && should_round state)) /\
    decimal_count s' = decimal_count state /\ digit_count s' = digit_count state).
  { intros state m' Hstate Hm'. case_bool_decide as Et; cbn [andb Z.b2z]; [|rewrite Z.add_0_r; by exists state].
    destruct (round_set state && should_round state); cbn [Z.b2z]; [|rewrite Z.add_0_r; by exists state].
    destruct (round_up_exact NEGATIVE state m' Hstate) as (r & -> & Hr); [by destruct Hm'|]. eexists. split; [done|]. done. }
  destruct (Z.eqb_spec (excessive_decimals s) 0) as [Ez|Hne]; cbn [negb].
  - cbn [mbind checked_bind mret checked_ret]. rewrite Ez. change (10 ^ 0) with 1. rewrite Z.div_1_r, andb_false_r. cbn [negb andb orb].
    apply Hround; [done|by left].
  - destruct (truncate_exact NEGATIVE s m Hs Hm ltac:(lia)) as (s2 & -> & Hs2 & Edc & Edig & Et & Ers & Esr). cbn [mbind checked_bind mret checked_ret].
    cbn [negb]. rewrite andb_true_r.
    assert (Hle : m / 10 ^ excessive_decimals s <= m) by (apply dropped_less; lia).
    destruct (Hround s2 _ Hs2) as (s3 & -> & Hs3 & Edc3 & Edig3).
    { rewrite Et. destruct (decide (exponent_type s = EXPONENT_NONE)) as [E|E]; [|by right]. left.
      rewrite (bool_decide_false (exponent_type s = EXPONENT_POSITIVE)) by (by rewrite E). cbn [andb Z.b2z]. lia. }
    exists s3. split; [done|]. rewrite Edc3, Edig3. split; [|done]. rewrite Et, Ers, Esr in Hs3.
    revert Hs3. destruct (decide (exponent_type s = EXPONENT_NONE)) as [E|E].
    + rewrite (bool_decide_false (exponent_type s = EXPONENT_POSITIVE)) by (by rewrite E). cbn [andb orb Z.b2z]. by rewrite Z.add_0_r.
    + rewrite (bool_decide_false (exponent_type s = EXPONENT_NONE)) by done. cbn [andb Z.b2z]. by rewrite orb_false_r, Z.add_0_r.
Qed.

Lemma dropped_bound s : 0 <= excessive_decimals s -> 0 <= dropped s.
Proof. intros. unfold dropped. destruct (bool_decide _ && (SCALE <? decimal_count s)) eqn:E; [|done]. apply andb_true_iff in E as [_ E%Z.ltb_lt]. lia. Qed.

Lemma dropped_scaled s : 0 <= excessive_decimals s -> exponent_type s = EXPONENT_POSITIVE \/ 0 < dropped s \/ decimal_count s <= SCALE.
Proof.
  intros. unfold dropped. destruct (decide (exponent_type s = EXPONENT_POSITIVE)) as [E|E]; [by left|]. rewrite bool_decide_true by done.
  destruct (Z.ltb_spec SCALE (decimal_count s)); cbn [andb]; lia.
Qed.

(** The number that is scaled up, and the zeros appended to it. *)
Lemma finalized_bound NEGATIVE s m : dc_inv NEGATIVE s m -> 0 <= excessive_decimals s -> finalized s m <= 10 ^ MAX.
Proof.
  intros Hinv Hk. pose proof (inv_max _ _ _ Hinv) as Hmax. destruct Hinv as [_ Hm Hd HD Hroom Hround]. pose proof (dropped_bound s Hk) as Hdrop.
  unfold finalized.
  assert (Hle : m / 10 ^ dropped s <= m) by (apply dropped_less; lia).
  assert (Hbit : Z.b2z (rounded_up s (dropped s) m) <= 1) by (by destruct (rounded_up _ _ _)).
  destruct (Z.eqb_spec (dropped s) 0) as [Ez|Hne]; [|rewrite Z.sub_diag, Z.max_id; change (10 ^ 0) with 1; lia].
  destruct (Z.leb_spec SCALE (decimal_count s)); [rewrite Z.max_l by lia; change (10 ^ 0) with 1; lia|].
  assert (Hup : rounded_up s (dropped s) m = false).
  { unfold rounded_up. rewrite Ez. cbn [Z.eqb negb]. rewrite andb_false_r. cbn [andb orb]. destruct (round_set s); [specialize (Hround eq_refl); lia|]. by rewrite andb_false_r. }
  rewrite Hup, Ez. change (10 ^ 0) with 1. rewrite Z.div_1_r, Z.max_r by lia. cbn [Z.b2z]. rewrite Z.add_0_r.
  assert (E10 : 10 ^ (digit_count s + decimal_count s) * 10 ^ (SCALE - decimal_count s) = 10 ^ (digit_count s + SCALE)) by (rewrite <- Z.pow_add_r by lia; f_equal; lia).
  assert (10 ^ (digit_count s + SCALE) <= 10 ^ MAX) by (apply Z.pow_le_mono_r; lia). pose proof (ten_positive (SCALE - decimal_count s) ltac:(lia)). nia.
Qed.

Lemma inside_limit (NEGATIVE : bool) r m : holds NEGATIVE r m ->
  (if NEGATIVE then low ← store_negate limit; mret (store_less low r) else mret (store_less r limit)) = (mret (m <? 10 ^ WIDTH) : checked bool).
Proof.
  intros (Hr & Hv & Hm). destruct Hlimit as [Hlok Hlv]. pose proof (ten_positive WIDTH ltac:(lia)).
  assert (10 ^ WIDTH <= 10 ^ MAX) by (apply Z.pow_le_mono_r; lia). destruct (magnitude_range (10 ^ WIDTH) ltac:(lia)) as [Hlow _].
  destruct NEGATIVE; [|by rewrite s_less, Hv, Hlv by done].
  destruct (s_negate limit Hlok) as (low & -> & Hlow' & Vlow); [rewrite Hlv; exact Hlow|]. cbn [mbind checked_bind mret checked_ret].
  rewrite s_less, Vlow, Hv, Hlv by done. unfold signed.
  assert (E : (- 10 ^ WIDTH <? - m) = (m <? 10 ^ WIDTH)) by (apply eq_bool_prop_intro; rewrite !Is_true_true, !Z.ltb_lt; lia). by rewrite E.
Qed.

Lemma finalize_decimal_cast NEGATIVE s m : dc_inv NEGATIVE s m -> 0 <= excessive_decimals s ->
  returns (FinalizeDecimalCast width scale limit NEGATIVE s)
    (fun s' => holds NEGATIVE (dc_result s') (finalized s m) /\ finalized s m < 10 ^ WIDTH /\ digit_count s' = digit_count s)
    (~ finalized s m < 10 ^ WIDTH).
Proof.
  intros Hinv Hk. pose proof (inv_max _ _ _ Hinv) as Hmax. pose proof (dropped_bound s Hk) as Hdrop. pose proof (finalized_bound _ _ _ Hinv Hk) as Hfin.
  pose proof Hinv as [Hs _ Hd HD Hroom _]. pose proof max_width_small as H38. unfold FinalizeDecimalCast. set (s1 := if bool_decide _ && _ then _ else s).
  assert (Hs1 : excessive_decimals s1 = dropped s /\ dc_result s1 = dc_result s /\ decimal_count s1 = decimal_count s /\ digit_count s1 = digit_count s /\
    rounded_up s1 (dropped s) m = rounded_up s (dropped s) m).
  { subst s1. unfold dropped. destruct (bool_decide _ && (SCALE <? decimal_count s)) eqn:E; [|done]. cbn. rewrite u8_small; [done|].
    apply andb_true_iff in E as [_ E%Z.ltb_lt]. lia. }
  destruct Hs1 as (Ek & Er & Ed & Edig & Eup). destruct (truncate_and_round NEGATIVE s1 m) as (s2 & E2 & Hs2 & Edc2 & Edig2); [by rewrite Er|lia|lia|].
  rewrite Ek, Ed, Edig, Eup in *. clearbody s1.
  assert (Hrun : forall (A B C : Type) (x : checked A) (f : A -> checked B) (g : B -> attempt C), (a ← run x; b ← run (f a); g b) = (b ← run (x ≫= f); g b)).
  { clear. intros A B C x f g. by destruct x as [[a|]|]. }
  rewrite Hrun, E2. cbn [run mbind attempt_bind checked_bind mret attempt_ret checked_ret]. clear Hrun E2.
  destruct (scale_up_exact NEGATIVE (Z.to_nat (SCALE - decimal_count s2)) (dc_result s2) _ Hs2) as (r & -> & Hr); rewrite Edc2 in *;
    replace (Z.of_nat (Z.to_nat (SCALE - (if dropped s =? 0 then decimal_count s else SCALE)))) with (Z.max 0 (SCALE - (if dropped s =? 0 then decimal_count s else SCALE))) in * by lia;
    [done|]. cbn [run mbind attempt_bind checked_bind mret attempt_ret checked_ret]. rewrite (inside_limit NEGATIVE r _ Hr). fold (finalized s m) in *.
  cbn [run mbind attempt_bind checked_bind mret attempt_ret checked_ret]. destruct (Z.ltb_spec (finalized s m) (10 ^ WIDTH)); [apply returns_ret|apply returns_false; lia].
  cbn [set_dc_result dc_result digit_count]. done.
Qed.

(** ** Digits *)

Abbreviation handle_digit NEGATIVE s d := (HandleDecimalCastDigit width scale limit NEGATIVE s d).

(** The check of the limits: a number it stops is wider than any decimal of the store, and one it passes has room for a zero. *)
Lemma digit_guard (NEGATIVE : bool) r m : holds NEGATIVE r m ->
  if (if NEGATIVE then store_less r MinimumDiv10 else store_less MaximumDiv10 r) then 10 ^ MAX < 10 * m
  else store_min (R := R) <= signed NEGATIVE (10 * m) <= store_max (R := R).
Proof.
  intros (Hr & Hv & Hm). destruct (s_div10 (R := R)) as (Hmok & Hmok' & Vmax & Vmin). destruct (s_width (R := R)) as (_ & Hmax & Hmin).
  assert (0 < 10 ^ MAX) by (apply ten_positive; lia). unfold signed in *. destruct NEGATIVE; rewrite s_less, ?Vmax, ?Vmin, Hv by done.
  - rewrite <- (Z.opp_involutive (store_min (R := R))), Z.quot_opp_l, Z.quot_div_nonneg by lia.
    pose proof (Z.mod_pos_bound (- store_min (R := R)) 10). pose proof (Z.div_mod (- store_min (R := R)) 10). destruct (Z.ltb_spec (- m) (- (- store_min (R := R) / 10))); lia.
  - rewrite Z.quot_div_nonneg by lia. pose proof (Z.mod_pos_bound (store_max (R := R)) 10). pose proof (Z.div_mod (store_max (R := R)) 10).
    destruct (Z.ltb_spec (store_max (R := R) / 10) m); lia.
Qed.

Lemma append_exact (NEGATIVE : bool) r m d : holds NEGATIVE r m -> 0 <= d <= 9 ->
  store_min (R := R) <= signed NEGATIVE (10 * m + d) <= store_max (R := R) -> exists q, store_append NEGATIVE r d = mret q /\ holds NEGATIVE q (10 * m + d).
Proof.
  intros (Hr & Hv & Hm) Hd Hle.
  assert (E : (if NEGATIVE then 10 * sval r - d else 10 * sval r + d) = signed NEGATIVE (10 * m + d)) by (rewrite Hv; unfold signed; destruct NEGATIVE; lia).
  destruct (gives_holds NEGATIVE (store_append NEGATIVE r d) (10 * m + d) (signed NEGATIVE (10 * m + d))) as (q & -> & Hq); [|done|lia|by exists q].
  rewrite <- E. apply s_append; [done|rewrite Hv; unfold signed; destruct NEGATIVE; lia|done|by rewrite E].
Qed.

(** A digit is a leading zero, is one too many, or is appended. *)
Lemma handle_digit_cases (NEGATIVE : bool) s m d : holds NEGATIVE (dc_result s) m -> 0 <= digit_count s <= WIDTH - SCALE -> 0 <= d <= 9 ->
  (digit_count s < WIDTH - SCALE -> d = 0 \/ 10 * m + d <= 10 ^ MAX) ->
  (m = 0 /\ d = 0 /\ handle_digit NEGATIVE s d = mret s) \/
  ((m <> 0 \/ d <> 0) /\ (digit_count s = WIDTH - SCALE \/ (digit_count s < WIDTH - SCALE /\ 10 ^ MAX < 10 * m)) /\ handle_digit NEGATIVE s d = return_false) \/
  ((m <> 0 \/ d <> 0) /\ digit_count s < WIDTH - SCALE /\ exists r, holds NEGATIVE r (10 * m + d) /\
    handle_digit NEGATIVE s d = mret (set_dc_result width scale limit (set_digit_count width scale limit s (digit_count s + 1)) r)).
Proof.
  intros Hs Hdig Hd Hfit. pose proof max_width_small. pose proof Hs as (Hr & Hv & Hm). destruct (s_of_int (R := R) 0 ltac:(lia)) as [Hzok Hz]. unfold HandleDecimalCastDigit.
  rewrite s_equal, Hz, Hv by done. replace (signed NEGATIVE m =? 0) with (m =? 0) by (unfold signed; apply eq_bool_prop_intro; rewrite !Is_true_true, !Z.eqb_eq; destruct NEGATIVE; lia).
  destruct ((m =? 0) && (d =? 0)) eqn:Ezero; [left; by apply andb_true_iff in Ezero as [?%Z.eqb_eq ?%Z.eqb_eq]|right].
  assert (Hne : m <> 0 \/ d <> 0) by (rewrite andb_false_iff, !Z.eqb_neq in Ezero; lia).
  destruct (Z.eqb_spec (digit_count s) (WIDTH - SCALE)) as [Efull|Efull]; [left; by auto|]. rewrite u8_small by lia. cbn [set_digit_count dc_result].
  pose proof (digit_guard NEGATIVE (dc_result s) m Hs) as Hguard. destruct (if NEGATIVE then _ else _); [left; split_and!; [done|right; lia|done]|right].
  split; [done|]. split; [lia|]. destruct (append_exact NEGATIVE (dc_result s) m d Hs Hd) as (q & -> & Hq); [|by exists q].
  destruct (Hfit ltac:(lia)) as [->|Hle]; [by rewrite Z.add_0_r|]. destruct (magnitude_range (10 * m + d) ltac:(lia)). by destruct NEGATIVE.
Qed.

Lemma append_zeros_total (NEGATIVE : bool) turns : forall s m, holds NEGATIVE (dc_result s) m -> 0 <= digit_count s <= WIDTH - SCALE ->
  returns (append_zeros width scale limit NEGATIVE turns s) (fun s' => exists m', holds NEGATIVE (dc_result s') m') True.
Proof.
  induction turns as [|turns IH]; intros s m Hs Hdig; cbn [append_zeros]; [apply returns_ret; by exists m|].
  destruct (handle_digit_cases NEGATIVE s m 0 Hs Hdig ltac:(lia) ltac:(intros _; by left)) as [(_ & _ & ->)|[(_ & _ & ->)|(_ & Hlt & r & Hr & ->)]].
  - by apply (IH _ m).
  - by apply returns_false.
  - cbn [mbind attempt_bind mret attempt_ret]. apply (IH _ (10 * m + 0)); [done|]. cbn [set_dc_result set_digit_count digit_count]. lia.
Qed.

(** ** The contract of a cast *)

Definition fresh s : Prop := excessive_decimals s = 0 /\ exponent_type s = EXPONENT_NONE.

(** Only digits before the point were read; the first of them is not a zero. *)
Definition only_digits s : Prop :=
  decimal_count s = 0 /\ round_set s = false /\
  ((sval (dc_result s) = 0 /\ digit_count s = 0) \/ (1 <= digit_count s /\ 10 ^ (digit_count s - 1) <= Z.abs (sval (dc_result s)))).

Definition dc_cast_inv (NEGATIVE : bool) (room : nat) s : Prop := (exists m, dc_inv NEGATIVE s m) /\ fresh s /\ (room <> 0%nat -> only_digits s).

Lemma holds_abs (NEGATIVE : bool) r m : holds NEGATIVE r m -> Z.abs (sval r) = m.
Proof. intros (_ & -> & Hm). unfold signed. destruct NEGATIVE; lia. Qed.

Lemma digit_law (NEGATIVE : bool) n s d : dc_cast_inv NEGATIVE (S n) s -> 0 <= d <= 9 ->
  let v := 10 * sval (dc_result s) + (if NEGATIVE then - d else d) in
  returns (handle_digit NEGATIVE s d)
    (fun s' => dc_cast_inv NEGATIVE n s' /\ sval (dc_result s') = v /\ (only_digits s -> only_digits s'))
    (if NEGATIVE then v < - (10 ^ (WIDTH - SCALE) - 1) else 10 ^ (WIDTH - SCALE) - 1 < v).
Proof.
  intros ([m Hinv] & Hfresh & Honly) Hd v. specialize (Honly ltac:(done)). pose proof Hinv as [Hs Hm Hdig HD Hroom Hround].
  pose proof Honly as (E0 & Eround & Hlead). pose proof Hs as (Hr & Hv & Hm0). rewrite (holds_abs _ _ _ Hs) in Hlead. rewrite E0, Z.add_0_r in *.
  assert (Ev : v = signed NEGATIVE (10 * m + d)) by (subst v; rewrite Hv; unfold signed; destruct NEGATIVE; lia).
  assert (Hzero : sval (dc_result s) = 0 -> m = 0) by (rewrite Hv; unfold signed; destruct NEGATIVE; lia).
  assert (Hnext : 10 * m + d < 10 ^ (digit_count s + 1)) by (rewrite Z.pow_add_r by lia; change (10 ^ 1) with 10; lia).
  assert (Hfit : digit_count s < WIDTH - SCALE -> 10 * m + d <= 10 ^ MAX).
  { intros Hlt. assert (10 ^ (digit_count s + 1) <= 10 ^ MAX) by (apply Z.pow_le_mono_r; lia). lia. }
  destruct (handle_digit_cases NEGATIVE s m d Hs Hdig Hd) as [(-> & -> & ->)|[(Hne & Hfull & ->)|(Hne & Hlt & r & Hr' & ->)]]; [by right; apply Hfit|..].
  - apply returns_ret. split_and!; [split_and!; [by exists 0|done|done]|by rewrite Ev, Hv; unfold signed; destruct NEGATIVE|done].
  - apply returns_false. assert (10 ^ (WIDTH - SCALE) <= 10 * m + d); [|rewrite Ev; unfold signed; destruct NEGATIVE; lia].
    destruct Hfull as [Efull|[Hlt ?]]; [|specialize (Hfit Hlt); lia]. rewrite <- Efull. destruct Hlead as [[Hz ->]|[Hone Hlead]]; [change (10 ^ 0) with 1; lia|].
    replace (digit_count s) with (1 + (digit_count s - 1)) by lia. rewrite Z.pow_add_r by lia. change (10 ^ 1) with 10. lia.
  - apply returns_ret. cbn [set_dc_result set_digit_count dc_result]. pose proof Hr' as (_ & Vr & _).
    assert (Honly' : only_digits (set_dc_result width scale limit (set_digit_count width scale limit s (digit_count s + 1)) r)).
    { unfold only_digits. cbn [set_dc_result set_digit_count dc_result decimal_count digit_count round_set]. split_and!; [done|done|right].
      rewrite (holds_abs _ _ _ Hr'), Z.add_simpl_r. split; [lia|]. destruct Hlead as [[Hz ->]|[Hone Hlead]]; [specialize (Hzero Hz); change (10 ^ 0) with 1; lia|].
      replace (digit_count s) with (1 + (digit_count s - 1)) by lia. rewrite Z.pow_add_r by lia. change (10 ^ 1) with 10. lia. }
    split_and!; [|by rewrite Ev, Vr|done]. split_and!; [|done|done]. exists (10 * m + d).
    split; cbn [set_dc_result set_digit_count dc_result decimal_count digit_count round_set]; rewrite ?E0, ?Z.add_0_r, ?Eround; done || lia.
Qed.

(** The digits behind the point: those that the store has room for are appended. *)
Abbreviation handle_decimal NEGATIVE s d := (HandleDecimalCastDecimal width scale limit NEGATIVE s d).

Lemma handle_decimal_exact (NEGATIVE : bool) s m d : dc_inv NEGATIVE s m -> fresh s -> 0 <= d <= 9 -> exists s',
  handle_decimal NEGATIVE s d = mret s' /\ fresh s' /\ digit_count s' = digit_count s /\
  round_set s' = (bool_decide (decimal_count s = SCALE) || round_set s) /\
  should_round s' = (if bool_decide (decimal_count s = SCALE) && negb (round_set s) then 5 <=? d else should_round s) /\
  let more := digit_count s + decimal_count s <? MAX in
  decimal_count s' = decimal_count s + Z.b2z more /\ dc_inv NEGATIVE s' (if more then 10 * m + d else m).
Proof.
  intros Hinv [Hexc Hexp] Hd. pose proof Hinv as [Hs Hm Hdig HD Hroom Hround]. pose proof max_width_small. unfold HandleDecimalCastDecimal.
  set (s1 := if (decimal_count s =? SCALE) && negb (round_set s) then _ else s).
  assert (Hs1 : dc_result s1 = dc_result s /\ digit_count s1 = digit_count s /\ decimal_count s1 = decimal_count s /\ fresh s1 /\
    round_set s1 = (bool_decide (decimal_count s = SCALE) || round_set s) /\
    should_round s1 = (if bool_decide (decimal_count s = SCALE) && negb (round_set s) then 5 <=? d else should_round s)).
  { subst s1. destruct (Z.eqb_spec (decimal_count s) SCALE); [rewrite bool_decide_true by done|rewrite bool_decide_false by done; by split_and!].
    destruct (round_set s) eqn:E; cbn [andb negb orb]; by split_and!. }
  destruct Hs1 as (Er & Edig & Edc & Hfresh & Ers & Esr). clearbody s1. cbn [set_decimal_count dc_result]. rewrite Edig, Edc, Er.
  destruct (Z.leb_spec MAX (digit_count s + decimal_count s)) as [Hfull|Hmore].
  - exists s1. assert ((digit_count s + decimal_count s <? MAX) = false) as -> by (apply Z.ltb_ge; lia). cbn [Z.b2z]. rewrite Z.add_0_r. split_and!; try done.
    split; rewrite ?Er, ?Edig, ?Edc; try done. rewrite Ers, orb_true_iff, bool_decide_eq_true. intros [->|?]; [done|by apply Hround].
  - assert ((digit_count s + decimal_count s <? MAX) = true) as -> by (apply Z.ltb_lt; lia). rewrite u8_small by lia.
    assert (Hle : 10 * m + d < 10 ^ (digit_count s + (decimal_count s + 1))) by (rewrite Z.add_assoc, Z.pow_add_r by lia; change (10 ^ 1) with 10; lia).
    assert (10 ^ (digit_count s + (decimal_count s + 1)) <= 10 ^ MAX) by (apply Z.pow_le_mono_r; lia).
    destruct (magnitude_range (10 * m + d)) as [Hlow Hhigh]; [destruct Hs as (_ & _ & ?); lia|].
    destruct (append_exact NEGATIVE (dc_result s) m d Hs Hd) as (q & Eq & Hq); [by destruct NEGATIVE|].
    rewrite Eq. cbn [run mbind attempt_bind checked_bind mret attempt_ret checked_ret]. eexists. split; [done|].
    cbn [set_dc_result set_decimal_count dc_result digit_count decimal_count round_set should_round fresh excessive_decimals exponent_type Z.b2z].
    split_and!; try done. split; cbn [set_dc_result set_decimal_count dc_result digit_count decimal_count round_set should_round]; rewrite ?Edig; try done || lia.
    rewrite Ers, orb_true_iff, bool_decide_eq_true. intros [->|?%Hround]; lia.
Qed.

(** An exponent: the cast ends with a value of the store, or fails. *)
Lemma finalize_and_shift (NEGATIVE : bool) s m e : dc_inv NEGATIVE s m -> 0 <= excessive_decimals s ->
  returns (state ← FinalizeDecimalCast width scale limit NEGATIVE s;
    if e <? 0 then
      '(r, round_up) ← run (shift_decimals NEGATIVE (Z.to_nat (- e)) (dc_result state) false);
      let state := set_dc_result width scale limit state r in
      if round_up : bool then run (RoundUpResult width scale limit NEGATIVE state) else mret state
    else append_zeros width scale limit NEGATIVE (Z.to_nat e) state) (fun s' => exists m', holds NEGATIVE (dc_result s') m') True.
Proof.
  intros Hinv Hk. eapply returns_bind; [by apply (finalize_decimal_cast NEGATIVE s m)|done|]. intros s1 (Hs1 & Hlt & Edig). destruct (e <? 0).
  - destruct (shift_decimals_exact NEGATIVE (Z.to_nat (- e)) (dc_result s1) _ false Hs1) as (q & b & m' & -> & Hq & Hle).
    cbn [run mbind attempt_bind checked_bind mret attempt_ret checked_ret]. destruct b; [|apply returns_ret; by exists m'].
    destruct (round_up_exact NEGATIVE (set_dc_result width scale limit s1 q) m' Hq) as (r & -> & Hr).
    { assert (10 ^ WIDTH <= 10 ^ MAX) by (apply Z.pow_le_mono_r; lia). lia. }
    cbn [run mbind checked_bind mret checked_ret]. apply returns_ret. by exists (m' + 1).
  - apply (append_zeros_total NEGATIVE _ _ _ Hs1). rewrite Edig. apply Hinv.
Qed.

Lemma exponent_law (NEGATIVE : bool) s e : dc_cast_inv NEGATIVE 0 s ->
  returns (HandleDecimalCastExponent width scale limit NEGATIVE s e) (fun s' => exists m, holds NEGATIVE (dc_result s') m) True.
Proof.
  intros ([m Hinv] & [Hexc Hexp] & _). pose proof Hinv as [Hs Hm Hdig HD Hroom Hround]. pose proof max_width_small. unfold HandleDecimalCastExponent.
  set (excess := if SCALE <? decimal_count s then decimal_count s - SCALE else 0).
  assert (Hexcess : 0 <= excess <= 38) by (subst excess; destruct (Z.ltb_spec SCALE (decimal_count s)); lia). clearbody excess.
  destruct (0 <? e) eqn:Epos; [destruct (Z.ltb_spec e excess)|destruct (e <? 0)].
  - cbn match. apply (finalize_and_shift NEGATIVE _ m); [by split|]. cbn [set_excessive excessive_decimals]. apply Z.ltb_lt in Epos. rewrite u8_small; lia.
  - cbn match. apply (finalize_and_shift NEGATIVE _ m); [by split|]. cbn [set_exponent_type excessive_decimals]. lia.
  - cbn match. apply (finalize_and_shift NEGATIVE _ m); [by split|]. cbn [set_exponent_type excessive_decimals]. lia.
  - cbn match. apply (finalize_and_shift NEGATIVE _ m); [done|lia].
Qed.

Lemma zero_state_inv (NEGATIVE : bool) : dc_inv NEGATIVE (zero_state (T := data)) 0 /\ fresh (zero_state (T := data)) /\ only_digits (zero_state (T := data)).
Proof.
  destruct (s_of_int (R := R) 0 ltac:(lia)) as [Hok Hz]. split; [|split].
  - split; cbn [zero_state DecimalCastOperation dc_result digit_count decimal_count round_set]; try done || lia. split_and!; [done|rewrite Hz; by destruct NEGATIVE|done].
  - done.
  - split; [done|]. split; [done|]. left. by split.
Qed.

Lemma DecimalCastLaws : CastOperationLaws data.
Proof.
  refine {|
    digits_lowest := - (10 ^ (WIDTH - SCALE) - 1); digits_highest := 10 ^ (WIDTH - SCALE) - 1; minus_allowed := True;
    number := fun s => sval (dc_result s);
    finished := fun s => sok (dc_result s);
    cast_inv := dc_cast_inv;
    fits := fun _ => True;
    word_inv := fun s => dc_cast_inv false 0 s /\ only_digits s;
    no_decimals := only_digits
  |}.
  - assert (0 < 10 ^ (WIDTH - SCALE)) by (apply ten_positive; lia). lia.
  - done.
  - intros NEGATIVE m n s Hmn (Hinv & Hfresh & Honly). split; [done|]. split; [done|]. intros Hm. apply Honly. lia.
  - intros NEGATIVE n _. destruct (zero_state_inv NEGATIVE) as (Hinv & Hfresh & Honly). destruct (zero_state_inv false) as (Hinv' & _ & _).
    assert (Hcast : forall room, dc_cast_inv NEGATIVE room (zero_state (T := data)) /\ dc_cast_inv false room (zero_state (T := data))).
    { intros room. split; (split; [by exists 0|done]). }
    split; [apply Hcast|]. split; [split; [apply Hcast|done]|]. split; [done|].
    destruct Hinv as [(_ & Hz & _) _ _ _ _ _]. rewrite Hz. by destruct NEGATIVE.
  - intros s. done.
  - intros NEGATIVE s ([m [(_ & Hv & Hm) _ _ _ _ _]] & _). rewrite Hv. unfold signed. destruct NEGATIVE; lia.
  - intros NEGATIVE n s d Hinv Hd _. by apply digit_law.
  - intros. by apply returns_false.
  - intros. by apply returns_false.
  - intros NEGATIVE s d ([m Hinv] & Hfresh & _) Hd. destruct (handle_decimal_exact NEGATIVE s m d Hinv Hfresh Hd) as (s' & E & Hfresh' & _ & _ & _ & _ & Hinv').
    cbn [HandleDecimal DecimalCastOperation]. rewrite E. apply returns_ret. split; [by eexists|done].
  - intros NEGATIVE s e _ Hinv _. eapply returns_weaken; [by apply exponent_law|by intros s' (m & ? & _)|done].
  - intros NEGATIVE s ([m Hinv] & [Hexc _] & _). eapply returns_weaken; [apply (finalize_decimal_cast NEGATIVE s m); [done|lia]|by intros s' ((? & _) & _)|done].
Defined.
End Decimal.
