(* ===== verification/DecimalTextFacts.v ===== *)
(** * Decimals from text: the cast

    [TryDecimalStringCast] gives a number without an exponent rounded half away from zero to the scale,
    exactly when that has at most [width] digits; any text gives a value of the store or [false]. *)

From Stdlib Require Import Ascii.
From S2P Require Import Prelude DateText DateTextFacts Hugeint HugeintFacts HugeintDivisionFacts IntegerOps IntegerOpsFacts IntegerCast.
From S2P Require Import IntegerCastFacts IntegerTextFacts NumberText IntegerFormat DecimalCast DecimalStoreFacts DecimalCastFacts.

Local Open Scope Z_scope.

(** ** Digits before and behind the scale *)

Lemma taken_value M ds a b : Forall is_digit ds -> (a <= b <= length ds)%nat ->
  digits_value M (take b ds) / 10 ^ Z.of_nat (b - a) = digits_value M (take a ds).
Proof.
  intros Hds Hab. assert (E : take b ds = take a ds ++ take (b - a) (drop a ds)) by (rewrite take_take_drop; f_equal; lia).
  rewrite E. unfold digits_value. rewrite foldl_app. fold (digits_value M (take a ds)). fold (digits_value (digits_value M (take a ds)) (take (b - a) (drop a ds))).
  rewrite digits_value_from, length_take, length_drop. replace ((b - a) `min` (length ds - a))%nat with (b - a)%nat by lia.
  pose proof (digits_value_below (take (b - a) (drop a ds)) ltac:(by apply Forall_take, Forall_drop)) as Hb. rewrite length_take, length_drop in Hb.
  replace ((b - a) `min` (length ds - a))%nat with (b - a)%nat in Hb by lia. rewrite Z.div_add_l, Z.div_small by lia. lia.
Qed.

(** All the digits fit into the scale. *)
Lemma value_scaled M ds scale : (length ds <= scale)%nat ->
  decimal_value M (digits_value 0 ds) (Z.of_nat (length ds)) (Z.of_nat scale) = digits_value M ds * 10 ^ (Z.of_nat scale - Z.of_nat (length ds)).
Proof.
  intros Hle. unfold decimal_value. rewrite (Z.max_r 0 (Z.of_nat scale)), Z.max_l, Z.add_0_r, <- digits_value_from by lia.
  pose proof (ten_positive (Z.of_nat (length ds)) ltac:(lia)). pose proof (half_away_rounds (digits_value M ds * 10 ^ (Z.of_nat scale - Z.of_nat (length ds))) 0 (10 ^ Z.of_nat (length ds)) ltac:(lia)) as E.
  rewrite Z.add_0_r, <- Z.mul_assoc, <- Z.pow_add_r, Z.sub_add in E by lia. rewrite E. destruct (Z.leb_spec (10 ^ Z.of_nat (length ds)) (2 * 0)); lia.
Qed.

(** The first digit behind the scale decides. *)
Lemma value_rounded M ds scale : Forall is_digit ds -> (scale < length ds)%nat ->
  decimal_value M (digits_value 0 ds) (Z.of_nat (length ds)) (Z.of_nat scale) = digits_value M (take scale ds) + Z.b2z (5 <=? nth scale ds 48 - 48).
Proof.
  intros Hds Hlt. destruct (lookup_lt_is_Some_2 ds scale Hlt) as [c Hc]. pose proof (take_drop_middle _ _ _ Hc) as E.
  rewrite (nth_lookup_Some _ _ _ _ Hc). set (rest := drop (S scale) ds) in *. set (A := digits_value M (take scale ds)).
  assert (Hlen : length ds = (scale + S (length rest))%nat) by (subst rest; rewrite length_drop; lia).
  assert (Hrest : Forall is_digit rest) by (by apply Forall_drop). pose proof (digits_value_below rest Hrest) as Hx.
  assert (Hdig : is_digit c) by (eapply Forall_lookup_1; [exact Hds|exact Hc]). unfold is_digit in Hdig.
  assert (Hvalue : digits_value M ds = A * 10 ^ Z.of_nat (S (length rest)) + ((c - 48) * 10 ^ Z.of_nat (length rest) + digits_value 0 rest)).
  { rewrite <- E at 1. unfold digits_value. rewrite foldl_app. cbn [foldl]. fold (digits_value M (take scale ds)). fold A. fold (digits_value (c - 48 + A * 10) rest).
    rewrite digits_value_from, Nat2Z.inj_succ, Z.pow_succ_r by lia. fold (digits_value 0 rest). ring. }
  unfold decimal_value. rewrite (Z.max_r 0 (Z.of_nat scale)), Z.max_l, Z.add_0_r, <- digits_value_from, Hvalue by lia.
  replace (10 ^ Z.of_nat (length ds)) with (10 ^ Z.of_nat scale * 10 ^ Z.of_nat (S (length rest))) by (rewrite <- Z.pow_add_r by lia; f_equal; lia).
  rewrite (Z.mul_comm _ (10 ^ Z.of_nat scale)), half_away_scale by (apply ten_positive; lia).
  rewrite Nat2Z.inj_succ, Z.pow_succ_r in * by lia. pose proof (ten_positive (Z.of_nat (length rest)) ltac:(lia)) as Hp.
  rewrite half_away_rounds by nia. f_equal. destruct (Z.leb_spec 5 (c - 48)), (Z.leb_spec (10 * 10 ^ Z.of_nat (length rest)) (2 * ((c - 48) * 10 ^ Z.of_nat (length rest) + digits_value 0 rest)));
    cbn [Z.b2z]; try done; nia.
Qed.

Lemma value_at_least M D n e : 0 <= M -> 0 <= D -> 0 <= n -> 0 <= e -> M * 10 ^ e <= decimal_value M D n e.
Proof.
  intros HM HD Hn He. unfold decimal_value. rewrite (Z.max_r 0 e), Z.max_l, Z.add_0_r by lia. pose proof (ten_positive n Hn). pose proof (ten_positive e He).
  unfold half_away. apply Z.div_le_lower_bound; [lia|]. assert (0 <= D * 10 ^ e) by (apply Z.mul_nonneg_nonneg; lia). nia.
Qed.

Section Decimal.
Context {R : Type} `{SL : DecimalStoreLaws R} (width scale : nat).
Context (Hwidth : (width <= max_width (R := R))%nat) (Hscale : (scale <= width)%nat).
Abbreviation WIDTH := (Z.of_nat width).
Abbreviation SCALE := (Z.of_nat scale).
Abbreviation MAX := (Z.of_nat (max_width (R := R))).

Section Limit.
Context (limit : R) (Hlimit : sok limit /\ sval limit = 10 ^ Z.of_nat width) (NEGATIVE : bool).
Abbreviation data := (DecimalCastData R width scale limit).
#[local] Instance laws : CastOperationLaws data := DecimalCastLaws width scale limit Hwidth Hscale Hlimit.

(** How many of the decimals the store has room for. *)
Definition room (digits : Z) : nat := Z.to_nat (MAX - digits).

Record decimals_done (M digits : Z) (p : list Z) (s : data) : Prop := {
  done_fresh : fresh width scale limit s;
  done_digits : digit_count s = digits;
  done_count : decimal_count s = Z.of_nat (length p `min` room digits);
  done_inv : dc_inv width scale limit NEGATIVE s (digits_value M (take (length p `min` room digits) p));
  done_set : round_set s = bool_decide (scale < length p)%nat;
  done_round : (scale < length p)%nat -> should_round s = (5 <=? nth scale p 48 - 48)
}.

Lemma decimals_done_step M digits p c s : 0 <= digits <= WIDTH - SCALE -> is_digit c -> decimals_done M digits p s ->
  exists s', HandleDecimal NEGATIVE s (c - code "0") = mret s' /\ decimals_done M digits (p ++ [c]) s'.
Proof.
  intros Hdigits Hc [Hfresh Edig Edc Hinv Eset Eround]. change (code "0") with 48. unfold is_digit in Hc.
  destruct (handle_decimal_exact width scale limit Hwidth Hscale NEGATIVE s _ (c - 48) Hinv Hfresh ltac:(lia)) as (s' & E & Hfresh' & Edig' & Eset' & Eround' & Edc' & Hinv').
  exists s'. split; [exact E|]. assert (Hroom : (scale <= room digits)%nat) by (unfold room; lia).
  assert (Hmore : (digit_count s + decimal_count s <? MAX) = bool_decide (length p < room digits)%nat).
  { rewrite Edig, Edc. apply eq_bool_prop_intro. rewrite bool_decide_spec, Is_true_true, Z.ltb_lt. unfold room. lia. }
  rewrite Hmore in *. split; rewrite ?length_app; cbn [length].
  - done.
  - congruence.
  - rewrite Edc', Edc. case_bool_decide; cbn [Z.b2z]; lia.
  - case_bool_decide.
    + rewrite Nat.min_l in * by lia. rewrite take_ge in Hinv' by lia. rewrite take_ge by (rewrite length_app; cbn; lia). by rewrite digits_value_snoc.
    + rewrite Nat.min_r in * by lia. by rewrite take_app_le by lia.
  - rewrite Eset', Eset, Edc. apply eq_bool_prop_intro. rewrite orb_True, !bool_decide_spec. lia.
  - intros Hlt. rewrite Eround', Eset, Edc. destruct (decide (scale = length p)) as [->|Hne].
    + rewrite bool_decide_true, bool_decide_false by lia. cbn [andb negb]. by rewrite nth_middle.
    + rewrite (bool_decide_true (scale < length p)%nat) by lia. rewrite andb_false_r, app_nth1 by lia. apply Eround. lia.
Qed.

Lemma finalized_value M digits ds s : 0 <= digits <= WIDTH - SCALE -> Forall is_digit ds -> decimals_done M digits ds s ->
  finalized width scale limit s (digits_value M (take (length ds `min` room digits) ds)) =
  decimal_value M (digits_value 0 ds) (Z.of_nat (length ds)) SCALE.
Proof.
  intros Hdigits Hds [[Eexc Etype] Edig Edc Hinv Eset Eround]. assert (Hroom : (scale <= room digits)%nat) by (unfold room; lia).
  unfold finalized, rounded_up, dropped. rewrite Etype, Eexc, Edc, Eset. rewrite (bool_decide_false (EXPONENT_NONE = EXPONENT_POSITIVE)) by done.
  rewrite (bool_decide_true (EXPONENT_NONE <> EXPONENT_POSITIVE)), (bool_decide_true (EXPONENT_NONE = EXPONENT_NONE)) by done. cbn [andb orb].
  destruct (decide (scale < length ds)%nat) as [Hlt|Hge].
  - rewrite bool_decide_true, Eround by done. rewrite value_rounded by done. cbn [andb].
    set (n := (length ds `min` room digits)%nat) in *. assert (Hk : (if SCALE <? Z.of_nat n then Z.of_nat n - SCALE else 0) = Z.of_nat (n - scale)) by (destruct (Z.ltb_spec SCALE (Z.of_nat n)); lia).
    rewrite Hk, taken_value by (done || lia). destruct (Z.eqb_spec (Z.of_nat (n - scale)) 0); rewrite Z.max_l by lia; change (10 ^ 0) with 1; by rewrite Z.mul_1_r.
  - rewrite bool_decide_false by done. cbn [andb Z.b2z]. rewrite value_scaled, Nat.min_l, take_ge by lia.
    assert ((SCALE <? Z.of_nat (length ds)) = false) as -> by (apply Z.ltb_ge; lia). cbn [Z.eqb]. change (10 ^ 0) with 1. rewrite Z.div_1_r, Z.add_0_r.
    by rewrite Z.max_r by lia.
Qed.

Lemma zero_decimals M s : cast_inv NEGATIVE 0 s -> only_digits width scale limit s -> number s = signed NEGATIVE M -> 0 <= M ->
  0 <= digit_count s <= WIDTH - SCALE /\ decimals_done M (digit_count s) [] s.
Proof.
  intros ([m Hinv] & Hfresh & _) (Edc & Eset & _) Hv HM. pose proof Hinv as [Hs _ Hdig _ _ _]. split; [done|].
  assert (m = M) as ->. { destruct Hs as (_ & Hv' & Hm). cbn [number laws DecimalCastLaws] in Hv. rewrite Hv in Hv'. unfold signed in Hv'. destruct NEGATIVE; lia. }
  split; try done. cbn. lia.
Qed.

Lemma decimal_loop_exact pre itext ids ftext fds trail e : number_text NEGATIVE pre itext ids ftext fds trail e -> spaces trail ->
  let v := decimal_value (digits_value 0 ids) (digits_value 0 fds) (Z.of_nat (length fds)) SCALE in
  returns (IntegerCastLoop NEGATIVE (code ".") (pre ++ itext ++ ftext ++ trail) false (Some (parse_exponent (code ".") false)) (zero_state (T := data)))
    (fun s => holds NEGATIVE (dc_result s) v /\ v < 10 ^ WIDTH) (~ v < 10 ^ WIDTH).
Proof.
  intros Htext Htrail v. pose proof (number_ends _ _ _ _ _ _ _ _ Htext) as Hends. unfold IntegerCastLoop. rewrite (number_position _ _ _ _ _ _ _ _ Htext).
  pose proof Htext as [Hsign Hi Hf He Hany]. assert (Hids : Forall is_digit ids) by (by apply (digits_text_digits itext)).
  assert (Hfds : Forall is_digit fds).
  { destruct Hf as [| |text ds Hg]; [constructor..|]. apply (digits_text_digits text). by right. }
  pose proof (digits_value_below ids Hids) as [HM _]. pose proof (digits_value_below fds Hfds) as HD.
  cbn [mbind attempt_bind mret attempt_ret]. destruct (law_zero (T := data) NEGATIVE (length (itext ++ ftext ++ trail)) ltac:(exact I)) as (Hinv & _ & Hdec & Hz).
  assert (Hv : appended NEGATIVE (number (zero_state (T := data))) ids = signed NEGATIVE (digits_value 0 ids)) by (rewrite Hz; apply appended_value).
  destruct (digits_text_read NEGATIVE (Some (parse_exponent (code ".") false)) itext ids pre (ftext ++ trail) (length pre) (length (pre ++ itext ++ ftext ++ trail)) (zero_state (T := data)))
    as [[Hb ->]|(fuel' & s & Hfuel & Hinv' & Hs & Hdec' & ->)]; [done|intros _; by left|done|done|rewrite (length_app pre); lia| |]; rewrite Hv in *.
  - apply returns_false. cbn [digits_lowest digits_highest laws DecimalCastLaws] in Hb.
    assert (10 ^ (WIDTH - SCALE) <= digits_value 0 ids) by (unfold signed in Hb; destruct NEGATIVE; lia).
    assert (digits_value 0 ids * 10 ^ SCALE <= v) by (apply value_at_least; lia).
    replace WIDTH with (WIDTH - SCALE + SCALE) by lia. rewrite Z.pow_add_r by lia. pose proof (ten_positive SCALE ltac:(lia)). nia.
  - rewrite (app_assoc pre), <- length_app.
    destruct (zero_decimals (digits_value 0 ids) s) as [Hdig Hdone]; [eapply law_fewer, Hinv'; lia|by apply Hdec'|done|done|].
    destruct (fraction_loop_read NEGATIVE (Some (parse_exponent (code ".") false)) fds (decimals_done (digits_value 0 ids) (digit_count s)))
      with (pre := pre ++ itext) (ftext := ftext) (etext := trail) (e := e) (start := length pre) (fuel := fuel') (state := s) as (s' & Hs' & ->); try done.
    { intros p c rest state <- _ Hp. apply decimals_done_step; [done| |done]. by apply Forall_app, proj2, Forall_cons, proj1 in Hfds. }
    { by apply (number_fraction _ _ _ _ _ _ _ _ Htext). }
    rewrite tail_spaces by (done || by apply (number_not_empty _ _ _ _ _ _ _ _ Htext)). cbn [mbind attempt_bind mret attempt_ret].
    pose proof Hs' as [[Hexc _] _ _ Hinv2 _ _].
    eapply returns_bind; [apply (finalize_decimal_cast width scale limit Hwidth Hscale Hlimit NEGATIVE s' _ Hinv2); lia|..]; rewrite (finalized_value _ (digit_count s)) by done.
    + done.
    + intros s2 (Hs2 & Hlt & _). assert ((length pre <? length (((pre ++ itext) ++ ftext) ++ trail))%nat = true) as ->.
      { apply Nat.ltb_lt. rewrite length_app. pose proof (number_not_empty _ _ _ _ _ _ _ _ Htext). lia. }
      apply returns_ret. by split.
Qed.
End Limit.

Lemma limit_power : exists limit, store_power width = mret limit /\ sok limit /\ sval limit = 10 ^ WIDTH.
Proof. apply (s_power (R := R) width Hwidth). Qed.

(** A number without an exponent is rounded half away from zero, and is the result if it has at most [width] digits. *)
Lemma decimal_cast_exact NEGATIVE lead pre itext ids ftext fds trail e : spaces lead -> number_text NEGATIVE pre itext ids ftext fds trail e -> spaces trail ->
  let v := decimal_value (digits_value 0 ids) (digits_value 0 fds) (Z.of_nat (length fds)) SCALE in
  returns (TryDecimalStringCast (code ".") (lead ++ pre ++ itext ++ ftext ++ trail) width scale)
    (fun r : R => holds NEGATIVE r v /\ v < 10 ^ WIDTH) (~ v < 10 ^ WIDTH).
Proof.
  intros Hlead Htext Htrail v. unfold TryDecimalStringCast. destruct limit_power as (limit & -> & Hlimit). cbn [run mbind attempt_bind checked_bind mret attempt_ret checked_ret].
  rewrite (number_cast NEGATIVE _ _ _ _ _ ids _ fds _ e) by done. eapply returns_bind; [by apply (decimal_loop_exact limit Hlimit NEGATIVE _ _ ids _ fds _ e)|done|].
  intros s Hs. by apply returns_ret.
Qed.

Lemma decimal_cast_total separator buf : CharacterIsSpace separator = false -> returns (TryDecimalStringCast separator buf width scale) (sok (R := R)) True.
Proof.
  intros Hsep. unfold TryDecimalStringCast. destruct limit_power as (limit & -> & Hlimit). cbn [run mbind attempt_bind checked_bind mret attempt_ret checked_ret].
  pose (DecimalCastLaws width scale limit Hwidth Hscale Hlimit) as HL.
  eapply returns_bind; [apply (try_integer_cast_total (HL := HL)); done|done|]. intros s Hs. by apply returns_ret.
Qed.
End Decimal.
