(* ===== verification/DecimalFormatFacts.v ===== *)
(** * Decimals as text

    [DecimalToString] writes a decimal of the width as a number whose value is the decimal's, into a
    buffer of exactly the length computed for it; [TryDecimalStringCast] reads it back. *)

From Stdlib Require Import Ascii.
From S2P Require Import Prelude DateText DateTextFacts Hugeint HugeintFacts HugeintDivisionFacts IntegerOps IntegerOpsFacts IntegerCast.
From S2P Require Import IntegerCastFacts IntegerTextFacts NumberText IntegerFormat IntegerFormatFacts DecimalCast DecimalStoreFacts DecimalCastFacts.
From S2P Require Import DecimalTextFacts.

Local Open Scope Z_scope.

(** ** The text of a number *)

(** [text] is the magnitude [a] with [scale] digits behind the point, in [length] characters. *)
Definition decimal_text (NEGATIVE : bool) (width scale : nat) (a : Z) (text : list Z) : Prop :=
  exists itext ftext fds, text = itext ++ ftext /\ number_text NEGATIVE (if NEGATIVE then [code "-"] else []) itext itext ftext fds [] 0 /\
    decimal_value (digits_value 0 itext) (digits_value 0 fds) (Z.of_nat (length fds)) (Z.of_nat scale) = a.

(** [DecimalLength] without the sign, for a magnitude of [n] digits. *)
Definition body_length (width scale : nat) (n : Z) : Z :=
  if (scale =? 0)%nat then n else Z.max (Z.of_nat scale + (if (scale <? width)%nat then 2 else 1)) (n + 1).

Lemma sign_characters (NEGATIVE : bool) : sign_text false NEGATIVE (if NEGATIVE then [code "-"] else []).
Proof. destruct NEGATIVE; [apply minus_sign|apply no_sign]. Qed.

Lemma digits_group v ds : decimal_digits v ds -> grouped CharacterIsDigit true ds ds /\ ds <> [].
Proof.
  intros [Hds _ (Hlen & _)]. assert (ds <> []) by (intros ->; cbn in Hlen; lia). split; [by apply plain_group|done].
Qed.

Lemma whole_text NEGATIVE width a ds : decimal_digits a ds -> decimal_text NEGATIVE width 0 a ds.
Proof.
  intros Hds. destruct (digits_group a ds Hds) as [Hg Hne]. exists ds, [], []. rewrite app_nil_r. split; [done|]. split.
  - split; [apply sign_characters|by right|apply no_fraction|by apply no_exponent; constructor|by left].
  - rewrite (value_scaled _ [] 0) by done. cbn [digits_value foldl length Z.of_nat Z.sub]. rewrite (digits_denote _ _ Hds). change (10 ^ (0 - 0)) with 1. lia.
Qed.

(** The digits of the part before the point, which is left out if there is room for none, and those behind it. *)
Lemma point_number NEGATIVE width scale a major minor : (0 < scale <= width)%nat -> 0 <= a < 10 ^ Z.of_nat width ->
  decimal_digits (a / 10 ^ Z.of_nat scale) major -> decimal_digits (a mod 10 ^ Z.of_nat scale) minor ->
  decimal_text NEGATIVE width scale a (point_text width scale major minor) /\
  forall n, has_digits a n -> Z.of_nat (length (point_text width scale major minor)) = body_length width scale n.
Proof.
  intros Hscale Ha HM Hm. pose proof (ten_positive (Z.of_nat scale) ltac:(lia)) as Hp. pose proof (Z.div_mod a (10 ^ Z.of_nat scale) ltac:(lia)) as Ea.
  pose proof (Z.mod_pos_bound a (10 ^ Z.of_nat scale) Hp) as Hmod. assert (Hq : 0 <= a / 10 ^ Z.of_nat scale) by (apply Z.div_pos; lia).
  assert (Hlen : length (pad_zeros scale minor) = scale).
  { apply pad_length. destruct (digits_minimal _ _ Hm) as (_ & _ & [?|Hge]); [lia|]. destruct (Nat.le_gt_cases (length minor) scale) as [|Hgt]; [done|].
    assert (10 ^ Z.of_nat scale <= 10 ^ (Z.of_nat (length minor) - 1)) by (apply Z.pow_le_mono_r; lia). lia. }
  destruct (pad_digits scale minor (all_digits _ _ Hm)) as [Hpad Hpv]. rewrite (digits_denote _ _ Hm) in Hpv. set (fds := pad_zeros scale minor) in *.
  set (itext := if (scale <? width)%nat then major else []).
  assert (Hi : digits_text itext itext /\ digits_value 0 itext = a / 10 ^ Z.of_nat scale).
  { subst itext. destruct (Nat.ltb_spec scale width); [split; [right; by apply (digits_group _ _ HM)|apply HM]|]. split; [by left|].
    replace scale with width by lia. by rewrite Z.div_small. }
  destruct Hi as [Hi Hiv]. split.
  - exists itext, (code "." :: fds), fds. split; [done|]. split.
    + split; [apply sign_characters|done|apply fraction, plain_group; [done|intros E; rewrite E in Hlen; cbn in Hlen; lia]|apply no_exponent; constructor|right].
      intros E. rewrite E in Hlen. cbn in Hlen. lia.
    + rewrite value_scaled by lia. rewrite digits_value_from, Hiv, Hpv, Hlen, Z.sub_diag. change (10 ^ 0) with 1. lia.
  - intros n Hn. unfold point_text, body_length. fold itext fds. rewrite length_app. cbn [length]. rewrite Hlen.
    assert ((scale =? 0)%nat = false) as -> by (apply Nat.eqb_neq; lia). destruct Hn as (Hn1 & Hlt & Hge). subst itext. destruct (Nat.ltb_spec scale width) as [Hw|Hw].
    + pose proof (digits_minimal _ _ HM) as (Hl1 & Hllt & Hlge). destruct (Z.eq_dec (a / 10 ^ Z.of_nat scale) 0) as [Ez|Hnz].
      * assert (Z.of_nat (length major) = 1). { destruct Hlge as [?|Hlge]; [done|]. pose proof (ten_positive (Z.of_nat (length major) - 1) ltac:(lia)). lia. }
        assert (n <= Z.of_nat scale). { destruct Hge as [->|Hge]; [lia|]. apply Z.nlt_ge. intros Hgt. assert (10 ^ Z.of_nat scale <= 10 ^ (n - 1)) by (apply Z.pow_le_mono_r; lia). lia. }
        lia.
      * assert (En : n = Z.of_nat (length major) + Z.of_nat scale); [|lia]. apply (has_digits_unique a); [done|]. split; [lia|]. rewrite Z.pow_add_r by lia. split; [nia|right].
        replace (Z.of_nat (length major) + Z.of_nat scale - 1) with (Z.of_nat (length major) - 1 + Z.of_nat scale) by lia. rewrite Z.pow_add_r by lia.
        destruct Hlge as [->|Hlge]; [change (10 ^ (1 - 1)) with 1; nia|nia].
    + cbn [length]. replace scale with width in * by lia. assert (n <= Z.of_nat width); [|lia].
      destruct Hge as [->|Hge]; [lia|]. apply Z.nlt_ge. intros Hgt. assert (10 ^ Z.of_nat width <= 10 ^ (n - 1)) by (apply Z.pow_le_mono_r; lia). lia.
Qed.

(** ** Decimals of up to 18 digits *)

Section Integers.
Context (d : decimal_type) (width scale : nat).
Abbreviation t := (stored_in d).
Abbreviation max := (max_width (R := stored (stored_in d))).
Context (Hwidth : (width <= max)%nat) (Hscale : (scale <= width)%nat).

Lemma stored_width : 10 ^ Z.of_nat max <= 10 ^ 18 /\ 10 ^ Z.of_nat max < Maximum t /\ (max <= 18)%nat.
Proof. destruct d; (split; [by vm_compute|split; [by vm_compute|cbn; lia]]). Qed.

Lemma decimal_format v : Z.abs v < 10 ^ Z.of_nat width -> exists body,
  DecimalFormat t v width scale = mret (if v <? 0 then code "-" :: body else body) /\ decimal_text (v <? 0) width scale (Z.abs v) body.
Proof.
  intros Hv. destruct stored_width as (H18 & Hmax & Hw18). destruct (stored_signed d) as (Hs & Hmin & _).
  assert (Hpw : 10 ^ Z.of_nat width <= 10 ^ Z.of_nat max) by (apply Z.pow_le_mono_r; lia). assert (Hpos : 0 < 10 ^ Z.of_nat scale <= 10 ^ Z.of_nat width)
    by (split; [apply ten_positive; lia|apply Z.pow_le_mono_r; lia]).
  assert (Hof : forall z, 0 <= z <= 10 ^ Z.of_nat width -> of_type t z /\ of_type (MakeUnsigned t) z) by (clear - Hmax Hpw; intros z Hz; destruct d; cbn [stored_in MakeUnsigned] in *; limits; numbers; lia).
  assert (Hvt : of_type t v) by lia. assert (Habs : (if v <? 0 then cast_to t (- v) else v) = Z.abs v).
  { destruct (Z.ltb_spec v 0); [rewrite cast_to_range by (apply Hof; lia); lia|lia]. }
  unfold DecimalFormat, FormatDecimal. rewrite Habs. rewrite (cast_to_range (MakeUnsigned t) (Z.abs v)) by (apply Hof; lia).
  destruct (signed_length t v Hvt) as (n & Hn & Elen).
  assert (Hword : forall z, 0 <= z <= 10 ^ Z.of_nat width -> 0 <= z < 2 ^ 64) by (assert (10 ^ 18 < 2 ^ 64) by (by vm_compute); lia).
  assert (Hdone : forall body, Z.of_nat (length body) = body_length width scale n ->
    fill (DecimalLength t v width scale) (if v <? 0 then code "-" :: body else body) = mret (if v <? 0 then code "-" :: body else body)).
  { intros body Hbody. apply fill_exact. unfold DecimalLength. rewrite Elen. unfold body_length in Hbody.
    destruct (scale =? 0)%nat; destruct (v <? 0); cbn [length Z.b2z]; destruct (scale <? width)%nat; lia. }
  destruct (Nat.eqb_spec scale 0) as [Ez|Hnz].
  - destruct (digits_written (Z.abs v) (Hword (Z.abs v) ltac:(lia)) []) as (ds & -> & Hds). rewrite app_nil_r. cbn [mbind checked_bind mret checked_ret].
    exists ds. split; [|rewrite Ez; by apply whole_text]. apply Hdone. unfold body_length. rewrite Ez. cbn [Nat.eqb].
    apply (has_digits_unique (Z.abs v)); [apply Hds|done].
  - unfold NumericPower. assert ((scale <? 19)%nat = true) as -> by (apply Nat.ltb_lt; lia). cbn [mbind checked_bind mret checked_ret].
    rewrite (cast_to_range (MakeUnsigned t) (10 ^ Z.of_nat scale)) by (apply Hof; lia). rewrite Z.rem_mod_nonneg, Z.quot_div_nonneg by lia.
    pose proof (Z.mod_pos_bound (Z.abs v) (10 ^ Z.of_nat scale) ltac:(lia)). assert (0 <= Z.abs v / 10 ^ Z.of_nat scale <= Z.abs v) by (split; [apply Z.div_pos; lia|apply Z.div_le_upper_bound; nia]).
    destruct (digits_written (Z.abs v / 10 ^ Z.of_nat scale) (Hword (Z.abs v / 10 ^ Z.of_nat scale) ltac:(lia)) []) as (major & -> & HM).
    destruct (digits_written (Z.abs v mod 10 ^ Z.of_nat scale) (Hword (Z.abs v mod 10 ^ Z.of_nat scale) ltac:(lia)) []) as (minor & -> & Hm). rewrite !app_nil_r.
    destruct (point_number (v <? 0) width scale (Z.abs v) major minor ltac:(lia) ltac:(lia) HM Hm) as [Htext Hlen].
    eexists. split; [|exact Htext]. by apply Hdone, Hlen.
Qed.
End Integers.

(** ** Decimals of up to 38 digits *)

Section Huge.
Context `{Platform} (width scale : nat) (Hwidth : (width <= 38)%nat) (Hscale : (scale <= width)%nat).

Lemma magnitude_huge h : huge_ok h -> Z.abs (value h) < 10 ^ Z.of_nat width ->
  (upper h <? 0) = (value h <? 0) /\ (if value h <? 0 then NegateInPlaceUnchecked h else mret h) = mret (of_value (Z.abs (value h))) /\
  huge_ok (of_value (Z.abs (value h))).
Proof.
  intros Hh Hv. assert (10 ^ Z.of_nat width <= 10 ^ 38) by (apply Z.pow_le_mono_r; lia). assert (10 ^ 38 < 2 ^ 127) by (by vm_compute).
  destruct (abs_value h Hh ltac:(lia)) as [Hsign _]. split; [done|]. split; [|apply of_value_ok; unfold in_s; change (128 - 1) with 127; lia].
  destruct (Z.ltb_spec (value h) 0).
  - rewrite negate_in_place; [by rewrite Z.abs_neq by lia|done|lia].
  - by rewrite Z.abs_eq, of_value_value by (done || lia).
Qed.

Lemma decimal_length_huge h : huge_ok h -> Z.abs (value h) < 10 ^ Z.of_nat width ->
  DecimalLengthHuge h width scale = mret (body_length width scale (UnsignedLengthHuge (of_value (Z.abs (value h)))) + Z.b2z (value h <? 0)).
Proof.
  intros Hh Hv. destruct (magnitude_huge h Hh Hv) as (Hsign & Habs & _). unfold DecimalLengthHuge, body_length. rewrite Hsign, Habs.
  cbn [mbind checked_bind mret checked_ret]. by destruct (scale =? 0)%nat.
Qed.

Lemma decimal_format_huge h : huge_ok h -> Z.abs (value h) < 10 ^ Z.of_nat width -> exists body,
  DecimalFormatHuge h width scale = mret (if value h <? 0 then code "-" :: body else body) /\ decimal_text (value h <? 0) width scale (Z.abs (value h)) body.
Proof.
  intros Hh Hv. destruct (magnitude_huge h Hh Hv) as (Hsign & Habs & Hok). unfold DecimalFormatHuge. rewrite decimal_length_huge by done.
  unfold FormatDecimalHuge. rewrite Hsign, Habs.
  set (a := Z.abs (value h)) in *. assert (Ha : 0 <= a) by lia. pose proof (unsigned_length_huge (of_value a) Hok) as Hn. rewrite value_of_value in Hn. specialize (Hn Ha).
  set (n := UnsignedLengthHuge (of_value a)) in *. cbn [mbind checked_bind mret checked_ret].
  assert (Hdone : forall body, Z.of_nat (length body) = body_length width scale n ->
    fill (body_length width scale n + Z.b2z (value h <? 0)) (if value h <? 0 then code "-" :: body else body) = mret (if value h <? 0 then code "-" :: body else body)).
  { intros body Hbody. apply fill_exact. destruct (value h <? 0); cbn [length Z.b2z]; lia. }
  destruct (Nat.eqb_spec scale 0) as [Ez|Hnz].
  - destruct (format_unsigned_huge (of_value a) Hok) as (ds & -> & Hds); rewrite value_of_value in *; [done|]. cbn [mbind checked_bind mret checked_ret].
    exists ds. split; [|rewrite Ez; by apply whole_text]. apply Hdone. unfold body_length. rewrite Ez. cbn [Nat.eqb]. apply (has_digits_unique a); [apply Hds|done].
  - assert (Hp : 0 < 10 ^ Z.of_nat scale) by (apply ten_positive; lia). unfold ten_to, DivMod. rewrite power_of_ten by lia.
    rewrite divmod_exact; rewrite ?value_of_value; [|done|apply power_ok; lia|lia]. cbn [mbind checked_bind mret checked_ret quotient remainder].
    rewrite Z.quot_div_nonneg, Z.rem_mod_nonneg by lia. pose proof (Z.mod_pos_bound a (10 ^ Z.of_nat scale) Hp) as Hmod.
    assert (Hq : 0 <= a / 10 ^ Z.of_nat scale <= a) by (split; [apply Z.div_pos; lia|apply Z.div_le_upper_bound; nia]).
    assert (Hin : in_s 128 a) by (pose proof (value_range _ Hok) as Hr; by rewrite value_of_value in Hr). unfold in_s in Hin.
    assert (Hmle : a mod 10 ^ Z.of_nat scale <= a) by (apply Z.mod_le; lia).
    destruct (format_unsigned_huge (of_value (a mod 10 ^ Z.of_nat scale))) as (minor & -> & Hm); [apply of_value_ok; unfold in_s; lia|rewrite value_of_value; lia|].
    cbn [mbind checked_bind mret checked_ret]. rewrite wrapped_small by (unfold in_s; lia).
    destruct (format_unsigned_huge (of_value (a / 10 ^ Z.of_nat scale))) as (major & EM & HM); [apply of_value_ok; unfold in_s; lia|rewrite value_of_value; lia|].
    rewrite value_of_value in *. destruct (point_number (value h <? 0) width scale a major minor ltac:(lia) ltac:(lia) HM Hm) as [Htext Htlen].
    exists (point_text width scale major minor). split; [|exact Htext].
    assert (Epoint : (major_digits ← (if (scale <? width)%nat then FormatUnsignedHuge (of_value (a / 10 ^ Z.of_nat scale)) else mret []);
      mret (point_text width scale major_digits minor)) = (mret (point_text width scale major minor) : checked (list Z))).
    { unfold point_text. destruct (scale <? width)%nat; [by rewrite EM|done]. }
    rewrite Epoint. cbn [mbind checked_bind mret checked_ret]. by apply Hdone, Htlen.
Qed.
End Huge.

(** ** Read back *)

Section ReadBack.
Context {R : Type} `{SL : DecimalStoreLaws R} (width scale : nat).
Context (Hwidth : (width <= max_width (R := R))%nat) (Hscale : (scale <= width)%nat).

Lemma text_read_back v body : decimal_text (v <? 0) width scale (Z.abs v) body -> Z.abs v < 10 ^ Z.of_nat width ->
  exists r : R, TryDecimalStringCast (code ".") (if v <? 0 then code "-" :: body else body) width scale = mret r /\ sok r /\ sval r = v.
Proof.
  intros (itext & ftext & fds & -> & Htext & Hval) Hv.
  assert (Ebuf : (if v <? 0 then code "-" :: itext ++ ftext else itext ++ ftext) = [] ++ (if v <? 0 then [code "-"] else []) ++ itext ++ ftext ++ []).
  { rewrite app_nil_r. by destruct (v <? 0). }
  rewrite Ebuf. destruct (decimal_cast_exact width scale Hwidth Hscale (v <? 0) [] (if v <? 0 then [code "-"] else []) itext itext ftext fds [] 0) as ([r|] & -> & Hr);
    [constructor|exact Htext|constructor|..]; rewrite Hval in Hr; [|done].
  destruct Hr as [(Hok & Hvr & _) _]. exists r. split; [done|]. split; [done|]. rewrite Hvr. unfold signed. destruct (Z.ltb_spec v 0); lia.
Qed.
End ReadBack.
