(* ===== verification/DecimalConvert.v ===== *)
(** * Casts of decimals

    Models the casts between decimals and integers of [common/operator/cast_operators.cpp]
    ([TryCastToDecimal] and [TryCastFromDecimal]) and between decimals of
    [function/cast/decimal_cast.cpp], for one value: a cast that reports an error for the value returns
    [false]. The integer types have 8 to 64 bits, or 128 where it is said. *)

From S2P Require Import Prelude Hugeint IntegerOps IntegerFormat.

Local Open Scope Z_scope.

(** [Cast::Operation] between integers: an exception if the value does not fit. *)
Definition cast_operation (SRC DST : integer_type) (input : Z) : checked Z :=
  or_throw (InvalidInputException "value is out of range for the destination type") (mret (TryCastWithOverflowCheck SRC DST input)).

(** ** Booleans and integers as decimals *)

Definition TryCastBoolToDecimal (d : decimal_type) (input : bool) (width scale : nat) : attempt Z :=
  if (scale <? width)%nat then power ← run (NumericPower scale); mret (cast_to (stored_in d) (if input then power else 0))
  else mret (Z.b2z input).

(** [SignedToDecimalOperator] and [UnsignedToDecimalOperator] *)
Definition exceeds_width (SRC : integer_type) (input max_width : Z) : bool :=
  if is_signed SRC then (i64 max_width <=? i64 input) || (i64 input <=? i64 (- max_width)) else u64 max_width <=? u64 input.

Definition StandardNumericToDecimalCast (SRC : integer_type) (d : decimal_type) (input : Z) (width scale : nat) : attempt Z :=
  let DST := stored_in d in
  power ← run (NumericPower (width - scale));
  if exceeds_width SRC input (cast_to DST power) then return_false
  else
    factor ← run (NumericPower scale);
    product ← run (s64 (cast_to DST input * factor));
    mret (cast_to DST product).

Section Huge.
Context `{Platform}.

Definition power_of (n : nat) : checked hugeint_t := if (n <? 39)%nat then mret (ten_to n) else None.

(** The product of a 128-bit integer that is narrower than the width. *)
Definition huge_to_decimal (input : hugeint_t) (width scale : nat) : attempt hugeint_t :=
  max_width ← run (power_of (width - scale));
  if HugeintGreaterThanEquals input max_width || HugeintLessThanEquals input (HugeintNegate max_width) then return_false
  else factor ← run (power_of scale); mret (HugeintMultiplyUnchecked input factor).

Definition NumericToHugeDecimalCast (input : Z) : nat -> nat -> attempt hugeint_t := huge_to_decimal (HugeintConvertInteger input).

(** [HugeintToDecimalCast<DST>], with [Hugeint::Cast<DST>] *)
Definition HugeintToDecimalCast (d : decimal_type) (input : hugeint_t) (width scale : nat) : attempt Z :=
  product ← huge_to_decimal input width scale;
  run (or_throw (OutOfRangeException "value is out of range for the destination type") (mret (TryCast (stored_in d) product))).

(** ** Decimals as integers *)

Definition TryCastHugeDecimalToNumeric (DST : integer_type) (input : hugeint_t) (scale : nat) : attempt Z :=
  power ← run (power_of scale);
  half ← run (HugeintDivMod (if HugeintLessThan input (hugeint_of 0) then HugeintNegate power else power) (hugeint_of 2));
  scaled ← run (HugeintDivMod (hugeint_add input (quotient half)) power);
  Some (Ok (TryCast DST (quotient scaled))).
End Huge.

Definition TryCastDecimalToNumeric (d : decimal_type) (DST : integer_type) (input : Z) (scale : nat) : attempt Z :=
  power ← run (NumericPower scale);
  let fNegate := Z.b2z (input <? 0) in
  let rounding := Z.quot (Z.lxor power (- fNegate) + fNegate) 2 in
  sum ← run (s64 (input + rounding));
  let scaled_value := Z.quot sum power in
  Some (Ok (TryCastWithOverflowCheck (stored_in d) DST (cast_to (stored_in d) scaled_value))).

(** ** Decimals as decimals of another width and scale *)

Definition DecimalScaleUp (s d : decimal_type) (factor input : Z) : checked Z :=
  let RESULT := stored_in d in
  value ← cast_operation (stored_in s) RESULT input;
  product ← arith RESULT (value * factor);
  mret (cast_to RESULT product).

(** [DecimalScaleUpCheckOperator] *)
Definition DecimalScaleUpCheck (s d : decimal_type) (limit factor input : Z) : attempt Z :=
  low ← run (arith (stored_in s) (- limit));
  if (limit <=? input) || (input <=? low) then return_false else run (DecimalScaleUp s d factor input).

Definition TemplatedDecimalScaleUp (s d : decimal_type) (source_width source_scale result_width result_scale : nat) (input : Z) : attempt Z :=
  let scale_difference := (result_scale - source_scale)%nat in
  power ← run (NumericPower scale_difference);
  let multiply_factor := cast_to (stored_in d) power in
  let target_width := (result_width - scale_difference)%nat in
  if (source_width <? target_width)%nat then run (DecimalScaleUp s d multiply_factor input)
  else
    limit ← run (NumericPower target_width);
    DecimalScaleUpCheck s d (cast_to (stored_in s) limit) multiply_factor input.

Definition DecimalScaleDown (s d : decimal_type) (factor input : Z) : checked Z :=
  let INPUT := stored_in s in
  let scaling := Z.quot factor 2 in
  if scaling =? 0 then None
  else
    let input := Z.quot input scaling in
    input ← arith INPUT (if input <? 0 then input - 1 else input + 1);
    cast_operation INPUT (stored_in d) (Z.quot (cast_to INPUT input) 2).

Definition CanScaleDownDecimal (s : decimal_type) (limit factor input : Z) : checked bool :=
  let INPUT := stored_in s in
  let divisor := i64 factor in
  let value := Z.rem input divisor in
  negated ← (if input <? 0 then arith INPUT (input * -1) else mret input);
  let rounded_input := cast_to INPUT negated in
  let value := if input <? 0 then value * -1 else value in
  sum ← (if Z.quot divisor 2 <=? value then s64 (rounded_input + divisor) else mret rounded_input);
  let rounded_input := cast_to INPUT sum in
  low ← arith INPUT (- limit);
  mret ((rounded_input <? limit) && (low <? rounded_input)).

(** [DecimalScaleDownCheckOperator] *)
Definition DecimalScaleDownCheck (s d : decimal_type) (limit factor input : Z) : attempt Z :=
  can ← run (CanScaleDownDecimal s limit factor input);
  if can : bool then run (DecimalScaleDown s d factor input) else return_false.

Definition TemplatedDecimalScaleDown (s d : decimal_type) (source_width source_scale result_width result_scale : nat) (input : Z) : attempt Z :=
  let scale_difference := (source_scale - result_scale)%nat in
  let target_width := (result_width + scale_difference)%nat in
  power ← run (NumericPower scale_difference);
  let divide_factor := cast_to (stored_in s) power in
  if (source_width <? target_width)%nat then run (DecimalScaleDown s d divide_factor input)
  else
    limit ← run (NumericPower target_width);
    DecimalScaleDownCheck s d (cast_to (stored_in s) limit) divide_factor input.

Definition DecimalDecimalCast (s d : decimal_type) (source_width source_scale result_width result_scale : nat) (input : Z) : attempt Z :=
  if (source_scale <=? result_scale)%nat then TemplatedDecimalScaleUp s d source_width source_scale result_width result_scale input
  else TemplatedDecimalScaleDown s d source_width source_scale result_width result_scale input.
