(* ===== verification/DecimalConvertFacts.v ===== *)
(** * Casts of decimals: facts

    A cast to a decimal multiplies by the power of ten of the scale, and fails exactly when the result
    has more digits than the width; a cast from one, or to a smaller scale, rounds half away from zero. *)

From S2P Require Import Prelude DateText Hugeint HugeintFacts HugeintDivisionFacts IntegerOps IntegerOpsFacts IntegerCast IntegerCastFacts NumberText.
From S2P Require Import IntegerFormat IntegerFormatFacts DecimalCast DecimalStoreFacts DecimalConvert.

Local Open Scope Z_scope.

(** [DecimalWidth::max] *)
Abbreviation max_digits d := (max_width (R := stored (stored_in d))).

(** What a cast to a decimal promises. *)
Definition fits_width (width : nat) (v : Z) : bool := Z.abs v <? 10 ^ Z.of_nat width.

(** ** Powers of ten *)

Lemma power_run {A} n (f : Z -> attempt A) : (n <= 18)%nat -> (run (NumericPower n) ≫= f) = f (10 ^ Z.of_nat n).
Proof. intros Hn. unfold NumericPower. by assert ((n <? 19)%nat = true) as -> by (apply Nat.ltb_lt; lia). Qed.

Lemma power_bounds m n : (m <= n)%nat -> 0 < 10 ^ Z.of_nat m <= 10 ^ Z.of_nat n.
Proof. intros Hmn. split; [apply ten_positive; lia|apply Z.pow_le_mono_r; lia]. Qed.

Lemma store_bounds d : (max_digits d <= 18)%nat /\ 2 * 10 ^ Z.of_nat (max_digits d) < Maximum (stored_in d) /\ Minimum (stored_in d) = - Maximum (stored_in d) - 1 /\
  Maximum (stored_in d) <= 2 ^ 63 - 1.
Proof. destruct d; (split; [cbn; lia|by vm_compute]). Qed.

Lemma i64_small z : - 2 ^ 63 <= z <= 2 ^ 63 - 1 -> i64 z = z.
Proof. intros Hz. apply (cast_to_range INT64). limits. numbers. lia. Qed.

Lemma power_even n : exists q, 10 ^ Z.of_nat (S n) = 2 * q /\ 0 < q.
Proof. exists (5 * 10 ^ Z.of_nat n). rewrite Nat2Z.inj_succ, Z.pow_succ_r by lia. pose proof (ten_positive (Z.of_nat n)). lia. Qed.

Lemma double_half q : 0 < q -> Z.quot (2 * q) 2 = q /\ 2 * q / 2 = q.
Proof. intros Hq. rewrite Z.quot_div_nonneg by lia. rewrite Z.mul_comm, Z.div_mul; [by split|lia]. Qed.

(** Rounding with the half added before the division. *)
Lemma half_away_power a n : 0 <= a -> half_away a (10 ^ Z.of_nat n) = (a + 10 ^ Z.of_nat n / 2) / 10 ^ Z.of_nat n.
Proof.
  intros Ha. destruct n as [|n]; [change (10 ^ Z.of_nat 0) with 1; by rewrite half_away_one, Z.add_0_r, Z.div_1_r|].
  destruct (power_even n) as (q & -> & Hq). unfold half_away. rewrite (proj2 (double_half q Hq)).
  replace (2 * a + 2 * q) with (2 * (a + q)) by ring. by rewrite Z.div_mul_cancel_l by lia.
Qed.

Lemma quot_of_signed (NEGATIVE : bool) a p : 0 <= a -> 0 < p -> Z.quot (signed NEGATIVE a) p = signed NEGATIVE (a / p).
Proof. intros Ha Hp. unfold signed. destruct NEGATIVE; [rewrite Z.quot_opp_l by lia|]; by rewrite Z.quot_div_nonneg by lia. Qed.

Lemma signed_abs v : v = signed (v <? 0) (Z.abs v).
Proof. unfold signed. destruct (Z.ltb_spec v 0); lia. Qed.

Lemma rem_abs v p : 0 < p -> Z.rem v p = signed (v <? 0) (Z.abs v mod p).
Proof.
  intros Hp. unfold signed. destruct (Z.ltb_spec v 0).
  - rewrite Z.abs_neq, <- Z.rem_mod_nonneg, <- Z.rem_opp_l, Z.opp_involutive by lia. done.
  - by rewrite Z.abs_eq, Z.rem_mod_nonneg by lia.
Qed.

Lemma abs_signed (NEGATIVE : bool) a : 0 <= a -> Z.abs (signed NEGATIVE a) = a.
Proof. intros Ha. unfold signed. destruct NEGATIVE; lia. Qed.

(** [value] with the scale changed by [shift], rounded half away from zero. *)
Definition rescaled (value shift : Z) : Z := signed (value <? 0) (decimal_value (Z.abs value) 0 0 shift).

Lemma rescaled_up value n : rescaled value (Z.of_nat n) = value * 10 ^ Z.of_nat n.
Proof.
  unfold rescaled, decimal_value. rewrite Z.max_r, Z.max_l by lia. change (10 ^ 0) with 1. rewrite half_away_one.
  unfold signed. destruct (Z.ltb_spec value 0); [rewrite Z.abs_neq by lia|rewrite Z.abs_eq by lia]; ring.
Qed.

Lemma rescaled_down value n : rescaled value (- Z.of_nat n) = signed (value <? 0) ((Z.abs value + 10 ^ Z.of_nat n / 2) / 10 ^ Z.of_nat n).
Proof.
  unfold rescaled, decimal_value. rewrite Z.opp_involutive, (Z.max_l 0 (- Z.of_nat n)), Z.max_r by lia. change (10 ^ 0) with 1.
  rewrite !Z.mul_1_r, Z.add_0_r. change (0 + Z.of_nat n) with (Z.of_nat n). by rewrite half_away_power by lia.
Qed.

(** ** Integers as decimals *)

Lemma scaled_fits x scale width : (scale <= width)%nat -> fits_width width (x * 10 ^ Z.of_nat scale) = (Z.abs x <? 10 ^ Z.of_nat (width - scale)).
Proof.
  intros Hscale. unfold fits_width. pose proof (ten_positive (Z.of_nat scale) ltac:(lia)). rewrite Z.abs_mul, (Z.abs_eq (10 ^ _)) by lia.
  replace (10 ^ Z.of_nat width) with (10 ^ Z.of_nat (width - scale) * 10 ^ Z.of_nat scale) by (rewrite <- Z.pow_add_r by lia; f_equal; lia).
  apply eq_bool_prop_intro. rewrite !Is_true_true, !Z.ltb_lt. symmetry. by apply Z.mul_lt_mono_pos_r.
Qed.

Lemma to_decimal_exact SRC d x width scale : of_type SRC x -> (width <= max_digits d)%nat -> (scale <= width)%nat ->
  StandardNumericToDecimalCast SRC d x width scale = checked_result (fits_width width (x * 10 ^ Z.of_nat scale)) (x * 10 ^ Z.of_nat scale).
Proof.
  intros Hx Hw Hs. destruct (store_bounds d) as (H18 & Hmax & Hmin & H63). unfold StandardNumericToDecimalCast. rewrite power_run by lia.
  pose proof (power_bounds (width - scale) (max_digits d) ltac:(lia)) as Hp. pose proof (power_bounds scale (max_digits d) ltac:(lia)) as Hps.
  rewrite cast_to_range, scaled_fits by lia. set (p := 10 ^ Z.of_nat (width - scale)) in *.
  assert (Hexceeds : exceeds_width SRC x p = negb (Z.abs x <? p)).
  { unfold exceeds_width. rewrite <- Z.leb_antisym. apply eq_bool_prop_intro. clearbody p.
    destruct (is_signed SRC) eqn:Hsg; rewrite !Is_true_true, ?orb_true_iff, !Z.leb_le.
    - rewrite !i64_small by (destruct SRC; try done; limits; numbers; lia). lia.
    - unfold u64, wrapu. rewrite !Z.mod_small by (destruct SRC; try done; limits; numbers; lia). destruct SRC; try done; limits; lia. }
  rewrite Hexceeds. destruct (Z.ltb_spec (Z.abs x) p) as [Hlt|Hge]; cbn [negb checked_result]; [|done].
  assert (Hprod : Z.abs (x * 10 ^ Z.of_nat scale) < 10 ^ Z.of_nat (max_digits d)).
  { pose proof (scaled_fits x scale width Hs) as E. fold p in E. rewrite (proj2 (Z.ltb_lt _ _) Hlt) in E. unfold fits_width in E. apply Z.ltb_lt in E.
    pose proof (power_bounds width (max_digits d) Hw). lia. }
  rewrite power_run, cast_to_range by lia. rewrite s64_run by (unfold in_s; numbers; lia). by rewrite cast_to_range by lia.
Qed.

Lemma bool_to_decimal d (b : bool) width scale : (width <= max_digits d)%nat -> (scale < width)%nat ->
  TryCastBoolToDecimal d b width scale = mret (Z.b2z b * 10 ^ Z.of_nat scale).
Proof.
  intros Hw Hs. destruct (store_bounds d) as (H18 & Hmax & Hmin & _). unfold TryCastBoolToDecimal. apply Nat.ltb_lt in Hs as Hlt. rewrite Hlt, power_run by lia.
  pose proof (power_bounds scale (max_digits d) ltac:(lia)). rewrite cast_to_range by (destruct b; lia). destruct b; cbn [Z.b2z]; f_equal; f_equal; f_equal; lia.
Qed.

(** ** Decimals as integers *)

Lemma conditional_negate (b : bool) power : Z.lxor power (- Z.b2z b) + Z.b2z b = if b then - power else power.
Proof. destruct b; cbn [Z.b2z]; [change (- (1)) with (-1); rewrite Z.lxor_m1_r; unfold Z.lnot; lia|by rewrite Z.lxor_0_r, Z.add_0_r]. Qed.

Lemma from_decimal_exact d DST x scale : Z.abs x < 10 ^ Z.of_nat (max_digits d) -> (scale <= max_digits d)%nat ->
  TryCastDecimalToNumeric d DST x scale = exactly DST (rescaled x (- Z.of_nat scale)).
Proof.
  intros Hx Hs. destruct (store_bounds d) as (H18 & Hmax & Hmin & H63). unfold TryCastDecimalToNumeric. rewrite power_run by lia.
  rewrite conditional_negate, rescaled_down. pose proof (power_bounds scale (max_digits d) Hs) as Hp. set (p := 10 ^ Z.of_nat scale) in *.
  assert (Hhalf : Z.quot (if x <? 0 then - p else p) 2 = signed (x <? 0) (p / 2)) by (rewrite <- quot_of_signed by lia; unfold signed; by destruct (x <? 0)).
  rewrite Hhalf. assert (Hsum : x + signed (x <? 0) (p / 2) = signed (x <? 0) (Z.abs x + p / 2)) by (unfold signed; destruct (Z.ltb_spec x 0); lia).
  assert (0 <= p / 2 <= p) by (split; [apply Z.div_pos; lia|apply Z.div_le_upper_bound; lia]).
  assert (Hq : 0 <= (Z.abs x + p / 2) / p <= Z.abs x + p / 2) by (split; [apply Z.div_pos; lia|apply Z.div_le_upper_bound; nia]).
  rewrite Hsum, s64_run by (unfold in_s, signed; numbers; destruct (x <? 0); lia). rewrite quot_of_signed by lia.
  rewrite cast_to_range by (unfold signed; destruct (x <? 0); lia). rewrite try_cast_check_exact by (unfold signed; destruct (x <? 0); lia). unfold checked_result. by destruct (in_type _ _).
Qed.

(** ** Decimals as decimals *)

(** Halves are divided away first, so that nothing overflows. *)
Lemma half_steps a n : 0 <= a -> (Z.quot a (10 ^ Z.of_nat (S n) / 2) + 1) / 2 = (a + 10 ^ Z.of_nat (S n) / 2) / 10 ^ Z.of_nat (S n).
Proof.
  intros Ha. destruct (power_even n) as (q & -> & Hq). rewrite (proj2 (double_half q Hq)).
  rewrite Z.quot_div_nonneg by lia. rewrite (Z.mul_comm 2 q), <- Z.div_div by lia. f_equal. rewrite <- (Z.mul_1_l q) at 2. by rewrite Z.div_add by lia.
Qed.

Lemma quot_below a q : 0 <= a -> 0 < q -> 0 <= Z.quot a q <= a.
Proof. intros Ha Hq. rewrite Z.quot_div_nonneg by lia. split; [apply Z.div_pos; lia|apply Z.div_le_upper_bound; nia]. Qed.

Lemma halved_below b a : 0 <= b <= a -> 0 <= (b + 1) / 2 <= a.
Proof. intros Hb. split; [apply Z.div_pos; lia|]. apply Z.lt_succ_r, Z.div_lt_upper_bound; lia. Qed.

Lemma below_multiple a p N : 0 < p -> (a <? N * p) = (a / p <? N).
Proof.
  intros Hp. apply eq_bool_prop_intro. rewrite !Is_true_true, !Z.ltb_lt. pose proof (Z.div_mod a p ltac:(lia)). pose proof (Z.mod_pos_bound a p Hp). nia.
Qed.

(** The remainder decides as the rounding does. *)
Lemma rounded_quotient a n : 0 <= a -> let p := 10 ^ Z.of_nat (S n) in (a + p / 2) / p = (if p / 2 <=? a mod p then a + p else a) / p.
Proof.
  intros Ha p. destruct (power_even n) as (q & Eq & Hq). fold p in Eq. clearbody p. destruct (double_half q Hq) as [_ Ediv]. rewrite <- Eq in Ediv. rewrite Ediv.
  pose proof (Z.div_mod a p ltac:(lia)) as Ea. pose proof (Z.mod_pos_bound a p ltac:(lia)) as Hm. destruct (Z.leb_spec q (a mod p)).
  - rewrite <- (Z.mul_1_l p) at 2. rewrite Z.div_add by lia. symmetry. apply (Z.div_unique _ _ _ (a mod p + q - p)); lia.
  - symmetry. apply (Z.div_unique _ _ _ (a mod p + q)); lia.
Qed.

Section Rescale.
Context (s d : decimal_type) (source_width source_scale result_width result_scale : nat).
Context (Hsw : (source_width <= max_digits s)%nat) (Hrw : (result_width <= max_digits d)%nat).
Context (Hss : (source_scale <= source_width)%nat) (Hrs : (result_scale <= result_width)%nat).
Context (x : Z) (Hx : Z.abs x < 10 ^ Z.of_nat source_width).

Lemma cast_operation_exact SRC DST z : of_type SRC z -> of_type DST z -> cast_operation SRC DST z = mret z.
Proof.
  intros Hs Hd. unfold cast_operation. rewrite try_cast_check_exact by done. by destruct (in_type_spec DST z).
Qed.

Lemma source_range z : Z.abs z <= 2 * 10 ^ Z.of_nat (max_digits s) -> of_type (stored_in s) z.
Proof. destruct (store_bounds s) as (_ & Hmax & Hmin & _). lia. Qed.

Lemma result_range z : Z.abs z <= 2 * 10 ^ Z.of_nat (max_digits d) -> of_type (stored_in d) z.
Proof. destruct (store_bounds d) as (_ & Hmax & Hmin & _). lia. Qed.

Lemma scale_up_exact' n : Z.abs (x * 10 ^ Z.of_nat n) < 10 ^ Z.of_nat (max_digits d) ->
  DecimalScaleUp s d (10 ^ Z.of_nat n) x = mret (x * 10 ^ Z.of_nat n).
Proof.
  intros Hv. pose proof (power_bounds source_width (max_digits s) Hsw). pose proof (ten_positive (Z.of_nat n) ltac:(lia)).
  assert (Z.abs x <= Z.abs (x * 10 ^ Z.of_nat n)) by (rewrite Z.abs_mul; nia).
  unfold DecimalScaleUp. rewrite cast_operation_exact by (apply source_range || apply result_range; lia). cbn [mbind checked_bind mret checked_ret].
  rewrite arith_exact by (apply promoted_range, result_range; lia). cbn [mbind checked_bind mret checked_ret]. by rewrite cast_to_range by (apply result_range; lia).
Qed.

Lemma rescale_up_exact : (source_scale <= result_scale)%nat -> let v := rescaled x (Z.of_nat result_scale - Z.of_nat source_scale) in
  TemplatedDecimalScaleUp s d source_width source_scale result_width result_scale x = checked_result (fits_width result_width v) v.
Proof.
  intros Hle v. subst v. unfold TemplatedDecimalScaleUp. set (n := (result_scale - source_scale)%nat).
  replace (Z.of_nat result_scale - Z.of_nat source_scale) with (Z.of_nat n) by lia. rewrite rescaled_up.
  destruct (store_bounds s) as (Hs18 & _). destruct (store_bounds d) as (Hd18 & _).
  pose proof (power_bounds n (max_digits d) ltac:(lia)) as Hpn. pose proof (power_bounds source_width (max_digits s) Hsw) as Hps. pose proof (power_bounds result_width (max_digits d) Hrw) as Hpr.
  rewrite power_run, cast_to_range by (lia || apply result_range; lia).
  assert (Hfits : fits_width result_width (x * 10 ^ Z.of_nat n) = (Z.abs x <? 10 ^ Z.of_nat (result_width - n))) by (apply scaled_fits; lia).
  assert (Hexact : fits_width result_width (x * 10 ^ Z.of_nat n) = true -> run (DecimalScaleUp s d (10 ^ Z.of_nat n) x) = mret (x * 10 ^ Z.of_nat n)).
  { unfold fits_width. rewrite Z.ltb_lt. intros Hv. by rewrite scale_up_exact' by lia. }
  destruct (Nat.ltb_spec source_width (result_width - n)) as [Hlt|Hge].
  - pose proof (power_bounds source_width (result_width - n) ltac:(lia)). rewrite Hexact; rewrite Hfits, (proj2 (Z.ltb_lt _ _)) by lia; done.
  - pose proof (power_bounds (result_width - n) source_width ltac:(lia)). rewrite power_run, cast_to_range by (lia || apply source_range; lia).
    unfold DecimalScaleUpCheck. rewrite arith_bind by (apply promoted_range, source_range; lia).
    assert (Hout : (10 ^ Z.of_nat (result_width - n) <=? x) || (x <=? - 10 ^ Z.of_nat (result_width - n)) = negb (fits_width result_width (x * 10 ^ Z.of_nat n))).
    { rewrite Hfits, <- Z.leb_antisym. apply eq_bool_prop_intro. rewrite !Is_true_true, orb_true_iff, !Z.leb_le. lia. }
    rewrite Hout. destruct (fits_width _ _); cbn [negb checked_result]; [by apply Hexact|done].
Qed.

Lemma scale_down_exact n : let p := 10 ^ Z.of_nat (S n) in let v := rescaled x (- Z.of_nat (S n)) in (S n <= max_digits s)%nat ->
  Z.abs v < 10 ^ Z.of_nat (max_digits d) -> DecimalScaleDown s d p x = mret v.
Proof.
  intros p v Hn Hv. subst v. rewrite rescaled_down in *. fold p in Hv |- *. pose proof (power_bounds source_width (max_digits s) Hsw) as Hps.
  unfold DecimalScaleDown. pose proof (half_steps (Z.abs x) n ltac:(lia)) as Ehalf. fold p in Ehalf.
  destruct (power_even n) as (q & Eq & Hq). fold p in Eq. clearbody p. destruct (double_half q Hq) as [Equot Ediv]. rewrite <- Eq in Equot, Ediv. rewrite Ediv, Equot in *. assert (q =? 0 = false) as -> by (apply Z.eqb_neq; lia).
  set (b := Z.quot (Z.abs x) q) in *. assert (Hb : 0 <= b <= Z.abs x) by (apply quot_below; lia).
  assert (Exq : Z.quot x q = signed (x <? 0) b) by (rewrite (signed_abs x) at 1; rewrite quot_of_signed by lia; subst b; by rewrite Z.quot_div_nonneg by lia).
  rewrite Exq. assert (Hstep : exists z, (if signed (x <? 0) b <? 0 then signed (x <? 0) b - 1 else signed (x <? 0) b + 1) = z /\ Z.abs z = b + 1 /\ Z.quot z 2 = signed (x <? 0) ((b + 1) / 2)).
  { unfold signed. destruct (Z.ltb_spec x 0); [destruct (Z.ltb_spec (- b) 0)|destruct (Z.ltb_spec b 0); [lia|]]; eexists; (split; [reflexivity|]).
    - replace (- b - 1) with (- (b + 1)) by ring. rewrite Z.quot_opp_l, Z.quot_div_nonneg by lia. lia.
    - assert (b = 0) as -> by lia. done.
    - rewrite Z.quot_div_nonneg by lia. lia. }
  destruct Hstep as (z & -> & Hz & Hzq). assert (Hzs : of_type (stored_in s) z) by (apply source_range; clear - Hz Hb Hx Hps; lia).
  rewrite arith_exact by (by apply promoted_range). cbn [mbind checked_bind mret checked_ret]. rewrite cast_to_range by exact Hzs. rewrite Hzq, Ehalf.
  assert (Hround : 0 <= (Z.abs x + q) / p <= Z.abs x) by (rewrite <- Ehalf; by apply halved_below).
  clear Ehalf Hzq. generalize dependent ((Z.abs x + q) / p). intros r Hv Hr. clear Equot Ediv Eq.
  rewrite cast_operation_exact; [done|apply source_range; rewrite abs_signed; lia|apply result_range; lia].
Qed.

Lemma can_scale_down_exact n : let p := 10 ^ Z.of_nat (S n) in (result_width + S n <= source_width)%nat ->
  CanScaleDownDecimal s (10 ^ Z.of_nat (result_width + S n)) p x = mret (fits_width result_width (rescaled x (- Z.of_nat (S n)))).
Proof.
  intros p Hn. pose proof (power_bounds source_width (max_digits s) Hsw) as Hps. pose proof (power_bounds (result_width + S n) source_width ltac:(lia)) as Hpl.
  pose proof (power_bounds (S n) source_width ltac:(lia)) as Hpn. fold p in Hpn. destruct (store_bounds s) as (_ & Hmax & Hmin & H63).
  assert (Elimit : 10 ^ Z.of_nat (result_width + S n) = 10 ^ Z.of_nat result_width * p) by (unfold p; rewrite <- Z.pow_add_r by lia; f_equal; lia).
  set (L := 10 ^ Z.of_nat (result_width + S n)) in *. unfold CanScaleDownDecimal. rewrite i64_small by lia.
  assert (Hneg : (if x <? 0 then arith (stored_in s) (x * -1) else mret x) = mret (Z.abs x)).
  { destruct (Z.ltb_spec x 0); [rewrite arith_exact by (apply promoted_range, source_range; lia)|]; f_equal; f_equal; lia. }
  rewrite Hneg. cbn [mbind checked_bind mret checked_ret]. rewrite cast_to_range by (apply source_range; lia).
  assert (Hrem : (if x <? 0 then Z.rem x p * -1 else Z.rem x p) = Z.abs x mod p).
  { rewrite rem_abs by lia. unfold signed. destruct (x <? 0); lia. }
  rewrite Hrem, (Z.quot_div_nonneg p 2) by lia. pose proof (rounded_quotient (Z.abs x) n ltac:(lia)) as Hround. fold p in Hround.
  set (r := if p / 2 <=? Z.abs x mod p then Z.abs x + p else Z.abs x) in *. assert (Hr : 0 <= r <= 2 * 10 ^ Z.of_nat (max_digits s)) by (subst r; destruct (_ <=? _); lia).
  assert (Hsum : (if p / 2 <=? Z.abs x mod p then s64 (Z.abs x + p) else mret (Z.abs x)) = mret r).
  { subst r. destruct (_ <=? _); [|done]. apply s64_ok. unfold in_s. numbers. lia. }
  rewrite Hsum. cbn [mbind checked_bind mret checked_ret]. rewrite cast_to_range by (apply source_range; lia).
  rewrite arith_exact by (apply promoted_range, source_range; lia). cbn [mbind checked_bind mret checked_ret]. f_equal. f_equal.
  rewrite rescaled_down. unfold fits_width. fold p. rewrite abs_signed by (apply Z.div_pos; [pose proof (Z.div_pos p 2)|]; lia).
  rewrite Hround, <- below_multiple, <- Elimit by lia. assert ((- L <? r) = true) as -> by (apply Z.ltb_lt; lia). apply andb_true_r.
Qed.

Lemma rescale_down_exact : (result_scale < source_scale)%nat -> let v := rescaled x (Z.of_nat result_scale - Z.of_nat source_scale) in
  TemplatedDecimalScaleDown s d source_width source_scale result_width result_scale x = checked_result (fits_width result_width v) v.
Proof.
  intros Hlt v. subst v. unfold TemplatedDecimalScaleDown. destruct (source_scale - result_scale)%nat as [|n] eqn:En; [lia|].
  replace (Z.of_nat result_scale - Z.of_nat source_scale) with (- Z.of_nat (S n)) by lia. destruct (store_bounds s) as (Hs18 & _).
  pose proof (power_bounds source_width (max_digits s) Hsw) as Hps. pose proof (power_bounds (S n) source_width ltac:(lia)) as Hpn. pose proof (power_bounds result_width (max_digits d) Hrw) as Hpr.
  rewrite power_run, cast_to_range by (lia || apply source_range; lia).
  assert (Hexact : fits_width result_width (rescaled x (- Z.of_nat (S n))) = true -> run (DecimalScaleDown s d (10 ^ Z.of_nat (S n)) x) = mret (rescaled x (- Z.of_nat (S n)))).
  { unfold fits_width. rewrite Z.ltb_lt. intros Hv. by rewrite scale_down_exact by lia. }
  destruct (Nat.ltb_spec source_width (result_width + S n)) as [Hw|Hw].
  - assert (Hfits : fits_width result_width (rescaled x (- Z.of_nat (S n))) = true); [|by rewrite Hexact, Hfits].
    rewrite rescaled_down. unfold fits_width. assert (0 <= 10 ^ Z.of_nat (S n) / 2) by (apply Z.div_pos; lia). rewrite abs_signed by (apply Z.div_pos; lia).
    rewrite <- below_multiple by lia. destruct (power_even n) as (q & Eq & Hq). rewrite Eq in *. rewrite (proj2 (double_half q Hq)). apply Z.ltb_lt.
    pose proof (power_bounds source_width (result_width + n) ltac:(lia)) as Hle. rewrite Nat2Z.inj_add, Z.pow_add_r in Hle by lia.
    assert (E5 : q = 5 * 10 ^ Z.of_nat n) by (rewrite Nat2Z.inj_succ, Z.pow_succ_r in Eq by lia; lia). rewrite E5. pose proof (ten_positive (Z.of_nat n) ltac:(lia)). nia.
  - pose proof (power_bounds (result_width + S n) source_width Hw). rewrite power_run, cast_to_range by (lia || apply source_range; lia).
    unfold DecimalScaleDownCheck. rewrite can_scale_down_exact by done. cbn [run mbind attempt_bind checked_bind mret attempt_ret checked_ret].
    destruct (fits_width _ _); cbn [checked_result]; [by apply Hexact|done].
Qed.

Lemma decimal_rescale_exact : let v := rescaled x (Z.of_nat result_scale - Z.of_nat source_scale) in
  DecimalDecimalCast s d source_width source_scale result_width result_scale x = checked_result (fits_width result_width v) v.
Proof.
  unfold DecimalDecimalCast. destruct (Nat.leb_spec source_scale result_scale); [by apply rescale_up_exact|by apply rescale_down_exact].
Qed.
End Rescale.

(** ** 128-bit integers and decimals *)

Section Huge.
Context `{Platform}.

Lemma power_of_run {A} n (f : hugeint_t -> attempt A) : (n <= 38)%nat -> (run (power_of n) ≫= f) = f (of_value (10 ^ Z.of_nat n)).
Proof.
  intros Hn. unfold power_of, ten_to. assert ((n <? 39)%nat = true) as -> by (apply Nat.ltb_lt; lia). by rewrite power_of_ten.
Qed.

Lemma huge_bounds n : (n <= 38)%nat -> 0 < 10 ^ Z.of_nat n <= 10 ^ 38 /\ 2 * 10 ^ 38 < 2 ^ 128 /\ 10 ^ 38 < 2 ^ 127.
Proof. intros Hn. split; [by apply (power_bounds n 38)|by vm_compute]. Qed.

Lemma huge_to_decimal_exact h width scale : huge_ok h -> (width <= 38)%nat -> (scale <= width)%nat -> let v := value h * 10 ^ Z.of_nat scale in
  huge_to_decimal h width scale = (if fits_width width v then mret (of_value v) else return_false : attempt hugeint_t).
Proof.
  intros Hh Hw Hs v. subst v. destruct (huge_bounds (width - scale)) as (Hp & _ & H127); [lia|]. destruct (huge_bounds width Hw) as (Hpw & _ & _).
  pose proof (power_ok (width - scale) ltac:(lia)) as Hpok. unfold huge_to_decimal. rewrite power_of_run, scaled_fits by lia. set (p := 10 ^ Z.of_nat (width - scale)) in *.
  assert (Hmax : value (of_value p) = p) by apply value_of_value.
  assert (Hout : HugeintGreaterThanEquals h (of_value p) || HugeintLessThanEquals h (HugeintNegate (of_value p)) = negb (Z.abs (value h) <? p)).
  { assert (Hnok : huge_ok (of_value (- p))) by (apply of_value_ok; unfold in_s; change (128 - 1) with 127; lia).
    rewrite negate_result by lia. rewrite greater_equal_value, less_equal_value by assumption. rewrite !value_of_value.
    rewrite <- Z.leb_antisym. apply eq_bool_prop_intro. rewrite !Is_true_true, orb_true_iff, !Z.leb_le. lia. }
  rewrite Hout. destruct (Z.ltb_spec (Z.abs (value h)) p) as [Hlt|Hge]; cbn [negb]; [|done]. rewrite power_of_run by lia.
  assert (Hfits : Z.abs (value h * 10 ^ Z.of_nat scale) < 10 ^ Z.of_nat width).
  { pose proof (scaled_fits (value h) scale width Hs) as E. fold p in E. rewrite (proj2 (Z.ltb_lt _ _) Hlt) in E. by apply Z.ltb_lt in E. }
  pose proof (power_ok scale ltac:(lia)) as Hsok. rewrite multiply_unchecked_wrapped, value_of_value by assumption.
  rewrite wrapped_small; [reflexivity|]. unfold in_s. change (128 - 1) with 127. lia.
Qed.

Lemma huge_rounding x n : (n <= 38)%nat -> Z.abs x < 10 ^ 38 -> let p := 10 ^ Z.of_nat n in let half := Z.quot (if x <? 0 then - p else p) 2 in
  Z.abs (x + half) < 2 ^ 127 /\ Z.quot (x + half) p = rescaled x (- Z.of_nat n).
Proof.
  intros Hn Hx p half. destruct (huge_bounds n Hn) as (Hp & Hbig & H127). fold p in Hp. assert (H15 : 10 ^ 38 + 10 ^ 38 / 2 < 2 ^ 127) by (by vm_compute).
  assert (Hhalf : half = signed (x <? 0) (p / 2)) by (subst half; rewrite <- quot_of_signed by lia; unfold signed; by destruct (x <? 0)).
  assert (Hsum : x + half = signed (x <? 0) (Z.abs x + p / 2)) by (rewrite Hhalf; unfold signed; destruct (Z.ltb_spec x 0); lia).
  assert (0 <= p / 2 <= 10 ^ 38 / 2) by (split; [apply Z.div_pos; lia|apply Z.div_le_mono; lia]).
  rewrite Hsum, abs_signed by lia. split; [lia|]. rewrite quot_of_signed, rescaled_down by lia. done.
Qed.

Lemma from_huge_decimal_exact DST h scale : huge_ok h -> Z.abs (value h) < 10 ^ 38 -> (scale <= 38)%nat ->
  TryCastHugeDecimalToNumeric DST h scale = exactly DST (rescaled (value h) (- Z.of_nat scale)).
Proof.
  intros Hh Hx Hs. destruct (huge_bounds scale Hs) as (Hp & Hbig & H127). pose proof (power_ok scale Hs) as Hpok. unfold TryCastHugeDecimalToNumeric.
  rewrite power_of_run by lia. destruct (huge_rounding (value h) scale Hs Hx) as [Hsum Hq]. set (p := 10 ^ Z.of_nat scale) in *. pose proof (value_of_value p) as Hpv.
  destruct (small_of 0 ltac:(lia)) as [Hok0 Hv0]. destruct (small_of 2 ltac:(lia)) as [Hok2 Hv2].
  assert (Hsign : (if HugeintLessThan h (hugeint_of 0) then HugeintNegate (of_value p) else of_value p) = of_value (if value h <? 0 then - p else p)).
  { rewrite less_value, Hv0 by assumption. destruct (value h <? 0); [|reflexivity]. apply negate_result. lia. }
  rewrite Hsign. set (sp := if value h <? 0 then - p else p) in *.
  assert (Hsp : huge_ok (of_value sp)) by (apply of_value_ok; unfold in_s; change (128 - 1) with 127; subst sp; destruct (value h <? 0); lia).
  rewrite (divmod_exact (of_value sp)) by (assumption || (rewrite Hv2; lia)). rewrite value_of_value, Hv2. cbn [run mbind attempt_bind checked_bind mret attempt_ret checked_ret quotient].
  assert (Hhalf : in_s 128 (Z.quot sp 2)).
  { pose proof (value_range _ Hsp) as Hr. rewrite value_of_value in Hr. unfold in_s in *. change (128 - 1) with 127 in *.
    pose proof (Z.quot_rem sp 2 ltac:(lia)). pose proof (Z.rem_bound_abs sp 2 ltac:(lia)). lia. }
  rewrite (wrapped_small (Z.quot sp 2) Hhalf). apply of_value_ok in Hhalf. rewrite add_wrapped, value_of_value by assumption.
  assert (Hsum' : in_s 128 (value h + Z.quot sp 2)) by (unfold in_s; change (128 - 1) with 127; lia). rewrite (wrapped_small (value h + _) Hsum'). apply of_value_ok in Hsum'.
  rewrite divmod_exact; rewrite ?value_of_value; [|assumption|assumption|lia]. rewrite Hq. cbn [run mbind attempt_bind checked_bind mret attempt_ret checked_ret quotient].
  assert (Hqr : in_s 128 (rescaled (value h) (- Z.of_nat scale))).
  { rewrite <- Hq. pose proof (Z.quot_rem (value h + Z.quot sp 2) p ltac:(lia)). pose proof (Z.rem_bound_abs (value h + Z.quot sp 2) p ltac:(lia)).
    unfold in_s. change (128 - 1) with 127. assert (Z.abs (Z.quot (value h + Z.quot sp 2) p) <= Z.abs (value h + Z.quot sp 2)); [|lia].
    rewrite <- Z.quot_abs, (Z.abs_eq p) by lia. apply (quot_below (Z.abs (value h + Z.quot sp 2)) p); lia. }
  rewrite (wrapped_small _ Hqr). apply of_value_ok in Hqr. rewrite try_cast_exact, value_of_value by assumption. unfold checked_result, in_type. by destruct (_ && _).
Qed.
End Huge.
