(* ===== verification/IntegerTheorems.v ===== *)
(** * Integers and decimals: theorems

    Checked arithmetic, integers and decimals as text in both directions, and the casts between them.
    Module [IntegerRun] holds the instances. *)

From Stdlib Require Import Ascii.
From S2P Require Import Prelude DateText DateTextFacts Hugeint HugeintFacts HugeintDivisionFacts Uhugeint UhugeintFacts IntegerOps IntegerOpsFacts.
From S2P Require Import IntegerCast IntegerCastFacts IntegerTextFacts NumberText IntegerDecimalFacts IntegerNumberFacts IntegerSimpleFacts.
From S2P Require Import HugeintCast HugeintCastFacts HugeintCastInstances IntegerFormat IntegerFormatFacts DecimalCast DecimalStoreFacts.
From S2P Require Import DecimalCastFacts DecimalTextFacts DecimalFormatFacts DecimalConvert DecimalConvertFacts.

Local Open Scope Z_scope.

(** ** Arithmetic *)

(** C20. On values of an integer type of 8 to 64 bits, signed or not, the checked addition, subtraction and
    multiplication ([TryAddOperator], [TrySubtractOperator], [TryMultiplyOperator]) return the exact result if the
    type holds it and [false] otherwise, and are never undefined; the multiplication of [BIGINT] with the
    compiler's overflow builtins only. *)
Theorem integer_operations_exact `{Compiler} t left right : of_type t left -> of_type t right ->
  TryAddOperator t left right = exactly t (left + right) /\ TrySubtractOperator t left right = exactly t (left - right) /\
  (HasOverflowBuiltins = true \/ t <> INT64 -> TryMultiplyOperator t left right = exactly t (left * right)).
Proof.
  intros Hl Hr. split; [by apply try_add_operator_exact|]. split; [by apply try_subtract_operator_exact|]. by apply try_multiply_operator_exact.
Qed.

(** Without the builtins, a product of [BIGINT]s that fits is still exact, unless it is the minimum of the type. *)
Theorem portable_multiply_exact `{Compiler} left right : of_type INT64 left -> of_type INT64 right -> Z.abs (left * right) < 2 ^ 63 ->
  TryMultiplyOperator INT64 left right = mret (left * right).
Proof.
  intros Hl Hr Hp. cbn [TryMultiplyOperator]. rewrite try_multiply64 by (done || by right). unfold checked_result.
  destruct (in_type_spec INT64 (left * right)) as [|Hout]; [done|]. exfalso. apply Hout. limits. numbers. lia.
Qed.

(** C21. On decimals of width 4, 9 and 18 the checked addition, subtraction and multiplication of the stored integers
    return the exact result if it has at most that many digits and [false] otherwise (the multiplication at width 18
    with the compiler's overflow builtins); on decimals of width 38 the 128-bit ones do. *)
Theorem decimal_operations_exact `{Compiler} `{Platform} :
  (forall d left right, Z.abs left <= decimal_max d -> Z.abs right <= decimal_max d ->
    TryDecimalAdd d left right = checked_result (Z.abs (left + right) <=? decimal_max d) (left + right) /\
    TryDecimalSubtract d left right = checked_result (Z.abs (left - right) <=? decimal_max d) (left - right) /\
    (HasOverflowBuiltins = true \/ d <> DECIMAL18 ->
      TryDecimalMultiply d left right = checked_result (Z.abs (left * right) <=? decimal_max d) (left * right))) /\
  (forall g h, huge_ok g -> huge_ok h -> let within z := if Z.abs z <? 10 ^ 38 then mret (of_value z) else (return_false : attempt hugeint_t) in
    HugeDecimal TryAddInPlace g h = within (value g + value h) /\ HugeDecimal TrySubtractInPlace g h = within (value g - value h) /\
    HugeDecimal TryMultiply g h = within (value g * value h)).
Proof.
  split.
  - intros d l r Hl Hr. assert (Hin : forall z, (- decimal_max d <=? z) && (z <=? decimal_max d) = (Z.abs z <=? decimal_max d)).
    { intros z. apply eq_bool_prop_intro. rewrite !Is_true_true, andb_true_iff, !Z.leb_le. lia. }
    rewrite <- !Hin. split; [apply try_decimal_add_exact; lia|]. split; [apply try_decimal_subtract_exact; lia|]. intros Hc. apply try_decimal_multiply_exact; [lia|lia|done].
  - intros g h Hg Hh within. assert (Hin : forall z, within z = if (- 10 ^ 38 <? z) && (z <? 10 ^ 38) then mret (of_value z) else return_false).
    { intros z. unfold within. assert (Z.abs z <? 10 ^ 38 = (- 10 ^ 38 <? z) && (z <? 10 ^ 38)) as ->; [|done].
      apply eq_bool_prop_intro. rewrite Is_true_true, Z.ltb_lt, Is_true_true, andb_true_iff, !Z.ltb_lt. lia. }
    rewrite !Hin. split; [apply huge_decimal_exact, try_add_exact; assumption|]. split; [apply huge_decimal_exact, try_subtract_exact; assumption|].
    by apply huge_decimal_multiply_exact.
Qed.

(** ** Text *)

(** C17. A text of an integer - spaces, a sign, digits that single underscores may separate, or hexadecimal or binary
    digits behind a prefix - is cast to its value exactly when the type holds it, and fails otherwise: for
    the types of up to 64 bits, [HUGEINT], and [UHUGEINT] in builds with [__int128]; the 128-bit ones for
    buffers shorter than 2^64. Behind a minus, an unsigned type reads zeros up to the end of the text, as 0;
    any other character behind the minus makes the cast fail, also in texts of zero like "-0 " or "-0_0". *)
Theorem integer_text_exact `{Compiler} `{Platform} strict buf z :
  (forall T, integer_text (is_signed T) strict buf z -> TrySimpleIntegerCast T buf strict = exactly T z) /\
  (Z.of_nat (length buf) < 2 ^ 64 ->
    (integer_text true strict buf z -> TryHugeIntegerCast buf strict = Some (Ok (exact z))) /\
    (integer_text false strict buf z -> HasInt128 = true ->
      TryHugeIntegerCast buf strict = Some (Ok (if (0 <=? z) && (z <? 2 ^ 128) then Some (of_uvalue z) else None)))) /\
  (forall lead rest, spaces lead -> only_zeros rest = false ->
    (forall T, is_signed T = false -> TrySimpleIntegerCast T (lead ++ code "-" :: rest) strict = return_false) /\
    TryHugeIntegerCast (lead ++ code "-" :: rest) strict = (return_false : attempt uhugeint_t)).
Proof.
  split; [intros T; apply simple_text_exact|]. split.
  - intros Hfits. split; [by apply hugeint_cast_exact|]. intros Htext H128. by apply uhugeint_cast_exact.
  - intros lead rest Hl Hz. split; [intros T Hs; by apply simple_minus_rejected|by apply uhugeint_minus_rejected].
Qed.

(** C18. A number with at most 18 decimals and an exponent of 16 bits is cast, in the mode that is not strict, to an
    integer type as its value rounded half away from zero; the cast fails only if the type does not hold the
    rounded value, if the digits before the point do not fit into the 64-bit word they are gathered in, or if
    the type is unsigned and anything but zeros follows a minus (so "-0.4" fails although it rounds to 0). *)
Theorem number_text_rounds `{Compiler} T NEGATIVE lead pre itext ids ftext fds etext e : spaces lead ->
  number_text NEGATIVE pre itext ids ftext fds etext e -> (length fds <= 18)%nat ->
  exists r, TrySimpleIntegerCast T (lead ++ pre ++ itext ++ ftext ++ etext) false = Some (Ok r) /\
    match r with
    | Some z => of_type T z /\ z = number_value NEGATIVE ids fds e
    | None => (NEGATIVE = true /\ is_signed T = false /\ only_zeros (itext ++ ftext ++ etext) = false) \/
        ~ of_type (store_t T) (signed NEGATIVE (digits_value 0 ids)) \/ ~ of_type T (number_value NEGATIVE ids fds e)
    end.
Proof. intros Hl Htext Hlen. exact (simple_number_exact T NEGATIVE lead pre itext ids ftext fds etext e Hl Htext Hlen). Qed.

(** C16. A number without an exponent is cast to a decimal of any width and scale as its value rounded half away from
    zero to the scale, exactly when that has at most [width] digits, and fails otherwise: for the stores
    of 16, 32, 64 and 128 bits. *)
Theorem decimal_text_rounds `{Platform} NEGATIVE lead pre itext ids ftext fds trail e width scale : spaces lead -> spaces trail ->
  number_text NEGATIVE pre itext ids ftext fds trail e -> (scale <= width)%nat ->
  let m := decimal_value (digits_value 0 ids) (digits_value 0 fds) (Z.of_nat (length fds)) (Z.of_nat scale) in
  let buf := lead ++ pre ++ itext ++ ftext ++ trail in
  (forall d, (width <= max_digits d)%nat ->
    TryDecimalStringCast (code ".") buf width scale = if m <? 10 ^ Z.of_nat width then mret (Stored (signed NEGATIVE m) : stored (stored_in d)) else return_false) /\
  ((width <= 38)%nat ->
    TryDecimalStringCast (code ".") buf width scale = if m <? 10 ^ Z.of_nat width then mret (of_value (signed NEGATIVE m)) else return_false).
Proof.
  intros Hl Ht Htext Hs m buf. subst buf. split.
  - intros d Hw. destruct (decimal_cast_exact (SL := Decimal_store_laws d) width scale Hw Hs NEGATIVE lead pre itext ids ftext fds trail e Hl Htext Ht) as ([[r]|] & -> & Hr); fold m in Hr.
    + destruct Hr as [(_ & Hv & _) Hlt]. cbn in Hv. subst r. by rewrite (proj2 (Z.ltb_lt _ _) Hlt).
    + apply Z.nlt_ge, Z.ltb_ge in Hr. by rewrite Hr.
  - intros Hw. destruct (decimal_cast_exact (SL := Hugeint_store_laws) width scale Hw Hs NEGATIVE lead pre itext ids ftext fds trail e Hl Htext Ht) as ([r|] & -> & Hr); fold m in Hr.
    + destruct Hr as [(Hok & Hv & _) Hlt]. cbn in Hok, Hv. rewrite (proj2 (Z.ltb_lt _ _) Hlt), <- Hv. by rewrite of_value_value.
    + apply Z.nlt_ge, Z.ltb_ge in Hr. by rewrite Hr.
Qed.

(** C19. For any text the casts to integers of up to 64 bits, to [HUGEINT] and, in builds with [__int128], [UHUGEINT] (of
    buffers shorter than 2^64) and to decimals (with a separator that is not a space, a width their store
    can have and a scale up to the width) end: they read only inside of the buffer, are never undefined,
    throw nothing, and give a value of the type or [false]. *)
Theorem casts_total `{Compiler} `{Platform} (buf : list Z) strict :
  (forall T, exists r, TrySimpleIntegerCast T buf strict = Some (Ok r) /\ (forall z, r = Some z -> of_type T z)) /\
  (Z.of_nat (length buf) < 2 ^ 64 -> exists r, TryHugeIntegerCast buf strict = Some (Ok r) /\ (forall h : hugeint_t, r = Some h -> huge_ok h)) /\
  (Z.of_nat (length buf) < 2 ^ 64 -> HasInt128 = true ->
    exists r, TryHugeIntegerCast buf strict = Some (Ok r) /\ (forall h : uhugeint_t, r = Some h -> uhuge_ok h)) /\
  (forall separator d width scale, CharacterIsSpace separator = false -> (width <= max_digits d)%nat -> (scale <= width)%nat ->
    exists r, TryDecimalStringCast separator buf width scale = Some (Ok r) /\ (forall v : stored (stored_in d), r = Some v -> of_type (stored_in d) (stored_value v))) /\
  (forall separator width scale, CharacterIsSpace separator = false -> (width <= 38)%nat -> (scale <= width)%nat ->
    exists r, TryDecimalStringCast separator buf width scale = Some (Ok r) /\ (forall h : hugeint_t, r = Some h -> huge_ok h)).
Proof.
  assert (Hof : forall A (m : attempt A) (P : A -> Prop), returns m P True -> exists r, m = Some (Ok r) /\ (forall x, r = Some x -> P x)).
  { intros A m P (r & -> & Hr). exists r. split; [done|]. by intros x ->. }
  split; [intros T; apply Hof, simple_cast_total|]. split; [intros Hfits; apply Hof, (huge_cast_total (HL := Hugeint_laws) buf strict Hfits)|].
  split; [intros Hfits H128; apply Hof, (huge_cast_total (HL := Uhugeint_laws H128) buf strict Hfits)|].
  split; [intros separator d width scale Hsep Hw Hs; by apply Hof, (decimal_cast_total (SL := Decimal_store_laws d))|].
  intros separator width scale Hsep Hw Hs. by apply Hof, (decimal_cast_total (SL := Hugeint_store_laws)).
Qed.

(** C23. The text of an integer of up to 64 bits, and of a [HUGEINT], fills exactly the buffer of the length computed
    for it, and is cast back to the same value, in strict mode too. *)
Theorem integer_text_round_trip `{Compiler} `{Platform} strict :
  (forall T z, of_type T z -> exists text, FormatSigned T z = mret text /\ TrySimpleIntegerCast T text strict = mret z) /\
  (forall h, huge_ok h -> exists text, FormatSignedHuge h = mret text /\ TryHugeIntegerCast text strict = mret h).
Proof.
  split.
  - intros T z Hz. destruct (format_signed T z Hz) as (ds & E & Hds). eexists. split; [exact E|].
    rewrite (simple_text_exact T _ strict z); [unfold checked_result; by destruct (in_type_spec T z)|].
    apply digits_integer_text; [done|]. intros Hneg. destruct T; try done; limits; lia.
  - intros h Hh. destruct (format_signed_huge h Hh) as (ds & E & Hds). eexists. split; [exact E|].
    rewrite (hugeint_cast_exact _ strict (value h)); [rewrite exact_some by (by apply value_range); by rewrite of_value_value| |by apply digits_integer_text].
    assert (Hlen : Z.of_nat (length ds) <= 40).
    { destruct (digits_minimal _ _ Hds) as (_ & _ & [?|Hge]); [lia|]. apply Z.nlt_ge. intros Hlt. pose proof (value_range h Hh) as Hr. unfold in_s in Hr. change (128 - 1) with 127 in Hr.
      assert (10 ^ 40 <= 10 ^ (Z.of_nat (length ds) - 1)) by (apply Z.pow_le_mono_r; lia). assert (2 ^ 127 < 10 ^ 40) by (by vm_compute). lia. }
    assert (41 < 2 ^ 64) by (by vm_compute). destruct (value h <? 0); cbn [length]; lia.
Qed.

(** C22. The text of a decimal with at most [width] digits fills exactly the buffer of the length computed for it, and is
    cast back to the same decimal: for the stores of 16, 32, 64 and 128 bits. *)
Theorem decimal_text_round_trip `{Platform} width scale : (scale <= width)%nat ->
  (forall d v, (width <= max_digits d)%nat -> Z.abs v < 10 ^ Z.of_nat width ->
    exists text, DecimalFormat (stored_in d) v width scale = mret text /\
      TryDecimalStringCast (code ".") text width scale = mret (Stored v : stored (stored_in d))) /\
  (forall h, (width <= 38)%nat -> huge_ok h -> Z.abs (value h) < 10 ^ Z.of_nat width ->
    exists text, DecimalFormatHuge h width scale = mret text /\ TryDecimalStringCast (code ".") text width scale = mret h).
Proof.
  intros Hs. split.
  - intros d v Hw Hv. destruct (decimal_format d width scale Hw Hs v Hv) as (body & E & Hbody). eexists. split; [exact E|].
    destruct (text_read_back (SL := Decimal_store_laws d) width scale Hw Hs v body Hbody Hv) as ([r] & -> & _ & Hr). cbn in Hr. by subst r.
  - intros h Hw Hh Hv. destruct (decimal_format_huge width scale Hw Hs h Hh Hv) as (body & E & Hbody). eexists. split; [exact E|].
    destruct (text_read_back (SL := Hugeint_store_laws) width scale Hw Hs (value h) body Hbody Hv) as (r & -> & Hok & Hr). cbn in Hok, Hr.
    f_equal. f_equal. f_equal. by apply value_inj.
Qed.

(** ** Casts *)

(** C24. An integer is cast to a decimal exactly when it has few enough digits, a decimal to an integer as its value
    rounded half away from zero if the type holds that, and a decimal to another width and scale as its value
    rounded half away from zero if that has few enough digits; otherwise the cast reports an error. Nothing
    overflows on the way, in the stores of 16, 32 and 64 bits, or of 128 bits in the first two casts. *)
Theorem decimal_conversions_exact `{Platform} :
  (forall SRC d x width scale, of_type SRC x -> (width <= max_digits d)%nat -> (scale <= width)%nat -> let v := x * 10 ^ Z.of_nat scale in
    StandardNumericToDecimalCast SRC d x width scale = checked_result (fits_width width v) v) /\
  (forall h width scale, huge_ok h -> (width <= 38)%nat -> (scale <= width)%nat -> let v := value h * 10 ^ Z.of_nat scale in
    huge_to_decimal h width scale = if fits_width width v then mret (of_value v) else return_false) /\
  (forall d DST x scale, Z.abs x < 10 ^ Z.of_nat (max_digits d) -> (scale <= max_digits d)%nat ->
    TryCastDecimalToNumeric d DST x scale = exactly DST (rescaled x (- Z.of_nat scale))) /\
  (forall DST h scale, huge_ok h -> Z.abs (value h) < 10 ^ 38 -> (scale <= 38)%nat ->
    TryCastHugeDecimalToNumeric DST h scale = exactly DST (rescaled (value h) (- Z.of_nat scale))) /\
  (forall s d source_width source_scale result_width result_scale x, (source_width <= max_digits s)%nat -> (result_width <= max_digits d)%nat ->
    (source_scale <= source_width)%nat -> (result_scale <= result_width)%nat -> Z.abs x < 10 ^ Z.of_nat source_width ->
    let v := rescaled x (Z.of_nat result_scale - Z.of_nat source_scale) in
    DecimalDecimalCast s d source_width source_scale result_width result_scale x = checked_result (fits_width result_width v) v).
Proof.
  split; [intros; by apply to_decimal_exact|]. split; [intros; by apply huge_to_decimal_exact|]. split; [intros; by apply from_decimal_exact|].
  split; [intros; by apply from_huge_decimal_exact|]. intros. by apply decimal_rescale_exact.
Qed.

(** ** Instances *)

Module IntegerRun.

Definition with_builtins : Compiler := {| HasOverflowBuiltins := true |}.
Definition without_builtins : Compiler := {| HasOverflowBuiltins := false |}.
Definition int128_build : Platform := {| HasInt128 := true |}.
Definition plain_build : Platform := {| HasInt128 := false |}.
Definition point : Z := code ".".

Ltac digits_of := first [by apply grouped_one|apply grouped_underscore; [reflexivity|reflexivity|digits_of]|apply grouped_digit; [reflexivity|digits_of]].

Lemma no_spaces : spaces [].
Proof. constructor. Qed.
Lemma one_space : spaces (codes " ").
Proof. by repeat constructor. Qed.

(** The bounds of the types are met but not passed. *)
Lemma integer_operations_exact_witness :
  TryAddOperator (H := with_builtins) INT32 2147483647 (-1) = mret 2147483646 /\ TrySubtractOperator (H := with_builtins) INT32 2147483647 (-1) = return_false /\
  TryMultiplyOperator (H := without_builtins) INT8 (-64) 2 = mret (-128) /\ TryMultiplyOperator (H := with_builtins) INT64 4294967296 2147483648 = return_false.
Proof.
  destruct (integer_operations_exact (H := with_builtins) INT32 2147483647 (-1)) as (Ha & Hs & _); [limits; lia|limits; lia|].
  destruct (integer_operations_exact (H := without_builtins) INT8 (-64) 2) as (_ & _ & Hm); [limits; lia|limits; lia|].
  destruct (integer_operations_exact (H := with_builtins) INT64 4294967296 2147483648) as (_ & _ & Hn); [limits; lia|limits; lia|].
  split; [exact Ha|]. split; [exact Hs|]. split; [apply Hm; by right|apply Hn; by left].
Defined.

(** 99.99 + 0.01 does not fit into DECIMAL(4,2), 99.98 + 0.01 does. *)
Lemma decimal_operations_exact_witness :
  TryDecimalAdd DECIMAL4 9999 1 = return_false /\ TryDecimalAdd DECIMAL4 9998 1 = mret 9999 /\
  HugeDecimal (H := plain_build) (TryMultiply (H := plain_build)) (hugeint_of 100000) (hugeint_of (-7)) = mret (hugeint_of (-700000)).
Proof.
  destruct (decimal_operations_exact (H := without_builtins) (H0 := plain_build)) as [Hd Hh].
  destruct (Hd DECIMAL4 9999 1) as (Ha & _); [done|done|]. destruct (Hd DECIMAL4 9998 1) as (Hb & _); [done|done|].
  destruct (Hh (hugeint_of 100000) (hugeint_of (-7))) as (_ & _ & Hm); [by apply hugeint_of_ok..|].
  split; [exact Ha|]. split; [exact Hb|]. exact Hm.
Defined.

(** Underscores and spaces; a value past the type; hexadecimal digits. *)
Lemma integer_text_exact_witness :
  TrySimpleIntegerCast (H := without_builtins) INT16 (codes " -1_000 ") false = mret (-1000) /\ TrySimpleIntegerCast (H := without_builtins) UINT8 (codes "256") true = return_false /\
  TryHugeIntegerCast (H := Hugeint_operation (H := plain_build)) (codes "0x1F") false = mret (hugeint_of 31) /\
  TrySimpleIntegerCast (H := without_builtins) UINT32 (codes " -5") false = return_false.
Proof.
  destruct (integer_text_exact (H := without_builtins) (H0 := plain_build) false (codes " -1_000 ") (-1000)) as [H1 _].
  destruct (integer_text_exact (H := without_builtins) (H0 := plain_build) true (codes "256") 256) as [H2 _].
  destruct (integer_text_exact (H := without_builtins) (H0 := plain_build) false (codes "0x1F") 31) as [_ H3].
  split; [apply (H1 INT16), (text_minus true false (codes " ") (codes "1_000") (codes "1000") (codes " ")); [done|apply one_space|digits_of|apply one_space]|].
  split; [apply (H2 UINT8), (text_digits false true [] (codes "256") (codes "256") []); [apply no_spaces|digits_of|apply no_spaces|done]|].
  destruct H3 as [H3 H4]. split.
  - destruct H3 as [H3 _]; [done|]. apply H3, (text_hex true false [] (code "x") (codes "1F") (codes "1F")); [apply no_spaces|by left|digits_of].
  - destruct (H4 (codes " ") (codes "5")) as [H5 _]; [apply one_space|done|]. by apply (H5 UINT32).
Defined.

(** Half away from zero, with an exponent; an unsigned type does not read it. *)
Lemma sample_number : number_text true (codes "-") (codes "2") (codes "2") (codes ".25") (codes "25") (codes "e1") 1.
Proof.
  split.
  - apply minus_sign.
  - right. digits_of.
  - apply fraction. digits_of.
  - apply (with_exponent (code "e") false [] (codes "1") (codes "1") []); [by left|apply no_sign|digits_of|apply no_spaces|split; reflexivity || done].
  - by left.
Qed.

Lemma number_text_rounds_witness :
  TrySimpleIntegerCast (H := without_builtins) INT32 (codes "-2.25e1") false = mret (-23) /\
  TrySimpleIntegerCast (H := without_builtins) UINT32 (codes "-2.25e1") false = return_false.
Proof.
  pose proof (number_text_rounds (H := without_builtins)) as Hround. split.
  - destruct (Hround INT32 true [] _ _ _ _ _ _ _ no_spaces sample_number) as ([r|] & Hcast & Hr); [cbn; lia|..].
    + destruct Hr as [_ Hv]. rewrite Hv in Hcast. exact Hcast.
    + exfalso. destruct Hr as [(_ & [=] & _)|[Hr|Hr]]; apply Hr; vm_compute; split; discriminate.
  - destruct (Hround UINT32 true [] _ _ _ _ _ _ _ no_spaces sample_number) as ([r|] & Hcast & Hr); [cbn; lia|..]; [|exact Hcast].
    exfalso. destruct Hr as [[Hr _] ->]. vm_compute in Hr. by apply Hr.
Defined.

Lemma decimal_text_rounds_witness :
  TryDecimalStringCast point (codes "-0.125") 3 2 = mret (Stored (-13) : stored (stored_in DECIMAL4)) /\
  TryDecimalStringCast (H := Hugeint_store (H := plain_build)) point (codes "99.995") 4 2 = return_false.
Proof.
  split.
  - destruct (decimal_text_rounds (H := plain_build) true [] (codes "-") (codes "0") (codes "0") (codes ".125") (codes "125") [] 0 3 2) as [Hd _];
      [apply no_spaces|apply no_spaces| |lia|apply (Hd DECIMAL4); cbn; lia].
    split; [apply minus_sign|right; digits_of|apply fraction; digits_of|constructor; apply no_spaces|by left].
  - destruct (decimal_text_rounds (H := plain_build) false [] [] (codes "99") (codes "99") (codes ".995") (codes "995") [] 0 4 2) as [_ Hd];
      [apply no_spaces|apply no_spaces| |lia|apply Hd; lia].
    split; [apply no_sign|right; digits_of|apply fraction; digits_of|constructor; apply no_spaces|by left].
Defined.

(** A number with more digits than 64 bits hold, decimals and an exponent, by every cast. *)
Lemma casts_total_witness : let buf := codes " -00123456789012345678901234567890.125e-16" in
  (exists r, TrySimpleIntegerCast (H := without_builtins) INT64 buf false = Some (Ok r) /\ (forall z, r = Some z -> of_type INT64 z)) /\
  (exists r, TryHugeIntegerCast (H := Hugeint_operation (H := int128_build)) buf false = Some (Ok r) /\ (forall h : hugeint_t, r = Some h -> huge_ok h)) /\
  (exists r, TryHugeIntegerCast (H := Uhugeint_operation (H := int128_build)) (drop 2 buf) false = Some (Ok r) /\ (forall h : uhugeint_t, r = Some h -> uhuge_ok h)) /\
  (exists r, TryDecimalStringCast point buf 18 3 = Some (Ok r) /\ (forall v : stored (stored_in DECIMAL18), r = Some v -> of_type (stored_in DECIMAL18) (stored_value v))) /\
  exists r, TryDecimalStringCast (H := Hugeint_store (H := int128_build)) point buf 38 4 = Some (Ok r) /\ (forall h : hugeint_t, r = Some h -> huge_ok h).
Proof.
  intros buf. destruct (casts_total (H := without_builtins) (H0 := int128_build) buf false) as (H1 & H2 & _ & H4 & H5).
  destruct (casts_total (H := without_builtins) (H0 := int128_build) (drop 2 buf) false) as (_ & _ & H3 & _).
  split; [apply H1|]. split; [by apply H2|]. split; [by apply H3|]. split; [apply (H4 point DECIMAL18); cbn; done || lia|apply H5; cbn; done || lia].
Defined.

Lemma integer_text_round_trip_witness :
  exists text, FormatSigned INT16 (-32768) = mret text /\ TrySimpleIntegerCast (H := without_builtins) INT16 text true = mret (-32768).
Proof. by apply (proj1 (integer_text_round_trip (H := without_builtins) (H0 := plain_build) true) INT16 (-32768)). Defined.

Lemma decimal_text_round_trip_witness :
  exists text, DecimalFormat (stored_in DECIMAL9) (-5) 5 3 = mret text /\ TryDecimalStringCast point text 5 3 = mret (Stored (-5) : stored (stored_in DECIMAL9)).
Proof. destruct (decimal_text_round_trip (H := plain_build) 5 3) as [Hd _]; [lia|]. apply Hd; [cbn; lia|done]. Defined.

(** 12.5 is 13, and 9.95 does not fit into DECIMAL(2,1). *)
Lemma decimal_conversions_exact_witness :
  TryCastDecimalToNumeric DECIMAL4 INT8 (-125) 1 = mret (-13) /\ DecimalDecimalCast DECIMAL9 DECIMAL4 5 2 2 1 995 = return_false /\
  StandardNumericToDecimalCast INT64 DECIMAL4 99 4 2 = mret 9900.
Proof.
  destruct (decimal_conversions_exact (H := plain_build)) as (H1 & _ & H2 & _ & H3). split; [|split].
  - apply (H2 DECIMAL4 INT8 (-125) 1%nat); [done|cbn; lia].
  - apply (H3 DECIMAL9 DECIMAL4 5%nat 2%nat 2%nat 1%nat 995); cbn; done || lia.
  - apply (H1 INT64 DECIMAL4 99 4%nat 2%nat); cbn; done || lia.
Defined.

(** ** Surprising results *)

(** Without the builtins the multiplication of [BIGINT] overflows, which is undefined, and rejects the minimum. *)
Lemma portable_multiply_misses_overflow : let TryMultiply := TryMultiplyOperator (H := without_builtins) INT64 in
  TryMultiply 67108864 4611686018427387904 = None /\ TryMultiply 4294967295 4294967295 = None /\ TryMultiply (-4294967296) 2147483648 = return_false.
Proof. by vm_compute. Qed.

(** A decimal digit that does not fit into the 64-bit word is dropped, and a smaller one behind it taken. *)
Lemma decimal_digit_skipped : let TryCast T text := TrySimpleIntegerCast (H := without_builtins) T (codes text) false in
  TryCast INT64 "0.92233720368547758087e19"%string = mret 9223372036854775807 /\
  TryCast UINT64 "0.184467440737095516193e20"%string = mret 18446744073709551613.
Proof. by vm_compute. Qed.

(** The whole part is gathered in 64 bits before a negative exponent makes it small. *)
Lemma whole_part_before_exponent : let TryCast text := TrySimpleIntegerCast (H := without_builtins) INT64 (codes text) false in
  TryCast "99999999999999999999e-5"%string = return_false /\ TryCast "9999999999999999999e-5"%string = return_false /\
  TryCast "999999999999999999e-5"%string = mret 10000000000000.
Proof. by vm_compute. Qed.

(** Leading zeros are accepted behind a minus in strict mode, and zero with a minus is one only at the end of the text. *)
Lemma signs_of_zeros : let TryCast T text := TrySimpleIntegerCast (H := without_builtins) T (codes text) in
  TryCast INT32 "01"%string true = return_false /\ TryCast INT32 "-01"%string true = mret (-1) /\
  TryCast UINT32 "0 "%string false = mret 0 /\ TryCast UINT32 "-0"%string false = mret 0 /\ TryCast UINT32 "-0 "%string false = return_false.
Proof. by vm_compute. Qed.

Lemma hugeint_many_decimals : let TryCast text := TryHugeIntegerCast (H := Hugeint_operation (H := int128_build)) (codes text) false in
  TryCast "0.12345678901234567890123456789012345678"%string = mret (hugeint_of 0) /\
  TryCast "0.1234567890123456789012345678901234567890"%string = return_false.
Proof. by vm_compute. Qed.

(** An exponent leads past the width: 990.0 in DECIMAL(3,1), ten digits in DECIMAL(9,0). *)
Lemma decimal_exponent_exceeds_width :
  TryDecimalStringCast point (codes "0.99e3"%string) 3 1 = mret (Stored 9900 : stored (stored_in DECIMAL4)) /\
  TryDecimalStringCast point (codes "990"%string) 3 1 = (return_false : attempt (stored (stored_in DECIMAL4))) /\
  TryDecimalStringCast point (codes "0.1234567890123e10"%string) 9 0 = mret (Stored 1234567890 : stored (stored_in DECIMAL9)).
Proof. by vm_compute. Qed.

(** True is 0.001 in DECIMAL(3,3). *)
Lemma bool_without_whole_digits : TryCastBoolToDecimal DECIMAL4 true 3 3 = mret 1 /\ StandardNumericToDecimalCast INT32 DECIMAL4 1 3 3 = return_false.
Proof. by vm_compute. Qed.

End IntegerRun.
